(* ===== verification/_CoqProject ===== *)
-Q . S2P
Prelude.v
Tables.v
KeyedTable.v
Packet.v
PacketSpec.v
Dedup.v
ReplayWindow.v
ReplayWindowSpec.v
ReplayBlob.v
ReplayDeferred.v
NonceCounter.v
Fragment.v
Mailbox.v
Airtime.v
TxGate.v
Reliability.v
Routing.v
Forwarding.v
RoutingSpec.v
NeighborSpec.v
NetworkKey.v
RoutingAuth.v
Discovery.v
ChannelFlood.v
Security.v
Timesync.v
MeshRouting.v
MeshRoutingSpec.v
DmCrypto.v
DmRatchet.v
DmRatchetSpec.v
DmTable.v
MsgStore.v
MsgStoreSpec.v
Identity.v
IdentityStore.v
IdentityStoreSpec.v
Channel.v
MeshDm.v
MeshDmSpec.v
Receipts.v
MeshRx.v
MeshRxSpec.v
MeshReceiptSpec.v
ParkedRetry.v
Beacon.v
Probe.v
Rollcall.v
RollcallSpec.v
Location.v
MeshState.v
MeshSend.v
MeshSendSpec.v
MeshBeacon.v
MeshBeaconSpec.v
MeshProbe.v
MeshPinSpec.v
MeshRollcall.v
MeshRollcallSpec.v
MeshLocation.v
LocationSpec.v
LocationStoreSpec.v
MeshLocationSpec.v
ChannelStore.v
ChannelStoreSpec.v
MeshTick.v
MeshTickSpec.v
CString.v
Ota.v
OtaSpec.v
WsServer.v
WsServerSpec.v
Timezone.v
TimezoneSpec.v
Nmea.v
GpsFeed.v
GpsSpec.v
MsgFlash.v
MsgFlashSpec.v
BleServer.v
