(* ===== verification/Prelude.v ===== *)
(** * Bramble mesh firmware: a verification library

    Bramble is a LoRa mesh messenger.  Its C firmware ([src/components] and
    [src/main]) runs one mesh task that parses received frames, filters
    duplicates and replays, authenticates control frames, maintains neighbor and
    route tables, forwards, stores or delivers data, and hands every
    transmission to one gate that keeps the regulatory duty cycle.  This library
    translates that core into executable definitions, one file per component,
    and proves what the components promise one another.

    ** Parts and files

    - [Prelude]: machine integers as [Z] with their casts ([u8] .. [u64], [⊖] is
      [uint32_t] subtraction), byte buffers with bounds ([rdn], [rd], [wr], [in_buf]
      return [None] on an access outside the buffer), big- and little-endian fields, and
      the tactics [cint], [conds], [split_if].
    - [Tables], [KeyedTable]: the firmware's fixed arrays with a live count or
      with used flags (searches, append, swap-remove, the two purge loops) and
      their meaning as lists and, when keyed, as finite maps ([tmap]).
    - [Packet], [PacketSpec]: [components/packet/packet.c], every frame's
      serializer and parser, the associated data, UTF-8 truncation; the wire
      formats and the theorems on them.
    - [Dedup]: [components/dedup/dedup.c], the packet-id cache.
    - [ReplayWindow], [ReplayWindowSpec], [ReplayBlob]:
      [components/replay_window/replay_window.c], the per-sender 64-bit windows,
      slot allocation under flooding, and the persisted blob with its CRC.
    - [ReplayDeferred]: [replay_deferred.c], acceptance of stored-and-forwarded
      frames.
    - [NonceCounter]: [components/nonce_counter], the nonce counter and its
      reservation of counter ranges in flash; storage is a class [NonceStore].
    - [Fragment]: [components/fragment/fragment.c], splitting and reassembly.
    - [Mailbox]: [components/mailbox/mailbox.c], store and forward.
    - [Airtime], [TxGate]: [components/airtime/airtime_budget.c] and
      [components/radio/tx_gate.c], the token buckets and the transmit gate with
      listen-before-talk; the radio, clock and random source are per-call values
      and the floating-point time on air is a parameter.
    - [Reliability]: [components/reliability/reliability.c] and the retry tick of
      [main/mesh_task.c].
    - [Routing], [Forwarding], [RoutingSpec], [NeighborSpec]:
      [components/routing/routing.c] and [forwarding.c], the neighbor, route,
      query and reverse-route tables, link penalties, forwarding and route
      errors; refinement to maps, trust classes, tenure.
    - [NetworkKey], [RoutingAuth]: [components/network_key] and
      [components/routing_auth], key provisioning, the domain-separated MAC and
      what it binds.  HMAC-SHA256 is a parameter; the class [HmacLaws] states its
      output size.
    - [Discovery]: [components/routing/discovery.c], route requests and replies.
    - [ChannelFlood]: [components/routing/channel_flood.c] and the flood relay
      queue.
    - [Security]: [components/security/security.c], the ingress rate limits.
    - [Timesync]: [components/timesync/timesync.c], network time.
    - [MeshRouting], [MeshRoutingSpec]: [main/mesh_routing.c], the handlers of
      route requests, replies and errors and of data to forward, composed from
      the components above over the shared node state, with frames sent as
      events.
    - [DmCrypto], [DmRatchet], [DmRatchetSpec], [DmTable]:
      [components/dm_session/dm_session.c], the handshake secret, tags and
      messages, the ratchet with its skip cache and epoch change, the session
      table.  X25519, HKDF, HMAC and AES-GCM are the class [DmCrypto]; the class
      [DmCryptoLaws] states their sizes, that the exchange commutes and that
      decryption undoes encryption.
    - [MsgStore], [MsgStoreSpec]: [components/msg_store/msg_store.c], the message
      log; writes to flash are its output.
    - [Identity]: [components/identity/identity.c] and
      [components/crypto/crypto_entropy.c], the node's own identity, trust anchor
      and endorsement over the store class [IdStore] with the host store as
      instance; the signature check and the hash are the class [IdCrypto].
    - [IdentityStore], [IdentityStoreSpec]:
      [components/identity/identity_store.c] with its saving and loading in
      [main/mesh_persist.c] and [main/mesh_task.c], the pinned identities.
    - [Channel]: [components/channel/channel_key.c] and [channel_msg.c], channel
      keys, epochs, trial decryption with its budget.
    - [MeshDm], [MeshDmSpec]: [main/mesh_dm.c], the direct-message handlers over a
      node state and a state monad that fails on an access outside a buffer; the
      specification file holds a calculus of total-correctness triples for it.
    - [Receipts]: [main/broadcast_delivery_receipt.c] and
      [main/delivery_event_ring.c], receipt policy and timing, the delivery log.
    - [MeshRx], [MeshRxSpec], [MeshReceiptSpec]: reception of data,
      acknowledgements and receipts ([main/mesh_reliability.c], the duplicate
      gate, the data case and [handle_data] of [main/mesh_task.c]) over the states
      of [MeshDm] and [MeshRouting] and a monad that fails on an access outside a
      buffer; what reaches the clients is an event, verdicts of the transmit gate
      and allocations are drawn.
    - [ParkedRetry], [Beacon], [Probe], [Rollcall], [RollcallSpec], [Location],
      [LocationSpec], [LocationStoreSpec]: the cores of parked-message retries,
      beacons and their interval, reach probes, attested roll-calls and shared
      positions ([main/parked_retry.c], [components/routing/beacon.c],
      [components/bramble_probe], [components/rollcall], [components/location]).
    - [MeshState], [MeshSend], [MeshSendSpec], [MeshBeacon], [MeshBeaconSpec],
      [MeshProbe], [MeshPinSpec], [MeshRollcall], [MeshRollcallSpec],
      [MeshLocation], [MeshLocationSpec]: the node's side of them, over one state
      of the mesh task: the send path and its queues ([main/mesh_task.c],
      [mesh_mailbox.c]), [mesh_beacon.c], [mesh_probe.c], [mesh_rollcall.c],
      [mesh_location.c].
    - [MeshTick], [MeshTickSpec]: the periodic pass and the dispatch of
      [main/mesh_task.c], one turn of its loop.
    - [ChannelStore], [ChannelStoreSpec]: [components/channel/channel_storage.c]
      and [main/mesh_channels.c], the channel table and its place in flash.
    - [CString]: what the sources use of the C library's strings.
    - [Ota], [OtaSpec]: [components/ota], versions, the rollback floor, origins,
      the update.
    - [WsServer], [WsServerSpec]: [components/rpc], [main/ws_server.c],
      [rpc_token.c], [ws_origin.c], [ws_auth_credential.c], remote calls and who
      may make them; JSON is a parameter.
    - [BleServer]: [components/ble], pairing codes, lines over Bluetooth and the
      task that answers them, advertising; the host's callbacks whole, the task and the
      notifications in small steps between them.
    - [Timezone], [TimezoneSpec]: [components/timezone].
    - [Nmea], [GpsFeed], [GpsSpec]: [components/gps], sentences, the receiver's
      feed, its power policy; single precision is computed, and what a cast out of
      range gives is the class [FloatCast].
    - [MsgFlash], [MsgFlashSpec]: [components/msg_store/msg_store_lfs.c], the
      message file as programs of file-system calls; littlefs is the class [Lfs]
      with the laws [LfsLaws], and a file system in memory is an instance.

    ** Correspondence

    A C struct is a record with its fields, an array a list of its declared size
    ([ctable] with its count), an enum an inductive type, a status code its
    integer.  A function that mutates its argument returns the new value beside
    its result; loops are structural recursions over the array or its indices,
    so few definitions need fuel: scans of a string (UTF-8, origins, subprotocols,
    version identifiers, path segments) take its length, since every step consumes
    a character; the pass over pending discoveries takes the table's count; decimal
    printing and the fit of a weekday into a month a constant number of steps; and
    the expiry loop of the message log one more than the number of rows
    ([expiry_terminates] shows that is enough).  Names are the code's; a helper that names part of a C
    function says so.  Times are [uint32_t] milliseconds; ages are wrapping
    differences as in the code, and theorems over real time say how real times
    are reduced.  An outer [option] is an access outside a buffer or array, and
    the safety theorems show it does not happen.

    ** What the theorems show

    - Wire formats: every well-formed frame survives serialization and parsing;
      no byte string makes a parser leave its buffer; lengths chosen by a sender
      are consistent after parsing; the associated data binds every header field
      but the hop limit.
    - Duplicates and replays: the caches' verdicts are exact; an accepted packet
      is never accepted again while its sender stays active, across floods and
      reboots; nonces are never reused across power loss, as long as reads of the
      reservation succeed.
    - Data: fragments in any order, duplicated and mixed with forgeries,
      reassemble to the message or not at all; the mailbox keeps its caps and
      evicts only the oldest; retransmissions are bounded and end.
    - Airtime: at a fixed mesh size, transmissions of any hour stay within the
      duty cycle, from every reachable state; rate limits bound what passes them
      over any stretch of time.
    - Routing: the tables are maps; a discovered route stems from a discovered
      install and survives breadcrumbs; an established neighbor has tenure; the
      handlers return on any bytes and only authentic and fresh replies to a
      question asked, and authentic and fresh route errors, change discovered routes; the MAC binds type and origin-stable fields and
      survives relaying; a discovery's hop counts and metric are those of its
      path; the relay queue sends what was scheduled, once.
    - Time: the first commit has a fresh quorum behind it and committed offsets
      lie between fresh offers.
    - Direct messages: two honest ends agree on a secret and open each other's
      frames, in any order within the window, each key once; the handlers return
      and keep the node well-formed under any interleaving, what they send and queue
      staying within its fixed arrays; sessions follow the
      authenticated or pinned key of their peer; without a session nothing on air
      depends on the text; re-handshakes are rate-limited.
    - Identities: a pin was attested (since the store was last empty; a reboot after an
      anchor change is the exception below), keeps its first binding and survives a
      reboot, as does the node's own identity.
    - Messages: the log is the list of what was appended and every operation on it is
      given exactly (at its default size of 20 rows; the T-Deck Plus build sets 200),
      and its expiry ends; trial decryption equals
      its specification, delivers what was sent, and garbage costs a bounded
      number of decryptions.
    - Reception: a frame delivers at most one message, and only one that is fresh (on the
      public channel only to the duplicate gate), authentic, for this node and readable; acknowledgements take effect only
      when authentic; the receipt queue drains; the delivery log is exact.
    - Sending and upkeep: the send path and the periodic pass return and keep the
      node well-formed; a queued message is sent or marked failed when its time is
      up; beacons, attestations and roll-call answers count only with the key they
      claim; a pinned key overrules a session.
    - Positions: each tier of sharing carries no more than it says, shares follow
      the rules in force when the schedule finds them due, and a peer's position is one it sent.
    - Stored state: on flash that does not fail channels survive a reboot; the message
      log survives a loss of power at any call of a single write, except while old
      records are dropped.
    - Access and updates: methods run and notifications go only to connections
      that proved the token, over the network by their own handshake, over Bluetooth
      as of the test of the flag; text over Bluetooth leaves after a test of the link,
      to the client tested unless another connected meanwhile; on flash that does not
      fail the update never goes below a version that booted, and versions are ordered
      as semantic versioning says.
    - Time and place: the parser of time zones accepts the texts of a grammar and no
      others (short of numbers of ten digits), civil dates and transition rules are the
      calendar's and local time follows them; the position is the one the receiver last gave, and the
      feed reads the same lines however its bytes are cut.
    - Where the code does something other than its comments say, a theorem shows
      the behaviour as it is (replay gaps of deferred acceptance, a nonce reader
      that reports failure as zero, bucket refills on mesh-size changes, retry
      deadlines across clock wrap, the last relay's self route, route errors that
      stop after one hop, the bootstrap clamp that outlives its entries, a receive
      chain that stalls at the end of its index range, stalled handshakes that
      block new peers, ephemeral keys that are never released, a rekey whose lost
      answer splits the session, new pins that inherit a verification, an anchor
      change that a reboot undoes, direct messages dropped as stale once the
      network time is trusted, discoveries that stay stuck, rules that pass to the
      channel that takes a removed one's index, update origins in capitals, dates
      that return after a lost fix, a token that admits the next Bluetooth client, a
      reply whose rest goes to the next one, a rollover that loses the log to a power
      cut).

    ** Not modelled

    Cryptographic primitives, flash, the file system, the radio, JSON and the HTTP
    and image functions of the platform are parameters.  Left out are the radio
    drivers and the floating-point time on air, the regional frequency tables, cover
    traffic, the JSON handlers of the remote methods, Wi-Fi, the user interface, board support and start-up, the SPIFFS variant
    of the message file, the export of tables as JSON, and the nRF, emulator,
    simulator and web code around the same components: hardware or glue with no
    state of the mesh in it.  Logging, counters shown to the user and wiping of key
    copies are left out of the modelled functions. *)

From stdpp Require Import base numbers list list_numbers option decidable.
From Stdlib Require Import ZArith Lia Bool.

#[global] Open Scope Z_scope.

(** ** Machine integers

    A w-bit C integer is a [Z]; the conversions below are the implicit and
    explicit casts of the source.  Unsigned subtraction of two [uint32_t]
    millisecond stamps wraps, which is what the [age] tests rely on. *)

Definition u8 (z : Z) : Z := z mod 256.
Definition u16 (z : Z) : Z := z mod 65536.
Definition u32 (z : Z) : Z := z mod 4294967296.
Definition u64 (z : Z) : Z := z mod 18446744073709551616.
Definition i8 (z : Z) : Z := (z + 128) mod 256 - 128.

Definition UINT32_MAX : Z := 4294967295.

Definition is_u8 (z : Z) : Prop := 0 <= z < 256.
Definition is_u16 (z : Z) : Prop := 0 <= z < 65536.
Definition is_u32 (z : Z) : Prop := 0 <= z < 4294967296.
Definition is_u64 (z : Z) : Prop := 0 <= z < 18446744073709551616.
Definition is_i8 (z : Z) : Prop := -128 <= z < 128.

#[global] Instance is_u8_dec z : Decision (is_u8 z).
Proof. unfold is_u8; apply _. Defined.
#[global] Instance is_u32_dec z : Decision (is_u32 z).
Proof. unfold is_u32; apply _. Defined.

Declare Scope c_scope.
Delimit Scope c_scope with c.
(** [a ⊖ b] and [a ⊕ b]: [uint32_t] arithmetic. *)
Notation "a ⊖ b" := (u32 (a - b)) (at level 50, left associativity) : c_scope.
Notation "a ⊕ b" := (u32 (a + b)) (at level 50, left associativity) : c_scope.
Notation "a << n" := (Z.shiftl a n) (at level 35, no associativity) : c_scope.
Notation "a >> n" := (Z.shiftr a n) (at level 35, no associativity) : c_scope.
#[global] Open Scope c_scope.

(** [cint] decides linear goals about the casts and ranges above. *)
Ltac cint_unfold :=
  unfold is_u8, is_u16, is_u32, is_u64, is_i8, u8, u16, u32, u64, i8, UINT32_MAX in *.
Ltac cint := cint_unfold; Z.to_euclidean_division_equations; lia.

(** Turns boolean comparisons of the source's conditions into propositions. *)
Ltac cond_step :=
  match goal with
  | H : _ && _ = true |- _ => apply andb_true_iff in H as [? ?]
  | H : _ || _ = false |- _ => apply orb_false_iff in H as [? ?]
  | H : negb _ = true |- _ => apply negb_true_iff in H
  | H : negb _ = false |- _ => apply negb_false_iff in H
  | H : (_ =? _) = true |- _ => apply Z.eqb_eq in H
  | H : (_ =? _) = false |- _ => apply Z.eqb_neq in H
  | H : (_ <? _) = true |- _ => apply Z.ltb_lt in H
  | H : (_ <? _) = false |- _ => apply Z.ltb_ge in H
  | H : (_ <=? _) = true |- _ => apply Z.leb_le in H
  | H : (_ <=? _) = false |- _ => apply Z.leb_gt in H
  | H : (_ >=? _) = _ |- _ => rewrite Z.geb_leb in H
  | H : (_ >? _) = _ |- _ => rewrite Z.gtb_ltb in H
  end.
Ltac conds := repeat cond_step.

(** The element-wise facts of a [Forall] over an explicit list. *)
Ltac inv_Forall :=
  repeat match goal with H : Forall _ (_ :: _) |- _ => inversion_clear H end.

(** Splits on the next [if]/[match] scrutinee of the goal, keeping the equation. *)
Ltac split_if :=
  match goal with
  | |- context [if ?b then _ else _] => destruct b eqn:?
  end.

Create HintDb cint.
Lemma u8_range z : is_u8 (u8 z). Proof. cint. Qed.
Lemma u16_range z : is_u16 (u16 z). Proof. cint. Qed.
Lemma u32_range z : is_u32 (u32 z). Proof. cint. Qed.
Lemma u64_range z : is_u64 (u64 z). Proof. cint. Qed.
Lemma u8_id z : is_u8 z → u8 z = z. Proof. intros. cint. Qed.
Lemma u16_id z : is_u16 z → u16 z = z. Proof. intros. cint. Qed.
Lemma u32_id z : is_u32 z → u32 z = z. Proof. intros. cint. Qed.
Lemma u64_id z : is_u64 z → u64 z = z. Proof. intros. cint. Qed.
Lemma i8_of_u8 z : is_i8 z → i8 (u8 z) = z. Proof. intros. cint. Qed.
Lemma i8_range z : is_i8 (i8 z). Proof. cint. Qed.
#[export] Hint Resolve u8_range u16_range u32_range u64_range i8_range : cint.

(** The age of a stamp taken [d] milliseconds ago is [d], across a wrap of the
    32-bit clock. *)
Lemma age_of_past t d : is_u32 t → is_u32 d → (t ⊕ d) ⊖ t = d.
Proof. intros. cint. Qed.

(** ** Bits

    Multi-byte fields are assembled with shifts and ors of disjoint bits. *)

Lemma lor_disjoint x y n :
  0 <= n → x mod 2 ^ n = 0 → 0 <= y < 2 ^ n → Z.lor x y = x + y.
Proof.
  intros Hn Hx Hy.
  assert (Hland : Z.land x y = 0).
  { apply Z.bits_inj'. intros i Hi. rewrite Z.land_spec, Z.bits_0.
    destruct (decide (i < n)).
    - assert (Z.testbit x i = false) as ->; [|done].
      rewrite <- (Z.mod_pow2_bits_low x n i), Hx by lia. apply Z.bits_0.
    - assert (Z.testbit y i = false) as ->; [|apply andb_false_r].
      rewrite <- (Z.mod_small y (2 ^ n)) by lia.
      apply Z.mod_pow2_bits_high. lia. }
  pose proof (Z.add_nocarry_lxor x y Hland) as Hadd.
  rewrite Hadd. apply Z.bits_inj'. intros i Hi.
  rewrite Z.lor_spec, Z.lxor_spec.
  assert (Z.testbit x i && Z.testbit y i = false) as Hb.
  { rewrite <- Z.land_spec, Hland. apply Z.bits_0. }
  destruct (Z.testbit x i), (Z.testbit y i); done.
Qed.

Lemma shiftl_mul x n : 0 <= n → x << n = x * 2 ^ n.
Proof. apply Z.shiftl_mul_pow2. Qed.
Lemma shiftr_div x n : 0 <= n → x >> n = x / 2 ^ n.
Proof. apply Z.shiftr_div_pow2. Qed.

(** Single-bit masks. *)
Lemma testbit_one_shl n k : 0 <= n → Z.testbit (1 << n) k = (k =? n).
Proof.
  intros. rewrite Z.shiftl_1_l. destruct (k =? n) eqn:E; conds.
  - subst. by apply Z.pow2_bits_true.
  - apply Z.pow2_bits_false. lia.
Qed.

Lemma land_one_shl w n : 0 <= n → (Z.land w (1 << n) =? 0) = negb (Z.testbit w n).
Proof.
  intros Hn. destruct (Z.testbit w n) eqn:E; simpl.
  - apply Z.eqb_neq. intros H0. apply (f_equal (λ z, Z.testbit z n)) in H0.
    rewrite Z.land_spec, testbit_one_shl, E, Z.eqb_refl, Z.bits_0 in H0 by done. done.
  - apply Z.eqb_eq. apply Z.bits_inj'. intros k Hk.
    rewrite Z.land_spec, testbit_one_shl, Z.bits_0 by done.
    destruct (k =? n) eqn:Ek; conds; [subst; by rewrite E|apply andb_false_r].
Qed.

(** ** Byte buffers

    A buffer is the list of the [len] bytes the caller passes; a read or a
    write outside it is undefined behaviour in C and is [None] here, so that
    "never [None]" is memory safety. *)

Definition rdn (b : list Z) (off n : nat) : option (list Z) :=
  if decide (off + n ≤ length b)%nat then Some (take n (drop off b)) else None.

Definition rd (b : list Z) (off : nat) : option Z := b !! off.

Definition wr (b : list Z) (off : nat) (bs : list Z) : option (list Z) :=
  if decide (off + length bs ≤ length b)%nat
  then Some (take off b ++ bs ++ drop (off + length bs) b) else None.

(** [in_buf cap bs]: the bytes [bs] written from its start into a C array of
    [cap] bytes; [None] is a write past its end. *)
Definition in_buf (cap : nat) (bs : list Z) : option (list Z) :=
  if (length bs <=? cap)%nat then Some bs else None.

Inductive esp_err : Type := ESP_OK | ESP_ERR_INVALID_SIZE.
#[global] Instance esp_err_eq_dec : EqDecision esp_err.
Proof. solve_decision. Defined.

(** The buffer [b] after its first [length pre] bytes were overwritten. *)
Definition filled (pre b : list Z) : list Z := pre ++ drop (length pre) b.

Lemma filled_nil b : filled [] b = b.
Proof. done. Qed.

Lemma length_filled pre b :
  (length pre ≤ length b)%nat → length (filled pre b) = length b.
Proof. intros. unfold filled. rewrite length_app, length_drop. lia. Qed.

Lemma filled_exact pre b : length pre = length b → filled pre b = pre.
Proof. intros H. unfold filled. rewrite H, drop_all. apply app_nil_r. Qed.

(** Sequential writes extend the filled prefix. *)
Lemma wr_filled pre b off bs :
  off = length pre → (length pre + length bs ≤ length b)%nat →
  wr (filled pre b) off bs = Some (filled (pre ++ bs) b).
Proof.
  intros -> Hle. unfold wr. rewrite length_filled by lia.
  rewrite decide_True by lia. f_equal. unfold filled.
  rewrite take_app_length, length_app, <- app_assoc. f_equal. f_equal.
  rewrite drop_app_ge by lia. rewrite drop_drop. f_equal. lia.
Qed.

Lemma rdn_app_skip a b off n :
  (length a ≤ off)%nat → rdn (a ++ b) off n = rdn b (off - length a) n.
Proof.
  intros H. unfold rdn. rewrite length_app.
  destruct (decide (off - length a + n ≤ length b)%nat).
  - rewrite decide_True by lia. by rewrite drop_app_ge.
  - by rewrite decide_False by lia.
Qed.

Lemma rdn_app_here a b n : length a = n → rdn (a ++ b) 0 n = Some a.
Proof.
  intros <-. unfold rdn. rewrite length_app, decide_True by lia.
  by rewrite drop_0, take_app_length.
Qed.

Lemma rdn_some b off n :
  (off + n ≤ length b)%nat → rdn b off n = Some (take n (drop off b)).
Proof. intros. unfold rdn. by rewrite decide_True. Qed.

Lemma rdn_inv b off n bs :
  rdn b off n = Some bs → (off + n ≤ length b)%nat ∧ length bs = n ∧ bs = take n (drop off b).
Proof.
  unfold rdn. case_decide; [|done]. intros [= <-].
  rewrite length_take, length_drop. split_and!; [done|lia|done].
Qed.

Lemma rdn_bytes b off n bs :
  Forall is_u8 b → rdn b off n = Some bs → Forall is_u8 bs.
Proof. intros Hb (_ & _ & ->)%rdn_inv. by apply Forall_take, Forall_drop. Qed.

Lemma rd_app_skip a b off :
  (length a ≤ off)%nat → rd (a ++ b) off = rd b (off - length a).
Proof. intros. unfold rd. by rewrite lookup_app_r. Qed.

(** Reads and writes that stay in the buffer are defined. *)
Lemma rdn_is_Some b off n : (off + n ≤ length b)%nat → is_Some (rdn b off n).
Proof. intros. rewrite rdn_some by done. eauto. Qed.
Lemma rd_is_Some b off : (off < length b)%nat → is_Some (rd b off).
Proof. intros. by apply lookup_lt_is_Some. Qed.
Lemma wr_is_Some b off bs :
  (off + length bs ≤ length b)%nat →
  ∃ b', wr b off bs = Some b' ∧ length b' = length b.
Proof.
  intros. unfold wr. rewrite decide_True by done. eexists. split; [done|].
  rewrite !length_app, length_take, length_drop. lia.
Qed.
Lemma wr_one b i v : (i < length b)%nat → wr b i [v] = Some (<[i := v]> b).
Proof.
  intros Hi. unfold wr. rewrite decide_True by (simpl; lia).
  by rewrite insert_take_drop, Nat.add_1_r by done.
Qed.
Lemma in_buf_fits cap bs : (length bs ≤ cap)%nat → in_buf cap bs = Some bs.
Proof. intros H. unfold in_buf. by rewrite (proj2 (Nat.leb_le _ _) H). Qed.
Lemma in_buf_inv cap bs bs' :
  in_buf cap bs = Some bs' → bs' = bs ∧ (length bs ≤ cap)%nat.
Proof. unfold in_buf. destruct (Nat.leb_spec (length bs) cap); [|done]. by intros [= <-]. Qed.
Lemma bind_is_Some {A B} (m : option A) (k : A → option B) :
  is_Some m → (∀ x, m = Some x → is_Some (k x)) → is_Some (m ≫= k).
Proof. intros [x ->] Hk. by apply Hk. Qed.

(** *** Big- and little-endian fields *)

Definition be16_bytes (v : Z) : list Z := [u8 (v >> 8); u8 v].
Definition be32_bytes (v : Z) : list Z :=
  [u8 (v >> 24); u8 (v >> 16); u8 (v >> 8); u8 v].
Definition le32_bytes (v : Z) : list Z :=
  [u8 v; u8 (v >> 8); u8 (v >> 16); u8 (v >> 24)].
Definition be32_val (bs : list Z) : Z :=
  match bs with
  | [b0; b1; b2; b3] =>
      Z.lor (Z.lor (Z.lor (b0 << 24) (b1 << 16)) (b2 << 8)) b3
  | _ => 0
  end.
Definition be16_val (bs : list Z) : Z :=
  match bs with [b0; b1] => u16 (Z.lor (b0 << 8) b1) | _ => 0 end.
Definition le32_val (bs : list Z) : Z :=
  match bs with
  | [b0; b1; b2; b3] =>
      Z.lor (Z.lor (Z.lor b0 (b1 << 8)) (b2 << 16)) (b3 << 24)
  | _ => 0
  end.

(** A 64-bit big-endian value, by the source's accumulation loop. *)
Definition be64_bytes (v : Z) : list Z :=
  map (λ i, u8 (v >> (56 - 8 * Z.of_nat i))) (seq 0 8).
Definition be_val_step (v b : Z) : Z := Z.lor (u64 (v << 8)) b.
Definition be64_val (bs : list Z) : Z := foldl be_val_step 0 bs.

(** The arithmetic reading of the shift-and-or assembly. *)
Ltac shifts := rewrite ?shiftl_mul, ?shiftr_div by lia.

Lemma be32_val_arith b0 b1 b2 b3 :
  is_u8 b0 → is_u8 b1 → is_u8 b2 → is_u8 b3 →
  be32_val [b0; b1; b2; b3] = b0 * 16777216 + b1 * 65536 + b2 * 256 + b3.
Proof.
  intros. unfold be32_val. shifts.
  rewrite (lor_disjoint _ (b1 * 2 ^ 16) 24), (lor_disjoint _ (b2 * 2 ^ 8) 16),
    (lor_disjoint _ b3 8); cint.
Qed.
Lemma le32_val_arith b0 b1 b2 b3 :
  is_u8 b0 → is_u8 b1 → is_u8 b2 → is_u8 b3 →
  le32_val [b0; b1; b2; b3] = b0 + b1 * 256 + b2 * 65536 + b3 * 16777216.
Proof.
  intros. unfold le32_val. shifts.
  rewrite (Z.lor_comm b0), (lor_disjoint (b1 * 2 ^ 8) b0 8) by cint.
  rewrite Z.lor_comm, (Z.lor_comm _ (b2 * _)), (lor_disjoint (b2 * 2 ^ 16) _ 16) by cint.
  rewrite (lor_disjoint _ _ 24); cint.
Qed.
Lemma be16_val_arith b0 b1 :
  is_u8 b0 → is_u8 b1 → be16_val [b0; b1] = b0 * 256 + b1.
Proof.
  intros. unfold be16_val. shifts. rewrite (lor_disjoint _ b1 8); cint.
Qed.

Lemma be32_roundtrip v : is_u32 v → be32_val (be32_bytes v) = v.
Proof.
  intros Hv. unfold be32_bytes.
  rewrite be32_val_arith by apply u8_range. shifts. cint.
Qed.
Lemma le32_roundtrip v : is_u32 v → le32_val (le32_bytes v) = v.
Proof.
  intros Hv. unfold le32_bytes.
  rewrite le32_val_arith by apply u8_range. shifts. cint.
Qed.
Lemma be16_roundtrip v : is_u16 v → be16_val (be16_bytes v) = v.
Proof.
  intros Hv. unfold be16_bytes.
  rewrite be16_val_arith by apply u8_range. shifts. cint.
Qed.
Lemma be_val_step_arith v b :
  is_u8 b → 0 <= v < 72057594037927936 → be_val_step v b = v * 256 + b.
Proof.
  intros. unfold be_val_step. shifts. rewrite (lor_disjoint _ b 8); cint.
Qed.
(** One more byte: shifting by eight more bits divides once more by 256. *)
Lemma shiftr_byte v n :
  0 <= n → v >> n = 256 * (v >> (n + 8)) + u8 (v >> n).
Proof.
  intros. replace (v >> (n + 8)) with ((v >> n) / 256).
  - unfold u8. apply Z.div_mod. lia.
  - shifts. rewrite Z.pow_add_r by lia. rewrite <- Z.div_div by lia. done.
Qed.
Lemma be64_val_arith b0 b1 b2 b3 b4 b5 b6 b7 :
  is_u8 b0 → is_u8 b1 → is_u8 b2 → is_u8 b3 →
  is_u8 b4 → is_u8 b5 → is_u8 b6 → is_u8 b7 →
  be64_val [b0; b1; b2; b3; b4; b5; b6; b7] =
  ((((((b0 * 256 + b1) * 256 + b2) * 256 + b3) * 256 + b4) * 256 + b5) * 256 + b6) * 256 + b7.
Proof.
  intros. unfold be64_val. cbn [foldl].
  rewrite (be_val_step_arith _ b0), (be_val_step_arith _ b1), (be_val_step_arith _ b2),
    (be_val_step_arith _ b3), (be_val_step_arith _ b4), (be_val_step_arith _ b5),
    (be_val_step_arith _ b6), (be_val_step_arith _ b7); unfold is_u8 in *; lia.
Qed.
Lemma be64_roundtrip v : is_u64 v → be64_val (be64_bytes v) = v.
Proof.
  intros Hv. unfold be64_bytes. cbn [seq map Z.of_nat Pos.of_succ_nat Pos.succ].
  rewrite be64_val_arith by apply u8_range.
  pose proof (shiftr_byte v 0) as H0. pose proof (shiftr_byte v 8) as H1.
  pose proof (shiftr_byte v 16) as H2. pose proof (shiftr_byte v 24) as H3.
  pose proof (shiftr_byte v 32) as H4. pose proof (shiftr_byte v 40) as H5.
  pose proof (shiftr_byte v 48) as H6. pose proof (shiftr_byte v 56) as H7.
  assert (v >> 64 = 0) as H8 by (shifts; cint).
  rewrite Z.shiftr_0_r in *.
  repeat match goal with
  | |- context [56 - 8 * ?k] => let r := eval compute in (56 - 8 * k) in change (56 - 8 * k) with r
  | H : context [Z.pos ?a + 8] |- _ =>
      let r := eval compute in (Z.pos a + 8) in change (Z.pos a + 8) with r in H
  end.
  rewrite ?Z.shiftr_0_r. change (0 + 8) with 8 in H0. lia.
Qed.

Lemma be32_val_range bs : Forall is_u8 bs → is_u32 (be32_val bs).
Proof.
  intros H. destruct bs as [|b0 [|b1 [|b2 [|b3 [|]]]]]; try (unfold be32_val; cint).
  inv_Forall.
  rewrite be32_val_arith by done. cint.
Qed.
Lemma le32_val_range bs : Forall is_u8 bs → is_u32 (le32_val bs).
Proof.
  intros H. destruct bs as [|b0 [|b1 [|b2 [|b3 [|]]]]]; try (unfold le32_val; cint).
  inv_Forall.
  rewrite le32_val_arith by done. cint.
Qed.
Lemma be32_bytes_inj v w :
  is_u32 v → is_u32 w → be32_bytes v = be32_bytes w → v = w.
Proof.
  intros Hv Hw E. rewrite <- (be32_roundtrip v), <- (be32_roundtrip w) by done.
  by rewrite E.
Qed.
Lemma le32_bytes_inj v w :
  is_u32 v → is_u32 w → le32_bytes v = le32_bytes w → v = w.
Proof.
  intros Hv Hw E. rewrite <- (le32_roundtrip v), <- (le32_roundtrip w) by done.
  by rewrite E.
Qed.
Lemma be32_bytes_u8 v : Forall is_u8 (be32_bytes v).
Proof. repeat constructor; apply u8_range. Qed.
Lemma be16_bytes_u8 v : Forall is_u8 (be16_bytes v).
Proof. repeat constructor; apply u8_range. Qed.
