(* ===== verification/Tables.v ===== *)
(** * Bounded tables

    The firmware keeps its state in fixed C arrays with a live [count]
    ([dedup_buffer_t], [neighbor_table_t], [routing_table_t], ...) and in
    arrays of slots with a used/active flag.  This file gives the array-level
    operations (indexed store, append, swap-remove, the two purge loops and the
    linear searches) and their meaning on the live prefix, once for all
    components. *)

From stdpp Require Import base numbers sets list option decidable.
From S2P Require Import Prelude.

Local Open Scope nat_scope.

(** ** Searches *)

(** [for (i = 0; i < n; i++) if (f(a[i])) return i;] *)
Fixpoint find_index {A} (f : A → bool) (l : list A) : option nat :=
  match l with
  | [] => None
  | x :: l' => if f x then Some 0 else S <$> find_index f l'
  end.

(** [best = 0; for (i = 1; i < n; i++) if (better(a[i], a[best])) best = i;] *)
Definition best_index {A} `{Inhabited A} (better : A → A → bool) (l : list A) : nat :=
  foldl (λ b i, if better (l !!! i) (l !!! b) then i else b) 0 (seq 1 (length l - 1)).

Lemma find_index_Some {A} (f : A → bool) l i :
  find_index f l = Some i →
  ∃ x, l !! i = Some x ∧ f x = true ∧ Forall (λ y, f y = false) (take i l).
Proof.
  revert i; induction l as [|x l IH]; intros i; simpl; [done|].
  destruct (f x) eqn:Hx.
  - intros [= <-]. exists x. done.
  - intros (j & Hj & ->)%fmap_Some.
    destruct (IH _ Hj) as (y & ? & ? & ?). exists y. split_and!; [done..|].
    by constructor.
Qed.

Lemma find_index_None {A} (f : A → bool) l :
  find_index f l = None ↔ Forall (λ y, f y = false) l.
Proof.
  induction l as [|x l IH]; simpl.
  - split; [constructor|done].
  - destruct (f x) eqn:Hx.
    + split; [done|]. inversion 1; congruence.
    + rewrite fmap_None, IH. split; [by constructor|by inversion 1].
Qed.

Lemma find_index_lt {A} (f : A → bool) l i : find_index f l = Some i → i < length l.
Proof. intros (x & Hx & _)%find_index_Some. by eapply lookup_lt_Some. Qed.

Lemma find_index_is_Some {A} (f : A → bool) l :
  is_Some (find_index f l) ↔ ∃ x, x ∈ l ∧ f x = true.
Proof.
  split.
  - intros [i (x & Hx & Hf & _)%find_index_Some].
    exists x. split; [|done]. by eapply list_elem_of_lookup_2.
  - intros (x & Hx & Hf). destruct (find_index f l) eqn:E; [eauto|].
    apply find_index_None in E. rewrite list.Forall_forall in E.
    specialize (E _ Hx). congruence.
Qed.

Lemma find_index_app {A} (f : A → bool) l k i : find_index f l = Some i → find_index f (l ++ k) = Some i.
Proof.
  revert i. induction l as [|x l IH]; intros i; cbn [find_index app]; [done|].
  destruct (f x); [done|]. intros (j & Hj & ->)%fmap_Some. by rewrite (IH j Hj).
Qed.
Lemma find_index_insert {A} (f : A → bool) l i x y :
  l !! i = Some y → f x = f y → find_index f (<[i := x]> l) = find_index f l.
Proof.
  revert i. induction l as [|z l IH]; intros [|i] Hi Hf; [done..| |].
  - injection Hi as ->. cbn. by rewrite Hf.
  - change (<[S i := x]> (z :: l)) with (z :: <[i := x]> l). cbn [find_index]. by rewrite (IH i Hi Hf).
Qed.

Lemma best_index_fold_lt {A} `{Inhabited A} (better : A → A → bool) (l : list A) (ks : list nat) (b : nat) :
  Forall (λ i, i < length l) ks → b < length l →
  foldl (λ b i, if better (l !!! i) (l !!! b) then i else b) b ks < length l.
Proof.
  revert b; induction ks as [|i ks IH]; intros b Hall Hb; simpl; [done|].
  inversion_clear Hall. apply IH; [done|]. by destruct (better _ _).
Qed.

Lemma best_index_lt {A} `{Inhabited A} (better : A → A → bool) l :
  0 < length l → best_index better l < length l.
Proof.
  intros. apply best_index_fold_lt; [|done].
  apply list.Forall_forall. intros i [? ?]%elem_of_seq. lia.
Qed.

(** With an order read off a key, the index found carries the least key. *)
Lemma best_index_fold_min {A} `{Inhabited A} (key : A → Z) (l : list A) (ks : list nat) (b : nat) :
  let r := foldl (λ b i, if (key (l !!! i) <? key (l !!! b))%Z then i else b) b ks in
  (key (l !!! r) ≤ key (l !!! b))%Z ∧
  Forall (λ i, (key (l !!! r) ≤ key (l !!! i))%Z) ks.
Proof.
  revert b; induction ks as [|i ks IH]; intros b; simpl; [split; [lia|constructor]|].
  destruct (key (l !!! i) <? key (l !!! b))%Z eqn:E; conds.
  - destruct (IH i) as [H1 H2]. split; [lia|]. constructor; [lia|done].
  - destruct (IH b) as [H1 H2]. split; [lia|]. constructor; [lia|done].
Qed.

Lemma best_index_min {A} `{Inhabited A} (key : A → Z) (l : list A) (j : nat) :
  j < length l →
  (key (l !!! best_index (λ x y, (key x <? key y)%Z) l) ≤ key (l !!! j))%Z.
Proof.
  intros Hj. unfold best_index.
  destruct (best_index_fold_min key l (seq 1 (length l - 1)) 0) as [H1 H2].
  destruct j as [|j]; [exact H1|].
  rewrite list.Forall_forall in H2. apply H2. apply elem_of_seq. lia.
Qed.

(** ** Arrays with a live count *)

Record ctable (A : Type) := mk_ctable { entries : list A; count : nat }.
Arguments mk_ctable {A} _ _.
Arguments entries {A} _.
Arguments count {A} _.

Section Table.
Context {A : Type} `{Inhabited A}.
Implicit Types (t : ctable A) (x : A) (cap i : nat).

(** The live entries, [entries[0..count)]. *)
Definition live t : list A := take (count t) (entries t).

(** The array has its declared size and the count stays within it. *)
Definition table_wf cap t : Prop := length (entries t) = cap ∧ count t ≤ cap.

(** [memset(table, 0, sizeof *table)], [z] the all-zero entry. *)
Definition table_init cap (z : A) : ctable A := mk_ctable (replicate cap z) 0.

(** [table->entries[i] = x] *)
Definition tset t i x : ctable A := mk_ctable (<[i := x]> (entries t)) (count t).

(** [table->entries[table->count++] = x] *)
Definition tpush t x : ctable A := mk_ctable (<[count t := x]> (entries t)) (S (count t)).

(** [entries[i] = entries[count - 1]; count--;] *)
Definition tswap_remove t i : ctable A :=
  mk_ctable (<[i := entries t !!! (count t - 1)]> (entries t)) (count t - 1).

(** [while (i < count) { if (dead(entries[i])) swap-remove i; else i++; }]:
    [n] is the number [count - i] of entries still to visit. *)
Fixpoint swap_purge_loop (dead : A → bool) (n : nat) t i : ctable A :=
  match n with
  | 0 => t
  | S n' =>
      if dead (entries t !!! i)
      then swap_purge_loop dead n' (tswap_remove t i) i
      else swap_purge_loop dead n' t (S i)
  end.
Definition swap_purge (dead : A → bool) t : ctable A :=
  swap_purge_loop dead (count t) t 0.

(** [dst = 0; for (src = 0; src < count; src++) if (keep(entries[src]))
    { if (dst != src) entries[dst] = entries[src]; dst++; } count = dst;] *)
Fixpoint compact_loop (keep : A → bool) (n : nat) (es : list A) (dst src : nat)
    : list A * nat :=
  match n with
  | 0 => (es, dst)
  | S n' =>
      if keep (es !!! src)
      then compact_loop keep n'
             (if decide (dst = src) then es else <[dst := es !!! src]> es) (S dst) (S src)
      else compact_loop keep n' es dst (S src)
  end.
Definition compact (keep : A → bool) t : ctable A :=
  let '(es, c) := compact_loop keep (count t) (entries t) 0 0 in mk_ctable es c.

Lemma length_live cap t : table_wf cap t → length (live t) = count t.
Proof. intros [? ?]. unfold live. rewrite length_take. lia. Qed.

Lemma table_init_wf cap z : table_wf cap (table_init cap z).
Proof. split; simpl; [apply length_replicate|lia]. Qed.
Lemma live_init cap z : live (table_init cap z) = [].
Proof. done. Qed.

Lemma live_lookup cap t i :
  table_wf cap t → i < count t → live t !! i = Some (entries t !!! i).
Proof.
  intros [Hl Hc] Hi. unfold live. rewrite lookup_take_lt by done.
  apply list_lookup_lookup_total_lt. lia.
Qed.
Lemma live_lookup_total cap t i :
  table_wf cap t → i < count t → live t !!! i = entries t !!! i.
Proof.
  intros Hwf Hi. apply list_lookup_total_correct. by eapply live_lookup.
Qed.

Lemma tset_wf cap t i x : table_wf cap t → table_wf cap (tset t i x).
Proof. intros [? ?]. split; simpl; [by rewrite length_insert|done]. Qed.
Lemma live_tset t i x : live (tset t i x) = <[i := x]> (live t).
Proof.
  unfold live; simpl. destruct (decide (i < count t)).
  - by rewrite take_insert_lt.
  - rewrite take_insert_ge by lia. rewrite list_insert_ge; [done|].
    rewrite length_take. lia.
Qed.

Lemma tpush_wf cap t x : table_wf cap t → count t < cap → table_wf cap (tpush t x).
Proof. intros [? ?] ?. split; simpl; [by rewrite length_insert|lia]. Qed.
Lemma live_tpush cap t x : table_wf cap t → count t < cap → live (tpush t x) = live t ++ [x].
Proof.
  intros [Hl Hc] Hlt. unfold live; simpl.
  erewrite take_S_r; [|apply list_lookup_insert_eq; lia].
  by rewrite take_insert_ge by lia.
Qed.

Lemma tswap_remove_wf cap t i : table_wf cap t → table_wf cap (tswap_remove t i).
Proof. intros [? ?]. split; simpl; [by rewrite length_insert|lia]. Qed.

(** Swap-remove takes out exactly entry [i], reordering the rest. *)
Lemma live_tswap_remove cap t i :
  table_wf cap t → i < count t →
  entries t !!! i :: live (tswap_remove t i) ≡ₚ live t.
Proof.
  intros Hwf Hi. pose proof Hwf as [Hl Hc]. unfold live; simpl.
  destruct (count t) as [|c] eqn:Hcnt; [lia|].
  replace (S c - 1) with c by lia.
  assert (entries t !! c = Some (entries t !!! c)) as Hlast
    by (apply list_lookup_lookup_total_lt; lia).
  assert (entries t !! i = Some (entries t !!! i)) as Hith
    by (apply list_lookup_lookup_total_lt; lia).
  rewrite (take_S_r (entries t) c (entries t !!! c)) by done.
  destruct (decide (i = c)) as [->|].
  - rewrite take_insert_ge by lia. by rewrite Permutation_app_comm.
  - rewrite take_insert_lt by lia.
    rewrite insert_take_drop by (rewrite length_take; lia).
    rewrite <- (take_drop_middle (take c (entries t)) i (entries t !!! i)) at 3
      by (rewrite lookup_take_lt by lia; done).
    set (P := take i (take c (entries t))). set (Q := drop (S i) (take c (entries t))).
    rewrite <- app_assoc. cbn [app]. rewrite Permutation_middle.
    do 2 f_equiv. apply Permutation_cons_append.
Qed.

(** *** The purge loops

    Both loops visit every live entry: the result is the filtered live list,
    in order for [compact], up to reordering for [swap_purge]. *)

Lemma swap_purge_loop_spec cap dead n t i :
  table_wf cap t → i + n = count t →
  table_wf cap (swap_purge_loop dead n t i) ∧
  live (swap_purge_loop dead n t i) ≡ₚ
    take i (live t) ++ filter (λ x, dead x = false) (drop i (live t)).
Proof.
  revert t i; induction n as [|n IH]; intros t i Hwf Hn; simpl.
  { split; [done|]. rewrite take_ge, drop_ge by (erewrite length_live; [|done]; lia).
    by rewrite filter_nil, app_nil_r. }
  pose proof (live_lookup _ _ i Hwf ltac:(lia)) as Hi.
  rewrite <- (take_drop_middle _ _ _ Hi) at 2.
  rewrite drop_app_ge by (rewrite length_take; lia).
  replace (i - length (take i (live t))) with 0
    by (rewrite length_take; erewrite length_live; [|done]; lia).
  rewrite drop_0, filter_cons.
  destruct (dead (entries t !!! i)) eqn:Hd.
  - rewrite decide_False by done.
    assert (Hwf' : table_wf cap (tswap_remove t i)) by (by apply tswap_remove_wf).
    destruct (IH (tswap_remove t i) i Hwf') as [Hwf'' Hl]; [simpl; lia|].
    split; [done|]. rewrite Hl.
    assert (Ht : take i (live (tswap_remove t i)) = take i (live t)).
    { unfold live; simpl. rewrite !take_take. rewrite take_insert_ge by lia.
      f_equal. lia. }
    pose proof (live_tswap_remove cap t i Hwf ltac:(lia)) as Hp.
    rewrite <- (take_drop_middle _ _ _ Hi) in Hp.
    rewrite <- (take_drop i (live (tswap_remove t i))), Ht in Hp.
    rewrite Permutation_middle in Hp. apply Permutation_app_inv_l in Hp.
    apply Permutation_cons_inv in Hp. by rewrite Ht, Hp.
  - rewrite decide_True by done.
    destruct (IH t (S i) Hwf) as [Hwf'' Hl]; [lia|]. split; [done|]. rewrite Hl.
    rewrite (take_S_r _ _ _ Hi), <- app_assoc. done.
Qed.

Lemma swap_purge_wf cap dead t : table_wf cap t → table_wf cap (swap_purge dead t).
Proof. intros. by apply swap_purge_loop_spec. Qed.

Lemma live_swap_purge cap dead t :
  table_wf cap t → live (swap_purge dead t) ≡ₚ filter (λ x, dead x = false) (live t).
Proof. intros Hwf. by apply (swap_purge_loop_spec cap dead (count t) t 0). Qed.

Lemma elem_of_swap_purge cap dead t x :
  table_wf cap t → x ∈ live (swap_purge dead t) ↔ dead x = false ∧ x ∈ live t.
Proof. intros Hwf. rewrite (live_swap_purge cap) by done. by rewrite list_elem_of_filter. Qed.

Lemma compact_loop_spec keep n es dst src :
  dst ≤ src → src + n ≤ length es →
  let r := compact_loop keep n es dst src in
  length r.1 = length es ∧ r.2 ≤ dst + n ∧
  take r.2 r.1 = take dst es ++ filter (λ x, keep x = true) (take n (drop src es)).
Proof.
  revert es dst src; induction n as [|n IH]; intros es dst src Hds Hlen; simpl.
  { rewrite ?filter_nil, ?app_nil_r. split_and!; [done|lia|done]. }
  assert (Hx : es !! src = Some (es !!! src))
    by (apply list_lookup_lookup_total_lt; lia).
  rewrite (drop_S _ _ _ Hx). cbn [take]. rewrite filter_cons.
  destruct (keep (es !!! src)) eqn:Hk.
  - destruct (decide (true = true)) as [_|]; [|done].
    set (es2 := if decide (dst = src) then es else <[dst:=es !!! src]> es).
    assert (Hlen2 : length es2 = length es)
      by (unfold es2; case_decide; [done|apply length_insert]).
    assert (Htk : take (S dst) es2 = take dst es ++ [es !!! src]).
    { unfold es2. case_decide; [subst; by apply take_S_r|].
      erewrite take_S_r; [|apply list_lookup_insert_eq; lia].
      by rewrite take_insert_ge by lia. }
    assert (Hdr : drop (S src) es2 = drop (S src) es)
      by (unfold es2; case_decide; [done|by rewrite drop_insert_lt by lia]).
    destruct (IH es2 (S dst) (S src)) as (H1 & H2 & H3); [lia..|].
    split_and!; [lia|lia|]. rewrite H3, Htk, Hdr, <- app_assoc. done.
  - rewrite decide_False by congruence.
    destruct (IH es dst (S src)) as (H1 & H2 & H3); [lia..|]. split_and!; [done|lia|done].
Qed.

Lemma compact_wf cap keep t : table_wf cap t → table_wf cap (compact keep t).
Proof.
  intros [Hl Hc]. unfold compact.
  destruct (compact_loop_spec keep (count t) (entries t) 0 0) as (H1 & H2 & H3); [lia..|].
  destruct (compact_loop _ _ _ _ _) as [es c]. split; simpl in *; lia.
Qed.

Lemma live_compact cap keep t :
  table_wf cap t → live (compact keep t) = filter (λ x, keep x = true) (live t).
Proof.
  intros [Hl Hc]. unfold compact, live at 1.
  destruct (compact_loop_spec keep (count t) (entries t) 0 0) as (H1 & H2 & H3); [lia..|].
  destruct (compact_loop _ _ _ _ _) as [es c]. simpl in *. by rewrite H3.
Qed.

Lemma table_wf_count_live cap t : table_wf cap t → length (live t) ≤ cap.
Proof. intros Hwf. erewrite length_live by done. apply Hwf. Qed.
End Table.

(** ** Slot arrays

    Fixed arrays whose entries carry a used/active flag: an operation replaces
    one slot and leaves the others alone. *)

Lemma slots_insert_elem {A} (l : list A) i x y :
  y ∈ <[i := x]> l → y = x ∨ y ∈ l.
Proof.
  intros (j & Hj)%list_elem_of_lookup.
  destruct (decide (i = j)) as [->|].
  - apply list_lookup_insert_Some in Hj as [(? & ? & ?)|[? ?]]; [by left|done].
  - rewrite list_lookup_insert_ne in Hj by done. right. by eapply list_elem_of_lookup_2.
Qed.

Lemma Forall_insert_slot {A} (P : A → Prop) (l : list A) i x :
  Forall P l → P x → Forall P (<[i := x]> l).
Proof. intros. by apply Forall_insert. Qed.

(** Replacing slot [i], seen on the slots in use. *)
Lemma filter_insert_perm {A} (P : A → Prop) `{∀ x, Decision (P x)} (l : list A) i x y :
  l !! i = Some x →
  filter P [x] ++ filter P (<[i := y]> l) ≡ₚ filter P [y] ++ filter P l.
Proof.
  intros Hx. rewrite insert_take_drop by (by eapply lookup_lt_Some).
  rewrite <- (take_drop_middle l i x Hx) at 3.
  change (y :: drop (S i) l) with ([y] ++ drop (S i) l).
  change (x :: drop (S i) l) with ([x] ++ drop (S i) l).
  rewrite !list.filter_app. rewrite !(Permutation_app_swap_app (filter P (take i l))).
  apply Permutation_app_swap_app.
Qed.

(** A key list stays duplicate free when a slot takes a new key. *)
Lemma NoDup_insert_fresh {A} (l : list A) i x :
  NoDup l → x ∉ l → NoDup (<[i := x]> l).
Proof.
  intros Hnd Hx. destruct (decide (i < length l)) as [Hi|]; [|by rewrite list_insert_ge by lia].
  destruct (lookup_lt_is_Some_2 l i Hi) as [y Hy].
  rewrite insert_take_drop by done.
  pose proof (take_drop_middle l i y Hy) as Hl. rewrite <- Hl in Hnd, Hx.
  rewrite list.NoDup_app, list.NoDup_cons in *. set_solver.
Qed.

(** Keys unique among the slots in use are distinct once those are collected. *)
Lemma NoDup_fmap_filter {A B} (f : A → B) (P : A → Prop) `{∀ x, Decision (P x)} (l : list A) :
  (∀ i j x y, l !! i = Some x → l !! j = Some y → P x → P y → f x = f y → i = j) →
  NoDup (f <$> filter P l).
Proof.
  induction l as [|a l IH]; intros Hu; [constructor|].
  assert (NoDup (f <$> filter P l)) as IH'.
  { apply IH. intros i j x y ? ? ? ? ?. enough (S i = S j) by lia. by eapply (Hu (S i) (S j)). }
  rewrite list.filter_cons. case_decide as Ha; [|done]. cbn [fmap list_fmap].
  apply list.NoDup_cons. split; [|done].
  intros (b & Hf & [Hb (j & Hj)%list_elem_of_lookup]%list_elem_of_filter)%list_elem_of_fmap.
  assert (0 = S j); [|lia]. by eapply (Hu 0 (S j)).
Qed.

Lemma filter_Forall_id {A} (P : A → Prop) `{∀ x, Decision (P x)} (l : list A) :
  Forall P l → filter P l = l.
Proof.
  induction 1 as [|x l Hx _ IH]; [done|]. rewrite list.filter_cons, decide_True by done.
  by rewrite IH.
Qed.

Create HintDb tables.
Create Rewrite HintDb tables.
#[export] Hint Resolve table_init_wf tset_wf tpush_wf tswap_remove_wf
  swap_purge_wf compact_wf : tables.
#[export] Hint Rewrite @live_init : tables.
