(* ===== verification/KeyedTable.v ===== *)
(** * Tables with a key

    Arrays with a live count whose entries carry a key (a destination, an
    address, a query id) that no two live entries share: they are finite maps,
    and a store into a slot, an append and a removal are updates of the map. *)

From stdpp Require Import base numbers sets option decidable gmap list.
From S2P Require Import Prelude Tables.

Definition keyed {A} `{Inhabited A} (key : A → Z) (cap : nat) (t : ctable A) : Prop :=
  table_wf cap t ∧ NoDup (key <$> live t).
Definition tmap {A} (key : A → Z) (t : ctable A) : gmap Z A :=
  list_to_map ((λ e, (key e, e)) <$> live t).
Definition kindex {A} (key : A → Z) (t : ctable A) (d : Z) : option nat :=
  find_index (λ e, key e =? d) (live t).

Section Keyed.
Context {A : Type} `{Inhabited A} {key : A → Z} {cap : nat}.
Implicit Types (t : ctable A) (d : Z) (e x : A).
Local Abbreviation keyed := (keyed key cap).
Local Abbreviation tmap := (tmap key).
Local Abbreviation kindex := (kindex key).

Lemma tmap_keys (l : list A) :
  ((λ e, (key e, e)) <$> l).*1 = key <$> l.
Proof. rewrite <- list_fmap_compose. done. Qed.

Lemma tmap_Some t d e :
  keyed t → tmap t !! d = Some e ↔ e ∈ live t ∧ key e = d.
Proof.
  intros [_ Hnd]. unfold KeyedTable.tmap.
  rewrite <- elem_of_list_to_map by (by rewrite tmap_keys).
  rewrite list_elem_of_fmap. split.
  - intros (x & [= -> ->] & Hx). done.
  - intros [He <-]. by exists e.
Qed.

Lemma tmap_None t d :
  keyed t → tmap t !! d = None ↔ d ∉ key <$> live t.
Proof.
  intros _. unfold KeyedTable.tmap. rewrite <- not_elem_of_list_to_map, tmap_keys. done.
Qed.

Lemma kindex_Some t d i :
  keyed t → kindex t d = Some i →
  (i < count t)%nat ∧ live t !! i = Some (entries t !!! i) ∧ key (entries t !!! i) = d ∧
  tmap t !! d = Some (entries t !!! i).
Proof.
  intros Hinv Hi. pose proof Hinv as [Hwf _].
  pose proof (find_index_lt _ _ _ Hi) as Hlt. rewrite (length_live _ _ Hwf) in Hlt.
  pose proof (live_lookup _ _ _ Hwf Hlt) as Hl.
  apply find_index_Some in Hi as (x & Hx & Hd & _). rewrite Hl in Hx. injection Hx as <-.
  apply Z.eqb_eq in Hd. split_and!; [lia|done|done|].
  apply tmap_Some; [done|]. split; [|done]. by eapply list_elem_of_lookup_2.
Qed.

Lemma kindex_None t d :
  keyed t → kindex t d = None → tmap t !! d = None.
Proof.
  intros Hinv Hi. apply tmap_None; [done|].
  apply find_index_None in Hi. intros (e & -> & He)%list_elem_of_fmap.
  rewrite Forall_forall in Hi. specialize (Hi _ He). simpl in Hi. lia.
Qed.

(** Two tables with the right elements have the right map. *)
Lemma tmap_ext t (m : gmap Z A) :
  keyed t →
  (∀ d e, m !! d = Some e ↔ e ∈ live t ∧ key e = d) → tmap t = m.
Proof.
  intros Hinv Hm. apply map_eq. intros d. apply option_eq. intros e.
  rewrite Hm. by apply tmap_Some.
Qed.

(** *** Writing one slot *)

Lemma NoDup_keys_inj (l : list A) i j x y :
  NoDup (key <$> l) → l !! i = Some x → l !! j = Some y →
  key x = key y → i = j.
Proof.
  intros Hnd Hi Hj Heq. eapply NoDup_lookup; [exact Hnd| |].
  - by rewrite list_lookup_fmap, Hi.
  - by rewrite list_lookup_fmap, Hj, Heq.
Qed.

Lemma elem_of_insert_slot (l : list A) i x e' e :
  NoDup (key <$> l) → l !! i = Some x →
  e ∈ <[i := e']> l ↔ e = e' ∨ (e ∈ l ∧ key e ≠ key x).
Proof.
  intros Hnd Hi. pose proof (lookup_lt_Some _ _ _ Hi) as Hlt. split.
  - intros (j & Hj)%list_elem_of_lookup. destruct (decide (i = j)) as [->|Hne].
    + rewrite list_lookup_insert_eq in Hj by done. left. congruence.
    + rewrite list_lookup_insert_ne in Hj by done. right.
      split; [by eapply list_elem_of_lookup_2|]. intros Heq. apply Hne.
      symmetry. exact (NoDup_keys_inj _ _ _ _ _ Hnd Hj Hi Heq).
  - intros [->|[(j & Hj)%list_elem_of_lookup Hne]].
    + eapply list_elem_of_lookup_2. by rewrite list_lookup_insert_eq.
    + eapply (list_elem_of_lookup_2 _ j). rewrite list_lookup_insert_ne; [done|].
      intros ->. congruence.
Qed.

(** Replacing entry [i], of key [k], by an entry whose key is [k] or fresh. *)
Lemma keyed_tset t i x e' :
  keyed t → live t !! i = Some x →
  (key e' = key x ∨ tmap t !! key e' = None) →
  keyed (tset t i e') ∧
  tmap (tset t i e') = <[key e' := e']> (delete (key x) (tmap t)).
Proof.
  intros Hinv Hi Hk. pose proof Hinv as [Hwf Hnd].
  assert (Hinv' : keyed (tset t i e')).
  { split; [by apply tset_wf|]. rewrite live_tset, list_fmap_insert.
    destruct Hk as [Hk|Hk].
    - rewrite list_insert_id; [done|]. rewrite list_lookup_fmap, Hi. simpl. by rewrite Hk.
    - apply NoDup_insert_fresh; [done|]. by apply tmap_None. }
  split; [done|]. apply tmap_ext; [done|]. intros d e.
  rewrite live_tset, (elem_of_insert_slot _ _ x) by done.
  rewrite lookup_insert_Some, lookup_delete_Some, tmap_Some by done.
  destruct Hk as [Hk|Hk].
  - rewrite Hk. naive_solver.
  - rewrite tmap_None, list_elem_of_fmap in Hk by done. naive_solver.
Qed.

Lemma keyed_tset_same t i e' :
  keyed t → (i < count t)%nat → key e' = key (entries t !!! i) →
  keyed (tset t i e') ∧ tmap (tset t i e') = <[key e' := e']> (tmap t).
Proof.
  intros Hinv Hi Hk. pose proof (live_lookup _ _ i (proj1 Hinv) ltac:(lia)) as Hl.
  destruct (keyed_tset t i _ e' Hinv Hl (or_introl Hk)) as [H1 H2].
  split; [done|]. by rewrite H2, <- Hk, insert_delete_eq.
Qed.

Lemma keyed_tpush t e :
  keyed t → (count t < cap)%nat → tmap t !! key e = None →
  keyed (tpush t e) ∧ tmap (tpush t e) = <[key e := e]> (tmap t).
Proof.
  intros Hinv Hc Hk. pose proof Hinv as [Hwf Hnd].
  assert (Hinv' : keyed (tpush t e)).
  { split; [by apply tpush_wf|]. rewrite (live_tpush cap) by done.
    rewrite fmap_app. apply NoDup_app. split; [done|].
    rewrite tmap_None in Hk by done. split; [set_solver|]. apply NoDup_singleton. }
  split; [done|]. apply tmap_ext; [done|]. intros d e'.
  rewrite (live_tpush cap) by done.
  rewrite lookup_insert_Some, tmap_Some by done.
  rewrite tmap_None, list_elem_of_fmap in Hk by done.
  rewrite elem_of_app, list_elem_of_singleton. naive_solver.
Qed.

Lemma keyed_init z : keyed (table_init cap z).
Proof. split; [apply table_init_wf|]. rewrite live_init. constructor. Qed.

Lemma tmap_size t : keyed t → size (tmap t) = count t.
Proof.
  intros [Hwf Hnd]. unfold KeyedTable.tmap. rewrite map_size_list_to_map by (by rewrite tmap_keys).
  rewrite length_fmap. by apply (length_live cap).
Qed.

(** Any rearrangement of a filtered table keeps it keyed. *)
Lemma keyed_filter (P : A → Prop) `{∀ x, Decision (P x)} t t' :
  keyed t → table_wf cap t' → live t' ≡ₚ filter P (live t) →
  keyed t' ∧ tmap t' = filter (λ kv, P kv.2) (tmap t).
Proof.
  intros Hinv Hwf' Hl. pose proof Hinv as [_ Hnd].
  assert (Hinv' : keyed t').
  { split; [done|]. rewrite Hl. apply NoDup_fmap_filter. intros i j x y Hi Hj _ _.
    exact (NoDup_keys_inj _ _ _ _ _ Hnd Hi Hj). }
  split; [done|]. apply tmap_ext; [done|]. intros d e.
  rewrite map_lookup_filter_Some, Hl, list_elem_of_filter, tmap_Some by done. simpl. tauto.
Qed.

Lemma keyed_swap_purge dead t :
  keyed t →
  keyed (swap_purge dead t) ∧ tmap (swap_purge dead t) = filter (λ kv, dead kv.2 = false) (tmap t).
Proof.
  intros Hinv. pose proof Hinv as [Hwf _].
  refine (keyed_filter (λ x, dead x = false) t _ Hinv _ _); [by apply swap_purge_wf|].
  by apply (live_swap_purge cap).
Qed.
End Keyed.
