(* ===== verification/Packet.v ===== *)
(** * Wire packets: [components/packet/packet.c]

    The frame layouts of the mesh protocol and their serializers and
    deserializers.  A serializer gets the caller's buffer and its length and
    returns the error code with the buffer after the call; a deserializer gets
    the caller's struct (which it may leave partly written on an error) and the
    received bytes.  An access outside the buffer makes the result [None]. *)

From stdpp Require Import base numbers list option decidable.
From S2P Require Import Prelude Tables.

(** ** Constants of [packet.h] *)

Definition BRAMBLE_VERSION : Z := 5.
Definition PKT_TYPE_ACK : Z := 1.
Definition PKT_TYPE_RREQ : Z := 2.
Definition PKT_TYPE_RREP : Z := 3.
Definition PKT_TYPE_RERR : Z := 4.
Definition PKT_TYPE_BEACON : Z := 5.
Definition PKT_TYPE_DELIVERY_RECEIPT : Z := 7.
Definition PKT_TYPE_DATA : Z := 10.
Definition PKT_TYPE_PROBE : Z := 18.
Definition PKT_TYPE_PROBE_ACK : Z := 19.
Definition PKT_TYPE_LOCATION : Z := 20.
Definition PKT_TYPE_IDENTITY_ATTESTATION : Z := 21.

Definition HEADER_SIZE : nat := 12.
Definition ACK_BASE_SIZE : nat := 37.
Definition ACK_MAX_HOPS : nat := 8.
Definition RREQ_SIZE : nat := 30.
Definition RREP_SIZE : nat := 40.
Definition RERR_SIZE : nat := 38.
Definition BEACON_SIZE : nat := 54.
Definition KEY_EXCHANGE_SIZE : nat := 101.
Definition DELIVERY_RECEIPT_MIN_SIZE : nat := 36.
Definition DELIVERY_RECEIPT_MAX_HOPS : nat := 8.
Definition IDENTITY_ATTESTATION_SIZE : nat := 230.
Definition IDENTITY_ATTESTATION_MSG_SIZE : nat := 84.
Definition BEACON_NAME_MAX : nat := 16.

(** The context string [bramble-ident-v1], as its 16 characters. *)
Definition IDENTITY_ATTESTATION_MSG_CONTEXT : list Z :=
  [98; 114; 97; 109; 98; 108; 101; 45; 105; 100; 101; 110; 116; 45; 118; 49].

(** ** Frames *)

Record bramble_header_t := mk_header {
  h_version : Z; h_type : Z; h_flags : Z; h_hop_limit : Z;
  h_dest_addr : Z; h_packet_id : Z }.

Record bramble_ack_t := mk_ack {
  ack_header : bramble_header_t; ack_src_addr : Z; ack_packet_id : Z;
  ack_flags : Z; ack_rssi_at_dest : Z; ack_hop_count : Z;
  ack_auth_hmac : list Z; ack_seq : list Z; ack_relay_path : list Z }.

Record bramble_rreq_t := mk_rreq {
  rreq_header : bramble_header_t; rreq_query_id : Z; rreq_encrypted_source : Z;
  rreq_hop_count : Z; rreq_metric : Z; rreq_prev_hop : Z; rreq_salt : Z }.

Record bramble_rrep_t := mk_rrep {
  rrep_header : bramble_header_t; rrep_query_id : Z; rrep_src_addr : Z;
  rrep_next_hop : Z; rrep_hop_count : Z; rrep_route_metric : Z;
  rrep_auth_hmac : list Z; rrep_seq : list Z }.

Record bramble_rerr_t := mk_rerr {
  rerr_header : bramble_header_t; rerr_reporter_addr : Z; rerr_broken_dest : Z;
  rerr_broken_next_hop : Z; rerr_auth_hmac : list Z; rerr_seq : list Z }.

Record bramble_beacon_t := mk_beacon {
  bcn_header : bramble_header_t; bcn_src_addr : Z; bcn_pubkey_hash : Z;
  bcn_uptime_min : Z; bcn_battery_pct : Z; bcn_tx_queue_depth : Z;
  bcn_neighbor_count : Z; bcn_flags : Z; bcn_network_time : Z;
  bcn_time_confidence : Z; bcn_seq : list Z; bcn_auth_hmac : list Z;
  bcn_name_len : Z; bcn_name : list Z }.

Record bramble_key_exchange_t := mk_key_exchange {
  ke_header : bramble_header_t; ke_src_addr : Z; ke_ephemeral_pubkey : list Z;
  ke_long_term_pubkey : list Z; ke_key_id : Z; ke_type : Z; ke_auth_tag : list Z }.

Record bramble_delivery_receipt_t := mk_receipt {
  rcpt_header : bramble_header_t; rcpt_src_addr : Z; rcpt_orig_packet_id : Z;
  rcpt_hop_count : Z; rcpt_total_latency : Z; rcpt_auth_hmac : list Z;
  rcpt_seq : list Z; rcpt_relay_path : list Z }.

Record bramble_identity_attestation_t := mk_attestation {
  att_header : bramble_header_t; att_src_addr : Z; att_x25519_pub : list Z;
  att_ed25519_pub : list Z; att_sig : list Z; att_not_after : Z;
  att_endorsement_sig : list Z; att_auth_hmac : list Z; att_seq : list Z }.

(** ** Field helpers *)

Definition put_be16 (buf : list Z) (off : nat) (v : Z) : option (list Z) :=
  wr buf off (be16_bytes v).
Definition put_be32 (buf : list Z) (off : nat) (v : Z) : option (list Z) :=
  wr buf off (be32_bytes v).
Definition put_be64 (buf : list Z) (off : nat) (v : Z) : option (list Z) :=
  wr buf off (be64_bytes v).
Definition get_be16 (buf : list Z) (off : nat) : option Z := be16_val <$> rdn buf off 2.
Definition get_be32 (buf : list Z) (off : nat) : option Z := be32_val <$> rdn buf off 4.
Definition get_be64 (buf : list Z) (off : nat) : option Z := be64_val <$> rdn buf off 8.
Definition get_le32 (buf : list Z) (off : nat) : option Z := le32_val <$> rdn buf off 4.

(** 48-bit control-plane sequence numbers. *)
Definition bramble_seq48_pack (seq : Z) : list Z :=
  [u8 (seq >> 40); u8 (seq >> 32); u8 (seq >> 24); u8 (seq >> 16); u8 (seq >> 8); u8 seq].
Definition bramble_seq48_unpack (bs : list Z) : Z :=
  match bs with
  | [b0; b1; b2; b3; b4; b5] =>
      Z.lor (Z.lor (Z.lor (Z.lor (Z.lor (b0 << 40) (b1 << 32)) (b2 << 24)) (b3 << 16))
        (b4 << 8)) b5
  | _ => 0
  end.

(** [esp_err_t r = ...; if (r != ESP_OK) return r;] in a serializer. *)
Definition and_then (m : option (esp_err * list Z))
    (k : list Z → option (esp_err * list Z)) : option (esp_err * list Z) :=
  '(r, buf) ← m; match r with ESP_OK => k buf | _ => Some (r, buf) end.

(** ** Header *)

Definition bramble_header_serialize (h : bramble_header_t) (buf : list Z) (len : nat)
    : option (esp_err * list Z) :=
  if (len <? HEADER_SIZE)%nat then Some (ESP_ERR_INVALID_SIZE, buf) else
  buf ← wr buf 0 [h_version h];
  buf ← wr buf 1 [h_type h];
  buf ← wr buf 2 [h_flags h];
  buf ← wr buf 3 [h_hop_limit h];
  buf ← put_be32 buf 4 (h_dest_addr h);
  buf ← put_be32 buf 8 (h_packet_id h);
  Some (ESP_OK, buf).

Definition bramble_header_deserialize (h : bramble_header_t) (buf : list Z) (len : nat)
    : option (esp_err * bramble_header_t) :=
  if (len <? HEADER_SIZE)%nat then Some (ESP_ERR_INVALID_SIZE, h) else
  v ← rd buf 0; t ← rd buf 1; f ← rd buf 2; hl ← rd buf 3;
  d ← get_be32 buf 4; p ← get_be32 buf 8;
  Some (ESP_OK, mk_header v t f hl d p).

(** [h && h->version == BRAMBLE_VERSION] *)
Definition bramble_header_is_supported_version (h : option bramble_header_t) : bool :=
  match h with Some h => h_version h =? BRAMBLE_VERSION | None => false end.

Definition bramble_header_build_aad (h : bramble_header_t) (buf : list Z) (len : nat)
    : option (esp_err * list Z) :=
  and_then (bramble_header_serialize h buf len) (λ buf,
  buf ← wr buf 3 [0];
  Some (ESP_OK, buf)).

Definition bramble_build_aead_aad (h : bramble_header_t) (src_addr : Z) (buf : list Z)
    (len : nat) : option (esp_err * list Z) :=
  if (len <? HEADER_SIZE + 4)%nat then Some (ESP_ERR_INVALID_SIZE, buf) else
  and_then (bramble_header_build_aad h buf HEADER_SIZE) (λ buf,
  buf ← wr buf (HEADER_SIZE + 0) [u8 (Z.land src_addr 255)];
  buf ← wr buf (HEADER_SIZE + 1) [u8 (Z.land (src_addr >> 8) 255)];
  buf ← wr buf (HEADER_SIZE + 2) [u8 (Z.land (src_addr >> 16) 255)];
  buf ← wr buf (HEADER_SIZE + 3) [u8 (Z.land (src_addr >> 24) 255)];
  Some (ESP_OK, buf)).

(** [B]: the body offset. *)
#[local] Abbreviation B := HEADER_SIZE (only parsing).

(** The relay-path loops: [n] hops from hop [i] on, at [base + 4 * i]. *)
Fixpoint put_path (buf : list Z) (base : nat) (path : list Z) (i n : nat)
    : option (list Z) :=
  match n with
  | O => Some buf
  | S n' =>
      v ← path !! i;
      buf ← put_be32 buf (base + i * 4) v;
      put_path buf base path (S i) n'
  end.
Fixpoint get_path (buf : list Z) (base : nat) (path : list Z) (i n : nat)
    : option (list Z) :=
  match n with
  | O => Some path
  | S n' =>
      v ← get_be32 buf (base + i * 4);
      path ← wr path i [v];
      get_path buf base path (S i) n'
  end.

(** ** ACK *)

Definition ack_hops (p : bramble_ack_t) : Z :=
  if ack_hop_count p >? Z.of_nat ACK_MAX_HOPS then Z.of_nat ACK_MAX_HOPS else ack_hop_count p.

Definition bramble_ack_wire_size (p : bramble_ack_t) : nat :=
  (ACK_BASE_SIZE + Z.to_nat (ack_hops p) * 4)%nat.

Definition bramble_ack_serialize (p : bramble_ack_t) (buf : list Z) (len : nat)
    : option (esp_err * list Z) :=
  let hops := ack_hops p in
  let need := (ACK_BASE_SIZE + Z.to_nat hops * 4)%nat in
  if (len <? need)%nat then Some (ESP_ERR_INVALID_SIZE, buf) else
  and_then (bramble_header_serialize (ack_header p) buf len) (λ buf,
  buf ← put_be32 buf B (ack_src_addr p);
  buf ← put_be32 buf (B + 4) (ack_packet_id p);
  buf ← wr buf (B + 8) [ack_flags p];
  buf ← wr buf (B + 9) [u8 (ack_rssi_at_dest p)];
  buf ← wr buf (B + 10) [hops];
  buf ← wr buf (B + 11) (ack_auth_hmac p);
  buf ← wr buf (B + 19) (ack_seq p);
  buf ← put_path buf (B + 25) (ack_relay_path p) 0 (Z.to_nat hops);
  Some (ESP_OK, buf)).

Definition bramble_ack_deserialize (p : bramble_ack_t) (buf : list Z) (len : nat)
    : option (esp_err * bramble_ack_t) :=
  if (len <? ACK_BASE_SIZE)%nat then Some (ESP_ERR_INVALID_SIZE, p) else
  '(r, hd) ← bramble_header_deserialize (ack_header p) buf len;
  match r with
  | ESP_OK =>
      src ← get_be32 buf B;
      apid ← get_be32 buf (B + 4);
      fl ← rd buf (B + 8);
      rssi ← rd buf (B + 9);
      hc0 ← rd buf (B + 10);
      hmac ← rdn buf (B + 11) 8;
      sq ← rdn buf (B + 19) 6;
      let hc1 := if hc0 >? Z.of_nat ACK_MAX_HOPS then Z.of_nat ACK_MAX_HOPS else hc0 in
      let path0 := replicate ACK_MAX_HOPS 0 in
      let avail := if (B + 25 <? len)%nat then ((len - (B + 25)) / 4)%nat else 0%nat in
      let hc2 := if hc1 >? Z.of_nat avail then Z.of_nat avail else hc1 in
      path ← get_path buf (B + 25) path0 0 (Z.to_nat hc2);
      Some (ESP_OK, mk_ack hd src apid fl (i8 rssi) hc2 hmac sq path)
  | _ => Some (r, p)
  end.

(** ** RREQ, RREP, RERR *)

Definition bramble_rreq_serialize (p : bramble_rreq_t) (buf : list Z) (len : nat)
    : option (esp_err * list Z) :=
  if (len <? RREQ_SIZE)%nat then Some (ESP_ERR_INVALID_SIZE, buf) else
  and_then (bramble_header_serialize (rreq_header p) buf len) (λ buf,
  buf ← put_be32 buf B (rreq_query_id p);
  buf ← put_be32 buf (B + 4) (rreq_encrypted_source p);
  buf ← wr buf (B + 8) [rreq_hop_count p];
  buf ← wr buf (B + 9) [rreq_metric p];
  buf ← put_be32 buf (B + 10) (rreq_prev_hop p);
  buf ← put_be32 buf (B + 14) (rreq_salt p);
  Some (ESP_OK, buf)).

Definition bramble_rreq_deserialize (p : bramble_rreq_t) (buf : list Z) (len : nat)
    : option (esp_err * bramble_rreq_t) :=
  if (len <? RREQ_SIZE)%nat then Some (ESP_ERR_INVALID_SIZE, p) else
  '(r, hd) ← bramble_header_deserialize (rreq_header p) buf len;
  match r with
  | ESP_OK =>
      q ← get_be32 buf B;
      es ← get_be32 buf (B + 4);
      hc ← rd buf (B + 8);
      m ← rd buf (B + 9);
      ph ← get_be32 buf (B + 10);
      s ← get_be32 buf (B + 14);
      Some (ESP_OK, mk_rreq hd q es hc m ph s)
  | _ => Some (r, p)
  end.

Definition bramble_rrep_serialize (p : bramble_rrep_t) (buf : list Z) (len : nat)
    : option (esp_err * list Z) :=
  if (len <? RREP_SIZE)%nat then Some (ESP_ERR_INVALID_SIZE, buf) else
  and_then (bramble_header_serialize (rrep_header p) buf len) (λ buf,
  buf ← put_be32 buf B (rrep_query_id p);
  buf ← put_be32 buf (B + 4) (rrep_src_addr p);
  buf ← put_be32 buf (B + 8) (rrep_next_hop p);
  buf ← wr buf (B + 12) [rrep_hop_count p];
  buf ← wr buf (B + 13) [rrep_route_metric p];
  buf ← wr buf (B + 14) (rrep_auth_hmac p);
  buf ← wr buf (B + 22) (rrep_seq p);
  Some (ESP_OK, buf)).

Definition bramble_rrep_deserialize (p : bramble_rrep_t) (buf : list Z) (len : nat)
    : option (esp_err * bramble_rrep_t) :=
  if (len <? RREP_SIZE)%nat then Some (ESP_ERR_INVALID_SIZE, p) else
  '(r, hd) ← bramble_header_deserialize (rrep_header p) buf len;
  match r with
  | ESP_OK =>
      q ← get_be32 buf B;
      src ← get_be32 buf (B + 4);
      nh ← get_be32 buf (B + 8);
      hc ← rd buf (B + 12);
      m ← rd buf (B + 13);
      hmac ← rdn buf (B + 14) 8;
      sq ← rdn buf (B + 22) 6;
      Some (ESP_OK, mk_rrep hd q src nh hc m hmac sq)
  | _ => Some (r, p)
  end.

Definition bramble_rerr_serialize (p : bramble_rerr_t) (buf : list Z) (len : nat)
    : option (esp_err * list Z) :=
  if (len <? RERR_SIZE)%nat then Some (ESP_ERR_INVALID_SIZE, buf) else
  and_then (bramble_header_serialize (rerr_header p) buf len) (λ buf,
  buf ← put_be32 buf B (rerr_reporter_addr p);
  buf ← put_be32 buf (B + 4) (rerr_broken_dest p);
  buf ← put_be32 buf (B + 8) (rerr_broken_next_hop p);
  buf ← wr buf (B + 12) (rerr_auth_hmac p);
  buf ← wr buf (B + 20) (rerr_seq p);
  Some (ESP_OK, buf)).

Definition bramble_rerr_deserialize (p : bramble_rerr_t) (buf : list Z) (len : nat)
    : option (esp_err * bramble_rerr_t) :=
  if (len <? RERR_SIZE)%nat then Some (ESP_ERR_INVALID_SIZE, p) else
  '(r, hd) ← bramble_header_deserialize (rerr_header p) buf len;
  match r with
  | ESP_OK =>
      ra ← get_be32 buf B;
      bd ← get_be32 buf (B + 4);
      bn ← get_be32 buf (B + 8);
      hmac ← rdn buf (B + 12) 8;
      sq ← rdn buf (B + 20) 6;
      Some (ESP_OK, mk_rerr hd ra bd bn hmac sq)
  | _ => Some (r, p)
  end.

(** ** UTF-8 truncation *)

(** The sequence length a lead byte announces. *)
Definition utf8_seq_len (c : Z) : nat :=
  if Z.land c 128 =? 0 then 1%nat
  else if Z.land c 224 =? 192 then 2%nat
  else if Z.land c 240 =? 224 then 3%nat
  else if Z.land c 248 =? 240 then 4%nat
  else 1%nat.

(** The scan; [fuel] bounds the bytes left, and every step consumes one. *)
Fixpoint utf8_trunc_loop (fuel : nat) (s : list Z) (len max_bytes i : nat) : option nat :=
  match fuel with
  | O => Some i
  | S fuel' =>
      if (i <? len)%nat then
        c ← rd s i;
        let seq := utf8_seq_len c in
        if (len <? i + seq)%nat || (max_bytes <? i + seq)%nat then Some i
        else utf8_trunc_loop fuel' s len max_bytes (i + seq)
      else Some i
  end.

(** [s = None] is the NULL pointer. *)
Definition bramble_utf8_trunc_len (s : option (list Z)) (len max_bytes : nat) : option nat :=
  match s with
  | None => Some 0%nat
  | Some s => utf8_trunc_loop len s len max_bytes 0
  end.

(** ** BEACON *)

Definition beacon_wire_name_len (p : bramble_beacon_t) : option nat :=
  let have := if bcn_name_len p >? Z.of_nat BEACON_NAME_MAX then BEACON_NAME_MAX
              else Z.to_nat (bcn_name_len p) in
  bramble_utf8_trunc_len (Some (bcn_name p)) have BEACON_NAME_MAX.

Definition bramble_beacon_wire_size (p : bramble_beacon_t) : option nat :=
  nlen ← beacon_wire_name_len p;
  Some (BEACON_SIZE + (if (0 <? nlen)%nat then 1 + nlen else 0))%nat.

Definition bramble_beacon_serialize (p : bramble_beacon_t) (buf : list Z) (len : nat)
    : option (esp_err * list Z) :=
  nlen ← beacon_wire_name_len p;
  let need := (BEACON_SIZE + (if (0 <? nlen)%nat then 1 + nlen else 0))%nat in
  if (len <? need)%nat then Some (ESP_ERR_INVALID_SIZE, buf) else
  and_then (bramble_header_serialize (bcn_header p) buf len) (λ buf,
  buf ← put_be32 buf B (bcn_src_addr p);
  buf ← put_be32 buf (B + 4) (bcn_pubkey_hash p);
  buf ← put_be16 buf (B + 8) (bcn_uptime_min p);
  buf ← wr buf (B + 10) [bcn_battery_pct p];
  buf ← wr buf (B + 11) [bcn_tx_queue_depth p];
  buf ← wr buf (B + 12) [bcn_neighbor_count p];
  buf ← wr buf (B + 13) [bcn_flags p];
  buf ← put_be32 buf (B + 14) (bcn_network_time p);
  buf ← put_be16 buf (B + 18) (bcn_time_confidence p);
  buf ← wr buf (B + 20) (bcn_seq p);
  buf ← wr buf (B + 26) (bcn_auth_hmac p);
  buf ← (if (0 <? nlen)%nat then
           buf ← wr buf BEACON_SIZE [Z.of_nat nlen];
           name ← rdn (bcn_name p) 0 nlen;
           wr buf (BEACON_SIZE + 1) name
         else Some buf);
  Some (ESP_OK, buf)).

Definition bramble_beacon_deserialize (p : bramble_beacon_t) (buf : list Z) (len : nat)
    : option (esp_err * bramble_beacon_t) :=
  if (len <? BEACON_SIZE)%nat then Some (ESP_ERR_INVALID_SIZE, p) else
  '(r, hd) ← bramble_header_deserialize (bcn_header p) buf len;
  match r with
  | ESP_OK =>
      src ← get_be32 buf B;
      pkh ← get_be32 buf (B + 4);
      up ← get_be16 buf (B + 8);
      bat ← rd buf (B + 10);
      txq ← rd buf (B + 11);
      nc ← rd buf (B + 12);
      fl ← rd buf (B + 13);
      nt ← get_be32 buf (B + 14);
      tc ← get_be16 buf (B + 18);
      sq ← rdn buf (B + 20) 6;
      hmac ← rdn buf (B + 26) 16;
      let name0 := replicate (BEACON_NAME_MAX + 1) 0 in
      '(name_len, name) ←
        (if (BEACON_SIZE <? len)%nat then
           d ← rd buf BEACON_SIZE;
           let declared := if d >? Z.of_nat BEACON_NAME_MAX then Z.of_nat BEACON_NAME_MAX else d in
           let avail := (len - (BEACON_SIZE + 1))%nat in
           '(name_len, name) ←
             (if (Z.to_nat declared <=? avail)%nat && (0 <? declared) then
                nm ← rdn buf (BEACON_SIZE + 1) (Z.to_nat declared);
                name1 ← wr name0 0 nm;
                Some (declared, name1)
              else Some (0, name0));
           name2 ← wr name (Z.to_nat name_len) [0];
           Some (name_len, name2)
         else Some (0, name0));
      Some (ESP_OK, mk_beacon hd src pkh up bat txq nc fl nt tc sq hmac name_len name)
  | _ => Some (r, p)
  end.

(** ** KEY_EXCHANGE *)

Definition bramble_key_exchange_serialize (p : bramble_key_exchange_t) (buf : list Z)
    (len : nat) : option (esp_err * list Z) :=
  if (len <? KEY_EXCHANGE_SIZE)%nat then Some (ESP_ERR_INVALID_SIZE, buf) else
  buf ← wr buf 0 (replicate KEY_EXCHANGE_SIZE 0);
  and_then (bramble_header_serialize (ke_header p) buf len) (λ buf,
  buf ← put_be32 buf B (ke_src_addr p);
  buf ← wr buf (B + 4) (ke_ephemeral_pubkey p);
  buf ← wr buf (B + 36) (ke_long_term_pubkey p);
  buf ← wr buf (B + 68) [ke_key_id p];
  buf ← wr buf (B + 69) [ke_type p];
  buf ← wr buf (B + 70) (ke_auth_tag p);
  Some (ESP_OK, buf)).

Definition bramble_key_exchange_deserialize (p : bramble_key_exchange_t) (buf : list Z)
    (len : nat) : option (esp_err * bramble_key_exchange_t) :=
  if (len <? KEY_EXCHANGE_SIZE)%nat then Some (ESP_ERR_INVALID_SIZE, p) else
  '(r, hd) ← bramble_header_deserialize (ke_header p) buf len;
  match r with
  | ESP_OK =>
      src ← get_be32 buf B;
      eph ← rdn buf (B + 4) 32;
      lt ← rdn buf (B + 36) 32;
      kid ← rd buf (B + 68);
      kt ← rd buf (B + 69);
      tag ← rdn buf (B + 70) 16;
      Some (ESP_OK, mk_key_exchange hd src eph lt kid kt tag)
  | _ => Some (r, p)
  end.

(** ** DELIVERY_RECEIPT *)

Definition bramble_delivery_receipt_serialize (p : bramble_delivery_receipt_t)
    (buf : list Z) (len : nat) : option (esp_err * list Z) :=
  let needed := (DELIVERY_RECEIPT_MIN_SIZE + Z.to_nat (rcpt_hop_count p) * 4)%nat in
  if (len <? needed)%nat then Some (ESP_ERR_INVALID_SIZE, buf) else
  if rcpt_hop_count p >? Z.of_nat DELIVERY_RECEIPT_MAX_HOPS
  then Some (ESP_ERR_INVALID_SIZE, buf) else
  and_then (bramble_header_serialize (rcpt_header p) buf len) (λ buf,
  buf ← put_be32 buf B (rcpt_src_addr p);
  buf ← put_be32 buf (B + 4) (rcpt_orig_packet_id p);
  buf ← wr buf (B + 8) [rcpt_hop_count p];
  buf ← wr buf (B + 9) [rcpt_total_latency p];
  buf ← wr buf (B + 10) (rcpt_auth_hmac p);
  buf ← wr buf (B + 18) (rcpt_seq p);
  buf ← put_path buf (B + 24) (rcpt_relay_path p) 0 (Z.to_nat (rcpt_hop_count p));
  Some (ESP_OK, buf)).

Definition bramble_delivery_receipt_deserialize (p : bramble_delivery_receipt_t)
    (buf : list Z) (len : nat) : option (esp_err * bramble_delivery_receipt_t) :=
  if (len <? DELIVERY_RECEIPT_MIN_SIZE)%nat then Some (ESP_ERR_INVALID_SIZE, p) else
  '(r, hd) ← bramble_header_deserialize (rcpt_header p) buf len;
  match r with
  | ESP_OK =>
      src ← get_be32 buf B;
      opid ← get_be32 buf (B + 4);
      hc ← rd buf (B + 8);
      lat ← rd buf (B + 9);
      hmac ← rdn buf (B + 10) 8;
      sq ← rdn buf (B + 18) 6;
      let path0 := replicate DELIVERY_RECEIPT_MAX_HOPS 0 in
      if hc >? Z.of_nat DELIVERY_RECEIPT_MAX_HOPS
      then Some (ESP_ERR_INVALID_SIZE, mk_receipt hd src opid 0 lat hmac sq path0) else
      let needed := (DELIVERY_RECEIPT_MIN_SIZE + Z.to_nat hc * 4)%nat in
      if (len <? needed)%nat
      then Some (ESP_ERR_INVALID_SIZE, mk_receipt hd src opid 0 lat hmac sq path0) else
      path ← get_path buf (B + 24) path0 0 (Z.to_nat hc);
      Some (ESP_OK, mk_receipt hd src opid hc lat hmac sq path)
  | _ => Some (r, p)
  end.

(** ** IDENTITY_ATTESTATION *)

Definition bramble_identity_attestation_serialize (p : bramble_identity_attestation_t)
    (buf : list Z) (len : nat) : option (esp_err * list Z) :=
  if (len <? IDENTITY_ATTESTATION_SIZE)%nat then Some (ESP_ERR_INVALID_SIZE, buf) else
  and_then (bramble_header_serialize (att_header p) buf len) (λ buf,
  buf ← put_be32 buf B (att_src_addr p);
  buf ← wr buf (B + 4) (att_x25519_pub p);
  buf ← wr buf (B + 36) (att_ed25519_pub p);
  buf ← wr buf (B + 68) (att_sig p);
  buf ← put_be64 buf (B + 132) (att_not_after p);
  buf ← wr buf (B + 140) (att_endorsement_sig p);
  buf ← wr buf (B + 204) (att_auth_hmac p);
  buf ← wr buf (B + 212) (att_seq p);
  Some (ESP_OK, buf)).

Definition bramble_identity_attestation_deserialize (p : bramble_identity_attestation_t)
    (buf : list Z) (len : nat) : option (esp_err * bramble_identity_attestation_t) :=
  if negb (len =? IDENTITY_ATTESTATION_SIZE)%nat then Some (ESP_ERR_INVALID_SIZE, p) else
  '(r, hd) ← bramble_header_deserialize (att_header p) buf len;
  match r with
  | ESP_OK =>
      src ← get_be32 buf B;
      x ← rdn buf (B + 4) 32;
      e ← rdn buf (B + 36) 32;
      sg ← rdn buf (B + 68) 64;
      na ← get_be64 buf (B + 132);
      es ← rdn buf (B + 140) 64;
      hmac ← rdn buf (B + 204) 8;
      sq ← rdn buf (B + 212) 6;
      Some (ESP_OK, mk_attestation hd src x e sg na es hmac sq)
  | _ => Some (r, p)
  end.

Definition bramble_identity_attestation_signed_msg (p : bramble_identity_attestation_t)
    (buf : list Z) (len : nat) : option (esp_err * list Z) :=
  if (len <? IDENTITY_ATTESTATION_MSG_SIZE)%nat then Some (ESP_ERR_INVALID_SIZE, buf) else
  buf ← wr buf 0 IDENTITY_ATTESTATION_MSG_CONTEXT;
  buf ← put_be32 buf 16 (att_src_addr p);
  buf ← wr buf (16 + 4) (att_x25519_pub p);
  buf ← wr buf (16 + 36) (att_ed25519_pub p);
  Some (ESP_OK, buf).

(** ** Origin address

    [buf = None] is the NULL pointer; the result pairs the return value with
    the value stored through [out], if any. *)
Definition bramble_packet_origin_addr (type : Z) (buf : option (list Z)) (len : nat)
    : option (bool * option Z) :=
  match buf with
  | None => Some (false, None)
  | Some buf =>
      if (len <? HEADER_SIZE + 4)%nat then Some (false, None) else
      if (type =? PKT_TYPE_ACK) || (type =? PKT_TYPE_BEACON)
         || (type =? PKT_TYPE_DELIVERY_RECEIPT) || (type =? PKT_TYPE_IDENTITY_ATTESTATION)
      then a ← get_be32 buf B; Some (true, Some a)
      else if (type =? PKT_TYPE_DATA) || (type =? PKT_TYPE_LOCATION)
         || (type =? PKT_TYPE_PROBE) || (type =? PKT_TYPE_PROBE_ACK)
      then a ← get_le32 buf HEADER_SIZE; Some (true, Some a)
      else Some (false, None)
  end.
