(* ===== verification/PacketSpec.v ===== *)
(** * Wire packets: format specification and theorems

    The wire format of every frame as a concatenation of fields, and the
    theorems that the serializers of [Packet] produce it, that the
    deserializers read it back, and that neither leaves the buffer it was
    given, whatever bytes arrive. *)

From stdpp Require Import base numbers list option decidable.
From S2P Require Import Prelude Tables Packet.

(** ** Well-formed frames: field ranges and array sizes of the C structs *)

Definition header_ok (h : bramble_header_t) : Prop :=
  is_u8 (h_version h) ∧ is_u8 (h_type h) ∧ is_u8 (h_flags h) ∧ is_u8 (h_hop_limit h) ∧
  is_u32 (h_dest_addr h) ∧ is_u32 (h_packet_id h).
Definition ack_ok (p : bramble_ack_t) : Prop :=
  header_ok (ack_header p) ∧ is_u32 (ack_src_addr p) ∧ is_u32 (ack_packet_id p) ∧
  is_u8 (ack_flags p) ∧ is_i8 (ack_rssi_at_dest p) ∧ is_u8 (ack_hop_count p) ∧
  length (ack_auth_hmac p) = 8%nat ∧ length (ack_seq p) = 6%nat ∧
  length (ack_relay_path p) = ACK_MAX_HOPS ∧ Forall is_u32 (ack_relay_path p).
Definition rreq_ok (p : bramble_rreq_t) : Prop :=
  header_ok (rreq_header p) ∧ is_u32 (rreq_query_id p) ∧ is_u32 (rreq_encrypted_source p) ∧
  is_u8 (rreq_hop_count p) ∧ is_u8 (rreq_metric p) ∧ is_u32 (rreq_prev_hop p) ∧
  is_u32 (rreq_salt p).
Definition rrep_ok (p : bramble_rrep_t) : Prop :=
  header_ok (rrep_header p) ∧ is_u32 (rrep_query_id p) ∧ is_u32 (rrep_src_addr p) ∧
  is_u32 (rrep_next_hop p) ∧ is_u8 (rrep_hop_count p) ∧ is_u8 (rrep_route_metric p) ∧
  length (rrep_auth_hmac p) = 8%nat ∧ length (rrep_seq p) = 6%nat.
Definition rerr_ok (p : bramble_rerr_t) : Prop :=
  header_ok (rerr_header p) ∧ is_u32 (rerr_reporter_addr p) ∧ is_u32 (rerr_broken_dest p) ∧
  is_u32 (rerr_broken_next_hop p) ∧
  length (rerr_auth_hmac p) = 8%nat ∧ length (rerr_seq p) = 6%nat.
Definition beacon_ok (p : bramble_beacon_t) : Prop :=
  header_ok (bcn_header p) ∧ is_u32 (bcn_src_addr p) ∧ is_u32 (bcn_pubkey_hash p) ∧
  is_u16 (bcn_uptime_min p) ∧ is_u8 (bcn_battery_pct p) ∧ is_u8 (bcn_tx_queue_depth p) ∧
  is_u8 (bcn_neighbor_count p) ∧ is_u8 (bcn_flags p) ∧ is_u32 (bcn_network_time p) ∧
  is_u16 (bcn_time_confidence p) ∧ length (bcn_seq p) = 6%nat ∧
  length (bcn_auth_hmac p) = 16%nat ∧ is_u8 (bcn_name_len p) ∧
  length (bcn_name p) = (BEACON_NAME_MAX + 1)%nat.
Definition ke_ok (p : bramble_key_exchange_t) : Prop :=
  header_ok (ke_header p) ∧ is_u32 (ke_src_addr p) ∧ length (ke_ephemeral_pubkey p) = 32%nat ∧
  length (ke_long_term_pubkey p) = 32%nat ∧ is_u8 (ke_key_id p) ∧ is_u8 (ke_type p) ∧
  length (ke_auth_tag p) = 16%nat.
Definition receipt_ok (p : bramble_delivery_receipt_t) : Prop :=
  header_ok (rcpt_header p) ∧ is_u32 (rcpt_src_addr p) ∧ is_u32 (rcpt_orig_packet_id p) ∧
  is_u8 (rcpt_hop_count p) ∧ is_u8 (rcpt_total_latency p) ∧
  length (rcpt_auth_hmac p) = 8%nat ∧ length (rcpt_seq p) = 6%nat ∧
  length (rcpt_relay_path p) = DELIVERY_RECEIPT_MAX_HOPS ∧ Forall is_u32 (rcpt_relay_path p).
Definition attestation_ok (p : bramble_identity_attestation_t) : Prop :=
  header_ok (att_header p) ∧ is_u32 (att_src_addr p) ∧ length (att_x25519_pub p) = 32%nat ∧
  length (att_ed25519_pub p) = 32%nat ∧ length (att_sig p) = 64%nat ∧
  is_u64 (att_not_after p) ∧ length (att_endorsement_sig p) = 64%nat ∧
  length (att_auth_hmac p) = 8%nat ∧ length (att_seq p) = 6%nat.

(** ** Wire formats *)

Definition header_bytes (h : bramble_header_t) : list Z :=
  [h_version h] ++ [h_type h] ++ [h_flags h] ++ [h_hop_limit h] ++
  be32_bytes (h_dest_addr h) ++ be32_bytes (h_packet_id h).
Definition path_bytes (path : list Z) : list Z := concat (map be32_bytes path).
Definition ack_bytes (p : bramble_ack_t) : list Z :=
  header_bytes (ack_header p) ++ be32_bytes (ack_src_addr p) ++
  be32_bytes (ack_packet_id p) ++ [ack_flags p] ++ [u8 (ack_rssi_at_dest p)] ++
  [ack_hops p] ++ ack_auth_hmac p ++ ack_seq p ++
  path_bytes (take (Z.to_nat (ack_hops p)) (ack_relay_path p)).
Definition rreq_bytes (p : bramble_rreq_t) : list Z :=
  header_bytes (rreq_header p) ++ be32_bytes (rreq_query_id p) ++
  be32_bytes (rreq_encrypted_source p) ++ [rreq_hop_count p] ++ [rreq_metric p] ++
  be32_bytes (rreq_prev_hop p) ++ be32_bytes (rreq_salt p).
Definition rrep_bytes (p : bramble_rrep_t) : list Z :=
  header_bytes (rrep_header p) ++ be32_bytes (rrep_query_id p) ++
  be32_bytes (rrep_src_addr p) ++ be32_bytes (rrep_next_hop p) ++ [rrep_hop_count p] ++
  [rrep_route_metric p] ++ rrep_auth_hmac p ++ rrep_seq p.
Definition rerr_bytes (p : bramble_rerr_t) : list Z :=
  header_bytes (rerr_header p) ++ be32_bytes (rerr_reporter_addr p) ++
  be32_bytes (rerr_broken_dest p) ++ be32_bytes (rerr_broken_next_hop p) ++
  rerr_auth_hmac p ++ rerr_seq p.
Definition beacon_bytes (p : bramble_beacon_t) (nlen : nat) : list Z :=
  header_bytes (bcn_header p) ++ be32_bytes (bcn_src_addr p) ++
  be32_bytes (bcn_pubkey_hash p) ++ be16_bytes (bcn_uptime_min p) ++
  [bcn_battery_pct p] ++ [bcn_tx_queue_depth p] ++ [bcn_neighbor_count p] ++
  [bcn_flags p] ++ be32_bytes (bcn_network_time p) ++ be16_bytes (bcn_time_confidence p) ++
  bcn_seq p ++ bcn_auth_hmac p ++
  (if (0 <? nlen)%nat then [Z.of_nat nlen] ++ take nlen (bcn_name p) else []).
Definition ke_bytes (p : bramble_key_exchange_t) : list Z :=
  header_bytes (ke_header p) ++ be32_bytes (ke_src_addr p) ++ ke_ephemeral_pubkey p ++
  ke_long_term_pubkey p ++ [ke_key_id p] ++ [ke_type p] ++ ke_auth_tag p.
Definition receipt_bytes (p : bramble_delivery_receipt_t) : list Z :=
  header_bytes (rcpt_header p) ++ be32_bytes (rcpt_src_addr p) ++
  be32_bytes (rcpt_orig_packet_id p) ++ [rcpt_hop_count p] ++ [rcpt_total_latency p] ++
  rcpt_auth_hmac p ++ rcpt_seq p ++
  path_bytes (take (Z.to_nat (rcpt_hop_count p)) (rcpt_relay_path p)).
Definition attestation_bytes (p : bramble_identity_attestation_t) : list Z :=
  header_bytes (att_header p) ++ be32_bytes (att_src_addr p) ++ att_x25519_pub p ++
  att_ed25519_pub p ++ att_sig p ++ be64_bytes (att_not_after p) ++
  att_endorsement_sig p ++ att_auth_hmac p ++ att_seq p.

(** ** Automation for sequential field access *)

Lemma length_be64_bytes v : length (be64_bytes v) = 8%nat.
Proof. done. Qed.
Lemma length_header_bytes h : length (header_bytes h) = 12%nat.
Proof. done. Qed.
Lemma length_path_bytes path : length (path_bytes path) = (4 * length path)%nat.
Proof.
  unfold path_bytes. induction path as [|v path IH]; [done|]. simpl in *. lia.
Qed.

(** Lengths of concatenated fields. *)
Ltac len :=
  repeat first [rewrite length_app | rewrite length_replicate | rewrite length_be64_bytes
               | rewrite length_header_bytes | rewrite length_path_bytes];
  cbn [length be32_bytes be16_bytes]; unfold HEADER_SIZE; lia.

Lemma rdn_here a b off n : off = 0%nat → length a = n → rdn (a ++ b) off n = Some a.
Proof. intros ->. apply rdn_app_here. Qed.
Lemma rdn_whole a off n : off = 0%nat → length a = n → rdn a off n = Some a.
Proof. intros -> <-. rewrite <- (app_nil_r a) at 1. by apply rdn_app_here. Qed.
Lemma rd_here x b off : off = 0%nat → rd ([x] ++ b) off = Some x.
Proof. by intros ->. Qed.

(** Serializer step: the next write extends the filled prefix. *)
Ltac ser_step :=
  rewrite (wr_filled _ _ _ _) by len;
  cbn [mbind option_bind].

(** Deserializer step: find the field at the wanted offset. *)
Ltac des_step :=
  first
    [ rewrite rdn_here by len
    | rewrite rdn_whole by len
    | rewrite rd_here by len
    | rewrite rdn_app_skip by len
    | rewrite rd_app_skip by len ].
Ltac des := repeat (des_step; cbn [mbind option_bind fmap option_fmap option_map]).

(** ** Header *)

Lemma header_serialize_spec h buf len :
  (HEADER_SIZE ≤ len)%nat → (len ≤ length buf)%nat →
  bramble_header_serialize h buf len = Some (ESP_OK, filled (header_bytes h) buf).
Proof.
  intros H1 H2. unfold bramble_header_serialize, HEADER_SIZE, put_be32 in *.
  rewrite (proj2 (Nat.ltb_ge _ _)) by lia.
  rewrite <- (filled_nil buf) at 1.
  do 6 ser_step. done.
Qed.

Lemma header_deserialize_spec h h0 rest len :
  header_ok h → (HEADER_SIZE ≤ len)%nat →
  bramble_header_deserialize h0 (header_bytes h ++ rest) len = Some (ESP_OK, h).
Proof.
  intros (?&?&?&?&?&?) Hlen. unfold bramble_header_deserialize, get_be32.
  rewrite (proj2 (Nat.ltb_ge _ _)) by lia.
  unfold header_bytes. rewrite <- !app_assoc. des.
  rewrite !be32_roundtrip by done. by destruct h.
Qed.

(** ** Round trips

    [round_trips]: for a well-formed frame and a large enough buffer the
    serializer succeeds, writes exactly [wire_size p] bytes and leaves the rest
    of the buffer alone; the deserializer run on those bytes, from any prior
    contents of the destination struct, succeeds and yields [norm p]. *)
Definition round_trips {A} (ok : A → Prop) (wire_size : A → nat)
    (ser : A → list Z → nat → option (esp_err * list Z))
    (des : A → list Z → nat → option (esp_err * A)) (norm : A → A) : Prop :=
  ∀ p buf len p0, ok p → (wire_size p ≤ len)%nat → (len ≤ length buf)%nat →
  ∃ wire, length wire = wire_size p ∧
    ser p buf len = Some (ESP_OK, wire ++ drop (wire_size p) buf) ∧
    des p0 wire (wire_size p) = Some (ESP_OK, norm p).

(** Common start of a serializer proof: pass the length check, run the header. *)
Ltac ser_start :=
  rewrite (proj2 (Nat.ltb_ge _ _)) by lia;
  unfold and_then, put_be16, put_be32, put_be64;
  rewrite header_serialize_spec by (unfold HEADER_SIZE; lia); cbn [mbind option_bind].
Ltac des_start :=
  rewrite (proj2 (Nat.ltb_ge _ _)) by lia;
  rewrite header_deserialize_spec by (done || (unfold HEADER_SIZE; lia));
  cbn [mbind option_bind]; unfold get_be16, get_be32, get_be64.
Ltac sizes :=
  unfold HEADER_SIZE, ACK_BASE_SIZE, RREQ_SIZE, RREP_SIZE, RERR_SIZE, BEACON_SIZE,
    KEY_EXCHANGE_SIZE, DELIVERY_RECEIPT_MIN_SIZE, IDENTITY_ATTESTATION_SIZE,
    IDENTITY_ATTESTATION_MSG_SIZE in *.
(** Close a serializer equation: same bytes, associated differently. *)
Ltac filled_eq :=
  unfold filled, rreq_bytes, rrep_bytes, rerr_bytes, attestation_bytes;
  rewrite <- ?app_assoc; repeat f_equal; len.

Lemma rreq_roundtrip :
  round_trips rreq_ok (λ _, RREQ_SIZE) bramble_rreq_serialize bramble_rreq_deserialize id.
Proof.
  intros p buf len p0 (Hh & ? & ? & ? & ? & ? & ?) Hlen Hbuf. sizes.
  exists (rreq_bytes p). split_and!; [done| |].
  - unfold bramble_rreq_serialize. sizes. ser_start. do 6 ser_step. filled_eq.
  - unfold bramble_rreq_deserialize, rreq_bytes. sizes. des_start. des.
    rewrite !be32_roundtrip by done. by destruct p.
Qed.

Lemma header_roundtrip :
  round_trips header_ok (λ _, HEADER_SIZE) bramble_header_serialize bramble_header_deserialize id.
Proof.
  intros h buf len h0 Hh Hlen Hbuf. exists (header_bytes h). split_and!; [done| |].
  - by rewrite header_serialize_spec by (sizes; lia).
  - rewrite <- (app_nil_r (header_bytes h)). by apply header_deserialize_spec.
Qed.

Lemma rrep_roundtrip :
  round_trips rrep_ok (λ _, RREP_SIZE) bramble_rrep_serialize bramble_rrep_deserialize id.
Proof.
  intros p buf len p0 (Hh & ? & ? & ? & ? & ? & ? & ?) Hlen Hbuf. sizes.
  exists (rrep_bytes p). split_and!; [unfold rrep_bytes; len| |].
  - unfold bramble_rrep_serialize. sizes. ser_start. do 7 ser_step. filled_eq.
  - unfold bramble_rrep_deserialize, rrep_bytes. sizes. des_start. des.
    rewrite !be32_roundtrip by done. by destruct p.
Qed.

Lemma rerr_roundtrip :
  round_trips rerr_ok (λ _, RERR_SIZE) bramble_rerr_serialize bramble_rerr_deserialize id.
Proof.
  intros p buf len p0 (Hh & ? & ? & ? & ? & ?) Hlen Hbuf. sizes.
  exists (rerr_bytes p). split_and!; [unfold rerr_bytes; len| |].
  - unfold bramble_rerr_serialize. sizes. ser_start. do 5 ser_step. filled_eq.
  - unfold bramble_rerr_deserialize, rerr_bytes. sizes. des_start. des.
    rewrite !be32_roundtrip by done. by destruct p.
Qed.

Lemma attestation_roundtrip :
  round_trips attestation_ok (λ _, IDENTITY_ATTESTATION_SIZE)
    bramble_identity_attestation_serialize bramble_identity_attestation_deserialize id.
Proof.
  intros p buf len p0 (Hh & ? & ? & ? & ? & ? & ? & ? & ?) Hlen Hbuf. sizes.
  exists (attestation_bytes p). split_and!; [unfold attestation_bytes; len| |].
  - unfold bramble_identity_attestation_serialize. sizes. ser_start. do 8 ser_step.
    filled_eq.
  - unfold bramble_identity_attestation_deserialize, attestation_bytes. sizes.
    rewrite Nat.eqb_refl. cbn [negb].
    rewrite header_deserialize_spec by (done || sizes; lia).
    cbn [mbind option_bind]. unfold get_be32, get_be64. des.
    rewrite be32_roundtrip, be64_roundtrip by done. by destruct p.
Qed.

(** The key-exchange frame carries three reserved zero bytes. *)
Lemma ke_roundtrip :
  round_trips ke_ok (λ _, KEY_EXCHANGE_SIZE)
    bramble_key_exchange_serialize bramble_key_exchange_deserialize id.
Proof.
  intros p buf len p0 (Hh & ? & ? & ? & ? & ? & ?) Hlen Hbuf. sizes.
  exists (ke_bytes p ++ [0; 0; 0]). split_and!; [unfold ke_bytes; len| |].
  - unfold bramble_key_exchange_serialize. sizes.
    rewrite (proj2 (Nat.ltb_ge _ _)) by lia.
    rewrite <- (filled_nil buf) at 1.
    rewrite wr_filled by len. cbn [mbind option_bind app].
    set (buf0 := filled (replicate 101 0) buf).
    assert (Hl0 : length buf0 = length buf)
      by (unfold buf0; rewrite length_filled; len).
    unfold and_then, put_be32.
    rewrite header_serialize_spec by (sizes; lia). cbn [mbind option_bind].
    do 6 ser_step. do 2 f_equal. unfold ke_bytes, filled at 1.
    rewrite <- !app_assoc. do 7 f_equal.
    match goal with |- drop ?n buf0 = _ => replace n with 98%nat by len end.
    unfold buf0, filled. done.
  - unfold bramble_key_exchange_deserialize, ke_bytes. sizes. rewrite <- !app_assoc.
    des_start. des. rewrite !be32_roundtrip by done. by destruct p.
Qed.

(** ** Relay paths *)

Lemma put_path_spec pre buf base path i n :
  (base + i * 4 = length pre)%nat → (i + n ≤ length path)%nat →
  (length pre + 4 * n ≤ length buf)%nat →
  put_path (filled pre buf) base path i n =
  Some (filled (pre ++ path_bytes (take n (drop i path))) buf).
Proof.
  revert pre i; induction n as [|n IH]; intros pre i Hb Hi Hl; simpl.
  { by rewrite app_nil_r. }
  destruct (lookup_lt_is_Some_2 path i) as [v Hv]; [lia|]. rewrite Hv. cbn [mbind option_bind].
  unfold put_be32. rewrite wr_filled by len. cbn [mbind option_bind].
  rewrite IH; [|len|lia|len]. rewrite (drop_S _ _ _ Hv). cbn [take path_bytes map concat].
  do 2 f_equal. by rewrite <- app_assoc.
Qed.

Lemma path_bytes_cons v vs : path_bytes (v :: vs) = be32_bytes v ++ path_bytes vs.
Proof. done. Qed.

Lemma get_path_spec pre vs rest base path i :
  (length pre = base + i * 4)%nat → (i + length vs ≤ length path)%nat → Forall is_u32 vs →
  get_path (pre ++ path_bytes vs ++ rest) base path i (length vs) =
  Some (take i path ++ vs ++ drop (i + length vs) path).
Proof.
  revert pre path i; induction vs as [|v vs IH]; intros pre path i Hpre Hi Hok;
    cbn [get_path length].
  { cbn [app]. by rewrite Nat.add_0_r, take_drop. }
  inversion_clear Hok as [|? ? Hv Hvs]. simpl in Hi. unfold get_be32.
  rewrite rdn_app_skip by len.
  rewrite path_bytes_cons, <- app_assoc. rewrite rdn_here by len. cbn [fmap option_fmap option_map mbind option_bind].
  rewrite be32_roundtrip by done. rewrite wr_one by lia. cbn [mbind option_bind].
  rewrite (app_assoc pre). rewrite IH; [|len|rewrite length_insert; lia|done].
  erewrite take_S_r; [|apply list_lookup_insert_eq; lia].
  rewrite take_insert_ge by lia. rewrite drop_insert_lt by lia.
  rewrite <- app_assoc. cbn [app]. do 5 f_equal. lia.
Qed.

(** Reading hops never leaves the buffer or the hop array when both bounds
    are right, and only touches the entries it reads. *)
Lemma get_path_safe buf base path i n :
  (base + (i + n) * 4 ≤ length buf)%nat → (i + n ≤ length path)%nat →
  ∃ path', get_path buf base path i n = Some path' ∧ length path' = length path ∧
    ∀ j, (j < i ∨ i + n ≤ j)%nat → path' !! j = path !! j.
Proof.
  revert path i; induction n as [|n IH]; intros path i Hb Hp; simpl; [eauto|].
  unfold get_be32. rewrite rdn_some by lia.
  cbn [fmap option_fmap option_map mbind option_bind].
  rewrite wr_one by lia. cbn [mbind option_bind].
  destruct (IH (<[i := be32_val (take 4 (drop (base + i * 4) buf))]> path) (S i))
    as (path' & -> & Hl & Hj); [lia|rewrite length_insert; lia|].
  exists path'. split_and!; [done|by rewrite Hl, length_insert|].
  intros j Hji. rewrite Hj by lia. apply list_lookup_insert_ne. lia.
Qed.

Lemma Zgt_false x y : x <= y → (x >? y) = false.
Proof. intros. rewrite Z.gtb_ltb. by apply Z.ltb_ge. Qed.

(** ** ACK *)

(** What a receiver of the frame sees: the hop count clamped to
    [ACK_MAX_HOPS], relay-path entries beyond it zero. *)
Definition clear_path (hops : Z) (path : list Z) : list Z :=
  take (Z.to_nat hops) path ++ replicate (length path - Z.to_nat hops) 0.
Definition ack_norm (p : bramble_ack_t) : bramble_ack_t :=
  mk_ack (ack_header p) (ack_src_addr p) (ack_packet_id p) (ack_flags p)
    (ack_rssi_at_dest p) (ack_hops p) (ack_auth_hmac p) (ack_seq p)
    (clear_path (ack_hops p) (ack_relay_path p)).

Lemma ack_hops_range p : ack_ok p → 0 <= ack_hops p <= 8 ∧ is_u8 (ack_hops p).
Proof.
  intros (_ & _ & _ & _ & _ & ? & _). unfold ack_hops, ACK_MAX_HOPS.
  destruct (_ >? _) eqn:E; conds; cint.
Qed.

Lemma length_ack_bytes p : ack_ok p → length (ack_bytes p) = bramble_ack_wire_size p.
Proof.
  intros Hok. pose proof (ack_hops_range p Hok) as [Hh _].
  destruct Hok as (_ & _ & _ & _ & _ & _ & ? & ? & Hp & _).
  unfold ack_bytes, bramble_ack_wire_size. sizes. unfold ACK_MAX_HOPS in Hp.
  rewrite !length_app, length_path_bytes, length_take. len.
Qed.

Lemma ack_serialize_spec p buf len :
  ack_ok p → (bramble_ack_wire_size p ≤ len)%nat → (len ≤ length buf)%nat →
  bramble_ack_serialize p buf len = Some (ESP_OK, filled (ack_bytes p) buf).
Proof.
  intros Hok Hlen Hbuf. pose proof (ack_hops_range p Hok) as [Hh _].
  destruct Hok as (_ & _ & _ & _ & _ & _ & ? & ? & Hp & _).
  unfold bramble_ack_serialize, bramble_ack_wire_size, ACK_MAX_HOPS in *. sizes.
  ser_start. do 7 ser_step.
  rewrite put_path_spec; [|len|lia|len]. cbn [mbind option_bind]. rewrite drop_0.
  unfold ack_bytes. by rewrite <- !app_assoc.
Qed.

(** Reading back [hops] relay-path entries into a zeroed array. *)
Lemma get_path_zeroed pre path hops base :
  (0 <= hops <= Z.of_nat (length path)) → length pre = base → Forall is_u32 path →
  get_path (pre ++ path_bytes (take (Z.to_nat hops) path)) base
    (replicate (length path) 0) 0 (Z.to_nat hops) = Some (clear_path hops path).
Proof.
  intros Hh Hpre Hok.
  assert (Hl : length (take (Z.to_nat hops) path) = Z.to_nat hops)
    by (rewrite length_take; lia).
  rewrite <- (app_nil_r (path_bytes _)). rewrite <- Hl at 2.
  rewrite get_path_spec; [|lia|rewrite length_replicate; lia|by apply Forall_take].
  cbn [take app]. unfold clear_path. by rewrite drop_replicate, Hl, Nat.add_0_l.
Qed.

Lemma ack_avail_exact (n : nat) :
  (if (12 + 25 <? 37 + n * 4)%nat then (37 + n * 4 - (12 + 25)) `div` 4 else 0)%nat = n.
Proof.
  replace (37 + n * 4 - (12 + 25))%nat with (n * 4)%nat by lia. rewrite Nat.div_mul by lia.
  destruct (Nat.ltb_spec (12 + 25) (37 + n * 4)); lia.
Qed.

Lemma ack_roundtrip :
  round_trips ack_ok bramble_ack_wire_size bramble_ack_serialize bramble_ack_deserialize ack_norm.
Proof.
  intros p buf len p0 Hok Hlen Hbuf.
  exists (ack_bytes p). pose proof (length_ack_bytes p Hok) as Hsz. split_and!; [done| |].
  { rewrite ack_serialize_spec by done. unfold filled. by rewrite Hsz. }
  pose proof (ack_hops_range p Hok) as [Hh Hh8].
  destruct Hok as (Hhd & ? & ? & ? & ? & ? & ? & ? & Hp & Hpok).
  unfold bramble_ack_deserialize, bramble_ack_wire_size, ACK_MAX_HOPS in *. sizes.
  unfold ack_bytes. des_start. des.
  destruct (ack_hops p >? Z.of_nat 8) eqn:E; conds; [lia|]. rewrite ack_avail_exact.
  rewrite (Zgt_false (ack_hops p)) by lia. rewrite !be32_roundtrip by done.
  rewrite !app_assoc, <- Hp, get_path_zeroed; [|lia|len|done].
  cbn [mbind option_bind]. by rewrite i8_of_u8 by done.
Qed.

(** ** DELIVERY_RECEIPT *)

Definition receipt_wire_size (p : bramble_delivery_receipt_t) : nat :=
  (DELIVERY_RECEIPT_MIN_SIZE + Z.to_nat (rcpt_hop_count p) * 4)%nat.
Definition receipt_norm (p : bramble_delivery_receipt_t) : bramble_delivery_receipt_t :=
  mk_receipt (rcpt_header p) (rcpt_src_addr p) (rcpt_orig_packet_id p) (rcpt_hop_count p)
    (rcpt_total_latency p) (rcpt_auth_hmac p) (rcpt_seq p)
    (clear_path (rcpt_hop_count p) (rcpt_relay_path p)).

(** A receipt the serializer accepts: at most eight hops. *)
Definition receipt_sendable (p : bramble_delivery_receipt_t) : Prop :=
  receipt_ok p ∧ rcpt_hop_count p <= 8.

Lemma receipt_roundtrip :
  round_trips receipt_sendable receipt_wire_size
    bramble_delivery_receipt_serialize bramble_delivery_receipt_deserialize receipt_norm.
Proof.
  intros p buf len p0 [(Hhd & ? & ? & Hhc & ? & ? & ? & Hp & Hpok) Hmax] Hlen Hbuf.
  assert (0 <= rcpt_hop_count p) by cint.
  unfold receipt_wire_size, DELIVERY_RECEIPT_MAX_HOPS in *. sizes.
  exists (receipt_bytes p).
  split_and!.
  - unfold receipt_bytes. rewrite !length_app, length_path_bytes, length_take. len.
  - unfold bramble_delivery_receipt_serialize, DELIVERY_RECEIPT_MAX_HOPS. sizes.
    rewrite (proj2 (Nat.ltb_ge _ _)) by lia. rewrite Zgt_false by lia.
    unfold and_then, put_be32.
    rewrite header_serialize_spec by (sizes; lia). cbn [mbind option_bind]. do 6 ser_step.
    rewrite put_path_spec; [|len|lia|len]. cbn [mbind option_bind]. rewrite drop_0.
    unfold receipt_bytes, filled. rewrite <- !app_assoc. repeat f_equal.
    rewrite !length_app, length_path_bytes, length_take. len.
  - unfold bramble_delivery_receipt_deserialize, receipt_bytes, DELIVERY_RECEIPT_MAX_HOPS.
    sizes. des_start. des. rewrite Zgt_false by lia.
    rewrite (proj2 (Nat.ltb_ge _ _)) by lia. rewrite !be32_roundtrip by done.
    rewrite !app_assoc, <- Hp, get_path_zeroed; [|lia|len|done]. done.
Qed.

(** ** UTF-8 truncation *)

(** The character boundaries of a byte string: [0], and from each boundary the
    one its lead byte announces. *)
Fixpoint nth_boundary (s : list Z) (n : nat) : option nat :=
  match n with
  | O => Some 0%nat
  | S n' => i ← nth_boundary s n'; c ← s !! i; Some (i + utf8_seq_len c)%nat
  end.
Definition is_boundary (s : list Z) (i : nat) : Prop := ∃ n, nth_boundary s n = Some i.

Lemma utf8_seq_len_range c : (1 ≤ utf8_seq_len c ≤ 4)%nat.
Proof. unfold utf8_seq_len. repeat split_if; lia. Qed.

Lemma nth_boundary_next s n k i j c :
  nth_boundary s n = Some i → s !! i = Some c → nth_boundary s (S n + k) = Some j →
  (i + utf8_seq_len c ≤ j)%nat.
Proof.
  intros Hn Hc. revert j. induction k as [|k IH]; intros j.
  - rewrite Nat.add_0_r. simpl. rewrite Hn. simpl. rewrite Hc. simpl. intros [= ->]. lia.
  - rewrite Nat.add_succ_r. cbn [nth_boundary].
    destruct (nth_boundary s (S n + k)) as [j'|] eqn:Hj'; [|done]. cbn [mbind option_bind].
    destruct (s !! j') as [c'|]; [|done]. cbn [mbind option_bind]. intros [= <-].
    specialize (IH _ eq_refl). lia.
Qed.

Lemma nth_boundary_mono s m n i j :
  (m ≤ n)%nat → nth_boundary s m = Some i → nth_boundary s n = Some j → (i ≤ j)%nat.
Proof.
  intros Hmn Hi. destruct (decide (m = n)) as [->|]; [intros Hj; naive_solver lia|].
  replace n with (S m + (n - S m))%nat by lia. intros Hj.
  destruct (s !! i) as [c|] eqn:Hc.
  - pose proof (nth_boundary_next _ _ _ _ _ _ Hi Hc Hj). lia.
  - exfalso. revert j Hj. induction (n - S m)%nat as [|k IH]; intros j.
    + rewrite Nat.add_0_r. cbn [nth_boundary]. rewrite Hi. cbn. by rewrite Hc.
    + rewrite Nat.add_succ_r. cbn [nth_boundary].
      destruct (nth_boundary s (S m + k)) eqn:E; [|done]. intros _. by eapply IH.
Qed.

Lemma utf8_trunc_loop_spec fuel s len mx n i :
  (len ≤ length s)%nat → (len ≤ fuel + i)%nat → (i ≤ len)%nat → (i ≤ mx)%nat →
  nth_boundary s n = Some i →
  ∃ r m, utf8_trunc_loop fuel s len mx i = Some r ∧ nth_boundary s m = Some r ∧
    (r ≤ len)%nat ∧ (r ≤ mx)%nat ∧
    ∀ c, s !! r = Some c → (r < len)%nat → (len < r + utf8_seq_len c ∨ mx < r + utf8_seq_len c)%nat.
Proof.
  revert n i; induction fuel as [|fuel IH]; intros n i Hs Hf Hi Hm Hb; simpl.
  { exists i, n. split_and!; try done. intros. lia. }
  destruct (Nat.ltb_spec i len) as [Hlt|Hge].
  2:{ exists i, n. split_and!; try done. intros. lia. }
  destruct (lookup_lt_is_Some_2 s i) as [c Hc]; [lia|].
  unfold rd. rewrite Hc. cbn [mbind option_bind].
  pose proof (utf8_seq_len_range c).
  destruct (Nat.ltb_spec len (i + utf8_seq_len c)), (Nat.ltb_spec mx (i + utf8_seq_len c)); simpl.
  4:{ apply (IH (S n)); try lia. simpl. rewrite Hb. simpl. by rewrite Hc. }
  all: exists i, n; split_and!; try done; intros c' Hc' _; rewrite Hc in Hc'; simplify_eq; lia.
Qed.

Lemma utf8_trunc_len_spec s len mx :
  (len ≤ length s)%nat →
  ∃ r, bramble_utf8_trunc_len (Some s) len mx = Some r ∧ is_boundary s r ∧
    (r ≤ len)%nat ∧ (r ≤ mx)%nat ∧
    ∀ j, is_boundary s j → (j ≤ len)%nat → (j ≤ mx)%nat → (j ≤ r)%nat.
Proof.
  intros Hs. destruct (utf8_trunc_loop_spec len s len mx 0 0) as (r & m & Hr & Hm & ? & ? & Hc);
    [lia..|done|].
  exists r. split_and!; [done|by exists m|done|done|].
  intros j [k Hk] Hj1 Hj2. destruct (decide (k ≤ m)%nat) as [Hle|Hgt].
  { by eapply nth_boundary_mono. }
  destruct (decide (j ≤ r)%nat) as [|Hjr]; [done|].
  destruct (lookup_lt_is_Some_2 s r) as [c Hlc]; [lia|].
  replace k with (S m + (k - S m))%nat in Hk by lia.
  pose proof (nth_boundary_next _ _ _ _ _ _ Hm Hlc Hk).
  destruct (Hc c Hlc); lia.
Qed.

(** ** BEACON *)

Lemma beacon_wire_name_len_spec p :
  beacon_ok p → ∃ n, beacon_wire_name_len p = Some n ∧ (n ≤ BEACON_NAME_MAX)%nat ∧
    (n ≤ Z.to_nat (bcn_name_len p))%nat ∧ is_boundary (bcn_name p) n.
Proof.
  intros (_&_&_&_&_&_&_&_&_&_&_&_&Hnl&Hnm). unfold beacon_wire_name_len, BEACON_NAME_MAX in *.
  set (have := if _ >? _ then _ else _).
  assert (have ≤ 16 ∧ have ≤ Z.to_nat (bcn_name_len p))%nat as [? ?].
  { unfold have. split_if; conds; lia. }
  destruct (utf8_trunc_len_spec (bcn_name p) have 16) as (r & -> & Hb & ? & ? & _); [lia|].
  exists r. split_and!; [done|lia|lia|done].
Qed.

(** The receiver's view: the name cut at the wire length, zero padded. *)
Definition beacon_norm_at (n : nat) (p : bramble_beacon_t) : bramble_beacon_t :=
  mk_beacon (bcn_header p) (bcn_src_addr p) (bcn_pubkey_hash p) (bcn_uptime_min p)
    (bcn_battery_pct p) (bcn_tx_queue_depth p) (bcn_neighbor_count p) (bcn_flags p)
    (bcn_network_time p) (bcn_time_confidence p) (bcn_seq p) (bcn_auth_hmac p)
    (Z.of_nat n) (take n (bcn_name p) ++ replicate (BEACON_NAME_MAX + 1 - n) 0).
Definition beacon_norm (p : bramble_beacon_t) : bramble_beacon_t :=
  beacon_norm_at (default 0%nat (beacon_wire_name_len p)) p.
Definition beacon_size (p : bramble_beacon_t) : nat :=
  default 0%nat (bramble_beacon_wire_size p).

Lemma length_beacon_bytes p n :
  beacon_ok p → (n ≤ BEACON_NAME_MAX)%nat →
  length (beacon_bytes p n) = (BEACON_SIZE + (if (0 <? n)%nat then 1 + n else 0))%nat.
Proof.
  intros (_&_&_&_&_&_&_&_&_&_&?&?&_&Hnm) Hn. unfold beacon_bytes, BEACON_NAME_MAX in *. sizes.
  split_if; rewrite !length_app; rewrite ?length_take; len.
Qed.

Lemma beacon_serialize_spec p n buf len :
  beacon_ok p → beacon_wire_name_len p = Some n → (n ≤ BEACON_NAME_MAX)%nat →
  (BEACON_SIZE + (if (0 <? n)%nat then 1 + n else 0) ≤ len)%nat → (len ≤ length buf)%nat →
  bramble_beacon_serialize p buf len = Some (ESP_OK, filled (beacon_bytes p n) buf).
Proof.
  intros (_&_&_&_&_&_&_&_&_&_&?&?&_&Hnm) Hn Hle Hlen Hbuf.
  unfold bramble_beacon_serialize, BEACON_NAME_MAX in *. rewrite Hn. cbn [mbind option_bind].
  sizes. unfold beacon_bytes. destruct (Nat.ltb_spec 0 n) as [Hpos|Hz].
  - ser_start. do 11 ser_step. ser_step. rewrite rdn_some by lia. cbn [mbind option_bind].
    rewrite drop_0. rewrite wr_filled;
      [|len|rewrite !length_app, length_take; len]. cbn [mbind option_bind].
    by rewrite <- !app_assoc.
  - ser_start. do 11 ser_step. rewrite app_nil_r. by rewrite <- !app_assoc.
Qed.

(** The name field of the deserializer: a zeroed 17-byte array, the name in
    front, terminated. *)
Lemma name_store name n :
  length name = 17%nat → (n ≤ 16)%nat →
  ∃ b, wr (replicate 17 0) 0 (take n name) = Some b ∧
    wr b n [0] = Some (take n name ++ replicate (17 - n) 0).
Proof.
  intros Hl Hn. assert (Htk : length (take n name) = n) by (rewrite length_take; lia).
  exists (filled (take n name) (replicate 17 0)). split.
  - rewrite <- (filled_nil (replicate 17 0)) at 1. rewrite wr_filled; [done|len|len].
  - rewrite wr_filled; [|lia|len]. f_equal. unfold filled.
    rewrite length_app, Htk, drop_replicate, <- app_assoc. f_equal. cbn [length].
    by replace (17 - n)%nat with (S (17 - (n + 1))) by lia.
Qed.

Lemma beacon_deserialize_spec p n p0 :
  beacon_ok p → (n ≤ BEACON_NAME_MAX)%nat →
  bramble_beacon_deserialize p0 (beacon_bytes p n)
    (BEACON_SIZE + (if (0 <? n)%nat then 1 + n else 0)) = Some (ESP_OK, beacon_norm_at n p).
Proof.
  intros (Hh&?&?&?&?&?&?&?&?&?&?&?&_&Hnm) Hle.
  unfold bramble_beacon_deserialize, beacon_bytes, beacon_norm_at, BEACON_NAME_MAX in *. sizes.
  destruct (Nat.ltb_spec 0 n) as [Hpos|Hz].
  - des_start. des. rewrite !be32_roundtrip, !be16_roundtrip by done.
    rewrite (proj2 (Nat.ltb_lt _ _)) by lia. des. rewrite Zgt_false by lia. rewrite Nat2Z.id.
    rewrite (proj2 (Nat.leb_le _ _)), (proj2 (Z.ltb_lt _ _)) by lia. cbn [andb].
    assert (Htk : length (take n (bcn_name p)) = n) by (rewrite length_take; lia).
    des. destruct (name_store (bcn_name p) n Hnm Hle) as (b & Hb1 & Hb2).
    change (16 + 1)%nat with 17%nat. rewrite Hb1. cbn [mbind option_bind]. rewrite Nat2Z.id, Hb2. done.
  - assert (n = 0%nat) as -> by lia. des_start. des.
    rewrite !be32_roundtrip, !be16_roundtrip by done. done.
Qed.

Lemma beacon_roundtrip :
  round_trips beacon_ok beacon_size bramble_beacon_serialize bramble_beacon_deserialize beacon_norm.
Proof.
  intros p buf len p0 Hok Hlen Hbuf.
  destruct (beacon_wire_name_len_spec p Hok) as (n & Hn & Hle & _).
  assert (Hsz : beacon_size p = (BEACON_SIZE + (if (0 <? n)%nat then 1 + n else 0))%nat).
  { unfold beacon_size, bramble_beacon_wire_size. by rewrite Hn. }
  unfold beacon_norm. rewrite Hn. cbn [default]. rewrite Hsz in *.
  exists (beacon_bytes p n). pose proof (length_beacon_bytes p n Hok Hle) as Hlb.
  split_and!; [done| |by apply beacon_deserialize_spec].
  rewrite (beacon_serialize_spec p n) by done. unfold filled. by rewrite Hlb.
Qed.

(** ** Memory safety of the parsers *)

Lemma get_be16_is_Some b off : (off + 2 ≤ length b)%nat → is_Some (get_be16 b off).
Proof. intros. apply fmap_is_Some. by apply rdn_is_Some. Qed.
Lemma get_be32_is_Some b off : (off + 4 ≤ length b)%nat → is_Some (get_be32 b off).
Proof. intros. apply fmap_is_Some. by apply rdn_is_Some. Qed.
Lemma get_be64_is_Some b off : (off + 8 ≤ length b)%nat → is_Some (get_be64 b off).
Proof. intros. apply fmap_is_Some. by apply rdn_is_Some. Qed.
Lemma get_le32_is_Some b off : (off + 4 ≤ length b)%nat → is_Some (get_le32 b off).
Proof. intros. apply fmap_is_Some. by apply rdn_is_Some. Qed.

Create HintDb membuf.
#[export] Hint Resolve get_be16_is_Some get_be32_is_Some get_be64_is_Some get_le32_is_Some
  rdn_is_Some rd_is_Some : membuf.

Ltac nat_conds :=
  repeat match goal with
  | H : (_ <? _)%nat = true |- _ => apply Nat.ltb_lt in H
  | H : (_ <? _)%nat = false |- _ => apply Nat.ltb_ge in H
  | H : (_ <=? _)%nat = true |- _ => apply Nat.leb_le in H
  | H : (_ <=? _)%nat = false |- _ => apply Nat.leb_gt in H
  | H : (_ =? _)%nat = true |- _ => apply Nat.eqb_eq in H
  | H : (_ =? _)%nat = false |- _ => apply Nat.eqb_neq in H
  end.

(** One step through a parser: a branch, an access in bounds, or the end. *)
Ltac in_bounds := sizes; lia.
Ltac safe_step :=
  match goal with
  | |- is_Some (Some _) => eauto
  | |- is_Some (if ?b then _ else _) => destruct b eqn:?; conds; nat_conds
  | |- is_Some (_ ≫= _) => apply bind_is_Some;
      [first [apply get_be32_is_Some | apply get_be16_is_Some | apply get_be64_is_Some
             | apply get_le32_is_Some | apply rdn_is_Some | apply rd_is_Some]; in_bounds
      |intros ? ?]
  end.
Ltac safe := repeat safe_step.

(** A header in bounds parses; the result does not depend on the old struct. *)
Lemma header_deserialize_total h0 buf len :
  (HEADER_SIZE ≤ len)%nat → (len ≤ length buf)%nat →
  ∃ h, bramble_header_deserialize h0 buf len = Some (ESP_OK, h).
Proof.
  intros H1 H2. unfold bramble_header_deserialize.
  rewrite (proj2 (Nat.ltb_ge _ _)) by done.
  destruct (rd_is_Some buf 0) as [? ->]; [in_bounds|].
  destruct (rd_is_Some buf 1) as [? ->]; [in_bounds|].
  destruct (rd_is_Some buf 2) as [? ->]; [in_bounds|].
  destruct (rd_is_Some buf 3) as [? ->]; [in_bounds|].
  destruct (get_be32_is_Some buf 4) as [? ->]; [in_bounds|].
  destruct (get_be32_is_Some buf 8) as [? ->]; [in_bounds|].
  cbn [mbind option_bind]. eauto.
Qed.

Ltac header_total :=
  match goal with
  | |- context [bramble_header_deserialize ?h0 ?buf ?len] =>
      let h := fresh "hd" in
      destruct (header_deserialize_total h0 buf len) as [h ->]; [in_bounds|in_bounds|];
      cbn [mbind option_bind]
  end.

Lemma rreq_deserialize_safe p buf len :
  (len ≤ length buf)%nat → is_Some (bramble_rreq_deserialize p buf len).
Proof. intros. unfold bramble_rreq_deserialize. safe. header_total. safe. Qed.
Lemma rrep_deserialize_safe p buf len :
  (len ≤ length buf)%nat → is_Some (bramble_rrep_deserialize p buf len).
Proof. intros. unfold bramble_rrep_deserialize. safe. header_total. safe. Qed.
Lemma rerr_deserialize_safe p buf len :
  (len ≤ length buf)%nat → is_Some (bramble_rerr_deserialize p buf len).
Proof. intros. unfold bramble_rerr_deserialize. safe. header_total. safe. Qed.
Lemma ke_deserialize_safe p buf len :
  (len ≤ length buf)%nat → is_Some (bramble_key_exchange_deserialize p buf len).
Proof. intros. unfold bramble_key_exchange_deserialize. safe. header_total. safe. Qed.
Lemma attestation_deserialize_safe p buf len :
  (len ≤ length buf)%nat → is_Some (bramble_identity_attestation_deserialize p buf len).
Proof. intros. unfold bramble_identity_attestation_deserialize. safe. header_total. safe. Qed.
Lemma origin_addr_safe type buf len :
  (len ≤ length buf)%nat → is_Some (bramble_packet_origin_addr type (Some buf) len).
Proof. intros. unfold bramble_packet_origin_addr. safe. Qed.

(** ** Untrusted lengths

    The three variable-length parsers act on a length byte the sender chose.
    Whatever it says, the parsed struct is consistent: the count covers only
    bytes that are in the frame, and everything behind it is zero. *)

Definition path_consistent (max : nat) (hops : Z) (path : list Z) : Prop :=
  length path = max ∧ 0 <= hops <= Z.of_nat max ∧
  ∀ j, (Z.to_nat hops ≤ j < max)%nat → path !! j = Some 0.

Lemma get_path_consistent buf base max hops :
  0 <= hops <= Z.of_nat max → (base + Z.to_nat hops * 4 ≤ length buf)%nat →
  ∃ path, get_path buf base (replicate max 0) 0 (Z.to_nat hops) = Some path ∧
    path_consistent max hops path.
Proof.
  intros Hh Hb. destruct (get_path_safe buf base (replicate max 0) 0 (Z.to_nat hops))
    as (path & Hp & Hl & Hz); [lia|rewrite length_replicate; lia|].
  exists path. unfold path_consistent. split_and!; [done|by rewrite Hl, length_replicate|lia|lia|].
  intros j Hj. rewrite Hz by lia. apply lookup_replicate_2. lia.
Qed.

(** Run the next in-bounds access of a parser and keep its value. *)
Ltac run_step :=
  match goal with
  | |- context [get_be32 ?b ?o ≫= _] =>
      destruct (get_be32_is_Some b o) as [? ->]; [in_bounds|cbn [mbind option_bind]]
  | |- context [get_be16 ?b ?o ≫= _] =>
      destruct (get_be16_is_Some b o) as [? ->]; [in_bounds|cbn [mbind option_bind]]
  | |- context [rdn ?b ?o ?n ≫= _] =>
      destruct (rdn_is_Some b o n) as [? ->]; [in_bounds|cbn [mbind option_bind]]
  | |- context [rd ?b ?o ≫= _] =>
      let x := fresh "x" in let E := fresh "E" in
      destruct (rd_is_Some b o) as [x E]; [in_bounds|rewrite E; cbn [mbind option_bind]]
  end.

Lemma rd_byte b off x : Forall is_u8 b → rd b off = Some x → is_u8 x.
Proof. intros Hb Hx. by eapply Forall_lookup_1. Qed.

Lemma ack_deserialize_consistent p buf len :
  (len ≤ length buf)%nat → Forall is_u8 buf →
  ∃ r p', bramble_ack_deserialize p buf len = Some (r, p') ∧
    if (ACK_BASE_SIZE <=? len)%nat
    then r = ESP_OK ∧ path_consistent ACK_MAX_HOPS (ack_hop_count p') (ack_relay_path p') ∧
         (ACK_BASE_SIZE + Z.to_nat (ack_hop_count p') * 4 ≤ len)%nat
    else r = ESP_ERR_INVALID_SIZE ∧ p' = p.
Proof.
  intros Hlen Hbytes. unfold bramble_ack_deserialize.
  destruct (Nat.ltb_spec len ACK_BASE_SIZE) as [Hs|Hs].
  { rewrite (proj2 (Nat.leb_gt _ _)) by done. eauto 10. }
  rewrite (proj2 (Nat.leb_le _ _)) by done. header_total. repeat run_step.
  match goal with E : rd buf (_ + 10) = Some ?x |- _ =>
    pose proof (rd_byte _ _ _ Hbytes E) as Hx; rename x into hc end.
  set (hc1 := if hc >? _ then _ else _).
  set (avail := if (_ <? len)%nat then _ else _).
  set (hc2 := if hc1 >? _ then _ else _).
  assert (0 <= hc1 <= 8).
  { unfold hc1, ACK_MAX_HOPS, is_u8 in *. split_if; conds; lia. }
  assert (37 + avail * 4 ≤ len)%nat.
  { unfold avail. sizes. destruct (Nat.ltb_spec (12 + 25) len); [|lia].
    pose proof (Nat.Div0.mul_div_le (len - (12 + 25)) 4). lia. }
  assert (0 <= hc2 <= 8 ∧ hc2 <= Z.of_nat avail).
  { unfold hc2. split_if; conds; lia. }
  destruct (get_path_consistent buf (HEADER_SIZE + 25) ACK_MAX_HOPS hc2)
    as (path & -> & Hp); [unfold ACK_MAX_HOPS; lia|in_bounds|].
  cbn [mbind option_bind]. eexists _, _. split; [done|]. cbn.
  split_and!; [done|apply Hp..|in_bounds].
Qed.

Lemma receipt_deserialize_consistent p buf len :
  (len ≤ length buf)%nat → Forall is_u8 buf →
  ∃ r p', bramble_delivery_receipt_deserialize p buf len = Some (r, p') ∧
    if (DELIVERY_RECEIPT_MIN_SIZE <=? len)%nat
    then path_consistent DELIVERY_RECEIPT_MAX_HOPS (rcpt_hop_count p') (rcpt_relay_path p') ∧
         (DELIVERY_RECEIPT_MIN_SIZE + Z.to_nat (rcpt_hop_count p') * 4 ≤ len)%nat ∧
         (r = ESP_ERR_INVALID_SIZE → rcpt_hop_count p' = 0)
    else r = ESP_ERR_INVALID_SIZE ∧ p' = p.
Proof.
  intros Hlen Hbytes. unfold bramble_delivery_receipt_deserialize.
  destruct (Nat.ltb_spec len DELIVERY_RECEIPT_MIN_SIZE) as [Hs|Hs].
  { rewrite (proj2 (Nat.leb_gt _ _)) by done. eauto 10. }
  rewrite (proj2 (Nat.leb_le _ _)) by done. header_total. repeat run_step.
  match goal with E : rd buf (_ + 8) = Some ?x |- _ =>
    pose proof (rd_byte _ _ _ Hbytes E) as Hx; rename x into hc end.
  assert (Hzero : path_consistent DELIVERY_RECEIPT_MAX_HOPS 0 (replicate DELIVERY_RECEIPT_MAX_HOPS 0)).
  { unfold path_consistent. split_and!; [done|lia|lia|].
    intros j Hj. apply lookup_replicate_2. lia. }
  destruct (hc >? _) eqn:E1; conds.
  { eexists _, _. split; [done|]. cbn. split_and!; [apply Hzero..|in_bounds|done]. }
  destruct (Nat.ltb_spec len (DELIVERY_RECEIPT_MIN_SIZE + Z.to_nat hc * 4)) as [H1|H1].
  { eexists _, _. split; [done|]. cbn. split_and!; [apply Hzero..|in_bounds|done]. }
  unfold is_u8 in *.
  destruct (get_path_consistent buf (HEADER_SIZE + 24) DELIVERY_RECEIPT_MAX_HOPS hc)
    as (path & -> & Hp); [lia|in_bounds|].
  cbn [mbind option_bind]. eexists _, _. split; [done|]. cbn.
  split_and!; [apply Hp..|in_bounds|done].
Qed.

(** The parsed name is terminated: all bytes from [name_len] on are zero. *)
Lemma beacon_deserialize_consistent p buf len :
  (len ≤ length buf)%nat → Forall is_u8 buf →
  ∃ r p', bramble_beacon_deserialize p buf len = Some (r, p') ∧
    if (BEACON_SIZE <=? len)%nat
    then r = ESP_OK ∧
         path_consistent (BEACON_NAME_MAX + 1) (bcn_name_len p') (bcn_name p') ∧
         (bcn_name_len p' = 0 ∨
            (BEACON_SIZE + 1 + Z.to_nat (bcn_name_len p') ≤ len)%nat) ∧
         bcn_name_len p' <= Z.of_nat BEACON_NAME_MAX
    else r = ESP_ERR_INVALID_SIZE ∧ p' = p.
Proof.
  intros Hlen Hbytes. unfold bramble_beacon_deserialize.
  destruct (Nat.ltb_spec len BEACON_SIZE) as [Hs|Hs].
  { rewrite (proj2 (Nat.leb_gt _ _)) by done. eauto 10. }
  rewrite (proj2 (Nat.leb_le _ _)) by done. header_total. do 11 run_step.
  unfold BEACON_NAME_MAX. change (16 + 1)%nat with 17%nat.
  assert (Hz : path_consistent 17 0 (replicate 17 0)).
  { unfold path_consistent. split_and!; [done|lia|lia|].
    intros j Hj. apply lookup_replicate_2. lia. }
  destruct (Nat.ltb_spec BEACON_SIZE len) as [Hgt|Hge].
  2:{ cbn [mbind option_bind]. eexists _, _. split; [done|]. cbn.
      split_and!; [done|apply Hz..|by left|lia]. }
  run_step.
  match goal with E : rd buf BEACON_SIZE = Some ?x |- _ =>
    pose proof (rd_byte _ _ _ Hbytes E) as Hx; rename x into d end.
  set (declared := if d >? _ then _ else _).
  assert (0 <= declared <= 16) by (unfold declared, is_u8 in *; split_if; conds; lia).
  destruct (_ && _) eqn:Hcond; conds; nat_conds.
  - rewrite rdn_some by in_bounds. cbn [mbind option_bind].
    set (nm := take _ _).
    assert (Hnm : length nm = Z.to_nat declared)
      by (unfold nm; rewrite length_take, length_drop; in_bounds).
    destruct (name_store (nm ++ replicate (17 - Z.to_nat declared) 0) (Z.to_nat declared))
      as (b & Hb1 & Hb2); [rewrite length_app, length_replicate; lia|lia|].
    rewrite <- Hnm, take_app_length in Hb1, Hb2. rewrite Hb1. cbn [mbind option_bind].
    rewrite <- Hnm, Hb2. cbn [mbind option_bind]. eexists _, _. split; [done|]. cbn.
    unfold path_consistent.
    split_and!; [done|rewrite length_app, length_replicate; lia|lia|lia| |right; in_bounds|lia].
    intros j Hj. rewrite lookup_app_r by lia. apply lookup_replicate_2. lia.
  - eexists _, _. split; [done|]. cbn. split_and!; [done|apply Hz..|by left|lia].
Qed.

(** ** Authenticated data *)

Definition mask_hop_limit (h : bramble_header_t) : bramble_header_t :=
  mk_header (h_version h) (h_type h) (h_flags h) 0 (h_dest_addr h) (h_packet_id h).
Definition aad_bytes (h : bramble_header_t) (src_addr : Z) : list Z :=
  header_bytes (mask_hop_limit h) ++ le32_bytes src_addr.

Lemma u8_land_255 z : u8 (Z.land z 255) = u8 z.
Proof.
  unfold u8. change 255 with (Z.ones 8). rewrite Z.land_ones by lia.
  apply Z.mod_mod. lia.
Qed.

Lemma header_build_aad_spec h buf len :
  (HEADER_SIZE ≤ len)%nat → (len ≤ length buf)%nat →
  bramble_header_build_aad h buf len =
    Some (ESP_OK, filled (header_bytes (mask_hop_limit h)) buf).
Proof.
  intros H1 H2. unfold bramble_header_build_aad, and_then.
  rewrite header_serialize_spec by done. cbn [mbind option_bind].
  unfold wr. rewrite length_filled by (rewrite length_header_bytes; in_bounds).
  rewrite decide_True by (cbn [length]; in_bounds). done.
Qed.

Lemma build_aead_aad_spec h src_addr buf len :
  (HEADER_SIZE + 4 ≤ len)%nat → (len ≤ length buf)%nat →
  bramble_build_aead_aad h src_addr buf len = Some (ESP_OK, filled (aad_bytes h src_addr) buf).
Proof.
  intros H1 H2. unfold bramble_build_aead_aad, and_then.
  rewrite (proj2 (Nat.ltb_ge _ _)) by done.
  rewrite header_build_aad_spec by in_bounds. cbn [mbind option_bind]. sizes.
  do 4 ser_step. rewrite !u8_land_255. unfold aad_bytes. by rewrite <- !app_assoc.
Qed.

Lemma aad_bytes_inj h1 h2 s1 s2 :
  header_ok h1 → header_ok h2 → is_u32 s1 → is_u32 s2 →
  aad_bytes h1 s1 = aad_bytes h2 s2 → mask_hop_limit h1 = mask_hop_limit h2 ∧ s1 = s2.
Proof.
  intros (_&_&_&_&?&?) (_&_&_&_&?&?) Hs1 Hs2 E. unfold aad_bytes in E.
  apply app_inj_1 in E as [Eh Es]; [|done].
  split; [|by apply le32_bytes_inj].
  unfold header_bytes in Eh. cbn [app mask_hop_limit h_version h_type h_flags h_hop_limit
    h_dest_addr h_packet_id] in Eh.
  injection Eh as Ev Et Ef E. 
  assert (h_dest_addr h1 = h_dest_addr h2 ∧ h_packet_id h1 = h_packet_id h2) as [Ed Ep].
  { split; apply be32_bytes_inj; try done; unfold be32_bytes; congruence. }
  unfold mask_hop_limit. congruence.
Qed.

(** ** Properties *)

(** C3. Every frame type of the protocol (header, ACK, RREQ, RREP, RERR, beacon,
    key exchange, delivery receipt, identity attestation) survives the wire: for a
    well-formed frame and a buffer of sufficient length the serializer succeeds,
    writes exactly the frame's wire size and no byte behind it, and the
    deserializer recovers the frame from those bytes whatever the destination
    struct held before; ACK and receipt come back with the hop count clamped and
    unused relay-path entries zero, a beacon with its name cut at the wire length. *)
Theorem frames_roundtrip :
  round_trips header_ok (λ _, HEADER_SIZE) bramble_header_serialize bramble_header_deserialize id ∧
  round_trips ack_ok bramble_ack_wire_size bramble_ack_serialize bramble_ack_deserialize ack_norm ∧
  round_trips rreq_ok (λ _, RREQ_SIZE) bramble_rreq_serialize bramble_rreq_deserialize id ∧
  round_trips rrep_ok (λ _, RREP_SIZE) bramble_rrep_serialize bramble_rrep_deserialize id ∧
  round_trips rerr_ok (λ _, RERR_SIZE) bramble_rerr_serialize bramble_rerr_deserialize id ∧
  round_trips beacon_ok beacon_size bramble_beacon_serialize bramble_beacon_deserialize beacon_norm ∧
  round_trips ke_ok (λ _, KEY_EXCHANGE_SIZE)
    bramble_key_exchange_serialize bramble_key_exchange_deserialize id ∧
  round_trips receipt_sendable receipt_wire_size
    bramble_delivery_receipt_serialize bramble_delivery_receipt_deserialize receipt_norm ∧
  round_trips attestation_ok (λ _, IDENTITY_ATTESTATION_SIZE)
    bramble_identity_attestation_serialize bramble_identity_attestation_deserialize id.
Proof.
  split_and!; [apply header_roundtrip|apply ack_roundtrip|apply rreq_roundtrip
    |apply rrep_roundtrip|apply rerr_roundtrip|apply beacon_roundtrip|apply ke_roundtrip
    |apply receipt_roundtrip|apply attestation_roundtrip].
Qed.


(** Attacker-chosen length bytes cannot desynchronise a parsed struct from
    its frame: the ACK's and receipt's hop count is at most eight and at most
    what the frame carries, the beacon's name length at most sixteen and within
    the frame, every array entry from the count on is zero, a rejected receipt
    has hop count zero, and a too-short frame leaves the struct untouched. *)
Theorem parsed_lengths_consistent (buf : list Z) (len : nat)
    (Hlen : (len ≤ length buf)%nat) (Hbytes : Forall is_u8 buf) :
  (∀ p, ∃ r p', bramble_ack_deserialize p buf len = Some (r, p') ∧
    if (ACK_BASE_SIZE <=? len)%nat
    then r = ESP_OK ∧ path_consistent ACK_MAX_HOPS (ack_hop_count p') (ack_relay_path p') ∧
         (ACK_BASE_SIZE + Z.to_nat (ack_hop_count p') * 4 ≤ len)%nat
    else r = ESP_ERR_INVALID_SIZE ∧ p' = p) ∧
  (∀ p, ∃ r p', bramble_delivery_receipt_deserialize p buf len = Some (r, p') ∧
    if (DELIVERY_RECEIPT_MIN_SIZE <=? len)%nat
    then path_consistent DELIVERY_RECEIPT_MAX_HOPS (rcpt_hop_count p') (rcpt_relay_path p') ∧
         (DELIVERY_RECEIPT_MIN_SIZE + Z.to_nat (rcpt_hop_count p') * 4 ≤ len)%nat ∧
         (r = ESP_ERR_INVALID_SIZE → rcpt_hop_count p' = 0)
    else r = ESP_ERR_INVALID_SIZE ∧ p' = p) ∧
  (∀ p, ∃ r p', bramble_beacon_deserialize p buf len = Some (r, p') ∧
    if (BEACON_SIZE <=? len)%nat
    then r = ESP_OK ∧
         path_consistent (BEACON_NAME_MAX + 1) (bcn_name_len p') (bcn_name p') ∧
         (bcn_name_len p' = 0 ∨
            (BEACON_SIZE + 1 + Z.to_nat (bcn_name_len p') ≤ len)%nat) ∧
         bcn_name_len p' <= Z.of_nat BEACON_NAME_MAX
    else r = ESP_ERR_INVALID_SIZE ∧ p' = p).
Proof.
  split_and!; intros p; [by apply ack_deserialize_consistent
    |by apply receipt_deserialize_consistent|by apply beacon_deserialize_consistent].
Qed.

(** [bramble_utf8_trunc_len] returns the largest character boundary that
    fits: its result is a boundary of the string's UTF-8 lead-byte structure, at
    most [len] and at most [max_bytes], and no larger boundary is; it reads no
    byte behind the string. *)
Theorem utf8_truncates_at_largest_boundary (s : list Z) (len max_bytes : nat)
    (Hlen : (len ≤ length s)%nat) :
  ∃ r, bramble_utf8_trunc_len (Some s) len max_bytes = Some r ∧ is_boundary s r ∧
    (r ≤ len)%nat ∧ (r ≤ max_bytes)%nat ∧
    ∀ j, is_boundary s j → (j ≤ len)%nat → (j ≤ max_bytes)%nat → (j ≤ r)%nat.
Proof. by apply utf8_trunc_len_spec. Qed.

(** The AEAD additional data binds exactly what it should: two frames have
    the same AAD if and only if they agree on every header field except the
    relay-mutable hop limit and on the source address.  So a relay's decrement
    of [hop_limit] keeps the tag valid and any other change of the header or of
    [src_addr] changes the authenticated bytes. *)
Theorem aead_aad_binds_all_but_hop_limit (h1 h2 : bramble_header_t) (s1 s2 : Z)
    (buf : list Z) (len : nat)
    (Hh1 : header_ok h1) (Hh2 : header_ok h2) (Hs1 : is_u32 s1) (Hs2 : is_u32 s2)
    (Hlen : (HEADER_SIZE + 4 ≤ len)%nat) (Hbuf : (len ≤ length buf)%nat) :
  ∃ out1 out2,
    bramble_build_aead_aad h1 s1 buf len = Some (ESP_OK, out1) ∧
    bramble_build_aead_aad h2 s2 buf len = Some (ESP_OK, out2) ∧
    (take (HEADER_SIZE + 4) out1 = take (HEADER_SIZE + 4) out2 ↔
     h_version h1 = h_version h2 ∧ h_type h1 = h_type h2 ∧ h_flags h1 = h_flags h2 ∧
     h_dest_addr h1 = h_dest_addr h2 ∧ h_packet_id h1 = h_packet_id h2 ∧ s1 = s2).
Proof.
  rewrite !build_aead_aad_spec by done. eexists _, _. split_and!; [done..|].
  unfold filled. rewrite !take_app_length' by done. split.
  - intros [E ->]%aad_bytes_inj; [|done..]. injection E. done.
  - intros (E1 & E2 & E3 & E4 & E5 & ->). unfold aad_bytes, mask_hop_limit. congruence.
Qed.

(** ** Witnesses *)

Definition sample_header : bramble_header_t := mk_header 5 1 0 8 305419896 2596069104.
Definition sample_ack : bramble_ack_t :=
  mk_ack sample_header 10 11 0 (-90) 2 (replicate 8 7) (replicate 6 9)
    [100; 200; 0; 0; 0; 0; 0; 0].

Lemma sample_ack_ok : ack_ok sample_ack.
Proof. unfold ack_ok, header_ok. cbn. cint_unfold. split_and!; try lia; try done.
  repeat constructor; lia. Qed.

Lemma frames_roundtrip_witness :
  ack_ok sample_ack ∧ bramble_ack_wire_size sample_ack = 45%nat ∧
  ∃ wire, length wire = 45%nat ∧
    bramble_ack_serialize sample_ack (replicate 60 1) 60 =
      Some (ESP_OK, wire ++ replicate 15 1) ∧
    bramble_ack_deserialize sample_ack wire 45 = Some (ESP_OK, sample_ack).
Proof.
  split; [exact sample_ack_ok|]. split; [done|].
  exact (proj1 (proj2 frames_roundtrip) sample_ack (replicate 60 1) 60%nat sample_ack
    sample_ack_ok ltac:(vm_compute; lia) ltac:(vm_compute; lia)).
Defined.


(** The frame claims 255 hops and carries one. *)
Lemma parsed_lengths_consistent_witness :
  ∃ r p', bramble_ack_deserialize sample_ack (replicate 41 255) 41 = Some (r, p') ∧
    r = ESP_OK ∧ path_consistent ACK_MAX_HOPS (ack_hop_count p') (ack_relay_path p') ∧
    (ACK_BASE_SIZE + Z.to_nat (ack_hop_count p') * 4 ≤ 41)%nat.
Proof.
  apply (proj1 (parsed_lengths_consistent (replicate 41 255) 41
    ltac:(vm_compute; lia) ltac:(apply Forall_replicate; unfold is_u8; lia))).
Defined.

(** [0x61 0xC3 0xA9] ("a" then a two-byte character), cut to two bytes. *)
Lemma utf8_truncates_at_largest_boundary_witness :
  bramble_utf8_trunc_len (Some [97; 195; 169]) 3 2 = Some 1%nat ∧
  ∃ r, bramble_utf8_trunc_len (Some [97; 195; 169]) 3 2 = Some r ∧ is_boundary [97; 195; 169] r.
Proof.
  split; [done|].
  destruct (utf8_truncates_at_largest_boundary [97; 195; 169] 3 2 ltac:(vm_compute; lia))
    as (r & Hr & Hb & _).
  exists r. split; [exact Hr|exact Hb].
Defined.

Lemma sample_header_ok : header_ok sample_header.
Proof. unfold header_ok. cbn. cint_unfold. lia. Qed.

Lemma aead_aad_binds_all_but_hop_limit_witness :
  ∃ out1 out2,
    bramble_build_aead_aad sample_header 10 (replicate 16 0) 16 = Some (ESP_OK, out1) ∧
    bramble_build_aead_aad (mk_header 5 1 0 3 305419896 2596069104) 10 (replicate 16 0) 16
      = Some (ESP_OK, out2) ∧
    take 16 out1 = take 16 out2.
Proof.
  destruct (aead_aad_binds_all_but_hop_limit sample_header
    (mk_header 5 1 0 3 305419896 2596069104) 10 10 (replicate 16 0) 16
    sample_header_ok ltac:(unfold header_ok; cbn; cint_unfold; lia)
    ltac:(unfold is_u32; lia) ltac:(unfold is_u32; lia)
    ltac:(vm_compute; lia) ltac:(vm_compute; lia)) as (o1 & o2 & H1 & H2 & H3).
  exists o1, o2. split; [exact H1|]. split; [exact H2|]. apply H3. done.
Defined.
