(* ===== verification/Dedup.v ===== *)
(** * Packet deduplication ([components/dedup])

    A table of 256 recently seen packet ids with their arrival stamps.  The
    relay path drops a packet whose id is present and younger than one
    minute. *)

From stdpp Require Import base numbers sets list option decidable.
From S2P Require Import Prelude Tables.

Definition DEDUP_MAX_ENTRIES : nat := 256.
Definition DEDUP_EXPIRY_MS : Z := 60000.

Record dedup_entry_t := mk_dedup_entry { packet_id : Z; timestamp_ms : Z }.
Definition dedup_buffer_t : Type := ctable dedup_entry_t.

#[global] Instance dedup_entry_inhabited : Inhabited dedup_entry_t :=
  populate (mk_dedup_entry 0 0).
#[global] Instance dedup_entry_eq_dec : EqDecision dedup_entry_t.
Proof. solve_decision. Defined.

Definition dedup_init : dedup_buffer_t :=
  table_init DEDUP_MAX_ENTRIES (mk_dedup_entry 0 0).

Definition dedup_fresh (now_ms : Z) (e : dedup_entry_t) : bool :=
  (now_ms ⊖ timestamp_ms e) <? DEDUP_EXPIRY_MS.

Definition dedup_purge (buf : dedup_buffer_t) (now_ms : Z) : dedup_buffer_t :=
  compact (dedup_fresh now_ms) buf.

Definition dedup_count (buf : dedup_buffer_t) : nat := count buf.

Definition dedup_contains (buf : dedup_buffer_t) (id now_ms : Z) : bool :=
  match find_index (λ e, (packet_id e =? id) && dedup_fresh now_ms e) (live buf) with
  | Some _ => true
  | None => false
  end.

Definition dedup_check_and_add (buf : dedup_buffer_t) (id now_ms : Z)
    : bool * dedup_buffer_t :=
  let buf := dedup_purge buf now_ms in
  match find_index (λ e, packet_id e =? id) (live buf) with
  | Some _ => (true, buf)
  | None =>
      if decide (count buf < DEDUP_MAX_ENTRIES)%nat
      then (false, tpush buf (mk_dedup_entry id now_ms))
      else
        let oldest := best_index (λ x y, timestamp_ms x <? timestamp_ms y) (live buf) in
        (false, tset buf oldest (mk_dedup_entry id now_ms))
  end.

(** ** Invariant *)

Definition dedup_wf (buf : dedup_buffer_t) : Prop :=
  table_wf DEDUP_MAX_ENTRIES buf ∧ NoDup (packet_id <$> live buf).

Lemma dedup_init_wf : dedup_wf dedup_init.
Proof. split; [apply table_init_wf|]. constructor. Qed.

Lemma live_dedup_purge buf now :
  dedup_wf buf → live (dedup_purge buf now) = filter (λ e, dedup_fresh now e = true) (live buf).
Proof. intros [? ?]. by eapply live_compact. Qed.

Lemma dedup_purge_wf buf now : dedup_wf buf → dedup_wf (dedup_purge buf now).
Proof.
  intros Hwf. pose proof Hwf as [? Hnd]. split; [by apply compact_wf|].
  rewrite live_dedup_purge by done.
  eapply sublist_NoDup; [exact Hnd|]. apply fmap_sublist, sublist_filter.
Qed.

Lemma dedup_purge_fresh buf now e :
  dedup_wf buf → e ∈ live (dedup_purge buf now) ↔ dedup_fresh now e = true ∧ e ∈ live buf.
Proof. intros. rewrite live_dedup_purge by done. by rewrite list_elem_of_filter. Qed.

(** Membership of an id in the live entries, as the loops test it. *)
Lemma dedup_find_None id (l : list dedup_entry_t) :
  find_index (λ e, packet_id e =? id) l = None ↔ id ∉ packet_id <$> l.
Proof.
  rewrite find_index_None, list.Forall_forall. split.
  - intros H (e & -> & He)%list_elem_of_fmap. specialize (H e He). conds. done.
  - intros H e He. apply Z.eqb_neq. intros <-. apply H. by apply list_elem_of_fmap_2.
Qed.

Lemma dedup_contains_spec buf id now :
  dedup_contains buf id now = true ↔
  ∃ e, e ∈ live buf ∧ packet_id e = id ∧ dedup_fresh now e = true.
Proof.
  unfold dedup_contains.
  transitivity (is_Some (find_index (λ e, (packet_id e =? id) && dedup_fresh now e) (live buf))).
  { destruct (find_index _ _); split; intros H; try done; by destruct H. }
  rewrite find_index_is_Some. setoid_rewrite andb_true_iff. by setoid_rewrite Z.eqb_eq.
Qed.

(** The entry written by an accepting call, and what survives of the table. *)
Lemma dedup_accept_live buf id now :
  dedup_wf buf → id ∉ packet_id <$> live (dedup_purge buf now) →
  let b := dedup_purge buf now in
  dedup_check_and_add buf id now =
    (false, if decide (count b < DEDUP_MAX_ENTRIES)%nat then tpush b (mk_dedup_entry id now)
            else tset b (best_index (λ x y, timestamp_ms x <? timestamp_ms y) (live b))
                   (mk_dedup_entry id now)).
Proof.
  intros Hwf Hid b. unfold dedup_check_and_add.
  rewrite (proj2 (dedup_find_None id (live (dedup_purge buf now)))) by done.
  fold b. by case_decide.
Qed.

Lemma dedup_check_and_add_wf buf id now :
  dedup_wf buf → dedup_wf (dedup_check_and_add buf id now).2.
Proof.
  intros Hwf. pose proof (dedup_purge_wf buf now Hwf) as Hwf'.
  destruct (decide (id ∈ packet_id <$> live (dedup_purge buf now))) as [Hin|Hout].
  - unfold dedup_check_and_add. destruct (find_index _ _) eqn:E; [done|].
    by apply dedup_find_None in E.
  - rewrite dedup_accept_live by done. simpl. destruct Hwf' as [Hw Hnd].
    case_decide as Hc.
    + split; [by apply tpush_wf|]. erewrite live_tpush by done.
      rewrite fmap_app. apply list.NoDup_app. split_and!; [done|set_solver|apply NoDup_singleton].
    + split; [by apply tset_wf|]. rewrite live_tset, list_fmap_insert.
      by apply NoDup_insert_fresh.
Qed.

(** The verdict is exactly the read-only membership query. *)
Lemma dedup_verdict buf id now :
  dedup_wf buf → (dedup_check_and_add buf id now).1 = dedup_contains buf id now.
Proof.
  intros Hwf.
  destruct (dedup_contains buf id now) eqn:E.
  - apply dedup_contains_spec in E as (e & He & <- & Hf).
    assert (packet_id e ∈ packet_id <$> live (dedup_purge buf now))
      by (apply list_elem_of_fmap_2, dedup_purge_fresh; done).
    unfold dedup_check_and_add. destruct (find_index _ _) eqn:E; [done|].
    by apply dedup_find_None in E.
  - rewrite dedup_accept_live; [done|done|].
    intros (e & -> & [Hf He]%(dedup_purge_fresh _ _ _ Hwf))%list_elem_of_fmap.
    rewrite <- not_true_iff_false, dedup_contains_spec in E. apply E. eauto.
Qed.

(** ** Traces

    The receive path calls [dedup_check_and_add] once per frame, with the
    [(id, stamp)] pairs of [ops] in arrival order. *)

Definition dedup_run (buf : dedup_buffer_t) (ops : list (Z * Z)) : dedup_buffer_t :=
  foldl (λ b op, (dedup_check_and_add b op.1 op.2).2) buf ops.

(** Entries stamped at or after [t0]. *)
Definition since (t0 : Z) (l : list dedup_entry_t) : list dedup_entry_t :=
  filter (λ e, t0 <= timestamp_ms e) l.

Lemma length_since_insert t0 (l : list dedup_entry_t) i e :
  (length (since t0 (<[i := e]> l)) ≤ S (length (since t0 l)))%nat.
Proof.
  unfold since. destruct (decide (i < length l)%nat) as [Hi|]; [|rewrite list_insert_ge; lia].
  destruct (lookup_lt_is_Some_2 l i Hi) as [y Hy].
  rewrite insert_take_drop by done. rewrite <- (take_drop_middle l i y Hy) at 3.
  rewrite !list.filter_app, !list.filter_cons, !length_app.
  repeat case_decide; simpl; lia.
Qed.

Lemma length_since_purge t0 buf now :
  dedup_wf buf → (length (since t0 (live (dedup_purge buf now))) ≤ length (since t0 (live buf)))%nat.
Proof.
  intros Hwf. rewrite live_dedup_purge by done. unfold since. rewrite list_filter_filter.
  induction (live buf) as [|e l IH]; [done|].
  rewrite !filter_cons. repeat case_decide; simpl; intuition lia.
Qed.

(** [id], accepted at [t0], is still in the table, in which at most [k]
    entries are as recent. *)
Definition dedup_kept (id t0 : Z) (k : nat) (buf : dedup_buffer_t) : Prop :=
  dedup_wf buf ∧ mk_dedup_entry id t0 ∈ live buf ∧ (length (since t0 (live buf)) ≤ k)%nat.

Lemma dedup_fresh_window id t0 t :
  is_u32 t0 → is_u32 t → t0 <= t < t0 + DEDUP_EXPIRY_MS →
  dedup_fresh t (mk_dedup_entry id t0) = true.
Proof. intros. apply Z.ltb_lt. simpl. unfold DEDUP_EXPIRY_MS in *. cint. Qed.

Lemma dedup_add_since buf id now t0 :
  dedup_wf buf →
  (length (since t0 (live (dedup_check_and_add buf id now).2)) ≤ S (length (since t0 (live buf))))%nat.
Proof.
  intros Hwf. pose proof (dedup_purge_wf buf now Hwf) as [Hw _].
  pose proof (length_since_purge t0 buf now Hwf).
  unfold dedup_check_and_add. destruct (find_index _ _); simpl; [lia|].
  case_decide; simpl.
  - erewrite live_tpush by done. unfold since in *.
    rewrite list.filter_app, length_app, list.filter_cons.
    case_decide; rewrite list.filter_nil; simpl; lia.
  - rewrite live_tset.
    pose proof (length_since_insert t0 (live (dedup_purge buf now))
      (best_index (λ x y, timestamp_ms x <? timestamp_ms y) (live (dedup_purge buf now)))
      (mk_dedup_entry id now)). lia.
Qed.

(** The entry evicted from a full table is older than [t0] as long as not
    every entry is as recent as [t0]. *)
Lemma dedup_victim_old buf t0 :
  dedup_wf buf → count buf = DEDUP_MAX_ENTRIES →
  (length (since t0 (live buf)) < DEDUP_MAX_ENTRIES)%nat →
  timestamp_ms (live buf !!! best_index (λ x y, timestamp_ms x <? timestamp_ms y) (live buf)) < t0.
Proof.
  intros [Hw _] Hc Hlt. apply Z.lt_nge. intros Hge.
  enough (since t0 (live buf) = live buf) as Heq.
  { rewrite Heq in Hlt. erewrite length_live in Hlt by done. lia. }
  apply filter_Forall_id. apply list.Forall_forall. intros e (j & Hj)%list_elem_of_lookup.
  pose proof (lookup_lt_Some _ _ _ Hj).
  pose proof (best_index_min timestamp_ms (live buf) j ltac:(done)).
  rewrite (list_lookup_total_correct _ _ _ Hj) in *. lia.
Qed.

Lemma dedup_kept_step id t0 k buf op :
  is_u32 t0 → is_u32 op.2 → t0 <= op.2 < t0 + DEDUP_EXPIRY_MS → (k < DEDUP_MAX_ENTRIES)%nat →
  dedup_kept id t0 k buf → dedup_kept id t0 (S k) (dedup_check_and_add buf op.1 op.2).2.
Proof.
  intros Ht0 Ht Hw Hk (Hwf & Hin & Hlen). split_and!.
  - by apply dedup_check_and_add_wf.
  - pose proof (dedup_purge_wf buf op.2 Hwf) as Hwf'.
    pose proof (length_since_purge t0 buf op.2 Hwf).
    assert (Hin' : mk_dedup_entry id t0 ∈ live (dedup_purge buf op.2))
      by (apply dedup_purge_fresh; [done|]; split; [by apply dedup_fresh_window|done]).
    unfold dedup_check_and_add. destruct (find_index _ _); [done|]. case_decide; simpl.
    + erewrite live_tpush by (apply Hwf' || done). set_solver.
    + rewrite live_tset.
      pose proof (dedup_victim_old (dedup_purge buf op.2) t0 Hwf') as Hold.
      destruct Hwf' as [[? ?] _]. specialize (Hold ltac:(lia) ltac:(lia)).
      apply list_elem_of_lookup in Hin' as (j & Hj). apply list_elem_of_lookup. exists j.
      rewrite list_lookup_insert_ne; [done|]. intros Heq. rewrite Heq in Hold.
      rewrite (list_lookup_total_correct _ _ _ Hj) in Hold. simpl in Hold. lia.
  - pose proof (dedup_add_since buf op.1 op.2 t0 Hwf). lia.
Qed.

Lemma dedup_kept_run id t0 k buf ops :
  is_u32 t0 → Forall (λ op, is_u32 op.2 ∧ t0 <= op.2 < t0 + DEDUP_EXPIRY_MS) ops →
  (k + length ops ≤ DEDUP_MAX_ENTRIES)%nat →
  dedup_kept id t0 k buf → dedup_kept id t0 (k + length ops) (dedup_run buf ops).
Proof.
  intros Ht0 Hops; revert k buf; induction Hops as [|op ops [? ?] _ IH]; intros k buf; simpl.
  - by rewrite Nat.add_0_r.
  - intros Hk Hkept. rewrite <- Nat.add_succ_comm. apply IH; [lia|].
    by apply dedup_kept_step; [..|lia|].
Qed.

Lemma dedup_run_wf buf ops : dedup_wf buf → dedup_wf (dedup_run buf ops).
Proof.
  revert buf; induction ops as [|op ops IH]; intros buf Hwf; [done|]. simpl.
  by apply IH, dedup_check_and_add_wf.
Qed.

Lemma dedup_accept_present buf id now :
  dedup_wf buf → (dedup_check_and_add buf id now).1 = false →
  mk_dedup_entry id now ∈ live (dedup_check_and_add buf id now).2.
Proof.
  intros Hwf. pose proof (dedup_purge_wf buf now Hwf) as [Hw _].
  unfold dedup_check_and_add. destruct (find_index _ _); [done|]. intros _.
  case_decide; simpl.
  - erewrite live_tpush by done. set_solver.
  - rewrite live_tset. eapply list_elem_of_lookup_2, list_lookup_insert_eq, best_index_lt.
    erewrite length_live by done. unfold DEDUP_MAX_ENTRIES in *. lia.
Qed.

(** The deduplication table keeps its invariant (at most 256 entries, no
    id twice), its verdict is exactly "this id is in the table with an age
    under 60 s" as the read-only [dedup_contains] computes it, and after any
    call the id is present. *)
Theorem dedup_verdict_exact buf id now :
  dedup_wf buf → is_u32 now →
  let '(dup, buf') := dedup_check_and_add buf id now in
  dedup_wf buf' ∧ dup = dedup_contains buf id now ∧
  (dup = true ↔ ∃ e, e ∈ live buf ∧ packet_id e = id ∧ now ⊖ timestamp_ms e < 60000) ∧
  dedup_contains buf' id now = true.
Proof.
  intros Hwf Hnow. pose proof (dedup_check_and_add_wf buf id now Hwf) as Hwf'.
  pose proof (dedup_verdict buf id now Hwf) as Hv.
  pose proof (dedup_accept_present buf id now Hwf) as Hacc.
  assert (Hdup : (dedup_check_and_add buf id now).1 = true →
                 (dedup_check_and_add buf id now).2 = dedup_purge buf now)
    by (unfold dedup_check_and_add; destruct (find_index _ _); [done|case_decide; done]).
  destruct (dedup_check_and_add buf id now) as [dup buf']; simpl in *. subst dup.
  split_and!; [done|done| |].
  - rewrite dedup_contains_spec. unfold dedup_fresh, DEDUP_EXPIRY_MS. by setoid_rewrite Z.ltb_lt.
  - apply dedup_contains_spec. destruct (dedup_contains buf id now) eqn:E.
    + rewrite Hdup by done. apply dedup_contains_spec in E as (e & ? & ? & ?).
      exists e. by rewrite dedup_purge_fresh.
    + exists (mk_dedup_entry id now). split_and!; [by apply Hacc|done|].
      by apply dedup_fresh_window; [..|unfold DEDUP_EXPIRY_MS; lia].
Qed.

Lemma dedup_verdict_exact_witness :
  let '(dup, buf') := dedup_check_and_add (dedup_run dedup_init [(7, 10); (9, 20)]) 7 50 in
  dedup_wf buf' ∧ dup = true.
Proof.
  assert (Hwf : dedup_wf (dedup_run dedup_init [(7, 10); (9, 20)]))
    by (apply dedup_run_wf, dedup_init_wf).
  pose proof (dedup_verdict_exact _ 7 50 Hwf ltac:(cint)) as H.
  destruct (dedup_check_and_add _ 7 50) as [dup buf'] eqn:E.
  destruct H as (H1 & H2 & _). split; [exact H1|]. rewrite H2. reflexivity.
Defined.

(** From boot, an id accepted at [t0] is reported a duplicate on every
    later arrival within 60 s, as long as the entries already stamped at or
    after [t0] and the frames checked since together number fewer than 256 and
    the 32-bit clock does not wrap in between: eviction never removes it
    first. *)
Theorem dedup_no_double_accept ops1 id t0 ops2 t :
  is_u32 t0 → is_u32 t → t0 <= t < t0 + DEDUP_EXPIRY_MS →
  Forall (λ op, is_u32 op.2 ∧ t0 <= op.2 < t0 + DEDUP_EXPIRY_MS) ops2 →
  (dedup_check_and_add (dedup_run dedup_init ops1) id t0).1 = false →
  (length (since t0 (live (dedup_run dedup_init ops1))) + length ops2 < DEDUP_MAX_ENTRIES)%nat →
  (dedup_check_and_add (dedup_run dedup_init (ops1 ++ (id, t0) :: ops2)) id t).1 = true.
Proof.
  intros Ht0 Ht Hw Hops Hacc Hlen.
  pose proof (dedup_run_wf dedup_init ops1 dedup_init_wf) as Hwf.
  set (b := dedup_run dedup_init ops1) in *.
  assert (Hk : dedup_kept id t0 (S (length (since t0 (live b)))) (dedup_check_and_add b id t0).2).
  { split_and!; [by apply dedup_check_and_add_wf|by apply dedup_accept_present|].
    by apply dedup_add_since. }
  apply (dedup_kept_run _ _ _ _ ops2) in Hk; [|done|done|lia].
  assert (Hrun : dedup_run dedup_init (ops1 ++ (id, t0) :: ops2) =
                 dedup_run (dedup_check_and_add b id t0).2 ops2)
    by (unfold dedup_run, b; by rewrite foldl_app).
  rewrite Hrun. destruct Hk as (Hwf' & Hin & _).
  rewrite dedup_verdict by done. apply dedup_contains_spec.
  eexists. split_and!; [exact Hin|done|by apply dedup_fresh_window].
Qed.

Lemma dedup_no_double_accept_witness :
  (dedup_check_and_add (dedup_run dedup_init [(1, 5); (2, 100); (3, 130)]) 2 60099).1 = true.
Proof.
  apply (dedup_no_double_accept [(1, 5)] 2 100 [(3, 130)] 60099);
    try (unfold DEDUP_EXPIRY_MS; cint).
  - repeat constructor; unfold DEDUP_EXPIRY_MS; simpl; cint.
  - reflexivity.
  - apply Nat.ltb_lt. reflexivity.
Defined.
