(* ===== verification/ReplayWindow.v ===== *)
(** * Per-sender replay window ([components/replay_window/replay_window.c])

    A table of 64 senders, each with the highest nonce counter accepted and a
    64-bit bitmap of the counters just below it, plus the blob that carries the
    high-water marks across a reboot. *)

From stdpp Require Import base numbers sets list option decidable.
From S2P Require Import Prelude Tables.

Definition REPLAY_MAX_SENDERS : nat := 64.
Definition REPLAY_ACCEPT : Z := 0.
Definition REPLAY_REJECT_DUP : Z := 1.
Definition REPLAY_BELOW_WINDOW : Z := 2.
Definition REPLAY_REJECT_NO_SLOT : Z := 3.
Definition REPLAY_EVICT_MIN_IDLE_MS : Z := 15 * 60 * 1000.
Definition REPLAY_TABLE_BLOB_VERSION : Z := 1.
Definition REPLAY_TABLE_BLOB_MAX : nat := 4 + REPLAY_MAX_SENDERS * 12 + 4.

(** The flags [used] and [seen] only ever hold 0 or 1. *)
Record replay_slot_t := mk_rslot {
  rs_src_addr : Z; rs_high_water : Z; rs_window : Z; rs_last_seen_ms : Z;
  rs_used : bool; rs_seen : bool }.

Record replay_table_t := mk_rtable {
  rt_slots : list replay_slot_t; rt_evictions : Z; rt_evict_denied : Z; rt_dirty : bool }.

Definition rslot_zero : replay_slot_t := mk_rslot 0 0 0 0 false false.
#[global] Instance rslot_inhabited : Inhabited replay_slot_t := populate rslot_zero.
#[global] Instance rslot_eq_dec : EqDecision replay_slot_t.
Proof. solve_decision. Defined.

Definition replay_table_init : replay_table_t :=
  mk_rtable (replicate REPLAY_MAX_SENDERS rslot_zero) 0 0 false.

Definition replay_table_is_dirty (t : replay_table_t) : bool := rt_dirty t.
Definition replay_table_mark_clean (t : replay_table_t) : replay_table_t :=
  mk_rtable (rt_slots t) (rt_evictions t) (rt_evict_denied t) false.

(** ** Slot allocation *)

(** How the scan of [slot_for] ends: the sender's slot, the first unused slot,
    or the least recently heard of 64 used slots. *)
Inductive scan_result := ScanFound (i : nat) | ScanFree (i : nat) | ScanFull (lru : nat).

Fixpoint slot_scan (slots : list replay_slot_t) (src now : Z) (n i lru : nat) : scan_result :=
  match n with
  | O => ScanFull lru
  | S n' =>
      let s := slots !!! i in
      if rs_used s && (rs_src_addr s =? src) then ScanFound i
      else if negb (rs_used s) then ScanFree i
      else slot_scan slots src now n' (S i)
             (if (now ⊖ rs_last_seen_ms s) >? (now ⊖ rs_last_seen_ms (slots !!! lru))
              then i else lru)
  end.

(** A slot handed to a sender that has no packet on record. *)
Definition fresh_slot (src now : Z) : replay_slot_t := mk_rslot src 0 0 now true false.

Definition slot_for (t : replay_table_t) (src now : Z) : option nat * replay_table_t :=
  match slot_scan (rt_slots t) src now REPLAY_MAX_SENDERS 0 0 with
  | ScanFound i => (Some i, t)
  | ScanFree i =>
      (Some i, mk_rtable (<[i := fresh_slot src now]> (rt_slots t))
                 (rt_evictions t) (rt_evict_denied t) true)
  | ScanFull lru =>
      if (now ⊖ rs_last_seen_ms (rt_slots t !!! lru)) <? REPLAY_EVICT_MIN_IDLE_MS
      then (None, mk_rtable (rt_slots t) (rt_evictions t) (rt_evict_denied t ⊕ 1) (rt_dirty t))
      else (Some lru, mk_rtable (<[lru := fresh_slot src now]> (rt_slots t))
                        (rt_evictions t ⊕ 1) (rt_evict_denied t) true)
  end.

(** ** The window *)

(** The bitmap after the high-water mark moves up by [shift]. *)
Definition window_advance (window shift : Z) : Z :=
  if shift >? 64 then 0
  else if shift =? 64 then 1 << 63
  else Z.lor (u64 (window << shift)) (1 << (shift - 1)).

(** The part of [replay_check_and_add] that works on the sender's slot: the
    verdict, the slot afterwards and whether the table becomes dirty. *)
Definition slot_check (s : replay_slot_t) (counter now : Z) : Z * replay_slot_t * bool :=
  let set hw w :=
    mk_rslot (rs_src_addr s) hw w now (rs_used s) true in
  let touched :=
    mk_rslot (rs_src_addr s) (rs_high_water s) (rs_window s) now (rs_used s) (rs_seen s) in
  if negb (rs_seen s) then (REPLAY_ACCEPT, set counter (rs_window s), true)
  else if counter >? rs_high_water s then
    (REPLAY_ACCEPT,
     set counter (window_advance (rs_window s) (u64 (counter - rs_high_water s))), true)
  else
    let delta := u64 (rs_high_water s - counter) in
    if delta =? 0 then (REPLAY_REJECT_DUP, touched, false)
    else if delta >? 64 then (REPLAY_BELOW_WINDOW, touched, false)
    else
      let mask := 1 << (delta - 1) in
      if negb (Z.land (rs_window s) mask =? 0) then (REPLAY_REJECT_DUP, touched, false)
      else (REPLAY_ACCEPT, set (rs_high_water s) (Z.lor (rs_window s) mask), false).

Definition replay_check_and_add (t : replay_table_t) (src counter now : Z)
    : Z * replay_table_t :=
  match slot_for t src now with
  | (None, t) => (REPLAY_REJECT_NO_SLOT, t)
  | (Some i, t) =>
      let '(v, s, dirtied) := slot_check (rt_slots t !!! i) counter now in
      (v, mk_rtable (<[i := s]> (rt_slots t)) (rt_evictions t) (rt_evict_denied t)
            (rt_dirty t || dirtied))
  end.

(** ** The persisted blob *)

Definition crc_poly : Z := 3988292384.

Definition crc_bit (crc : Z) : Z :=
  Z.lxor (crc >> 1) (Z.land crc_poly (u32 (- Z.land crc 1))).
Definition crc_byte (crc b : Z) : Z := Nat.iter 8 crc_bit (Z.lxor crc b).
Definition replay_crc32 (data : list Z) : Z :=
  Z.lxor (foldl crc_byte 4294967295 data) 4294967295.

Definition put_u32 (v : Z) : list Z := le32_bytes v.
Definition get_u32 (bs : list Z) : Z := le32_val bs.
Definition put_u64 (v : Z) : list Z := map (λ i, u8 (v >> (8 * Z.of_nat i))) (seq 0 8).
Definition get_u64 (bs : list Z) : Z :=
  foldl (λ v p, Z.lor v (u64 (p.2 << (8 * Z.of_nat p.1)))) 0 (zip (seq 0 8) bs).

Definition persisted (s : replay_slot_t) : bool := rs_used s && rs_seen s.

Fixpoint put_records (slots : list replay_slot_t) (buf : list Z) (off : nat)
    : option (list Z * nat) :=
  match slots with
  | [] => Some (buf, off)
  | s :: slots =>
      if negb (rs_used s) || negb (rs_seen s) then put_records slots buf off
      else
        buf ← wr buf off (put_u32 (rs_src_addr s));
        buf ← wr buf (off + 4) (put_u64 (rs_high_water s));
        put_records slots buf (off + 12)
  end.

(** The return value is the blob length, or [None] inside for the [-1]. *)
Definition replay_table_serialize (t : replay_table_t) (buf : list Z) (buf_len : nat)
    : option (option nat * list Z) :=
  let n := length (filter (λ s, persisted s = true) (rt_slots t)) in
  let need := (4 + n * 12 + 4)%nat in
  if decide (buf_len < need)%nat then Some (None, buf)
  else
    buf ← wr buf 0 [u8 REPLAY_TABLE_BLOB_VERSION];
    buf ← wr buf 1 [u8 (Z.of_nat n)];
    buf ← wr buf 2 [0];
    buf ← wr buf 3 [0];
    '(buf, off) ← put_records (rt_slots t) buf 4;
    body ← rdn buf 0 off;
    buf ← wr buf off (put_u32 (replay_crc32 body));
    Some (Some (off + 4)%nat, buf).

Fixpoint get_records (slots : list replay_slot_t) (buf : list Z) (now : Z) (n i off : nat)
    : option (list replay_slot_t) :=
  match n with
  | O => Some slots
  | S n' =>
      src ← rdn buf off 4;
      hw ← rdn buf (off + 4) 8;
      get_records
        (<[i := mk_rslot (get_u32 src) (get_u64 hw) 18446744073709551615 now true true]> slots)
        buf now n' (S i) (off + 12)
  end.

Definition replay_table_deserialize (buf : list Z) (len : nat) (now : Z)
    : option (bool * replay_table_t) :=
  let t := replay_table_init in
  if decide (len < 8)%nat then Some (false, t)
  else
    b0 ← rd buf 0;
    if negb (b0 =? u8 REPLAY_TABLE_BLOB_VERSION) then Some (false, t)
    else
      b2 ← rd buf 2; b3 ← rd buf 3;
      if negb (b2 =? 0) || negb (b3 =? 0) then Some (false, t)
      else
        b1 ← rd buf 1;
        let n := Z.to_nat b1 in
        if decide (REPLAY_MAX_SENDERS < n)%nat then Some (false, t)
        else
          let need := (4 + n * 12 + 4)%nat in
          if negb (Nat.eqb len need) then Some (false, t)
          else
            let body := (4 + n * 12)%nat in
            crc ← rdn buf body 4;
            data ← rdn buf 0 body;
            if negb (get_u32 crc =? replay_crc32 data) then Some (false, t)
            else
              slots ← get_records (rt_slots t) buf now n 0 4;
              Some (true, mk_rtable slots (rt_evictions t) (rt_evict_denied t) false).
