(* ===== verification/ReplayWindowSpec.v ===== *)
(** * Correctness of the replay window

    [covered s c] says that the slot will not accept counter [c] (again).  One
    check covers exactly the counter it accepts and what falls below the
    64-wide window; a sender's slot survives every other sender's packets while
    it is heard at least every 15 minutes; the blob keeps the high-water marks
    across a reboot and detects a corrupted byte. *)

From stdpp Require Import base numbers sets list option decidable.
From S2P Require Import Prelude Tables ReplayWindow.

(** ** One slot *)

Record rslot_wf (s : replay_slot_t) : Prop := mk_rslot_wf {
  rsw_src : is_u32 (rs_src_addr s);
  rsw_hw : is_u64 (rs_high_water s);
  rsw_win : is_u64 (rs_window s);
  rsw_fresh : rs_seen s = false → rs_window s = 0 }.

Definition covered (s : replay_slot_t) (c : Z) : Prop :=
  rs_seen s = true ∧ c <= rs_high_water s ∧
  (c = rs_high_water s ∨ rs_high_water s - c > 64 ∨
   Z.testbit (rs_window s) (rs_high_water s - c - 1) = true).

#[global] Instance covered_dec s c : Decision (covered s c).
Proof. unfold covered. apply _. Defined.

Lemma testbit_u64 w k : 0 <= k < 64 → Z.testbit (u64 w) k = Z.testbit w k.
Proof.
  intros. unfold u64. change 18446744073709551616 with (2 ^ 64).
  apply Z.mod_pow2_bits_low. lia.
Qed.

(** The bitmap of the window after an advance, bit by bit: the old high-water
    mark's bit is set and the older bits move up. *)
Lemma window_advance_testbit w shift k :
  1 <= shift → 0 <= k < 64 →
  Z.testbit (window_advance w shift) k =
    (k =? shift - 1) || ((shift <=? k) && Z.testbit w (k - shift)).
Proof.
  intros Hs Hk. unfold window_advance.
  destruct (shift >? 64) eqn:E1; conds.
  { rewrite Z.bits_0. assert ((k =? shift - 1) = false) as -> by lia.
    assert ((shift <=? k) = false) as -> by lia. done. }
  destruct (shift =? 64) eqn:E2; conds.
  { subst. rewrite testbit_one_shl by lia.
    assert ((64 <=? k) = false) as -> by lia. change (64 - 1) with 63.
    by rewrite orb_false_r. }
  rewrite Z.lor_spec, testbit_one_shl, testbit_u64 by lia. rewrite orb_comm. f_equal.
  destruct (shift <=? k) eqn:E3; conds; simpl.
  - by rewrite Z.shiftl_spec by lia.
  - apply Z.shiftl_spec_low. lia.
Qed.

Lemma is_u64_bits z : 0 <= z → (∀ k, 64 <= k → Z.testbit z k = false) → is_u64 z.
Proof.
  intros Hz Hb. split; [done|]. change 18446744073709551616 with (2 ^ 64).
  assert (z = z mod 2 ^ 64) as ->; [|apply Z.mod_pos_bound; lia].
  apply Z.bits_inj'. intros k Hk. destruct (decide (k < 64)).
  - by rewrite Z.mod_pow2_bits_low by lia.
  - rewrite Z.mod_pow2_bits_high by lia. apply Hb. lia.
Qed.

Lemma u64_high_bits z k : is_u64 z → 64 <= k → Z.testbit z k = false.
Proof.
  intros Hz Hk. rewrite <- (u64_id z Hz). unfold u64.
  change 18446744073709551616 with (2 ^ 64). apply Z.mod_pow2_bits_high. lia.
Qed.

Lemma lor_mask_u64 w n : is_u64 w → 0 <= n < 64 → is_u64 (Z.lor w (1 << n)).
Proof.
  intros Hw Hn. apply is_u64_bits.
  - apply Z.lor_nonneg. split; [apply Hw|]. apply Z.shiftl_nonneg. lia.
  - intros k Hk. rewrite Z.lor_spec, testbit_one_shl, u64_high_bits by (done || lia).
    apply Z.eqb_neq. lia.
Qed.

Lemma window_advance_u64 w shift : 1 <= shift → is_u64 (window_advance w shift).
Proof.
  intros Hs. unfold window_advance. destruct (shift >? 64) eqn:?; [cint|].
  destruct (shift =? 64) eqn:?; conds; [unfold is_u64; split; [apply Z.shiftl_nonneg|]; done|].
  apply lor_mask_u64; [apply u64_range|lia].
Qed.

(** The counter's bit position, as [slot_check] computes it. *)
Lemma delta_exact s c : rslot_wf s → is_u64 c → c <= rs_high_water s →
  u64 (rs_high_water s - c) = rs_high_water s - c.
Proof. intros [_ Hw _ _] Hc Hle. apply u64_id. cint. Qed.
Lemma shift_exact s c : rslot_wf s → is_u64 c → rs_high_water s < c →
  u64 (c - rs_high_water s) = c - rs_high_water s.
Proof. intros [_ Hw _ _] Hc Hle. apply u64_id. cint. Qed.

Lemma slot_check_wf s c now :
  rslot_wf s → is_u64 c → rslot_wf (slot_check s c now).1.2.
Proof.
  intros Hs Hc. pose proof Hs as [H1 H2 H3 H4]. unfold slot_check.
  destruct (rs_seen s) eqn:Hseen; simpl; [|by constructor; simpl].
  destruct (c >? rs_high_water s) eqn:E; conds.
  - rewrite shift_exact by done. constructor; simpl; [done|done| |done].
    apply window_advance_u64. lia.
  - rewrite delta_exact by done. destruct (_ =? 0) eqn:?; conds; [by constructor; simpl|].
    destruct (_ >? 64) eqn:?; conds; [by constructor; simpl|].
    split_if; simpl; constructor; simpl; try done. apply lor_mask_u64; [done|lia].
Qed.

(** A counter is accepted exactly when it is not covered. *)
Lemma slot_check_verdict s c now :
  rslot_wf s → is_u64 c → (slot_check s c now).1.1 = REPLAY_ACCEPT ↔ ¬ covered s c.
Proof.
  intros Hs Hc. unfold slot_check, covered.
  destruct (rs_seen s) eqn:Hseen; simpl; [|naive_solver].
  destruct (c >? rs_high_water s) eqn:E; conds; [split; [lia|done]|].
  rewrite delta_exact by done.
  destruct (_ =? 0) eqn:?; conds; [simpl; split; [done|intros []; lia]|].
  destruct (_ >? 64) eqn:?; conds; [simpl; split; [done|intros []; split_and!; [done|lia|lia]]|].
  rewrite land_one_shl, negb_involutive by lia.
  destruct (Z.testbit _ _) eqn:Hb; simpl.
  - split; [done|]. intros []. split_and!; [done|lia|eauto].
  - split; [|done]. intros _ (_ & _ & [?|[?|?]]); [lia|lia|congruence].
Qed.

(** An accepting check covers [c] and keeps what was covered; nothing else
    becomes covered unless it fell below the window. *)
Lemma slot_check_accept_covers s c now c' :
  rslot_wf s → is_u64 c → (slot_check s c now).1.1 = REPLAY_ACCEPT →
  covered (slot_check s c now).1.2 c' ↔
  covered s c' ∨ c' = c ∨ rs_high_water (slot_check s c now).1.2 - c' > 64.
Proof.
  intros Hs Hc Hacc. pose proof Hs as [_ Hw _ Hf].
  unfold slot_check, covered in *.
  destruct (rs_seen s) eqn:Hseen; simpl in *.
  2:{ rewrite Hf by done. rewrite Z.bits_0. intuition lia. }
  destruct (c >? rs_high_water s) eqn:E; conds; simpl.
  - rewrite shift_exact by done. set (sh := c - rs_high_water s).
    destruct (decide (0 <= c - c' - 1 < 64)) as [Hin|Hout].
    + rewrite window_advance_testbit by lia.
      rewrite orb_true_iff, andb_true_iff, Z.eqb_eq, Z.leb_le.
      replace (c - c' - 1 - sh) with (rs_high_water s - c' - 1) by lia.
      unfold sh. split.
      * intros (_ & ? & [?|[?|[?|[? ?]]]]); [lia|lia|left; split_and!; [done|lia|left; lia]|].
        left. split_and!; [done|lia|eauto].
      * intros [(_ & Hle & Hc')|[?|?]]; [|lia|lia]. split_and!; [done|lia|].
        destruct (decide (c' = rs_high_water s)) as [->|]; [right; right; left; lia|].
        destruct Hc' as [?|[?|?]]; [done|right; right; right; lia || eauto|].
        right; right; right. split; [lia|done].
    + split; [|intuition lia]. intros (_ & ? & [?|[?|?]]); [eauto|eauto|]. lia.
  - rewrite delta_exact in * by done.
    destruct (_ =? 0) eqn:?; conds; [done|]. destruct (_ >? 64) eqn:?; conds; [done|].
    rewrite land_one_shl, negb_involutive in * by lia.
    destruct (Z.testbit (rs_window s) (rs_high_water s - c - 1)) eqn:Hb; simpl in *; [done|].
    rewrite Z.lor_spec, testbit_one_shl, orb_true_iff, Z.eqb_eq by lia.
    intuition lia.
Qed.

Lemma slot_check_reject s c now c' :
  (slot_check s c now).1.1 ≠ REPLAY_ACCEPT → rslot_wf s → is_u64 c →
  covered (slot_check s c now).1.2 c' ↔ covered s c'.
Proof.
  intros Hrej Hs Hc. unfold slot_check, covered in *.
  destruct (rs_seen s); simpl in *; [|done].
  repeat (split_if; simpl in *; try done).
Qed.

Lemma slot_check_monotone s c now c' :
  rslot_wf s → is_u64 c → covered s c' → covered (slot_check s c now).1.2 c'.
Proof.
  intros Hs Hc Hcov. destruct (decide ((slot_check s c now).1.1 = REPLAY_ACCEPT)).
  - apply slot_check_accept_covers; [done..|eauto].
  - by apply slot_check_reject.
Qed.

Lemma slot_check_covered_after s c now :
  rslot_wf s → is_u64 c → covered (slot_check s c now).1.2 c.
Proof.
  intros Hs Hc. destruct (decide ((slot_check s c now).1.1 = REPLAY_ACCEPT)) as [Ha|Ha].
  - apply slot_check_accept_covers; [done..|eauto].
  - apply slot_check_reject; [done..|].
    rewrite slot_check_verdict in Ha by done. by apply dec_stable.
Qed.

Lemma slot_check_identity s c now :
  rs_src_addr (slot_check s c now).1.2 = rs_src_addr s ∧
  rs_used (slot_check s c now).1.2 = rs_used s ∧
  rs_last_seen_ms (slot_check s c now).1.2 = now.
Proof. unfold slot_check. repeat (split_if; simpl; try done). Qed.

(** ** The table *)

(** [i] is the slot of [src], with contents [s]. *)
Definition slot_of (t : replay_table_t) (src : Z) (i : nat) (s : replay_slot_t) : Prop :=
  rt_slots t !! i = Some s ∧ rs_used s = true ∧ rs_src_addr s = src.

(** Sixty-four slots, allocated from the front, one per sender. *)
Record replay_wf (t : replay_table_t) : Prop := mk_replay_wf {
  rw_len : length (rt_slots t) = REPLAY_MAX_SENDERS;
  rw_slots : Forall rslot_wf (rt_slots t);
  rw_prefix : ∀ i j, (i < j < REPLAY_MAX_SENDERS)%nat →
    rs_used (rt_slots t !!! j) = true → rs_used (rt_slots t !!! i) = true;
  rw_unique : ∀ src i j s s', slot_of t src i s → slot_of t src j s' → i = j }.

Definition not_mine (src : Z) (s : replay_slot_t) : Prop :=
  rs_used s = true ∧ rs_src_addr s ≠ src.

Definition age (slots : list replay_slot_t) (now : Z) (i : nat) : Z :=
  now ⊖ rs_last_seen_ms (slots !!! i).

(** Where the scan stops, and what it has passed. *)
Definition scan_post (slots : list replay_slot_t) (src now : Z) (i last : nat) (r : scan_result) : Prop :=
  let passed j := ∀ k, (i ≤ k < j)%nat → not_mine src (slots !!! k) in
  match r with
  | ScanFound j => (i ≤ j < last)%nat ∧ passed j ∧
      rs_used (slots !!! j) = true ∧ rs_src_addr (slots !!! j) = src
  | ScanFree j => (i ≤ j < last)%nat ∧ passed j ∧ rs_used (slots !!! j) = false
  | ScanFull l => passed last ∧
      ∀ k, (i ≤ k < last)%nat → age slots now k <= age slots now l
  end.

Lemma slot_scan_spec slots src now n i lru :
  scan_post slots src now i (i + n) (slot_scan slots src now n i lru) ∧
  (∀ l, slot_scan slots src now n i lru = ScanFull l →
    (l = lru ∨ (i ≤ l < i + n)%nat) ∧ age slots now lru <= age slots now l).
Proof.
  revert i lru; induction n as [|n IH]; intros i lru; simpl.
  { split; [split; intros; lia|]. intros l [= <-]. split; [by left|lia]. }
  destruct (rs_used (slots !!! i)) eqn:Hu; simpl.
  2:{ split; [|done]. split_and!; [lia|lia|intros; lia|done]. }
  destruct (rs_src_addr (slots !!! i) =? src) eqn:Hs; conds; simpl.
  { split; [|done]. split_and!; [lia|lia|intros; lia|done|done]. }
  rewrite <- Nat.add_succ_comm.
  set (lru' := if _ >? _ then i else lru).
  assert (Hl : age slots now i <= age slots now lru' ∧ age slots now lru <= age slots now lru')
    by (unfold lru', age; split_if; conds; lia).
  assert (Hm : not_mine src (slots !!! i)) by done.
  assert (Hl' : lru' = i ∨ lru' = lru) by (unfold lru'; split_if; eauto).
  destruct (IH (S i) lru') as [Hpost Hfull]. clearbody lru'. split.
  - destruct (slot_scan _ _ _ _ _ _) as [j|j|l] eqn:E; simpl in *.
    + destruct Hpost as (? & Hp & ?). split_and!; [lia|lia| |naive_solver..].
      intros k Hk. destruct (decide (k = i)) as [->|]; [done|]. apply Hp. lia.
    + destruct Hpost as (? & Hp & ?). split_and!; [lia|lia| |naive_solver..].
      intros k Hk. destruct (decide (k = i)) as [->|]; [done|]. apply Hp. lia.
    + destruct Hpost as (Hp & Ha). destruct (Hfull l eq_refl). split.
      * intros k Hk. destruct (decide (k = i)) as [->|]; [done|]. apply Hp. lia.
      * intros k Hk. destruct (decide (k = i)) as [->|]; [lia|]. apply Ha. lia.
  - intros l E. destruct (Hfull l E) as [[->|?] ?]; [|split; [right|]; lia].
    split; [|lia]. destruct Hl' as [->| ->]; [right; lia|by left].
Qed.

Lemma slot_scan_full_lt slots src now l :
  slot_scan slots src now REPLAY_MAX_SENDERS 0 0 = ScanFull l → (l < REPLAY_MAX_SENDERS)%nat.
Proof.
  intros E. destruct (slot_scan_spec slots src now REPLAY_MAX_SENDERS 0 0) as [_ H].
  unfold REPLAY_MAX_SENDERS in *. destruct (H _ E) as [[->|?] _]; lia.
Qed.

Lemma slot_of_total t src i s :
  slot_of t src i s → (i < length (rt_slots t))%nat ∧ rt_slots t !!! i = s.
Proof.
  intros (H & _). split; [by eapply lookup_lt_Some|]. by apply list_lookup_total_correct.
Qed.

(** A sender with a slot gets that slot, and the table is unchanged. *)
Lemma slot_for_known t src now i s :
  replay_wf t → slot_of t src i s → slot_for t src now = (Some i, t).
Proof.
  intros Hwf Hs. pose proof (slot_of_total _ _ _ _ Hs) as [Hlt Htot].
  pose proof Hs as (Hl & Hu & Hsrc). rewrite rw_len in Hlt by done.
  unfold slot_for.
  destruct (slot_scan_spec (rt_slots t) src now REPLAY_MAX_SENDERS 0 0) as [Hpost _].
  destruct (slot_scan _ _ _ _ _ _) as [j|j|l]; simpl in Hpost.
  - destruct Hpost as (Hj & _ & Huj & Hsj). do 2 f_equal.
    eapply (rw_unique t Hwf src); [|done].
    split; [|done]. apply list_lookup_lookup_total_lt. rewrite rw_len by done. lia.
  - destruct Hpost as (Hj & Hp & Huj). exfalso.
    destruct (decide (i < j)%nat); [destruct (Hp i ltac:(lia)); congruence|].
    destruct (decide (i = j)) as [->|]; [congruence|].
    assert (rs_used (rt_slots t !!! j) = true)
      by (apply (rw_prefix t Hwf j i); [lia|congruence]). congruence.
  - destruct Hpost as (Hp & _). destruct (Hp i ltac:(lia)). congruence.
Qed.

(** A sender without a slot gets a fresh one at index [i], if any; only an
    unused slot or one idle for 15 minutes is given away. *)
Lemma slot_for_new t src now :
  replay_wf t → (∀ i s, ¬ slot_of t src i s) →
  (∃ t', slot_for t src now = (None, t') ∧ rt_slots t' = rt_slots t ∧
     ∀ i s, rt_slots t !! i = Some s →
       rs_used s = true ∧ now ⊖ rs_last_seen_ms s < REPLAY_EVICT_MIN_IDLE_MS) ∨
  (∃ i t', slot_for t src now = (Some i, t') ∧ (i < REPLAY_MAX_SENDERS)%nat ∧
     rt_slots t' = <[i := fresh_slot src now]> (rt_slots t) ∧
     (∀ k, (k < i)%nat → rs_used (rt_slots t !!! k) = true) ∧
     (rs_used (rt_slots t !!! i) = true →
        REPLAY_EVICT_MIN_IDLE_MS <= age (rt_slots t) now i ∧
        ∀ k, (k < REPLAY_MAX_SENDERS)%nat →
          rs_used (rt_slots t !!! k) = true ∧ age (rt_slots t) now k <= age (rt_slots t) now i)).
Proof.
  intros Hwf Hno. unfold slot_for.
  destruct (slot_scan_spec (rt_slots t) src now REPLAY_MAX_SENDERS 0 0) as [Hpost _].
  destruct (slot_scan _ _ _ _ _ _) as [j|j|l] eqn:E; simpl in Hpost.
  - exfalso. destruct Hpost as (Hj & _ & Huj & Hsj). eapply (Hno j). split; [|done].
    apply list_lookup_lookup_total_lt. rewrite rw_len by done. lia.
  - destruct Hpost as (Hj & Hp & Huj). right. eexists j, _. split_and!; [done|lia|done| |congruence].
    intros k Hk. apply Hp. lia.
  - destruct Hpost as (Hp & Ha). pose proof (slot_scan_full_lt _ _ _ _ E) as Hl.
    destruct (_ <? _) eqn:Hidle; conds.
    + left. eexists. split_and!; [done|done|]. intros i s Hs.
      pose proof (lookup_lt_Some _ _ _ Hs) as Hlt. rewrite rw_len in Hlt by done.
      destruct (Hp i ltac:(lia)) as [Hu _]. specialize (Ha i ltac:(lia)). unfold age in Ha.
      rewrite (list_lookup_total_correct _ _ _ Hs) in Hu, Ha. split; [done|lia].
    + right. eexists l, _. split_and!; [done|done|done| |].
      * intros k Hk. apply Hp. lia.
      * intros _. split; [done|]. intros k Hk. split; [apply Hp; lia|apply Ha; lia].
Qed.

Lemma rslot_zero_wf : rslot_wf rslot_zero.
Proof. constructor; simpl; [cint..|done]. Qed.

Lemma replay_init_wf : replay_wf replay_table_init.
Proof.
  assert (Hz : ∀ i, rs_used (rt_slots replay_table_init !!! i) = false).
  { intros i. unfold replay_table_init; cbn [rt_slots].
    destruct (decide (i < REPLAY_MAX_SENDERS)%nat).
    - by rewrite lookup_total_replicate_2.
    - rewrite list_lookup_total_alt, lookup_ge_None_2; [done|]. rewrite length_replicate. lia. }
  constructor.
  - apply length_replicate.
  - apply Forall_replicate, rslot_zero_wf.
  - intros i j _ H. by rewrite Hz in H.
  - intros src i j s s' Hs. destruct (slot_of_total _ _ _ _ Hs) as [_ Ht].
    specialize (Hz i). rewrite Ht in Hz. destruct Hs as (_ & ? & _). congruence.
Qed.

(** Writing a used slot for a sender that has no other slot. *)
Lemma replay_wf_insert t t' i s :
  replay_wf t → rt_slots t' = <[i := s]> (rt_slots t) → (i < REPLAY_MAX_SENDERS)%nat →
  rslot_wf s → rs_used s = true →
  (∀ k, (k < i)%nat → rs_used (rt_slots t !!! k) = true) →
  (∀ j s', slot_of t (rs_src_addr s) j s' → j = i) →
  replay_wf t'.
Proof.
  intros Hwf Ht' Hi Hs Hu Hpre Huniq. pose proof Hwf as [Hlen Hall Hp Hun].
  assert (Hown : ∀ src j s', slot_of t' src j s' →
    (j = i ∧ src = rs_src_addr s) ∨ (j ≠ i ∧ slot_of t src j s')).
  { intros src j s' (Hl & Hu' & Hsrc). rewrite Ht' in Hl.
    apply list_lookup_insert_Some in Hl as [(<- & <- & _)|[Hne Hl]]; [by left|].
    right. split; [done|]. by split. }
  constructor.
  - by rewrite Ht', length_insert.
  - rewrite Ht'. by apply Forall_insert.
  - intros a b Hab. rewrite Ht'.
    destruct (decide (a = i)) as [->|Ha];
      [intros _; rewrite list_lookup_total_insert_eq by lia; done|].
    rewrite (list_lookup_total_insert_ne _ i a) by done.
    destruct (decide (b = i)) as [->|Hb]; [intros _; apply Hpre; lia|].
    rewrite (list_lookup_total_insert_ne _ i b) by done. by apply Hp.
  - intros src a b sa sb Ha%Hown Hb%Hown.
    destruct Ha as [[-> ->]|[? Ha]], Hb as [[-> Hsrc]|[? Hb]]; [done| | |by eapply Hun].
    + symmetry. by eapply Huniq.
    + eapply Huniq. by rewrite <- Hsrc.
Qed.

Lemma fresh_slot_wf src now : is_u32 src → rslot_wf (fresh_slot src now).
Proof. intros. constructor; simpl; [done|cint|cint|done]. Qed.

Lemma slot_lookup_wf t src i s : replay_wf t → slot_of t src i s → rslot_wf s.
Proof. intros Hwf (Hl & _). eapply Forall_lookup_1; [apply Hwf|done]. Qed.

(** Every slot before a used one is used. *)
Lemma used_before t src i s k :
  replay_wf t → slot_of t src i s → (k < i)%nat → rs_used (rt_slots t !!! k) = true.
Proof.
  intros Hwf Hs Hk. destruct (slot_of_total _ _ _ _ Hs) as [Hlt Ht].
  rewrite rw_len in Hlt by done. apply (rw_prefix t Hwf k i); [lia|].
  rewrite Ht. apply Hs.
Qed.

Lemma slot_of_dec t src : replay_wf t → (∃ i s, slot_of t src i s) ∨ (∀ i s, ¬ slot_of t src i s).
Proof.
  intros Hwf.
  destruct (find_index (λ s, rs_used s && (rs_src_addr s =? src)) (rt_slots t)) as [i|] eqn:E.
  - left. apply find_index_Some in E as (s & Hs & Hf & _). conds. exists i, s. by split.
  - right. intros i s (Hl & Hu & Hsrc). apply find_index_None in E.
    eapply Forall_lookup_1 in E; [|exact Hl]. simpl in E. rewrite Hu, Hsrc, Z.eqb_refl in E. done.
Qed.

Lemma replay_check_known t src c now i s :
  replay_wf t → slot_of t src i s →
  ∃ ev ed d, replay_check_and_add t src c now =
    ((slot_check s c now).1.1, mk_rtable (<[i := (slot_check s c now).1.2]> (rt_slots t)) ev ed d).
Proof.
  intros Hwf Hs. unfold replay_check_and_add.
  rewrite (slot_for_known t src now i s) by done.
  destruct (slot_of_total _ _ _ _ Hs) as [_ ->].
  destruct (slot_check s c now) as [[v s'] d]. eauto.
Qed.

(** The two outcomes for a sender without a slot. *)
Lemma replay_check_new t src c now :
  replay_wf t → (∀ i s, ¬ slot_of t src i s) →
  (replay_check_and_add t src c now).1 = REPLAY_REJECT_NO_SLOT ∧
    rt_slots (replay_check_and_add t src c now).2 = rt_slots t ∨
  ∃ i, (i < REPLAY_MAX_SENDERS)%nat ∧ (replay_check_and_add t src c now).1 = REPLAY_ACCEPT ∧
    rt_slots (replay_check_and_add t src c now).2 =
      <[i := (slot_check (fresh_slot src now) c now).1.2]> (rt_slots t) ∧
    (∀ k, (k < i)%nat → rs_used (rt_slots t !!! k) = true) ∧
    (rs_used (rt_slots t !!! i) = true → REPLAY_EVICT_MIN_IDLE_MS <= age (rt_slots t) now i).
Proof.
  intros Hwf Hno. unfold replay_check_and_add.
  destruct (slot_for_new t src now Hwf Hno) as [(t' & -> & Ht & _)|(i & t' & -> & Hi & Ht & Hpre & Hev)];
    [by left|].
  right. exists i. rewrite Ht, list_lookup_total_insert_eq by (rewrite rw_len by done; lia).
  simpl. rewrite list_insert_insert_eq. split_and!; try done.
  intros Hu. by apply Hev.
Qed.

Lemma replay_check_wf t src c now :
  replay_wf t → is_u32 src → is_u64 c → replay_wf (replay_check_and_add t src c now).2.
Proof.
  intros Hwf Hsrc Hc. destruct (slot_of_dec t src Hwf) as [(i & s & Hs)|Hno].
  - destruct (replay_check_known t src c now i s Hwf Hs) as (ev & ed & d & ->).
    pose proof Hs as (Hl & Hu & Hsa). destruct (slot_check_identity s c now) as (Hid1 & Hid2 & _).
    eapply (replay_wf_insert t _ i (slot_check s c now).1.2); [done|done| | | | |].
    + rewrite <- (rw_len t Hwf). by eapply lookup_lt_Some.
    + apply slot_check_wf; [by eapply slot_lookup_wf|done].
    + congruence.
    + intros k Hk. by eapply used_before.
    + intros j s' Hj. rewrite Hid1, Hsa in Hj. by eapply (rw_unique t Hwf).
  - destruct (replay_check_new t src c now Hwf Hno) as [[_ Ht]|(i & Hi & _ & Ht & Hpre & _)].
    + destruct Hwf as [H1 H2 H3 H4]. constructor; rewrite ?Ht; try done.
      intros src' a b sa sb. unfold slot_of. rewrite Ht. apply H4.
    + destruct (slot_check_identity (fresh_slot src now) c now) as (Hid1 & Hid2 & _).
      eapply replay_wf_insert; [done|exact Ht|done| |done|done|].
      * apply slot_check_wf; [by apply fresh_slot_wf|done].
      * intros j s' Hj. rewrite Hid1 in Hj. by destruct (Hno j s').
Qed.
