(* ===== verification/ReplayBlob.v ===== *)
(** * The replay table across reboots

    The blob written by [replay_table_serialize], its round trip through
    [replay_table_deserialize], the CRC's detection of a corrupted byte, and
    the reachable tables: boot, packets, flushes and reboots in any order. *)

From stdpp Require Import base numbers sets option decidable list.
From S2P Require Import Prelude Tables ReplayWindow ReplayWindowSpec.

(** ** The persisted blob *)

Lemma put_u64_length v : length (put_u64 v) = 8%nat.
Proof. done. Qed.

Lemma get_u64_step v b k :
  0 <= k <= 56 → 0 <= v < 2 ^ k → is_u8 b → Z.lor v (u64 (b << k)) = v + b * 2 ^ k.
Proof.
  intros Hk Hv Hb. rewrite shiftl_mul by lia.
  assert (Hp : 2 ^ k * 2 ^ (64 - k) = 2 ^ 64) by (rewrite <- Z.pow_add_r by lia; f_equal; lia).
  assert (2 ^ 8 <= 2 ^ (64 - k)) by (apply Z.pow_le_mono_r; lia).
  rewrite u64_id by (unfold is_u8, is_u64 in *; nia).
  rewrite Z.lor_comm, (lor_disjoint _ v k); [lia|lia|apply Z.mod_mul; lia|done].
Qed.

Lemma get_u64_put_u64 v : is_u64 v → get_u64 (put_u64 v) = v.
Proof.
  intros Hv. unfold get_u64, put_u64. cbn [seq map zip zip_with foldl fst snd].
  do 8 match goal with
  | |- context [8 * Z.of_nat ?k] => let r := eval compute in (8 * Z.of_nat k) in
      change (8 * Z.of_nat k) with r
  end.
  pose proof (shiftr_byte v 0 ltac:(lia)) as H0. pose proof (shiftr_byte v 8 ltac:(lia)) as H1.
  pose proof (shiftr_byte v 16 ltac:(lia)) as H2. pose proof (shiftr_byte v 24 ltac:(lia)) as H3.
  pose proof (shiftr_byte v 32 ltac:(lia)) as H4. pose proof (shiftr_byte v 40 ltac:(lia)) as H5.
  pose proof (shiftr_byte v 48 ltac:(lia)) as H6. pose proof (shiftr_byte v 56 ltac:(lia)) as H7.
  assert (v >> 64 = 0) as H8 by (shifts; cint).
  rewrite Z.shiftr_0_r in *.
  repeat match goal with
  | H : context [?a + 8] |- _ => let r := eval compute in (a + 8) in change (a + 8) with r in H
  end.
  pose proof (u8_range v). pose proof (u8_range (v >> 8)). pose proof (u8_range (v >> 16)).
  pose proof (u8_range (v >> 24)). pose proof (u8_range (v >> 32)). pose proof (u8_range (v >> 40)).
  pose proof (u8_range (v >> 48)). pose proof (u8_range (v >> 56)).
  rewrite (get_u64_step _ (u8 v)), (get_u64_step _ (u8 (v >> 8))),
    (get_u64_step _ (u8 (v >> 16))), (get_u64_step _ (u8 (v >> 24))),
    (get_u64_step _ (u8 (v >> 32))), (get_u64_step _ (u8 (v >> 40))),
    (get_u64_step _ (u8 (v >> 48))), (get_u64_step _ (u8 (v >> 56)));
    unfold is_u8 in *; lia.
Qed.

Definition kept (t : replay_table_t) : list replay_slot_t :=
  filter (λ s, persisted s = true) (rt_slots t).

Definition record_bytes (s : replay_slot_t) : list Z :=
  put_u32 (rs_src_addr s) ++ put_u64 (rs_high_water s).
Definition records (l : list replay_slot_t) : list Z := concat (record_bytes <$> l).

Definition blob_body (t : replay_table_t) : list Z :=
  [1; u8 (Z.of_nat (length (kept t))); 0; 0] ++ records (kept t).
Definition blob (t : replay_table_t) : list Z :=
  blob_body t ++ put_u32 (replay_crc32 (blob_body t)).

Lemma length_records l : length (records l) = (length l * 12)%nat.
Proof.
  induction l as [|s l IH]; [done|]. unfold records in *. cbn [fmap list_fmap concat].
  rewrite length_app, IH. simpl. lia.
Qed.
Lemma length_blob_body t : length (blob_body t) = (4 + length (kept t) * 12)%nat.
Proof. unfold blob_body. rewrite length_app, length_records. done. Qed.
Lemma length_blob t : length (blob t) = (4 + length (kept t) * 12 + 4)%nat.
Proof. unfold blob. rewrite length_app, length_blob_body. done. Qed.

Lemma put_records_spec slots pre b :
  (length pre + length (filter (λ s, persisted s = true) slots) * 12 ≤ length b)%nat →
  let recs := records (filter (λ s, persisted s = true) slots) in
  put_records slots (filled pre b) (length pre) =
    Some (filled (pre ++ recs) b, length (pre ++ recs)).
Proof.
  revert pre; induction slots as [|s slots IH]; intros pre Hfit; simpl.
  { by rewrite list.filter_nil, app_nil_r. }
  rewrite list.filter_cons in *.
  assert (Hp : negb (rs_used s) || negb (rs_seen s) = negb (persisted s))
    by (unfold persisted; by destruct (rs_used s), (rs_seen s)).
  rewrite Hp. case_decide as Hk.
  2:{ rewrite (not_true_is_false _ Hk). simpl. by apply IH. }
  rewrite Hk. simpl in *.
  rewrite wr_filled by (done || (simpl; lia)). cbn [mbind option_bind].
  rewrite wr_filled by (rewrite ?length_app, ?put_u64_length; simpl; lia).
  cbn [mbind option_bind].
  replace (length pre + 12)%nat
    with (length ((pre ++ put_u32 (rs_src_addr s)) ++ put_u64 (rs_high_water s)))
    by (rewrite !length_app; simpl; lia).
  rewrite IH by (rewrite !length_app; simpl; lia).
  unfold records. cbn [fmap list_fmap concat]. unfold record_bytes at 2 4.
  by rewrite <- !app_assoc.
Qed.

(** [replay_table_serialize] writes exactly the blob. *)
Lemma replay_serialize_spec t buf buf_len :
  (length (blob t) ≤ buf_len ≤ length buf)%nat → (length (kept t) ≤ REPLAY_MAX_SENDERS)%nat →
  replay_table_serialize t buf buf_len = Some (Some (length (blob t)), filled (blob t) buf).
Proof.
  intros Hlen Hk. pose proof (length_blob t) as Hb. unfold replay_table_serialize.
  fold (kept t). rewrite decide_False by lia.
  rewrite <- (filled_nil buf) at 1.
  rewrite wr_filled by (simpl; lia). cbn [mbind option_bind app].
  rewrite wr_filled by (simpl; lia). cbn [mbind option_bind app].
  rewrite wr_filled by (simpl; lia). cbn [mbind option_bind app].
  rewrite wr_filled by (simpl; lia). cbn [mbind option_bind app].
  rewrite (put_records_spec (rt_slots t) [_; _; 0; 0]) by (unfold kept in *; simpl; lia).
  cbn [mbind option_bind]. fold (kept t).
  change ([u8 REPLAY_TABLE_BLOB_VERSION; u8 (Z.of_nat (length (kept t))); 0; 0] ++ records (kept t))
    with (blob_body t).
  pose proof (length_blob_body t).
  rewrite rdn_some by (rewrite length_filled; lia). cbn [mbind option_bind].
  unfold filled at 2. rewrite drop_0, take_app_length.
  rewrite wr_filled by (done || (change (length (put_u32 _)) with 4%nat; lia)).
  cbn [mbind option_bind].
  unfold blob. rewrite length_app. done.
Qed.
Lemma replay_serialize_too_small t buf buf_len :
  (buf_len < length (blob t))%nat → replay_table_serialize t buf buf_len = Some (None, buf).
Proof.
  intros H. unfold replay_table_serialize. fold (kept t). rewrite length_blob in H.
  by rewrite decide_True.
Qed.

(** *** Loading *)

Definition restored (now : Z) (s : replay_slot_t) : replay_slot_t :=
  mk_rslot (rs_src_addr s) (rs_high_water s) 18446744073709551615 now true true.

Lemma get_records_spec now L slots pre post :
  Forall rslot_wf L → (length L ≤ length slots)%nat →
  ∀ i, (i + length L ≤ length slots)%nat →
  get_records slots (pre ++ records L ++ post) now (length L) i (length pre) =
    Some (take i slots ++ (restored now <$> L) ++ drop (i + length L) slots).
Proof.
  intros HL _. revert slots pre. induction HL as [|s L Hs HL IH]; intros slots pre i Hi.
  { simpl. by rewrite Nat.add_0_r, take_drop. }
  unfold records. cbn [fmap list_fmap concat get_records length]. fold (records L). simpl in Hi.
  rewrite <- app_assoc. unfold record_bytes. rewrite <- app_assoc.
  rewrite (rdn_app_skip _ _ (length pre)), Nat.sub_diag by lia.
  rewrite rdn_app_here by done. cbn [mbind option_bind].
  rewrite (rdn_app_skip _ _ (length pre + 4)) by lia.
  replace (length pre + 4 - length pre)%nat with 4%nat by lia.
  rewrite (rdn_app_skip (put_u32 _) _ 4) by (simpl; lia).
  rewrite rdn_app_here by done. cbn [mbind option_bind].
  unfold get_u32. rewrite le32_roundtrip by apply Hs. rewrite get_u64_put_u64 by apply Hs.
  fold (restored now s).
  replace (length pre + 12)%nat
    with (length (pre ++ put_u32 (rs_src_addr s) ++ put_u64 (rs_high_water s)))
    by (rewrite !length_app; simpl; lia).
  replace (pre ++ put_u32 (rs_src_addr s) ++ put_u64 (rs_high_water s) ++ records L ++ post)
    with ((pre ++ put_u32 (rs_src_addr s) ++ put_u64 (rs_high_water s)) ++ records L ++ post)
    by (by rewrite <- !app_assoc).
  rewrite IH by (rewrite length_insert; lia). f_equal.
  erewrite take_S_r by (apply list_lookup_insert_eq; lia).
  rewrite take_insert_ge, drop_insert_lt by lia. rewrite <- app_assoc. simpl.
  do 4 f_equal. lia.
Qed.

(** The table a reboot reconstructs: the kept senders first, every counter up
    to the high-water mark covered. *)
Definition reloaded (t : replay_table_t) (now : Z) : replay_table_t :=
  mk_rtable ((restored now <$> kept t) ++
             replicate (REPLAY_MAX_SENDERS - length (kept t)) rslot_zero) 0 0 false.

Lemma length_kept t : replay_wf t → (length (kept t) ≤ REPLAY_MAX_SENDERS)%nat.
Proof. intros Hwf. rewrite <- (rw_len t Hwf). apply length_filter. Qed.

Lemma kept_wf t : replay_wf t → Forall rslot_wf (kept t).
Proof.
  intros Hwf. apply list.Forall_forall. intros s [_ Hs]%list_elem_of_filter.
  eapply list.Forall_forall; [apply Hwf|done].
Qed.

(** *** The CRC *)

Lemma is_u32_bits z : is_u32 z ↔ 0 <= z ∧ ∀ k, 32 <= k → Z.testbit z k = false.
Proof.
  change (is_u32 z) with (0 <= z < 2 ^ 32). split.
  - intros Hz. split; [lia|]. intros k Hk. rewrite <- (Z.mod_small z (2 ^ 32)) by lia.
    apply Z.mod_pow2_bits_high. lia.
  - intros [Hz Hb]. split; [done|].
    assert (z = z mod 2 ^ 32) as ->; [|apply Z.mod_pos_bound; lia].
    apply Z.bits_inj'. intros k Hk. destruct (decide (k < 32)).
    + by rewrite Z.mod_pow2_bits_low by lia.
    + rewrite Z.mod_pow2_bits_high by lia. apply Hb. lia.
Qed.

Lemma lxor_u32 a b : is_u32 a → is_u32 b → is_u32 (Z.lxor a b).
Proof.
  rewrite !is_u32_bits. intros [? Ha] [? Hb]. split; [by apply Z.lxor_nonneg|].
  intros k Hk. by rewrite Z.lxor_spec, Ha, Hb.
Qed.

Lemma crc_bit_alt x : crc_bit x = Z.lxor (x >> 1) (if Z.odd x then crc_poly else 0).
Proof.
  unfold crc_bit. change 1 with (Z.ones 1) at 2. rewrite Z.land_ones by lia.
  change (2 ^ 1) with 2. rewrite Zmod_odd. by destruct (Z.odd x).
Qed.

Lemma shiftr1_u31 x : is_u32 x → 0 <= x >> 1 < 2147483648.
Proof. intros. shifts. change (2 ^ 1) with 2. cint. Qed.

Lemma crc_bit_u32 x : is_u32 x → is_u32 (crc_bit x).
Proof.
  intros Hx. rewrite crc_bit_alt. pose proof (shiftr1_u31 x Hx).
  apply lxor_u32; [cint|]. unfold crc_poly. split_if; cint.
Qed.

Lemma crc_bit_inj x y : is_u32 x → is_u32 y → crc_bit x = crc_bit y → x = y.
Proof.
  intros Hx Hy. rewrite !crc_bit_alt. intros E.
  pose proof (shiftr1_u31 x Hx) as Hsx. pose proof (shiftr1_u31 y Hy) as Hsy.
  assert (Htop : ∀ z, 0 <= z < 2147483648 → Z.testbit z 31 = false).
  { intros z Hz. rewrite <- (Z.mod_small z (2 ^ 31)) by (change (2 ^ 31) with 2147483648; lia).
    by apply Z.mod_pow2_bits_high. }
  assert (Hodd : Z.odd x = Z.odd y).
  { apply (f_equal (λ z, Z.testbit z 31)) in E. rewrite !Z.lxor_spec, (Htop _ Hsx), (Htop _ Hsy) in E.
    destruct (Z.odd x), (Z.odd y); try done; by vm_compute in E. }
  rewrite Hodd in E.
  assert (E' : x >> 1 = y >> 1).
  { apply (f_equal (λ z, Z.lxor z (if Z.odd y then crc_poly else 0))) in E.
    by rewrite !Z.lxor_assoc, !Z.lxor_nilpotent, !Z.lxor_0_r in E. }
  rewrite !Z.shiftr_div_pow2 in E' by lia. change (2 ^ 1) with 2 in E'.
  pose proof (Zmod_odd x) as Ox. pose proof (Zmod_odd y) as Oy. rewrite Hodd, <- Oy in Ox.
  pose proof (Z.div_mod x 2 ltac:(lia)). pose proof (Z.div_mod y 2 ltac:(lia)). lia.
Qed.

Lemma is_u8_u32 b : is_u8 b → is_u32 b.
Proof. cint. Qed.

Lemma crc_iter_u32 n x : is_u32 x → is_u32 (Nat.iter n crc_bit x).
Proof. intros Hx. induction n as [|n IH]; [done|]. simpl. by apply crc_bit_u32. Qed.
Lemma crc_iter_inj n x y :
  is_u32 x → is_u32 y → Nat.iter n crc_bit x = Nat.iter n crc_bit y → x = y.
Proof.
  intros Hx Hy. induction n as [|n IH]; [done|]. simpl. intros E%crc_bit_inj; [|by apply crc_iter_u32..].
  by apply IH.
Qed.

Lemma crc_byte_u32 crc b : is_u32 crc → is_u8 b → is_u32 (crc_byte crc b).
Proof. intros. apply crc_iter_u32, lxor_u32; [done|by apply is_u8_u32]. Qed.

(** For a fixed byte the state is recoverable, and conversely. *)
Lemma crc_byte_inj_state c1 c2 b :
  is_u32 c1 → is_u32 c2 → is_u8 b → crc_byte c1 b = crc_byte c2 b → c1 = c2.
Proof.
  unfold crc_byte. intros H1 H2 Hb%is_u8_u32 E%(crc_iter_inj 8); [|by apply lxor_u32..].
  apply (f_equal (λ z, Z.lxor z b)) in E.
  by rewrite !Z.lxor_assoc, !Z.lxor_nilpotent, !Z.lxor_0_r in E.
Qed.
Lemma crc_byte_inj_byte c b1 b2 :
  is_u32 c → is_u8 b1 → is_u8 b2 → crc_byte c b1 = crc_byte c b2 → b1 = b2.
Proof.
  unfold crc_byte. intros Hc H1%is_u8_u32 H2%is_u8_u32 E%(crc_iter_inj 8); [|by apply lxor_u32..].
  apply (f_equal (Z.lxor c)) in E.
  by rewrite <- !Z.lxor_assoc, !Z.lxor_nilpotent, !Z.lxor_0_l in E.
Qed.

Lemma crc_fold_u32 l c : is_u32 c → Forall is_u8 l → is_u32 (foldl crc_byte c l).
Proof.
  intros Hc Hl. revert c Hc. induction Hl as [|b l Hb _ IH]; intros c Hc; [done|].
  simpl. by apply IH, crc_byte_u32.
Qed.
Lemma crc_fold_inj l c1 c2 :
  is_u32 c1 → is_u32 c2 → Forall is_u8 l → foldl crc_byte c1 l = foldl crc_byte c2 l → c1 = c2.
Proof.
  intros H1 H2 Hl. revert c1 c2 H1 H2. induction Hl as [|b l Hb _ IH]; intros c1 c2 H1 H2; [done|].
  simpl. intros E%IH; [|by apply crc_byte_u32..]. by apply crc_byte_inj_state in E.
Qed.

Lemma crc_start_u32 : is_u32 4294967295. Proof. cint. Qed.
Lemma replay_crc32_u32 l : Forall is_u8 l → is_u32 (replay_crc32 l).
Proof. intros. apply lxor_u32; [by apply crc_fold_u32; [apply crc_start_u32|]|cint]. Qed.

(** Changing one byte changes the CRC. *)
Lemma replay_crc32_detects pre b1 b2 post :
  Forall is_u8 pre → Forall is_u8 post → is_u8 b1 → is_u8 b2 → b1 ≠ b2 →
  replay_crc32 (pre ++ b1 :: post) ≠ replay_crc32 (pre ++ b2 :: post).
Proof.
  intros Hpre Hpost H1 H2 Hne E. unfold replay_crc32 in E.
  apply (f_equal (λ z, Z.lxor z 4294967295)) in E.
  rewrite !Z.lxor_assoc, !Z.lxor_nilpotent, !Z.lxor_0_r, !foldl_app in E. simpl in E.
  pose proof (crc_fold_u32 pre _ crc_start_u32 Hpre).
  apply crc_fold_inj in E; [|by apply crc_byte_u32..|done].
  by apply crc_byte_inj_byte in E.
Qed.

(** *** Round trip *)

Lemma records_u8 l : Forall is_u8 (records l).
Proof.
  unfold records. apply Forall_concat, Forall_fmap, Forall_true. intros s.
  apply Forall_app. split; repeat constructor; apply u8_range.
Qed.
Lemma blob_body_u8 t : Forall is_u8 (blob_body t).
Proof.
  apply Forall_app. split; [|apply records_u8].
  repeat constructor; try apply u8_range; cint.
Qed.

Lemma replay_deserialize_blob t rest now :
  replay_wf t →
  replay_table_deserialize (blob t ++ rest) (length (blob t)) now = Some (true, reloaded t now).
Proof.
  intros Hwf. pose proof (length_kept t Hwf) as Hk. pose proof (length_blob t) as Hlen.
  unfold REPLAY_MAX_SENDERS in Hk.
  assert (Hn : Z.to_nat (u8 (Z.of_nat (length (kept t)))) = length (kept t))
    by (rewrite u8_id; [lia|unfold is_u8; lia]).
  set (B := blob t ++ rest).
  assert (H0 : rd B 0 = Some 1) by done.
  assert (H1 : rd B 1 = Some (u8 (Z.of_nat (length (kept t))))) by done.
  assert (H2 : rd B 2 = Some 0) by done.
  assert (H3 : rd B 3 = Some 0) by done.
  assert (Hbody : B = blob_body t ++ put_u32 (replay_crc32 (blob_body t)) ++ rest)
    by (unfold B, blob; by rewrite app_assoc).
  assert (Hcrc : rdn B (4 + length (kept t) * 12) 4 = Some (put_u32 (replay_crc32 (blob_body t)))).
  { rewrite Hbody, rdn_app_skip by (rewrite length_blob_body; lia).
    rewrite length_blob_body, Nat.sub_diag. by apply rdn_app_here. }
  assert (Hdata : rdn B 0 (4 + length (kept t) * 12) = Some (blob_body t))
    by (rewrite Hbody; apply rdn_app_here, length_blob_body).
  assert (Hrec : get_records (rt_slots replay_table_init) B now (length (kept t)) 0 4 =
                 Some (rt_slots (reloaded t now))).
  { rewrite Hbody. unfold blob_body at 1. rewrite <- app_assoc.
    pose proof (get_records_spec now (kept t) (rt_slots replay_table_init)
      [1; u8 (Z.of_nat (length (kept t))); 0; 0]
      (put_u32 (replay_crc32 (blob_body t)) ++ rest) (kept_wf t Hwf)) as Hg.
    cbn [rt_slots replay_table_init] in Hg. rewrite length_replicate in Hg.
    unfold REPLAY_MAX_SENDERS in Hg. specialize (Hg ltac:(lia) 0%nat ltac:(lia)).
    cbn [length] in Hg. etransitivity; [exact Hg|].
    rewrite take_0, drop_replicate. done. }
  clearbody B. unfold replay_table_deserialize. rewrite Hlen, decide_False by lia.
  rewrite H0, H1, H2, H3. cbn [mbind option_bind].
  change (1 =? u8 REPLAY_TABLE_BLOB_VERSION) with true. cbn [negb orb Z.eqb].
  rewrite Hn, decide_False by (unfold REPLAY_MAX_SENDERS; lia).
  rewrite Nat.eqb_refl, Hcrc, Hdata. cbn [negb mbind option_bind].
  unfold get_u32, put_u32. rewrite le32_roundtrip by (apply replay_crc32_u32, blob_body_u8).
  rewrite Z.eqb_refl, Hrec. done.
Qed.

(** Everything up to the persisted high-water mark is covered by the restored slot. *)
Lemma restored_covered now s c : c <= rs_high_water s → covered (restored now s) c.
Proof.
  intros Hc. split_and!; [done|done|]. simpl.
  destruct (decide (c = rs_high_water s)); [by left|].
  destruct (decide (rs_high_water s - c > 64)); [right; by left|]. do 2 right.
  change 18446744073709551615 with (Z.ones 64). apply Z.ones_spec_low. lia.
Qed.
Lemma restored_not_covered now s c : rs_high_water s < c → ¬ covered (restored now s) c.
Proof. intros Hc (_ & Hle & _). simpl in Hle. lia. Qed.

Lemma reloaded_slot t now src i s :
  slot_of (reloaded t now) src i s →
  ∃ s0, kept t !! i = Some s0 ∧ s = restored now s0 ∧ rs_src_addr s0 = src.
Proof.
  intros (Hl & Hu & Hsrc). unfold reloaded in Hl; simpl in Hl.
  apply lookup_app_Some in Hl as [Hl|[_ Hl]].
  - apply list_lookup_fmap_Some in Hl as (s0 & -> & H0). eauto.
  - apply lookup_replicate in Hl as [-> _]. done.
Qed.

Lemma kept_NoDup t : replay_wf t → NoDup (rs_src_addr <$> kept t).
Proof.
  intros Hwf. apply NoDup_fmap_filter. intros i j s s' Hi Hj Hp Hp' E.
  unfold persisted in *. conds. eapply (rw_unique t Hwf (rs_src_addr s)); split; eauto.
Qed.

Lemma reloaded_wf t now : replay_wf t → replay_wf (reloaded t now).
Proof.
  intros Hwf. pose proof (length_kept t Hwf) as Hk.
  assert (Hlen : length (rt_slots (reloaded t now)) = REPLAY_MAX_SENDERS)
    by (simpl; rewrite length_app, length_fmap, length_replicate; lia).
  constructor; [done| | |].
  - simpl. apply Forall_app. split; [|apply Forall_replicate, rslot_zero_wf].
    apply Forall_fmap. eapply list.Forall_impl; [apply (kept_wf t Hwf)|]. intros s Hs.
    constructor; simpl; [apply Hs|apply Hs|cint|done].
  - intros i j Hij Hu. simpl in *.
    destruct (decide (j < length (kept t))%nat) as [Hj|Hj].
    + rewrite lookup_total_app_l by (rewrite length_fmap; lia).
      destruct (lookup_lt_is_Some_2 (kept t) i) as [s Hs]; [lia|].
      erewrite list_lookup_total_correct; [|apply list_lookup_fmap_Some; eauto]. done.
    + rewrite lookup_total_app_r in Hu by (rewrite length_fmap; lia).
      rewrite lookup_total_replicate_2 in Hu by (rewrite length_fmap; lia). done.
  - intros src i j s s' (s0 & Hi & _ & H0)%reloaded_slot (s1 & Hj & _ & H1)%reloaded_slot.
    apply (NoDup_lookup (rs_src_addr <$> kept t) i j src); [by apply kept_NoDup|..];
      apply list_lookup_fmap_Some; eauto using eq_sym.
Qed.

(** ** Reachable tables

    Boot, received packets, flushes and reboots that reload the blob of the
    table at the last flush. *)

Inductive replay_reach : replay_table_t → Prop :=
| reach_boot : replay_reach replay_table_init
| reach_packet t src c now :
    replay_reach t → is_u32 src → is_u64 c → replay_reach (replay_check_and_add t src c now).2
| reach_flush t : replay_reach t → replay_reach (replay_table_mark_clean t)
| reach_reload t buf n buf' now t' :
    replay_reach t → replay_table_serialize t buf (length buf) = Some (Some n, buf') →
    replay_table_deserialize (take n buf') n now = Some (true, t') → replay_reach t'.

Lemma serialize_blob t buf n buf' :
  replay_wf t → replay_table_serialize t buf (length buf) = Some (Some n, buf') →
  n = length (blob t) ∧ take n buf' = blob t.
Proof.
  intros Hwf. destruct (decide (length buf < length (blob t))%nat).
  - rewrite replay_serialize_too_small by done. done.
  - rewrite replay_serialize_spec by (lia || by apply length_kept).
    generalize (blob t) as B. intros B E. injection E as <- <-. split; [done|].
    apply take_app_length.
Qed.

Lemma reload_blob t buf n buf' now t' :
  replay_wf t → replay_table_serialize t buf (length buf) = Some (Some n, buf') →
  replay_table_deserialize (take n buf') n now = Some (true, t') → t' = reloaded t now.
Proof.
  intros Hwf [-> ->]%serialize_blob; [|done]. rewrite <- (app_nil_r (blob t)) at 1.
  rewrite replay_deserialize_blob by done. congruence.
Qed.

Lemma replay_reach_wf t : replay_reach t → replay_wf t.
Proof.
  induction 1 as [|t src c now _ IH Hs Hc|t _ IH|t buf n buf' now t' _ IH Hser Hde].
  - apply replay_init_wf.
  - by apply replay_check_wf.
  - destruct IH; by constructor.
  - rewrite (reload_blob _ _ _ _ _ _ IH Hser Hde). by apply reloaded_wf.
Qed.

(** *** Traces of received packets *)

Definition replay_run (t : replay_table_t) (ops : list (Z * Z * Z)) : replay_table_t :=
  foldl (λ t op, (replay_check_and_add t op.1.1 op.1.2 op.2).2) t ops.

Definition op_ok (op : Z * Z * Z) : Prop := is_u32 op.1.1 ∧ is_u64 op.1.2.

(** [src], last heard at [last], is never idle for 15 minutes when another
    sender's packet arrives. *)
Fixpoint stays_active (src last : Z) (ops : list (Z * Z * Z)) : bool :=
  match ops with
  | [] => true
  | op :: ops =>
      if op.1.1 =? src then stays_active src op.2 ops
      else ((op.2 ⊖ last) <? REPLAY_EVICT_MIN_IDLE_MS) && stays_active src last ops
  end.

(** Another sender's packet leaves the slot of an active sender as it is. *)
Lemma replay_check_other t src i s src' c now :
  replay_wf t → slot_of t src i s → src' ≠ src →
  now ⊖ rs_last_seen_ms s < REPLAY_EVICT_MIN_IDLE_MS →
  slot_of (replay_check_and_add t src' c now).2 src i s.
Proof.
  intros Hwf Hs Hne Hact. pose proof Hs as (Hl & Hu & Hsrc).
  destruct (slot_of_total _ _ _ _ Hs) as [_ Htot].
  destruct (slot_of_dec t src' Hwf) as [(j & s' & Hs')|Hno].
  - destruct (replay_check_known t src' c now j s' Hwf Hs') as (ev & ed & d & ->).
    split; [|done]. simpl. rewrite list_lookup_insert_ne; [done|].
    intros ->. destruct Hs' as (Hl' & _ & ?). congruence.
  - destruct (replay_check_new t src' c now Hwf Hno) as [[_ Ht]|(j & _ & _ & Ht & _ & Hev)];
      (split; [|done]); rewrite Ht; [done|].
    rewrite list_lookup_insert_ne; [done|]. intros ->. unfold age in Hev.
    rewrite Htot in Hev. specialize (Hev Hu). lia.
Qed.

Lemma replay_check_own t src i s c now :
  replay_wf t → slot_of t src i s →
  (replay_check_and_add t src c now).1 = (slot_check s c now).1.1 ∧
  slot_of (replay_check_and_add t src c now).2 src i (slot_check s c now).1.2.
Proof.
  intros Hwf Hs. destruct (replay_check_known t src c now i s Hwf Hs) as (ev & ed & d & ->).
  split; [done|]. destruct (slot_check_identity s c now) as (H1 & H2 & _).
  destruct Hs as (Hl & Hu & Hsrc). split; [|split; congruence].
  simpl. apply list_lookup_insert_eq. by eapply lookup_lt_Some.
Qed.

(** Covered counters stay covered along a trace in which the sender stays active. *)
Lemma replay_run_covered ops : ∀ t src i s c,
  replay_wf t → slot_of t src i s → covered s c → Forall op_ok ops →
  stays_active src (rs_last_seen_ms s) ops = true →
  replay_wf (replay_run t ops) ∧ ∃ s', slot_of (replay_run t ops) src i s' ∧ covered s' c.
Proof.
  induction ops as [|[[src' c'] now] ops IH]; intros t src i s c Hwf Hs Hcov Hok Hact.
  { split; [done|eauto]. }
  inversion_clear Hok as [|?? [Hs' Hc'] Hok']. simpl in *.
  pose proof (replay_check_wf t src' c' now Hwf Hs' Hc') as Hwf'.
  destruct (src' =? src) eqn:E; conds.
  - subst src'. destruct (replay_check_own t src i s c' now Hwf Hs) as [_ Hs2].
    pose proof (slot_lookup_wf _ _ _ _ Hwf Hs) as Hsw.
    eapply IH; [done|exact Hs2|by apply slot_check_monotone|done|].
    by destruct (slot_check_identity s c' now) as (_ & _ & ->).
  - eapply IH; [done|by apply replay_check_other|done|done|done].
Qed.

Lemma replay_accept_slot t src c now :
  replay_wf t → is_u32 src → is_u64 c → (replay_check_and_add t src c now).1 = REPLAY_ACCEPT →
  ∃ i s, slot_of (replay_check_and_add t src c now).2 src i s ∧ covered s c ∧
    rs_last_seen_ms s = now.
Proof.
  intros Hwf Hsrc Hc Hacc. destruct (slot_of_dec t src Hwf) as [(i & s & Hs)|Hno].
  - destruct (replay_check_own t src i s c now Hwf Hs) as [_ Hs2].
    pose proof (slot_lookup_wf _ _ _ _ Hwf Hs) as Hsw.
    eexists i, _. split_and!; [done|by apply slot_check_covered_after|].
    by destruct (slot_check_identity s c now) as (_ & _ & ->).
  - destruct (replay_check_new t src c now Hwf Hno) as [[Hrej _]|(i & Hi & _ & Ht & _)].
    { rewrite Hacc in Hrej. done. }
    pose proof (fresh_slot_wf src now Hsrc) as Hfw.
    exists i, (slot_check (fresh_slot src now) c now).1.2. split_and!.
    + destruct (slot_check_identity (fresh_slot src now) c now) as (H1 & H2 & _).
      split; [|done]. rewrite Ht. apply list_lookup_insert_eq. by rewrite rw_len.
    + by apply slot_check_covered_after.
    + by destruct (slot_check_identity (fresh_slot src now) c now) as (_ & _ & ->).
Qed.

(** *** Arbitrary and corrupted blobs *)

Ltac defined_read :=
  match goal with
  | |- context [rd ?b ?o ≫= _] =>
      destruct (rd b o) eqn:?;
        [cbn [mbind option_bind]
        |exfalso; assert (is_Some (rd b o)) as [? ?] by (apply rd_is_Some; lia); congruence]
  | |- context [rdn ?b ?o ?n ≫= _] =>
      destruct (rdn b o n) eqn:?;
        [cbn [mbind option_bind]
        |exfalso; assert (is_Some (rdn b o n)) as [? ?] by (apply rdn_is_Some; lia); congruence]
  end.

Lemma get_records_defined buf now n : ∀ slots i off,
  (off + n * 12 ≤ length buf)%nat → is_Some (get_records slots buf now n i off).
Proof.
  induction n as [|n IH]; intros slots i off Hlen; simpl; [eauto|].
  do 2 defined_read. apply IH. lia.
Qed.

(** What a successful load has checked. *)
Lemma replay_deserialize_inv buf len now :
  (len ≤ length buf)%nat →
  ∃ ok t', replay_table_deserialize buf len now = Some (ok, t') ∧
    (ok = false → t' = replay_table_init) ∧
    (ok = true → ∃ b1 crc data, rd buf 1 = Some b1 ∧ len = (4 + Z.to_nat b1 * 12 + 4)%nat ∧
      rdn buf (4 + Z.to_nat b1 * 12) 4 = Some crc ∧
      rdn buf 0 (4 + Z.to_nat b1 * 12) = Some data ∧ get_u32 crc = replay_crc32 data).
Proof.
  intros Hlen. unfold replay_table_deserialize.
  case_decide; [by eexists _, _|]. defined_read.
  split_if; [by eexists _, _|]. do 2 defined_read.
  split_if; [by eexists _, _|]. defined_read.
  case_decide; [by eexists _, _|].
  split_if; [by eexists _, _|]. conds.
  match goal with H : (_ =? _)%nat = true |- _ => apply Nat.eqb_eq in H; rename H into Hn end.
  do 2 defined_read. split_if; [by eexists _, _|]. conds.
  edestruct get_records_defined as [sl ->]; cycle 1.
  { cbn [mbind option_bind]. eexists _, _. split_and!; [done|done|]. intros _.
    eexists _, _, _. split_and!; eauto. }
  lia.
Qed.

Lemma le32_val_inj a b : length a = 4%nat → length b = 4%nat → Forall is_u8 a → Forall is_u8 b →
  le32_val a = le32_val b → a = b.
Proof.
  intros La Lb Ha Hb. destruct a as [|a0 [|a1 [|a2 [|a3 [|]]]]], b as [|b0 [|b1 [|b2 [|b3 [|]]]]]; try done.
  inv_Forall. rewrite !le32_val_arith by done. unfold is_u8 in *. intros E.
  assert (a0 = b0 ∧ a1 = b1 ∧ a2 = b2 ∧ a3 = b3) as (-> & -> & -> & ->) by lia. done.
Qed.

(** A blob with one byte changed never loads. *)
Lemma blob_corruption t k b now :
  replay_wf t → (k < length (blob t))%nat → is_u8 b → blob t !! k ≠ Some b →
  replay_table_deserialize (<[k := b]> (blob t)) (length (blob t)) now =
    Some (false, replay_table_init).
Proof.
  intros Hwf Hk Hb Hne. set (B := <[k := b]> (blob t)).
  assert (HlenB : length B = length (blob t)) by apply length_insert.
  destruct (replay_deserialize_inv B (length (blob t)) now) as ([] & t' & -> & Hf & Ht);
    [lia| |by rewrite Hf].
  exfalso. destruct (Ht eq_refl) as (b1 & crc & data & H1 & Hn & Hcrc & Hdata & Heq). clear Ht Hf.
  rewrite length_blob in Hn, Hk. assert (Hb1 : Z.to_nat b1 = length (kept t)) by lia. clear Hn.
  rewrite Hb1 in Hcrc, Hdata. pose proof (blob_body_u8 t) as Hu.
  assert (Hsplit : blob t = blob_body t ++ put_u32 (replay_crc32 (blob_body t))) by done.
  pose proof (replay_crc32_u32 _ Hu) as Hcu.
  assert (Hpu : Forall is_u8 (put_u32 (replay_crc32 (blob_body t))))
    by (repeat constructor; apply u8_range).
  destruct (decide (k < length (blob_body t))%nat) as [Hin|Hout].
  - destruct (lookup_lt_is_Some_2 _ _ Hin) as [x Hx].
    assert (HB : B = <[k := b]> (blob_body t) ++ put_u32 (replay_crc32 (blob_body t)))
      by (unfold B; rewrite Hsplit; by apply insert_app_l).
    rewrite HB in Hcrc, Hdata.
    rewrite rdn_app_here in Hdata by (by rewrite length_insert, length_blob_body).
    rewrite rdn_app_skip in Hcrc by (rewrite length_insert, length_blob_body; lia).
    rewrite length_insert, length_blob_body, Nat.sub_diag in Hcrc.
    rewrite <- (app_nil_r (put_u32 _)), rdn_app_here in Hcrc by done.
    injection Hcrc as <-. injection Hdata as <-.
    unfold get_u32, put_u32 in Heq. rewrite le32_roundtrip in Heq by done.
    rewrite insert_take_drop in Heq by done.
    rewrite <- (take_drop_middle _ _ _ Hx) in Heq at 1.
    revert Heq. apply replay_crc32_detects; [by apply Forall_take|by apply Forall_drop| |done|].
    + by eapply Forall_lookup_1 in Hx.
    + intros ->. apply Hne. rewrite Hsplit. by apply lookup_app_l_Some.
  - assert (HB : B = blob_body t ++ <[(k - length (blob_body t))%nat := b]>
        (put_u32 (replay_crc32 (blob_body t))))
      by (unfold B; rewrite Hsplit; apply insert_app_r_alt; lia).
    rewrite HB in Hcrc, Hdata.
    rewrite rdn_app_here in Hdata by (by rewrite length_blob_body).
    rewrite rdn_app_skip in Hcrc by (rewrite length_blob_body; lia).
    rewrite length_blob_body, Nat.sub_diag in Hcrc.
    rewrite <- (app_nil_r (<[_ := _]> _)), rdn_app_here in Hcrc by (by rewrite length_insert).
    injection Hcrc as <-. injection Hdata as <-. unfold get_u32 in Heq.
    pose proof (eq_trans Heq (eq_sym (le32_roundtrip _ Hcu))) as Heq'.
    apply le32_val_inj in Heq'; 
      [|by rewrite length_insert|done|by apply Forall_insert; [exact Hpu|]|exact Hpu].
    apply Hne. rewrite Hsplit, lookup_app_r by lia. unfold put_u32. rewrite <- Heq'.
    rewrite length_blob_body in *. apply list_lookup_insert_eq. simpl. lia.
Qed.

(** ** Properties *)

(** No replay: in every reachable table, once a packet of [src] with nonce
    counter [c] is accepted, no later packet with the same counter is accepted,
    after any sequence of packets from any senders in which [src] is never idle
    for 15 minutes when someone else is heard. *)
Theorem replay_no_double_accept t src c t0 ops t1 :
  replay_reach t → is_u32 src → is_u64 c →
  (replay_check_and_add t src c t0).1 = REPLAY_ACCEPT →
  Forall op_ok ops → stays_active src t0 ops = true →
  (replay_check_and_add (replay_run (replay_check_and_add t src c t0).2 ops) src c t1).1
    ≠ REPLAY_ACCEPT.
Proof.
  intros Hr%replay_reach_wf Hsrc Hc Hacc Hok Hact.
  destruct (replay_accept_slot t src c t0 Hr Hsrc Hc Hacc) as (i & s & Hs & Hcov & Hlast).
  pose proof (replay_check_wf t src c t0 Hr Hsrc Hc) as Hwf.
  rewrite <- Hlast in Hact.
  destruct (replay_run_covered ops _ src i s c Hwf Hs Hcov Hok Hact) as (Hwf' & s' & Hs' & Hcov').
  destruct (replay_check_own _ src i s' c t1 Hwf' Hs') as [-> _].
  rewrite slot_check_verdict; [naive_solver|by eapply slot_lookup_wf|done].
Qed.

Lemma replay_no_double_accept_witness :
  (replay_check_and_add
     (replay_run (replay_check_and_add replay_table_init 9 100 5000).2
        [(4, 7, 6000); (9, 164, 7000); (4, 8, 8000)]) 9 100 9000).1 ≠ REPLAY_ACCEPT.
Proof.
  apply (replay_no_double_accept replay_table_init 9 100 5000); try cint.
  - constructor.
  - vm_compute. reflexivity.
  - repeat constructor; simpl; cint.
  - vm_compute. reflexivity.
Defined.

(** Flooding: packets from any number of other (possibly spoofed) source
    addresses leave the slot of a sender heard within the last 15 minutes
    exactly as it was; the table refuses the newcomers instead. *)
Theorem replay_flood_keeps_active_sender t src i s ops :
  replay_reach t → slot_of t src i s →
  Forall (λ op, op_ok op ∧ op.1.1 ≠ src ∧
                op.2 ⊖ rs_last_seen_ms s < REPLAY_EVICT_MIN_IDLE_MS) ops →
  slot_of (replay_run t ops) src i s.
Proof.
  intros Hr%replay_reach_wf. revert t Hr.
  induction ops as [|[[src' c] now] ops IH]; intros t Hwf Hs Hops; [done|].
  apply Forall_cons in Hops as [[[? ?] [? ?]] Hops']. simpl in *.
  apply IH; [by apply replay_check_wf|by apply replay_check_other|done].
Qed.

Lemma replay_flood_keeps_active_sender_witness :
  ∃ s, slot_of (replay_run (replay_check_and_add replay_table_init 9 100 5000).2
         ((λ i : nat, (100 + Z.of_nat i, 1, 6000)) <$> seq 0 70)) 9 0 s ∧ rs_high_water s = 100.
Proof.
  eexists. split; [|].
  - apply (replay_flood_keeps_active_sender (replay_check_and_add replay_table_init 9 100 5000).2 9 0
      (mk_rslot 9 100 0 5000 true true)).
    + apply reach_packet; [constructor|cint|cint].
    + vm_compute. done.
    + apply Forall_fmap, Forall_seq. intros k Hk. simpl.
      repeat split; simpl; try lia; vm_compute; done.
  - reflexivity.
Defined.

(** C7. The window is exact: for a sender with a slot, the verdict is ACCEPT
    exactly for the counters not covered, BELOW_WINDOW exactly for those more
    than 64 below the high-water mark, and afterwards the covered counters are
    the old ones, the checked one and those that fell below the window. *)
Theorem replay_window_exact t src i s c now :
  replay_reach t → slot_of t src i s → is_u64 c →
  let '(v, t') := replay_check_and_add t src c now in
  ∃ s', slot_of t' src i s' ∧
    (v = REPLAY_ACCEPT ↔ ¬ covered s c) ∧
    (v = REPLAY_BELOW_WINDOW ↔ rs_seen s = true ∧ rs_high_water s - c > 64) ∧
    (∀ c', covered s' c' ↔ covered s c' ∨ c' = c ∨ rs_high_water s' - c' > 64) ∧
    rs_high_water s' = (if rs_seen s then Z.max (rs_high_water s) c else c).
Proof.
  intros Hr%replay_reach_wf Hs Hc.
  destruct (replay_check_own t src i s c now Hr Hs) as [Hv Hs'].
  pose proof (slot_lookup_wf _ _ _ _ Hr Hs) as Hw.
  pose proof (slot_check_verdict s c now Hw Hc) as Hacc.
  destruct (replay_check_and_add t src c now) as [v t']; simpl in *. subst v.
  eexists. split_and!; [exact Hs'|done| | |].
  - unfold slot_check. destruct (rs_seen s); simpl; [|naive_solver].
    destruct (_ >? _) eqn:?; conds; [simpl; split; [done|lia]|].
    rewrite delta_exact by done.
    repeat (split_if; conds; simpl; try (split; [done|lia])). split; [split; [done|lia]|done].
  - intros c'. destruct (decide ((slot_check s c now).1.1 = REPLAY_ACCEPT)) as [Ha|Ha].
    + by apply slot_check_accept_covers.
    + rewrite slot_check_reject by done. split; [by left|]. rewrite Hacc in Ha.
      assert (Hcov : covered s c) by (by apply dec_stable).
      intros [?|[->|Hlow]]; [done|done|].
      assert (rs_high_water (slot_check s c now).1.2 = rs_high_water s) as Heq.
      { destruct Hcov as (Hseen & Hle & _). unfold slot_check. rewrite Hseen. simpl.
        destruct (_ >? _) eqn:?; conds; [lia|]. repeat (split_if; [done|]). done. }
      rewrite Heq in Hlow. destruct Hcov as (? & _). split_and!; [done|lia|]. right; left; lia.
  - unfold slot_check. destruct (rs_seen s); simpl; [|done].
    destruct (_ >? _) eqn:?; conds; simpl; [lia|]. repeat (split_if; simpl; [lia|]). simpl. lia.
Qed.

Lemma replay_window_exact_witness :
  ∃ v t', replay_check_and_add (replay_check_and_add replay_table_init 9 100 5000).2 9 36 6000
    = (v, t') ∧ v = REPLAY_ACCEPT.
Proof.
  pose proof (replay_window_exact (replay_check_and_add replay_table_init 9 100 5000).2 9 0
    (mk_rslot 9 100 0 5000 true true) 36 6000) as H.
  destruct (replay_check_and_add (replay_check_and_add replay_table_init 9 100 5000).2 9 36 6000)
    as [v t'] eqn:E.
  exists v, t'. split; [reflexivity|].
  destruct H as (s' & _ & Hv & _).
  - apply reach_packet; [constructor|cint|cint].
  - vm_compute. done.
  - cint.
  - apply Hv. intros (_ & _ & [H|[H|H]]); vm_compute in H; done.
Defined.

(** C9. Reboot: a reachable table always serializes into a buffer of
    [REPLAY_TABLE_BLOB_MAX] bytes, and reloading that blob restores for every
    sender with an accepted packet a slot that rejects every counter up to its
    high-water mark and accepts every larger one. *)
Theorem replay_survives_reboot t src i s buf now :
  replay_reach t → slot_of t src i s → rs_seen s = true →
  length buf = REPLAY_TABLE_BLOB_MAX →
  ∃ n buf' t', replay_table_serialize t buf (length buf) = Some (Some n, buf') ∧
    replay_table_deserialize (take n buf') n now = Some (true, t') ∧ replay_reach t' ∧
    ∀ c now', is_u64 c →
      (replay_check_and_add t' src c now').1 = REPLAY_ACCEPT ↔ rs_high_water s < c.
Proof.
  intros Hr Hs Hseen Hbuf. pose proof (replay_reach_wf t Hr) as Hwf.
  pose proof (length_kept t Hwf) as Hk. pose proof (length_blob t) as Hlen.
  assert (Hfit : (length (blob t) ≤ length buf)%nat)
    by (rewrite Hlen, Hbuf; unfold REPLAY_TABLE_BLOB_MAX, REPLAY_MAX_SENDERS in *; lia).
  assert (Hser : replay_table_serialize t buf (length buf) = Some (Some (length (blob t)), filled (blob t) buf))
    by (apply replay_serialize_spec; [lia|done]).
  assert (Hde : replay_table_deserialize (take (length (blob t)) (filled (blob t) buf))
                  (length (blob t)) now = Some (true, reloaded t now)).
  { destruct (serialize_blob t buf _ _ Hwf Hser) as [_ ->].
    rewrite <- (app_nil_r (blob t)) at 1. by apply replay_deserialize_blob. }
  eexists _, _, (reloaded t now). split_and!; [exact Hser|exact Hde|by eapply reach_reload|].
  intros c now' Hc. destruct Hs as (Hl & Hu & Hsrc).
  assert (Hin : s ∈ kept t).
  { apply list_elem_of_filter. split; [unfold persisted; by rewrite Hu, Hseen|].
    by eapply list_elem_of_lookup_2. }
  apply list_elem_of_lookup in Hin as (j & Hj).
  assert (Hs2 : slot_of (reloaded t now) src j (restored now s)).
  { split; [|done]. unfold reloaded; cbn [rt_slots].
    apply lookup_app_l_Some, list_lookup_fmap_Some. eauto. }
  pose proof (reloaded_wf t now Hwf) as Hwf2.
  destruct (replay_check_own _ src j _ c now' Hwf2 Hs2) as [-> _].
  rewrite slot_check_verdict; [|by eapply slot_lookup_wf|done].
  destruct (decide (rs_high_water s < c)) as [Hlt|Hge].
  - split; [done|]. intros _. by apply restored_not_covered.
  - split; [|done]. intros []. apply restored_covered. lia.
Qed.

Lemma replay_survives_reboot_witness :
  ∃ n buf' t', replay_table_serialize (replay_check_and_add replay_table_init 9 100 5000).2
      (replicate 776 0) 776 = Some (Some n, buf') ∧
    replay_table_deserialize (take n buf') n 0 = Some (true, t') ∧
    (replay_check_and_add t' 9 42 10).1 ≠ REPLAY_ACCEPT ∧
    (replay_check_and_add t' 9 101 10).1 = REPLAY_ACCEPT.
Proof.
  destruct (replay_survives_reboot (replay_check_and_add replay_table_init 9 100 5000).2 9 0
    (mk_rslot 9 100 0 5000 true true) (replicate 776 0) 0) as (n & buf' & t' & H1 & H2 & _ & H3).
  - apply reach_packet; [constructor|cint|cint].
  - vm_compute. done.
  - reflexivity.
  - reflexivity.
  - exists n, buf', t'. split_and!; [exact H1|exact H2| |].
    + rewrite H3 by cint. simpl. lia.
    + apply H3; [cint|simpl; lia].
Defined.

(** Loading is safe on any stored bytes: it never reads outside the blob,
    a refused blob leaves the table empty, and a blob in which any single byte
    was altered is refused. *)
Theorem replay_load_safe t k b buf len now :
  replay_reach t → (k < length (blob t))%nat → is_u8 b → blob t !! k ≠ Some b →
  (len ≤ length buf)%nat →
  (∃ ok t', replay_table_deserialize buf len now = Some (ok, t') ∧
     (ok = false → t' = replay_table_init)) ∧
  replay_table_deserialize (<[k := b]> (blob t)) (length (blob t)) now =
    Some (false, replay_table_init).
Proof.
  intros Hr%replay_reach_wf Hk Hb Hne Hlen. split; [|by apply blob_corruption].
  destruct (replay_deserialize_inv buf len now Hlen) as (ok & t' & H & Hf & _). eauto.
Qed.

Lemma replay_load_safe_witness :
  replay_table_deserialize
    (<[7%nat := 1]> (blob (replay_check_and_add replay_table_init 9 100 5000).2)) 20 0 =
    Some (false, replay_table_init).
Proof.
  apply (replay_load_safe (replay_check_and_add replay_table_init 9 100 5000).2 7 1 [] 0 0).
  - apply reach_packet; [constructor|cint|cint].
  - vm_compute. lia.
  - cint.
  - vm_compute. done.
  - simpl. lia.
Defined.
