(* ===== verification/ReplayDeferred.v ===== *)
(** * Deferred acceptance ([components/replay_window/replay_deferred.c])

    The second tier of replay protection: a chat message below the sender's
    window is still accepted when its authenticated [sent_at] is recent, the
    clock is trusted and its (sender, counter) pair is not on record. *)

From stdpp Require Import base numbers sets option decidable list.
From S2P Require Import Prelude Tables ReplayWindow.

Definition REPLAY_DEFERRED_MAX : nat := 128.
Definition DEFERRED_SKEW_S : Z := 300.
Definition DEFERRED_TTL_S : Z := 86400.

Record replay_dslot_t := mk_dslot {
  ds_src : Z; ds_counter : Z; ds_seen_s : Z; ds_used : bool }.
Record replay_deferred_t := mk_deferred {
  rd_slots : list replay_dslot_t; rd_evictions : Z; rd_evict_denied : Z }.

#[global] Instance dslot_inhabited : Inhabited replay_dslot_t := populate (mk_dslot 0 0 0 false).
#[global] Instance dslot_eq_dec : EqDecision replay_dslot_t.
Proof. solve_decision. Defined.

Definition replay_deferred_init : replay_deferred_t :=
  mk_deferred (replicate REPLAY_DEFERRED_MAX (mk_dslot 0 0 0 false)) 0 0.

(** The first unused slot, or else the oldest one. *)
Fixpoint dslot_scan (slots : list replay_dslot_t) (now_s : Z) (n i oldest : nat) : bool * nat :=
  match n with
  | O => (false, oldest)
  | S n' =>
      let s := slots !!! i in
      if negb (ds_used s) then (true, i)
      else dslot_scan slots now_s n' (S i)
             (if (now_s ⊖ ds_seen_s s) >? (now_s ⊖ ds_seen_s (slots !!! oldest)) then i else oldest)
  end.

Definition dslot_alloc (d : replay_deferred_t) (now_s : Z) : option nat * replay_deferred_t :=
  let '(free, i) := dslot_scan (rd_slots d) now_s REPLAY_DEFERRED_MAX 0 0 in
  if free then (Some i, d)
  else if (now_s ⊖ ds_seen_s (rd_slots d !!! i)) <=? DEFERRED_TTL_S
  then (None, mk_deferred (rd_slots d) (rd_evictions d) (rd_evict_denied d ⊕ 1))
  else (Some i, mk_deferred (rd_slots d) (rd_evictions d ⊕ 1) (rd_evict_denied d)).

Definition dslot_match (src counter : Z) (s : replay_dslot_t) : bool :=
  ds_used s && (ds_src s =? src) && (ds_counter s =? counter).

(** [s->used = 1; s->src = src; s->counter = counter; s->seen_s = now_s;] *)
Definition dslot_set (d : replay_deferred_t) (i : nat) (src counter now_s : Z) : replay_deferred_t :=
  mk_deferred (<[i := mk_dslot src counter now_s true]> (rd_slots d))
    (rd_evictions d) (rd_evict_denied d).

Definition replay_deferred_accept (d : replay_deferred_t) (src counter sent_at_s now_s : Z)
    (timesync_ok : bool) : Z * replay_deferred_t :=
  if negb timesync_ok then (REPLAY_BELOW_WINDOW, d)
  else if sent_at_s >? (now_s ⊕ DEFERRED_SKEW_S) then (REPLAY_BELOW_WINDOW, d)
  else if (now_s >? sent_at_s) && ((now_s ⊖ sent_at_s) >? DEFERRED_TTL_S)
  then (REPLAY_BELOW_WINDOW, d)
  else
    match find_index (dslot_match src counter) (rd_slots d) with
    | Some _ => (REPLAY_REJECT_DUP, d)
    | None =>
        match dslot_alloc d now_s with
        | (None, d) => (REPLAY_BELOW_WINDOW, d)
        | (Some i, d) => (REPLAY_ACCEPT, dslot_set d i src counter now_s)
        end
    end.

Definition replay_deferred_mark_seen (d : replay_deferred_t) (src counter now_s : Z)
    : replay_deferred_t :=
  match find_index (dslot_match src counter) (rd_slots d) with
  | Some i =>
      let s := rd_slots d !!! i in
      mk_deferred (<[i := mk_dslot (ds_src s) (ds_counter s) now_s (ds_used s)]> (rd_slots d))
        (rd_evictions d) (rd_evict_denied d)
  | None =>
      match dslot_alloc d now_s with
      | (None, d) => d
      | (Some i, d) => dslot_set d i src counter now_s
      end
  end.

(** ** Allocation *)

Lemma dslot_scan_spec slots now_s n i o :
  let '(free, j) := dslot_scan slots now_s n i o in
  (free = true → ds_used (slots !!! j) = false ∧ (i ≤ j < i + n)%nat) ∧
  (free = false → (j = o ∨ (i ≤ j < i + n)%nat) ∧
     (∀ k, (i ≤ k < i + n)%nat → ds_used (slots !!! k) = true) ∧
     ∀ k, (k = o ∨ (i ≤ k < i + n)%nat) →
       now_s ⊖ ds_seen_s (slots !!! k) <= now_s ⊖ ds_seen_s (slots !!! j)).
Proof.
  revert i o; induction n as [|n IH]; intros i o; simpl.
  { split; [done|]. intros _. split_and!; [by left|intros; lia|]. intros k [->|?]; lia. }
  destruct (ds_used (slots !!! i)) eqn:Hu; simpl; [|split; [split; [done|lia]|done]].
  set (o' := if _ >? _ then i else o).
  assert (Ho : (o' = i ∨ o' = o) ∧
    now_s ⊖ ds_seen_s (slots !!! i) <= now_s ⊖ ds_seen_s (slots !!! o') ∧
    now_s ⊖ ds_seen_s (slots !!! o) <= now_s ⊖ ds_seen_s (slots !!! o'))
    by (unfold o'; split_if; conds; (split; [auto|lia])).
  clearbody o'. specialize (IH (S i) o'). destruct (dslot_scan _ _ _ _ _) as [[] j].
  - split; [|done]. intros _. destruct IH as [IH _]. destruct (IH eq_refl). split; [done|lia].
  - split; [done|]. intros _. destruct IH as [_ IH]. destruct (IH eq_refl) as (Hj & Hused & Hmax).
    destruct Ho as (Ho & Hi & Ho2). pose proof (Hmax o' ltac:(auto)). split_and!.
    + destruct Hj as [->|?]; [|right; lia]. destruct Ho as [->| ->]; [right; lia|by left].
    + intros k Hk. destruct (decide (k = i)) as [->|]; [done|]. apply Hused. lia.
    + intros k [->|Hk]; [lia|]. destruct (decide (k = i)) as [->|]; [lia|]. apply Hmax. right. lia.
Qed.

(** Only an unused slot or a record older than the TTL is handed out; a full
    table of records within the TTL refuses. *)
Lemma dslot_alloc_spec d now_s :
  length (rd_slots d) = REPLAY_DEFERRED_MAX →
  let '(r, d') := dslot_alloc d now_s in
  rd_slots d' = rd_slots d ∧
  match r with
  | Some i => (i < REPLAY_DEFERRED_MAX)%nat ∧
      (ds_used (rd_slots d !!! i) = true → now_s ⊖ ds_seen_s (rd_slots d !!! i) > DEFERRED_TTL_S)
  | None => Forall (λ s, ds_used s = true ∧ now_s ⊖ ds_seen_s s <= DEFERRED_TTL_S) (rd_slots d)
  end.
Proof.
  intros Hlen. unfold dslot_alloc.
  pose proof (dslot_scan_spec (rd_slots d) now_s REPLAY_DEFERRED_MAX 0 0) as H.
  destruct (dslot_scan _ _ _ _ _) as [[] i].
  - destruct H as [H _]. destruct (H eq_refl) as [Hu Hi]. split; [done|].
    split; [lia|congruence].
  - destruct H as [_ H]. destruct (H eq_refl) as (Hi & Hused & Hmax). split_if; conds; simpl.
    + split; [done|]. apply Forall_lookup. intros k s Hk.
      pose proof (lookup_lt_Some _ _ _ Hk). specialize (Hmax k ltac:(right; lia)).
      specialize (Hused k ltac:(lia)).
      rewrite (list_lookup_total_correct _ _ _ Hk) in Hmax, Hused. split; [done|lia].
    + split; [done|]. split; [|lia]. unfold REPLAY_DEFERRED_MAX in *. destruct Hi; lia.
Qed.

(** ** Traces *)

Inductive deferred_op :=
| DAccept (src counter sent_at_s now_s : Z) (timesync_ok : bool)
| DMark (src counter now_s : Z).

Definition dop_time (op : deferred_op) : Z :=
  match op with DAccept _ _ _ now _ => now | DMark _ _ now => now end.
Definition dop_step (d : replay_deferred_t) (op : deferred_op) : replay_deferred_t :=
  match op with
  | DAccept src c sent now ok => (replay_deferred_accept d src c sent now ok).2
  | DMark src c now => replay_deferred_mark_seen d src c now
  end.
Definition deferred_run (d : replay_deferred_t) (ops : list deferred_op) : replay_deferred_t :=
  foldl dop_step d ops.

(** The stamps of the operations do not decrease, starting from [t]. *)
Fixpoint in_order (t : Z) (ops : list deferred_op) : Prop :=
  match ops with
  | [] => True
  | op :: ops => t <= dop_time op ∧ is_u32 (dop_time op) ∧ in_order (dop_time op) ops
  end.
Definition end_time (t : Z) (ops : list deferred_op) : Z := foldl (λ _ op, dop_time op) t ops.

Definition deferred_wf (d : replay_deferred_t) : Prop :=
  length (rd_slots d) = REPLAY_DEFERRED_MAX.

(** The pair is on record with a stamp between [t0] and [t]. *)
Definition on_record (d : replay_deferred_t) (src c t0 t : Z) : Prop :=
  ∃ i s, rd_slots d !! i = Some s ∧ ds_used s = true ∧ ds_src s = src ∧ ds_counter s = c ∧
    t0 <= ds_seen_s s <= t.

(** A pair recorded at [t0] is still on record, or [t0] is past the TTL. *)
Definition guarded (d : replay_deferred_t) (src c t0 t : Z) : Prop :=
  on_record d src c t0 t ∨ t - t0 > DEFERRED_TTL_S.

Lemma on_record_later d src c t0 t t' :
  on_record d src c t0 t → t <= t' → on_record d src c t0 t'.
Proof. intros (i & s & ? & ? & ? & ? & ?) ?. exists i, s. split_and!; (done || lia). Qed.
Lemma guarded_later d src c t0 t t' : guarded d src c t0 t → t <= t' → guarded d src c t0 t'.
Proof. intros [?|?] ?; [left; by eapply on_record_later|right; lia]. Qed.

Lemma alloc_guarded d src c t0 t now src' c' i d' :
  deferred_wf d → is_u32 t0 → is_u32 now → t <= now →
  guarded d src c t0 t → dslot_alloc d now = (Some i, d') →
  guarded (dslot_set d' i src' c' now) src c t0 now.
Proof.
  intros Hwf Ht0 Hnow Hle Hg Ha. pose proof (dslot_alloc_spec d now Hwf) as Hs.
  rewrite Ha in Hs. destruct Hs as (Hsl & Hi & Hold).
  destruct Hg as [(j & s & Hj & Hu & Hsrc & Hc & Hseen)|?]; [|right; lia].
  destruct (decide (i = j)) as [->|Hne].
  - right. rewrite (list_lookup_total_correct _ _ _ Hj) in Hold. specialize (Hold Hu). cint.
  - left. exists j, s. simpl. rewrite Hsl, list_lookup_insert_ne by done.
    split_and!; (done || lia).
Qed.

Lemma dop_step_wf d op : deferred_wf d → deferred_wf (dop_step d op).
Proof.
  intros Hwf. unfold deferred_wf in *.
  assert (Ha : ∀ now, length (rd_slots (dslot_alloc d now).2) = REPLAY_DEFERRED_MAX).
  { intros now. pose proof (dslot_alloc_spec d now Hwf) as H.
    destruct (dslot_alloc d now) as [? ?]. destruct H as [Heq _]. simpl. by rewrite Heq. }
  destruct op as [src c sent now ok|src c now]; simpl; specialize (Ha now).
  - unfold replay_deferred_accept. repeat (split_if; [done|]).
    destruct (find_index _ _); [done|].
    destruct (dslot_alloc d now) as [[i|] d']; simpl in *; by rewrite ?length_insert.
  - unfold replay_deferred_mark_seen. destruct (find_index _ _); simpl; [by rewrite length_insert|].
    destruct (dslot_alloc d now) as [[i|] d']; simpl in *; by rewrite ?length_insert.
Qed.

Lemma dop_step_guarded d op src c t0 t :
  deferred_wf d → is_u32 t0 → is_u32 (dop_time op) → t <= dop_time op →
  guarded d src c t0 t → guarded (dop_step d op) src c t0 (dop_time op).
Proof.
  intros Hwf Ht0 Hnow Hle Hg. pose proof (guarded_later _ _ _ _ _ _ Hg Hle) as Hg'.
  assert (Hnone : ∀ now d', dslot_alloc d now = (None, d') → dop_time op = now →
    guarded d' src c t0 (dop_time op)).
  { intros now d' Ha <-. pose proof (dslot_alloc_spec d (dop_time op) Hwf) as Hs.
    rewrite Ha in Hs. destruct Hs as [Hsl _]. destruct Hg' as [(i & s & Hi & H)|?]; [|by right].
    left. exists i, s. by rewrite Hsl. }
  destruct op as [src' c' sent now ok|src' c' now]; simpl in *.
  - unfold replay_deferred_accept. repeat (split_if; [done|]).
    destruct (find_index _ _); [done|].
    destruct (dslot_alloc d now) as [[i|] d'] eqn:Ha; simpl; [|by eapply Hnone].
    by eapply (alloc_guarded d src c t0 t).
  - unfold replay_deferred_mark_seen. destruct (find_index _ _) as [i|] eqn:Hf.
    + apply find_index_Some in Hf as (s & Hi & Hm & _).
      destruct Hg' as [(j & s' & Hj & Hu & Hsrc & Hc & Hseen)|?]; [|by right]. left.
      rewrite (list_lookup_total_correct _ _ _ Hi).
      destruct (decide (i = j)) as [->|Hne].
      * assert (s = s') as -> by congruence.
        eexists j, _. simpl. rewrite list_lookup_insert_eq by (by eapply lookup_lt_Some).
        split_and!; [done|done|done|done|simpl; lia..].
      * exists j, s'. simpl. rewrite list_lookup_insert_ne by done. split_and!; (done || lia).
    + destruct (dslot_alloc d now) as [[i|] d'] eqn:Ha; simpl; [|by eapply Hnone].
      by eapply (alloc_guarded d src c t0 t).
Qed.

Lemma deferred_run_guarded ops : ∀ d src c t0 t,
  deferred_wf d → is_u32 t0 → in_order t ops → guarded d src c t0 t →
  deferred_wf (deferred_run d ops) ∧ guarded (deferred_run d ops) src c t0 (end_time t ops).
Proof.
  induction ops as [|op ops IH]; intros d src c t0 t Hwf Ht0 Hord Hg; [done|].
  destruct Hord as (Hle & Hu & Hord). simpl.
  apply IH; [by apply dop_step_wf|done|done|by eapply dop_step_guarded].
Qed.

Lemma deferred_run_wf ops d : deferred_wf d → deferred_wf (deferred_run d ops).
Proof. revert d; induction ops as [|op ops IH]; intros d H; [done|]. by apply IH, dop_step_wf. Qed.

Lemma deferred_init_wf : deferred_wf replay_deferred_init.
Proof. apply length_replicate. Qed.

(** A guarded pair is refused, whatever the claimed send time up to [t0]. *)
Lemma guarded_rejects d src c t0 t sent now ok :
  guarded d src c t0 t → 0 <= sent <= t0 → t <= now → is_u32 now →
  (replay_deferred_accept d src c sent now ok).1 ≠ REPLAY_ACCEPT.
Proof.
  intros Hg Hsent Hle Hnow. unfold replay_deferred_accept.
  split_if; [done|]. split_if; [done|]. split_if; [done|].
  destruct Hg as [(i & s & Hi & Hu & Hsrc & Hc & _)|Hold].
  - assert (is_Some (find_index (dslot_match src c) (rd_slots d))) as [k ->]; [|done].
    apply find_index_is_Some. exists s. split; [by eapply list_elem_of_lookup_2|].
    unfold dslot_match. by rewrite Hu, Hsrc, Hc, !Z.eqb_refl.
  - exfalso. unfold DEFERRED_TTL_S in *.
    assert (Hs : now ⊖ sent = now - sent) by cint.
    rewrite Hs in *. match goal with H : _ && _ = false |- _ => apply andb_false_iff in H as [?|?] end;
      conds; lia.
Qed.

Lemma accept_records d src c sent now ok :
  deferred_wf d → (replay_deferred_accept d src c sent now ok).1 = REPLAY_ACCEPT →
  on_record (replay_deferred_accept d src c sent now ok).2 src c now now.
Proof.
  intros Hwf. unfold replay_deferred_accept. repeat (split_if; [done|]).
  destruct (find_index _ _); [done|]. pose proof (dslot_alloc_spec d now Hwf) as Hs.
  destruct (dslot_alloc d now) as [[i|] d']; [|done]. destruct Hs as (Hsl & Hi & _). intros _.
  eexists i, _. simpl. rewrite Hsl, list_lookup_insert_eq by (rewrite Hwf; done).
  split_and!; [done..|simpl; lia|simpl; lia].
Qed.

(** ** Properties *)

(** Deferred acceptance never accepts a message twice: once (src, counter)
    is accepted with a send time not in the future, the same message is refused
    at every later time, after any operations of either kind in time order: its
    record is evicted only when the message itself has expired. *)
Theorem deferred_no_double_accept ops0 src c sent t0 ok ops now ok' :
  let d := deferred_run replay_deferred_init ops0 in
  is_u32 t0 → 0 <= sent <= t0 →
  (replay_deferred_accept d src c sent t0 ok).1 = REPLAY_ACCEPT →
  in_order t0 ops → end_time t0 ops <= now → is_u32 now →
  (replay_deferred_accept
     (deferred_run (replay_deferred_accept d src c sent t0 ok).2 ops) src c sent now ok').1
    ≠ REPLAY_ACCEPT.
Proof.
  intros d Ht0 Hsent Hacc Hord Hend Hnow.
  assert (Hwf : deferred_wf d) by (apply deferred_run_wf, deferred_init_wf).
  pose proof (accept_records d src c sent t0 ok Hwf Hacc) as Hrec.
  pose proof (dop_step_wf d (DAccept src c sent t0 ok) Hwf) as Hwf'. simpl in Hwf'.
  destruct (deferred_run_guarded ops _ src c t0 t0 Hwf' Ht0 Hord (or_introl Hrec)) as [_ Hg].
  by eapply guarded_rejects.
Qed.

Lemma deferred_no_double_accept_witness :
  (replay_deferred_accept
     (deferred_run (replay_deferred_accept replay_deferred_init 1 5 900 1000 true).2
        [DMark 2 7 1100; DAccept 3 9 1150 1200 true]) 1 5 900 1300 true).1 ≠ REPLAY_ACCEPT.
Proof.
  apply (deferred_no_double_accept [] 1 5 900 1000 true [DMark 2 7 1100; DAccept 3 9 1150 1200 true]
    1300 true); try cint.
  - vm_compute. reflexivity.
  - simpl. cint.
  - simpl. lia.
Defined.

(** The deferred verdict is exact: a message is accepted iff the clock is
    trusted, its send time lies within [now - 24 h, now + 5 min], its pair is
    not on record, and some record is unused or older than the TTL. *)
Theorem deferred_verdict_exact d src c sent now ok :
  deferred_wf d → 0 <= sent → 0 <= now < 4294967296 - DEFERRED_SKEW_S →
  (replay_deferred_accept d src c sent now ok).1 = REPLAY_ACCEPT ↔
  ok = true ∧ now - DEFERRED_TTL_S <= sent <= now + DEFERRED_SKEW_S ∧
  (∀ s, s ∈ rd_slots d → ¬ (ds_used s = true ∧ ds_src s = src ∧ ds_counter s = c)) ∧
  ∃ s, s ∈ rd_slots d ∧ (ds_used s = false ∨ now ⊖ ds_seen_s s > DEFERRED_TTL_S).
Proof.
  intros Hwf Hsent Hnow. unfold replay_deferred_accept, DEFERRED_SKEW_S, DEFERRED_TTL_S in *.
  rewrite (u32_id (now + 300)) by cint.
  destruct ok; simpl; [|naive_solver].
  destruct (sent >? now + 300) eqn:E1; conds; [simpl; split; [done|lia]|].
  destruct ((now >? sent) && (now ⊖ sent >? 86400)) eqn:E2.
  { conds. simpl. split; [done|]. assert (now ⊖ sent = now - sent) by cint. lia. }
  assert (Hlow : now - 86400 <= sent).
  { apply andb_false_iff in E2 as [?|?]; conds; [lia|].
    destruct (decide (now < sent)); [lia|]. assert (now ⊖ sent = now - sent) by cint. lia. }
  destruct (find_index _ _) as [k|] eqn:Hf.
  { simpl. split; [done|]. intros (_ & _ & Hno & _). exfalso.
    apply find_index_Some in Hf as (s & Hs & Hm & _). unfold dslot_match in Hm. conds.
    apply (Hno s); [by eapply list_elem_of_lookup_2|done]. }
  assert (Hno : ∀ s, s ∈ rd_slots d → ¬ (ds_used s = true ∧ ds_src s = src ∧ ds_counter s = c)).
  { intros s Hs (Hu & Hsrc & Hc). apply find_index_None in Hf. rewrite Forall_forall in Hf.
    specialize (Hf s Hs). unfold dslot_match in Hf.
    by rewrite Hu, Hsrc, Hc, !Z.eqb_refl in Hf. }
  pose proof (dslot_alloc_spec d now Hwf) as Ha. unfold DEFERRED_TTL_S in Ha.
  destruct (dslot_alloc d now) as [[i|] d']; simpl.
  - split; [|done]. intros _. destruct Ha as (_ & Hi & Hold). split_and!; [done|lia|lia|done|].
    exists (rd_slots d !!! i). split.
    + eapply list_elem_of_lookup_2, list_lookup_lookup_total_lt. by rewrite Hwf.
    + destruct (ds_used _); [right; by apply Hold|by left].
  - split; [done|]. intros (_ & _ & _ & s & Hs & Hold). destruct Ha as [_ Ha].
    rewrite Forall_forall in Ha. destruct (Ha s Hs) as [Hu ?].
    destruct Hold as [?|?]; [congruence|lia].
Qed.

Lemma deferred_verdict_exact_witness :
  (replay_deferred_accept replay_deferred_init 1 5 900 1000 true).1 = REPLAY_ACCEPT.
Proof.
  apply (deferred_verdict_exact replay_deferred_init 1 5 900 1000 true).
  - apply deferred_init_wf.
  - lia.
  - unfold DEFERRED_SKEW_S. lia.
  - unfold DEFERRED_SKEW_S, DEFERRED_TTL_S. split_and!; [reflexivity|lia|lia| |].
    + intros s Hs. apply list_elem_of_lookup in Hs as (k & [-> _]%lookup_replicate). naive_solver.
    + exists (mk_dslot 0 0 0 false). split; [by left|by left].
Defined.

(** *** Where the TTL argument does not reach

    [dslot_alloc] recycles a record once it is older than [DEFERRED_TTL_S], on
    the grounds that the message would then be refused by its send time.  A
    message stamped up to [DEFERRED_SKEW_S] ahead of the local clock outlives
    its record by that skew; and [replay_deferred_mark_seen] on a full table
    records nothing. *)
Definition skew_fill : list deferred_op :=
  (λ k : nat, DAccept 2 (Z.of_nat k) 1000 1000 true) <$> seq 0 127.
Definition mark_fill : list deferred_op :=
  (λ k : nat, DMark 2 (Z.of_nat k) 1000) <$> seq 0 128.

(** Two traces in which a message is delivered twice.  First: accepted at
    1000 s with a send time of 1300 s, its record is recycled at 87401 s, when
    the same message is still within the TTL and is accepted again.  Second: a
    delivery through the window is not recorded because the table is full of
    records within the TTL, and one second later, the oldest having expired,
    the same message is accepted as deferred. *)
Theorem deferred_replay_gaps :
  (let '(v1, d1) := replay_deferred_accept replay_deferred_init 1 5 1300 1000 true in
   let d2 := deferred_run d1 (skew_fill ++ [DAccept 3 9 87401 87401 true]) in
   let '(v2, _) := replay_deferred_accept d2 1 5 1300 87401 true in
   v1 = REPLAY_ACCEPT ∧ v2 = REPLAY_ACCEPT) ∧
  (let d1 := deferred_run replay_deferred_init (mark_fill ++ [DMark 1 5 87400]) in
   let '(v, _) := replay_deferred_accept d1 1 5 87399 87401 true in
   v = REPLAY_ACCEPT).
Proof. vm_compute. done. Qed.
