(* ===== verification/NonceCounter.v ===== *)
(** * Nonce issuance ([components/nonce_counter])

    AEAD nonces are [src || boot salt || 48-bit counter].  The counter resumes
    from a ceiling kept in flash that is raised, and confirmed written, before
    any counter below it is issued.  The store is a parameter: the interface
    [NonceStore] states what the firmware's callbacks promise. *)

From stdpp Require Import base numbers sets option decidable list.
From S2P Require Import Prelude Tables.

Definition NONCE_RESERVE : Z := 65536.

(** The store behind the callbacks.  [store_read] is the value the read
    callback leaves in [*ceiling_out]; [store_write] returns the callback's
    status (true for 0) and the store after the call. *)
Class NonceStore (W : Type) := {
  ceiling_of : W → Z;
  store_read : W → Z;
  store_write : W → Z → bool * W;
}.

(** Documented behaviour: a read returns the stored ceiling; a confirmed write
    is stored; an unconfirmed one may or may not have landed. *)
Class NonceStoreLaws (W : Type) `{NonceStore W} := {
  store_read_ok w : store_read w = ceiling_of w;
  store_write_ok w c w' : store_write w c = (true, w') → ceiling_of w' = c;
  store_write_fail w c w' :
    store_write w c = (false, w') → ceiling_of w' = ceiling_of w ∨ ceiling_of w' = c;
}.

(** The file-scope statics; [s_wr] tells whether a write callback was given. *)
Record nonce_state := mk_nonce_state {
  s_src : Z; s_salt : Z; s_counter : Z; s_ceiling_durable : Z; s_wr : bool; s_ready : bool }.

(** Static initialisation: all zero. *)
Definition nonce_state_zero : nonce_state := mk_nonce_state 0 0 0 0 false false.

(** The 12 bytes written by [nonce_counter_next]. *)
Definition nonce_bytes (src salt c : Z) : list Z :=
  [u8 (src >> 24); u8 (src >> 16); u8 (src >> 8); u8 src; u8 (salt >> 8); u8 salt;
   u8 (c >> 40); u8 (c >> 32); u8 (c >> 24); u8 (c >> 16); u8 (c >> 8); u8 c].

Definition nonce_counter_extract (nonce : list Z) : Z :=
  let b i := nonce !!! i in
  Z.lor (Z.lor (Z.lor (Z.lor (Z.lor (b 6%nat << 40) (b 7%nat << 32)) (b 8%nat << 24))
    (b 9%nat << 16)) (b 10%nat << 8)) (b 11%nat).

Section Issue.
Context {W : Type} `{!NonceStore W}.

(** Without a write callback nothing can be confirmed durable. *)
Definition durable_write (has_wr : bool) (w : W) (ceiling : Z) : bool * W :=
  if has_wr then store_write w ceiling else (false, w).

Definition nonce_counter_init (st : nonce_state) (w : W) (src_addr boot_salt : Z)
    (has_rd has_wr : bool) : bool * nonce_state * W :=
  let ceiling := if has_rd then store_read w else 0 in
  let new_ceiling := u64 (ceiling + NONCE_RESERVE) in
  match durable_write has_wr w new_ceiling with
  | (false, w) =>
      (false,
       mk_nonce_state src_addr boot_salt (s_counter st) (s_ceiling_durable st) has_wr false, w)
  | (true, w) => (true, mk_nonce_state src_addr boot_salt ceiling new_ceiling has_wr true, w)
  end.

Definition nonce_counter_next (st : nonce_state) (w : W) : option (list Z) * nonce_state * W :=
  if negb (s_ready st) then (None, st, w)
  else
    let flush :=
      if s_counter st >=? s_ceiling_durable st then
        let new_ceiling := u64 (s_ceiling_durable st + NONCE_RESERVE) in
        match durable_write (s_wr st) w new_ceiling with
        | (false, w) => (false, s_ceiling_durable st, w)
        | (true, w) => (true, new_ceiling, w)
        end
      else (true, s_ceiling_durable st, w) in
    match flush with
    | (false, _, w) => (None, st, w)
    | (true, ceiling, w) =>
        let c := s_counter st in
        (Some (nonce_bytes (s_src st) (s_salt st) c),
         mk_nonce_state (s_src st) (s_salt st) (u64 (c + 1)) ceiling (s_wr st) true, w)
    end.

(** ** Traces

    Power cycles (the statics return to zero, the store stays), calls of
    [nonce_counter_init] and calls of [nonce_counter_next], in any order. *)
Inductive nonce_op := NReboot | NInit (src salt : Z) (has_wr : bool) | NNext.

Definition nonce_step (s : nonce_state * W * list (list Z)) (op : nonce_op)
    : nonce_state * W * list (list Z) :=
  let '(st, w, issued) := s in
  match op with
  | NReboot => (nonce_state_zero, w, issued)
  | NInit src salt has_wr =>
      let '(_, st, w) := nonce_counter_init st w src salt true has_wr in (st, w, issued)
  | NNext =>
      match nonce_counter_next st w with
      | (Some nonce, st, w) => (st, w, nonce :: issued)
      | (None, st, w) => (st, w, issued)
      end
  end.
Definition nonce_run (s : nonce_state * W * list (list Z)) (ops : list nonce_op) :=
  foldl nonce_step s ops.
End Issue.

(** ** Extraction *)

Definition is_u48 (c : Z) : Prop := 0 <= c < 281474976710656.

Lemma nonce_extract_bytes src salt c :
  is_u48 c → nonce_counter_extract (nonce_bytes src salt c) = c.
Proof.
  intros Hc. unfold nonce_counter_extract, nonce_bytes. cbn [lookup_total list_lookup_total].
  pose proof (shiftr_byte c 0 ltac:(lia)) as H0. pose proof (shiftr_byte c 8 ltac:(lia)) as H1.
  pose proof (shiftr_byte c 16 ltac:(lia)) as H2. pose proof (shiftr_byte c 24 ltac:(lia)) as H3.
  pose proof (shiftr_byte c 32 ltac:(lia)) as H4. pose proof (shiftr_byte c 40 ltac:(lia)) as H5.
  assert (c >> 48 = 0) as H6 by (rewrite shiftr_div by lia; apply Z.div_small; exact Hc).
  rewrite Z.shiftr_0_r in *.
  repeat match goal with
  | H : context [?a + 8] |- _ => let r := eval compute in (a + 8) in change (a + 8) with r in H
  end.
  pose proof (u8_range c) as R0. pose proof (u8_range (c >> 8)) as R1.
  pose proof (u8_range (c >> 16)) as R2. pose proof (u8_range (c >> 24)) as R3.
  pose proof (u8_range (c >> 32)) as R4. pose proof (u8_range (c >> 40)) as R5.
  generalize dependent (u8 c). generalize dependent (u8 (c >> 8)).
  generalize dependent (u8 (c >> 16)). generalize dependent (u8 (c >> 24)).
  generalize dependent (u8 (c >> 32)). generalize dependent (u8 (c >> 40)).
  intros. unfold is_u8 in *. rewrite !shiftl_mul by lia.
  rewrite (lor_disjoint _ (_ * 2 ^ 32) 40), (lor_disjoint _ (_ * 2 ^ 24) 32),
    (lor_disjoint _ (_ * 2 ^ 16) 24), (lor_disjoint _ (_ * 2 ^ 8) 16), (lor_disjoint _ _ 8);
    try lia;
    match goal with
    | |- _ mod _ = 0 => Z.to_euclidean_division_equations; lia
    end.
Qed.

(** ** The invariant *)

Section Proofs.
Context {W : Type} `{!NonceStore W} `{!NonceStoreLaws W}.

(** After [n] operations: the stored ceiling exceeds every issued counter, and
    while the component is ready the next counter exceeds them too. *)
Record nonce_inv (n : Z) (s : nonce_state * W * list (list Z)) : Prop := mk_nonce_inv {
  ni_ceiling : 0 <= ceiling_of s.1.2 <= n * NONCE_RESERVE;
  ni_issued : ∀ nonce, nonce ∈ s.2 →
    0 <= nonce_counter_extract nonce < ceiling_of s.1.2 ∧
    (s_ready s.1.1 = true → nonce_counter_extract nonce < s_counter s.1.1);
  ni_ready : s_ready s.1.1 = true →
    0 <= s_counter s.1.1 <= s_ceiling_durable s.1.1 ∧
    s_ceiling_durable s.1.1 <= ceiling_of s.1.2;
  ni_unique : NoDup (nonce_counter_extract <$> s.2) }.

Lemma durable_write_cases has_wr (w : W) c :
  (∃ w', durable_write has_wr w c = (true, w') ∧ ceiling_of w' = c) ∨
  (∃ w', durable_write has_wr w c = (false, w') ∧ (ceiling_of w' = ceiling_of w ∨ ceiling_of w' = c)).
Proof.
  unfold durable_write. destruct has_wr; [|right; eauto].
  destruct (store_write w c) as [[] w'] eqn:E.
  - left. eexists. split; [done|]. by eapply store_write_ok.
  - right. eexists. split; [done|]. by eapply store_write_fail.
Qed.

(** Small enough that ceilings stay below 2^48 and never wrap. *)
Definition few (n : Z) : Prop := 0 <= n < 4294967295.

Lemma few_ceiling n c : few n → 0 <= c <= n * NONCE_RESERVE →
  u64 (c + NONCE_RESERVE) = c + NONCE_RESERVE ∧ c + NONCE_RESERVE <= (n + 1) * NONCE_RESERVE.
Proof.
  unfold few, NONCE_RESERVE. intros Hn Hc. split; [|lia]. apply u64_id. unfold is_u64. lia.
Qed.

Lemma nonce_init_inv n st w issued src salt has_wr :
  few n → nonce_inv n (st, w, issued) →
  let '(_, st', w') := nonce_counter_init st w src salt true has_wr in
  nonce_inv (n + 1) (st', w', issued).
Proof.
  intros Hn [Hc Hi Hr Hu]. simpl in *. unfold nonce_counter_init. rewrite store_read_ok.
  destruct (few_ceiling n (ceiling_of w) Hn Hc) as [-> Hb].
  destruct (durable_write_cases has_wr w (ceiling_of w + NONCE_RESERVE))
    as [(w' & -> & Hw)|(w' & -> & Hw)]; constructor; simpl; try done.
  - rewrite Hw. unfold NONCE_RESERVE in *. lia.
  - rewrite Hw. intros nonce Hin. destruct (Hi nonce Hin) as [? _].
    unfold NONCE_RESERVE. split; [lia|]. intros _. lia.
  - intros _. unfold NONCE_RESERVE in *. lia.
  - unfold NONCE_RESERVE in *. destruct Hw as [-> | ->]; lia.
  - intros nonce Hin. destruct (Hi nonce Hin) as [? _]. split; [|done].
    unfold NONCE_RESERVE in *. destruct Hw as [-> | ->]; lia.
Qed.

(** Issuing one counter below a durable ceiling. *)
Lemma nonce_issue_inv n st (w : W) issued ceiling :
  few n → 0 <= s_counter st < ceiling → ceiling <= ceiling_of w →
  0 <= ceiling_of w <= (n + 1) * NONCE_RESERVE →
  (∀ nonce, nonce ∈ issued → 0 <= nonce_counter_extract nonce < s_counter st) →
  NoDup (nonce_counter_extract <$> issued) →
  nonce_inv (n + 1)
    (mk_nonce_state (s_src st) (s_salt st) (u64 (s_counter st + 1)) ceiling (s_wr st) true, w,
     nonce_bytes (s_src st) (s_salt st) (s_counter st) :: issued).
Proof.
  intros Hn Hc Hd Hw Hi Hu. unfold few, NONCE_RESERVE in *.
  assert (Hx : nonce_counter_extract (nonce_bytes (s_src st) (s_salt st) (s_counter st)) = s_counter st)
    by (apply nonce_extract_bytes; unfold is_u48; lia).
  assert (Hs : u64 (s_counter st + 1) = s_counter st + 1) by (apply u64_id; unfold is_u64; lia).
  constructor; simpl; rewrite ?Hs.
  - unfold NONCE_RESERVE; lia.
  - intros nonce [->|Hin]%list.elem_of_cons; [rewrite Hx; split; [lia|intros _; lia]|].
    specialize (Hi nonce Hin). split; [lia|intros _; lia].
  - intros _. lia.
  - rewrite Hx. apply list.NoDup_cons. split; [|done].
    intros (nonce & Heq & Hin)%list_elem_of_fmap. specialize (Hi nonce Hin). lia.
Qed.

Lemma nonce_inv_weaken n s : 0 <= n → nonce_inv n s → nonce_inv (n + 1) s.
Proof. intros Hn [H1 H2 H3 H4]. constructor; try done. unfold NONCE_RESERVE in *. lia. Qed.

Lemma nonce_next_inv n st w issued :
  few n → nonce_inv n (st, w, issued) →
  nonce_inv (n + 1) (nonce_step (st, w, issued) NNext).
Proof.
  intros Hn Hinv. pose proof Hinv as [Hc Hi Hr Hu]. simpl in *. unfold nonce_counter_next.
  destruct (s_ready st) eqn:Hrd; simpl; [|apply nonce_inv_weaken; [apply Hn|done]].
  destruct (Hr eq_refl) as (Hctr & Hdur).
  assert (Hi' : ∀ nonce, nonce ∈ issued → 0 <= nonce_counter_extract nonce < s_counter st).
  { intros nonce Hin. destruct (Hi nonce Hin) as [? ?]. naive_solver lia. }
  destruct (_ >=? _) eqn:Hge; conds.
  - destruct (few_ceiling n (s_ceiling_durable st) Hn ltac:(lia)) as [-> Hb].
    destruct (durable_write_cases (s_wr st) w (s_ceiling_durable st + NONCE_RESERVE))
      as [(w' & -> & Hw)|(w' & -> & Hw)].
    + apply nonce_issue_inv; try done; unfold NONCE_RESERVE in *; lia.
    + assert (ceiling_of w <= ceiling_of w' ∨ ceiling_of w' = s_ceiling_durable st + NONCE_RESERVE)
        as Hup by (destruct Hw; [left; lia|by right]).
      constructor; simpl; [| | |done].
      * unfold NONCE_RESERVE in *. destruct Hw as [-> | ->]; lia.
      * intros nonce Hin. specialize (Hi' nonce Hin). unfold NONCE_RESERVE in *.
        split; [destruct Hw as [-> | ->]; lia|intros _; lia].
      * intros _. unfold NONCE_RESERVE in *. destruct Hw as [-> | ->]; lia.
  - apply nonce_issue_inv; try done; unfold NONCE_RESERVE in *; lia.
Qed.

Lemma nonce_step_inv n s op : few n → nonce_inv n s → nonce_inv (n + 1) (nonce_step s op).
Proof.
  destruct s as [[st w] issued]. intros Hn Hinv. destruct op as [|src salt has_wr|].
  - pose proof Hinv as [H1 H2 H3 H4]. apply nonce_inv_weaken; [apply Hn|].
    constructor; simpl in *; try done. intros nonce Hin. split; [by apply H2|done].
  - pose proof (nonce_init_inv n st w issued src salt has_wr Hn Hinv) as H. simpl.
    by destruct (nonce_counter_init st w src salt true has_wr) as [[? ?] ?].
  - by apply nonce_next_inv.
Qed.

Lemma nonce_run_inv ops : ∀ n s, 0 <= n → n + Z.of_nat (length ops) <= 4294967295 →
  nonce_inv n s → nonce_inv (n + Z.of_nat (length ops)) (nonce_run s ops).
Proof.
  induction ops as [|op ops IH]; intros n s Hn Hlen Hinv; simpl in *.
  { by rewrite Z.add_0_r. }
  replace (n + Z.of_nat (S (length ops))) with ((n + 1) + Z.of_nat (length ops)) by lia.
  apply IH; [lia|lia|]. apply nonce_step_inv; [unfold few; lia|done].
Qed.

(** C2. Nonces are never reused: for any store whose reads never fail and which
    keeps confirmed writes (an unconfirmed write may or may not land), starting
    from an empty store,
    over any sequence of fewer than 2^32 power cycles, re-initialisations with
    any address and salt, failed writes and requests, no counter value and
    hence no nonce is issued twice, and the stored ceiling exceeds every issued
    counter. *)
Theorem nonces_never_reused (w0 : W) ops :
  ceiling_of w0 = 0 → Z.of_nat (length ops) < 4294967296 →
  let '(_, w, issued) := nonce_run (nonce_state_zero, w0, []) ops in
  NoDup issued ∧ NoDup (nonce_counter_extract <$> issued) ∧
  Forall (λ nonce, nonce_counter_extract nonce < ceiling_of w) issued.
Proof.
  intros Hw0 Hlen.
  assert (Hinv : nonce_inv 0 (nonce_state_zero, w0, [])).
  { constructor; simpl; [lia|set_solver|done|constructor]. }
  apply (nonce_run_inv ops) in Hinv; [|lia|lia].
  destruct (nonce_run _ ops) as [[st w] issued]. destruct Hinv as [_ Hi _ Hu]. simpl in *.
  split_and!; [by eapply NoDup_fmap_1|done|]. apply Forall_forall. intros nonce Hin.
  destruct (Hi nonce Hin). lia.
Qed.

(** Issuance is fail-closed and otherwise total: a request is refused only
    before a confirmed initialisation or when the flush it needs is not
    confirmed, a refused request changes no state of the component, and an
    issued nonce carries the address, the salt and the counter. *)
Theorem nonce_next_behaviour st (w : W) :
  let '(r, st', w') := nonce_counter_next st w in
  let needs_flush := s_counter st >=? s_ceiling_durable st in
  let confirmed := (durable_write (s_wr st) w (u64 (s_ceiling_durable st + NONCE_RESERVE))).1 in
  (r = None ↔ s_ready st = false ∨ (needs_flush = true ∧ confirmed = false)) ∧
  (r = None → st' = st) ∧
  (is_Some r → r = Some (nonce_bytes (s_src st) (s_salt st) (s_counter st)) ∧
     s_counter st' = u64 (s_counter st + 1) ∧
     ceiling_of w' = if needs_flush then s_ceiling_durable st' else ceiling_of w).
Proof.
  unfold nonce_counter_next. destruct (s_ready st) eqn:Hr; simpl.
  2:{ split_and!; [naive_solver|done|by intros []]. }
  destruct (_ >=? _).
  - destruct (durable_write_cases (s_wr st) w (u64 (s_ceiling_durable st + NONCE_RESERVE)))
      as [(w' & -> & Hw)|(w' & -> & _)]; simpl.
    + split_and!; naive_solver.
    + split_and!; [naive_solver|done|by intros []].
  - split_and!; naive_solver.
Qed.
End Proofs.

(** ** The firmware's callbacks ([main/mesh_persist.c])

    The ceiling lives in one NVS blob; [nvs_open], [nvs_get_blob],
    [nvs_set_blob] and [nvs_commit] may each fail.  Their results are the
    parameters of the two callbacks; [cell] is the stored blob, if any. *)

Definition mesh_nonce_read (open_ok get_ok : bool) (cell : option Z) : Z :=
  if negb open_ok then 0
  else match cell with
       | Some ceiling => if get_ok then ceiling else 0
       | None => 0
       end.

Definition mesh_nonce_write (open_ok set_ok commit_ok : bool) (cell : option Z) (ceiling : Z)
    : bool * option Z :=
  if negb open_ok then (false, cell)
  else if set_ok then (commit_ok, Some ceiling)
  else (false, cell).

(** A store with readable flash: each write takes the next outcome of the
    schedule and succeeds once the schedule is used up. *)
Record mesh_store := mk_mesh_store {
  ms_cell : option Z; ms_reads : list (bool * bool); ms_writes : list (bool * bool * bool) }.

Definition next_outcome {A} (dflt : A) (l : list A) : A * list A :=
  match l with [] => (dflt, []) | x :: l => (x, l) end.

Definition mesh_store_write (m : mesh_store) (c : Z) : bool * mesh_store :=
  let '((o, s, k), rest) := next_outcome (true, true, true) (ms_writes m) in
  let '(ok, cell) := mesh_nonce_write o s k (ms_cell m) c in
  (ok, mk_mesh_store cell (ms_reads m) rest).

Definition readable_store : Type := mesh_store.
#[global] Instance readable_store_ops : NonceStore readable_store := {
  ceiling_of m := default 0 (ms_cell m);
  store_read m := mesh_nonce_read true true (ms_cell m);
  store_write := mesh_store_write }.
#[global] Instance readable_store_laws : NonceStoreLaws readable_store.
Proof.
  split; unfold store_read, store_write, ceiling_of; simpl.
  - intros w. unfold mesh_nonce_read. by destruct (ms_cell w).
  - intros w c w'. unfold mesh_store_write.
    destruct (next_outcome _ _) as [[[[] []] []] rest]; simpl; intros [= <-]; done.
  - intros w c w'. unfold mesh_store_write.
    destruct (next_outcome _ _) as [[[[] []] []] rest]; simpl; intros [= <-]; simpl; eauto.
Qed.

(** Writes that fail at [nvs_open], at [nvs_set_blob], and at [nvs_commit]
    after landing. *)
Definition flaky_writes : list (bool * bool * bool) :=
  [(true, true, false); (true, true, true); (true, false, true); (true, true, true)].

Lemma nonces_never_reused_witness :
  let '(_, w, issued) := nonce_run (W := readable_store)
    (nonce_state_zero, mk_mesh_store None [] flaky_writes, [])
    [NInit 1 2 true; NNext; NInit 1 2 true; NNext; NReboot; NInit 1 2 true; NInit 1 2 true; NNext] in
  NoDup issued ∧ length issued = 2%nat.
Proof.
  pose proof (nonces_never_reused (W := readable_store) (mk_mesh_store None [] flaky_writes)
    [NInit 1 2 true; NNext; NInit 1 2 true; NNext; NReboot; NInit 1 2 true; NInit 1 2 true; NNext]
    eq_refl ltac:(simpl; lia)) as H.
  destruct (nonce_run _ _) as [[st w] issued] eqn:E. destruct H as [H _]. split; [exact H|].
  vm_compute in E. injection E as _ _ <-. reflexivity.
Defined.

Lemma nonce_next_behaviour_witness :
  let '(r, st', _) := nonce_counter_next (W := readable_store)
    (mk_nonce_state 1 2 65536 65536 true true) (mk_mesh_store (Some 65536) [] [(false, true, true)]) in
  r = None ∧ st' = mk_nonce_state 1 2 65536 65536 true true.
Proof.
  pose proof (nonce_next_behaviour (W := readable_store)
    (mk_nonce_state 1 2 65536 65536 true true) (mk_mesh_store (Some 65536) [] [(false, true, true)])) as H.
  destruct (nonce_counter_next _ _) as [[r st'] w']. destruct H as (H1 & H2 & _).
  assert (r = None) as Hr by (apply H1; right; split; reflexivity).
  split; [exact Hr|exact (H2 Hr)].
Defined.

(** A store whose reads may fail too, as scheduled. *)
Definition unreadable_store : Type := mesh_store.
#[local] Instance unreadable_store_ops : NonceStore unreadable_store := {
  ceiling_of m := default 0 (ms_cell m);
  store_read m := let '((o, g), _) := next_outcome (true, true) (ms_reads m) in
                  mesh_nonce_read o g (ms_cell m);
  store_write := mesh_store_write }.

(** The read callback reports any failure as an empty store and
    [nonce_counter_init] ignores its status.  Three boots: the first issues
    counter 0, the second resumes at the stored ceiling, the third cannot read
    the flash: it lowers the stored ceiling and issues counter 0, and with the
    same salt the very same nonce, again. *)
Theorem nonce_read_failure_reissues :
  let boot reads cell := nonce_run (W := unreadable_store)
    (nonce_state_zero, mk_mesh_store cell reads [], []) [NInit 1 2 true; NNext] in
  let '(_, w1, issued1) := boot [] None in
  let '(_, w2, issued2) := boot [] (ms_cell w1) in
  let '(_, w3, issued3) := boot [(false, true)] (ms_cell w2) in
  nonce_counter_extract <$> issued2 = [65536] ∧
  ceiling_of w2 = 131072 ∧ ceiling_of w3 = 65536 ∧ issued3 = issued1.
Proof. vm_compute. done. Qed.
