(* ===== verification/Fragment.v ===== *)
(** * Fragmentation and reassembly ([components/fragment])

    A plaintext of up to four chunks of 154 bytes is sent as fragments; the
    receiver keeps up to four reassemblies, each a bitmask of received
    fragments and their bytes, for 30 seconds. *)

From stdpp Require Import base numbers sets option decidable list.
From S2P Require Import Prelude Tables.

Definition FRAG_MAX_PLAINTEXT : nat := 154.
Definition FRAG_MAX_FRAGMENTS : nat := 4.
Definition FRAG_MAX_REASSEMBLIES : nat := 4.
Definition FRAG_REASSEMBLY_TIMEOUT_MS : Z := 30000.
Definition FRAG_HEADER_SIZE : nat := 4.

Record frag_header_t := mk_frag_header {
  fh_frag_index : Z; fh_frag_total : Z; fh_message_id : Z }.
Record fragment_t := mk_fragment { fr_data : list Z; fr_len : nat }.
Record reassembly_slot_t := mk_rasm_slot {
  ra_message_id : Z; ra_total : Z; ra_received_mask : Z;
  ra_data : list (list Z); ra_frag_lens : list nat;
  ra_start_time : Z; ra_first_packet_id : Z; ra_active : bool }.
(** [reassembly_ctx_t] has the slot array as its only member. *)
Abbreviation reassembly_ctx_t := (list reassembly_slot_t).

Definition rasm_slot_zero : reassembly_slot_t :=
  mk_rasm_slot 0 0 0 (replicate FRAG_MAX_FRAGMENTS (replicate FRAG_MAX_PLAINTEXT 0))
    (replicate FRAG_MAX_FRAGMENTS 0%nat) 0 0 false.
#[global] Instance rasm_slot_inhabited : Inhabited reassembly_slot_t := populate rasm_slot_zero.
#[global] Instance fragment_inhabited : Inhabited fragment_t := populate (mk_fragment [] 0).

(** ** Splitting *)

Fixpoint split_loop (plaintext : list Z) (num_frags message_id : Z) (n : nat) (i : nat)
    (frags : list fragment_t) : option (list fragment_t) :=
  match n with
  | O => Some frags
  | S n' =>
      let offset := (i * FRAG_MAX_PLAINTEXT)%nat in
      let chunk := Nat.min (length plaintext - offset) FRAG_MAX_PLAINTEXT in
      f ← frags !! i;
      bytes ← rdn plaintext offset chunk;
      d ← wr (fr_data f) 0 [u8 (Z.of_nat i)];
      d ← wr d 1 [u8 num_frags];
      d ← wr d 2 [u8 (Z.land message_id 255)];
      d ← wr d 3 [u8 (Z.land (message_id >> 8) 255)];
      d ← wr d FRAG_HEADER_SIZE bytes;
      split_loop plaintext num_frags message_id n' (S i)
        (<[i := mk_fragment d (FRAG_HEADER_SIZE + chunk)]> frags)
  end.

(** [None] is an out-of-bounds access, [Some (None, _)] the [-1]. *)
Definition fragment_split (plaintext : list Z) (message_id : Z) (frags_out : list fragment_t)
    (max_frags : nat) : option (option nat * list fragment_t) :=
  if decide (length plaintext = 0%nat) then Some (None, frags_out)
  else
    let num_frags := ((length plaintext + FRAG_MAX_PLAINTEXT - 1) / FRAG_MAX_PLAINTEXT)%nat in
    if decide (FRAG_MAX_FRAGMENTS < num_frags ∨ max_frags < num_frags)%nat
    then Some (None, frags_out)
    else
      frags ← split_loop plaintext (Z.of_nat num_frags) message_id num_frags 0 frags_out;
      Some (Some num_frags, frags).

(** The receiver's reading of the header (main/mesh_task.c). *)
Definition frag_header_parse (data : list Z) : option frag_header_t :=
  b0 ← rd data 0; b1 ← rd data 1; b2 ← rd data 2; b3 ← rd data 3;
  Some (mk_frag_header b0 b1 (Z.lor b2 (u16 (b3 << 8)))).

(** ** Reassembly *)

Definition reassembly_init : reassembly_ctx_t := replicate FRAG_MAX_REASSEMBLIES rasm_slot_zero.

Definition rasm_for (message_id : Z) (s : reassembly_slot_t) : bool :=
  ra_active s && (ra_message_id s =? message_id).
Definition rasm_expired (now_ms : Z) (s : reassembly_slot_t) : bool :=
  (now_ms ⊖ ra_start_time s) >? FRAG_REASSEMBLY_TIMEOUT_MS.

Definition rasm_deactivate (s : reassembly_slot_t) : reassembly_slot_t :=
  mk_rasm_slot (ra_message_id s) (ra_total s) (ra_received_mask s) (ra_data s)
    (ra_frag_lens s) (ra_start_time s) (ra_first_packet_id s) false.
Definition rasm_open (s : reassembly_slot_t) (hdr : frag_header_t) (now_ms : Z)
    : reassembly_slot_t :=
  mk_rasm_slot (fh_message_id hdr) (fh_frag_total hdr) 0 (ra_data s)
    (replicate FRAG_MAX_FRAGMENTS 0%nat) now_ms (ra_first_packet_id s) true.

(** The tail of [reassembly_add] on the slot found or opened. *)
Definition rasm_store (s : reassembly_slot_t) (hdr : frag_header_t) (frag : list Z)
    (packet_id : Z) : option (Z * reassembly_slot_t) :=
  if negb (fh_frag_total hdr =? ra_total s) then Some (-1, s)
  else
    let first := if ra_received_mask s =? 0 then packet_id else ra_first_packet_id s in
    let idx := Z.to_nat (fh_frag_index hdr) in
    let bit := u8 (1 << fh_frag_index hdr) in
    if negb (Z.land (ra_received_mask s) bit =? 0)
    then Some (0, mk_rasm_slot (ra_message_id s) (ra_total s) (ra_received_mask s) (ra_data s)
                    (ra_frag_lens s) (ra_start_time s) first (ra_active s))
    else
      row ← ra_data s !! idx;
      row ← wr row 0 frag;
      let mask := Z.lor (ra_received_mask s) bit in
      let s := mk_rasm_slot (ra_message_id s) (ra_total s) mask (<[idx := row]> (ra_data s))
                 (<[idx := length frag]> (ra_frag_lens s)) (ra_start_time s) first (ra_active s) in
      let full_mask := u8 ((1 << ra_total s) - 1) in
      Some (if mask =? full_mask then 1 else 0, s).

Definition reassembly_add (ctx : reassembly_ctx_t) (hdr : frag_header_t) (frag : list Z)
    (now_ms packet_id : Z) : option (Z * reassembly_ctx_t) :=
  if fh_frag_index hdr >=? fh_frag_total hdr then Some (-1, ctx)
  else if fh_frag_total hdr >? Z.of_nat FRAG_MAX_FRAGMENTS then Some (-1, ctx)
  else if decide (FRAG_MAX_PLAINTEXT < length frag)%nat then Some (-1, ctx)
  else
    let store ctx i :=
      '(r, s) ← rasm_store (ctx !!! i) hdr frag packet_id; Some (r, <[i := s]> ctx) in
    match find_index (rasm_for (fh_message_id hdr)) ctx with
    | Some i =>
        if rasm_expired now_ms (ctx !!! i)
        then Some (-1, <[i := rasm_deactivate (ctx !!! i)]> ctx)
        else store ctx i
    | None =>
        match find_index (λ s, negb (ra_active s)) ctx with
        | Some i => store (<[i := rasm_open (ctx !!! i) hdr now_ms]> ctx) i
        | None => Some (-1, ctx)
        end
    end.

Definition total_len (s : reassembly_slot_t) : nat :=
  foldl Nat.add 0%nat (take (Z.to_nat (ra_total s)) (ra_frag_lens s)).

Fixpoint collect_loop (s : reassembly_slot_t) (n j offset : nat) (out : list Z)
    : option (list Z) :=
  match n with
  | O => Some out
  | S n' =>
      row ← ra_data s !! j;
      len ← ra_frag_lens s !! j;
      bytes ← rdn row 0 len;
      out ← wr out offset bytes;
      collect_loop s n' (S j) (offset + len) out
  end.

Definition reassembly_collect (ctx : reassembly_ctx_t) (message_id : Z) (out : list Z)
    (out_max : nat) : option (option nat * reassembly_ctx_t * list Z) :=
  match find_index (rasm_for message_id) ctx with
  | None => Some (None, ctx, out)
  | Some i =>
      let s := ctx !!! i in
      let full_mask := u8 (u32 ((1 << ra_total s) - 1)) in
      if (ra_total s =? 0) || negb (ra_received_mask s =? full_mask)
      then Some (None, ctx, out)
      else if decide (out_max < total_len s)%nat then Some (None, ctx, out)
      else
        out ← collect_loop s (Z.to_nat (ra_total s)) 0 0 out;
        Some (Some (total_len s), <[i := rasm_deactivate s]> ctx, out)
  end.

Definition reassembly_get_first_packet_id (ctx : reassembly_ctx_t) (message_id : Z) : Z :=
  match find_index (rasm_for message_id) ctx with
  | Some i => ra_first_packet_id (ctx !!! i)
  | None => 0
  end.

Definition reassembly_purge (ctx : reassembly_ctx_t) (now_ms : Z) : reassembly_ctx_t :=
  (λ s, if ra_active s && rasm_expired now_ms s then rasm_deactivate s else s) <$> ctx.

(** ** Messages and their chunks *)

Definition nfrags (pt : list Z) : nat :=
  ((length pt + FRAG_MAX_PLAINTEXT - 1) / FRAG_MAX_PLAINTEXT)%nat.
Definition chunk (pt : list Z) (j : nat) : list Z :=
  take FRAG_MAX_PLAINTEXT (drop (j * FRAG_MAX_PLAINTEXT) pt).

Definition sendable (pt : list Z) : Prop := (0 < length pt ≤ 616)%nat.

Lemma nfrags_bound pt : sendable pt → (0 < nfrags pt ≤ FRAG_MAX_FRAGMENTS)%nat.
Proof.
  intros [H1 H2]. unfold nfrags, FRAG_MAX_PLAINTEXT, FRAG_MAX_FRAGMENTS. split.
  - apply Nat.div_str_pos. lia.
  - apply Nat.lt_succ_r, Nat.Div0.div_lt_upper_bound. lia.
Qed.
Lemma nfrags_covers pt : (length pt ≤ nfrags pt * FRAG_MAX_PLAINTEXT)%nat.
Proof.
  unfold nfrags, FRAG_MAX_PLAINTEXT.
  pose proof (Nat.div_mod (length pt + 154 - 1) 154 ltac:(lia)).
  pose proof (Nat.mod_upper_bound (length pt + 154 - 1) 154 ltac:(lia)). lia.
Qed.
Lemma length_chunk pt j : (length (chunk pt j) ≤ FRAG_MAX_PLAINTEXT)%nat.
Proof. unfold chunk. rewrite length_take. lia. Qed.

(** The chunks in order are the plaintext. *)
Lemma concat_chunks pt n :
  concat (chunk pt <$> seq 0 n) = take (n * FRAG_MAX_PLAINTEXT) pt.
Proof.
  induction n as [|n IH]; [done|].
  rewrite seq_S, fmap_app, concat_app, IH. cbn [fmap list_fmap concat Nat.add].
  rewrite app_nil_r. unfold chunk. rewrite take_take_drop. f_equal. lia.
Qed.
Lemma concat_all_chunks pt : concat (chunk pt <$> seq 0 (nfrags pt)) = pt.
Proof. rewrite concat_chunks. apply take_ge, nfrags_covers. Qed.

(** ** Slots *)

(** The C arrays have their declared sizes. *)
Record slot_shape (s : reassembly_slot_t) : Prop := mk_slot_shape {
  sh_rows : length (ra_data s) = FRAG_MAX_FRAGMENTS;
  sh_row : Forall (λ r, length r = FRAG_MAX_PLAINTEXT) (ra_data s);
  sh_lens : length (ra_frag_lens s) = FRAG_MAX_FRAGMENTS;
  sh_len : Forall (λ l, l ≤ FRAG_MAX_PLAINTEXT)%nat (ra_frag_lens s);
  sh_total : ra_total s <= Z.of_nat FRAG_MAX_FRAGMENTS }.

Definition ctx_wf (ctx : reassembly_ctx_t) : Prop :=
  length ctx = FRAG_MAX_REASSEMBLIES ∧ Forall slot_shape ctx.

(** Fragment [j] of [pt] is stored in [s]. *)
Definition stored (pt : list Z) (s : reassembly_slot_t) (j : nat) : Prop :=
  ra_frag_lens s !! j = Some (length (chunk pt j)) ∧
  ∃ row, ra_data s !! j = Some row ∧ take (length (chunk pt j)) row = chunk pt j.

(** [s] is the reassembly of [pt] under [id], opened at [t0]. *)
Record holds_msg (id : Z) (pt : list Z) (t0 : Z) (s : reassembly_slot_t) : Prop := mk_holds {
  hm_active : ra_active s = true;
  hm_id : ra_message_id s = id;
  hm_total : ra_total s = Z.of_nat (nfrags pt);
  hm_start : ra_start_time s = t0;
  hm_mask0 : 0 <= ra_received_mask s;
  hm_mask : ∀ j, Z.testbit (ra_received_mask s) j = true →
    0 <= j < Z.of_nat (nfrags pt) ∧ stored pt s (Z.to_nat j) }.

Lemma rasm_slot_zero_shape : slot_shape rasm_slot_zero.
Proof. constructor; vm_compute; repeat constructor; done. Qed.
Lemma reassembly_init_wf : ctx_wf reassembly_init.
Proof. split; [done|]. apply Forall_replicate, rasm_slot_zero_shape. Qed.

Lemma rasm_deactivate_shape s : slot_shape s → slot_shape (rasm_deactivate s).
Proof. intros []. by constructor. Qed.
Lemma rasm_open_shape s hdr now :
  slot_shape s → fh_frag_total hdr <= Z.of_nat FRAG_MAX_FRAGMENTS →
  slot_shape (rasm_open s hdr now).
Proof.
  intros [] ?. constructor; simpl; try done. repeat constructor; unfold FRAG_MAX_PLAINTEXT; lia.
Qed.

(** A valid fragment index selects a row and a bit below the total. *)
Definition frag_ok (hdr : frag_header_t) (frag : list Z) : Prop :=
  0 <= fh_frag_index hdr < fh_frag_total hdr ∧
  fh_frag_total hdr <= Z.of_nat FRAG_MAX_FRAGMENTS ∧ (length frag ≤ FRAG_MAX_PLAINTEXT)%nat.

Lemma frag_bit hdr frag : frag_ok hdr frag →
  u8 (1 << fh_frag_index hdr) = 1 << fh_frag_index hdr.
Proof.
  intros (H1 & H2 & _). unfold FRAG_MAX_FRAGMENTS in *.
  assert (fh_frag_index hdr = 0 ∨ fh_frag_index hdr = 1 ∨ fh_frag_index hdr = 2 ∨
          fh_frag_index hdr = 3) as Hi by lia.
  by destruct Hi as [->|[->|[->| ->]]].
Qed.

(** [rasm_store] never leaves the arrays. *)
Lemma rasm_store_safe s hdr frag pid :
  slot_shape s → frag_ok hdr frag →
  ∃ r s', rasm_store s hdr frag pid = Some (r, s') ∧ slot_shape s' ∧
    ra_message_id s' = ra_message_id s ∧ ra_active s' = ra_active s.
Proof.
  intros Hs Hf. pose proof Hs as [H1 H2 H3 H4 H5]. pose proof Hf as (Hi & Ht & Hl).
  unfold rasm_store. split_if; [eexists _, _; split_and!; (done || by constructor)|].
  split_if; [eexists _, _; split_and!; (done || by constructor)|].
  destruct (lookup_lt_is_Some_2 (ra_data s) (Z.to_nat (fh_frag_index hdr))) as [row Hrow];
    [rewrite H1; lia|].
  rewrite Hrow. cbn [mbind option_bind].
  pose proof (Forall_lookup_1 _ _ _ _ H2 Hrow) as Hrl.
  destruct (wr_is_Some row 0 frag) as (row' & -> & Hrow'); [simpl in *; lia|].
  cbn [mbind option_bind]. eexists _, _. split_and!; [done| |done|done].
  constructor; simpl; rewrite ?length_insert; try done.
  - apply Forall_insert; [done|]. by rewrite Hrow'.
  - by apply Forall_insert.
Qed.

(** Storing genuine fragment [j] of [pt] adds bit [j] and its bytes. *)
Lemma rasm_store_genuine id pt t0 s hdr frag pid :
  slot_shape s → frag_ok hdr frag → holds_msg id pt t0 s →
  fh_frag_total hdr = Z.of_nat (nfrags pt) →
  frag = chunk pt (Z.to_nat (fh_frag_index hdr)) →
  ∃ r s', rasm_store s hdr frag pid = Some (r, s') ∧ holds_msg id pt t0 s' ∧
    (∀ k, 0 <= k → Z.testbit (ra_received_mask s') k =
       Z.testbit (ra_received_mask s) k || (k =? fh_frag_index hdr)) ∧
    (r = 1 ↔ Z.testbit (ra_received_mask s) (fh_frag_index hdr) = false ∧
       ra_received_mask s' = Z.ones (Z.of_nat (nfrags pt))).
Proof.
  intros Hs Hf Hm Htot Hfrag. pose proof Hs as [H1 H2 H3 H4 H5]. pose proof Hf as (Hi & Ht & Hl).
  pose proof Hm as [Ha Hid Htt Hst Hm0 Hmask].
  unfold rasm_store. rewrite Htt, Htot, Z.eqb_refl. cbn [negb].
  rewrite (frag_bit _ _ Hf), land_one_shl, negb_involutive by lia.
  set (j := fh_frag_index hdr) in *.
  destruct (Z.testbit (ra_received_mask s) j) eqn:Hbit.
  { eexists _, _. split_and!; [done|by constructor| |].
    - intros k Hk. simpl. destruct (k =? j) eqn:E; conds; [subst; by rewrite Hbit|by rewrite orb_false_r].
    - split; [done|]. intros [? _]. done. }
  destruct (lookup_lt_is_Some_2 (ra_data s) (Z.to_nat j)) as [row Hrow]; [rewrite H1; lia|].
  rewrite Hrow. cbn [mbind option_bind].
  pose proof (Forall_lookup_1 _ _ _ _ H2 Hrow) as Hrl. cbv beta in Hrl.
  rewrite <- (filled_nil row), wr_filled by (simpl; lia). cbn [mbind option_bind app].
  eexists _, _. split_and!; [done| | |].
  - constructor; simpl; try done; [by apply Z.lor_nonneg; split; [|apply Z.shiftl_nonneg]|].
    intros k. rewrite Z.lor_spec, testbit_one_shl, orb_true_iff, Z.eqb_eq by lia.
    unfold stored; simpl. destruct (decide (k = j)) as [->|Hkj].
    + intros _. split; [lia|]. rewrite !list_lookup_insert_eq by lia.
      rewrite <- Hfrag. split; [done|]. eexists. split; [done|]. apply take_app_length.
    + intros [Hk|?]; [|done]. destruct (Hmask k Hk) as (Hkn & Hlen & row' & Hrow' & Htake).
      split; [done|]. rewrite !list_lookup_insert_ne by lia. eauto.
  - intros k Hk. simpl. by rewrite Z.lor_spec, testbit_one_shl by lia.
  - simpl. assert (Hfull : u8 ((1 << Z.of_nat (nfrags pt)) - 1) = Z.ones (Z.of_nat (nfrags pt))).
    { rewrite Z.ones_equiv, Z.shiftl_1_l. rewrite <- Z.sub_1_r.
      assert (nfrags pt = 1 ∨ nfrags pt = 2 ∨ nfrags pt = 3 ∨ nfrags pt = 4)%nat as Hn
        by (unfold FRAG_MAX_FRAGMENTS in *; lia).
      by destruct Hn as [->|[->|[->| ->]]]. }
    rewrite Hfull. split_if; conds; split; try done. intros [_ ?]. done.
Qed.

(** ** The context *)

(** Slot [i] is the only active slot for [id] and reassembles [pt]. *)
Record tracks (ctx : reassembly_ctx_t) (i : nat) (id : Z) (pt : list Z) (t0 : Z)
    (s : reassembly_slot_t) : Prop := mk_tracks {
  tr_slot : ctx !! i = Some s;
  tr_holds : holds_msg id pt t0 s;
  tr_only : ∀ k s', ctx !! k = Some s' → rasm_for id s' = true → k = i }.

Lemma find_index_unique {A} (f : A → bool) (l : list A) i x :
  l !! i = Some x → f x = true → (∀ k y, l !! k = Some y → f y = true → k = i) →
  find_index f l = Some i.
Proof.
  intros Hi Hx Hu. destruct (find_index f l) as [k|] eqn:E.
  - apply find_index_Some in E as (y & Hy & Hf & _). f_equal. by eapply Hu.
  - apply find_index_None in E. eapply Forall_lookup_1 in E; [|done]. congruence.
Qed.

Lemma holds_rasm_for id pt t0 s : holds_msg id pt t0 s → rasm_for id s = true.
Proof. intros []. unfold rasm_for. by rewrite hm_active0, hm_id0, Z.eqb_refl. Qed.

Lemma tracks_find ctx i id pt t0 s :
  tracks ctx i id pt t0 s → find_index (rasm_for id) ctx = Some i.
Proof.
  intros [Hs Hh Hu]. eapply find_index_unique; [done|by eapply holds_rasm_for|done].
Qed.

(** Replacing another slot by one that is not for [id] keeps the tracking. *)
Lemma tracks_other ctx i id pt t0 s k s' :
  tracks ctx i id pt t0 s → k ≠ i → rasm_for id s' = false →
  tracks (<[k := s']> ctx) i id pt t0 s.
Proof.
  intros [Hs Hh Hu] Hk Hf. constructor; [by rewrite list_lookup_insert_ne|done|].
  intros k' y Hy Hfy. apply list_lookup_insert_Some in Hy as [(<- & <- & _)|[_ Hy]]; [congruence|].
  by eapply Hu.
Qed.
Lemma tracks_same ctx i id pt t0 s s' :
  tracks ctx i id pt t0 s → holds_msg id pt t0 s' → tracks (<[i := s']> ctx) i id pt t0 s'.
Proof.
  intros [Hs Hh Hu] Hh'. constructor; [|done|].
  - apply list_lookup_insert_eq. by eapply lookup_lt_Some.
  - intros k y Hy Hfy. destruct (decide (i = k)) as [->|]; [done|].
    rewrite list_lookup_insert_ne in Hy by done. by eapply Hu.
Qed.

Lemma ctx_wf_insert ctx i s : ctx_wf ctx → slot_shape s → ctx_wf (<[i := s]> ctx).
Proof. intros [H1 H2] Hs. split; [by rewrite length_insert|by apply Forall_insert]. Qed.
Lemma ctx_shape ctx i : ctx_wf ctx → (i < length ctx)%nat → slot_shape (ctx !!! i).
Proof.
  intros [_ H] Hi. eapply Forall_lookup_1; [done|]. by apply list_lookup_lookup_total_lt.
Qed.

(** ** Traces *)

Inductive frag_op :=
| FAdd (hdr : frag_header_t) (frag : list Z) (now_ms packet_id : Z)
| FPurge (now_ms : Z)
| FCollect (message_id : Z) (out : list Z).

Definition frag_step (ctx : reassembly_ctx_t) (op : frag_op) : option reassembly_ctx_t :=
  match op with
  | FAdd hdr frag now pid => snd <$> reassembly_add ctx hdr frag now pid
  | FPurge now => Some (reassembly_purge ctx now)
  | FCollect id out => snd ∘ fst <$> reassembly_collect ctx id out (length out)
  end.
Fixpoint frag_run (ctx : reassembly_ctx_t) (ops : list frag_op) : option reassembly_ctx_t :=
  match ops with
  | [] => Some ctx
  | op :: ops => ctx ← frag_step ctx op; frag_run ctx ops
  end.

(** [op] delivers fragment [j] of [pt] under [id]. *)
Definition delivers (id : Z) (pt : list Z) (op : frag_op) (j : nat) : Prop :=
  match op with
  | FAdd hdr frag _ _ => fh_message_id hdr = id ∧ fh_frag_total hdr = Z.of_nat (nfrags pt) ∧
      fh_frag_index hdr = Z.of_nat j ∧ (j < nfrags pt)%nat ∧ frag = chunk pt j
  | _ => False
  end.

(** What may happen while the message is in flight, within 30 s of [t0]:
    its own fragments in any order and number, fragments under its id with
    another total, and anything at all for other ids. *)
Definition tolerated (id : Z) (pt : list Z) (t0 : Z) (op : frag_op) : Prop :=
  match op with
  | FAdd hdr frag now pid => 0 <= fh_frag_index hdr ∧
      (fh_message_id hdr = id → now ⊖ t0 <= FRAG_REASSEMBLY_TIMEOUT_MS ∧
         (fh_frag_total hdr = Z.of_nat (nfrags pt) → ∃ j, delivers id pt op j))
  | FPurge now => now ⊖ t0 <= FRAG_REASSEMBLY_TIMEOUT_MS
  | FCollect mid _ => mid ≠ id
  end.

(** [reassembly_add] stays within the arrays on any fragment. *)
Lemma reassembly_add_safe ctx hdr frag now pid :
  ctx_wf ctx → 0 <= fh_frag_index hdr →
  ∃ r ctx', reassembly_add ctx hdr frag now pid = Some (r, ctx') ∧ ctx_wf ctx'.
Proof.
  intros Hwf Hi. unfold reassembly_add.
  split_if; [eauto|]. split_if; [eauto|]. case_decide; [eauto|]. conds.
  assert (Hf : frag_ok hdr frag) by (split_and!; [lia|lia|lia|lia]).
  destruct (find_index (rasm_for _) ctx) as [i|] eqn:E.
  - pose proof (find_index_lt _ _ _ E) as Hlt. pose proof (ctx_shape _ _ Hwf Hlt) as Hs.
    split_if; [eexists _, _; split; [done|apply ctx_wf_insert; [done|by apply rasm_deactivate_shape]]|].
    destruct (rasm_store_safe _ hdr frag pid Hs Hf) as (r & s' & -> & Hs' & _).
    cbn [mbind option_bind]. eexists _, _. split; [done|]. by apply ctx_wf_insert.
  - destruct (find_index (λ s, negb _) ctx) as [i|] eqn:E2; [|eauto].
    pose proof (find_index_lt _ _ _ E2) as Hlt.
    pose proof (rasm_open_shape _ hdr now (ctx_shape _ _ Hwf Hlt) ltac:(apply Hf)) as Hs.
    cbv zeta beta. rewrite list_lookup_total_insert_eq by done.
    destruct (rasm_store_safe _ hdr frag pid Hs Hf) as (r & s' & -> & Hs' & _).
    cbn [mbind option_bind]. eexists _, _. split; [done|]. by repeat apply ctx_wf_insert.
Qed.

Lemma rasm_for_ne id id' s : rasm_for id' s = true → id' ≠ id → rasm_for id s = false.
Proof.
  unfold rasm_for. intros H Hne. conds. rewrite H. simpl. apply Z.eqb_neq. lia.
Qed.

(** A fragment under another id leaves the message's slot alone. *)
Lemma reassembly_add_other ctx i id pt t0 s hdr frag now pid r ctx' :
  ctx_wf ctx → tracks ctx i id pt t0 s → 0 <= fh_frag_index hdr → fh_message_id hdr ≠ id →
  reassembly_add ctx hdr frag now pid = Some (r, ctx') → tracks ctx' i id pt t0 s.
Proof.
  intros Hwf Htr Hi Hne. unfold reassembly_add.
  split_if; [congruence|]. split_if; [congruence|]. case_decide; [congruence|]. conds.
  assert (Hf : frag_ok hdr frag) by (split_and!; [lia|lia|lia|lia]).
  pose proof Htr as [Hs Hh Hu]. pose proof (holds_rasm_for _ _ _ _ Hh) as Hfor.
  destruct (find_index (rasm_for _) ctx) as [k|] eqn:E.
  - pose proof (find_index_lt _ _ _ E) as Hlt. pose proof (ctx_shape _ _ Hwf Hlt) as Hsh.
    apply find_index_Some in E as (sk & Hk & Hfk & _).
    rewrite (list_lookup_total_correct _ _ _ Hk) in *.
    pose proof (rasm_for_ne id _ _ Hfk Hne) as Hno.
    assert (k ≠ i) by (intros ->; congruence).
    split_if.
    + intros [= _ <-]. by apply tracks_other.
    + destruct (rasm_store_safe _ hdr frag pid Hsh Hf) as (r' & s' & -> & _ & Hid & Hac).
      cbn [mbind option_bind]. intros [= _ <-]. apply tracks_other; [done|done|].
      unfold rasm_for in *. by rewrite Hid, Hac.
  - destruct (find_index (λ s, negb _) ctx) as [k|] eqn:E2; [|congruence].
    pose proof (find_index_lt _ _ _ E2) as Hlt.
    apply find_index_Some in E2 as (sk & Hk & Hfk & _). conds.
    pose proof (rasm_open_shape _ hdr now (ctx_shape _ _ Hwf Hlt) ltac:(apply Hf)) as Hsh.
    cbv zeta beta. rewrite list_lookup_total_insert_eq by done.
    destruct (rasm_store_safe _ hdr frag pid Hsh Hf) as (r' & s' & -> & _ & Hid & Hac).
    cbn [mbind option_bind]. rewrite list_insert_insert_eq. intros [= _ <-].
    apply tracks_other; [done| |].
    + intros ->. destruct Hh. congruence.
    + unfold rasm_for. rewrite Hid. simpl. rewrite andb_comm.
      by rewrite (proj2 (Z.eqb_neq _ _) Hne).
Qed.

(** A fragment under the message's own id. *)
Lemma reassembly_add_own ctx i id pt t0 s hdr frag now pid :
  ctx_wf ctx → tracks ctx i id pt t0 s → 0 <= fh_frag_index hdr →
  tolerated id pt t0 (FAdd hdr frag now pid) → fh_message_id hdr = id →
  ∃ r ctx' s', reassembly_add ctx hdr frag now pid = Some (r, ctx') ∧
    tracks ctx' i id pt t0 s' ∧
    (∀ k, Z.testbit (ra_received_mask s) k = true → Z.testbit (ra_received_mask s') k = true) ∧
    (∀ j, delivers id pt (FAdd hdr frag now pid) j →
       Z.testbit (ra_received_mask s') (Z.of_nat j) = true) ∧
    (r = 1 → ra_received_mask s' = Z.ones (Z.of_nat (nfrags pt))).
Proof.
  intros Hwf Htr Hi [_ Htol] Hid. destruct (Htol Hid) as [Hnow Hgen]. clear Htol.
  pose proof Htr as [Hs Hh Hu]. pose proof Hh as [Ha Hid' Htt Hst Hm0 Hmask].
  unfold reassembly_add. rewrite Hid.
  assert (Hkeep : ∀ r, r ≠ 1 → (∀ j, ¬ delivers id pt (FAdd hdr frag now pid) j) →
    ∃ r' ctx' s', Some (r, ctx) = Some (r', ctx') ∧ tracks ctx' i id pt t0 s' ∧
      (∀ k, Z.testbit (ra_received_mask s) k = true → Z.testbit (ra_received_mask s') k = true) ∧
      (∀ j, delivers id pt (FAdd hdr frag now pid) j →
         Z.testbit (ra_received_mask s') (Z.of_nat j) = true) ∧
      (r' = 1 → ra_received_mask s' = Z.ones (Z.of_nat (nfrags pt)))).
  { intros r Hr Hno. eexists _, _, s. split_and!; [done|done|done| |done].
    intros j Hj. by destruct (Hno j). }
  pose proof (Forall_lookup_1 _ _ _ _ (proj2 Hwf) Hs) as Hsh. pose proof (sh_total _ Hsh) as Hmax.
  split_if; conds.
  { apply Hkeep; [done|]. intros j (_ & ? & ? & ? & _). lia. }
  split_if; conds.
  { apply Hkeep; [done|]. intros j (_ & ? & ? & ? & _). lia. }
  case_decide as Hlen.
  { apply Hkeep; [done|]. intros j (_ & _ & _ & _ & ->). pose proof (length_chunk pt j). lia. }
  assert (Hf : frag_ok hdr frag) by (split_and!; [lia|lia|lia|lia]).
  rewrite (tracks_find _ _ _ _ _ _ Htr). rewrite (list_lookup_total_correct _ _ _ Hs).
  assert (rasm_expired now s = false) as ->
    by (unfold rasm_expired; rewrite Hst, Z.gtb_ltb; apply Z.ltb_ge; done).
  destruct (decide (fh_frag_total hdr = Z.of_nat (nfrags pt))) as [Htot|Htot].
  - destruct (Hgen Htot) as (j & _ & _ & Hidx & Hj & Hfrag).
    destruct (rasm_store_genuine id pt t0 s hdr frag pid Hsh Hf Hh Htot) as (r & s' & -> & Hh' & Hb & Hr).
    { by rewrite Hidx, Nat2Z.id. }
    cbn [mbind option_bind]. eexists _, _, s'. split_and!; [done|by eapply tracks_same| | |].
    + intros k Hk. destruct (decide (0 <= k)); [rewrite Hb, Hk by done; done|].
      by rewrite Z.testbit_neg_r in Hk by lia.
    + intros j' (_ & _ & Hidx' & _). rewrite Hb, <- Hidx', Z.eqb_refl by lia. apply orb_true_r.
    + intros ->. by apply Hr.
  - unfold rasm_store. rewrite Htt, (proj2 (Z.eqb_neq _ _) Htot). cbn [negb mbind option_bind].
    eexists _, _, s. split_and!; [done|by eapply tracks_same|done| |done].
    intros j (_ & ? & _). done.
Qed.

(** ** Collecting *)

(** The stored bytes of fragments [j .. j+n). *)
Definition payload (s : reassembly_slot_t) (j n : nat) : list Z :=
  concat (zip_with take (take n (drop j (ra_frag_lens s))) (drop j (ra_data s))).

Lemma payload_S s j n row len :
  ra_data s !! j = Some row → ra_frag_lens s !! j = Some len →
  payload s j (S n) = take len row ++ payload s (S j) n.
Proof.
  intros Hr Hl. unfold payload. by rewrite (drop_S _ _ _ Hr), (drop_S _ _ _ Hl).
Qed.

Lemma slot_row s j : slot_shape s → (j < FRAG_MAX_FRAGMENTS)%nat →
  ∃ row len, ra_data s !! j = Some row ∧ ra_frag_lens s !! j = Some len ∧
    length row = FRAG_MAX_PLAINTEXT ∧ (len ≤ FRAG_MAX_PLAINTEXT)%nat.
Proof.
  intros [H1 H2 H3 H4 _] Hj.
  destruct (lookup_lt_is_Some_2 (ra_data s) j) as [row Hr]; [lia|].
  destruct (lookup_lt_is_Some_2 (ra_frag_lens s) j) as [len Hl]; [lia|].
  pose proof (Forall_lookup_1 _ _ _ _ H2 Hr). pose proof (Forall_lookup_1 _ _ _ _ H4 Hl). eauto 7.
Qed.

Lemma collect_loop_spec s n : ∀ j pre out,
  slot_shape s → (j + n ≤ FRAG_MAX_FRAGMENTS)%nat →
  (length pre + length (payload s j n) ≤ length out)%nat →
  collect_loop s n j (length pre) (filled pre out) = Some (filled (pre ++ payload s j n) out).
Proof.
  induction n as [|n IH]; intros j pre out Hs Hj Hlen; simpl.
  { unfold payload. simpl. by rewrite app_nil_r. }
  destruct (slot_row s j Hs ltac:(lia)) as (row & len & Hr & Hl & Hrow & Hle).
  rewrite (payload_S s j n row len) in * by done. rewrite Hr, Hl. cbn [mbind option_bind].
  rewrite rdn_some, drop_0 by lia. cbn [mbind option_bind].
  rewrite length_app, length_take in Hlen.
  rewrite wr_filled by (rewrite ?length_take; lia). cbn [mbind option_bind].
  replace (length pre + len)%nat with (length (pre ++ take len row))
    by (rewrite length_app, length_take; lia).
  rewrite IH; [by rewrite <- app_assoc|done|lia|]. rewrite length_app, length_take. lia.
Qed.

Lemma foldl_add_sum (l : list nat) a : foldl Nat.add a l = (a + sum_list l)%nat.
Proof. revert a; induction l as [|x l IH]; intros a; simpl; [lia|]. rewrite IH. lia. Qed.

Lemma length_payload s n : ∀ j,
  slot_shape s → (j + n ≤ FRAG_MAX_FRAGMENTS)%nat →
  length (payload s j n) = sum_list (take n (drop j (ra_frag_lens s))).
Proof.
  induction n as [|n IH]; intros j Hs Hj; [done|].
  destruct (slot_row s j Hs ltac:(lia)) as (row & len & Hr & Hl & Hrow & Hle).
  rewrite (payload_S s j n row len), length_app, length_take, IH by (done || lia).
  rewrite (drop_S _ _ _ Hl). simpl. lia.
Qed.

Lemma total_len_payload s :
  slot_shape s → total_len s = length (payload s 0 (Z.to_nat (ra_total s))).
Proof.
  intros Hs. unfold total_len. rewrite foldl_add_sum, length_payload; [done|done|].
  pose proof (sh_total _ Hs). unfold FRAG_MAX_FRAGMENTS in *. lia.
Qed.

(** What [reassembly_collect] returns for the slot it finds. *)
Lemma reassembly_collect_spec ctx i id out :
  ctx_wf ctx → find_index (rasm_for id) ctx = Some i →
  let s := ctx !!! i in
  reassembly_collect ctx id out (length out) =
    if decide (ra_total s ≠ 0 ∧ ra_received_mask s = u8 (u32 ((1 << ra_total s) - 1)) ∧
               (total_len s ≤ length out)%nat)
    then Some (Some (total_len s), <[i := rasm_deactivate s]> ctx,
               filled (payload s 0 (Z.to_nat (ra_total s))) out)
    else Some (None, ctx, out).
Proof.
  intros Hwf Hi s. unfold reassembly_collect. rewrite Hi. fold s.
  assert (Hs : slot_shape s) by (apply ctx_shape; [done|by eapply find_index_lt]).
  pose proof (sh_total _ Hs) as Hmax. unfold FRAG_MAX_FRAGMENTS in Hmax.
  destruct (ra_total s =? 0) eqn:E0; conds; simpl.
  { rewrite decide_False; [done|]. naive_solver. }
  destruct (ra_received_mask s =? _) eqn:E1; conds; simpl.
  2:{ rewrite decide_False; [done|]. naive_solver. }
  destruct (decide (length out < total_len s)%nat) as [Hlt|Hge].
  { rewrite decide_False; [done|]. intros (_ & _ & ?). lia. }
  rewrite decide_True by (split_and!; [done|done|lia]).
  rewrite <- (filled_nil out) at 1.
  pose proof (collect_loop_spec s (Z.to_nat (ra_total s)) 0 [] out Hs) as Hc.
  cbn [length] in Hc. rewrite Hc; [done|unfold FRAG_MAX_FRAGMENTS; lia|].
  rewrite <- total_len_payload by done. lia.
Qed.

Lemma reassembly_collect_safe ctx id out :
  ctx_wf ctx → ∃ r ctx' out', reassembly_collect ctx id out (length out) = Some (r, ctx', out') ∧
    ctx_wf ctx'.
Proof.
  intros Hwf. destruct (find_index (rasm_for id) ctx) as [i|] eqn:E.
  - rewrite (reassembly_collect_spec ctx i id out Hwf E). case_decide; [|eauto].
    eexists _, _, _. split; [done|]. apply ctx_wf_insert; [done|].
    apply rasm_deactivate_shape, ctx_shape; [done|by eapply find_index_lt].
  - unfold reassembly_collect. rewrite E. eauto.
Qed.

Lemma reassembly_collect_other ctx i id pt t0 s mid out r ctx' out' :
  ctx_wf ctx → tracks ctx i id pt t0 s → mid ≠ id →
  reassembly_collect ctx mid out (length out) = Some (r, ctx', out') → tracks ctx' i id pt t0 s.
Proof.
  intros Hwf Htr Hne. destruct (find_index (rasm_for mid) ctx) as [k|] eqn:E.
  - rewrite (reassembly_collect_spec ctx k mid out Hwf E). case_decide; [|congruence].
    intros [= _ <- _]. apply find_index_Some in E as (sk & Hk & Hfk & _).
    pose proof (rasm_for_ne id _ _ Hfk Hne) as Hno.
    apply tracks_other; [done| |done]. intros ->. destruct Htr as [Hs Hh _].
    pose proof (holds_rasm_for _ _ _ _ Hh). congruence.
  - unfold reassembly_collect. rewrite E. congruence.
Qed.

Lemma reassembly_purge_keeps ctx i id pt t0 s now :
  ctx_wf ctx → tracks ctx i id pt t0 s → now ⊖ t0 <= FRAG_REASSEMBLY_TIMEOUT_MS →
  ctx_wf (reassembly_purge ctx now) ∧ tracks (reassembly_purge ctx now) i id pt t0 s.
Proof.
  intros [Hl Hsh] [Hs Hh Hu] Hnow. unfold reassembly_purge. split.
  - split; [by rewrite length_fmap|]. apply Forall_fmap. eapply Forall_impl; [done|].
    intros x Hx. simpl. split_if; [by apply rasm_deactivate_shape|done].
  - constructor; [|done|].
    + rewrite list_lookup_fmap, Hs. simpl. unfold rasm_expired. destruct Hh. rewrite hm_start0.
      rewrite Z.gtb_ltb, (proj2 (Z.ltb_ge _ _)), andb_false_r by done. done.
    + intros k y (x & -> & Hx)%list_lookup_fmap_Some Hf. eapply Hu; [done|].
      revert Hf. split_if; done.
Qed.

(** ** Whole traces *)

Lemma frag_step_tracks ctx i id pt t0 s op :
  ctx_wf ctx → tracks ctx i id pt t0 s → tolerated id pt t0 op →
  ∃ ctx' s', frag_step ctx op = Some ctx' ∧ ctx_wf ctx' ∧ tracks ctx' i id pt t0 s' ∧
    (∀ k, Z.testbit (ra_received_mask s) k = true → Z.testbit (ra_received_mask s') k = true) ∧
    (∀ j, delivers id pt op j → Z.testbit (ra_received_mask s') (Z.of_nat j) = true).
Proof.
  intros Hwf Htr Htol. destruct op as [hdr frag now pid|now|mid out]; simpl.
  - pose proof Htol as [Hi _].
    destruct (reassembly_add_safe ctx hdr frag now pid Hwf Hi) as (r & ctx' & Hadd & Hwf').
    destruct (decide (fh_message_id hdr = id)) as [Hid|Hne].
    + destruct (reassembly_add_own _ _ _ _ _ _ _ _ _ _ Hwf Htr Hi Htol Hid)
        as (r' & ctx2 & s' & Hadd' & Htr' & Hm & Hd & _).
      rewrite Hadd' in *. injection Hadd as -> ->. eauto 8.
    + rewrite Hadd. eexists _, s. split_and!; [done|done| |done|];
        [exact (reassembly_add_other _ _ _ _ _ _ _ _ _ _ _ _ Hwf Htr Hi Hne Hadd)|].
      intros j (? & _). done.
  - destruct (reassembly_purge_keeps _ _ _ _ _ _ now Hwf Htr Htol). eexists _, s.
    split_and!; done.
  - destruct (reassembly_collect_safe ctx mid out Hwf) as (r & ctx' & out' & Hc & Hwf').
    rewrite Hc. eexists _, s. split_and!; [done|done| |done|done].
    exact (reassembly_collect_other _ _ _ _ _ _ _ _ _ _ _ Hwf Htr Htol Hc).
Qed.

Lemma frag_run_tracks ops : ∀ ctx i id pt t0 s,
  ctx_wf ctx → tracks ctx i id pt t0 s → Forall (tolerated id pt t0) ops →
  ∃ ctx' s', frag_run ctx ops = Some ctx' ∧ ctx_wf ctx' ∧ tracks ctx' i id pt t0 s' ∧
    (∀ k, Z.testbit (ra_received_mask s) k = true → Z.testbit (ra_received_mask s') k = true) ∧
    (∀ op j, op ∈ ops → delivers id pt op j →
       Z.testbit (ra_received_mask s') (Z.of_nat j) = true).
Proof.
  induction ops as [|op ops IH]; intros ctx i id pt t0 s Hwf Htr Hops.
  { exists ctx, s. split_and!; try done. intros op j Hop. inversion Hop. }
  apply Forall_cons in Hops as [Hop Hops].
  destruct (frag_step_tracks ctx i id pt t0 s op Hwf Htr Hop) as (c1 & s1 & Hc1 & Hw1 & Ht1 & Hm1 & Hd1).
  destruct (IH c1 i id pt t0 s1 Hw1 Ht1 Hops) as (c2 & s2 & Hc2 & Hw2 & Ht2 & Hm2 & Hd2).
  exists c2, s2. simpl. rewrite Hc1. cbn [mbind option_bind]. split_and!; [done|done|done|eauto|].
  intros op' j [->|Hin]%list.elem_of_cons Hj; eauto.
Qed.

(** The first fragment opens a slot. *)
Lemma reassembly_open ctx id pt hdr frag t0 pid j :
  ctx_wf ctx → sendable pt → (∀ k s, ctx !! k = Some s → rasm_for id s = false) →
  (∃ k s, ctx !! k = Some s ∧ ra_active s = false) →
  delivers id pt (FAdd hdr frag t0 pid) j →
  ∃ r ctx' i s, reassembly_add ctx hdr frag t0 pid = Some (r, ctx') ∧ ctx_wf ctx' ∧
    tracks ctx' i id pt t0 s ∧ Z.testbit (ra_received_mask s) (Z.of_nat j) = true.
Proof.
  intros Hwf Hpt Hno (k & sk & Hk & Hka) (Hid & Htot & Hidx & Hj & Hfrag).
  pose proof (nfrags_bound pt Hpt) as Hn. pose proof (length_chunk pt j) as Hlen.
  assert (Hf : frag_ok hdr frag) by (subst frag; split_and!; [lia|lia|lia|done]).
  assert (Hnone : find_index (rasm_for (fh_message_id hdr)) ctx = None).
  { apply find_index_None, Forall_lookup. intros i x Hx. rewrite Hid. by eapply Hno. }
  assert (is_Some (find_index (λ s, negb (ra_active s)) ctx)) as [i Hi].
  { apply find_index_is_Some. exists sk. split; [by eapply list_elem_of_lookup_2|by rewrite Hka]. }
  pose proof (find_index_lt _ _ _ Hi) as Hlt.
  set (s0 := rasm_open (ctx !!! i) hdr t0).
  assert (Hs0 : slot_shape s0) by (apply rasm_open_shape; [by apply ctx_shape|apply Hf]).
  assert (Hh0 : holds_msg id pt t0 s0).
  { constructor; simpl; try done. intros m Hm. by rewrite Z.bits_0 in Hm. }
  destruct (rasm_store_genuine id pt t0 s0 hdr frag pid Hs0 Hf Hh0 Htot) as (r & s1 & Hst & Hh1 & Hb & _).
  { by rewrite Hidx, Nat2Z.id. }
  destruct (rasm_store_safe s0 hdr frag pid Hs0 Hf) as (r' & s1' & Hst' & Hsh1 & _).
  rewrite Hst in Hst'. injection Hst' as <- <-.
  exists r, (<[i := s1]> ctx), i, s1. split_and!.
  - unfold reassembly_add. destruct Hf as (H1 & H2 & H3).
    rewrite Z.geb_leb, (proj2 (Z.leb_gt _ _)) by lia. rewrite Z.gtb_ltb, (proj2 (Z.ltb_ge _ _)) by done.
    rewrite decide_False by lia. rewrite Hnone, Hi. cbv zeta beta.
    rewrite list_lookup_total_insert_eq by done. fold s0. rewrite Hst. cbn [mbind option_bind].
    by rewrite list_insert_insert_eq.
  - by apply ctx_wf_insert.
  - constructor; [by apply list_lookup_insert_eq|done|].
    intros k' x Hx Hfx. apply list_lookup_insert_Some in Hx as [(<- & _ & _)|[_ Hx]]; [done|].
    rewrite (Hno _ _ Hx) in Hfx. done.
  - rewrite Hb, Hidx, Z.eqb_refl by lia. apply orb_true_r.
Qed.

(** With every bit set, the payload is the message. *)
Lemma full_payload id pt t0 s :
  sendable pt → slot_shape s → holds_msg id pt t0 s →
  (∀ j, (j < nfrags pt)%nat → Z.testbit (ra_received_mask s) (Z.of_nat j) = true) →
  ra_received_mask s = Z.ones (Z.of_nat (nfrags pt)) ∧ payload s 0 (nfrags pt) = pt.
Proof.
  intros Hpt Hsh Hh Hall. pose proof (nfrags_bound pt Hpt) as Hn. split.
  - apply Z.bits_inj'. intros k Hk. destruct (decide (k < Z.of_nat (nfrags pt))).
    + rewrite Z.ones_spec_low by lia. replace k with (Z.of_nat (Z.to_nat k)) by lia. apply Hall. lia.
    + rewrite Z.ones_spec_high by lia. destruct (Z.testbit _ k) eqn:E; [|done].
      apply (hm_mask _ _ _ _ Hh) in E. lia.
  - rewrite <- (concat_all_chunks pt) at 2.
    assert (Hgen : ∀ n j, (j + n ≤ nfrags pt)%nat → payload s j n = concat (chunk pt <$> seq j n)).
    { induction n as [|n IH]; intros j Hj; [done|].
      destruct (hm_mask _ _ _ _ Hh _ (Hall j ltac:(lia))) as (_ & Hlen & row & Hrow & Htk).
      rewrite Nat2Z.id in *. rewrite (payload_S s j n row _ Hrow Hlen), Htk, IH by lia. done. }
    by apply Hgen.
Qed.

(** ** Splitting, specified *)

Definition frag_hdr_bytes (i n id : Z) : list Z :=
  [u8 i; u8 n; u8 (Z.land id 255); u8 (Z.land (id >> 8) 255)].

(** The caller's array has room for 158 bytes in each fragment. *)
Definition frags_shape (frags : list fragment_t) : Prop :=
  Forall (λ f, length (fr_data f) = FRAG_HEADER_SIZE + FRAG_MAX_PLAINTEXT)%nat frags.

(** Fragment [i] as written. *)
Definition frag_written (pt : list Z) (n id : Z) (i : nat) (f : fragment_t) : Prop :=
  fr_len f = (FRAG_HEADER_SIZE + length (chunk pt i))%nat ∧
  take (fr_len f) (fr_data f) = frag_hdr_bytes (Z.of_nat i) n id ++ chunk pt i.

Lemma split_loop_spec pt num id n : ∀ i frags,
  frags_shape frags → (i + n ≤ length frags)%nat →
  (length pt ≤ (i + n) * FRAG_MAX_PLAINTEXT)%nat → ((i + n - 1) * FRAG_MAX_PLAINTEXT < length pt)%nat →
  ∃ frags', split_loop pt num id n i frags = Some frags' ∧ frags_shape frags' ∧
    length frags' = length frags ∧
    (∀ k, (k < i)%nat → frags' !! k = frags !! k) ∧
    (∀ k, (i ≤ k < i + n)%nat → ∃ f, frags' !! k = Some f ∧ frag_written pt num id k f).
Proof.
  induction n as [|n IH]; intros i frags Hsh Hlen Hub Hlb.
  { exists frags. split_and!; try done. intros k Hk. lia. }
  cbn [split_loop].
  destruct (lookup_lt_is_Some_2 frags i) as [f Hf]; [lia|]. rewrite Hf. cbn [mbind option_bind].
  pose proof (Forall_lookup_1 _ _ _ _ Hsh Hf) as Hfl. cbv beta in Hfl.
  set (m := Nat.min (length pt - i * FRAG_MAX_PLAINTEXT) FRAG_MAX_PLAINTEXT).
  assert (Hch : take m (drop (i * FRAG_MAX_PLAINTEXT) pt) = chunk pt i).
  { unfold chunk, m. destruct (decide (length pt - i * FRAG_MAX_PLAINTEXT ≤ FRAG_MAX_PLAINTEXT)%nat).
    - rewrite Nat.min_l by done. rewrite !take_ge by (rewrite length_drop; lia). done.
    - by rewrite Nat.min_r by lia. }
  assert (Hm : length (chunk pt i) = m).
  { rewrite <- Hch, length_take, length_drop. unfold m. lia. }
  assert (Hmb : (m ≤ FRAG_MAX_PLAINTEXT ∧ i * FRAG_MAX_PLAINTEXT + m ≤ length pt)%nat).
  { unfold m, FRAG_MAX_PLAINTEXT in *. nia. }
  rewrite rdn_some, Hch by lia. cbn [mbind option_bind].
  rewrite <- (filled_nil (fr_data f)). unfold FRAG_HEADER_SIZE in *.
  rewrite wr_filled by (simpl; lia). cbn [mbind option_bind app].
  rewrite wr_filled by (simpl; lia). cbn [mbind option_bind app].
  rewrite wr_filled by (simpl; lia). cbn [mbind option_bind app].
  rewrite wr_filled by (simpl; lia). cbn [mbind option_bind app].
  rewrite wr_filled by (simpl; lia). cbn [mbind option_bind].
  set (d := filled _ _). set (f' := mk_fragment d (4 + m)).
  assert (Hw : frag_written pt num id i f').
  { split; [simpl; unfold FRAG_HEADER_SIZE; lia|]. unfold f', d. cbn [fr_len fr_data].
    change ([u8 (Z.of_nat i); u8 num; u8 (Z.land id 255); u8 (Z.land (id >> 8) 255)] ++ chunk pt i)
      with (frag_hdr_bytes (Z.of_nat i) num id ++ chunk pt i).
    replace (4 + m)%nat with (length (frag_hdr_bytes (Z.of_nat i) num id ++ chunk pt i))
      by (rewrite length_app, Hm; done).
    apply take_app_length. }
  destruct (IH (S i) (<[i := f']> frags)) as (frags' & -> & Hsh' & Hl' & Hbef & Haft).
  - apply Forall_insert; [done|]. unfold f', d; cbn [fr_data]. rewrite length_filled; [done|].
    rewrite length_app, Hm. simpl. lia.
  - rewrite length_insert. lia.
  - lia.
  - replace (S i + n - 1)%nat with (i + S n - 1)%nat by lia. done.
  - exists frags'. split_and!; [done|done|by rewrite length_insert in Hl'| |].
    + intros k Hk. rewrite Hbef by lia. by rewrite list_lookup_insert_ne by lia.
    + intros k Hk. destruct (decide (k = i)) as [->|]; [|apply Haft; lia].
      exists f'. split; [|done]. rewrite Hbef by lia. apply list_lookup_insert_eq. lia.
Qed.

Lemma frag_header_parse_written pt n id i f :
  frag_written pt (Z.of_nat n) id i f → (i < n ≤ 4)%nat → is_u16 id →
  frag_header_parse (fr_data f) = Some (mk_frag_header (Z.of_nat i) (Z.of_nat n) id).
Proof.
  intros [Hlen Htk] Hi Hid. unfold frag_header_parse, rd.
  assert (Hl : ∀ k, (k < 4)%nat →
    fr_data f !! k = frag_hdr_bytes (Z.of_nat i) (Z.of_nat n) id !! k).
  { intros k Hk. rewrite <- (lookup_take_lt (fr_data f) (fr_len f)) by (rewrite Hlen; unfold FRAG_HEADER_SIZE; lia).
    rewrite Htk. by rewrite lookup_app_l by (simpl; lia). }
  rewrite !Hl by lia. cbn [frag_hdr_bytes lookup list_lookup mbind option_bind].
  rewrite (u8_id (Z.of_nat i)), (u8_id (Z.of_nat n)) by (unfold is_u8; lia).
  do 2 f_equal. change 255 with (Z.ones 8). rewrite !Z.land_ones by lia.
  change (2 ^ 8) with 256. rewrite !shiftr_div, shiftl_mul by lia.
  change (2 ^ 8) with 256.
  assert (Hs : u8 (id / 256 mod 256) = id / 256) by cint. rewrite Hs.
  assert (Hs' : u8 (id mod 256) = id mod 256) by cint. rewrite Hs'.
  rewrite u16_id by cint. rewrite Z.lor_comm, (lor_disjoint _ _ 8) by cint. cint.
Qed.

(** ** Properties *)

(** Splitting: a plaintext of 1 to 616 bytes yields [ceil(len / 154)]
    fragments, written within their 158-byte buffers, and the receiver's
    reading of fragment [j] is index [j] of that total under the message id
    with chunk [j] of the plaintext; an empty or longer plaintext, or too small
    an array, is refused and nothing is written. *)
Theorem fragment_split_correct pt id frags_out :
  frags_shape frags_out → (length frags_out ≤ 4)%nat → is_u16 id →
  if decide (sendable pt ∧ (nfrags pt ≤ length frags_out)%nat) then
    ∃ frags, fragment_split pt id frags_out (length frags_out) = Some (Some (nfrags pt), frags) ∧
      ∀ j now pid, (j < nfrags pt)%nat → ∃ f hdr, frags !! j = Some f ∧
        frag_header_parse (fr_data f) = Some hdr ∧
        delivers id pt (FAdd hdr (drop FRAG_HEADER_SIZE (take (fr_len f) (fr_data f))) now pid) j
  else fragment_split pt id frags_out (length frags_out) = Some (None, frags_out).
Proof.
  intros Hsh Hl Hid. unfold fragment_split. fold (nfrags pt).
  pose proof (nfrags_covers pt) as Hcov.
  case_decide as Hd.
  - destruct Hd as [Hpt Hn]. pose proof (nfrags_bound pt Hpt) as Hb. destruct Hpt as [Hp1 Hp2].
    rewrite decide_False by lia. rewrite decide_False by lia.
    assert (Hlow : ((0 + nfrags pt - 1) * FRAG_MAX_PLAINTEXT < length pt)%nat).
    { unfold nfrags, FRAG_MAX_PLAINTEXT.
      pose proof (Nat.div_mod (length pt + 154 - 1) 154 ltac:(lia)). lia. }
    destruct (split_loop_spec pt (Z.of_nat (nfrags pt)) id (nfrags pt) 0 frags_out Hsh)
      as (frags & -> & _ & _ & _ & Hw); [lia|done|done|].
    cbn [mbind option_bind]. eexists. split; [done|]. intros j now pid Hj.
    destruct (Hw j ltac:(lia)) as (f & Hf & Hfw).
    exists f, (mk_frag_header (Z.of_nat j) (Z.of_nat (nfrags pt)) id). split_and!; [done| |].
    + eapply frag_header_parse_written; [done| |done]. unfold FRAG_MAX_FRAGMENTS in *. lia.
    + destruct Hfw as [_ ->]. split_and!; done.
  - destruct (decide (length pt = 0%nat)) as [|H0]; [done|].
    rewrite decide_True; [done|]. unfold sendable, FRAG_MAX_FRAGMENTS, FRAG_MAX_PLAINTEXT in *.
    destruct (decide (length pt ≤ 616)%nat); [right|left]; lia.
Qed.

Lemma fragment_split_correct_witness :
  ∃ frags, fragment_split (replicate 200 7) 513 (replicate 4 (mk_fragment (replicate 158 0) 0)) 4 =
    Some (Some 2%nat, frags) ∧
    ∃ f hdr, frags !! 1%nat = Some f ∧ frag_header_parse (fr_data f) = Some hdr.
Proof.
  pose proof (fragment_split_correct (replicate 200 7) 513
    (replicate 4 (mk_fragment (replicate 158 0) 0))) as H.
  destruct H as (frags & Hs & Hf).
  - repeat constructor.
  - simpl. lia.
  - cint.
  - exists frags. split; [exact Hs|].
    destruct (Hf 1%nat 0 0) as (f & hdr & H1 & H2 & _); [vm_compute; lia|]. exists f, hdr.
    split; [exact H1|exact H2].
Defined.

(** C6. Reassembly: once a first fragment has opened a slot at [t0], and
    whatever else arrives in between (duplicates, reordering, other messages,
    fragments under this id with a forged total, purges and other collections,
    all within 30 s), when every fragment has arrived at least once the message
    is collected exactly, in any output buffer that is large enough. *)
Theorem reassembly_any_order id pt ctx hdr0 frag0 t0 pid0 ops out :
  let op0 := FAdd hdr0 frag0 t0 pid0 in
  sendable pt → ctx_wf ctx →
  (∀ k s, ctx !! k = Some s → rasm_for id s = false) →
  (∃ k s, ctx !! k = Some s ∧ ra_active s = false) →
  (∃ j, delivers id pt op0 j) → Forall (tolerated id pt t0) ops →
  (∀ j, (j < nfrags pt)%nat → ∃ op, op ∈ op0 :: ops ∧ delivers id pt op j) →
  (length pt ≤ length out)%nat →
  ∃ ctx' ctx'', frag_run ctx (op0 :: ops) = Some ctx' ∧
    reassembly_collect ctx' id out (length out) = Some (Some (length pt), ctx'', filled pt out).
Proof.
  intros op0 Hpt Hwf Hno Hfree [j0 Hj0] Hops Hall Hout.
  destruct (reassembly_open ctx id pt hdr0 frag0 t0 pid0 j0 Hwf Hpt Hno Hfree Hj0)
    as (r & c1 & i & s1 & Hadd & Hwf1 & Htr1 & Hb0).
  destruct (frag_run_tracks ops c1 i id pt t0 s1 Hwf1 Htr1 Hops)
    as (c2 & s2 & Hrun & Hwf2 & Htr2 & Hmono & Hdel).
  assert (Hbits : ∀ j, (j < nfrags pt)%nat → Z.testbit (ra_received_mask s2) (Z.of_nat j) = true).
  { intros j Hj. destruct (Hall j Hj) as (op & [->|Hin]%list.elem_of_cons & Hd); [|by eapply Hdel].
    destruct Hj0 as (_ & _ & Hi0 & _). destruct Hd as (_ & _ & Hi & _).
    assert (j = j0) as -> by lia. by apply Hmono. }
  pose proof Htr2 as [Hs2 Hh2 _]. pose proof (Forall_lookup_1 _ _ _ _ (proj2 Hwf2) Hs2) as Hsh2.
  destruct (full_payload id pt t0 s2 Hpt Hsh2 Hh2 Hbits) as [Hmask Hpay].
  exists c2. eexists. split.
  { simpl. rewrite Hadd. simpl. done. }
  rewrite (reassembly_collect_spec c2 i id out Hwf2 (tracks_find _ _ _ _ _ _ Htr2)).
  rewrite (list_lookup_total_correct _ _ _ Hs2), total_len_payload by done.
  rewrite (hm_total _ _ _ _ Hh2), Nat2Z.id, Hpay, Hmask.
  pose proof (nfrags_bound pt Hpt) as Hn. unfold FRAG_MAX_FRAGMENTS in Hn.
  rewrite decide_True; [done|]. split_and!; [lia| |done].
  assert (nfrags pt = 1 ∨ nfrags pt = 2 ∨ nfrags pt = 3 ∨ nfrags pt = 4)%nat as Hc by lia.
  by destruct Hc as [->|[->|[->| ->]]].
Qed.

(** Two fragments arriving in reverse, with a forged one and another message
    in between. *)
Definition demo_pt : list Z := replicate 200 7.
Definition demo_ops : list frag_op :=
  [FAdd (mk_frag_header 3 4 513) [1] 150 8; FAdd (mk_frag_header 0 2 99) [5] 160 9;
   FAdd (mk_frag_header 0 2 513) (chunk demo_pt 0) 200 10].

Lemma reassembly_any_order_witness :
  ∃ ctx' ctx'', frag_run reassembly_init
      (FAdd (mk_frag_header 1 2 513) (chunk demo_pt 1) 100 7 :: demo_ops) = Some ctx' ∧
    reassembly_collect ctx' 513 (replicate 308 0) 308 =
      Some (Some 200%nat, ctx'', filled demo_pt (replicate 308 0)).
Proof.
  apply (reassembly_any_order 513 demo_pt reassembly_init (mk_frag_header 1 2 513) (chunk demo_pt 1)
    100 7 demo_ops (replicate 308 0)).
  - unfold sendable. simpl. lia.
  - apply reassembly_init_wf.
  - intros k s [-> _]%lookup_replicate. reflexivity.
  - exists 0%nat. eexists. split; reflexivity.
  - exists 1%nat. vm_compute. repeat split; lia.
  - unfold demo_ops, tolerated, FRAG_REASSEMBLY_TIMEOUT_MS. constructor; [|constructor; [|constructor; [|constructor]]].
    + split; [simpl; lia|]. intros _. split; [vm_compute; discriminate|]. intros E. vm_compute in E. discriminate E.
    + split; [simpl; lia|]. intros E. discriminate E.
    + split; [simpl; lia|]. intros _. split; [vm_compute; discriminate|]. intros _.
      exists 0%nat. vm_compute. repeat split; lia.
  - intros [|[|j]] Hj.
    + eexists. split; [do 3 right; by left|]. vm_compute. repeat split; lia.
    + eexists. split; [by left|]. vm_compute. repeat split; lia.
    + vm_compute in Hj. lia.
  - simpl. lia.
Defined.

(** Memory safety of reassembly: from boot, any sequence of fragments with
    any header bytes and lengths, purges and collections into buffers of the
    stated size stays within the slot arrays and the output buffer. *)
Theorem reassembly_memory_safe ops :
  Forall (λ op, match op with FAdd hdr _ _ _ => is_u8 (fh_frag_index hdr) | _ => True end) ops →
  ∃ ctx, frag_run reassembly_init ops = Some ctx ∧ ctx_wf ctx.
Proof.
  intros Hops. generalize reassembly_init_wf. generalize reassembly_init.
  induction Hops as [|op ops Hop _ IH]; intros ctx Hwf; [by exists ctx|]. simpl.
  assert (∃ ctx', frag_step ctx op = Some ctx' ∧ ctx_wf ctx') as (c' & -> & Hwf'); [|by apply IH].
  destruct op as [hdr frag now pid|now|mid out]; simpl.
  - destruct (reassembly_add_safe ctx hdr frag now pid Hwf) as (r & c' & -> & ?); [apply Hop|].
    by exists c'.
  - eexists. split; [done|]. destruct Hwf as [Hl Hsh]. unfold reassembly_purge.
    split; [by rewrite length_fmap|]. apply Forall_fmap. eapply Forall_impl; [done|].
    intros x Hx. simpl. split_if; [by apply rasm_deactivate_shape|done].
  - destruct (reassembly_collect_safe ctx mid out Hwf) as (r & c' & out' & -> & ?). by exists c'.
Qed.

Lemma reassembly_memory_safe_witness :
  ∃ ctx, frag_run reassembly_init
    [FAdd (mk_frag_header 255 255 1) (replicate 300 1) 0 0; FAdd (mk_frag_header 3 4 1) [] 5 0;
     FCollect 1 [0; 0]; FPurge 40000] = Some ctx ∧ ctx_wf ctx.
Proof.
  apply reassembly_memory_safe. repeat constructor; simpl; lia.
Defined.
