(* ===== verification/Mailbox.v ===== *)
(** * Store-and-forward mailbox ([components/mailbox])

    Messages for destinations out of reach: 32 slots, at most 8 per
    destination and per source, kept for 24 hours, the oldest evicted first. *)

From stdpp Require Import base numbers sets option decidable list.
From S2P Require Import Prelude Tables.

Definition MAILBOX_MAX_ENTRIES : nat := 32.
Definition MAILBOX_MAX_PER_DEST : nat := 8.
Definition MAILBOX_MAX_PER_SOURCE : nat := 8.
Definition MAILBOX_TTL_MS : Z := 3600000 * 24.
Definition MAILBOX_MAX_PAYLOAD : nat := 200.

Record mailbox_entry_t := mk_mentry {
  me_active : bool; me_src_addr : Z; me_dest_addr : Z; me_payload : list Z;
  me_payload_len : nat; me_stored_at_ms : Z; me_packet_id : Z }.
Record mailbox_t := mk_mailbox {
  mb_entries : list mailbox_entry_t; mb_count : Z; mb_enabled : bool }.

Definition mentry_zero : mailbox_entry_t :=
  mk_mentry false 0 0 (replicate MAILBOX_MAX_PAYLOAD 0) 0 0 0.
#[global] Instance mentry_inhabited : Inhabited mailbox_entry_t := populate mentry_zero.

Definition mailbox_init : mailbox_t :=
  mk_mailbox (replicate MAILBOX_MAX_ENTRIES mentry_zero) 0 true.

Definition deactivate (e : mailbox_entry_t) : mailbox_entry_t :=
  mk_mentry false (me_src_addr e) (me_dest_addr e) (me_payload e) (me_payload_len e)
    (me_stored_at_ms e) (me_packet_id e).

(** The loop shared by [find_oldest] and [find_oldest_global]. *)
Fixpoint oldest_loop (sel : mailbox_entry_t → bool) (es : list mailbox_entry_t) (i : nat)
    (best : option nat) (best_ts : Z) : option nat :=
  match es with
  | [] => best
  | e :: es =>
      if me_active e && sel e && (me_stored_at_ms e <? best_ts)
      then oldest_loop sel es (S i) (Some i) (me_stored_at_ms e)
      else oldest_loop sel es (S i) best best_ts
  end.

Definition find_oldest (mb : mailbox_t) (addr : Z) (by_dest : bool) : option nat :=
  oldest_loop (λ e, if by_dest then me_dest_addr e =? addr else me_src_addr e =? addr)
    (mb_entries mb) 0 None UINT32_MAX.
Definition find_oldest_global (mb : mailbox_t) : option nat :=
  oldest_loop (λ _, true) (mb_entries mb) 0 None UINT32_MAX.
Definition find_free_slot (mb : mailbox_t) : option nat :=
  find_index (λ e, negb (me_active e)) (mb_entries mb).
Definition has_duplicate (mb : mailbox_t) (packet_id : Z) : bool :=
  match find_index (λ e, me_active e && (me_packet_id e =? packet_id)) (mb_entries mb) with
  | Some _ => true
  | None => false
  end.

Definition count_active (sel : mailbox_entry_t → bool) (mb : mailbox_t) : nat :=
  length (filter (λ e, me_active e && sel e = true) (mb_entries mb)).
Definition mailbox_count_for_dest (mb : mailbox_t) (dest_addr : Z) : nat :=
  count_active (λ e, me_dest_addr e =? dest_addr) mb.
Definition mailbox_count_for_source (mb : mailbox_t) (src_addr : Z) : nat :=
  count_active (λ e, me_src_addr e =? src_addr) mb.

(** [mb->entries[idx].active = false; mb->count--;] *)
Definition drop_slot (mb : mailbox_t) (idx : nat) : mailbox_t :=
  mk_mailbox (<[idx := deactivate (mb_entries mb !!! idx)]> (mb_entries mb))
    (mb_count mb - 1) (mb_enabled mb).

Definition evict_dest (mb : mailbox_t) (dest_addr : Z) : mailbox_t :=
  if decide (MAILBOX_MAX_PER_DEST ≤ mailbox_count_for_dest mb dest_addr)%nat
  then match find_oldest mb dest_addr true with Some i => drop_slot mb i | None => mb end
  else mb.
Definition evict_source (mb : mailbox_t) (src_addr : Z) : mailbox_t :=
  if decide (MAILBOX_MAX_PER_SOURCE ≤ mailbox_count_for_source mb src_addr)%nat
  then match find_oldest mb src_addr false with Some i => drop_slot mb i | None => mb end
  else mb.

(** [payload] is the caller's buffer and [len] the stated length; [None] would
    be an access outside a buffer. *)
Definition mailbox_store (mb : mailbox_t) (src_addr dest_addr : Z) (payload : list Z)
    (len : nat) (packet_id now_ms : Z) : option (Z * mailbox_t) :=
  if decide (len = 0 ∨ MAILBOX_MAX_PAYLOAD < len)%nat then Some (-1, mb)
  else if has_duplicate mb packet_id then Some (-2, mb)
  else
    let mb := evict_dest mb dest_addr in
    let mb := evict_source mb src_addr in
    let slot :=
      match find_free_slot mb with
      | Some i => Some (i, mb)
      | None =>
          match find_oldest_global mb with
          | Some i => Some (i, drop_slot mb i)
          | None => None
          end
      end in
    match slot with
    | None => Some (-1, mb)
    | Some (i, mb) =>
        bytes ← rdn payload 0 len;
        buf ← wr (me_payload (mb_entries mb !!! i)) 0 bytes;
        Some (0, mk_mailbox
                (<[i := mk_mentry true src_addr dest_addr buf len now_ms packet_id]> (mb_entries mb))
                (mb_count mb + 1) (mb_enabled mb))
    end.

(** The entries not yet visited, the result so far (in [out] order) and the
    entries already visited. *)
Fixpoint retrieve_loop (dest_addr : Z) (max_out : nat) (es : list mailbox_entry_t) (count : Z)
    (out : list mailbox_entry_t) : list mailbox_entry_t * Z * list mailbox_entry_t :=
  match es with
  | [] => ([], count, out)
  | e :: es =>
      if decide (length out < max_out)%nat then
        if me_active e && (me_dest_addr e =? dest_addr) then
          let '(es', count', out') := retrieve_loop dest_addr max_out es (count - 1) (out ++ [e]) in
          (deactivate e :: es', count', out')
        else
          let '(es', count', out') := retrieve_loop dest_addr max_out es count out in
          (e :: es', count', out')
      else (e :: es, count, out)
  end.
Definition mailbox_retrieve (mb : mailbox_t) (dest_addr : Z) (max_out : nat)
    : list mailbox_entry_t * mailbox_t :=
  let '(es, count, out) := retrieve_loop dest_addr max_out (mb_entries mb) (mb_count mb) [] in
  (out, mk_mailbox es count (mb_enabled mb)).

Definition mailbox_expired (now_ms : Z) (e : mailbox_entry_t) : bool :=
  me_active e && ((now_ms ⊖ me_stored_at_ms e) >=? MAILBOX_TTL_MS).
Fixpoint purge_loop (now_ms : Z) (es : list mailbox_entry_t) (count : Z)
    : list mailbox_entry_t * Z :=
  match es with
  | [] => ([], count)
  | e :: es =>
      let '(e, count) :=
        if mailbox_expired now_ms e then (deactivate e, count - 1) else (e, count) in
      let '(es, count) := purge_loop now_ms es count in (e :: es, count)
  end.
Definition mailbox_purge_expired (mb : mailbox_t) (now_ms : Z) : mailbox_t :=
  let '(es, count) := purge_loop now_ms (mb_entries mb) (mb_count mb) in
  mk_mailbox es count (mb_enabled mb).

(** ** The messages held

    Abstractly the mailbox is the collection of its active entries. *)

Definition is_active (e : mailbox_entry_t) : Prop := me_active e = true.
Definition active (mb : mailbox_t) : list mailbox_entry_t := filter is_active (mb_entries mb).
Definition matching (sel : mailbox_entry_t → bool) (l : list mailbox_entry_t) : list mailbox_entry_t :=
  filter (λ e, sel e = true) l.

Definition for_dest (d : Z) (e : mailbox_entry_t) : bool := me_dest_addr e =? d.
Definition from_src (a : Z) (e : mailbox_entry_t) : bool := me_src_addr e =? a.

(** What the held messages satisfy: distinct packet ids, both caps, and stamps
    that the eviction scan can see. *)
Record box_ok (l : list mailbox_entry_t) : Prop := mk_box_ok {
  bo_ids : NoDup (me_packet_id <$> l);
  bo_dest : ∀ d, (length (matching (for_dest d) l) ≤ MAILBOX_MAX_PER_DEST)%nat;
  bo_src : ∀ a, (length (matching (from_src a) l) ≤ MAILBOX_MAX_PER_SOURCE)%nat;
  bo_stamp : Forall (λ e, me_stored_at_ms e < UINT32_MAX) l }.

Record mailbox_wf (mb : mailbox_t) : Prop := mk_mailbox_wf {
  mw_len : length (mb_entries mb) = MAILBOX_MAX_ENTRIES;
  mw_buf : Forall (λ e, length (me_payload e) = MAILBOX_MAX_PAYLOAD ∧
                        (me_payload_len e ≤ MAILBOX_MAX_PAYLOAD)%nat) (mb_entries mb);
  mw_count : mb_count mb = Z.of_nat (length (active mb));
  mw_ok : box_ok (active mb) }.

#[global] Instance matching_perm sel : Proper ((≡ₚ) ==> (≡ₚ)) (matching sel).
Proof. intros l k H. unfold matching. by rewrite H. Qed.
#[global] Instance box_ok_perm : Proper ((≡ₚ) ==> impl) box_ok.
Proof.
  intros l k Hp [H1 H2 H3 H4].
  constructor; [by rewrite <- Hp|intros d; rewrite <- Hp; apply H2|intros a; rewrite <- Hp; apply H3|].
  by rewrite <- Hp.
Qed.

Lemma matching_app sel l k : matching sel (l ++ k) = matching sel l ++ matching sel k.
Proof. apply list.filter_app. Qed.

Lemma matching_cons sel e l :
  matching sel (e :: l) = if sel e then e :: matching sel l else matching sel l.
Proof.
  unfold matching. rewrite list.filter_cons. destruct (sel e); [by rewrite decide_True|].
  by rewrite decide_False.
Qed.

(** Fewer messages satisfy the same bounds. *)
Lemma box_ok_app v l : box_ok (v ++ l) → box_ok l.
Proof.
  intros [H1 H2 H3 H4]. rewrite fmap_app in H1. apply list.NoDup_app in H1 as (_ & _ & H1).
  apply Forall_app in H4 as [_ H4]. constructor; [done| | |done].
  - intros d. specialize (H2 d). rewrite matching_app, length_app in H2. lia.
  - intros a. specialize (H3 a). rewrite matching_app, length_app in H3. lia.
Qed.

Lemma count_active_matching sel mb : count_active sel mb = length (matching sel (active mb)).
Proof.
  unfold count_active, matching, active. rewrite list_filter_filter. f_equal.
  apply list_filter_iff. intros e. rewrite andb_true_iff. unfold is_active. tauto.
Qed.

(** Deactivating a slot removes its message. *)
Lemma active_drop_slot mb i e :
  mb_entries mb !! i = Some e → me_active e = true →
  e :: active (drop_slot mb i) ≡ₚ active mb.
Proof.
  intros Hi Ha. unfold active, drop_slot; simpl. rewrite (list_lookup_total_correct _ _ _ Hi).
  pose proof (filter_insert_perm is_active _ i e (deactivate e) Hi) as H.
  rewrite !list.filter_cons, !list.filter_nil in H.
  rewrite decide_True in H by done. by rewrite decide_False in H by done.
Qed.

Lemma drop_slot_wf mb i e :
  mb_entries mb !! i = Some e → me_active e = true → mailbox_wf mb → mailbox_wf (drop_slot mb i).
Proof.
  intros Hi Ha [H1 H2 H3 H4]. pose proof (active_drop_slot mb i e Hi Ha) as Hp. constructor.
  - simpl. by rewrite length_insert.
  - simpl. rewrite (list_lookup_total_correct _ _ _ Hi). apply Forall_insert; [done|].
    exact (Forall_lookup_1 _ _ _ _ H2 Hi).
  - apply Permutation_length in Hp. cbn [length] in Hp. change (mb_count (drop_slot mb i)) with (mb_count mb - 1).
    lia.
  - apply (box_ok_app [e]). simpl. by rewrite Hp.
Qed.

(** The scan for the oldest matching entry. *)
Lemma oldest_loop_spec sel es : ∀ i best ts r,
  oldest_loop sel es i best ts = r →
  (r = best ∧ Forall (λ e, me_active e = true → sel e = true → ts <= me_stored_at_ms e) es) ∨
  (∃ k e, r = Some (i + k)%nat ∧ es !! k = Some e ∧ me_active e = true ∧ sel e = true ∧
     me_stored_at_ms e < ts ∧
     Forall (λ e', me_active e' = true → sel e' = true → me_stored_at_ms e <= me_stored_at_ms e') es).
Proof.
  induction es as [|x es IH]; intros i best ts r; simpl; [intros <-; left; by split|].
  destruct (me_active x && sel x && (me_stored_at_ms x <? ts)) eqn:E; intros Hr.
  - conds. right. apply IH in Hr as [[-> Hall]|(k & e & -> & Hk & Ha & Hs & Hlt & Hall)].
    + exists 0%nat, x. rewrite Nat.add_0_r. split_and!; try done. constructor; [lia|done].
    + exists (S k), e. rewrite Nat.add_succ_r. split_and!; try done; [lia|].
      constructor; [lia|done].
  - assert (Hx : me_active x = true → sel x = true → ts <= me_stored_at_ms x).
    { intros Ha Hs. rewrite Ha, Hs in E. simpl in E. by conds. }
    apply IH in Hr as [[-> Hall]|(k & e & -> & Hk & Ha & Hs & Hlt & Hall)].
    + left. split; [done|]. by constructor.
    + right. exists (S k), e. rewrite Nat.add_succ_r. split_and!; try done.
      constructor; [|done]. intros Ha' Hs'. specialize (Hx Ha' Hs'). lia.
Qed.

(** [v] is what an eviction for [sel] with capacity [cap] removes from the
    held messages [l]: nothing below the cap, else one of the oldest matching. *)
Definition evicted (sel : mailbox_entry_t → bool) (cap : nat) (l v rest : list mailbox_entry_t) : Prop :=
  l ≡ₚ v ++ rest ∧
  ((length (matching sel l) < cap)%nat ∧ v = [] ∨
   (cap ≤ length (matching sel l))%nat ∧ ∃ e, v = [e] ∧ e ∈ l ∧ sel e = true ∧
     ∀ e', e' ∈ l → sel e' = true → me_stored_at_ms e <= me_stored_at_ms e').

Lemma elem_of_active mb e : e ∈ active mb ↔ me_active e = true ∧ e ∈ mb_entries mb.
Proof. unfold active. by rewrite list_elem_of_filter. Qed.

(** The scan finds an oldest matching message when there is one. *)
Lemma oldest_found sel mb :
  mailbox_wf mb → (0 < length (matching sel (active mb)))%nat →
  ∃ i e, oldest_loop sel (mb_entries mb) 0 None UINT32_MAX = Some i ∧
    mb_entries mb !! i = Some e ∧ me_active e = true ∧ sel e = true ∧
    ∀ e', e' ∈ active mb → sel e' = true → me_stored_at_ms e <= me_stored_at_ms e'.
Proof.
  intros Hwf Hne.
  destruct (oldest_loop_spec sel (mb_entries mb) 0 None UINT32_MAX _ eq_refl)
    as [[_ Hall]|(k & e & Hr & Hk & Ha & Hs & _ & Hall)].
  - exfalso. destruct (matching sel (active mb)) as [|e l] eqn:E; [simpl in Hne; lia|].
    assert (He : e ∈ matching sel (active mb)) by (rewrite E; by left).
    apply list_elem_of_filter in He as [Hs He]. pose proof He as [Ha Hin]%elem_of_active.
    pose proof (bo_stamp _ (mw_ok _ Hwf)) as Hst. rewrite Forall_forall in Hst, Hall.
    specialize (Hst e He). specialize (Hall e Hin Ha Hs). lia.
  - exists k, e. split_and!; [done|done|done|done|]. intros e' [Ha' Hin]%elem_of_active Hs'.
    rewrite Forall_forall in Hall. by apply Hall.
Qed.

(** One capped eviction step. *)
Lemma evict_spec sel cap mb :
  mailbox_wf mb → (0 < cap)%nat →
  let mb' := if decide (cap ≤ count_active sel mb)%nat
             then match oldest_loop sel (mb_entries mb) 0 None UINT32_MAX with
                  | Some i => drop_slot mb i | None => mb end
             else mb in
  mailbox_wf mb' ∧ ∃ v, evicted sel cap (active mb) v (active mb').
Proof.
  intros Hwf Hcap mb'. unfold mb'. rewrite count_active_matching. case_decide as Hc.
  - destruct (oldest_found sel mb Hwf) as (i & e & -> & Hi & Ha & Hs & Hmin); [lia|].
    split; [by eapply drop_slot_wf|]. exists [e]. split.
    + symmetry. by apply active_drop_slot.
    + right. split; [done|]. exists e. split_and!; [done| |done|done].
      apply elem_of_active. split; [done|]. by eapply list_elem_of_lookup_2.
  - split; [done|]. exists []. split; [done|]. left. split; [lia|done].
Qed.

Lemma evict_dest_spec mb d :
  mailbox_wf mb → mailbox_wf (evict_dest mb d) ∧
  ∃ v, evicted (for_dest d) MAILBOX_MAX_PER_DEST (active mb) v (active (evict_dest mb d)).
Proof. intros Hwf. apply (evict_spec (for_dest d) MAILBOX_MAX_PER_DEST mb Hwf). unfold MAILBOX_MAX_PER_DEST. lia. Qed.
Lemma evict_source_spec mb a :
  mailbox_wf mb → mailbox_wf (evict_source mb a) ∧
  ∃ v, evicted (from_src a) MAILBOX_MAX_PER_SOURCE (active mb) v (active (evict_source mb a)).
Proof. intros Hwf. apply (evict_spec (from_src a) MAILBOX_MAX_PER_SOURCE mb Hwf). unfold MAILBOX_MAX_PER_SOURCE. lia. Qed.

(** After an eviction there is room below the cap, and no other count grew. *)
Lemma evicted_room sel cap l v rest :
  evicted sel cap l v rest → (length (matching sel l) ≤ cap)%nat → (0 < cap)%nat →
  (length (matching sel rest) < cap)%nat.
Proof.
  intros [Hp [[Hlt ->]|(Hge & e & -> & He & Hs & _)]] Hcap Hpos.
  - simpl in Hp. by rewrite <- Hp.
  - rewrite Hp, matching_app, length_app in Hcap. unfold matching at 1 in Hcap.
    rewrite list.filter_cons, decide_True in Hcap by done. simpl in Hcap. lia.
Qed.
Lemma evicted_shrinks sel cap l v rest sel' :
  evicted sel cap l v rest → (length (matching sel' rest) ≤ length (matching sel' l))%nat.
Proof. intros [Hp _]. rewrite Hp, matching_app, length_app. lia. Qed.
Lemma evicted_subset sel cap l v rest e : evicted sel cap l v rest → e ∈ rest → e ∈ l.
Proof. intros [-> _] H. apply elem_of_app. by right. Qed.

(** ** Storing *)

Lemma has_duplicate_spec mb id :
  has_duplicate mb id = true ↔ id ∈ me_packet_id <$> active mb.
Proof.
  unfold has_duplicate.
  transitivity (is_Some (find_index (λ e, me_active e && (me_packet_id e =? id)) (mb_entries mb))).
  { destruct (find_index _ _); split; intros H; try done; by destruct H. }
  rewrite find_index_is_Some, list_elem_of_fmap. setoid_rewrite andb_true_iff.
  setoid_rewrite Z.eqb_eq. setoid_rewrite elem_of_active. naive_solver.
Qed.

Lemma matching_true l : matching (λ _, true) l = l.
Proof. apply filter_Forall_id, Forall_forall. done. Qed.

(** The free slot, after evicting the globally oldest message if there is none. *)
Lemma free_slot_spec mb :
  mailbox_wf mb →
  ∃ i mb' v e, match find_free_slot mb with
    | Some i => Some (i, mb)
    | None => match find_oldest_global mb with Some i => Some (i, drop_slot mb i) | None => None end
    end = Some (i, mb') ∧ mailbox_wf mb' ∧
    mb_entries mb' !! i = Some e ∧ me_active e = false ∧
    evicted (λ _, true) MAILBOX_MAX_ENTRIES (active mb) v (active mb').
Proof.
  intros Hwf. destruct (find_free_slot mb) as [i|] eqn:E.
  - apply find_index_Some in E as (e & Hi & Ha & _). conds.
    exists i, mb, [], e. do 4 (split; [done|]). split; [done|]. left. rewrite matching_true. split; [|done].
    rewrite <- (mw_len mb Hwf). unfold active.
    rewrite <- (take_drop_middle _ _ _ Hi), list.filter_app, list.filter_cons, decide_False
      by (unfold is_active; congruence).
    rewrite !length_app. simpl.
    pose proof (length_filter is_active (take i (mb_entries mb))).
    pose proof (length_filter is_active (drop (S i) (mb_entries mb))). lia.
  - apply find_index_None in E.
    assert (Hall : active mb = mb_entries mb).
    { apply filter_Forall_id. eapply Forall_impl; [done|]. intros e He. simpl in He. by conds. }
    assert (Hlen : length (matching (λ _, true) (active mb)) = MAILBOX_MAX_ENTRIES)
      by (rewrite matching_true, Hall; apply Hwf).
    destruct (oldest_found (λ _, true) mb Hwf) as (i & e & Ho & Hi & Ha & _ & Hmin).
    { rewrite Hlen. unfold MAILBOX_MAX_ENTRIES. lia. }
    unfold find_oldest_global. rewrite Ho.
    exists i, (drop_slot mb i), [e], (deactivate e). split; [done|]. split; [by eapply drop_slot_wf|].
    split; [|split; [done|split]].
    + unfold drop_slot; simpl. rewrite (list_lookup_total_correct _ _ _ Hi).
      apply list_lookup_insert_eq. by eapply lookup_lt_Some.
    + symmetry. by apply active_drop_slot.
    + right. split; [lia|]. exists e. split_and!; [done| |done|done].
      apply elem_of_active. split; [done|]. by eapply list_elem_of_lookup_2.
Qed.

(** Filling a free slot. *)
Lemma active_fill mb i e x :
  mb_entries mb !! i = Some e → me_active e = false → me_active x = true →
  filter is_active (<[i := x]> (mb_entries mb)) ≡ₚ x :: active mb.
Proof.
  intros Hi He Hx. pose proof (filter_insert_perm is_active _ i e x Hi) as H.
  rewrite !list.filter_cons, !list.filter_nil in H.
  rewrite decide_False in H by (unfold is_active; congruence).
  by rewrite decide_True in H by done.
Qed.

Lemma box_ok_cons e l :
  box_ok l → me_packet_id e ∉ me_packet_id <$> l → me_stored_at_ms e < UINT32_MAX →
  (length (matching (for_dest (me_dest_addr e)) l) < MAILBOX_MAX_PER_DEST)%nat →
  (length (matching (from_src (me_src_addr e)) l) < MAILBOX_MAX_PER_SOURCE)%nat →
  box_ok (e :: l).
Proof.
  intros [H1 H2 H3 H4] Hid Hst Hd Hs. constructor.
  - simpl. apply list.NoDup_cons. done.
  - intros d. specialize (H2 d). unfold matching in *. rewrite list.filter_cons.
    case_decide as E; [|done]. unfold for_dest in E. conds. subst d. simpl. lia.
  - intros a. specialize (H3 a). unfold matching in *. rewrite list.filter_cons.
    case_decide as E; [|done]. unfold from_src in E. conds. subst a. simpl. lia.
  - by constructor.
Qed.

(** The message as stored. *)
Definition is_message (src dest id now : Z) (data : list Z) (e : mailbox_entry_t) : Prop :=
  me_active e = true ∧ me_src_addr e = src ∧ me_dest_addr e = dest ∧ me_packet_id e = id ∧
  me_stored_at_ms e = now ∧ me_payload_len e = length data ∧
  take (me_payload_len e) (me_payload e) = data.

Lemma mailbox_store_spec mb src dest payload len id now :
  mailbox_wf mb → (0 < len ≤ MAILBOX_MAX_PAYLOAD)%nat → (len ≤ length payload)%nat →
  now < UINT32_MAX → has_duplicate mb id = false →
  ∃ mb' e v1 v2 v3 r1 r2 r3,
    mailbox_store mb src dest payload len id now = Some (0, mb') ∧ mailbox_wf mb' ∧
    evicted (for_dest dest) MAILBOX_MAX_PER_DEST (active mb) v1 r1 ∧
    evicted (from_src src) MAILBOX_MAX_PER_SOURCE r1 v2 r2 ∧
    evicted (λ _, true) MAILBOX_MAX_ENTRIES r2 v3 r3 ∧
    active mb' ≡ₚ e :: r3 ∧ is_message src dest id now (take len payload) e.
Proof.
  intros Hwf Hlen Hpl Hnow Hdup. unfold mailbox_store.
  rewrite decide_False by lia. rewrite Hdup.
  destruct (evict_dest_spec mb dest Hwf) as [Hwf1 [v1 He1]].
  destruct (evict_source_spec _ src Hwf1) as [Hwf2 [v2 He2]].
  destruct (free_slot_spec _ Hwf2) as (i & mb3 & v3 & e0 & -> & Hwf3 & Hi & Ha & He3).
  rewrite rdn_some by (simpl; lia). cbn [mbind option_bind]. rewrite drop_0.
  rewrite (list_lookup_total_correct _ _ _ Hi).
  pose proof (Forall_lookup_1 _ _ _ _ (mw_buf _ Hwf3) Hi) as [Hbuf _].
  assert (Hbl : (length (take len payload) = len)%nat) by (rewrite length_take; lia).
  rewrite <- (filled_nil (me_payload e0)), wr_filled by (simpl; lia).
  cbn [mbind option_bind app].
  set (e := mk_mentry true src dest (filled (take len payload) (me_payload e0)) len now id).
  pose proof (active_fill mb3 i e0 e Hi Ha eq_refl) as Hact.
  eexists _, e, v1, v2, v3, _, _, _. split_and!; [done| |exact He1|exact He2|exact He3|done|].
  - constructor; simpl.
    + rewrite length_insert. apply Hwf3.
    + apply Forall_insert; [apply Hwf3|]. unfold e; simpl. rewrite length_filled by lia. lia.
    + unfold active at 1. cbn [mb_entries]. rewrite Hact, (mw_count _ Hwf3). simpl. lia.
    + unfold active at 1. cbn [mb_entries]. rewrite Hact. apply box_ok_cons; [apply Hwf3| |done| |].
      * simpl. intros (e' & Hid' & Hin)%list_elem_of_fmap.
        apply not_true_iff_false in Hdup. apply Hdup, has_duplicate_spec, list_elem_of_fmap.
        exists e'. split; [done|]. do 3 (eapply evicted_subset; [eassumption|]). done.
      * simpl. eapply Nat.le_lt_trans; [by eapply evicted_shrinks|].
        eapply Nat.le_lt_trans; [by eapply evicted_shrinks|].
        eapply evicted_room; [done|apply Hwf|unfold MAILBOX_MAX_PER_DEST; lia].
      * simpl. eapply Nat.le_lt_trans; [by eapply evicted_shrinks|].
        eapply evicted_room; [done|apply Hwf1|unfold MAILBOX_MAX_PER_SOURCE; lia].
  - unfold is_message, e; simpl. split_and!; try done. rewrite <- Hbl at 1. apply take_app_length.
Qed.

(** ** Retrieving and purging *)

Definition buf_ok (e : mailbox_entry_t) : Prop :=
  length (me_payload e) = MAILBOX_MAX_PAYLOAD ∧ (me_payload_len e ≤ MAILBOX_MAX_PAYLOAD)%nat.

Lemma retrieve_loop_spec d max es : ∀ count out,
  let hits := take (max - length out) (matching (for_dest d) (filter is_active es)) in
  let '(es', count', out') := retrieve_loop d max es count out in
  out' = out ++ hits ∧ length es' = length es ∧ count' = count - Z.of_nat (length hits) ∧
  filter is_active es ≡ₚ hits ++ filter is_active es' ∧ (Forall buf_ok es → Forall buf_ok es').
Proof.
  induction es as [|e es IH]; intros count out; simpl.
  { unfold matching. rewrite !list.filter_nil, take_nil, app_nil_r. simpl. split_and!; (done || lia). }
  destruct (decide (length out < max)%nat) as [Hlt|Hge].
  2:{ replace (max - length out)%nat with 0%nat by lia. rewrite take_0, app_nil_r. simpl.
      split_and!; (done || lia). }
  destruct (me_active e) eqn:Ha; simpl.
  2:{ specialize (IH count out).
      destruct (retrieve_loop d max es count out) as [[es' c'] o'].
      rewrite !(list.filter_cons_False is_active e) by (unfold is_active; congruence).
      destruct IH as (H1 & H2 & H3 & H4 & H5). split_and!; simpl; [done|lia|done|done|].
      intros [? ?]%Forall_cons. constructor; eauto. }
  rewrite (list.filter_cons_True is_active e) by done. rewrite matching_cons.
  change (for_dest d e) with (me_dest_addr e =? d).
  destruct (me_dest_addr e =? d) eqn:Hd; simpl.
  - specialize (IH (count - 1) (out ++ [e])). rewrite length_app in IH. simpl in IH.
    destruct (retrieve_loop d max es (count - 1) (out ++ [e])) as [[es' c'] o'].
    destruct IH as (H1 & H2 & H3 & H4 & H5).
    rewrite (list.filter_cons_False is_active (deactivate e)) by done.
    replace (max - length out)%nat with (S (max - (length out + 1))) by lia. cbn [take length app].
    split_and!; [by rewrite H1, <- app_assoc|lia|lia|by rewrite <- H4|].
    intros [? ?]%Forall_cons. constructor; eauto.
  - specialize (IH count out). destruct (retrieve_loop d max es count out) as [[es' c'] o'].
    destruct IH as (H1 & H2 & H3 & H4 & H5).
    rewrite (list.filter_cons_True is_active e) by done.
    split_and!; simpl; [done|lia|done| |intros [? ?]%Forall_cons; constructor; eauto].
    rewrite H4 at 1. apply Permutation_middle.
Qed.

Definition fresh_at (now : Z) (e : mailbox_entry_t) : Prop :=
  now ⊖ me_stored_at_ms e < MAILBOX_TTL_MS.
#[global] Instance fresh_at_dec now e : Decision (fresh_at now e).
Proof. unfold fresh_at. apply _. Defined.

Lemma purge_loop_spec now es : ∀ count,
  let '(es', count') := purge_loop now es count in
  filter is_active es' = filter (fresh_at now) (filter is_active es) ∧
  length es' = length es ∧
  count' = count - Z.of_nat (length (filter is_active es)) + Z.of_nat (length (filter is_active es')) ∧
  (Forall buf_ok es → Forall buf_ok es').
Proof.
  induction es as [|e es IH]; intros count; simpl; [split_and!; (done || lia)|].
  unfold mailbox_expired. destruct (me_active e) eqn:Ha; simpl.
  - destruct (_ >=? MAILBOX_TTL_MS) eqn:Ht; conds.
    + specialize (IH (count - 1)). destruct (purge_loop now es (count - 1)) as [es' c'].
      destruct IH as (H1 & H2 & H3 & H4).
      rewrite (list.filter_cons_False is_active (deactivate e)) by done.
      rewrite (list.filter_cons_True is_active e) by done.
      rewrite (list.filter_cons_False (fresh_at now) e) by (unfold fresh_at; lia).
      split_and!; simpl; [done|lia|lia|]. intros [? ?]%Forall_cons. constructor; eauto.
    + specialize (IH count). destruct (purge_loop now es count) as [es' c'].
      destruct IH as (H1 & H2 & H3 & H4).
      rewrite !(list.filter_cons_True is_active e) by done.
      rewrite (list.filter_cons_True (fresh_at now) e) by (unfold fresh_at; lia).
      split_and!; simpl; [by rewrite H1|lia|lia|]. intros [? ?]%Forall_cons. constructor; eauto.
  - specialize (IH count). destruct (purge_loop now es count) as [es' c'].
    destruct IH as (H1 & H2 & H3 & H4).
    rewrite !(list.filter_cons_False is_active e) by (unfold is_active; congruence).
    split_and!; simpl; [done|lia|lia|]. intros [? ?]%Forall_cons. constructor; eauto.
Qed.

Lemma mailbox_retrieve_spec mb d max :
  mailbox_wf mb →
  let '(out, mb') := mailbox_retrieve mb d max in
  mailbox_wf mb' ∧ out = take max (matching (for_dest d) (active mb)) ∧
  active mb ≡ₚ out ++ active mb'.
Proof.
  intros Hwf. unfold mailbox_retrieve.
  pose proof (retrieve_loop_spec d max (mb_entries mb) (mb_count mb) []) as H.
  destruct (retrieve_loop _ _ _ _ _) as [[es' c'] out]. simpl in H.
  rewrite Nat.sub_0_r in H. destruct H as (-> & H2 & H3 & H4 & H5).
  fold (active mb) in *. split_and!; [|done|done]. constructor.
  - simpl. rewrite H2. apply Hwf.
  - simpl. by apply H5, Hwf.
  - cbn [mb_count]. rewrite H3, (mw_count _ Hwf). pose proof (Permutation_length H4) as Hl.
    rewrite length_app in Hl. unfold active at 3. cbn [mb_entries]. unfold active in *. lia.
  - apply (box_ok_app (take max (matching (for_dest d) (active mb)))).
    unfold active at 2. cbn [mb_entries]. rewrite <- H4. apply Hwf.
Qed.

Lemma mailbox_purge_spec mb now :
  mailbox_wf mb → mailbox_wf (mailbox_purge_expired mb now) ∧
  active (mailbox_purge_expired mb now) = filter (fresh_at now) (active mb).
Proof.
  intros Hwf. unfold mailbox_purge_expired.
  pose proof (purge_loop_spec now (mb_entries mb) (mb_count mb)) as H.
  destruct (purge_loop _ _ _) as [es' c']. destruct H as (H1 & H2 & H3 & H4).
  fold (active mb) in H1, H3.
  split; [|done]. constructor.
  - simpl. rewrite H2. apply Hwf.
  - simpl. by apply H4, Hwf.
  - cbn [mb_count]. rewrite H3, (mw_count _ Hwf). unfold active; cbn [mb_entries]. lia.
  - unfold active; cbn [mb_entries]. rewrite H1.
    apply (box_ok_app (filter (λ e, ¬ fresh_at now e) (active mb))).
    rewrite Permutation_app_comm, filter_app_complement. apply Hwf.
Qed.

(** ** Reachable mailboxes *)

Inductive mailbox_reach : mailbox_t → Prop :=
| mreach_init : mailbox_reach mailbox_init
| mreach_store mb src dest payload len id now r mb' :
    mailbox_reach mb → (len ≤ length payload)%nat → now < UINT32_MAX →
    mailbox_store mb src dest payload len id now = Some (r, mb') → mailbox_reach mb'
| mreach_retrieve mb d max :
    mailbox_reach mb → mailbox_reach (mailbox_retrieve mb d max).2
| mreach_purge mb now : mailbox_reach mb → mailbox_reach (mailbox_purge_expired mb now).

Lemma mailbox_init_wf : mailbox_wf mailbox_init.
Proof.
  assert (Ha : active mailbox_init = []) by reflexivity.
  constructor; [done| |by rewrite Ha|].
  - apply Forall_replicate. split; [done|]. simpl. unfold MAILBOX_MAX_PAYLOAD. lia.
  - rewrite Ha. constructor; simpl; [constructor|intros; simpl; unfold MAILBOX_MAX_PER_DEST; lia
      |intros; simpl; unfold MAILBOX_MAX_PER_SOURCE; lia|constructor].
Qed.

Lemma mailbox_store_wf mb src dest payload len id now r mb' :
  mailbox_wf mb → (len ≤ length payload)%nat → now < UINT32_MAX →
  mailbox_store mb src dest payload len id now = Some (r, mb') → mailbox_wf mb'.
Proof.
  intros Hwf Hlen Hnow Hst.
  destruct (decide (len = 0 ∨ MAILBOX_MAX_PAYLOAD < len)%nat) as [Hbad|Hok].
  { unfold mailbox_store in Hst. rewrite decide_True in Hst by done. by injection Hst as <- <-. }
  destruct (has_duplicate mb id) eqn:Hdup.
  { unfold mailbox_store in Hst. rewrite decide_False, Hdup in Hst by done. by injection Hst as <- <-. }
  destruct (mailbox_store_spec mb src dest payload len id now) as (mb2 & e & ? & ? & ? & ? & ? & ? & Heq & Hwf' & _);
    [done|lia|done|done|done|]. rewrite Heq in Hst. by injection Hst as <- <-.
Qed.

Lemma mailbox_reach_wf mb : mailbox_reach mb → mailbox_wf mb.
Proof.
  induction 1 as [|mb src dest payload len id now r mb' _ IH Hl Hn Hst|mb d max _ IH|mb now _ IH].
  - apply mailbox_init_wf.
  - by eapply mailbox_store_wf.
  - pose proof (mailbox_retrieve_spec mb d max IH) as H.
    destruct (mailbox_retrieve mb d max) as [out mb']. apply H.
  - by apply mailbox_purge_spec.
Qed.

(** The mailbox invariant: in every reachable mailbox the count is the
    number of held messages, packet ids are distinct, no destination and no
    source has more than 8 messages, and all lengths fit their buffers. *)
Theorem mailbox_invariant mb :
  mailbox_reach mb →
  mb_count mb = Z.of_nat (length (active mb)) ∧ (length (active mb) ≤ 32)%nat ∧
  NoDup (me_packet_id <$> active mb) ∧
  (∀ d, (mailbox_count_for_dest mb d ≤ 8)%nat) ∧ (∀ a, (mailbox_count_for_source mb a ≤ 8)%nat) ∧
  Forall buf_ok (mb_entries mb).
Proof.
  intros Hwf%mailbox_reach_wf. pose proof Hwf as [H1 H2 H3 [H4 H5 H6 _]].
  split_and!; [done| |done| | |done].
  - change 32%nat with MAILBOX_MAX_ENTRIES. rewrite <- H1. apply length_filter.
  - intros d. unfold mailbox_count_for_dest. rewrite count_active_matching. apply H5.
  - intros a. unfold mailbox_count_for_source. rewrite count_active_matching. apply H6.
Qed.

Definition demo_box : mailbox_t :=
  match mailbox_store mailbox_init 1 2 [10; 11; 12] 3 77 1000 with Some (_, mb) => mb | None => mailbox_init end.

Lemma demo_box_reach : mailbox_reach demo_box.
Proof.
  eapply (mreach_store mailbox_init 1 2 [10; 11; 12] 3 77 1000);
    [apply mreach_init|simpl; lia|vm_compute; done|reflexivity].
Defined.

Lemma mailbox_invariant_witness :
  mb_count demo_box = Z.of_nat (length (active demo_box)) ∧ mb_count demo_box = 1.
Proof. split; [apply (mailbox_invariant demo_box demo_box_reach)|reflexivity]. Defined.

(** Storing: a well-sized message with a new packet id is always stored,
    with its exact bytes; at most one message is evicted for the destination's
    cap, one for the source's and one for a full mailbox, each only when the cap
    is reached and each an oldest of its class; everything else is kept.  Other
    lengths return -1 and a held packet id -2, changing nothing. *)
Theorem mailbox_store_correct mb src dest payload len id now :
  mailbox_reach mb → (len ≤ length payload)%nat → now < UINT32_MAX →
  if decide (0 < len ≤ 200)%nat then
    if has_duplicate mb id then mailbox_store mb src dest payload len id now = Some (-2, mb)
    else ∃ mb' e v1 v2 v3 r1 r2 r3,
      mailbox_store mb src dest payload len id now = Some (0, mb') ∧
      evicted (for_dest dest) 8 (active mb) v1 r1 ∧ evicted (from_src src) 8 r1 v2 r2 ∧
      evicted (λ _, true) 32 r2 v3 r3 ∧
      active mb' ≡ₚ e :: r3 ∧ is_message src dest id now (take len payload) e
  else mailbox_store mb src dest payload len id now = Some (-1, mb).
Proof.
  intros Hwf%mailbox_reach_wf Hpl Hnow. case_decide as Hlen.
  - destruct (has_duplicate mb id) eqn:Hdup.
    + unfold mailbox_store, MAILBOX_MAX_PAYLOAD. rewrite decide_False by lia. by rewrite Hdup.
    + destruct (mailbox_store_spec mb src dest payload len id now)
        as (mb' & e & v1 & v2 & v3 & r1 & r2 & r3 & H1 & _ & H); [done|unfold MAILBOX_MAX_PAYLOAD; lia|done|done|done|].
      exists mb', e, v1, v2, v3, r1, r2, r3. split; [done|exact H].
  - unfold mailbox_store, MAILBOX_MAX_PAYLOAD. by rewrite decide_True by lia.
Qed.

Lemma mailbox_store_correct_witness :
  ∃ mb' e, mailbox_store demo_box 5 2 [9; 9] 2 78 2000 = Some (0, mb') ∧ e ∈ active mb' ∧
    is_message 5 2 78 2000 [9; 9] e.
Proof.
  pose proof (mailbox_store_correct demo_box 5 2 [9; 9] 2 78 2000 demo_box_reach) as H.
  destruct H as (mb' & e & v1 & v2 & v3 & r1 & r2 & r3 & H1 & _ & _ & _ & Hp & He).
  - simpl. lia.
  - vm_compute. reflexivity.
  - exists mb', e. split; [exact H1|]. split; [|exact He]. rewrite Hp. by left.
Defined.

(** Retrieving and purging: [mailbox_retrieve] returns the first
    [max_out] messages for the destination and removes exactly those;
    [mailbox_purge_expired] keeps exactly the messages younger than 24 h. *)
Theorem mailbox_retrieve_purge mb d max now :
  mailbox_reach mb →
  (let '(out, mb') := mailbox_retrieve mb d max in
   out = take max (matching (for_dest d) (active mb)) ∧ active mb ≡ₚ out ++ active mb') ∧
  active (mailbox_purge_expired mb now) = filter (fresh_at now) (active mb).
Proof.
  intros Hwf%mailbox_reach_wf. split; [|by apply mailbox_purge_spec].
  pose proof (mailbox_retrieve_spec mb d max Hwf) as H.
  destruct (mailbox_retrieve mb d max) as [out mb']. by destruct H as (_ & ? & ?).
Qed.

Lemma mailbox_retrieve_purge_witness :
  let '(out, mb') := mailbox_retrieve demo_box 2 4 in length out = 1%nat ∧ active mb' = [].
Proof.
  pose proof (mailbox_retrieve_purge demo_box 2 4 0 demo_box_reach) as [H _].
  destruct (mailbox_retrieve demo_box 2 4) as [out mb']. destruct H as [H1 H2].
  assert (length out = 1%nat) as Hl by (rewrite H1; reflexivity). split; [exact Hl|].
  apply Permutation_length in H2. rewrite length_app, Hl in H2. apply length_zero_iff_nil.
  change (length (active demo_box)) with 1%nat in H2. lia.
Defined.
