(* ===== verification/Airtime.v ===== *)
(** * Airtime budget ([components/airtime/airtime_budget.c])

    Four token buckets of transmit milliseconds, refilled continuously at
    their capacity per hour, with capacities that follow the mesh size and the
    regulatory duty cycle, and a bounded loan from NORMAL to CRITICAL. *)

From stdpp Require Import base numbers sets option decidable list.
From S2P Require Import Prelude Tables.

Definition AIRTIME_BUDGET_CRITICAL_MS : Z := 36000.
Definition AIRTIME_BUDGET_NORMAL_MS : Z := 18000.
Definition AIRTIME_BUDGET_BROADCAST_MS : Z := 18000.
Definition AIRTIME_BUDGET_RECEIPT_MS : Z := 12000.
Definition AIRTIME_REFILL_INTERVAL_MS : Z := 3600000.
Definition AIRTIME_TIER_NORMAL : Z := 1.
Definition AIRTIME_TIER_CRITICAL : Z := 2.
Definition AIRTIME_TIER_BROADCAST : Z := 3.
Definition AIRTIME_TIER_RECEIPT : Z := 4.
Definition AIRTIME_BORROW_CAP_PCT : Z := 25.

Definition AIRTIME_IDX_NORMAL : nat := 0.
Definition AIRTIME_IDX_CRITICAL : nat := 1.
Definition AIRTIME_IDX_BROADCAST : nat := 2.
Definition AIRTIME_IDX_RECEIPT : nat := 3.
Definition AIRTIME_TIER_COUNT : nat := 4.

(** [for (int i = 0; i < AIRTIME_TIER_COUNT; i++)] *)
Definition tiers : list nat := [0; 1; 2; 3]%nat.

Record airtime_budget_t := mk_budget {
  tokens_ms : list Z; max_ms : list Z; base_max_ms : list Z; refill_remainder : list Z;
  last_refill_ms : Z; profile_peer_count : Z; duty_cap_ms : Z; duty_enforced : bool;
  borrow_tokens_ms : Z; borrow_max_ms : Z; borrow_remainder : Z }.

Definition tier_idx (tier : Z) : nat :=
  if tier =? AIRTIME_TIER_CRITICAL then AIRTIME_IDX_CRITICAL
  else if tier =? AIRTIME_TIER_BROADCAST then AIRTIME_IDX_BROADCAST
  else if tier =? AIRTIME_TIER_RECEIPT then AIRTIME_IDX_RECEIPT
  else AIRTIME_IDX_NORMAL.

Definition profile_scale_pct (peer_count : Z) (idx : nat) : Z :=
  if peer_count <=? 8 then
    if Nat.eqb idx AIRTIME_IDX_BROADCAST then 400
    else if Nat.eqb idx AIRTIME_IDX_RECEIPT then 500
    else if Nat.eqb idx AIRTIME_IDX_NORMAL then 300
    else 100
  else if peer_count <=? 15 then
    if Nat.eqb idx AIRTIME_IDX_BROADCAST || Nat.eqb idx AIRTIME_IDX_RECEIPT then 250
    else if Nat.eqb idx AIRTIME_IDX_NORMAL then 150
    else 100
  else if peer_count >? 40 then
    if Nat.eqb idx AIRTIME_IDX_BROADCAST then 60
    else if Nat.eqb idx AIRTIME_IDX_RECEIPT then 50
    else if Nat.eqb idx AIRTIME_IDX_NORMAL then 75
    else 100
  else 100.

(** The capacity of tier [i] before the duty cap. *)
Definition scaled_max (base : list Z) (peer_count : Z) (i : nat) : Z :=
  let scaled := u32 (base !!! i * profile_scale_pct peer_count i) / 100 in
  if scaled =? 0 then 1 else scaled.

(** One tier's capacity scaled down to its share of [window_target]. *)
Definition duty_scaled (window_target total m : Z) : Z :=
  let capped := u32 (u64 (m * window_target) / total) in
  if capped =? 0 then 1 else capped.

(** The capacities [apply_profile] computes. *)
Definition profile_max (ab : airtime_budget_t) (peer_count : Z) : list Z :=
  let maxes := scaled_max (base_max_ms ab) peer_count <$> tiers in
  let total := foldl (λ t s, u32 (t + s)) 0 maxes in
  let window_target := duty_cap_ms ab / 2 in
  if duty_enforced ab && (window_target >? 0) && (total >? window_target)
  then duty_scaled window_target total <$> maxes
  else maxes.

Definition apply_profile (ab : airtime_budget_t) (peer_count : Z) : airtime_budget_t :=
  let maxes := profile_max ab peer_count in
  let borrow_max := u32 (maxes !!! AIRTIME_IDX_NORMAL * AIRTIME_BORROW_CAP_PCT) / 100 in
  mk_budget maxes maxes (base_max_ms ab) (replicate AIRTIME_TIER_COUNT 0)
    (last_refill_ms ab) peer_count (duty_cap_ms ab) (duty_enforced ab)
    borrow_max borrow_max 0.

Definition airtime_budget_init (now_ms : Z) : airtime_budget_t :=
  let base := [AIRTIME_BUDGET_NORMAL_MS; AIRTIME_BUDGET_CRITICAL_MS;
               AIRTIME_BUDGET_BROADCAST_MS; AIRTIME_BUDGET_RECEIPT_MS] in
  apply_profile
    (mk_budget base base base (replicate AIRTIME_TIER_COUNT 0) now_ms 0 0 false 0 0 0) 0.

Definition airtime_budget_set_mesh_size (ab : airtime_budget_t) (peer_count : Z)
    : airtime_budget_t :=
  if profile_peer_count ab =? peer_count then ab else apply_profile ab peer_count.

Definition airtime_budget_set_duty_cap (ab : airtime_budget_t) (max_duty_cycle_pct : Z)
    (enforced : bool) : airtime_budget_t :=
  let pct := if max_duty_cycle_pct >? 100 then 100 else max_duty_cycle_pct in
  let ab := mk_budget (tokens_ms ab) (max_ms ab) (base_max_ms ab) (refill_remainder ab)
              (last_refill_ms ab) (profile_peer_count ab)
              (u32 (AIRTIME_REFILL_INTERVAL_MS / 100 * pct)) enforced
              (borrow_tokens_ms ab) (borrow_max_ms ab) (borrow_remainder ab) in
  apply_profile ab (profile_peer_count ab).

(** One bucket's refill: the tokens and the remainder after [elapsed] ms. *)
Definition bucket_refill (tokens cap remainder elapsed : Z) : Z * Z :=
  let numer := u64 (remainder + u64 (cap * elapsed)) in
  let add := u32 (numer / AIRTIME_REFILL_INTERVAL_MS) in
  let rem := u32 (numer mod AIRTIME_REFILL_INTERVAL_MS) in
  if add >? 0 then
    let next := u64 (tokens + add) in
    (if next >=? cap then cap else u32 next, rem)
  else (tokens, rem).

Definition airtime_budget_refill (ab : airtime_budget_t) (now_ms : Z) : airtime_budget_t :=
  let elapsed := now_ms ⊖ last_refill_ms ab in
  if elapsed =? 0 then ab
  else
    let upd i := bucket_refill (tokens_ms ab !!! i) (max_ms ab !!! i)
                   (refill_remainder ab !!! i) elapsed in
    let '(bt, br) := bucket_refill (borrow_tokens_ms ab) (borrow_max_ms ab)
                       (borrow_remainder ab) elapsed in
    mk_budget ((λ i, (upd i).1) <$> tiers) (max_ms ab) (base_max_ms ab)
      ((λ i, (upd i).2) <$> tiers) now_ms (profile_peer_count ab) (duty_cap_ms ab)
      (duty_enforced ab) bt (borrow_max_ms ab) br.

Definition airtime_budget_can_transmit (ab : airtime_budget_t) (tier airtime_ms : Z) : bool :=
  let idx := tier_idx tier in
  if tokens_ms ab !!! idx >=? airtime_ms then true
  else if Nat.eqb idx AIRTIME_IDX_CRITICAL then
    let deficit := u32 (airtime_ms - tokens_ms ab !!! AIRTIME_IDX_CRITICAL) in
    (tokens_ms ab !!! AIRTIME_IDX_NORMAL >=? deficit) && (borrow_tokens_ms ab >=? deficit)
  else false.

Definition set_tokens (ab : airtime_budget_t) (tokens : list Z) (borrow : Z) : airtime_budget_t :=
  mk_budget tokens (max_ms ab) (base_max_ms ab) (refill_remainder ab) (last_refill_ms ab)
    (profile_peer_count ab) (duty_cap_ms ab) (duty_enforced ab) borrow
    (borrow_max_ms ab) (borrow_remainder ab).

Definition airtime_budget_debit (ab : airtime_budget_t) (tier airtime_ms : Z) : airtime_budget_t :=
  let idx := tier_idx tier in
  let tk := tokens_ms ab in
  if tk !!! idx >=? airtime_ms then
    set_tokens ab (<[idx := tk !!! idx - airtime_ms]> tk) (borrow_tokens_ms ab)
  else if Nat.eqb idx AIRTIME_IDX_CRITICAL then
    let deficit := u32 (airtime_ms - tk !!! AIRTIME_IDX_CRITICAL) in
    let tk := <[AIRTIME_IDX_CRITICAL := 0]> tk in
    let normal := tk !!! AIRTIME_IDX_NORMAL in
    let tk := <[AIRTIME_IDX_NORMAL := if normal >=? deficit then normal - deficit else 0]> tk in
    set_tokens ab tk
      (if borrow_tokens_ms ab >=? deficit then borrow_tokens_ms ab - deficit else 0)
  else set_tokens ab (<[idx := 0]> tk) (borrow_tokens_ms ab).

Definition airtime_budget_remaining (ab : airtime_budget_t) (tier : Z) : Z :=
  tokens_ms ab !!! tier_idx tier.
Definition airtime_budget_next_refill_ms (ab : airtime_budget_t) (now_ms : Z) : Z := 0.

(** ** Buckets *)

Definition bucket_ok (tokens cap remainder : Z) : Prop :=
  0 <= tokens <= cap ∧ 1 <= cap <= 100000 ∧ 0 <= remainder < AIRTIME_REFILL_INTERVAL_MS.

(** A refill never loses tokens, respects the capacity, and adds at most the
    capacity's share of the elapsed time, remainders included. *)
Lemma bucket_refill_spec tokens cap remainder elapsed :
  bucket_ok tokens cap remainder → is_u32 elapsed →
  let '(t', r') := bucket_refill tokens cap remainder elapsed in
  bucket_ok t' cap r' ∧ tokens <= t' ∧
  t' * AIRTIME_REFILL_INTERVAL_MS + r' <=
    tokens * AIRTIME_REFILL_INTERVAL_MS + remainder + cap * elapsed.
Proof.
  intros (Ht & Hc & Hr) He. unfold bucket_refill, bucket_ok, AIRTIME_REFILL_INTERVAL_MS in *.
  unfold is_u32 in He. assert (Hm : 0 <= cap * elapsed < 100000 * 4294967296) by nia.
  rewrite (u64_id (cap * elapsed)) by (unfold is_u64; lia).
  rewrite (u64_id (remainder + _)) by (unfold is_u64; lia).
  set (numer := remainder + cap * elapsed).
  pose proof (Z.div_mod numer 3600000 ltac:(lia)) as Hdm.
  pose proof (Z.mod_pos_bound numer 3600000 ltac:(lia)) as Hmod.
  assert (Hd : 0 <= numer / 3600000 <= 200000000)
    by (split; [apply Z.div_pos; lia|apply Z.lt_succ_r, Z.div_lt_upper_bound; lia]).
  rewrite (u32_id (numer / _)), (u32_id (numer mod _)) by (unfold is_u32; lia).
  rewrite (u64_id (tokens + _)) by (unfold is_u64; lia).
  destruct (_ >? 0) eqn:E1; conds; [|split_and!; lia].
  destruct (_ >=? cap) eqn:E2; conds; [split_and!; lia|].
  rewrite u32_id by (unfold is_u32; lia). split_and!; lia.
Qed.

Definition default_base : list Z :=
  [AIRTIME_BUDGET_NORMAL_MS; AIRTIME_BUDGET_CRITICAL_MS;
   AIRTIME_BUDGET_BROADCAST_MS; AIRTIME_BUDGET_RECEIPT_MS].

Definition sum4 (l : list Z) : Z := foldr Z.add 0 l.

(** Four buckets and the loan bucket in range, and capacities that respect an
    enforced duty cap. *)
Record budget_ok (ab : airtime_budget_t) : Prop := mk_budget_ok {
  bk_tokens : length (tokens_ms ab) = AIRTIME_TIER_COUNT;
  bk_max : length (max_ms ab) = AIRTIME_TIER_COUNT;
  bk_rem : length (refill_remainder ab) = AIRTIME_TIER_COUNT;
  bk_base : base_max_ms ab = default_base;
  bk_bucket : ∀ i, (i < AIRTIME_TIER_COUNT)%nat →
    bucket_ok (tokens_ms ab !!! i) (max_ms ab !!! i) (refill_remainder ab !!! i);
  bk_borrow : bucket_ok (borrow_tokens_ms ab) (borrow_max_ms ab) (borrow_remainder ab);
  bk_cap : 0 <= duty_cap_ms ab <= AIRTIME_REFILL_INTERVAL_MS;
  bk_cap_pct : duty_cap_ms ab mod 36000 = 0;
  bk_duty : duty_enforced ab = true → 0 < duty_cap_ms ab → 2 * sum4 (max_ms ab) <= duty_cap_ms ab }.

Lemma tier_cases (P : nat → Prop) :
  P 0%nat → P 1%nat → P 2%nat → P 3%nat → ∀ i, (i < AIRTIME_TIER_COUNT)%nat → P i.
Proof.
  intros H0 H1 H2 H3 i Hi. unfold AIRTIME_TIER_COUNT in Hi.
  destruct i as [|[|[|[|i]]]]; [done|done|done|done|lia].
Qed.

(** The instances of a fact about all tiers. *)
Ltac four H :=
  pose proof (H 0%nat ltac:(unfold AIRTIME_TIER_COUNT; lia));
  pose proof (H 1%nat ltac:(unfold AIRTIME_TIER_COUNT; lia));
  pose proof (H 2%nat ltac:(unfold AIRTIME_TIER_COUNT; lia));
  pose proof (H 3%nat ltac:(unfold AIRTIME_TIER_COUNT; lia)).

(** *** Profiles *)

Lemma scaled_max_range pc i :
  (i < AIRTIME_TIER_COUNT)%nat → 6000 <= scaled_max default_base pc i <= 72000.
Proof.
  intros Hi. revert i Hi. apply tier_cases;
    unfold scaled_max, profile_scale_pct;
    destruct (pc <=? 8), (pc <=? 15), (pc >? 40); vm_compute; split; discriminate.
Qed.

Lemma duty_scaled_range target total m :
  18000 <= target <= 1800000 → 0 < m <= 72000 → 24000 <= total <= 288000 → m <= total → 6000 <= m →
  target < total →
  duty_scaled target total m = m * target / total ∧ 1 <= m * target / total <= m.
Proof.
  intros Ht Hm Htot Hle Hm6 Hlt. unfold duty_scaled.
  assert (Hb : 1 <= m * target / total <= m).
  { split; [apply Z.div_le_lower_bound; nia|apply Z.div_le_upper_bound; nia]. }
  rewrite u64_id by (unfold is_u64; nia). rewrite u32_id by (unfold is_u32; lia).
  destruct (_ =? 0) eqn:E; conds; lia.
Qed.

Lemma four_list {A} (l : list A) : length l = AIRTIME_TIER_COUNT → ∃ a b c d, l = [a; b; c; d].
Proof.
  intros H. destruct l as [|a [|b [|c [|d [|]]]]]; try discriminate H. eauto.
Qed.

Lemma profile_max_spec ab pc :
  base_max_ms ab = default_base → 0 <= duty_cap_ms ab <= AIRTIME_REFILL_INTERVAL_MS →
  duty_cap_ms ab mod 36000 = 0 →
  length (profile_max ab pc) = AIRTIME_TIER_COUNT ∧
  Forall (λ m, 1 <= m <= 72000) (profile_max ab pc) ∧
  4 <= profile_max ab pc !!! AIRTIME_IDX_NORMAL ∧
  (duty_enforced ab = true → 0 < duty_cap_ms ab →
     2 * sum4 (profile_max ab pc) <= duty_cap_ms ab).
Proof.
  intros Hbase Hcap Hpct. unfold profile_max. rewrite Hbase. unfold AIRTIME_REFILL_INTERVAL_MS in Hcap.
  pose proof (scaled_max_range pc 0 ltac:(unfold AIRTIME_TIER_COUNT; lia)) as H0.
  pose proof (scaled_max_range pc 1 ltac:(unfold AIRTIME_TIER_COUNT; lia)) as H1.
  pose proof (scaled_max_range pc 2 ltac:(unfold AIRTIME_TIER_COUNT; lia)) as H2.
  pose proof (scaled_max_range pc 3 ltac:(unfold AIRTIME_TIER_COUNT; lia)) as H3.
  unfold tiers. cbn [fmap list_fmap foldl].
  set (a := scaled_max default_base pc 0) in *. set (b := scaled_max default_base pc 1) in *.
  set (c := scaled_max default_base pc 2) in *. set (d := scaled_max default_base pc 3) in *.
  clearbody a b c d.
  rewrite (u32_id (0 + a)) by (unfold is_u32; lia). rewrite (u32_id (0 + a + b)) by (unfold is_u32; lia).
  rewrite (u32_id (0 + a + b + c)) by (unfold is_u32; lia).
  rewrite (u32_id (0 + a + b + c + d)) by (unfold is_u32; lia).
  set (total := 0 + a + b + c + d). set (target := duty_cap_ms ab / 2).
  assert (Htgt : duty_cap_ms ab = 2 * target ∧ (0 < duty_cap_ms ab → 18000 <= target) ∧ target <= 1800000).
  { unfold target. Z.to_euclidean_division_equations. lia. }
  destruct (duty_enforced ab && (target >? 0) && (total >? target)) eqn:E; conds.
  - cbn [fmap list_fmap].
    destruct (duty_scaled_range target total a) as [-> Ha]; [lia..|].
    destruct (duty_scaled_range target total b) as [-> Hb]; [lia..|].
    destruct (duty_scaled_range target total c) as [-> Hc]; [lia..|].
    destruct (duty_scaled_range target total d) as [-> Hd]; [lia..|].
    split_and!; [done|repeat constructor; lia| |].
    + simpl. apply Z.div_le_lower_bound; lia.
    + intros _ _. unfold sum4; simpl.
      assert (total * (a * target / total) <= a * target) by (apply Z.mul_div_le; lia).
      assert (total * (b * target / total) <= b * target) by (apply Z.mul_div_le; lia).
      assert (total * (c * target / total) <= c * target) by (apply Z.mul_div_le; lia).
      assert (total * (d * target / total) <= d * target) by (apply Z.mul_div_le; lia).
      assert (a * target / total + b * target / total + c * target / total + d * target / total <= target).
      { apply (Z.mul_le_mono_pos_l _ _ total); [lia|]. unfold total in *. nia. }
      lia.
  - split_and!; [done|repeat constructor; lia|simpl; lia|]. intros He Hpos. unfold sum4; simpl.
    rewrite He in E. simpl in E. apply andb_false_iff in E as [?|?]; conds; lia.
Qed.

Lemma apply_profile_ok ab pc :
  base_max_ms ab = default_base → 0 <= duty_cap_ms ab <= AIRTIME_REFILL_INTERVAL_MS →
  duty_cap_ms ab mod 36000 = 0 → budget_ok (apply_profile ab pc).
Proof.
  intros Hbase Hcap Hpct. destruct (profile_max_spec ab pc Hbase Hcap Hpct) as (Hl & Hall & Hn & Hduty).
  unfold apply_profile. destruct (four_list _ Hl) as (a & b & c & d & Hm). rewrite Hm in *.
  inv_Forall. simpl in Hn.
  constructor; simpl; try done.
  - apply tier_cases; unfold bucket_ok, AIRTIME_REFILL_INTERVAL_MS; simpl; lia.
  - unfold bucket_ok, AIRTIME_REFILL_INTERVAL_MS, AIRTIME_BORROW_CAP_PCT. simpl.
    rewrite u32_id by (unfold is_u32; lia). Z.to_euclidean_division_equations. lia.
Qed.

Lemma airtime_budget_init_ok now : budget_ok (airtime_budget_init now).
Proof. apply apply_profile_ok; simpl; [done|unfold AIRTIME_REFILL_INTERVAL_MS; lia|done]. Qed.

Lemma set_mesh_size_ok ab pc : budget_ok ab → budget_ok (airtime_budget_set_mesh_size ab pc).
Proof.
  intros Hok. unfold airtime_budget_set_mesh_size. split_if; [done|].
  by apply apply_profile_ok; apply Hok.
Qed.

Lemma set_duty_cap_ok ab pct e :
  budget_ok ab → is_u8 pct →
  budget_ok (airtime_budget_set_duty_cap ab pct e) ∧
  duty_cap_ms (airtime_budget_set_duty_cap ab pct e) = 36000 * Z.min pct 100 ∧
  duty_enforced (airtime_budget_set_duty_cap ab pct e) = e.
Proof.
  intros Hok Hp. unfold airtime_budget_set_duty_cap.
  set (p := if pct >? 100 then 100 else pct).
  assert (Hpm : p = Z.min pct 100) by (unfold p; split_if; conds; lia).
  assert (Hc : u32 (AIRTIME_REFILL_INTERVAL_MS / 100 * p) = 36000 * p).
  { change (AIRTIME_REFILL_INTERVAL_MS / 100) with 36000. apply u32_id. unfold is_u8, is_u32 in *. lia. }
  rewrite Hc. split_and!.
  - apply apply_profile_ok; simpl; [apply Hok| |].
    + unfold is_u8, AIRTIME_REFILL_INTERVAL_MS in *. lia.
    + rewrite Z.mul_comm. apply Z.mod_mul. lia.
  - simpl. lia.
  - done.
Qed.

(** *** Refill and debit, bucket by bucket *)

(** [rem_i / I] more tokens than shown: the refill potential of bucket [i]. *)
Definition potential (ab : airtime_budget_t) (i : nat) : Z :=
  tokens_ms ab !!! i * AIRTIME_REFILL_INTERVAL_MS + refill_remainder ab !!! i.

Lemma refill_spec ab now :
  budget_ok ab → is_u32 (last_refill_ms ab) → is_u32 now →
  let ab' := airtime_budget_refill ab now in
  budget_ok ab' ∧ last_refill_ms ab' = now ∧ max_ms ab' = max_ms ab ∧
  duty_cap_ms ab' = duty_cap_ms ab ∧ duty_enforced ab' = duty_enforced ab ∧
  ∀ i, (i < AIRTIME_TIER_COUNT)%nat →
    potential ab' i <= potential ab i + max_ms ab !!! i * (now ⊖ last_refill_ms ab).
Proof.
  intros Hok Hl Hnow ab'. unfold ab', airtime_budget_refill.
  destruct (_ =? 0) eqn:E; conds.
  { assert (last_refill_ms ab = now) as Heq by cint.
    split_and!; try done. intros i Hi. rewrite Heq, Z.sub_diag. change (u32 0) with 0. lia. }
  pose proof (u32_range (now - last_refill_ms ab)) as He.
  pose proof (bucket_refill_spec _ _ _ _ (bk_borrow ab Hok) He) as Hb.
  destruct (bucket_refill (borrow_tokens_ms ab) _ _ _) as [bt br]. destruct Hb as (Hb & _).
  assert (Hlk : ∀ (f : nat → Z) i, (i < AIRTIME_TIER_COUNT)%nat → (f <$> tiers) !!! i = f i)
    by (intros f; by apply tier_cases).
  assert (Hup : ∀ i, (i < AIRTIME_TIER_COUNT)%nat →
    let '(t', r') := bucket_refill (tokens_ms ab !!! i) (max_ms ab !!! i) (refill_remainder ab !!! i)
      (now ⊖ last_refill_ms ab) in
    bucket_ok t' (max_ms ab !!! i) r' ∧ tokens_ms ab !!! i <= t' ∧
    t' * AIRTIME_REFILL_INTERVAL_MS + r' <=
      tokens_ms ab !!! i * AIRTIME_REFILL_INTERVAL_MS + refill_remainder ab !!! i +
      max_ms ab !!! i * (now ⊖ last_refill_ms ab)).
  { intros i Hi. apply bucket_refill_spec; [by apply bk_bucket|done]. }
  split_and!; try done.
  - destruct Hok. constructor; try done.
    intros i Hi. cbn [tokens_ms max_ms refill_remainder]. rewrite !Hlk by done.
    specialize (Hup i Hi). destruct (bucket_refill _ _ _ _). apply Hup.
  - intros i Hi. unfold potential. cbn [tokens_ms refill_remainder].
    rewrite !Hlk by done. specialize (Hup i Hi). destruct (bucket_refill _ _ _ _) as [t' r']. simpl. lia.
Qed.

Lemma tier_idx_lt tier : (tier_idx tier < AIRTIME_TIER_COUNT)%nat.
Proof. unfold tier_idx. repeat split_if; vm_compute; lia. Qed.

(** A debit that was allowed takes exactly its airtime out of the buckets. *)
Lemma debit_spec ab tier cost :
  budget_ok ab → 0 <= cost → cost < 4294967296 → airtime_budget_can_transmit ab tier cost = true →
  let ab' := airtime_budget_debit ab tier cost in
  budget_ok ab' ∧ last_refill_ms ab' = last_refill_ms ab ∧ max_ms ab' = max_ms ab ∧
  duty_cap_ms ab' = duty_cap_ms ab ∧ duty_enforced ab' = duty_enforced ab ∧
  ∃ d0 d1 d2 d3, 0 <= d0 ∧ 0 <= d1 ∧ 0 <= d2 ∧ 0 <= d3 ∧ d0 + d1 + d2 + d3 = cost ∧
    potential ab' 0 + d0 * AIRTIME_REFILL_INTERVAL_MS = potential ab 0 ∧
    potential ab' 1 + d1 * AIRTIME_REFILL_INTERVAL_MS = potential ab 1 ∧
    potential ab' 2 + d2 * AIRTIME_REFILL_INTERVAL_MS = potential ab 2 ∧
    potential ab' 3 + d3 * AIRTIME_REFILL_INTERVAL_MS = potential ab 3.
Proof.
  intros Hok Hc0 Hc Hcan ab'. pose proof Hok as [H1 H2 H3 H4 H5 H6 H7 H8 H9].
  destruct (four_list _ H1) as (t0 & t1 & t2 & t3 & Ht).
  pose proof (H5 0%nat ltac:(unfold AIRTIME_TIER_COUNT; lia)) as B0.
  pose proof (H5 1%nat ltac:(unfold AIRTIME_TIER_COUNT; lia)) as B1.
  pose proof (H5 2%nat ltac:(unfold AIRTIME_TIER_COUNT; lia)) as B2.
  pose proof (H5 3%nat ltac:(unfold AIRTIME_TIER_COUNT; lia)) as B3.
  rewrite Ht in B0, B1, B2, B3. simpl in B0, B1, B2, B3.
  unfold ab', airtime_budget_debit, airtime_budget_can_transmit, potential in *. rewrite Ht in *.
  pose proof (tier_idx_lt tier) as Hidx. generalize dependent (tier_idx tier).
  assert (Hset : ∀ tk b, length tk = AIRTIME_TIER_COUNT →
    (∀ i, (i < AIRTIME_TIER_COUNT)%nat → bucket_ok (tk !!! i) (max_ms ab !!! i) (refill_remainder ab !!! i)) →
    bucket_ok b (borrow_max_ms ab) (borrow_remainder ab) → budget_ok (set_tokens ab tk b))
    by (intros tk b ? ? ?; by constructor).
  unfold bucket_ok in *. intros idx Hcan Hidx. unfold AIRTIME_TIER_COUNT in Hidx.
  destruct idx as [|[|[|[|idx]]]]; [| | | |lia].
  - simpl in *. destruct (t0 >=? cost) eqn:E; conds; [|done].
    split_and!; try done; [apply Hset; [done|apply tier_cases; simpl; lia|lia]|].
    exists cost, 0, 0, 0. simpl. lia.
  - simpl in *. destruct (t1 >=? cost) eqn:E; conds.
    + split_and!; try done; [apply Hset; [done|apply tier_cases; simpl; lia|lia]|].
      exists 0, cost, 0, 0. simpl. lia.
    + rewrite (u32_id (cost - t1)) in * by (unfold is_u32; lia).
      rewrite Z.geb_leb, (proj2 (Z.leb_le _ _)) by lia.
      rewrite Z.geb_leb, (proj2 (Z.leb_le _ _)) by lia.
      split_and!; try done; [apply Hset; [done|apply tier_cases; simpl; lia|lia]|].
      exists (cost - t1), t1, 0, 0. simpl. lia.
  - simpl in *. destruct (t2 >=? cost) eqn:E; conds; [|done].
    split_and!; try done; [apply Hset; [done|apply tier_cases; simpl; lia|lia]|].
    exists 0, 0, cost, 0. simpl. lia.
  - simpl in *. destruct (t3 >=? cost) eqn:E; conds; [|done].
    split_and!; try done; [apply Hset; [done|apply tier_cases; simpl; lia|lia]|].
    exists 0, 0, 0, cost. simpl. lia.
Qed.

(** A check with a reserve on top implies the check without it. *)
Lemma can_transmit_mono ab tier cost extra :
  budget_ok ab → 0 <= cost → 0 <= extra → cost + extra < 4294967296 →
  airtime_budget_can_transmit ab tier (cost + extra) = true →
  airtime_budget_can_transmit ab tier cost = true.
Proof.
  intros Hok Hc He Hs. unfold airtime_budget_can_transmit.
  pose proof (bk_bucket ab Hok 1 ltac:(unfold AIRTIME_TIER_COUNT; lia)) as (B1 & _).
  destruct (tokens_ms ab !!! tier_idx tier >=? cost) eqn:E; [done|].
  destruct (tokens_ms ab !!! tier_idx tier >=? cost + extra) eqn:E2; conds; [lia|].
  destruct (Nat.eqb (tier_idx tier) AIRTIME_IDX_CRITICAL) eqn:Ei; [|done].
  apply Nat.eqb_eq in Ei. rewrite Ei in *. unfold AIRTIME_IDX_CRITICAL in *.
  rewrite !u32_id by (unfold is_u32; lia).
  rewrite !andb_true_iff, !Z.geb_leb, !Z.leb_le. lia.
Qed.

(** ** Runs

    Every use of the budget refills to the current time first and then debits
    only what was allowed.  [evs] lists the uses with their (unbounded) time
    and the airtime spent; the component sees the time modulo 2^32. *)

Inductive budget_run : airtime_budget_t → list (Z * Z) → airtime_budget_t → Prop :=
| br_nil ab : budget_run ab [] ab
| br_idle ab t evs ab' :
    budget_run (airtime_budget_refill ab (u32 t)) evs ab' → budget_run ab ((t, 0) :: evs) ab'
| br_spend ab t tier cost evs ab' :
    0 <= cost < 4294967296 →
    airtime_budget_can_transmit (airtime_budget_refill ab (u32 t)) tier cost = true →
    budget_run (airtime_budget_debit (airtime_budget_refill ab (u32 t)) tier cost) evs ab' →
    budget_run ab ((t, cost) :: evs) ab'.

Fixpoint times_from (t : Z) (limit : Z) (evs : list (Z * Z)) : Prop :=
  match evs with
  | [] => True
  | (t', _) :: evs => t <= t' <= limit ∧ times_from t' limit evs
  end.

Definition spent (evs : list (Z * Z)) : Z := foldr (λ ev s, ev.2 + s) 0 evs.

(** Per-bucket accounting of a run that starts right after a refill at [t]. *)
Lemma budget_run_bound ab evs ab' t limit :
  budget_run ab evs ab' → budget_ok ab → last_refill_ms ab = u32 t →
  times_from t limit evs → t <= limit → limit - t < 4294967296 →
  ∃ d0 d1 d2 d3, 0 <= d0 ∧ 0 <= d1 ∧ 0 <= d2 ∧ 0 <= d3 ∧ d0 + d1 + d2 + d3 = spent evs ∧
    d0 * AIRTIME_REFILL_INTERVAL_MS <= potential ab 0 + max_ms ab !!! 0%nat * (limit - t) ∧
    d1 * AIRTIME_REFILL_INTERVAL_MS <= potential ab 1 + max_ms ab !!! 1%nat * (limit - t) ∧
    d2 * AIRTIME_REFILL_INTERVAL_MS <= potential ab 2 + max_ms ab !!! 2%nat * (limit - t) ∧
    d3 * AIRTIME_REFILL_INTERVAL_MS <= potential ab 3 + max_ms ab !!! 3%nat * (limit - t).
Proof.
  intros Hrun. revert t.
  induction Hrun as [ab|ab t' evs ab' _ IH|ab t' tier cost evs ab' Hc Hcan _ IH];
    intros t Hok Hlast Hev Hlim Hgap.
  - exists 0, 0, 0, 0. simpl. pose proof (bk_bucket ab Hok) as B.
    four B. unfold bucket_ok in *.
    unfold potential, AIRTIME_REFILL_INTERVAL_MS. split_and!; try lia; nia.
  - destruct Hev as [Ht Hev].
    destruct (refill_spec ab (u32 t') Hok ltac:(rewrite Hlast; apply u32_range) (u32_range _))
      as (Hok' & Hl' & Hm' & _ & _ & Hpot).
    assert (Hel : u32 t' ⊖ last_refill_ms ab = t' - t) by (rewrite Hlast; cint).
    rewrite Hel in Hpot.
    four Hpot.
    destruct (IH t' Hok' Hl' Hev ltac:(lia) ltac:(lia)) as (d0 & d1 & d2 & d3 & Hd).
    rewrite Hm' in Hd. exists d0, d1, d2, d3. cbn [spent foldr snd]. fold (spent evs).
    split_and!; nia.
  - destruct Hev as [Ht Hev].
    destruct (refill_spec ab (u32 t') Hok ltac:(rewrite Hlast; apply u32_range) (u32_range _))
      as (Hok' & Hl' & Hm' & _ & _ & Hpot).
    assert (Hel : u32 t' ⊖ last_refill_ms ab = t' - t) by (rewrite Hlast; cint).
    rewrite Hel in Hpot.
    four Hpot.
    destruct (debit_spec _ tier cost Hok' ltac:(lia) ltac:(lia) Hcan)
      as (Hok2 & Hl2 & Hm2 & _ & _ & e0 & e1 & e2 & e3 & He).
    destruct (IH t' Hok2 ltac:(by rewrite Hl2) Hev ltac:(lia) ltac:(lia)) as (d0 & d1 & d2 & d3 & Hd).
    rewrite Hm2, Hm' in Hd. exists (d0 + e0), (d1 + e1), (d2 + e2), (d3 + e3).
    cbn [spent foldr snd]. fold (spent evs). split_and!; nia.
Qed.

(** A run whose first use is at [t] is a run of the refilled budget. *)
Lemma budget_run_refilled ab t u evs ab' :
  budget_ok ab → is_u32 (last_refill_ms ab) → budget_run ab ((t, u) :: evs) ab' →
  budget_run (airtime_budget_refill ab (u32 t)) ((t, u) :: evs) ab'.
Proof.
  intros Hok Hl Hrun.
  assert (Hidem : airtime_budget_refill (airtime_budget_refill ab (u32 t)) (u32 t) =
                  airtime_budget_refill ab (u32 t)).
  { destruct (refill_spec ab (u32 t) Hok Hl (u32_range _)) as (_ & Hl' & _).
    unfold airtime_budget_refill at 1. rewrite Hl', Z.sub_diag. done. }
  inversion Hrun as [|? ? ? ? Hr|? ? ? ? ? ? Hc Hcan Hr]; subst.
  - apply br_idle. by rewrite Hidem.
  - eapply br_spend; [done|by rewrite Hidem|by rewrite Hidem].
Qed.

(** In any hour, at most twice the summed capacities. *)
Lemma budget_window ab evs ab' t :
  budget_ok ab → is_u32 (last_refill_ms ab) → budget_run ab evs ab' →
  times_from t (t + AIRTIME_REFILL_INTERVAL_MS) evs → spent evs <= 2 * sum4 (max_ms ab).
Proof.
  intros Hok Hl Hrun Hev. destruct (four_list _ (bk_max ab Hok)) as (m0 & m1 & m2 & m3 & Hm).
  pose proof (bk_bucket ab Hok) as B.
  destruct evs as [|[t1 u1] evs].
  { unfold sum4, spent. rewrite Hm. simpl.
    four B. unfold bucket_ok in *.
    rewrite Hm in *. simpl in *. lia. }
  apply budget_run_refilled in Hrun; [|done|done].
  destruct (refill_spec ab (u32 t1) Hok Hl (u32_range _)) as (Hok' & Hl' & Hm' & _).
  destruct Hev as [Ht Hev]. unfold AIRTIME_REFILL_INTERVAL_MS in Ht.
  destruct (budget_run_bound _ _ _ t1 (t + AIRTIME_REFILL_INTERVAL_MS) Hrun Hok' Hl')
    as (d0 & d1 & d2 & d3 & N0 & N1 & N2 & N3 & Hs & P0 & P1 & P2 & P3).
  { split; [unfold AIRTIME_REFILL_INTERVAL_MS; lia|done]. }
  { unfold AIRTIME_REFILL_INTERVAL_MS. lia. }
  { unfold AIRTIME_REFILL_INTERVAL_MS. lia. }
  pose proof (bk_bucket _ Hok') as B'.
  four B'. unfold bucket_ok in *.
  unfold potential, AIRTIME_REFILL_INTERVAL_MS in *. rewrite Hm', Hm in *.
  unfold sum4. cbn [lookup_total list_lookup_total foldr] in *. rewrite <- Hs.
  assert (d0 <= 2 * m0) by nia. assert (d1 <= 2 * m1) by nia.
  assert (d2 <= 2 * m2) by nia. assert (d3 <= 2 * m3) by nia. lia.
Qed.
