(* ===== verification/TxGate.v ===== *)
(** * The transmit gate ([components/radio/tx_gate.c])

    The single way onto the air: budget check, listen-before-talk, transmit,
    debit.  The radio, the clock and the random source are the gate's injected
    operations: each call takes the values they return in a [tx_env].  The
    time-on-air formula ([radio_airtime.c]) computes in [double] and is the
    parameter [airtime_us]; nothing about its values is used. *)

From stdpp Require Import base numbers sets option decidable list.
From S2P Require Import Prelude Tables Airtime.

Inductive tx_kind_t :=
| TX_KIND_DATA | TX_KIND_DATA_BROADCAST | TX_KIND_DATA_RETRY | TX_KIND_FORWARD
| TX_KIND_MAILBOX | TX_KIND_BEACON | TX_KIND_ROUTING | TX_KIND_ACK | TX_KIND_RECEIPT
| TX_KIND_RECEIPT_FORWARD | TX_KIND_PROBE | TX_KIND_PROBE_REPLY.
#[global] Instance tx_kind_eq_dec : EqDecision tx_kind_t.
Proof. solve_decision. Defined.

Definition TX_GATE_OK : Z := 0.
Definition TX_GATE_ERR_RADIO : Z := -1.
Definition TX_GATE_ERR_BUDGET : Z := -2.
Definition TX_GATE_ERR_CHANNEL_BUSY : Z := -3.
Definition TX_GATE_LBT_MAX_ATTEMPTS : nat := 3.
Definition TX_GATE_LBT_BACKOFF_BASE_MS : Z := 50.
Definition TX_GATE_LBT_BACKOFF_MAX_MS : Z := 300.
Definition TX_GATE_FALLBACK_SF : Z := 9.
Definition TX_GATE_FALLBACK_BW_HZ : Z := 125000.
Definition TX_GATE_FALLBACK_CR : Z := 1.
Definition TX_GATE_BEACON_LANE_PCT : Z := 60.
Definition TX_GATE_BEACON_LIVENESS_CEILING_MS : Z := 480000.

(** What [tx_gate_ops_t] returns during one call: the live radio parameters,
    the time (unbounded; the gate reads it as [uint32_t]), the result of the
    [n]th channel check and random draw, and the radio's return code. *)
Record tx_env := mk_tx_env {
  env_sf : Z; env_bw_hz : Z; env_cr : Z; env_time : Z;
  env_busy : nat → bool; env_random : nat → Z; env_transmit : Z }.

(** The calls the gate makes on the radio, in order. *)
Inductive tx_event := EvCad (busy : bool) | EvDelay (ms : Z) | EvTransmit.
#[global] Instance tx_event_eq_dec : EqDecision tx_event.
Proof. solve_decision. Defined.

Record tx_gate_t := mk_tx_gate {
  budget : airtime_budget_t; beacon_wire_len : Z; beacon_budget_exempt : bool }.

Definition tx_gate_init (env : tx_env) (max_duty_cycle_pct : Z) (duty_cycle_enforced : bool)
    : tx_gate_t :=
  mk_tx_gate
    (airtime_budget_set_duty_cap (airtime_budget_init (u32 (env_time env)))
       max_duty_cycle_pct duty_cycle_enforced) 0 false.

Definition tx_gate_kind_tier (kind : tx_kind_t) : Z :=
  match kind with
  | TX_KIND_ROUTING | TX_KIND_ACK => AIRTIME_TIER_CRITICAL
  | TX_KIND_BEACON | TX_KIND_DATA_BROADCAST | TX_KIND_PROBE => AIRTIME_TIER_BROADCAST
  | TX_KIND_RECEIPT | TX_KIND_RECEIPT_FORWARD => AIRTIME_TIER_RECEIPT
  | TX_KIND_DATA | TX_KIND_DATA_RETRY | TX_KIND_FORWARD | TX_KIND_MAILBOX
  | TX_KIND_PROBE_REPLY => AIRTIME_TIER_NORMAL
  end.

Definition lbt_defers (kind : tx_kind_t) : bool := bool_decide (kind = TX_KIND_RECEIPT).
Definition beacon_exempt (g : tx_gate_t) (kind : tx_kind_t) : bool :=
  beacon_budget_exempt g && bool_decide (kind = TX_KIND_BEACON).

(** The backoff after attempt number [attempt], before the random part. *)
Definition lbt_backoff (attempt : nat) : Z :=
  let b := u32 (TX_GATE_LBT_BACKOFF_BASE_MS * (1 << Z.of_nat attempt)) in
  if b >? TX_GATE_LBT_BACKOFF_MAX_MS then TX_GATE_LBT_BACKOFF_MAX_MS else b.

(** The listen-before-talk loop with [n] attempts left: whether a check found
    the channel quiet, and the calls made. *)
Fixpoint lbt_loop (env : tx_env) (n attempt : nat) : bool * list tx_event :=
  match n with
  | O => (false, [])
  | S n' =>
      if negb (env_busy env attempt) then (true, [EvCad false])
      else
        let b := lbt_backoff attempt in
        let delay := u32 (b + env_random env attempt mod b) in
        let '(quiet, log) := lbt_loop env n' (S attempt) in
        (quiet, EvCad true :: EvDelay delay :: log)
  end.

Section Gate.
Variable airtime_us : Z → Z → Z → Z → Z.

Definition tx_gate_cost_ms (env : tx_env) (wire_len : Z) : Z :=
  let '(sf, bw_hz, cr) := (env_sf env, env_bw_hz env, env_cr env) in
  let '(sf, bw_hz, cr) :=
    if (sf <? 5) || (sf >? 12) || (bw_hz =? 0)
    then (TX_GATE_FALLBACK_SF, TX_GATE_FALLBACK_BW_HZ, TX_GATE_FALLBACK_CR)
    else (sf, bw_hz, cr) in
  let cr := if (cr <? 1) || (cr >? 4) then TX_GATE_FALLBACK_CR else cr in
  let us := airtime_us wire_len sf bw_hz cr in
  u32 (us + 999) / 1000.

Definition beacon_reserve_ms (g : tx_gate_t) (env : tx_env) (tier : Z) (kind : tx_kind_t) : Z :=
  if negb (tier =? AIRTIME_TIER_BROADCAST) || bool_decide (kind = TX_KIND_BEACON)
     || (beacon_wire_len g =? 0)
  then 0
  else tx_gate_cost_ms env (beacon_wire_len g).

Definition set_budget (g : tx_gate_t) (ab : airtime_budget_t) : tx_gate_t :=
  mk_tx_gate ab (beacon_wire_len g) (beacon_budget_exempt g).

Definition tx_gate_transmit (g : tx_gate_t) (env : tx_env) (len : Z) (kind : tx_kind_t)
    : Z * tx_gate_t * list tx_event :=
  let tier := tx_gate_kind_tier kind in
  let cost_ms := tx_gate_cost_ms env len in
  let exempt := beacon_exempt g kind in
  let g := set_budget g (airtime_budget_refill (budget g) (u32 (env_time env))) in
  if negb exempt &&
     negb (airtime_budget_can_transmit (budget g) tier
             (u32 (cost_ms + beacon_reserve_ms g env tier kind)))
  then (TX_GATE_ERR_BUDGET, g, [])
  else
    let '(quiet, log) := lbt_loop env TX_GATE_LBT_MAX_ATTEMPTS 0 in
    if negb quiet && lbt_defers kind then (TX_GATE_ERR_CHANNEL_BUSY, g, log)
    else if negb (env_transmit env =? 0) then (TX_GATE_ERR_RADIO, g, log ++ [EvTransmit])
    else
      let g := if negb exempt then set_budget g (airtime_budget_debit (budget g) tier cost_ms) else g in
      (TX_GATE_OK, g, log ++ [EvTransmit]).

Definition tx_gate_can_transmit (g : tx_gate_t) (env : tx_env) (wire_len : Z) (kind : tx_kind_t)
    : bool * tx_gate_t :=
  if beacon_exempt g kind then (true, g)
  else
    let tier := tx_gate_kind_tier kind in
    let cost_ms := tx_gate_cost_ms env wire_len in
    let g := set_budget g (airtime_budget_refill (budget g) (u32 (env_time env))) in
    (airtime_budget_can_transmit (budget g) tier (u32 (cost_ms + beacon_reserve_ms g env tier kind)), g).

Definition tx_gate_set_beacon_budget_exempt_core (g : tx_gate_t) (exempt : bool) : tx_gate_t :=
  mk_tx_gate (budget g) (beacon_wire_len g) exempt.
Definition tx_gate_set_mesh_size (g : tx_gate_t) (peer_count : Z) : tx_gate_t :=
  set_budget g (airtime_budget_set_mesh_size (budget g) peer_count).
Definition tx_gate_set_beacon_profile (g : tx_gate_t) (wire_len : Z) : tx_gate_t :=
  mk_tx_gate (budget g) wire_len (beacon_budget_exempt g).

Definition tx_gate_min_beacon_interval_ms (g : tx_gate_t) (env : tx_env) : Z :=
  if beacon_budget_exempt g then 0
  else if beacon_wire_len g =? 0 then 0
  else
    let cost_ms := tx_gate_cost_ms env (beacon_wire_len g) in
    let lane_per_hr := max_ms (budget g) !!! AIRTIME_IDX_BROADCAST in
    let beacon_budget_per_hr := u64 (lane_per_hr * TX_GATE_BEACON_LANE_PCT) / 100 in
    if beacon_budget_per_hr =? 0 then AIRTIME_REFILL_INTERVAL_MS
    else
      let ceil_div d := u64 (u64 (cost_ms * AIRTIME_REFILL_INTERVAL_MS) + d - 1) / d in
      let interval := ceil_div beacon_budget_per_hr in
      let interval :=
        if (interval >? TX_GATE_BEACON_LIVENESS_CEILING_MS) && (lane_per_hr >? 0) then
          let full_lane_floor := ceil_div lane_per_hr in
          if full_lane_floor >? TX_GATE_BEACON_LIVENESS_CEILING_MS then full_lane_floor
          else TX_GATE_BEACON_LIVENESS_CEILING_MS
        else interval in
      let interval :=
        if interval >? AIRTIME_REFILL_INTERVAL_MS then AIRTIME_REFILL_INTERVAL_MS else interval in
      u32 interval.
End Gate.

(** ** Sequences of gate calls *)

Inductive gate_op :=
| GTransmit (env : tx_env) (len : Z) (kind : tx_kind_t)
| GCheck (env : tx_env) (len : Z) (kind : tx_kind_t)
| GBeaconSize (len : Z)
| GMeshSize (peer_count : Z).

Section Runs.
Variable airtime_us : Z → Z → Z → Z → Z.

(** One call: the gate afterwards and, for the calls that read the clock, the
    time and the airtime of the frame put on the air (0 if none). *)
Definition gate_step (g : tx_gate_t) (op : gate_op) : tx_gate_t * list (Z * Z) :=
  match op with
  | GTransmit env len kind =>
      let '(ret, g', _) := tx_gate_transmit airtime_us g env len kind in
      (g', [(env_time env, if ret =? TX_GATE_OK then tx_gate_cost_ms airtime_us env len else 0)])
  | GCheck env len kind => ((tx_gate_can_transmit airtime_us g env len kind).2, [(env_time env, 0)])
  | GBeaconSize len => (tx_gate_set_beacon_profile g len, [])
  | GMeshSize n => (tx_gate_set_mesh_size g n, [])
  end.
Fixpoint gate_run (g : tx_gate_t) (ops : list gate_op) : tx_gate_t * list (Z * Z) :=
  match ops with
  | [] => (g, [])
  | op :: ops =>
      let '(g, evs) := gate_step g op in
      let '(g', evs') := gate_run g ops in (g', evs ++ evs')
  end.
(** Airtime put on the air by a sequence of calls, in ms. *)
Definition on_air (g : tx_gate_t) (ops : list gate_op) : Z := spent (gate_run g ops).2.

Definition op_fixed (op : gate_op) : Prop :=
  match op with GMeshSize _ => False | _ => True end.
Fixpoint ops_within (t limit : Z) (ops : list gate_op) : Prop :=
  match ops with
  | [] => True
  | GTransmit env _ _ :: ops | GCheck env _ _ :: ops =>
      t <= env_time env <= limit ∧ ops_within (env_time env) limit ops
  | _ :: ops => ops_within t limit ops
  end.

(** The gate on a device: budgeted, beacons included, under a duty cycle. *)
Record gate_ok (pct : Z) (g : tx_gate_t) : Prop := mk_gate_ok {
  gk_budget : budget_ok (budget g);
  gk_last : is_u32 (last_refill_ms (budget g));
  gk_exempt : beacon_budget_exempt g = false;
  gk_enforced : duty_enforced (budget g) = true;
  gk_cap : duty_cap_ms (budget g) = 36000 * pct }.

(** Everything the gate can become after [tx_gate_init] with the cap enforced. *)
Inductive gate_reach (pct : Z) : tx_gate_t → Prop :=
| greach_init env : gate_reach pct (tx_gate_init env pct true)
| greach_step g op : gate_reach pct g → gate_reach pct (gate_step g op).1.

Lemma tx_gate_cost_range env len : 0 <= tx_gate_cost_ms airtime_us env len <= 4294967.
Proof.
  unfold tx_gate_cost_ms. destruct (_ || _ || _);
    match goal with |- context [u32 ?x] => pose proof (u32_range x) as H; generalize dependent (u32 x) end;
    unfold is_u32; intros z Hz; Z.to_euclidean_division_equations; lia.
Qed.

Lemma beacon_reserve_range g env tier kind :
  0 <= beacon_reserve_ms airtime_us g env tier kind <= 4294967.
Proof. unfold beacon_reserve_ms. split_if; [lia|apply tx_gate_cost_range]. Qed.

Lemma set_mesh_size_fields ab n :
  last_refill_ms (airtime_budget_set_mesh_size ab n) = last_refill_ms ab ∧
  duty_enforced (airtime_budget_set_mesh_size ab n) = duty_enforced ab ∧
  duty_cap_ms (airtime_budget_set_mesh_size ab n) = duty_cap_ms ab.
Proof. unfold airtime_budget_set_mesh_size. by split_if. Qed.

(** A clocked call refills and then either leaves the buckets alone or debits
    exactly the airtime of the frame it put on the air. *)
Lemma gate_step_budget pct g op :
  gate_ok pct g → op_fixed op →
  gate_ok pct (gate_step g op).1 ∧ max_ms (budget (gate_step g op).1) = max_ms (budget g) ∧
  ∀ evs ab', budget_run (budget (gate_step g op).1) evs ab' →
    budget_run (budget g) ((gate_step g op).2 ++ evs) ab'.
Proof.
  intros [Hb Hl He Hen Hc] Hop.
  destruct op as [env len kind|env len kind|len|n]; [| | |done].
  - destruct (refill_spec (budget g) (u32 (env_time env)) Hb Hl (u32_range _))
      as (Hb' & Hl' & Hm' & Hc' & He' & _).
    assert (Hrok : gate_ok pct (set_budget g (airtime_budget_refill (budget g) (u32 (env_time env))))).
    { constructor; simpl; [done|rewrite Hl'; apply u32_range|done|congruence|congruence]. }
    simpl. unfold tx_gate_transmit. unfold beacon_exempt. rewrite He. cbn [andb negb].
    pose proof (tx_gate_cost_range env len) as Hcost.
    set (g1 := set_budget g _) in *.
    pose proof (beacon_reserve_range g1 env (tx_gate_kind_tier kind) kind) as Hres.
    rewrite u32_id by (unfold is_u32; lia).
    destruct (airtime_budget_can_transmit _ _ _) eqn:Hcan; cbn [negb].
    2:{ split_and!; [done|done|]. intros evs ab' Hr. apply br_idle. exact Hr. }
    destruct (lbt_loop env TX_GATE_LBT_MAX_ATTEMPTS 0) as [quiet log].
    destruct (negb quiet && lbt_defers kind).
    { split_and!; [done|done|]. intros evs ab' Hr. apply br_idle. exact Hr. }
    destruct (env_transmit env =? 0); cbn [negb].
    2:{ split_and!; [done|done|]. intros evs ab' Hr. apply br_idle. exact Hr. }
    apply can_transmit_mono in Hcan; [|done|lia|lia|lia].
    destruct (debit_spec _ (tx_gate_kind_tier kind) (tx_gate_cost_ms airtime_us env len) Hb'
      ltac:(lia) ltac:(lia) Hcan) as (Hb2 & Hl2 & Hm2 & Hc2 & He2 & _).
    split_and!.
    + constructor; simpl; [done|rewrite Hl2, Hl'; apply u32_range|done|congruence|congruence].
    + simpl. congruence.
    + intros evs ab' Hr. refine (br_spend _ _ _ _ _ _ _ Hcan Hr). lia.
  - destruct (refill_spec (budget g) (u32 (env_time env)) Hb Hl (u32_range _))
      as (Hb' & Hl' & Hm' & Hc' & He' & _).
    simpl. unfold tx_gate_can_transmit, beacon_exempt. rewrite He. cbn [andb snd].
    split_and!; [|done|].
    + constructor; simpl; [done|rewrite Hl'; apply u32_range|done|congruence|congruence].
    + intros evs ab' Hr. apply br_idle. exact Hr.
  - split_and!; [by constructor|done|]. intros evs ab' Hr. exact Hr.
Qed.

Lemma gate_step_ok pct g op : gate_ok pct g → gate_ok pct (gate_step g op).1.
Proof.
  intros Hok. destruct op as [env len kind|env len kind|len|n];
    try (by apply gate_step_budget).
  destruct Hok as [Hb Hl He Hen Hc]. destruct (set_mesh_size_fields (budget g) n) as (H1 & H2 & H3).
  constructor; simpl; [by apply set_mesh_size_ok|congruence|done|congruence|congruence].
Qed.

Lemma gate_reach_ok pct g : is_u8 pct → pct <= 100 → gate_reach pct g → gate_ok pct g.
Proof.
  intros Hp Hle. induction 1 as [env|g op _ IH]; [|by apply gate_step_ok].
  destruct (set_duty_cap_ok (airtime_budget_init (u32 (env_time env))) pct true
    (airtime_budget_init_ok _) Hp) as (H1 & H2 & H3).
  constructor; cbn [tx_gate_init budget beacon_budget_exempt];
    [done|exact (u32_range (env_time env))|done|done|]. rewrite H2. lia.
Qed.

Lemma gate_run_budget pct ops : ∀ g,
  gate_ok pct g → Forall op_fixed ops →
  ∃ ab', budget_run (budget g) (gate_run g ops).2 ab' ∧
    (∀ t limit, ops_within t limit ops → times_from t limit (gate_run g ops).2).
Proof.
  induction ops as [|op ops IH]; intros g Hok Hops; simpl.
  { eexists. split; [constructor|done]. }
  apply Forall_cons in Hops as [Hop Hops].
  destruct (gate_step_budget pct g op Hok Hop) as (Hok' & _ & Hext).
  destruct (IH _ Hok' Hops) as (ab' & Hrun & Htimes).
  destruct (gate_step g op) as [g1 evs] eqn:E. simpl in *.
  destruct (gate_run g1 ops) as [g2 evs']. simpl in *. exists ab'. split; [by apply Hext|].
  intros t limit Hw. destruct op as [env len kind|env len kind|len|n]; simpl in *; [| | |done].
  - destruct (tx_gate_transmit _ _ _ _ _) as [[ret ?] ?]. injection E as _ <-.
    destruct Hw. simpl. split; [done|by apply Htimes].
  - injection E as _ <-. destruct Hw. simpl. split; [done|by apply Htimes].
  - injection E as _ <-. simpl. by apply Htimes.
Qed.
End Runs.

(** ** Properties *)

(** C5. Regulatory duty cycle: with a cap of [pct] percent enforced, from every
    reachable gate state and for any sequence of transmissions, checks and
    beacon-size changes within one hour (whatever the kinds, sizes, radio
    settings and channel conditions) at an unchanged mesh size, the frames put
    on the air take at most [pct] percent of the hour. *)
Theorem duty_cycle_respected (airtime_us : Z → Z → Z → Z → Z) pct g t ops :
  1 <= pct <= 100 → gate_reach airtime_us pct g → Forall op_fixed ops →
  ops_within t (t + AIRTIME_REFILL_INTERVAL_MS) ops →
  on_air airtime_us g ops <= 36000 * pct.
Proof.
  intros Hp Hg Hops Hw.
  assert (Hok : gate_ok pct g) by (eapply gate_reach_ok; [unfold is_u8; lia|lia|exact Hg]).
  destruct (gate_run_budget airtime_us pct ops g Hok Hops) as (ab' & Hrun & Htimes).
  pose proof (budget_window _ _ _ t (gk_budget _ _ Hok) (gk_last _ _ Hok) Hrun (Htimes _ _ Hw)).
  pose proof (bk_duty _ (gk_budget _ _ Hok) (gk_enforced _ _ Hok)) as Hd.
  rewrite (gk_cap _ _ Hok) in Hd. unfold on_air. lia.
Qed.

Definition demo_env (t : Z) : tx_env := mk_tx_env 9 125000 1 t (λ _, false) (λ _, 0) 0.
Definition demo_us (len sf bw cr : Z) : Z := 2900000.

Lemma duty_cycle_respected_witness :
  on_air demo_us (tx_gate_init (demo_env 0) 1 true)
    [GTransmit (demo_env 10) 20 TX_KIND_DATA; GTransmit (demo_env 20) 20 TX_KIND_ACK;
     GTransmit (demo_env 30) 20 TX_KIND_DATA] <= 36000 * 1.
Proof.
  apply (duty_cycle_respected demo_us 1 _ 0).
  - lia.
  - apply greach_init.
  - repeat constructor.
  - unfold AIRTIME_REFILL_INTERVAL_MS. simpl. lia.
Defined.

(** A change of the neighbor count refills every bucket, so the cap is not
    kept across such changes: with 1 percent enforced, a burst of 15 frames of
    2.9 s, with the mesh size alternating between 1 and 2 peers, puts 43.5 s on
    the air in the same second, where an hour allows 36 s. *)
Definition burst (n : Z) : list gate_op :=
  [GMeshSize n; GTransmit (demo_env 1000) 20 TX_KIND_DATA; GTransmit (demo_env 1000) 20 TX_KIND_ACK;
   GTransmit (demo_env 1000) 20 TX_KIND_BEACON; GTransmit (demo_env 1000) 20 TX_KIND_BEACON;
   GTransmit (demo_env 1000) 20 TX_KIND_RECEIPT].

Theorem mesh_size_changes_exceed_duty_cycle :
  (∀ ab n, profile_peer_count ab ≠ n →
     tokens_ms (airtime_budget_set_mesh_size ab n) = max_ms (airtime_budget_set_mesh_size ab n)) ∧
  on_air demo_us (tx_gate_init (demo_env 0) 1 true) (burst 1 ++ burst 2 ++ burst 1) = 43500.
Proof.
  split; [|vm_compute; reflexivity]. intros ab n Hne.
  unfold airtime_budget_set_mesh_size. rewrite (proj2 (Z.eqb_neq _ _) Hne). done.
Qed.

(** The backoff after each attempt and the bound on the random part. *)
Lemma lbt_delay_range env attempt :
  (attempt < TX_GATE_LBT_MAX_ATTEMPTS)%nat → 0 <= env_random env attempt →
  let b := lbt_backoff attempt in
  b = 50 * 2 ^ Z.of_nat attempt ∧ b <= u32 (b + env_random env attempt mod b) < 2 * b.
Proof.
  intros Ha Hr. unfold TX_GATE_LBT_MAX_ATTEMPTS in Ha.
  assert (Hb : lbt_backoff attempt = 50 * 2 ^ Z.of_nat attempt)
    by (destruct attempt as [|[|[|]]]; [reflexivity..|lia]).
  cbv zeta. rewrite Hb. split; [done|].
  assert (50 <= 50 * 2 ^ Z.of_nat attempt <= 200)
    by (destruct attempt as [|[|[|]]]; [simpl; lia..|lia]).
  pose proof (Z.mod_pos_bound (env_random env attempt) (50 * 2 ^ Z.of_nat attempt) ltac:(lia)).
  rewrite u32_id by (unfold is_u32; lia). lia.
Qed.

Definition delays (log : list tx_event) : Z :=
  foldr (λ e s, match e with EvDelay ms => ms + s | _ => s end) 0 log.
Definition is_cad (e : tx_event) : bool := match e with EvCad _ => true | _ => false end.
Definition cads (log : list tx_event) : nat := length (filter (λ e, is_cad e = true) log).

Lemma lbt_loop_bounds env : (∀ n, 0 <= env_random env n) →
  let '(quiet, log) := lbt_loop env TX_GATE_LBT_MAX_ATTEMPTS 0 in
  (EvTransmit ∉ log) ∧ (1 ≤ cads log ≤ 3)%nat ∧ 0 <= delays log < 700 ∧
  (quiet = true ↔ ∃ n, (n < 3)%nat ∧ env_busy env n = false).
Proof.
  intros Hr. unfold TX_GATE_LBT_MAX_ATTEMPTS. cbn [lbt_loop].
  destruct (lbt_delay_range env 0 ltac:(vm_compute; lia) (Hr _)) as [E0 D0].
  destruct (lbt_delay_range env 1 ltac:(vm_compute; lia) (Hr _)) as [E1 D1].
  destruct (lbt_delay_range env 2 ltac:(vm_compute; lia) (Hr _)) as [E2 D2].
  rewrite E0 in D0. rewrite E1 in D1. rewrite E2 in D2. rewrite E0, E1, E2.
  generalize dependent (u32 (50 * 2 ^ Z.of_nat 0 + env_random env 0 mod (50 * 2 ^ Z.of_nat 0))).
  generalize dependent (u32 (50 * 2 ^ Z.of_nat 1 + env_random env 1 mod (50 * 2 ^ Z.of_nat 1))).
  generalize dependent (u32 (50 * 2 ^ Z.of_nat 2 + env_random env 2 mod (50 * 2 ^ Z.of_nat 2))).
  intros d2 D2 d1 D1 d0 D0. simpl in D0, D1, D2.
  destruct (env_busy env 0) eqn:B0; cbn [negb];
    [destruct (env_busy env 1) eqn:B1; cbn [negb];
      [destruct (env_busy env 2) eqn:B2; cbn [negb]|]|];
    (split_and!; [set_solver|vm_compute; lia|vm_compute; lia|unfold delays; simpl; lia
      |unfold delays; simpl; lia|]); split; intros Hq; try done;
    try (destruct Hq as ([|[|[|n]]] & Hn & Hbn); [congruence..|lia]).
  - exists 2%nat. split; [lia|done].
  - exists 1%nat. split; [lia|done].
  - exists 0%nat. split; [lia|done].
Qed.

(** What a transmit call does, on every path: a denied budget leaves the
    radio untouched; otherwise the channel is checked at most three times with
    under 700 ms of backoff; only an originated receipt gives way to a busy
    channel, without transmitting; the frame is otherwise sent exactly once,
    and the buckets are debited exactly its airtime if and only if the radio
    accepted it (never for an exempt beacon). *)
Theorem tx_gate_transmit_behaviour (airtime_us : Z → Z → Z → Z → Z) g env len kind :
  (∀ n, 0 <= env_random env n) →
  let '(ret, g', log) := tx_gate_transmit airtime_us g env len kind in
  let refilled := airtime_budget_refill (budget g) (u32 (env_time env)) in
  let cost := tx_gate_cost_ms airtime_us env len in
  let quiet := ∃ n, (n < 3)%nat ∧ env_busy env n = false in
  (EvTransmit ∈ log ↔ ret = TX_GATE_OK ∨ ret = TX_GATE_ERR_RADIO) ∧
  length (filter (λ e, e = EvTransmit) log) = (if decide (EvTransmit ∈ log) then 1 else 0)%nat ∧
  (cads log ≤ 3)%nat ∧ delays log < 700 ∧
  (ret = TX_GATE_ERR_BUDGET → log = []) ∧
  (ret = TX_GATE_ERR_CHANNEL_BUSY → kind = TX_KIND_RECEIPT ∧ ¬ quiet) ∧
  budget g' =
    (if bool_decide (ret = TX_GATE_OK) && negb (beacon_exempt g kind)
     then airtime_budget_debit refilled (tx_gate_kind_tier kind) cost else refilled).
Proof.
  intros Hr. unfold tx_gate_transmit.
  assert (Hcount : ∀ l : list tx_event, EvTransmit ∉ l → filter (λ e, e = EvTransmit) l = []).
  { intros l Hl. induction l as [|e l IH]; [done|].
    rewrite list.filter_cons, decide_False by set_solver. apply IH. set_solver. }
  destruct (negb (beacon_exempt g kind) && _) eqn:E.
  { repeat match goal with |- _ ∧ _ => split end; try done.
    - split; [set_solver|intros [?|?]; done].
    - vm_compute. lia. }
  pose proof (lbt_loop_bounds env Hr) as Hlbt.
  destruct (lbt_loop env TX_GATE_LBT_MAX_ATTEMPTS 0) as [quiet log].
  destruct Hlbt as (Hno & Hcads & Hdel & Hq).
  destruct (negb quiet && lbt_defers kind) eqn:Ed.
  { conds. unfold lbt_defers in *.
    repeat match goal with |- _ ∧ _ => split end; try done; try lia.
    - split; [done|intros [?|?]; done].
    - by rewrite Hcount, decide_False.
    - intros _. split; [by eapply bool_decide_eq_true_1|]. rewrite <- Hq. by destruct quiet. }
  assert (Hin : EvTransmit ∈ log ++ [EvTransmit]) by set_solver.
  assert (Hc1 : cads (log ++ [EvTransmit]) = cads log)
    by (unfold cads; rewrite list.filter_app; by rewrite app_nil_r).
  assert (Hd1 : delays (log ++ [EvTransmit]) = delays log)
    by (unfold delays; rewrite foldr_app; done).
  assert (Hone : length (filter (λ e, e = EvTransmit) (log ++ [EvTransmit])) = 1%nat)
    by (rewrite list.filter_app, Hcount by done; reflexivity).
  destruct (env_transmit env =? 0); cbn [negb];
    (split; [split; eauto|]); (split; [by rewrite Hone, decide_True|]);
    (split; [lia|]); (split; [lia|]); (split; [done|]); (split; [done|]).
  - rewrite bool_decide_true by done. simpl. by destruct (beacon_exempt g kind).
  - done.
Qed.

Lemma tx_gate_transmit_behaviour_witness :
  let '(ret, _, log) := tx_gate_transmit demo_us (tx_gate_init (demo_env 0) 1 true) (demo_env 5) 20
                          TX_KIND_DATA in
  (EvTransmit ∈ log ↔ ret = TX_GATE_OK ∨ ret = TX_GATE_ERR_RADIO) ∧ ret = TX_GATE_OK.
Proof.
  pose proof (tx_gate_transmit_behaviour demo_us (tx_gate_init (demo_env 0) 1 true) (demo_env 5) 20
    TX_KIND_DATA) as H.
  destruct (tx_gate_transmit _ _ _ _ _) as [[ret g'] log] eqn:E.
  destruct H as (H1 & _); [intros; simpl; lia|]. split; [exact H1|].
  vm_compute in E. injection E as <- _ _. reflexivity.
Defined.
