(* ===== verification/Reliability.v ===== *)
(** * Acknowledged delivery ([components/reliability] and the retry tick of
    [main/mesh_task.c])

    Eight frames awaiting an acknowledgement, each kept verbatim with its retry
    count and deadline.  [pending_ack_tick] is the component's own timer;
    [ack_retry_entry] is the per-entry body of the firmware's tick, which also
    retransmits.  Random numbers are arguments. *)

From stdpp Require Import base numbers sets option decidable list.
From S2P Require Import Prelude Tables.

Definition MSG_TIER_BROADCAST : Z := 0.
Definition MSG_TIER_NORMAL : Z := 1.
Definition MSG_TIER_CRITICAL : Z := 2.
Definition MAX_PENDING_ACKS : nat := 8.
Definition PENDING_ACK_MAX_FRAME : nat := 255.

Record pending_ack_t := mk_pending {
  pa_packet_id : Z; pa_dest_addr : Z; pa_tier : Z; pa_attempt : Z; pa_max_attempts : Z;
  pa_next_retry_ms : Z; pa_packet_len : nat; pa_packet_data : list Z; pa_active : bool }.

(** [pending_ack_table_t] has the entry array as its only member. *)
Abbreviation pending_ack_table_t := (list pending_ack_t).

Definition pending_zero : pending_ack_t :=
  mk_pending 0 0 0 0 0 0 0 (replicate PENDING_ACK_MAX_FRAME 0) false.
#[global] Instance pending_inhabited : Inhabited pending_ack_t := populate pending_zero.

Definition tier_max_retries (tier : Z) : Z :=
  if tier =? MSG_TIER_BROADCAST then 0
  else if tier =? MSG_TIER_NORMAL then 3
  else if tier =? MSG_TIER_CRITICAL then 8
  else 0.
Definition tier_base_delay_ms (tier : Z) : Z :=
  if tier =? MSG_TIER_NORMAL then 2000
  else if tier =? MSG_TIER_CRITICAL then 3000
  else 0.
Definition msg_tier_for_send (is_key_exchange : bool) : Z :=
  if is_key_exchange then MSG_TIER_CRITICAL else MSG_TIER_NORMAL.

Definition pending_ack_init : pending_ack_table_t := replicate MAX_PENDING_ACKS pending_zero.

Definition set_active (e : pending_ack_t) (a : bool) : pending_ack_t :=
  mk_pending (pa_packet_id e) (pa_dest_addr e) (pa_tier e) (pa_attempt e) (pa_max_attempts e)
    (pa_next_retry_ms e) (pa_packet_len e) (pa_packet_data e) a.

(** The index returned is [None] for the [-1]; the outer [None] is an access
    outside a buffer.  The caller's [packet] is never NULL. *)
Definition pending_ack_add (table : pending_ack_table_t) (packet_id dest_addr tier : Z)
    (packet : list Z) (len : nat) (now_ms : Z) : option (option nat * pending_ack_table_t) :=
  match find_index (λ e, negb (pa_active e)) table with
  | None => Some (None, table)
  | Some i =>
      let e := table !!! i in
      let stored := if decide (length (pa_packet_data e) < len)%nat
                    then length (pa_packet_data e) else len in
      data ← (if decide (0 < stored)%nat
              then bytes ← rdn packet 0 stored; wr (pa_packet_data e) 0 bytes
              else Some (pa_packet_data e));
      Some (Some i, <[i := mk_pending packet_id dest_addr tier 0 (tier_max_retries tier)
                             (now_ms ⊕ tier_base_delay_ms tier) stored data true]> table)
  end.

Definition pending_for (packet_id : Z) (e : pending_ack_t) : bool :=
  pa_active e && (pa_packet_id e =? packet_id).

Definition pending_ack_remove (table : pending_ack_table_t) (packet_id : Z)
    : bool * pending_ack_table_t :=
  match find_index (pending_for packet_id) table with
  | Some i => (true, <[i := set_active (table !!! i) false]> table)
  | None => (false, table)
  end.

Definition pending_ack_is_active (table : pending_ack_table_t) (packet_id : Z) : bool :=
  if packet_id =? 0 then false
  else match find_index (pending_for packet_id) table with Some _ => true | None => false end.

Definition jitter_25 (rand base : Z) : Z :=
  let quarter := base / 4 in
  if quarter =? 0 then base else u32 (base - quarter + rand mod (2 * quarter + 1)).

Definition reschedule (e : pending_ack_t) (attempt next_retry_ms : Z) : pending_ack_t :=
  mk_pending (pa_packet_id e) (pa_dest_addr e) (pa_tier e) attempt (pa_max_attempts e)
    next_retry_ms (pa_packet_len e) (pa_packet_data e) (pa_active e).

(** The loop body of [pending_ack_tick]. *)
Definition tick_entry (now_ms rand : Z) (e : pending_ack_t) : pending_ack_t :=
  if negb (pa_active e) then e
  else if now_ms >=? pa_next_retry_ms e then
    let attempt := u8 (pa_attempt e + 1) in
    let e := reschedule e attempt (pa_next_retry_ms e) in
    if attempt >=? pa_max_attempts e then set_active e false
    else
      let delay := u32 (tier_base_delay_ms (pa_tier e) << attempt) in
      reschedule e attempt (now_ms ⊕ jitter_25 rand delay)
  else e.
Definition pending_ack_tick (table : pending_ack_table_t) (now_ms : Z) (rand : nat → Z)
    : pending_ack_table_t :=
  imap (λ i e, tick_entry now_ms (rand i) e) table.

(** What the firmware's tick does with an entry. *)
Inductive retry_action := RNone | RRetransmit (frame : list Z) | RGiveUp.

Definition ack_retry_entry (t rand : Z) (e : pending_ack_t) : retry_action * pending_ack_t :=
  if negb (pa_active e) then (RNone, e)
  else if t >=? pa_next_retry_ms e then
    if pa_attempt e >=? pa_max_attempts e then (RGiveUp, set_active e false)
    else
      let attempt := u8 (pa_attempt e + 1) in
      let delay := u32 (tier_base_delay_ms (pa_tier e) << attempt) in
      let quarter := delay / 4 in
      let delay := if quarter >? 0 then u32 (delay - quarter + rand mod (2 * quarter + 1)) else delay in
      (RRetransmit (take (pa_packet_len e) (pa_packet_data e)), reschedule e attempt (t ⊕ delay))
  else (RNone, e).

(** ** The table *)

Definition entry_ok (e : pending_ack_t) : Prop :=
  length (pa_packet_data e) = PENDING_ACK_MAX_FRAME ∧
  (pa_packet_len e ≤ PENDING_ACK_MAX_FRAME)%nat.
Definition pending_wf (table : pending_ack_table_t) : Prop :=
  length table = MAX_PENDING_ACKS ∧ Forall entry_ok table.

Lemma pending_init_wf : pending_wf pending_ack_init.
Proof.
  split; [done|]. apply Forall_replicate. split; [done|]. unfold PENDING_ACK_MAX_FRAME. simpl. lia.
Qed.

Lemma entry_ok_reschedule e a n : entry_ok e → entry_ok (reschedule e a n).
Proof. done. Qed.

(** Pending acknowledgements: a frame of up to 255 bytes is recorded
    verbatim, with its tier's retry count and first deadline, in the first free
    of the eight entries; only a full table refuses (-1); longer frames are cut
    to 255 bytes, never beyond; an acknowledgement deactivates exactly one
    entry for its packet and is reported iff there was one. *)
Theorem pending_ack_add_remove table packet_id dest tier packet len now :
  pending_wf table → (len ≤ length packet)%nat →
  (∃ r table', pending_ack_add table packet_id dest tier packet len now = Some (r, table') ∧
     pending_wf table' ∧
     match r with
     | None => Forall (λ e, pa_active e = true) table ∧ table' = table
     | Some i => ∃ e, table' = <[i := e]> table ∧ (i < 8)%nat ∧ pa_active (table !!! i) = false ∧
         pa_active e = true ∧ pa_packet_id e = packet_id ∧ pa_attempt e = 0 ∧
         pa_max_attempts e = tier_max_retries tier ∧
         pa_next_retry_ms e = now ⊕ tier_base_delay_ms tier ∧
         take (pa_packet_len e) (pa_packet_data e) = take (Nat.min len 255) packet
     end) ∧
  (let '(ok, table') := pending_ack_remove table packet_id in
   pending_wf table' ∧ (ok = true ↔ ∃ e, e ∈ table ∧ pending_for packet_id e = true) ∧
   (ok = false → table' = table) ∧
   (ok = true → ∃ i e, table !! i = Some e ∧ pending_for packet_id e = true ∧
      table' = <[i := set_active e false]> table)).
Proof.
  intros [Hlen Hok] Hp. split.
  - unfold pending_ack_add. destruct (find_index _ table) as [i|] eqn:E.
    2:{ apply find_index_None in E. eexists _, _. split; [done|]. split; [done|]. split; [|done].
        eapply Forall_impl; [done|]. intros e He. simpl in He. by conds. }
    pose proof (find_index_lt _ _ _ E) as Hlt.
    apply find_index_Some in E as (e & Hi & Ha & _). conds.
    pose proof (Forall_lookup_1 _ _ _ _ Hok Hi) as [He1 He2].
    rewrite (list_lookup_total_correct _ _ _ Hi), He1.
    set (stored := if decide (PENDING_ACK_MAX_FRAME < len)%nat then PENDING_ACK_MAX_FRAME else len).
    assert (Hst : stored = Nat.min len 255)
      by (unfold stored; unfold PENDING_ACK_MAX_FRAME; case_decide; lia).
    assert (Hdata : ∃ data, (if decide (0 < stored)%nat
        then bytes ← rdn packet 0 stored; wr (pa_packet_data e) 0 bytes
        else Some (pa_packet_data e)) = Some data ∧
      length data = PENDING_ACK_MAX_FRAME ∧ take stored data = take stored packet).
    { unfold PENDING_ACK_MAX_FRAME in *. case_decide as H0.
      - rewrite rdn_some by lia. cbn [mbind option_bind]. rewrite drop_0.
        rewrite <- (filled_nil (pa_packet_data e)), wr_filled
          by (simpl; rewrite ?length_take; lia).
        eexists. split_and!; [done|rewrite length_filled; [done|]|].
        + simpl. rewrite length_take. lia.
        + unfold filled. simpl.
          rewrite <- (length_take_le packet stored) at 1 by lia. apply take_app_length.
      - eexists. split_and!; [done|done|]. replace stored with 0%nat by lia. by rewrite !take_0. }
    destruct Hdata as (data & -> & Hd1 & Hd2). cbn [mbind option_bind].
    eexists _, _. split; [done|]. split.
    + split; [by rewrite length_insert|]. apply Forall_insert; [done|].
      split; [done|]. simpl. unfold PENDING_ACK_MAX_FRAME. lia.
    + eexists. split; [done|]. unfold MAX_PENDING_ACKS in Hlen.
      rewrite (list_lookup_total_correct _ _ _ Hi).
      split_and!; [lia|done|done|done|done|done|done|]. simpl. by rewrite Hd2, Hst.
  - unfold pending_ack_remove. destruct (find_index _ table) as [i|] eqn:E.
    + apply find_index_Some in E as (e & Hi & Hf & _).
      rewrite (list_lookup_total_correct _ _ _ Hi). split; [split|split; [|split]].
      * by rewrite length_insert.
      * apply Forall_insert; [done|]. exact (Forall_lookup_1 _ _ _ _ Hok Hi).
      * split; [|done]. intros _. exists e. split; [by eapply list_elem_of_lookup_2|done].
      * done.
      * intros _. eauto.
    + apply find_index_None in E. split; [done|]. split; [|done]. split; [done|].
      intros (e & He & Hf). rewrite Forall_forall in E. specialize (E e He). congruence.
Qed.

Lemma pending_ack_add_remove_witness :
  ∃ r table', pending_ack_add pending_ack_init 5 6 1 [1; 2; 3] 3 100 = Some (r, table') ∧
    pending_wf table' ∧ (pending_ack_remove pending_ack_init 5).1 = false.
Proof.
  destruct (pending_ack_add_remove pending_ack_init 5 6 1 [1; 2; 3] 3 100 pending_init_wf)
    as [(r & table' & H1 & H2 & _) _]; [simpl; lia|].
  exists r, table'. split; [exact H1|]. split; [exact H2|reflexivity].
Defined.

(** ** Retries *)

(** One entry over the ticks at times [ts] with their random numbers, with the
    frames retransmitted. *)
Fixpoint retry_run (e : pending_ack_t) (ts : list (Z * Z)) : list (list Z) * pending_ack_t :=
  match ts with
  | [] => ([], e)
  | (t, r) :: ts =>
      let '(a, e) := ack_retry_entry t r e in
      let '(frames, e) := retry_run e ts in
      (match a with RRetransmit f => f :: frames | _ => frames end, e)
  end.

(** Every tick comes at or after the entry's deadline of that moment. *)
Fixpoint all_due (e : pending_ack_t) (ts : list (Z * Z)) : Prop :=
  match ts with
  | [] => True
  | (t, r) :: ts => pa_next_retry_ms e <= t ∧ all_due (ack_retry_entry t r e).2 ts
  end.

(** An entry within its retry bound. *)
Definition retry_ok (e : pending_ack_t) : Prop :=
  0 <= pa_attempt e <= pa_max_attempts e ∧ pa_max_attempts e <= 8 ∧
  (0 < pa_max_attempts e → pa_tier e = 1 ∨ pa_tier e = 2).

(** A retransmission raises the attempt count and sets a deadline within 25 %
    of [base * 2^attempt]. *)
Lemma retry_entry_spec t r e :
  retry_ok e → pa_active e = true → 0 <= r → 0 <= t →
  let '(a, e') := ack_retry_entry t r e in
  retry_ok e' ∧ pa_packet_len e' = pa_packet_len e ∧ pa_packet_data e' = pa_packet_data e ∧
  pa_max_attempts e' = pa_max_attempts e ∧
  match a with
  | RNone => e' = e ∧ t < pa_next_retry_ms e
  | RGiveUp => pa_active e' = false ∧ pa_attempt e = pa_max_attempts e ∧ pa_attempt e' = pa_attempt e
  | RRetransmit f => f = take (pa_packet_len e) (pa_packet_data e) ∧
      pa_active e' = true ∧ pa_attempt e' = pa_attempt e + 1 ∧ pa_attempt e < pa_max_attempts e ∧
      (let nominal := tier_base_delay_ms (pa_tier e) * 2 ^ (pa_attempt e + 1) in
       t + 2000000 < 4294967296 →
       3 * nominal <= 4 * (pa_next_retry_ms e' - t) <= 5 * nominal)
  end.
Proof.
  intros (Ha & Hm & Ht) Hact Hr Ht0. unfold ack_retry_entry. rewrite Hact. cbn [negb].
  destruct (_ >=? pa_next_retry_ms e) eqn:E1; conds.
  2:{ split_and!; [done..|lia]. }
  destruct (_ >=? pa_max_attempts e) eqn:E2; conds.
  { split_and!; [split; [|done]; simpl; lia|done..|simpl; lia|done]. }
  assert (Hu : u8 (pa_attempt e + 1) = pa_attempt e + 1) by (apply u8_id; unfold is_u8; lia).
  rewrite Hu. set (k := pa_attempt e + 1).
  assert (Hpow : 2 <= 2 ^ k <= 256).
  { assert (k = 1 ∨ k = 2 ∨ k = 3 ∨ k = 4 ∨ k = 5 ∨ k = 6 ∨ k = 7 ∨ k = 8) as Hk by lia.
    destruct Hk as [->|[->|[->|[->|[->|[->|[->| ->]]]]]]]; lia. }
  assert (Hbase : 2000 <= tier_base_delay_ms (pa_tier e) <= 3000).
  { unfold tier_base_delay_ms. destruct Ht as [-> | ->]; [lia|vm_compute; split; discriminate..]. }
  rewrite shiftl_mul by lia.
  set (nominal := tier_base_delay_ms (pa_tier e) * 2 ^ k).
  assert (Hn : 4000 <= nominal <= 768000) by (unfold nominal; nia).
  rewrite (u32_id nominal) by (unfold is_u32; lia).
  assert (Hq : nominal / 4 > 0) by (apply Z.lt_gt, Z.div_str_pos; lia).
  rewrite Z.gtb_ltb, (proj2 (Z.ltb_lt 0 (nominal / 4))) by lia.
  pose proof (Z.mod_pos_bound r (2 * (nominal / 4) + 1) ltac:(lia)) as Hmod.
  pose proof (Z.div_mod nominal 4 ltac:(lia)) as Hdm.
  pose proof (Z.mod_pos_bound nominal 4 ltac:(lia)) as Hmb.
  rewrite (u32_id (nominal - nominal / 4 + _)) by (unfold is_u32; lia).
  split; [split_and!; simpl; (done || lia)|]. do 3 (split; [done|]).
  split; [done|]. split; [done|]. split; [done|]. split; [done|].
  cbv zeta. intros Hw. simpl. rewrite u32_id by (unfold is_u32; lia). lia.
Qed.

Lemma retry_run_inactive e ts : pa_active e = false → retry_run e ts = ([], e).
Proof.
  intros Ha. induction ts as [|[t r] ts IH]; [done|]. simpl. unfold ack_retry_entry.
  rewrite Ha. simpl. by rewrite IH.
Qed.

(** Retries are bounded and faithful: an entry is retransmitted at most as
    many times as its tier allows, every retransmission is the recorded frame,
    and once the entry is deactivated (acknowledged or given up) nothing is
    sent; after one more due tick than the tier's retries it is given up,
    having been retransmitted exactly that many times. *)
Theorem retries_bounded e ts :
  retry_ok e → pa_active e = true → Forall (λ tr, 0 <= tr.1 ∧ 0 <= tr.2) ts →
  let '(frames, e') := retry_run e ts in
  let frame := take (pa_packet_len e) (pa_packet_data e) in
  Z.of_nat (length frames) <= pa_max_attempts e - pa_attempt e ∧
  Forall (λ f, f = frame) frames ∧
  (pa_active e' = false → Z.of_nat (length frames) = pa_max_attempts e - pa_attempt e) ∧
  (all_due e ts → pa_max_attempts e - pa_attempt e < Z.of_nat (length ts) → pa_active e' = false) ∧
  (∀ ts', (retry_run (set_active e false) ts').1 = []).
Proof.
  intros Hok Ha Hts.
  assert (Hoff : ∀ ts', (retry_run (set_active e false) ts').1 = [])
    by (intros ts'; by rewrite retry_run_inactive).
  enough (H : let '(frames, e') := retry_run e ts in
    Z.of_nat (length frames) <= pa_max_attempts e - pa_attempt e ∧
    Forall (λ f, f = take (pa_packet_len e) (pa_packet_data e)) frames ∧
    (pa_active e' = false → Z.of_nat (length frames) = pa_max_attempts e - pa_attempt e) ∧
    (all_due e ts → pa_max_attempts e - pa_attempt e < Z.of_nat (length ts) → pa_active e' = false)).
  { destruct (retry_run e ts). naive_solver. }
  clear Hoff. revert e Hok Ha. induction Hts as [|[t r] ts [Ht Hr] _ IH]; intros e Hok Ha; simpl.
  { destruct Hok as (? & _). split_and!; [simpl; lia|done|congruence|simpl; lia]. }
  pose proof (retry_entry_spec t r e Hok Ha Hr Ht) as Hs.
  destruct (ack_retry_entry t r e) as [a e1]. destruct Hs as (Hok1 & Hl & Hd & Hm & Hcase).
  destruct a as [|f|].
  - destruct Hcase as [-> Hnd]. specialize (IH e Hok Ha). destruct (retry_run e ts).
    destruct IH as (I1 & I2 & I3 & _). split_and!; [done|done|done|]. intros [? _]. lia.
  - destruct Hcase as (-> & Ha1 & Hat & Hlt & _). specialize (IH e1 Hok1 Ha1).
    destruct (retry_run e1 ts) as [frames e2]. rewrite Hl, Hd, Hm, Hat in IH.
    destruct IH as (I1 & I2 & I3 & I4). split_and!; [simpl; lia|by constructor| |].
    + intros Hi. specialize (I3 Hi). simpl. lia.
    + intros [_ Hdue] Hlen. simpl in *. apply I4; [done|lia].
  - destruct Hcase as (Ha1 & Heq & _). rewrite retry_run_inactive by done.
    split_and!; [simpl; lia|done|intros _; simpl; lia|done].
Qed.

Definition demo_entry : pending_ack_t :=
  mk_pending 5 6 1 0 3 2100 3 ([1; 2; 3] ++ replicate 252 0) true.

Lemma retries_bounded_witness :
  let '(frames, e') := retry_run demo_entry [(2100, 0); (6000, 0); (20000, 0); (40000, 0)] in
  pa_active e' = false ∧ Z.of_nat (length frames) = 3.
Proof.
  pose proof (retries_bounded demo_entry [(2100, 0); (6000, 0); (20000, 0); (40000, 0)]) as H.
  destruct (retry_run _ _) as [frames e'] eqn:E.
  assert (Hi : pa_active e' = false) by (vm_compute in E; injection E as _ <-; reflexivity).
  split; [exact Hi|]. destruct H as (_ & _ & H & _).
  - vm_compute. repeat split; try discriminate. intros _. by left.
  - reflexivity.
  - repeat constructor; simpl; lia.
  - rewrite (H Hi). reflexivity.
Defined.

(** The deadline comparison is not modular: a frame whose deadline lies
    before the wrap of the 32-bit clock is neither retransmitted nor given up
    at any tick of the first 49 days after the wrap. *)
Theorem retry_stalls_after_clock_wrap t r :
  0 <= t < 4294000000 →
  ack_retry_entry t r (mk_pending 5 6 1 0 3 4294966000 3 [1; 2; 3] true) =
    (RNone, mk_pending 5 6 1 0 3 4294966000 3 [1; 2; 3] true).
Proof.
  intros Ht. unfold ack_retry_entry. simpl.
  assert ((t >=? 4294966000) = false) as -> by (rewrite Z.geb_leb; apply Z.leb_gt; lia). done.
Qed.

Lemma retry_stalls_after_clock_wrap_witness :
  (ack_retry_entry 60000 0 (mk_pending 5 6 1 0 3 4294966000 3 [1; 2; 3] true)).1 = RNone.
Proof. rewrite retry_stalls_after_clock_wrap; [reflexivity|lia]. Defined.
