(* ===== verification/Routing.v ===== *)
(** * Neighbor, route and query tables ([components/routing/routing.c]) *)

From stdpp Require Import base numbers sets option decidable list.
From S2P Require Import Prelude Tables.

Definition MAX_NEIGHBORS : nat := 32.
Definition NEIGHBOR_EXPIRY_MS : Z := 600000.
Definition ESTABLISHED_MIN_BEACONS : Z := 3.
Definition ESTABLISHED_MIN_AGE_MS : Z := 300000.
Definition MAX_ROUTES : nat := 64.
Definition ROUTE_ACTIVE_TIMEOUT_MS : Z := 300000.
Definition ROUTE_STALE_TIMEOUT_MS : Z := 600000.
Definition ROUTE_HARD_TIMEOUT_MS : Z := 3600000.
Definition ROUTE_HOP_LIMIT_MAX : Z := 8.
Definition PENALTY_RSSI_BEST : Z := -60.
Definition PENALTY_RSSI_WORST : Z := -120.
Definition PENALTY_RSSI_WEIGHT : Z := 30.
Definition PENALTY_SNR_BEST : Z := 10.
Definition PENALTY_SNR_WORST : Z := -5.
Definition PENALTY_SNR_WEIGHT : Z := 20.
Definition PENALTY_MAX_TOTAL : Z := PENALTY_RSSI_WEIGHT + PENALTY_SNR_WEIGHT.
Definition RREQ_DEDUP_MAX : nat := 128.
Definition RREQ_DEDUP_EXPIRY_MS : Z := 30000.
Definition MAX_REVERSE_ROUTES : nat := 32.
Definition REVERSE_ROUTE_EXPIRY_MS : Z := 60000.

(** ** Neighbors *)

Record neighbor_entry_t := mk_neighbor {
  nb_addr : Z; nb_rssi : Z; nb_snr : Z; nb_last_heard : Z; nb_pubkey_hash : Z;
  nb_name : list Z; nb_first_seen_ms : Z; nb_beacon_count : Z; nb_parked_retry_after_ms : Z }.
Definition neighbor_zero : neighbor_entry_t := mk_neighbor 0 0 0 0 0 (replicate 17 0) 0 0 0.
#[global] Instance neighbor_inhabited : Inhabited neighbor_entry_t := populate neighbor_zero.
Abbreviation neighbor_table_t := (ctable neighbor_entry_t).

Definition neighbor_init : neighbor_table_t := table_init MAX_NEIGHBORS neighbor_zero.

Definition neighbor_index (table : neighbor_table_t) (addr : Z) : option nat :=
  find_index (λ e, nb_addr e =? addr) (live table).

(** The entry refreshed by a beacon. *)
Definition neighbor_beaconed (e : neighbor_entry_t) (rssi snr pubkey_hash now_ms : Z)
    : neighbor_entry_t :=
  mk_neighbor (nb_addr e) rssi snr now_ms pubkey_hash (nb_name e) (nb_first_seen_ms e)
    (if nb_beacon_count e <? 65535 then nb_beacon_count e + 1 else nb_beacon_count e)
    (nb_parked_retry_after_ms e).
Definition neighbor_new (addr rssi snr pubkey_hash now_ms : Z) : neighbor_entry_t :=
  mk_neighbor addr rssi snr now_ms pubkey_hash (replicate 17 0) now_ms 1 0.

Definition neighbor_update (table : neighbor_table_t) (addr rssi snr pubkey_hash now_ms : Z)
    : nat * neighbor_table_t :=
  match neighbor_index table addr with
  | Some i => (i, tset table i (neighbor_beaconed (entries table !!! i) rssi snr pubkey_hash now_ms))
  | None =>
      let e := neighbor_new addr rssi snr pubkey_hash now_ms in
      if decide (count table < MAX_NEIGHBORS)%nat then (count table, tpush table e)
      else
        let idx := best_index (λ x y, nb_last_heard x <? nb_last_heard y)
                     (take MAX_NEIGHBORS (entries table)) in
        (idx, tset table idx e)
  end.

Definition neighbor_lookup (table : neighbor_table_t) (addr : Z) : option neighbor_entry_t :=
  (λ i, entries table !!! i) <$> neighbor_index table addr.

Definition neighbor_touch (table : neighbor_table_t) (addr rssi snr now_ms : Z)
    : bool * neighbor_table_t :=
  match neighbor_index table addr with
  | None => (false, table)
  | Some i =>
      let e := entries table !!! i in
      if now_ms <=? nb_last_heard e then (false, table)
      else (true, tset table i
              (mk_neighbor (nb_addr e) rssi snr now_ms (nb_pubkey_hash e) (nb_name e)
                 (nb_first_seen_ms e) (nb_beacon_count e) (nb_parked_retry_after_ms e)))
  end.

Definition neighbor_expired (now_ms : Z) (e : neighbor_entry_t) : bool :=
  (now_ms ⊖ nb_last_heard e) >=? NEIGHBOR_EXPIRY_MS.
Definition neighbor_purge (table : neighbor_table_t) (now_ms : Z) : neighbor_table_t :=
  swap_purge (neighbor_expired now_ms) table.

Definition neighbor_count (table : neighbor_table_t) : nat := count table.

Definition neighbor_is_established (table : neighbor_table_t) (addr now_ms : Z) : bool :=
  match neighbor_index table addr with
  | Some i =>
      let e := entries table !!! i in
      (nb_beacon_count e >=? ESTABLISHED_MIN_BEACONS) &&
      ((now_ms ⊖ nb_first_seen_ms e) >=? ESTABLISHED_MIN_AGE_MS)
  | None => false
  end.

Definition neighbor_is_newly_admitted (table : neighbor_table_t) (idx : nat) (now_ms : Z) : bool :=
  if decide (count table ≤ idx)%nat then false
  else
    let e := entries table !!! idx in
    (nb_beacon_count e =? 1) && (nb_first_seen_ms e =? now_ms).

(** ** Routes *)

Inductive route_state_t :=
| ROUTE_DISCOVERING | ROUTE_UNVERIFIED | ROUTE_ACTIVE | ROUTE_STALE | ROUTE_BROKEN.
Inductive route_source_t := ROUTE_SRC_DISCOVERED | ROUTE_SRC_BREADCRUMB.
#[global] Instance route_state_eq_dec : EqDecision route_state_t.
Proof. solve_decision. Defined.
#[global] Instance route_source_eq_dec : EqDecision route_source_t.
Proof. solve_decision. Defined.

Record route_entry_t := mk_route {
  rt_dest_addr : Z; rt_next_hop : Z; rt_hop_count : Z; rt_metric : Z; rt_state : route_state_t;
  rt_fail_count : Z; rt_last_used : Z; rt_last_confirmed : Z; rt_use_count : Z;
  rt_source : route_source_t }.
Definition route_zero : route_entry_t :=
  mk_route 0 0 0 0 ROUTE_DISCOVERING 0 0 0 0 ROUTE_SRC_DISCOVERED.
#[global] Instance route_inhabited : Inhabited route_entry_t := populate route_zero.
Abbreviation routing_table_t := (ctable route_entry_t).

Definition route_init : routing_table_t := table_init MAX_ROUTES route_zero.
Definition route_remove (table : routing_table_t) (idx : nat) : routing_table_t :=
  tswap_remove table idx.

Definition is_state (s : route_state_t) (e : route_entry_t) : bool := bool_decide (rt_state e = s).
Definition is_breadcrumb (e : route_entry_t) : bool :=
  bool_decide (rt_source e = ROUTE_SRC_BREADCRUMB).

(** Whether an install replaces the entry [e] it finds for its destination. *)
Definition route_replaces (e : route_entry_t) (hop_count metric : Z) (source : route_source_t) : bool :=
  if bool_decide (source ≠ rt_source e) then bool_decide (source = ROUTE_SRC_DISCOVERED)
  else
    is_state ROUTE_BROKEN e || is_state ROUTE_STALE e || (metric >? rt_metric e) ||
    ((metric =? rt_metric e) && (hop_count <? rt_hop_count e)).
Definition route_replaced (e : route_entry_t) (next_hop hop_count metric : Z)
    (state : route_state_t) (source : route_source_t) (now_ms : Z) : route_entry_t :=
  mk_route (rt_dest_addr e) next_hop hop_count metric state 0 now_ms now_ms (rt_use_count e) source.
Definition route_new (dest next_hop hop_count metric : Z) (state : route_state_t)
    (source : route_source_t) (now_ms : Z) : route_entry_t :=
  mk_route dest next_hop hop_count metric state 0 now_ms now_ms 0 source.

(** [idx = -1; for (...) if (sel(e) && (idx < 0 || key(e) < key(entries[idx]))) idx = i;] *)
Fixpoint min_where {A} (sel : A → bool) (key : A → Z) (l : list A) (i : nat) (best : option (nat * Z))
    : option nat :=
  match l with
  | [] => fst <$> best
  | x :: l =>
      if sel x && match best with None => true | Some (_, k) => key x <? k end
      then min_where sel key l (S i) (Some (i, key x))
      else min_where sel key l (S i) best
  end.

(** The slot given up by a full table, if any. *)
Definition route_victim (es : list route_entry_t) (source : route_source_t) : option nat :=
  match find_index (λ e, is_breadcrumb e && is_state ROUTE_BROKEN e) es with
  | Some i => Some i
  | None =>
      match find_index (λ e, is_breadcrumb e && is_state ROUTE_STALE e) es with
      | Some i => Some i
      | None =>
          match min_where is_breadcrumb rt_last_used es 0 None with
          | Some i => Some i
          | None =>
              if bool_decide (source = ROUTE_SRC_BREADCRUMB) then None
              else match find_index (is_state ROUTE_BROKEN) es with
                   | Some i => Some i
                   | None =>
                       match find_index (is_state ROUTE_STALE) es with
                       | Some i => Some i
                       | None => Some (best_index (λ x y, rt_last_used x <? rt_last_used y) es)
                       end
                   end
          end
      end
  end.

Definition route_index (table : routing_table_t) (dest : Z) : option nat :=
  find_index (λ e, rt_dest_addr e =? dest) (live table).

Definition route_install (table : routing_table_t) (dest next_hop hop_count metric : Z)
    (state : route_state_t) (source : route_source_t) (now_ms : Z)
    : option nat * routing_table_t :=
  match route_index table dest with
  | Some i =>
      let e := entries table !!! i in
      (Some i, if route_replaces e hop_count metric source
               then tset table i (route_replaced e next_hop hop_count metric state source now_ms)
               else table)
  | None =>
      let e := route_new dest next_hop hop_count metric state source now_ms in
      if decide (count table < MAX_ROUTES)%nat then (Some (count table), tpush table e)
      else
        match route_victim (live table) source with
        | None => (None, table)
        | Some idx => (Some idx, tset table idx e)
        end
  end.

Definition route_lookup (table : routing_table_t) (dest_addr : Z) : option route_entry_t :=
  (λ i, entries table !!! i) <$> route_index table dest_addr.

Definition route_dead (now_ms : Z) (e : route_entry_t) : bool :=
  let age := now_ms ⊖ rt_last_confirmed e in
  (age >=? ROUTE_HARD_TIMEOUT_MS) || (is_state ROUTE_STALE e && (age >=? ROUTE_STALE_TIMEOUT_MS)).
Definition route_aged (now_ms : Z) (e : route_entry_t) : route_entry_t :=
  if is_state ROUTE_ACTIVE e && ((now_ms ⊖ rt_last_confirmed e) >=? ROUTE_ACTIVE_TIMEOUT_MS)
  then mk_route (rt_dest_addr e) (rt_next_hop e) (rt_hop_count e) (rt_metric e) ROUTE_STALE
         (rt_fail_count e) (rt_last_used e) (rt_last_confirmed e) (rt_use_count e) (rt_source e)
  else e.

(** [n] entries left to visit from index [i]. *)
Fixpoint maintenance_loop (now_ms : Z) (n : nat) (table : routing_table_t) (i : nat)
    : routing_table_t :=
  match n with
  | O => table
  | S n' =>
      let e := entries table !!! i in
      if route_dead now_ms e then maintenance_loop now_ms n' (route_remove table i) i
      else maintenance_loop now_ms n' (tset table i (route_aged now_ms e)) (S i)
  end.
Definition route_maintenance (table : routing_table_t) (now_ms : Z) : routing_table_t :=
  maintenance_loop now_ms (count table) table 0.
Definition route_count (table : routing_table_t) : nat := count table.

(** ** Query deduplication and reverse routes *)

Record rreq_seen_t := mk_seen { rs_query_id : Z; rs_timestamp : Z }.
#[global] Instance seen_inhabited : Inhabited rreq_seen_t := populate (mk_seen 0 0).
Abbreviation rreq_dedup_t := (ctable rreq_seen_t).

Definition rreq_dedup_init : rreq_dedup_t := table_init RREQ_DEDUP_MAX (mk_seen 0 0).
Definition rreq_expired (now_ms : Z) (e : rreq_seen_t) : bool :=
  (now_ms ⊖ rs_timestamp e) >=? RREQ_DEDUP_EXPIRY_MS.
Definition rreq_dedup_purge (cache : rreq_dedup_t) (now_ms : Z) : rreq_dedup_t :=
  swap_purge (rreq_expired now_ms) cache.
Definition rreq_dedup_check_and_add (cache : rreq_dedup_t) (query_id now_ms : Z)
    : bool * rreq_dedup_t :=
  let cache := rreq_dedup_purge cache now_ms in
  match find_index (λ e, rs_query_id e =? query_id) (live cache) with
  | Some _ => (true, cache)
  | None =>
      (false, if decide (count cache < RREQ_DEDUP_MAX)%nat
              then tpush cache (mk_seen query_id now_ms) else cache)
  end.

Record reverse_route_t := mk_reverse { rr_query_id : Z; rr_prev_hop : Z; rr_timestamp : Z }.
#[global] Instance reverse_inhabited : Inhabited reverse_route_t := populate (mk_reverse 0 0 0).
Abbreviation reverse_route_table_t := (ctable reverse_route_t).

Definition reverse_route_init : reverse_route_table_t :=
  table_init MAX_REVERSE_ROUTES (mk_reverse 0 0 0).
Definition reverse_expired (now_ms : Z) (e : reverse_route_t) : bool :=
  (now_ms ⊖ rr_timestamp e) >=? REVERSE_ROUTE_EXPIRY_MS.
Definition reverse_route_purge (table : reverse_route_table_t) (now_ms : Z) : reverse_route_table_t :=
  swap_purge (reverse_expired now_ms) table.
Definition reverse_route_add (table : reverse_route_table_t) (query_id prev_hop now_ms : Z)
    : nat * reverse_route_table_t :=
  let table := reverse_route_purge table now_ms in
  let table :=
    if decide (MAX_REVERSE_ROUTES ≤ count table)%nat
    then tswap_remove table (best_index (λ x y, rr_timestamp x <? rr_timestamp y) (live table))
    else table in
  (count table, tpush table (mk_reverse query_id prev_hop now_ms)).
Definition reverse_route_lookup (table : reverse_route_table_t) (query_id : Z)
    : option reverse_route_t :=
  (λ i, entries table !!! i) <$> find_index (λ e, rr_query_id e =? query_id) (live table).

(** ** Link penalty *)

Definition compute_link_penalty (rssi snr : Z) : Z :=
  let rp :=
    if rssi <=? PENALTY_RSSI_WORST then PENALTY_RSSI_WEIGHT
    else if rssi >=? PENALTY_RSSI_BEST then 0
    else Z.quot ((PENALTY_RSSI_BEST - rssi) * PENALTY_RSSI_WEIGHT)
           (PENALTY_RSSI_BEST - PENALTY_RSSI_WORST) in
  let sp :=
    if snr <=? PENALTY_SNR_WORST then PENALTY_SNR_WEIGHT
    else if snr >=? PENALTY_SNR_BEST then 0
    else Z.quot ((PENALTY_SNR_BEST - snr) * PENALTY_SNR_WEIGHT)
           (PENALTY_SNR_BEST - PENALTY_SNR_WORST) in
  let total := rp + sp in
  u8 (if total >? PENALTY_MAX_TOTAL then PENALTY_MAX_TOTAL else total).

Definition metric_apply_link_penalty (metric rssi snr : Z) : Z :=
  let penalty := compute_link_penalty rssi snr in
  if penalty >=? metric then 0 else u8 (metric - penalty).
