(* ===== verification/Forwarding.v ===== *)
(** * Data forwarding and route errors ([components/routing/forwarding.c]) *)

From stdpp Require Import base numbers sets option decidable list.
From S2P Require Import Prelude Tables Packet Routing.

Definition BROKEN_THRESHOLD : Z := 3.

Record forward_result_t := mk_forward {
  fr_next_hop : Z; fr_should_send : bool; fr_route_error : bool }.

(** ** Updates of one route entry *)

Definition with_state (e : route_entry_t) (s : route_state_t) (confirmed : Z) : route_entry_t :=
  mk_route (rt_dest_addr e) (rt_next_hop e) (rt_hop_count e) (rt_metric e) s (rt_fail_count e)
    (rt_last_used e) confirmed (rt_use_count e) (rt_source e).
Definition with_used (e : route_entry_t) (now_ms : Z) : route_entry_t :=
  mk_route (rt_dest_addr e) (rt_next_hop e) (rt_hop_count e) (rt_metric e) (rt_state e)
    (rt_fail_count e) now_ms (rt_last_confirmed e) (u16 (rt_use_count e + 1)) (rt_source e).
Definition with_failure (e : route_entry_t) (s : route_state_t) : route_entry_t :=
  mk_route (rt_dest_addr e) (rt_next_hop e) (rt_hop_count e) (rt_metric e) s
    (u8 (rt_fail_count e + 1)) (rt_last_used e) (rt_last_confirmed e) (rt_use_count e)
    (rt_source e).

(** The entry a forward uses: a stale one is promoted first. *)
Definition forward_touch (e : route_entry_t) (now_ms : Z) : route_entry_t :=
  with_used (if is_state ROUTE_STALE e then with_state e ROUTE_ACTIVE now_ms else e) now_ms.

(** ** Operations *)

(** The result, the remaining hop limit and the table. *)
Definition forward_data (table : routing_table_t) (dest_addr hop_limit now_ms : Z)
    : forward_result_t * Z * routing_table_t :=
  if hop_limit <=? 1 then (mk_forward 0 false false, hop_limit, table)
  else
    match route_index table dest_addr with
    | None => (mk_forward 0 false true, hop_limit, table)
    | Some i =>
        let r := entries table !!! i in
        if is_state ROUTE_BROKEN r then (mk_forward 0 false true, hop_limit, table)
        else
          let r' := forward_touch r now_ms in
          (mk_forward (rt_next_hop r') true false, u8 (hop_limit - 1), tset table i r')
    end.

Definition forward_record_failure (table : routing_table_t) (dest_addr : Z) : routing_table_t :=
  match route_index table dest_addr with
  | None => table
  | Some i =>
      let r := entries table !!! i in
      tset table i
        (with_failure r (if u8 (rt_fail_count r + 1) >=? BROKEN_THRESHOLD
                         then ROUTE_BROKEN else rt_state r))
  end.

Definition rerr_build (my_addr broken_dest broken_next_hop : Z) : bramble_rerr_t :=
  mk_rerr (mk_header BRAMBLE_VERSION PKT_TYPE_RERR 0 ROUTE_HOP_LIMIT_MAX 0xFFFFFFFF 0)
    my_addr broken_dest broken_next_hop (replicate 8 0) (replicate 6 0).

Definition rerr_handle (table : routing_table_t) (rerr : bramble_rerr_t)
    : bool * routing_table_t :=
  match route_index table (rerr_broken_dest rerr) with
  | Some i =>
      let r := entries table !!! i in
      if rt_next_hop r =? rerr_broken_next_hop rerr
      then (true, tset table i (with_failure r ROUTE_BROKEN))
      else (false, table)
  | None => (false, table)
  end.

Definition rerr_failfast_applies (table : routing_table_t) (broken_dest : Z)
    (route_marked_broken : bool) : bool :=
  if route_marked_broken then true
  else
    match route_lookup table broken_dest with
    | Some r => negb ((rt_next_hop r =? broken_dest) && negb (is_state ROUTE_BROKEN r))
    | None => true
    end.

Inductive data_rx_action_t := DATA_RX_DELIVER | DATA_RX_FORWARD.
Record data_rx_decision_t := mk_data_rx {
  dd_action : data_rx_action_t; dd_install_reverse_route : bool; dd_reverse_dest : Z;
  dd_reverse_next_hop : Z; dd_reverse_hop_count : Z; dd_reverse_metric : Z }.

Definition data_rx_decide (dest_addr self_addr src_addr prev_hop received_hop_limit link_metric : Z)
    : data_rx_decision_t :=
  let action := if (dest_addr =? self_addr) || (dest_addr =? 0xFFFFFFFF)
                then DATA_RX_DELIVER else DATA_RX_FORWARD in
  if negb (src_addr =? self_addr) && negb (prev_hop =? self_addr) &&
     negb (dest_addr =? 0xFFFFFFFF)
  then
    let hops := ROUTE_HOP_LIMIT_MAX - received_hop_limit + 1 in
    let hops := if hops <? 1 then 1 else hops in
    let hops := if hops >? 255 then 255 else hops in
    mk_data_rx action true src_addr prev_hop (u8 hops) link_metric
  else mk_data_rx action false 0 0 0 0.
