(* ===== verification/RoutingSpec.v ===== *)
(** * Correctness of the routing tables

    The route table is a finite map from destination to entry of at most 64
    keys: every operation of [routing.c] and [forwarding.c] is shown to be an
    operation on that map.  On top of it: which entries a full table gives up,
    the separation of the two trust classes over arbitrary histories, and the
    tenure rule of the neighbor table. *)

From stdpp Require Import base numbers sets option decidable gmap list.
From S2P Require Import Prelude Tables KeyedTable Packet Routing Forwarding.

(** ** The table as a map *)

Abbreviation route_inv := (keyed rt_dest_addr MAX_ROUTES).
Abbreviation route_map := (tmap rt_dest_addr).

(** [route_lookup] is the map's lookup. *)
Lemma route_lookup_map t d : route_inv t → route_lookup t d = route_map t !! d.
Proof.
  intros Hinv. unfold route_lookup. destruct (route_index t d) as [i|] eqn:Hi; simpl.
  - by destruct (kindex_Some _ _ _ Hinv Hi) as (_ & _ & _ & ->).
  - by rewrite (kindex_None _ _ Hinv Hi).
Qed.

(** ** The slot a full table gives up *)

Lemma min_where_spec {A} `{Inhabited A} (sel : A → bool) (key : A → Z) (l pre : list A)
    (best : option (nat * Z)) :
  (match best with
   | None => Forall (λ x, sel x = false) pre
   | Some (b, k) => ∃ x, pre !! b = Some x ∧ sel x = true ∧ k = key x ∧
                      ∀ y, y ∈ pre → sel y = true → key x ≤ key y
   end) →
  match min_where sel key l (length pre) best with
  | None => Forall (λ x, sel x = false) (pre ++ l)
  | Some b => ∃ x, (pre ++ l) !! b = Some x ∧ sel x = true ∧
                ∀ y, y ∈ pre ++ l → sel y = true → key x ≤ key y
  end.
Proof.
  revert pre best; induction l as [|a l IH]; intros pre best Hb; simpl.
  { rewrite app_nil_r. destruct best as [[b k]|]; simpl in *; [|done].
    destruct Hb as (x & ? & ? & _ & ?). by exists x. }
  specialize (IH (pre ++ [a])). rewrite length_app in IH. simpl in IH.
  replace (length pre + 1)%nat with (S (length pre)) in IH by lia.
  rewrite <- app_assoc in IH. simpl in IH.
  destruct (sel a) eqn:Ha; simpl.
  - destruct best as [[b k]|].
    + destruct Hb as (x & Hx & Hs & -> & Hmin). split_if; apply IH.
      * exists a. rewrite lookup_app_r, Nat.sub_diag by lia. split_and!; [done..|].
        intros y [Hy|Hy%list_elem_of_singleton]%elem_of_app Hsy; [|subst; lia].
        specialize (Hmin _ Hy Hsy). lia.
      * exists x. split_and!; [by apply lookup_app_l_Some|done|done|].
        intros y [Hy|Hy%list_elem_of_singleton]%elem_of_app Hsy; [auto|subst; lia].
    + apply IH. exists a. rewrite lookup_app_r, Nat.sub_diag by lia. split_and!; [done..|].
      intros y [Hy|Hy%list_elem_of_singleton]%elem_of_app Hsy; [|subst; lia].
      rewrite Forall_forall in Hb. specialize (Hb _ Hy). congruence.
  - apply IH. destruct best as [[b k]|].
    + destruct Hb as (x & Hx & Hs & -> & Hmin). exists x.
      split_and!; [by apply lookup_app_l_Some|done|done|].
      intros y [Hy|Hy%list_elem_of_singleton]%elem_of_app Hsy; [auto|subst; congruence].
    + apply Forall_app. split; [done|]. by constructor.
Qed.

(** Lower ranks are given up first. *)
Definition victim_rank (e : route_entry_t) : Z :=
  if is_breadcrumb e
  then if is_state ROUTE_BROKEN e then 0 else if is_state ROUTE_STALE e then 1 else 2
  else if is_state ROUTE_BROKEN e then 3 else if is_state ROUTE_STALE e then 4 else 5.

(** The victim: least rank, and least recently used among the live ones. *)
Definition victim_ok (es : list route_entry_t) (v : route_entry_t) : Prop :=
  ∀ e, e ∈ es → victim_rank v < victim_rank e ∨
    (victim_rank v = victim_rank e ∧
     (victim_rank v ∈ [2; 5] → rt_last_used v ≤ rt_last_used e)).

(** Compare the victim's rank with an arbitrary entry's, whose flags are bounded
    by the searches that failed. *)
Ltac victim_cases :=
  let e := fresh "e" in let He := fresh "He" in
  intros e He;
  repeat match goal with
         | H : ∀ x, x ∈ _ → _ |- _ =>
             lazymatch type of H with
             | ∀ x, x ∈ _ → _ = false => pose proof (H e He); clear H
             | ∀ x, x ∈ _ → is_breadcrumb x = true → _ => pose proof (H e He); clear H
             | ∀ x, x ∈ _ → rt_last_used _ ≤ _ => pose proof (H e He); clear H
             end
         end;
  unfold victim_rank;
  destruct (is_breadcrumb e), (is_state ROUTE_BROKEN e), (is_state ROUTE_STALE e);
  simpl in *;
  repeat match goal with H : is_breadcrumb _ = _ |- _ => rewrite H in * end;
  repeat match goal with H : is_state _ _ = _ |- _ => rewrite H in * end;
  simpl in *; repeat match goal with H : is_state _ _ = _ |- _ => rewrite H in * end;
  solve [done | left; lia | right; split; [lia|set_solver] | right; split; [lia|auto]].

Lemma route_victim_spec es source :
  (0 < length es)%nat →
  match route_victim es source with
  | Some i => ∃ v, es !! i = Some v ∧ victim_ok es v ∧
                (source = ROUTE_SRC_BREADCRUMB → is_breadcrumb v = true)
  | None => source = ROUTE_SRC_BREADCRUMB ∧ Forall (λ e, is_breadcrumb e = false) es
  end.
Proof.
  intros Hlen. unfold route_victim.
  assert (Hfind : ∀ f i, find_index f es = Some i → ∃ v, es !! i = Some v ∧ f v = true).
  { intros f i (v & ? & ? & _)%find_index_Some. eauto. }
  assert (Hex : ∀ v, is_state ROUTE_STALE v = true → is_state ROUTE_BROKEN v = false).
  { intros v Hv%bool_decide_eq_true. unfold is_state. by rewrite Hv. }
  destruct (find_index _ es) as [i|] eqn:E1.
  { destruct (Hfind _ _ E1) as (v & Hv & [Hb Hs]%andb_true_iff). exists v.
    split; [done|split; [victim_cases|done]]. }
  rewrite find_index_None, Forall_forall in E1.
  destruct (find_index (λ e, is_breadcrumb e && is_state ROUTE_STALE e) es) as [i|] eqn:E2.
  { destruct (Hfind _ _ E2) as (v & Hv & [Hb Hs]%andb_true_iff). exists v. pose proof (Hex _ Hs).
    split; [done|split; [victim_cases|done]]. }
  rewrite find_index_None, Forall_forall in E2.
  pose proof (min_where_spec is_breadcrumb rt_last_used es [] None (Forall_nil_2 _)) as E3.
  destruct (min_where _ _ _ _ _) as [i|]; simpl in E3.
  { destruct E3 as (v & Hv & Hb & Hmin). exists v.
    pose proof (E1 _ (list_elem_of_lookup_2 _ _ _ Hv)).
    pose proof (E2 _ (list_elem_of_lookup_2 _ _ _ Hv)).
    split; [done|split; [victim_cases|done]]. }
  case_bool_decide as Hsrc; [done|]. rewrite Forall_forall in E3.
  destruct (find_index (is_state ROUTE_BROKEN) es) as [i|] eqn:E4.
  { destruct (Hfind _ _ E4) as (v & Hv & Hs). exists v.
    pose proof (E3 _ (list_elem_of_lookup_2 _ _ _ Hv)).
    split; [done|split; [victim_cases|done]]. }
  rewrite find_index_None, Forall_forall in E4.
  destruct (find_index (is_state ROUTE_STALE) es) as [i|] eqn:E5.
  { destruct (Hfind _ _ E5) as (v & Hv & Hs). exists v. pose proof (Hex _ Hs).
    pose proof (E3 _ (list_elem_of_lookup_2 _ _ _ Hv)).
    split; [done|split; [victim_cases|done]]. }
  rewrite find_index_None, Forall_forall in E5.
  pose proof (best_index_lt (λ x y, rt_last_used x <? rt_last_used y) es Hlen) as Hlt.
  set (i := best_index _ es) in *. pose proof (list_lookup_lookup_total_lt es i Hlt) as Hv.
  assert (Hmin : ∀ e, e ∈ es → rt_last_used (es !!! i) ≤ rt_last_used e).
  { intros e (j & Hj)%list_elem_of_lookup. rewrite <- (list_lookup_total_correct _ _ _ Hj).
    apply (best_index_min rt_last_used). by eapply lookup_lt_Some. }
  exists (es !!! i). pose proof (list_elem_of_lookup_2 _ _ _ Hv) as Hin.
  pose proof (E3 _ Hin). pose proof (E4 _ Hin). pose proof (E5 _ Hin).
  split; [done|split; [victim_cases|done]].
Qed.

(** ** Every operation on the map *)

(** What an install does to the map of a table that is full or not. *)
Definition install_spec (full : bool) (m : gmap Z route_entry_t) (es : list route_entry_t)
    (dest next_hop hop_count metric : Z) (state : route_state_t) (source : route_source_t)
    (now_ms : Z) (installed : bool) (m' : gmap Z route_entry_t) : Prop :=
  let fresh := route_new dest next_hop hop_count metric state source now_ms in
  match m !! dest with
  | Some e =>
      installed = true ∧
      m' = if route_replaces e hop_count metric source
           then <[dest := route_replaced e next_hop hop_count metric state source now_ms]> m
           else m
  | None =>
      if full
      then (installed = false ∧ m' = m ∧ source = ROUTE_SRC_BREADCRUMB ∧
            Forall (λ e, is_breadcrumb e = false) es) ∨
           (installed = true ∧ ∃ v, v ∈ es ∧ victim_ok es v ∧
            (source = ROUTE_SRC_BREADCRUMB → is_breadcrumb v = true) ∧
            m' = <[dest := fresh]> (delete (rt_dest_addr v) m))
      else installed = true ∧ m' = <[dest := fresh]> m
  end.

Lemma route_install_map t dest next_hop hop_count metric state source now_ms :
  route_inv t →
  let r := route_install t dest next_hop hop_count metric state source now_ms in
  route_inv r.2 ∧
  install_spec (bool_decide (count t = MAX_ROUTES)) (route_map t) (live t)
    dest next_hop hop_count metric state source now_ms (bool_decide (is_Some r.1)) (route_map r.2).
Proof.
  intros Hinv r. subst r. unfold route_install, install_spec.
  pose proof Hinv as [[Hlen Hcnt] _].
  destruct (route_index t dest) as [i|] eqn:Hi.
  - destruct (kindex_Some _ _ _ Hinv Hi) as (Hlt & Hl & Hd & Hm). rewrite Hm. simpl.
    set (e := entries t !!! i) in *. destruct (route_replaces _ _ _ _); simpl.
    + destruct (keyed_tset_same t i (route_replaced e next_hop hop_count metric state source now_ms)
        Hinv Hlt eq_refl) as [H1 H2].
      split; [done|]. split; [done|]. rewrite H2. simpl. by rewrite Hd.
    + done.
  - pose proof (kindex_None _ _ Hinv Hi) as Hm. rewrite Hm.
    set (e := route_new _ _ _ _ _ _ _). assert (He : rt_dest_addr e = dest) by done.
    destruct (decide (count t < MAX_ROUTES)%nat) as [Hc|Hc].
    + rewrite bool_decide_false by lia. simpl.
      destruct (keyed_tpush t e Hinv Hc) as [H1 H2]; [by rewrite He|].
      split; [done|]. split; [done|]. by rewrite H2, He.
    + rewrite bool_decide_true by lia.
      assert (Hpos : (0 < length (live t))%nat).
      { rewrite (length_live _ _ (proj1 Hinv)). unfold MAX_ROUTES in *. lia. }
      pose proof (route_victim_spec (live t) source Hpos) as Hv.
      destruct (route_victim (live t) source) as [i|]; simpl.
      * destruct Hv as (v & Hv & Hok & Hb).
        destruct (keyed_tset t i v e Hinv Hv) as [H1 H2]; [right; by rewrite He|].
        split; [done|]. right. split; [done|]. exists v.
        split; [by eapply list_elem_of_lookup_2|]. split; [done|]. split; [done|].
        by rewrite H2, He.
      * destruct Hv as [-> Hall]. split; [done|]. left. done.
Qed.

(** *** Maintenance *)

Lemma route_aged_dest now e : rt_dest_addr (route_aged now e) = rt_dest_addr e.
Proof. unfold route_aged. by split_if. Qed.

Lemma maintenance_loop_spec now n t i :
  table_wf MAX_ROUTES t → (i + n = count t)%nat →
  table_wf MAX_ROUTES (maintenance_loop now n t i) ∧
  live (maintenance_loop now n t i) ≡ₚ
    take i (live t) ++ (route_aged now <$> filter (λ x, route_dead now x = false) (drop i (live t))).
Proof.
  revert t i; induction n as [|n IH]; intros t i Hwf Hn; simpl.
  { split; [done|]. rewrite take_ge, drop_ge by (erewrite length_live; [|done]; lia).
    by rewrite filter_nil, app_nil_r. }
  pose proof (live_lookup _ _ i Hwf ltac:(lia)) as Hi.
  rewrite (drop_S _ _ _ Hi), list.filter_cons.
  destruct (route_dead now (entries t !!! i)) eqn:Hd.
  - rewrite decide_False by done. unfold route_remove.
    destruct (IH (tswap_remove t i) i) as [Hwf' Hl]; [by apply tswap_remove_wf|simpl; lia|].
    split; [done|]. rewrite Hl.
    assert (Ht : take i (live (tswap_remove t i)) = take i (live t)).
    { unfold live; simpl. rewrite !take_take, take_insert_ge by lia. f_equal. lia. }
    pose proof (live_tswap_remove _ t i Hwf ltac:(lia)) as Hp.
    rewrite <- (take_drop_middle _ _ _ Hi) in Hp.
    rewrite <- (take_drop i (live (tswap_remove t i))), Ht in Hp.
    rewrite Permutation_middle in Hp. apply Permutation_app_inv_l, Permutation_cons_inv in Hp.
    by rewrite Ht, Hp.
  - rewrite decide_True by done. cbn [fmap list_fmap].
    destruct (IH (tset t i (route_aged now (entries t !!! i))) (S i)) as [Hwf' Hl];
      [by apply tset_wf|simpl; lia|].
    split; [done|]. rewrite Hl, live_tset.
    rewrite drop_insert_lt by lia. erewrite take_S_r; [|apply list_lookup_insert_eq].
    + rewrite take_insert_ge by lia. by rewrite <- app_assoc.
    + erewrite length_live by done. lia.
Qed.

Lemma route_maintenance_map t now :
  route_inv t →
  route_inv (route_maintenance t now) ∧
  route_map (route_maintenance t now) =
    route_aged now <$> filter (λ kv, route_dead now kv.2 = false) (route_map t).
Proof.
  intros Hinv. pose proof Hinv as [Hwf Hnd]. unfold route_maintenance.
  destruct (maintenance_loop_spec now (count t) t 0 Hwf) as [Hwf' Hl]; [lia|].
  rewrite take_0, drop_0 in Hl. cbn [app] in Hl. set (t' := maintenance_loop _ _ _ _) in *.
  assert (Hinv' : route_inv t').
  { split; [done|]. rewrite Hl.
    rewrite <- list_fmap_compose.
    erewrite list_fmap_ext by (intros; apply route_aged_dest).
    apply (NoDup_fmap_filter rt_dest_addr). intros i j x y Hi Hj _ _.
    exact (NoDup_keys_inj _ _ _ _ _ Hnd Hi Hj). }
  split; [done|]. apply (tmap_ext (cap:=MAX_ROUTES)); [done|]. intros d e.
  rewrite lookup_fmap_Some, Hl, list_elem_of_fmap.
  setoid_rewrite map_lookup_filter_Some. setoid_rewrite (tmap_Some (cap:=MAX_ROUTES) t d); [|done].
  setoid_rewrite list_elem_of_filter. simpl. split.
  - intros (x & <- & [[Hx <-] Hdead]). rewrite route_aged_dest. eauto.
  - intros [(x & -> & Hdead & Hx) <-]. rewrite route_aged_dest. eauto 10.
Qed.

(** *** In-place updates: forwarding, failures, route errors *)

Definition same_route (e e' : route_entry_t) : Prop :=
  rt_dest_addr e' = rt_dest_addr e ∧ rt_next_hop e' = rt_next_hop e ∧
  rt_hop_count e' = rt_hop_count e ∧ rt_metric e' = rt_metric e ∧ rt_source e' = rt_source e.
#[global] Instance same_route_refl : Reflexive same_route.
Proof. intros e. done. Qed.

Lemma forward_touch_same e now : same_route e (forward_touch e now).
Proof. unfold forward_touch. by split_if. Qed.
Lemma route_aged_same e now : same_route e (route_aged now e).
Proof. unfold route_aged. by split_if. Qed.

Lemma route_update_map t d i e' :
  route_inv t → route_index t d = Some i → same_route (entries t !!! i) e' →
  route_inv (tset t i e') ∧ route_map (tset t i e') = <[d := e']> (route_map t).
Proof.
  intros Hinv Hi [Hd _]. destruct (kindex_Some _ _ _ Hinv Hi) as (Hlt & _ & Hk & _).
  destruct (keyed_tset_same t i e' Hinv Hlt Hd) as [H1 H2]. split; [done|].
  by rewrite H2, Hd, Hk.
Qed.

Definition forward_spec (m : gmap Z route_entry_t) (d hop_limit now : Z)
    (res : forward_result_t) (hop_limit' : Z) (m' : gmap Z route_entry_t) : Prop :=
  match m !! d with
  | Some e =>
      if (1 <? hop_limit) && negb (is_state ROUTE_BROKEN e)
      then res = mk_forward (rt_next_hop e) true false ∧ hop_limit' = u8 (hop_limit - 1) ∧
           m' = <[d := forward_touch e now]> m
      else res = mk_forward 0 false (1 <? hop_limit) ∧ hop_limit' = hop_limit ∧ m' = m
  | None => res = mk_forward 0 false (1 <? hop_limit) ∧ hop_limit' = hop_limit ∧ m' = m
  end.

Lemma forward_data_map t d hop_limit now :
  route_inv t →
  let r := forward_data t d hop_limit now in
  route_inv r.2 ∧ forward_spec (route_map t) d hop_limit now r.1.1 r.1.2 (route_map r.2).
Proof.
  intros Hinv r. subst r. unfold forward_data, forward_spec.
  destruct (hop_limit <=? 1) eqn:Hh.
  { assert ((1 <? hop_limit) = false) as -> by lia. simpl. split; [done|].
    by destruct (route_map t !! d). }
  assert ((1 <? hop_limit) = true) as -> by lia. simpl.
  destruct (route_index t d) as [i|] eqn:Hi; simpl.
  - destruct (kindex_Some _ _ _ Hinv Hi) as (_ & _ & _ & ->).
    destruct (is_state ROUTE_BROKEN _); simpl; [done|].
    pose proof (forward_touch_same (entries t !!! i) now) as Hs.
    destruct (route_update_map t d i _ Hinv Hi Hs) as [H1 H2].
    split; [done|]. split; [|done]. f_equal. by split_if.
  - by rewrite (kindex_None _ _ Hinv Hi).
Qed.

Definition failed (e : route_entry_t) : route_entry_t :=
  with_failure e (if u8 (rt_fail_count e + 1) >=? BROKEN_THRESHOLD then ROUTE_BROKEN else rt_state e).

Lemma forward_record_failure_map t d :
  route_inv t →
  route_inv (forward_record_failure t d) ∧
  route_map (forward_record_failure t d) = alter failed d (route_map t).
Proof.
  intros Hinv. unfold forward_record_failure.
  destruct (route_index t d) as [i|] eqn:Hi.
  - destruct (kindex_Some _ _ _ Hinv Hi) as (_ & _ & _ & Hm).
    destruct (route_update_map t d i (failed (entries t !!! i)) Hinv Hi ltac:(done)) as [H1 H2].
    split; [done|]. change (route_map (tset t i (failed (entries t !!! i))) = alter failed d (route_map t)).
    rewrite H2. apply map_eq. intros k. destruct (decide (k = d)) as [->|].
    + by rewrite lookup_insert_eq, lookup_alter_eq, Hm.
    + by rewrite lookup_insert_ne, lookup_alter_ne.
  - split; [done|]. apply map_eq. intros k. destruct (decide (k = d)) as [->|].
    + by rewrite lookup_alter_eq, (kindex_None _ _ Hinv Hi).
    + by rewrite lookup_alter_ne.
Qed.

Definition rerr_spec (m : gmap Z route_entry_t) (rerr : bramble_rerr_t) (b : bool)
    (m' : gmap Z route_entry_t) : Prop :=
  match m !! rerr_broken_dest rerr with
  | Some e =>
      b = (rt_next_hop e =? rerr_broken_next_hop rerr) ∧
      m' = if b then <[rerr_broken_dest rerr := with_failure e ROUTE_BROKEN]> m else m
  | None => b = false ∧ m' = m
  end.

Lemma rerr_handle_map t rerr :
  route_inv t →
  route_inv (rerr_handle t rerr).2 ∧
  rerr_spec (route_map t) rerr (rerr_handle t rerr).1 (route_map (rerr_handle t rerr).2).
Proof.
  intros Hinv. unfold rerr_handle, rerr_spec.
  destruct (route_index t _) as [i|] eqn:Hi.
  - destruct (kindex_Some _ _ _ Hinv Hi) as (_ & _ & _ & ->).
    destruct (_ =? _) eqn:Hn; simpl; [|done].
    destruct (route_update_map t _ i (with_failure (entries t !!! i) ROUTE_BROKEN) Hinv Hi
      ltac:(done)) as [H1 H2]. done.
  - by rewrite (kindex_None _ _ Hinv Hi).
Qed.

(** ** Histories *)

Inductive route_op :=
| OpInstall (dest next_hop hop_count metric : Z) (state : route_state_t)
    (source : route_source_t) (now : Z)
| OpMaintenance (now : Z)
| OpForward (dest hop_limit now : Z)
| OpFailure (dest : Z)
| OpRerr (rerr : bramble_rerr_t).

Definition route_step (t : routing_table_t) (o : route_op) : routing_table_t :=
  match o with
  | OpInstall dest nh hops metric st src now => (route_install t dest nh hops metric st src now).2
  | OpMaintenance now => route_maintenance t now
  | OpForward dest hl now => (forward_data t dest hl now).2
  | OpFailure dest => forward_record_failure t dest
  | OpRerr rerr => (rerr_handle t rerr).2
  end.
Definition route_run (ops : list route_op) : routing_table_t := foldl route_step route_init ops.

Lemma route_init_inv : route_inv route_init.
Proof. apply keyed_init. Qed.

Lemma route_step_inv t o : route_inv t → route_inv (route_step t o).
Proof.
  intros Hinv. destruct o; simpl.
  - by apply route_install_map.
  - by apply route_maintenance_map.
  - by apply (forward_data_map t dest hop_limit now).
  - by apply forward_record_failure_map.
  - by apply rerr_handle_map.
Qed.

Lemma route_run_snoc ops o : route_run (ops ++ [o]) = route_step (route_run ops) o.
Proof. unfold route_run. by rewrite foldl_app. Qed.

Lemma route_run_inv ops : route_inv (route_run ops).
Proof.
  induction ops as [|o ops IH] using rev_ind; [apply route_init_inv|].
  rewrite route_run_snoc. by apply route_step_inv.
Qed.


(** C8. The route table is a map from destinations to routes: after any history of
    installs, maintenance passes, forwards, failures and route errors it holds at
    most 64 entries of distinct destinations, lookup is lookup in that map, and
    every operation is the expected map update.  In particular an install into a
    full table gives up the entry of least rank (breadcrumbs before discovered
    routes, broken before stale before live, least recently used last) or refuses,
    a forward uses and refreshes exactly the destination's route and decrements
    the hop limit, and maintenance drops exactly the dead and ages the rest. *)
Theorem route_table_refines_map (ops : list route_op) :
  let t := route_run ops in
  size (route_map t) = count t ∧ (count t ≤ MAX_ROUTES)%nat ∧
  (∀ d, route_lookup t d = route_map t !! d) ∧
  (∀ d nh hops metric st src now,
     let r := route_install t d nh hops metric st src now in
     install_spec (bool_decide (count t = MAX_ROUTES)) (route_map t) (live t)
       d nh hops metric st src now (bool_decide (is_Some r.1)) (route_map r.2)) ∧
  (∀ d hop_limit now,
     let r := forward_data t d hop_limit now in
     forward_spec (route_map t) d hop_limit now r.1.1 r.1.2 (route_map r.2)) ∧
  (∀ d, route_map (forward_record_failure t d) = alter failed d (route_map t)) ∧
  (∀ rerr, let r := rerr_handle t rerr in rerr_spec (route_map t) rerr r.1 (route_map r.2)) ∧
  (∀ now, route_map (route_maintenance t now) =
     route_aged now <$> filter (λ kv, route_dead now kv.2 = false) (route_map t)).
Proof.
  pose proof (route_run_inv ops) as Hinv. intros t.
  split; [by apply (tmap_size (cap:=MAX_ROUTES))|]. split; [apply Hinv|].
  split; [intros; by apply route_lookup_map|].
  split; [intros; by apply route_install_map|].
  split; [intros; by apply forward_data_map|].
  split; [intros; by apply forward_record_failure_map|].
  split; [intros; by apply rerr_handle_map|].
  intros; by apply route_maintenance_map.
Qed.

(** ** Trust classes *)

(** The DISCOVERED install that [e] goes back to. *)
Definition discovered_by (ops : list route_op) (e : route_entry_t) : Prop :=
  ∃ st now, OpInstall (rt_dest_addr e) (rt_next_hop e) (rt_hop_count e) (rt_metric e) st
              ROUTE_SRC_DISCOVERED now ∈ ops.

Lemma discovered_by_same ops e e' : same_route e e' → discovered_by ops e → discovered_by ops e'.
Proof. intros (H1 & H2 & H3 & H4 & _) H. unfold discovered_by. by rewrite H1, H2, H3, H4. Qed.

(** An entry after one step: the one before up to use and state, or what an
    install wrote. *)
Lemma route_step_origin t o d e :
  route_inv t → route_map (route_step t o) !! d = Some e →
  (∃ e0, route_map t !! d = Some e0 ∧ same_route e0 e) ∨
  (∃ nh hops metric st src now, o = OpInstall d nh hops metric st src now ∧
     rt_dest_addr e = d ∧ rt_next_hop e = nh ∧ rt_hop_count e = hops ∧ rt_metric e = metric ∧
     rt_source e = src).
Proof.
  intros Hinv. destruct o as [dest nh hops metric st src now|now|dest hl now|dest|rerr]; simpl.
  - destruct (route_install_map t dest nh hops metric st src now Hinv) as [_ Hs].
    unfold install_spec in Hs. revert Hs.
    set (r := route_install _ _ _ _ _ _ _ _). intros Hs He.
    assert (Hcase : route_map t !! d = Some e ∨
      (d = dest ∧ rt_dest_addr e = d ∧ rt_next_hop e = nh ∧ rt_hop_count e = hops ∧
       rt_metric e = metric ∧ rt_source e = src)).
    { destruct (route_map t !! dest) as [e0|] eqn:E0.
      - destruct Hs as [_ Hm]. rewrite Hm in He.
        destruct (route_replaces _ _ _ _); [|by left].
        apply lookup_insert_Some in He as [[<- <-]|[? ?]]; [|by left].
        right. simpl. apply (tmap_Some (cap:=MAX_ROUTES)) in E0 as [_ E0]; done.
      - destruct (bool_decide (count t = MAX_ROUTES)).
        + destruct Hs as [(_ & Hm & _)|(_ & v & _ & _ & _ & Hm)]; rewrite Hm in He; [by left|].
          apply lookup_insert_Some in He as [[<- <-]|[? [_ ?]%lookup_delete_Some]]; [|by left].
          by right.
        + destruct Hs as [_ Hm]; rewrite Hm in He.
          apply lookup_insert_Some in He as [[<- <-]|[? ?]]; [|by left]. by right. }
    destruct Hcase as [?|(-> & ?)]; [left; by exists e|right]. by exists nh, hops, metric, st, src, now.
  - destruct (route_maintenance_map t now Hinv) as [_ ->].
    intros (e0 & <- & [H0 _]%map_lookup_filter_Some)%lookup_fmap_Some.
    left. exists e0. split; [done|apply route_aged_same].
  - destruct (forward_data_map t dest hl now Hinv) as [_ Hs]. unfold forward_spec in Hs.
    intros He. left. destruct (route_map t !! dest) as [e0|] eqn:E0.
    + destruct ((1 <? hl) && _); destruct Hs as (_ & _ & Hm); rewrite Hm in He; [|by exists e].
      apply lookup_insert_Some in He as [[<- <-]|[? ?]]; [|by exists e].
      exists e0. split; [done|apply forward_touch_same].
    + destruct Hs as (_ & _ & Hm). rewrite Hm in He. by exists e.
  - destruct (forward_record_failure_map t dest Hinv) as [_ ->].
    intros He. left. destruct (decide (d = dest)) as [->|].
    + rewrite lookup_alter_eq in He. apply fmap_Some in He as (e0 & H0 & ->). by exists e0.
    + rewrite lookup_alter_ne in He by done. by exists e.
  - destruct (rerr_handle_map t rerr Hinv) as [_ Hs]. unfold rerr_spec in Hs. intros He. left.
    destruct (route_map t !! rerr_broken_dest rerr) as [e0|] eqn:E0.
    + destruct Hs as [_ Hm]. rewrite Hm in He. destruct (rerr_handle t rerr).1; [|by exists e].
      apply lookup_insert_Some in He as [[<- <-]|[? ?]]; [|by exists e]. by exists e0.
    + destruct Hs as [_ Hm]. rewrite Hm in He. by exists e.
Qed.

Lemma discovered_provenance ops d e :
  route_map (route_run ops) !! d = Some e → rt_source e = ROUTE_SRC_DISCOVERED →
  discovered_by ops e.
Proof.
  revert d e; induction ops as [|o ops IH] using rev_ind; intros d e He Hsrc.
  { unfold route_run, route_map in He. simpl in He. done. }
  rewrite route_run_snoc in He.
  destruct (route_step_origin _ _ _ _ (route_run_inv ops) He)
    as [(e0 & H0 & Hs)|(nh & hops & metric & st & src & now & -> & Hd & Hn & Hh & Hm & Hsr)].
  - apply (discovered_by_same _ e0); [done|]. pose proof Hs as (_ & _ & _ & _ & Hs').
    destruct (IH d e0 H0 ltac:(congruence)) as (st & now & Hin). exists st, now. set_solver.
  - exists st, now. rewrite Hd, Hn, Hh, Hm. rewrite <- Hsrc, Hsr. set_solver.
Qed.

(** A breadcrumb install leaves every discovered entry as it is. *)
Lemma breadcrumb_install_keeps t dest nh hops metric st now d e :
  route_inv t → route_map t !! d = Some e → rt_source e = ROUTE_SRC_DISCOVERED →
  route_map (route_step t (OpInstall dest nh hops metric st ROUTE_SRC_BREADCRUMB now)) !! d = Some e.
Proof.
  intros Hinv He Hsrc. simpl.
  destruct (route_install_map t dest nh hops metric st ROUTE_SRC_BREADCRUMB now Hinv) as [_ Hs].
  revert Hs. set (r := route_install _ _ _ _ _ _ _ _). unfold install_spec. intros Hs.
  destruct (route_map t !! dest) as [e0|] eqn:E0.
  - destruct Hs as [_ Hm]. rewrite Hm. destruct (route_replaces _ _ _ _) eqn:Hr; [|done].
    rewrite lookup_insert_ne; [done|]. intros ->. rewrite E0 in He. injection He as ->.
    unfold route_replaces in Hr. by rewrite Hsrc in Hr.
  - assert (dest ≠ d) by congruence.
    destruct (bool_decide (count t = MAX_ROUTES)).
    + destruct Hs as [(_ & Hm & _)|(_ & v & Hv & _ & Hb & Hm)]; rewrite Hm; [done|].
      rewrite lookup_insert_ne, lookup_delete_ne; [done| |done].
      intros Hd. specialize (Hb eq_refl). apply bool_decide_eq_true in Hb.
      assert (route_map t !! d = Some v) as Hv' by (by apply (tmap_Some (cap:=MAX_ROUTES))).
      congruence.
    + destruct Hs as [_ Hm]. rewrite Hm, lookup_insert_ne; done.
Qed.

(** A discovered install ends with a discovered entry for its destination. *)
Lemma discovered_install_holds t dest nh hops metric st now :
  route_inv t →
  ∃ e, route_map (route_step t (OpInstall dest nh hops metric st ROUTE_SRC_DISCOVERED now)) !! dest
       = Some e ∧ rt_source e = ROUTE_SRC_DISCOVERED ∧
       (rt_next_hop e = nh ∨
        route_map t !! dest = Some e ∧ is_state ROUTE_BROKEN e = false ∧
        is_state ROUTE_STALE e = false ∧ metric ≤ rt_metric e).
Proof.
  intros Hinv. simpl.
  destruct (route_install_map t dest nh hops metric st ROUTE_SRC_DISCOVERED now Hinv) as [_ Hs].
  revert Hs. set (r := route_install _ _ _ _ _ _ _ _). unfold install_spec. intros Hs.
  destruct (route_map t !! dest) as [e0|] eqn:E0.
  - destruct Hs as [_ Hm]. rewrite Hm. destruct (route_replaces _ _ _ _) eqn:Hr.
    + eexists. rewrite lookup_insert_eq. split; [done|]. split; [done|]. by left.
    + exists e0. split; [done|]. unfold route_replaces in Hr.
      case_bool_decide as Hne; [done|].
      split; [done|]. right. conds. split_and!; [done..|lia].
  - destruct (bool_decide (count t = MAX_ROUTES)).
    + destruct Hs as [(_ & _ & [=] & _)|(_ & v & _ & _ & _ & Hm)]. rewrite Hm.
      eexists. rewrite lookup_insert_eq. split; [done|]. split; [done|]. by left.
    + destruct Hs as [_ Hm]. rewrite Hm. eexists. rewrite lookup_insert_eq.
      split; [done|]. split; [done|]. by left.
Qed.

(** Trust classes: after any history, a route of class DISCOVERED has the next
    hop, hop count and metric of some DISCOVERED install of the history (no
    breadcrumb, failure report or maintenance pass can forge one); no sequence of
    breadcrumb installs, with any metric and in a table full or not, changes or
    evicts a DISCOVERED route; and a DISCOVERED install always leaves a DISCOVERED
    route to its destination, its own or a live one at least as good. *)
Theorem breadcrumbs_never_displace_discovered (ops : list route_op) :
  let t := route_run ops in
  (∀ d e, route_lookup t d = Some e → rt_source e = ROUTE_SRC_DISCOVERED → discovered_by ops e) ∧
  (∀ d e crumbs, route_lookup t d = Some e → rt_source e = ROUTE_SRC_DISCOVERED →
     Forall (λ o, ∃ dest nh hops metric st now,
               o = OpInstall dest nh hops metric st ROUTE_SRC_BREADCRUMB now) crumbs →
     route_lookup (foldl route_step t crumbs) d = Some e) ∧
  (∀ d nh hops metric st now,
     ∃ e, route_lookup (route_step t (OpInstall d nh hops metric st ROUTE_SRC_DISCOVERED now)) d
          = Some e ∧ rt_source e = ROUTE_SRC_DISCOVERED ∧
          (rt_next_hop e = nh ∨
           route_lookup t d = Some e ∧ rt_state e ≠ ROUTE_BROKEN ∧ rt_state e ≠ ROUTE_STALE ∧
           metric ≤ rt_metric e)).
Proof.
  intros t. pose proof (route_run_inv ops) as Hinv. fold t in Hinv.
  split; [|split].
  - intros d e. rewrite route_lookup_map by done. apply discovered_provenance.
  - intros d e crumbs He Hsrc Hall. rewrite route_lookup_map in He by done.
    enough (route_inv (foldl route_step t crumbs) ∧
            route_map (foldl route_step t crumbs) !! d = Some e) as [? ?]
      by (by rewrite route_lookup_map).
    revert Hall. induction crumbs as [|o os IH] using rev_ind; [done|].
    rewrite Forall_app, Forall_singleton, foldl_app. simpl.
    intros [Hall (dest & nh & hops & metric & st & now & ->)].
    destruct (IH Hall) as [IH1 IH2]. split; [by apply route_step_inv|].
    by apply breadcrumb_install_keeps.
  - intros d nh hops metric st now.
    destruct (discovered_install_holds t d nh hops metric st now Hinv) as (e & He & Hs & Hor).
    exists e. rewrite !route_lookup_map by (try apply route_step_inv; done).
    split; [done|]. split; [done|]. destruct Hor as [?|(? & ?%bool_decide_eq_false & ?%bool_decide_eq_false & ?)];
      [by left|by right].
Qed.
