(* ===== verification/NeighborSpec.v ===== *)
(** * Correctness of the neighbor table

    The neighbor table of [routing.c] as a map from address to entry, and the
    tenure rule over arbitrary histories: only a peer heard beaconing several
    times over several minutes counts as established. *)

From stdpp Require Import base numbers sets option decidable gmap list.
From S2P Require Import Prelude Tables KeyedTable Routing.

Abbreviation nb_inv := (keyed nb_addr MAX_NEIGHBORS).
Abbreviation nb_map := (tmap nb_addr).

Lemma neighbor_lookup_map t a : nb_inv t → neighbor_lookup t a = nb_map t !! a.
Proof.
  intros Hinv. unfold neighbor_lookup. destruct (neighbor_index t a) as [i|] eqn:Hi; simpl.
  - by destruct (kindex_Some _ _ _ Hinv Hi) as (_ & _ & _ & ->).
  - by rewrite (kindex_None _ _ Hinv Hi).
Qed.

(** A beacon from [a]: refresh, admission, or admission in place of the peer
    heard least recently. *)
Definition update_spec (full : bool) (m : gmap Z neighbor_entry_t) (a rssi snr hash now : Z)
    (m' : gmap Z neighbor_entry_t) : Prop :=
  match m !! a with
  | Some e => m' = <[a := neighbor_beaconed e rssi snr hash now]> m
  | None =>
      if full
      then ∃ v, m !! nb_addr v = Some v ∧
             map_Forall (λ _ e, nb_last_heard v ≤ nb_last_heard e) m ∧
             m' = <[a := neighbor_new a rssi snr hash now]> (delete (nb_addr v) m)
      else m' = <[a := neighbor_new a rssi snr hash now]> m
  end.

Lemma neighbor_update_map t a rssi snr hash now :
  nb_inv t →
  let r := neighbor_update t a rssi snr hash now in
  nb_inv r.2 ∧ (r.1 < count r.2)%nat ∧
  nb_map r.2 !! a = Some (entries r.2 !!! r.1) ∧
  update_spec (bool_decide (count t = MAX_NEIGHBORS)) (nb_map t) a rssi snr hash now (nb_map r.2).
Proof.
  intros Hinv r. subst r. unfold neighbor_update, update_spec.
  pose proof Hinv as [[Hlen Hcnt] _].
  destruct (neighbor_index t a) as [i|] eqn:Hi.
  - destruct (kindex_Some _ _ _ Hinv Hi) as (Hlt & Hl & Hd & Hm). rewrite Hm. simpl.
    destruct (keyed_tset_same t i (neighbor_beaconed (entries t !!! i) rssi snr hash now)
      Hinv Hlt eq_refl) as [H1 H2]. simpl in H2. rewrite Hd in H2.
    split; [done|]. split; [done|]. rewrite H2, lookup_insert_eq.
    by rewrite list_lookup_total_insert_eq by lia.
  - pose proof (kindex_None _ _ Hinv Hi) as Hm. rewrite Hm.
    destruct (decide (count t < MAX_NEIGHBORS)%nat) as [Hc|Hc].
    + rewrite bool_decide_false by lia. simpl.
      destruct (keyed_tpush t (neighbor_new a rssi snr hash now) Hinv Hc Hm) as [H1 H2].
      simpl in H2. split; [done|]. split; [lia|]. rewrite H2, lookup_insert_eq.
      by rewrite list_lookup_total_insert_eq by lia.
    + rewrite bool_decide_true by lia.
      assert (Hfull : live t = take MAX_NEIGHBORS (entries t)) by (unfold live; f_equal; lia).
      rewrite <- Hfull. set (i := best_index _ _).
      assert (Hi' : (i < length (live t))%nat).
      { apply best_index_lt. rewrite (length_live _ _ (proj1 Hinv)). unfold MAX_NEIGHBORS in *. lia. }
      pose proof (list_lookup_lookup_total_lt _ _ Hi') as Hv. simpl.
      destruct (keyed_tset t i _ (neighbor_new a rssi snr hash now) Hinv Hv) as [H1 H2]; [by right|].
      pose proof Hi' as Hi''. rewrite (length_live _ _ (proj1 Hinv)) in Hi''. simpl in H2.
      split; [done|]. split; [done|]. rewrite H2, lookup_insert_eq.
      rewrite list_lookup_total_insert_eq by lia. split; [done|].
      exists (live t !!! i). split; [|split; [|done]].
      * apply (tmap_Some (cap:=MAX_NEIGHBORS)); [done|]. split; [|done].
        by eapply list_elem_of_lookup_2.
      * intros k e [(j & Hj)%list_elem_of_lookup _]%(tmap_Some (cap:=MAX_NEIGHBORS)); [|done].
        rewrite <- (list_lookup_total_correct _ _ _ Hj). apply (best_index_min nb_last_heard).
        by eapply lookup_lt_Some.
Qed.

Definition touched (e : neighbor_entry_t) (rssi snr now : Z) : neighbor_entry_t :=
  mk_neighbor (nb_addr e) rssi snr now (nb_pubkey_hash e) (nb_name e) (nb_first_seen_ms e)
    (nb_beacon_count e) (nb_parked_retry_after_ms e).

Definition touch_spec (m : gmap Z neighbor_entry_t) (a rssi snr now : Z) (b : bool)
    (m' : gmap Z neighbor_entry_t) : Prop :=
  match m !! a with
  | Some e => if nb_last_heard e <? now then b = true ∧ m' = <[a := touched e rssi snr now]> m
              else b = false ∧ m' = m
  | None => b = false ∧ m' = m
  end.

Lemma neighbor_touch_map t a rssi snr now :
  nb_inv t →
  let r := neighbor_touch t a rssi snr now in
  nb_inv r.2 ∧ touch_spec (nb_map t) a rssi snr now r.1 (nb_map r.2).
Proof.
  intros Hinv r. subst r. unfold neighbor_touch, touch_spec.
  destruct (neighbor_index t a) as [i|] eqn:Hi.
  - destruct (kindex_Some _ _ _ Hinv Hi) as (Hlt & Hl & Hd & Hm). rewrite Hm.
    destruct (now <=? _) eqn:Hn.
    { assert ((nb_last_heard (entries t !!! i) <? now) = false) as -> by lia. done. }
    assert ((nb_last_heard (entries t !!! i) <? now) = true) as -> by lia.
    destruct (keyed_tset_same t i (touched (entries t !!! i) rssi snr now) Hinv Hlt eq_refl)
      as [H1 H2]. split; [done|]. split; [done|]. simpl in H2. by rewrite Hd in H2.
  - by rewrite (kindex_None _ _ Hinv Hi).
Qed.

Lemma neighbor_purge_map t now :
  nb_inv t →
  nb_inv (neighbor_purge t now) ∧
  nb_map (neighbor_purge t now) = filter (λ kv, neighbor_expired now kv.2 = false) (nb_map t).
Proof. apply keyed_swap_purge. Qed.

(** ** Histories *)

Inductive nb_op :=
| NbBeacon (addr rssi snr hash now : Z)
| NbTouch (addr rssi snr now : Z)
| NbPurge (now : Z).
Definition nb_step (t : neighbor_table_t) (o : nb_op) : neighbor_table_t :=
  match o with
  | NbBeacon a rssi snr hash now => (neighbor_update t a rssi snr hash now).2
  | NbTouch a rssi snr now => (neighbor_touch t a rssi snr now).2
  | NbPurge now => neighbor_purge t now
  end.
Definition nb_run (ops : list nb_op) : neighbor_table_t := foldl nb_step neighbor_init ops.
Definition is_beacon_of (a : Z) (o : nb_op) : bool :=
  match o with NbBeacon b _ _ _ _ => b =? a | _ => false end.
Definition beacons (a : Z) (ops : list nb_op) : Z :=
  Z.of_nat (length (filter (λ o, is_beacon_of a o = true) ops)).

Lemma nb_run_snoc ops o : nb_run (ops ++ [o]) = nb_step (nb_run ops) o.
Proof. unfold nb_run. by rewrite foldl_app. Qed.
Lemma beacons_snoc a ops o :
  beacons a (ops ++ [o]) = beacons a ops + (if is_beacon_of a o then 1 else 0).
Proof.
  unfold beacons. rewrite list.filter_app, length_app, list.filter_cons.
  destruct (is_beacon_of a o); simpl; lia.
Qed.

Lemma nb_run_inv ops : nb_inv (nb_run ops).
Proof.
  induction ops as [|o ops IH] using rev_ind; [apply keyed_init|].
  rewrite nb_run_snoc. destruct o; simpl.
  - by apply neighbor_update_map.
  - by apply neighbor_touch_map.
  - by apply neighbor_purge_map.
Qed.

(** Where an entry comes from: the one before with at most this beacon counted,
    or an admission by this beacon. *)
Lemma nb_step_origin t o a e :
  nb_inv t → nb_map (nb_step t o) !! a = Some e →
  (∃ e0, nb_map t !! a = Some e0 ∧ nb_first_seen_ms e = nb_first_seen_ms e0 ∧
     nb_beacon_count e0 ≤ nb_beacon_count e ≤ nb_beacon_count e0 + (if is_beacon_of a o then 1 else 0)) ∨
  (∃ rssi snr hash now, o = NbBeacon a rssi snr hash now ∧ nb_first_seen_ms e = now ∧
     nb_beacon_count e = 1).
Proof.
  intros Hinv. destruct o as [b rssi snr hash now|b rssi snr now|now]; simpl; intros He.
  - destruct (neighbor_update_map t b rssi snr hash now Hinv) as (_ & _ & _ & Hs).
    revert Hs. set (r := neighbor_update _ _ _ _ _ _) in *. unfold update_spec. intros Hs.
    assert (Hcase : nb_map t !! a = Some e ∨ b = a ∧
      (e = neighbor_new a rssi snr hash now ∨
       ∃ e0, nb_map t !! a = Some e0 ∧ e = neighbor_beaconed e0 rssi snr hash now)).
    { destruct (nb_map t !! b) as [e0|] eqn:E0; [|destruct (bool_decide (count t = _))].
      - rewrite Hs in He. apply lookup_insert_Some in He as [[-> <-]|[? ?]]; [|by left]. eauto 10.
      - destruct Hs as (v & _ & _ & Hm). rewrite Hm in He.
        apply lookup_insert_Some in He as [[-> <-]|[? [_ ?]%lookup_delete_Some]]; [|by left]. eauto.
      - rewrite Hs in He. apply lookup_insert_Some in He as [[-> <-]|[? ?]]; [|by left]. eauto. }
    destruct Hcase as [He0|[-> [->|(e0 & He0 & ->)]]].
    + left. exists e. split; [done|]. split; [done|]. split_if; lia.
    + right. eauto 10.
    + left. exists e0. rewrite Z.eqb_refl. simpl. split; [done|]. split; [done|]. split_if; lia.
  - destruct (neighbor_touch_map t b rssi snr now Hinv) as [_ Hs]. unfold touch_spec in Hs. left.
    assert (Hcase : nb_map t !! a = Some e ∨
                    ∃ e0, nb_map t !! a = Some e0 ∧ e = touched e0 rssi snr now).
    { destruct (nb_map t !! b) as [e0|] eqn:E0; [destruct (_ <? _)|];
        destruct Hs as [_ Hm]; rewrite Hm in He; [|by left..].
      apply lookup_insert_Some in He as [[<- <-]|[? ?]]; [eauto|by left]. }
    destruct Hcase as [He0|(e0 & He0 & ->)]; 
      eexists; (split; [done|]); (split; [done|]); simpl; lia.
  - destruct (neighbor_purge_map t now Hinv) as [_ Hm]. rewrite Hm in He.
    apply map_lookup_filter_Some in He as [He _]. left. exists e.
    split; [done|]. split; [done|]. lia.
Qed.

(** The history behind a live entry: admitted by a beacon at its [first_seen]
    time, never absent since, and credited only with its own beacons. *)
Definition admitted_at (ops : list nb_op) (a first beacon_count : Z) : Prop :=
  ∃ pre rssi snr hash post,
    ops = pre ++ NbBeacon a rssi snr hash first :: post ∧
    1 ≤ beacon_count ≤ 1 + beacons a post ∧
    ∀ mid, mid `prefix_of` post →
      is_Some (neighbor_lookup (nb_run (pre ++ NbBeacon a rssi snr hash first :: mid)) a).

Lemma nb_history ops a e :
  nb_map (nb_run ops) !! a = Some e → admitted_at ops a (nb_first_seen_ms e) (nb_beacon_count e).
Proof.
  revert e; induction ops as [|o ops IH] using rev_ind; intros e He; [done|].
  assert (Hpresent : is_Some (neighbor_lookup (nb_run (ops ++ [o])) a)).
  { rewrite neighbor_lookup_map by apply nb_run_inv. eauto. }
  rewrite nb_run_snoc in He.
  destruct (nb_step_origin _ _ _ _ (nb_run_inv ops) He)
    as [(e0 & He0 & -> & Hc)|(rssi & snr & hash & now & -> & -> & ->)].
  - destruct (IH e0 He0) as (pre & rssi & snr & hash & post & -> & Hb & Hmid).
    exists pre, rssi, snr, hash, (post ++ [o]).
    rewrite <- app_assoc in *. split; [done|]. rewrite beacons_snoc. split; [lia|].
    intros mid [k Hk]. destruct k as [|k0 k _] using rev_ind.
    { rewrite app_nil_r in Hk. by subst. }
    apply Hmid. rewrite app_assoc in Hk. apply app_inj_tail in Hk as [-> _]. by exists k.
  - exists ops, rssi, snr, hash, []. split; [done|]. split; [done|].
    intros mid ->%prefix_nil_inv. done.
Qed.

Lemma newly_admitted_spec ops a rssi snr hash now :
  let t := nb_run ops in
  let r := neighbor_update t a rssi snr hash now in
  neighbor_is_newly_admitted r.2 r.1 now = true ↔ neighbor_lookup t a = None.
Proof.
  pose proof (nb_run_inv ops) as Hinv. simpl. rewrite neighbor_lookup_map by done.
  destruct (neighbor_update_map (nb_run ops) a rssi snr hash now Hinv) as (_ & Hlt & He & Hs).
  revert Hlt He Hs. set (r := neighbor_update _ _ _ _ _ _). intros Hlt He Hs.
  unfold neighbor_is_newly_admitted. rewrite decide_False by lia.
  set (e := entries r.2 !!! r.1) in *. unfold update_spec in Hs.
  destruct (nb_map (nb_run ops) !! a) as [e0|] eqn:E0.
  - split; [|done]. intros [Hc _]%andb_true_iff.
    rewrite Hs, lookup_insert_eq in He. injection He as He. rewrite <- He in Hc.
    apply nb_history in E0 as (? & ? & ? & ? & ? & _ & Hpos & _). simpl in Hc.
    destruct (_ <? _) eqn:?; lia.
  - split; [done|]. intros _.
    assert (e = neighbor_new a rssi snr hash now) as ->.
    { destruct (bool_decide (count _ = _)); [destruct Hs as (v & _ & _ & Hs)|];
        rewrite Hs, lookup_insert_eq in He; congruence. }
    simpl. by rewrite Z.eqb_refl.
Qed.

(** Tenure: after any history of beacons, other traffic and purges, a neighbor
    counts as established only if it was admitted by a beacon at least five minutes
    ago, has been in the table ever since, and beaconed at least three times
    including that one; traffic never admits a peer nor adds tenure.  The table
    holds at most 32 distinct addresses, and an update reports a newly admitted
    peer exactly when the address was absent before, evictions included. *)
Theorem neighbor_established_tenure (ops : list nb_op) (a now : Z) :
  let t := nb_run ops in
  (count t ≤ MAX_NEIGHBORS)%nat ∧ NoDup (nb_addr <$> live t) ∧
  (neighbor_is_established t a now = true →
   ∃ first count, admitted_at ops a first count ∧ ESTABLISHED_MIN_BEACONS ≤ count ∧
                  ESTABLISHED_MIN_AGE_MS ≤ now ⊖ first) ∧
  (∀ rssi snr hash,
     let r := neighbor_update t a rssi snr hash now in
     neighbor_is_newly_admitted r.2 r.1 now = true ↔ neighbor_lookup t a = None).
Proof.
  intros t. pose proof (nb_run_inv ops) as Hinv. fold t in Hinv.
  split; [apply Hinv|]. split; [apply Hinv|]. split.
  - unfold neighbor_is_established. destruct (neighbor_index t a) as [i|] eqn:Hi; [|done].
    intros [Hb Ha]%andb_true_iff.
    destruct (kindex_Some _ _ _ Hinv Hi) as (_ & _ & _ & Hm).
    exists (nb_first_seen_ms (entries t !!! i)), (nb_beacon_count (entries t !!! i)).
    split; [by apply nb_history|]. lia.
  - intros rssi snr hash. apply newly_admitted_spec.
Qed.

(** Every operation of the neighbor table is an operation on the map. *)
Theorem neighbor_table_refines_map (ops : list nb_op) :
  let t := nb_run ops in
  (∀ a, neighbor_lookup t a = nb_map t !! a) ∧
  (∀ a rssi snr hash now,
     let r := neighbor_update t a rssi snr hash now in
     neighbor_lookup r.2 a = Some (entries r.2 !!! r.1) ∧
     update_spec (bool_decide (count t = MAX_NEIGHBORS)) (nb_map t) a rssi snr hash now
       (nb_map r.2)) ∧
  (∀ a rssi snr now,
     let r := neighbor_touch t a rssi snr now in
     touch_spec (nb_map t) a rssi snr now r.1 (nb_map r.2)) ∧
  (∀ now, nb_map (neighbor_purge t now) =
     filter (λ kv, neighbor_expired now kv.2 = false) (nb_map t)).
Proof.
  intros t. pose proof (nb_run_inv ops) as Hinv. fold t in Hinv.
  split; [intros; by apply neighbor_lookup_map|]. split; [|split].
  - intros a rssi snr hash now r.
    destruct (neighbor_update_map t a rssi snr hash now Hinv) as (H1 & _ & H2 & H3).
    split; [|done]. by rewrite neighbor_lookup_map.
  - intros a rssi snr now. by apply neighbor_touch_map.
  - intros now. by apply neighbor_purge_map.
Qed.
