(* ===== verification/NetworkKey.v ===== *)
(** * The network key and its message authentication code
    ([components/network_key/network_key.c], [crypto_ct_memeq] of [crypto.h])

    The key provider's state, its provisioning paths and the domain-separated
    MAC every control frame carries.  HMAC-SHA256 is library code: a parameter
    of the definitions that use it.  Non-volatile storage is a value of the
    state; whether a read or a write of it succeeds is an argument. *)

From stdpp Require Import base strings numbers option decidable list.
From Stdlib Require Import Ascii.
From S2P Require Import Prelude.

(** ** Constant-time comparison *)

(** [uint8_t acc = 0; for (i < n) acc |= a[i] ^ b[i]; return acc == 0;] *)
Fixpoint ct_acc (acc : Z) (a b : list Z) (n : nat) : option Z :=
  match n, a, b with
  | O, _, _ => Some acc
  | S n, x :: a, y :: b => ct_acc (Z.lor acc (Z.lxor x y)) a b n
  | S _, _, _ => None
  end.
(** [None]: a read past the end of a buffer. *)
Definition crypto_ct_memeq (a b : list Z) (n : nat) : option bool :=
  acc ← ct_acc 0 a b n; Some (acc =? 0).

Lemma ct_acc_zero acc a b n :
  0 ≤ acc → length a = n → length b = n → Forall is_u8 a → Forall is_u8 b →
  ∃ r, ct_acc acc a b n = Some r ∧ 0 ≤ r ∧ (r = 0 ↔ acc = 0 ∧ a = b).
Proof.
  revert acc b n; induction a as [|x a IH]; intros acc b n Hacc Ha Hb Ua Ub.
  - destruct n, b; [|simpl in *; lia..]. exists acc. split; [done|]. split; [done|]. naive_solver.
  - destruct n as [|n], b as [|y b]; [simpl in *; lia..|].
    inversion_clear Ua as [|? ? Hx Ua']. inversion_clear Ub as [|? ? Hy Ub'].
    assert (Hxor : 0 ≤ Z.lxor x y) by (apply Z.lxor_nonneg; cint_unfold; lia).
    destruct (IH (Z.lor acc (Z.lxor x y)) b n) as (r & Hr0 & Hr & Hiff);
      [by apply Z.lor_nonneg|simpl in *; lia|simpl in *; lia|done|done|].
    cbn [ct_acc]. rewrite Hr0. exists r. split; [done|]. split; [done|].
    rewrite Hiff, Z.lor_eq_0_iff, Z.lxor_eq_0_iff. split; [naive_solver|].
    intros [? [= -> ->]]. done.
Qed.

Lemma crypto_ct_memeq_spec a b n :
  length a = n → length b = n → Forall is_u8 a → Forall is_u8 b →
  crypto_ct_memeq a b n = Some (bool_decide (a = b)).
Proof.
  intros Ha Hb Ua Ub. unfold crypto_ct_memeq.
  destruct (ct_acc_zero 0 a b n) as (r & -> & _ & Hiff); [done..|]. simpl. f_equal.
  destruct (r =? 0) eqn:E; symmetry.
  - apply bool_decide_eq_true, Hiff. lia.
  - apply bool_decide_eq_false. intros ->. assert (r = 0) by (by apply Hiff). lia.
Qed.

(** ** The key provider *)

Record netkey := mk_netkey {
  nk_key : list Z; nk_provisioned : bool;
  nk_store : option (list Z) (** the persisted blob *) }.

Definition netkey_store_read (st : netkey) (readable : bool) : option (list Z) :=
  if readable
  then blob ← nk_store st; if decide (length blob = 32%nat) then Some blob else None
  else None.
Definition netkey_store_write (st : netkey) (key : list Z) (write_ok : bool) : netkey :=
  if write_ok then mk_netkey (nk_key st) (nk_provisioned st) (Some key) else st.

Definition netkey_set_inmem (st : netkey) (key : list Z) : netkey :=
  mk_netkey key true (nk_store st).
Definition network_key_set_provisioned (st : netkey) (key : list Z) (write_ok : bool) : netkey :=
  netkey_store_write (netkey_set_inmem st key) key write_ok.
Definition network_key_clear (st : netkey) : netkey :=
  mk_netkey (replicate 32 0) false (nk_store st).
Definition network_key_is_provisioned (st : netkey) : bool := nk_provisioned st.
(** [None]: the nonzero return, nothing written. *)
Definition network_key_get (st : netkey) : option (list Z) :=
  if nk_provisioned st then Some (nk_key st) else None.

(** [random]: the 32 bytes drawn, [None] when the entropy gate is shut. *)
Definition network_key_generate_provision (st : netkey) (random : option (list Z))
    (write_ok : bool) : option (list Z) * netkey :=
  match random with
  | None => (None, st)
  | Some key => (Some key, network_key_set_provisioned st key write_ok)
  end.

Definition hex_digit (c : Z) : Z :=
  if (48 <=? c) && (c <=? 57) then c - 48
  else if (97 <=? c) && (c <=? 102) then c - 97 + 10
  else if (65 <=? c) && (c <=? 70) then c - 65 + 10
  else -1.
Fixpoint hex_decode (hex : list Z) : option (list Z) :=
  match hex with
  | a :: b :: hex =>
      let hi := hex_digit a in
      let lo := hex_digit b in
      if (hi <? 0) || (lo <? 0) then None
      else rest ← hex_decode hex; Some (u8 (Z.lor (hi << 4) lo) :: rest)
  | _ => Some []
  end.
(** [hex]: the characters before the terminator, [None] for a null pointer. *)
Definition network_key_set_from_hex (st : netkey) (hex : option (list Z)) (write_ok : bool)
    : Z * netkey :=
  match hex with
  | None => (-1, st)
  | Some hex =>
      if negb (length hex =? 64)%nat then (-1, st)
      else match hex_decode hex with
           | None => (-1, st)
           | Some key => (0, network_key_set_provisioned st key write_ok)
           end
  end.

Definition network_key_load_from_nvs (st : netkey) (readable : bool) : Z * netkey :=
  match netkey_store_read st readable with
  | None => (-1, st)
  | Some key => (0, netkey_set_inmem st key)
  end.

(** ** Message authentication *)

Definition NETWORK_KEY_MAC_MAX_LABEL_LEN : nat := 32.
Definition NETWORK_KEY_MAC_MAX_DATA_LEN : nat := 255.

(** The bytes of a C string literal. *)
Definition str_bytes (s : string) : list Z :=
  (λ a, Z.of_N (N_of_ascii a)) <$> String.list_ascii_of_string s.

Section Mac.
(** [crypto_hmac_sha256] and [crypto_sha256]. *)
Variable hmac : list Z → list Z → list Z.
Variable sha256 : list Z → list Z.

Definition network_key_mac (st : netkey) (label data : list Z) : Z * list Z :=
  if (NETWORK_KEY_MAC_MAX_DATA_LEN <? length data)%nat ||
     (NETWORK_KEY_MAC_MAX_LABEL_LEN <? length label)%nat
  then (-1, replicate 8 0)
  else match network_key_get st with
       | None => (-1, replicate 8 0)
       | Some key => (0, take 8 (hmac key (label ++ data)))
       end.

Definition network_key_mac_verify (st : netkey) (label data mac : list Z) : option bool :=
  let '(rc, expect) := network_key_mac st label data in
  if negb (rc =? 0) then Some false else crypto_ct_memeq expect mac 8.

Definition network_key_fingerprint (st : netkey) : list Z :=
  match network_key_get st with
  | None => replicate 4 0
  | Some key => take 4 (sha256 key)
  end.
End Mac.

(** What the firmware relies on of HMAC-SHA256: 32 bytes out. *)
Class HmacLaws (hmac : list Z → list Z → list Z) : Prop :=
  { hmac_length k m : length (hmac k m) = 32%nat;
    hmac_bytes k m : Forall is_u8 (hmac k m) }.

Section MacFacts.
Context (hmac : list Z → list Z → list Z) `{!HmacLaws hmac}.

Lemma mac_length st label data : length (network_key_mac hmac st label data).2 = 8%nat.
Proof.
  unfold network_key_mac. split_if; [done|].
  destruct (network_key_get st); [|done]. simpl. rewrite length_take, hmac_length. done.
Qed.

Lemma mac_bytes st label data : Forall is_u8 (network_key_mac hmac st label data).2.
Proof.
  unfold network_key_mac. split_if; [by apply Forall_replicate|].
  destruct (network_key_get st); cbn [snd]; [|by apply Forall_replicate].
  apply Forall_take, hmac_bytes.
Qed.

(** Verification is equality with the MAC of a provisioned key. *)
Lemma mac_verify_spec st label data mac :
  length mac = 8%nat → Forall is_u8 mac →
  network_key_mac_verify hmac st label data mac =
  Some (bool_decide (network_key_mac hmac st label data = (0, mac))).
Proof.
  intros Hl Hb. unfold network_key_mac_verify.
  pose proof (mac_length st label data) as Hl'. pose proof (mac_bytes st label data) as Hb'.
  destruct (network_key_mac hmac st label data) as [rc expect]. simpl in *.
  destruct (rc =? 0) eqn:E; simpl.
  - rewrite crypto_ct_memeq_spec by done. f_equal. apply bool_decide_ext.
    assert (rc = 0) as -> by lia. naive_solver.
  - f_equal. symmetry. apply bool_decide_eq_false. intros [= -> _]. done.
Qed.

Lemma mac_unprovisioned st label data :
  nk_provisioned st = false → network_key_mac hmac st label data = (-1, replicate 8 0).
Proof.
  intros Hp. unfold network_key_mac, network_key_get. rewrite Hp. by split_if.
Qed.

Lemma mac_provisioned st label data :
  nk_provisioned st = true →
  (length data ≤ NETWORK_KEY_MAC_MAX_DATA_LEN)%nat →
  (length label ≤ NETWORK_KEY_MAC_MAX_LABEL_LEN)%nat →
  network_key_mac hmac st label data = (0, take 8 (hmac (nk_key st) (label ++ data))).
Proof.
  intros Hp Hd Hl. unfold network_key_mac, network_key_get. rewrite Hp.
  by rewrite (proj2 (Nat.ltb_ge _ _) Hd), (proj2 (Nat.ltb_ge _ _) Hl).
Qed.
End MacFacts.

(** ** Provisioning *)

Definition is_hex (c : Z) : bool := 0 <=? hex_digit c.

Lemma hex_digit_range c : -1 ≤ hex_digit c ≤ 15.
Proof. unfold hex_digit. repeat split_if; conds; lia. Qed.

Lemma hex_byte hi lo : 0 ≤ hi ≤ 15 → 0 ≤ lo ≤ 15 → u8 (Z.lor (hi << 4) lo) = 16 * hi + lo.
Proof.
  intros Hhi Hlo. rewrite shiftl_mul by lia.
  rewrite (lor_disjoint (hi * 2 ^ 4) lo 4); [cint|lia|apply Z.mod_mul; lia|lia].
Qed.

(** The decoder reads exactly the strings of hexadecimal digit pairs. *)
Lemma hex_decode_spec n hex :
  length hex = (2 * n)%nat →
  match hex_decode hex with
  | Some key => Forall (λ c, is_hex c = true) hex ∧ length key = n ∧ Forall is_u8 key ∧
                ∀ i b, key !! i = Some b → ∃ h l, hex !! (2 * i)%nat = Some h ∧
                  hex !! (2 * i + 1)%nat = Some l ∧ b = 16 * hex_digit h + hex_digit l
  | None => Exists (λ c, is_hex c = false) hex
  end.
Proof.
  revert hex; induction n as [|n IH]; intros hex Hlen.
  { destruct hex; [|done]. simpl. split_and!; try done; constructor. }
  destruct hex as [|a [|b hex]]; [simpl in *; lia..|].
  assert (Hlen' : length hex = (2 * n)%nat) by (simpl in Hlen; lia).
  specialize (IH hex Hlen'). cbn [hex_decode].
  pose proof (hex_digit_range a) as Ha. pose proof (hex_digit_range b) as Hb.
  destruct ((hex_digit a <? 0) || (hex_digit b <? 0)) eqn:E.
  { apply orb_true_iff in E as [E|E]; [left|right; left]; unfold is_hex; lia. }
  conds. destruct (hex_decode hex) as [rest|]; cbn [mbind option_bind].
  - destruct IH as (Hh & Hl & Hu & Hd). rewrite hex_byte by lia.
    split; [|split; [|split]].
    + constructor; [unfold is_hex; lia|]. constructor; [unfold is_hex; lia|]. done.
    + simpl. by rewrite Hl.
    + constructor; [cint_unfold; lia|done].
    + intros [|i] x; simpl; [intros [= <-]; by exists a, b|].
      intros Hx. destruct (Hd i x Hx) as (h & l & ? & ? & ->).
      exists h, l. by replace (i + S (i + 0))%nat with (S (2 * i)) by lia.
  - right. by right.
Qed.

(** Provisioning: a key string is accepted exactly when it is 64 hexadecimal
    digits (either case) and decodes to the 32 bytes its digit pairs denote; any
    other string leaves the node as it was.  A key whose write to storage succeeded
    is the key after a reboot, and until it is loaded again no key is handed out
    and every MAC request is refused with the all-zero sentinel. *)
Theorem network_key_provisioning (hmac : list Z → list Z → list Z) (st : netkey)
    (hex : list Z) (write_ok : bool) :
  let r := network_key_set_from_hex st (Some hex) write_ok in
  (r.1 = 0 ↔ length hex = 64%nat ∧ Forall (λ c, is_hex c = true) hex) ∧
  (r.1 ≠ 0 → r = (-1, st)) ∧
  (r.1 = 0 → ∃ key, network_key_get r.2 = Some key ∧ length key = 32%nat ∧ Forall is_u8 key ∧
     (∀ i b, key !! i = Some b → ∃ h l, hex !! (2 * i)%nat = Some h ∧
        hex !! (2 * i + 1)%nat = Some l ∧ b = 16 * hex_digit h + hex_digit l) ∧
     (write_ok = true →
      let booted := network_key_clear r.2 in
      network_key_get booted = None ∧
      (∀ label data, network_key_mac hmac booted label data = (-1, replicate 8 0)) ∧
      (network_key_load_from_nvs booted true).1 = 0 ∧
      network_key_get (network_key_load_from_nvs booted true).2 = Some key)).
Proof.
  unfold network_key_set_from_hex. simpl.
  destruct (length hex =? 64)%nat eqn:Hlen; cbn [negb].
  2: { apply Nat.eqb_neq in Hlen. simpl. split; [split; [done|by intros [? _]]|]. done. }
  apply Nat.eqb_eq in Hlen.
  pose proof (hex_decode_spec 32 hex Hlen) as Hd.
  destruct (hex_decode hex) as [key|]; simpl.
  - destruct Hd as (Hh & Hl & Hu & Hd). split; [done|]. split; [done|]. intros _.
    exists key. unfold network_key_set_provisioned, netkey_store_write.
    split; [by destruct write_ok|]. split; [done|]. split; [done|]. split; [done|].
    intros ->. simpl. split; [done|].
    split; [intros; by apply mac_unprovisioned|].
    unfold network_key_load_from_nvs, netkey_store_read. simpl. by rewrite decide_True.
  - split; [|done]. split; [done|]. intros [_ Hh].
    apply Exists_exists in Hd as (c & Hc & Hx). rewrite Forall_forall in Hh.
    specialize (Hh _ Hc). congruence.
Qed.
