(* ===== verification/RoutingAuth.v ===== *)
(** * Authentication of control frames
    ([components/routing_auth/routing_auth.c], [rrep_sign]/[rrep_verify] of
    [components/routing/discovery.c])

    For every frame type the buffer its MAC covers, signing and verification;
    and what the MAC binds: the origin-stable fields of the frame, its type, and
    nothing a relay rewrites. *)

From stdpp Require Import base strings numbers option decidable list.
From S2P Require Import Prelude Tables Packet PacketSpec NetworkKey.

(** ** Covered bytes *)

Definition rrep_build_auth_buf (r : bramble_rrep_t) : list Z :=
  be32_bytes (rrep_query_id r) ++ be32_bytes (rrep_src_addr r) ++ [rrep_hop_count r] ++
  [rrep_route_metric r] ++ rrep_seq r.
Definition rerr_build_auth_buf (r : bramble_rerr_t) : list Z :=
  be32_bytes (rerr_reporter_addr r) ++ be32_bytes (rerr_broken_dest r) ++
  be32_bytes (rerr_broken_next_hop r) ++ rerr_seq r.
Definition ack_build_auth_buf (a : bramble_ack_t) : list Z :=
  be32_bytes (ack_src_addr a) ++ be32_bytes (ack_packet_id a) ++ ack_seq a.
Definition receipt_build_auth_buf (r : bramble_delivery_receipt_t) : list Z :=
  be32_bytes (rcpt_src_addr r) ++ be32_bytes (rcpt_orig_packet_id r) ++ rcpt_seq r.
(** The helper's return is not checked; its 16-byte buffer starts arbitrary. *)
Definition data_build_auth_buf (h : bramble_header_t) (src_addr : Z) : list Z :=
  let buf := replicate (HEADER_SIZE + 4) 0 in
  match bramble_build_aead_aad h src_addr buf (HEADER_SIZE + 4) with
  | Some (_, buf) => buf
  | None => buf
  end.
Definition ident_relay_build_auth_buf (a : bramble_identity_attestation_t) : list Z :=
  be32_bytes (att_src_addr a) ++ att_x25519_pub a ++ att_ed25519_pub a ++ att_sig a ++
  be64_bytes (att_not_after a) ++ att_endorsement_sig a ++ att_seq a.

Definition rrep_label : list Z := str_bytes "bramble-rrep-v2".
Definition rerr_label : list Z := str_bytes "bramble-rerr-v2".
Definition ack_label : list Z := str_bytes "bramble-ack-v2".
Definition receipt_label : list Z := str_bytes "bramble-receipt-v2".
Definition data_label : list Z := str_bytes "bramble-data-v1".
Definition ident_label : list Z := str_bytes "bramble-ident-relay-v1".

(** ** Signing and verification *)

Section Auth.
Context (hmac : list Z → list Z → list Z) (st : netkey).

Definition rrep_sign (r : bramble_rrep_t) : Z * bramble_rrep_t :=
  let '(rc, mac) := network_key_mac hmac st rrep_label (rrep_build_auth_buf r) in
  (rc, mk_rrep (rrep_header r) (rrep_query_id r) (rrep_src_addr r) (rrep_next_hop r)
         (rrep_hop_count r) (rrep_route_metric r) mac (rrep_seq r)).
Definition rrep_verify (r : bramble_rrep_t) : option bool :=
  network_key_mac_verify hmac st rrep_label (rrep_build_auth_buf r) (rrep_auth_hmac r).

Definition rerr_sign (r : bramble_rerr_t) : Z * bramble_rerr_t :=
  let '(rc, mac) := network_key_mac hmac st rerr_label (rerr_build_auth_buf r) in
  (rc, mk_rerr (rerr_header r) (rerr_reporter_addr r) (rerr_broken_dest r)
         (rerr_broken_next_hop r) mac (rerr_seq r)).
Definition rerr_verify (r : bramble_rerr_t) : option bool :=
  network_key_mac_verify hmac st rerr_label (rerr_build_auth_buf r) (rerr_auth_hmac r).

Definition ack_sign (a : bramble_ack_t) : Z * bramble_ack_t :=
  let '(rc, mac) := network_key_mac hmac st ack_label (ack_build_auth_buf a) in
  (rc, mk_ack (ack_header a) (ack_src_addr a) (ack_packet_id a) (ack_flags a)
         (ack_rssi_at_dest a) (ack_hop_count a) mac (ack_seq a) (ack_relay_path a)).
Definition ack_verify (a : bramble_ack_t) : option bool :=
  network_key_mac_verify hmac st ack_label (ack_build_auth_buf a) (ack_auth_hmac a).

Definition receipt_sign (r : bramble_delivery_receipt_t) : Z * bramble_delivery_receipt_t :=
  let '(rc, mac) := network_key_mac hmac st receipt_label (receipt_build_auth_buf r) in
  (rc, mk_receipt (rcpt_header r) (rcpt_src_addr r) (rcpt_orig_packet_id r) (rcpt_hop_count r)
         (rcpt_total_latency r) mac (rcpt_seq r) (rcpt_relay_path r)).
Definition receipt_verify (r : bramble_delivery_receipt_t) : option bool :=
  network_key_mac_verify hmac st receipt_label (receipt_build_auth_buf r) (rcpt_auth_hmac r).

Definition data_auth_sign (h : bramble_header_t) (src_addr : Z) : Z * list Z :=
  network_key_mac hmac st data_label (data_build_auth_buf h src_addr).
Definition data_auth_verify (h : bramble_header_t) (src_addr : Z) (mac : list Z) : option bool :=
  network_key_mac_verify hmac st data_label (data_build_auth_buf h src_addr) mac.

Definition ident_relay_sign (a : bramble_identity_attestation_t)
    : Z * bramble_identity_attestation_t :=
  let '(rc, mac) := network_key_mac hmac st ident_label (ident_relay_build_auth_buf a) in
  (rc, mk_attestation (att_header a) (att_src_addr a) (att_x25519_pub a) (att_ed25519_pub a)
         (att_sig a) (att_not_after a) (att_endorsement_sig a) mac (att_seq a)).
Definition ident_relay_verify (a : bramble_identity_attestation_t) : option bool :=
  network_key_mac_verify hmac st ident_label (ident_relay_build_auth_buf a) (att_auth_hmac a).
End Auth.

(** ** The frames and what they promise *)

Inductive auth_frame :=
| F_rrep (r : bramble_rrep_t)
| F_rerr (r : bramble_rerr_t)
| F_ack (a : bramble_ack_t)
| F_receipt (r : bramble_delivery_receipt_t)
| F_data (h : bramble_header_t) (src_addr : Z) (mac : list Z)
| F_ident (a : bramble_identity_attestation_t).

(** The fields no relay may change. *)
Inductive stable_fields :=
| S_rrep (query_id src_addr hop_count route_metric : Z) (seq : list Z)
| S_rerr (reporter_addr broken_dest broken_next_hop : Z) (seq : list Z)
| S_ack (src_addr ack_packet_id : Z) (seq : list Z)
| S_receipt (src_addr orig_packet_id : Z) (seq : list Z)
| S_data (version type flags dest_addr packet_id src_addr : Z)
| S_ident (src_addr : Z) (x25519_pub ed25519_pub sig : list Z) (not_after : Z)
    (endorsement_sig seq : list Z).

Definition stable (f : auth_frame) : stable_fields :=
  match f with
  | F_rrep r => S_rrep (rrep_query_id r) (rrep_src_addr r) (rrep_hop_count r) (rrep_route_metric r)
                  (rrep_seq r)
  | F_rerr r => S_rerr (rerr_reporter_addr r) (rerr_broken_dest r) (rerr_broken_next_hop r)
                  (rerr_seq r)
  | F_ack a => S_ack (ack_src_addr a) (ack_packet_id a) (ack_seq a)
  | F_receipt r => S_receipt (rcpt_src_addr r) (rcpt_orig_packet_id r) (rcpt_seq r)
  | F_data h s _ => S_data (h_version h) (h_type h) (h_flags h) (h_dest_addr h) (h_packet_id h) s
  | F_ident a => S_ident (att_src_addr a) (att_x25519_pub a) (att_ed25519_pub a) (att_sig a)
                   (att_not_after a) (att_endorsement_sig a) (att_seq a)
  end.

Definition frame_ok (f : auth_frame) : Prop :=
  match f with
  | F_rrep r => rrep_ok r
  | F_rerr r => rerr_ok r
  | F_ack a => ack_ok a
  | F_receipt r => receipt_ok r
  | F_data h s mac => header_ok h ∧ is_u32 s ∧ length mac = 8%nat
  | F_ident a => attestation_ok a
  end.
Definition frame_mac (f : auth_frame) : list Z :=
  match f with
  | F_rrep r => rrep_auth_hmac r
  | F_rerr r => rerr_auth_hmac r
  | F_ack a => ack_auth_hmac a
  | F_receipt r => rcpt_auth_hmac r
  | F_data _ _ mac => mac
  | F_ident a => att_auth_hmac a
  end.
Definition frame_label (f : auth_frame) : list Z :=
  match f with
  | F_rrep _ => rrep_label | F_rerr _ => rerr_label | F_ack _ => ack_label
  | F_receipt _ => receipt_label | F_data _ _ _ => data_label | F_ident _ => ident_label
  end.
Definition frame_auth_buf (f : auth_frame) : list Z :=
  match f with
  | F_rrep r => rrep_build_auth_buf r
  | F_rerr r => rerr_build_auth_buf r
  | F_ack a => ack_build_auth_buf a
  | F_receipt r => receipt_build_auth_buf r
  | F_data h s _ => data_build_auth_buf h s
  | F_ident a => ident_relay_build_auth_buf a
  end.
Definition mac_input (f : auth_frame) : list Z := frame_label f ++ frame_auth_buf f.

Definition frame_sign (hmac : list Z → list Z → list Z) (st : netkey) (f : auth_frame)
    : Z * auth_frame :=
  match f with
  | F_rrep r => prod_map id F_rrep (rrep_sign hmac st r)
  | F_rerr r => prod_map id F_rerr (rerr_sign hmac st r)
  | F_ack a => prod_map id F_ack (ack_sign hmac st a)
  | F_receipt r => prod_map id F_receipt (receipt_sign hmac st r)
  | F_data h s _ => prod_map id (F_data h s) (data_auth_sign hmac st h s)
  | F_ident a => prod_map id F_ident (ident_relay_sign hmac st a)
  end.
Definition frame_verify (hmac : list Z → list Z → list Z) (st : netkey) (f : auth_frame)
    : option bool :=
  match f with
  | F_rrep r => rrep_verify hmac st r
  | F_rerr r => rerr_verify hmac st r
  | F_ack a => ack_verify hmac st a
  | F_receipt r => receipt_verify hmac st r
  | F_data h s mac => data_auth_verify hmac st h s mac
  | F_ident a => ident_relay_verify hmac st a
  end.

(** ** The covered bytes determine type and stable fields *)

Lemma data_build_auth_buf_spec h s : data_build_auth_buf h s = aad_bytes h s.
Proof.
  unfold data_build_auth_buf. rewrite build_aead_aad_spec by (rewrite ?length_replicate; done).
  by apply filled_exact.
Qed.

Lemma be64_bytes_inj v w : is_u64 v → is_u64 w → be64_bytes v = be64_bytes w → v = w.
Proof.
  intros Hv Hw E. rewrite <- (be64_roundtrip v), <- (be64_roundtrip w) by done. by rewrite E.
Qed.

(** Peels one fixed-size field off an equation of concatenations. *)
Ltac peel H :=
  apply app_inj_1 in H as [? H];
  [|first [ done | rewrite !length_be64_bytes; done
          | repeat match goal with L : length _ = _ |- _ => rewrite L end; done ]].
Ltac field_eqs :=
  repeat match goal with
  | E : be32_bytes _ = be32_bytes _ |- _ => apply be32_bytes_inj in E; [|done..]
  | E : be64_bytes _ = be64_bytes _ |- _ => apply be64_bytes_inj in E; [|done..]
  | E : [_] = [_] |- _ => injection E as E
  end.

Lemma mac_input_inj f1 f2 :
  frame_ok f1 → frame_ok f2 → mac_input f1 = mac_input f2 → stable f1 = stable f2.
Proof.
  unfold mac_input. intros H1 H2 E.
  destruct f1, f2;
    try (cbv [frame_label rrep_label rerr_label ack_label receipt_label data_label ident_label] in E;
         vm_compute (str_bytes _) in E; discriminate E);
    apply app_inv_head in E; cbn [frame_ok frame_auth_buf stable] in *.
  - destruct H1 as (_&?&?&_&?&?&_&?), H2 as (_&?&?&_&?&?&_&?). unfold rrep_build_auth_buf in E.
    do 4 peel E. field_eqs. congruence.
  - destruct H1 as (_&?&?&?&_&?), H2 as (_&?&?&?&_&?). unfold rerr_build_auth_buf in E.
    do 3 peel E. field_eqs. congruence.
  - destruct H1 as (_&?&?&_&_&_&_&?&_), H2 as (_&?&?&_&_&_&_&?&_). unfold ack_build_auth_buf in E.
    do 2 peel E. field_eqs. congruence.
  - destruct H1 as (_&?&?&_&_&_&?&_), H2 as (_&?&?&_&_&_&?&_). unfold receipt_build_auth_buf in E.
    do 2 peel E. field_eqs. congruence.
  - destruct H1 as (?&?&_), H2 as (?&?&_). rewrite !data_build_auth_buf_spec in E.
    apply aad_bytes_inj in E as [E ->]; [|done..]. unfold mask_hop_limit in E. congruence.
  - destruct H1 as (_&?&?&?&?&?&?&_&?), H2 as (_&?&?&?&?&?&?&_&?).
    unfold ident_relay_build_auth_buf in E. do 6 peel E. field_eqs. congruence.
Qed.

Lemma mac_input_stable f1 f2 : stable f1 = stable f2 → mac_input f1 = mac_input f2.
Proof.
  unfold mac_input. destruct f1, f2; cbn [stable]; intros [=]; cbn [frame_label frame_auth_buf];
    unfold rrep_build_auth_buf, rerr_build_auth_buf, ack_build_auth_buf, receipt_build_auth_buf,
      ident_relay_build_auth_buf; rewrite ?data_build_auth_buf_spec;
    unfold aad_bytes, mask_hop_limit; congruence.
Qed.

Lemma frame_input_size f :
  frame_ok f → (length (frame_auth_buf f) ≤ NETWORK_KEY_MAC_MAX_DATA_LEN)%nat ∧
  (length (frame_label f) ≤ NETWORK_KEY_MAC_MAX_LABEL_LEN)%nat.
Proof.
  intros Hok. split; [|destruct f; vm_compute; lia].
  unfold NETWORK_KEY_MAC_MAX_DATA_LEN. destruct f; cbn [frame_ok frame_auth_buf] in *.
  - destruct Hok as (_&_&_&_&_&_&_&?). unfold rrep_build_auth_buf. rewrite !length_app. simpl. lia.
  - destruct Hok as (_&_&_&_&_&?). unfold rerr_build_auth_buf. rewrite !length_app. simpl. lia.
  - destruct Hok as (_&_&_&_&_&_&_&?&_). unfold ack_build_auth_buf. rewrite !length_app. simpl. lia.
  - destruct Hok as (_&_&_&_&_&_&?&_). unfold receipt_build_auth_buf. rewrite !length_app. simpl. lia.
  - rewrite data_build_auth_buf_spec. simpl. lia.
  - destruct Hok as (_&_&?&?&?&_&?&_&?). unfold ident_relay_build_auth_buf.
    rewrite !length_app, length_be64_bytes. simpl. lia.
Qed.

(** Signing stores the MAC and touches nothing else; verifying compares it. *)
Lemma frame_sign_spec hmac st f :
  let r := frame_sign hmac st f in
  let m := network_key_mac hmac st (frame_label f) (frame_auth_buf f) in
  r.1 = m.1 ∧ frame_mac r.2 = m.2 ∧ stable r.2 = stable f ∧ mac_input r.2 = mac_input f.
Proof.
  destruct f; simpl; unfold rrep_sign, rerr_sign, ack_sign, receipt_sign, data_auth_sign,
    ident_relay_sign; destruct (network_key_mac _ _ _ _); done.
Qed.
Lemma frame_verify_spec hmac st f :
  frame_verify hmac st f =
  network_key_mac_verify hmac st (frame_label f) (frame_auth_buf f) (frame_mac f).
Proof. by destruct f. Qed.
Lemma frame_mac_length f : frame_ok f → length (frame_mac f) = 8%nat.
Proof. destruct f; unfold frame_ok, rrep_ok, rerr_ok, ack_ok, receipt_ok, attestation_ok; naive_solver. Qed.

(** ** Properties *)

(** Control-frame authentication, for all six frame types: a signed frame still
    verifies after any change of the fields relays rewrite, a node without a key
    neither signs nor accepts anything (the all-zero MAC included), and a frame
    that verifies under another frame's MAC although its type or an origin-stable
    field differs exhibits two different HMAC inputs with the same truncated tag. *)
Theorem relayed_frames_authentic (hmac : list Z → list Z → list Z) (Hhmac : HmacLaws hmac)
    (st : netkey) (f f' : auth_frame) (Hf : frame_ok f) (Hf' : frame_ok f')
    (Hb : Forall is_u8 (frame_mac f')) (Hm : frame_mac f' = frame_mac (frame_sign hmac st f).2) :
  (nk_provisioned st = false →
     (frame_sign hmac st f).1 = -1 ∧ ∀ g, frame_verify hmac st g = Some false) ∧
  (nk_provisioned st = true →
     (frame_sign hmac st f).1 = 0 ∧
     (stable f' = stable f → frame_verify hmac st f' = Some true) ∧
     (stable f' ≠ stable f → frame_verify hmac st f' = Some true →
        mac_input f' ≠ mac_input f ∧
        take 8 (hmac (nk_key st) (mac_input f')) = take 8 (hmac (nk_key st) (mac_input f)))).
Proof.
  destruct (frame_sign_spec hmac st f) as (Hrc & Hmac & _ & _).
  destruct (frame_input_size f Hf) as [Hs1 Hs2]. destruct (frame_input_size f' Hf') as [Hs1' Hs2'].
  pose proof (frame_mac_length f' Hf') as Hl.
  rewrite (frame_verify_spec _ _ f'), mac_verify_spec by done. rewrite Hm, Hmac, Hrc. split.
  - intros Hp. rewrite mac_unprovisioned by done. split; [done|]. intros g.
    rewrite frame_verify_spec. unfold network_key_mac_verify. by rewrite mac_unprovisioned.
  - intros Hp. rewrite !mac_provisioned by done. cbn [fst snd].
    fold (mac_input f) (mac_input f'). split; [done|]. split.
    + intros Hst. f_equal. apply bool_decide_eq_true.
      by rewrite (mac_input_stable f' f Hst).
    + intros Hst [= Heq%bool_decide_eq_true]. split; [|congruence].
      intros E. by apply Hst, mac_input_inj.
Qed.

(** A toy 32-byte keyed function for the witnesses. *)
Definition toy_hmac (k m : list Z) : list Z := replicate 32 (u8 (foldr Z.add 0 k + foldr Z.add 0 m)).
#[global] Instance toy_hmac_laws : HmacLaws toy_hmac.
Proof.
  split; intros; unfold toy_hmac; [apply length_replicate|].
  apply Forall_replicate, u8_range.
Qed.
Definition toy_key : netkey := mk_netkey (replicate 32 3) true None.
Definition sample_rrep : bramble_rrep_t :=
  mk_rrep sample_header 7 1000 2000 3 200 (replicate 8 0) (replicate 6 1).
Definition relayed_rrep : bramble_rrep_t :=
  mk_rrep (mk_header 5 3 0 7 4444 7) 7 1000 5555 3 200 (rrep_auth_hmac (rrep_sign toy_hmac toy_key sample_rrep).2)
    (replicate 6 1).

Lemma relayed_frames_authentic_witness :
  frame_verify toy_hmac toy_key (F_rrep relayed_rrep) = Some true.
Proof.
  refine (proj1 (proj2 (proj2 (relayed_frames_authentic toy_hmac toy_hmac_laws toy_key
    (F_rrep sample_rrep) (F_rrep relayed_rrep) _ _ _ _) _)) _); vm_compute;
    repeat (split || constructor); lia || done.
Defined.
