(* ===== verification/Discovery.v ===== *)
(** * Route discovery ([components/routing/discovery.c])

    The table of outstanding discoveries, the construction and relaying of route
    requests and replies, and the decision a received reply resolves to; with the
    facts about hop counts and path metrics the handlers rely on. *)

From stdpp Require Import base strings numbers sets option decidable list.
From S2P Require Import Prelude Tables Packet PacketSpec NetworkKey RoutingAuth Routing.

Definition MAX_PENDING_DISCOVERIES : nat := 8.
Definition RREQ_RETRY_INTERVAL_1_MS : Z := 5000.
Definition RREQ_RETRY_INTERVAL_2_MS : Z := 15000.
Definition MAX_RREQ_ATTEMPTS : nat := 3.
Definition RREQ_HOP_LIMIT_INITIAL : Z := 4.
Definition RREQ_HOP_LIMIT_EXPANDED : Z := ROUTE_HOP_LIMIT_MAX.
Definition RREQ_FWD_JITTER_MIN_MS : Z := 50.
Definition RREQ_FWD_JITTER_MAX_MS : Z := 300.
Definition INTERMEDIATE_RREP_MAX_AGE_MS : Z := 60000.

(** ** Outstanding discoveries *)

Record pending_discovery_t := mk_disc {
  pd_dest_addr : Z; pd_query_ids : list Z; pd_timestamp : Z; pd_attempts : Z }.
Definition disc_zero : pending_discovery_t := mk_disc 0 (replicate MAX_RREQ_ATTEMPTS 0) 0 0.
#[global] Instance disc_inhabited : Inhabited pending_discovery_t := populate disc_zero.
Abbreviation pending_discovery_table_t := (ctable pending_discovery_t).

Definition discovery_init : pending_discovery_table_t :=
  table_init MAX_PENDING_DISCOVERIES disc_zero.

Definition discovery_start (table : pending_discovery_table_t) (dest_addr query_id now_ms : Z)
    : Z * pending_discovery_table_t :=
  if decide (MAX_PENDING_DISCOVERIES ≤ count table)%nat then (-1, table)
  else (0, tpush table (mk_disc dest_addr [query_id; 0; 0] now_ms 1)).

Definition discovery_lookup (table : pending_discovery_table_t) (dest_addr : Z)
    : option pending_discovery_t :=
  (λ i, entries table !!! i) <$> find_index (λ e, pd_dest_addr e =? dest_addr) (live table).

(** The attempts whose query id is on record. *)
Definition disc_queries (e : pending_discovery_t) : list Z :=
  take (Nat.min (Z.to_nat (pd_attempts e)) MAX_RREQ_ATTEMPTS) (pd_query_ids e).
Definition discovery_lookup_by_query (table : pending_discovery_table_t) (query_id : Z)
    : option pending_discovery_t :=
  (λ i, entries table !!! i) <$>
    find_index (λ e, existsb (λ q, q =? query_id) (disc_queries e)) (live table).

Definition discovery_remove (table : pending_discovery_table_t) (dest_addr : Z)
    : pending_discovery_table_t :=
  match find_index (λ e, pd_dest_addr e =? dest_addr) (live table) with
  | Some i => tswap_remove table i
  | None => table
  end.

Definition discovery_should_retry (d : pending_discovery_t) (now_ms : Z) : bool :=
  if pd_attempts d >=? Z.of_nat MAX_RREQ_ATTEMPTS then false
  else
    let interval := if pd_attempts d <=? 1 then RREQ_RETRY_INTERVAL_1_MS
                    else RREQ_RETRY_INTERVAL_2_MS in
    (now_ms ⊖ pd_timestamp d) >=? interval.

Definition discovery_record_attempt (d : pending_discovery_t) (query_id now_ms : Z)
    : pending_discovery_t :=
  mk_disc (pd_dest_addr d)
    (if pd_attempts d <? Z.of_nat MAX_RREQ_ATTEMPTS
     then <[Z.to_nat (pd_attempts d) := query_id]> (pd_query_ids d) else pd_query_ids d)
    now_ms (u8 (pd_attempts d + 1)).

Definition discovery_current_query_id (d : pending_discovery_t) : Z :=
  let idx := if pd_attempts d >? 0 then u8 (pd_attempts d - 1) else 0 in
  let idx := if idx >=? Z.of_nat MAX_RREQ_ATTEMPTS then Z.of_nat MAX_RREQ_ATTEMPTS - 1 else idx in
  pd_query_ids d !!! Z.to_nat idx.

Definition discovery_hop_limit_for_attempt (attempt : Z) : Z :=
  if attempt <=? 1 then RREQ_HOP_LIMIT_INITIAL else RREQ_HOP_LIMIT_EXPANDED.

Definition discovery_forward_jitter_ms (random_value : Z) : Z :=
  RREQ_FWD_JITTER_MIN_MS ⊕
    (random_value mod (RREQ_FWD_JITTER_MAX_MS - RREQ_FWD_JITTER_MIN_MS + 1)).

(** ** Requests *)

Definition hop_inc_sat (hop_count : Z) : Z := if hop_count >=? 255 then 255 else u8 (hop_count + 1).
Definition hop_add_sat (a b : Z) : Z :=
  let sum := u16 (a + b) in if sum >? 255 then 255 else u8 sum.

Definition rreq_build_originator (my_addr dest_addr query_id encrypted_source hop_limit : Z)
    : bramble_rreq_t :=
  mk_rreq (mk_header BRAMBLE_VERSION PKT_TYPE_RREQ 0 hop_limit dest_addr query_id)
    query_id encrypted_source 0 255 my_addr 0.

Definition rreq_forward (incoming : bramble_rreq_t) (my_addr rx_rssi rx_snr : Z) : bramble_rreq_t :=
  let h := rreq_header incoming in
  mk_rreq
    (mk_header (h_version h) (h_type h) (h_flags h) (u8 (h_hop_limit h - 1)) (h_dest_addr h)
       (h_packet_id h))
    (rreq_query_id incoming) (rreq_encrypted_source incoming)
    (hop_inc_sat (rreq_hop_count incoming))
    (metric_apply_link_penalty (rreq_metric incoming) rx_rssi rx_snr)
    my_addr (rreq_salt incoming).

(** ** Replies *)

Section Replies.
Context (hmac : list Z → list Z → list Z) (st : netkey).

Definition rrep_build_destination (rreq : bramble_rreq_t) (my_addr : Z) : bramble_rrep_t :=
  (rrep_sign hmac st
     (mk_rrep
        (mk_header BRAMBLE_VERSION PKT_TYPE_RREP 0 ROUTE_HOP_LIMIT_MAX (rreq_prev_hop rreq)
           (rreq_query_id rreq))
        (rreq_query_id rreq) my_addr my_addr (hop_inc_sat (rreq_hop_count rreq))
        (rreq_metric rreq) (replicate 8 0) (replicate 6 0))).2.

Definition rrep_build_intermediate (rreq : bramble_rreq_t) (route_to_dest : route_entry_t)
    (my_addr rx_rssi rx_snr : Z) : bramble_rrep_t :=
  let hops_to_me := hop_inc_sat (rreq_hop_count rreq) in
  let metric_to_me := metric_apply_link_penalty (rreq_metric rreq) rx_rssi rx_snr in
  let dest_penalty := u16 (255 - rt_metric route_to_dest) in
  (rrep_sign hmac st
     (mk_rrep
        (mk_header BRAMBLE_VERSION PKT_TYPE_RREP 0 ROUTE_HOP_LIMIT_MAX (rreq_prev_hop rreq) 0)
        (rreq_query_id rreq) (rt_dest_addr route_to_dest) my_addr
        (hop_add_sat hops_to_me (rt_hop_count route_to_dest))
        (if dest_penalty >=? metric_to_me then 0 else u8 (metric_to_me - dest_penalty))
        (replicate 8 0) (replicate 6 0))).2.
End Replies.

Definition intermediate_rrep_route_usable (route : option route_entry_t) (now_ms : Z) : bool :=
  match route with
  | None => false
  | Some r =>
      bool_decide (rt_source r = ROUTE_SRC_DISCOVERED) && is_state ROUTE_ACTIVE r &&
      negb ((now_ms ⊖ rt_last_confirmed r) >? INTERMEDIATE_RREP_MAX_AGE_MS)
  end.

Definition rrep_forward (incoming : bramble_rrep_t) (next_hop_back my_addr : Z) : bramble_rrep_t :=
  let h := rrep_header incoming in
  mk_rrep
    (mk_header (h_version h) (h_type h) (h_flags h) (h_hop_limit h) next_hop_back (h_packet_id h))
    (rrep_query_id incoming) (rrep_src_addr incoming) my_addr (rrep_hop_count incoming)
    (rrep_route_metric incoming) (rrep_auth_hmac incoming) (rrep_seq incoming).

Inductive rrep_rx_action_t := RREP_RX_DROP | RREP_RX_DELIVER | RREP_RX_FORWARD.
Record rrep_rx_decision_t := mk_rrep_rx {
  rd_action : rrep_rx_action_t; rd_install_route : bool; rd_route_dest : Z;
  rd_route_next_hop : Z; rd_route_hops : Z; rd_route_metric : Z; rd_forward_to : Z;
  rd_deliver_dest : Z }.

Definition rrep_rx_decide (rrep : bramble_rrep_t) (link_metric : Z)
    (pd : pending_discovery_table_t) (rev : reverse_route_table_t) : rrep_rx_decision_t :=
  let d action install forward_to deliver_dest :=
    mk_rrep_rx action install (rrep_src_addr rrep) (rrep_next_hop rrep) (rrep_hop_count rrep)
      link_metric forward_to deliver_dest in
  match discovery_lookup_by_query pd (rrep_query_id rrep) with
  | Some e => d RREP_RX_DELIVER true 0 (pd_dest_addr e)
  | None =>
      match reverse_route_lookup rev (rrep_query_id rrep) with
      | Some e => d RREP_RX_FORWARD true (rr_prev_hop e) 0
      | None => d RREP_RX_DROP false 0 0
      end
  end.

(** ** Link penalties and path metrics *)

Lemma penalty_lin a b w x :
  0 < w → a < x < b → 0 ≤ Z.quot ((b - x) * w) (b - a) < w.
Proof.
  intros Hw Hx. rewrite Z.quot_div_nonneg by nia.
  split; [apply Z.div_pos; nia|]. apply Z.div_lt_upper_bound; nia.
Qed.

(** The penalty never leaves 0..50 and only falls as reception improves. *)
Lemma link_penalty_range rssi snr : 0 ≤ compute_link_penalty rssi snr ≤ PENALTY_MAX_TOTAL.
Proof.
  unfold compute_link_penalty, PENALTY_MAX_TOTAL.
  pose proof (penalty_lin PENALTY_RSSI_WORST PENALTY_RSSI_BEST PENALTY_RSSI_WEIGHT rssi) as H1.
  pose proof (penalty_lin PENALTY_SNR_WORST PENALTY_SNR_BEST PENALTY_SNR_WEIGHT snr) as H2.
  set (q1 := Z.quot ((PENALTY_RSSI_BEST - rssi) * _) _) in *.
  set (q2 := Z.quot ((PENALTY_SNR_BEST - snr) * _) _) in *.
  clearbody q1 q2.
  unfold PENALTY_RSSI_WORST, PENALTY_RSSI_BEST, PENALTY_RSSI_WEIGHT, PENALTY_SNR_WORST,
    PENALTY_SNR_BEST, PENALTY_SNR_WEIGHT in *.
  repeat split_if; conds; rewrite u8_id by (cint_unfold; lia); lia.
Qed.

Lemma metric_penalty_le metric rssi snr :
  is_u8 metric → 0 ≤ metric_apply_link_penalty metric rssi snr ≤ metric.
Proof.
  intros Hm. pose proof (link_penalty_range rssi snr). unfold metric_apply_link_penalty.
  split_if; conds; cint.
Qed.

Lemma hop_inc_sat_spec n : is_u8 n → is_u8 (hop_inc_sat n) ∧ hop_inc_sat n = Z.min 255 (n + 1).
Proof. intros. unfold hop_inc_sat. split_if; conds; cint. Qed.
Lemma hop_add_sat_spec a b : is_u8 a → is_u8 b → hop_add_sat a b = Z.min 255 (a + b).
Proof. intros. unfold hop_add_sat. split_if; conds; cint. Qed.

(** Better reception never costs more. *)
Lemma quot_antitone b w k x y : 0 < k → 0 < w → x ≤ y ≤ b →
  Z.quot ((b - y) * w) k ≤ Z.quot ((b - x) * w) k.
Proof. intros. apply Z.quot_le_mono; nia. Qed.

(** One of the two linear terms. *)
Definition lin_penalty (worst best weight x : Z) : Z :=
  if x <=? worst then weight
  else if x >=? best then 0 else Z.quot ((best - x) * weight) (best - worst).

Lemma lin_penalty_antitone worst best weight x y :
  worst < best → 0 < weight → x ≤ y →
  0 ≤ lin_penalty worst best weight y ≤ lin_penalty worst best weight x ∧
  lin_penalty worst best weight x ≤ weight.
Proof.
  intros Hwb Hw Hxy. unfold lin_penalty.
  pose proof (penalty_lin worst best weight x Hw) as H1.
  pose proof (penalty_lin worst best weight y Hw) as H2.
  pose proof (quot_antitone best weight (best - worst) x y ltac:(lia) Hw) as H3.
  repeat split_if; conds; lia.
Qed.

Lemma link_penalty_antitone r1 r2 s1 s2 :
  r1 ≤ r2 → s1 ≤ s2 → compute_link_penalty r2 s2 ≤ compute_link_penalty r1 s1.
Proof.
  intros Hr Hs.
  destruct (lin_penalty_antitone PENALTY_RSSI_WORST PENALTY_RSSI_BEST PENALTY_RSSI_WEIGHT r1 r2)
    as [? ?]; [done..|].
  destruct (lin_penalty_antitone PENALTY_SNR_WORST PENALTY_SNR_BEST PENALTY_SNR_WEIGHT s1 s2)
    as [? ?]; [done..|].
  unfold compute_link_penalty.
  fold (lin_penalty PENALTY_RSSI_WORST PENALTY_RSSI_BEST PENALTY_RSSI_WEIGHT r1).
  fold (lin_penalty PENALTY_RSSI_WORST PENALTY_RSSI_BEST PENALTY_RSSI_WEIGHT r2).
  fold (lin_penalty PENALTY_SNR_WORST PENALTY_SNR_BEST PENALTY_SNR_WEIGHT s1).
  fold (lin_penalty PENALTY_SNR_WORST PENALTY_SNR_BEST PENALTY_SNR_WEIGHT s2).
  unfold PENALTY_MAX_TOTAL, PENALTY_RSSI_WEIGHT, PENALTY_SNR_WEIGHT in *.
  repeat split_if; conds; rewrite !u8_id by (cint_unfold; lia); lia.
Qed.

(** ** A discovery along a path *)

(** A relay: its address and its reception of the frame it relays. *)
Record hop := mk_hop { hop_addr : Z; hop_rssi : Z; hop_snr : Z }.
Definition flood (r : bramble_rreq_t) (path : list hop) : bramble_rreq_t :=
  foldl (λ r h, rreq_forward r (hop_addr h) (hop_rssi h) (hop_snr h)) r path.
Definition path_penalty (path : list hop) : Z :=
  foldr (λ h acc, compute_link_penalty (hop_rssi h) (hop_snr h) + acc) 0 path.
Definition return_path (r : bramble_rrep_t) (back : list (Z * Z)) : bramble_rrep_t :=
  foldl (λ r h, rrep_forward r h.1 h.2) r back.

Lemma flood_snoc r path h :
  flood r (path ++ [h]) = rreq_forward (flood r path) (hop_addr h) (hop_rssi h) (hop_snr h).
Proof. unfold flood. by rewrite foldl_app. Qed.
Lemma path_penalty_cons h path :
  path_penalty (h :: path) = compute_link_penalty (hop_rssi h) (hop_snr h) + path_penalty path.
Proof. done. Qed.
Lemma path_penalty_snoc path h :
  path_penalty (path ++ [h]) = path_penalty path + compute_link_penalty (hop_rssi h) (hop_snr h).
Proof.
  induction path as [|x path IH]; [simpl; lia|]. simpl app. rewrite !path_penalty_cons, IH. lia.
Qed.
Lemma path_penalty_nonneg path : 0 ≤ path_penalty path.
Proof.
  induction path as [|h path IH]; [done|]. rewrite path_penalty_cons.
  pose proof (link_penalty_range (hop_rssi h) (hop_snr h)). lia.
Qed.

Lemma flood_fields src dest query pseudonym limit path :
  0 ≤ limit - Z.of_nat (length path) → limit ≤ 255 →
  let r := flood (rreq_build_originator src dest query pseudonym limit) path in
  rreq_hop_count r = Z.of_nat (length path) ∧
  h_hop_limit (rreq_header r) = limit - Z.of_nat (length path) ∧
  rreq_metric r = Z.max 0 (255 - path_penalty path) ∧
  rreq_prev_hop r = default src (hop_addr <$> last path) ∧
  rreq_query_id r = query ∧ h_dest_addr (rreq_header r) = dest ∧ rreq_encrypted_source r = pseudonym.
Proof.
  induction path as [|h path IH] using rev_ind; intros Hl Hlim.
  { simpl in *. repeat split; lia. }
  rewrite flood_snoc, path_penalty_snoc, length_app in *. simpl in Hl.
  destruct IH as (Hh & Hhl & Hm & _ & Hq & Hd & Hs); [lia|lia|].
  set (r := flood _ path) in *. unfold rreq_forward.
  cbn [rreq_hop_count rreq_header h_hop_limit rreq_metric rreq_prev_hop rreq_query_id h_dest_addr
       rreq_encrypted_source].
  pose proof (path_penalty_nonneg path).
  pose proof (link_penalty_range (hop_rssi h) (hop_snr h)) as Hp. unfold PENALTY_MAX_TOTAL in Hp.
  split; [|split; [|split; [|split; [|done]]]].
  - rewrite Hh. destruct (hop_inc_sat_spec (Z.of_nat (length path))) as [_ ->]; [cint_unfold; lia|].
    simpl. lia.
  - rewrite Hhl. simpl length. rewrite u8_id by (cint_unfold; lia). lia.
  - unfold metric_apply_link_penalty. rewrite Hm. split_if; conds; [lia|].
    rewrite u8_id by (cint_unfold; lia). lia.
  - by rewrite last_snoc.
Qed.

Lemma return_path_stable r back :
  stable (F_rrep (return_path r back)) = stable (F_rrep r) ∧
  rrep_auth_hmac (return_path r back) = rrep_auth_hmac r ∧
  rrep_next_hop (return_path r back) = default (rrep_next_hop r) (snd <$> last back).
Proof.
  unfold return_path. induction back as [|h back IH] using rev_ind; [done|].
  rewrite foldl_app. simpl. rewrite last_snoc. destruct IH as (? & ? & _). done.
Qed.

(** A request flooded along a path of fewer relays than its hop limit, answered by
    the destination and relayed back: the request has spent one hop of its limit per
    relay and names the last relay as previous hop; the reply carries the originator's
    query and the destination's address, counts one hop more than there were relays,
    names the last relay of the way back as next hop, and its metric is 255 less the
    sum of the link penalties, down to 0.  A path whose every link is received at
    least as well has at least that metric. *)
Theorem discovery_path_accounting (hmac : list Z → list Z → list Z) (st : netkey)
    (src dest query pseudonym limit : Z) (path : list hop) (back : list (Z * Z))
    (Hlen : Z.of_nat (length path) < limit) (Hlim : limit ≤ 255) :
  let rreq := flood (rreq_build_originator src dest query pseudonym limit) path in
  let rrep := return_path (rrep_build_destination hmac st rreq dest) back in
  h_hop_limit (rreq_header rreq) = limit - Z.of_nat (length path) ∧
  rreq_prev_hop rreq = default src (hop_addr <$> last path) ∧
  rrep_query_id rrep = query ∧ rrep_src_addr rrep = dest ∧
  rrep_hop_count rrep = Z.of_nat (length path) + 1 ∧
  rrep_route_metric rrep = Z.max 0 (255 - path_penalty path) ∧
  rrep_next_hop rrep = default dest (snd <$> last back) ∧
  (∀ better, Forall2 (λ h b, hop_rssi h ≤ hop_rssi b ∧ hop_snr h ≤ hop_snr b) path better →
     rrep_route_metric rrep ≤
     rreq_metric (flood (rreq_build_originator src dest query pseudonym limit) better)).
Proof.
  intros rreq rrep.
  destruct (flood_fields src dest query pseudonym limit path) as (Hh & Hhl & Hm & Hp & Hq & Hd & _);
    [lia|done|]. fold rreq in Hh, Hhl, Hm, Hp, Hq, Hd.
  destruct (return_path_stable (rrep_build_destination hmac st rreq dest) back) as (Hst & _ & Hnh).
  fold rrep in Hst, Hnh.
  assert (Hbuilt : stable (F_rrep (rrep_build_destination hmac st rreq dest)) =
    S_rrep (rreq_query_id rreq) dest (hop_inc_sat (rreq_hop_count rreq)) (rreq_metric rreq) (replicate 6 0) ∧
    rrep_next_hop (rrep_build_destination hmac st rreq dest) = dest).
  { unfold rrep_build_destination, rrep_sign. by destruct (network_key_mac _ _ _ _). }
  destruct Hbuilt as [Hb Hn]. rewrite Hb in Hst. injection Hst as H1 H2 H3 H4 _. rewrite Hn in Hnh.
  rewrite Hh in H3. destruct (hop_inc_sat_spec (Z.of_nat (length path))) as [_ Hinc]; [cint_unfold; lia|].
  split; [done|]. split; [done|]. split; [congruence|]. split; [done|]. split; [lia|].
  split; [congruence|]. split; [done|]. intros better Hbetter.
  pose proof (Forall2_length _ _ _ Hbetter) as Hlb.
  destruct (flood_fields src dest query pseudonym limit better) as (_ & _ & Hmb & _); [lia|done|].
  rewrite Hmb, H4, Hm.
  assert (path_penalty better ≤ path_penalty path); [|lia].
  clear -Hbetter. induction Hbetter as [|h b path better [Hr Hs] _ IH]; [done|].
  rewrite !path_penalty_cons. pose proof (link_penalty_antitone _ _ _ _ Hr Hs). lia.
Qed.

Lemma discovery_path_accounting_witness :
  let path := [mk_hop 2 (-90) 3; mk_hop 3 (-70) 9] in
  rrep_hop_count (return_path (rrep_build_destination toy_hmac toy_key
    (flood (rreq_build_originator 1 4 77 5 4) path) 4) [(2, 3); (1, 2)]) = 3.
Proof.
  exact (proj1 (proj2 (proj2 (proj2 (proj2 (discovery_path_accounting toy_hmac toy_key 1 4 77 5 4
    [mk_hop 2 (-90) 3; mk_hop 3 (-70) 9] [(2, 3); (1, 2)] eq_refl ltac:(lia))))))).
Defined.
