(* ===== verification/ChannelFlood.v ===== *)
(** * Flood relaying ([components/routing/channel_flood.c] and the relay queue of
    [main/mesh_routing.c])

    The relay decision, the origination budget, the jittered relay queue with its
    overheard-copy suppression, and the queue as a bounded bag of pending
    relays. *)

From stdpp Require Import base strings numbers sets option decidable list.
From S2P Require Import Prelude Tables Packet PacketSpec NetworkKey RoutingAuth Routing Discovery.

Definition FLOOD_HOP_LIMIT_DEFAULT : Z := 8.
Definition FLOOD_HOP_LIMIT_MIN : Z := 1.
Definition FLOOD_HOP_LIMIT_CEIL : Z := 32.
Definition FLOOD_SUPPRESS_AFTER : Z := 2.
Definition FLOOD_RELAY_QUEUE_CAPACITY : nat := 8.
Definition BRAMBLE_MAX_PACKET_SIZE : nat := 256.

Record channel_flood_decision_t := mk_flood_decision {
  cf_should_relay : bool; cf_new_hop_limit : Z; cf_jitter_ms : Z }.

Definition channel_flood_decide (hop_limit : Z) (is_duplicate budget_permits : bool)
    (random_value : Z) : channel_flood_decision_t :=
  if (hop_limit <=? 1) || is_duplicate || negb budget_permits
  then mk_flood_decision false 0 0
  else mk_flood_decision true (u8 (hop_limit - 1)) (discovery_forward_jitter_ms random_value).

Definition flood_hop_limit_clamp (hops : Z) : Z :=
  if hops <? FLOOD_HOP_LIMIT_MIN then FLOOD_HOP_LIMIT_MIN
  else if hops >? FLOOD_HOP_LIMIT_CEIL then FLOOD_HOP_LIMIT_CEIL
  else u8 hops.
Definition flood_origination_hop_limit (flood_transport : bool) (flood_hop_limit : Z) : Z :=
  if flood_transport then flood_hop_limit_clamp flood_hop_limit else ROUTE_HOP_LIMIT_MAX.

(** ** The relay queue *)

Record pending_flood_relay_t := mk_relay {
  fq_used : bool; fq_due_at_ms : Z; fq_buf : list Z; fq_len : nat; fq_flood_key : Z;
  fq_heard : Z; fq_tx_kind : Z }.
Definition relay_zero : pending_flood_relay_t :=
  mk_relay false 0 (replicate BRAMBLE_MAX_PACKET_SIZE 0) 0 0 0 0.
#[global] Instance relay_inhabited : Inhabited pending_flood_relay_t := populate relay_zero.

Definition relay_heard (e : pending_flood_relay_t) (used : bool) : pending_flood_relay_t :=
  mk_relay used (fq_due_at_ms e) (fq_buf e) (fq_len e) (fq_flood_key e) (u8 (fq_heard e + 1))
    (fq_tx_kind e).
Definition channel_flood_note_overheard (queue : list pending_flood_relay_t) (flood_key : Z)
    : bool * list pending_flood_relay_t :=
  match find_index (λ e, fq_used e && (fq_flood_key e =? flood_key)) queue with
  | None => (false, queue)
  | Some i =>
      let e := queue !!! i in
      if u8 (fq_heard e + 1) >=? FLOOD_SUPPRESS_AFTER
      then (true, <[i := relay_heard e false]> queue)
      else (false, <[i := relay_heard e true]> queue)
  end.

(** The slot written by an admission, over its old buffer contents. *)
Definition relay_filled (old : pending_flood_relay_t) (buf : list Z) (len : nat)
    (due_at_ms flood_key tx_kind : Z) : pending_flood_relay_t :=
  mk_relay true due_at_ms (filled (take len buf) (fq_buf old)) len flood_key 0 tx_kind.
Definition channel_flood_relay_admit (queue : list pending_flood_relay_t) (buf : list Z) (len : nat)
    (due_at_ms flood_key tx_kind drop_counter : Z) : bool * list pending_flood_relay_t * Z :=
  match find_index (λ e, negb (fq_used e)) queue with
  | Some i => (true, <[i := relay_filled (queue !!! i) buf len due_at_ms flood_key tx_kind]> queue,
               drop_counter)
  | None => (false, queue, u32 (drop_counter + 1))
  end.

(** [(int32_t)(t - due_at_ms) >= 0] *)
Definition due (t due_at_ms : Z) : bool := (t ⊖ due_at_ms) <? 2147483648.

Definition relay_fired (e : pending_flood_relay_t) : pending_flood_relay_t :=
  mk_relay false (fq_due_at_ms e) (fq_buf e) (fq_len e) (fq_flood_key e) (fq_heard e) (fq_tx_kind e).
(** The frames handed to [mesh_tx], with their kind, and the queue. *)
Fixpoint process_flood_relay_queue (queue : list pending_flood_relay_t) (t : Z)
    : list (list Z * Z) * list pending_flood_relay_t :=
  match queue with
  | [] => ([], [])
  | e :: queue =>
      let '(out, queue') := process_flood_relay_queue queue t in
      if fq_used e && due t (fq_due_at_ms e)
      then ((take (fq_len e) (fq_buf e), fq_tx_kind e) :: out, relay_fired e :: queue')
      else (out, e :: queue')
  end.
Definition schedule_flood_relay (queue : list pending_flood_relay_t) (buf : list Z) (len : nat)
    (now_ms jitter_ms flood_key tx_kind drops : Z) : bool * list pending_flood_relay_t * Z :=
  channel_flood_relay_admit queue buf len (now_ms ⊕ jitter_ms) flood_key tx_kind drops.

(** ** The queue as a bag of pending relays *)

(** A pending relay: what it will send, when, and the copies overheard. *)
Record relay := mk_pending_relay {
  r_frame : list Z; r_kind : Z; r_due : Z; r_key : Z; r_heard : Z }.
#[global] Instance relay_eq_dec : EqDecision relay.
Proof. solve_decision. Defined.
Definition relay_of (e : pending_flood_relay_t) : relay :=
  mk_pending_relay (take (fq_len e) (fq_buf e)) (fq_tx_kind e) (fq_due_at_ms e) (fq_flood_key e)
    (fq_heard e).
Definition pending (queue : list pending_flood_relay_t) : list relay :=
  relay_of <$> filter (λ e, fq_used e = true) queue.

Definition queue_ok (queue : list pending_flood_relay_t) : Prop :=
  length queue = FLOOD_RELAY_QUEUE_CAPACITY ∧
  Forall (λ e, length (fq_buf e) = BRAMBLE_MAX_PACKET_SIZE ∧
               (fq_used e = true → 0 ≤ fq_heard e < FLOOD_SUPPRESS_AFTER)) queue.

Lemma pending_insert queue i e e' :
  queue !! i = Some e →
  (if fq_used e then [relay_of e] else []) ++ pending (<[i := e']> queue) ≡ₚ
  (if fq_used e' then [relay_of e'] else []) ++ pending queue.
Proof.
  intros Hi. unfold pending.
  pose proof (filter_insert_perm (λ e, fq_used e = true) queue i e e' Hi) as Hp.
  apply (fmap_Permutation relay_of) in Hp. rewrite !fmap_app, !list.filter_cons, !filter_nil in Hp.
  by destruct (fq_used e), (fq_used e').
Qed.

Lemma pending_full queue :
  Forall (λ e, negb (fq_used e) = false) queue → length (pending queue) = length queue.
Proof.
  intros Hall. unfold pending. rewrite length_fmap, filter_Forall_id; [done|].
  eapply Forall_impl; [exact Hall|]. intros e ?%negb_false_iff. done.
Qed.

Lemma pending_room queue i e :
  queue !! i = Some e → fq_used e = false → (length (pending queue) < length queue)%nat.
Proof.
  intros Hi He. pose proof (pending_insert queue i e
    (mk_relay true 0 (fq_buf e) 0 0 0 0) Hi) as Hp. rewrite He in Hp. simpl in Hp.
  apply Permutation_length in Hp. unfold pending in Hp at 1. rewrite length_fmap in Hp.
  pose proof (length_filter (λ e, fq_used e = true) (<[i := mk_relay true 0 (fq_buf e) 0 0 0 0]> queue)) as Hle.
  rewrite length_insert in Hle. simpl in Hp. lia.
Qed.

Lemma queue_init_ok : queue_ok (replicate FLOOD_RELAY_QUEUE_CAPACITY relay_zero).
Proof. split; [done|]. by apply Forall_replicate. Qed.

Lemma admit_spec queue buf len due_at key kind drops :
  queue_ok queue → (len ≤ 255)%nat → (len ≤ length buf)%nat →
  let r := channel_flood_relay_admit queue buf len due_at key kind drops in
  queue_ok r.1.2 ∧
  if bool_decide (length (pending queue) < FLOOD_RELAY_QUEUE_CAPACITY)%nat
  then r.1.1 = true ∧ r.2 = drops ∧
       pending r.1.2 ≡ₚ mk_pending_relay (take len buf) kind due_at key 0 :: pending queue
  else r = (false, queue, u32 (drops + 1)).
Proof.
  intros [Hlen Hall] Hl Hbuf r. subst r. unfold channel_flood_relay_admit.
  destruct (find_index _ queue) as [i|] eqn:Hi.
  - apply find_index_Some in Hi as (e & He & Hu%negb_true_iff & _).
    rewrite (list_lookup_total_correct _ _ _ He).
    rewrite bool_decide_true by (rewrite <- Hlen; by eapply pending_room).
    pose proof (Forall_lookup_1 _ _ _ _ Hall He) as [Hb _].
    assert (Hfr : take len (filled (take len buf) (fq_buf e)) = take len buf).
    { unfold filled. apply take_app_length'. rewrite length_take. lia. }
    cbn [fst snd]. split; [split|].
    + by rewrite length_insert.
    + apply Forall_insert_slot; [done|]. simpl. split; [|done].
      rewrite length_filled; [done|]. rewrite length_take. unfold BRAMBLE_MAX_PACKET_SIZE in *. lia.
    + split; [done|]. split; [done|].
      pose proof (pending_insert queue i e (relay_filled e buf len due_at key kind) He) as Hp.
      rewrite Hu in Hp. cbn [fq_used relay_filled app] in Hp. rewrite Hp.
      unfold relay_of. cbn [relay_filled fq_len fq_buf fq_tx_kind fq_due_at_ms fq_flood_key fq_heard].
      by rewrite Hfr.
  - apply find_index_None in Hi. rewrite bool_decide_false; [done|].
    rewrite pending_full by done. lia.
Qed.

Lemma overheard_spec queue key :
  queue_ok queue →
  let r := channel_flood_note_overheard queue key in
  queue_ok r.2 ∧
  ((r = (false, queue) ∧ Forall (λ p, r_key p ≠ key) (pending queue)) ∨
   ∃ p rest, pending queue ≡ₚ p :: rest ∧ r_key p = key ∧
     ((r_heard p = 0 ∧ r.1 = false ∧
       pending r.2 ≡ₚ mk_pending_relay (r_frame p) (r_kind p) (r_due p) key 1 :: rest) ∨
      (r_heard p = 1 ∧ r.1 = true ∧ pending r.2 ≡ₚ rest))).
Proof.
  intros [Hlen Hall] r. subst r. unfold channel_flood_note_overheard.
  destruct (find_index _ queue) as [i|] eqn:Hi.
  - apply find_index_Some in Hi as (e & He & [Hu Hk%Z.eqb_eq]%andb_true_iff & _).
    rewrite (list_lookup_total_correct _ _ _ He).
    pose proof (Forall_lookup_1 _ _ _ _ Hall He) as [Hb Hh]. specialize (Hh Hu).
    unfold FLOOD_SUPPRESS_AFTER in *.
    assert (Hcase : fq_heard e = 0 ∨ fq_heard e = 1) by lia.
    assert (Hin : ∃ rest, pending queue ≡ₚ relay_of e :: rest).
    { pose proof (pending_insert queue i e (relay_heard e false) He) as Hp.
      rewrite Hu in Hp. cbn [relay_heard fq_used app] in Hp. eexists. symmetry. exact Hp. }
    destruct Hin as [rest Hrest].
    assert (Hq : ∀ u, queue_ok (<[i := relay_heard e u]> queue) ∨ u = true).
    { intros []; [by right|left]. split; [by rewrite length_insert|].
      apply Forall_insert_slot; [done|]. simpl. done. }
    pose proof (λ e', pending_insert queue i e e' He) as Hp. rewrite Hu in Hp.
    destruct Hcase as [Hz|Hz]; rewrite Hz; cbn [u8 Z.add Z.modulo Z.geb Z.compare]; vm_compute (_ >=? _).
    + cbn [fst snd]. split.
      { split; [by rewrite length_insert|]. apply Forall_insert_slot; [done|]. simpl.
        split; [done|]. intros _. rewrite Hz. vm_compute. done. }
      right. exists (relay_of e), rest. split; [done|]. split; [done|]. left.
      split; [done|]. split; [done|]. specialize (Hp (relay_heard e true)). simpl in Hp.
      rewrite Hrest in Hp. apply (Permutation_cons_inv (a := relay_of e)).
      rewrite Hp. unfold relay_of at 1. simpl. rewrite Hz, Hk. apply Permutation_swap.
    + cbn [fst snd]. split; [by destruct (Hq false)|].
      right. exists (relay_of e), rest. split; [done|]. split; [done|]. right.
      split; [done|]. split; [done|]. specialize (Hp (relay_heard e false)). simpl in Hp.
      rewrite Hrest in Hp. by apply Permutation_cons_inv in Hp.
  - split; [done|]. left. split; [done|]. apply find_index_None in Hi. unfold pending.
    apply Forall_fmap, Forall_forall. intros e [Hu He]%list_elem_of_filter.
    rewrite Forall_forall in Hi. specialize (Hi _ He). simpl in *. rewrite Hu in Hi. simpl in Hi. lia.
Qed.

Lemma process_spec queue t :
  queue_ok queue →
  let r := process_flood_relay_queue queue t in
  queue_ok r.2 ∧
  r.1 = (λ p, (r_frame p, r_kind p)) <$> filter (λ p, due t (r_due p) = true) (pending queue) ∧
  pending r.2 = filter (λ p, due t (r_due p) = false) (pending queue).
Proof.
  intros [Hlen Hall]. unfold queue_ok. rewrite <- Hlen. clear Hlen.
  induction Hall as [|e queue He Hall IH]; [done|].
  cbn [process_flood_relay_queue]. destruct (process_flood_relay_queue queue t) as [out queue'].
  cbn [fst snd] in IH. destruct IH as ([Hl Hf] & Ho & Hp). unfold pending in *.
  rewrite !list.filter_cons. destruct (fq_used e) eqn:Hu; cbn [andb].
  - destruct (decide (true = true)) as [_|]; [|done]. rewrite !fmap_cons, !list.filter_cons.
    destruct (due t (fq_due_at_ms e)) eqn:Hd; cbn [fst snd].
    + rewrite (decide_True (P := due t (r_due (relay_of e)) = true)) by done.
      rewrite (decide_False (P := due t (r_due (relay_of e)) = false)) by (simpl; congruence).
      rewrite list.filter_cons, decide_False by done.
      split; [split; [simpl; lia|constructor; [split; [apply He|done]|done]]|].
      split; [|done]. rewrite fmap_cons. by f_equal.
    + rewrite (decide_False (P := due t (r_due (relay_of e)) = true)) by (simpl; congruence).
      rewrite (decide_True (P := due t (r_due (relay_of e)) = false)) by done.
      rewrite list.filter_cons, decide_True by done. rewrite fmap_cons.
      split; [split; [simpl; lia|constructor; [by rewrite Hu|done]]|]. split; [done|]. by rewrite Hp.
  - rewrite decide_False by done. cbn [fst snd]. rewrite list.filter_cons, decide_False by congruence.
    split; [split; [simpl; lia|constructor; [by rewrite Hu|done]]|]. done.
Qed.

(** The flood relay queue is a bag of at most eight pending relays: scheduling
    adds exactly the frame given with its due time, or drops and counts it when the
    bag is full; an overheard copy touches only a pending relay with the same key,
    counting once and cancelling it at the second copy; and processing transmits
    exactly the due relays, byte for byte and once each, across clock wrap. *)
Theorem flood_relay_queue_correct (queue : list pending_flood_relay_t) (Hq : queue_ok queue) :
  (∀ buf len now jitter key kind drops, (len ≤ 255)%nat → (len ≤ length buf)%nat →
     let r := schedule_flood_relay queue buf len now jitter key kind drops in
     queue_ok r.1.2 ∧
     if bool_decide (length (pending queue) < FLOOD_RELAY_QUEUE_CAPACITY)%nat
     then r.1.1 = true ∧ r.2 = drops ∧
          pending r.1.2 ≡ₚ mk_pending_relay (take len buf) kind (now ⊕ jitter) key 0 :: pending queue
     else r = (false, queue, u32 (drops + 1))) ∧
  (∀ key,
     let r := channel_flood_note_overheard queue key in
     queue_ok r.2 ∧
     ((r = (false, queue) ∧ Forall (λ p, r_key p ≠ key) (pending queue)) ∨
      ∃ p rest, pending queue ≡ₚ p :: rest ∧ r_key p = key ∧
        ((r_heard p = 0 ∧ r.1 = false ∧
          pending r.2 ≡ₚ mk_pending_relay (r_frame p) (r_kind p) (r_due p) key 1 :: rest) ∨
         (r_heard p = 1 ∧ r.1 = true ∧ pending r.2 ≡ₚ rest)))) ∧
  (∀ t,
     let r := process_flood_relay_queue queue t in
     queue_ok r.2 ∧
     r.1 = (λ p, (r_frame p, r_kind p)) <$> filter (λ p, due t (r_due p) = true) (pending queue) ∧
     pending r.2 = filter (λ p, due t (r_due p) = false) (pending queue)).
Proof.
  split; [|split].
  - intros. by apply admit_spec.
  - intros. by apply overheard_spec.
  - intros. by apply process_spec.
Qed.

Lemma flood_relay_queue_correct_witness :
  let q := replicate FLOOD_RELAY_QUEUE_CAPACITY relay_zero in
  let q1 := (schedule_flood_relay q [1; 2; 3] 3 4294967200 150 77 0 0).1.2 in
  (process_flood_relay_queue q1 60).1 = [([1; 2; 3], 0)] ∧
  (process_flood_relay_queue q1 4294967295).1 = [].
Proof.
  intros q q1.
  destruct (flood_relay_queue_correct q queue_init_ok) as [Hadm _].
  destruct (Hadm [1; 2; 3] 3%nat 4294967200 150 77 0 0 ltac:(lia) ltac:(simpl; lia)) as [Hq1 _].
  destruct (flood_relay_queue_correct q1 Hq1) as (_ & _ & Hproc).
  split; [destruct (Hproc 60) as (_ & -> & _)|destruct (Hproc 4294967295) as (_ & -> & _)];
    vm_compute; reflexivity.
Defined.
