(* ===== verification/Security.v ===== *)
(** * Ingress rate limits ([components/security/security.c])

    The per-pair route-request limiter, the forwarded-request and probe token
    buckets and the RSSI cluster test; and the bound each bucket puts on what
    passes it over any stretch of time, across wraps of the 32-bit clock. *)

From stdpp Require Import base numbers sets option decidable list.
From S2P Require Import Prelude Tables.

Definition RREQ_RATE_LIMIT_MS : Z := 30000.
Definition RREQ_RATE_ENTRIES : nat := 64.
Definition SYBIL_RSSI_CLUSTER_THRESHOLD : Z := 3.
Definition SYBIL_MIN_SUSPECTS : Z := 3.
Definition RREQ_FWD_BURST : Z := 16.
Definition RREQ_FWD_REFILL_MS : Z := 2000.
Definition PROBE_REPLY_BURST : Z := 8.
Definition PROBE_REPLY_REFILL_MS : Z := 5000.
Definition PROBE_FWD_BURST : Z := 4.
Definition PROBE_FWD_REFILL_MS : Z := 10000.

(** ** Per-pair limiter *)

Record rreq_rate_entry_t := mk_rate {
  rate_neighbor_addr : Z; rate_dest_addr : Z; rate_last_rreq_ms : Z }.
#[global] Instance rate_inhabited : Inhabited rreq_rate_entry_t := populate (mk_rate 0 0 0).
Abbreviation rreq_rate_limiter_t := (ctable rreq_rate_entry_t).

Definition rreq_rate_init : rreq_rate_limiter_t := table_init RREQ_RATE_ENTRIES (mk_rate 0 0 0).

(** The loop returns at the pair's entry, so the stale slot it remembers only
    matters when there is none. *)
Definition rreq_rate_allow (rl : rreq_rate_limiter_t) (neighbor dest now_ms : Z)
    : bool * rreq_rate_limiter_t :=
  match find_index (λ e, (rate_neighbor_addr e =? neighbor) && (rate_dest_addr e =? dest)) (live rl)
  with
  | Some i =>
      let e := entries rl !!! i in
      let elapsed := now_ms ⊖ rate_last_rreq_ms e in
      if elapsed <? RREQ_RATE_LIMIT_MS then (false, rl)
      else (true, tset rl i (mk_rate (rate_neighbor_addr e) (rate_dest_addr e) now_ms))
  | None =>
      let e := mk_rate neighbor dest now_ms in
      if decide (count rl < RREQ_RATE_ENTRIES)%nat then (true, tpush rl e)
      else
        match find_index (λ e, (now_ms ⊖ rate_last_rreq_ms e) >=? RREQ_RATE_LIMIT_MS) (live rl) with
        | Some slot => (true, tset rl slot e)
        | None => (true, rl)
        end
  end.

(** ** Token buckets *)

Record probe_bucket_t := mk_bucket { bk_tokens : Z; bk_last_refill_ms : Z }.
(** The same two fields. *)
Abbreviation rreq_fwd_limiter_t := probe_bucket_t.

Definition rreq_fwd_init (now_ms : Z) : rreq_fwd_limiter_t := mk_bucket RREQ_FWD_BURST now_ms.

Definition rreq_fwd_allow (rl : rreq_fwd_limiter_t) (now_ms : Z) : bool * rreq_fwd_limiter_t :=
  let elapsed := now_ms ⊖ bk_last_refill_ms rl in
  let whole_windows := elapsed / RREQ_FWD_REFILL_MS in
  let rl :=
    if whole_windows >? 0
    then let tokens := bk_tokens rl ⊕ whole_windows in
         mk_bucket (if tokens >? RREQ_FWD_BURST then RREQ_FWD_BURST else tokens)
           (bk_last_refill_ms rl ⊕ u32 (whole_windows * RREQ_FWD_REFILL_MS))
    else rl in
  if bk_tokens rl >=? 1 then (true, mk_bucket (u32 (bk_tokens rl - 1)) (bk_last_refill_ms rl))
  else (false, rl).

Definition probe_bucket_take (b : probe_bucket_t) (burst refill_ms now_ms : Z)
    : bool * probe_bucket_t :=
  let elapsed := now_ms ⊖ bk_last_refill_ms b in
  let whole_windows := elapsed / refill_ms in
  let b :=
    if whole_windows >? 0
    then let tokens := bk_tokens b ⊕ whole_windows in
         mk_bucket (if tokens >? burst then burst else tokens)
           (bk_last_refill_ms b ⊕ u32 (whole_windows * refill_ms))
    else b in
  if bk_tokens b >=? 1 then (true, mk_bucket (u32 (bk_tokens b - 1)) (bk_last_refill_ms b))
  else (false, b).

Record probe_ingress_limiter_t := mk_ingress {
  pi_reply : probe_bucket_t; pi_forward : probe_bucket_t; pi_accepted : Z;
  pi_dropped_reply : Z; pi_dropped_forward : Z }.
Record probe_ingress_decision_t := mk_ingress_decision { pid_reply : bool; pid_forward : bool }.

Definition probe_ingress_init (now_ms : Z) : probe_ingress_limiter_t :=
  mk_ingress (mk_bucket PROBE_REPLY_BURST now_ms) (mk_bucket PROBE_FWD_BURST now_ms) 0 0 0.

Definition probe_ingress_allow (rl : probe_ingress_limiter_t) (forward_eligible : bool) (now_ms : Z)
    : probe_ingress_decision_t * probe_ingress_limiter_t :=
  let '(ok, reply) := probe_bucket_take (pi_reply rl) PROBE_REPLY_BURST PROBE_REPLY_REFILL_MS now_ms in
  if negb ok
  then (mk_ingress_decision false false,
        mk_ingress reply (pi_forward rl) (pi_accepted rl) (u32 (pi_dropped_reply rl + 1))
          (pi_dropped_forward rl))
  else if negb forward_eligible
  then (mk_ingress_decision true false,
        mk_ingress reply (pi_forward rl) (u32 (pi_accepted rl + 1)) (pi_dropped_reply rl)
          (pi_dropped_forward rl))
  else
    let '(fok, fwd) := probe_bucket_take (pi_forward rl) PROBE_FWD_BURST PROBE_FWD_REFILL_MS now_ms in
    (mk_ingress_decision true fok,
     mk_ingress reply fwd (u32 (pi_accepted rl + 1)) (pi_dropped_reply rl)
       (if fok then pi_dropped_forward rl else u32 (pi_dropped_forward rl + 1))).

(** ** RSSI clusters *)

Definition sybil_check_rssi_cluster (rssi_values : list Z) : bool :=
  if Z.of_nat (length rssi_values) <? SYBIL_MIN_SUSPECTS then false
  else
    existsb (λ x,
      let cluster := foldl (λ cluster y,
        let diff := x - y in
        let diff := if diff <? 0 then - diff else diff in
        if diff <=? SYBIL_RSSI_CLUSTER_THRESHOLD then cluster + 1 else cluster) 0 rssi_values in
      cluster >=? SYBIL_MIN_SUSPECTS) rssi_values.

(** ** What passes a bucket

    Calls at real times [ts], non-decreasing; the code sees them modulo 2^32. *)

Fixpoint bucket_run (burst refill : Z) (b : probe_bucket_t) (ts : list Z) : list bool * probe_bucket_t :=
  match ts with
  | [] => ([], b)
  | t :: ts =>
      let '(ok, b) := probe_bucket_take b burst refill (u32 t) in
      let '(oks, b) := bucket_run burst refill b ts in (ok :: oks, b)
  end.
Definition passed (oks : list bool) : Z := Z.of_nat (length (filter (λ b, b = true) oks)).

Lemma passed_cons b l : passed (b :: l) = (if b then 1 else 0) + passed l.
Proof. unfold passed. rewrite list.filter_cons. destruct b; simpl; lia. Qed.

Lemma rreq_fwd_is_bucket rl now :
  rreq_fwd_allow rl now = probe_bucket_take rl RREQ_FWD_BURST RREQ_FWD_REFILL_MS now.
Proof. done. Qed.

(** Non-decreasing times from [t0] on. *)
Fixpoint monotone (t0 : Z) (ts : list Z) : Prop :=
  match ts with [] => True | t :: ts => t0 ≤ t ∧ monotone t ts end.

(** The bucket refilled last at real time [L]. *)
Definition bucket_at (burst refill : Z) (b : probe_bucket_t) (L now : Z) : Prop :=
  0 ≤ bk_tokens b ≤ burst ∧ bk_last_refill_ms b = u32 L ∧ L ≤ now ∧
  (now - L < refill).

(** The refill: as many whole windows as have elapsed, no fraction lost. *)
Lemma bucket_windows burst refill b L t :
  1 < refill < 2 ^ 31 → 0 < burst < 2 ^ 31 →
  0 ≤ bk_tokens b ≤ burst → bk_last_refill_ms b = u32 L → 0 ≤ t - L < 2 ^ 32 →
  let k := (t - L) / refill in
  let b' := if k >? 0
            then mk_bucket (Z.min burst (bk_tokens b + k)) (u32 (L + k * refill))
            else b in
  0 ≤ k ∧ bk_tokens b' = Z.min burst (bk_tokens b + k) ∧ bk_last_refill_ms b' = u32 (L + k * refill) ∧
  L + k * refill ≤ t < L + k * refill + refill ∧
  probe_bucket_take b burst refill (u32 t) =
    if bk_tokens b' >=? 1 then (true, mk_bucket (bk_tokens b' - 1) (bk_last_refill_ms b'))
    else (false, b').
Proof.
  intros Hr Hb Htok Hlast Ht k b'.
  assert (Hel : u32 t ⊖ bk_last_refill_ms b = t - L).
  { rewrite Hlast. unfold u32. rewrite <- Zminus_mod. apply Z.mod_small. lia. }
  pose proof (Z.div_mod (t - L) refill ltac:(lia)) as Hdm.
  pose proof (Z.mod_pos_bound (t - L) refill ltac:(lia)) as Hmod.
  assert (Hk0 : 0 ≤ k) by (apply Z.div_pos; lia).
  assert (Hkle : k < 2 ^ 31) by (apply Z.div_lt_upper_bound; nia).
  fold k in Hdm. assert (Hkr : k * refill ≤ t - L) by nia.
  assert (Htk : bk_tokens b' = Z.min burst (bk_tokens b + k)).
  { unfold b'. destruct (k >? 0) eqn:E; conds; simpl; lia. }
  assert (Hlr : bk_last_refill_ms b' = u32 (L + k * refill)).
  { unfold b'. destruct (k >? 0) eqn:E; conds; simpl; [done|].
    assert (k = 0) as -> by lia. by rewrite Hlast, Z.mul_0_l, Z.add_0_r. }
  split; [done|]. split; [done|]. split; [done|]. split; [nia|].
  unfold probe_bucket_take. rewrite Hel. fold k.
  assert ((if k >? 0 then
             mk_bucket (if bk_tokens b ⊕ k >? burst then burst else bk_tokens b ⊕ k)
               (bk_last_refill_ms b ⊕ u32 (k * refill)) else b) = b') as ->.
  { unfold b'. destruct (k >? 0) eqn:E; [|done]. f_equal.
    - rewrite u32_id by (cint_unfold; lia). split_if; conds; lia.
    - rewrite Hlast. unfold u32. by rewrite <- Zplus_mod. }
  split_if; conds; [|done]. rewrite u32_id; [done|cint_unfold; lia].
Qed.

(** One call at real time [t]: tokens come only from windows that have elapsed
    since the last refill, whatever the number of clock wraps in between. *)
Lemma take_step burst refill b L t0 t :
  1 < refill < 2 ^ 31 → 0 < burst < 2 ^ 31 →
  bucket_at burst refill b L t0 → t0 ≤ t →
  let r := probe_bucket_take b burst refill (u32 t) in
  ∃ L' k, bucket_at burst refill r.2 L' t ∧ 0 ≤ k ∧ k * refill ≤ L' - L ∧
    bk_tokens r.2 = Z.min burst (bk_tokens b + k) - (if r.1 then 1 else 0) ∧
    (r.1 = true ↔ 1 ≤ bk_tokens b + k) ∧ (t < t0 + 2 ^ 31 → k = (t - L) / refill).
Proof.
  intros Hr Hb (Htok & Hlast & HLt & Hd) Ht r. subst r.
  set (m := (t - L) / 2 ^ 32). set (L0 := L + m * 2 ^ 32).
  assert (Hm : 0 ≤ m) by (apply Z.div_pos; lia).
  assert (HL0 : 0 ≤ t - L0 < 2 ^ 32).
  { pose proof (Z.div_mod (t - L) (2 ^ 32) ltac:(lia)). pose proof (Z.mod_pos_bound (t - L) (2 ^ 32)).
    unfold L0, m. lia. }
  assert (Hlast0 : bk_last_refill_ms b = u32 L0).
  { rewrite Hlast. unfold L0, u32. symmetry. apply Z.mod_add. lia. }
  destruct (bucket_windows burst refill b L0 t Hr Hb Htok Hlast0 HL0) as (Hk & Htk & Hlr & Hb2 & ->).
  set (k := (t - L0) / refill) in *. set (b' := if k >? 0 then _ else b) in *.
  exists (L0 + k * refill), k.
  assert (Hsmall : t < t0 + 2 ^ 31 → k = (t - L) / refill).
  { intros Hlt. unfold k, L0, m. rewrite (Z.div_small (t - L) (2 ^ 32)) by lia. do 2 f_equal. lia. }
  unfold bucket_at.
  destruct (bk_tokens b' >=? 1) eqn:E; conds; cbn [fst snd bk_tokens bk_last_refill_ms].
  - split; [split; [lia|]; split; [done|]; lia|]. split; [done|]. split; [lia|]. split; [lia|].
    split; [lia|done].
  - split; [split; [lia|]; split; [done|]; lia|]. split; [done|]. split; [lia|]. split; [lia|].
    split; [split; [done|intros; exfalso; lia]|done].
Qed.

Lemma last_after (t0 t : Z) ts : default t (last ts) = default t0 (last (t :: ts)).
Proof. rewrite last_cons. by destruct (last ts). Qed.

Lemma bucket_run_bound burst refill b L t0 ts :
  1 < refill < 2 ^ 31 → 0 < burst < 2 ^ 31 →
  bucket_at burst refill b L t0 → monotone t0 ts →
  let r := bucket_run burst refill b ts in
  passed r.1 * refill ≤ bk_tokens b * refill + (default t0 (last ts) - L) ∧
  ∃ L', bucket_at burst refill r.2 L' (default t0 (last ts)).
Proof.
  intros Hr Hb. revert b L t0; induction ts as [|t ts IH]; intros b L t0 Hat Hp.
  { simpl. split; [|eauto]. destruct Hat as (? & _ & ? & _). unfold passed. simpl. nia. }
  destruct Hp as [Ht Hp]. rewrite <- last_after.
  pose proof (take_step burst refill b L t0 t Hr Hb Hat Ht) as (L' & k & Hat' & Hk & HkL & Htok & _).
  cbn [bucket_run]. destruct (probe_bucket_take b burst refill (u32 t)) as [ok b1]. simpl in *.
  destruct (IH b1 _ t Hat' Hp) as [IH1 IH2].
  destruct (bucket_run burst refill b1 ts) as [oks b2]. simpl in *. split; [|done].
  rewrite passed_cons. destruct ok; nia.
Qed.

(** A stretch of calls passes at most the burst and its share of the time from
    the first call to the last, whatever came before. *)
Lemma bucket_window burst refill b L t0 t1 ts :
  1 < refill < 2 ^ 31 → 0 < burst < 2 ^ 31 →
  bucket_at burst refill b L t0 → monotone t0 (t1 :: ts) →
  passed (bucket_run burst refill b (t1 :: ts)).1 * refill <
    (burst + 1) * refill + (default t1 (last ts) - t1).
Proof.
  intros Hr Hb Hat [Ht Hp]. cbn [bucket_run].
  pose proof (take_step burst refill b L t0 t1 Hr Hb Hat Ht) as (L' & k & Hat' & Hk & _ & Htok & _).
  destruct (probe_bucket_take b burst refill (u32 t1)) as [ok b1]. simpl in *.
  destruct (bucket_run_bound burst refill b1 L' t1 ts Hr Hb Hat' Hp) as [H _].
  destruct (bucket_run burst refill b1 ts) as [oks b2]. simpl in *.
  destruct Hat' as (? & _ & ? & ?). rewrite passed_cons. destruct ok; nia.
Qed.

(** *** The limiters over a history of calls *)

Fixpoint rreq_fwd_run (rl : rreq_fwd_limiter_t) (ts : list Z) : list bool * rreq_fwd_limiter_t :=
  match ts with
  | [] => ([], rl)
  | t :: ts =>
      let '(ok, rl) := rreq_fwd_allow rl (u32 t) in
      let '(oks, rl) := rreq_fwd_run rl ts in (ok :: oks, rl)
  end.
Fixpoint probe_run (rl : probe_ingress_limiter_t) (calls : list (bool * Z))
    : list probe_ingress_decision_t * probe_ingress_limiter_t :=
  match calls with
  | [] => ([], rl)
  | (eligible, t) :: calls =>
      let '(d, rl) := probe_ingress_allow rl eligible (u32 t) in
      let '(ds, rl) := probe_run rl calls in (d :: ds, rl)
  end.

Lemma rreq_fwd_run_bucket rl ts :
  rreq_fwd_run rl ts = bucket_run RREQ_FWD_BURST RREQ_FWD_REFILL_MS rl ts.
Proof.
  revert rl; induction ts as [|t ts IH]; intros rl; simpl; [done|].
  rewrite rreq_fwd_is_bucket. destruct (probe_bucket_take _ _ _ _) as [ok rl']. by rewrite IH.
Qed.

(** The forward bucket is drawn on by a subsequence of the calls. *)
Lemma probe_run_buckets rl calls :
  let r := probe_run rl calls in
  ∃ fts, fts `sublist_of` calls.*2 ∧
  (pid_reply <$> r.1, pi_reply r.2) =
    bucket_run PROBE_REPLY_BURST PROBE_REPLY_REFILL_MS (pi_reply rl) calls.*2 ∧
  passed (pid_forward <$> r.1) =
    passed (bucket_run PROBE_FWD_BURST PROBE_FWD_REFILL_MS (pi_forward rl) fts).1 ∧
  pi_forward r.2 = (bucket_run PROBE_FWD_BURST PROBE_FWD_REFILL_MS (pi_forward rl) fts).2 ∧
  Forall (λ d, pid_forward d = true → pid_reply d = true) r.1.
Proof.
  revert rl; induction calls as [|[eligible t] calls IH]; intros rl.
  { exists []. done. }
  rewrite fmap_cons. cbn [snd probe_run bucket_run]. cbv zeta. unfold probe_ingress_allow.
  destruct (probe_bucket_take (pi_reply rl) _ _ _) as [ok reply] eqn:Er. cbn [negb].
  destruct ok; cbn [negb]; [destruct eligible; cbn [negb]|].
  - destruct (probe_bucket_take (pi_forward rl) _ _ _) as [fok fwd] eqn:Ef.
    set (rl' := mk_ingress reply fwd _ _ _).
    destruct (IH rl') as (fts & Hsub & Hrep & Hfwd & Hst & Hall).
    destruct (probe_run rl' calls) as [ds rl2]. cbn [fst snd] in *. exists (t :: fts).
    split; [by constructor|]. cbn [pi_reply rl'] in Hrep. rewrite <- Hrep. split; [done|].
    cbn [bucket_run]. rewrite Ef. cbn [pi_forward rl'] in Hfwd, Hst.
    destruct (bucket_run _ _ fwd fts) as [foks fb]. cbn [fst snd] in *.
    split; [|split; [done|by constructor]].
    rewrite fmap_cons, !passed_cons, Hfwd. done.
  - set (rl' := mk_ingress reply _ _ _ _).
    destruct (IH rl') as (fts & Hsub & Hrep & Hfwd & Hst & Hall).
    destruct (probe_run rl' calls) as [ds rl2]. cbn [fst snd] in *. exists fts.
    split; [by constructor|]. cbn [pi_reply rl'] in Hrep. rewrite <- Hrep. split; [done|].
    split; [by rewrite fmap_cons, passed_cons, Hfwd|]. split; [done|by constructor].
  - set (rl' := mk_ingress reply _ _ _ _).
    destruct (IH rl') as (fts & Hsub & Hrep & Hfwd & Hst & Hall).
    destruct (probe_run rl' calls) as [ds rl2]. cbn [fst snd] in *. exists fts.
    split; [by constructor|]. cbn [pi_reply rl'] in Hrep. rewrite <- Hrep. split; [done|].
    split; [by rewrite fmap_cons, passed_cons, Hfwd|]. split; [done|by constructor].
Qed.

Lemma monotone_app t0 ts1 ts2 :
  monotone t0 (ts1 ++ ts2) ↔ monotone t0 ts1 ∧ monotone (default t0 (last ts1)) ts2.
Proof.
  revert t0; induction ts1 as [|t ts1 IH]; intros t0; [simpl; tauto|].
  rewrite <- last_after. simpl. rewrite IH. tauto.
Qed.
Lemma monotone_weaken t0 t0' ts : t0' ≤ t0 → monotone t0 ts → monotone t0' ts.
Proof. destruct ts; simpl; [done|]. intros ? [? ?]. split; [lia|done]. Qed.
Lemma monotone_sublist t0 ts ts' :
  ts' `sublist_of` ts → monotone t0 ts →
  monotone t0 ts' ∧ default t0 (last ts') ≤ default t0 (last ts).
Proof.
  intros Hsub. revert t0; induction Hsub as [|x ts' ts Hsub IH|x ts' ts Hsub IH]; intros t0 Hm.
  - done.
  - destruct Hm as [Hx Hm]. destruct (IH x Hm) as [H1 H2]. rewrite <- !last_after.
    split; [done|lia].
  - destruct Hm as [Hx Hm]. destruct (IH x Hm) as [H1 H2]. rewrite <- (last_after t0 x ts).
    split; [by eapply monotone_weaken|]. destruct ts'; simpl in *; [lia|].
    rewrite last_cons in *. destruct (last ts'); simpl in *; lia.
Qed.

Lemma bucket_init_at burst refill t0 :
  1 < refill → 0 < burst → bucket_at burst refill (mk_bucket burst (u32 t0)) t0 t0.
Proof. unfold bucket_at. simpl. lia. Qed.

(** A later stretch of a monotone history, for one bucket. *)
Lemma bucket_segment burst refill t0 pre t1 ts :
  1 < refill < 2 ^ 31 → 0 < burst < 2 ^ 31 → monotone t0 pre →
  monotone (default t0 (last pre)) (t1 :: ts) →
  passed (bucket_run burst refill (bucket_run burst refill (mk_bucket burst (u32 t0)) pre).2
            (t1 :: ts)).1 * refill <
    (burst + 1) * refill + (default t1 (last ts) - t1).
Proof.
  intros Hr Hb Hp Ht.
  destruct (bucket_run_bound burst refill _ t0 t0 pre Hr Hb (bucket_init_at burst refill t0 ltac:(lia) ltac:(lia)) Hp)
    as [_ [L Hat]].
  by eapply bucket_window.
Qed.

Lemma monotone_elem t0 ts x : monotone t0 ts → x ∈ ts → t0 ≤ x.
Proof.
  revert t0; induction ts as [|y l IH]; intros t0; [by intros _ ?%not_elem_of_nil|].
  intros [Hy Hl] [->|Hin]%list.elem_of_cons; [lia|]. specialize (IH y Hl Hin). lia.
Qed.
Lemma monotone_last t0 ts : monotone t0 ts → t0 ≤ default t0 (last ts).
Proof.
  revert t0; induction ts as [|x l IH]; intros t0; simpl; [lia|].
  intros [Hx Hl]. rewrite <- last_after. specialize (IH x Hl). lia.
Qed.

(** The same for a bucket drawn on by some of the calls. *)
Lemma bucket_segment_sublist burst refill t0 pre f1 t1 ts f2 :
  1 < refill < 2 ^ 31 → 0 < burst < 2 ^ 31 → monotone t0 pre →
  monotone (default t0 (last pre)) (t1 :: ts) →
  f1 `sublist_of` pre → f2 `sublist_of` (t1 :: ts) →
  passed (bucket_run burst refill (bucket_run burst refill (mk_bucket burst (u32 t0)) f1).2 f2).1
    * refill < (burst + 1) * refill + (default t1 (last ts) - t1).
Proof.
  intros Hr Hb Hp Ht Hs1 Hs2.
  destruct (monotone_sublist _ _ _ Hs1 Hp) as [Hm1 Hl1].
  destruct (monotone_sublist _ _ _ Hs2 Ht) as [Hm2 Hl2]. rewrite <- last_after in Hl2.
  pose proof (monotone_last t1 ts (proj2 Ht)) as Hle.
  destruct f2 as [|x f2]; [cbn [bucket_run fst]; unfold passed; simpl; nia|].
  assert (Hx : t1 ≤ x).
  { apply (monotone_elem t1 (t1 :: ts)); [split; [lia|apply Ht]|].
    eapply sublist_subseteq; [exact Hs2|]. left. }
  eapply Z.lt_le_trans.
  { apply (bucket_segment burst refill t0 f1 x f2); [done..|]. destruct Hm2. split; [lia|done]. }
  rewrite <- last_after in Hl2. lia.
Qed.

(** Rate limits: whatever happened before and however the 32-bit clock wraps,
    the forwarded-request bucket passes fewer than 17 requests plus one per two
    seconds over any stretch of calls, the probe buckets fewer than 9 replies plus
    one per five seconds and fewer than 5 forwards plus one per ten seconds, and a
    probe is forwarded only if it is answered. *)
Theorem ingress_rates_bounded (t0 t1 : Z) (pre ts : list Z) (pre' ts' : list (bool * Z)) (e1 : bool)
    (Hm : monotone t0 (pre ++ t1 :: ts)) (Hm' : monotone t0 (pre'.*2 ++ t1 :: ts'.*2)) :
  let fwd := rreq_fwd_run (rreq_fwd_run (rreq_fwd_init (u32 t0)) pre).2 (t1 :: ts) in
  let ds := (probe_run (probe_run (probe_ingress_init (u32 t0)) pre').2 ((e1, t1) :: ts')).1 in
  passed fwd.1 * RREQ_FWD_REFILL_MS <
    (RREQ_FWD_BURST + 1) * RREQ_FWD_REFILL_MS + (default t1 (last ts) - t1) ∧
  passed (pid_reply <$> ds) * PROBE_REPLY_REFILL_MS <
    (PROBE_REPLY_BURST + 1) * PROBE_REPLY_REFILL_MS + (default t1 (last ts'.*2) - t1) ∧
  passed (pid_forward <$> ds) * PROBE_FWD_REFILL_MS <
    (PROBE_FWD_BURST + 1) * PROBE_FWD_REFILL_MS + (default t1 (last ts'.*2) - t1) ∧
  Forall (λ d, pid_forward d = true → pid_reply d = true) ds.
Proof.
  apply monotone_app in Hm as [Hp Ht]. apply monotone_app in Hm' as [Hp' Ht'].
  intros fwd ds. split; [|].
  - unfold fwd. rewrite !rreq_fwd_run_bucket.
    by apply (bucket_segment RREQ_FWD_BURST RREQ_FWD_REFILL_MS t0 pre t1 ts).
  - destruct (probe_run_buckets (probe_ingress_init (u32 t0)) pre') as (f1 & Hs1 & Hr1 & _ & Hf1 & _).
    set (rl := (probe_run _ pre').2) in *.
    destruct (probe_run_buckets rl ((e1, t1) :: ts')) as (f2 & Hs2 & Hr2 & Hp2 & _ & Hall).
    fold ds in Hr2, Hp2, Hall. rewrite fmap_cons in Hs2, Hr2. cbn [snd] in Hs2, Hr2.
    split; [|split; [|done]].
    + apply (f_equal snd) in Hr1. apply (f_equal fst) in Hr2. cbn [fst snd pi_reply probe_ingress_init] in *.
      rewrite Hr2, Hr1. by apply (bucket_segment PROBE_REPLY_BURST PROBE_REPLY_REFILL_MS t0 pre'.*2 t1 ts'.*2).
    + rewrite Hp2, Hf1. cbn [pi_forward probe_ingress_init].
      by apply (bucket_segment_sublist PROBE_FWD_BURST PROBE_FWD_REFILL_MS t0 pre'.*2).
Qed.

(** Forty requests in the same second, and probes at full rate, before and
    after the clock wraps at 4294967296. *)
Lemma ingress_rates_bounded_witness :
  passed (rreq_fwd_run (rreq_fwd_run (rreq_fwd_init (u32 4294966000)) [4294966500]).2
            (4294967000 :: replicate 40 4294968000)).1 * 2000 < 17 * 2000 + 1000.
Proof.
  refine (proj1 (ingress_rates_bounded 4294966000 4294967000 [4294966500] (replicate 40 4294968000)
    [(true, 4294966500)] [(true, 4294968000)] false _ _)); vm_compute;
    repeat (split; [discriminate|]); try split; done.
Defined.
