(* ===== verification/Timesync.v ===== *)
(** * Network time ([components/timesync/timesync.c])

    The pool of pending time offers, its outlier clamp and corroboration quorum,
    and the committed offset.  Offsets are exact integers; the theorem on the
    committed offset includes that all intermediate values fit the code's
    64 bits when the offers come from 48-bit clocks. *)

From stdpp Require Import base numbers sets option decidable list.
From S2P Require Import Prelude Tables.

Definition MAX_TIME_SHIFT_MS : Z := 2000.
Definition MAX_STRATUM : Z := 7.
Definition CORROBORATION_REQUIRED : nat := 3.
Definition PENDING_POOL_SIZE : nat := 8.
Definition PENDING_MAX_AGE_MS : Z := 180000.
Definition CONFIDENCE_MAX_AGE_MS : Z := 180000.

Record timesync_pending_t := mk_tpending {
  tp_offset_ms : Z; tp_source_addr : Z; tp_timestamp_ms : Z; tp_stratum : Z; tp_established : bool }.
#[global] Instance tpending_inhabited : Inhabited timesync_pending_t :=
  populate (mk_tpending 0 0 0 0 false).

Record timesync_state_t := mk_timesync {
  ts_offset_ms : Z; ts_stratum : Z; ts_last_sync_ms : Z; ts_synchronized : bool;
  ts_pending : ctable timesync_pending_t }.

Definition timesync_init : timesync_state_t :=
  mk_timesync 0 MAX_STRATUM 0 false (table_init PENDING_POOL_SIZE (mk_tpending 0 0 0 0 false)).

Definition purge_stale (pool : ctable timesync_pending_t) (local_now_ms : Z)
    : ctable timesync_pending_t :=
  compact (λ e, (local_now_ms ⊖ tp_timestamp_ms e) <=? PENDING_MAX_AGE_MS) pool.

(** The [seen] array of [count_distinct_established_sources]. *)
Definition established_sources (l : list timesync_pending_t) : list Z :=
  foldl (λ seen e, if negb (tp_established e) then seen
                   else if existsb (λ s, s =? tp_source_addr e) seen then seen
                   else seen ++ [tp_source_addr e]) [] l.
Definition count_distinct_established_sources (pool : ctable timesync_pending_t) : nat :=
  length (established_sources (live pool)).

Definition weight (e : timesync_pending_t) : Z :=
  let w := MAX_STRATUM - tp_stratum e in if w <? 1 then 1 else w.
(** [weighted_sum], [total_weight] and [best] after the loop. *)
Definition weigh (l : list timesync_pending_t) : Z * Z * Z :=
  foldl (λ acc e, let '(sum, total, best) := acc in
           (sum + tp_offset_ms e * weight e, total + weight e,
            if tp_stratum e <? best then tp_stratum e else best)) (0, 0, MAX_STRATUM) l.
(** The weighted offset and the best stratum. *)
Definition compute_weighted_offset (pool : ctable timesync_pending_t) : Z * Z :=
  let '(sum, total, best) := weigh (live pool) in
  (if total <=? 0 then 0 else Z.quot sum total, best).

Definition pool_index (pool : ctable timesync_pending_t) (source_addr : Z) : option nat :=
  find_index (λ e, tp_source_addr e =? source_addr) (live pool).

(** Refresh the source's entry, append one, or replace the oldest. *)
Definition pool_add (pool : ctable timesync_pending_t) (e : timesync_pending_t)
    : ctable timesync_pending_t :=
  match pool_index pool (tp_source_addr e) with
  | Some i => tset pool i e
  | None =>
      if decide (PENDING_POOL_SIZE ≤ count pool)%nat
      then tset pool (best_index (λ x y, tp_timestamp_ms x <? tp_timestamp_ms y) (live pool)) e
      else tpush pool e
  end.

Definition timesync_handle_sync (ts : timesync_state_t) (remote_time_ms remote_stratum source_addr : Z)
    (source_established : bool) (local_now_ms : Z) : Z * timesync_state_t :=
  if ts_synchronized ts && (remote_stratum >=? ts_stratum ts) then (-1, ts)
  else
    let proposed_offset := remote_time_ms - local_now_ms in
    let reference :=
      if ts_synchronized ts then Some (ts_offset_ms ts)
      else if decide (0 < count (ts_pending ts))%nat
      then Some (compute_weighted_offset (ts_pending ts)).1
      else None in
    let rejected :=
      match reference with
      | Some r => Z.abs (proposed_offset - r) >? MAX_TIME_SHIFT_MS
      | None => false
      end in
    if rejected then (-2, ts)
    else
      let pool := purge_stale (ts_pending ts) local_now_ms in
      let pool := pool_add pool (mk_tpending proposed_offset source_addr local_now_ms remote_stratum
                                   source_established) in
      if negb (ts_synchronized ts) &&
         (count_distinct_established_sources pool <? CORROBORATION_REQUIRED)%nat
      then (0, mk_timesync (ts_offset_ms ts) (ts_stratum ts) (ts_last_sync_ms ts)
                 (ts_synchronized ts) pool)
      else
        let '(offset, best_stratum) := compute_weighted_offset pool in
        (1, mk_timesync offset (u8 (best_stratum + 1)) local_now_ms true pool).

Definition timesync_get_network_time (ts : timesync_state_t) (local_now_ms : Z) : Z :=
  local_now_ms + ts_offset_ms ts.
Definition timesync_get_stratum (ts : timesync_state_t) : Z := ts_stratum ts.
Definition timesync_is_confident (ts : timesync_state_t) (local_now_ms : Z) : bool :=
  ts_synchronized ts && ((local_now_ms ⊖ ts_last_sync_ms ts) <=? CONFIDENCE_MAX_AGE_MS).

(** ** The weighted offset *)

Lemma weight_pos e : 1 ≤ weight e.
Proof. unfold weight, MAX_STRATUM. split_if; conds; lia. Qed.
Lemma weight_range e : is_u8 (tp_stratum e) → 1 ≤ weight e ≤ 7.
Proof. intros Hs. unfold weight, MAX_STRATUM. split_if; conds; cint_unfold; lia. Qed.

(** An offset between the least and the greatest, the best stratum in the pool,
    and sums that stay small. *)
Lemma weigh_spec lo hi l :
  Forall (λ e, is_u8 (tp_stratum e) ∧ lo ≤ tp_offset_ms e ≤ hi) l →
  let '(sum, total, best) := weigh l in
  lo * total ≤ sum ≤ hi * total ∧
  Z.of_nat (length l) ≤ total ≤ 7 * Z.of_nat (length l) ∧ 0 ≤ best ≤ MAX_STRATUM ∧
  (∀ e, e ∈ l → best ≤ tp_stratum e).
Proof.
  unfold weigh. induction l as [|e l IH] using rev_ind; intros Hall.
  { simpl. unfold MAX_STRATUM. split; [lia|]. split; [lia|]. split; [lia|].
    by intros e ?%not_elem_of_nil. }
  apply Forall_app in Hall as [Hall He]. inversion_clear He as [|? ? [Hs Ho] _].
  specialize (IH Hall). rewrite foldl_app. simpl.
  destruct (foldl _ _ l) as [[sum total] best]. destruct IH as (H1 & H2 & H3 & H4).
  pose proof (weight_range e Hs) as Hw. rewrite length_app. simpl.
  split; [nia|]. split; [lia|]. split; [split_if; conds; cint_unfold; lia|].
  intros e' [He'|He'%list_elem_of_singleton]%elem_of_app.
  - specialize (H4 _ He'). split_if; conds; lia.
  - subst. split_if; conds; lia.
Qed.

Lemma quot_between a b s t : 0 < t → a * t ≤ s ≤ b * t → a ≤ Z.quot s t ≤ b.
Proof.
  intros Ht Hs. rewrite <- (Z.quot_mul a t), <- (Z.quot_mul b t) by lia.
  split; apply Z.quot_le_mono; lia.
Qed.

(** ** Invariants of the pool *)

Definition pool_ok (pool : ctable timesync_pending_t) : Prop :=
  table_wf PENDING_POOL_SIZE pool ∧ NoDup (tp_source_addr <$> live pool).

Lemma purge_ok pool now :
  pool_ok pool →
  pool_ok (purge_stale pool now) ∧
  live (purge_stale pool now) =
    filter (λ e, ((now ⊖ tp_timestamp_ms e) <=? PENDING_MAX_AGE_MS) = true) (live pool).
Proof.
  intros [Hwf Hnd]. unfold purge_stale.
  pose proof (live_compact _ (λ e, (now ⊖ tp_timestamp_ms e) <=? PENDING_MAX_AGE_MS) _ Hwf) as Hl.
  split; [|done]. split; [by apply compact_wf|]. rewrite Hl.
  apply NoDup_fmap_filter. intros i j x y Hi Hj _ _ E.
  eapply NoDup_lookup; [exact Hnd| |]; rewrite list_lookup_fmap.
  - by rewrite Hi.
  - by rewrite Hj, E.
Qed.

Lemma pool_add_ok pool e :
  pool_ok pool →
  pool_ok (pool_add pool e) ∧ (0 < count (pool_add pool e))%nat ∧
  e ∈ live (pool_add pool e) ∧ (∀ x, x ∈ live (pool_add pool e) → x = e ∨ x ∈ live pool).
Proof.
  intros [Hwf Hnd]. unfold pool_add. pose proof Hwf as [Hlen Hcnt].
  assert (Hset : ∀ i x, live pool !! i = Some x →
    (tp_source_addr x = tp_source_addr e ∨ tp_source_addr e ∉ tp_source_addr <$> live pool) →
    pool_ok (tset pool i e) ∧ (0 < count (tset pool i e))%nat ∧
    e ∈ live (tset pool i e) ∧ (∀ x, x ∈ live (tset pool i e) → x = e ∨ x ∈ live pool)).
  { intros i x Hi Hk. pose proof (lookup_lt_Some _ _ _ Hi) as Hlt. rewrite live_tset.
    pose proof Hlt as Hlt'. rewrite (length_live _ _ Hwf) in Hlt'.
    split; [split; [by apply tset_wf|]|].
    - rewrite live_tset, list_fmap_insert. destruct Hk as [Hk|Hk].
      + rewrite list_insert_id; [done|]. by rewrite list_lookup_fmap, Hi, <- Hk.
      + by apply NoDup_insert_fresh.
    - split; [simpl; lia|]. split; [|apply slots_insert_elem].
      eapply list_elem_of_lookup_2. by apply list_lookup_insert_eq. }
  unfold pool_index. destruct (find_index _ _) as [i|] eqn:Hi.
  { apply find_index_Some in Hi as (x & Hx & Hs%Z.eqb_eq & _). eapply Hset; [done|by left]. }
  assert (Hfresh : tp_source_addr e ∉ tp_source_addr <$> live pool).
  { intros (x & Hx & Hin)%list_elem_of_fmap. apply find_index_None in Hi.
    rewrite Forall_forall in Hi. specialize (Hi _ Hin). simpl in Hi. lia. }
  case_decide as Hc.
  - set (i := best_index _ _). assert (Hlt : (i < length (live pool))%nat).
    { apply best_index_lt. rewrite (length_live _ _ Hwf). unfold PENDING_POOL_SIZE in *. lia. }
    eapply Hset; [by apply list_lookup_lookup_total_lt|by right].
  - rewrite (live_tpush PENDING_POOL_SIZE) by (done || lia).
    split; [split; [apply tpush_wf; [done|lia]|]|].
    + rewrite (live_tpush PENDING_POOL_SIZE) by (done || lia). rewrite fmap_app.
      apply NoDup_app. split; [done|]. split; [set_solver|]. apply NoDup_singleton.
    + split; [simpl; lia|]. split; [set_solver|]. intros x. set_solver.
Qed.

Lemma established_sources_snoc l e :
  established_sources (l ++ [e]) =
  (if negb (tp_established e) then established_sources l
   else if existsb (λ s, s =? tp_source_addr e) (established_sources l) then established_sources l
   else established_sources l ++ [tp_source_addr e]).
Proof. unfold established_sources. by rewrite foldl_app. Qed.

(** The quorum counts distinct sources with an established entry. *)
Lemma established_sources_spec l :
  NoDup (established_sources l) ∧
  ∀ s, s ∈ established_sources l → ∃ e, e ∈ l ∧ tp_source_addr e = s ∧ tp_established e = true.
Proof.
  induction l as [|e l [IH1 IH2]] using rev_ind.
  { split; [constructor|]. by intros s ?%not_elem_of_nil. }
  rewrite established_sources_snoc.
  assert (Hold : ∀ s, s ∈ established_sources l →
    ∃ x, x ∈ l ++ [e] ∧ tp_source_addr x = s ∧ tp_established x = true).
  { intros s (x & ? & ?)%IH2. exists x. set_solver. }
  destruct (tp_established e) eqn:He; cbn [negb]; [|done].
  destruct (existsb _ _) eqn:Hex; [done|]. split.
  - apply NoDup_app. split; [done|]. split; [|apply NoDup_singleton].
    intros s Hs ->%list_elem_of_singleton.
    assert (existsb (λ s, s =? tp_source_addr e) (established_sources l) = true) as Ht; [|congruence].
    apply existsb_exists. exists (tp_source_addr e). split; [by apply list_elem_of_In|lia].
  - intros s [Hs| ->%list_elem_of_singleton]%elem_of_app; [auto|]. exists e. set_solver.
Qed.

(** ** Histories *)

Record sync_call := mk_call {
  sc_remote : Z; sc_stratum : Z; sc_source : Z; sc_established : bool; sc_now : Z }.
Definition sync (ts : timesync_state_t) (c : sync_call) : Z * timesync_state_t :=
  timesync_handle_sync ts (sc_remote c) (sc_stratum c) (sc_source c) (sc_established c) (sc_now c).
Definition sync_run (calls : list sync_call) : timesync_state_t :=
  foldl (λ ts c, (sync ts c).2) timesync_init calls.
Definition offer (c : sync_call) : timesync_pending_t :=
  mk_tpending (sc_remote c - sc_now c) (sc_source c) (sc_now c) (sc_stratum c) (sc_established c).

Lemma sync_run_snoc calls c : sync_run (calls ++ [c]) = (sync (sync_run calls) c).2.
Proof. unfold sync_run. by rewrite foldl_app. Qed.

(** The pool after an accepted call. *)
Definition pool_after (ts : timesync_state_t) (c : sync_call) : ctable timesync_pending_t :=
  pool_add (purge_stale (ts_pending ts) (sc_now c)) (offer c).

Lemma sync_cases ts c :
  (sync ts c = (-1, ts) ∨ sync ts c = (-2, ts)) ∨
  (sync ts c = (0, mk_timesync (ts_offset_ms ts) (ts_stratum ts) (ts_last_sync_ms ts) false
                     (pool_after ts c)) ∧ ts_synchronized ts = false) ∨
  (sync ts c = (1, mk_timesync (compute_weighted_offset (pool_after ts c)).1
                     (u8 ((compute_weighted_offset (pool_after ts c)).2 + 1)) (sc_now c) true
                     (pool_after ts c)) ∧
   (ts_synchronized ts = true ∨
    (CORROBORATION_REQUIRED ≤ count_distinct_established_sources (pool_after ts c))%nat)).
Proof.
  unfold sync, timesync_handle_sync. split_if; [auto|].
  destruct (match (if ts_synchronized ts then _ else _) with Some _ => _ | None => _ end); [auto|].
  fold (offer c). fold (pool_after ts c). right.
  destruct (ts_synchronized ts); cbn [negb andb].
  - right. destruct (compute_weighted_offset _) as [o b]. split; [done|by left].
  - destruct (count_distinct_established_sources _ <? _)%nat eqn:E; [by left|].
    right. destruct (compute_weighted_offset _) as [o b]. split; [done|right].
    by apply Nat.ltb_ge in E.
Qed.

(** Every pool entry is some call's offer. *)
Definition sync_inv (calls : list sync_call) (ts : timesync_state_t) : Prop :=
  pool_ok (ts_pending ts) ∧ ∀ e, e ∈ live (ts_pending ts) → ∃ c, c ∈ calls ∧ e = offer c.

Lemma pool_after_spec calls ts c :
  sync_inv calls ts →
  pool_ok (pool_after ts c) ∧ (0 < count (pool_after ts c))%nat ∧
  offer c ∈ live (pool_after ts c) ∧
  ∀ e, e ∈ live (pool_after ts c) →
    ∃ x, x ∈ calls ++ [c] ∧ e = offer x ∧ sc_now c ⊖ sc_now x ≤ PENDING_MAX_AGE_MS.
Proof.
  intros [Hok Hin]. destruct (purge_ok _ (sc_now c) Hok) as [Hok' Hl].
  destruct (pool_add_ok _ (offer c) Hok') as (H1 & H2 & H3 & H4).
  split; [done|]. split; [done|]. split; [done|]. intros e [->|He]%H4.
  - exists c. split; [set_solver|]. split; [done|]. rewrite Z.sub_diag. vm_compute. done.
  - rewrite Hl in He. apply list_elem_of_filter in He as [Hage He].
    destruct (Hin _ He) as (x & Hx & ->). exists x. split; [set_solver|]. split; [done|].
    simpl in Hage. lia.
Qed.

Lemma sync_run_inv calls : sync_inv calls (sync_run calls).
Proof.
  induction calls as [|c calls IH] using rev_ind.
  { split; [split; [apply table_init_wf|constructor]|]. by intros e ?%not_elem_of_nil. }
  rewrite sync_run_snoc. destruct (pool_after_spec calls _ c IH) as (H1 & _ & _ & H2).
  assert (Hkeep : sync_inv (calls ++ [c]) (sync_run calls)).
  { destruct IH as [IH1 IH2]. split; [done|]. intros e (x & ? & ->)%IH2. exists x. set_solver. }
  assert (Hnew : ∀ o s l b, sync_inv (calls ++ [c]) (mk_timesync o s l b (pool_after (sync_run calls) c))).
  { intros. split; [done|]. intros e (x & ? & ? & _)%H2. eauto. }
  destruct (sync_cases (sync_run calls) c) as [[->| ->]|[[-> _]|[-> _]]]; simpl; done || apply Hnew.
Qed.

(** A committed offset lies between two fresh offers. *)
Lemma commit_offset calls c :
  Forall (λ x, is_u8 (sc_stratum x)) (calls ++ [c]) →
  let pool := pool_after (sync_run calls) c in
  let '(offset, best) := compute_weighted_offset pool in
  0 ≤ best ≤ Z.min MAX_STRATUM (sc_stratum c) ∧
  ∀ lo hi, (∀ x, x ∈ calls ++ [c] → sc_now c ⊖ sc_now x ≤ PENDING_MAX_AGE_MS →
                 lo ≤ sc_remote x - sc_now x ≤ hi) →
    lo ≤ offset ≤ hi ∧
    let '(sum, total, _) := weigh (live pool) in
    0 < total ≤ 56 ∧ lo * total ≤ sum ≤ hi * total.
Proof.
  intros Hu pool. subst pool.
  destruct (pool_after_spec calls _ c (sync_run_inv calls)) as ([Hwf Hnd] & Hpos & Hc & Hin).
  set (pool := pool_after _ c) in *. unfold compute_weighted_offset.
  assert (Hrange : ∀ lo hi, (∀ x, x ∈ calls ++ [c] → sc_now c ⊖ sc_now x ≤ PENDING_MAX_AGE_MS →
      lo ≤ sc_remote x - sc_now x ≤ hi) →
    Forall (λ e, is_u8 (tp_stratum e) ∧ lo ≤ tp_offset_ms e ≤ hi) (live pool)).
  { intros lo hi Hb. apply Forall_forall. intros e (x & Hx & -> & Hage)%Hin.
    rewrite Forall_forall in Hu. split; [exact (Hu _ Hx)|]. by apply Hb. }
  pose proof (length_live _ _ Hwf) as Hlen. destruct Hwf as [_ Hcap].
  destruct (weigh (live pool)) as [[sum total] best] eqn:Hw.
  assert (Hspec : ∀ lo hi, Forall (λ e, is_u8 (tp_stratum e) ∧ lo ≤ tp_offset_ms e ≤ hi) (live pool) →
    lo * total ≤ sum ≤ hi * total ∧ 0 < total ≤ 56 ∧ 0 ≤ best ≤ MAX_STRATUM ∧
    ∀ e, e ∈ live pool → best ≤ tp_stratum e).
  { intros lo hi Hb. pose proof (weigh_spec lo hi _ Hb) as Hsp. rewrite Hw in Hsp.
    destruct Hsp as (? & ? & ? & ?). unfold PENDING_POOL_SIZE in *. split; [done|].
    split; [lia|]. done. }
  assert (Hex : ∃ lo hi, Forall (λ e, is_u8 (tp_stratum e) ∧ lo ≤ tp_offset_ms e ≤ hi) (live pool)).
  { clear -Hin Hu. set (l := live pool) in *. clearbody l.
    assert (Hl : Forall (λ e, is_u8 (tp_stratum e)) l).
    { apply Forall_forall. intros e (x & Hx & -> & _)%Hin. rewrite Forall_forall in Hu. exact (Hu _ Hx). }
    clear Hin. induction Hl as [|e l He _ (lo & hi & IH)]; [by exists 0, 0|].
    exists (Z.min lo (tp_offset_ms e)), (Z.max hi (tp_offset_ms e)).
    constructor; [split; [done|lia]|]. eapply Forall_impl; [exact IH|]. intros x [? ?]. split; [done|lia]. }
  destruct Hex as (lo0 & hi0 & Hex). destruct (Hspec _ _ Hex) as (_ & Ht & Hb & Hbest).
  assert ((total <=? 0) = false) as -> by lia. split.
  { specialize (Hbest _ Hc). simpl in Hbest. lia. }
  intros lo hi Hlh. destruct (Hspec _ _ (Hrange _ _ Hlh)) as (Hs & _).
  split; [by apply quot_between; [lia|]|]. done.
Qed.

(** The offers behind a first commit. *)
Definition quorum (calls : list sync_call) (now : Z) : Prop :=
  ∃ cs, (CORROBORATION_REQUIRED ≤ length cs)%nat ∧ NoDup (sc_source <$> cs) ∧
    Forall (λ x, x ∈ calls ∧ sc_established x = true ∧ now ⊖ sc_now x ≤ PENDING_MAX_AGE_MS) cs.

Lemma quorum_of_pool calls c :
  (CORROBORATION_REQUIRED ≤ count_distinct_established_sources (pool_after (sync_run calls) c))%nat →
  quorum (calls ++ [c]) (sc_now c).
Proof.
  intros Hq. destruct (pool_after_spec calls _ c (sync_run_inv calls)) as (_ & _ & _ & Hin).
  unfold count_distinct_established_sources in Hq.
  set (pool := pool_after _ c) in *. destruct (established_sources_spec (live pool)) as [Hnd Hs].
  assert (Hcs : ∀ l, NoDup l → (∀ s, s ∈ l → s ∈ established_sources (live pool)) →
    ∃ cs, sc_source <$> cs = l ∧
      Forall (λ x, x ∈ calls ++ [c] ∧ sc_established x = true ∧
                   sc_now c ⊖ sc_now x ≤ PENDING_MAX_AGE_MS) cs).
  { induction l as [|s l IH]; intros Hl Hsub; [by exists []|].
    apply NoDup_cons in Hl as [_ Hl]. destruct IH as (cs & <- & Hall); [done|set_solver|].
    destruct (Hs s) as (e & He & Hse & Hest); [set_solver|].
    destruct (Hin _ He) as (x & Hx & -> & Hage). exists (x :: cs). simpl in *.
    split; [by rewrite Hse|]. by constructor. }
  destruct (Hcs _ Hnd (λ s H, H)) as (cs & Hsrc & Hall). exists cs.
  rewrite <- Hsrc, length_fmap in Hq. rewrite Hsrc. done.
Qed.

(** C10. Network time: over any history of time offers, the clock is set for the
    first time only by a call at which three distinct established sources have
    offered a time within the last three minutes; every rejected offer leaves the
    state as it was; and every committed offset lies between the least and the
    greatest fresh offer, with the stratum one above the best in the pool, at most
    one above the caller's, and no overflow of the 64-bit sums. *)
Theorem timesync_commits_sound (calls : list sync_call)
    (Hu : Forall (λ x, is_u8 (sc_stratum x)) calls) :
  (ts_synchronized (sync_run calls) = true →
   ∃ pre c post, calls = pre ++ c :: post ∧ ts_synchronized (sync_run pre) = false ∧
                 quorum (pre ++ [c]) (sc_now c)) ∧
  (∀ pre c post, calls = pre ++ c :: post →
     let r := sync (sync_run pre) c in
     (r.1 < 0 → r.2 = sync_run pre) ∧
     (r.1 = 1 →
      ts_synchronized r.2 = true ∧ ts_last_sync_ms r.2 = sc_now c ∧
      1 ≤ ts_stratum r.2 ≤ Z.min MAX_STRATUM (sc_stratum c) + 1 ∧
      ∀ lo hi, (∀ x, x ∈ pre ++ [c] → sc_now c ⊖ sc_now x ≤ PENDING_MAX_AGE_MS →
                     lo ≤ sc_remote x - sc_now x ≤ hi) →
        lo ≤ ts_offset_ms r.2 ≤ hi ∧
        (- 2 ^ 57 ≤ lo → hi ≤ 2 ^ 57 → - 2 ^ 63 ≤ (weigh (live (ts_pending r.2))).1.1 < 2 ^ 63))).
Proof.
  split.
  - clear Hu. induction calls as [|c calls IH] using rev_ind; [done|].
    rewrite sync_run_snoc. intros Hs.
    destruct (ts_synchronized (sync_run calls)) eqn:Hold.
    + destruct (IH eq_refl) as (pre & c0 & post & -> & ? & ?).
      exists pre, c0, (post ++ [c]). by rewrite <- app_assoc.
    + exists calls, c, []. split; [done|]. split; [done|].
      destruct (sync_cases (sync_run calls) c) as [[E|E]|[[E _]|[E Hq]]];
        rewrite E in Hs; simpl in Hs; [congruence..|].
      apply quorum_of_pool. destruct Hq; [congruence|done].
  - intros pre c post -> r.
    assert (Hu' : Forall (λ x, is_u8 (sc_stratum x)) (pre ++ [c])).
    { apply Forall_app in Hu as [? Hu]. inversion_clear Hu. apply Forall_app. split; [done|].
      by constructor. }
    pose proof (commit_offset pre c Hu') as Hco. cbv zeta in Hco. unfold r.
    destruct (sync_cases (sync_run pre) c) as [[->| ->]|[[-> _]|[-> _]]]; cbn [fst snd]; [done..|].
    split; [done|]. intros _.
    cbn [ts_synchronized ts_last_sync_ms ts_stratum ts_offset_ms ts_pending].
    destruct (compute_weighted_offset _) as [offset best]. destruct Hco as [Hb Hco]. cbn [fst snd].
    split; [done|]. split; [done|].
    split; [rewrite u8_id by (unfold MAX_STRATUM in *; cint_unfold; lia); lia|].
    intros lo hi Hlh. destruct (Hco lo hi Hlh) as [Ho Hw]. split; [done|]. intros Hlo Hhi.
    destruct (weigh _) as [[sum total] ?]. cbn [fst]. nia.
Qed.

Definition demo_calls : list sync_call :=
  [mk_call 1000000 2 11 true 5000; mk_call 1000600 3 12 true 5500;
   mk_call 1000700 1 11 true 5600; mk_call 1001100 2 13 true 6000].
Lemma timesync_commits_sound_witness :
  ts_synchronized (sync_run demo_calls) = true ∧
  ∃ pre c post, demo_calls = pre ++ c :: post ∧ ts_synchronized (sync_run pre) = false ∧
                quorum (pre ++ [c]) (sc_now c).
Proof.
  split; [vm_compute; reflexivity|].
  refine (proj1 (timesync_commits_sound demo_calls _) _); [|vm_compute; reflexivity].
  unfold demo_calls. do 4 (apply Forall_cons_2; [vm_compute; split; congruence|]). apply Forall_nil_2.
Defined.

(** The outlier clamp runs before stale offers are purged: after a first offer
    from any source, established or not, offers that differ from it by more than
    two seconds are rejected for ever, however long ago it was made, and the clock
    is never set. *)
Theorem stale_outlier_blocks_bootstrap (c0 : sync_call) (calls : list sync_call)
    (Hfar : Forall (λ c, MAX_TIME_SHIFT_MS < Z.abs ((sc_remote c - sc_now c) - (sc_remote c0 - sc_now c0)))
              calls) :
  sync_run (c0 :: calls) = sync_run [c0] ∧
  ts_synchronized (sync_run (c0 :: calls)) = false ∧
  live (ts_pending (sync_run (c0 :: calls))) = [offer c0].
Proof.
  assert (Hfirst : ts_synchronized (sync_run [c0]) = false ∧ live (ts_pending (sync_run [c0])) = [offer c0] ∧
                   count (ts_pending (sync_run [c0])) = 1%nat).
  { clear. destruct c0 as [r s a [] n]; vm_compute; done. }
  assert (Hsame : sync_run (c0 :: calls) = sync_run [c0]).
  { induction calls as [|c calls IH] using rev_ind; [done|].
    apply Forall_app in Hfar as [Hfar Hc]. inversion_clear Hc as [|? ? Hd _].
    change (c0 :: calls ++ [c]) with ((c0 :: calls) ++ [c]). rewrite sync_run_snoc, (IH Hfar).
    destruct Hfirst as (Hs & Hl & Hcnt). set (ts := sync_run [c0]) in *. clearbody ts.
    unfold sync, timesync_handle_sync. rewrite Hs. cbn [andb].
    rewrite decide_True by lia. unfold compute_weighted_offset. rewrite Hl. cbn [weigh foldl].
    pose proof (weight_pos (offer c0)) as Hw.
    assert ((0 + weight (offer c0) <=? 0) = false) as -> by lia. cbn [fst].
    rewrite Z.add_0_l, Z.add_0_l, Z.quot_mul by lia. cbn [offer tp_offset_ms].
    rewrite (proj2 (Z.gtb_lt _ _)) by lia. done. }
  rewrite Hsame. destruct Hfirst as (? & ? & _). done.
Qed.

Lemma stale_outlier_blocks_bootstrap_witness :
  let honest := (λ i, mk_call (1700000000000 + i) 1 (100 + i mod 5) true i) <$>
                  [60000; 61000; 62000; 300000; 301000; 302000; 3600000; 3601000; 3602000] in
  ts_synchronized (sync_run (mk_call 42 6 99 false 0 :: honest)) = false.
Proof.
  intros honest.
  apply (stale_outlier_blocks_bootstrap (mk_call 42 6 99 false 0) honest).
  repeat constructor; vm_compute; reflexivity.
Defined.
