(* ===== verification/MeshRouting.v ===== *)
(** * The routing handlers ([main/mesh_routing.c])

    What the node does with a received route request, reply or error and with a
    data frame to forward: the routing components composed as the firmware
    composes them.  A handler maps the node state to a new state and the effects
    it had (frames handed to the transmit gate, queued messages flushed, pending
    sends reported failed); [None] would be an access outside a buffer.  The
    clock, the random draw, the next packet id and the next control sequence
    number are inputs of the call, read once. *)

From stdpp Require Import base strings numbers sets option decidable list.
From S2P Require Import Prelude Tables Packet PacketSpec ReplayWindow Mailbox Airtime TxGate Reliability.
From S2P Require Import Routing Forwarding NetworkKey RoutingAuth Discovery ChannelFlood Security.

Definition RREQ_FWD_QUEUE_CAPACITY : nat := 8.
Definition BRAMBLE_DATA_SRC_ADDR_OFFSET : nat := HEADER_SIZE.
Definition BRAMBLE_DATA_PREV_HOP_OFFSET : nat := HEADER_SIZE + 4.

Record pending_rreq_fwd_t := mk_fwd { pf_used : bool; pf_due_at_ms : Z; pf_rreq : bramble_rreq_t }.
Definition header_zero : bramble_header_t := mk_header 0 0 0 0 0 0.
Definition rreq_zero : bramble_rreq_t := mk_rreq header_zero 0 0 0 0 0 0.
Definition rrep_zero : bramble_rrep_t :=
  mk_rrep header_zero 0 0 0 0 0 (replicate 8 0) (replicate 6 0).
Definition rerr_zero : bramble_rerr_t := mk_rerr header_zero 0 0 0 (replicate 8 0) (replicate 6 0).
#[global] Instance fwd_inhabited : Inhabited pending_rreq_fwd_t := populate (mk_fwd false 0 rreq_zero).

(** The part of the node state the handlers share. *)
Record mesh := mk_mesh {
  s_address : Z;
  s_key : netkey;
  s_rreq_dedup : rreq_dedup_t;
  s_reverse_routes : reverse_route_table_t;
  s_routes : routing_table_t;
  s_pending_disc : pending_discovery_table_t;
  s_rreq_fwd_queue : list pending_rreq_fwd_t;
  s_rreq_fwd_rl : rreq_fwd_limiter_t;
  s_control_replay : replay_table_t;
  s_pending_acks : pending_ack_table_t;
  s_mailbox_enabled : bool;
  s_mailbox : mailbox_t }.

Definition set_dedup (m : mesh) x := mk_mesh (s_address m) (s_key m) x (s_reverse_routes m)
  (s_routes m) (s_pending_disc m) (s_rreq_fwd_queue m) (s_rreq_fwd_rl m) (s_control_replay m)
  (s_pending_acks m) (s_mailbox_enabled m) (s_mailbox m).
Definition set_reverse (m : mesh) x := mk_mesh (s_address m) (s_key m) (s_rreq_dedup m) x
  (s_routes m) (s_pending_disc m) (s_rreq_fwd_queue m) (s_rreq_fwd_rl m) (s_control_replay m)
  (s_pending_acks m) (s_mailbox_enabled m) (s_mailbox m).
Definition set_routes (m : mesh) x := mk_mesh (s_address m) (s_key m) (s_rreq_dedup m)
  (s_reverse_routes m) x (s_pending_disc m) (s_rreq_fwd_queue m) (s_rreq_fwd_rl m)
  (s_control_replay m) (s_pending_acks m) (s_mailbox_enabled m) (s_mailbox m).
Definition set_pending_disc (m : mesh) x := mk_mesh (s_address m) (s_key m) (s_rreq_dedup m)
  (s_reverse_routes m) (s_routes m) x (s_rreq_fwd_queue m) (s_rreq_fwd_rl m)
  (s_control_replay m) (s_pending_acks m) (s_mailbox_enabled m) (s_mailbox m).
Definition set_fwd_queue (m : mesh) x := mk_mesh (s_address m) (s_key m) (s_rreq_dedup m)
  (s_reverse_routes m) (s_routes m) (s_pending_disc m) x (s_rreq_fwd_rl m)
  (s_control_replay m) (s_pending_acks m) (s_mailbox_enabled m) (s_mailbox m).
Definition set_fwd_rl (m : mesh) x := mk_mesh (s_address m) (s_key m) (s_rreq_dedup m)
  (s_reverse_routes m) (s_routes m) (s_pending_disc m) (s_rreq_fwd_queue m) x
  (s_control_replay m) (s_pending_acks m) (s_mailbox_enabled m) (s_mailbox m).
Definition set_replay (m : mesh) x := mk_mesh (s_address m) (s_key m) (s_rreq_dedup m)
  (s_reverse_routes m) (s_routes m) (s_pending_disc m) (s_rreq_fwd_queue m) (s_rreq_fwd_rl m) x
  (s_pending_acks m) (s_mailbox_enabled m) (s_mailbox m).
Definition set_acks (m : mesh) x := mk_mesh (s_address m) (s_key m) (s_rreq_dedup m)
  (s_reverse_routes m) (s_routes m) (s_pending_disc m) (s_rreq_fwd_queue m) (s_rreq_fwd_rl m)
  (s_control_replay m) x (s_mailbox_enabled m) (s_mailbox m).
Definition set_mailbox (m : mesh) x := mk_mesh (s_address m) (s_key m) (s_rreq_dedup m)
  (s_reverse_routes m) (s_routes m) (s_pending_disc m) (s_rreq_fwd_queue m) (s_rreq_fwd_rl m)
  (s_control_replay m) (s_pending_acks m) (s_mailbox_enabled m) x.

(** What one call reads from outside: clock, random draw, packet id counter and
    the nonce counter behind [control_seq_next] ([None]: unavailable). *)
Record call_env := mk_env { e_now : Z; e_random : Z; e_packet_id : Z; e_seq : option Z }.

Inductive mesh_event :=
| EvTx (frame : list Z) (kind : tx_kind_t)
| EvFlush (dest : Z)
| EvAckFailed (packet_id : Z).

(** [control_replay_ok] *)
Definition control_replay_ok (m : mesh) (signer seq now : Z) : bool * mesh :=
  let '(v, t) := replay_check_and_add (s_control_replay m) signer seq now in
  (v =? REPLAY_ACCEPT, set_replay m t).

(** ** Transmission *)

(** [if (serialize(...) == ESP_OK) mesh_tx(buf, n, TX_KIND_ROUTING);] *)
Definition tx_serialized (r : option (esp_err * list Z)) (n : nat) : option (list mesh_event) :=
  '(e, buf) ← r; Some (match e with ESP_OK => [EvTx (take n buf) TX_KIND_ROUTING] | _ => [] end).

Definition send_rreq (rreq : bramble_rreq_t) : option (list mesh_event) :=
  tx_serialized (bramble_rreq_serialize rreq (replicate RREQ_SIZE 0) RREQ_SIZE) (HEADER_SIZE + 18).

Definition send_rrep (m : mesh) (rrep : bramble_rrep_t) : option (list mesh_event) :=
  if negb (network_key_is_provisioned (s_key m)) then Some []
  else tx_serialized (bramble_rrep_serialize rrep (replicate RREP_SIZE 0) RREP_SIZE) RREP_SIZE.

Definition rrep_with_seq (r : bramble_rrep_t) (seq : Z) : bramble_rrep_t :=
  mk_rrep (rrep_header r) (rrep_query_id r) (rrep_src_addr r) (rrep_next_hop r) (rrep_hop_count r)
    (rrep_route_metric r) (rrep_auth_hmac r) (bramble_seq48_pack seq).
Definition rrep_with_next_hop (r : bramble_rrep_t) (next_hop : Z) : bramble_rrep_t :=
  mk_rrep (rrep_header r) (rrep_query_id r) (rrep_src_addr r) next_hop (rrep_hop_count r)
    (rrep_route_metric r) (rrep_auth_hmac r) (rrep_seq r).

(** ** Jittered forwarding of requests *)

Definition schedule_rreq_forward (m : mesh) (env : call_env) (fwd : bramble_rreq_t)
    : option (mesh * list mesh_event) :=
  let jitter := discovery_forward_jitter_ms (e_random env) in
  match find_index (λ q, negb (pf_used q)) (s_rreq_fwd_queue m) with
  | Some i => Some (set_fwd_queue m
                      (<[i := mk_fwd true (e_now env ⊕ jitter) fwd]> (s_rreq_fwd_queue m)), [])
  | None => evs ← send_rreq fwd; Some (m, evs)
  end.

Fixpoint process_rreq_forward_queue (queue : list pending_rreq_fwd_t) (t : Z)
    : option (list pending_rreq_fwd_t * list mesh_event) :=
  match queue with
  | [] => Some ([], [])
  | q :: queue =>
      if pf_used q && due t (pf_due_at_ms q)
      then evs ← send_rreq (pf_rreq q);
           '(queue', evs') ← process_rreq_forward_queue queue t;
           Some (mk_fwd false (pf_due_at_ms q) (pf_rreq q) :: queue', evs ++ evs')
      else '(queue', evs') ← process_rreq_forward_queue queue t; Some (q :: queue', evs')
  end.

(** [rerr_ack_failfast_for_dest], table entry by entry. *)
Fixpoint rerr_ack_failfast_for_dest (table : pending_ack_table_t) (broken_dest : Z)
    : pending_ack_table_t * list mesh_event :=
  match table with
  | [] => ([], [])
  | pa :: table =>
      let '(table', evs) := rerr_ack_failfast_for_dest table broken_dest in
      if negb (pa_active pa) || negb (pa_dest_addr pa =? broken_dest) then (pa :: table', evs)
      else (set_active pa false :: table', EvAckFailed (pa_packet_id pa) :: evs)
  end.

(** ** Handlers *)

Section Handlers.
Context (hmac : list Z → list Z → list Z).

Definition send_rerr (m : mesh) (env : call_env) (broken_dest broken_next_hop : Z)
    : option (list mesh_event) :=
  if negb (network_key_is_provisioned (s_key m)) then Some []
  else
    let rerr := rerr_build (s_address m) broken_dest broken_next_hop in
    match e_seq env with
    | None => Some []
    | Some seq =>
        let h := rerr_header rerr in
        let rerr :=
          mk_rerr (mk_header (h_version h) (h_type h) (h_flags h) (h_hop_limit h) (h_dest_addr h)
                     (e_packet_id env))
            (rerr_reporter_addr rerr) (rerr_broken_dest rerr) (rerr_broken_next_hop rerr)
            (rerr_auth_hmac rerr) (bramble_seq48_pack seq) in
        let rerr := (rerr_sign hmac (s_key m) rerr).2 in
        tx_serialized (bramble_rerr_serialize rerr (replicate RERR_SIZE 0) RERR_SIZE) RERR_SIZE
    end.

(** The two branches of [handle_rreq] that answer: number and sign the reply,
    send it, install the hint back to the previous hop. *)
Definition answer_rreq (m : mesh) (env : call_env) (rreq : bramble_rreq_t) (rrep : bramble_rrep_t)
    (readdress : bramble_rrep_t → bramble_rrep_t) (rssi snr : Z) : option (mesh * list mesh_event) :=
  match e_seq env with
  | None => Some (m, [])
  | Some seq =>
      let rrep := (rrep_sign hmac (s_key m) (rrep_with_seq rrep seq)).2 in
      evs ← send_rrep m (readdress rrep);
      let metric := metric_apply_link_penalty (rreq_metric rreq) (i8 rssi) snr in
      let routes := (route_install (s_routes m) (rreq_prev_hop rreq) (rreq_prev_hop rreq)
                       (rreq_hop_count rreq) metric ROUTE_ACTIVE ROUTE_SRC_BREADCRUMB
                       (e_now env)).2 in
      Some (set_routes m routes, evs)
  end.

(** The last part of [handle_rreq]: relay while the hop budget lasts. *)
Definition rreq_relay (m : mesh) (env : call_env) (rreq : bramble_rreq_t) (rssi snr : Z)
    : option (mesh * list mesh_event) :=
  if h_hop_limit (rreq_header rreq) >? 1
  then
    let '(allowed, rl) := rreq_fwd_allow (s_rreq_fwd_rl m) (e_now env) in
    let m := set_fwd_rl m rl in
    if negb allowed then Some (m, [])
    else schedule_rreq_forward m env (rreq_forward rreq (s_address m) (i8 rssi) snr)
  else Some (m, []).

Definition handle_rreq (m : mesh) (env : call_env) (data : list Z) (len : nat) (rssi snr : Z)
    : option (mesh * list mesh_event) :=
  if negb (network_key_is_provisioned (s_key m)) then Some (m, []) else
  '(e, rreq) ← bramble_rreq_deserialize rreq_zero data len;
  match e with
  | ESP_OK =>
      let '(seen, dedup) := rreq_dedup_check_and_add (s_rreq_dedup m) (rreq_query_id rreq) (e_now env) in
      let m := set_dedup m dedup in
      if seen then Some (m, []) else
      let m := set_reverse m (reverse_route_add (s_reverse_routes m) (rreq_query_id rreq)
                                (rreq_prev_hop rreq) (e_now env)).2 in
      if h_dest_addr (rreq_header rreq) =? s_address m
      then
        answer_rreq m env rreq (rrep_build_destination hmac (s_key m) rreq (s_address m))
          (λ r, match reverse_route_lookup (s_reverse_routes m) (rreq_query_id rreq) with
                | Some rev => rrep_with_next_hop r (rr_prev_hop rev)
                | None => r
                end) rssi snr
      else
        let cached := route_lookup (s_routes m) (h_dest_addr (rreq_header rreq)) in
        match cached with
        | Some route =>
            if intermediate_rrep_route_usable cached (e_now env)
            then answer_rreq m env rreq
                   (rrep_build_intermediate hmac (s_key m) rreq route (s_address m) (i8 rssi) snr)
                   (λ r, r) rssi snr
            else rreq_relay m env rreq rssi snr
        | None => rreq_relay m env rreq rssi snr
        end
  | _ => Some (m, [])
  end.

Definition handle_rrep (m : mesh) (env : call_env) (data : list Z) (len : nat) (rssi snr : Z)
    : option (mesh * list mesh_event) :=
  '(e, rrep) ← bramble_rrep_deserialize rrep_zero data len;
  match e with
  | ESP_OK =>
      ok ← rrep_verify hmac (s_key m) rrep;
      if negb ok then Some (m, []) else
      let '(fresh, m) := control_replay_ok m (rrep_src_addr rrep)
                           (bramble_seq48_unpack (rrep_seq rrep)) (e_now env) in
      if negb fresh then Some (m, []) else
      let metric := metric_apply_link_penalty (rrep_route_metric rrep) (i8 rssi) snr in
      let d := rrep_rx_decide rrep metric (s_pending_disc m) (s_reverse_routes m) in
      let m := if rd_install_route d
               then set_routes m (route_install (s_routes m) (rd_route_dest d) (rd_route_next_hop d)
                      (rd_route_hops d) (rd_route_metric d) ROUTE_ACTIVE ROUTE_SRC_DISCOVERED
                      (e_now env)).2
               else m in
      match rd_action d with
      | RREP_RX_DELIVER =>
          Some (set_pending_disc m (discovery_remove (s_pending_disc m) (rd_deliver_dest d)),
                [EvFlush (rd_deliver_dest d)])
      | RREP_RX_FORWARD =>
          evs ← send_rrep m (rrep_forward rrep (rd_forward_to d) (s_address m)); Some (m, evs)
      | RREP_RX_DROP => Some (m, [])
      end
  | _ => Some (m, [])
  end.

Definition handle_rerr (m : mesh) (env : call_env) (data : list Z) (len : nat)
    : option (mesh * list mesh_event) :=
  '(e, rerr) ← bramble_rerr_deserialize rerr_zero data len;
  match e with
  | ESP_OK =>
      ok ← rerr_verify hmac (s_key m) rerr;
      if negb ok then Some (m, []) else
      let '(fresh, m) := control_replay_ok m (rerr_reporter_addr rerr)
                           (bramble_seq48_unpack (rerr_seq rerr)) (e_now env) in
      if negb fresh then Some (m, []) else
      let '(marked, routes) := rerr_handle (s_routes m) rerr in
      let m := set_routes m routes in
      evs ← (if marked && (h_hop_limit (rerr_header rerr) >? 1)
             then send_rerr m env (rerr_broken_dest rerr) (rerr_broken_next_hop rerr)
             else Some []);
      if rerr_failfast_applies (s_routes m) (rerr_broken_dest rerr) marked
      then
        let '(acks, failed) := rerr_ack_failfast_for_dest (s_pending_acks m) (rerr_broken_dest rerr) in
        Some (set_acks m acks, evs ++ failed)
      else Some (m, evs)
  | _ => Some (m, [])
  end.

(** [mesh_mailbox_store]: whether the frame was stored. *)
Definition mesh_mailbox_store (m : mesh) (src_addr dest_addr : Z) (raw : list Z) (raw_len : nat)
    (packet_id now : Z) : option (bool * mesh) :=
  if negb (s_mailbox_enabled m) then Some (false, m)
  else if (MAILBOX_MAX_PAYLOAD <? raw_len)%nat then Some (false, m)
  else '(rc, mb) ← mailbox_store (s_mailbox m) src_addr dest_addr raw raw_len packet_id now;
       Some (rc =? 0, set_mailbox m mb).

Definition forward_data_packet (m : mesh) (env : call_env) (data : list Z) (len : nat)
    (header : bramble_header_t) : option (mesh * list mesh_event) :=
  let '(fwd, hop_limit, routes) :=
    forward_data (s_routes m) (h_dest_addr header) (h_hop_limit header) (e_now env) in
  let m := set_routes m routes in
  if negb (fr_should_send fwd)
  then
    if negb (fr_route_error fwd) then Some (m, [])
    else
      src ← (if (BRAMBLE_DATA_SRC_ADDR_OFFSET + 4 <=? len)%nat
             then get_le32 data BRAMBLE_DATA_SRC_ADDR_OFFSET else Some 0);
      '(stored, m) ← (if s_mailbox_enabled m
                      then mesh_mailbox_store m src (h_dest_addr header) data len
                             (h_packet_id header) (e_now env)
                      else Some (false, m));
      if (stored : bool) then Some (m, [])
      else evs ← send_rerr m env (h_dest_addr header) (s_address m); Some (m, evs)
  else
    frame ← rdn data 0 len;
    let fwd_hdr := mk_header (h_version header) (h_type header) (h_flags header) hop_limit
                     (h_dest_addr header) (h_packet_id header) in
    buf ← wr (replicate BRAMBLE_MAX_PACKET_SIZE 0) 0 frame;
    '(_, buf) ← bramble_header_serialize fwd_hdr buf HEADER_SIZE;
    buf ← (if (BRAMBLE_DATA_PREV_HOP_OFFSET + 4 <=? len)%nat
           then wr buf BRAMBLE_DATA_PREV_HOP_OFFSET (le32_bytes (s_address m)) else Some buf);
    Some (m, [EvTx (take len buf) TX_KIND_FORWARD]).
End Handlers.
