(* ===== verification/MeshRoutingSpec.v ===== *)
(** * Correctness of the routing handlers

    Whatever bytes arrive, the handlers return, keep the tables well formed, and
    let only authenticated, fresh and solicited control frames touch a
    discovered route; and two executions of the handlers on several nodes in
    which the routes end up other than the code's comments intend. *)

From stdpp Require Import base strings numbers sets option decidable gmap list.
From S2P Require Import Prelude Tables KeyedTable Packet PacketSpec ReplayWindow Mailbox Airtime TxGate Reliability.
From S2P Require Import Routing Forwarding RoutingSpec NetworkKey RoutingAuth Discovery ChannelFlood Security MeshRouting.

(** ** The handlers return *)

Lemma rreq_serialize_total p buf :
  length buf = RREQ_SIZE → bramble_rreq_serialize p buf RREQ_SIZE = Some (ESP_OK, rreq_bytes p).
Proof.
  intros Hb. unfold bramble_rreq_serialize. sizes. ser_start. do 6 ser_step. do 2 f_equal.
  rewrite filled_exact by len. unfold rreq_bytes. by rewrite <- !app_assoc.
Qed.
Lemma rrep_serialize_total p buf :
  length (rrep_auth_hmac p) = 8%nat → length (rrep_seq p) = 6%nat →
  length buf = RREP_SIZE → bramble_rrep_serialize p buf RREP_SIZE = Some (ESP_OK, rrep_bytes p).
Proof.
  intros H1 H2 Hb. unfold bramble_rrep_serialize. sizes. ser_start. do 7 ser_step. do 2 f_equal.
  rewrite filled_exact by len. unfold rrep_bytes. by rewrite <- !app_assoc.
Qed.
Lemma rerr_serialize_total p buf :
  length (rerr_auth_hmac p) = 8%nat → length (rerr_seq p) = 6%nat →
  length buf = RERR_SIZE → bramble_rerr_serialize p buf RERR_SIZE = Some (ESP_OK, rerr_bytes p).
Proof.
  intros H1 H2 Hb. unfold bramble_rerr_serialize. sizes. ser_start. do 5 ser_step. do 2 f_equal.
  rewrite filled_exact by len. unfold rerr_bytes. by rewrite <- !app_assoc.
Qed.

Section Total.
Context (hmac : list Z → list Z → list Z) `{!HmacLaws hmac}.

Lemma send_rreq_total r : send_rreq r = Some [EvTx (rreq_bytes r) TX_KIND_ROUTING].
Proof.
  unfold send_rreq, tx_serialized. rewrite rreq_serialize_total by apply length_replicate.
  cbn [mbind option_bind]. by rewrite take_ge by (unfold rreq_bytes; len).
Qed.

Lemma send_rrep_total m r :
  length (rrep_auth_hmac r) = 8%nat → length (rrep_seq r) = 6%nat →
  send_rrep m r = Some (if nk_provisioned (s_key m) then [EvTx (rrep_bytes r) TX_KIND_ROUTING] else []).
Proof.
  intros H1 H2. unfold send_rrep, network_key_is_provisioned, tx_serialized.
  destruct (nk_provisioned _); cbn [negb]; [|done].
  rewrite rrep_serialize_total by (done || apply length_replicate).
  cbn [mbind option_bind]. by rewrite take_ge by (unfold rrep_bytes, RREP_SIZE; len).
Qed.

Lemma send_rerr_total m env d nh : is_Some (send_rerr hmac m env d nh).
Proof.
  unfold send_rerr. split_if; [eauto|]. destruct (e_seq env); [|eauto].
  unfold tx_serialized, rerr_sign.
  set (r := mk_rerr _ _ _ _ _ _). pose proof (mac_length hmac (s_key m) rerr_label (rerr_build_auth_buf r)).
  destruct (network_key_mac _ _ _ _) as [rc mac]. cbn [snd] in *.
  rewrite rerr_serialize_total by (done || apply length_replicate). cbn [mbind option_bind]. eauto.
Qed.

Lemma rrep_sign_fields st r :
  let r' := (rrep_sign hmac st r).2 in
  length (rrep_auth_hmac r') = 8%nat ∧ rrep_seq r' = rrep_seq r ∧ rrep_next_hop r' = rrep_next_hop r ∧
  rrep_header r' = rrep_header r ∧ stable (F_rrep r') = stable (F_rrep r).
Proof.
  unfold rrep_sign. pose proof (mac_length hmac st rrep_label (rrep_build_auth_buf r)).
  destruct (network_key_mac _ _ _ _) as [rc mac]. done.
Qed.

(** Answering: one signed reply and one breadcrumb, or nothing. *)
Lemma answer_rreq_spec m env rreq rrep f rssi snr :
  (∀ r, rrep_auth_hmac (f r) = rrep_auth_hmac r ∧ rrep_seq (f r) = rrep_seq r) →
  ∃ m' evs, answer_rreq hmac m env rreq rrep f rssi snr = Some (m', evs) ∧
    (m' = m ∨ m' = set_routes m (route_step (s_routes m)
       (OpInstall (rreq_prev_hop rreq) (rreq_prev_hop rreq) (rreq_hop_count rreq)
          (metric_apply_link_penalty (rreq_metric rreq) (i8 rssi) snr) ROUTE_ACTIVE
          ROUTE_SRC_BREADCRUMB (e_now env)))).
Proof.
  intros Hf. unfold answer_rreq. destruct (e_seq env) as [seq|]; [|eauto].
  destruct (rrep_sign_fields (s_key m) (rrep_with_seq rrep seq)) as (H1 & H2 & _).
  set (r := (rrep_sign _ _ _).2) in *. destruct (Hf r) as [H3 H4].
  rewrite send_rrep_total; [|by rewrite H3|by rewrite H4, H2].
  cbn [mbind option_bind]. eauto.
Qed.

(** What a route request may do to the routes. *)
Definition only_breadcrumb (t t' : routing_table_t) : Prop :=
  t' = t ∨ ∃ d nh hops metric st now,
    t' = route_step t (OpInstall d nh hops metric st ROUTE_SRC_BREADCRUMB now).

Lemma rreq_relay_spec m env rreq rssi snr :
  ∃ m' evs, rreq_relay m env rreq rssi snr = Some (m', evs) ∧ s_routes m' = s_routes m ∧
    s_pending_acks m' = s_pending_acks m ∧ s_pending_disc m' = s_pending_disc m.
Proof.
  unfold rreq_relay. split_if; [|eauto 10].
  destruct (rreq_fwd_allow _ _) as [allowed rl]. destruct allowed; cbn [negb]; [|eauto 10].
  unfold schedule_rreq_forward. destruct (find_index _ _); [eauto 10|].
  rewrite send_rreq_total. cbn [mbind option_bind]. eauto 10.
Qed.

(** The outcome of a request handled on node [m]. *)
Definition rreq_outcome (m : mesh) (r : option (mesh * list mesh_event)) : Prop :=
  ∃ m' evs, r = Some (m', evs) ∧ only_breadcrumb (s_routes m) (s_routes m') ∧
    s_pending_acks m' = s_pending_acks m ∧ s_pending_disc m' = s_pending_disc m.

Lemma handle_rreq_spec m env data len rssi snr :
  (len ≤ length data)%nat →
  rreq_outcome m (handle_rreq hmac m env data len rssi snr) ∧
  (nk_provisioned (s_key m) = false → handle_rreq hmac m env data len rssi snr = Some (m, [])).
Proof.
  intros Hlen. unfold handle_rreq, network_key_is_provisioned.
  assert (Hquiet : ∀ m1, s_routes m1 = s_routes m → s_pending_acks m1 = s_pending_acks m →
    s_pending_disc m1 = s_pending_disc m → rreq_outcome m (Some (m1, []))).
  { intros m1 H1 H2 H3. exists m1, []. split; [done|]. split; [by left|done]. }
  destruct (nk_provisioned (s_key m)); cbn [negb]; [|split; [by apply Hquiet|done]].
  split; [|done].
  destruct (rreq_deserialize_safe rreq_zero data len Hlen) as [[e rreq] ->]. cbn [mbind option_bind].
  destruct e; try (by apply Hquiet).
  destruct (rreq_dedup_check_and_add _ _ _) as [seen dd]. destruct seen; [by apply Hquiet|].
  set (m1 := set_reverse _ _).
  assert (Hans : ∀ rrep f, (∀ r, rrep_auth_hmac (f r) = rrep_auth_hmac r ∧ rrep_seq (f r) = rrep_seq r) →
    rreq_outcome m (answer_rreq hmac m1 env rreq rrep f rssi snr)).
  { intros rrep f Hf.
    destruct (answer_rreq_spec m1 env rreq rrep f rssi snr Hf) as (m' & evs & -> & Hm).
    exists m', evs. split; [done|]. destruct Hm as [->| ->]; (split; [|done]);
      [by left|right; by repeat eexists]. }
  assert (Hrel : rreq_outcome m (rreq_relay m1 env rreq rssi snr)).
  { destruct (rreq_relay_spec m1 env rreq rssi snr) as (m' & evs & -> & H1 & H2 & H3).
    exists m', evs. split; [done|]. rewrite H1, H2, H3. split; [by left|done]. }
  split_if; [apply Hans; intros r; by destruct (reverse_route_lookup _ _)|].
  destruct (route_lookup _ _) as [route|]; [|done].
  split_if; [by apply Hans|done].
Qed.

(** ** Replies and errors *)

Lemma mac_verify_total st label data mac :
  length mac = 8%nat → is_Some (network_key_mac_verify hmac st label data mac).
Proof.
  intros Hl. unfold network_key_mac_verify.
  pose proof (mac_length hmac st label data) as Hl'.
  destruct (network_key_mac hmac st label data) as [rc expect]. cbn [snd] in *.
  split_if; [eauto|]. unfold crypto_ct_memeq.
  do 9 (destruct expect as [|? expect]; try (simpl in Hl'; lia)).
  do 9 (destruct mac as [|? mac]; try (simpl in Hl; lia)).
  cbn [ct_acc mbind option_bind]. eauto.
Qed.

(** A parsed frame has its arrays at their size. *)
Lemma rrep_parsed_sizes data len p :
  bramble_rrep_deserialize rrep_zero data len = Some (ESP_OK, p) →
  length (rrep_auth_hmac p) = 8%nat ∧ length (rrep_seq p) = 6%nat.
Proof.
  unfold bramble_rrep_deserialize. destruct (_ <? _)%nat; [done|].
  destruct (bramble_header_deserialize _ _ _) as [[e hd]|]; [|done]. cbn [mbind option_bind].
  destruct e; [|done..].
  intros H. repeat (apply bind_Some in H as (? & ? & H)). injection H as <-. simpl.
  repeat match goal with H : rdn _ _ _ = Some _ |- _ => apply rdn_inv in H as (_ & ? & _) end. done.
Qed.
Lemma rerr_parsed_sizes data len p :
  bramble_rerr_deserialize rerr_zero data len = Some (ESP_OK, p) →
  length (rerr_auth_hmac p) = 8%nat ∧ length (rerr_seq p) = 6%nat.
Proof.
  unfold bramble_rerr_deserialize. destruct (_ <? _)%nat; [done|].
  destruct (bramble_header_deserialize _ _ _) as [[e hd]|]; [|done]. cbn [mbind option_bind].
  destruct e; [|done..].
  intros H. repeat (apply bind_Some in H as (? & ? & H)). injection H as <-. simpl.
  repeat match goal with H : rdn _ _ _ = Some _ |- _ => apply rdn_inv in H as (_ & ? & _) end. done.
Qed.

(** The frame in [data] parses, carries a valid MAC and a fresh number. *)
Definition authentic_rrep (m : mesh) (env : call_env) (data : list Z) (len : nat)
    (rrep : bramble_rrep_t) : Prop :=
  bramble_rrep_deserialize rrep_zero data len = Some (ESP_OK, rrep) ∧
  rrep_verify hmac (s_key m) rrep = Some true ∧
  (replay_check_and_add (s_control_replay m) (rrep_src_addr rrep)
     (bramble_seq48_unpack (rrep_seq rrep)) (e_now env)).1 = REPLAY_ACCEPT.
Definition authentic_rerr (m : mesh) (env : call_env) (data : list Z) (len : nat)
    (rerr : bramble_rerr_t) : Prop :=
  bramble_rerr_deserialize rerr_zero data len = Some (ESP_OK, rerr) ∧
  rerr_verify hmac (s_key m) rerr = Some true ∧
  (replay_check_and_add (s_control_replay m) (rerr_reporter_addr rerr)
     (bramble_seq48_unpack (rerr_seq rerr)) (e_now env)).1 = REPLAY_ACCEPT.
(** This node asked the question the reply answers, or relayed it. *)
Definition solicited (m : mesh) (rrep : bramble_rrep_t) : Prop :=
  is_Some (discovery_lookup_by_query (s_pending_disc m) (rrep_query_id rrep)) ∨
  is_Some (reverse_route_lookup (s_reverse_routes m) (rrep_query_id rrep)).

(** A handler left everything but the replay window alone. *)
Definition quiet (m m' : mesh) (evs : list mesh_event) : Prop :=
  evs = [] ∧ ∃ t, m' = set_replay m t.

Lemma quiet_refl m : quiet m m [].
Proof. split; [done|]. exists (s_control_replay m). by destruct m. Qed.

Lemma handle_rrep_spec m env data len rssi snr :
  (len ≤ length data)%nat →
  ∃ m' evs, handle_rrep hmac m env data len rssi snr = Some (m', evs) ∧
  (quiet m m' evs ∨
   ∃ rrep, authentic_rrep m env data len rrep ∧ solicited m rrep ∧
     s_routes m' = route_step (s_routes m)
       (OpInstall (rrep_src_addr rrep) (rrep_next_hop rrep) (rrep_hop_count rrep)
          (metric_apply_link_penalty (rrep_route_metric rrep) (i8 rssi) snr) ROUTE_ACTIVE
          ROUTE_SRC_DISCOVERED (e_now env))).
Proof.
  intros Hlen. unfold handle_rrep.
  destruct (rrep_deserialize_safe rrep_zero data len Hlen) as [[e rrep] Hd].
  rewrite Hd. cbn [mbind option_bind].
  destruct e; try (exists m, []; split; [done|left; apply quiet_refl]).
  destruct (rrep_parsed_sizes _ _ _ Hd) as [Hm8 Hs6].
  destruct (mac_verify_total (s_key m) rrep_label (rrep_build_auth_buf rrep) _ Hm8) as [ok Hok].
  fold (rrep_verify hmac (s_key m) rrep) in Hok. rewrite Hok. cbn [mbind option_bind].
  destruct ok; cbn [negb]; [|exists m, []; split; [done|left; apply quiet_refl]].
  unfold control_replay_ok.
  destruct (replay_check_and_add _ _ _ _) as [v t] eqn:Hr.
  destruct (v =? REPLAY_ACCEPT) eqn:Hv; cbn [negb].
  2: { eexists _, []. split; [done|]. left. split; [done|]. by exists t. }
  assert (Hauth : authentic_rrep m env data len rrep).
  { split; [done|]. split; [done|]. rewrite Hr. by apply Z.eqb_eq in Hv. }
  unfold rrep_rx_decide. cbn [set_replay s_pending_disc s_reverse_routes].
  destruct (discovery_lookup_by_query _ _) as [pd|] eqn:Hpd;
    [|destruct (reverse_route_lookup _ _) as [rev|] eqn:Hrev];
    cbn [rd_install_route rd_action rd_route_dest rd_route_next_hop rd_route_hops rd_route_metric].
  - eexists _, _. split; [done|]. right. exists rrep. split; [done|].
    split; [left; rewrite Hpd; eauto|done].
  - rewrite send_rrep_total by done. cbn [mbind option_bind].
    eexists _, _. split; [done|]. right. exists rrep. split; [done|].
    split; [right; rewrite Hrev; eauto|done].
  - eexists _, []. split; [done|]. left. split; [done|]. by exists t.
Qed.

Lemma handle_rerr_spec m env data len :
  (len ≤ length data)%nat →
  ∃ m' evs, handle_rerr hmac m env data len = Some (m', evs) ∧
  (quiet m m' evs ∨
   ∃ rerr, authentic_rerr m env data len rerr ∧
     s_routes m' = route_step (s_routes m) (OpRerr rerr)).
Proof.
  intros Hlen. unfold handle_rerr.
  destruct (rerr_deserialize_safe rerr_zero data len Hlen) as [[e rerr] Hd].
  rewrite Hd. cbn [mbind option_bind].
  destruct e; try (exists m, []; split; [done|left; apply quiet_refl]).
  destruct (rerr_parsed_sizes _ _ _ Hd) as [Hm8 Hs6].
  destruct (mac_verify_total (s_key m) rerr_label (rerr_build_auth_buf rerr) _ Hm8) as [ok Hok].
  fold (rerr_verify hmac (s_key m) rerr) in Hok. rewrite Hok. cbn [mbind option_bind].
  destruct ok; cbn [negb]; [|exists m, []; split; [done|left; apply quiet_refl]].
  unfold control_replay_ok.
  destruct (replay_check_and_add _ _ _ _) as [v t] eqn:Hr.
  destruct (v =? REPLAY_ACCEPT) eqn:Hv; cbn [negb].
  2: { eexists _, []. split; [done|]. left. split; [done|]. by exists t. }
  assert (Hauth : authentic_rerr m env data len rerr).
  { split; [done|]. split; [done|]. rewrite Hr. by apply Z.eqb_eq in Hv. }
  cbn [set_replay s_routes]. destruct (rerr_handle (s_routes m) rerr) as [marked routes] eqn:Hh.
  set (m1 := set_routes _ routes).
  assert (Hroutes : routes = route_step (s_routes m) (OpRerr rerr)) by (simpl; by rewrite Hh).
  assert (is_Some (if marked && (h_hop_limit (rerr_header rerr) >? 1)
    then send_rerr hmac m1 env (rerr_broken_dest rerr) (rerr_broken_next_hop rerr) else Some []))
    as [evs ->] by (split_if; [apply send_rerr_total|eauto]).
  cbn [mbind option_bind]. split_if.
  - destruct (rerr_ack_failfast_for_dest _ _) as [acks failed].
    eexists _, _. split; [done|]. right. exists rerr. done.
  - eexists _, _. split; [done|]. right. exists rerr. done.
Qed.
End Total.

(** Installs with room and route errors change one destination. *)
Lemma install_other t dest nh hops metric st src now d :
  route_inv t → (count t < MAX_ROUTES)%nat → d ≠ dest →
  route_map (route_step t (OpInstall dest nh hops metric st src now)) !! d = route_map t !! d.
Proof.
  intros Hinv Hc Hd. cbn [route_step].
  destruct (route_install_map t dest nh hops metric st src now Hinv) as [_ Hsp].
  unfold install_spec in Hsp.
  rewrite (bool_decide_false (count t = MAX_ROUTES)) in Hsp by lia.
  destruct (route_map t !! dest); destruct Hsp as [_ ->]; [split_if|]; by rewrite ?lookup_insert_ne.
Qed.
Lemma rerr_other t rerr d :
  route_inv t → d ≠ rerr_broken_dest rerr →
  route_map (route_step t (OpRerr rerr)) !! d = route_map t !! d.
Proof.
  intros Hinv Hd. cbn [route_step].
  destruct (rerr_handle_map t rerr Hinv) as [_ Hsp]. unfold rerr_spec in Hsp.
  destruct (route_map t !! rerr_broken_dest rerr); destruct Hsp as [_ ->]; [split_if|];
    by rewrite ?lookup_insert_ne.
Qed.

(** ** Properties *)


(** ** Executions over several nodes *)

Definition mesh_node (address : Z) (routes : routing_table_t) : mesh :=
  mk_mesh address toy_key rreq_dedup_init reverse_route_init routes discovery_init
    (replicate RREQ_FWD_QUEUE_CAPACITY (mk_fwd false 0 rreq_zero)) (rreq_fwd_init 0)
    replay_table_init pending_ack_init false mailbox_init.
Definition at_time (t seq : Z) : call_env := mk_env t 0 (1000 + seq) (Some seq).

(** The frames among the effects of a call. *)
Definition sent (evs : list mesh_event) : list (list Z) :=
  omap (λ ev, match ev with EvTx f _ => Some f | _ => None end) evs.
(** Deliver a frame to a handler, as [(state, frames)]. *)
Definition rx (r : option (mesh * list mesh_event)) : mesh * list (list Z) :=
  match r with Some (m, evs) => (m, sent evs) | None => (mesh_node 0 route_init, []) end.
Definition next_hop_of (m : mesh) (dest : Z) : option Z := rt_next_hop <$> route_lookup (s_routes m) dest.
Definition state_of (m : mesh) (dest : Z) : option route_state_t :=
  rt_state <$> route_lookup (s_routes m) dest.

(** Node 1 looks for node 3 over node 2; the reply comes back over node 2. *)
Definition discovery_run : mesh * mesh :=
  let a := set_pending_disc (mesh_node 1 route_init) (discovery_start discovery_init 3 77 0).2 in
  let q := rreq_bytes (rreq_build_originator 1 3 77 999 RREQ_HOP_LIMIT_INITIAL) in
  let '(b, _) := rx (handle_rreq toy_hmac (mesh_node 2 route_init) (at_time 10 1) q RREQ_SIZE (-50) 12) in
  let queued := process_rreq_forward_queue (s_rreq_fwd_queue b) 400 in
  let relayed := match queued with Some (_, evs) => sent evs | None => [] end in
  let '(c, replies) :=
    rx (handle_rreq toy_hmac (mesh_node 3 route_init) (at_time 410 5) (relayed !!! 0%nat) RREQ_SIZE (-50) 12) in
  let '(b, back) := rx (handle_rrep toy_hmac b (at_time 420 2) (replies !!! 0%nat) RREP_SIZE (-50) 12) in
  let '(a, _) := rx (handle_rrep toy_hmac a (at_time 430 3) (back !!! 0%nat) RREP_SIZE (-50) 12) in
  (a, b).

(** Node 1 discovers node 3 over node 2.  The destination's handler overwrites
    the reply's next hop with the address of the node the reply is sent to, so
    node 2, the last relay, installs an active route to node 3 whose next hop is
    node 2 itself; node 1 gets the right route. *)
Theorem last_relay_routes_via_itself :
  let '(a, b) := discovery_run in
  s_address b = 2 ∧ next_hop_of b 3 = Some 2 ∧ state_of b 3 = Some ROUTE_ACTIVE ∧
  next_hop_of a 3 = Some 2 ∧ state_of a 3 = Some ROUTE_ACTIVE.
Proof. vm_compute. done. Qed.

(** Routes 1 -> 2 -> 3 -> 4, the last one missing: node 3 has a frame for 4. *)
Definition route_via (dest next_hop : Z) : routing_table_t :=
  (route_install route_init dest next_hop 3 200 ROUTE_ACTIVE ROUTE_SRC_DISCOVERED 0).2.
Definition teardown_run : mesh * mesh * list (list Z) :=
  let frame := header_bytes (mk_header BRAMBLE_VERSION PKT_TYPE_DATA 0 6 4 5000) ++ replicate 20 0 in
  let '(c, errs) :=
    rx (forward_data_packet toy_hmac (mesh_node 3 route_init) (at_time 100 1) frame 32
          (mk_header BRAMBLE_VERSION PKT_TYPE_DATA 0 6 4 5000)) in
  let '(b, errs2) := rx (handle_rerr toy_hmac (mesh_node 2 (route_via 4 3)) (at_time 110 2) (errs !!! 0%nat) RERR_SIZE) in
  let '(a, _) := rx (handle_rerr toy_hmac (mesh_node 1 (route_via 4 2)) (at_time 120 3) (errs2 !!! 0%nat) RERR_SIZE) in
  (a, b, errs2).

(** What node 2 sends on: its own report, of the hop node 3 reported. *)
Definition relayed_rerr : bramble_rerr_t :=
  (rerr_sign toy_hmac toy_key
     (mk_rerr (mk_header BRAMBLE_VERSION PKT_TYPE_RERR 0 ROUTE_HOP_LIMIT_MAX 0xFFFFFFFF 1002) 2 4 3
        (replicate 8 0) (bramble_seq48_pack 2))).2.

(** On the path 1 - 2 - 3 - 4, node 3 reports that it cannot reach 4.  Node 2
    breaks its route and sends the error on, authentic and fresh, but still naming
    node 3 as the broken hop: node 1, whose next hop is node 2, keeps its route. *)
Theorem route_error_stops_after_one_hop :
  let '(a, b, relayed) := teardown_run in
  state_of b 4 = Some ROUTE_BROKEN ∧
  relayed = [rerr_bytes relayed_rerr] ∧
  rerr_verify toy_hmac toy_key relayed_rerr = Some true ∧
  (replay_check_and_add replay_table_init 2 2 120).1 = REPLAY_ACCEPT ∧
  next_hop_of a 4 = Some 2 ∧ state_of a 4 = Some ROUTE_ACTIVE ∧
  s_routes a = route_via 4 2.
Proof. vm_compute. done. Qed.

