(* ===== verification/DmCrypto.v ===== *)
(** * Key agreement of direct messages ([components/dm_session/dm_session.c])

    The key schedule and the two handshake messages: the sorted quad
    Diffie-Hellman secret, the keys and tags derived from it, building and
    verifying INIT and RESP, and the short authentication strings.  X25519, HKDF,
    HMAC and AES-GCM are library code: the operations of the class [DmCrypto],
    [None] for their nonzero return; [DmCryptoLaws] states what the protocol
    relies on. *)

From stdpp Require Import base strings numbers option decidable list.
From S2P Require Import Prelude Packet PacketSpec NetworkKey.

(** ** Primitives *)

Class DmCrypto := {
  crypto_x25519_dh : list Z → list Z → option (list Z);
  x25519_public : list Z → list Z; (** the public key of a private key *)
  crypto_hkdf_sha256 : list Z → list Z → list Z → nat → option (list Z);
  crypto_hmac_sha256 : list Z → list Z → option (list Z);
  crypto_aes256gcm_encrypt : list Z → list Z → list Z → list Z → option (list Z * list Z);
  crypto_aes256gcm_decrypt : list Z → list Z → list Z → list Z → list Z → option (list Z) }.

(** Documented behaviour of the primitives: a Diffie-Hellman secret is the same
    computed from either side and has 32 bytes, derived keys, MACs and tags have
    their length, and decryption inverts encryption under the same key, nonce and
    associated data. *)
Class DmCryptoLaws `{DmCrypto} : Prop := {
  x25519_comm a b : crypto_x25519_dh a (x25519_public b) = crypto_x25519_dh b (x25519_public a);
  x25519_length a b s : crypto_x25519_dh a b = Some s → length s = 32%nat ∧ Forall is_u8 s;
  hkdf_length salt ikm info n k :
    crypto_hkdf_sha256 salt ikm info n = Some k → length k = n ∧ Forall is_u8 k;
  hmac256_length k m d : crypto_hmac_sha256 k m = Some d → length d = 32%nat ∧ Forall is_u8 d;
  gcm_inverse k n pt aad ct tag :
    crypto_aes256gcm_encrypt k n pt aad = Some (ct, tag) →
    crypto_aes256gcm_decrypt k n ct aad tag = Some pt;
  gcm_length k n pt aad ct tag :
    crypto_aes256gcm_encrypt k n pt aad = Some (ct, tag) → length ct = length pt ∧ length tag = 16%nat }.

(** ** Constant-time ordering of two secrets *)

Definition ct_le32_step (st : Z * Z) (p : Z * Z) : Z * Z :=
  let '(decided, a_le_b) := st in
  let '(ai, bi) := p in
  let is_gt := (bi ⊖ ai) >> 31 in
  let is_lt := (ai ⊖ bi) >> 31 in
  let is_diff := Z.lor is_gt is_lt in
  let apply := Z.land is_diff (1 ⊖ decided) in
  let apply_mask := 0 ⊖ apply in
  (Z.lor decided is_diff,
   Z.lor (Z.land a_le_b (u32 (Z.lnot apply_mask))) (Z.land is_lt apply_mask)).
Definition ct_le32 (a b : list Z) : Z := (foldl ct_le32_step (0, 1) (zip a b)).2.

(** The two branchless copies: [le_mask] picks which secret goes first. *)
Definition ct_select (le_mask : Z) (a b : list Z) : list Z :=
  zip_with (λ x y, u8 (Z.lor (Z.land x le_mask) (Z.land y (u32 (Z.lnot le_mask))))) a b.

(** Reference: the lexicographic order on byte strings. *)
Fixpoint lex_le (a b : list Z) : bool :=
  match a, b with
  | x :: a, y :: b => if x <? y then true else if y <? x then false else lex_le a b
  | _, _ => true
  end.

Lemma lt_bit x y : is_u8 x → is_u8 y → (x ⊖ y) >> 31 = if x <? y then 1 else 0.
Proof.
  intros. rewrite shiftr_div by lia. change (2 ^ 31) with 2147483648.
  destruct (x <? y) eqn:E; conds; cint.
Qed.

Lemma ct_le32_fold a b :
  length a = length b → Forall is_u8 a → Forall is_u8 b →
  (foldl ct_le32_step (0, 1) (zip a b)).2 = (if lex_le a b then 1 else 0) ∧
  ∀ r, r = 0 ∨ r = 1 → (foldl ct_le32_step (1, r) (zip a b)).2 = r.
Proof.
  revert b; induction a as [|x a IH]; intros [|y b] Hl Ha Hb; [done..|].
  inversion_clear Ha. inversion_clear Hb.
  destruct (IH b) as [IH0 IH1]; [simpl in *; lia|done..|].
  cbn [zip zip_with foldl lex_le]. unfold ct_le32_step at 2 4. rewrite !lt_bit by done.
  split.
  - destruct (x <? y) eqn:E1, (y <? x) eqn:E2; conds; [lia|..].
    + exact (IH1 1 (or_intror eq_refl)).
    + exact (IH1 0 (or_introl eq_refl)).
    + exact IH0.
  - intros r [-> | ->]; destruct (x <? y), (y <? x); cbn; by apply IH1; auto.
Qed.

Lemma lex_le_total a b : lex_le a b = false → lex_le b a = true.
Proof.
  revert b; induction a as [|x a IH]; intros [|y b]; simpl; [done..|].
  destruct (x <? y) eqn:E1, (y <? x) eqn:E2; try done. apply IH.
Qed.
Lemma lex_le_antisym a b :
  length a = length b → lex_le a b = true → lex_le b a = true → a = b.
Proof.
  revert b; induction a as [|x a IH]; intros [|y b] Hl; simpl; [done..|].
  destruct (x <? y) eqn:E1, (y <? x) eqn:E2; try done; conds; [lia|].
  intros. f_equal; [lia|]. apply IH; [simpl in *; lia|done..].
Qed.

Lemma land_ones32 x : is_u8 x → Z.land x 4294967295 = x.
Proof. intros. change 4294967295 with (Z.ones 32). rewrite Z.land_ones by lia. cint. Qed.
Lemma ct_select_spec (c : bool) a b :
  length a = length b → Forall is_u8 a → Forall is_u8 b →
  ct_select (0 ⊖ (if c then 1 else 0)) a b = if c then a else b.
Proof.
  unfold ct_select.
  replace (u32 (Z.lnot (0 ⊖ (if c then 1 else 0)))) with (if c then 0 else 4294967295)
    by (by destruct c).
  replace (0 ⊖ (if c then 1 else 0)) with (if c then 4294967295 else 0) by (by destruct c).
  revert b; induction a as [|x a IH]; intros [|y b] Hl Ha Hb; [by destruct c..|].
  inversion_clear Ha. inversion_clear Hb. cbn [zip_with].
  rewrite IH by (simpl in *; first [lia|done]).
  destruct c; rewrite land_ones32, Z.land_0_r by done; rewrite ?Z.lor_0_r, ?Z.lor_0_l;
    by rewrite u8_id.
Qed.

(** ** Key schedule *)

Section Schedule.
Context `{DmCrypto}.

(** [None]: the [-1] return, with the output wiped. *)
Definition dm_compute_ikm (my_id_priv my_eph_priv peer_id_pub peer_eph_pub : list Z)
    : option (list Z) :=
  dh1 ← crypto_x25519_dh my_eph_priv peer_eph_pub;
  dh2 ← crypto_x25519_dh my_id_priv peer_id_pub;
  cross_a ← crypto_x25519_dh my_eph_priv peer_id_pub;
  cross_b ← crypto_x25519_dh my_id_priv peer_eph_pub;
  let le_mask := 0 ⊖ ct_le32 cross_a cross_b in
  Some (dh1 ++ dh2 ++ ct_select le_mask cross_a cross_b ++ ct_select le_mask cross_b cross_a).

Definition dm_build_info (addr_a addr_b ke_epoch : Z) : list Z :=
  let lo := if addr_a <? addr_b then addr_a else addr_b in
  let hi := if addr_a <? addr_b then addr_b else addr_a in
  be32_bytes lo ++ be32_bytes hi ++
  [u8 (Z.land ke_epoch 255); u8 (Z.land (ke_epoch >> 8) 255)].

Definition dm_salt : list Z := str_bytes "bramble-dm-v2".

Definition dm_session_key_from_ikm (ikm : list Z) (addr_a addr_b ke_epoch : Z) : option (list Z) :=
  crypto_hkdf_sha256 dm_salt ikm (dm_build_info addr_a addr_b ke_epoch) 32.

Definition dm_derive_session_key (my_id_priv my_eph_priv peer_id_pub peer_eph_pub : list Z)
    (addr_a addr_b ke_epoch : Z) : option (list Z) :=
  ikm ← dm_compute_ikm my_id_priv my_eph_priv peer_id_pub peer_eph_pub;
  dm_session_key_from_ikm ikm addr_a addr_b ke_epoch.

(** The send/receive chain keys of a root: (lo to hi, hi to lo). *)
Definition dm_derive_chain_pair (rk : list Z) : option (list Z * list Z) :=
  lohi ← crypto_hkdf_sha256 rk [] (str_bytes "bramble-dm-chain-lohi") 32;
  hilo ← crypto_hkdf_sha256 rk [] (str_bytes "bramble-dm-chain-hilo") 32;
  Some (lohi, hilo).

Definition dm_ratchet_init (ikm : list Z) (addr_a addr_b : Z) : option (list Z * list Z * list Z) :=
  rk ← dm_session_key_from_ikm ikm addr_a addr_b 0;
  '(lohi, hilo) ← dm_derive_chain_pair rk;
  Some (rk, lohi, hilo).

(** The message key of an index and the next chain key. *)
Definition dm_ratchet_step (ck : list Z) (index_n : Z) : option (list Z * list Z) :=
  mk ← crypto_hkdf_sha256 ck []
         (str_bytes "bramble-dm-mk" ++ [u8 (index_n >> 8); u8 (Z.land index_n 255)]) 32;
  ck_next ← crypto_hkdf_sha256 ck [] (str_bytes "bramble-dm-ck") 32;
  Some (mk, ck_next).

Definition dm_ratchet_dh (rk_e dh : list Z) (addr_a addr_b new_epoch : Z) : option (list Z) :=
  crypto_hkdf_sha256 rk_e dh (dm_build_info addr_a addr_b new_epoch) 32.

(** ** Short authentication strings *)

(** [snprintf(sas_out, 8, "%07u", v % 10000000)]: the seven digits. *)
Definition dm_sas_render (okm : list Z) : list Z :=
  let v := be32_val okm in
  let d := v mod 10000000 in
  map (λ i, 48 + (d / 10 ^ (6 - Z.of_nat i)) mod 10) (seq 0 7).

Definition dm_derive_sas (session_ikm : list Z) : option (list Z) :=
  okm ← crypto_hkdf_sha256 (str_bytes "bramble-sas") session_ikm [] 4;
  Some (dm_sas_render okm).

Definition dm_derive_identity_sas (id_x25519_a id_x25519_b : list Z) (addr_a addr_b : Z)
    : option (list Z) :=
  let lo := if addr_a <? addr_b then id_x25519_a else id_x25519_b in
  let hi := if addr_a <? addr_b then id_x25519_b else id_x25519_a in
  okm ← crypto_hkdf_sha256 (str_bytes "bramble-sas-id") [] (lo ++ hi) 4;
  Some (dm_sas_render okm).

(** ** Handshake messages *)

Definition KE_TYPE_INIT : Z := 1.
Definition KE_TYPE_RESP : Z := 2.
Definition DM_VERIFY_ERR_PIN_MISMATCH : Z := -2.

Record bramble_identity_t := mk_identity {
  id_private_key : list Z; id_public_key : list Z;
  id_ed25519_public_key : list Z; id_ed25519_private_key : list Z;
  id_address : Z; id_pubkey_hash : Z }.

Definition dm_derive_ke_tag (label ikm : list Z) (addr_a addr_b ke_epoch : Z)
    (transcript : list Z) : option (list Z) :=
  let info := dm_build_info addr_a addr_b ke_epoch in
  if (32 <? length label + length info)%nat then None else
  key ← crypto_hkdf_sha256 dm_salt ikm (label ++ info) 32;
  full_mac ← crypto_hmac_sha256 key transcript;
  Some (take 16 full_mac).

Definition ke_init_label : list Z := str_bytes "bramble-ke-init".
Definition ke_confirm_label : list Z := str_bytes "bramble-ke-confirm".

(** The bytes the two tags cover. *)
Definition transcript_1 (addr_init addr_resp : Z) (eph_init id_init : list Z) : list Z :=
  be32_bytes addr_init ++ be32_bytes addr_resp ++ eph_init ++ id_init.
Definition transcript_2 (addr_init addr_resp : Z) (eph_init id_init eph_resp id_resp : list Z)
    : list Z :=
  be32_bytes addr_init ++ be32_bytes addr_resp ++ eph_init ++ id_init ++ eph_resp ++ id_resp.

Definition ke_zero_header : bramble_header_t := mk_header 0 0 0 0 0 0.

(** [None]: the [-1] return. *)
Definition dm_build_init (my_id : bramble_identity_t) (my_eph_pub my_eph_priv : list Z)
    (peer_addr ke_epoch : Z) (peer_id_pub_or_null : option (list Z))
    : option bramble_key_exchange_t :=
  let out := mk_key_exchange ke_zero_header (id_address my_id) my_eph_pub (id_public_key my_id)
               (u8 (Z.land ke_epoch 255)) KE_TYPE_INIT in
  match peer_id_pub_or_null with
  | None => Some (out (replicate 16 0))
  | Some peer_id_pub =>
      dh2 ← crypto_x25519_dh (id_private_key my_id) peer_id_pub;
      dh3 ← crypto_x25519_dh my_eph_priv peer_id_pub;
      tag ← dm_derive_ke_tag ke_init_label (dh2 ++ dh3) (id_address my_id) peer_addr ke_epoch
              (transcript_1 (id_address my_id) peer_addr my_eph_pub (id_public_key my_id));
      Some (out tag)
  end.

Definition pin_mismatch (key : list Z) (pinned : option (list Z)) : bool :=
  match pinned with Some p => negb (bool_decide (key = p)) | None => false end.

(** [tag_check expect got]: [crypto_ct_memeq(expect, got, 16) ? 0 : -1]; an
    expected tag of [None] is a derivation that failed. *)
Definition tag_check (expect : option (list Z)) (got : list Z) : option Z :=
  match expect with
  | None => Some (-1)
  | Some e => ok ← crypto_ct_memeq e got 16; Some (if (ok : bool) then 0 else -1)
  end.

(** [peer_id]: the cached identity key of a known peer ([have_peer_id]). *)
Definition dm_verify_init (msg : bramble_key_exchange_t) (my_id : bramble_identity_t)
    (peer_id pinned : option (list Z)) : option Z :=
  if negb (ke_type msg =? KE_TYPE_INIT) then Some (-1)
  else if pin_mismatch (ke_long_term_pubkey msg) pinned then Some DM_VERIFY_ERR_PIN_MISMATCH
  else match peer_id with
       | None => Some 0
       | Some peer_id_pub =>
           let expect :=
             dh2 ← crypto_x25519_dh (id_private_key my_id) peer_id_pub;
             dh3 ← crypto_x25519_dh (id_private_key my_id) (ke_ephemeral_pubkey msg);
             dm_derive_ke_tag ke_init_label (dh2 ++ dh3) (ke_src_addr msg) (id_address my_id)
               (ke_key_id msg)
               (transcript_1 (ke_src_addr msg) (id_address my_id) (ke_ephemeral_pubkey msg)
                  (ke_long_term_pubkey msg)) in
           tag_check expect (ke_auth_tag msg)
       end.

Definition dm_build_resp (my_id : bramble_identity_t) (my_eph_pub my_eph_priv : list Z)
    (init : bramble_key_exchange_t) (ke_epoch : Z)
    : option (bramble_key_exchange_t * list Z) :=
  ikm ← dm_compute_ikm (id_private_key my_id) my_eph_priv (ke_long_term_pubkey init)
          (ke_ephemeral_pubkey init);
  session_key ← dm_session_key_from_ikm ikm (id_address my_id) (ke_src_addr init) ke_epoch;
  tag ← dm_derive_ke_tag ke_confirm_label ikm (ke_src_addr init) (id_address my_id) ke_epoch
          (transcript_2 (ke_src_addr init) (id_address my_id) (ke_ephemeral_pubkey init)
             (ke_long_term_pubkey init) my_eph_pub (id_public_key my_id));
  Some (mk_key_exchange ke_zero_header (id_address my_id) my_eph_pub (id_public_key my_id)
          (u8 (Z.land ke_epoch 255)) KE_TYPE_RESP tag, session_key).

(** The return code and, on 0, the session key. *)
Definition dm_verify_resp (resp : bramble_key_exchange_t) (my_id : bramble_identity_t)
    (my_eph_priv my_eph_pub : list Z) (ke_epoch : Z) (pinned : option (list Z))
    : option (Z * option (list Z)) :=
  if negb (ke_type resp =? KE_TYPE_RESP) then Some (-1, None)
  else if pin_mismatch (ke_long_term_pubkey resp) pinned
  then Some (DM_VERIFY_ERR_PIN_MISMATCH, None)
  else
    match dm_compute_ikm (id_private_key my_id) my_eph_priv (ke_long_term_pubkey resp)
            (ke_ephemeral_pubkey resp) with
    | None => Some (-1, None)
    | Some ikm =>
        match dm_session_key_from_ikm ikm (id_address my_id) (ke_src_addr resp) ke_epoch with
        | None => Some (-1, None)
        | Some local_key =>
            rc ← tag_check
                   (dm_derive_ke_tag ke_confirm_label ikm (id_address my_id) (ke_src_addr resp)
                      ke_epoch
                      (transcript_2 (id_address my_id) (ke_src_addr resp) my_eph_pub
                         (id_public_key my_id) (ke_ephemeral_pubkey resp)
                         (ke_long_term_pubkey resp)))
                   (ke_auth_tag resp);
            Some (rc, if rc =? 0 then Some local_key else None)
        end
    end.
End Schedule.

(** ** Agreement *)

Section Agreement.
Context `{DmCryptoLaws}.

(** The constant-time code sorts the two cross secrets. *)
Lemma ikm_sorted d1 d2 a b :
  length a = 32%nat → length b = 32%nat → Forall is_u8 a → Forall is_u8 b →
  d1 ++ d2 ++ ct_select (0 ⊖ ct_le32 a b) a b ++ ct_select (0 ⊖ ct_le32 a b) b a =
  d1 ++ d2 ++ (if lex_le a b then a ++ b else b ++ a).
Proof.
  intros La Lb Ha Hb. unfold ct_le32.
  destruct (ct_le32_fold a b) as [-> _]; [by rewrite La|done..|].
  rewrite !ct_select_spec by (first [by rewrite La|by rewrite Lb|done]).
  by destruct (lex_le a b).
Qed.
Lemma lex_sort_comm a b :
  length a = length b → (if lex_le a b then a ++ b else b ++ a) = (if lex_le b a then b ++ a else a ++ b).
Proof.
  intros Hl. destruct (lex_le a b) eqn:E1, (lex_le b a) eqn:E2; try done.
  - by rewrite (lex_le_antisym a b).
  - apply lex_le_total in E1. congruence.
Qed.

Lemma dm_compute_ikm_agree ia ea ib eb :
  dm_compute_ikm ia ea (x25519_public ib) (x25519_public eb) =
  dm_compute_ikm ib eb (x25519_public ia) (x25519_public ea).
Proof.
  unfold dm_compute_ikm.
  rewrite (x25519_comm ea eb), (x25519_comm ia ib), (x25519_comm ea ib), (x25519_comm ia eb).
  destruct (crypto_x25519_dh eb (x25519_public ea)) as [d1|]; [|done].
  destruct (crypto_x25519_dh ib (x25519_public ia)) as [d2|]; [|done].
  destruct (crypto_x25519_dh ib (x25519_public ea)) as [a|] eqn:Ea,
    (crypto_x25519_dh eb (x25519_public ia)) as [b|] eqn:Eb; cbn; [|done..].
  apply x25519_length in Ea as [La Ha], Eb as [Lb Hb].
  f_equal. rewrite !ikm_sorted by done. f_equal. f_equal. apply lex_sort_comm. lia.
Qed.

Lemma dm_build_info_comm a b e : dm_build_info a b e = dm_build_info b a e.
Proof.
  unfold dm_build_info. destruct (a <? b) eqn:E1, (b <? a) eqn:E2; conds; try done; [lia|].
  assert (a = b) as -> by lia. done.
Qed.

Lemma dm_key_comm ikm a b e :
  dm_session_key_from_ikm ikm a b e = dm_session_key_from_ikm ikm b a e.
Proof. unfold dm_session_key_from_ikm. by rewrite dm_build_info_comm. Qed.
Lemma ke_tag_comm label ikm a b e t :
  dm_derive_ke_tag label ikm a b e t = dm_derive_ke_tag label ikm b a e t.
Proof. unfold dm_derive_ke_tag. by rewrite dm_build_info_comm. Qed.

Lemma ke_tag_length label ikm a b e t tag :
  dm_derive_ke_tag label ikm a b e t = Some tag → length tag = 16%nat ∧ Forall is_u8 tag.
Proof.
  unfold dm_derive_ke_tag. split_if; [done|].
  intros (key & _ & (mac & Hm & [= <-])%bind_Some)%bind_Some.
  apply hmac256_length in Hm as [Hl Hb]. split; [rewrite length_take; lia|by apply Forall_take].
Qed.

Lemma tag_check_spec label ikm a b e t got :
  length got = 16%nat → Forall is_u8 got →
  tag_check (dm_derive_ke_tag label ikm a b e t) got =
  Some (if bool_decide (dm_derive_ke_tag label ikm a b e t = Some got) then 0 else -1).
Proof.
  intros Hl Hb. unfold tag_check. destruct (dm_derive_ke_tag _ _ _ _ _ _) as [e'|] eqn:E; [|done].
  apply ke_tag_length in E as [Hle Hbe]. rewrite crypto_ct_memeq_spec by done. cbn.
  f_equal. destruct (decide (e' = got)) as [->|Hne].
  - by rewrite !bool_decide_eq_true_2.
  - rewrite !bool_decide_eq_false_2 by congruence. done.
Qed.

Lemma tag_check_zero label ikm a b e t got rc :
  length got = 16%nat → Forall is_u8 got →
  tag_check (dm_derive_ke_tag label ikm a b e t) got = Some rc → rc = 0 →
  dm_derive_ke_tag label ikm a b e t = Some got.
Proof. intros Hl Hb. rewrite tag_check_spec by done. case_bool_decide; [done|]. by intros [= <-]. Qed.

Lemma u8_epoch e : is_u8 e → u8 (Z.land e 255) = e.
Proof.
  intros. change 255 with (Z.ones 8). rewrite Z.land_ones by lia. change (2 ^ 8) with 256. cint.
Qed.

Definition honest (i : bramble_identity_t) : Prop :=
  id_public_key i = x25519_public (id_private_key i).
Definition pin_ok (key : list Z) (pinned : option (list Z)) : Prop :=
  pinned = None ∨ pinned = Some key.
Lemma pin_ok_match key pinned : pin_ok key pinned → pin_mismatch key pinned = false.
Proof. intros [-> | ->]; simpl; [done|]. by rewrite bool_decide_eq_true_2. Qed.

(** An honest INIT verifies; [known]: both sides hold each other's key. *)
Lemma init_verifies A B ea e (known : bool) pin init :
  honest A → honest B → is_u8 e → pin_ok (id_public_key A) pin →
  dm_build_init A (x25519_public ea) ea (id_address B) e
    (if known then Some (id_public_key B) else None) = Some init →
  dm_verify_init init B (if known then Some (id_public_key A) else None) pin = Some 0 ∧
  ke_src_addr init = id_address A ∧ ke_ephemeral_pubkey init = x25519_public ea ∧
  ke_long_term_pubkey init = id_public_key A ∧ ke_key_id init = e.
Proof.
  intros HA HB He Hpin Hb. unfold dm_build_init in Hb. rewrite u8_epoch in Hb by done.
  unfold dm_verify_init. destruct known.
  - apply bind_Some in Hb as (dh2 & H2 & Hb). apply bind_Some in Hb as (dh3 & H3 & Hb).
    apply bind_Some in Hb as (tag & Ht & [= <-]).
    pose proof (ke_tag_length _ _ _ _ _ _ _ Ht) as [Hl Hbt].
    cbn [ke_type ke_long_term_pubkey ke_ephemeral_pubkey ke_src_addr ke_key_id ke_auth_tag].
    rewrite pin_ok_match by done. split; [|done].
    assert (crypto_x25519_dh (id_private_key B) (id_public_key A) = Some dh2) as ->.
    { by rewrite HA, x25519_comm, <- HB. }
    rewrite x25519_comm, <- HB, H3. cbn [mbind option_bind].
    rewrite tag_check_spec by done. by rewrite bool_decide_eq_true_2.
  - injection Hb as <-. cbn. by rewrite pin_ok_match.
Qed.

Lemma resp_verifies A B ea eb init e pin resp k :
  honest A → honest B → is_u8 e → pin_ok (id_public_key B) pin →
  ke_src_addr init = id_address A → ke_ephemeral_pubkey init = x25519_public ea →
  ke_long_term_pubkey init = id_public_key A →
  dm_build_resp B (x25519_public eb) eb init e = Some (resp, k) →
  dm_verify_resp resp A ea (x25519_public ea) (ke_key_id resp) pin = Some (0, Some k) ∧
  ke_key_id resp = e ∧ ke_ephemeral_pubkey resp = x25519_public eb ∧
  ke_long_term_pubkey resp = id_public_key B.
Proof.
  intros HA HB He Hpin Hs Heph Hlt Hr. unfold dm_build_resp in Hr. rewrite Hs, Heph, Hlt in Hr.
  apply bind_Some in Hr as (ikm & Hi & Hr). apply bind_Some in Hr as (key & Hk & Hr).
  apply bind_Some in Hr as (tag & Ht & [= <- <-]).
  pose proof (ke_tag_length _ _ _ _ _ _ _ Ht) as [Hl Hbt].
  unfold dm_verify_resp. cbn [ke_type ke_long_term_pubkey ke_ephemeral_pubkey ke_src_addr ke_key_id ke_auth_tag].
  rewrite pin_ok_match, u8_epoch by done. split; [|done].
  rewrite HB, dm_compute_ikm_agree, <- HA, Hi, dm_key_comm, Hk, <- HB.
  rewrite tag_check_spec by done. by rewrite bool_decide_eq_true_2.
Qed.

(** ** The properties *)

(** The branchless comparison is the lexicographic order, so the 128-byte
    handshake secret is the two symmetric Diffie-Hellman values followed by the
    cross values in ascending order; it is the same computed by either party, and
    so is the identity fingerprint. *)
Theorem handshake_secret_canonical ia ea ib eb addr_a addr_b :
  (∀ a b, length a = 32%nat → length b = 32%nat → Forall is_u8 a → Forall is_u8 b →
     ct_le32 a b = if lex_le a b then 1 else 0) ∧
  (∀ p1 p2 ikm, dm_compute_ikm ia ea p1 p2 = Some ikm →
     ∃ d1 d2 a b, crypto_x25519_dh ea p2 = Some d1 ∧ crypto_x25519_dh ia p1 = Some d2 ∧
       crypto_x25519_dh ea p1 = Some a ∧ crypto_x25519_dh ia p2 = Some b ∧
       ikm = d1 ++ d2 ++ (if lex_le a b then a ++ b else b ++ a) ∧ length ikm = 128%nat) ∧
  dm_compute_ikm ia ea (x25519_public ib) (x25519_public eb) =
    dm_compute_ikm ib eb (x25519_public ia) (x25519_public ea) ∧
  (addr_a ≠ addr_b → ∀ ka kb,
     dm_derive_identity_sas ka kb addr_a addr_b = dm_derive_identity_sas kb ka addr_b addr_a).
Proof.
  split; [|split; [|split; [apply dm_compute_ikm_agree|]]].
  - intros a b La Lb Ha Hb. apply (ct_le32_fold a b); [by rewrite La|done..].
  - intros p1 p2 ikm Hi. unfold dm_compute_ikm in Hi.
    apply bind_Some in Hi as (d1 & H1 & Hi). apply bind_Some in Hi as (d2 & H2 & Hi).
    apply bind_Some in Hi as (a & Ha & Hi). apply bind_Some in Hi as (b & Hb & [= <-]).
    pose proof (x25519_length _ _ _ H1) as [L1 _]. pose proof (x25519_length _ _ _ H2) as [L2 _].
    pose proof (x25519_length _ _ _ Ha) as [La Ua]. pose proof (x25519_length _ _ _ Hb) as [Lb Ub].
    exists d1, d2, a, b. rewrite ikm_sorted by done. do 4 (split; [done|]). split; [done|].
    destruct (lex_le a b); rewrite !length_app, L1, L2, La, Lb; done.
  - intros Hne ka kb. unfold dm_derive_identity_sas.
    destruct (addr_a <? addr_b) eqn:E1, (addr_b <? addr_a) eqn:E2; conds; try done; lia.
Qed.

(** C11. A handshake between two honest nodes, at any epoch below 256, on first
    contact or with each other's keys cached, pinned or not: the INIT verifies at
    the responder, the RESP at the initiator, both hold the same session key, and
    both compute the same secret for the ratchet. *)
Theorem handshake_agreement A B ea eb e (known : bool) pinA pinB init
    (HA : honest A) (HB : honest B) (He : is_u8 e)
    (HpA : pin_ok (id_public_key A) pinA) (HpB : pin_ok (id_public_key B) pinB)
    (Hinit : dm_build_init A (x25519_public ea) ea (id_address B) e
               (if known then Some (id_public_key B) else None) = Some init) :
  dm_verify_init init B (if known then Some (id_public_key A) else None) pinA = Some 0 ∧
  ∀ resp k, dm_build_resp B (x25519_public eb) eb init (ke_key_id init) = Some (resp, k) →
    dm_verify_resp resp A ea (x25519_public ea) (ke_key_id resp) pinB = Some (0, Some k) ∧
    ke_key_id resp = e ∧
    dm_compute_ikm (id_private_key A) ea (ke_long_term_pubkey resp) (ke_ephemeral_pubkey resp) =
    dm_compute_ikm (id_private_key B) eb (ke_long_term_pubkey init) (ke_ephemeral_pubkey init).
Proof.
  destruct (init_verifies A B ea e known pinA init HA HB He HpA Hinit) as (Hv & Hs & Hep & Hlt & Hk).
  split; [done|]. intros resp k Hr. rewrite Hk in Hr.
  destruct (resp_verifies A B ea eb init e pinB resp k HA HB He HpB Hs Hep Hlt Hr) as (Hvr & Hkr & Her & Hlr).
  split; [done|]. split; [done|]. rewrite Hlr, Her, Hlt, Hep, HA, HB. apply dm_compute_ikm_agree.
Qed.

Lemma verify_init_sound my_id msg peer_id pinned :
  length (ke_auth_tag msg) = 16%nat → Forall is_u8 (ke_auth_tag msg) →
  dm_verify_init msg my_id peer_id pinned = Some 0 →
  ke_type msg = KE_TYPE_INIT ∧ pin_mismatch (ke_long_term_pubkey msg) pinned = false ∧
  ∀ pk, peer_id = Some pk → ∃ dh2 dh3,
    crypto_x25519_dh (id_private_key my_id) pk = Some dh2 ∧
    crypto_x25519_dh (id_private_key my_id) (ke_ephemeral_pubkey msg) = Some dh3 ∧
    dm_derive_ke_tag ke_init_label (dh2 ++ dh3) (ke_src_addr msg) (id_address my_id) (ke_key_id msg)
      (transcript_1 (ke_src_addr msg) (id_address my_id) (ke_ephemeral_pubkey msg)
         (ke_long_term_pubkey msg)) = Some (ke_auth_tag msg).
Proof.
  intros Hl Hb. unfold dm_verify_init.
  destruct (ke_type msg =? KE_TYPE_INIT) eqn:Ht; [|done]. conds. cbn [negb].
  destruct (pin_mismatch _ _) eqn:Hp; [done|]. intros Hv. split; [done|]. split; [done|].
  intros pk ->.
  destruct (crypto_x25519_dh _ pk) as [dh2|] eqn:H2; [|done]. cbn [mbind option_bind] in Hv.
  destruct (crypto_x25519_dh _ (ke_ephemeral_pubkey msg)) as [dh3|] eqn:H3; [|done].
  cbn [mbind option_bind] in Hv. exists dh2, dh3. split; [done|]. split; [done|].
  by eapply tag_check_zero.
Qed.

Lemma verify_resp_sound my_id resp eph_priv eph_pub e pinned k :
  length (ke_auth_tag resp) = 16%nat → Forall is_u8 (ke_auth_tag resp) →
  dm_verify_resp resp my_id eph_priv eph_pub e pinned = Some (0, k) →
  ke_type resp = KE_TYPE_RESP ∧ pin_mismatch (ke_long_term_pubkey resp) pinned = false ∧
  ∃ ikm key, k = Some key ∧
    dm_compute_ikm (id_private_key my_id) eph_priv (ke_long_term_pubkey resp)
      (ke_ephemeral_pubkey resp) = Some ikm ∧
    dm_session_key_from_ikm ikm (id_address my_id) (ke_src_addr resp) e = Some key ∧
    dm_derive_ke_tag ke_confirm_label ikm (id_address my_id) (ke_src_addr resp) e
      (transcript_2 (id_address my_id) (ke_src_addr resp) eph_pub (id_public_key my_id)
         (ke_ephemeral_pubkey resp) (ke_long_term_pubkey resp)) = Some (ke_auth_tag resp).
Proof.
  intros Hl Hb. unfold dm_verify_resp.
  destruct (ke_type resp =? KE_TYPE_RESP) eqn:Ht; [|done]. conds. cbn [negb].
  destruct (pin_mismatch _ _) eqn:Hp; [done|].
  destruct (dm_compute_ikm _ _ _ _) as [ikm|]; [|done].
  destruct (dm_session_key_from_ikm _ _ _ _) as [key|] eqn:Hk; [|done].
  intros (rc & Hc & [= -> <-])%bind_Some. split; [done|]. split; [done|].
  exists ikm, key. do 3 (split; [done|]). by eapply tag_check_zero.
Qed.

(** What acceptance means.  An accepted INIT or RESP has its type and does not
    contradict a pin; a known peer's INIT and every RESP carry the first 16 bytes
    of an HMAC, under a key derived from Diffie-Hellman secrets of this node, over
    both addresses and all public keys exchanged; and a rekey INIT to an epoch
    above 255, whose number the message carries in one byte, is accepted only if
    its tag is also the tag of the epoch modulo 256. *)
Theorem handshake_acceptance my_id :
  (∀ msg peer_id pinned, length (ke_auth_tag msg) = 16%nat → Forall is_u8 (ke_auth_tag msg) →
     dm_verify_init msg my_id peer_id pinned = Some 0 →
     ke_type msg = KE_TYPE_INIT ∧ pin_mismatch (ke_long_term_pubkey msg) pinned = false ∧
     ∀ pk, peer_id = Some pk → ∃ dh2 dh3,
       crypto_x25519_dh (id_private_key my_id) pk = Some dh2 ∧
       crypto_x25519_dh (id_private_key my_id) (ke_ephemeral_pubkey msg) = Some dh3 ∧
       dm_derive_ke_tag ke_init_label (dh2 ++ dh3) (ke_src_addr msg) (id_address my_id) (ke_key_id msg)
         (transcript_1 (ke_src_addr msg) (id_address my_id) (ke_ephemeral_pubkey msg)
            (ke_long_term_pubkey msg)) = Some (ke_auth_tag msg)) ∧
  (∀ resp eph_priv eph_pub e pinned k, length (ke_auth_tag resp) = 16%nat →
     Forall is_u8 (ke_auth_tag resp) →
     dm_verify_resp resp my_id eph_priv eph_pub e pinned = Some (0, k) →
     ke_type resp = KE_TYPE_RESP ∧ pin_mismatch (ke_long_term_pubkey resp) pinned = false ∧
     ∃ ikm key, k = Some key ∧
       dm_compute_ikm (id_private_key my_id) eph_priv (ke_long_term_pubkey resp)
         (ke_ephemeral_pubkey resp) = Some ikm ∧
       dm_session_key_from_ikm ikm (id_address my_id) (ke_src_addr resp) e = Some key ∧
       dm_derive_ke_tag ke_confirm_label ikm (id_address my_id) (ke_src_addr resp) e
         (transcript_2 (id_address my_id) (ke_src_addr resp) eph_pub (id_public_key my_id)
            (ke_ephemeral_pubkey resp) (ke_long_term_pubkey resp)) = Some (ke_auth_tag resp)) ∧
  (∀ A ea e init pinned, honest A → honest my_id →
     dm_build_init A (x25519_public ea) ea (id_address my_id) e (Some (id_public_key my_id)) = Some init →
     dm_verify_init init my_id (Some (id_public_key A)) pinned = Some 0 →
     ∃ dh2 dh3, let tag_at n := dm_derive_ke_tag ke_init_label (dh2 ++ dh3) (id_address A)
                                  (id_address my_id) n
                                  (transcript_1 (id_address A) (id_address my_id) (x25519_public ea)
                                     (id_public_key A)) in
       crypto_x25519_dh (id_private_key A) (id_public_key my_id) = Some dh2 ∧
       crypto_x25519_dh ea (id_public_key my_id) = Some dh3 ∧
       tag_at e = Some (ke_auth_tag init) ∧ tag_at (u8 (Z.land e 255)) = Some (ke_auth_tag init)).
Proof.
  split; [intros; by eapply verify_init_sound|]. split; [intros; by eapply verify_resp_sound|].
  intros A ea e init pinned HA Hmy Hb Hv. unfold dm_build_init in Hb.
  apply bind_Some in Hb as (dh2 & H2 & Hb). apply bind_Some in Hb as (dh3 & H3 & Hb).
  apply bind_Some in Hb as (tag & Ht & [= <-]).
  pose proof (ke_tag_length _ _ _ _ _ _ _ Ht) as [Hl Hu].
  apply verify_init_sound in Hv as (_ & _ & Hs); [|done..].
  destruct (Hs _ eq_refl) as (dh2' & dh3' & H2' & H3' & Ht'). cbn in H2', H3', Ht' |- *.
  rewrite HA, x25519_comm, <- Hmy, H2 in H2'. rewrite x25519_comm, <- Hmy, H3 in H3'.
  injection H2' as <-. injection H3' as <-. exists dh2, dh3. done.
Qed.
End Agreement.


(** ** A concrete instance

    Small executable functions with the laws, on which the definitions run. *)

Definition mix (l : list Z) (n : nat) : list Z :=
  map (λ i, u8 (foldl (λ h b, (h * 31 + b + 7 + Z.of_nat i) mod 251) (Z.of_nat i) l)) (seq 0 n).
Lemma mix_bytes l n : length (mix l n) = n ∧ Forall is_u8 (mix l n).
Proof.
  unfold mix. split; [by rewrite length_map, length_seq|].
  apply Forall_map, list.Forall_forall. intros i _. apply u8_range.
Qed.

Definition toy_dh (a b : list Z) : list Z :=
  map (λ i, u8 (nth i a 0 + nth i b 0)) (seq 0 32).
Definition toy_tag (k n pt aad : list Z) : list Z := mix (k ++ 256 :: n ++ 257 :: pt ++ 258 :: aad) 16.

Definition toy_crypto : DmCrypto :=
  {| crypto_x25519_dh a b := Some (toy_dh a b);
     x25519_public a := a;
     crypto_hkdf_sha256 salt ikm info n := Some (mix (salt ++ 256 :: ikm ++ 257 :: info) n);
     crypto_hmac_sha256 k m := Some (mix (k ++ 256 :: m) 32);
     crypto_aes256gcm_encrypt k n pt aad := Some (pt, toy_tag k n pt aad);
     crypto_aes256gcm_decrypt k n ct aad tag :=
       if decide (toy_tag k n ct aad = tag) then Some ct else None |}.

#[global] Instance toy_crypto_laws : @DmCryptoLaws toy_crypto.
Proof.
  split; simpl.
  - intros a b. f_equal. unfold toy_dh. apply map_ext. intros i. by rewrite Z.add_comm.
  - intros a b s [= <-]. unfold toy_dh. split; [by rewrite length_map, length_seq|].
    apply Forall_map, list.Forall_forall. intros i _. apply u8_range.
  - intros salt ikm info n k [= <-]. apply mix_bytes.
  - intros k m d [= <-]. apply mix_bytes.
  - intros k n pt aad ct tag [= <- <-]. by rewrite decide_True.
  - intros k n pt aad ct tag [= <- <-]. split; [done|]. apply mix_bytes.
Qed.

Definition demo_id (k addr : Z) : bramble_identity_t :=
  mk_identity (replicate 32 k) (replicate 32 k) [] [] addr 0.

Lemma handshake_agreement_witness :
  let c := toy_crypto in
  ∃ init, dm_build_init (demo_id 3 10) (replicate 32 5) (replicate 32 5) 20 7
            (Some (replicate 32 4)) = Some init ∧
    dm_verify_init init (demo_id 4 20) (Some (replicate 32 3)) (Some (replicate 32 3)) = Some 0.
Proof.
  intros c. eexists. split; [reflexivity|].
  apply (handshake_agreement (demo_id 3 10) (demo_id 4 20) (replicate 32 5) (replicate 32 6) 7 true
    (Some (replicate 32 3)) None).
  - reflexivity.
  - reflexivity.
  - vm_compute. split; [discriminate|reflexivity].
  - by right.
  - by left.
  - reflexivity.
Defined.

Lemma handshake_secret_canonical_witness :
  let c := toy_crypto in
  dm_compute_ikm (replicate 32 1) (replicate 32 2) (replicate 32 3) (replicate 32 4) =
  dm_compute_ikm (replicate 32 3) (replicate 32 4) (replicate 32 1) (replicate 32 2).
Proof.
  intros c. exact (proj1 (proj2 (proj2 (handshake_secret_canonical (replicate 32 1) (replicate 32 2)
    (replicate 32 3) (replicate 32 4) 10 20)))).
Defined.
