(* ===== verification/DmRatchet.v ===== *)
(** * The message ratchet of direct messages
    ([components/dm_session/dm_session.c], sessions and chains)

    A session's two key chains, the encryption of a message under the next key
    of the send chain, the reception of a frame at the index its header names
    with the cache of skipped keys, and the change of epoch with the retained
    previous receive chain. *)

From stdpp Require Import base strings numbers option decidable list.
From S2P Require Import Prelude Tables Packet PacketSpec NetworkKey DmCrypto.

Definition DM_MAX_SKIP : nat := 16.
Definition DM_EPOCH_GRACE_MSGS : Z := Z.of_nat DM_MAX_SKIP.
Definition DM_RATCHET_HEADER_SIZE : nat := 3.
Definition DM_DECRYPT_OK : Z := 0.
Definition DM_DECRYPT_FAIL : Z := -1.
Definition DM_DECRYPT_TOO_FAR : Z := -3.

Inductive dm_state := DM_STATE_NONE | DM_STATE_HANDSHAKING | DM_STATE_ACTIVE.
#[global] Instance dm_state_eq_dec : EqDecision dm_state.
Proof. solve_decision. Defined.

Record dm_chain_t := mk_chain { ch_ck : list Z; ch_index : Z; ch_epoch : Z; ch_valid : bool }.
Record dm_skip_entry_t := mk_skip { sk_index : Z; sk_mk : list Z; sk_used : bool }.
Record dm_ratchet_t := mk_ratchet {
  r_rk : list Z; r_send : dm_chain_t; r_recv : dm_chain_t; r_skip : list dm_skip_entry_t;
  r_prev_recv : dm_chain_t; r_prev_skip : list dm_skip_entry_t; r_new_epoch_msgs : Z }.
Record dm_session_t := mk_session {
  ss_peer_addr : Z; ss_session_key : list Z; ss_peer_id_pub : list Z; ss_established_ms : Z;
  ss_last_active_ms : Z; ss_msg_count : Z; ss_ke_epoch : Z; ss_state : dm_state;
  ss_verified : bool; ss_ratchet : dm_ratchet_t }.

Definition chain_zero : dm_chain_t := mk_chain (replicate 32 0) 0 0 false.
Definition skip_zero : dm_skip_entry_t := mk_skip 0 (replicate 32 0) false.
Definition skip_init : list dm_skip_entry_t := replicate DM_MAX_SKIP skip_zero.
Definition ratchet_zero : dm_ratchet_t :=
  mk_ratchet (replicate 32 0) chain_zero chain_zero skip_init chain_zero skip_init 0.
Definition session_zero : dm_session_t :=
  mk_session 0 (replicate 32 0) (replicate 32 0) 0 0 0 0 DM_STATE_NONE false ratchet_zero.
#[global] Instance skip_inhabited : Inhabited dm_skip_entry_t := populate skip_zero.
#[global] Instance session_inhabited : Inhabited dm_session_t := populate session_zero.

Definition set_ratchet (s : dm_session_t) (key : list Z) (epoch : Z) (r : dm_ratchet_t) : dm_session_t :=
  mk_session (ss_peer_addr s) key (ss_peer_id_pub s) (ss_established_ms s) (ss_last_active_ms s)
    (ss_msg_count s) epoch (ss_state s) (ss_verified s) r.
Definition with_ratchet (s : dm_session_t) (r : dm_ratchet_t) : dm_session_t :=
  set_ratchet s (ss_session_key s) (ss_ke_epoch s) r.

Section Ratchet.
Context `{DmCrypto}.

(** ** Establishing the chains *)

(** The send and receive chain of the two derived keys. *)
Definition dm_ratchet_install_chains (ck_lohi ck_hilo : list Z) (self_is_lo : bool) (epoch : Z)
    : dm_chain_t * dm_chain_t :=
  (mk_chain (if self_is_lo then ck_lohi else ck_hilo) 0 (u8 (Z.land epoch 255)) true,
   mk_chain (if self_is_lo then ck_hilo else ck_lohi) 0 (u8 (Z.land epoch 255)) true).

(** The wipe both failure paths share. *)
Definition ratchet_wiped (s : dm_session_t) : dm_session_t :=
  set_ratchet s (replicate 32 0) (ss_ke_epoch s) ratchet_zero.

Definition dm_session_ratchet_init_state (s : dm_session_t) (ikm : list Z) (addr_self addr_peer : Z)
    : Z * dm_session_t :=
  let addr_a := if addr_self <? addr_peer then addr_self else addr_peer in
  let addr_b := if addr_self <? addr_peer then addr_peer else addr_self in
  match dm_ratchet_init ikm addr_a addr_b with
  | None => (-1, ratchet_wiped s)
  | Some (rk, ck_lohi, ck_hilo) =>
      let self_is_lo := addr_self =? addr_a in
      let '(send, recv) := dm_ratchet_install_chains ck_lohi ck_hilo self_is_lo (ss_ke_epoch s) in
      (0, set_ratchet s rk (ss_ke_epoch s)
            (mk_ratchet rk send recv skip_init chain_zero skip_init 0))
  end.

Definition dm_session_epoch_bump (s : dm_session_t) (new_dh : list Z) (addr_self addr_peer new_epoch : Z)
    : Z * dm_session_t :=
  let addr_a := if addr_self <? addr_peer then addr_self else addr_peer in
  let addr_b := if addr_self <? addr_peer then addr_peer else addr_self in
  let derived :=
    rk_next ← dm_ratchet_dh (r_rk (ss_ratchet s)) new_dh addr_a addr_b new_epoch;
    '(ck_lohi, ck_hilo) ← dm_derive_chain_pair rk_next;
    Some (rk_next, ck_lohi, ck_hilo) in
  match derived with
  | None => (-1, ratchet_wiped s)
  | Some (rk_next, ck_lohi, ck_hilo) =>
      let self_is_lo := addr_self =? addr_a in
      let '(send, recv) := dm_ratchet_install_chains ck_lohi ck_hilo self_is_lo new_epoch in
      (0, set_ratchet s rk_next new_epoch
            (mk_ratchet rk_next send recv skip_init (r_recv (ss_ratchet s))
               (r_skip (ss_ratchet s)) 0))
  end.

(** ** Sending *)

(** The base associated data; [None]: its builder's error return. *)
Definition dm_base_aad (h : bramble_header_t) (src_addr : Z) : option (list Z) :=
  match bramble_build_aead_aad h src_addr (replicate (HEADER_SIZE + 4) 0) (HEADER_SIZE + 4) with
  | Some (ESP_OK, aad) => Some aad
  | _ => None
  end.

Definition ratchet_header (epoch index : Z) : list Z :=
  [epoch; u8 (index >> 8); u8 (Z.land index 255)].

Definition with_send (r : dm_ratchet_t) (send : dm_chain_t) : dm_ratchet_t :=
  mk_ratchet (r_rk r) send (r_recv r) (r_skip r) (r_prev_recv r) (r_prev_skip r)
    (r_new_epoch_msgs r).

(** On success the framed ciphertext (header, then ciphertext) and the tag. *)
Definition dm_session_ratchet_encrypt (s : dm_session_t) (h : bramble_header_t) (src_addr : Z)
    (pt nonce : list Z) : option (list Z * list Z) * dm_session_t :=
  let send := r_send (ss_ratchet s) in
  if negb (ch_valid send) then (None, s)
  else if (255 <? length pt)%nat then (None, s)
  else match dm_ratchet_step (ch_ck send) (ch_index send) with
       | None => (None, s)
       | Some (mk, ck_next) =>
           let hdr := ratchet_header (ch_epoch send) (ch_index send) in
           match dm_base_aad h src_addr with
           | None => (None, s)
           | Some base =>
               match crypto_aes256gcm_encrypt mk nonce pt (base ++ hdr) with
               | None => (None, s)
               | Some (ct, tag) =>
                   let send := mk_chain ck_next (u16 (ch_index send + 1)) (ch_epoch send)
                                 (ch_valid send) in
                   (Some (hdr ++ ct, tag), with_ratchet s (with_send (ss_ratchet s) send))
               end
           end
       end.

(** ** Receiving *)

(** [for (walk = chain->index; walk < index; walk++)]: [n] steps are left; the
    chain key reached and the skipped entries, in order.  [pending] has at most
    16 entries; a further one is not recorded. *)
Fixpoint derive_walk (n : nat) (ck : list Z) (walk : Z) (pending : list dm_skip_entry_t)
    : option (list Z * list dm_skip_entry_t) :=
  match n with
  | O => Some (ck, pending)
  | S n =>
      '(mk, ck_next) ← dm_ratchet_step ck walk;
      derive_walk n ck_next (walk + 1)
        (if (length pending <? DM_MAX_SKIP)%nat then pending ++ [mk_skip walk mk true] else pending)
  end.

(** [skip[pending[p].index % DM_MAX_SKIP] = pending[p];] *)
Definition cache_skipped (skip pending : list dm_skip_entry_t) : list dm_skip_entry_t :=
  foldl (λ skip p, <[Z.to_nat (sk_index p mod Z.of_nat DM_MAX_SKIP) := p]> skip) skip pending.

Record walk_result := mk_walk {
  w_rc : Z; w_chain : dm_chain_t; w_skip : list dm_skip_entry_t; w_pt : option (list Z) }.

Definition dm_recv_walk (chain : dm_chain_t) (skip : list dm_skip_entry_t) (index : Z)
    (aad nonce ct tag : list Z) : walk_result :=
  let fail rc := mk_walk rc chain skip None in
  if index <? ch_index chain
  then match find_index (λ e, sk_used e && (sk_index e =? index)) skip with
       | None => fail DM_DECRYPT_TOO_FAR
       | Some i =>
           match crypto_aes256gcm_decrypt (sk_mk (skip !!! i)) nonce ct aad tag with
           | None => fail DM_DECRYPT_FAIL
           | Some pt => mk_walk DM_DECRYPT_OK chain (<[i := skip_zero]> skip) (Some pt)
           end
       end
  else if index >? u16 (ch_index chain + Z.of_nat DM_MAX_SKIP) then fail DM_DECRYPT_TOO_FAR
  else
    let opened :=
      '(ck, pending) ← derive_walk (Z.to_nat (index - ch_index chain)) (ch_ck chain)
                         (ch_index chain) [];
      '(mk, ck_next) ← dm_ratchet_step ck index;
      pt ← crypto_aes256gcm_decrypt mk nonce ct aad tag;
      Some (pending, ck_next, pt) in
    match opened with
    | None => fail DM_DECRYPT_FAIL
    | Some (pending, ck_next, pt) =>
        mk_walk DM_DECRYPT_OK
          (mk_chain ck_next (u16 (index + 1)) (ch_epoch chain) (ch_valid chain))
          (cache_skipped skip pending) (Some pt)
    end.

(** After a frame of the current epoch: count it and, once the grace is spent,
    forget the previous epoch. *)
Definition after_current (r : dm_ratchet_t) (recv : dm_chain_t) (skip : list dm_skip_entry_t)
    : dm_ratchet_t :=
  if ch_valid (r_prev_recv r)
  then
    let n := if r_new_epoch_msgs r <? 65535 then u16 (r_new_epoch_msgs r + 1)
             else r_new_epoch_msgs r in
    if n >=? DM_EPOCH_GRACE_MSGS
    then mk_ratchet (r_rk r) (r_send r) recv skip chain_zero skip_init n
    else mk_ratchet (r_rk r) (r_send r) recv skip (r_prev_recv r) (r_prev_skip r) n
  else mk_ratchet (r_rk r) (r_send r) recv skip (r_prev_recv r) (r_prev_skip r)
         (r_new_epoch_msgs r).

(** The index a framed ciphertext names, big endian after the epoch byte. *)
Definition frame_index (framed : list Z) : Z :=
  u16 (Z.lor (nth 1 framed 0 << 8) (nth 2 framed 0)).

(** The return code and, on [DM_DECRYPT_OK], the plaintext. *)
Definition dm_session_ratchet_decrypt (s : dm_session_t) (h : bramble_header_t) (src_addr : Z)
    (nonce framed tag : list Z) : Z * option (list Z) * dm_session_t :=
  let r := ss_ratchet s in
  if negb (ch_valid (r_recv r)) then (DM_DECRYPT_FAIL, None, s)
  else if (length framed <? DM_RATCHET_HEADER_SIZE)%nat then (DM_DECRYPT_FAIL, None, s)
  else
    let index := frame_index framed in
    let ct := drop DM_RATCHET_HEADER_SIZE framed in
    match dm_base_aad h src_addr with
    | None => (DM_DECRYPT_FAIL, None, s)
    | Some base =>
        let aad := base ++ take DM_RATCHET_HEADER_SIZE framed in
        let w := dm_recv_walk (r_recv r) (r_skip r) index aad nonce ct tag in
        if w_rc w =? DM_DECRYPT_OK
        then (DM_DECRYPT_OK, w_pt w, with_ratchet s (after_current r (w_chain w) (w_skip w)))
        else if ch_valid (r_prev_recv r)
        then
          let p := dm_recv_walk (r_prev_recv r) (r_prev_skip r) index aad nonce ct tag in
          if w_rc p =? DM_DECRYPT_OK
          then (DM_DECRYPT_OK, w_pt p,
                with_ratchet s (mk_ratchet (r_rk r) (r_send r) (r_recv r) (r_skip r) (w_chain p)
                                  (w_skip p) (r_new_epoch_msgs r)))
          else (w_rc w, None, s)
        else (w_rc w, None, s)
    end.

(** ** Encryption under the session key itself *)

Definition dm_session_encrypt (s : dm_session_t) (h : bramble_header_t) (src_addr : Z)
    (pt nonce : list Z) : option (list Z * list Z) :=
  aad ← dm_base_aad h src_addr; crypto_aes256gcm_encrypt (ss_session_key s) nonce pt aad.
Definition dm_session_decrypt (s : dm_session_t) (h : bramble_header_t) (src_addr : Z)
    (nonce ct tag : list Z) : option (list Z) :=
  aad ← dm_base_aad h src_addr; crypto_aes256gcm_decrypt (ss_session_key s) nonce ct aad tag.
End Ratchet.
