(* ===== verification/DmRatchetSpec.v ===== *)
(** * What the message ratchet delivers

    The receive chain with its cache of skipped keys implements a window over
    message indices; messages that arrive within the window decrypt to what was
    sent, no key opens two frames, and a refused frame changes nothing. *)

From stdpp Require Import base strings numbers option decidable list.
From S2P Require Import Prelude Tables Packet PacketSpec NetworkKey DmCrypto DmRatchet.

(** ** The abstract window

    The next index expected and, per cache slot, the index whose key is kept. *)

Abbreviation window := (nat * list (option nat))%type.

Definition slot_of (i : nat) : nat := (i mod DM_MAX_SKIP)%nat.
Definition window_cache (slots : list (option nat)) (from n : nat) : list (option nat) :=
  foldl (λ sl k, <[slot_of k := Some k]> sl) slots (seq from n).
Definition window_recv (w : window) (i : nat) : Z * window :=
  let '(next, slots) := w in
  if decide (i < next)%nat
  then if decide (slots !! slot_of i = Some (Some i))
       then (DM_DECRYPT_OK, (next, <[slot_of i := None]> slots))
       else (DM_DECRYPT_TOO_FAR, w)
  else if decide (next + DM_MAX_SKIP < i)%nat then (DM_DECRYPT_TOO_FAR, w)
  else (DM_DECRYPT_OK, (S i, window_cache slots next (i - next))).
Definition window_init : window := (0%nat, replicate DM_MAX_SKIP None).

(** ** Keys of a chain *)

Section Keys.
Context `{DmCrypto}.

Fixpoint ck_at (ck : list Z) (n : nat) : option (list Z) :=
  match n with
  | O => Some ck
  | S n => c ← ck_at ck n; snd <$> dm_ratchet_step c (Z.of_nat n)
  end.
Definition mk_at (ck : list Z) (n : nat) : option (list Z) :=
  c ← ck_at ck n; fst <$> dm_ratchet_step c (Z.of_nat n).

Lemma key_step ck0 n mk :
  mk_at ck0 n = Some mk →
  ∃ ck ck', ck_at ck0 n = Some ck ∧ dm_ratchet_step ck (Z.of_nat n) = Some (mk, ck') ∧
            ck_at ck0 (S n) = Some ck'.
Proof.
  unfold mk_at. intros (ck & Hck & ([mk' ck'] & Hs & ->)%fmap_Some)%bind_Some.
  exists ck, ck'. simpl. rewrite Hck. simpl. by rewrite Hs.
Qed.

Lemma derive_walk_keys ck0 n a ck pending :
  ck_at ck0 a = Some ck → (∀ j, (a ≤ j < a + n)%nat → is_Some (mk_at ck0 j)) →
  (length pending + n ≤ DM_MAX_SKIP)%nat →
  ∃ ck' L, derive_walk n ck (Z.of_nat a) pending = Some (ck', pending ++ L) ∧
    ck_at ck0 (a + n) = Some ck' ∧
    Forall2 (λ k e, mk_at ck0 k = Some (sk_mk e) ∧ sk_index e = Z.of_nat k ∧ sk_used e = true)
      (seq a n) L.
Proof.
  revert a ck pending; induction n as [|n IH]; intros a ck pending Hck Hk Hlen.
  - exists ck, []. rewrite app_nil_r, Nat.add_0_r. split; [done|]. split; [done|constructor].
  - destruct (Hk a) as [mk Hmk]; [lia|].
    destruct (key_step _ _ _ Hmk) as (c & ck' & Hc & Hs & Hn).
    rewrite Hck in Hc. injection Hc as <-.
    destruct (IH (S a) ck' (pending ++ [mk_skip (Z.of_nat a) mk true])) as (ck2 & L & Hw & Hck2 & HL).
    { done. } { intros j Hj. apply Hk. lia. } { rewrite length_app. simpl. lia. }
    exists ck2, (mk_skip (Z.of_nat a) mk true :: L). cbn [derive_walk]. rewrite Hs. cbn [mbind option_bind].
    assert ((length pending <? DM_MAX_SKIP)%nat = true) as -> by (apply Nat.ltb_lt; lia).
    replace (Z.of_nat a + 1) with (Z.of_nat (S a)) by lia. rewrite Hw.
    split; [by rewrite <- app_assoc|]. split; [by rewrite <- Nat.add_succ_comm|].
    simpl. constructor; [done|exact HL].
Qed.

(** ** Simulation *)

Definition slot_sim (ck0 : list Z) (o : option nat) (e : dm_skip_entry_t) : Prop :=
  match o with
  | Some i => mk_at ck0 i = Some (sk_mk e) ∧ sk_index e = Z.of_nat i ∧ sk_used e = true
  | None => sk_used e = false
  end.
Definition slots_wf (w : window) : Prop :=
  length w.2 = DM_MAX_SKIP ∧
  ∀ s i, w.2 !! s = Some (Some i) → s = slot_of i ∧ (i < w.1)%nat.
Definition chain_sim (ck0 : list Z) (chain : dm_chain_t) (skip : list dm_skip_entry_t) (w : window)
    : Prop :=
  ch_index chain = Z.of_nat w.1 ∧ ck_at ck0 w.1 = Some (ch_ck chain) ∧
  Forall2 (slot_sim ck0) w.2 skip ∧ slots_wf w.

Lemma slot_of_lt i : (slot_of i < DM_MAX_SKIP)%nat.
Proof. apply Nat.mod_upper_bound. done. Qed.
Lemma slot_of_Z k : Z.to_nat (Z.of_nat k mod Z.of_nat DM_MAX_SKIP) = slot_of k.
Proof. unfold slot_of. rewrite <- Nat2Z.inj_mod. apply Nat2Z.id. Qed.

Lemma cache_sim ck0 slots skip n a L :
  Forall2 (slot_sim ck0) slots skip →
  Forall2 (λ k e, mk_at ck0 k = Some (sk_mk e) ∧ sk_index e = Z.of_nat k ∧ sk_used e = true)
    (seq a n) L →
  Forall2 (slot_sim ck0) (window_cache slots a n) (cache_skipped skip L).
Proof.
  unfold window_cache, cache_skipped. revert slots skip a L.
  induction n as [|n IH]; intros slots skip a L Hs HL; inversion HL as [|? e ? L' [? [Hi ?]] HL']; [done|].
  subst. simpl. apply IH; [|done]. rewrite Hi, slot_of_Z.
  apply Forall2_insert; [done|]. by split.
Qed.

Lemma window_cache_length slots a n : length (window_cache slots a n) = length slots.
Proof.
  unfold window_cache. generalize (seq a n) as ks. intros ks. revert slots.
  induction ks as [|k ks IH]; intros slots; [done|]. simpl. by rewrite IH, length_insert.
Qed.

(** What [window_cache] leaves in a slot. *)
Lemma window_cache_lookup slots a n s i :
  length slots = DM_MAX_SKIP →
  window_cache slots a n !! s = Some (Some i) ↔
  (a ≤ i < a + n ∧ s = slot_of i ∧ ∀ k, i < k < a + n → slot_of k ≠ slot_of i)%nat ∨
  (slots !! s = Some (Some i) ∧ ∀ k, (a ≤ k < a + n)%nat → slot_of k ≠ s).
Proof.
  intros Hlen. induction n as [|n IH].
  - unfold window_cache. simpl. split; [intros Hl; right; split; [done|lia]|]. intros [?|[? _]]; [lia|done].
  - assert (Hstep : window_cache slots a (S n) = <[slot_of (a + n) := Some (a + n)%nat]> (window_cache slots a n)).
    { unfold window_cache. by rewrite seq_S, foldl_app. }
    assert (Hlen' : length (window_cache slots a n) = DM_MAX_SKIP).
    { by rewrite window_cache_length. }
    rewrite Hstep. destruct (decide (s = slot_of (a + n))) as [->|Hs].
    + rewrite list_lookup_insert_eq by (rewrite Hlen'; apply slot_of_lt). split.
      * intros [= <-]. left. split; [lia|]. split; [done|]. intros. lia.
      * intros [(Hi & Hsl & Hk)|(_ & Hk)].
        -- destruct (decide (i = a + n)%nat) as [->|]; [done|]. exfalso. apply (Hk (a + n)%nat); [lia|done].
        -- exfalso. apply (Hk (a + n)%nat); [lia|done].
    + rewrite list_lookup_insert_ne by done. rewrite IH. split.
      * intros [(Hi & Hsl & Hk)|(Hl & Hk)].
        -- left. split; [lia|]. split; [done|]. intros k Hkk. destruct (decide (k = a + n)%nat) as [->|]; [congruence|].
           apply Hk. lia.
        -- right. split; [done|]. intros k Hkk. destruct (decide (k = a + n)%nat) as [->|]; [congruence|]. apply Hk. lia.
      * intros [(Hi & Hsl & Hk)|(Hl & Hk)].
        -- destruct (decide (i = a + n)%nat) as [->|]; [congruence|].
           left. split; [lia|]. split; [done|]. intros k Hkk. apply Hk. lia.
        -- right. split; [done|]. intros k Hkk. apply Hk. lia.
Qed.
Lemma window_recv_wf w i : slots_wf w → slots_wf (window_recv w i).2.
Proof.
  destruct w as [next slots]. intros [Hl Hw]. unfold window_recv. simpl in *.
  repeat case_decide; try by split. 
  - split; simpl; [by rewrite length_insert|]. intros s k Hk.
    apply list_lookup_insert_Some in Hk as [(_ & [=] & _)|[_ Hk]]. by apply Hw.
  - split; simpl; [by rewrite window_cache_length|]. intros s k Hk.
    apply window_cache_lookup in Hk as [(Hi & -> & _)|[Hk _]]; [split; [done|lia]| |done].
    destruct (Hw _ _ Hk). split; [done|lia].
Qed.

Lemma cached_find ck0 slots skip next i :
  Forall2 (slot_sim ck0) slots skip → slots_wf (next, slots) →
  find_index (λ e, sk_used e && (sk_index e =? Z.of_nat i)) skip =
  if decide (slots !! slot_of i = Some (Some i)) then Some (slot_of i) else None.
Proof.
  intros Hsim [Hl Hw]. simpl in *.
  assert (Hcached : ∀ s e, skip !! s = Some e → sk_used e && (sk_index e =? Z.of_nat i) = true →
                           slots !! s = Some (Some i)).
  { intros s e He Hu. conds. destruct (Forall2_lookup_r _ _ _ _ _ Hsim He) as ([k|] & Hk & Hs).
    - destruct Hs as (_ & Hidx & _). rewrite Hk. do 2 f_equal. lia.
    - simpl in Hs. congruence. }
  destruct (find_index _ skip) as [s|] eqn:Hf.
  - apply find_index_Some in Hf as (e & He & Hu & _).
    pose proof (Hcached _ _ He Hu) as Hs. destruct (Hw _ _ Hs) as [-> _]. by rewrite decide_True.
  - rewrite decide_False; [done|]. intros Hs.
    destruct (Forall2_lookup_l _ _ _ _ _ Hsim Hs) as (e & He & (_ & Hidx & Hu)).
    apply find_index_None in Hf. rewrite list.Forall_forall in Hf.
    specialize (Hf e (list_elem_of_lookup_2 _ _ _ He)). simpl in Hf.
    rewrite Hu, Hidx, Z.eqb_refl in Hf. done.
Qed.

(** A genuine frame of index [i]: the code decides as the window does. *)
Lemma recv_walk_sim ck0 chain skip w i mk pt aad nonce ct tag :
  chain_sim ck0 chain skip w → Z.of_nat i < 65520 → (∀ j, (j ≤ i)%nat → is_Some (mk_at ck0 j)) →
  mk_at ck0 i = Some mk → crypto_aes256gcm_decrypt mk nonce ct aad tag = Some pt →
  let r := dm_recv_walk chain skip (Z.of_nat i) aad nonce ct tag in
  w_rc r = (window_recv w i).1 ∧
  chain_sim ck0 (w_chain r) (w_skip r) (window_recv w i).2 ∧
  (w_rc r = DM_DECRYPT_OK → w_pt r = Some pt) ∧
  ch_valid (w_chain r) = ch_valid chain ∧ ch_epoch (w_chain r) = ch_epoch chain.
Proof.
  intros (Hidx & Hck & Hsim & Hwf) Hi Hkeys Hmk Hdec. pose proof (window_recv_wf w i Hwf) as Hwf'.
  destruct w as [next slots]. unfold dm_recv_walk, window_recv in *. cbn [fst snd] in *. rewrite Hidx.
  destruct (decide (i < next)%nat) as [Hlt|Hge].
  - assert ((Z.of_nat i <? Z.of_nat next) = true) as -> by lia.
    rewrite (cached_find ck0 slots skip next i) by done.
    destruct (decide (slots !! slot_of i = Some (Some i))) as [Hs|Hs]; [|done].
    destruct (Forall2_lookup_l _ _ _ _ _ Hsim Hs) as (e & He & (Hke & _)).
    rewrite (list_lookup_total_correct _ _ _ He). rewrite Hmk in Hke. injection Hke as <-.
    rewrite Hdec. simpl. split; [done|]. split; [|done].
    split; [done|]. split; [done|]. split; [|done]. by apply Forall2_insert.
  - assert ((Z.of_nat i <? Z.of_nat next) = false) as -> by lia.
    rewrite u16_id by (cint_unfold; unfold DM_MAX_SKIP; lia). rewrite Z.gtb_ltb.
    destruct (decide (next + DM_MAX_SKIP < i)%nat) as [Hfar|Hnear].
    { assert ((Z.of_nat next + Z.of_nat DM_MAX_SKIP <? Z.of_nat i) = true) as -> by lia. done. }
    assert ((Z.of_nat next + Z.of_nat DM_MAX_SKIP <? Z.of_nat i) = false) as -> by lia.
    replace (Z.to_nat (Z.of_nat i - Z.of_nat next)) with (i - next)%nat by lia.
    destruct (derive_walk_keys ck0 (i - next) next (ch_ck chain) []) as (ck' & L & -> & Hck' & HL);
      [done|intros j Hj; apply Hkeys; lia|simpl; lia|].
    destruct (key_step _ _ _ Hmk) as (c & ckn & Hc & Hs & Hn).
    replace (next + (i - next))%nat with i in Hck' by lia. rewrite Hc in Hck'. injection Hck' as ->.
    cbn [mbind option_bind app]. rewrite Hs. cbn [mbind option_bind]. rewrite Hdec. simpl.
    split; [done|]. split; [|done].
    split; simpl; [rewrite u16_id by (cint_unfold; lia); lia|]. split; [done|].
    split; [|done]. by apply cache_sim.
Qed.
End Keys.

(** ** Traffic *)

(** A message to send; a frame as it arrives. *)
Record dm_msg := mk_msg { m_header : bramble_header_t; m_src : Z; m_pt : list Z; m_nonce : list Z }.
Record dm_frame := mk_frame {
  f_header : bramble_header_t; f_src : Z; f_nonce : list Z; f_framed : list Z; f_tag : list Z }.
Definition at_hop (f : dm_frame) (hop_limit : Z) : dm_frame :=
  let h := f_header f in
  mk_frame (mk_header (h_version h) (h_type h) (h_flags h) hop_limit (h_dest_addr h) (h_packet_id h))
    (f_src f) (f_nonce f) (f_framed f) (f_tag f).

#[global] Instance frame_inhabited : Inhabited dm_frame :=
  populate (mk_frame ke_zero_header 0 [] [] []).

Section Traffic.
Context `{DmCrypto}.

(** The sender encrypts the messages in order; [None]: an encryption failed. *)
Fixpoint send_all (s : dm_session_t) (ms : list dm_msg) : option (list dm_frame * dm_session_t) :=
  match ms with
  | [] => Some ([], s)
  | m :: ms =>
      match dm_session_ratchet_encrypt s (m_header m) (m_src m) (m_pt m) (m_nonce m) with
      | (None, _) => None
      | (Some (framed, tag), s) =>
          '(fs, s) ← send_all s ms;
          Some (mk_frame (m_header m) (m_src m) (m_nonce m) framed tag :: fs, s)
      end
  end.
Definition recv_frame (s : dm_session_t) (f : dm_frame) : Z * option (list Z) * dm_session_t :=
  dm_session_ratchet_decrypt s (f_header f) (f_src f) (f_nonce f) (f_framed f) (f_tag f).
Fixpoint recv_all (s : dm_session_t) (fs : list dm_frame) : list (Z * option (list Z)) * dm_session_t :=
  match fs with
  | [] => ([], s)
  | f :: fs =>
      let '(rc, pt, s) := recv_frame s f in
      let '(rs, s) := recv_all s fs in ((rc, pt) :: rs, s)
  end.
End Traffic.

Fixpoint window_run (w : window) (σ : list nat) : list (nat * Z) :=
  match σ with
  | [] => []
  | i :: σ => let '(rc, w) := window_recv w i in (i, rc) :: window_run w σ
  end.

Lemma dm_base_aad_Some h src : is_Some (dm_base_aad h src).
Proof. unfold dm_base_aad. destruct h. by eexists. Qed.
Lemma dm_base_aad_hop f hl :
  dm_base_aad (f_header (at_hop f hl)) (f_src (at_hop f hl)) = dm_base_aad (f_header f) (f_src f).
Proof. destruct f as [[] ? ? ? ?]. done. Qed.

Lemma frame_index_header epoch i ct :
  0 ≤ i < 65536 → frame_index (ratchet_header epoch i ++ ct) = i.
Proof.
  intros Hi. unfold frame_index, ratchet_header. cbn [app nth].
  assert (Z.land i 255 = i mod 256) as ->.
  { change 255 with (Z.ones 8). by rewrite Z.land_ones by lia. }
  assert (u8 (i mod 256) = i mod 256) as -> by cint.
  shifts. change (2 ^ 8) with 256. rewrite (lor_disjoint _ _ 8); cint.
Qed.

Section Delivery.
Context `{DmCryptoLaws}.

(** A frame that carries the message of index [i] of the chain from [ck0]. *)
Definition genuine (ck0 : list Z) (i : nat) (pt : list Z) (f : dm_frame) : Prop :=
  ∃ mk base epoch ct,
    mk_at ck0 i = Some mk ∧ dm_base_aad (f_header f) (f_src f) = Some base ∧
    crypto_aes256gcm_encrypt mk (f_nonce f) pt (base ++ ratchet_header epoch (Z.of_nat i)) =
      Some (ct, f_tag f) ∧
    f_framed f = ratchet_header epoch (Z.of_nat i) ++ ct.

Lemma genuine_hop ck0 i pt f hl : genuine ck0 i pt f → genuine ck0 i pt (at_hop f hl).
Proof.
  intros (mk & base & epoch & ct & ? & ? & ? & ?). exists mk, base, epoch, ct.
  rewrite dm_base_aad_hop. done.
Qed.

Lemma send_all_genuine ck0 ms : ∀ (s s' : dm_session_t) n fs,
  ch_index (r_send (ss_ratchet s)) = Z.of_nat n → ck_at ck0 n = Some (ch_ck (r_send (ss_ratchet s))) →
  Z.of_nat (n + length ms) < 65536 →
  send_all s ms = Some (fs, s') →
  length fs = length ms ∧
  ∀ i m, ms !! i = Some m → ∃ f, fs !! i = Some f ∧ genuine ck0 (n + i) (m_pt m) f.
Proof.
  induction ms as [|m ms IH]; intros s s' n fs Hn Hck Hle Hs.
  - injection Hs as <- <-. done.
  - cbn [send_all] in Hs.
    destruct (dm_session_ratchet_encrypt _ _ _ _ _) as [[[framed tag]|] s1] eqn:He; [|done].
    apply bind_Some in Hs as ([fs' s2] & Hs & [= <- <-]).
    unfold dm_session_ratchet_encrypt in He.
    destruct (negb (ch_valid _)); [done|]. destruct (255 <? _)%nat; [done|].
    destruct (dm_ratchet_step _ _) as [[mk ckn]|] eqn:Hstep; [|done].
    destruct (dm_base_aad _ _) as [base|] eqn:Hb; [|done].
    destruct (crypto_aes256gcm_encrypt _ _ _ _) as [[ct tag']|] eqn:Henc; [|done].
    injection He as <- <- <-. rewrite Hn in Hstep, Henc.
    assert (Hmk : mk_at ck0 n = Some mk). { unfold mk_at. rewrite Hck. cbn. by rewrite Hstep. }
    apply (IH _ _ (S n)) in Hs as [Hl IH'].
    + split; [simpl; lia|]. intros [|i] m' Hm; simpl in Hm.
      * injection Hm as ->. eexists. split; [done|]. rewrite Nat.add_0_r.
        exists mk, base, (ch_epoch (r_send (ss_ratchet s))), ct. rewrite Hn. done.
      * destruct (IH' _ _ Hm) as (f & Hf & Hg). exists f. split; [done|].
        by rewrite <- Nat.add_succ_comm.
    + cbn [ss_ratchet with_ratchet set_ratchet r_send with_send ch_index]. rewrite Hn.
      cbn [length] in Hle. rewrite u16_id by (cint_unfold; lia). lia.
    + cbn. rewrite Hck. cbn. by rewrite Hstep.
    + cbn [length] in Hle. lia.
Qed.

(** A genuine frame met by the receiver. *)
Lemma recv_genuine ck0 s w i pt f :
  chain_sim ck0 (r_recv (ss_ratchet s)) (r_skip (ss_ratchet s)) w →
  ch_valid (r_recv (ss_ratchet s)) = true →
  Z.of_nat i < 65520 → (∀ j, (j ≤ i)%nat → is_Some (mk_at ck0 j)) → genuine ck0 i pt f →
  let '(rc, got, s') := recv_frame s f in
  if decide ((window_recv w i).1 = DM_DECRYPT_OK)
  then rc = DM_DECRYPT_OK ∧ got = Some pt ∧
       chain_sim ck0 (r_recv (ss_ratchet s')) (r_skip (ss_ratchet s')) (window_recv w i).2 ∧
       ch_valid (r_recv (ss_ratchet s')) = true ∧
       (ch_valid (r_prev_recv (ss_ratchet s)) = false → ch_valid (r_prev_recv (ss_ratchet s')) = false)
  else ch_valid (r_prev_recv (ss_ratchet s)) = false →
       rc = (window_recv w i).1 ∧ got = None ∧ s' = s.
Proof.
  intros Hsim Hv Hi Hkeys (mk & base & epoch & ct & Hmk & Hb & Henc & Hf).
  unfold recv_frame, dm_session_ratchet_decrypt. rewrite Hv, Hf, Hb. cbn [negb].
  assert ((length (ratchet_header epoch (Z.of_nat i) ++ ct) <? DM_RATCHET_HEADER_SIZE)%nat = false) as ->
    by (rewrite length_app; apply Nat.ltb_ge; unfold DM_RATCHET_HEADER_SIZE; simpl; lia).
  rewrite frame_index_header by lia.
  assert (drop DM_RATCHET_HEADER_SIZE (ratchet_header epoch (Z.of_nat i) ++ ct) = ct) as -> by done.
  assert (take DM_RATCHET_HEADER_SIZE (ratchet_header epoch (Z.of_nat i) ++ ct) =
          ratchet_header epoch (Z.of_nat i)) as -> by done.
  apply gcm_inverse in Henc.
  destruct (recv_walk_sim ck0 _ _ w i mk pt (base ++ ratchet_header epoch (Z.of_nat i)) (f_nonce f) ct
    (f_tag f) Hsim Hi Hkeys Hmk Henc) as (Hrc & Hsim' & Hpt & Hval & _).
  set (r := dm_recv_walk _ _ _ _ _ _ _) in *. rewrite Hrc in *.
  destruct (decide _) as [Hok|Hno].
  - rewrite Hok, Z.eqb_refl. unfold after_current.
    destruct (ch_valid (r_prev_recv (ss_ratchet s))) eqn:Hp; [split_if|]; cbn;
      (split; [done|]); (split; [by apply Hpt|]); (split; [done|]); by rewrite Hval.
  - assert (((window_recv w i).1 =? DM_DECRYPT_OK) = false) as -> by lia.
    destruct (ch_valid (r_prev_recv _)); [by split_if|done].
Qed.

Lemma recv_all_window ck0 pts fs σ : ∀ s w,
  chain_sim ck0 (r_recv (ss_ratchet s)) (r_skip (ss_ratchet s)) w →
  ch_valid (r_recv (ss_ratchet s)) = true →
  (ch_valid (r_prev_recv (ss_ratchet s)) = false ∨
   Forall (λ v, v.2 = DM_DECRYPT_OK) (window_run w σ)) →
  Forall2 (λ i f, ∃ pt, pts !! i = Some pt ∧ genuine ck0 i pt f) σ fs →
  (∀ i, (i < length pts)%nat → is_Some (mk_at ck0 i)) → Z.of_nat (length pts) ≤ 65520 →
  (recv_all s fs).1 =
  (λ v, (v.2, if decide (v.2 = DM_DECRYPT_OK) then pts !! v.1 else None)) <$> window_run w σ.
Proof.
  revert fs; induction σ as [|i σ IH]; intros fs s w Hsim Hv Hp HF Hkeys Hlen;
    inversion HF as [|? f ? fs' (pt & Hpt & Hg) HF']; subst; [done|].
  assert (Hi : (i < length pts)%nat) by (by eapply lookup_lt_Some).
  cbn [window_run recv_all] in *.
  pose proof (recv_genuine ck0 s w i pt f Hsim Hv) as Hstep.
  destruct (recv_frame s f) as [[rc got] s'].
  destruct (window_recv w i) as [wrc w'] eqn:Hw. cbn [fst snd] in *.
  specialize (Hstep ltac:(lia) ltac:(intros; apply Hkeys; lia) Hg).
  rewrite fmap_cons. cbn [fst snd].
  destruct (decide (wrc = DM_DECRYPT_OK)) as [Hok|Hno].
  - destruct Hstep as (-> & -> & Hsim' & Hv' & Hp'). rewrite Hpt, Hok.
    specialize (IH fs' s' w' Hsim' Hv').
    destruct (recv_all s' fs') as [rs s2]. cbn [fst] in *. f_equal. apply IH; [|done..].
    destruct Hp as [Hp|Hp]; [left; by apply Hp'|right]. by inversion Hp.
  - assert (Hpf : ch_valid (r_prev_recv (ss_ratchet s)) = false).
    { destruct Hp as [|Hp]; [done|]. inversion_clear Hp. done. }
    destruct (Hstep Hpf) as (-> & -> & ->).
    assert (w' = w) as ->.
    { unfold window_recv in Hw. destruct w as [next slots].
      repeat case_decide; injection Hw as <- <-; done. }
    specialize (IH fs' s w Hsim Hv).
    destruct (recv_all s fs') as [rs s2]. cbn [fst] in *. f_equal. apply IH; [by left|done..].
Qed.

(** Both ends order the addresses alike, and exactly one of them is the lower. *)
Lemma lo_hi_comm a b :
  (if b <? a then b else a) = (if a <? b then a else b) ∧
  (if b <? a then a else b) = (if a <? b then b else a).
Proof. destruct (a <? b) eqn:E1, (b <? a) eqn:E2; conds; split; try done; lia. Qed.
Lemma self_is_lo_comm a b :
  a ≠ b → (b =? (if a <? b then a else b)) = negb (a =? (if a <? b then a else b)).
Proof. intros. destruct (a <? b) eqn:E; conds; rewrite Z.eqb_refl; simpl; lia. Qed.

(** Both ends start from the same chain keys. *)
Lemma init_state_matches sA sB ikm a b A B :
  a ≠ b → dm_session_ratchet_init_state sA ikm a b = (0, A) →
  dm_session_ratchet_init_state sB ikm b a = (0, B) →
  r_rk (ss_ratchet A) = r_rk (ss_ratchet B) ∧
  ch_ck (r_send (ss_ratchet A)) = ch_ck (r_recv (ss_ratchet B)) ∧
  ch_ck (r_recv (ss_ratchet A)) = ch_ck (r_send (ss_ratchet B)) ∧
  Forall (λ s, ch_valid (r_send (ss_ratchet s)) = true ∧ ch_valid (r_recv (ss_ratchet s)) = true ∧
               ch_valid (r_prev_recv (ss_ratchet s)) = false ∧
               ch_index (r_send (ss_ratchet s)) = 0 ∧ ch_index (r_recv (ss_ratchet s)) = 0 ∧
               r_skip (ss_ratchet s) = skip_init) [A; B].
Proof.
  intros Hab. unfold dm_session_ratchet_init_state, dm_ratchet_install_chains.
  destruct (lo_hi_comm a b) as [-> ->].
  destruct (dm_ratchet_init _ _ _) as [[[rk lohi] hilo]|]; [|done].
  rewrite self_is_lo_comm by done. intros [= <-] [= <-]. cbn.
  destruct (a =? _); cbn; (split; [done|]); (split; [done|]); (split; [done|]); repeat constructor.
Qed.

Lemma window_init_sim ck0 chain :
  ch_index chain = 0 → ck0 = ch_ck chain → chain_sim ck0 chain skip_init window_init.
Proof.
  intros Hi ->. split; [done|]. split; [done|]. split.
  - by repeat constructor.
  - split; [done|]. intros s i Hs. apply lookup_replicate in Hs as [[=] _].
Qed.

(** ** Arrival within the window *)

Lemma slot_eq_far j k : (j < k)%nat → slot_of k = slot_of j → (j + DM_MAX_SKIP ≤ k)%nat.
Proof.
  unfold slot_of, DM_MAX_SKIP. intros Hlt He.
  pose proof (Nat.div_mod_eq j 16). pose proof (Nat.div_mod_eq k 16). nia.
Qed.
End Delivery.

(** No index twice, none more than 16 ahead of the next expected one and none
    more than 16 behind it. *)
Fixpoint in_window (next : nat) (got σ : list nat) : bool :=
  match σ with
  | [] => true
  | i :: σ =>
      bool_decide (i ∉ got) && (next <=? i + DM_MAX_SKIP)%nat && (i <=? next + DM_MAX_SKIP)%nat &&
      in_window (Nat.max next (S i)) (i :: got) σ
  end.

Definition holds_recent (w : window) (got : list nat) : Prop :=
  ∀ j, (j < w.1)%nat → (w.1 ≤ j + DM_MAX_SKIP)%nat → j ∉ got → w.2 !! slot_of j = Some (Some j).

Lemma in_window_run σ : ∀ w got,
  slots_wf w → holds_recent w got → in_window w.1 got σ = true →
  Forall (λ v, v.2 = DM_DECRYPT_OK) (window_run w σ).
Proof.
  induction σ as [|i σ IH]; intros w got Hwf Hrec Hin; [constructor|].
  cbn [in_window window_run] in *. apply andb_true_iff in Hin as [Hin Hσ].
  apply andb_true_iff in Hin as [Hin H3]. apply andb_true_iff in Hin as [H1 H2].
  apply bool_decide_eq_true in H1. apply Nat.leb_le in H2, H3.
  pose proof (window_recv_wf w i Hwf) as Hwf'. destruct w as [next slots].
  unfold window_recv in *. cbn [fst snd] in *. destruct Hwf as [Hl _]. simpl in Hl.
  destruct (decide (i < next)%nat) as [Hlt|Hge].
  - rewrite decide_True in * by (by apply Hrec). constructor; [done|].
    apply (IH _ (i :: got)); [done| |by rewrite Nat.max_l in Hσ by lia].
    intros j Hj Hj' Hng. simpl in *. rewrite not_elem_of_cons in Hng. destruct Hng as [Hne Hng].
    rewrite list_lookup_insert_ne; [by apply Hrec|]. intros He.
    destruct (decide (i < j)%nat); [pose proof (slot_eq_far i j)|pose proof (slot_eq_far j i)];
      unfold DM_MAX_SKIP in *; lia.
  - rewrite decide_False in * by lia. constructor; [done|].
    apply (IH _ (i :: got)); [done| |by rewrite Nat.max_r in Hσ by lia].
    intros j Hj Hj' Hng. simpl in *. rewrite not_elem_of_cons in Hng. destruct Hng as [Hne Hng].
    apply window_cache_lookup; [done|]. destruct (decide (j < next)%nat).
    + right. split; [apply Hrec; [done|unfold DM_MAX_SKIP in *; simpl; lia|done]|].
      intros k Hk He. pose proof (slot_eq_far j k). unfold DM_MAX_SKIP in *. lia.
    + left. split; [lia|]. split; [done|]. intros k Hk He.
      pose proof (slot_eq_far j k). unfold DM_MAX_SKIP in *. lia.
Qed.

(** What a run yields when every verdict is an acceptance. *)
Lemma window_run_ok (pts : list (list Z)) σ : ∀ w,
  Forall (λ v, v.2 = DM_DECRYPT_OK) (window_run w σ) →
  (λ v, (v.2, if decide (v.2 = DM_DECRYPT_OK) then pts !! v.1 else None)) <$> window_run w σ =
  (λ i, (DM_DECRYPT_OK, pts !! i)) <$> σ.
Proof.
  induction σ as [|i σ IH]; intros w Hok; [done|]. cbn [window_run] in *.
  destruct (window_recv w i) as [rc w']. inversion_clear Hok as [|? ? Hrc Hok']. simpl in Hrc. subst rc.
  rewrite !fmap_cons. f_equal. by apply IH.
Qed.

(** ** No key opens two frames *)

Section Spent.
Context `{DmCrypto}.

Definition keys_index (i : Z) (e : dm_skip_entry_t) : bool := sk_used e && (sk_index e =? i).
(** The key of [i] is behind the chain and not in the cache. *)
Definition spent (chain : dm_chain_t) (skip : list dm_skip_entry_t) (i : Z) : Prop :=
  i < ch_index chain ∧ Forall (λ e, keys_index i e = false) skip.
(** Entries sit at their slot and lie below [b]. *)
Definition skip_ok (b : Z) (skip : list dm_skip_entry_t) : Prop :=
  length skip = DM_MAX_SKIP ∧
  ∀ s e, skip !! s = Some e → sk_used e = true →
    s = Z.to_nat (sk_index e mod Z.of_nat DM_MAX_SKIP) ∧ 0 ≤ sk_index e < b.
Definition skip_wf (chain : dm_chain_t) (skip : list dm_skip_entry_t) : Prop :=
  0 ≤ ch_index chain ∧ skip_ok (ch_index chain) skip.
Lemma skip_ok_mono b b' skip : b ≤ b' → skip_ok b skip → skip_ok b' skip.
Proof. intros Hb [Hl Hs]. split; [done|]. intros s e He Hu. destruct (Hs s e He Hu). split; [done|lia]. Qed.
Lemma skip_init_ok b : skip_ok b skip_init.
Proof. split; [done|]. intros s e He. by apply lookup_replicate in He as [-> _]. Qed.
Lemma skip_ok_evict b skip s : skip_ok b skip → skip_ok b (<[s := skip_zero]> skip).
Proof.
  intros [Hl Hs]. split; [by rewrite length_insert|]. intros s' e He Hu.
  apply list_lookup_insert_Some in He as [(_ & <- & _)|[_ He]]; [done|]. by apply Hs.
Qed.

Lemma derive_walk_indices n : ∀ ck walk pending ck' L,
  derive_walk n ck walk pending = Some (ck', L) →
  Forall (λ e, e ∈ pending ∨ walk ≤ sk_index e < walk + Z.of_nat n) L.
Proof.
  induction n as [|n IH]; intros ck walk pending ck' L Hd.
  - injection Hd as <- <-. apply list.Forall_forall. by left.
  - cbn [derive_walk] in Hd. apply bind_Some in Hd as ([mk ckn] & _ & Hd).
    apply IH in Hd. eapply Forall_impl; [exact Hd|]. intros e [He|He]; [|right; lia].
    destruct (length pending <? DM_MAX_SKIP)%nat; [|by left].
    apply elem_of_app in He as [He|He]; [by left|].
    apply list_elem_of_singleton in He as ->. right. simpl. lia.
Qed.

(** Caching entries at or above [b] changes nothing below it. *)
Lemma cache_skipped_other pending : ∀ skip i,
  Forall (λ e, keys_index i e = false) skip → Forall (λ e, sk_index e ≠ i) pending →
  Forall (λ e, keys_index i e = false) (cache_skipped skip pending).
Proof.
  induction pending as [|p pending IH]; intros skip i Hs Hp; [done|]. inversion_clear Hp.
  apply IH; [|done]. apply Forall_insert; [done|].
  unfold keys_index. destruct (sk_used p); [simpl; lia|done].
Qed.
Lemma cache_skipped_ok pending b : ∀ skip,
  skip_ok b skip → Forall (λ e, 0 ≤ sk_index e < b) pending → skip_ok b (cache_skipped skip pending).
Proof.
  induction pending as [|p pending IH]; intros skip [Hl Hs] Hp; [done|]. inversion_clear Hp.
  apply IH; [|done]. split; [by rewrite length_insert|]. intros s e He Hu.
  apply list_lookup_insert_Some in He as [(<- & <- & _)|[_ He]]; [done|]. by apply Hs.
Qed.

(** One reception, whatever the frame: the key used is spent afterwards, a spent
    key is not used, and stays spent. *)
Lemma recv_walk_spent chain skip j aad nonce ct tag :
  skip_wf chain skip → 0 ≤ j < 65535 →
  let w := dm_recv_walk chain skip j aad nonce ct tag in
  skip_wf (w_chain w) (w_skip w) ∧
  (w_rc w = DM_DECRYPT_OK → spent (w_chain w) (w_skip w) j ∧ ¬ spent chain skip j) ∧
  (w_rc w ≠ DM_DECRYPT_OK → w_chain w = chain ∧ w_skip w = skip) ∧
  (∀ i, spent chain skip i → spent (w_chain w) (w_skip w) i).
Proof.
  intros [Hi Hok] Hj. unfold dm_recv_walk.
  destruct (j <? ch_index chain) eqn:Hlt; conds.
  - destruct (find_index _ skip) as [s|] eqn:Hf; [|done].
    apply find_index_Some in Hf as (e & He & Hu & _).
    destruct (crypto_aes256gcm_decrypt _ _ _ _ _) as [pt|]; [|done]. cbn.
    split; [split; [done|by apply skip_ok_evict]|]. split; [|split; [done|]].
    + intros _. split.
      * split; [done|]. apply Forall_lookup. intros s' e' He'.
        apply list_lookup_insert_Some in He' as [(_ & <- & _)|[Hne He']]; [done|].
        destruct (keys_index j e') eqn:Hk; [|done]. unfold keys_index in Hk. conds.
        destruct Hok as [_ Hok]. destruct (Hok s e) as [Hs1 _]; [done..|].
        destruct (Hok s' e') as [Hs2 _]; [done..|]. congruence.
      * intros [_ Hsp]. rewrite list.Forall_forall in Hsp.
        specialize (Hsp e (list_elem_of_lookup_2 _ _ _ He)). unfold keys_index in Hsp. congruence.
    + intros i [? Hsp]. split; [done|]. by apply Forall_insert.
  - split_if; [done|]. conds.
    destruct (derive_walk _ _ _ _) as [[ck L]|] eqn:Hd; [|done]. cbn [mbind option_bind].
    destruct (dm_ratchet_step _ _) as [[mk ckn]|]; [|done]. cbn [mbind option_bind].
    destruct (crypto_aes256gcm_decrypt _ _ _ _ _) as [pt|]; [|done]. cbn.
    apply derive_walk_indices in Hd.
    assert (HL : Forall (λ e, ch_index chain ≤ sk_index e < j) L).
    { eapply Forall_impl; [exact Hd|]. intros e [He|He]; [by apply not_elem_of_nil in He|].
      simpl in He. lia. }
    unfold skip_wf, spent. cbn [ch_index]. rewrite u16_id by (cint_unfold; lia).
    split; [split; [lia|]|split; [|split; [done|]]].
    + apply cache_skipped_ok; [apply (skip_ok_mono (ch_index chain)); [lia|done]|].
      eapply Forall_impl; [exact HL|]. intros e He; simpl in He. lia.
    + intros _. split; [|intros [? _]; lia]. split; [lia|]. apply cache_skipped_other.
      * apply Forall_lookup. intros s e He. unfold keys_index. destruct (sk_used e) eqn:Hu; [|done].
        destruct Hok as [_ Hok]. destruct (Hok _ _ He Hu). simpl. lia.
      * eapply Forall_impl; [exact HL|]. intros e He; simpl in He. lia.
    + intros i [Hic Hsp]. split; [lia|]. apply cache_skipped_other; [done|].
      eapply Forall_impl; [exact HL|]. intros e He; simpl in He. lia.
Qed.

(** A session in use: messages sent, any frames received, changes of epoch. *)
Inductive dm_op :=
| OpSend (m : dm_msg)
| OpRecv (f : dm_frame)
| OpRekey (new_dh : list Z) (addr_self addr_peer new_epoch : Z).

Definition opened_on_current (s : dm_session_t) (f : dm_frame) : bool :=
  match dm_base_aad (f_header f) (f_src f) with
  | None => false
  | Some base =>
      w_rc (dm_recv_walk (r_recv (ss_ratchet s)) (r_skip (ss_ratchet s)) (frame_index (f_framed f))
              (base ++ take DM_RATCHET_HEADER_SIZE (f_framed f)) (f_nonce f)
              (drop DM_RATCHET_HEADER_SIZE (f_framed f)) (f_tag f)) =? DM_DECRYPT_OK
  end.

(** The session, the number of its current receive chain, and the (chain, index)
    of the key that opened a frame. *)
Definition dm_op_step (sk : dm_session_t * Z) (o : dm_op) : dm_session_t * Z * list (Z * Z) :=
  let '(s, k) := sk in
  match o with
  | OpSend m =>
      ((dm_session_ratchet_encrypt s (m_header m) (m_src m) (m_pt m) (m_nonce m)).2, k, [])
  | OpRecv f =>
      let '(rc, _, s') := recv_frame s f in
      (s', k, if rc =? DM_DECRYPT_OK
              then [(if opened_on_current s f then k else k - 1, frame_index (f_framed f))] else [])
  | OpRekey dh a b e => ((dm_session_epoch_bump s dh a b e).2, k + 1, [])
  end.
Fixpoint keys_used (sk : dm_session_t * Z) (ops : list dm_op) : list (Z * Z) :=
  match ops with
  | [] => []
  | o :: ops => let '(sk, used) := dm_op_step sk o in used ++ keys_used sk ops
  end.

Definition session_wf (s : dm_session_t) : Prop :=
  let r := ss_ratchet s in
  skip_wf (r_recv r) (r_skip r) ∧ skip_wf (r_prev_recv r) (r_prev_skip r).
Definition key_gone (s : dm_session_t) (k : Z) (u : Z * Z) : Prop :=
  let r := ss_ratchet s in
  u.1 ≤ k ∧ (u.1 = k → spent (r_recv r) (r_skip r) u.2) ∧
  (u.1 = k - 1 → ch_valid (r_prev_recv r) = true → spent (r_prev_recv r) (r_prev_skip r) u.2).

Lemma zero_wf : skip_wf chain_zero skip_init.
Proof. split; [done|]. apply skip_init_ok. Qed.

Lemma recv_frame_spent s k f :
  session_wf s → frame_index (f_framed f) ≠ 65535 →
  let '(s', k', used) := dm_op_step (s, k) (OpRecv f) in
  session_wf s' ∧ Forall (key_gone s' k') used ∧ Forall (λ u, ¬ key_gone s k u) used ∧
  ∀ u, key_gone s k u → key_gone s' k' u.
Proof.
  intros [Hr Hp] Hidx.
  assert (Hj : 0 ≤ frame_index (f_framed f) < 65535).
  { pose proof (u16_range (Z.lor (nth 1 (f_framed f) 0 << 8) (nth 2 (f_framed f) 0))).
    unfold frame_index in *. cint_unfold. lia. }
  unfold dm_op_step, recv_frame, dm_session_ratchet_decrypt, opened_on_current.
  destruct (negb (ch_valid (r_recv (ss_ratchet s)))); [done|].
  destruct (length (f_framed f) <? DM_RATCHET_HEADER_SIZE)%nat; [done|].
  destruct (dm_base_aad _ _) as [base|]; [|done].
  pose proof (λ c k, recv_walk_spent c k (frame_index (f_framed f))
    (base ++ take DM_RATCHET_HEADER_SIZE (f_framed f)) (f_nonce f)
    (drop DM_RATCHET_HEADER_SIZE (f_framed f)) (f_tag f)) as Hwalk.
  destruct (Hwalk _ _ Hr Hj) as (Hwf1 & Hok1 & _ & Hst1).
  set (w := dm_recv_walk (r_recv _) _ _ _ _ _ _) in *.
  destruct (w_rc w =? DM_DECRYPT_OK) eqn:E; conds.
  - rewrite E in *. destruct (Hok1 eq_refl) as [Hsp Hnsp].
    assert (Hafter : ∃ n, after_current (ss_ratchet s) (w_chain w) (w_skip w) =
        mk_ratchet (r_rk (ss_ratchet s)) (r_send (ss_ratchet s)) (w_chain w) (w_skip w) chain_zero skip_init n ∨
      after_current (ss_ratchet s) (w_chain w) (w_skip w) =
        mk_ratchet (r_rk (ss_ratchet s)) (r_send (ss_ratchet s)) (w_chain w) (w_skip w)
          (r_prev_recv (ss_ratchet s)) (r_prev_skip (ss_ratchet s)) n).
    { unfold after_current. destruct (ch_valid _); [split_if|]; eexists; [left|right|right]; done. }
    destruct Hafter as [n [Ha|Ha]]; rewrite Ha; unfold session_wf, key_gone; cbn;
      (split; [split; [done|first [exact Hp|exact zero_wf]]|]);
      (split; [apply Forall_singleton; cbn; split; [lia|]; split; [done|lia]|]);
      (split; [apply Forall_singleton; cbn; intros (_ & Hs & _); auto|]);
      intros u (H1 & H2 & H3); (split; [done|]); (split; [by auto|]); first [done|exact H3].
  - destruct (ch_valid (r_prev_recv (ss_ratchet s))) eqn:Hv; [|assert ((w_rc w =? DM_DECRYPT_OK) = false) as -> by lia; done].
    destruct (Hwalk _ _ Hp Hj) as (Hwf2 & Hok2 & _ & Hst2).
    set (p := dm_recv_walk (r_prev_recv _) _ _ _ _ _ _) in *.
    destruct (w_rc p =? DM_DECRYPT_OK) eqn:E2; conds; [|assert ((w_rc w =? DM_DECRYPT_OK) = false) as -> by lia; done].
    destruct (Hok2 E2) as [Hsp Hnsp]. unfold session_wf, key_gone. cbn.
    split; [done|]. split; [apply Forall_singleton; cbn; split; [lia|]; split; [lia|done]|].
    split; [apply Forall_singleton; cbn; intros (_ & _ & Hs); auto|].
    intros u (H1 & H2 & H3). split; [done|]. split; [done|]. auto.
Qed.

Lemma op_step_spent s k o :
  session_wf s → match o with OpRecv f => frame_index (f_framed f) ≠ 65535 | _ => True end →
  let '(s', k', used) := dm_op_step (s, k) o in
  session_wf s' ∧ Forall (key_gone s' k') used ∧ Forall (λ u, ¬ key_gone s k u) used ∧
  ∀ u, key_gone s k u → key_gone s' k' u.
Proof.
  destruct o as [m|f|dh a b e]; intros Hwf Hf; [|by apply recv_frame_spent|].
  - cbn. unfold dm_session_ratchet_encrypt.
    destruct (negb _); [done|]. destruct (255 <? _)%nat; [done|].
    destruct (dm_ratchet_step _ _) as [[mk ckn]|]; [|done]. destruct (dm_base_aad _ _); [|done].
    destruct (crypto_aes256gcm_encrypt _ _ _ _) as [[ct tag]|]; [|done]. done.
  - cbn. unfold dm_session_epoch_bump. destruct Hwf as [Hr Hp].
    destruct (_ ≫= _) as [[[rk lohi] hilo]|]; unfold session_wf, key_gone; cbn.
    + split; [by split; [apply zero_wf|]|]. split; [constructor|]. split; [constructor|].
      intros u (H1 & H2 & H3). split; [lia|]. split; [lia|]. intros Hu _. apply H2. lia.
    + split; [split; apply zero_wf|]. split; [constructor|]. split; [constructor|].
      intros u (H1 & H2 & H3). split; [lia|]. split; [lia|done].
Qed.

Lemma keys_used_fresh ops : ∀ s k seen,
  session_wf s → Forall (key_gone s k) seen →
  Forall (λ o, match o with OpRecv f => frame_index (f_framed f) ≠ 65535 | _ => True end) ops →
  NoDup seen → NoDup (seen ++ keys_used (s, k) ops).
Proof.
  induction ops as [|o ops IH]; intros s k seen Hwf Hseen Hops Hnd; cbn [keys_used].
  - by rewrite app_nil_r.
  - inversion_clear Hops as [|? ? Ho Hops'].
    pose proof (op_step_spent s k o Hwf Ho) as Hstep.
    destruct (dm_op_step (s, k) o) as [[s' k'] used] eqn:E.
    destruct Hstep as (Hwf' & Hu & Hnew & Hkeep). rewrite app_assoc. apply IH; [done| |done|].
    + apply Forall_app. split; [|done]. eapply Forall_impl; [exact Hseen|]. exact Hkeep.
    + apply NoDup_app. split; [done|]. split.
      * intros x Hx Hxu. rewrite list.Forall_forall in Hseen, Hnew. by apply (Hnew x), Hseen.
      * unfold dm_op_step in E. destruct o; [injection E as <- <- <-; constructor| |injection E as <- <- <-; constructor].
        destruct (recv_frame _ _) as [[rc ?] ?]. injection E as <- <- <-.
        split_if; [apply NoDup_singleton|constructor].
Qed.
End Spent.

(** ** Change of epoch *)

Section Epoch.
Context `{DmCryptoLaws}.

(** The frames the current chain opened along a run. *)
Fixpoint opened_count (s : dm_session_t) (fs : list dm_frame) : nat :=
  match fs with
  | [] => 0
  | f :: fs =>
      let '(rc, _, s') := recv_frame s f in
      (if (rc =? DM_DECRYPT_OK)%Z && opened_on_current s f then 1 else 0) + opened_count s' fs
  end.

Lemma recv_walk_valid chain skip i aad nonce ct tag :
  ch_valid (w_chain (dm_recv_walk chain skip i aad nonce ct tag)) = ch_valid chain.
Proof.
  unfold dm_recv_walk. destruct (i <? ch_index chain).
  - destruct (find_index _ skip); [|done]. by destruct (crypto_aes256gcm_decrypt _ _ _ _ _).
  - destruct (i >? _); [done|]. by destruct (_ ≫= _) as [[[? ?] ?]|].
Qed.

Lemma recv_walk_pt chain skip i aad nonce ct tag :
  let w := dm_recv_walk chain skip i aad nonce ct tag in w_rc w = DM_DECRYPT_OK → is_Some (w_pt w).
Proof.
  unfold dm_recv_walk. destruct (i <? ch_index chain).
  - destruct (find_index _ skip); [|done]. destruct (crypto_aes256gcm_decrypt _ _ _ _ _); [by eexists|done].
  - destruct (i >? _); [done|]. destruct (_ ≫= _) as [[[? ?] ?]|]; [by eexists|done].
Qed.

Definition grace_left (s : dm_session_t) (n : Z) : Prop :=
  let r := ss_ratchet s in
  0 ≤ n ∧ (ch_valid (r_prev_recv r) = true ↔ n < DM_EPOCH_GRACE_MSGS) ∧
  (n < DM_EPOCH_GRACE_MSGS → r_new_epoch_msgs r = n).

Lemma recv_frame_grace s f n :
  grace_left s n →
  let '(rc, _, s') := recv_frame s f in
  grace_left s' (n + (if (rc =? DM_DECRYPT_OK) && opened_on_current s f then 1 else 0)).
Proof.
  intros (Hn & Hv & Hm).
  assert (Hsame : grace_left s (n + 0)) by (by rewrite Z.add_0_r).
  unfold recv_frame, dm_session_ratchet_decrypt, opened_on_current.
  destruct (negb _); [done|]. destruct (_ <? _)%nat; [done|].
  destruct (dm_base_aad _ _) as [base|]; [|done].
  set (w := dm_recv_walk (r_recv _) _ _ _ _ _ _).
  destruct (w_rc w =? DM_DECRYPT_OK) eqn:E.
  - rewrite Z.eqb_refl. cbn [andb]. unfold grace_left, after_current. unfold DM_EPOCH_GRACE_MSGS in *.
    change (Z.of_nat DM_MAX_SKIP) with 16 in *.
    destruct (ch_valid (r_prev_recv (ss_ratchet s))) eqn:Hp.
    + assert (Hlt : n < 16) by (by apply Hv). rewrite (Hm Hlt).
      assert ((n <? 65535) = true) as -> by lia. rewrite u16_id by (cint_unfold; lia).
      split_if; conds; cbn; (split; [lia|]); (split; [|lia]).
      * split; [done|lia].
      * rewrite Hp. split; [lia|done].
    + cbn. split; [lia|]. assert (¬ n < 16) by (intros Hlt; apply Hv in Hlt; congruence).
      rewrite Hp. split; [split; [done|lia]|lia].
  - rewrite ?E. cbn [andb].
    destruct (ch_valid (r_prev_recv (ss_ratchet s))) eqn:Hp; [|by rewrite andb_false_r].
    set (p := dm_recv_walk (r_prev_recv _) _ _ _ _ _ _).
    destruct (w_rc p =? DM_DECRYPT_OK) eqn:E2; [|by rewrite andb_false_r].
    rewrite andb_false_r, Z.add_0_r. unfold grace_left. cbn. split; [done|]. split; [|done].
    unfold p. by rewrite recv_walk_valid, Hp.
Qed.

Lemma recv_all_grace fs : ∀ s n,
  grace_left s n → grace_left (recv_all s fs).2 (n + Z.of_nat (opened_count s fs)).
Proof.
  induction fs as [|f fs IH]; intros s n Hg; cbn [recv_all opened_count].
  - by rewrite Z.add_0_r.
  - pose proof (recv_frame_grace s f n Hg) as Hs. destruct (recv_frame s f) as [[rc pt] s'].
    specialize (IH s' _ Hs). destruct (recv_all s' fs) as [rs s2]. cbn [snd] in *.
    replace (n + Z.of_nat (_ + opened_count s' fs)) with
      (n + (if (rc =? DM_DECRYPT_OK) && opened_on_current s f then 1 else 0) + Z.of_nat (opened_count s' fs));
      [done|]. destruct (_ && _); lia.
Qed.

(** A frame of the previous epoch that does not open under the current keys. *)
Lemma recv_previous ck0 s w i pt f :
  chain_sim ck0 (r_prev_recv (ss_ratchet s)) (r_prev_skip (ss_ratchet s)) w →
  ch_valid (r_recv (ss_ratchet s)) = true → ch_valid (r_prev_recv (ss_ratchet s)) = true →
  opened_on_current s f = false → Z.of_nat i < 65520 →
  (∀ j, (j ≤ i)%nat → is_Some (mk_at ck0 j)) → genuine ck0 i pt f →
  (window_recv w i).1 = DM_DECRYPT_OK →
  let '(rc, got, s') := recv_frame s f in
  rc = DM_DECRYPT_OK ∧ got = Some pt ∧ r_recv (ss_ratchet s') = r_recv (ss_ratchet s) ∧
  ch_valid (r_prev_recv (ss_ratchet s')) = true ∧
  chain_sim ck0 (r_prev_recv (ss_ratchet s')) (r_prev_skip (ss_ratchet s')) (window_recv w i).2.
Proof.
  intros Hsim Hv Hp Hcur Hi Hkeys (mk & base & epoch & ct & Hmk & Hb & Henc & Hf) Hok.
  unfold recv_frame, dm_session_ratchet_decrypt, opened_on_current in *. rewrite Hb, Hf in *.
  rewrite Hv. cbn [negb].
  assert ((length (ratchet_header epoch (Z.of_nat i) ++ ct) <? DM_RATCHET_HEADER_SIZE)%nat = false) as ->
    by (rewrite length_app; apply Nat.ltb_ge; unfold DM_RATCHET_HEADER_SIZE; simpl; lia).
  rewrite Hcur, Hp. apply gcm_inverse in Henc.
  destruct (recv_walk_sim ck0 _ _ w i mk pt (base ++ ratchet_header epoch (Z.of_nat i)) (f_nonce f) ct
    (f_tag f) Hsim Hi Hkeys Hmk Henc) as (Hrc & Hsim' & Hpt & Hval & _).
  rewrite frame_index_header by lia.
  change (drop DM_RATCHET_HEADER_SIZE (ratchet_header epoch (Z.of_nat i) ++ ct)) with ct.
  change (take DM_RATCHET_HEADER_SIZE (ratchet_header epoch (Z.of_nat i) ++ ct)) with
    (ratchet_header epoch (Z.of_nat i)).
  set (r := dm_recv_walk _ _ _ _ _ _ _) in *. rewrite Hrc, Hok, Z.eqb_refl. cbn.
  rewrite Hrc in Hpt. split; [done|]. split; [by apply Hpt|]. split; [done|].
  split; [congruence|done].
Qed.

Lemma epoch_bump_matches A B dh a b e :
  a ≠ b → r_rk (ss_ratchet A) = r_rk (ss_ratchet B) →
  let '(ra, A') := dm_session_epoch_bump A dh a b e in
  let '(rb, B') := dm_session_epoch_bump B dh b a e in
  ra = rb ∧ r_rk (ss_ratchet A') = r_rk (ss_ratchet B') ∧
  ch_ck (r_send (ss_ratchet A')) = ch_ck (r_recv (ss_ratchet B')) ∧
  ch_ck (r_recv (ss_ratchet A')) = ch_ck (r_send (ss_ratchet B')).
Proof.
  intros Hab Hrk. unfold dm_session_epoch_bump, dm_ratchet_install_chains. rewrite Hrk.
  destruct (lo_hi_comm a b) as [-> ->].
  destruct (_ ≫= _) as [[[rk lohi] hilo]|]; [|done].
  rewrite self_is_lo_comm by done. destruct (a =? _); done.
Qed.
End Epoch.

(** ** The properties *)

Section Properties.
Context `{DmCryptoLaws}.


(** C12. Two sessions established from one handshake secret: whatever order the
    network delivers the sender's first 65520 messages in, with losses and
    duplicates and any hop limits, the receiver's verdict on each frame is the
    window's and every accepted frame yields the plaintext sent; a schedule
    without duplicates in which no index is more than 16 ahead of the next
    expected one or more than 16 behind it is delivered completely. *)
Theorem ratchet_refines_window sA sB ikm a b A B ms frames A' (σ : list nat) (hops : list Z)
    (Hab : a ≠ b) (HA : dm_session_ratchet_init_state sA ikm a b = (0, A))
    (HB : dm_session_ratchet_init_state sB ikm b a = (0, B))
    (Hlen : Z.of_nat (length ms) ≤ 65520) (Hsend : send_all A ms = Some (frames, A'))
    (Hσ : Forall (λ i, (i < length ms)%nat) σ) (Hhops : length hops = length σ) :
  let arrivals := zip_with (λ i hop, at_hop (frames !!! i) hop) σ hops in
  (recv_all B arrivals).1 =
    (λ v, (v.2, if decide (v.2 = DM_DECRYPT_OK) then (m_pt <$> ms) !! v.1 else None)) <$>
      window_run window_init σ ∧
  (in_window 0 [] σ = true →
   (recv_all B arrivals).1 = (λ i, (DM_DECRYPT_OK, (m_pt <$> ms) !! i)) <$> σ).
Proof.
  intros arrivals.
  destruct (init_state_matches sA sB ikm a b A B Hab HA HB) as (_ & Hck & _ & Hall).
  inversion_clear Hall as [|? ? (_ & _ & _ & HiA & _) Hall']. 
  inversion_clear Hall' as [|? ? (_ & HvB & HpB & _ & HiB & HsB) _].
  set (ck0 := ch_ck (r_send (ss_ratchet A))) in *.
  destruct (send_all_genuine ck0 ms A A' 0 frames) as [Hfl Hgen]; [by rewrite HiA|done|lia|done|].
  assert (Hg : ∀ i m, ms !! i = Some m → genuine ck0 i (m_pt m) (frames !!! i)).
  { intros i m Hm. destruct (Hgen i m Hm) as (f & Hf & Hgf). by rewrite (list_lookup_total_correct _ _ _ Hf). }
  assert (Harr : Forall2 (λ i f, ∃ pt, (m_pt <$> ms) !! i = Some pt ∧ genuine ck0 i pt f) σ arrivals).
  { unfold arrivals. clear -Hσ Hhops Hg. revert hops Hhops.
    induction Hσ as [|i σ Hi Hσ IH]; intros [|hl hops] Hh; simpl in *; try done.
    destruct (lookup_lt_is_Some_2 ms i Hi) as [m Hm].
    constructor; [|apply IH; lia]. exists (m_pt m). split; [by rewrite list_lookup_fmap, Hm|].
    by apply genuine_hop, Hg. }
  assert (Hkeys : ∀ i, (i < length (m_pt <$> ms))%nat → is_Some (mk_at ck0 i)).
  { intros i Hi. rewrite length_fmap in Hi. destruct (lookup_lt_is_Some_2 ms i Hi) as [m Hm].
    destruct (Hg i m Hm) as (mk & _ & _ & _ & Hmk & _). eauto. }
  assert (Hsim : chain_sim ck0 (r_recv (ss_ratchet B)) (r_skip (ss_ratchet B)) window_init).
  { rewrite HsB. by apply window_init_sim. }
  assert (Hrun := recv_all_window ck0 (m_pt <$> ms) arrivals σ B window_init Hsim HvB
    (or_introl HpB) Harr Hkeys ltac:(by rewrite length_fmap)).
  split; [done|]. intros Hin. rewrite Hrun.
  assert (Hok : Forall (λ v, v.2 = DM_DECRYPT_OK) (window_run window_init σ)).
  { apply (in_window_run σ window_init []); [by destruct Hsim as (_ & _ & _ & ?)| |done].
    intros j Hj. simpl in Hj. lia. }
  by apply window_run_ok.
Qed.

(** C13. Over any sequence of sends, receptions of arbitrary frames (but none of
    index 65535) and changes of epoch, no message key opens two frames: the pairs
    of receive chain and index that opened a frame are distinct. *)
Theorem message_keys_single_use s ops
    (Hwf : session_wf s)
    (Hops : Forall (λ o, match o with OpRecv f => frame_index (f_framed f) ≠ 65535 | _ => True end) ops) :
  NoDup (keys_used (s, 0) ops).
Proof. apply (keys_used_fresh ops s 0 [] Hwf); [constructor|done|constructor]. Qed.

(** A change of epoch done by both ends from the same root and secret gives
    both the same new root and matching chains, or wipes both; the receiver keeps
    its old chain, exactly until the new chain has opened 16 frames, whatever
    else arrives; and while it is kept, a frame sent in the old epoch that does
    not open under the new keys is still delivered when the old window holds its
    index. *)
Theorem epoch_change_grace A B dh a b e A' B' rc
    (Hab : a ≠ b) (Hrk : r_rk (ss_ratchet A) = r_rk (ss_ratchet B))
    (HA : dm_session_epoch_bump A dh a b e = (0, A'))
    (HB : dm_session_epoch_bump B dh b a e = (rc, B'))
    (Hv : ch_valid (r_recv (ss_ratchet B)) = true) :
  rc = 0 ∧ r_rk (ss_ratchet A') = r_rk (ss_ratchet B') ∧
  ch_ck (r_send (ss_ratchet A')) = ch_ck (r_recv (ss_ratchet B')) ∧
  ch_ck (r_recv (ss_ratchet A')) = ch_ck (r_send (ss_ratchet B')) ∧
  (∀ fs, ch_valid (r_prev_recv (ss_ratchet (recv_all B' fs).2)) = true ↔
         Z.of_nat (opened_count B' fs) < DM_EPOCH_GRACE_MSGS) ∧
  (∀ ck0 w i pt f, chain_sim ck0 (r_recv (ss_ratchet B)) (r_skip (ss_ratchet B)) w →
     (window_recv w i).1 = DM_DECRYPT_OK → Z.of_nat i < 65520 →
     (∀ j, (j ≤ i)%nat → is_Some (mk_at ck0 j)) → genuine ck0 i pt f →
     opened_on_current B' f = false →
     (recv_frame B' f).1 = (DM_DECRYPT_OK, Some pt)).
Proof.
  pose proof (epoch_bump_matches A B dh a b e Hab Hrk) as Hm. rewrite HA, HB in Hm.
  destruct Hm as (<- & Hr & H1 & H2).
  assert (HB' : ch_valid (r_recv (ss_ratchet B')) = true ∧ r_prev_recv (ss_ratchet B') = r_recv (ss_ratchet B) ∧
                r_prev_skip (ss_ratchet B') = r_skip (ss_ratchet B) ∧ r_new_epoch_msgs (ss_ratchet B') = 0).
  { clear -HB. unfold dm_session_epoch_bump in HB. destruct (_ ≫= _) as [[[? ?] ?]|]; [by injection HB as <-|done]. }
  destruct HB' as (Hv' & Hp & Hps & Hn).
  split; [done|]. split; [done|]. split; [done|]. split; [done|]. split.
  - intros fs. destruct (recv_all_grace fs B' 0) as (_ & Hg & _); [|exact Hg].
    split; [done|]. split; [by rewrite Hp|done].
  - intros ck0 w i pt f Hsim Hw Hi Hk Hg Hcur.
    pose proof (recv_previous ck0 B' w i pt f) as Hrec. rewrite Hp, Hps in Hrec.
    specialize (Hrec Hsim Hv' Hv Hcur Hi Hk Hg Hw).
    destruct (recv_frame B' f) as [[rc got] s']. destruct Hrec as (-> & -> & _). done.
Qed.

(** Failures are closed: a frame that is not opened and a message that is not
    encrypted leave the session as it was; a failed establishment or change of
    epoch leaves a session that encrypts nothing and opens nothing. *)
Theorem dm_failures_closed s :
  (∀ f, let '(rc, got, s') := recv_frame s f in
        (rc = DM_DECRYPT_OK ∧ is_Some got) ∨ (rc ≠ DM_DECRYPT_OK ∧ got = None ∧ s' = s)) ∧
  (∀ h src pt nonce, let '(r, s') := dm_session_ratchet_encrypt s h src pt nonce in
        r = None → s' = s) ∧
  (∀ ikm dh a b e s',
     dm_session_ratchet_init_state s ikm a b = (-1, s') ∨ dm_session_epoch_bump s dh a b e = (-1, s') →
     r_rk (ss_ratchet s') = replicate 32 0 ∧ ss_session_key s' = replicate 32 0 ∧
     (∀ h src pt nonce, dm_session_ratchet_encrypt s' h src pt nonce = (None, s')) ∧
     (∀ f, recv_frame s' f = (DM_DECRYPT_FAIL, None, s'))).
Proof.
  split; [|split].
  - intros f. unfold recv_frame, dm_session_ratchet_decrypt.
    destruct (negb _); [by right|]. destruct (_ <? _)%nat; [by right|].
    destruct (dm_base_aad _ _) as [base|]; [|by right].
    pose proof (λ c k, recv_walk_pt c k (frame_index (f_framed f)) (base ++ take DM_RATCHET_HEADER_SIZE (f_framed f))
      (f_nonce f) (drop DM_RATCHET_HEADER_SIZE (f_framed f)) (f_tag f)) as Hw.
    pose proof (Hw (r_recv (ss_ratchet s)) (r_skip (ss_ratchet s))) as Hc.
    pose proof (Hw (r_prev_recv (ss_ratchet s)) (r_prev_skip (ss_ratchet s))) as Hp.
    split_if; conds; [left; auto|]. destruct (ch_valid _); [|by right].
    split_if; conds; [left; auto|by right].
  - intros h src pt nonce. unfold dm_session_ratchet_encrypt.
    destruct (negb _); [done|]. destruct (_ <? _)%nat; [done|].
    destruct (dm_ratchet_step _ _) as [[? ?]|]; [|done]. destruct (dm_base_aad _ _); [|done].
    by destruct (crypto_aes256gcm_encrypt _ _ _ _) as [[? ?]|].
  - intros ikm dh a b e s' Hfail.
    assert (s' = ratchet_wiped s) as ->; [|done].
    destruct Hfail as [Hf|Hf].
    + unfold dm_session_ratchet_init_state in Hf. destruct (dm_ratchet_init _ _ _) as [[[? ?] ?]|]; [done|by injection Hf as <-].
    + unfold dm_session_epoch_bump in Hf. destruct (_ ≫= _) as [[[? ?] ?]|]; [done|by injection Hf as <-].
Qed.

(** A receive chain that has reached index 65520 refuses every further index:
    the bound [index + 16] wraps around 16 bits. *)
Theorem receive_chain_stalls chain skip index aad nonce ct tag
    (Hc : 65520 ≤ ch_index chain < 65536) (Hi : ch_index chain ≤ index < 65536) :
  dm_recv_walk chain skip index aad nonce ct tag = mk_walk DM_DECRYPT_TOO_FAR chain skip None.
Proof.
  unfold dm_recv_walk. assert ((index <? ch_index chain) = false) as -> by lia.
  change (Z.of_nat DM_MAX_SKIP) with 16.
  assert ((index >? u16 (ch_index chain + 16)) = true) as ->; [|done].
  rewrite Z.gtb_ltb. apply Z.ltb_lt. cint.
Qed.
End Properties.

(** ** Witnesses *)

Definition demo_ikm : list Z := Z.of_nat <$> seq 3 128.
#[local] Existing Instance toy_crypto.
Definition demo_A : dm_session_t := (dm_session_ratchet_init_state session_zero demo_ikm 1 2).2.
Definition demo_B : dm_session_t := (dm_session_ratchet_init_state session_zero demo_ikm 2 1).2.
Definition demo_msgs : list dm_msg :=
  (λ i, mk_msg (mk_header 4 1 1 4 2 (Z.of_nat i)) 1 [Z.of_nat i; 77] (replicate 12 (Z.of_nat i))) <$> seq 0 4.
Definition demo_sent : list dm_frame * dm_session_t := default ([], demo_A) (send_all demo_A demo_msgs).

Lemma ratchet_refines_window_witness :
  (recv_all demo_B (zip_with (λ i hop, at_hop (demo_sent.1 !!! i) hop) [2; 0; 3; 1]%nat [3; 2; 1; 4])).1 =
  [(0, Some [2; 77]); (0, Some [0; 77]); (0, Some [3; 77]); (0, Some [1; 77])].
Proof.
  destruct (ratchet_refines_window session_zero session_zero demo_ikm 1 2 demo_A demo_B demo_msgs
    demo_sent.1 demo_sent.2 [2; 0; 3; 1]%nat [3; 2; 1; 4]) as [_ Hall].
  - done.
  - vm_compute; reflexivity.
  - vm_compute; reflexivity.
  - done.
  - vm_compute; reflexivity.
  - repeat (apply Forall_cons_2; [vm_compute; lia|]). apply Forall_nil_2.
  - done.
  - rewrite Hall; [vm_compute; reflexivity|vm_compute; reflexivity].
Defined.

Lemma message_keys_single_use_witness :
  NoDup (keys_used (demo_B, 0)
    (OpRecv (demo_sent.1 !!! 1%nat) :: OpRecv (demo_sent.1 !!! 1%nat) ::
     OpRekey (replicate 32 5) 2 1 1 :: OpRecv (demo_sent.1 !!! 0%nat) ::
     OpRecv (demo_sent.1 !!! 2%nat) :: OpRecv (demo_sent.1 !!! 0%nat) :: [])).
Proof.
  apply message_keys_single_use.
  - split; (split; [vm_compute; discriminate|apply skip_init_ok]).
  - repeat (apply Forall_cons_2; [vm_compute; first [exact I|discriminate]|]). apply Forall_nil_2.
Defined.

Lemma epoch_change_grace_witness :
  let A' := (dm_session_epoch_bump demo_A (replicate 32 5) 1 2 1).2 in
  let B' := (dm_session_epoch_bump demo_B (replicate 32 5) 2 1 1).2 in
  ch_ck (r_send (ss_ratchet A')) = ch_ck (r_recv (ss_ratchet B')) ∧
  (recv_frame B' (demo_sent.1 !!! 2%nat)).1 = (0, Some [2; 77]).
Proof.
  destruct (epoch_change_grace demo_A demo_B (replicate 32 5) 1 2 1
    (dm_session_epoch_bump demo_A (replicate 32 5) 1 2 1).2
    (dm_session_epoch_bump demo_B (replicate 32 5) 2 1 1).2 0) as (_ & _ & Hck & _ & _ & Hold).
  1: done. 1-4: vm_compute; reflexivity.
  split; [exact Hck|].
  apply (Hold (ch_ck (r_send (ss_ratchet demo_A))) window_init 2%nat).
  - apply window_init_sim; vm_compute; reflexivity.
  - vm_compute; reflexivity.
  - lia.
  - intros [|[|[|j]]] Hj; [vm_compute; eexists; reflexivity..|lia].
  - destruct (send_all_genuine (ch_ck (r_send (ss_ratchet demo_A))) demo_msgs demo_A demo_sent.2 0 demo_sent.1)
      as [_ Hg]; [vm_compute; reflexivity..|].
    destruct (Hg 2%nat (mk_msg (mk_header 4 1 1 4 2 2) 1 [2; 77] (replicate 12 2))) as (f & Hf & Hgf); [vm_compute; reflexivity|].
    rewrite (list_lookup_total_correct _ _ _ Hf). exact Hgf.
  - vm_compute; reflexivity.
Defined.

Lemma receive_chain_stalls_witness :
  w_rc (dm_recv_walk (mk_chain (replicate 32 1) 65520 0 true) skip_init 65520 [] [] [] []) =
  DM_DECRYPT_TOO_FAR.
Proof. rewrite receive_chain_stalls; [reflexivity|simpl; lia|simpl; lia]. Defined.
