(* ===== verification/DmTable.v ===== *)
(** * The table of direct-message sessions
    ([components/dm_session/dm_session.c], [dm_alloc] and around it)

    32 session slots: lookup by peer, teardown, the pin checks, and allocation
    with the handshaking cap and the eviction order.  A pointer to a slot is its
    index. *)

From stdpp Require Import base numbers sets option decidable list.
From S2P Require Import Prelude Tables DmCrypto DmRatchet.

Definition DM_MAX_SESSIONS : nat := 32.
Definition DM_MAX_HANDSHAKING : nat := DM_MAX_SESSIONS / 4.
Definition DM_HANDSHAKE_STALE_MS : Z := 30000.

Abbreviation dm_table_t := (list dm_session_t).
Definition dm_table_init : dm_table_t := replicate DM_MAX_SESSIONS session_zero.

Definition dm_in_state (st : dm_state) (s : dm_session_t) : bool := bool_decide (ss_state s = st).
Definition slot_for_peer (peer_addr : Z) (s : dm_session_t) : bool :=
  negb (dm_in_state DM_STATE_NONE s) && (ss_peer_addr s =? peer_addr).
Definition dm_lookup (t : dm_table_t) (peer_addr : Z) : option nat :=
  find_index (slot_for_peer peer_addr) t.

Definition dm_session_teardown (t : dm_table_t) (peer_addr : Z) : bool * dm_table_t :=
  match dm_lookup t peer_addr with
  | None => (false, t)
  | Some i => (true, <[i := session_zero]> t)
  end.

Definition dm_pin_disagrees (s : dm_session_t) (pinned_x25519 : list Z) : bool :=
  dm_in_state DM_STATE_ACTIVE s && negb (bool_decide (ss_peer_id_pub s = pinned_x25519)).
Definition dm_verified_should_clear (s : dm_session_t) (pinned_x25519 : list Z) : bool :=
  ss_verified s && dm_pin_disagrees s pinned_x25519.

(** [None]: a null session. *)
Definition dm_handshake_is_stale (s : option dm_session_t) (now_ms stale_ms : Z) : bool :=
  match s with
  | None => false
  | Some s => if negb (dm_in_state DM_STATE_HANDSHAKING s) then false
              else (now_ms ⊖ ss_last_active_ms s) >=? stale_ms
  end.

(** A slot just taken: zeroed but for the peer and the two stamps. *)
Definition session_fresh (peer_addr now_ms : Z) : dm_session_t :=
  mk_session peer_addr (replicate 32 0) (replicate 32 0) now_ms now_ms 0 0 DM_STATE_NONE false
    ratchet_zero.

Definition handshaking_count (t : dm_table_t) : nat :=
  length (filter (λ s, ss_state s = DM_STATE_HANDSHAKING) t).

Definition verified_active (s : dm_session_t) : bool := dm_in_state DM_STATE_ACTIVE s && ss_verified s.
(** The scan for a victim: [for (i < n) if (protected) continue; if (victim < 0 ||
    last_active(i) < last_active(victim)) victim = i;] *)
Definition victim_step (t : dm_table_t) (victim : option nat) (i : nat) : option nat :=
  if verified_active (t !!! i) then victim
  else match victim with
       | None => Some i
       | Some v => if ss_last_active_ms (t !!! i) <? ss_last_active_ms (t !!! v) then Some i else Some v
       end.
Definition find_victim (t : dm_table_t) : option nat :=
  foldl (victim_step t) None (seq 0 (length t)).

Definition dm_alloc (t : dm_table_t) (peer_addr now_ms : Z) : option nat * dm_table_t :=
  match dm_lookup t peer_addr with
  | Some i => (Some i, t)
  | None =>
      if (DM_MAX_HANDSHAKING <=? handshaking_count t)%nat then (None, t)
      else match find_index (dm_in_state DM_STATE_NONE) t with
           | Some i => (Some i, <[i := session_fresh peer_addr now_ms]> t)
           | None =>
               match find_victim t with
               | None => (None, t)
               | Some v => (Some v, <[v := session_fresh peer_addr now_ms]> t)
               end
           end
  end.

(** ** The victim *)

Lemma find_victim_fold t ks : ∀ v0,
  match v0 with Some v => verified_active (t !!! v) = false | None => True end →
  match foldl (victim_step t) v0 ks with
  | None => v0 = None ∧ Forall (λ i, verified_active (t !!! i) = true) ks
  | Some v => verified_active (t !!! v) = false ∧ (v0 = Some v ∨ v ∈ ks) ∧
      (∀ u, v0 = Some u → ss_last_active_ms (t !!! v) ≤ ss_last_active_ms (t !!! u)) ∧
      Forall (λ i, verified_active (t !!! i) = false →
                   ss_last_active_ms (t !!! v) ≤ ss_last_active_ms (t !!! i)) ks
  end.
Proof.
  induction ks as [|i ks IH]; intros v0 Hv0; cbn [foldl].
  - destruct v0 as [v|]; [|done]. split; [done|]. split; [by left|]. split; [|constructor].
    intros u [= ->]. lia.
  - assert (Hstep : match victim_step t v0 i with
                    | Some v => verified_active (t !!! v) = false ∧ (v0 = Some v ∨ v = i) ∧
                        (∀ u, v0 = Some u → ss_last_active_ms (t !!! v) ≤ ss_last_active_ms (t !!! u)) ∧
                        (verified_active (t !!! i) = false →
                         ss_last_active_ms (t !!! v) ≤ ss_last_active_ms (t !!! i))
                    | None => v0 = None ∧ verified_active (t !!! i) = true
                    end).
    { unfold victim_step. destruct (verified_active (t !!! i)) eqn:Ei.
      - destruct v0 as [v|]; [|done]. split; [done|]. split; [by left|]. split; [|done]. intros u [= ->]. lia.
      - destruct v0 as [v|]; [|split; [done|]; split; [by right|]; split; [done|lia]].
        split_if; conds; (split; [done|]);
          (split; [first [by left|by right]|]); (split; [intros u [= <-]; lia|lia]). }
    specialize (IH (victim_step t v0 i)).
    destruct (foldl (victim_step t) (victim_step t v0 i) ks) as [v|].
    + destruct IH as (H1 & H2 & H3 & H4).
      { destruct (victim_step t v0 i); [by destruct Hstep|done]. }
      destruct (victim_step t v0 i) as [u|] eqn:Eu.
      * destruct Hstep as (Hu1 & Hu2 & Hu3 & Hu4). specialize (H3 u eq_refl).
        split; [done|]. split.
        { destruct H2 as [[= ->]|H2]; [|right; by right].
          destruct Hu2 as [?| ->]; [by left|right; by left]. }
        split; [intros w Hw; specialize (Hu3 w Hw); lia|].
        constructor; [intros Hi; specialize (Hu4 Hi); lia|done].
      * destruct Hstep as [-> Hi]. destruct H2 as [?|H2]; [done|].
        split; [done|]. split; [right; by right|]. split; [done|].
        constructor; [congruence|done].
    + destruct (victim_step t v0 i) as [u|]; [destruct IH as [? _]; [by destruct Hstep|done]|].
      destruct Hstep as [-> ?]. destruct IH as [_ ?]; [done|]. split; [done|]. by constructor.
Qed.

Lemma find_victim_spec t :
  match find_victim t with
  | None => Forall (λ s, verified_active s = true) t
  | Some v => ∃ s, t !! v = Some s ∧ verified_active s = false ∧
      ∀ i s', t !! i = Some s' → verified_active s' = false →
              ss_last_active_ms s ≤ ss_last_active_ms s'
  end.
Proof.
  pose proof (find_victim_fold t (seq 0 (length t)) None I) as H. unfold find_victim.
  destruct (foldl _ _ _) as [v|].
  - destruct H as (H1 & [?|H2] & _ & H4); [done|]. apply elem_of_seq in H2.
    destruct (lookup_lt_is_Some_2 t v) as [s Hs]; [lia|]. exists s. split; [done|].
    rewrite (list_lookup_total_correct _ _ _ Hs) in H1, H4. split; [done|].
    intros i s' Hi Hv. rewrite list.Forall_forall in H4.
    specialize (H4 i). rewrite (list_lookup_total_correct _ _ _ Hi) in H4. apply H4; [|done].
    apply elem_of_seq. apply lookup_lt_Some in Hi. lia.
  - destruct H as [_ H]. apply Forall_lookup. intros i s Hs. rewrite list.Forall_forall in H.
    specialize (H i). rewrite (list_lookup_total_correct _ _ _ Hs) in H. apply H.
    apply elem_of_seq. apply lookup_lt_Some in Hs. lia.
Qed.


(** ** What an allocation does *)

(** The sessions in use: one per peer. *)
Definition dm_table_ok (t : dm_table_t) : Prop :=
  length t = DM_MAX_SESSIONS ∧
  ∀ i j s s', t !! i = Some s → t !! j = Some s' →
    ss_state s ≠ DM_STATE_NONE → ss_state s' ≠ DM_STATE_NONE →
    ss_peer_addr s = ss_peer_addr s' → i = j.

Lemma dm_in_state_spec st s : dm_in_state st s = true ↔ ss_state s = st.
Proof. apply bool_decide_eq_true. Qed.
Lemma dm_in_state_false st s : dm_in_state st s = false ↔ ss_state s ≠ st.
Proof. apply bool_decide_eq_false. Qed.

Lemma slot_for_peer_spec p s :
  slot_for_peer p s = true ↔ ss_state s ≠ DM_STATE_NONE ∧ ss_peer_addr s = p.
Proof.
  unfold slot_for_peer. rewrite andb_true_iff, negb_true_iff, dm_in_state_false, Z.eqb_eq. done.
Qed.

Lemma dm_table_init_ok : dm_table_ok dm_table_init.
Proof.
  split; [apply length_replicate|]. intros i j s s' [-> _]%lookup_replicate _ Hs. by destruct Hs.
Qed.

Lemma dm_lookup_None t p :
  dm_lookup t p = None → ∀ i s, t !! i = Some s → ss_state s ≠ DM_STATE_NONE → ss_peer_addr s ≠ p.
Proof.
  intros H%find_index_None i s Hi Hs Hp. rewrite list.Forall_forall in H.
  specialize (H s (list_elem_of_lookup_2 _ _ _ Hi)).
  assert (slot_for_peer p s = true) by (by apply slot_for_peer_spec). congruence.
Qed.

Lemma dm_lookup_Some t p i :
  dm_lookup t p = Some i → ∃ s, t !! i = Some s ∧ ss_state s ≠ DM_STATE_NONE ∧ ss_peer_addr s = p.
Proof. intros (s & Hs & H%slot_for_peer_spec & _)%find_index_Some. eauto. Qed.

(** In a table with one session per peer, the lookup finds that session. *)
Lemma dm_lookup_unique t i s :
  dm_table_ok t → t !! i = Some s → ss_state s ≠ DM_STATE_NONE →
  dm_lookup t (ss_peer_addr s) = Some i.
Proof.
  intros [_ Hu] Hi Hs. destruct (dm_lookup t (ss_peer_addr s)) as [j|] eqn:E.
  - destruct (dm_lookup_Some _ _ _ E) as (s' & Hj & Hs' & Hp). f_equal. by eapply (Hu j i).
  - by destruct (dm_lookup_None _ _ E _ _ Hi Hs).
Qed.

(** Storing a session of [p] in the slot that holds [p], or in any slot when
    none does, keeps one session per peer. *)
Lemma dm_table_ok_insert t i s :
  dm_table_ok t →
  (∀ j s', t !! j = Some s' → ss_state s' ≠ DM_STATE_NONE → ss_peer_addr s' = ss_peer_addr s → j = i) →
  dm_table_ok (<[i := s]> t).
Proof.
  intros [Hl Hu] Hp. split; [by rewrite length_insert|].
  intros j k s1 s2 Hj Hk H1 H2 He.
  apply list_lookup_insert_Some in Hj as [(<- & <- & _)|[Hij Hj]];
    apply list_lookup_insert_Some in Hk as [(<- & <- & _)|[Hik Hk]]; [done| | |by eapply Hu].
  - symmetry. by apply (Hp k s2).
  - by apply (Hp j s1).
Qed.

(** A slot update that keeps the peer and does not bring an unused slot to life. *)
Lemma dm_table_ok_update t i s s' :
  dm_table_ok t → t !! i = Some s → ss_peer_addr s' = ss_peer_addr s →
  ss_state s ≠ DM_STATE_NONE → dm_table_ok (<[i := s']> t).
Proof.
  intros Hok Hi Hp Hs. apply dm_table_ok_insert; [done|].
  intros j s2 Hj H2 He. rewrite Hp in He. by eapply (proj2 Hok j i).
Qed.

Lemma dm_table_ok_clear t i : dm_table_ok t → dm_table_ok (<[i := session_zero]> t).
Proof.
  intros [Hl Hu]. split; [by rewrite length_insert|].
  intros j k s1 s2 Hj Hk H1 H2 He.
  apply list_lookup_insert_Some in Hj as [(<- & <- & _)|[Hij Hj]]; [by destruct H1|].
  apply list_lookup_insert_Some in Hk as [(<- & <- & _)|[Hik Hk]]; [by destruct H2|by eapply Hu].
Qed.

Lemma handshaking_count_insert t i s s' :
  t !! i = Some s →
  (handshaking_count (<[i := s']> t) ≤
   handshaking_count t + (if dm_in_state DM_STATE_HANDSHAKING s' then 1 else 0))%nat.
Proof.
  intros Hi. unfold handshaking_count.
  pose proof (Permutation_length
    (filter_insert_perm (λ s, ss_state s = DM_STATE_HANDSHAKING) t i s s' Hi)) as H.
  rewrite !length_app in H.
  destruct (dm_in_state DM_STATE_HANDSHAKING s') eqn:E.
  - cbn [filter list_filter] in H. repeat case_decide; cbn [length] in H; lia.
  - apply dm_in_state_false in E. cbn [filter list_filter] in H.
    rewrite (decide_False (P := ss_state s' = DM_STATE_HANDSHAKING)) in H by done.
    cbn [length] in H. lia.
Qed.

Lemma dm_alloc_cases t p now :
  match dm_alloc t p now with
  | (Some i, t') =>
      (dm_lookup t p = Some i ∧ t' = t) ∨
      (dm_lookup t p = None ∧ (handshaking_count t < DM_MAX_HANDSHAKING)%nat ∧
       t' = <[i := session_fresh p now]> t ∧
       ∃ s, t !! i = Some s ∧
         (ss_state s = DM_STATE_NONE ∨
          Forall (λ s, ss_state s ≠ DM_STATE_NONE) t ∧ verified_active s = false ∧
          ∀ j s', t !! j = Some s' → verified_active s' = false →
                  ss_last_active_ms s ≤ ss_last_active_ms s'))
  | (None, t') =>
      t' = t ∧ dm_lookup t p = None ∧
      ((DM_MAX_HANDSHAKING ≤ handshaking_count t)%nat ∨ Forall (λ s, verified_active s = true) t)
  end.
Proof.
  unfold dm_alloc. destruct (dm_lookup t p) as [i|]; [by left|].
  destruct (DM_MAX_HANDSHAKING <=? handshaking_count t)%nat eqn:Hc.
  { split; [done|]. split; [done|]. left. by apply Nat.leb_le. }
  apply Nat.leb_gt in Hc.
  destruct (find_index (dm_in_state DM_STATE_NONE) t) as [i|] eqn:Hf.
  { destruct (find_index_Some _ _ _ Hf) as (s & Hs & Hn & _). apply dm_in_state_spec in Hn.
    right. eauto 10. }
  apply find_index_None in Hf. pose proof (find_victim_spec t) as Hv.
  destruct (find_victim t) as [v|]; [|by auto].
  destruct Hv as (s & Hs & H1 & H2). right. split; [done|]. split; [done|]. split; [done|].
  exists s. split; [done|]. right. split; [|done].
  eapply list.Forall_impl; [exact Hf|]. intros x Hx. by apply dm_in_state_false.
Qed.

(** Storing a session of [p] in the slot allocated for it. *)
Lemma dm_alloc_store t p now i t' s :
  dm_alloc t p now = (Some i, t') → dm_table_ok t →
  (handshaking_count t ≤ DM_MAX_HANDSHAKING)%nat → ss_peer_addr s = p →
  dm_table_ok (<[i := s]> t') ∧ (i < length t')%nat ∧
  (dm_lookup t p = None ∨ ss_state s ≠ DM_STATE_HANDSHAKING →
   (handshaking_count (<[i := s]> t') ≤ DM_MAX_HANDSHAKING)%nat).
Proof.
  intros Ha Hok Hcap Hp. pose proof (dm_alloc_cases t p now) as H. rewrite Ha in H.
  destruct H as [[Hl ->]|(Hl & Hc & -> & s0 & Hs0 & _)].
  - destruct (dm_lookup_Some _ _ _ Hl) as (s0 & Hs0 & Hn & Hp0).
    split; [eapply dm_table_ok_update; [done..| |done]; congruence|].
    split; [by eapply lookup_lt_Some|]. intros [?|Hst]; [congruence|].
    pose proof (handshaking_count_insert t i s0 s Hs0) as Hi.
    apply dm_in_state_false in Hst. rewrite Hst in Hi. lia.
  - rewrite list_insert_insert_eq, length_insert. split.
    { apply dm_table_ok_insert; [done|]. intros j s2 Hj H2 He. rewrite Hp in He.
      by destruct (dm_lookup_None _ _ Hl _ _ Hj H2). }
    split; [by eapply lookup_lt_Some|]. intros _.
    pose proof (handshaking_count_insert t i s0 s Hs0). destruct (dm_in_state _ s); lia.
Qed.

(** Allocating a session for a peer in a table with one session per peer
    returns the peer's session if it has one and touches nothing; otherwise it
    takes a free slot, or when there is none the slot least recently active among
    those that are not both active and SAS-verified, leaves every other slot as it
    was, and refuses only when eight handshakes are under way or every session is
    verified and active.  So no verified active session is ever evicted, however
    many handshakes strangers start, and storing the new peer's session, whatever
    its contents, keeps one session per peer and at most eight handshakes among
    sessions that were allocated. *)
Theorem session_allocation (t : dm_table_t) (peer now : Z) :
  dm_table_ok t → (handshaking_count t ≤ DM_MAX_HANDSHAKING)%nat →
  (∀ i s, t !! i = Some s → verified_active s = true →
     (dm_alloc t peer now).2 !! i = Some s) ∧
  match dm_alloc t peer now with
  | (Some i, t') =>
      (∀ j, j ≠ i → t' !! j = t !! j) ∧
      (∀ s, ss_peer_addr s = peer → dm_table_ok (<[i := s]> t')) ∧
      match dm_lookup t peer with
      | Some k => i = k ∧ t' = t
      | None => ∃ s, t !! i = Some s ∧ t' !! i = Some (session_fresh peer now) ∧
          (ss_state s = DM_STATE_NONE ∨
           Forall (λ s, ss_state s ≠ DM_STATE_NONE) t ∧
           ∀ j s', t !! j = Some s' → verified_active s' = false →
                   ss_last_active_ms s ≤ ss_last_active_ms s') ∧
          ∀ s', (handshaking_count (<[i := s']> t') ≤ DM_MAX_HANDSHAKING)%nat
      end
  | (None, t') =>
      t' = t ∧ dm_lookup t peer = None ∧
      (handshaking_count t = DM_MAX_HANDSHAKING ∨ Forall (λ s, verified_active s = true) t)
  end.
Proof.
  intros Hok Hcap. pose proof (dm_alloc_cases t peer now) as H.
  destruct (dm_alloc t peer now) as [[i|] t']; cbn [snd].
  2: { destruct H as (-> & Hl & Hr). split; [by eauto|]. split; [done|]. split; [done|].
       destruct Hr; [left; lia|by right]. }
  destruct H as [[Hl ->]|(Hl & Hc & -> & s & Hs & Hwhy)].
  - rewrite Hl. split; [by eauto|]. split; [done|]. split; [|done]. intros s Hp.
    destruct (dm_lookup_Some _ _ _ Hl) as (s0 & Hs0 & Hn & Hp0).
    eapply dm_table_ok_update; [done..| |done]. congruence.
  - rewrite Hl. split.
    { intros j s' Hj Hv. rewrite list_lookup_insert_ne; [done|]. intros ->.
      rewrite Hs in Hj. injection Hj as ->. destruct Hwhy as [Hn|(_ & Hv' & _)]; [|congruence].
      unfold verified_active in Hv. apply andb_true_iff in Hv as [Hv%dm_in_state_spec _]. congruence. }
    split; [intros j Hj; by rewrite list_lookup_insert_ne|].
    split.
    { intros s' Hp. rewrite list_insert_insert_eq. apply dm_table_ok_insert; [done|].
      intros j s2 Hj H2 He. rewrite Hp in He. by destruct (dm_lookup_None _ _ Hl _ _ Hj H2). }
    exists s. split; [done|]. split; [apply list_lookup_insert_eq; by eapply lookup_lt_Some|].
    split; [destruct Hwhy as [|(? & _ & ?)]; auto|].
    intros s'. rewrite list_insert_insert_eq.
    pose proof (handshaking_count_insert t i s s' Hs). destruct (dm_in_state _ s'); lia.
Qed.

(** A full table: 31 verified active sessions and one unverified. *)
Definition full_table : dm_table_t :=
  (λ i, mk_session (Z.of_nat i) [] [] 0 (Z.of_nat i) 0 0 DM_STATE_ACTIVE
              (negb (i =? 5)%nat) ratchet_zero) <$> seq 0 32.

Lemma session_allocation_witness :
  (dm_alloc full_table 1000 7).1 = Some 5%nat ∧
  full_table !! 4%nat = (dm_alloc full_table 1000 7).2 !! 4%nat.
Proof.
  split; [vm_compute; reflexivity|].
  pose proof (session_allocation full_table 1000 7) as H.
  symmetry. assert (Hs : ∃ s, full_table !! 4%nat = Some s ∧ verified_active s = true)
    by (eexists; split; vm_compute; reflexivity).
  destruct Hs as (s & Hs & Hv). rewrite Hs. apply H; [|vm_compute; lia|exact Hs|exact Hv].
  split; [vm_compute; reflexivity|]. intros i j s1 s2 Hi Hj _ _ He. unfold full_table in Hi, Hj.
  apply list_lookup_fmap_Some in Hi as (k & -> & Hi), Hj as (k' & -> & Hj).
  apply lookup_seq in Hi as [-> _], Hj as [-> _]. cbn [ss_peer_addr] in He. lia.
Defined.
