(* ===== verification/MsgStore.v ===== *)
(** * The message log ([components/msg_store/msg_store.c])

    The ring of stored messages and every operation on it, with the writes it
    asks of the persistence back end; then what the ring means: a bounded log,
    oldest first.  The state is the ring after its allocation; uptime is an
    argument. *)

From stdpp Require Import base numbers sets option decidable list.
From S2P Require Import Prelude Tables.

(** [CONFIG_BRAMBLE_MSG_STORE_CAP] at its default; the T-Deck Plus build sets it to 200. *)
Definition MSG_STORE_MAX : nat := 20.
Definition MSG_TEXT_MAX : nat := 640.
Definition MSG_ROUTE_MAX_HOPS : nat := 10.
Definition MSG_STORE_DM_CHANNEL : Z := -1.
Definition MSG_STORE_PARK_TTL_S : Z := 7200.

Inductive msg_direction_t :=
  MSG_DIR_INCOMING | MSG_DIR_OUTGOING | MSG_DIR_BROADCAST_IN | MSG_DIR_BROADCAST_OUT.
Inductive msg_status_t :=
  MSG_STATUS_NONE | MSG_STATUS_SENT | MSG_STATUS_DELIVERED | MSG_STATUS_FAILED | MSG_STATUS_QUEUED.
#[global] Instance msg_direction_eq_dec : EqDecision msg_direction_t.
Proof. solve_decision. Defined.
#[global] Instance msg_status_eq_dec : EqDecision msg_status_t.
Proof. solve_decision. Defined.

(** [m_text]: the [text_len] bytes before the terminator. *)
Record stored_msg_t := mk_stored {
  m_peer_addr : Z; m_uid : Z; m_direction : msg_direction_t; m_status : msg_status_t;
  m_packet_id : Z; m_timestamp_s : Z; m_rssi : Z; m_snr : Z; m_channel_index : Z;
  m_route_hop_count : Z; m_route_hops : list Z; m_text : list Z }.
Definition stored_zero : stored_msg_t :=
  mk_stored 0 0 MSG_DIR_INCOMING MSG_STATUS_NONE 0 0 0 0 0 0 (replicate MSG_ROUTE_MAX_HOPS 0) [].
#[global] Instance stored_inhabited : Inhabited stored_msg_t := populate stored_zero.

Record msg_store := mk_store {
  s_msgs : list stored_msg_t; s_head : nat; s_count : nat; s_total_incoming : Z; s_next_uid : Z }.

(** A write to the persisted file: append a record, rewrite the record that is
    [from_end] from the last. *)
Inductive persist := PSave (m : stored_msg_t) | PUpdate (from_end : nat) (m : stored_msg_t).

Definition msg_store_init : msg_store :=
  mk_store (replicate MSG_STORE_MAX stored_zero) 0 0 0 1.

Definition msg_store_next_uid (st : msg_store) : Z * msg_store :=
  let next := s_next_uid st ⊕ 1 in
  (s_next_uid st,
   mk_store (s_msgs st) (s_head st) (s_count st) (s_total_incoming st) (if next =? 0 then 1 else next)).

Definition msg_store_add_full (st : msg_store) (peer_addr : Z) (dir : msg_direction_t)
    (text : list Z) (rssi snr packet_id : Z) (status : msg_status_t) (channel_index uid uptime_s : Z)
    : msg_store * list persist :=
  let text := if (MSG_TEXT_MAX <=? length text)%nat then take (MSG_TEXT_MAX - 1) text else text in
  let '(uid, st) := if uid =? 0 then msg_store_next_uid st else (uid, st) in
  let m := mk_stored peer_addr uid dir status packet_id uptime_s rssi snr channel_index 0
             (replicate MSG_ROUTE_MAX_HOPS 0) text in
  (mk_store (<[s_head st := m]> (s_msgs st))
     ((s_head st + 1) mod MSG_STORE_MAX)%nat
     (if (s_count st <? MSG_STORE_MAX)%nat then S (s_count st) else s_count st)
     (match dir with
      | MSG_DIR_INCOMING | MSG_DIR_BROADCAST_IN => s_total_incoming st ⊕ 1
      | _ => s_total_incoming st
      end)
     (s_next_uid st),
   [PSave m]).

Definition msg_store_add_ex2 st peer_addr dir text rssi snr packet_id status channel_index uptime_s :=
  msg_store_add_full st peer_addr dir text rssi snr packet_id status channel_index 0 uptime_s.
Definition msg_store_add_ex st peer_addr dir text rssi snr packet_id status uptime_s :=
  msg_store_add_ex2 st peer_addr dir text rssi snr packet_id status MSG_STORE_DM_CHANNEL uptime_s.
Definition msg_store_add_dm_uid st peer_addr dir text rssi snr packet_id status uid uptime_s :=
  msg_store_add_full st peer_addr dir text rssi snr packet_id status MSG_STORE_DM_CHANNEL uid uptime_s.
Definition msg_store_add_dm st peer_addr dir text rssi snr packet_id status uptime_s :=
  msg_store_add_dm_uid st peer_addr dir text rssi snr packet_id status 0 uptime_s.
Definition msg_store_add_channel st peer_addr dir text rssi snr packet_id status channel_index uptime_s :=
  msg_store_add_ex2 st peer_addr dir text rssi snr packet_id status channel_index uptime_s.
Definition msg_store_add st peer_addr dir text rssi snr uptime_s :=
  msg_store_add_ex st peer_addr dir text rssi snr 0 MSG_STATUS_NONE uptime_s.

(** ** Rows *)

(** [start = (head - count + MAX) % MAX; idx = (start + i) % MAX]. *)
Definition ring_index (st : msg_store) (i : nat) : nat :=
  let start := ((s_head st + MSG_STORE_MAX - s_count st) mod MSG_STORE_MAX)%nat in
  ((start + i) mod MSG_STORE_MAX)%nat.
Definition row_at (st : msg_store) (i : nat) : stored_msg_t := s_msgs st !!! ring_index st i.

(** [for (i = count - 1; i >= 0; i--) if (f(row i)) break;] and the same walk
    upwards. *)
Fixpoint find_down (f : nat → bool) (n : nat) : option nat :=
  match n with
  | O => None
  | S n => if f n then Some n else find_down f n
  end.
Definition find_up (f : nat → bool) (n : nat) : option nat := find_index f (seq 0 n).

Definition set_row (st : msg_store) (i : nat) (m : stored_msg_t) : msg_store :=
  mk_store (<[ring_index st i := m]> (s_msgs st)) (s_head st) (s_count st) (s_total_incoming st)
    (s_next_uid st).

Definition with_status (m : stored_msg_t) (s : msg_status_t) : stored_msg_t :=
  mk_stored (m_peer_addr m) (m_uid m) (m_direction m) s (m_packet_id m) (m_timestamp_s m) (m_rssi m)
    (m_snr m) (m_channel_index m) (m_route_hop_count m) (m_route_hops m) (m_text m).
Definition with_packet_id (m : stored_msg_t) (p : Z) : stored_msg_t :=
  mk_stored (m_peer_addr m) (m_uid m) (m_direction m) (m_status m) p (m_timestamp_s m) (m_rssi m)
    (m_snr m) (m_channel_index m) (m_route_hop_count m) (m_route_hops m) (m_text m).
Definition with_route (m : stored_msg_t) (n : Z) (hops : list Z) : stored_msg_t :=
  mk_stored (m_peer_addr m) (m_uid m) (m_direction m) (m_status m) (m_packet_id m) (m_timestamp_s m)
    (m_rssi m) (m_snr m) (m_channel_index m) n hops (m_text m).

(** The parked rule: a QUEUED row accepts only DELIVERED. *)
Definition sticky (m : stored_msg_t) (status : msg_status_t) : bool :=
  bool_decide (m_status m = MSG_STATUS_QUEUED) && negb (bool_decide (status = MSG_STATUS_DELIVERED)).
Definition apply_status (m : stored_msg_t) (status : msg_status_t) : bool * stored_msg_t :=
  (negb (sticky m status) && negb (bool_decide (m_status m = status)),
   if sticky m status then m else with_status m status).

Definition persist_row_update (st : msg_store) (i : nat) : list persist :=
  [PUpdate (s_count st - 1 - i) (row_at st i)].

(** Recording a relay path; [route]: the array, [None] for a null pointer. *)
Definition apply_route (changed : bool) (m : stored_msg_t) (route_hop_count : Z)
    (route : option (list Z)) : bool * stored_msg_t :=
  match route with
  | None => (changed, m)
  | Some hops =>
      if route_hop_count >? 0
      then
        let bounded := if route_hop_count >? Z.of_nat MSG_ROUTE_MAX_HOPS
                       then Z.of_nat MSG_ROUTE_MAX_HOPS else route_hop_count in
        let n := Z.to_nat bounded in
        (changed || (m_route_hop_count m =? 0),
         with_route m bounded (take n hops ++ drop n (m_route_hops m)))
      else (changed, m)
  end.

Definition msg_store_update_status_with_route (st : msg_store) (packet_id : Z)
    (status : msg_status_t) (route_hop_count : Z) (route : option (list Z))
    : bool * msg_store * list persist :=
  if packet_id =? 0 then (false, st, [])
  else match find_down (λ i, m_packet_id (row_at st i) =? packet_id) (s_count st) with
       | None => (false, st, [])
       | Some i =>
           let '(changed, m) := apply_status (row_at st i) status in
           let '(changed, m) := apply_route changed m route_hop_count route in
           let st := set_row st i m in
           (true, st, if changed : bool then persist_row_update st i else [])
       end.
Definition msg_store_update_status (st : msg_store) (packet_id : Z) (status : msg_status_t)
    : bool * msg_store * list persist :=
  msg_store_update_status_with_route st packet_id status 0 None.

Definition msg_store_update_by_uid (st : msg_store) (uid packet_id : Z) (status : msg_status_t)
    : bool * msg_store * list persist :=
  if uid =? 0 then (false, st, [])
  else match find_down (λ i, m_uid (row_at st i) =? uid) (s_count st) with
       | None => (false, st, [])
       | Some i =>
           let m := row_at st i in
           let m := if negb (packet_id =? 0) then with_packet_id m packet_id else m in
           let '(changed, m) := apply_status m status in
           let st := set_row st i m in
           (true, st, if changed : bool then persist_row_update st i else [])
       end.

Definition msg_store_unpark (st : msg_store) (uid : Z) : bool * msg_store * list persist :=
  if uid =? 0 then (false, st, [])
  else match find_down (λ i, m_uid (row_at st i) =? uid) (s_count st) with
       | None => (false, st, [])
       | Some i =>
           if bool_decide (m_status (row_at st i) = MSG_STATUS_QUEUED)
           then let st := set_row st i (with_status (row_at st i) MSG_STATUS_FAILED) in
                (true, st, persist_row_update st i)
           else (false, st, [])
       end.

(** ** Parked rows *)

Definition is_parked_dm (m : stored_msg_t) : bool :=
  bool_decide (m_direction m = MSG_DIR_OUTGOING) && (m_channel_index m <? 0) &&
  bool_decide (m_status m = MSG_STATUS_QUEUED) && negb (m_uid m =? 0).
Definition past_park_window (m : stored_msg_t) (now_s : Z) : bool :=
  if now_s <? m_timestamp_s m then false
  else (now_s ⊖ m_timestamp_s m) >? MSG_STORE_PARK_TTL_S.

Definition msg_store_park_window_open (st : msg_store) (uid now_s : Z) : bool :=
  if uid =? 0 then false
  else match find_down (λ i, m_uid (row_at st i) =? uid) (s_count st) with
       | None => false
       | Some i => negb (past_park_window (row_at st i) now_s)
       end.

(** One pass of the expiry loop; [None]: nothing found, the loop ends. *)
Definition expire_pass (st : msg_store) (now_s : Z) : option (msg_store * list persist) :=
  i ← find_up (λ i, is_parked_dm (row_at st i) && past_park_window (row_at st i) now_s) (s_count st);
  let st := set_row st i (with_status (row_at st i) MSG_STATUS_FAILED) in
  Some (st, persist_row_update st i).
(** The [for (;;)] loop; [None]: the fuel ran out. *)
Fixpoint expire_loop (fuel : nat) (st : msg_store) (now_s : Z) (expired : Z)
    : option (Z * msg_store * list persist) :=
  match fuel with
  | O => None
  | S fuel =>
      match expire_pass st now_s with
      | None => Some (expired, st, [])
      | Some (st, w) => '(n, st, ws) ← expire_loop fuel st now_s (expired + 1); Some (n, st, w ++ ws)
      end
  end.
Definition msg_store_expire_parked (st : msg_store) (now_s : Z) : option (Z * msg_store * list persist) :=
  expire_loop (S (s_count st)) st now_s 0.

(** Uids in ring order, at most [max_out]; [out_null]: a null output. *)
Definition msg_store_parked_uids_for_peer (st : msg_store) (peer_addr : Z) (out_null : bool)
    (max_out now_s : Z) : list Z :=
  if out_null || (max_out <=? 0) then []
  else take (Z.to_nat max_out)
         (m_uid <$> filter (λ m, is_parked_dm m && (m_peer_addr m =? peer_addr) &&
                                 negb (past_park_window m now_s) = true)
                      (row_at st <$> seq 0 (s_count st))).

(** The two running minima of the rotation: lowest peer, lowest above. *)
Definition parked_peer_step (after now_s : Z) (acc : option Z * option Z) (m : stored_msg_t)
    : option Z * option Z :=
  if negb (is_parked_dm m) || past_park_window m now_s then acc
  else
    let lower o := match o with None => true | Some x => m_peer_addr m <? x end in
    (if lower acc.1 then Some (m_peer_addr m) else acc.1,
     if (m_peer_addr m >? after) && lower acc.2 then Some (m_peer_addr m) else acc.2).
Definition msg_store_next_parked_peer (st : msg_store) (after_peer_addr now_s : Z) : option Z :=
  let '(lowest, next_above) :=
    foldl (parked_peer_step after_peer_addr now_s) (None, None) (row_at st <$> seq 0 (s_count st)) in
  match lowest with
  | None => None
  | Some l => Some (default l next_above)
  end.

(** ** Readers *)

Definition msg_store_get_copy_by_uid (st : msg_store) (uid : Z) : option stored_msg_t :=
  if uid =? 0 then None
  else row_at st <$> find_up (λ i, m_uid (row_at st i) =? uid) (s_count st).
Definition msg_store_peer_for_uid (st : msg_store) (uid : Z) : option Z :=
  m_peer_addr <$> msg_store_get_copy_by_uid st uid.
Definition msg_store_count (st : msg_store) : nat := s_count st.
Definition msg_store_get_copy (st : msg_store) (index : Z) : option stored_msg_t :=
  if (0 <=? index) && (index <? Z.of_nat (s_count st)) then Some (row_at st (Z.to_nat index)) else None.
Definition msg_store_count_outgoing_delivered (st : msg_store) : nat :=
  length (filter (λ m, m_direction m = MSG_DIR_OUTGOING ∧ m_status m = MSG_STATUS_DELIVERED)
            (row_at st <$> seq 0 (s_count st))).

(** [loaded]: the records [msg_store_spiffs_load_recent] put in the ring, [None]
    when the back end did not start. *)
Definition restore_uid (next : Z) (m : stored_msg_t) : Z :=
  if m_uid m >=? next then (let n := m_uid m ⊕ 1 in if n =? 0 then 1 else n) else next.
Definition with_timestamp (m : stored_msg_t) (t : Z) : stored_msg_t :=
  mk_stored (m_peer_addr m) (m_uid m) (m_direction m) (m_status m) (m_packet_id m) t (m_rssi m)
    (m_snr m) (m_channel_index m) (m_route_hop_count m) (m_route_hops m) (m_text m).
(** The back end's check that a record is the message an update means. *)
Definition msg_store_record_matches (a b : stored_msg_t) : bool :=
  (m_uid a =? m_uid b) && (m_peer_addr a =? m_peer_addr b) && bool_decide (m_direction a = m_direction b) &&
  (m_channel_index a =? m_channel_index b) && (length (m_text a) =? length (m_text b))%nat &&
  bool_decide (m_text a = m_text b).
Definition msg_store_init_with_persistence (loaded : option (list stored_msg_t)) : msg_store :=
  match loaded with
  | None => msg_store_init
  | Some rows =>
      let rows := take MSG_STORE_MAX rows in
      let n := length rows in
      mk_store ((flip with_timestamp 0 <$> rows) ++ drop n (replicate MSG_STORE_MAX stored_zero))
        (n mod MSG_STORE_MAX)%nat n 0 (foldl restore_uid 1 rows)
  end.
