(* ===== verification/MsgStoreSpec.v ===== *)
(** * What the message log promises

    The ring is a bounded log; parked messages leave the parked state only by
    delivery, cancellation or age; the expiry loop ends; the persisted file
    follows the statuses. *)

From stdpp Require Import base numbers sets option decidable list.
From Stdlib Require Import ZifyNat.
From S2P Require Import Prelude Tables MsgStore.

(** ** The ring as a list, oldest first *)

Definition log (st : msg_store) : list stored_msg_t := row_at st <$> seq 0 (s_count st).
Definition store_wf (st : msg_store) : Prop :=
  length (s_msgs st) = MSG_STORE_MAX ∧ (s_head st < MSG_STORE_MAX)%nat ∧
  (s_count st ≤ MSG_STORE_MAX)%nat.

Ltac ring_arith :=
  repeat match goal with x := _ : msg_store |- _ => subst x end;
  unfold ring_index, MSG_STORE_MAX in *; cbn [s_head s_count s_msgs] in *;
  zify; Z.to_euclidean_division_equations; lia.

Lemma ring_index_lt st i : (ring_index st i < MSG_STORE_MAX)%nat.
Proof. apply Nat.mod_upper_bound. done. Qed.
Lemma ring_index_inj st i j :
  (i < MSG_STORE_MAX)%nat → (j < MSG_STORE_MAX)%nat → ring_index st i = ring_index st j → i = j.
Proof. intros. ring_arith. Qed.

Lemma length_log st : length (log st) = s_count st.
Proof. unfold log. by rewrite length_fmap, length_seq. Qed.
Lemma log_lookup st i : (i < s_count st)%nat → log st !! i = Some (row_at st i).
Proof. intros Hi. unfold log. rewrite list_lookup_fmap, lookup_seq_lt by done. done. Qed.
Lemma log_lookup_inv st i m : log st !! i = Some m → (i < s_count st)%nat ∧ row_at st i = m.
Proof.
  intros Hl. assert (i < s_count st)%nat by (rewrite <- length_log; by eapply lookup_lt_Some).
  rewrite log_lookup in Hl by done. by injection Hl.
Qed.

Lemma log_set_row st i m :
  store_wf st → (i < s_count st)%nat → log (set_row st i m) = <[i := m]> (log st).
Proof.
  intros (Hl & Hh & Hc) Hi. apply list_eq. intros j.
  destruct (decide (j < s_count st)%nat) as [Hj|Hj].
  - rewrite log_lookup by done.
    change (row_at (set_row st i m) j) with (<[ring_index st i := m]> (s_msgs st) !!! ring_index st j).
    destruct (decide (i = j)) as [->|Hne].
    + rewrite list_lookup_total_insert_eq by (rewrite Hl; apply ring_index_lt).
      rewrite list_lookup_insert_eq by (by rewrite length_log). done.
    + rewrite list_lookup_total_insert_ne by (intros He; apply ring_index_inj in He; lia).
      rewrite list_lookup_insert_ne by done. by rewrite log_lookup.
  - rewrite !lookup_ge_None_2; [done|rewrite length_insert, length_log; lia|].
    rewrite length_log. simpl. lia.
Qed.
Lemma set_row_wf st i m : store_wf st → store_wf (set_row st i m).
Proof. intros (? & ? & ?). split; [simpl; by rewrite length_insert|done]. Qed.

(** Appending: the log keeps its last [MSG_STORE_MAX] rows. *)
Definition last_rows (l : list stored_msg_t) : list stored_msg_t := drop (length l - MSG_STORE_MAX) l.

Lemma log_push msgs head count total uid m total' uid' :
  let st := mk_store msgs head count total uid in
  store_wf st →
  let st' := mk_store (<[head := m]> msgs) ((head + 1) mod MSG_STORE_MAX)
               (if (count <? MSG_STORE_MAX)%nat then S count else count) total' uid' in
  store_wf st' ∧ log st' = last_rows (log st ++ [m]).
Proof.
  intros st (Hl & Hh & Hc) st'. cbn in Hl, Hh, Hc. split.
  { unfold store_wf, st'. cbn [s_msgs s_head s_count]. rewrite length_insert.
    split; [done|]. split; [by apply Nat.mod_upper_bound|].
    destruct (count <? MSG_STORE_MAX)%nat eqn:E; [apply Nat.ltb_lt in E; lia|lia]. }
  apply list_eq. intros i. unfold last_rows. rewrite length_app, length_log, lookup_drop.
  cbn [length]. change (s_count st) with count.
  destruct (count <? MSG_STORE_MAX)%nat eqn:E; unfold st' in *; clear st'.
  - apply Nat.ltb_lt in E. replace (count + 1 - MSG_STORE_MAX + i)%nat with i by lia.
    destruct (decide (i < S count)%nat) as [Hi|Hi].
    + rewrite log_lookup by done. unfold row_at. cbn [s_msgs].
      destruct (decide (i = count)) as [->|Hne].
      * rewrite lookup_app_r, length_log by (by rewrite length_log). change (s_count st) with count.
        rewrite Nat.sub_diag. cbn [lookup list_lookup].
        replace (ring_index _ count) with head by ring_arith.
        rewrite list_lookup_total_insert_eq by lia. done.
      * rewrite lookup_app_l by (rewrite length_log; unfold st; cbn [s_count length]; lia). rewrite log_lookup by (unfold st; cbn [s_count length]; lia).
        rewrite list_lookup_total_insert_ne by ring_arith. unfold row_at. cbn [s_msgs]. do 2 f_equal. ring_arith.
    + rewrite !lookup_ge_None_2; [done|rewrite length_app, length_log; unfold st; cbn [s_count length]; lia|rewrite length_log; cbn [s_count]; lia].
  - apply Nat.ltb_ge in E. assert (count = MSG_STORE_MAX) as -> by lia.
    replace (MSG_STORE_MAX + 1 - MSG_STORE_MAX + i)%nat with (S i) by lia.
    destruct (decide (i < MSG_STORE_MAX)%nat) as [Hi|Hi].
    + rewrite log_lookup by done. unfold row_at. cbn [s_msgs].
      destruct (decide (S i = MSG_STORE_MAX)) as [He|Hne].
      * rewrite lookup_app_r, length_log by (rewrite length_log; unfold st; cbn [s_count length]; lia). change (s_count st) with MSG_STORE_MAX.
        replace (S i - MSG_STORE_MAX)%nat with 0%nat by lia. cbn [lookup list_lookup].
        replace (ring_index _ i) with head by ring_arith.
        rewrite list_lookup_total_insert_eq by lia. done.
      * rewrite lookup_app_l by (rewrite length_log; unfold st; cbn [s_count length]; lia). rewrite log_lookup by (unfold st; cbn [s_count length]; lia).
        rewrite list_lookup_total_insert_ne by ring_arith. unfold row_at. cbn [s_msgs]. do 2 f_equal. ring_arith.
    + rewrite !lookup_ge_None_2; [done|rewrite length_app, length_log; unfold st; cbn [s_count length]; lia|rewrite length_log; cbn [s_count]; lia].
Qed.

(** ** Searches *)

Lemma find_down_spec f n :
  match find_down f n with
  | Some i => (i < n)%nat ∧ f i = true ∧ ∀ j, (i < j < n)%nat → f j = false
  | None => ∀ j, (j < n)%nat → f j = false
  end.
Proof.
  induction n as [|n IH]; simpl; [lia|]. destruct (f n) eqn:E.
  - split; [lia|]. split; [done|]. lia.
  - destruct (find_down f n) as [i|].
    + destruct IH as (? & ? & IH). split; [lia|]. split; [done|]. intros j Hj.
      destruct (decide (j = n)) as [->|]; [done|]. apply IH. lia.
    + intros j Hj. destruct (decide (j = n)) as [->|]; [done|]. apply IH. lia.
Qed.

Lemma insert_middle {A} (pre post : list A) x y :
  <[length pre := y]> (pre ++ x :: post) = pre ++ y :: post.
Proof. rewrite insert_app_r_alt by lia. by rewrite Nat.sub_diag. Qed.

(** The newest row with a property. *)
Lemma find_row f st :
  match find_down (λ i, f (row_at st i)) (s_count st) with
  | Some i => ∃ pre m post, log st = pre ++ m :: post ∧ length pre = i ∧ (i < s_count st)%nat ∧
                row_at st i = m ∧ f m = true ∧ Forall (λ m, f m = false) post
  | None => Forall (λ m, f m = false) (log st)
  end.
Proof.
  pose proof (find_down_spec (λ i, f (row_at st i)) (s_count st)) as H.
  destruct (find_down _ _) as [i|].
  - destruct H as (Hi & Hf & Hlast).
    exists (take i (log st)), (row_at st i), (drop (S i) (log st)).
    split; [by rewrite take_drop_middle by (by apply log_lookup)|].
    split; [rewrite length_take, length_log; lia|]. do 3 (split; [done|]).
    apply Forall_lookup. intros j m Hj. rewrite lookup_drop in Hj.
    apply log_lookup_inv in Hj as [Hj <-]. apply Hlast. lia.
  - apply Forall_lookup. intros j m Hj. apply log_lookup_inv in Hj as [Hj <-]. by apply H.
Qed.
Lemma find_row_up f st :
  find_up (λ i, f (row_at st i)) (s_count st) = find_index f (log st).
Proof.
  unfold find_up, log. generalize (seq 0 (s_count st)) as l. induction l as [|i l IH]; [done|].
  rewrite fmap_cons. simpl. destruct (f (row_at st i)); [done|]. by rewrite IH.
Qed.

(** ** Operations *)

Inductive ms_op :=
| MAdd (peer_addr : Z) (dir : msg_direction_t) (text : list Z) (rssi snr packet_id : Z)
    (status : msg_status_t) (channel_index uid uptime_s : Z)
| MUid (uid packet_id : Z) (status : msg_status_t)
| MStatus (packet_id : Z) (status : msg_status_t) (route_hop_count : Z) (route : option (list Z))
| MUnpark (uid : Z)
| MExpire (now_s : Z)
| MNextUid.

(** The store and the writes; an expiry that did not end would change nothing. *)
Definition ms_step (st : msg_store) (o : ms_op) : msg_store * list persist :=
  match o with
  | MAdd p d t r s pid status ch uid up => msg_store_add_full st p d t r s pid status ch uid up
  | MUid uid pid status => let '(_, st, w) := msg_store_update_by_uid st uid pid status in (st, w)
  | MStatus pid status n route =>
      let '(_, st, w) := msg_store_update_status_with_route st pid status n route in (st, w)
  | MUnpark uid => let '(_, st, w) := msg_store_unpark st uid in (st, w)
  | MExpire now_s =>
      match msg_store_expire_parked st now_s with Some (_, st, w) => (st, w) | None => (st, []) end
  | MNextUid => ((msg_store_next_uid st).2, [])
  end.

(** How a row may change under an operation that is not an append: what the
    message is stays, and so does its status, except as the operation allows. *)
Definition same_message (m m' : stored_msg_t) : Prop :=
  m_peer_addr m' = m_peer_addr m ∧ m_uid m' = m_uid m ∧ m_direction m' = m_direction m ∧
  m_timestamp_s m' = m_timestamp_s m ∧ m_channel_index m' = m_channel_index m ∧ m_text m' = m_text m.
Definition may_become (o : ms_op) (m : stored_msg_t) (s : msg_status_t) : Prop :=
  match o with
  | MUid uid _ status => m_uid m = uid ∧ s = status ∧
      (m_status m = MSG_STATUS_QUEUED → status = MSG_STATUS_DELIVERED)
  | MStatus pid status _ _ => m_packet_id m = pid ∧ s = status ∧
      (m_status m = MSG_STATUS_QUEUED → status = MSG_STATUS_DELIVERED)
  | MUnpark uid => m_uid m = uid ∧ m_status m = MSG_STATUS_QUEUED ∧ s = MSG_STATUS_FAILED
  | MExpire now_s => is_parked_dm m = true ∧ past_park_window m now_s = true ∧ s = MSG_STATUS_FAILED
  | _ => False
  end.
Definition row_step (o : ms_op) (m m' : stored_msg_t) : Prop :=
  same_message m m' ∧ (m_status m' = m_status m ∨ may_become o m (m_status m')).

(** The persisted file: records, the newest last.  An update that finds another
    message at its place is dropped; a record keeps its first time stamp. *)
Definition file_apply (file : list stored_msg_t) (w : persist) : list stored_msg_t :=
  match w with
  | PSave m => file ++ [m]
  | PUpdate from_end m =>
      let i := (length file - 1 - from_end)%nat in
      if (from_end <? length file)%nat && msg_store_record_matches (file !!! i) m
      then <[i := with_timestamp m (m_timestamp_s (file !!! i))]> file else file
  end.
(** What a row is and where its delivery stands. *)
Definition id_status (m : stored_msg_t) : Z * Z * msg_direction_t * Z * list Z * msg_status_t :=
  (m_peer_addr m, m_uid m, m_direction m, m_channel_index m, m_text m, m_status m).
(** The file ends with the rows of the log, as far as message and status go. *)
Definition file_mirrors (file : list stored_msg_t) (st : msg_store) : Prop :=
  ∃ old recs, file = old ++ recs ∧ id_status <$> recs = id_status <$> log st.

(** A record and a later state of its row are the same message to the back end. *)
Lemma same_matches r m m' : id_status r = id_status m → same_message m m' → msg_store_record_matches r m' = true.
Proof.
  intros [= H1 H2 H3 H4 H5 _] (E1 & E2 & E3 & _ & E4 & E5). unfold msg_store_record_matches.
  rewrite H1, H2, H3, H4, H5, E1, E2, E3, E4, E5, !Z.eqb_refl, Nat.eqb_refl, !bool_decide_true by done. done.
Qed.

(** One row changed in place. *)
Lemma row_update o st i m m' w :
  store_wf st → (i < s_count st)%nat → row_at st i = m → row_step o m m' →
  (w = persist_row_update (set_row st i m') i ∨ w = [] ∧ m_status m' = m_status m) →
  store_wf (set_row st i m') ∧ Forall2 (row_step o) (log st) (log (set_row st i m')) ∧
  ∀ file, file_mirrors file st → file_mirrors (foldl file_apply file w) (set_row st i m').
Proof.
  intros Hwf Hi Hm Hstep Hw. split; [by apply set_row_wf|]. rewrite log_set_row by done.
  assert (Hlk : log st !! i = Some m) by (rewrite log_lookup by done; by f_equal). split.
  - apply Forall2_lookup. intros j. destruct (decide (i = j)) as [->|Hne].
    + rewrite list_lookup_insert_eq by (by rewrite length_log). rewrite Hlk. by constructor.
    + rewrite list_lookup_insert_ne by done. destruct (log st !! j); [|constructor].
      constructor. split; [done|by left].
  - intros file (old & recs & -> & Hrec).
    assert (Hlen : length recs = s_count st).
    { rewrite <- (length_fmap id_status recs), Hrec, length_fmap. apply length_log. }
    destruct Hw as [-> | [-> Hst]].
    + cbn [persist_row_update foldl file_apply]. 
      change (row_at (set_row st i m') i) with (<[ring_index st i := m']> (s_msgs st) !!! ring_index st i).
      rewrite list_lookup_total_insert_eq by (destruct Hwf as [-> _]; apply ring_index_lt).
      cbn [s_count set_row]. rewrite length_app, Hlen.
      replace (length old + s_count st - 1 - (s_count st - 1 - i))%nat with (length old + i)%nat by lia.
      destruct (lookup_lt_is_Some_2 recs i) as [r Hr]; [lia|].
      assert (Hid : id_status r = id_status m).
      { apply (f_equal (λ l, l !! i)) in Hrec. rewrite !list_lookup_fmap, Hr, Hlk in Hrec. by apply (inj Some) in Hrec. }
      rewrite (list_lookup_total_correct (old ++ recs) _ r) by (rewrite lookup_app_r by lia; rewrite <- Hr; f_equal; lia).
      rewrite (same_matches r m m' Hid (proj1 Hstep)), (proj2 (Nat.ltb_lt _ _)) by lia. cbn [andb].
      exists old, (<[i := with_timestamp m' (m_timestamp_s r)]> recs). split.
      * by rewrite insert_app_r.
      * rewrite log_set_row by done. rewrite !list_fmap_insert. by rewrite Hrec.
    + exists old, recs. split; [done|]. rewrite log_set_row by done. rewrite list_fmap_insert, Hrec.
      symmetry. apply list_insert_id. rewrite list_lookup_fmap, Hlk. simpl. f_equal.
      unfold id_status. destruct Hstep as [(-> & -> & -> & _ & -> & ->) _]. by rewrite Hst.
Qed.

(** ** Expiry *)

Definition overdue (now_s : Z) (m : stored_msg_t) : bool := is_parked_dm m && past_park_window m now_s.
Definition expire_row (now_s : Z) (m : stored_msg_t) : stored_msg_t :=
  if overdue now_s m then with_status m MSG_STATUS_FAILED else m.
Definition overdue_count (now_s : Z) (l : list stored_msg_t) : nat :=
  length (filter (λ m, overdue now_s m = true) l).

Lemma failed_not_overdue now_s m : overdue now_s (with_status m MSG_STATUS_FAILED) = false.
Proof. unfold overdue, is_parked_dm. simpl. by rewrite andb_false_r. Qed.

Lemma overdue_count_0 now_s l :
  overdue_count now_s l = 0%nat ↔ Forall (λ m, overdue now_s m = false) l.
Proof.
  unfold overdue_count. induction l as [|m l IH]; [done|]. rewrite filter_cons, Forall_cons.
  destruct (overdue now_s m); [rewrite decide_True by done|rewrite decide_False by done]; simpl.
  - split; [done|]. by intros [? _].
  - rewrite IH. naive_solver.
Qed.

Lemma expire_pass_spec st now_s :
  store_wf st →
  match expire_pass st now_s with
  | None => overdue_count now_s (log st) = 0%nat
  | Some (st', w) =>
      ∃ i m, row_at st i = m ∧ (i < s_count st)%nat ∧ overdue now_s m = true ∧
        st' = set_row st i (with_status m MSG_STATUS_FAILED) ∧ w = persist_row_update st' i ∧
        overdue_count now_s (log st) = S (overdue_count now_s (log st')) ∧
        expire_row now_s <$> log st' = expire_row now_s <$> log st
  end.
Proof.
  intros Hwf. unfold expire_pass.
  change (find_up _ _) with (find_up (λ i, overdue now_s (row_at st i)) (s_count st)).
  rewrite find_row_up. destruct (find_index _ (log st)) as [i|] eqn:Hf; cbn [mbind option_bind].
  - apply find_index_Some in Hf as (m & Hm & Ho & _).
    pose proof (log_lookup_inv _ _ _ Hm) as [Hi Hrow].
    exists i, m. rewrite Hrow. do 5 (split; [done|]). rewrite log_set_row by done.
    assert (Hsplit : ∃ pre post, log st = pre ++ m :: post ∧ i = length pre).
    { exists (take i (log st)), (drop (S i) (log st)). rewrite take_drop_middle by done.
      split; [done|]. rewrite length_take, length_log. lia. }
    destruct Hsplit as (pre & post & -> & ->). rewrite insert_middle.
    unfold overdue_count. rewrite !filter_app, !length_app, !filter_cons.
    rewrite (decide_True (P := overdue now_s m = true)) by done.
    rewrite (decide_False (P := overdue now_s (with_status m _) = true)) by (by rewrite failed_not_overdue).
    cbn [length]. split; [lia|]. rewrite !fmap_app, !fmap_cons. unfold expire_row at 2 5.
    by rewrite failed_not_overdue, Ho.
  - apply find_index_None in Hf. by apply overdue_count_0.
Qed.

Lemma expire_loop_spec now_s fuel : ∀ st n,
  store_wf st → (overdue_count now_s (log st) < fuel)%nat →
  ∃ st' ws, expire_loop fuel st now_s n = Some (n + Z.of_nat (overdue_count now_s (log st)), st', ws) ∧
    store_wf st' ∧ log st' = expire_row now_s <$> log st ∧
    ∀ file, file_mirrors file st → file_mirrors (foldl file_apply file ws) st'.
Proof.
  induction fuel as [|fuel IH]; intros st n Hwf Hlt; [lia|]. cbn [expire_loop].
  pose proof (expire_pass_spec st now_s Hwf) as Hpass.
  destruct (expire_pass st now_s) as [[st1 w]|].
  - destruct Hpass as (i & m & Hrow & Hi & Ho & -> & -> & Hcnt & Hmap).
    destruct (row_update (MExpire now_s) st i m (with_status m MSG_STATUS_FAILED)
      (persist_row_update (set_row st i (with_status m MSG_STATUS_FAILED)) i)) as (Hwf1 & _ & Hfile);
      [done|done|done| |by left|].
    { split; [done|]. right. unfold overdue in Ho. apply andb_true_iff in Ho as [? ?]. done. }
    destruct (IH _ (n + 1) Hwf1) as (st' & ws & Hl & Hwf' & Hlog & Hf); [lia|].
    rewrite Hl. cbn [mbind option_bind]. eexists st', _. split; [f_equal; f_equal; f_equal; lia|].
    split; [done|]. split; [by rewrite Hlog|]. intros file Hm. rewrite foldl_app. by apply Hf, Hfile.
  - exists st, []. rewrite Hpass. split; [f_equal; f_equal; f_equal; lia|]. split; [done|].
    split; [|done]. apply overdue_count_0 in Hpass. rewrite <- (list_fmap_id (log st)) at 1.
    apply list_fmap_ext. intros j m Hm. unfold expire_row.
    by rewrite (Forall_lookup_1 _ _ _ _ Hpass Hm).
Qed.

(** ** Every operation *)

Definition added (st : msg_store) (p : Z) (d : msg_direction_t) (t : list Z) (r s pid : Z)
    (status : msg_status_t) (ch uid up : Z) : stored_msg_t :=
  mk_stored p (if uid =? 0 then s_next_uid st else uid) d status pid up r s ch 0
    (replicate MSG_ROUTE_MAX_HOPS 0) (take (MSG_TEXT_MAX - 1) t).

Definition log_effect (st : msg_store) (o : ms_op) (st' : msg_store) : Prop :=
  match o with
  | MAdd p d t r s pid status ch uid up =>
      log st' = last_rows (log st ++ [added st p d t r s pid status ch uid up])
  | _ => Forall2 (row_step o) (log st) (log st')
  end.

Lemma log_unchanged o st : Forall2 (row_step o) (log st) (log st).
Proof. apply Forall_Forall2_diag, list.Forall_forall. intros m _. split; [done|by left]. Qed.

Lemma text_cut (t : list Z) :
  (if (MSG_TEXT_MAX <=? length t)%nat then take (MSG_TEXT_MAX - 1) t else t) = take (MSG_TEXT_MAX - 1) t.
Proof.
  destruct (MSG_TEXT_MAX <=? length t)%nat eqn:E; [done|]. apply Nat.leb_gt in E. symmetry. apply take_ge. lia.
Qed.
Lemma add_step st p d t r s pid status ch uid up :
  store_wf st →
  let '(st', w) := msg_store_add_full st p d t r s pid status ch uid up in
  store_wf st' ∧ log st' = last_rows (log st ++ [added st p d t r s pid status ch uid up]) ∧
  w = [PSave (added st p d t r s pid status ch uid up)].
Proof.
  intros Hwf. unfold msg_store_add_full. rewrite text_cut. unfold added. destruct st as [msgs head count total next].
  assert (Hwf' : ∀ n, store_wf (mk_store msgs head count total n)) by (intros; exact Hwf).
  destruct (uid =? 0); cbn [msg_store_next_uid s_msgs s_head s_count s_total_incoming s_next_uid];
    (edestruct log_push as [H1 H2]; [exact (Hwf' next)|]); split; [exact H1|split; [exact H2|done]|exact H1|split; [exact H2|done]].
Qed.

Lemma last_rows_mirror (l recs : list stored_msg_t) m :
  id_status <$> recs = id_status <$> l → 
  id_status <$> last_rows (recs ++ [m]) = id_status <$> last_rows (l ++ [m]).
Proof.
  intros Hr. unfold last_rows. rewrite !fmap_drop, !fmap_app, Hr, !length_app.
  by rewrite <- (length_fmap id_status recs), Hr, length_fmap.
Qed.

Lemma apply_status_step m status :
  let '(changed, m') := apply_status m status in
  same_message m m' ∧
  (m_status m' = m_status m ∨
   m_status m' = status ∧ (m_status m = MSG_STATUS_QUEUED → status = MSG_STATUS_DELIVERED)) ∧
  (changed = false → m_status m' = m_status m).
Proof.
  unfold apply_status, sticky.
  destruct (decide (m_status m = MSG_STATUS_QUEUED)) as [Hq|Hq].
  - rewrite (bool_decide_eq_true_2 _ Hq). cbn [andb].
    destruct (decide (status = MSG_STATUS_DELIVERED)) as [Hd|Hd].
    + rewrite (bool_decide_eq_true_2 _ Hd). cbn. split; [done|]. split; [by right|].
      case_bool_decide; [done|done].
    + rewrite (bool_decide_eq_false_2 _ Hd). cbn. split; [done|]. split; [by left|done].
  - rewrite (bool_decide_eq_false_2 _ Hq). cbn. split; [done|]. split; [by right|].
    case_bool_decide; done.
Qed.

Lemma apply_route_step changed m n route :
  let '(changed', m') := apply_route changed m n route in
  same_message m m' ∧ m_status m' = m_status m ∧ (changed' = false → changed = false).
Proof.
  unfold apply_route. destruct route as [hops|]; [destruct (n >? 0)|]; [|done..].
  split; [done|]. split; [done|]. by intros [? _]%orb_false_iff.
Qed.

(** What every operation but an append does. *)
Definition step_ok (o : ms_op) (st st' : msg_store) (w : list persist) : Prop :=
  store_wf st' ∧ Forall2 (row_step o) (log st) (log st') ∧
  ∀ file, file_mirrors file st → file_mirrors (foldl file_apply file w) st'.
Lemma step_ok_refl o st : store_wf st → step_ok o st st [].
Proof. intros. split; [done|]. split; [apply log_unchanged|done]. Qed.

Lemma update_by_uid_step st uid pid status :
  store_wf st →
  let '(_, st', w) := msg_store_update_by_uid st uid pid status in step_ok (MUid uid pid status) st st' w.
Proof.
  intros Hwf. unfold msg_store_update_by_uid. destruct (uid =? 0); [by apply step_ok_refl|].
  pose proof (find_row (λ m, m_uid m =? uid) st) as Hf.
  destruct (find_down _ _) as [i|]; [|by apply step_ok_refl].
  destruct Hf as (pre & m & post & _ & _ & Hi & Hrow & Hm & _). rewrite Hrow. conds.
  set (m1 := if negb (pid =? 0) then with_packet_id m pid else m).
  assert (Hm1 : same_message m m1 ∧ m_status m1 = m_status m) by (unfold m1; by destruct (negb _)).
  pose proof (apply_status_step m1 status) as Hs. destruct (apply_status m1 status) as [changed m'].
  destruct Hm1 as [Hsame Hst], Hs as (Hsame' & Hbe & Hch).
  apply (row_update (MUid uid pid status) st i m m'); [done|done|done| |].
  - split; [unfold same_message in *; naive_solver congruence|]. rewrite <- Hst.
    destruct Hbe as [?|[? ?]]; [by left|right]. simpl. rewrite <- Hst. done.
  - destruct changed; [by left|right]. split; [done|]. rewrite <- Hst. by apply Hch.
Qed.

Lemma update_status_step st pid status n route :
  store_wf st →
  let '(_, st', w) := msg_store_update_status_with_route st pid status n route in
  step_ok (MStatus pid status n route) st st' w.
Proof.
  intros Hwf. unfold msg_store_update_status_with_route. destruct (pid =? 0); [by apply step_ok_refl|].
  pose proof (find_row (λ m, m_packet_id m =? pid) st) as Hf.
  destruct (find_down _ _) as [i|]; [|by apply step_ok_refl].
  destruct Hf as (pre & m & post & _ & _ & Hi & Hrow & Hm & _). rewrite Hrow. conds.
  pose proof (apply_status_step m status) as Hs. destruct (apply_status m status) as [changed m1].
  destruct Hs as (Hsame & Hbe & Hch).
  pose proof (apply_route_step changed m1 n route) as Hr.
  destruct (apply_route changed m1 n route) as [changed' m']. destruct Hr as (Hsame' & Hst & Hc).
  apply (row_update (MStatus pid status n route) st i m m'); [done|done|done| |].
  - split; [unfold same_message in *; naive_solver congruence|]. rewrite Hst. destruct Hbe as [?|[? ?]]; [by left|right]. done.
  - destruct changed'; [by left|right]. split; [done|]. rewrite Hst. by apply Hch, Hc.
Qed.

Lemma unpark_step st uid :
  store_wf st → let '(_, st', w) := msg_store_unpark st uid in step_ok (MUnpark uid) st st' w.
Proof.
  intros Hwf. unfold msg_store_unpark. destruct (uid =? 0); [by apply step_ok_refl|].
  pose proof (find_row (λ m, m_uid m =? uid) st) as Hf.
  destruct (find_down _ _) as [i|]; [|by apply step_ok_refl].
  destruct Hf as (pre & m & post & _ & _ & Hi & Hrow & Hm & _). rewrite Hrow. conds.
  case_bool_decide; [|by apply step_ok_refl].
  apply (row_update (MUnpark uid) st i m); [done|done|done| |by left]. split; [done|by right].
Qed.

Lemma expire_parked_spec st now_s :
  store_wf st →
  ∃ st' ws, msg_store_expire_parked st now_s =
              Some (Z.of_nat (overdue_count now_s (log st)), st', ws) ∧
    store_wf st' ∧ log st' = expire_row now_s <$> log st ∧
    ∀ file, file_mirrors file st → file_mirrors (foldl file_apply file ws) st'.
Proof.
  intros Hwf. unfold msg_store_expire_parked.
  destruct (expire_loop_spec now_s (S (s_count st)) st 0 Hwf) as (st' & ws & -> & H); [|by exists st', ws].
  rewrite <- length_log. unfold overdue_count.
  pose proof (length_filter (λ m, overdue now_s m = true) (log st)). lia.
Qed.

Lemma ms_step_spec st o :
  store_wf st →
  let '(st', w) := ms_step st o in
  store_wf st' ∧ log_effect st o st' ∧
  ∀ file, file_mirrors file st → file_mirrors (foldl file_apply file w) st'.
Proof.
  intros Hwf. destruct o as [p d t r s pid status ch uid up|uid pid status|pid status n route|uid|now_s|];
    cbn [ms_step log_effect].
  - pose proof (add_step st p d t r s pid status ch uid up Hwf) as Ha.
    destruct (msg_store_add_full _ _ _ _ _ _ _ _ _ _ _) as [st' w]. destruct Ha as (Hwf' & Hlog & ->).
    split; [done|]. split; [done|]. intros file (old & recs & -> & Hr).
    set (m := added _ _ _ _ _ _ _ _ _ _ _) in *. cbn [foldl file_apply].
    exists (old ++ take (length (recs ++ [m]) - MSG_STORE_MAX) (recs ++ [m])), (last_rows (recs ++ [m])).
    split; [|rewrite Hlog; by apply last_rows_mirror].
    unfold last_rows. by rewrite <- !app_assoc, take_drop, app_assoc.
  - pose proof (update_by_uid_step st uid pid status Hwf) as H.
    by destruct (msg_store_update_by_uid _ _ _ _) as [[? ?] ?].
  - pose proof (update_status_step st pid status n route Hwf) as H.
    by destruct (msg_store_update_status_with_route _ _ _ _ _) as [[? ?] ?].
  - pose proof (unpark_step st uid Hwf) as H. by destruct (msg_store_unpark _ _) as [[? ?] ?].
  - destruct (expire_parked_spec st now_s Hwf) as (st' & ws & -> & Hwf' & Hlog & Hf).
    split; [done|]. split; [|done]. rewrite Hlog. apply Forall2_fmap_r, Forall_Forall2_diag, list.Forall_forall.
    intros m _. unfold compose, row_step, expire_row. destruct (overdue now_s m) eqn:Ho; [|split; [done|by left]].
    apply andb_true_iff in Ho as [? ?]. split; [done|]. by right.
  - split; [done|]. split; [exact (log_unchanged MNextUid st)|done].
Qed.

(** *** Exactly one row *)

(** The newest row with [P] becomes [g] of it, all others stay; without one, all do. *)
Definition newest_becomes (P : stored_msg_t → Prop) (g : stored_msg_t → stored_msg_t) (l l' : list stored_msg_t) : Prop :=
  (∃ pre m post, l = pre ++ m :: post ∧ P m ∧ Forall (λ x, ¬ P x) post ∧ l' = pre ++ g m :: post) ∨
  Forall (λ x, ¬ P x) l ∧ l' = l.
(** A parked row takes no other status than delivered. *)
Definition settled (status : msg_status_t) (m : stored_msg_t) : stored_msg_t :=
  if decide (m_status m = MSG_STATUS_QUEUED ∧ status ≠ MSG_STATUS_DELIVERED) then m else with_status m status.
Definition stamped_id (packet_id : Z) (m : stored_msg_t) : stored_msg_t :=
  if decide (packet_id = 0) then m else with_packet_id m packet_id.
(** A path of at least one hop is recorded, ten hops of it at most. *)
Definition routed (n : Z) (route : option (list Z)) (m : stored_msg_t) : stored_msg_t :=
  match route with
  | Some hops => if decide (0 < n) then with_route m (Z.min n 10) (take (Z.to_nat (Z.min n 10)) hops ++ drop (Z.to_nat (Z.min n 10)) (m_route_hops m)) else m
  | None => m
  end.
Definition unparked (m : stored_msg_t) : stored_msg_t :=
  if decide (m_status m = MSG_STATUS_QUEUED) then with_status m MSG_STATUS_FAILED else m.
(** The log after an operation, row by row and field by field; 0 is no uid and no
    packet id. *)
Definition log_exact (st : msg_store) (o : ms_op) (st' : msg_store) : Prop :=
  match o with
  | MAdd p d t r s pid status ch uid up =>
      log st' = last_rows (log st ++ [added st p d t r s pid status ch uid up])
  | MUid uid pid status =>
      newest_becomes (λ m, uid ≠ 0 ∧ m_uid m = uid) (settled status ∘ stamped_id pid) (log st) (log st')
  | MStatus pid status n route =>
      newest_becomes (λ m, pid ≠ 0 ∧ m_packet_id m = pid) (routed n route ∘ settled status) (log st) (log st')
  | MUnpark uid => newest_becomes (λ m, uid ≠ 0 ∧ m_uid m = uid) unparked (log st) (log st')
  | MExpire now_s => log st' = expire_row now_s <$> log st
  | MNextUid => log st' = log st
  end.

Lemma apply_status_settled m status : (apply_status m status).2 = settled status m.
Proof.
  unfold apply_status, sticky, settled. cbn [snd].
  destruct (decide (m_status m = MSG_STATUS_QUEUED)) as [Hq|Hq], (decide (status = MSG_STATUS_DELIVERED)) as [Hd|Hd].
  - rewrite (bool_decide_eq_true_2 _ Hd), andb_false_r. by rewrite decide_False by tauto.
  - rewrite (bool_decide_eq_true_2 _ Hq), (bool_decide_eq_false_2 _ Hd). by rewrite decide_True.
  - rewrite (bool_decide_eq_false_2 _ Hq). by rewrite decide_False by tauto.
  - rewrite (bool_decide_eq_false_2 _ Hq). by rewrite decide_False by tauto.
Qed.
Lemma apply_route_routed changed m n route : (apply_route changed m n route).2 = routed n route m.
Proof.
  unfold apply_route, routed. destruct route as [hops|]; [|done]. rewrite Z.gtb_ltb.
  destruct (Z.ltb_spec 0 n), (decide (0 < n)); try lia; [|done]. cbn [snd]. unfold MSG_ROUTE_MAX_HOPS. change (Z.of_nat 10) with 10.
  assert (E : (if n >? 10 then 10 else n) = Z.min n 10) by (rewrite Z.gtb_ltb; destruct (Z.ltb_spec 10 n); lia).
  by rewrite E.
Qed.
(** The walk from the newest row, and what is put in its place. *)
Lemma newest_row (key : stored_msg_t → Z) k st g :
  store_wf st → k ≠ 0 →
  match find_down (λ i, key (row_at st i) =? k) (s_count st) with
  | Some i => newest_becomes (λ m, k ≠ 0 ∧ key m = k) g (log st) (log (set_row st i (g (row_at st i))))
  | None => newest_becomes (λ m, k ≠ 0 ∧ key m = k) g (log st) (log st)
  end.
Proof.
  intros Hwf Hk. pose proof (find_row (λ m, key m =? k) st) as Hf.
  assert (Hno : ∀ l, Forall (λ m, (key m =? k) = false) l → Forall (λ m, ¬ (k ≠ 0 ∧ key m = k)) l).
  { intros l Hl. eapply Forall_impl; [exact Hl|]. cbn. intros m E%Z.eqb_neq [_ ?]. done. }
  destruct (find_down _ _) as [i|].
  - destruct Hf as (pre & m & post & El & Hi & Hlt & Hrow & Hm & Hpost). left. exists pre, m, post.
    split; [done|]. split; [by apply Z.eqb_eq in Hm|]. split; [by apply Hno|].
    rewrite log_set_row by done. rewrite Hrow, El, <- Hi. apply insert_middle.
  - right. split; [by apply Hno|done].
Qed.
Lemma no_newest (key : stored_msg_t → Z) k g l : k = 0 → newest_becomes (λ m, k ≠ 0 ∧ key m = k) g l l.
Proof. intros Hk. right. split; [|done]. apply list.Forall_forall. by intros m _ [? _]. Qed.
Lemma ms_step_exact st o : store_wf st → log_exact st o (ms_step st o).1.
Proof.
  intros Hwf. destruct o as [p d t r s pid status ch uid up|uid pid status|pid status n route|uid|now_s|];
    cbn [ms_step log_exact].
  - pose proof (add_step st p d t r s pid status ch uid up Hwf) as Ha.
    destruct (msg_store_add_full _ _ _ _ _ _ _ _ _ _ _) as [st' w]. by destruct Ha as (_ & Hlog & _).
  - unfold msg_store_update_by_uid. destruct (Z.eqb_spec uid 0) as [E|E]; [by apply no_newest|].
    pose proof (newest_row m_uid uid st (settled status ∘ stamped_id pid) Hwf E) as Hn.
    destruct (find_down _ _) as [i|]; [|exact Hn].
    set (m1 := if negb (pid =? 0) then _ else _).
    assert (E1 : m1 = stamped_id pid (row_at st i)).
    { unfold m1, stamped_id. destruct (Z.eqb_spec pid 0), (decide (pid = 0)); done. }
    pose proof (apply_status_settled m1 status) as Es. destruct (apply_status m1 status) as [changed m']. cbn [snd] in Es.
    cbn [fst]. unfold compose in Hn. by rewrite <- E1, <- Es in Hn.
  - unfold msg_store_update_status_with_route. destruct (Z.eqb_spec pid 0) as [E|E]; [by apply no_newest|].
    pose proof (newest_row m_packet_id pid st (routed n route ∘ settled status) Hwf E) as Hn.
    destruct (find_down _ _) as [i|]; [|exact Hn].
    pose proof (apply_status_settled (row_at st i) status) as Es. destruct (apply_status _ status) as [changed m1]. cbn [snd] in Es.
    pose proof (apply_route_routed changed m1 n route) as Er. destruct (apply_route _ m1 n route) as [changed' m']. cbn [snd] in Er.
    cbn [fst]. unfold compose in Hn. by rewrite <- Es, <- Er in Hn.
  - unfold msg_store_unpark. destruct (Z.eqb_spec uid 0) as [E|E]; [by apply no_newest|].
    pose proof (newest_row m_uid uid st unparked Hwf E) as Hn. pose proof (find_row (λ m, m_uid m =? uid) st) as Hf.
    destruct (find_down _ _) as [i|]; [|exact Hn]. unfold unparked in Hn.
    case_bool_decide as Eq; [by rewrite decide_True in Hn|]. rewrite decide_False in Hn by done.
    destruct Hf as (pre & m & post & El & Hi & Hlt & Hrow & _). rewrite log_set_row, Hrow in Hn by done.
    rewrite list_insert_id in Hn; [exact Hn|]. rewrite El, <- Hi. by apply list_lookup_middle.
  - by destruct (expire_parked_spec st now_s Hwf) as (st' & ws & -> & _ & Hlog & _).
  - done.
Qed.

Lemma store_init_wf : store_wf msg_store_init.
Proof. split; [apply length_replicate|]. cbn [msg_store_init s_head s_count]. unfold MSG_STORE_MAX. lia. Qed.

(** ** The properties *)

Definition ms_run (st : msg_store) (ops : list ms_op) : msg_store * list persist :=
  foldl (λ acc o, let '(st, w) := ms_step acc.1 o in (st, acc.2 ++ w)) (st, []) ops.

Lemma ms_run_snoc st ops o :
  ms_run st (ops ++ [o]) =
  ((ms_step (ms_run st ops).1 o).1, (ms_run st ops).2 ++ (ms_step (ms_run st ops).1 o).2).
Proof.
  unfold ms_run. rewrite foldl_app. cbn [foldl]. by destruct (ms_step _ o).
Qed.

(** C16. After any history the ring is a log of at most [MSG_STORE_MAX] rows, and the log
    after the next operation is exactly given.  An append adds the message (its text cut
    to 639 bytes, a fresh uid if it has none) and drops only the oldest row of a full
    log.  An update by uid changes only the newest row with that uid: its packet id if
    one is given, and its status, but of a parked row only to delivered; an update by
    packet id only the newest row with that id: its status under the same rule, and its
    route, ten hops at most, if one of at least one hop is given; cancelling fails only
    the newest row with that uid, if it is parked; expiry fails exactly the parked rows
    past their window.  Every other field and row stays as it is.  The persisted file ends
    with the rows of the log, their statuses up to date. *)
Theorem message_log_history ops :
  let '(st, writes) := ms_run msg_store_init ops in
  store_wf st ∧ (length (log st) ≤ MSG_STORE_MAX)%nat ∧ file_mirrors (foldl file_apply [] writes) st ∧
  ∀ o, log_exact st o (ms_step st o).1.
Proof.
  induction ops as [|o ops IH] using rev_ind.
  - split; [apply store_init_wf|]. split; [simpl; lia|]. split; [by exists [], []|].
    intros o. apply ms_step_exact, store_init_wf.
  - rewrite ms_run_snoc. destruct (ms_run msg_store_init ops) as [st ws]. cbn [fst snd].
    destruct IH as (Hwf & _ & Hfile & _). pose proof (ms_step_spec st o Hwf) as Hs.
    destruct (ms_step st o) as [st' w]. destruct Hs as (Hwf' & _ & Hm). cbn [fst snd].
    split; [done|]. split; [rewrite length_log; by destruct Hwf' as (_ & _ & ?)|].
    split; [rewrite foldl_app; by apply Hm|]. intros o'. by apply ms_step_exact.
Qed.

(** C17. The expiry loop ends on every ring: it fails exactly the parked rows past
    their two-hour window and returns their number. *)
Theorem expiry_terminates st now_s (Hwf : store_wf st) :
  ∃ st' writes, msg_store_expire_parked st now_s =
                  Some (Z.of_nat (overdue_count now_s (log st)), st', writes) ∧
    log st' = expire_row now_s <$> log st ∧ overdue_count now_s (log st') = 0%nat.
Proof.
  destruct (expire_parked_spec st now_s Hwf) as (st' & ws & He & _ & Hlog & _).
  exists st', ws. split; [done|]. split; [done|]. rewrite Hlog. apply overdue_count_0, Forall_fmap.
  apply list.Forall_forall. intros m _. unfold expire_row, compose.
  destruct (overdue now_s m) eqn:Ho; [apply failed_not_overdue|done].
Qed.

Definition demo_ops : list ms_op :=
  [MAdd 7 MSG_DIR_OUTGOING [104; 105] 0 0 0 MSG_STATUS_QUEUED MSG_STORE_DM_CHANNEL 0 10;
   MUid 1 55 MSG_STATUS_SENT; MAdd 9 MSG_DIR_OUTGOING [104] 0 0 0 MSG_STATUS_QUEUED MSG_STORE_DM_CHANNEL 0 9000].
Lemma expiry_terminates_witness :
  ∃ st' writes, msg_store_expire_parked (ms_run msg_store_init demo_ops).1 8000 = Some (1, st', writes).
Proof.
  destruct (expiry_terminates (ms_run msg_store_init demo_ops).1 8000) as (st' & ws & He & _).
  - repeat split; vm_compute; lia.
  - exists st', ws. exact He.
Defined.
