(* ===== verification/Identity.v ===== *)
(** * Node identity and endorsements ([components/identity/identity.c],
      [components/crypto/crypto_entropy.c], address derivation of
      [components/crypto/crypto_esp.c])

    The entropy gate, address derivation, the collision check, tokens, the keyed
    blob store with save, load and the migration of stores that hold only the
    X25519 pair, the endorsement message, and the anchor and own-certificate
    provisioning.  SHA-256, Ed25519 and key generation are library code: the
    first two are the operations of [IdCrypto], generated keys are arguments. *)

From stdpp Require Import base strings numbers option decidable list.
From S2P Require Import Prelude Packet PacketSpec NetworkKey DmCrypto.

Class IdCrypto := {
  crypto_sha256 : list Z → list Z;
  crypto_ed25519_verify : list Z → list Z → list Z → bool }.

(** ** Entropy gate

    [source] is the stream of words the hardware source returns; a word is copied
    in the byte order of the little-endian targets. *)

Fixpoint entropy_words (len : nat) (source : nat → Z) (n i : nat) : list Z :=
  match n with
  | O => []
  | S n' => let remaining := (len - 4 * i)%nat in
            take (if (remaining <? 4)%nat then remaining else 4%nat) (le32_bytes (source i)) ++
            entropy_words len source n' (S i)
  end.
Definition crypto_entropy_fill (s_entropy_ready : bool) (len : nat) (source : nat → Z)
    : Z * list Z :=
  if negb s_entropy_ready then (-1, replicate len 0)
  else (0, entropy_words len source ((len + 3) / 4) 0).
Definition crypto_random := crypto_entropy_fill.

(** ** Addresses *)

Section Ids.
Context `{IdCrypto}.

Definition crypto_derive_address (public_key : list Z) : Z :=
  be32_val (take 4 (crypto_sha256 public_key)).
Definition crypto_derive_pubkey_hash (public_key : list Z) : Z :=
  be32_val (take 4 (drop 4 (crypto_sha256 public_key))).

Definition identity_check_collision (my_id : bramble_identity_t)
    (beacon_src_addr beacon_pubkey_hash : Z) : bool :=
  if negb (id_address my_id =? beacon_src_addr) then false
  else negb (id_pubkey_hash my_id =? beacon_pubkey_hash).

(** ** Tokens *)

Definition IDENTITY_TOKEN_ERR_STORE : Z := -1.
Definition IDENTITY_TOKEN_ERR_ENTROPY : Z := -2.
Definition hex_digits : list Z := str_bytes "0123456789ABCDEF".
Definition hex_pair (b : Z) : list Z :=
  [hex_digits !!! Z.to_nat (Z.land (b >> 4) 15); hex_digits !!! Z.to_nat (Z.land b 15)].

(** The token buffer is its C string; [None] a null pointer. *)
Definition identity_mint_ws_auth_token (token_out : option (list Z)) (token_out_len : nat)
    (ready : bool) (source : nat → Z) : Z * option (list Z) :=
  match token_out with
  | None => (IDENTITY_TOKEN_ERR_STORE, None)
  | Some old =>
      if (token_out_len <? 33)%nat then (IDENTITY_TOKEN_ERR_STORE, Some old)
      else match crypto_random ready 16 source with
           | (rc, rnd) => if negb (rc =? 0) then (IDENTITY_TOKEN_ERR_ENTROPY, Some [])
                          else (0, Some (rnd ≫= hex_pair))
           end
  end.

(** ** The blob store

    Reads are exact-length; a write may fail.  The firmware keeps the blobs in
    NVS; the host build keeps them in an array, which is an instance below. *)

Class IdStore (W : Type) := {
  id_store_read : W → string → nat → option (list Z);
  id_store_write : W → string → list Z → bool * W }.

Class IdStoreLaws (W : Type) `{IdStore W} : Prop := {
  id_read_exact w k n b : id_store_read w k n = Some b → length b = n;
  id_read_written w k b w' :
    id_store_write w k b = (true, w') → id_store_read w' k (length b) = Some b;
  id_write_frame w k b k' n :
    k ≠ k' → id_store_read (id_store_write w k b).2 k' n = id_store_read w k' n }.

Definition ID_KEY_X25519_PRIV : string := "priv".
Definition ID_KEY_X25519_PUB : string := "pub".
Definition ID_KEY_ED25519_PUB : string := "ed_pub".
Definition ID_KEY_ED25519_PRIV : string := "ed_priv".
Definition ID_KEY_ANCHOR_PUB : string := "anchor_pub".
Definition ID_KEY_ENDORSE_NA : string := "endorse_na".
Definition ID_KEY_ENDORSE_SIG : string := "endorse_sig".
Definition BRAMBLE_KEY_SIZE : nat := 32.
Definition BRAMBLE_ED25519_PUBKEY_SIZE : nat := 32.
Definition BRAMBLE_ED25519_SECKEY_SIZE : nat := 64.
Definition BRAMBLE_ED25519_SIG_SIZE : nat := 64.

Section Save.
Context {W : Type} `{IdStore W}.

(** [w1 != 0 || w2 != 0 || ...]: the writes in order, up to the first failure. *)
Fixpoint write_all (w : W) (kvs : list (string * list Z)) : bool * W :=
  match kvs with
  | [] => (true, w)
  | (k, b) :: kvs' =>
      let '(ok, w) := id_store_write w k b in
      if negb ok then (false, w) else write_all w kvs'
  end.

Definition identity_save (w : W) (id : bramble_identity_t) : Z * W :=
  let '(ok, w) := write_all w
    [(ID_KEY_X25519_PRIV, id_private_key id); (ID_KEY_X25519_PUB, id_public_key id);
     (ID_KEY_ED25519_PUB, id_ed25519_public_key id);
     (ID_KEY_ED25519_PRIV, id_ed25519_private_key id)] in
  ((if ok then 0 else -1), w).

(** [keypair]: what [crypto_ed25519_keypair] would return, public key first.
    [None] in the result: [-1], and the caller does not use [*id]. *)
Definition identity_load (w : W) (keypair : option (list Z * list Z))
    : option bramble_identity_t * W :=
  let finish priv pub ed_pub ed_priv :=
    mk_identity priv pub ed_pub ed_priv (crypto_derive_address ed_pub)
      (crypto_derive_pubkey_hash ed_pub) in
  match id_store_read w ID_KEY_X25519_PRIV BRAMBLE_KEY_SIZE,
        id_store_read w ID_KEY_X25519_PUB BRAMBLE_KEY_SIZE with
  | Some priv, Some pub =>
      match id_store_read w ID_KEY_ED25519_PUB BRAMBLE_ED25519_PUBKEY_SIZE,
            id_store_read w ID_KEY_ED25519_PRIV BRAMBLE_ED25519_SECKEY_SIZE with
      | Some ed_pub, Some ed_priv => (Some (finish priv pub ed_pub ed_priv), w)
      | _, _ =>
          match keypair with
          | None => (None, w)
          | Some (ed_pub, ed_priv) =>
              let '(ok, w) := write_all w
                [(ID_KEY_ED25519_PUB, ed_pub); (ID_KEY_ED25519_PRIV, ed_priv)] in
              if negb ok then (None, w) else (Some (finish priv pub ed_pub ed_priv), w)
          end
      end
  | _, _ => (None, w)
  end.

(** [gen]: what [crypto_generate_identity] returns. *)
Definition identity_generate_and_save (w : W) (gen : option bramble_identity_t)
    : Z * option bramble_identity_t * W :=
  match gen with
  | None => (-1, None, w)
  | Some id => let '(rc, w) := identity_save w id in (rc, Some id, w)
  end.
End Save.

(** ** Endorsements *)

Definition IDENTITY_ENDORSEMENT_MSG_CONTEXT : list Z := str_bytes "bramble-endorse-v1".
Definition IDENTITY_ENDORSEMENT_MSG_CONTEXT_LEN : nat := 18.
Definition IDENTITY_ENDORSEMENT_MSG_SIZE : nat := 58.
Definition IDENTITY_ENDORSEMENT_NOT_AFTER_PERMANENT : Z := 18446744073709551615.
Definition IDENTITY_ENDORSEMENT_NOT_AFTER_NONE : Z := 0.

Definition identity_endorsement_msg (ed25519_pub : list Z) (not_after : Z) (buf_len : nat)
    : nat * list Z :=
  if (buf_len <? IDENTITY_ENDORSEMENT_MSG_SIZE)%nat then (0%nat, [])
  else (IDENTITY_ENDORSEMENT_MSG_SIZE,
        IDENTITY_ENDORSEMENT_MSG_CONTEXT ++ ed25519_pub ++ be64_bytes not_after).

Definition identity_endorsement_verify (anchor_pub ed25519_pub : list Z) (not_after : Z)
    (sig : list Z) : bool :=
  let '(n, msg) := identity_endorsement_msg ed25519_pub not_after IDENTITY_ENDORSEMENT_MSG_SIZE in
  if negb (n =? IDENTITY_ENDORSEMENT_MSG_SIZE)%nat then false
  else crypto_ed25519_verify anchor_pub msg sig.

(** ** Anchor and own certificate

    The module's memory; the store mirrors it. *)

Record id_module := mk_idm {
  s_anchor_pub : list Z; s_anchor_set : bool;
  s_endorse_not_after : Z; s_endorse_sig : list Z; s_endorse_set : bool }.
Definition idm_zero : id_module := mk_idm (replicate 32 0) false 0 (replicate 64 0) false.

Section Provision.
Context {W : Type} `{IdStore W}.

Definition identity_anchor_set (w : W) (m : id_module) (pub : list Z) : Z * id_module * W :=
  (0, mk_idm pub true (s_endorse_not_after m) (s_endorse_sig m) (s_endorse_set m),
   (id_store_write w ID_KEY_ANCHOR_PUB pub).2).
Definition identity_anchor_get (m : id_module) : option (list Z) :=
  if negb (s_anchor_set m) then None else Some (s_anchor_pub m).
Definition identity_anchor_is_set (m : id_module) : bool := s_anchor_set m.
Definition identity_anchor_fingerprint (m : id_module) : list Z :=
  if negb (s_anchor_set m) then replicate 4 0 else take 4 (crypto_sha256 (s_anchor_pub m)).
Definition identity_anchor_load (w : W) (m : id_module) : Z * id_module :=
  match id_store_read w ID_KEY_ANCHOR_PUB BRAMBLE_ED25519_PUBKEY_SIZE with
  | None => (-1, m)
  | Some pub => (0, mk_idm pub true (s_endorse_not_after m) (s_endorse_sig m) (s_endorse_set m))
  end.
Definition identity_anchor_clear (m : id_module) : id_module :=
  mk_idm (replicate 32 0) false (s_endorse_not_after m) (s_endorse_sig m) (s_endorse_set m).

Definition identity_endorsement_set (w : W) (m : id_module) (not_after : Z) (sig : list Z)
    : Z * id_module * W :=
  let w := (id_store_write w ID_KEY_ENDORSE_NA (be64_bytes not_after)).2 in
  let w := (id_store_write w ID_KEY_ENDORSE_SIG sig).2 in
  (0, mk_idm (s_anchor_pub m) (s_anchor_set m) not_after sig true, w).
Definition identity_endorsement_get (m : id_module) : option (Z * list Z) :=
  if negb (s_endorse_set m) then None else Some (s_endorse_not_after m, s_endorse_sig m).
Definition identity_endorsement_load (w : W) (m : id_module) : Z * id_module :=
  match id_store_read w ID_KEY_ENDORSE_NA 8,
        id_store_read w ID_KEY_ENDORSE_SIG BRAMBLE_ED25519_SIG_SIZE with
  | Some na_be, Some sig =>
      (0, mk_idm (s_anchor_pub m) (s_anchor_set m) (be64_val na_be) sig true)
  | _, _ => (-1, m)
  end.
Definition identity_endorsement_clear_mem (m : id_module) : id_module :=
  mk_idm (s_anchor_pub m) (s_anchor_set m) 0 (replicate 64 0) false.
End Provision.
End Ids.

(** ** The host build's store

    Seven keyed blobs; the live prefix of the array. *)

Definition ID_HOST_BLOB_MAX : nat := 7.
Definition ID_HOST_BLOB_CAP : nat := 64.
Definition host_blobs : Type := list (string * list Z).

Fixpoint host_read (w : host_blobs) (key : string) (len : nat) : option (list Z) :=
  match w with
  | [] => None
  | (k, data) :: w' =>
      if bool_decide (k = key)
      then if negb (length data =? len)%nat then None else Some data
      else host_read w' key len
  end.
Fixpoint host_replace (w : host_blobs) (key : string) (buf : list Z) : option host_blobs :=
  match w with
  | [] => None
  | (k, data) :: w' =>
      if bool_decide (k = key) then Some ((k, buf) :: w')
      else cons (k, data) <$> host_replace w' key buf
  end.
Definition host_write (w : host_blobs) (key : string) (buf : list Z) : bool * host_blobs :=
  if (ID_HOST_BLOB_CAP <? length buf)%nat || (16 <=? String.length key)%nat then (false, w)
  else match host_replace w key buf with
       | Some w' => (true, w')
       | None => if (length w =? ID_HOST_BLOB_MAX)%nat then (false, w)
                 else (true, w ++ [(key, buf)])
       end.
#[global] Instance host_store : IdStore host_blobs := {
  id_store_read := host_read; id_store_write := host_write }.

Lemma host_replace_spec w key buf :
  match host_replace w key buf with
  | Some w' => host_read w' key (length buf) = Some buf ∧
      ∀ k n, key ≠ k → host_read w' k n = host_read w k n
  | None => Forall (λ kv, kv.1 ≠ key) w
  end.
Proof.
  induction w as [|[k data] w IH]; cbn [host_replace]; [constructor|].
  case_bool_decide as Hk.
  - subst. cbn [host_read]. rewrite bool_decide_eq_true_2, Nat.eqb_refl by done. split; [done|].
    intros k n Hne. by rewrite bool_decide_eq_false_2.
  - destruct (host_replace w key buf) as [w'|]; cbn [fmap option_fmap option_map].
    + destruct IH as [IH1 IH2]. cbn [host_read]. rewrite bool_decide_eq_false_2 by done.
      split; [done|]. intros k' n Hne. case_bool_decide; [done|by apply IH2].
    + by constructor.
Qed.

Lemma host_read_app w key buf k n :
  Forall (λ kv, kv.1 ≠ key) w →
  host_read (w ++ [(key, buf)]) k n =
  if bool_decide (key = k) then if negb (length buf =? n)%nat then None else Some buf
  else host_read w k n.
Proof.
  induction 1 as [|[k' d] w Hk _ IH]; cbn [host_read app]; [done|].
  destruct (bool_decide (k' = k)) eqn:E; [|done]. apply bool_decide_eq_true in E as ->.
  rewrite bool_decide_eq_false_2; [done|]. cbn [fst] in Hk. congruence.
Qed.

#[global] Instance host_store_laws : IdStoreLaws host_blobs.
Proof.
  split; cbn [id_store_read id_store_write host_store].
  - induction w as [|[k' d] w IH]; intros k n b; cbn [host_read]; [done|].
    case_bool_decide; [|apply IH]. destruct (length d =? n)%nat eqn:E; [|done].
    intros [= <-]. by apply Nat.eqb_eq.
  - intros w k b w'. unfold host_write. split_if; [done|].
    pose proof (host_replace_spec w k b) as Hr. destruct (host_replace w k b) as [w2|].
    + intros [= <-]. apply Hr.
    + split_if; [done|]. intros [= <-]. rewrite host_read_app by done.
      by rewrite bool_decide_eq_true_2, Nat.eqb_refl.
  - intros w k b k' n Hne. unfold host_write. split_if; [done|].
    pose proof (host_replace_spec w k b) as Hr. destruct (host_replace w k b) as [w2|].
    + by apply Hr.
    + split_if; [done|]. cbn [snd]. rewrite host_read_app by done. by rewrite bool_decide_eq_false_2.
Qed.

(** ** What is stored is what is loaded *)

Section Facts.
Context `{IC : IdCrypto} {W : Type} `{IS : IdStore W} `{IL : !IdStoreLaws W}.

(** Facts about the constant keys. *)
Local Ltac keys_dec := apply (bool_decide_eq_true_1 _); vm_compute; reflexivity.

(** A batch of writes to distinct keys that succeeds is readable. *)
Lemma write_all_read (kvs : list (string * list Z)) : ∀ (w w' : W),
  NoDup kvs.*1 → write_all w kvs = (true, w') →
  Forall (λ kv, id_store_read w' kv.1 (length kv.2) = Some kv.2) kvs ∧
  ∀ k n, k ∉ kvs.*1 → id_store_read w' k n = id_store_read w k n.
Proof.
  induction kvs as [|[k b] kvs IH]; intros w w' Hnd; cbn [write_all].
  { intros [= <-]. split; [constructor|done]. }
  cbn [fmap list_fmap fst] in Hnd. apply NoDup_cons in Hnd as [Hk Hnd].
  destruct (id_store_write w k b) as [ok w1] eqn:Ew. destruct ok; [|done]. cbn [negb].
  intros Hw. destruct (IH w1 w' Hnd Hw) as [H1 H2]. split.
  - constructor; [|done]. cbn [fst snd]. rewrite H2 by done. by eapply id_read_written.
  - intros k' n Hk'. cbn [fmap list_fmap fst] in Hk'. apply not_elem_of_cons in Hk' as [Hne Hk'].
    rewrite H2 by done. pose proof (id_write_frame w k b k' n (not_eq_sym Hne)) as Hf.
    by rewrite Ew in Hf.
Qed.

(** The four key blobs of the store hold [id]. *)
Definition stored_identity (w : W) (id : bramble_identity_t) : Prop :=
  id_store_read w ID_KEY_X25519_PRIV BRAMBLE_KEY_SIZE = Some (id_private_key id) ∧
  id_store_read w ID_KEY_X25519_PUB BRAMBLE_KEY_SIZE = Some (id_public_key id) ∧
  id_store_read w ID_KEY_ED25519_PUB BRAMBLE_ED25519_PUBKEY_SIZE =
    Some (id_ed25519_public_key id) ∧
  id_store_read w ID_KEY_ED25519_PRIV BRAMBLE_ED25519_SECKEY_SIZE =
    Some (id_ed25519_private_key id).

Definition identity_derived (id : bramble_identity_t) : Prop :=
  id_address id = crypto_derive_address (id_ed25519_public_key id) ∧
  id_pubkey_hash id = crypto_derive_pubkey_hash (id_ed25519_public_key id).

Lemma stored_identity_loads w id kp :
  stored_identity w id → identity_derived id → identity_load w kp = (Some id, w).
Proof.
  intros (H1 & H2 & H3 & H4) [Ha Hh]. unfold identity_load. rewrite H1, H2, H3, H4.
  destruct id; cbn in *. by rewrite Ha, Hh.
Qed.

Lemma identity_load_derived w kp id w' :
  identity_load w kp = (Some id, w') → identity_derived id.
Proof.
  unfold identity_load.
  destruct (id_store_read w ID_KEY_X25519_PRIV BRAMBLE_KEY_SIZE), (id_store_read w ID_KEY_X25519_PUB BRAMBLE_KEY_SIZE); try done.
  destruct (id_store_read w ID_KEY_ED25519_PUB BRAMBLE_ED25519_PUBKEY_SIZE), (id_store_read w ID_KEY_ED25519_PRIV BRAMBLE_ED25519_SECKEY_SIZE);
    [by intros [= <- <-]|..]; (destruct kp as [[ep es]|]; [|done]);
    destruct (write_all w _) as [[|] w1]; cbn [negb]; try done; by intros [= <- <-].
Qed.

Lemma identity_load_stored w kp id w' :
  (∀ ep es, kp = Some (ep, es) → length ep = 32%nat ∧ length es = 64%nat) →
  identity_load w kp = (Some id, w') → stored_identity w' id.
Proof.
  intros Hkp. unfold identity_load.
  destruct (id_store_read w ID_KEY_X25519_PRIV BRAMBLE_KEY_SIZE) as [priv|] eqn:E1; [|done].
  destruct (id_store_read w ID_KEY_X25519_PUB BRAMBLE_KEY_SIZE) as [pub|] eqn:E2; [|done].
  assert (Hmig : ∀ ep es w1,
    kp = Some (ep, es) →
    write_all w [(ID_KEY_ED25519_PUB, ep); (ID_KEY_ED25519_PRIV, es)] = (true, w1) →
    stored_identity w1 (mk_identity priv pub ep es (crypto_derive_address ep)
                          (crypto_derive_pubkey_hash ep))).
  { intros ep es w1 Hk Hw. destruct (Hkp _ _ Hk) as [Hl1 Hl2].
    apply write_all_read in Hw as [Hr Hf]; [|keys_dec]. inv_Forall. cbn [fst snd] in *.
    unfold stored_identity; cbn [id_private_key id_public_key id_ed25519_public_key
      id_ed25519_private_key]. rewrite <- Hl1 in *. rewrite <- Hl2 in *.
    rewrite !Hf by keys_dec. unfold BRAMBLE_ED25519_PUBKEY_SIZE, BRAMBLE_ED25519_SECKEY_SIZE.
    repeat split; try done; congruence. }
  destruct (id_store_read w ID_KEY_ED25519_PUB BRAMBLE_ED25519_PUBKEY_SIZE) as [ep|] eqn:E3,
    (id_store_read w ID_KEY_ED25519_PRIV BRAMBLE_ED25519_SECKEY_SIZE) as [es|] eqn:E4.
  { intros [= <- <-]. by repeat split. }
  all: destruct kp as [[ep' es']|]; [|done];
    destruct (write_all w _) as [[|] w1] eqn:Ew; cbn [negb]; [|done]; intros [= <- <-];
    by apply Hmig.
Qed.

(** The endorsement message determines the key and the expiry it vouches for. *)
Lemma endorsement_msg_inj p na p' na' :
  length p = 32%nat → length p' = 32%nat → is_u64 na → is_u64 na' →
  (identity_endorsement_msg p na 58).2 = (identity_endorsement_msg p' na' 58).2 →
  p = p' ∧ na = na'.
Proof.
  intros Hp Hp' Hn Hn'. cbn [identity_endorsement_msg Nat.ltb Nat.leb snd].
  intros [-> Hb]%app_inv_head%app_inj_1; [|congruence]. split; [done|].
  rewrite <- (be64_roundtrip na), <- (be64_roundtrip na') by done. by rewrite Hb.
Qed.

(** A certificate whose blobs were written is the one loaded after a reboot. *)
Lemma endorsement_provision_roundtrip (w : W) m na sig w1 :
  is_u64 na → length sig = 64%nat →
  id_store_write w ID_KEY_ENDORSE_NA (be64_bytes na) = (true, w1) →
  (id_store_write w1 ID_KEY_ENDORSE_SIG sig).1 = true →
  ∀ m', identity_endorsement_get
          (identity_endorsement_load (identity_endorsement_set w m na sig).2 m').2 = Some (na, sig).
Proof.
  intros Hn Hs E1 E2 m'. unfold identity_endorsement_set, identity_endorsement_load. cbn [snd].
  rewrite E1. cbn [snd]. destruct (id_store_write w1 ID_KEY_ENDORSE_SIG sig) as [ok w2] eqn:Ew.
  cbn [fst] in E2. subst ok. cbn [snd].
  pose proof (id_write_frame w1 ID_KEY_ENDORSE_SIG sig ID_KEY_ENDORSE_NA 8) as Hf.
  rewrite Ew in Hf. cbn [snd] in Hf. rewrite Hf by keys_dec.
  pose proof (id_read_written _ _ _ _ E1) as R1. pose proof (id_read_written _ _ _ _ Ew) as R2.
  change (length (be64_bytes na)) with 8%nat in R1. unfold BRAMBLE_ED25519_SIG_SIZE.
  rewrite Hs in R2. rewrite R1, R2.
  unfold identity_endorsement_get. cbn [snd s_endorse_set negb s_endorse_not_after s_endorse_sig].
  by rewrite be64_roundtrip.
Qed.

(** The node keeps its identity: an identity that was saved is the one the
    next boot loads, and an identity that a load produced, by reading it or by
    giving a fresh signing pair to a store that held only the X25519 pair, is what
    every later boot loads, whatever keys it could generate; each load's address
    and key hash are those its signing key derives to.  For every blob store that
    reads back what it wrote and keeps other keys. *)
Theorem identity_survives_reboot (w w' : W) (id : bramble_identity_t) :
  (identity_save w id = (0, w') →
   length (id_private_key id) = 32%nat → length (id_public_key id) = 32%nat →
   length (id_ed25519_public_key id) = 32%nat → length (id_ed25519_private_key id) = 64%nat →
   identity_derived id →
   ∀ kp, identity_load w' kp = (Some id, w')) ∧
  (∀ kp, (∀ ep es, kp = Some (ep, es) → length ep = 32%nat ∧ length es = 64%nat) →
   identity_load w kp = (Some id, w') →
   identity_derived id ∧ ∀ kp', identity_load w' kp' = (Some id, w')).
Proof.
  split.
  - unfold identity_save. destruct (write_all w _) as [[|] w1] eqn:Ew; [|done].
    intros [= ->] L1 L2 L3 L4 Hd kp. apply stored_identity_loads; [|done].
    apply write_all_read in Ew as [Hr _]; [|keys_dec]. inv_Forall. cbn [fst snd] in *.
    rewrite L1, L2, L3, L4 in *. by repeat split.
  - intros kp Hkp Hl. pose proof (identity_load_derived _ _ _ _ Hl) as Hd. split; [done|].
    intros kp'. apply stored_identity_loads; [|done]. by eapply identity_load_stored.
Qed.
End Facts.

(** ** A concrete instance *)

(** Stand-ins: a digest of the key's first bytes, and signatures that name signer
    and message. *)
Definition toy_sign (pub msg : list Z) : list Z := take 64 (take 8 pub ++ rev msg).
#[local] Instance toy_id_crypto : IdCrypto := {
  crypto_sha256 m := take 32 (m ++ replicate 32 0);
  crypto_ed25519_verify pub msg sig := bool_decide (sig = toy_sign pub msg) }.

(** A store with the X25519 pair only. *)
Definition legacy_blobs : host_blobs :=
  [("priv", replicate 32 1); ("pub", replicate 32 2)].

Lemma identity_survives_reboot_witness :
  let kp := Some (replicate 32 3, replicate 64 4) in
  ∃ id w', identity_load legacy_blobs kp = (Some id, w') ∧ id_address id = 50529027 ∧
    identity_load w' None = (Some id, w').
Proof.
  intros kp. do 2 eexists. split; [vm_compute; reflexivity|]. split; [vm_compute; reflexivity|].
  apply (identity_survives_reboot legacy_blobs) with (kp := kp).
  - intros ep es [= <- <-]. split; vm_compute; reflexivity.
  - vm_compute. reflexivity.
Defined.
