(* ===== verification/IdentityStore.v ===== *)
(** * The identity pins ([components/identity/identity_store.c])

    32 bindings from an address to the two public keys its holder attested, with
    the trust anchor, eviction, the verification flags and the persisted form.  A
    pointer to a pin is its index. *)

From stdpp Require Import base strings numbers sets option decidable list.
From S2P Require Import Prelude Tables Packet PacketSpec NetworkKey DmCrypto Identity.

Definition IDENTITY_STORE_CAPACITY : nat := 32.
Definition QUORUM_BOOTSTRAP_GRACE_MS : Z := 300000.
Definition QUORUM_GRACE_MIN_PINS : nat := 3.

Record identity_pin_t := mk_pin {
  pin_used : bool; pin_address : Z; pin_ed25519_pub : list Z; pin_x25519_pub : list Z;
  pin_last_confirmed_ms : Z; pin_verified : bool; pin_verified_sas : list Z;
  pin_key_changed : bool }.
Definition pin_zero : identity_pin_t :=
  mk_pin false 0 (replicate 32 0) (replicate 32 0) 0 false (replicate 8 0) false.
#[global] Instance pin_inhabited : Inhabited identity_pin_t := populate pin_zero.

Record identity_store_t := mk_ids {
  is_entries : list identity_pin_t; is_boot_ms : Z;
  is_conflicts : Z; is_sig_failures : Z; is_addr_mismatches : Z;
  is_has_anchor : bool; is_anchor_pub : list Z; is_unendorsed : Z; is_expired : Z;
  is_evictions : Z; is_evictions_verified : Z; is_grace_forced_closed : bool }.

Definition set_entries (s : identity_store_t) (es : list identity_pin_t) : identity_store_t :=
  mk_ids es (is_boot_ms s) (is_conflicts s) (is_sig_failures s) (is_addr_mismatches s)
    (is_has_anchor s) (is_anchor_pub s) (is_unendorsed s) (is_expired s) (is_evictions s)
    (is_evictions_verified s) (is_grace_forced_closed s).
Definition set_counters (s : identity_store_t) (conflicts sig_failures addr_mismatches unendorsed
    expired evictions evictions_verified : Z) : identity_store_t :=
  mk_ids (is_entries s) (is_boot_ms s) conflicts sig_failures addr_mismatches
    (is_has_anchor s) (is_anchor_pub s) unendorsed expired evictions evictions_verified
    (is_grace_forced_closed s).
(** [s->conflicts++] and the other counters. *)
Inductive pin_counter := CtConflicts | CtSigFailures | CtAddrMismatches | CtUnendorsed | CtExpired
  | CtEvictions | CtEvictionsVerified.
#[global] Instance pin_counter_eq_dec : EqDecision pin_counter.
Proof. solve_decision. Defined.
Definition bump (c : pin_counter) (s : identity_store_t) : identity_store_t :=
  let inc c' v := if decide (c = c') then v ⊕ 1 else v in
  set_counters s (inc CtConflicts (is_conflicts s)) (inc CtSigFailures (is_sig_failures s))
    (inc CtAddrMismatches (is_addr_mismatches s)) (inc CtUnendorsed (is_unendorsed s))
    (inc CtExpired (is_expired s)) (inc CtEvictions (is_evictions s))
    (inc CtEvictionsVerified (is_evictions_verified s)).

Definition identity_store_init (now_ms : Z) : identity_store_t :=
  mk_ids (replicate IDENTITY_STORE_CAPACITY pin_zero) now_ms 0 0 0 false (replicate 32 0) 0 0 0 0
    false.

Definition identity_store_count (s : identity_store_t) : nat :=
  length (filter (λ e, pin_used e = true) (is_entries s)).

Definition pin_unuse (e : identity_pin_t) : identity_pin_t :=
  mk_pin false (pin_address e) (pin_ed25519_pub e) (pin_x25519_pub e) (pin_last_confirmed_ms e)
    (pin_verified e) (pin_verified_sas e) (pin_key_changed e).

Definition anchor_changes (s : identity_store_t) (anchor_pub : list Z) : bool :=
  negb (is_has_anchor s) || negb (bool_decide (is_anchor_pub s = anchor_pub)).
Definition identity_store_set_anchor (s : identity_store_t) (anchor_pub : list Z)
    : identity_store_t :=
  let changed := anchor_changes s anchor_pub in
  let had_pins := (0 <? identity_store_count s)%nat in
  mk_ids (if changed then pin_unuse <$> is_entries s else is_entries s)
    (is_boot_ms s) (is_conflicts s) (is_sig_failures s) (is_addr_mismatches s)
    true anchor_pub (is_unendorsed s) (is_expired s) (is_evictions s) (is_evictions_verified s)
    (if changed && had_pins then true else is_grace_forced_closed s).

Definition pin_for (address : Z) (e : identity_pin_t) : bool :=
  pin_used e && (pin_address e =? address).
Definition find_entry (s : identity_store_t) (address : Z) : option nat :=
  find_index (pin_for address) (is_entries s).
Definition identity_store_lookup (s : identity_store_t) (address : Z) : option identity_pin_t :=
  i ← find_entry s address; is_entries s !! i.

(** The scan of [alloc_entry]: a free slot ends it, otherwise the oldest
    unverified and the oldest verified pin so far, each with its age. *)
Definition older (now_ms : Z) (best : option (nat * Z)) (i : nat) (e : identity_pin_t)
    : option (nat * Z) :=
  let age := now_ms ⊖ pin_last_confirmed_ms e in
  match best with
  | None => Some (i, age)
  | Some (_, best_age) => if age >? best_age then Some (i, age) else best
  end.
Fixpoint alloc_scan (now_ms : Z) (es : list identity_pin_t) (i : nat)
    (victim verified_victim : option (nat * Z)) : nat + option (nat * Z) * option (nat * Z) :=
  match es with
  | [] => inr (victim, verified_victim)
  | e :: es' =>
      if negb (pin_used e) then inl i
      else if pin_verified e
           then alloc_scan now_ms es' (S i) victim (older now_ms verified_victim i e)
           else alloc_scan now_ms es' (S i) (older now_ms victim i e) verified_victim
  end.
(** [None]: the null pointer, returned by no store of 32 entries. *)
Definition alloc_entry (s : identity_store_t) (now_ms : Z) : option nat * identity_store_t :=
  match alloc_scan now_ms (is_entries s) 0 None None with
  | inl i => (Some i, s)
  | inr (Some (v, _), _) => (Some v, bump CtEvictions s)
  | inr (None, vv) => (fst <$> vv, bump CtEvictionsVerified (bump CtEvictions s))
  end.

Inductive identity_pin_result_t :=
  | IDENTITY_PIN_NEW | IDENTITY_PIN_REFRESHED | IDENTITY_PIN_CONFLICT | IDENTITY_PIN_SELF
  | IDENTITY_PIN_BAD_SIG | IDENTITY_PIN_ADDR_MISMATCH | IDENTITY_PIN_UNENDORSED
  | IDENTITY_PIN_EXPIRED.
#[global] Instance pin_result_eq_dec : EqDecision identity_pin_result_t.
Proof. solve_decision. Defined.

(** The fields [identity_store_pin] assigns; the others keep the slot's values. *)
Definition pin_bind (e : identity_pin_t) (address : Z) (ed25519_pub x25519_pub : list Z)
    (now_ms : Z) : identity_pin_t :=
  mk_pin true address ed25519_pub x25519_pub now_ms (pin_verified e) (pin_verified_sas e)
    (pin_key_changed e).
Definition pin_refresh (e : identity_pin_t) (now_ms : Z) : identity_pin_t :=
  mk_pin (pin_used e) (pin_address e) (pin_ed25519_pub e) (pin_x25519_pub e) now_ms
    (pin_verified e) (pin_verified_sas e) (pin_key_changed e).

Definition identity_store_pin (s : identity_store_t) (address : Z)
    (ed25519_pub x25519_pub : list Z) (now_ms : Z) : identity_pin_result_t * identity_store_t :=
  match find_entry s address with
  | Some i =>
      let e := is_entries s !!! i in
      if bool_decide (pin_ed25519_pub e = ed25519_pub) && bool_decide (pin_x25519_pub e = x25519_pub)
      then (IDENTITY_PIN_REFRESHED, set_entries s (<[i := pin_refresh e now_ms]> (is_entries s)))
      else (IDENTITY_PIN_CONFLICT, bump CtConflicts s)
  | None =>
      let '(r, s) := alloc_entry s now_ms in
      match r with
      | None => (IDENTITY_PIN_NEW, s)
      | Some i =>
          (IDENTITY_PIN_NEW,
           set_entries s (<[i := pin_bind (is_entries s !!! i) address ed25519_pub x25519_pub now_ms]>
                            (is_entries s)))
      end
  end.

Section Handle.
Context `{IC : IdCrypto}.

(** The signature over the frame's own canonical message verifies. *)
Definition attestation_sig_ok (att : bramble_identity_attestation_t) : bool :=
  match bramble_identity_attestation_signed_msg att (replicate IDENTITY_ATTESTATION_MSG_SIZE 0)
          IDENTITY_ATTESTATION_MSG_SIZE with
  | Some (ESP_OK, msg) => crypto_ed25519_verify (att_ed25519_pub att) msg (att_sig att)
  | _ => false
  end.

Definition identity_store_handle_attestation (s : identity_store_t)
    (att : bramble_identity_attestation_t) (self_addr now_ms epoch_ms : Z)
    : identity_pin_result_t * identity_store_t :=
  if att_src_addr att =? self_addr then (IDENTITY_PIN_SELF, s)
  else if negb (crypto_derive_address (att_ed25519_pub att) =? att_src_addr att)
  then (IDENTITY_PIN_ADDR_MISMATCH, bump CtAddrMismatches s)
  else if negb (attestation_sig_ok att) then (IDENTITY_PIN_BAD_SIG, bump CtSigFailures s)
  else if is_has_anchor s && (att_not_after att =? IDENTITY_ENDORSEMENT_NOT_AFTER_NONE)
  then (IDENTITY_PIN_UNENDORSED, bump CtUnendorsed s)
  else if is_has_anchor s &&
          negb (identity_endorsement_verify (is_anchor_pub s) (att_ed25519_pub att)
                  (att_not_after att) (att_endorsement_sig att))
  then (IDENTITY_PIN_UNENDORSED, bump CtUnendorsed s)
  else if is_has_anchor s &&
          (negb (att_not_after att =? IDENTITY_ENDORSEMENT_NOT_AFTER_PERMANENT) &&
           negb (epoch_ms =? 0) && (epoch_ms >? att_not_after att))
  then (IDENTITY_PIN_EXPIRED, bump CtExpired s)
  else identity_store_pin s (att_src_addr att) (att_ed25519_pub att) (att_x25519_pub att) now_ms.
End Handle.

Definition identity_store_quorum_eligible (s : identity_store_t) (address : Z)
    (established : bool) (now_ms : Z) : bool :=
  if negb established then false
  else match identity_store_lookup s address with
       | Some _ => true
       | None =>
           if is_grace_forced_closed s then false
           else ((now_ms ⊖ is_boot_ms s) <? QUORUM_BOOTSTRAP_GRACE_MS) &&
                (identity_store_count s <? QUORUM_GRACE_MIN_PINS)%nat
       end.

(** [snprintf(dst, 8, "%s", sas)]: up to seven bytes before the terminator, and a
    terminator; what lies behind it is not touched. *)
Fixpoint c_string (bs : list Z) : list Z :=
  match bs with [] => [] | b :: bs' => if b =? 0 then [] else b :: c_string bs' end.
Definition snprintf_s (dst src : list Z) (size : nat) : list Z :=
  filled (take (size - 1) (c_string src) ++ [0]) dst.

Definition pin_set_verified (e : identity_pin_t) (sas : list Z) : identity_pin_t :=
  mk_pin (pin_used e) (pin_address e) (pin_ed25519_pub e) (pin_x25519_pub e)
    (pin_last_confirmed_ms e) true (snprintf_s (pin_verified_sas e) sas 8) false.
Definition pin_clear_verified (e : identity_pin_t) : identity_pin_t :=
  mk_pin (pin_used e) (pin_address e) (pin_ed25519_pub e) (pin_x25519_pub e)
    (pin_last_confirmed_ms e) false (replicate 8 0) (pin_key_changed e).
Definition pin_mark_changed (e : identity_pin_t) : identity_pin_t :=
  mk_pin (pin_used e) (pin_address e) (pin_ed25519_pub e) (pin_x25519_pub e)
    (pin_last_confirmed_ms e) (pin_verified e) (pin_verified_sas e) true.

(** [e = find_entry(s, address); if (!e) return false; update(e); return true;] *)
Definition update_pin (s : identity_store_t) (address : Z) (f : identity_pin_t → identity_pin_t)
    : bool * identity_store_t :=
  match find_entry s address with
  | None => (false, s)
  | Some i => (true, set_entries s (<[i := f (is_entries s !!! i)]> (is_entries s)))
  end.
Definition identity_store_set_verified (s : identity_store_t) (address : Z) (sas : list Z)
    : bool * identity_store_t := update_pin s address (λ e, pin_set_verified e sas).
Definition identity_store_clear_verified (s : identity_store_t) (address : Z)
    : bool * identity_store_t := update_pin s address pin_clear_verified.
Definition identity_store_mark_key_changed (s : identity_store_t) (address : Z)
    : bool * identity_store_t := update_pin s address pin_mark_changed.
Definition identity_store_is_verified (s : identity_store_t) (address : Z) : bool :=
  match identity_store_lookup s address with None => false | Some e => pin_verified e end.
Definition identity_store_key_changed (s : identity_store_t) (address : Z) : bool :=
  match identity_store_lookup s address with None => false | Some e => pin_key_changed e end.

(** ** The persisted form *)

Definition IDENTITY_STORE_BLOB_VERSION : Z := 1.
Definition IDENTITY_STORE_RECORD_SIZE : nat := 77.
Definition IDENTITY_STORE_BLOB_MAX : nat :=
  2 + IDENTITY_STORE_CAPACITY * IDENTITY_STORE_RECORD_SIZE.

Definition pin_record (e : identity_pin_t) : list Z :=
  be32_bytes (pin_address e) ++ pin_ed25519_pub e ++ pin_x25519_pub e ++
  [if pin_verified e then 1 else 0] ++ pin_verified_sas e.
(** [None]: [-1], the buffer is too small. *)
Definition identity_store_serialize (s : identity_store_t) (buf_len : nat) : option (list Z) :=
  let count := identity_store_count s in
  if (buf_len <? 2 + count * IDENTITY_STORE_RECORD_SIZE)%nat then None
  else Some (u8 IDENTITY_STORE_BLOB_VERSION :: u8 (Z.of_nat count) ::
             (filter (λ e, pin_used e = true) (is_entries s) ≫= pin_record)).

(** The loop over the [n] records left, from offset [off]; [None] would be a read
    outside the blob. *)
Fixpoint restore_records (s : identity_store_t) (buf : list Z) (now_ms : Z) (n off : nat)
    : option identity_store_t :=
  match n with
  | O => Some s
  | S n' =>
      a ← rdn buf off 4;
      ed ← rdn buf (off + 4) 32;
      x ← rdn buf (off + 36) 32;
      v ← rd buf (off + 68);
      sas ← rdn buf (off + 69) 8;
      let address := be32_val a in
      let sas := <[7%nat := 0]> sas in
      let '(_, s) := identity_store_pin s address ed x now_ms in
      let s := if negb (v =? 0) then (identity_store_set_verified s address sas).2 else s in
      restore_records s buf now_ms n' (off + 77)
  end.

Definition identity_store_deserialize (s : identity_store_t) (buf : list Z) (now_ms : Z)
    : option (Z * identity_store_t) :=
  let z := identity_store_init now_ms in
  let s := mk_ids (is_entries z) (is_boot_ms z) (is_conflicts z) (is_sig_failures z)
             (is_addr_mismatches z) (is_has_anchor s) (is_anchor_pub s) (is_unendorsed z)
             (is_expired z) (is_evictions z) (is_evictions_verified z)
             (is_grace_forced_closed s) in
  let len := length buf in
  if (len <? 2)%nat then Some (-1, s) else
  version ← rd buf 0;
  if negb (version =? u8 IDENTITY_STORE_BLOB_VERSION) then Some (-1, s) else
  count ← rd buf 1;
  let count := Z.to_nat count in
  if (IDENTITY_STORE_CAPACITY <? count)%nat then Some (-1, s)
  else if (len <? 2 + count * IDENTITY_STORE_RECORD_SIZE)%nat then Some (-1, s)
  else s ← restore_records s buf now_ms count 2; Some (0, s).

(** ** Persistence and reboots ([main/mesh_persist.c], the boot sequence of
       [main/mesh_task.c])

    [flash]: the pin blob in NVS, if any.  [nvs_ok]: whether opening, writing and
    committing succeed; a write that fails leaves the old blob. *)

Definition mesh_pin_store_save (s : identity_store_t) (flash : option (list Z)) (nvs_ok : bool)
    : option (list Z) :=
  match identity_store_serialize s IDENTITY_STORE_BLOB_MAX with
  | None => flash
  | Some buf => if nvs_ok then Some buf else flash
  end.
(** [nvs_get_blob] fails on a blob longer than the buffer. *)
Definition mesh_pin_store_load (s : identity_store_t) (flash : option (list Z)) (now_ms : Z)
    : option identity_store_t :=
  match flash with
  | None => Some s
  | Some buf =>
      if (IDENTITY_STORE_BLOB_MAX <? length buf)%nat then Some s
      else '(_, s) ← identity_store_deserialize s buf now_ms; Some s
  end.
(** The lines of [mesh_task_start] that bring the pins up; [anchor] is
    [identity_anchor_get]. *)
Definition boot_pins (anchor : option (list Z)) (flash : option (list Z)) (now_ms : Z)
    : option identity_store_t :=
  let s := identity_store_init now_ms in
  let s := match anchor with None => s | Some pub => identity_store_set_anchor s pub end in
  mesh_pin_store_load s flash now_ms.
Definition mesh_set_pin_anchor (s : identity_store_t) (anchor_pub : list Z) : identity_store_t :=
  identity_store_set_anchor s anchor_pub.
