(* ===== verification/IdentityStoreSpec.v ===== *)
(** * What the identity pins promise

    Who can be pinned, what an eviction may take, what a reboot restores, and two
    ways in which a verified mark or an unendorsed pin outlives its owner. *)

From stdpp Require Import base strings numbers sets option decidable list.
From S2P Require Import Prelude Tables Packet PacketSpec NetworkKey DmCrypto Identity IdentityStore.

(** ** The eviction victim *)

Definition pin_age (now : Z) (e : identity_pin_t) : Z := now ⊖ pin_last_confirmed_ms e.

(** [b'] is the better of [b] and the oldest of the pins with flag [f] in [es],
    whose first has index [i]. *)
Definition oldest_of (now : Z) (f : bool) (es : list identity_pin_t) (i : nat)
    (b b' : option (nat * Z)) : Prop :=
  (b' = b ∨ ∃ k e, es !! k = Some e ∧ pin_verified e = f ∧ b' = Some ((i + k)%nat, pin_age now e)) ∧
  (∀ k a, b = Some (k, a) → ∃ k' a', b' = Some (k', a') ∧ a ≤ a') ∧
  (∀ e, e ∈ es → pin_verified e = f → ∃ k' a', b' = Some (k', a') ∧ pin_age now e ≤ a').

Lemma oldest_of_nil now f i b : oldest_of now f [] i b b.
Proof.
  split; [by left|]. split; [|by intros e ?%elem_of_nil].
  intros k a ->. eauto using Z.le_refl.
Qed.

Lemma oldest_of_skip now f e es i b b' :
  pin_verified e ≠ f → oldest_of now f es (S i) b b' → oldest_of now f (e :: es) i b b'.
Proof.
  intros He (H1 & H2 & H3). split; [|split; [done|]].
  - destruct H1 as [?|(k & e' & Hk & Hf & ->)]; [by left|]. right. exists (S k), e'.
    split; [done|]. split; [done|]. do 2 f_equal. lia.
  - intros e' [->|?]%elem_of_cons ?; [done|by apply H3].
Qed.

Lemma oldest_of_take now f e es i b b' :
  pin_verified e = f → oldest_of now f es (S i) (older now b i e) b' →
  oldest_of now f (e :: es) i b b'.
Proof.
  intros He (H1 & H2 & H3).
  assert (Hold : (older now b i e = b ∨ older now b i e = Some (i, pin_age now e)) ∧
    (∀ k a, b = Some (k, a) → ∃ k' a', older now b i e = Some (k', a') ∧ a ≤ a') ∧
    ∃ k' a', older now b i e = Some (k', a') ∧ pin_age now e ≤ a').
  { unfold older, pin_age. destruct b as [[k a]|].
    - split_if; conds; (split; [auto|]); split; eauto using Z.le_refl;
        intros k' a' [= -> ->]; eauto with lia.
    - split; [auto|]. split; [done|eauto using Z.le_refl]. }
  destruct Hold as (O1 & O2 & O3). split; [|split].
  - destruct H1 as [->|(k & e' & Hk & Hf & ->)].
    + destruct O1 as [O1|O1]; rewrite O1; [by left|]. right. exists 0%nat, e.
      split; [done|]. split; [done|]. by rewrite Nat.add_0_r.
    + right. exists (S k), e'. split; [done|]. split; [done|]. do 2 f_equal. lia.
  - intros k a Hb. destruct (O2 k a Hb) as (k1 & a1 & E1 & L1).
    destruct (H2 k1 a1 E1) as (k2 & a2 & E2 & L2). exists k2, a2. split; [done|lia].
  - intros e' [->|Hin]%elem_of_cons Hf; [|by apply H3].
    destruct O3 as (k1 & a1 & E1 & L1). destruct (H2 k1 a1 E1) as (k2 & a2 & E2 & L2).
    exists k2, a2. split; [done|lia].
Qed.

Lemma alloc_scan_spec now es : ∀ i v vv,
  match alloc_scan now es i v vv with
  | inl k => ∃ e, (i ≤ k)%nat ∧ es !! (k - i)%nat = Some e ∧ pin_used e = false ∧
      Forall (λ e', pin_used e' = true) (take (k - i) es)
  | inr (v', vv') => Forall (λ e, pin_used e = true) es ∧
      oldest_of now false es i v v' ∧ oldest_of now true es i vv vv'
  end.
Proof.
  induction es as [|e es IH]; intros i v vv; cbn [alloc_scan].
  { split; [constructor|]. split; apply oldest_of_nil. }
  destruct (pin_used e) eqn:Hu; cbn [negb].
  2: { exists e. rewrite Nat.sub_diag. repeat split; [lia|done|constructor]. }
  destruct (pin_verified e) eqn:Hv.
  - specialize (IH (S i) v (older now vv i e)).
    destruct (alloc_scan _ _ _ _ _) as [k|[v' vv']].
    + destruct IH as (e' & Hk & Hl & He' & Ht). exists e'. replace (k - i)%nat with (S (k - S i)) by lia.
      repeat split; [lia|done|done|by constructor].
    + destruct IH as (H1 & H2 & H3). split; [by constructor|].
      split; [apply oldest_of_skip; [congruence|done]|by apply oldest_of_take].
  - specialize (IH (S i) (older now v i e) vv).
    destruct (alloc_scan _ _ _ _ _) as [k|[v' vv']].
    + destruct IH as (e' & Hk & Hl & He' & Ht). exists e'. replace (k - i)%nat with (S (k - S i)) by lia.
      repeat split; [lia|done|done|by constructor].
    + destruct IH as (H1 & H2 & H3). split; [by constructor|].
      split; [by apply oldest_of_take|apply oldest_of_skip; [congruence|done]].
Qed.

(** Whom an allocation may displace: a free slot's former owner, or, with every
    slot in use, the pin unconfirmed for longest among the unverified, or among
    all when none is unverified. *)
Definition displaceable (now : Z) (es : list identity_pin_t) (e : identity_pin_t) : Prop :=
  pin_used e = false ∨
  (Forall (λ e', pin_used e' = true) es ∧
   (pin_verified e = true → Forall (λ e', pin_verified e' = true) es) ∧
   ∀ e', e' ∈ es → pin_verified e' = pin_verified e → pin_age now e' ≤ pin_age now e).

Lemma bump_entries c s : is_entries (bump c s) = is_entries s.
Proof. done. Qed.
Lemma bump_anchor c s :
  is_has_anchor (bump c s) = is_has_anchor s ∧ is_anchor_pub (bump c s) = is_anchor_pub s.
Proof. done. Qed.

Lemma alloc_entry_spec s now :
  (0 < length (is_entries s))%nat →
  ∃ i e, (alloc_entry s now).1 = Some i ∧ is_entries s !! i = Some e ∧
    displaceable now (is_entries s) e.
Proof.
  intros Hlen. unfold alloc_entry. pose proof (alloc_scan_spec now (is_entries s) 0 None None) as H.
  destruct (alloc_scan _ _ _ _ _) as [k|[v vv]].
  - destruct H as (e & _ & He & Hu & _). rewrite Nat.sub_0_r in He. exists k, e.
    split; [done|]. split; [done|]. by left.
  - destruct H as (Hall & (V1 & _ & V3) & (W1 & _ & W3)).
    destruct v as [[k a]|].
    + destruct V1 as [?|(k' & e & He & Hf & [= -> ->])]; [done|]. exists k', e.
      split; [done|]. split; [done|]. right. split; [done|]. split; [congruence|].
      intros e' Hin He'. rewrite Hf in He'.
      destruct (V3 e' Hin He') as (? & ? & [= <- <-] & ?). done.
    + assert (Hver : Forall (λ e', pin_verified e' = true) (is_entries s)).
      { apply list.Forall_forall. intros e Hin. destruct (pin_verified e) eqn:E; [done|].
        by destruct (V3 e Hin E) as (? & ? & ? & _). }
      destruct (is_entries s) as [|e0 es] eqn:Ees; [cbn in Hlen; lia|].
      destruct (W3 e0 ltac:(left)) as (k1 & a1 & E1 & _); [by inv_Forall|].
      rewrite E1 in *. destruct W1 as [?|(k' & e & He & Hf & [= -> ->])]; [done|].
      exists k', e. split; [done|]. split; [done|]. right. split; [done|]. split; [done|].
      intros e' Hin He'. rewrite Hf in He'.
      destruct (W3 e' Hin He') as (? & ? & [= <- <-] & ?). done.
Qed.

Lemma alloc_entry_keeps s now :
  let s' := (alloc_entry s now).2 in
  is_entries s' = is_entries s ∧ is_has_anchor s' = is_has_anchor s ∧
  is_anchor_pub s' = is_anchor_pub s.
Proof.
  unfold alloc_entry. destruct (alloc_scan _ _ _ _ _) as [k|[[[? ?]|] ?]]; done.
Qed.

(** ** One binding per address *)

Definition pins_unique (es : list identity_pin_t) : Prop :=
  ∀ i j e e', es !! i = Some e → es !! j = Some e' → pin_used e = true → pin_used e' = true →
    pin_address e = pin_address e' → i = j.
Definition pins_ok (s : identity_store_t) : Prop :=
  length (is_entries s) = IDENTITY_STORE_CAPACITY ∧ pins_unique (is_entries s).

Lemma pin_for_spec a e : pin_for a e = true ↔ pin_used e = true ∧ pin_address e = a.
Proof. unfold pin_for. by rewrite andb_true_iff, Z.eqb_eq. Qed.

Lemma find_entry_Some s a i :
  find_entry s a = Some i →
  ∃ e, is_entries s !! i = Some e ∧ is_entries s !!! i = e ∧ pin_used e = true ∧ pin_address e = a ∧
    identity_store_lookup s a = Some e.
Proof.
  intros H. pose proof H as (e & He & [Hu Ha]%pin_for_spec & _)%find_index_Some. exists e.
  rewrite (list_lookup_total_correct _ _ _ He). split; [done|]. split; [done|]. split; [done|].
  split; [done|]. unfold identity_store_lookup. by rewrite H.
Qed.

Lemma find_entry_None s a i e :
  find_entry s a = None → is_entries s !! i = Some e → pin_used e = true → pin_address e ≠ a.
Proof.
  intros H%find_index_None Hi Hu Ha. rewrite list.Forall_forall in H.
  specialize (H e (list_elem_of_lookup_2 _ _ _ Hi)).
  assert (pin_for a e = true) by (by apply pin_for_spec). congruence.
Qed.

Lemma lookup_None_iff s a : identity_store_lookup s a = None ↔ find_entry s a = None.
Proof.
  unfold identity_store_lookup. split; [|by intros ->].
  destruct (find_entry s a) as [i|] eqn:E; [|done].
  destruct (find_entry_Some _ _ _ E) as (e & He & _). cbn [mbind option_bind]. by rewrite He.
Qed.

Lemma lookup_pin s i e :
  pins_unique (is_entries s) → is_entries s !! i = Some e → pin_used e = true →
  identity_store_lookup s (pin_address e) = Some e.
Proof.
  intros Hu Hi He. destruct (find_entry s (pin_address e)) as [j|] eqn:E.
  - destruct (find_entry_Some _ _ _ E) as (e' & Hj & _ & Hu' & Ha & Hl). rewrite Hl.
    assert (j = i) as -> by (by eapply Hu). congruence.
  - by destruct (find_entry_None _ _ _ _ E Hi He).
Qed.

Lemma lookup_pin_inv s a e :
  identity_store_lookup s a = Some e →
  ∃ i, find_entry s a = Some i ∧ is_entries s !! i = Some e ∧ pin_used e = true ∧ pin_address e = a.
Proof.
  unfold identity_store_lookup. intros (i & Hi & He)%bind_Some.
  destruct (find_entry_Some _ _ _ Hi) as (e' & He' & _ & ? & ? & _). exists i.
  rewrite He in He'. by injection He' as <-.
Qed.

Lemma pins_unique_insert es i e :
  pins_unique es →
  (pin_used e = true → ∀ j e', es !! j = Some e' → pin_used e' = true →
     pin_address e' = pin_address e → j = i) →
  pins_unique (<[i := e]> es).
Proof.
  intros Hu Hp j k e1 e2 Hj Hk H1 H2 He.
  apply list_lookup_insert_Some in Hj as [(<- & <- & _)|[Hij Hj]];
    apply list_lookup_insert_Some in Hk as [(<- & <- & _)|[Hik Hk]]; [done| | |by eapply Hu].
  - symmetry. by apply (Hp H1 k e2).
  - by apply (Hp H2 j e1).
Qed.

Lemma pins_ok_insert s i e :
  pins_ok s →
  (pin_used e = true → ∀ j e', is_entries s !! j = Some e' → pin_used e' = true →
     pin_address e' = pin_address e → j = i) →
  pins_ok (set_entries s (<[i := e]> (is_entries s))).
Proof.
  intros [Hl Hu] Hp. split; cbn [is_entries set_entries]; [by rewrite length_insert|].
  by apply pins_unique_insert.
Qed.

(** Rewriting a pin in place. *)
Lemma pins_ok_update s i e e' :
  pins_ok s → is_entries s !! i = Some e → pin_used e' = pin_used e →
  pin_address e' = pin_address e → pins_ok (set_entries s (<[i := e']> (is_entries s))).
Proof.
  intros Hok Hi Hu Ha. apply pins_ok_insert; [done|]. intros Hu' j e2 Hj H2 He.
  apply (proj2 Hok j i e2 e); [done|done|done|congruence|congruence].
Qed.

Lemma pins_ok_entries s s' : is_entries s' = is_entries s → pins_ok s → pins_ok s'.
Proof. unfold pins_ok. by intros ->. Qed.

Lemma pins_ok_init now : pins_ok (identity_store_init now).
Proof.
  split; [apply length_replicate|]. intros i j e e' [-> _]%lookup_replicate _ Hu. done.
Qed.

Lemma pins_ok_length s : pins_ok s → (0 < length (is_entries s))%nat.
Proof. intros [-> _]. unfold IDENTITY_STORE_CAPACITY. lia. Qed.

Lemma identity_store_pin_spec s a ed x now :
  pins_ok s →
  let '(r, s') := identity_store_pin s a ed x now in
  pins_ok s' ∧ is_has_anchor s' = is_has_anchor s ∧ is_anchor_pub s' = is_anchor_pub s ∧
  match r with
  | IDENTITY_PIN_NEW => find_entry s a = None ∧ ∃ i e, is_entries s !! i = Some e ∧
      displaceable now (is_entries s) e ∧ is_entries s' = <[i := pin_bind e a ed x now]> (is_entries s)
  | IDENTITY_PIN_REFRESHED => ∃ i e, find_entry s a = Some i ∧ is_entries s !! i = Some e ∧
      pin_ed25519_pub e = ed ∧ pin_x25519_pub e = x ∧
      is_entries s' = <[i := pin_refresh e now]> (is_entries s)
  | IDENTITY_PIN_CONFLICT => is_entries s' = is_entries s ∧ ∃ e, identity_store_lookup s a = Some e ∧
      (pin_ed25519_pub e, pin_x25519_pub e) ≠ (ed, x)
  | _ => False
  end.
Proof.
  intros Hok. unfold identity_store_pin. destruct (find_entry s a) as [i|] eqn:Ef.
  - destruct (find_entry_Some _ _ _ Ef) as (e & Hi & -> & Hu & Ha & Hl).
    destruct (bool_decide (pin_ed25519_pub e = ed) && bool_decide (pin_x25519_pub e = x)) eqn:Ek.
    + apply andb_true_iff in Ek as [?%bool_decide_eq_true ?%bool_decide_eq_true].
      split; [by eapply pins_ok_update|]. eauto 10.
    + split; [done|]. split; [done|]. split; [done|]. split; [done|]. exists e. split; [done|].
      intros [= <- <-]. by rewrite !bool_decide_eq_true_2 in Ek.
  - destruct (alloc_entry_spec s now (pins_ok_length _ Hok)) as (i & e & Hr & Hi & Hd).
    pose proof (alloc_entry_keeps s now) as (K1 & K2 & K3).
    destruct (alloc_entry s now) as [r s1]; cbn [fst snd] in *. subst r.
    rewrite K1, (list_lookup_total_correct _ _ _ Hi). split.
    { apply (pins_ok_entries (set_entries s (<[i := pin_bind e a ed x now]> (is_entries s)))); [done|].
      apply pins_ok_insert; [done|]. intros _ j e' Hj Hu' Ha'.
      by destruct (find_entry_None _ _ _ _ Ef Hj Hu'). }
    split; [done|]. split; [done|]. eauto 10.
Qed.

Lemma update_pin_spec s a f :
  pins_ok s → (∀ e, pin_used (f e) = pin_used e ∧ pin_address (f e) = pin_address e) →
  let s' := (update_pin s a f).2 in
  pins_ok s' ∧ is_has_anchor s' = is_has_anchor s ∧ is_anchor_pub s' = is_anchor_pub s ∧
  (is_entries s' = is_entries s ∧ identity_store_lookup s a = None ∨
   ∃ i e, find_entry s a = Some i ∧ is_entries s !! i = Some e ∧
     is_entries s' = <[i := f e]> (is_entries s)).
Proof.
  intros Hok Hf. unfold update_pin. destruct (find_entry s a) as [i|] eqn:Ef; cbn [snd].
  - destruct (find_entry_Some _ _ _ Ef) as (e & Hi & -> & _). destruct (Hf e).
    split; [by eapply pins_ok_update|]. eauto 10.
  - split; [done|]. split; [done|]. split; [done|]. left. split; [done|]. by apply lookup_None_iff.
Qed.

(** ** Who is pinned *)

Inductive pin_event :=
  | EvAttest (att : bramble_identity_attestation_t) (now_ms epoch_ms : Z)
  | EvAnchor (anchor_pub : list Z)
  | EvVerify (address : Z) (sas : list Z)
  | EvUnverify (address : Z)
  | EvKeyChanged (address : Z).

Section Trace.
Context `{IC : IdCrypto} (self_addr : Z).

Definition pin_step (s : identity_store_t) (ev : pin_event) : identity_store_t :=
  match ev with
  | EvAttest att now epoch => (identity_store_handle_attestation s att self_addr now epoch).2
  | EvAnchor pub => identity_store_set_anchor s pub
  | EvVerify a sas => (identity_store_set_verified s a sas).2
  | EvUnverify a => (identity_store_clear_verified s a).2
  | EvKeyChanged a => (identity_store_mark_key_changed s a).2
  end.
Definition pin_run (now : Z) (evs : list pin_event) : identity_store_t :=
  foldl pin_step (identity_store_init now) evs.

(** The attestation speaks for its own address, signed by the key it names. *)
Definition authentic (att : bramble_identity_attestation_t) : Prop :=
  att_src_addr att ≠ self_addr ∧
  crypto_derive_address (att_ed25519_pub att) = att_src_addr att ∧
  attestation_sig_ok att = true.
Definition endorsed (anchor : list Z) (att : bramble_identity_attestation_t) : Prop :=
  att_not_after att ≠ IDENTITY_ENDORSEMENT_NOT_AFTER_NONE ∧
  identity_endorsement_verify anchor (att_ed25519_pub att) (att_not_after att)
    (att_endorsement_sig att) = true.
Definition unexpired (att : bramble_identity_attestation_t) (epoch : Z) : Prop :=
  att_not_after att = IDENTITY_ENDORSEMENT_NOT_AFTER_PERMANENT ∨ epoch = 0 ∨
  epoch ≤ att_not_after att.

Lemma handle_attestation_cases s att now epoch :
  let '(r, s') := identity_store_handle_attestation s att self_addr now epoch in
  (is_entries s' = is_entries s ∧ is_has_anchor s' = is_has_anchor s ∧
   is_anchor_pub s' = is_anchor_pub s ∧
   r ∉ [IDENTITY_PIN_NEW; IDENTITY_PIN_REFRESHED; IDENTITY_PIN_CONFLICT]) ∨
  (authentic att ∧
   (is_has_anchor s = true → endorsed (is_anchor_pub s) att ∧ unexpired att epoch) ∧
   (r, s') = identity_store_pin s (att_src_addr att) (att_ed25519_pub att) (att_x25519_pub att) now).
Proof.
  unfold identity_store_handle_attestation.
  destruct (att_src_addr att =? self_addr) eqn:E1; [left; repeat split; set_solver|].
  destruct (crypto_derive_address _ =? _) eqn:E2; cbn [negb]; [|left; repeat split; set_solver].
  destruct (attestation_sig_ok att) eqn:E3; cbn [negb]; [|left; repeat split; set_solver].
  destruct (is_has_anchor s && (att_not_after att =? _)) eqn:E4; [left; repeat split; set_solver|].
  destruct (is_has_anchor s && negb _) eqn:E5; [left; repeat split; set_solver|].
  destruct (is_has_anchor s && (_ && _)) eqn:E6; [left; repeat split; set_solver|].
  destruct (identity_store_pin s _ _ _ _) as [r s'] eqn:Ep. right. conds.
  split; [done|]. split; [|done]. intros Ha. rewrite Ha in E4, E5, E6. cbn [andb] in E4, E5, E6.
  conds. split; [done|]. unfold unexpired.
  destruct (att_not_after att =? IDENTITY_ENDORSEMENT_NOT_AFTER_PERMANENT) eqn:F1;
    [conds; by left|]. destruct (epoch =? 0) eqn:F2; [conds; right; by left|].
  cbn [negb andb] in E6. conds. lia.
Qed.

(** [e] is the binding an attestation of the list made, endorsed if an anchor is set. *)
Definition pin_backed (s : identity_store_t) (evs : list pin_event) (e : identity_pin_t) : Prop :=
  ∃ att now epoch, EvAttest att now epoch ∈ evs ∧ authentic att ∧
    pin_address e = att_src_addr att ∧ pin_ed25519_pub e = att_ed25519_pub att ∧
    pin_x25519_pub e = att_x25519_pub att ∧
    (is_has_anchor s = true → endorsed (is_anchor_pub s) att).

Lemma pin_backed_mono s s' evs ev e e' :
  (is_has_anchor s' = true → is_has_anchor s = true ∧ is_anchor_pub s' = is_anchor_pub s) →
  pin_address e' = pin_address e → pin_ed25519_pub e' = pin_ed25519_pub e →
  pin_x25519_pub e' = pin_x25519_pub e →
  pin_backed s evs e → pin_backed s' (evs ++ [ev]) e'.
Proof.
  intros Hs H1 H2 H3 (att & now & epoch & Hin & Ha & E1 & E2 & E3 & He).
  exists att, now, epoch. split; [apply elem_of_app; by left|]. split; [done|].
  split; [congruence|]. split; [congruence|]. split; [congruence|].
  intros Hs'. destruct (Hs Hs') as [? ->]. by apply He.
Qed.

Lemma pins_ok_anchor s pub : pins_ok s → pins_ok (identity_store_set_anchor s pub).
Proof.
  intros [Hl Hu]. unfold identity_store_set_anchor. destruct (anchor_changes s pub); [|done].
  split; cbn [is_entries]; [by rewrite length_fmap|].
  intros i j e e' Hi Hj He. apply list_lookup_fmap_Some in Hi as (? & -> & _). done.
Qed.

Lemma pin_step_inv s evs ev :
  pins_ok s → Forall (λ e, pin_used e = true → pin_backed s evs e) (is_entries s) →
  pins_ok (pin_step s ev) ∧
  Forall (λ e, pin_used e = true → pin_backed (pin_step s ev) (evs ++ [ev]) e)
    (is_entries (pin_step s ev)).
Proof.
  intros Hok Hall.
  assert (Hkeep : ∀ s', is_has_anchor s' = is_has_anchor s → is_anchor_pub s' = is_anchor_pub s →
    Forall (λ e, pin_used e = true → pin_backed s' (evs ++ [ev]) e) (is_entries s)).
  { intros s' H1 H2. eapply list.Forall_impl; [exact Hall|]. intros e He Hu.
    eapply pin_backed_mono; [|done..|by apply He]. rewrite H1, H2. done. }
  assert (Hupd : ∀ a f, (∀ e, pin_used (f e) = pin_used e ∧ pin_address (f e) = pin_address e ∧
      pin_ed25519_pub (f e) = pin_ed25519_pub e ∧ pin_x25519_pub (f e) = pin_x25519_pub e) →
    pins_ok (update_pin s a f).2 ∧
    Forall (λ e, pin_used e = true → pin_backed (update_pin s a f).2 (evs ++ [ev]) e)
      (is_entries (update_pin s a f).2)).
  { intros a f Hf. destruct (update_pin_spec s a f Hok) as (H1 & H2 & H3 & H4).
    { intros e. destruct (Hf e) as (? & ? & _). done. }
    split; [done|]. destruct H4 as [[-> _]|(i & e & _ & Hi & ->)]; [by apply Hkeep|].
    apply Forall_insert_slot; [by apply Hkeep|]. destruct (Hf e) as (F1 & F2 & F3 & F4).
    rewrite F1. intros Hu. eapply pin_backed_mono; [|exact F2|exact F3|exact F4|].
    - rewrite H2, H3. done.
    - rewrite list.Forall_forall in Hall. by apply (Hall e (list_elem_of_lookup_2 _ _ _ Hi)). }
  destruct ev as [att now epoch|pub|a sas|a|a]; cbn [pin_step].
  - pose proof (handle_attestation_cases s att now epoch) as Hc.
    destruct (identity_store_handle_attestation s att self_addr now epoch) as [r s'] eqn:Eh.
    cbn [snd]. destruct Hc as [(E1 & E2 & E3 & _)|(Ha & Hen & Ep)].
    { split; [by eapply pins_ok_entries|]. rewrite E1. by apply Hkeep. }
    pose proof (identity_store_pin_spec s (att_src_addr att) (att_ed25519_pub att)
      (att_x25519_pub att) now Hok) as Hp. rewrite <- Ep in Hp.
    destruct Hp as (Hok' & A1 & A2 & Hr). split; [done|]. destruct r; try done.
    + destruct Hr as (_ & i & e & _ & _ & ->). apply Forall_insert_slot; [by apply Hkeep|].
      intros _. exists att, now, epoch. split; [apply elem_of_app; right; apply list_elem_of_singleton; done|].
      split; [done|]. split; [done|]. split; [done|]. split; [done|].
      rewrite A1, A2. intros Han. by apply Hen.
    + destruct Hr as (i & e & _ & Hi & _ & _ & ->). apply Forall_insert_slot; [by apply Hkeep|].
      intros Hu. eapply (pin_backed_mono s _ _ _ e); [|done..|].
      * rewrite A1, A2. done.
      * rewrite list.Forall_forall in Hall. by apply (Hall e (list_elem_of_lookup_2 _ _ _ Hi)).
    + destruct Hr as [-> _]. by apply Hkeep.
  - split; [by apply pins_ok_anchor|]. unfold identity_store_set_anchor.
    destruct (anchor_changes s pub) eqn:Ech; cbn [is_entries].
    + apply list.Forall_forall. intros e (e0 & -> & _)%list_elem_of_fmap. done.
    + unfold anchor_changes in Ech. apply orb_false_iff in Ech as [E1%negb_false_iff E2%negb_false_iff].
      apply bool_decide_eq_true in E2. apply Hkeep; by cbn.
  - by apply Hupd.
  - by apply Hupd.
  - by apply Hupd.
Qed.

Lemma pin_run_inv now evs :
  pins_ok (pin_run now evs) ∧
  Forall (λ e, pin_used e = true → pin_backed (pin_run now evs) evs e) (is_entries (pin_run now evs)).
Proof.
  unfold pin_run. induction evs as [|ev evs IH] using rev_ind.
  - split; [apply pins_ok_init|]. apply list.Forall_forall.
    intros e [-> _]%elem_of_replicate. done.
  - rewrite foldl_snoc. destruct IH as [H1 H2]. by apply pin_step_inv.
Qed.

(** C15. Every pinned binding was attested: from an empty store, after any history of
    attestations, anchor changes, verifications and warnings (a reboot, which loads
    the pins from flash, is not one of them), each pin is the address and keys
    of an attestation of the history whose address is another node's and derives
    from the signing key the frame names and whose signature verifies under that
    key; on an anchored node that attestation also carried the current anchor's
    endorsement of the key; and no two pins are for the same address. *)
Theorem pins_authentic (now : Z) (evs : list pin_event) :
  pins_ok (pin_run now evs) ∧
  ∀ a e, identity_store_lookup (pin_run now evs) a = Some e →
    pin_address e = a ∧ pin_backed (pin_run now evs) evs e.
Proof.
  destruct (pin_run_inv now evs) as [Hok Hall]. split; [done|]. intros a e Hl.
  destruct (lookup_pin_inv _ _ _ Hl) as (i & _ & Hi & Hu & Ha). split; [done|].
  rewrite list.Forall_forall in Hall. by apply (Hall e (list_elem_of_lookup_2 _ _ _ Hi)).
Qed.

Lemma lookup_after_insert s s' a e i j e2 :
  find_entry s a = Some i → is_entries s !! i = Some e → pins_ok s' →
  is_entries s' = <[j := e2]> (is_entries s) →
  (j ≠ i → identity_store_lookup s' a = Some e) ∧
  (j = i → pin_used e2 = true → pin_address e2 = a → identity_store_lookup s' a = Some e2).
Proof.
  intros Hf Hi [_ Hu] He. destruct (find_entry_Some _ _ _ Hf) as (e' & Hi' & _ & Hue & <- & _).
  rewrite Hi in Hi'. injection Hi' as <-. split.
  - intros Hne. apply (lookup_pin s' i); [done| |done]. rewrite He. by rewrite list_lookup_insert_ne.
  - intros -> Hu2 <-. apply (lookup_pin s' i); [done| |done]. rewrite He.
    apply list_lookup_insert_eq. by eapply lookup_lt_Some.
Qed.

Lemma update_pin_keeps s b f a e :
  pins_ok s → identity_store_lookup s a = Some e →
  (∀ e, pin_used (f e) = pin_used e ∧ pin_address (f e) = pin_address e) →
  identity_store_lookup (update_pin s b f).2 a = Some (if decide (a = b) then f e else e).
Proof.
  intros Hok Hl Hf. destruct (update_pin_spec s b f Hok Hf) as (Hok' & _ & _ & Hc).
  destruct (lookup_pin_inv _ _ _ Hl) as (i & Hfi & Hi & Hu & Ha).
  destruct Hc as [[He Hn]|(j & e1 & Hfj & Hj & He)].
  - rewrite decide_False by (intros ->; congruence).
    rewrite <- Ha. apply (lookup_pin _ i); [apply Hok'|by rewrite He|done].
  - destruct (lookup_after_insert s _ a e i j (f e1) Hfi Hi Hok' He) as [L1 L2].
    destruct (find_entry_Some _ _ _ Hfj) as (e2 & Hj2 & _ & Hu2 & Ha2 & _). case_decide as Hab.
    + subst b. assert (j = i) as -> by congruence. assert (e1 = e) as -> by congruence.
      destruct (Hf e). apply L2; congruence.
    + apply L1. intros ->. congruence.
Qed.

(** The first binding of an address wins: under every event but a change of
    anchor, a pinned address keeps its keys, and its verified mark changes only by
    the user's verification or un-verification of that address; an attestation of
    the address under other keys changes no pin at all.  The one exception is an
    eviction: when every slot is taken and an authentic stranger attests, the pin
    displaced is the one unconfirmed for longest among the unverified pins, and a
    verified pin only if all are verified. *)
Theorem first_binding_wins (s : identity_store_t) (ev : pin_event) (a : Z) (e : identity_pin_t) :
  pins_ok s → identity_store_lookup s a = Some e →
  match ev with EvAnchor pub => anchor_changes s pub = false | _ => True end →
  ((∃ e', identity_store_lookup (pin_step s ev) a = Some e' ∧
      pin_ed25519_pub e' = pin_ed25519_pub e ∧ pin_x25519_pub e' = pin_x25519_pub e ∧
      (pin_verified e' ≠ pin_verified e → (∃ sas, ev = EvVerify a sas) ∨ ev = EvUnverify a)) ∨
   (∃ att now epoch, ev = EvAttest att now epoch ∧ authentic att ∧ att_src_addr att ≠ a ∧
      identity_store_lookup s (att_src_addr att) = None ∧ displaceable now (is_entries s) e)) ∧
  (∀ att now epoch, ev = EvAttest att now epoch → att_src_addr att = a →
     (att_ed25519_pub att, att_x25519_pub att) ≠ (pin_ed25519_pub e, pin_x25519_pub e) →
     is_entries (pin_step s ev) = is_entries s).
Proof.
  intros Hok Hl Hev. destruct (lookup_pin_inv _ _ _ Hl) as (i & Hfi & Hi & Hu & Ha).
  destruct ev as [att now epoch|pub|b sas|b|b]; cbn [pin_step].
  2: { split; [|done]. left. exists e. unfold identity_store_set_anchor. rewrite Hev.
       split; [exact Hl|]. done. }
  2: { split; [|done]. left. unfold identity_store_set_verified. rewrite (update_pin_keeps _ _ _ a e) by done.
       eexists. split; [done|]. case_decide; [subst; eauto|done]. }
  2: { split; [|done]. left. unfold identity_store_clear_verified. rewrite (update_pin_keeps _ _ _ a e) by done.
       eexists. split; [done|]. case_decide; [subst; eauto|done]. }
  2: { split; [|done]. left. unfold identity_store_mark_key_changed. rewrite (update_pin_keeps _ _ _ a e) by done.
       eexists. split; [done|]. by case_decide. }
  pose proof (handle_attestation_cases s att now epoch) as Hc.
  destruct (identity_store_handle_attestation s att self_addr now epoch) as [r s'] eqn:Eh. cbn [snd].
  destruct Hc as [(E1 & _)|(Hau & _ & Ep)].
  { split; [|by intros ? ? ? [= <- <- <-]]. left. exists e. split; [|done]. rewrite <- Ha.
    apply (lookup_pin _ i); [|by rewrite E1|done]. rewrite E1. apply Hok. }
  pose proof (identity_store_pin_spec s (att_src_addr att) (att_ed25519_pub att)
    (att_x25519_pub att) now Hok) as Hp. rewrite <- Ep in Hp.
  destruct Hp as (Hok' & _ & _ & Hr). destruct r; try done.
  - destruct Hr as (Hn & j & e1 & Hj & Hd & He). split.
    2: { intros ? ? ? [= <- <- <-] Hsa. congruence. }
    destruct (lookup_after_insert s s' a e i j _ Hfi Hi Hok' He) as [L1 _].
    destruct (decide (j = i)) as [->|Hne]; [|left; exists e; split; [by apply L1|done]].
    right. exists att, now, epoch. split; [done|]. split; [done|]. split; [congruence|].
    split; [by apply lookup_None_iff|]. congruence.
  - destruct Hr as (j & e1 & Hfj & Hj & K1 & K2 & He). split.
    2: { intros ? ? ? [= <- <- <-] Hsa Hne. destruct Hne. rewrite Hsa in Hfj.
         rewrite Hfi in Hfj. injection Hfj as <-. rewrite Hi in Hj. injection Hj as <-. congruence. }
    left. destruct (lookup_after_insert s s' a e i j _ Hfi Hi Hok' He) as [L1 L2].
    destruct (decide (j = i)) as [->|Hne]; [|exists e; split; [by apply L1|done]].
    rewrite Hi in Hj. injection Hj as <-. exists (pin_refresh e now). split; [by apply L2|done].
  - destruct Hr as [He _]. split; [|done]. left. exists e. split; [|done]. rewrite <- Ha.
    apply (lookup_pin _ i); [apply Hok'|by rewrite He|done].
Qed.

Lemma lookup_new_pin s s' a ed x now i e :
  is_entries s !! i = Some e → pins_ok s' →
  is_entries s' = <[i := pin_bind e a ed x now]> (is_entries s) →
  identity_store_lookup s' a = Some (pin_bind e a ed x now).
Proof.
  intros Hi [_ Hu] He. change a with (pin_address (pin_bind e a ed x now)) at 1.
  apply (lookup_pin s' i); [done| |done]. rewrite He.
  apply list_lookup_insert_eq. by eapply lookup_lt_Some.
Qed.

(** A new pin inherits a verification nobody made: taking a slot leaves its
    verified mark and short authentication string in place, so the pin of a peer
    attested for the first time reports the mark of the slot's previous owner.  It
    reports verified after an eviction from a store of verified pins, and for the
    first peer pinned after an anchor change dropped pins of which the one in the
    first slot was verified. *)
Theorem new_pin_inherits_verified (s : identity_store_t) (att : bramble_identity_attestation_t)
    (now epoch : Z) :
  pins_ok s →
  ((identity_store_handle_attestation s att self_addr now epoch).1 = IDENTITY_PIN_NEW →
   Forall (λ e, pin_used e = true ∧ pin_verified e = true) (is_entries s) →
   identity_store_is_verified
     (identity_store_handle_attestation s att self_addr now epoch).2 (att_src_addr att) = true) ∧
  (∀ anchor e0, anchor_changes s anchor = true → is_entries s !! 0%nat = Some e0 →
     let s1 := identity_store_set_anchor s anchor in
     (identity_store_handle_attestation s1 att self_addr now epoch).1 = IDENTITY_PIN_NEW →
     let s2 := (identity_store_handle_attestation s1 att self_addr now epoch).2 in
     ∃ e, identity_store_lookup s2 (att_src_addr att) = Some e ∧
       pin_verified e = pin_verified e0 ∧ pin_verified_sas e = pin_verified_sas e0).
Proof.
  intros Hok. split.
  - pose proof (handle_attestation_cases s att now epoch) as Hc.
    destruct (identity_store_handle_attestation s att self_addr now epoch) as [r s'] eqn:Eh.
    cbn [fst snd]. intros -> Hall.
    destruct Hc as [(_ & _ & _ & Hn)|(_ & _ & Ep)]; [set_solver|].
    pose proof (identity_store_pin_spec s (att_src_addr att) (att_ed25519_pub att)
      (att_x25519_pub att) now Hok) as Hp. rewrite <- Ep in Hp.
    destruct Hp as (Hok' & _ & _ & _ & i & e & Hi & _ & He).
    unfold identity_store_is_verified. rewrite (lookup_new_pin s s' _ _ _ _ i e Hi Hok' He).
    cbn [pin_bind pin_verified]. rewrite list.Forall_forall in Hall.
    by apply (Hall e (list_elem_of_lookup_2 _ _ _ Hi)).
  - intros anchor e0 Hch H0 s1. pose proof (handle_attestation_cases s1 att now epoch) as Hc.
    pose proof (pins_ok_anchor s anchor Hok) as Hok1.
    destruct (identity_store_handle_attestation s1 att self_addr now epoch) as [r s'] eqn:Eh.
    cbn [fst snd]. intros ->.
    destruct Hc as [(_ & _ & _ & Hn)|(_ & _ & Ep)]; [set_solver|].
    assert (Hes : is_entries s1 = pin_unuse <$> is_entries s)
      by (unfold s1, identity_store_set_anchor; by rewrite Hch).
    assert (Hs1 : is_entries s1 !! 0%nat = Some (pin_unuse e0))
      by (rewrite Hes, list_lookup_fmap, H0; done).
    unfold identity_store_pin in Ep.
    destruct (find_entry s1 (att_src_addr att)) as [j|] eqn:Ef.
    { destruct (find_entry_Some _ _ _ Ef) as (e' & He' & _ & Hu' & _). rewrite Hes in He'.
      apply list_lookup_fmap_Some in He' as (? & -> & _). done. }
    assert (Hal : alloc_entry s1 now = (Some 0%nat, s1)).
    { unfold alloc_entry. destruct (is_entries s1) as [|e1 es]; [done|]. injection Hs1 as ->. done. }
    rewrite Hal in Ep. injection Ep as ->. rewrite (list_lookup_total_correct _ _ _ Hs1).
    set (e := pin_bind (pin_unuse e0) _ _ _ _). exists e. split; [|done].
    eapply (lookup_new_pin s1 _ _ _ _ _ 0 (pin_unuse e0)); [done| |done].
    apply pins_ok_insert; [done|]. intros _ j e' Hj Hu' _. rewrite Hes in Hj.
    apply list_lookup_fmap_Some in Hj as (? & -> & _). done.
Qed.
End Trace.

(** ** Boot *)

Definition pin_sized (e : identity_pin_t) : Prop :=
  is_u32 (pin_address e) ∧ length (pin_ed25519_pub e) = 32%nat ∧ length (pin_x25519_pub e) = 32%nat ∧
  length (pin_verified_sas e) = 8%nat.

#[global] Instance pin_sized_dec e : Decision (pin_sized e).
Proof. unfold pin_sized. apply _. Defined.

Lemma length_pin_record e : pin_sized e → length (pin_record e) = 77%nat.
Proof.
  intros (_ & H1 & H2 & H3). unfold pin_record. rewrite !length_app, H1, H2, H3. done.
Qed.

(** Reading any blob stays inside it. *)
Lemma restore_records_total buf now n : ∀ s off,
  (off + n * 77 ≤ length buf)%nat → is_Some (restore_records s buf now n off).
Proof.
  induction n as [|n IH]; intros s off Hlen; cbn [restore_records]; [eauto|].
  apply bind_is_Some; [apply rdn_is_Some; lia|]. intros a _.
  apply bind_is_Some; [apply rdn_is_Some; lia|]. intros ed _.
  apply bind_is_Some; [apply rdn_is_Some; lia|]. intros x _.
  apply bind_is_Some; [apply rd_is_Some; lia|]. intros v _.
  apply bind_is_Some; [apply rdn_is_Some; lia|]. intros sas _. cbn zeta.
  destruct (identity_store_pin s _ _ _ _) as [r s1]. apply IH. lia.
Qed.

Lemma deserialize_total s buf now : is_Some (identity_store_deserialize s buf now).
Proof.
  unfold identity_store_deserialize. split_if; [eauto|].
  apply Nat.ltb_ge in Heqb. apply bind_is_Some; [apply rd_is_Some; lia|]. intros v _.
  split_if; [eauto|]. apply bind_is_Some; [apply rd_is_Some; lia|]. intros c _.
  cbn zeta. split_if; [eauto|]. split_if; [eauto|].
  apply Nat.ltb_ge in Heqb2. unfold IDENTITY_STORE_RECORD_SIZE in Heqb2.
  apply bind_is_Some; [|eauto]. apply restore_records_total. lia.
Qed.

(** What a reboot makes of a pin. *)
Definition pin_restored (now : Z) (e : identity_pin_t) : identity_pin_t :=
  let z := mk_pin true (pin_address e) (pin_ed25519_pub e) (pin_x25519_pub e) now false
             (replicate 8 0) false in
  if pin_verified e then pin_set_verified z (<[7%nat := 0]> (pin_verified_sas e)) else z.

Lemma record_reads pre e rest :
  pin_sized e →
  let buf := pre ++ pin_record e ++ rest in
  let off := length pre in
  rdn buf off 4 = Some (be32_bytes (pin_address e)) ∧
  rdn buf (off + 4) 32 = Some (pin_ed25519_pub e) ∧
  rdn buf (off + 36) 32 = Some (pin_x25519_pub e) ∧
  rd buf (off + 68) = Some (if pin_verified e then 1 else 0) ∧
  rdn buf (off + 69) 8 = Some (pin_verified_sas e).
Proof.
  intros (_ & L1 & L2 & L3) buf off. unfold buf, off, pin_record. rewrite <- !app_assoc.
  rewrite !(rdn_app_skip pre) by lia. rewrite rd_app_skip by lia.
  rewrite Nat.sub_diag, !Nat.add_sub_swap, !Nat.sub_diag by lia.
  split; [by apply rdn_app_here|]. rewrite !(rdn_app_skip (be32_bytes _)) by (cbn; lia).
  rewrite rd_app_skip by (cbn; lia). cbn [length be32_bytes Nat.sub Nat.add].
  split; [by apply rdn_app_here|]. rewrite !(rdn_app_skip (pin_ed25519_pub e)) by lia.
  rewrite rd_app_skip by lia. rewrite L1. cbn [Nat.sub].
  split; [by apply rdn_app_here|]. rewrite (rdn_app_skip (pin_x25519_pub e)) by lia.
  rewrite rd_app_skip by lia. rewrite L2. cbn [Nat.sub].
  split; [done|]. rewrite (rdn_app_skip [_]) by (cbn; lia). cbn [length Nat.sub]. by apply rdn_app_here.
Qed.

Lemma alloc_scan_first_free now us m : ∀ i v vv,
  Forall (λ e, pin_used e = true) us →
  alloc_scan now (us ++ replicate (S m) pin_zero) i v vv = inl (i + length us)%nat.
Proof.
  induction us as [|e us IH]; intros i v vv Hu; cbn [app alloc_scan replicate length].
  - f_equal. lia.
  - inv_Forall. rewrite H. cbn [negb].
    destruct (pin_verified e); rewrite IH by done; f_equal; lia.
Qed.

Lemma find_index_app_first {A} (f : A → bool) l x l' :
  Forall (λ y, f y = false) l → f x = true → find_index f (l ++ x :: l') = Some (length l).
Proof.
  induction 1 as [|y l Hy _ IH]; intros Hx; cbn [app find_index length]; [by rewrite Hx|].
  rewrite Hy. by rewrite IH.
Qed.

Lemma restore_one s done_ m e now :
  is_entries s = done_ ++ replicate (S m) pin_zero →
  Forall (λ d, pin_used d = true ∧ pin_address d ≠ pin_address e) done_ →
  let s1 := (identity_store_pin s (pin_address e) (pin_ed25519_pub e) (pin_x25519_pub e) now).2 in
  let s2 := if negb ((if pin_verified e then 1 else 0) =? 0)
            then (identity_store_set_verified s1 (pin_address e) (<[7%nat := 0]> (pin_verified_sas e))).2
            else s1 in
  s2 = set_entries s (done_ ++ pin_restored now e :: replicate m pin_zero).
Proof.
  intros Hes Hd.
  assert (Hnone : Forall (λ d, pin_for (pin_address e) d = false) done_).
  { eapply list.Forall_impl; [exact Hd|]. intros d [Hu Ha]. unfold pin_for. rewrite Hu.
    by apply Z.eqb_neq. }
  assert (Hf : find_entry s (pin_address e) = None).
  { apply find_index_None. rewrite Hes. apply Forall_app. split; [done|].
    by apply Forall_replicate. }
  assert (Hal : alloc_entry s now = (Some (length done_), s)).
  { unfold alloc_entry. rewrite Hes, alloc_scan_first_free; [done|].
    eapply list.Forall_impl; [exact Hd|]. by intros d [? _]. }
  intros s1. assert (Hs1 : s1 = set_entries s (done_ ++
    pin_bind pin_zero (pin_address e) (pin_ed25519_pub e) (pin_x25519_pub e) now ::
    replicate m pin_zero)).
  { unfold s1, identity_store_pin. rewrite Hf, Hal. cbn [snd]. rewrite Hes.
    rewrite (list_lookup_total_correct _ _ pin_zero)
      by (rewrite lookup_app_r, Nat.sub_diag by lia; done).
    by rewrite insert_app_r_alt, Nat.sub_diag by lia. }
  rewrite Hs1. unfold pin_restored. destruct (pin_verified e); cbn [Z.eqb negb]; [|done].
  unfold identity_store_set_verified, update_pin, find_entry. cbn [is_entries set_entries].
  rewrite find_index_app_first; [|done|by apply pin_for_spec]. cbn [snd].
  rewrite (list_lookup_total_correct _ _ _) by (rewrite lookup_app_r, Nat.sub_diag by lia; done).
  rewrite insert_app_r_alt, Nat.sub_diag by lia. done.
Qed.

Lemma restore_all now us : ∀ s done_ pre m,
  is_entries s = done_ ++ replicate (length us + m) pin_zero →
  Forall (λ d, pin_used d = true) done_ → Forall pin_sized us →
  NoDup (pin_address <$> done_ ++ us) →
  restore_records s (pre ++ (us ≫= pin_record)) now (length us) (length pre) =
  Some (set_entries s (done_ ++ (pin_restored now <$> us) ++ replicate m pin_zero)).
Proof.
  induction us as [|e us IH]; intros s done_ pre m Hes Hd Hs Hnd; cbn [restore_records length].
  - cbn [fmap list_fmap app]. cbn [length Nat.add] in Hes. rewrite <- Hes. by destruct s.
  - inv_Forall. cbn [mbind list_bind].
    destruct (record_reads pre e (us ≫= pin_record)) as (R1 & R2 & R3 & R4 & R5); [done|].
    cbn [mbind list_bind] in *. rewrite R1, R2, R3, R4, R5. cbn [option_bind mbind].
    assert (Hed : be32_val (be32_bytes (pin_address e)) = pin_address e)
      by (apply be32_roundtrip; apply H).
    rewrite Hed. cbn zeta.
    rewrite fmap_app in Hnd. apply NoDup_app in Hnd as (Hn1 & Hn2 & Hn3).
    cbn [fmap list_fmap] in Hn2, Hn3. apply NoDup_cons in Hn3 as [Hn3 Hn4].
    pose proof (restore_one s done_ (length us + m) e now) as Hone. cbn zeta in Hone.
    destruct (identity_store_pin s _ _ _ now) as [r s1] eqn:Ep. cbn [snd] in Hone. rewrite Hone.
    + replace (length pre + 77)%nat with (length (pre ++ pin_record e))
        by (rewrite length_app, length_pin_record by done; lia).
      rewrite app_assoc.
      rewrite (IH _ (done_ ++ [pin_restored now e]) (pre ++ pin_record e) m); [..|done|].
      * f_equal. unfold set_entries. cbn [is_entries]. f_equal. by rewrite <- app_assoc.
      * cbn [is_entries set_entries]. by rewrite <- app_assoc.
      * apply Forall_app. split; [done|]. apply Forall_singleton. unfold pin_restored.
        by destruct (pin_verified e).
      * rewrite <- app_assoc, fmap_app. cbn [fmap list_fmap app].
        assert (pin_address (pin_restored now e) = pin_address e) as ->
          by (unfold pin_restored; by destruct (pin_verified e)).
        apply NoDup_app. split; [done|]. split; [done|]. by apply NoDup_cons.
    + done.
    + apply list.Forall_forall. intros d Hin. rewrite list.Forall_forall in Hd. split; [by apply Hd|].
      intros He. apply (Hn2 (pin_address d)); [by apply list_elem_of_fmap_2|]. rewrite He. left.
Qed.

Lemma pins_unique_NoDup es :
  pins_unique es → NoDup (pin_address <$> filter (λ e, pin_used e = true) es).
Proof. intros Hu. apply NoDup_fmap_filter. intros i j e e' Hi Hj H1 H2 He. by eapply Hu. Qed.

Lemma pin_restored_fields now e :
  pin_used (pin_restored now e) = true ∧ pin_address (pin_restored now e) = pin_address e ∧
  pin_ed25519_pub (pin_restored now e) = pin_ed25519_pub e ∧
  pin_x25519_pub (pin_restored now e) = pin_x25519_pub e ∧
  pin_verified (pin_restored now e) = pin_verified e.
Proof. unfold pin_restored. by destruct (pin_verified e). Qed.

(** The store a boot makes of the blob of [s]: [s0]'s anchor, the pins of [s]. *)
Definition store_restored (s0 s : identity_store_t) (now : Z) : identity_store_t :=
  let us := filter (λ e, pin_used e = true) (is_entries s) in
  mk_ids ((pin_restored now <$> us) ++ replicate (IDENTITY_STORE_CAPACITY - length us) pin_zero)
    now 0 0 0 (is_has_anchor s0) (is_anchor_pub s0) 0 0 0 0 (is_grace_forced_closed s0).

Lemma count_le_capacity s : pins_ok s → (identity_store_count s ≤ IDENTITY_STORE_CAPACITY)%nat.
Proof. intros [<- _]. apply length_filter. Qed.

Lemma length_pin_records us :
  Forall pin_sized us → length (us ≫= pin_record) = (length us * 77)%nat.
Proof.
  induction 1 as [|e us He _ IH]; [done|]. cbn [mbind list_bind length].
  rewrite length_app, length_pin_record by done. cbn [mbind] in IH. rewrite IH. lia.
Qed.

Lemma serialize_deserialize s s0 now buf_len blob :
  pins_ok s → Forall (λ e, pin_used e = true → pin_sized e) (is_entries s) →
  identity_store_serialize s buf_len = Some blob →
  length blob = (2 + identity_store_count s * 77)%nat ∧
  identity_store_deserialize s0 blob now = Some (0, store_restored s0 s now).
Proof.
  intros Hok Hsz. unfold identity_store_serialize. split_if; [done|]. intros [= <-].
  pose proof (count_le_capacity s Hok) as Hc. pose proof (proj2 Hok) as Hu.
  set (us := filter (λ e, pin_used e = true) (is_entries s)).
  assert (Hus : Forall pin_sized us).
  { apply list.Forall_forall. intros e [Hue He]%list_elem_of_filter.
    rewrite list.Forall_forall in Hsz. by apply Hsz. }
  assert (Hlen : length (us ≫= pin_record) = (identity_store_count s * 77)%nat)
    by (by rewrite length_pin_records).
  split; [cbn [length]; by rewrite Hlen|].
  unfold IDENTITY_STORE_CAPACITY in Hc.
  unfold identity_store_deserialize. cbn [length]. rewrite Hlen.
  rewrite (proj2 (Nat.ltb_ge _ 2)) by lia.
  cbn [rd lookup list_lookup mbind option_bind]. rewrite Z.eqb_refl. cbn [negb].
  rewrite u8_id by (unfold is_u8; lia). rewrite Nat2Z.id. cbn zeta.
  rewrite (proj2 (Nat.ltb_ge IDENTITY_STORE_CAPACITY _)) by (unfold IDENTITY_STORE_CAPACITY; lia).
  rewrite (proj2 (Nat.ltb_ge _ (2 + _))) by (unfold IDENTITY_STORE_RECORD_SIZE; lia).
  assert (Hr : restore_records (mk_ids (replicate IDENTITY_STORE_CAPACITY pin_zero) now 0 0 0
    (is_has_anchor s0) (is_anchor_pub s0) 0 0 0 0 (is_grace_forced_closed s0))
    (u8 IDENTITY_STORE_BLOB_VERSION :: Z.of_nat (length us) :: (us ≫= pin_record)) now (length us) 2 =
    Some (store_restored s0 s now)).
  { set (s1 := mk_ids _ _ _ _ _ _ _ _ _ _ _ _).
    apply (restore_all now us s1 [] [u8 IDENTITY_STORE_BLOB_VERSION; Z.of_nat (length us)]
      (IDENTITY_STORE_CAPACITY - length us)); [|constructor|done|by apply pins_unique_NoDup].
    unfold s1.
    cbn [is_entries app]. f_equal. change (identity_store_count s) with (length us) in Hc.
    unfold IDENTITY_STORE_CAPACITY. lia. }
  change (identity_store_count s) with (length us).
  cbn [identity_store_init is_entries is_boot_ms is_conflicts is_sig_failures is_addr_mismatches
    is_unendorsed is_expired is_evictions is_evictions_verified].
  rewrite Hr. done.
Qed.

Lemma store_restored_lookup s0 s now a :
  pins_ok s →
  identity_store_lookup (store_restored s0 s now) a = pin_restored now <$> identity_store_lookup s a.
Proof.
  intros [Hl Hu]. set (us := filter (λ e, pin_used e = true) (is_entries s)).
  assert (Hu' : pins_unique (is_entries (store_restored s0 s now))).
  { intros i j e e' Hi Hj H1 H2 He. unfold store_restored in Hi, Hj. cbn [is_entries] in Hi, Hj.
    apply lookup_app_Some in Hi as [Hi|[_ [-> _]%lookup_replicate]]; [|done].
    apply lookup_app_Some in Hj as [Hj|[_ [-> _]%lookup_replicate]]; [|done].
    apply list_lookup_fmap_Some in Hi as (d & -> & Hi), Hj as (d' & -> & Hj).
    destruct (pin_restored_fields now d) as (_ & F1 & _), (pin_restored_fields now d') as (_ & F2 & _).
    rewrite F1, F2 in He. pose proof (pins_unique_NoDup _ Hu) as Hnd.
    eapply NoDup_lookup; [exact Hnd|..]; rewrite list_lookup_fmap, ?Hi, ?Hj; cbn; [done|by rewrite He]. }
  destruct (identity_store_lookup s a) as [e|] eqn:El; cbn [fmap option_fmap option_map].
  - destruct (lookup_pin_inv _ _ _ El) as (i & _ & Hi & Hue & Ha).
    assert (He : pin_restored now e ∈ is_entries (store_restored s0 s now)).
    { apply elem_of_app. left. apply list_elem_of_fmap_2. apply list_elem_of_filter.
      split; [done|by eapply list_elem_of_lookup_2]. }
    apply list_elem_of_lookup in He as [j Hj].
    destruct (pin_restored_fields now e) as (F0 & F1 & _). rewrite <- Ha, <- F1.
    by eapply lookup_pin.
  - destruct (identity_store_lookup (store_restored s0 s now) a) as [e'|] eqn:El'; [|done].
    destruct (lookup_pin_inv _ _ _ El') as (j & _ & Hj & Hue & Ha).
    cbn [store_restored is_entries] in Hj.
    apply lookup_app_Some in Hj as [Hj|[_ [-> _]%lookup_replicate]]; [|done].
    apply list_lookup_fmap_Some in Hj as (d & -> & Hj).
    apply list_elem_of_lookup_2, list_elem_of_filter in Hj as [Hd (k & Hk)%list_elem_of_lookup].
    destruct (pin_restored_fields now d) as (_ & F1 & _).
    apply lookup_None_iff in El. destruct (find_entry_None _ _ _ _ El Hk Hd). congruence.
Qed.

(** A 7-character string with its terminator comes back as it was. *)
Lemma sas_restored sas :
  length sas = 8%nat → Forall (λ c, c ≠ 0) (take 7 sas) → sas !! 7%nat = Some 0 →
  snprintf_s (replicate 8 0) (<[7%nat := 0]> sas) 8 = sas.
Proof.
  intros Hl Hc H7. rewrite list_insert_id by done.
  destruct sas as [|c0 [|c1 [|c2 [|c3 [|c4 [|c5 [|c6 [|c7 [|]]]]]]]]]; try done.
  injection H7 as ->. cbn [take] in Hc. inv_Forall. unfold snprintf_s, filled.
  cbn [c_string]. repeat (rewrite (proj2 (Z.eqb_neq _ _)) by done). rewrite Z.eqb_refl. done.
Qed.

Lemma save_blob s flash :
  pins_ok s → ∃ blob, identity_store_serialize s IDENTITY_STORE_BLOB_MAX = Some blob ∧
    mesh_pin_store_save s flash true = Some blob.
Proof.
  intros Hok%count_le_capacity. unfold mesh_pin_store_save, identity_store_serialize.
  rewrite (proj2 (Nat.ltb_ge _ _)); [eauto|].
  unfold IDENTITY_STORE_BLOB_MAX, IDENTITY_STORE_RECORD_SIZE, IDENTITY_STORE_CAPACITY in *. lia.
Qed.

Lemma boot_restores s flash anchor now :
  pins_ok s → Forall (λ e, pin_used e = true → pin_sized e) (is_entries s) →
  let s0 := match anchor with
            | None => identity_store_init now
            | Some pub => identity_store_set_anchor (identity_store_init now) pub
            end in
  boot_pins anchor (mesh_pin_store_save s flash true) now = Some (store_restored s0 s now).
Proof.
  intros Hok Hsz s0. destruct (save_blob s flash Hok) as (blob & Hb & ->).
  destruct (serialize_deserialize s s0 now _ _ Hok Hsz Hb) as [Hl Hd].
  unfold boot_pins, mesh_pin_store_load. fold s0.
  rewrite (proj2 (Nat.ltb_ge _ _)).
  - by rewrite Hd.
  - pose proof (count_le_capacity s Hok). rewrite Hl.
    unfold IDENTITY_STORE_BLOB_MAX, IDENTITY_STORE_RECORD_SIZE, IDENTITY_STORE_CAPACITY in *. lia.
Qed.

(** Pins survive a reboot: booting from the blob a successful save wrote gives
    each address the keys and the verified mark it had, verified pins keep their
    7-character authentication string, no other address is pinned, and the anchor
    is the provisioned one.  Booting from any other bytes ends as well, without
    reading outside them. *)
Theorem pins_survive_reboot (s : identity_store_t) (anchor : option (list Z))
    (flash : option (list Z)) (now : Z) :
  (pins_ok s → Forall (λ e, pin_used e = true → pin_sized e) (is_entries s) →
   ∃ s', boot_pins anchor (mesh_pin_store_save s flash true) now = Some s' ∧
     is_has_anchor s' = bool_decide (is_Some anchor) ∧
     (∀ pub, anchor = Some pub → is_anchor_pub s' = pub) ∧
     ∀ a, match identity_store_lookup s a, identity_store_lookup s' a with
          | None, None => True
          | Some e, Some e' =>
              pin_ed25519_pub e' = pin_ed25519_pub e ∧ pin_x25519_pub e' = pin_x25519_pub e ∧
              pin_verified e' = pin_verified e ∧
              (pin_verified e = true → Forall (λ c, c ≠ 0) (take 7 (pin_verified_sas e)) →
               pin_verified_sas e !! 7%nat = Some 0 → pin_verified_sas e' = pin_verified_sas e)
          | _, _ => False
          end) ∧
  is_Some (boot_pins anchor flash now).
Proof.
  split.
  - intros Hok Hsz. eexists. split; [by apply boot_restores|]. split; [by destruct anchor|].
    split; [by intros pub ->|]. intros a. rewrite store_restored_lookup by done.
    destruct (identity_store_lookup s a) as [e|] eqn:El; cbn [fmap option_fmap option_map]; [|done].
    destruct (pin_restored_fields now e) as (_ & _ & F1 & F2 & F3). split; [done|]. split; [done|].
    split; [done|]. intros Hv Hc H7. unfold pin_restored. rewrite Hv.
    cbn [pin_set_verified pin_verified_sas]. apply sas_restored; [|done|done].
    destruct (lookup_pin_inv _ _ _ El) as (i & _ & Hi & Hu & _).
    rewrite list.Forall_forall in Hsz. by apply (Hsz e (list_elem_of_lookup_2 _ _ _ Hi)).
  - unfold boot_pins, mesh_pin_store_load. destruct flash as [buf|]; [|eauto].
    split_if; [eauto|]. destruct (deserialize_total
      (match anchor with None => identity_store_init now
       | Some pub => identity_store_set_anchor (identity_store_init now) pub end) buf now) as [[rc s'] Hd].
    rewrite Hd. cbn. eauto.
Qed.

(** A runtime anchor change does not reach the flash: provisioning an anchor on
    a running node unpins every address, but the saved blob still holds the pins,
    so the next boot, though anchored, has them all back, endorsed or not. *)
Theorem anchor_change_undone_by_reboot (s : identity_store_t) (pub : list Z)
    (flash : option (list Z)) (now : Z) :
  pins_ok s → Forall (λ e, pin_used e = true → pin_sized e) (is_entries s) →
  anchor_changes s pub = true →
  (∀ a, identity_store_lookup (mesh_set_pin_anchor s pub) a = None) ∧
  ∃ s', boot_pins (Some pub) (mesh_pin_store_save s flash true) now = Some s' ∧
    is_has_anchor s' = true ∧ is_anchor_pub s' = pub ∧
    ∀ a, (λ e, (pin_ed25519_pub e, pin_x25519_pub e)) <$> identity_store_lookup s' a =
         (λ e, (pin_ed25519_pub e, pin_x25519_pub e)) <$> identity_store_lookup s a.
Proof.
  intros Hok Hsz Hch. split.
  - intros a. apply lookup_None_iff, find_index_None.
    unfold mesh_set_pin_anchor, identity_store_set_anchor. rewrite Hch. cbn [is_entries].
    apply list.Forall_forall. intros e (e0 & -> & _)%list_elem_of_fmap. done.
  - eexists. split; [by apply boot_restores|]. split; [done|]. split; [done|]. intros a.
    rewrite store_restored_lookup by done.
    destruct (identity_store_lookup s a) as [e|]; [|done]. cbn.
    by destruct (pin_restored_fields now e) as (_ & _ & -> & -> & _).
Qed.

(** The unpinned grace is measured modulo the clock's range, so it opens again for
    five minutes every 2^32 milliseconds of uptime on a node with few pins. *)
Lemma quorum_grace_reopens s a (up : Z) :
  identity_store_lookup s a = None → is_grace_forced_closed s = false →
  (identity_store_count s < QUORUM_GRACE_MIN_PINS)%nat →
  identity_store_quorum_eligible s a true (u32 (is_boot_ms s + up)) =
  (up mod 4294967296 <? QUORUM_BOOTSTRAP_GRACE_MS).
Proof.
  intros Hl Hg Hc. unfold identity_store_quorum_eligible. rewrite Hl, Hg. cbn [negb].
  rewrite (proj2 (Nat.ltb_lt _ _) Hc), andb_true_r. f_equal. cint.
Qed.

(** ** Concrete stores *)

#[local] Existing Instance toy_id_crypto.

Definition att_ed (n : Z) : list Z := [0; 0; 0; n] ++ replicate 28 7.
Definition att_unsigned (n na : Z) : bramble_identity_attestation_t :=
  mk_attestation (mk_header 0 0 0 0 0 0) n (replicate 32 n) (att_ed n) [] na
    (toy_sign (replicate 32 9) (identity_endorsement_msg (att_ed n) na 58).2) (replicate 8 0)
    (replicate 6 0).
Definition att_of (n na : Z) : bramble_identity_attestation_t :=
  let a := att_unsigned n na in
  match bramble_identity_attestation_signed_msg a (replicate 84 0) 84 with
  | Some (_, msg) => mk_attestation (att_header a) n (att_x25519_pub a) (att_ed25519_pub a)
      (toy_sign (att_ed n) msg) na (att_endorsement_sig a) (att_auth_hmac a) (att_seq a)
  | None => a
  end.

(** Node 2 hears node 5, and its user compares the authentication string. *)
Definition sas_1234567 : list Z := str_bytes "1234567".
Definition pinned_store : identity_store_t :=
  pin_run 2 0 [EvAttest (att_of 5 0) 10 0; EvVerify 5 sas_1234567].

Lemma pinned_store_ok : pins_ok pinned_store.
Proof. apply pin_run_inv. Defined.

Lemma first_binding_wins_witness :
  let forged := mk_attestation (mk_header 0 0 0 0 0 0) 5 (replicate 32 66) (att_ed 5) [] 0 [] [] [] in
  ∃ e, identity_store_lookup pinned_store 5 = Some e ∧ pin_verified e = true ∧
    is_entries (pin_step 2 pinned_store (EvAttest forged 20 0)) = is_entries pinned_store.
Proof.
  intros forged. eexists. split; [vm_compute; reflexivity|]. split; [vm_compute; reflexivity|].
  eapply (first_binding_wins 2 pinned_store (EvAttest forged 20 0) 5); [apply pinned_store_ok| |exact I|..].
  - vm_compute. reflexivity.
  - reflexivity.
  - reflexivity.
  - vm_compute. discriminate.
Defined.

(** The user verifies node 5; an anchor is provisioned; node 6, endorsed, attests
    for the first time and is reported verified. *)
Lemma new_pin_inherits_verified_witness :
  let anchor := replicate 32 9 in
  let s1 := identity_store_set_anchor pinned_store anchor in
  let s2 := (identity_store_handle_attestation s1 (att_of 6 1) 2 30 0).2 in
  identity_store_lookup s1 5 = None ∧ identity_store_lookup pinned_store 6 = None ∧
  ∃ e, identity_store_lookup s2 6 = Some e ∧ pin_verified e = true.
Proof.
  intros anchor s1 s2. split; [vm_compute; reflexivity|]. split; [vm_compute; reflexivity|].
  destruct (proj2 (new_pin_inherits_verified 2 pinned_store (att_of 6 1) 30 0 pinned_store_ok)
    anchor (is_entries pinned_store !!! 0%nat)) as (e & He & Hv & _).
  - vm_compute. reflexivity.
  - vm_compute. reflexivity.
  - vm_compute. reflexivity.
  - exists e. split; [exact He|]. rewrite Hv. vm_compute. reflexivity.
Defined.

(** Node 5's unendorsed pin comes back on the anchored node. *)
Lemma anchor_change_undone_by_reboot_witness :
  let pub := replicate 32 9 in
  ∃ s' e, boot_pins (Some pub) (mesh_pin_store_save pinned_store None true) 7 = Some s' ∧
    is_has_anchor s' = true ∧ identity_store_lookup s' 5 = Some e.
Proof.
  intros pub.
  destruct (anchor_change_undone_by_reboot pinned_store pub None 7) as (_ & s' & H1 & H2 & _ & H3).
  - apply pinned_store_ok.
  - apply (bool_decide_eq_true_1 _). vm_compute. reflexivity.
  - vm_compute. reflexivity.
  - specialize (H3 5). destruct (identity_store_lookup s' 5) as [e|]; [eauto|].
    vm_compute in H3. discriminate.
Defined.
