(* ===== verification/Channel.v ===== *)
(** * Channel messages ([components/channel/channel_key.c], [channel_msg.c])

    Channel keys and their epochs, the authenticated plaintext layout, trial
    decryption over every channel with epoch catch-up, and the token buckets that
    bound the catch-up work. *)

From stdpp Require Import base strings numbers option decidable list.
From S2P Require Import Prelude Tables Packet NetworkKey DmCrypto Identity.

Definition CHANNEL_MSG_OVERHEAD : nat := 8.
Definition MAX_CHANNELS : nat := 16.
Definition APP_TYPE_CHAT : Z := 1.
Definition APP_TYPE_KE : Z := 2.
Definition CHANNEL_MSG_SENT_AT_SIZE : nat := 4.
Definition CHANNEL_MSG_MAX_PLAINTEXT_SIZE : nat := 256.
Definition CHANNEL_EPOCH_CATCHUP_MAX : nat := 256.
Definition CHANNEL_EPOCH_CATCHUP_BUDGET : Z := 256.
Definition CHANNEL_EPOCH_CATCHUP_REFILL_MS : Z := 10000.

Record bramble_channel_t := mk_channel { chn_key : list Z; chn_channel_id : Z; chn_epoch : Z }.
#[global] Instance channel_inhabited : Inhabited bramble_channel_t := populate (mk_channel [] 0 0).

Record catchup_bucket_t := mk_bucket { cb_tokens : Z; cb_last_refill_ms : Z; cb_initialized : bool }.
#[global] Instance catchup_inhabited : Inhabited catchup_bucket_t := populate (mk_bucket 0 0 false).

Record channel_msg_info_t := mk_info {
  in_channel_id : Z; in_epoch : Z; in_app_type : Z; in_src_addr : Z; in_sent_at : Z;
  in_data : list Z; in_channel_index : nat }.

Section Channel.
Context `{DC : DmCrypto} `{IC : IdCrypto}.

(** [None]: the [-1] return. *)
Definition channel_derive_key (psk : list Z) : option bramble_channel_t :=
  let psk_hash := crypto_sha256 psk in
  key ← crypto_hkdf_sha256 (str_bytes "bramble-channel-v1") psk_hash [0] 32;
  Some (mk_channel key ((crypto_sha256 key !!! 0%nat) mod 16) 0).

(** On failure the channel is untouched. *)
Definition channel_advance_epoch (ch : bramble_channel_t) : option bramble_channel_t :=
  let next := u16 (chn_epoch ch + 1) in
  new_key ← crypto_hkdf_sha256 (str_bytes "bramble-channel-epoch") (chn_key ch)
              [Z.land (next >> 8) 255; Z.land next 255] 32;
  Some (mk_channel new_key (chn_channel_id ch) next).

(** The plaintext under the channel key. *)
Definition channel_plaintext (ch : bramble_channel_t) (src_addr app_type sent_at : Z)
    (data : list Z) : list Z :=
  [chn_channel_id ch; u8 (Z.land (chn_epoch ch) 255); u8 (Z.land (chn_epoch ch >> 8) 255); app_type;
   u8 (Z.land src_addr 255); u8 (Z.land (src_addr >> 8) 255); u8 (Z.land (src_addr >> 16) 255);
   u8 (Z.land (src_addr >> 24) 255)] ++
  (if app_type =? APP_TYPE_CHAT then be32_bytes sent_at else []) ++ data.

Definition channel_msg_encrypt (ch : bramble_channel_t) (src_addr app_type sent_at : Z)
    (data aad nonce_in : list Z) : option (list Z * list Z) :=
  let has_sent_at := app_type =? APP_TYPE_CHAT in
  let hdr_len := (CHANNEL_MSG_OVERHEAD + (if has_sent_at then CHANNEL_MSG_SENT_AT_SIZE else 0))%nat in
  let pt_len := (hdr_len + length data)%nat in
  if (CHANNEL_MSG_MAX_PLAINTEXT_SIZE <? pt_len)%nat then None
  else crypto_aes256gcm_encrypt (chn_key ch) nonce_in
         (channel_plaintext ch src_addr app_type sent_at data) aad.

(** ** Catch-up budget *)

Definition catchup_reset : list catchup_bucket_t :=
  replicate MAX_CHANNELS (mk_bucket 0 0 false).

Definition catchup_bucket (b : catchup_bucket_t) (now_ms : Z) : catchup_bucket_t :=
  if negb (cb_initialized b) then mk_bucket CHANNEL_EPOCH_CATCHUP_BUDGET now_ms true
  else
    let elapsed := now_ms ⊖ cb_last_refill_ms b in
    let add := u32 (u64 (elapsed * CHANNEL_EPOCH_CATCHUP_BUDGET) / CHANNEL_EPOCH_CATCHUP_REFILL_MS) in
    if add >? 0 then
      let headroom := CHANNEL_EPOCH_CATCHUP_BUDGET ⊖ cb_tokens b in
      mk_bucket (cb_tokens b ⊕ (if add <? headroom then add else headroom)) now_ms true
    else b.

(** ** Trial decryption

    The frame under trial: its nonce, ciphertext, tag and associated data. *)
Section Trial.
Context (nonce ciphertext tag aad : list Z).

Definition try_decrypt (key : list Z) : option (list Z) :=
  crypto_aes256gcm_decrypt key nonce ciphertext aad tag.

(** The advance loop: [n] rounds left, channel state, tokens left, tokens
    consumed; the channel that opened the frame, if any. *)
Fixpoint catchup_loop (n : nat) (ch : bramble_channel_t) (tokens consumed : Z)
    : option bramble_channel_t * Z * Z :=
  match n with
  | O => (None, tokens, consumed)
  | S n' =>
      if tokens =? 0 then (None, tokens, consumed)
      else match channel_advance_epoch ch with
           | None => (None, tokens - 1, consumed + 1)
           | Some ch' =>
               match try_decrypt (chn_key ch') with
               | Some _ => (Some ch', tokens - 1, consumed + 1)
               | None => catchup_loop n' ch' (tokens - 1) (consumed + 1)
               end
           end
  end.

Definition refund (tokens consumed : Z) : Z :=
  let headroom := CHANNEL_EPOCH_CATCHUP_BUDGET ⊖ tokens in
  tokens ⊕ (if consumed <? headroom then consumed else headroom).

(** The loop over the channels: what was found so far (index and channel state to
    install), the buckets as they go. *)
Fixpoint trial_loop (chs : list bramble_channel_t) (bs : list catchup_bucket_t) (i : nat)
    (found : option (nat * bramble_channel_t)) (now_ms : Z)
    : option (nat * bramble_channel_t) * list catchup_bucket_t :=
  match chs, bs with
  | ch :: chs', b :: bs' =>
      match try_decrypt (chn_key ch) with
      | Some _ =>
          let '(found, bs') := trial_loop chs' bs' (S i) (match found with None => Some (i, ch) | f => f end) now_ms in
          (found, b :: bs')
      | None =>
          let b := catchup_bucket b now_ms in
          let '(caught, tokens, consumed) :=
            catchup_loop CHANNEL_EPOCH_CATCHUP_MAX ch (cb_tokens b) 0 in
          let tokens := match caught with Some _ => refund tokens consumed | None => tokens end in
          let b := mk_bucket tokens (cb_last_refill_ms b) (cb_initialized b) in
          let found := match found, caught with None, Some ch' => Some (i, ch') | f, _ => f end in
          let '(found, bs') := trial_loop chs' bs' (S i) found now_ms in
          (found, b :: bs')
      end
  | _, _ => (found, bs)
  end.

(** The result pairs the [-1] or the parsed message with the channels and the
    buckets; [num_channels] is the length of [channels]. *)
Definition channel_msg_decrypt (channels : list bramble_channel_t) (bs : list catchup_bucket_t)
    (now_ms : Z) : option channel_msg_info_t * list bramble_channel_t * list catchup_bucket_t :=
  let ct_len := length ciphertext in
  if (ct_len <? CHANNEL_MSG_OVERHEAD)%nat then (None, channels, bs)
  else if (CHANNEL_MSG_MAX_PLAINTEXT_SIZE <? ct_len)%nat then (None, channels, bs)
  else
    let '(found, bs) := trial_loop (take MAX_CHANNELS channels) bs 0 None now_ms in
    match found with
    | None => (None, channels, bs)
    | Some (i, ch) =>
        let channels := <[i := ch]> channels in
        match try_decrypt (chn_key ch) with
        | None => (None, channels, bs)
        | Some pt =>
            let chat := (pt !!! 3%nat =? APP_TYPE_CHAT) &&
                        (CHANNEL_MSG_OVERHEAD + CHANNEL_MSG_SENT_AT_SIZE <=? ct_len)%nat in
            let hdr_len := (CHANNEL_MSG_OVERHEAD + (if chat then CHANNEL_MSG_SENT_AT_SIZE else 0))%nat in
            (Some (mk_info (pt !!! 0%nat) (u16 (Z.lor (pt !!! 1%nat) (pt !!! 2%nat << 8)))
                     (pt !!! 3%nat) (le32_val (take 4 (drop 4 pt)))
                     (if chat then be32_val (take 4 (drop 8 pt)) else 0)
                     (take (ct_len - hdr_len) (drop hdr_len pt)) i),
             channels, bs)
        end
    end.

(** ** Reference *)

Definition opens (ch : bramble_channel_t) : bool := bool_decide (is_Some (try_decrypt (chn_key ch))).
(** The channel after [j] epochs, if every key derivation succeeds. *)
Fixpoint nth_epoch (j : nat) (ch : bramble_channel_t) : option bramble_channel_t :=
  match j with O => Some ch | S j' => ch' ← channel_advance_epoch ch; nth_epoch j' ch' end.
Definition open_at (ch : bramble_channel_t) (j : nat) : option bramble_channel_t :=
  ch' ← nth_epoch j ch; if opens ch' then Some ch' else None.
(** The first state of [ch], at most [m] epochs ahead, whose key opens the frame. *)
Definition open_within (m : nat) (ch : bramble_channel_t) : option bramble_channel_t :=
  head (omap (open_at ch) (seq 0 (S m))).

(** How many epochs ahead a channel may be tried. *)
Definition catchup_reach (b : catchup_bucket_t) (now_ms : Z) : nat :=
  CHANNEL_EPOCH_CATCHUP_MAX `min` Z.to_nat (cb_tokens (catchup_bucket b now_ms)).
(** The first channel one of whose reachable states opens the frame. *)
Definition reference_find (chs : list bramble_channel_t) (bs : list catchup_bucket_t) (i : nat)
    (now_ms : Z) : option (nat * bramble_channel_t) :=
  head (omap (λ '(k, (ch, b)), pair k <$> open_within (catchup_reach b now_ms) ch)
         (zip (seq i (length chs)) (zip chs bs))).

Lemma opens_spec ch :
  match try_decrypt (chn_key ch) with Some _ => opens ch = true | None => opens ch = false end.
Proof.
  unfold opens. destruct (try_decrypt (chn_key ch)).
  - apply bool_decide_eq_true_2. eauto.
  - apply bool_decide_eq_false_2. by intros [? ?].
Qed.

Lemma open_at_S ch j :
  open_at ch (S j) = ch' ← channel_advance_epoch ch; open_at ch' j.
Proof. unfold open_at. cbn [nth_epoch]. by destruct (channel_advance_epoch ch). Qed.

Lemma open_at_seq_S ch m :
  head (omap (open_at ch) (seq 1 m)) =
  ch' ← channel_advance_epoch ch; head (omap (open_at ch') (seq 0 m)).
Proof.
  rewrite <- fmap_S_seq.
  destruct (channel_advance_epoch ch) as [ch'|] eqn:E; cbn [mbind option_bind].
  - f_equal. induction (seq 0 m) as [|j l IH]; [done|]. cbn [omap list_omap fmap list_fmap].
    rewrite open_at_S, E. cbn [mbind option_bind]. cbn [omap fmap] in IH. by rewrite IH.
  - induction (seq 0 m) as [|j l IH]; [done|]. cbn [omap list_omap fmap list_fmap].
    by rewrite open_at_S, E.
Qed.

(** The advance loop finds the first reachable state that opens, and its tokens
    account for its work. *)
Lemma catchup_loop_spec n : ∀ ch tokens consumed,
  0 ≤ tokens →
  let '(r, t, c) := catchup_loop n ch tokens consumed in
  r = head (omap (open_at ch) (seq 1 (n `min` Z.to_nat tokens))) ∧
  t + c = tokens + consumed ∧ 0 ≤ t ≤ tokens.
Proof.
  induction n as [|n IH]; intros ch tokens consumed Ht; cbn [catchup_loop]; [split; [done|lia]|].
  destruct (tokens =? 0) eqn:E0; conds.
  { subst. change (Z.to_nat 0) with 0%nat. rewrite Nat.min_0_r. split; [done|lia]. }
  replace (S n `min` Z.to_nat tokens)%nat with (S (n `min` Z.to_nat (tokens - 1))) by lia.
  rewrite open_at_seq_S.
  destruct (channel_advance_epoch ch) as [ch'|]; cbn [mbind option_bind]; [|split; [done|lia]].
  pose proof (opens_spec ch') as Ho. rewrite <- cons_seq. cbn [omap list_omap].
  assert (open_at ch' 0 = if opens ch' then Some ch' else None) as -> by done.
  destruct (try_decrypt (chn_key ch')) as [pt|]; rewrite Ho; [split; [done|lia]|].
  specialize (IH ch' (tokens - 1) (consumed + 1) ltac:(lia)).
  destruct (catchup_loop n ch' (tokens - 1) (consumed + 1)) as [[r t] c].
  destruct IH as (-> & ? & ?). split; [done|lia].
Qed.

Definition bucket_ok (b : catchup_bucket_t) : Prop :=
  0 ≤ cb_tokens b ≤ CHANNEL_EPOCH_CATCHUP_BUDGET.

(** What a frame does to the bucket of a channel, and the catch-up attempts it is
    charged for. *)
Definition bucket_step (now_ms : Z) (ch : bramble_channel_t) (b : catchup_bucket_t)
    : catchup_bucket_t * Z :=
  if opens ch then (b, 0)
  else
    let b := catchup_bucket b now_ms in
    match open_within (catchup_reach b now_ms) ch with
    | Some _ => (b, 0)
    | None => let '(_, tokens, consumed) := catchup_loop CHANNEL_EPOCH_CATCHUP_MAX ch (cb_tokens b) 0 in
              (mk_bucket tokens (cb_last_refill_ms b) (cb_initialized b), consumed)
    end.

Lemma catchup_bucket_ok b now : bucket_ok b → bucket_ok (catchup_bucket b now).
Proof.
  unfold bucket_ok, catchup_bucket, CHANNEL_EPOCH_CATCHUP_BUDGET. intros [H1 H2].
  destruct (cb_initialized b); cbn [negb]; [|cbn; lia]. cbn zeta.
  destruct (_ >? 0) eqn:E; [|done]. cbn [cb_tokens].
  set (a := u32 (u64 _ / _)) in *. conds.
  assert (is_u32 a) by apply u32_range.
  split_if; conds; cint.
Qed.

(** Refilling twice at the same instant refills once. *)
Lemma catchup_bucket_idem b now : catchup_bucket (catchup_bucket b now) now = catchup_bucket b now.
Proof.
  unfold catchup_bucket at 2 3. destruct (cb_initialized b) eqn:Ei; cbn [negb].
  - cbn zeta. destruct (_ >? 0) eqn:E.
    + unfold catchup_bucket. cbn [cb_initialized negb cb_last_refill_ms]. by rewrite Z.sub_diag.
    + unfold catchup_bucket. rewrite Ei. cbn [negb]. cbn zeta. by rewrite E.
  - unfold catchup_bucket. cbn [cb_initialized negb cb_last_refill_ms]. by rewrite Z.sub_diag.
Qed.

Lemma open_within_cons m ch :
  open_within m ch = if opens ch then Some ch else head (omap (open_at ch) (seq 1 m)).
Proof.
  unfold open_within. rewrite <- cons_seq. cbn [omap list_omap].
  assert (open_at ch 0 = if opens ch then Some ch else None) as -> by done. by destruct (opens ch).
Qed.

Lemma refund_exact tokens consumed :
  0 ≤ tokens → 0 ≤ consumed → tokens + consumed ≤ CHANNEL_EPOCH_CATCHUP_BUDGET →
  refund tokens consumed = tokens + consumed.
Proof.
  unfold refund, CHANNEL_EPOCH_CATCHUP_BUDGET. intros. cbn zeta.
  rewrite (u32_id (256 - tokens)) by (unfold is_u32; lia).
  destruct (consumed <? 256 - tokens) eqn:E; conds; rewrite u32_id; unfold is_u32; lia.
Qed.

Lemma trial_loop_spec now chs : ∀ bs i found,
  (length chs ≤ length bs)%nat → Forall bucket_ok bs →
  trial_loop chs bs i found now =
  (match found with Some f => Some f | None => reference_find chs bs i now end,
   zip_with (λ ch b, (bucket_step now ch b).1) chs bs ++ drop (length chs) bs).
Proof.
  induction chs as [|ch chs IH]; intros bs i found Hl Hb; destruct bs as [|b bs];
    cbn [trial_loop length]; try (cbn in Hl; lia).
  { by destruct found. }
  { by destruct found. }
  inversion_clear Hb as [|? ? Hb0 Hbs]. cbn [zip_with drop].
  assert (Href : reference_find (ch :: chs) (b :: bs) i now =
    match open_within (catchup_reach b now) ch with
    | Some ch' => Some (i, ch') | None => reference_find chs bs (S i) now end).
  { unfold reference_find. cbn [length seq zip_with omap list_omap].
    by destruct (open_within _ ch). }
  rewrite Href. unfold bucket_step at 1. rewrite open_within_cons.
  pose proof (opens_spec ch) as Ho. destruct (try_decrypt (chn_key ch)) as [pt|]; rewrite Ho.
  - rewrite IH by (cbn in Hl; lia || done). by destruct found.
  - cbn zeta. pose proof (catchup_bucket_ok b now Hb0) as Hb1.
    pose proof (catchup_loop_spec CHANNEL_EPOCH_CATCHUP_MAX ch (cb_tokens (catchup_bucket b now)) 0
      ltac:(apply Hb1)) as Hc.
    rewrite open_within_cons, Ho. unfold catchup_reach. rewrite catchup_bucket_idem.
    destruct (catchup_loop _ ch _ 0) as [[r t] c]. destruct Hc as (-> & Ht & Ht').
    destruct (head (omap (open_at ch) (seq 1 _))) as [ch'|] eqn:Eh.
    + rewrite refund_exact by (unfold bucket_ok in Hb1; lia).
      replace (t + c) with (cb_tokens (catchup_bucket b now)) by lia.
      rewrite IH by (cbn in Hl; lia || done). cbn [fst].
      assert (mk_bucket (cb_tokens (catchup_bucket b now)) (cb_last_refill_ms (catchup_bucket b now))
        (cb_initialized (catchup_bucket b now)) = catchup_bucket b now) as ->
        by (by destruct (catchup_bucket b now)).
      by destruct found.
    + rewrite IH by (cbn in Hl; lia || done). by destruct found.
Qed.
End Trial.
End Channel.

Section ChannelFacts.
Context `{DC : DmCrypto} `{IC : IdCrypto}.

Lemma head_omap_Some {A B} (f : A → option B) l y :
  head (omap f l) = Some y →
  ∃ k x, l !! k = Some x ∧ f x = Some y ∧ ∀ k' x', (k' < k)%nat → l !! k' = Some x' → f x' = None.
Proof.
  induction l as [|a l IH]; cbn [omap list_omap]; [done|].
  destruct (f a) as [b|] eqn:E.
  - intros [= <-]. exists 0%nat, a. split; [done|]. split; [done|]. lia.
  - intros H. destruct (IH H) as (k & x & Hk & Hf & Hn). exists (S k), x.
    split; [done|]. split; [done|]. intros [|k'] x' Hlt Hx; [injection Hx as <-; done|].
    apply (Hn k'); [lia|done].
Qed.

Lemma head_omap_first {A B} (f : A → option B) l k x y :
  l !! k = Some x → f x = Some y →
  (∀ k' x', (k' < k)%nat → l !! k' = Some x' → f x' = None) → head (omap f l) = Some y.
Proof.
  revert k; induction l as [|a l IH]; intros k Hk Hf Hn; [done|]. cbn [omap list_omap].
  destruct k as [|k].
  - injection Hk as ->. by rewrite Hf.
  - rewrite (Hn 0%nat a) by (lia || done). apply (IH k); [done|done|].
    intros k' x' Hlt Hx. apply (Hn (S k')); [lia|done].
Qed.

(** [open_within] is the least number of epochs after which the frame opens. *)
Lemma open_within_Some nonce ct tag aad m ch ch' :
  open_within nonce ct tag aad m ch = Some ch' →
  ∃ j, (j ≤ m)%nat ∧ nth_epoch j ch = Some ch' ∧ is_Some (try_decrypt nonce ct tag aad (chn_key ch')).
Proof.
  intros (k & j & [-> Hj]%lookup_seq & Ho & _)%head_omap_Some.
  apply bind_Some in Ho as (c & Hc & Ho). destruct (opens nonce ct tag aad c) eqn:E; [|done].
  injection Ho as ->. apply bool_decide_eq_true in E. exists k. split; [lia|done].
Qed.

(** C18. Trial decryption equals its specification: over at most sixteen channels
    with their buckets, a frame is opened by the first channel in order that has,
    at its current epoch or at most as many epochs ahead as 256 and the channel's
    tokens allow, a key that authenticates it; only that channel moves, to the
    first such epoch; if there is none every channel stays as it was.  The saving
    and restoring of keys, the trials of the remaining channels and the second
    decryption do not show. *)
Theorem channel_decrypt_reference (nonce ct tag aad : list Z) (channels : list bramble_channel_t)
    (bs : list catchup_bucket_t) (now : Z) :
  length bs = MAX_CHANNELS → Forall bucket_ok bs →
  (CHANNEL_MSG_OVERHEAD ≤ length ct ≤ CHANNEL_MSG_MAX_PLAINTEXT_SIZE)%nat →
  let chs := take MAX_CHANNELS channels in
  let '(r, channels', bs') := channel_msg_decrypt nonce ct tag aad channels bs now in
  bs' = zip_with (λ ch b, (bucket_step nonce ct tag aad now ch b).1) chs bs ++ drop (length chs) bs ∧
  match reference_find nonce ct tag aad chs bs 0 now with
  | None => r = None ∧ channels' = channels
  | Some (i, ch) => channels' = <[i := ch]> channels ∧ (∃ info, r = Some info ∧ in_channel_index info = i) ∧
      ∃ c0 j, chs !! i = Some c0 ∧ (j ≤ CHANNEL_EPOCH_CATCHUP_MAX)%nat ∧ nth_epoch j c0 = Some ch
  end.
Proof.
  intros Hl Hb [H1 H2]. unfold channel_msg_decrypt.
  rewrite (proj2 (Nat.ltb_ge _ _) H1), (proj2 (Nat.ltb_ge _ _) H2).
  rewrite trial_loop_spec; [|rewrite length_take, Hl; lia|done].
  set (chs := take MAX_CHANNELS channels). cbn zeta.
  destruct (reference_find nonce ct tag aad chs bs 0 now) as [[i ch]|] eqn:Er; [|done].
  unfold reference_find in Er. apply head_omap_Some in Er as (k & [k' [c0 b]] & Hk & Ho & _).
  apply lookup_zip_with_Some in Hk as (i0 & [c1 b1] & [= <- <- <-] & [-> Hi]%lookup_seq & Hz).
  apply lookup_zip_with_Some in Hz as (c2 & b2 & [= <- <-] & Hc & _).
  apply fmap_Some in Ho as (ch' & Ho & [= -> ->]). cbn [Nat.add] in *.
  apply open_within_Some in Ho as (j & Hj & Hn & [pt Hpt]). rewrite Hpt.
  split; [done|]. split; [done|]. split; [eauto|]. exists c0, j. split; [done|].
  split; [|done]. unfold catchup_reach in Hj. lia.
Qed.

Lemma nth_epoch_keeps j : ∀ ch ch', nth_epoch j ch = Some ch' → chn_channel_id ch' = chn_channel_id ch.
Proof.
  induction j as [|j IH]; intros ch ch'; cbn [nth_epoch]; [by intros [= <-]|].
  intros (c & Hc & Hn)%bind_Some. rewrite (IH _ _ Hn). unfold channel_advance_epoch in Hc.
  by apply bind_Some in Hc as (? & _ & [= <-]).
Qed.

(** Sixteen bits and thirty-two bits, low byte first. *)
Lemma epoch_bytes e : is_u16 e →
  u16 (Z.lor (u8 (Z.land e 255)) (u8 (Z.land (e >> 8) 255) << 8)) = e.
Proof.
  intros He. change 255 with (Z.ones 8). rewrite !Z.land_ones by lia. shifts.
  rewrite Z.lor_comm, (lor_disjoint _ _ 8) by cint. cint.
Qed.
Lemma src_bytes a : is_u32 a →
  le32_val [u8 (Z.land a 255); u8 (Z.land (a >> 8) 255); u8 (Z.land (a >> 16) 255);
            u8 (Z.land (a >> 24) 255)] = a.
Proof.
  intros Ha. rewrite le32_val_arith by apply u8_range.
  change 255 with (Z.ones 8). rewrite !Z.land_ones by lia. shifts. cint.
Qed.

(** A channel message arrives as it was sent: a message encrypted on a channel
    that is up to as many epochs ahead of the receiver's as the receiver may catch
    up is delivered with its channel id, epoch, application type, source address,
    send time (chat messages carry one) and data, under the receiver's index of the
    channel, and the receiver's channel moves to the sender's epoch; provided no
    earlier channel or epoch the receiver tries opens the frame, which is what
    authenticated encryption gives for keys other than the sender's. *)
Theorem channel_message_delivered `{!DmCryptoLaws} (chs : list bramble_channel_t) (bs : list catchup_bucket_t)
    (i k : nat) (c0 ch : bramble_channel_t) (b : catchup_bucket_t) (now src ty sent_at : Z)
    (data aad nonce ct tag : list Z) :
  length bs = MAX_CHANNELS → Forall bucket_ok bs → (length chs ≤ MAX_CHANNELS)%nat →
  chs !! i = Some c0 → bs !! i = Some b → nth_epoch k c0 = Some ch →
  (k ≤ catchup_reach b now)%nat →
  is_u32 src → is_u16 (chn_epoch ch) → is_u32 sent_at →
  channel_msg_encrypt ch src ty sent_at data aad nonce = Some (ct, tag) →
  (∀ j c, (j < k)%nat → nth_epoch j c0 = Some c → opens nonce ct tag aad c = false) →
  (∀ i' c' b', (i' < i)%nat → chs !! i' = Some c' → bs !! i' = Some b' →
     open_within nonce ct tag aad (catchup_reach b' now) c' = None) →
  (channel_msg_decrypt nonce ct tag aad chs bs now).1 =
  (Some (mk_info (chn_channel_id ch) (chn_epoch ch) ty src
           (if ty =? APP_TYPE_CHAT then sent_at else 0) data i),
   <[i := ch]> chs).
Proof.
  intros Hl Hb Hle Hi Hbi Hn Hk Hsrc Hep Hsent He Hself Hother.
  unfold channel_msg_encrypt in He. cbn zeta in He.
  destruct (CHANNEL_MSG_MAX_PLAINTEXT_SIZE <? _)%nat eqn:Esz; [done|]. apply Nat.ltb_ge in Esz.
  set (pt := channel_plaintext ch src ty sent_at data) in *.
  pose proof (gcm_inverse _ _ _ _ _ _ He) as Hdec. pose proof (gcm_length _ _ _ _ _ _ He) as [Hlen _].
  assert (Hpt : length pt = (CHANNEL_MSG_OVERHEAD +
    (if (ty =? APP_TYPE_CHAT)%Z then CHANNEL_MSG_SENT_AT_SIZE else 0) + length data)%nat).
  { unfold pt, channel_plaintext. rewrite !length_app. by destruct (ty =? APP_TYPE_CHAT). }
  assert (Hopen : opens nonce ct tag aad ch = true)
    by (apply bool_decide_eq_true_2; unfold try_decrypt; rewrite Hdec; eauto).
  assert (Hfind : reference_find nonce ct tag aad chs bs 0 now = Some (i, ch)).
  { unfold reference_find. apply (head_omap_first _ _ i (i, (c0, b))).
    - rewrite lookup_zip_with, lookup_seq_lt by (by eapply lookup_lt_Some).
      rewrite lookup_zip_with, Hi, Hbi. done.
    - assert (open_within nonce ct tag aad (catchup_reach b now) c0 = Some ch) as ->; [|done].
      unfold open_within. apply (head_omap_first _ _ k k); [apply lookup_seq; split; [done|lia]| |].
      + unfold open_at. rewrite Hn. cbn [mbind option_bind]. by rewrite Hopen.
      + intros j x Hj [-> _]%lookup_seq. unfold open_at. cbn [Nat.add].
        destruct (nth_epoch j c0) as [c|] eqn:Ec; [|done]. cbn [mbind option_bind].
        by rewrite (Hself j c).
    - intros i' [x [c' b']] Hlt Hz.
      apply lookup_zip_with_Some in Hz as (x' & [c1 b1] & [= -> -> ->] & [-> _]%lookup_seq & Hz).
      apply lookup_zip_with_Some in Hz as (c2 & b2 & [= -> ->] & Hc & Hb').
      by rewrite (Hother i' c2 b2). }
  unfold channel_msg_decrypt. rewrite Hlen, Hpt.
  rewrite (proj2 (Nat.ltb_ge _ _)) by lia. rewrite (proj2 (Nat.ltb_ge _ _)) by done.
  rewrite (take_ge chs) by done. rewrite trial_loop_spec by (lia || done). rewrite Hfind.
  unfold try_decrypt. rewrite Hdec. cbn [fst].
  assert (P3 : pt !!! 3%nat = ty) by done. rewrite P3.
  assert (P4 : le32_val (take 4 (drop 4 pt)) = src) by (by apply src_bytes).
  assert (P1 : u16 (Z.lor (pt !!! 1%nat) (pt !!! 2%nat << 8)) = chn_epoch ch) by (by apply epoch_bytes).
  assert (P0 : pt !!! 0%nat = chn_channel_id ch) by done. rewrite P0, P1, P4.
  f_equal. f_equal.
  destruct (ty =? APP_TYPE_CHAT) eqn:Ea; cbn [andb].
  - rewrite (proj2 (Nat.leb_le _ _)) by (unfold CHANNEL_MSG_OVERHEAD, CHANNEL_MSG_SENT_AT_SIZE; lia).
    f_equal.
    + unfold pt, channel_plaintext. rewrite Ea. cbn [app drop take be32_bytes]. by apply be32_roundtrip.
    + unfold pt, channel_plaintext. rewrite Ea.
      cbn [app drop CHANNEL_MSG_OVERHEAD CHANNEL_MSG_SENT_AT_SIZE Nat.add be32_bytes].
      rewrite drop_0. apply take_ge. unfold CHANNEL_MSG_SENT_AT_SIZE. lia.
  - f_equal. unfold pt, channel_plaintext. rewrite Ea.
    cbn [app drop CHANNEL_MSG_OVERHEAD Nat.add]. rewrite ?drop_0. apply take_ge. lia.
Qed.

(** ** The cost of garbage *)

(** A frame met by one channel: real time, nonce, ciphertext, tag, associated data
    and the channel's state. *)
Record trial := mk_trial {
  tr_time : Z; tr_nonce : list Z; tr_ct : list Z; tr_tag : list Z; tr_aad : list Z;
  tr_channel : bramble_channel_t }.
Definition trial_step (st : catchup_bucket_t * Z) (t : trial) : catchup_bucket_t * Z :=
  let '(b, w) := bucket_step (tr_nonce t) (tr_ct t) (tr_tag t) (tr_aad t) (u32 (tr_time t))
                   (tr_channel t) st.1 in
  (b, st.2 + w).

(** Ten thousand times the work done so far and the tokens left, credited with
    the time since the last refill. *)
Definition catchup_inv (t0 now : Z) (st : catchup_bucket_t * Z) : Prop :=
  bucket_ok st.1 ∧ t0 ≤ now ∧
  if cb_initialized st.1
  then ∃ l, l ≤ now ∧ cb_last_refill_ms st.1 = u32 l ∧
       10000 * (st.2 + cb_tokens st.1) + 256 * (now - l) ≤ 2560000 + 256 * (now - t0)
  else st.2 = 0.

Lemma catchup_refill_inv t0 now b w :
  catchup_inv t0 now (b, w) →
  catchup_inv t0 now (catchup_bucket b (u32 now), w) ∧ cb_initialized (catchup_bucket b (u32 now)) = true.
Proof.
  intros (Hok & Ht & Hinv). pose proof (catchup_bucket_ok b (u32 now) Hok) as Hok'.
  assert (Hi : cb_initialized (catchup_bucket b (u32 now)) = true).
  { unfold catchup_bucket. destruct (cb_initialized b) eqn:E; cbn [negb]; [|done]. cbn zeta.
    by destruct (_ >? 0). }
  split; [|done]. split; [done|]. split; [done|]. cbn [fst snd] in *. rewrite Hi.
  unfold catchup_bucket. destruct (cb_initialized b) eqn:E; cbn [negb].
  - destruct Hinv as (l & Hl & Hlast & Hpot). cbn zeta. rewrite Hlast.
    assert (Hel : 0 ≤ u32 now ⊖ u32 l ≤ now - l).
    { unfold u32. rewrite <- Zminus_mod. pose proof (Z.mod_le (now - l) 4294967296).
      pose proof (Z.mod_pos_bound (now - l) 4294967296). lia. }
    set (el := u32 now ⊖ u32 l) in *.
    assert (Hel2 : el < 4294967296) by (pose proof (u32_range (u32 now - u32 l)); unfold is_u32 in *; lia).
    unfold CHANNEL_EPOCH_CATCHUP_BUDGET, CHANNEL_EPOCH_CATCHUP_REFILL_MS.
    rewrite (u64_id (el * 256)) by (unfold is_u64; lia).
    assert (Hdiv : 0 ≤ el * 256 / 10000 ∧ 10000 * (el * 256 / 10000) ≤ el * 256)
      by (split; [apply Z.div_pos; lia|apply Z.mul_div_le; lia]).
    rewrite (u32_id (el * 256 / 10000)) by (unfold is_u32; lia).
    unfold bucket_ok, CHANNEL_EPOCH_CATCHUP_BUDGET in Hok. cbn [fst] in Hok.
    rewrite (u32_id (256 - cb_tokens b)) by (unfold is_u32; lia).
    destruct (_ >? 0) eqn:Ea; conds; [|by exists l].
    exists now. cbn [cb_last_refill_ms cb_tokens]. split; [lia|]. split; [done|].
    split_if; conds; rewrite u32_id by (unfold is_u32; lia); lia.
  - exists now. cbn [cb_last_refill_ms cb_tokens]. unfold CHANNEL_EPOCH_CATCHUP_BUDGET.
    split; [lia|]. split; [done|]. rewrite Hinv. lia.
Qed.

Lemma catchup_inv_later t0 now now' st :
  catchup_inv t0 now st → now ≤ now' → catchup_inv t0 now' st.
Proof.
  intros (H1 & H2 & H3) Hle. split; [done|]. split; [lia|].
  destruct (cb_initialized st.1); [|done]. destruct H3 as (l & ? & ? & ?). exists l. lia.
Qed.

Lemma trial_step_inv t0 st t :
  catchup_inv t0 (tr_time t) st → catchup_inv t0 (tr_time t) (trial_step st t).
Proof.
  intros Hinv. destruct st as [b w]. unfold trial_step, bucket_step. cbn [fst snd].
  destruct (opens _ _ _ _ _); [by rewrite Z.add_0_r|]. cbn zeta.
  destruct (catchup_refill_inv _ _ _ _ Hinv) as [Hr Hi].
  destruct (open_within _ _ _ _ _ _); [by rewrite Z.add_0_r|].
  destruct Hr as (Hok & Ht & Hp). cbn [fst snd] in *. rewrite Hi in Hp.
  set (b1 := catchup_bucket b (u32 (tr_time t))) in *.
  pose proof (catchup_loop_spec (tr_nonce t) (tr_ct t) (tr_tag t) (tr_aad t)
    CHANNEL_EPOCH_CATCHUP_MAX (tr_channel t) (cb_tokens b1) 0 ltac:(apply Hok)) as Hc.
  destruct (catchup_loop _ _ _ _ _ _ _ _) as [[r tk] c]. destruct Hc as (_ & Htc & Htk).
  split; [unfold bucket_ok in *; cbn [fst cb_tokens]; lia|]. split; [done|].
  cbn [fst snd cb_initialized cb_last_refill_ms cb_tokens]. rewrite Hi.
  destruct Hp as (l & ? & ? & ?). exists l. split; [done|]. split; [done|]. lia.
Qed.

(** Garbage costs a bounded number of decryptions: over any sequence of frames
    a channel meets, the catch-up attempts spent on frames it cannot open are at
    most one full budget of 256 plus 256 for every ten seconds between the first
    moment and the last frame, whatever the frames, the channel's state and the
    wrap of the 32-bit clock. *)
Theorem catchup_work_bounded (t0 : Z) (ts : list trial) (t : trial) :
  t0 ≤ tr_time (default t (head ts)) →
  (∀ i t1 t2, (ts ++ [t]) !! i = Some t1 → (ts ++ [t]) !! S i = Some t2 → tr_time t1 ≤ tr_time t2) →
  10000 * (foldl trial_step (mk_bucket 0 0 false, 0) (ts ++ [t])).2 ≤
  10000 * CHANNEL_EPOCH_CATCHUP_BUDGET + 256 * (tr_time t - t0).
Proof.
  intros Hstart Hmono.
  assert (Hall : catchup_inv t0 (tr_time t) (foldl trial_step (mk_bucket 0 0 false, 0) (ts ++ [t]))).
  { revert t Hstart Hmono. induction ts as [|u ts IH] using rev_ind; intros t Hstart Hmono.
    - apply trial_step_inv. split; [unfold bucket_ok, CHANNEL_EPOCH_CATCHUP_BUDGET; cbn; lia|].
      split; [done|done].
    - rewrite foldl_snoc. apply trial_step_inv. apply (catchup_inv_later t0 (tr_time u)).
      + apply IH.
        * destruct ts; [exact Hstart|exact Hstart].
        * intros i t1 t2 H1 H2. apply (Hmono i); rewrite lookup_app_l; try done;
            by eapply lookup_lt_Some.
      + apply (Hmono (length ts)).
        * rewrite <- app_assoc. by rewrite lookup_app_r, Nat.sub_diag by lia.
        * rewrite lookup_app_r by (rewrite length_app; cbn; lia). rewrite length_app.
          cbn [length]. by replace (S (length ts) - (length ts + 1))%nat with 0%nat by lia. }
  destruct Hall as (Hok & Ht & Hp). unfold CHANNEL_EPOCH_CATCHUP_BUDGET.
  destruct (foldl _ _ _) as [b w]. cbn [fst snd] in *. unfold bucket_ok in Hok.
  destruct (cb_initialized b); [destruct Hp as (l & ? & ? & ?)|]; lia.
Qed.
End ChannelFacts.

(** ** Concrete runs *)

#[local] Existing Instance toy_crypto.
#[local] Existing Instance toy_id_crypto.

Definition demo_channels : list bramble_channel_t :=
  [mk_channel (replicate 32 1) 3 7; mk_channel (replicate 32 2) 4 9].
Definition demo_sender : bramble_channel_t :=
  default (mk_channel [] 0 0) (nth_epoch 3 (mk_channel (replicate 32 2) 4 9)).
(** Four tokens left in every bucket. *)
Definition demo_buckets : list catchup_bucket_t := replicate MAX_CHANNELS (mk_bucket 4 0 true).
Definition demo_frame : list Z * list Z :=
  default ([], []) (channel_msg_encrypt demo_sender 77 APP_TYPE_CHAT 500 [104; 105] [9] [8]).

Lemma channel_decrypt_reference_witness :
  (channel_msg_decrypt [8] demo_frame.1 demo_frame.2 [9] demo_channels demo_buckets 0).1.2 =
  <[1%nat := demo_sender]> demo_channels.
Proof.
  pose proof (channel_decrypt_reference [8] demo_frame.1 demo_frame.2 [9] demo_channels
    demo_buckets 0) as H.
  cbv zeta in H.
  destruct (channel_msg_decrypt [8] demo_frame.1 demo_frame.2 [9] demo_channels demo_buckets 0)
    as [[r chs] bs]. cbn [fst snd].
  destruct H as [_ H]; [reflexivity| |vm_compute; lia|].
  - apply list.Forall_forall. intros b [-> _]%elem_of_replicate. vm_compute. split; discriminate.
  - assert (Hf : reference_find [8] demo_frame.1 demo_frame.2 [9] (take MAX_CHANNELS demo_channels)
      demo_buckets 0 0 = Some (1%nat, demo_sender)) by (vm_compute; reflexivity).
    rewrite Hf in H. apply H.
Defined.

Lemma channel_message_delivered_witness :
  (channel_msg_decrypt [8] demo_frame.1 demo_frame.2 [9] demo_channels demo_buckets 0).1 =
  (Some (mk_info 4 12 APP_TYPE_CHAT 77 500 [104; 105] 1), <[1%nat := demo_sender]> demo_channels).
Proof.
  rewrite (channel_message_delivered demo_channels demo_buckets 1 3 (mk_channel (replicate 32 2) 4 9)
    demo_sender (mk_bucket 4 0 true) 0 77 APP_TYPE_CHAT 500 [104; 105] [9] [8] demo_frame.1
    demo_frame.2).
  - vm_compute. reflexivity.
  - reflexivity.
  - apply list.Forall_forall. intros b [-> _]%elem_of_replicate. vm_compute. split; discriminate.
  - vm_compute. lia.
  - reflexivity.
  - reflexivity.
  - vm_compute. reflexivity.
  - vm_compute. lia.
  - vm_compute. split; [discriminate|reflexivity].
  - vm_compute. split; [discriminate|reflexivity].
  - vm_compute. split; [discriminate|reflexivity].
  - vm_compute. reflexivity.
  - intros j c Hj Hc. destruct j as [|[|[|j]]]; [..|lia]; vm_compute in Hc; injection Hc as <-;
      vm_compute; reflexivity.
  - intros [|i'] c' b' Hi Hc Hb; [|lia]. injection Hc as <-. injection Hb as <-. vm_compute. reflexivity.
Defined.

(** Two frames nobody can open, a second apart. *)
Definition demo_garbage (t : Z) : trial :=
  mk_trial t [8] (replicate 20 5) (replicate 16 0) [9] (mk_channel (replicate 32 1) 3 7).

Lemma catchup_work_bounded_witness :
  10000 * (foldl trial_step (mk_bucket 0 0 false, 0) [demo_garbage 5; demo_garbage 1005]).2 ≤ 2816000.
Proof.
  apply (catchup_work_bounded 5 [demo_garbage 5] (demo_garbage 1005)).
  - vm_compute. discriminate.
  - intros [|[|i]] t1 t2 H1 H2; [|done|done]. injection H1 as <-. injection H2 as <-.
    vm_compute. discriminate.
Defined.
