(* ===== verification/MeshDm.v ===== *)
(** * Direct messages ([main/mesh_dm.c], [send_data_packet] and [next_packet_id] of
      [main/mesh_task.c])

    The handshake state machine around the session table: who may start a
    handshake and how often, the pending ephemeral keys, the INIT cache, the
    messages waiting for a session, sending, and the two halves of the exchange.

    A handler is a function on the node's state, in a state monad whose failure
    [None] is an access outside a buffer.  Handlers are taken one at a time: the
    session mutex and the two task queues serialize them in the firmware. *)

From stdpp Require Import base strings numbers option decidable list.
From S2P Require Import Prelude Tables Packet NetworkKey RoutingAuth TxGate Reliability Routing.
From S2P Require Import ChannelFlood Fragment DmCrypto DmRatchet DmTable Identity IdentityStore Channel.
From S2P Require Import MsgStore.

Definition DM_REHANDSHAKE_MIN_INTERVAL_MS : Z := 15000.
Definition DM_REHANDSHAKE_TRACK : nat := 8.
Definition DM_EPOCH_REKEY_MSGS : Z := 256.
Definition DM_EPOCH_REKEY_INTERVAL_MS : Z := 1800000.
Definition MAX_QUEUED_MSGS : nat := 8.
Definition DM_HS_DEDUP_MAX : nat := 16.
Definition HANDSHAKE_WORK_QUEUE_LEN : nat := 8.
Definition FLAG_CHANNEL : Z := 8.
Definition FLAG_ENCRYPT : Z := 4.
Definition BRAMBLE_DATA_ENVELOPE_PREFIX_SIZE : nat := HEADER_SIZE + 16.
Definition BRAMBLE_NONCE_SIZE : nat := 12.
Definition BRAMBLE_TAG_SIZE : nat := 16.

(** ** State *)

Record dm_pending_eph_t := mk_eph {
  pe_peer_addr : Z; pe_eph_priv : list Z; pe_eph_pub : list Z; pe_used : bool }.
Definition eph_zero : dm_pending_eph_t := mk_eph 0 (replicate 32 0) (replicate 32 0) false.
#[global] Instance eph_inhabited : Inhabited dm_pending_eph_t := populate eph_zero.

Record dm_hs_dedup_entry_t := mk_hs {
  hs_src_addr : Z; hs_eph_pub_hash : Z; hs_ke_epoch : Z; hs_seen_ms : Z; hs_used : bool }.
#[global] Instance hs_inhabited : Inhabited dm_hs_dedup_entry_t := populate (mk_hs 0 0 0 0 false).

Inductive queue_reason := QUEUE_REASON_ROUTE | QUEUE_REASON_SESSION.
#[global] Instance queue_reason_eq_dec : EqDecision queue_reason.
Proof. solve_decision. Defined.
Record queued_msg_t := mk_queued {
  qm_dest_addr : Z; qm_data : list Z; qm_timestamp : Z; qm_used : bool; qm_reason : queue_reason;
  qm_pkt_id : Z; qm_uid : Z; qm_channel_idx : Z }.
#[global] Instance queued_inhabited : Inhabited queued_msg_t :=
  populate (mk_queued 0 [] 0 false QUEUE_REASON_ROUTE 0 0 0).

(** [initiate] items carry no message; an incoming one carries the parsed frame
    and the pinned key snapshot. *)
Inductive dm_handshake_work_item_t :=
  | WkInitiate (src_addr channel_idx rekey_epoch : Z)
  | WkMessage (src_addr channel_idx : Z) (msg : bramble_key_exchange_t) (pinned : option (list Z)).

Inductive dm_event :=
  | DTx (frame : list Z) (kind : tx_kind_t) (ok : bool)
  | DAckFailed (packet_id : Z) (reason : string)
  | DPersist (ps : list persist).

(** What the handlers draw from outside: the clock, the outcome of each
    transmission (denied once the list is used up), generated ephemeral
    identities, nonces, random words, the network time in seconds. *)
Record dm_env := mk_dm_env {
  v_now : Z; v_tx : list bool; v_gen : list (option bramble_identity_t);
  v_nonce : list (option (list Z)); v_rand : list Z; v_net_s : Z; v_uptime_s : Z }.

Record node := mk_node {
  nd_id : bramble_identity_t; nd_key : netkey; nd_flood_transport : bool; nd_flood_hop_limit : Z;
  nd_channels : list bramble_channel_t; nd_default_channel_idx : Z;
  nd_pins : identity_store_t; nd_neighbors : neighbor_table_t;
  nd_table : dm_table_t; nd_rehs : list (Z * Z); nd_eph : list dm_pending_eph_t;
  nd_hs : list dm_hs_dedup_entry_t; nd_queue : list queued_msg_t;
  nd_work : list dm_handshake_work_item_t; nd_acks : pending_ack_table_t; nd_msgs : msg_store;
  nd_counter : Z; nd_env : dm_env; nd_out : list dm_event }.

Section Setters.
Context (n : node).
Definition set_table x := mk_node (nd_id n) (nd_key n) (nd_flood_transport n) (nd_flood_hop_limit n)
  (nd_channels n) (nd_default_channel_idx n) (nd_pins n) (nd_neighbors n) x (nd_rehs n) (nd_eph n)
  (nd_hs n) (nd_queue n) (nd_work n) (nd_acks n) (nd_msgs n) (nd_counter n) (nd_env n) (nd_out n).
Definition set_rehs x := mk_node (nd_id n) (nd_key n) (nd_flood_transport n) (nd_flood_hop_limit n)
  (nd_channels n) (nd_default_channel_idx n) (nd_pins n) (nd_neighbors n) (nd_table n) x (nd_eph n)
  (nd_hs n) (nd_queue n) (nd_work n) (nd_acks n) (nd_msgs n) (nd_counter n) (nd_env n) (nd_out n).
Definition set_eph x := mk_node (nd_id n) (nd_key n) (nd_flood_transport n) (nd_flood_hop_limit n)
  (nd_channels n) (nd_default_channel_idx n) (nd_pins n) (nd_neighbors n) (nd_table n) (nd_rehs n) x
  (nd_hs n) (nd_queue n) (nd_work n) (nd_acks n) (nd_msgs n) (nd_counter n) (nd_env n) (nd_out n).
Definition set_hs x := mk_node (nd_id n) (nd_key n) (nd_flood_transport n) (nd_flood_hop_limit n)
  (nd_channels n) (nd_default_channel_idx n) (nd_pins n) (nd_neighbors n) (nd_table n) (nd_rehs n)
  (nd_eph n) x (nd_queue n) (nd_work n) (nd_acks n) (nd_msgs n) (nd_counter n) (nd_env n) (nd_out n).
Definition set_queue x := mk_node (nd_id n) (nd_key n) (nd_flood_transport n) (nd_flood_hop_limit n)
  (nd_channels n) (nd_default_channel_idx n) (nd_pins n) (nd_neighbors n) (nd_table n) (nd_rehs n)
  (nd_eph n) (nd_hs n) x (nd_work n) (nd_acks n) (nd_msgs n) (nd_counter n) (nd_env n) (nd_out n).
Definition set_work x := mk_node (nd_id n) (nd_key n) (nd_flood_transport n) (nd_flood_hop_limit n)
  (nd_channels n) (nd_default_channel_idx n) (nd_pins n) (nd_neighbors n) (nd_table n) (nd_rehs n)
  (nd_eph n) (nd_hs n) (nd_queue n) x (nd_acks n) (nd_msgs n) (nd_counter n) (nd_env n) (nd_out n).
Definition set_acks x := mk_node (nd_id n) (nd_key n) (nd_flood_transport n) (nd_flood_hop_limit n)
  (nd_channels n) (nd_default_channel_idx n) (nd_pins n) (nd_neighbors n) (nd_table n) (nd_rehs n)
  (nd_eph n) (nd_hs n) (nd_queue n) (nd_work n) x (nd_msgs n) (nd_counter n) (nd_env n) (nd_out n).
Definition set_msgs x := mk_node (nd_id n) (nd_key n) (nd_flood_transport n) (nd_flood_hop_limit n)
  (nd_channels n) (nd_default_channel_idx n) (nd_pins n) (nd_neighbors n) (nd_table n) (nd_rehs n)
  (nd_eph n) (nd_hs n) (nd_queue n) (nd_work n) (nd_acks n) x (nd_counter n) (nd_env n) (nd_out n).
Definition set_counter x := mk_node (nd_id n) (nd_key n) (nd_flood_transport n)
  (nd_flood_hop_limit n) (nd_channels n) (nd_default_channel_idx n) (nd_pins n) (nd_neighbors n)
  (nd_table n) (nd_rehs n) (nd_eph n) (nd_hs n) (nd_queue n) (nd_work n) (nd_acks n) (nd_msgs n) x
  (nd_env n) (nd_out n).
Definition set_env x := mk_node (nd_id n) (nd_key n) (nd_flood_transport n) (nd_flood_hop_limit n)
  (nd_channels n) (nd_default_channel_idx n) (nd_pins n) (nd_neighbors n) (nd_table n) (nd_rehs n)
  (nd_eph n) (nd_hs n) (nd_queue n) (nd_work n) (nd_acks n) (nd_msgs n) (nd_counter n) x (nd_out n).
Definition set_out x := mk_node (nd_id n) (nd_key n) (nd_flood_transport n) (nd_flood_hop_limit n)
  (nd_channels n) (nd_default_channel_idx n) (nd_pins n) (nd_neighbors n) (nd_table n) (nd_rehs n)
  (nd_eph n) (nd_hs n) (nd_queue n) (nd_work n) (nd_acks n) (nd_msgs n) (nd_counter n) (nd_env n) x.
End Setters.

(** ** The monad *)

Definition M (A : Type) : Type := node → option (A * node).
#[global] Instance M_ret : MRet M := λ A x n, Some (x, n).
#[global] Instance M_bind : MBind M := λ A B k m n,
  match m n with None => None | Some (x, n) => k x n end.
Definition get : M node := λ n, Some (n, n).
Definition gets {A} (f : node → A) : M A := λ n, Some (f n, n).
Definition modify (f : node → node) : M unit := λ n, Some (tt, f n).
Definition lift {A} (o : option A) : M A := λ n, match o with None => None | Some x => Some (x, n) end.
Definition emit (e : dm_event) : M unit := modify (λ n, set_out n (nd_out n ++ [e])).
Definition when (b : bool) (m : M unit) : M unit := if b then m else mret tt.
Fixpoint for_each {A} (l : list A) (f : A → M unit) : M unit :=
  match l with [] => mret tt | x :: l' => f x ;; for_each l' f end.

(** Draws from the environment. *)
Definition now_ms : M Z := gets (λ n, v_now (nd_env n)).
Definition mesh_tx (frame : list Z) (kind : tx_kind_t) : M bool := λ n,
  let v := nd_env n in
  let ok := match v_tx v with [] => false | b :: _ => b end in
  Some (ok, set_out (set_env n (mk_dm_env (v_now v) (tail (v_tx v)) (v_gen v) (v_nonce v) (v_rand v)
                                  (v_net_s v) (v_uptime_s v)))
              (nd_out n ++ [DTx frame kind ok])).
Definition crypto_generate_identity : M (option bramble_identity_t) := λ n,
  let v := nd_env n in
  Some (match v_gen v with [] => None | g :: _ => g end,
        set_env n (mk_dm_env (v_now v) (v_tx v) (tail (v_gen v)) (v_nonce v) (v_rand v) (v_net_s v)
                     (v_uptime_s v))).
Definition nonce_next : M (option (list Z)) := λ n,
  let v := nd_env n in
  Some (match v_nonce v with [] => None | g :: _ => g end,
        set_env n (mk_dm_env (v_now v) (v_tx v) (v_gen v) (tail (v_nonce v)) (v_rand v) (v_net_s v)
                     (v_uptime_s v))).
Definition next_packet_id : M Z := λ n,
  let v := nd_env n in
  let '(counter, n) :=
    if nd_counter n =? 0
    then (u32 (match v_rand v with [] => 0 | r :: _ => r end),
          set_env n (mk_dm_env (v_now v) (v_tx v) (v_gen v) (v_nonce v) (tail (v_rand v)) (v_net_s v)
                       (v_uptime_s v)))
    else (nd_counter n, n) in
  Some (counter, set_counter n (counter ⊕ 1)).

(** The message store, with the file writes it makes. *)
Definition msgs_update_by_uid (uid packet_id : Z) (status : msg_status_t) : M bool := λ n,
  let '(ok, st, ps) := msg_store_update_by_uid (nd_msgs n) uid packet_id status in
  Some (ok, set_out (set_msgs n st) (nd_out n ++ [DPersist ps])).
Definition msgs_next_uid : M Z := λ n,
  let '(uid, st) := msg_store_next_uid (nd_msgs n) in Some (uid, set_msgs n st).
Definition msgs_add_dm_uid (peer : Z) (text : list Z) (packet_id : Z) (status : msg_status_t) (uid : Z)
    : M unit := λ n,
  let '(st, ps) := msg_store_add_dm_uid (nd_msgs n) peer MSG_DIR_OUTGOING text 0 0 packet_id status uid
                     (v_uptime_s (nd_env n)) in
  Some (tt, set_out (set_msgs n st) (nd_out n ++ [DPersist ps])).

(** ** Rate limits and schedules *)

Definition dm_rehandshake_rate_ok_at (rehs : list (Z * Z)) (peer now : Z) : bool * list (Z * Z) :=
  match find_index (λ e, e.1 =? peer) rehs with
  | Some i =>
      if (now ⊖ (rehs !!! i).2) <? DM_REHANDSHAKE_MIN_INTERVAL_MS then (false, rehs)
      else (true, <[i := (peer, now)]> rehs)
  | None =>
      let slot := match find_index (λ e, e.1 =? 0) rehs with
                  | Some i => i
                  | None => best_index (λ x y, x.2 <? y.2) rehs
                  end in
      (true, <[slot := (peer, now)]> rehs)
  end.
Definition dm_rehandshake_rate_ok (peer now : Z) : M bool := λ n,
  let '(ok, rehs) := dm_rehandshake_rate_ok_at (nd_rehs n) peer now in Some (ok, set_rehs n rehs).

(** [xQueueSend(q, &item, 0) == pdTRUE] *)
Definition work_send (item : dm_handshake_work_item_t) : M bool := λ n,
  if (length (nd_work n) <? HANDSHAKE_WORK_QUEUE_LEN)%nat
  then Some (true, set_work n (nd_work n ++ [item])) else Some (false, n).

Definition maybe_trigger_dm_rehandshake (peer : Z) : M unit :=
  n ← get;
  if (peer =? 0) || (peer =? id_address (nd_id n)) then mret tt
  else match neighbor_lookup (nd_neighbors n) peer with
       | None => mret tt
       | Some _ =>
           now ← now_ms;
           ok ← dm_rehandshake_rate_ok peer now;
           if negb ok then mret tt
           else work_send (WkInitiate peer (nd_default_channel_idx n) 0) ;; mret tt
       end.

(** Due for a proactive rekey; the lower address starts it. *)
Definition rekey_due (self t : Z) (s : dm_session_t) : bool :=
  dm_in_state DM_STATE_ACTIVE s && ch_valid (r_send (ss_ratchet s)) && (ss_ke_epoch s <? 65535) &&
  (self <? ss_peer_addr s) &&
  ((ss_msg_count s >=? DM_EPOCH_REKEY_MSGS) ||
   ((t ⊖ ss_established_ms s) >=? DM_EPOCH_REKEY_INTERVAL_MS)).
Definition maybe_schedule_dm_epoch_rekey (t : Z) : M unit :=
  for_each (seq 0 DM_MAX_SESSIONS) (λ i,
    n ← get;
    let s := nd_table n !!! i in
    let '(peer, next_epoch) :=
      if rekey_due (id_address (nd_id n)) t s then (ss_peer_addr s, u16 (ss_ke_epoch s + 1)) else (0, 0) in
    if peer =? 0 then mret tt
    else match neighbor_lookup (nd_neighbors n) peer with
         | None => mret tt
         | Some _ =>
             ok ← dm_rehandshake_rate_ok peer t;
             if negb ok then mret tt
             else work_send (WkInitiate peer (nd_default_channel_idx n) next_epoch) ;; mret tt
         end).

Record mesh_dm_session_info_t := mk_dm_info {
  di_peer_addr : Z; di_established_ms_ago : Z; di_last_active_ms_ago : Z; di_msg_count : Z;
  di_ke_epoch : Z; di_active : bool; di_verified : bool; di_ratchet_valid : bool }.
Definition dm_session_info (t : Z) (s : dm_session_t) : mesh_dm_session_info_t :=
  mk_dm_info (ss_peer_addr s) (t ⊖ ss_established_ms s) (t ⊖ ss_last_active_ms s) (ss_msg_count s)
    (ss_ke_epoch s) (dm_in_state DM_STATE_ACTIVE s) (ss_verified s) (ch_valid (r_send (ss_ratchet s))).
Definition mesh_get_dm_sessions (t : Z) (table : dm_table_t) (max : nat)
    : list mesh_dm_session_info_t :=
  take max (dm_session_info t <$> filter (λ s, ss_state s ≠ DM_STATE_NONE) table).

(** ** Sending *)

Section Send.
Context `{DC : DmCrypto} `{IC : IdCrypto} (hmac : list Z → list Z → list Z).

Definition set_session (i : nat) (s : dm_session_t) : M unit :=
  modify (λ n, set_table n (<[i := s]> (nd_table n))).

(** The header both senders build; [flags] is the difference. *)
Definition data_header (n : node) (flags dest_addr pkt_id : Z) : bramble_header_t :=
  mk_header BRAMBLE_VERSION PKT_TYPE_DATA flags
    (flood_origination_hop_limit (nd_flood_transport n) (nd_flood_hop_limit n)) dest_addr pkt_id.
(** [buf] as it goes on air: header, source and previous hop (native little
    endian), origin MAC, nonce, ciphertext, tag, copied into an array of [cap]
    bytes. *)
Definition data_frame (cap : nat) (h : bramble_header_t) (src : Z) (mac nonce ct tag : list Z)
    : option (list Z) :=
  '(_, hdr) ← bramble_header_serialize h (replicate HEADER_SIZE 0) HEADER_SIZE;
  in_buf cap (hdr ++ le32_bytes src ++ le32_bytes src ++ mac ++ nonce ++ ct ++ tag).
(** The size of [buf] in the two senders. *)
Definition DATA_BUF_SIZE : nat := 255.

(** [i]: the slot of the active session. *)
Definition send_dm_packet (dest_addr : Z) (payload : list Z) (i : nat) : M Z :=
  let total := (BRAMBLE_DATA_ENVELOPE_PREFIX_SIZE + BRAMBLE_NONCE_SIZE + DM_RATCHET_HEADER_SIZE +
                length payload + BRAMBLE_TAG_SIZE)%nat in
  if (255 <? total)%nat then mret 0 else
  pkt_id ← next_packet_id;
  n ← get;
  let header := data_header n FLAG_ENCRYPT dest_addr pkt_id in
  nonce ← nonce_next;
  match nonce with
  | None => mret 0
  | Some nonce =>
      let src := id_address (nd_id n) in
      match dm_session_ratchet_encrypt (nd_table n !!! i) header src payload nonce with
      | (None, sess) => set_session i sess ;; mret 0
      | (Some (framed, tag), sess) =>
          ciphertext ← lift (in_buf BRAMBLE_MAX_PACKET_SIZE framed);
          set_session i sess ;;
          match data_auth_sign hmac (nd_key n) header src with
          | (rc, mac) =>
              if negb (rc =? 0) then mret 0 else
              buf ← lift (data_frame DATA_BUF_SIZE header src mac nonce ciphertext tag);
              ok ← mesh_tx buf TX_KIND_DATA;
              if negb ok then mret 0 else
              n ← get;
              '(_, acks) ← lift (pending_ack_add (nd_acks n) pkt_id dest_addr MSG_TIER_NORMAL buf
                                   total (v_now (nd_env n)));
              modify (λ n, set_acks n acks) ;;
              modify (λ n, let s := nd_table n !!! i in
                set_table n (<[i := mk_session (ss_peer_addr s) (ss_session_key s) (ss_peer_id_pub s)
                  (ss_established_ms s) (v_now (nd_env n)) (ss_msg_count s ⊕ 1) (ss_ke_epoch s)
                  (ss_state s) (ss_verified s) (ss_ratchet s)]> (nd_table n))) ;;
              mret pkt_id
          end
      end
  end.

(** [sent_at] is network time for chat messages, zero for others. *)
Definition send_data_packet (dest_addr : Z) (payload : list Z) (ch : bramble_channel_t) (app_type : Z)
    : M Z :=
  n0 ← get;
  let chat := app_type =? APP_TYPE_CHAT in
  let sent_at := if chat then u32 (v_net_s (nd_env n0)) else 0 in
  let ct_len := (CHANNEL_MSG_OVERHEAD + (if chat then CHANNEL_MSG_SENT_AT_SIZE else 0) +
                 length payload)%nat in
  let total := (BRAMBLE_DATA_ENVELOPE_PREFIX_SIZE + BRAMBLE_NONCE_SIZE + ct_len + BRAMBLE_TAG_SIZE)%nat in
  if (255 <? total)%nat then mret 0 else
  pkt_id ← next_packet_id;
  n ← get;
  let header := data_header n (Z.lor FLAG_ENCRYPT FLAG_CHANNEL) dest_addr pkt_id in
  let src := id_address (nd_id n) in
  '(_, aad) ← lift (bramble_build_aead_aad header src (replicate (HEADER_SIZE + 4) 0) (HEADER_SIZE + 4));
  nonce ← nonce_next;
  match nonce with
  | None => mret 0
  | Some nonce =>
      match channel_msg_encrypt ch src app_type sent_at payload aad nonce with
      | None => mret 0
      | Some (ct, tag) =>
          ciphertext ← lift (in_buf (BRAMBLE_MAX_PACKET_SIZE + CHANNEL_MSG_OVERHEAD +
                                     CHANNEL_MSG_SENT_AT_SIZE) ct);
          match data_auth_sign hmac (nd_key n) header src with
          | (rc, mac) =>
              if negb (rc =? 0) then mret 0 else
              buf ← lift (data_frame DATA_BUF_SIZE header src mac nonce ciphertext tag);
              ok ← mesh_tx buf (if dest_addr =? UINT32_MAX then TX_KIND_DATA_BROADCAST else TX_KIND_DATA);
              if negb ok then mret 0 else
              (if negb (dest_addr =? UINT32_MAX) then
                 n ← get;
                 '(_, acks) ← lift (pending_ack_add (nd_acks n) pkt_id dest_addr
                                      (msg_tier_for_send (app_type =? APP_TYPE_KE)) buf total
                                      (v_now (nd_env n)));
                 modify (λ n, set_acks n acks)
               else mret tt) ;;
              mret pkt_id
          end
      end
  end.

Definition send_ke_envelope (dest_addr channel_idx : Z) (ke : bramble_key_exchange_t) : M Z :=
  n ← get;
  if (channel_idx <? 0) || (channel_idx >=? Z.of_nat (length (nd_channels n))) then mret 0
  else
    '(r, wire) ← lift (bramble_key_exchange_serialize ke (replicate KEY_EXCHANGE_SIZE 0) KEY_EXCHANGE_SIZE);
    match r with
    | ESP_OK => send_data_packet dest_addr wire (nd_channels n !!! Z.to_nat channel_idx) APP_TYPE_KE
    | _ => mret 0
    end.

(** ** Pending ephemerals and the INIT cache *)

Definition dm_session_has_peer_id (s : option dm_session_t) : bool :=
  match s with None => false | Some s => existsb (λ b, negb (b =? 0)) (ss_peer_id_pub s) end.

Definition eph_for (peer_addr : Z) (e : dm_pending_eph_t) : bool :=
  pe_used e && (pe_peer_addr e =? peer_addr).
Definition pending_eph_store (eph : list dm_pending_eph_t) (peer_addr : Z) (eph_priv eph_pub : list Z)
    : list dm_pending_eph_t :=
  let idx := match find_index (eph_for peer_addr) eph with
             | Some i => Some i
             | None => find_index (λ e, negb (pe_used e)) eph
             end in
  match idx with
  | None => eph
  | Some i => <[i := mk_eph peer_addr eph_priv eph_pub true]> eph
  end.
Definition pending_eph_lookup (eph : list dm_pending_eph_t) (peer_addr : Z) : option dm_pending_eph_t :=
  i ← find_index (eph_for peer_addr) eph; eph !! i.
Definition pending_eph_clear (eph : list dm_pending_eph_t) (peer_addr : Z) : list dm_pending_eph_t :=
  match find_index (eph_for peer_addr) eph with None => eph | Some i => <[i := eph_zero]> eph end.

Definition hs_match (src_addr eph_hash ke_epoch : Z) (e : dm_hs_dedup_entry_t) : bool :=
  hs_used e && (hs_src_addr e =? src_addr) && (hs_eph_pub_hash e =? eph_hash) &&
  (hs_ke_epoch e =? ke_epoch).
(** The scan stops at the first unused entry. *)
Fixpoint hs_scan (es all : list dm_hs_dedup_entry_t) (src_addr eph_hash ke_epoch : Z) (i lru : nat)
    : option nat :=
  match es with
  | [] => Some lru
  | e :: es' =>
      if hs_match src_addr eph_hash ke_epoch e then None
      else if negb (hs_used e) then Some i
      else hs_scan es' all src_addr eph_hash ke_epoch (S i)
             (if hs_seen_ms e <? hs_seen_ms (all !!! lru) then i else lru)
  end.
Definition hs_dedup_check_and_record (es : list dm_hs_dedup_entry_t) (src_addr : Z) (eph_pub : list Z)
    (ke_epoch now : Z) : bool * list dm_hs_dedup_entry_t :=
  let eph_hash := le32_val (take 4 (crypto_sha256 eph_pub)) in
  match hs_scan es es src_addr eph_hash ke_epoch 0 0 with
  | None => (true, es)
  | Some lru => (false, <[lru := mk_hs src_addr eph_hash ke_epoch now true]> es)
  end.
End Send.

Section Handlers.
Context `{DC : DmCrypto} `{IC : IdCrypto} (hmac : list Z → list Z → list Z).

(** ** The queue of messages awaiting a session *)

Definition queued_for_uid (uid : Z) (q : queued_msg_t) : bool := qm_used q && (qm_uid q =? uid).
(** The oldest awaiting-session entry, by timestamp. *)
Definition oldest_step (queue : list queued_msg_t) (oldest : option nat) (i : nat) : option nat :=
  let q := queue !!! i in
  if qm_used q && bool_decide (qm_reason q = QUEUE_REASON_SESSION) &&
     match oldest with None => true | Some o => qm_timestamp q <? qm_timestamp (queue !!! o) end
  then Some i else oldest.
Definition oldest_session_entry (queue : list queued_msg_t) : option nat :=
  foldl (oldest_step queue) None (seq 0 (length queue)).

(** The entry's [data] is an array of [BRAMBLE_MAX_PACKET_SIZE] bytes. *)
Definition queue_put (i : nat) (dest_addr : Z) (data : list Z) (channel_idx uid : Z) : M Z :=
  pkt_id ← next_packet_id;
  data ← lift (in_buf BRAMBLE_MAX_PACKET_SIZE data);
  now ← now_ms;
  modify (λ n, set_queue n (<[i := mk_queued dest_addr data now true QUEUE_REASON_SESSION pkt_id uid
                                      channel_idx]> (nd_queue n))) ;;
  mret pkt_id.
Definition queue_session_message (dest_addr : Z) (data : list Z) (channel_idx uid : Z) : M Z :=
  queue ← gets nd_queue;
  match (if uid =? 0 then None else find_index (queued_for_uid uid) queue) with
  | Some i => mret (qm_pkt_id (queue !!! i))
  | None =>
      match find_index (λ q, negb (qm_used q)) queue with
      | Some i => queue_put i dest_addr data channel_idx uid
      | None =>
          match oldest_session_entry queue with
          | None => mret 0
          | Some o =>
              emit (DAckFailed (qm_pkt_id (queue !!! o)) "queue_full") ;;
              msgs_update_by_uid (qm_uid (queue !!! o)) 0 MSG_STATUS_FAILED ;;
              queue_put o dest_addr data channel_idx uid
          end
      end
  end.

Definition queue_release (i : nat) : M unit := modify (λ n,
  let q := nd_queue n !!! i in
  set_queue n (<[i := mk_queued (qm_dest_addr q) (qm_data q) (qm_timestamp q) false (qm_reason q)
                        (qm_pkt_id q) (qm_uid q) (qm_channel_idx q)]> (nd_queue n))).

Definition flush_session_queue (dest_addr : Z) : M unit :=
  for_each (seq 0 MAX_QUEUED_MSGS) (λ i,
    n ← get;
    let q := nd_queue n !!! i in
    if negb (qm_used q) || bool_decide (qm_reason q ≠ QUEUE_REASON_SESSION) ||
       negb (qm_dest_addr q =? dest_addr) then mret tt
    else
      pkt_id ← (match dm_lookup (nd_table n) dest_addr with
                | Some j => if dm_in_state DM_STATE_ACTIVE (nd_table n !!! j)
                            then send_dm_packet hmac dest_addr (qm_data q) j else mret 0
                | None => mret 0
                end);
      (if negb (pkt_id =? 0) then
         ok ← msgs_update_by_uid (qm_uid q) pkt_id MSG_STATUS_SENT;
         when (negb ok) (msgs_add_dm_uid dest_addr (qm_data q) pkt_id MSG_STATUS_SENT (qm_uid q))
       else
         emit (DAckFailed (qm_pkt_id q) "session_send_failed") ;;
         msgs_update_by_uid (qm_uid q) 0 MSG_STATUS_FAILED ;; mret tt) ;;
      queue_release i).

(** ** Starting a handshake *)

Definition initiate_dm_handshake (dest_addr channel_idx rekey_epoch : Z) : M unit :=
  my_eph ← crypto_generate_identity;
  match my_eph with
  | None => mret tt
  | Some my_eph =>
      n ← get;
      let peer_id_pub :=
        if rekey_epoch >? 0 then
          match dm_lookup (nd_table n) dest_addr with
          | Some i => let s := nd_table n !!! i in
                      if dm_in_state DM_STATE_ACTIVE s then Some (ss_peer_id_pub s) else None
          | None => None
          end
        else None in
      let rekey_epoch := match peer_id_pub with None => 0 | Some _ => rekey_epoch end in
      match dm_build_init (nd_id n) (id_public_key my_eph) (id_private_key my_eph) dest_addr rekey_epoch
              peer_id_pub with
      | None => mret tt
      | Some init =>
          modify (λ n, set_eph n (pending_eph_store (nd_eph n) dest_addr (id_private_key my_eph)
                                    (id_public_key my_eph))) ;;
          send_ke_envelope hmac dest_addr channel_idx init ;; mret tt
      end
  end.

Definition stamp_active (now : Z) (state : dm_state) (s : dm_session_t) : dm_session_t :=
  mk_session (ss_peer_addr s) (ss_session_key s) (ss_peer_id_pub s) (ss_established_ms s) now
    (ss_msg_count s) (ss_ke_epoch s) state (ss_verified s) (ss_ratchet s).

(** The rest of [mesh_send_dm] once a handshaking slot is held. *)
Definition await_session (channel_idx dest_addr : Z) (data : list Z) (uid : Z) (in_progress : bool)
    : M Z :=
  row_uid ← (if negb (uid =? 0) then mret uid else msgs_next_uid);
  pkt_id ← queue_session_message dest_addr data channel_idx row_uid;
  if pkt_id =? 0 then msgs_update_by_uid uid 0 MSG_STATUS_FAILED ;; mret 0
  else
    when (negb in_progress) (initiate_dm_handshake dest_addr channel_idx 0) ;;
    when (uid =? 0) (msgs_add_dm_uid dest_addr data 0 MSG_STATUS_NONE row_uid) ;;
    mret pkt_id.

Definition mesh_send_dm (channel_idx dest_addr : Z) (data : list Z) (uid : Z) : M Z :=
  if (FRAG_MAX_PLAINTEXT <? length data)%nat then
    msgs_update_by_uid uid 0 MSG_STATUS_FAILED ;; mret 0
  else
  n ← get;
  match dm_lookup (nd_table n) dest_addr with
  | Some i =>
      let sess := nd_table n !!! i in
      if dm_in_state DM_STATE_ACTIVE sess then
        pkt_id ← send_dm_packet hmac dest_addr data i;
        (if negb (pkt_id =? 0) then
           ok ← msgs_update_by_uid uid pkt_id MSG_STATUS_SENT;
           when (negb ok)
             (row ← (if uid =? 0 then msgs_next_uid else mret uid);
              msgs_add_dm_uid dest_addr data pkt_id MSG_STATUS_SENT row)
         else msgs_update_by_uid uid 0 MSG_STATUS_FAILED ;; mret tt) ;;
        mret pkt_id
      else
        let now := v_now (nd_env n) in
        let in_progress := dm_in_state DM_STATE_HANDSHAKING sess &&
                           negb (dm_handshake_is_stale (Some sess) now DM_HANDSHAKE_STALE_MS) in
        when (negb in_progress) (set_session i (stamp_active now (ss_state sess) sess)) ;;
        await_session channel_idx dest_addr data uid in_progress
  | None =>
      let now := v_now (nd_env n) in
      match dm_alloc (nd_table n) dest_addr now with
      | (None, _) => msgs_update_by_uid uid 0 MSG_STATUS_FAILED ;; mret 0
      | (Some i, t) =>
          modify (λ n, set_table n t) ;;
          set_session i (stamp_active now DM_STATE_HANDSHAKING (t !!! i)) ;;
          await_session channel_idx dest_addr data uid false
      end
  end.

(** ** The two halves of the exchange *)

(** The update of the allocated slot, the same text in [process_ke_init] and
    [process_ke_resp]: a higher epoch on an active ratcheting session chains the
    root forward, anything else installs a fresh ratchet.  [Z]: [ikm_ok]. *)
Definition establish_session (self peer now : Z) (verified : bool) (long_term_pubkey session_key : list Z)
    (ke_epoch : Z) (ikm : option (list Z)) (sess : dm_session_t) : Z * dm_session_t :=
  let is_rekey := bool_decide (is_Some ikm) && dm_in_state DM_STATE_ACTIVE sess &&
                  ch_valid (r_recv (ss_ratchet sess)) && (ke_epoch >? ss_ke_epoch sess) in
  let sess := mk_session (ss_peer_addr sess) (ss_session_key sess) long_term_pubkey now
                (ss_last_active_ms sess) 0 (ss_ke_epoch sess) DM_STATE_ACTIVE verified
                (ss_ratchet sess) in
  match ikm with
  | None => (-1, mk_session (ss_peer_addr sess) session_key (ss_peer_id_pub sess) (ss_established_ms sess)
                   (ss_last_active_ms sess) (ss_msg_count sess) ke_epoch (ss_state sess)
                   (ss_verified sess) (ss_ratchet sess))
  | Some ikm =>
      if is_rekey then dm_session_epoch_bump sess (take 32 ikm) self peer ke_epoch
      else dm_session_ratchet_init_state
             (mk_session (ss_peer_addr sess) session_key (ss_peer_id_pub sess) (ss_established_ms sess)
                (ss_last_active_ms sess) (ss_msg_count sess) ke_epoch (ss_state sess)
                (ss_verified sess) (ss_ratchet sess)) ikm self peer
  end.

(** [sess = dm_alloc(...); if (sess) ...], under the mutex: whether the slot was
    had, and [ikm_ok]. *)
Definition establish (src_addr : Z) (long_term_pubkey session_key : list Z) (ke_epoch : Z)
    (ikm : option (list Z)) : M (bool * Z) :=
  n ← get;
  let now := v_now (nd_env n) in
  match dm_alloc (nd_table n) src_addr now with
  | (None, _) => mret (false, if bool_decide (is_Some ikm) then 0 else -1)
  | (Some i, t) =>
      let '(ok, sess) := establish_session (id_address (nd_id n)) src_addr now
        (identity_store_is_verified (nd_pins n) src_addr) long_term_pubkey session_key ke_epoch ikm
        (t !!! i) in
      modify (λ n, set_table n (<[i := sess]> t)) ;; mret (true, ok)
  end.

(** The verification of an INIT with the one-sided desync recovery: whether to go on. *)
Definition accept_init (src_addr : Z) (init : bramble_key_exchange_t) (pinned : option (list Z))
    : M bool :=
  n ← get;
  let existing := (λ i, nd_table n !!! i) <$> dm_lookup (nd_table n) src_addr in
  let have_peer_id := dm_session_has_peer_id existing in
  let peer_id := if have_peer_id then ss_peer_id_pub <$> existing else None in
  vrc ← lift (dm_verify_init init (nd_id n) peer_id pinned);
  if vrc =? DM_VERIFY_ERR_PIN_MISMATCH then mret false
  else if vrc =? 0 then mret true
  else
    if have_peer_id && bool_decide (is_Some pinned) then
      ok ← dm_rehandshake_rate_ok src_addr (v_now (nd_env n));
      if negb ok then mret false
      else
        modify (λ n, set_table n (dm_session_teardown (nd_table n) src_addr).2) ;;
        vrc ← lift (dm_verify_init init (nd_id n) None pinned);
        mret (vrc =? 0)
    else mret false.

Definition process_ke_init (src_addr channel_idx : Z) (init : bramble_key_exchange_t)
    (pinned : option (list Z)) : M unit :=
  go ← accept_init src_addr init pinned;
  if negb go then mret tt else
  my_eph ← crypto_generate_identity;
  match my_eph with
  | None => mret tt
  | Some my_eph =>
      n ← get;
      let ke_epoch := u16 (ke_key_id init) in
      match dm_build_resp (nd_id n) (id_public_key my_eph) (id_private_key my_eph) init ke_epoch with
      | None => mret tt
      | Some (resp, session_key) =>
          let ikm := dm_compute_ikm (id_private_key (nd_id n)) (id_private_key my_eph)
                       (ke_long_term_pubkey init) (ke_ephemeral_pubkey init) in
          '(have_slot, ikm_ok) ← establish src_addr (ke_long_term_pubkey init) session_key ke_epoch ikm;
          if negb have_slot then mret tt
          else if negb (ikm_ok =? 0) then mret tt
          else
            send_ke_envelope hmac src_addr channel_idx resp ;;
            flush_session_queue src_addr
      end
  end.

Definition process_ke_resp (src_addr : Z) (resp : bramble_key_exchange_t) (pinned : option (list Z))
    : M unit :=
  n ← get;
  match pending_eph_lookup (nd_eph n) src_addr with
  | None => mret tt
  | Some pe =>
      let ke_epoch := u16 (ke_key_id resp) in
      '(vrc, session_key) ← lift (dm_verify_resp resp (nd_id n) (pe_eph_priv pe) (pe_eph_pub pe) ke_epoch
                                    pinned);
      if negb (vrc =? 0) then mret tt
      else
        let ikm := dm_compute_ikm (id_private_key (nd_id n)) (pe_eph_priv pe)
                     (ke_long_term_pubkey resp) (ke_ephemeral_pubkey resp) in
        '(have_slot, ikm_ok) ← establish src_addr (ke_long_term_pubkey resp) (default [] session_key)
                                 ke_epoch ikm;
        modify (λ n, set_eph n (pending_eph_clear (nd_eph n) src_addr)) ;;
        if negb have_slot then mret tt
        else if negb (ikm_ok =? 0) then mret tt
        else flush_session_queue src_addr
  end.

(** One round of [handshake_worker_task]: an empty queue blocks. *)
Definition handshake_worker_step : M unit :=
  n ← get;
  match nd_work n with
  | [] => mret tt
  | item :: rest =>
      modify (λ n, set_work n rest) ;;
      match item with
      | WkInitiate src_addr channel_idx rekey_epoch => initiate_dm_handshake src_addr channel_idx rekey_epoch
      | WkMessage src_addr channel_idx msg pinned =>
          if ke_type msg =? KE_TYPE_INIT then process_ke_init src_addr channel_idx msg pinned
          else if ke_type msg =? KE_TYPE_RESP then process_ke_resp src_addr msg pinned
          else mret tt
      end
  end.

Definition ke_blank : bramble_key_exchange_t :=
  mk_key_exchange ke_zero_header 0 (replicate 32 0) (replicate 32 0) 0 0 (replicate 16 0).
Definition handle_ke_envelope (src_addr channel_idx : Z) (data : list Z) : M unit :=
  '(r, msg) ← lift (bramble_key_exchange_deserialize ke_blank data (length data));
  match r with
  | ESP_OK =>
      n ← get;
      if negb (ke_type msg =? KE_TYPE_INIT) && negb (ke_type msg =? KE_TYPE_RESP) then mret tt
      else if negb (ke_src_addr msg =? src_addr) then mret tt
      else if src_addr =? id_address (nd_id n) then mret tt
      else
        dup ← (if ke_type msg =? KE_TYPE_INIT then
                 λ n, let '(dup, es) := hs_dedup_check_and_record (nd_hs n) src_addr
                                          (ke_ephemeral_pubkey msg) (u16 (ke_key_id msg))
                                          (v_now (nd_env n)) in
                      Some (dup, set_hs n es)
               else mret false);
        if dup : bool then mret tt
        else
          let pinned := pin_x25519_pub <$> identity_store_lookup (nd_pins n) src_addr in
          work_send (WkMessage src_addr channel_idx msg pinned) ;; mret tt
  | _ => mret tt
  end.
End Handlers.
