(* ===== verification/MeshDmSpec.v ===== *)
(** * What the direct-message handlers promise

    Total-correctness triples over the handlers' monad, the invariant of the node
    and the theorems about sessions, pins, queued messages and stalls. *)

From Stdlib Require Import Sorting.Sorted.
From stdpp Require Import base strings numbers sets option decidable list.
From S2P Require Import Prelude Tables Packet PacketSpec NetworkKey RoutingAuth TxGate Reliability.
From S2P Require Import Routing ChannelFlood Fragment DmCrypto DmRatchet DmTable Identity IdentityStore.
From S2P Require Import Channel MsgStore MeshDm.

(** ** Triples

    [wp m n Q]: from [n] the handler returns, and [Q] holds of its result and the
    node it leaves. *)
Definition wp {A} (m : M A) (n : node) (Q : A → node → Prop) : Prop :=
  match m n with Some (x, n') => Q x n' | None => False end.

Lemma wp_ret {A} (x : A) n (Q : A → node → Prop) : Q x n → wp (mret x) n Q.
Proof. done. Qed.
Lemma wp_bind {A B} (m : M A) (k : A → M B) n (Q : B → node → Prop) :
  wp m n (λ x n', wp (k x) n' Q) → wp (m ≫= k) n Q.
Proof. unfold wp, mbind, M_bind. destruct (m n) as [[x n']|]; done. Qed.
Lemma wp_mono {A} (m : M A) n (Q Q' : A → node → Prop) :
  wp m n Q → (∀ x n', Q x n' → Q' x n') → wp m n Q'.
Proof. unfold wp. destruct (m n) as [[x n']|]; [|done]. intros H HQ. by apply HQ. Qed.
Lemma wp_elim {A} (m : M A) n (Q : A → node → Prop) : wp m n Q → ∃ x n', m n = Some (x, n') ∧ Q x n'.
Proof. unfold wp. destruct (m n) as [[x n']|]; [|done]. eauto. Qed.
Lemma wp_get n (Q : node → node → Prop) : Q n n → wp get n Q.
Proof. done. Qed.
Lemma wp_gets {A} (f : node → A) n (Q : A → node → Prop) : Q (f n) n → wp (gets f) n Q.
Proof. done. Qed.
Lemma wp_modify f n (Q : unit → node → Prop) : Q tt (f n) → wp (modify f) n Q.
Proof. done. Qed.
Lemma wp_lift {A} (o : option A) x n (Q : A → node → Prop) : o = Some x → Q x n → wp (lift o) n Q.
Proof. unfold wp, lift. by intros ->. Qed.
Lemma wp_when b m n (Q : unit → node → Prop) :
  (b = true → wp m n Q) → (b = false → Q tt n) → wp (when b m) n Q.
Proof. unfold when. destruct b; intros H1 H2; [by apply H1|]. apply wp_ret. by apply H2. Qed.
Lemma wp_for_each {A} (l : list A) (f : A → M unit) (I : node → Prop) n :
  I n → (∀ x n, x ∈ l → I n → wp (f x) n (λ _ n', I n')) → wp (for_each l f) n (λ _ n', I n').
Proof.
  revert n. induction l as [|x l IH]; intros n Hn Hf; cbn [for_each]; [by apply wp_ret|].
  apply wp_bind. eapply wp_mono; [apply Hf; [left|done]|]. intros [] n' Hn'.
  apply IH; [done|]. intros y m Hy. apply Hf. by right.
Qed.

(** ** Well-formed nodes *)

Definition env_ok (v : dm_env) : Prop :=
  Forall (λ o, ∀ b, o = Some b → length b = 12%nat) (v_nonce v) ∧
  Forall (λ o, ∀ g, o = Some g → length (id_public_key g) = 32%nat) (v_gen v).

(** The parts no handler of this file changes. *)
Definition static_eq (n n' : node) : Prop :=
  nd_id n' = nd_id n ∧ nd_key n' = nd_key n ∧ nd_channels n' = nd_channels n ∧
  nd_pins n' = nd_pins n ∧ nd_neighbors n' = nd_neighbors n ∧
  v_now (nd_env n') = v_now (nd_env n) ∧ (env_ok (nd_env n) → env_ok (nd_env n')).
(** Splits conjunctions of field equalities and closes the trivial ones. *)
Ltac fields :=
  repeat match goal with |- _ ∧ _ => split end; try done.

#[global] Instance static_eq_po : PreOrder static_eq.
Proof.
  split; unfold static_eq.
  - intros n. fields.
  - intros a b c (? & ? & ? & ? & ? & ? & Hab) (? & ? & ? & ? & ? & ? & Hbc).
    fields; try congruence. auto.
Qed.

(** A transmission or a row update: sessions and handshake state stay. *)
Definition quiet (n n' : node) : Prop :=
  static_eq n n' ∧ nd_table n' = nd_table n ∧ nd_rehs n' = nd_rehs n ∧ nd_eph n' = nd_eph n ∧
  nd_hs n' = nd_hs n ∧ nd_queue n' = nd_queue n ∧ nd_work n' = nd_work n.
#[global] Instance quiet_po : PreOrder quiet.
Proof.
  split; unfold quiet.
  - intros n. fields.
  - intros a b c (Hab & ? & ? & ? & ? & ? & ?) (Hbc & ? & ? & ? & ? & ? & ?).
    split; [by transitivity b|]. fields; congruence.
Qed.
(** A step that leaves every field but the environment, the acknowledgement
    table, the message store and the output. *)
Ltac quiet_step := unfold quiet, static_eq; fields.

Create HintDb dm.
Lemma quiet_static n n' : quiet n n' → static_eq n n'.
Proof. by intros [? _]. Qed.
#[export] Hint Resolve quiet_static : dm.

Lemma Forall_tail {A} (P : A → Prop) l : Forall P l → Forall P (tail l).
Proof. by destruct 1. Qed.

Lemma wp_mesh_tx f k n : wp (mesh_tx f k) n (λ _ n', quiet n n').
Proof. unfold wp, mesh_tx. quiet_step. Qed.
Lemma wp_now n (Q : Z → node → Prop) : Q (v_now (nd_env n)) n → wp now_ms n Q.
Proof. done. Qed.
Lemma wp_generate n :
  wp crypto_generate_identity n (λ r n', quiet n n' ∧
    (env_ok (nd_env n) → ∀ g, r = Some g → length (id_public_key g) = 32%nat)).
Proof.
  unfold wp, crypto_generate_identity. split.
  - quiet_step. intros [H1 H2]. split; [done|by apply Forall_tail].
  - intros [_ Hg] g. destruct (v_gen (nd_env n)) as [|g0 gs]; [done|]. inv_Forall. auto.
Qed.
Lemma wp_nonce n :
  wp nonce_next n (λ r n', quiet n n' ∧
    (env_ok (nd_env n) → ∀ b, r = Some b → length b = 12%nat)).
Proof.
  unfold wp, nonce_next. split.
  - quiet_step. intros [H1 H2]. split; [by apply Forall_tail|done].
  - intros [Hg _] g. destruct (v_nonce (nd_env n)) as [|g0 gs]; [done|]. inv_Forall. auto.
Qed.
Lemma wp_packet_id n : wp next_packet_id n (λ _ n', quiet n n').
Proof. unfold wp, next_packet_id. destruct (nd_counter n =? 0); quiet_step. Qed.
Lemma wp_update_by_uid u p st n : wp (msgs_update_by_uid u p st) n (λ _ n', quiet n n').
Proof.
  unfold wp, msgs_update_by_uid. destruct (msg_store_update_by_uid _ _ _ _) as [[ok s] ps].
  quiet_step.
Qed.
Lemma wp_next_uid n : wp msgs_next_uid n (λ _ n', quiet n n').
Proof. unfold wp, msgs_next_uid. destruct (msg_store_next_uid _) as [u s]. quiet_step. Qed.
Lemma wp_add_dm p t i st u n : wp (msgs_add_dm_uid p t i st u) n (λ _ n', quiet n n').
Proof. unfold wp, msgs_add_dm_uid. destruct (msg_store_add_dm_uid _ _ _ _ _ _ _ _ _ _). quiet_step. Qed.
Lemma wp_emit e n : wp (emit e) n (λ _ n', quiet n n').
Proof. unfold wp, emit, modify. quiet_step. Qed.
Lemma wp_rate p t n :
  wp (dm_rehandshake_rate_ok p t) n (λ ok n', static_eq n n' ∧ nd_table n' = nd_table n ∧
    nd_eph n' = nd_eph n ∧ nd_hs n' = nd_hs n ∧ nd_queue n' = nd_queue n ∧ nd_work n' = nd_work n ∧
    (ok, nd_rehs n') = dm_rehandshake_rate_ok_at (nd_rehs n) p t).
Proof. unfold wp, dm_rehandshake_rate_ok. destruct (dm_rehandshake_rate_ok_at _ _ _). quiet_step. Qed.
Lemma wp_work i n :
  wp (work_send i) n (λ ok n', static_eq n n' ∧ nd_table n' = nd_table n ∧ nd_rehs n' = nd_rehs n ∧
    nd_eph n' = nd_eph n ∧ nd_hs n' = nd_hs n ∧ nd_queue n' = nd_queue n ∧
    (nd_work n' = nd_work n ∧ ok = false ∨
     nd_work n' = nd_work n ++ [i] ∧ ok = true ∧ (length (nd_work n) < HANDSHAKE_WORK_QUEUE_LEN)%nat)).
Proof.
  unfold wp, work_send. destruct (_ <? _)%nat eqn:E.
  - apply Nat.ltb_lt in E. quiet_step. right. done.
  - quiet_step. by left.
Qed.

(** Runs a step whose result is only known to be quiet. *)
Ltac wp_quiet L :=
  apply wp_bind; eapply wp_mono; [apply L|]; let Hq := fresh "Hq" in intros ? ? Hq; cbv beta.

(** ** Senders *)

Section Specs.
Context `{DC : DmCrypto} `{DL : !DmCryptoLaws} `{IC : IdCrypto} (hmac : list Z → list Z → list Z)
  `{HL : !HmacLaws hmac}.

Lemma data_frame_total cap h src mac nonce ct tag :
  (20 + length mac + length nonce + length ct + length tag ≤ cap)%nat →
  ∃ buf, data_frame cap h src mac nonce ct tag = Some buf ∧
    length buf = (20 + length mac + length nonce + length ct + length tag)%nat.
Proof.
  intros Hcap. unfold data_frame. rewrite header_serialize_spec by (by rewrite ?length_replicate).
  cbn [mbind option_bind].
  rewrite filled_exact by (by rewrite length_header_bytes, length_replicate).
  match goal with |- context [in_buf cap ?b] =>
    assert (Hl : length b = (20 + length mac + length nonce + length ct + length tag)%nat) end.
  { rewrite !length_app, length_header_bytes. cbn [le32_bytes length]. unfold HEADER_SIZE. lia. }
  rewrite in_buf_fits by lia. eauto.
Qed.

Lemma pending_ack_add_total table id dest tier packet len now :
  (len ≤ length packet)%nat → is_Some (pending_ack_add table id dest tier packet len now).
Proof.
  intros Hl. unfold pending_ack_add. destruct (find_index _ table) as [i|]; [|eauto].
  apply bind_is_Some; [|eauto]. case_decide as Hs; [|eauto].
  apply bind_is_Some.
  - apply rdn_is_Some. case_decide; lia.
  - intros bs Hb. apply rdn_inv in Hb as (_ & Hb & _).
    destruct (wr_is_Some (pa_packet_data (table !!! i)) 0 bs) as (b' & -> & _); [|eauto].
    case_decide; lia.
Qed.

(** What sending does to the session it uses. *)
Definition same_session (s s' : dm_session_t) : Prop :=
  ss_peer_addr s' = ss_peer_addr s ∧ ss_session_key s' = ss_session_key s ∧
  ss_peer_id_pub s' = ss_peer_id_pub s ∧ ss_established_ms s' = ss_established_ms s ∧
  ss_ke_epoch s' = ss_ke_epoch s ∧ ss_state s' = ss_state s ∧ ss_verified s' = ss_verified s ∧
  r_rk (ss_ratchet s') = r_rk (ss_ratchet s).
Lemma same_session_refl s : same_session s s.
Proof. unfold same_session. fields. Qed.

Lemma ratchet_encrypt_same s h src pt nonce :
  same_session s (dm_session_ratchet_encrypt s h src pt nonce).2.
Proof.
  unfold dm_session_ratchet_encrypt. repeat split_if; try apply same_session_refl.
  destruct (dm_ratchet_step _ _) as [[mk ckn]|]; [|apply same_session_refl].
  destruct (dm_base_aad h src); [|apply same_session_refl].
  destruct (crypto_aes256gcm_encrypt _ _ _ _) as [[ct tag]|]; [|apply same_session_refl].
  unfold same_session. fields.
Qed.

Lemma ratchet_encrypt_length s h src pt nonce framed tag :
  (dm_session_ratchet_encrypt s h src pt nonce).1 = Some (framed, tag) →
  length framed = (3 + length pt)%nat ∧ length tag = 16%nat.
Proof.
  unfold dm_session_ratchet_encrypt. repeat split_if; try done.
  destruct (dm_ratchet_step _ _) as [[mk ckn]|]; [|done].
  destruct (dm_base_aad h src); [|done].
  destruct (crypto_aes256gcm_encrypt _ _ _ _) as [[ct tg]|] eqn:E; [|done].
  cbn [fst]. intros Heq. apply gcm_length in E as [E1 E2]. injection Heq as <- <-.
  cbn [length]. rewrite E1. done.
Qed.

(** Apart from the session in slot [i], quiet. *)
Definition used_session (i : nat) (n n' : node) : Prop :=
  static_eq n n' ∧ nd_rehs n' = nd_rehs n ∧ nd_eph n' = nd_eph n ∧ nd_hs n' = nd_hs n ∧
  nd_queue n' = nd_queue n ∧ nd_work n' = nd_work n ∧
  ∃ s s', nd_table n !! i = Some s ∧ nd_table n' = <[i := s']> (nd_table n) ∧ same_session s s'.

Lemma quiet_used i n n' : is_Some (nd_table n !! i) → quiet n n' → used_session i n n'.
Proof.
  intros [s Hs] (J0 & Ht & ? & ? & ? & ? & ?). unfold used_session. fields.
  exists s, s. rewrite Ht, list_insert_id by done. split; [done|]. split; [done|apply same_session_refl].
Qed.
Lemma used_quiet_l i n n1 n' : quiet n n1 → used_session i n1 n' → used_session i n n'.
Proof.
  intros (J0 & Ht & ? & ? & ? & ? & ?) (G0 & ? & ? & ? & ? & ? & s & s' & Hs & Ht' & Hss).
  unfold used_session. split; [by transitivity n1|]. rewrite Ht in Hs, Ht'. fields; try congruence. eauto.
Qed.
Lemma used_quiet_r i n n1 n' : used_session i n n1 → quiet n1 n' → used_session i n n'.
Proof.
  intros (G0 & ? & ? & ? & ? & ? & s & s' & Hs & Ht' & Hss) (J0 & Ht & ? & ? & ? & ? & ?).
  unfold used_session. split; [by transitivity n1|]. rewrite Ht'  in Ht. fields; try congruence. eauto.
Qed.

Lemma send_dm_packet_spec dest payload i n :
  env_ok (nd_env n) → is_Some (nd_table n !! i) →
  wp (send_dm_packet hmac dest payload i) n (λ _ n', used_session i n n').
Proof.
  intros Henv Hi. unfold send_dm_packet. split_if; [apply wp_ret, quiet_used; [done|reflexivity]|].
  apply Nat.ltb_ge in Heqb. apply wp_bind. eapply wp_mono; [apply wp_packet_id|]. intros pkt n1 Hq1.
  cbv beta. assert (Hi1 : is_Some (nd_table n1 !! i)) by (destruct Hq1 as (_ & -> & _); done).
  apply wp_bind, wp_get. apply wp_bind. eapply wp_mono; [apply wp_nonce|]. intros nonce n2 [Hq2 Hn].
  assert (Hq : quiet n n2) by (by transitivity n1).
  destruct nonce as [nonce|]; [|by apply wp_ret, quiet_used].
  specialize (Hn (proj2 (proj2 (proj2 (proj2 (proj2 (proj2 (proj1 Hq1)))))) Henv) nonce eq_refl).
  assert (Ht2 : nd_table n1 = nd_table n2) by (by destruct Hq2 as (_ & -> & _)). rewrite Ht2.
  destruct Hi1 as [s Hs]. rewrite Ht2 in Hs. rewrite (list_lookup_total_correct _ _ _ Hs).
  pose proof (ratchet_encrypt_same s (data_header n1 FLAG_ENCRYPT dest pkt) (id_address (nd_id n1))
    payload nonce) as Hsame.
  pose proof (ratchet_encrypt_length s (data_header n1 FLAG_ENCRYPT dest pkt) (id_address (nd_id n1))
    payload nonce) as Hlen.
  assert (Hset : ∀ s', same_session s s' → used_session i n (set_table n2 (<[i := s']> (nd_table n2)))).
  { intros s' Hs'. apply (used_quiet_l _ _ n2); [done|]. unfold used_session, static_eq. fields. eauto. }
  destruct (dm_session_ratchet_encrypt _ _ _ _ _) as [[[framed tag]|] s']; cbn [fst snd] in *.
  2: { apply wp_bind, wp_modify, wp_ret. by apply Hset. }
  destruct (Hlen _ _ eq_refl) as [Hf Htag].
  unfold BRAMBLE_DATA_ENVELOPE_PREFIX_SIZE, HEADER_SIZE, BRAMBLE_NONCE_SIZE, DM_RATCHET_HEADER_SIZE,
    BRAMBLE_TAG_SIZE in Heqb.
  apply wp_bind. eapply wp_lift; [apply in_buf_fits; unfold BRAMBLE_MAX_PACKET_SIZE; lia|].
  apply wp_bind, wp_modify.
  pose proof (mac_length hmac (nd_key n1) data_label
    (data_build_auth_buf (data_header n1 FLAG_ENCRYPT dest pkt) (id_address (nd_id n1)))) as Hmac.
  unfold data_auth_sign. destruct (network_key_mac _ _ _ _) as [rc mac]. cbn [snd] in Hmac.
  destruct (rc =? 0); cbn [negb]; [|by apply wp_ret, Hset].
  destruct (data_frame_total DATA_BUF_SIZE (data_header n1 FLAG_ENCRYPT dest pkt) (id_address (nd_id n1)) mac
    nonce framed tag) as (buf & Hbuf & Hbl).
  { rewrite Hmac, Hn, Hf, Htag. unfold DATA_BUF_SIZE. lia. }
  apply wp_bind. eapply wp_lift; [exact Hbuf|]. apply wp_bind.
  eapply wp_mono; [apply wp_mesh_tx|]. intros ok n3 Hq3. cbv beta.
  pose proof (used_quiet_r _ _ _ _ (Hset s' Hsame) Hq3) as Hu3.
  destruct ok; cbn [negb]; [|by apply wp_ret].
  apply wp_bind, wp_get. apply wp_bind.
  destruct (pending_ack_add_total (nd_acks n3) pkt dest MSG_TIER_NORMAL buf
    (BRAMBLE_DATA_ENVELOPE_PREFIX_SIZE + BRAMBLE_NONCE_SIZE + DM_RATCHET_HEADER_SIZE + length payload +
     BRAMBLE_TAG_SIZE) (v_now (nd_env n3))) as [[r acks] Ha].
  { rewrite Hbl, Hmac, Hn, Hf, Htag. unfold BRAMBLE_DATA_ENVELOPE_PREFIX_SIZE, HEADER_SIZE,
      BRAMBLE_NONCE_SIZE, DM_RATCHET_HEADER_SIZE, BRAMBLE_TAG_SIZE. lia. }
  eapply wp_lift; [exact Ha|]. apply wp_bind, wp_modify. apply wp_bind, wp_modify, wp_ret.
  destruct Hu3 as (G0 & ? & ? & ? & ? & ? & s0 & s1 & Hs0 & Ht3 & Hss).
  unfold used_session. cbn [set_table set_acks nd_table nd_rehs nd_eph nd_hs nd_queue nd_work].
  fields. exists s0. rewrite Ht3. rewrite list_insert_insert_eq.
  rewrite list_lookup_total_insert_eq by (by eapply lookup_lt_Some).
  eexists. split; [done|]. split; [done|]. unfold same_session in *. cbn.
  destruct Hss as (? & ? & ? & ? & ? & ? & ? & ?). fields.
Qed.

Lemma channel_encrypt_length ch src ty sent_at data aad nonce ct tag :
  channel_msg_encrypt ch src ty sent_at data aad nonce = Some (ct, tag) →
  length ct = (CHANNEL_MSG_OVERHEAD +
    (if (ty =? APP_TYPE_CHAT)%Z then CHANNEL_MSG_SENT_AT_SIZE else 0) + length data)%nat ∧
  length tag = 16%nat.
Proof.
  unfold channel_msg_encrypt. cbn zeta. split_if; [done|]. intros [Hl Ht]%gcm_length.
  split; [|done]. rewrite Hl. unfold channel_plaintext. rewrite !length_app.
  by destruct (ty =? APP_TYPE_CHAT).
Qed.

Lemma env_ok_quiet n n' : quiet n n' → env_ok (nd_env n) → env_ok (nd_env n').
Proof. by intros ((_ & _ & _ & _ & _ & _ & H) & _). Qed.

Lemma send_data_packet_spec dest payload ch ty n :
  env_ok (nd_env n) → wp (send_data_packet hmac dest payload ch ty) n (λ _ n', quiet n n').
Proof.
  intros Henv. unfold send_data_packet. apply wp_bind, wp_get. cbn zeta.
  split_if; [by apply wp_ret|]. apply Nat.ltb_ge in Heqb.
  apply wp_bind. eapply wp_mono; [apply wp_packet_id|].
  intros pkt n1 Hq1. cbv beta. apply wp_bind, wp_get. apply wp_bind.
  eapply wp_lift; [apply build_aead_aad_spec; by rewrite ?length_replicate|].
  apply wp_bind. eapply wp_mono; [apply wp_nonce|]. intros nonce n2 [Hq2 Hn].
  assert (Hq : quiet n n2) by (by transitivity n1).
  destruct nonce as [nonce|]; [|by apply wp_ret].
  specialize (Hn (env_ok_quiet _ _ Hq1 Henv) nonce eq_refl).
  destruct (channel_msg_encrypt _ _ _ _ _ _ _) as [[ct tag]|] eqn:Ee; [|by apply wp_ret].
  apply channel_encrypt_length in Ee as [Hct Htag]. rewrite <- Hct in Heqb.
  unfold BRAMBLE_DATA_ENVELOPE_PREFIX_SIZE, HEADER_SIZE, BRAMBLE_NONCE_SIZE, BRAMBLE_TAG_SIZE in Heqb.
  apply wp_bind. eapply wp_lift; [apply in_buf_fits; unfold BRAMBLE_MAX_PACKET_SIZE; lia|].
  set (h := data_header n1 _ _ _). set (src := id_address _).
  pose proof (mac_length hmac (nd_key n1) data_label (data_build_auth_buf h src)) as Hmac.
  unfold data_auth_sign. destruct (network_key_mac _ _ _ _) as [rc mac]. cbn [snd] in Hmac.
  destruct (rc =? 0); cbn [negb]; [|by apply wp_ret].
  destruct (data_frame_total DATA_BUF_SIZE h src mac nonce ct tag) as (buf & Hbuf & Hbl).
  { rewrite Hmac, Hn, Htag. unfold DATA_BUF_SIZE. lia. }
  apply wp_bind. eapply wp_lift; [exact Hbuf|]. apply wp_bind.
  eapply wp_mono; [apply wp_mesh_tx|]. intros ok n3 Hq3. cbv beta.
  assert (Hq' : quiet n n3) by (by transitivity n2).
  destruct ok; cbn [negb]; [|by apply wp_ret].
  apply wp_bind. destruct (dest =? UINT32_MAX); cbn [negb]; [by apply wp_ret, wp_ret|].
  apply wp_bind, wp_get. apply wp_bind.
  set (len := (_ + _ + _ + _)%nat). set (tier := msg_tier_for_send _).
  destruct (pending_ack_add_total (nd_acks n3) pkt dest tier buf len (v_now (nd_env n3)))
    as [[r acks] Ha].
  { rewrite Hbl, Hmac, Hn, Hct, Htag. unfold len, BRAMBLE_DATA_ENVELOPE_PREFIX_SIZE, HEADER_SIZE,
      BRAMBLE_NONCE_SIZE, BRAMBLE_TAG_SIZE. lia. }
  eapply wp_lift; [exact Ha|]. apply wp_modify, wp_ret. exact Hq'.
Qed.

Lemma send_ke_envelope_spec dest idx ke n :
  env_ok (nd_env n) → ke_ok ke → wp (send_ke_envelope hmac dest idx ke) n (λ _ n', quiet n n').
Proof.
  intros Henv Hke. unfold send_ke_envelope. apply wp_bind, wp_get.
  split_if; [by apply wp_ret|]. apply wp_bind.
  destruct (ke_roundtrip ke (replicate KEY_EXCHANGE_SIZE 0) KEY_EXCHANGE_SIZE ke) as (w & _ & Hs & _);
    [done|lia|by rewrite length_replicate|].
  eapply wp_lift; [exact Hs|]. by apply send_data_packet_spec.
Qed.

(** ** Frames the handshake builds *)

Definition id_ok (i : bramble_identity_t) : Prop :=
  is_u32 (id_address i) ∧ length (id_public_key i) = 32%nat.

Lemma ke_zero_header_ok : header_ok ke_zero_header.
Proof. vm_compute. repeat split; discriminate. Qed.

Lemma build_init_ok my_id eph_pub eph_priv peer e pk init :
  id_ok my_id → length eph_pub = 32%nat →
  dm_build_init my_id eph_pub eph_priv peer e pk = Some init → ke_ok init.
Proof.
  intros [Ha Hp] He. unfold dm_build_init. destruct pk as [pk|].
  - intros (? & _ & (? & _ & (tag & Ht & [= <-])%bind_Some)%bind_Some)%bind_Some.
    apply ke_tag_length in Ht as [Hl _].
    split; [apply ke_zero_header_ok|]. fields; first [apply u8_range|vm_compute; fields].
  - intros [= <-]. split; [apply ke_zero_header_ok|]. fields; first [apply u8_range|vm_compute; fields].
Qed.

Lemma build_resp_ok my_id eph_pub eph_priv init e resp k :
  id_ok my_id → length eph_pub = 32%nat →
  dm_build_resp my_id eph_pub eph_priv init e = Some (resp, k) → ke_ok resp.
Proof.
  intros [Ha Hp] He. unfold dm_build_resp.
  intros (? & _ & (? & _ & (tag & Ht & [= <- <-])%bind_Some)%bind_Some)%bind_Some.
  apply ke_tag_length in Ht as [Hl _].
  split; [apply ke_zero_header_ok|]. fields; first [apply u8_range|vm_compute; fields].
Qed.

(** ** Tables that agree but for sending *)

Lemma same_session_trans a b c : same_session a b → same_session b c → same_session a c.
Proof.
  unfold same_session. intros (? & ? & ? & ? & ? & ? & ? & ?) (? & ? & ? & ? & ? & ? & ? & ?).
  fields; congruence.
Qed.
Definition same_table (t t' : dm_table_t) : Prop := Forall2 same_session t t'.
#[global] Instance same_table_po : PreOrder same_table.
Proof.
  split.
  - intros t. apply Forall_Forall2_diag, list.Forall_forall. intros s _. apply same_session_refl.
  - intros a b c H1. revert c. induction H1 as [|x y a b Hxy _ IH]; intros c H2;
      inversion_clear H2; constructor; [by eapply same_session_trans|by apply IH].
Qed.
Lemma same_table_insert t i s s' :
  t !! i = Some s → same_session s s' → same_table t (<[i := s']> t).
Proof.
  intros Hi Hs. rewrite <- (list_insert_id t i s Hi) at 1.
  apply Forall2_insert; [reflexivity|done].
Qed.

Lemma same_table_lookup t t' i s' :
  same_table t t' → t' !! i = Some s' → ∃ s, t !! i = Some s ∧ same_session s s'.
Proof. intros H Hi. eapply Forall2_lookup_r; eauto. Qed.

Lemma same_table_find (f : dm_session_t → bool) t t' :
  (∀ s s', same_session s s' → f s' = f s) → same_table t t' → find_index f t' = find_index f t.
Proof.
  intros Hf. induction 1 as [|s s' t t' Hs Ht IH]; cbn [find_index]; [done|].
  rewrite (Hf _ _ Hs), IH. done.
Qed.
Lemma same_table_dm_lookup t t' p : same_table t t' → dm_lookup t' p = dm_lookup t p.
Proof.
  apply same_table_find. intros s s' (Hp & _ & _ & _ & _ & Hst & _).
  unfold slot_for_peer, dm_in_state. by rewrite Hp, Hst.
Qed.
Lemma same_table_handshaking t t' :
  same_table t t' → handshaking_count t' = handshaking_count t.
Proof.
  unfold handshaking_count. induction 1 as [|s s' t t' Hs Ht IH]; [done|].
  destruct Hs as (_ & _ & _ & _ & _ & Hst & _). rewrite !list.filter_cons, Hst.
  case_decide; cbn [length]; by rewrite IH.
Qed.
Lemma same_table_ok t t' : same_table t t' → dm_table_ok t → dm_table_ok t'.
Proof.
  intros H [Hl Hu]. split; [rewrite <- Hl; symmetry; by eapply Forall2_length|].
  intros i j s s' Hi Hj H1 H2 He.
  destruct (same_table_lookup _ _ _ _ H Hi) as (u & Hui & Pu & _ & _ & _ & _ & Su & _).
  destruct (same_table_lookup _ _ _ _ H Hj) as (v & Hvj & Pv & _ & _ & _ & _ & Sv & _).
  eapply Hu; [exact Hui|exact Hvj|congruence..].
Qed.

(** ** The node's invariant *)

Definition msg_ok (m : bramble_key_exchange_t) : Prop :=
  length (ke_auth_tag m) = 16%nat ∧ Forall is_u8 (ke_auth_tag m).
Definition work_ok (w : dm_handshake_work_item_t) : Prop :=
  match w with WkInitiate _ _ _ => True | WkMessage _ _ m _ => msg_ok m end.
Definition node_ok (n : node) : Prop :=
  env_ok (nd_env n) ∧ id_ok (nd_id n) ∧ dm_table_ok (nd_table n) ∧
  (handshaking_count (nd_table n) ≤ DM_MAX_HANDSHAKING)%nat ∧
  length (nd_eph n) = DM_MAX_HANDSHAKING ∧ length (nd_queue n) = MAX_QUEUED_MSGS ∧
  length (nd_hs n) = DM_HS_DEDUP_MAX ∧ (length (nd_work n) ≤ HANDSHAKE_WORK_QUEUE_LEN)%nat ∧
  Forall work_ok (nd_work n).

(** Sends and queue updates only. *)
Definition talks (n n' : node) : Prop :=
  static_eq n n' ∧ same_table (nd_table n) (nd_table n') ∧ nd_rehs n' = nd_rehs n ∧
  nd_eph n' = nd_eph n ∧ nd_hs n' = nd_hs n ∧ nd_work n' = nd_work n ∧
  length (nd_queue n') = length (nd_queue n).
#[global] Instance talks_po : PreOrder talks.
Proof.
  split; unfold talks.
  - intros n. split; [reflexivity|]. split; [reflexivity|]. fields.
  - intros a b c (J1 & J2 & ? & ? & ? & ? & ?) (J3 & J4 & ? & ? & ? & ? & ?).
    split; [by transitivity b|]. split; [by transitivity (nd_table b)|]. fields; congruence.
Qed.
Lemma quiet_talks n n' : quiet n n' → talks n n'.
Proof.
  intros (J & Ht & ? & ? & ? & Hq & ?). unfold talks. rewrite Ht, Hq.
  split; [done|]. split; [reflexivity|]. fields.
Qed.
Lemma used_talks i n n' : used_session i n n' → talks n n'.
Proof.
  intros (J & ? & ? & ? & Hq & ? & s & s' & Hs & Ht & Hss). unfold talks. rewrite Ht, Hq.
  split; [done|]. split; [by eapply same_table_insert|]. fields.
Qed.
Lemma talks_ok n n' : talks n n' → node_ok n → node_ok n'.
Proof.
  intros ((Hid & _ & _ & _ & _ & _ & Henv) & Ht & _ & He & Hh & Hw & Hq) (O1 & O2 & O3 & O4 & O5 & O6 & O7 & O8 & O9).
  unfold node_ok. rewrite Hid, He, Hh, Hw, Hq. rewrite (same_table_handshaking _ _ Ht). fields; [by apply Henv|].
  by eapply same_table_ok.
Qed.
Lemma wp_talks {A} (m : M A) n (Q : A → node → Prop) n1 :
  talks n n1 → wp m n1 (λ _ n', talks n1 n') → wp m n1 (λ _ n', talks n n').
Proof. intros Ht Hm. eapply wp_mono; [exact Hm|]. intros x n' H. by transitivity n1. Qed.

Lemma queue_release_spec i n : wp (queue_release i) n (λ _ n', talks n n').
Proof.
  unfold queue_release. apply wp_modify. unfold talks, static_eq. cbn [set_queue nd_queue nd_table].
  split; [fields|]. split; [reflexivity|]. fields. by rewrite length_insert.
Qed.

Lemma dm_lookup_is_Some t p j : dm_lookup t p = Some j → is_Some (t !! j).
Proof. intros (s & Hs & _)%dm_lookup_Some. eauto. Qed.

Lemma flush_session_queue_spec dest n :
  node_ok n → wp (flush_session_queue hmac dest) n (λ _ n', talks n n').
Proof.
  intros Hok. unfold flush_session_queue. apply (wp_for_each _ _ (talks n)); [reflexivity|].
  intros i n1 _ Ht. pose proof (talks_ok _ _ Ht Hok) as Hok1.
  apply wp_bind, wp_get. cbn zeta. split_if; [by apply wp_ret|]. apply wp_bind.
  set (q := nd_queue n1 !!! i).
  assert (Hsend : wp (match dm_lookup (nd_table n1) dest with
                | Some j => if dm_in_state DM_STATE_ACTIVE (nd_table n1 !!! j)
                            then send_dm_packet hmac dest (qm_data q) j else mret 0
                | None => mret 0
                end) n1 (λ _ n', talks n1 n')).
  { destruct (dm_lookup (nd_table n1) dest) as [j|] eqn:El; [|apply wp_ret; reflexivity].
    split_if; [|apply wp_ret; reflexivity].
    eapply wp_mono; [apply send_dm_packet_spec; [apply Hok1|by eapply dm_lookup_is_Some]|].
    intros r n2 Hu. exact (used_talks _ _ _ Hu). }
  eapply wp_mono; [exact Hsend|]. intros pkt n2 Ht2. cbv beta.
  apply wp_bind. eapply (wp_mono _ _ (λ _ n3, talks n n3)).
  { destruct (pkt =? 0); cbn [negb].
    - apply wp_bind. eapply wp_mono; [apply wp_emit|]. intros [] n3 H3%quiet_talks.
      apply wp_bind. eapply wp_mono; [apply wp_update_by_uid|]. intros b n4 H4%quiet_talks.
      apply wp_ret. transitivity n1; [done|]. transitivity n2; [done|]. by transitivity n3.
    - apply wp_bind. eapply wp_mono; [apply wp_update_by_uid|]. intros b n3 H3%quiet_talks.
      assert (talks n n3) by (transitivity n1; [done|]; by transitivity n2).
      apply wp_when; intros _; [|done].
      eapply wp_mono; [apply wp_add_dm|]. intros [] n4 H4%quiet_talks. by transitivity n3. }
  intros [] n3 H3. eapply wp_mono; [apply queue_release_spec|]. intros [] n4 H4. by transitivity n3.
Qed.

(** ** Starting handshakes *)

Lemma length_eph_store eph p priv pub : length (pending_eph_store eph p priv pub) = length eph.
Proof.
  unfold pending_eph_store. destruct (find_index (eph_for p) eph); [apply length_insert|].
  destruct (find_index _ eph); [apply length_insert|done].
Qed.
Lemma length_eph_clear eph p : length (pending_eph_clear eph p) = length eph.
Proof. unfold pending_eph_clear. destruct (find_index _ eph); [apply length_insert|done]. Qed.

(** At most the pending ephemeral of [dest] is stored, the rest is quiet. *)
Definition initiates (dest : Z) (n n' : node) : Prop :=
  static_eq n n' ∧ nd_table n' = nd_table n ∧ nd_rehs n' = nd_rehs n ∧ nd_hs n' = nd_hs n ∧
  nd_queue n' = nd_queue n ∧ nd_work n' = nd_work n ∧
  (nd_eph n' = nd_eph n ∨ ∃ priv pub, nd_eph n' = pending_eph_store (nd_eph n) dest priv pub).

Lemma quiet_initiates dest n n' : quiet n n' → initiates dest n n'.
Proof. intros (? & ? & ? & ? & ? & ? & ?). unfold initiates. fields. by left. Qed.

Lemma initiates_ok dest n n' : initiates dest n n' → node_ok n → node_ok n'.
Proof.
  intros ((Hid & _ & _ & _ & _ & _ & Henv) & Ht & _ & Hh & Hq & Hw & He) (O1 & O2 & O3 & O4 & O5 & O6 & O7 & O8 & O9).
  unfold node_ok. rewrite Hid, Ht, Hh, Hq, Hw. fields; [by apply Henv|].
  destruct He as [->|(priv & pub & ->)]; [done|]. by rewrite length_eph_store.
Qed.

Lemma initiate_spec dest idx e n :
  node_ok n → wp (initiate_dm_handshake hmac dest idx e) n (λ _ n', initiates dest n n').
Proof.
  intros (O1 & O2 & _). unfold initiate_dm_handshake. apply wp_bind.
  eapply wp_mono; [apply wp_generate|]. intros g n1 [Hq Hg]. specialize (Hg O1).
  destruct g as [g|]; [|by apply wp_ret, quiet_initiates]. specialize (Hg g eq_refl).
  apply wp_bind, wp_get. cbn zeta. set (pk := if e >? 0 then _ else None).
  assert (Hid : nd_id n1 = nd_id n) by apply Hq.
  destruct (dm_build_init _ _ _ _ _ _) as [init|] eqn:Eb; [|by apply wp_ret, quiet_initiates].
  apply build_init_ok in Eb; [|by rewrite Hid|done].
  apply wp_bind, wp_modify. apply wp_bind.
  eapply wp_mono; [apply send_ke_envelope_spec; [|done]|].
  { by apply (env_ok_quiet _ _ Hq). }
  intros r n2 (J & Jt & Jr & Je & Jh & Jq & Jw). apply wp_ret.
  destruct Hq as (K & Kt & Kr & Ke & Kh & Kq & Kw).
  cbn [set_eph nd_table nd_rehs nd_eph nd_hs nd_queue nd_work] in *. unfold initiates.
  split; [transitivity n1; [done|]; exact J|]. rewrite Jt, Jr, Je, Jh, Jq, Jw, Ke. fields. right. eauto.
Qed.

Lemma queue_put_spec i dest data idx uid n :
  (length data ≤ BRAMBLE_MAX_PACKET_SIZE)%nat →
  wp (queue_put i dest data idx uid) n (λ _ n', talks n n').
Proof.
  intros Hl. unfold queue_put. apply wp_bind. eapply wp_mono; [apply wp_packet_id|].
  intros pkt n1 H1%quiet_talks. apply wp_bind. eapply wp_lift; [by apply in_buf_fits|]. apply wp_bind, wp_now. apply wp_bind, wp_modify, wp_ret.
  transitivity n1; [done|]. unfold talks, static_eq. cbn [set_queue nd_queue nd_table].
  split; [fields|]. split; [reflexivity|]. fields. by rewrite length_insert.
Qed.

Lemma queue_session_message_spec dest data idx uid n :
  (length data ≤ BRAMBLE_MAX_PACKET_SIZE)%nat →
  wp (queue_session_message dest data idx uid) n (λ _ n', talks n n').
Proof.
  intros Hl. unfold queue_session_message. apply wp_bind, wp_gets.
  destruct (if uid =? 0 then None else _) as [i|]; [apply wp_ret; reflexivity|].
  destruct (find_index _ (nd_queue n)) as [i|]; [by apply queue_put_spec|].
  destruct (oldest_session_entry (nd_queue n)) as [o|]; [|apply wp_ret; reflexivity].
  apply wp_bind. eapply wp_mono; [apply wp_emit|]. intros [] n1 H1%quiet_talks.
  apply wp_bind. eapply wp_mono; [apply wp_update_by_uid|]. intros b n2 H2%quiet_talks.
  eapply wp_mono; [by apply queue_put_spec|]. intros r n3 H3.
  transitivity n1; [done|]. by transitivity n2.
Qed.

Lemma await_session_ok idx dest data uid b n :
  node_ok n → (length data ≤ BRAMBLE_MAX_PACKET_SIZE)%nat →
  wp (await_session hmac idx dest data uid b) n (λ _ n', node_ok n' ∧ static_eq n n' ∧
    same_table (nd_table n) (nd_table n')).
Proof.
  intros Hok Hl. unfold await_session. apply wp_bind.
  eapply (wp_mono _ _ (λ _ n', talks n n')).
  { destruct (uid =? 0); cbn [negb]; [|apply wp_ret; reflexivity].
    eapply wp_mono; [apply wp_next_uid|]. intros u n1 H1. by apply quiet_talks. }
  intros row n1 H1. apply wp_bind. eapply wp_mono; [by apply queue_session_message_spec|].
  intros pkt n2 H2. assert (H12 : talks n n2) by (by transitivity n1).
  pose proof (talks_ok _ _ H12 Hok) as Hok2.
  destruct (pkt =? 0).
  { apply wp_bind. eapply wp_mono; [apply wp_update_by_uid|]. intros u n3 H3%quiet_talks.
    apply wp_ret. assert (H13 : talks n n3) by (by transitivity n2).
    split; [by eapply talks_ok|]. split; apply H13. }
  apply wp_bind. eapply (wp_mono _ _ (λ _ n', node_ok n' ∧ static_eq n n' ∧
    same_table (nd_table n) (nd_table n'))).
  { apply wp_when; intros _; [|split; [done|]; split; apply H12].
    eapply wp_mono; [by apply initiate_spec|]. intros [] n3 H3.
    split; [by eapply initiates_ok|]. destruct H3 as (J & Jt & _). split.
    - transitivity n2; [apply H12|done].
    - rewrite Jt. apply H12. }
  intros [] n3 (O3 & S3 & T3). apply wp_bind.
  eapply (wp_mono _ _ (λ _ n', talks n3 n')).
  { apply wp_when; intros _; [|reflexivity]. eapply wp_mono; [apply wp_add_dm|].
    intros [] n4 H4. by apply quiet_talks. }
  intros [] n4 H4. apply wp_ret. split; [by eapply talks_ok|].
  split; [transitivity n3; [done|apply H4]|transitivity (nd_table n3); [done|apply H4]].
Qed.

Lemma set_table_static n t : static_eq n (set_table n t).
Proof. unfold static_eq. fields. Qed.

(** A node whose table was replaced by another well-formed one. *)
Lemma set_table_ok n t :
  node_ok n → dm_table_ok t → (handshaking_count t ≤ DM_MAX_HANDSHAKING)%nat → node_ok (set_table n t).
Proof. intros (? & ? & ? & ? & ? & ? & ? & ? & ?) ? ?. unfold node_ok. fields. Qed.

Lemma stamp_same now s : same_session s (stamp_active now (ss_state s) s).
Proof. unfold same_session. fields. Qed.

Lemma mesh_send_dm_ok idx dest data uid n :
  node_ok n → wp (mesh_send_dm hmac idx dest data uid) n (λ _ n', node_ok n' ∧ static_eq n n').
Proof.
  intros Hok. unfold mesh_send_dm. split_if.
  { apply wp_bind. eapply wp_mono; [apply wp_update_by_uid|]. intros b n1 H1. apply wp_ret.
    split; [exact (talks_ok _ _ (quiet_talks _ _ H1) Hok)|apply H1]. }
  apply Nat.ltb_ge in Heqb. assert (Hl : (length data ≤ BRAMBLE_MAX_PACKET_SIZE)%nat).
  { unfold FRAG_MAX_PLAINTEXT, BRAMBLE_MAX_PACKET_SIZE in *. lia. }
  apply wp_bind, wp_get. destruct (dm_lookup (nd_table n) dest) as [i|] eqn:El.
  - destruct (dm_lookup_Some _ _ _ El) as (s & Hs & Hst & Hp).
    rewrite (list_lookup_total_correct _ _ _ Hs). cbn zeta. split_if.
    + apply wp_bind. eapply wp_mono; [apply send_dm_packet_spec; [apply Hok|eauto]|].
      intros pkt n1 H1%used_talks. apply wp_bind.
      eapply (wp_mono _ _ (λ _ n', talks n n')).
      { destruct (pkt =? 0); cbn [negb].
        - apply wp_bind. eapply wp_mono; [apply wp_update_by_uid|]. intros b n2 H2%quiet_talks.
          apply wp_ret. by transitivity n1.
        - apply wp_bind. eapply wp_mono; [apply wp_update_by_uid|]. intros b n2 H2%quiet_talks.
          assert (talks n n2) by (by transitivity n1). apply wp_when; intros _; [|done].
          apply wp_bind. eapply (wp_mono _ _ (λ _ n', talks n n')).
          { destruct (uid =? 0); [|by apply wp_ret]. eapply wp_mono; [apply wp_next_uid|].
            intros u n3 H3%quiet_talks. by transitivity n2. }
          intros row n3 H3. eapply wp_mono; [apply wp_add_dm|]. intros [] n4 H4%quiet_talks.
          by transitivity n3. }
      intros [] n2 H2. apply wp_ret. split; [by eapply talks_ok|apply H2].
    + set (b := dm_in_state DM_STATE_HANDSHAKING s && _). apply wp_bind.
      eapply (wp_mono _ _ (λ _ n', talks n n')).
      { apply wp_when; intros _; [|reflexivity]. apply wp_modify. unfold talks.
        split; [apply set_table_static|]. cbn [set_table nd_table nd_queue nd_rehs nd_eph nd_hs nd_work].
        split; [by eapply same_table_insert; [|apply stamp_same]|]. fields. }
      intros [] n1 H1. eapply wp_mono; [apply await_session_ok; [by eapply talks_ok|done]|].
      intros r n2 (O2 & S2 & _). split; [done|]. transitivity n1; [apply H1|done].
  - cbn zeta. destruct (dm_alloc (nd_table n) dest _) as [[i|] t] eqn:Ea.
    + apply wp_bind, wp_modify. apply wp_bind, wp_modify. cbn [set_table nd_table].
      set (s := stamp_active _ _ _).
      assert (Hp : ss_peer_addr (t !!! i) = dest).
      { pose proof (dm_alloc_cases (nd_table n) dest (v_now (nd_env n))) as Hc. rewrite Ea in Hc.
        destruct Hc as [[? _]|(_ & _ & -> & s0 & Hs0 & _)]; [congruence|].
        rewrite list_lookup_total_insert_eq by (by eapply lookup_lt_Some). done. }
      destruct (dm_alloc_store _ _ _ _ _ s Ea) as (T1 & _ & T2); [apply Hok|apply Hok|done|].
      eapply wp_mono; [apply await_session_ok|].
      { apply (set_table_ok n); [done|done|]. apply T2. by left. }
      { done. }
      intros r n2 (O2 & S2 & _). split; [done|].
      etransitivity; [apply (set_table_static n (<[i := s]> t))|exact S2].
    + apply wp_bind. eapply wp_mono; [apply wp_update_by_uid|]. intros b n1 H1. apply wp_ret.
      split; [exact (talks_ok _ _ (quiet_talks _ _ H1) Hok)|apply H1].
Qed.

(** ** Accepting a handshake *)

Lemma tag_check_total e got : 
  msg_ok got → (∀ t, e = Some t → length t = 16%nat ∧ Forall is_u8 t) →
  is_Some (tag_check e (ke_auth_tag got)).
Proof.
  intros [Hl Hb] He. unfold tag_check. destruct e as [t|]; [|eauto].
  destruct (He t eq_refl). rewrite crypto_ct_memeq_spec by done. cbn. eauto.
Qed.
Lemma verify_init_total m id pk pin : msg_ok m → is_Some (dm_verify_init m id pk pin).
Proof.
  intros Hm. unfold dm_verify_init. split_if; [eauto|]. split_if; [eauto|].
  destruct pk as [pk|]; [|eauto]. apply tag_check_total; [done|].
  intros t (dh2 & _ & (dh3 & _ & Ht)%bind_Some)%bind_Some. by eapply ke_tag_length.
Qed.
Lemma verify_resp_total m id priv pub e pin : msg_ok m → is_Some (dm_verify_resp m id priv pub e pin).
Proof.
  intros Hm. unfold dm_verify_resp. split_if; [eauto|]. split_if; [eauto|].
  destruct (dm_compute_ikm _ _ _ _); [|eauto]. destruct (dm_session_key_from_ikm _ _ _ _); [|eauto].
  apply bind_is_Some; [|eauto]. apply tag_check_total; [done|]. intros t Ht. by eapply ke_tag_length.
Qed.

(** What the node knows of an INIT it goes on with: its long-term key is the
    pinned one; without a pin it carries a valid tag under the cached identity of
    a known peer, or the peer is unknown. *)
Definition init_accepted (n : node) (src : Z) (init : bramble_key_exchange_t) (pinned : option (list Z))
    : Prop :=
  ke_type init = KE_TYPE_INIT ∧
  (∀ p, pinned = Some p → ke_long_term_pubkey init = p) ∧
  (pinned = None → ∀ i s, dm_lookup (nd_table n) src = Some i → nd_table n !! i = Some s →
     dm_session_has_peer_id (Some s) = true →
     dm_verify_init init (nd_id n) (Some (ss_peer_id_pub s)) None = Some 0).

Lemma pin_match lt p : pin_mismatch lt (Some p) = false → lt = p.
Proof. unfold pin_mismatch. intros H%negb_false_iff. by apply bool_decide_eq_true in H. Qed.

(** The table with which the exchange goes on. *)
Definition torn_or_same (src : Z) (pinned : option (list Z)) (t t' : dm_table_t) : Prop :=
  t' = t ∨ (pinned ≠ None ∧ t' = (dm_session_teardown t src).2).

Lemma accept_init_spec src init pinned n :
  msg_ok init →
  wp (accept_init src init pinned) n (λ go n', static_eq n n' ∧ nd_eph n' = nd_eph n ∧
    nd_hs n' = nd_hs n ∧ nd_queue n' = nd_queue n ∧ nd_work n' = nd_work n ∧
    torn_or_same src pinned (nd_table n) (nd_table n') ∧
    (go = true → init_accepted n src init pinned)).
Proof.
  intros Hm. unfold accept_init. apply wp_bind, wp_get. cbn zeta.
  set (existing := _ <$> dm_lookup _ _). set (peer_id := if dm_session_has_peer_id existing then _ else _).
  destruct (verify_init_total init (nd_id n) peer_id pinned Hm) as [vrc Hv].
  apply wp_bind. eapply wp_lift; [exact Hv|].
  assert (Hpin : ∀ v pk, dm_verify_init init (nd_id n) pk pinned = Some v → v = 0 →
    ke_type init = KE_TYPE_INIT ∧ ∀ p, pinned = Some p → ke_long_term_pubkey init = p).
  { intros v pk Hv' ->. apply verify_init_sound in Hv' as (Hty & Hpm & _); [|apply Hm|apply Hm].
    split; [done|]. intros p ->. by apply pin_match. }
  destruct (vrc =? DM_VERIFY_ERR_PIN_MISMATCH) eqn:E1.
  { apply wp_ret. split; [reflexivity|]. fields. by left. }
  destruct (vrc =? 0) eqn:E2; conds.
  { apply wp_ret. split; [reflexivity|]. fields; [by left|]. intros _.
    destruct (Hpin _ _ Hv E2) as [H1 H2]. split; [done|]. split; [done|].
    intros Hn i s Hl Hs Hid. subst vrc pinned. unfold peer_id, existing in Hv. rewrite Hl in Hv.
    cbn [fmap option_fmap option_map] in Hv. rewrite (list_lookup_total_correct _ _ _ Hs), Hid in Hv.
    exact Hv. }
  destruct (dm_session_has_peer_id existing && bool_decide (is_Some pinned)) eqn:E3.
  2: { apply wp_ret. split; [reflexivity|]. fields. by left. }
  apply andb_true_iff in E3 as [_ E3%bool_decide_eq_true].
  assert (Hpn : pinned ≠ None) by (destruct E3 as [? ->]; done).
  apply wp_bind. eapply wp_mono; [apply wp_rate|].
  intros ok n1 (J & Jt & Je & Jh & Jq & Jw & _). destruct ok; cbn [negb].
  2: { apply wp_ret. split; [done|]. fields. by left. }
  apply wp_bind, wp_modify. destruct (verify_init_total init (nd_id n) None pinned Hm) as [v2 Hv2].
  apply wp_bind. eapply wp_lift; [exact Hv2|]. apply wp_ret.
  split; [etransitivity; [exact J|apply set_table_static]|].
  cbn [set_table nd_eph nd_hs nd_queue nd_work nd_table]. rewrite Jt. fields; [right; done|].
  intros H0%Z.eqb_eq. destruct (Hpin _ _ Hv2 H0) as [H1 H2]. split; [done|]. split; done.
Qed.

Lemma teardown_ok t p : dm_table_ok t → dm_table_ok (dm_session_teardown t p).2.
Proof.
  intros Hok. unfold dm_session_teardown. destruct (dm_lookup t p); [|done]. by apply dm_table_ok_clear.
Qed.
Lemma teardown_handshaking t p :
  (handshaking_count (dm_session_teardown t p).2 ≤ handshaking_count t)%nat.
Proof.
  unfold dm_session_teardown. destruct (dm_lookup t p) as [i|] eqn:E; [|done].
  destruct (dm_lookup_Some _ _ _ E) as (s & Hs & _). cbn [snd].
  pose proof (handshaking_count_insert t i s session_zero Hs) as H.
  change (dm_in_state DM_STATE_HANDSHAKING session_zero) with false in H. cbv iota in H. lia.
Qed.

(** The session an establishment installs. *)
Lemma establish_session_fields self peer now v lt key e ikm s :
  let s' := (establish_session self peer now v lt key e ikm s).2 in
  ss_peer_addr s' = ss_peer_addr s ∧ ss_peer_id_pub s' = lt ∧ ss_state s' = DM_STATE_ACTIVE ∧
  ss_verified s' = v.
Proof.
  unfold establish_session. destruct ikm as [ikm|]; [|fields]. split_if.
  - unfold dm_session_epoch_bump. cbn zeta. destruct (dm_ratchet_dh _ _ _ _ _); [|fields].
    cbn [mbind option_bind]. destruct (dm_derive_chain_pair _) as [[? ?]|]; [|fields].
    cbn [mbind option_bind]. destruct (dm_ratchet_install_chains _ _ _ _). fields.
  - unfold dm_session_ratchet_init_state. cbn zeta.
    destruct (dm_ratchet_init _ _ _) as [[[? ?] ?]|]; [|fields].
    destruct (dm_ratchet_install_chains _ _ _ _). fields.
Qed.

(** The outcome of [establish]. *)
Definition established (src : Z) (lt key : list Z) (e : Z) (ikm : option (list Z)) (n n' : node) : Prop :=
  static_eq n n' ∧ nd_rehs n' = nd_rehs n ∧ nd_eph n' = nd_eph n ∧ nd_hs n' = nd_hs n ∧
  nd_queue n' = nd_queue n ∧ nd_work n' = nd_work n ∧
  ∃ i t, dm_alloc (nd_table n) src (v_now (nd_env n)) = (Some i, t) ∧
    nd_table n' = <[i := (establish_session (id_address (nd_id n)) src (v_now (nd_env n))
      (identity_store_is_verified (nd_pins n) src) lt key e ikm (t !!! i)).2]> t.

Lemma alloc_peer t p now i t' :
  dm_alloc t p now = (Some i, t') → ss_peer_addr (t' !!! i) = p.
Proof.
  intros Ha. pose proof (dm_alloc_cases t p now) as Hc. rewrite Ha in Hc.
  destruct Hc as [[Hl ->]|(_ & _ & -> & s0 & Hs0 & _)].
  - destruct (dm_lookup_Some _ _ _ Hl) as (s & Hs & _ & <-). by rewrite (list_lookup_total_correct _ _ _ Hs).
  - by rewrite list_lookup_total_insert_eq by (by eapply lookup_lt_Some).
Qed.

Lemma establish_spec src lt key e ikm n :
  wp (establish src lt key e ikm) n (λ r n',
    (r.1 = false ∧ n' = n) ∨ (r.1 = true ∧ established src lt key e ikm n n')).
Proof.
  unfold establish. apply wp_bind, wp_get. cbn zeta.
  destruct (dm_alloc _ _ _) as [[i|] t] eqn:Ea; [|by apply wp_ret; left].
  destruct (establish_session _ _ _ _ _ _ _ _ _) as [ok s] eqn:Es.
  apply wp_bind, wp_modify, wp_ret. right. split; [done|]. unfold established.
  split; [apply set_table_static|]. fields. exists i, t. split; [done|]. by rewrite Es.
Qed.

Lemma established_ok src lt key e ikm n n' :
  established src lt key e ikm n n' → node_ok n → node_ok n'.
Proof.
  intros ((Hid & _ & _ & _ & _ & _ & Henv) & _ & He & Hh & Hq & Hw & i & t & Ha & Ht) (O1 & O2 & O3 & O4 & O5 & O6 & O7 & O8 & O9).
  set (s := (establish_session _ _ _ _ _ _ _ _ _).2) in Ht.
  destruct (establish_session_fields (id_address (nd_id n)) src (v_now (nd_env n))
    (identity_store_is_verified (nd_pins n) src) lt key e ikm (t !!! i)) as (Fp & _ & Fs & _). fold s in Fp, Fs.
  destruct (dm_alloc_store _ _ _ _ _ s Ha O3 O4) as (T1 & _ & T2); [rewrite Fp; by eapply alloc_peer|].
  unfold node_ok. rewrite Hid, He, Hh, Hq, Hw, Ht. fields; [by apply Henv|]. apply T2. right. by rewrite Fs.
Qed.

(** ** The handlers *)

Lemma torn_ok src pinned n n' :
  static_eq n n' → nd_eph n' = nd_eph n → nd_hs n' = nd_hs n → nd_queue n' = nd_queue n →
  nd_work n' = nd_work n → torn_or_same src pinned (nd_table n) (nd_table n') → node_ok n → node_ok n'.
Proof.
  intros (Hid & _ & _ & _ & _ & _ & Henv) He Hh Hq Hw Ht (O1 & O2 & O3 & O4 & O5 & O6 & O7 & O8 & O9).
  unfold node_ok. rewrite Hid, He, Hh, Hq, Hw. fields; [by apply Henv|..];
    destruct Ht as [->|[_ ->]]; try done; [by apply teardown_ok|].
  etransitivity; [apply teardown_handshaking|done].
Qed.

(** How an exchange that went through left the table: the sessions as after the
    establishment, but for sending. *)
Definition ke_outcome (src : Z) (pinned : option (list Z)) (lt : list Z) (accepted : Prop) (n n' : node)
    : Prop :=
  node_ok n' ∧ static_eq n n' ∧ nd_work n' = nd_work n ∧
  ∃ t1, torn_or_same src pinned (nd_table n) t1 ∧
    (nd_table n' = t1 ∨
     (accepted ∧ ∃ i t e ikm key, dm_alloc t1 src (v_now (nd_env n)) = (Some i, t) ∧
        same_table (<[i := (establish_session (id_address (nd_id n)) src (v_now (nd_env n))
                              (identity_store_is_verified (nd_pins n) src) lt key e
                              ikm (t !!! i)).2]> t) (nd_table n'))).

Lemma process_ke_init_spec src idx init pinned n :
  node_ok n → msg_ok init →
  wp (process_ke_init hmac src idx init pinned) n (λ _ n',
    ke_outcome src pinned (ke_long_term_pubkey init) (init_accepted n src init pinned) n n').
Proof.
  intros Hok Hm. unfold process_ke_init. apply wp_bind.
  eapply wp_mono; [by apply accept_init_spec|].
  intros go n1 (J & Je & Jh & Jq & Jw & Jt & Jgo). cbv beta.
  pose proof (torn_ok _ _ _ _ J Je Jh Jq Jw Jt Hok) as Hok1.
  destruct go; cbn [negb].
  2: { apply wp_ret. split; [done|]. split; [done|]. split; [done|]. exists (nd_table n1). auto. }
  specialize (Jgo eq_refl). apply wp_bind. eapply wp_mono; [apply wp_generate|].
  intros g n2 [Kq Kg]. specialize (Kg (proj1 Hok1)).
  pose proof (talks_ok _ _ (quiet_talks _ _ Kq) Hok1) as Hok2.
  assert (Hst2 : static_eq n n2) by (transitivity n1; [done|apply Kq]).
  assert (Ht2 : nd_table n2 = nd_table n1) by apply Kq.
  assert (Hw2 : nd_work n2 = nd_work n) by (etransitivity; [apply Kq|done]).
  assert (Hsame : ke_outcome src pinned (ke_long_term_pubkey init) (init_accepted n src init pinned) n n2).
  { split; [done|]. split; [done|]. split; [done|]. exists (nd_table n1). rewrite Ht2. auto. }
  destruct g as [g|]; [|by apply wp_ret]. specialize (Kg g eq_refl).
  apply wp_bind, wp_get. cbn zeta.
  destruct (dm_build_resp _ _ _ _ _) as [[resp key]|] eqn:Eb; [|by apply wp_ret].
  apply build_resp_ok in Eb; [|apply Hok2|done].
  apply wp_bind. eapply wp_mono; [apply establish_spec|].
  intros [slot ok] n3 [[? ->]|[Hs He]]; cbn [fst] in *; subst slot; cbn [negb].
  { apply wp_ret. exact Hsame. }
  pose proof (established_ok _ _ _ _ _ _ _ He Hok2) as Hok3.
  assert (Hst3 : static_eq n n3) by (transitivity n2; [done|apply He]).
  destruct He as (_ & _ & _ & _ & _ & Hw3 & i & t & Ha & Ht3).
  assert (Hid : nd_id n2 = nd_id n) by apply Hst2.
  assert (Hnow : v_now (nd_env n2) = v_now (nd_env n)) by apply Hst2.
  assert (Hpins : nd_pins n2 = nd_pins n) by apply Hst2.
  rewrite Hid, Hnow, Hpins in Ht3. rewrite Hnow, Ht2 in Ha.
  assert (Hout : ∀ n', talks n3 n' → ke_outcome src pinned (ke_long_term_pubkey init)
    (init_accepted n src init pinned) n n').
  { intros n' Htk. split; [by eapply talks_ok|]. split; [transitivity n3; [done|apply Htk]|].
    split; [etransitivity; [apply Htk|]; congruence|].
    exists (nd_table n1). split; [done|]. right. split; [done|].
    do 5 eexists. split; [exact Ha|]. rewrite <- Ht3. apply Htk. }
  destruct (ok =? 0); cbn [negb]; [|apply wp_ret, Hout; reflexivity].
  apply wp_bind. eapply wp_mono; [apply send_ke_envelope_spec; [apply Hok3|done]|].
  intros r n4 H4%quiet_talks. eapply wp_mono; [apply flush_session_queue_spec; by eapply talks_ok|].
  intros [] n5 H5. apply Hout. by transitivity n4.
Qed.

Lemma process_ke_resp_spec src resp pinned n :
  node_ok n → msg_ok resp →
  wp (process_ke_resp hmac src resp pinned) n (λ _ n',
    ke_outcome src pinned (ke_long_term_pubkey resp)
      (∃ pe k, pending_eph_lookup (nd_eph n) src = Some pe ∧
        dm_verify_resp resp (nd_id n) (pe_eph_priv pe) (pe_eph_pub pe) (u16 (ke_key_id resp)) pinned =
          Some (0, k)) n n').
Proof.
  intros Hok Hm. unfold process_ke_resp. apply wp_bind, wp_get.
  assert (Hsame : ∀ P, ke_outcome src pinned (ke_long_term_pubkey resp) P n n).
  { intros P. split; [done|]. split; [reflexivity|]. split; [done|]. exists (nd_table n).
    split; [by left|by left]. }
  destruct (pending_eph_lookup (nd_eph n) src) as [pe|] eqn:El; [|by apply wp_ret]. cbn zeta.
  destruct (verify_resp_total resp (nd_id n) (pe_eph_priv pe) (pe_eph_pub pe) (u16 (ke_key_id resp)) pinned Hm)
    as [[vrc k] Hv].
  apply wp_bind. eapply wp_lift; [exact Hv|]. cbn iota.
  destruct (vrc =? 0) eqn:Ev; cbn [negb]; [|by apply wp_ret]. conds. subst vrc.
  apply wp_bind. eapply wp_mono; [apply establish_spec|].
  assert (Hcl : ∀ m, node_ok m → node_ok (set_eph m (pending_eph_clear (nd_eph m) src))).
  { intros m (O1 & O2 & O3 & O4 & O5 & O6 & O7 & O8 & O9). unfold node_ok. fields.
    cbn [set_eph nd_eph]. by rewrite length_eph_clear. }
  intros [slot ok] n1 [[? ->]|[Hs He]]; cbn [fst] in *; subst slot.
  { apply wp_bind, wp_modify. cbn [negb]. apply wp_ret. destruct (Hsame True) as (_ & _ & _ & _).
    split; [by apply Hcl|]. split; [unfold static_eq; fields|]. split; [done|]. exists (nd_table n).
    split; [by left|by left]. }
  pose proof (established_ok _ _ _ _ _ _ _ He Hok) as Hok1.
  apply wp_bind, wp_modify. cbn [negb].
  set (n2 := set_eph n1 (pending_eph_clear (nd_eph n1) src)).
  assert (Hok2 : node_ok n2) by (by apply Hcl).
  assert (Hst2 : static_eq n n2) by (transitivity n1; [apply He|unfold static_eq; fields]).
  destruct He as (_ & _ & _ & _ & _ & Hw & i & t & Ha & Ht).
  assert (Hout : ∀ n', talks n2 n' → ke_outcome src pinned (ke_long_term_pubkey resp)
    (∃ pe0 k0, Some pe = Some pe0 ∧ dm_verify_resp resp (nd_id n) (pe_eph_priv pe0) (pe_eph_pub pe0)
       (u16 (ke_key_id resp)) pinned = Some (0, k0)) n n').
  { intros n' Htk. split; [by eapply talks_ok|]. split; [transitivity n2; [done|apply Htk]|].
    split; [etransitivity; [apply Htk|]; done|]. exists (nd_table n). split; [by left|]. right.
    split; [eauto|]. do 5 eexists. split; [exact Ha|]. rewrite <- Ht. apply Htk. }
  destruct (ok =? 0); cbn [negb]; [|apply wp_ret, Hout; reflexivity].
  eapply wp_mono; [by apply flush_session_queue_spec|]. intros [] n3 H3. by apply Hout.
Qed.

Lemma parsed_msg_ok data msg :
  Forall is_u8 data →
  bramble_key_exchange_deserialize ke_blank data (length data) = Some (ESP_OK, msg) → msg_ok msg.
Proof.
  intros Hb. unfold bramble_key_exchange_deserialize. split_if; [done|].
  intros ([r hd] & _ & Hm)%bind_Some. destruct r; [|done].
  apply bind_Some in Hm as (src & _ & Hm). apply bind_Some in Hm as (eph & _ & Hm).
  apply bind_Some in Hm as (lt & _ & Hm). apply bind_Some in Hm as (kid & _ & Hm).
  apply bind_Some in Hm as (kt & _ & Hm). apply bind_Some in Hm as (tag & Ht & Hm).
  injection Hm as <-. unfold msg_ok. cbn [ke_auth_tag].
  split; [by apply rdn_inv in Ht as (_ & ? & _)|by eapply rdn_bytes].
Qed.

Lemma length_hs_record es src eph e now :
  length (hs_dedup_check_and_record es src eph e now).2 = length es.
Proof.
  unfold hs_dedup_check_and_record. cbn zeta. destruct (hs_scan _ _ _ _ _ _ _); [|done].
  cbn [snd]. apply length_insert.
Qed.

(** Only the caches and the work queue change. *)
Lemma caches_ok n n' :
  static_eq n n' → nd_table n' = nd_table n → nd_eph n' = nd_eph n → length (nd_hs n') = length (nd_hs n) →
  nd_queue n' = nd_queue n → (length (nd_work n') ≤ HANDSHAKE_WORK_QUEUE_LEN)%nat →
  Forall work_ok (nd_work n') → node_ok n → node_ok n'.
Proof.
  intros (Hid & _ & _ & _ & _ & _ & Henv) Ht He Hh Hq H1 H2 (O1 & O2 & O3 & O4 & O5 & O6 & O7 & O8 & O9).
  unfold node_ok. rewrite Hid, Ht, He, Hh, Hq. fields. by apply Henv.
Qed.

Lemma work_send_ok w n :
  node_ok n → work_ok w → wp (work_send w) n (λ _ n', node_ok n' ∧ static_eq n n' ∧ nd_table n' = nd_table n).
Proof.
  intros Hok Hw. eapply wp_mono; [apply wp_work|].
  intros ok n' (J & Jt & Jr & Je & Jh & Jq & Jw). split; [|done].
  pose proof Hok as (_ & _ & _ & _ & _ & _ & _ & O8 & O9).
  eapply (caches_ok n); try done; [by rewrite Jh|..];
    destruct Jw as [[-> _]|(-> & _ & Hlt)]; try done.
  - rewrite length_app. cbn [length]. lia.
  - apply Forall_app. split; [done|]. by apply Forall_singleton.
Qed.

Lemma rate_ok_ok p t n :
  node_ok n → wp (dm_rehandshake_rate_ok p t) n (λ _ n', node_ok n' ∧ static_eq n n' ∧ nd_table n' = nd_table n).
Proof.
  intros Hok. eapply wp_mono; [apply wp_rate|]. intros ok n' (J & Jt & Je & Jh & Jq & Jw & _).
  split; [|done]. pose proof Hok as (_ & _ & _ & _ & _ & _ & _ & O8 & O9).
  eapply (caches_ok n); try done; by rewrite ?Jh, ?Jw.
Qed.

Lemma trigger_ok peer n :
  node_ok n → wp (maybe_trigger_dm_rehandshake peer) n (λ _ n', node_ok n' ∧ static_eq n n').
Proof.
  intros Hok. unfold maybe_trigger_dm_rehandshake. apply wp_bind, wp_get.
  split_if; [by apply wp_ret|]. destruct (neighbor_lookup _ _); [|by apply wp_ret].
  apply wp_bind, wp_now. apply wp_bind. eapply wp_mono; [by apply rate_ok_ok|].
  intros ok n1 (O1 & S1 & _). destruct ok; cbn [negb]; [|by apply wp_ret].
  apply wp_bind. eapply wp_mono; [by apply work_send_ok|]. intros b n2 (O2 & S2 & _).
  apply wp_ret. split; [done|by transitivity n1].
Qed.

Lemma rekey_schedule_ok t n :
  node_ok n → wp (maybe_schedule_dm_epoch_rekey t) n (λ _ n', node_ok n' ∧ static_eq n n').
Proof.
  intros Hok. unfold maybe_schedule_dm_epoch_rekey.
  apply (wp_for_each _ _ (λ n', node_ok n' ∧ static_eq n n')); [by split|].
  intros i n1 _ [O1 S1]. apply wp_bind, wp_get. cbn zeta.
  destruct (if rekey_due _ _ _ then _ else _) as [peer e].
  split_if; [by apply wp_ret|]. destruct (neighbor_lookup _ _); [|by apply wp_ret].
  apply wp_bind. eapply wp_mono; [by apply rate_ok_ok|].
  intros ok n2 (O2 & S2 & _). assert (S12 : static_eq n n2) by (by transitivity n1).
  destruct ok; cbn [negb]; [|by apply wp_ret].
  apply wp_bind. eapply wp_mono; [by apply work_send_ok|]. intros b n3 (O3 & S3 & _).
  apply wp_ret. split; [done|by transitivity n2].
Qed.

Lemma envelope_ok src idx data n :
  node_ok n → Forall is_u8 data →
  wp (handle_ke_envelope src idx data) n (λ _ n', node_ok n' ∧ static_eq n n' ∧ nd_table n' = nd_table n).
Proof.
  intros Hok Hb. unfold handle_ke_envelope. apply wp_bind.
  assert (Htot : is_Some (bramble_key_exchange_deserialize ke_blank data (length data))).
  { by apply ke_deserialize_safe. }
  destruct Htot as [[r msg] Hd]. eapply wp_lift; [exact Hd|].
  destruct r; [|by apply wp_ret]. apply parsed_msg_ok in Hd; [|done].
  apply wp_bind, wp_get. split_if; [by apply wp_ret|]. split_if; [by apply wp_ret|].
  split_if; [by apply wp_ret|]. apply wp_bind.
  eapply (wp_mono _ _ (λ _ n', node_ok n' ∧ static_eq n n' ∧ nd_table n' = nd_table n)).
  { destruct (ke_type msg =? KE_TYPE_INIT); [|by apply wp_ret].
    pose proof (length_hs_record (nd_hs n) src (ke_ephemeral_pubkey msg) (u16 (ke_key_id msg))
      (v_now (nd_env n))) as Hl.
    unfold wp. destruct (hs_dedup_check_and_record _ _ _ _ _) as [dup es]. cbn [snd] in Hl.
    split; [|split; [unfold static_eq; fields|done]].
    pose proof Hok as (_ & _ & _ & _ & _ & _ & _ & O8 & O9). eapply (caches_ok n); try done. }
  intros dup n1 (O1 & S1 & T1). destruct dup; [by apply wp_ret|]. cbn zeta.
  apply wp_bind. eapply wp_mono; [by apply work_send_ok|]. intros b n2 (O2 & S2 & T2). apply wp_ret.
  split; [done|]. split; [by transitivity n1|congruence].
Qed.

Lemma set_work_ok n w rest : nd_work n = w :: rest → node_ok n → node_ok (set_work n rest) ∧ work_ok w.
Proof.
  intros Hw Hok. pose proof Hok as (_ & _ & _ & _ & _ & _ & _ & O8 & O9). rewrite Hw in O8, O9.
  inversion_clear O9. cbn [length] in O8. split; [|done].
  eapply (caches_ok n); try done. cbn [set_work nd_work]. lia.
Qed.

Lemma worker_ok n :
  node_ok n → wp (handshake_worker_step hmac) n (λ _ n', node_ok n' ∧ static_eq n n').
Proof.
  intros Hok. unfold handshake_worker_step. apply wp_bind, wp_get.
  destruct (nd_work n) as [|w rest] eqn:Ew; [by apply wp_ret|].
  destruct (set_work_ok _ _ _ Ew Hok) as [Hok1 Hw]. apply wp_bind, wp_modify.
  assert (S1 : static_eq n (set_work n rest)) by (unfold static_eq; fields).
  destruct w as [src idx e|src idx msg pinned].
  - eapply wp_mono; [by apply initiate_spec|]. intros [] n1 H1. split; [by eapply initiates_ok|].
    transitivity (set_work n rest); [done|apply H1].
  - split_if; [|split_if; [|by apply wp_ret]].
    + eapply wp_mono; [by apply process_ke_init_spec|]. intros [] n1 (O1 & S & _).
      split; [done|by transitivity (set_work n rest)].
    + eapply wp_mono; [by apply process_ke_resp_spec|]. intros [] n1 (O1 & S & _).
      split; [done|by transitivity (set_work n rest)].
Qed.

(** ** The sequences of calls *)

Inductive dm_op :=
  | OpSend (channel_idx dest_addr : Z) (data : list Z) (uid : Z)
  | OpEnvelope (src_addr channel_idx : Z) (data : list Z)
  | OpWorker
  | OpDesync (peer : Z)
  | OpRekey (t : Z)
  | OpWorld (v : dm_env). (** time passes; what the world will answer next *)

Definition run_op (op : dm_op) : M unit :=
  match op with
  | OpSend idx dest data uid => mesh_send_dm hmac idx dest data uid ;; mret tt
  | OpEnvelope src idx data => handle_ke_envelope src idx data
  | OpWorker => handshake_worker_step hmac
  | OpDesync peer => maybe_trigger_dm_rehandshake peer
  | OpRekey t => maybe_schedule_dm_epoch_rekey t
  | OpWorld v => modify (λ n, set_env n v)
  end.
Definition op_ok (op : dm_op) : Prop :=
  match op with OpEnvelope _ _ data => Forall is_u8 data | OpWorld v => env_ok v | _ => True end.

Lemma run_ops_ok (n : node) (ops : list dm_op) :
  node_ok n → Forall op_ok ops →
  wp (for_each ops run_op) n (λ _ n', node_ok n' ∧ nd_id n' = nd_id n ∧ nd_pins n' = nd_pins n).
Proof.
  intros Hok Hops.
  apply (wp_for_each _ _ (λ n', node_ok n' ∧ nd_id n' = nd_id n ∧ nd_pins n' = nd_pins n)); [done|].
  intros op n1 Hin (O1 & I1 & P1). rewrite list.Forall_forall in Hops. specialize (Hops op Hin).
  assert (Hfin : ∀ n2, node_ok n2 ∧ static_eq n1 n2 →
    node_ok n2 ∧ nd_id n2 = nd_id n ∧ nd_pins n2 = nd_pins n).
  { intros n2 [O2 (I2 & _ & _ & P2 & _)]. fields; congruence. }
  destruct op as [idx dest data uid|src idx data| |peer|t|v]; cbn [run_op].
  - apply wp_bind. eapply wp_mono; [by apply mesh_send_dm_ok|]. intros r n2 H2. apply wp_ret. by apply Hfin.
  - eapply wp_mono; [by apply envelope_ok|]. intros r n2 (H2 & H3 & _). by apply Hfin.
  - eapply wp_mono; [by apply worker_ok|]. intros r n2 H2. by apply Hfin.
  - eapply wp_mono; [by apply trigger_ok|]. intros r n2 H2. by apply Hfin.
  - eapply wp_mono; [by apply rekey_schedule_ok|]. intros r n2 H2. by apply Hfin.
  - apply wp_modify. fields. destruct O1 as (? & ? & ? & ? & ? & ? & ? & ? & ?). unfold node_ok. fields.
Qed.

(** C14. The direct-message handlers are safe in any order: from a well-formed node,
    every sequence of sends, received key-exchange payloads of arbitrary bytes,
    worker rounds, desync reports and rekey schedules returns, never reading or
    writing outside a buffer (the frame of 255 bytes and the ciphertext array a
    sender builds in, the 256 bytes of a queue entry, the key-exchange buffers),
    and leaves a well-formed node: one session per peer,
    at most eight handshakes, all tables of their size, at most eight work items,
    and the identity, the keys and the pins untouched. *)
Theorem dm_handlers_safe (n : node) (ops : list dm_op) :
  node_ok n → Forall op_ok ops →
  wp (for_each ops run_op) n (λ _ n', node_ok n' ∧ nd_id n' = nd_id n ∧ nd_pins n' = nd_pins n).
Proof. apply run_ops_ok. Qed.

Lemma torn_lookup src pinned t t1 i s :
  torn_or_same src pinned t t1 → t1 !! i = Some s → ss_state s ≠ DM_STATE_NONE → t !! i = Some s.
Proof.
  intros [->|[_ ->]]; [done|]. unfold dm_session_teardown. destruct (dm_lookup t src) as [j|]; [|done].
  cbn [snd]. intros [(<- & <- & _)|[_ ?]]%list_lookup_insert_Some Hn; [by destruct Hn|done].
Qed.

Lemma alloc_lookup t p now i t' j s :
  dm_alloc t p now = (Some i, t') → j ≠ i → t' !! j = Some s → t !! j = Some s.
Proof.
  intros Ha Hne. pose proof (dm_alloc_cases t p now) as Hc. rewrite Ha in Hc.
  destruct Hc as [[_ ->]|(_ & _ & -> & _)]; [done|]. by rewrite list_lookup_insert_ne.
Qed.

(** A session an exchange with [src] left is one that was there, or the new one. *)
Lemma ke_outcome_sessions src pinned lt (P : Prop) n n' i s' :
  ke_outcome src pinned lt P n n' → nd_table n' !! i = Some s' → ss_state s' ≠ DM_STATE_NONE →
  (∃ s, nd_table n !! i = Some s ∧ same_session s s') ∨
  (P ∧ ss_peer_addr s' = src ∧ ss_peer_id_pub s' = lt ∧
   ss_verified s' = identity_store_is_verified (nd_pins n) src).
Proof.
  intros (_ & _ & _ & t1 & Ht1 & Hout) Hi Hn. destruct Hout as [Ht|(HP & j & t & e & ikm & key & Ha & Hs)].
  - left. exists s'. rewrite Ht in Hi. split; [by eapply torn_lookup|apply same_session_refl].
  - destruct (same_table_lookup _ _ _ _ Hs Hi) as (u & Hu & Huv).
    destruct Huv as (Vp & Vk & Vid & Ve & Vke & Vst & Vv & Vrk). 
    apply list_lookup_insert_Some in Hu as [(<- & <- & _)|[Hne Hu]].
    + right. destruct (establish_session_fields (id_address (nd_id n)) src (v_now (nd_env n))
        (identity_store_is_verified (nd_pins n) src) lt key e ikm (t !!! j)) as (F1 & F2 & F3 & F4).
      split; [done|]. rewrite Vp, Vid, Vv, F1, F2, F4. split; [by eapply alloc_peer|done].
    + left. exists u. split; [|done]. eapply torn_lookup; [done| |congruence].
      by eapply alloc_lookup.
Qed.

(** Sessions follow authenticated keys: when the worker processes a received
    INIT or RESP from an address, every session it leaves in the table was there
    before, unchanged but for sending, or is the one for that address with the
    message's long-term key; and then the message's key is the pinned key of the
    address if it has one, an INIT of an address without a pin whose identity the
    table knows carries a valid tag under that identity, and a RESP answers a
    pending INIT of this node and is authenticated under its ephemeral key; the
    session counts as verified exactly if the pin is. *)
Theorem sessions_follow_pins (n : node) (src idx : Z) (msg : bramble_key_exchange_t)
    (pinned : option (list Z)) (rest : list dm_handshake_work_item_t) :
  node_ok n → nd_work n = WkMessage src idx msg pinned :: rest →
  wp (handshake_worker_step hmac) n (λ _ n',
    ∀ i s', nd_table n' !! i = Some s' → ss_state s' ≠ DM_STATE_NONE →
    (∃ s, nd_table n !! i = Some s ∧ same_session s s') ∨
    (ss_peer_addr s' = src ∧ ss_peer_id_pub s' = ke_long_term_pubkey msg ∧
     ss_verified s' = identity_store_is_verified (nd_pins n) src ∧
     (∀ p, pinned = Some p → ss_peer_id_pub s' = p) ∧
     (ke_type msg = KE_TYPE_INIT ∧ init_accepted n src msg pinned ∨
      ke_type msg = KE_TYPE_RESP ∧ ∃ pe k, pending_eph_lookup (nd_eph n) src = Some pe ∧
        dm_verify_resp msg (nd_id n) (pe_eph_priv pe) (pe_eph_pub pe) (u16 (ke_key_id msg)) pinned =
          Some (0, k)))).
Proof.
  intros Hok Hw. destruct (set_work_ok _ _ _ Hw Hok) as [Hok1 Hm]. cbn [work_ok] in Hm.
  unfold handshake_worker_step. apply wp_bind, wp_get. rewrite Hw. apply wp_bind, wp_modify.
  destruct (ke_type msg =? KE_TYPE_INIT) eqn:E1; conds.
  - eapply wp_mono; [by apply process_ke_init_spec|]. intros [] n' Ho i s' Hi Hn.
    destruct (ke_outcome_sessions _ _ _ _ _ _ _ _ Ho Hi Hn) as [?|(HP & F1 & F2 & F3)]; [by left|].
    right. split; [done|]. split; [done|]. split; [done|]. split.
    + intros p Hp. rewrite F2. by apply HP.
    + left. split; [done|]. exact HP.
  - destruct (ke_type msg =? KE_TYPE_RESP) eqn:E2; conds.
    + eapply wp_mono; [by apply process_ke_resp_spec|]. intros [] n' Ho i s' Hi Hn.
      destruct (ke_outcome_sessions _ _ _ _ _ _ _ _ Ho Hi Hn) as [?|(HP & F1 & F2 & F3)]; [by left|].
      right. split; [done|]. split; [done|]. split; [done|]. split.
      * intros p Hp. rewrite F2. destruct HP as (pe & k & _ & Hv).
        apply verify_resp_sound in Hv as (_ & Hpm & _); [|apply Hm|apply Hm]. subst pinned. by apply pin_match.
      * right. split; [done|]. exact HP.
    + apply wp_ret. intros i s' Hi Hn. left. exists s'. split; [done|apply same_session_refl].
Qed.

(** ** Stalls *)

Lemma alloc_capped t p now :
  handshaking_count t = DM_MAX_HANDSHAKING → dm_lookup t p = None → dm_alloc t p now = (None, t).
Proof. intros Hc Hl. unfold dm_alloc. rewrite Hl, Hc, Nat.leb_refl. done. Qed.

(** Eight stalled handshakes block every new peer: a handshaking slot is freed
    only by its own peer, so once eight peers that never answered hold one, a
    message to an address without a session fails and the handshake of such an
    address establishes nothing, however old the eight attempts are. *)
Theorem stalled_handshakes_block_new_peers (n : node) (peer : Z) :
  node_ok n → handshaking_count (nd_table n) = DM_MAX_HANDSHAKING → dm_lookup (nd_table n) peer = None →
  (∀ v idx data uid, env_ok v →
     wp (mesh_send_dm hmac idx peer data uid) (set_env n v) (λ r n', r = 0 ∧ nd_table n' = nd_table n)) ∧
  (∀ v idx init pinned, env_ok v → msg_ok init →
     wp (process_ke_init hmac peer idx init pinned) (set_env n v) (λ _ n', nd_table n' = nd_table n)).
Proof.
  intros Hok Hc Hl.
  assert (Hokv : ∀ v, env_ok v → node_ok (set_env n v)).
  { intros v Hv. destruct Hok as (? & ? & ? & ? & ? & ? & ? & ? & ?). unfold node_ok. fields. }
  split.
  - intros v idx data uid Hv. unfold mesh_send_dm. split_if.
    { apply wp_bind. eapply wp_mono; [apply wp_update_by_uid|]. intros b n1 H1. apply wp_ret.
      split; [done|]. by destruct H1 as (_ & -> & _). }
    apply wp_bind, wp_get. cbn [set_env nd_table nd_env]. rewrite Hl, alloc_capped by done.
    apply wp_bind. eapply wp_mono; [apply wp_update_by_uid|]. intros b n1 H1. apply wp_ret.
    split; [done|]. by destruct H1 as (_ & -> & _).
  - intros v idx init pinned Hv Hm. eapply wp_mono; [apply process_ke_init_spec; auto|].
    intros [] n' (_ & _ & _ & t1 & Ht1 & Hout). cbn [set_env nd_table] in *.
    assert (t1 = nd_table n) as ->.
    { destruct Ht1 as [->|[_ ->]]; [done|]. unfold dm_session_teardown. by rewrite Hl. }
    destruct Hout as [?|(_ & i & t & e & ikm & key & Ha & _)]; [done|].
    rewrite alloc_capped in Ha by done. done.
Qed.

(** Unanswered handshakes use up the ephemeral keys: when the eight entries for
    pending ephemeral keys belong to other peers, starting a handshake with one
    more keeps no key, so its answer is ignored, whatever it is. *)
Theorem unanswered_handshakes_exhaust_ephemerals (n : node) (peer idx e : Z) :
  node_ok n → Forall (λ pe, pe_used pe = true ∧ pe_peer_addr pe ≠ peer) (nd_eph n) →
  wp (initiate_dm_handshake hmac peer idx e) n (λ _ n',
    nd_eph n' = nd_eph n ∧ ∀ resp pinned, process_ke_resp hmac peer resp pinned n' = Some (tt, n')).
Proof.
  intros Hok Hall.
  assert (Hnone : find_index (eph_for peer) (nd_eph n) = None).
  { apply find_index_None. eapply list.Forall_impl; [exact Hall|]. intros pe [Hu Hp].
    unfold eph_for. rewrite Hu. by apply Z.eqb_neq. }
  assert (Hfull : find_index (λ pe, negb (pe_used pe)) (nd_eph n) = None).
  { apply find_index_None. eapply list.Forall_impl; [exact Hall|]. by intros pe [-> _]. }
  eapply wp_mono; [by apply initiate_spec|]. intros [] n' (_ & _ & _ & _ & _ & _ & He).
  assert (Heph : nd_eph n' = nd_eph n).
  { destruct He as [?|(priv & pub & ->)]; [done|]. unfold pending_eph_store. by rewrite Hnone, Hfull. }
  split; [done|]. intros resp pinned. unfold process_ke_resp, mbind, M_bind, get, pending_eph_lookup.
  rewrite Heph, Hnone. done.
Qed.

(** A lost answer to a rekey splits the session: both ends are at an epoch with
    one root; the responder answers a rekey and moves to the next epoch, and if
    the answer arrives the two roots agree again; if it is lost, the initiator's
    retry names the same next epoch, the responder, already there, installs a
    fresh root from the new secret alone while the initiator, on its answer,
    chains the old root forward, so both are at the next epoch with roots derived
    from different inputs. *)
Theorem lost_rekey_answer_splits_session (A B : Z) (sA sB : dm_session_t) (now : Z) (vA vB : bool)
    (pA pB kA kB ikm1 ikm2 rk rk1 rk2 rk0 c1 c2 d1 d2 f1 f2 : list Z) :
  let e := ss_ke_epoch sA in
  let lo := Z.min A B in let hi := Z.max A B in
  A ≠ B → ss_ke_epoch sB = e →
  ss_state sA = DM_STATE_ACTIVE → ss_state sB = DM_STATE_ACTIVE →
  ch_valid (r_recv (ss_ratchet sA)) = true → ch_valid (r_recv (ss_ratchet sB)) = true →
  r_rk (ss_ratchet sA) = rk → r_rk (ss_ratchet sB) = rk →
  dm_ratchet_dh rk (take 32 ikm1) lo hi (e + 1) = Some rk1 → dm_derive_chain_pair rk1 = Some (c1, c2) →
  dm_ratchet_dh rk (take 32 ikm2) lo hi (e + 1) = Some rk2 → dm_derive_chain_pair rk2 = Some (d1, d2) →
  dm_ratchet_init ikm2 lo hi = Some (rk0, f1, f2) →
  let answered := (establish_session B A now vB pA kB (e + 1) (Some ikm1) sB).2 in
  let delivered := (establish_session A B now vA pB kA (e + 1) (Some ikm1) sA).2 in
  let retried := (establish_session B A now vB pA kB (e + 1) (Some ikm2) answered).2 in
  let completed := (establish_session A B now vA pB kA (e + 1) (Some ikm2) sA).2 in
  r_rk (ss_ratchet answered) = rk1 ∧ r_rk (ss_ratchet delivered) = rk1 ∧
  ss_ke_epoch retried = e + 1 ∧ ss_ke_epoch completed = e + 1 ∧
  r_rk (ss_ratchet retried) = rk0 ∧ r_rk (ss_ratchet completed) = rk2.
Proof.
  intros e lo hi Hne HeB HA HB HvA HvB HrA HrB H1 H1c H2 H2c H0 answered delivered retried completed.
  assert (Hlo : ∀ x y : Z, (if x <? y then x else y) = Z.min x y ∧ (if x <? y then y else x) = Z.max x y)
    by (intros x y; destruct (x <? y) eqn:E; conds; lia).
  assert (Hlt : (e + 1 >? e) = true) by (rewrite Z.gtb_ltb; apply Z.ltb_lt; lia).
  assert (Hbump : ∀ X Y v p k ikm r ca cb s, (X = A ∧ Y = B ∨ X = B ∧ Y = A) → ss_ke_epoch s = e →
    ss_state s = DM_STATE_ACTIVE → ch_valid (r_recv (ss_ratchet s)) = true → r_rk (ss_ratchet s) = rk →
    dm_ratchet_dh rk (take 32 ikm) lo hi (e + 1) = Some r → dm_derive_chain_pair r = Some (ca, cb) →
    let s' := (establish_session X Y now v p k (e + 1) (Some ikm) s).2 in
    r_rk (ss_ratchet s') = r ∧ ss_ke_epoch s' = e + 1).
  { intros X Y v p k ikm r ca cb s HXY Hke Hst Hval Hrk Hdh Hcp. unfold establish_session.
    rewrite (proj2 (dm_in_state_spec _ _) Hst), Hval, Hke, Hlt. rewrite bool_decide_eq_true_2 by eauto.
    cbn [andb]. unfold dm_session_epoch_bump. cbn [ss_ratchet r_rk].
    destruct (Hlo X Y) as [-> ->].
    replace (Z.min X Y) with lo by (unfold lo; destruct HXY as [[-> ->]|[-> ->]]; lia).
    replace (Z.max X Y) with hi by (unfold hi; destruct HXY as [[-> ->]|[-> ->]]; lia).
    rewrite Hrk, Hdh. cbn [mbind option_bind]. rewrite Hcp. cbn [mbind option_bind].
    destruct (dm_ratchet_install_chains _ _ _ _). done. }
  destruct (Hbump B A vB pA kB ikm1 rk1 c1 c2 sB) as [R1 E1]; auto.
  destruct (Hbump A B vA pB kA ikm1 rk1 c1 c2 sA) as [R2 _]; auto.
  destruct (Hbump A B vA pB kA ikm2 rk2 d1 d2 sA) as [R3 E3]; auto.
  split; [done|]. split; [done|]. fold answered in E1, R1. fold completed in R3, E3.
  assert (Hret : r_rk (ss_ratchet retried) = rk0 ∧ ss_ke_epoch retried = e + 1).
  { unfold retried, establish_session. rewrite E1.
    assert ((e + 1 >? e + 1) = false) as -> by (rewrite Z.gtb_ltb; apply Z.ltb_irrefl).
    rewrite andb_false_r. unfold dm_session_ratchet_init_state.
    destruct (Hlo B A) as [-> ->].
    replace (Z.min B A) with lo by (unfold lo; lia). replace (Z.max B A) with hi by (unfold hi; lia).
    rewrite H0. destruct (dm_ratchet_install_chains _ _ _ _). done. }
  destruct Hret as [Hr1 Hr2]. done.
Qed.

(** ** What a message without a session puts on air *)

Definition is_tx (e : dm_event) : Prop := match e with DTx _ _ _ => True | _ => False end.
#[local] Instance is_tx_dec e : Decision (is_tx e).
Proof. destruct e; apply _. Defined.
(** The transmissions of a node, in order. *)
Definition air (n : node) : list dm_event := filter is_tx (nd_out n).

(** Equal up to the queued payloads, the stored messages and the file writes. *)
Definition same_but_text (n1 n2 : node) : Prop :=
  n2 = set_out (set_msgs (set_queue n1 (nd_queue n2)) (nd_msgs n2)) (nd_out n2) ∧ air n1 = air n2.

(** Two runs that agree on results and on everything but texts. *)
Definition agree {A} (r1 r2 : option (A * node)) : Prop :=
  match r1, r2 with
  | Some (x1, n1), Some (x2, n2) => x1 = x2 ∧ same_but_text n1 n2
  | None, None => True
  | _, _ => False
  end.
Definition oblivious {A} (m : M A) : Prop := ∀ n1 n2, same_but_text n1 n2 → agree (m n1) (m n2).

Lemma agree_bind {A B} (m1 m2 : M A) (k1 k2 : A → M B) n1 n2 :
  agree (m1 n1) (m2 n2) →
  (∀ x n1' n2', same_but_text n1' n2' → agree (k1 x n1') (k2 x n2')) →
  agree ((m1 ≫= k1) n1) ((m2 ≫= k2) n2).
Proof.
  unfold mbind, M_bind. intros Hm Hk.
  destruct (m1 n1) as [[x1 n1']|], (m2 n2) as [[x2 n2']|]; try done.
  destruct Hm as [-> Hn]. by apply Hk.
Qed.
(** Two continuations of the same step. *)
Lemma agree_after {A B} (m : M A) (k1 k2 : A → M B) n :
  (∀ x n', m n = Some (x, n') → agree (k1 x n') (k2 x n')) → agree ((m ≫= k1) n) ((m ≫= k2) n).
Proof. unfold mbind, M_bind. intros Hk. destruct (m n) as [[x n']|]; [by apply Hk|done]. Qed.
Lemma oblivious_bind {A B} (m : M A) (k : A → M B) :
  oblivious m → (∀ x, oblivious (k x)) → oblivious (m ≫= k).
Proof. intros Hm Hk n1 n2 Hn. apply agree_bind; [by apply Hm|]. intros x. apply Hk. Qed.
Lemma oblivious_get {A} (k : node → M A) :
  (∀ n q ms out, k (set_out (set_msgs (set_queue n q) ms) out) = k n) →
  (∀ n, oblivious (k n)) → oblivious (get ≫= k).
Proof.
  intros Hk Hob n1 n2 Hn. unfold mbind, M_bind, get.
  assert (k n2 = k n1) as -> by (destruct Hn as [E _]; rewrite E; apply Hk). by apply Hob.
Qed.
Lemma oblivious_ret {A} (x : A) : oblivious (mret x).
Proof. by intros n1 n2 Hn. Qed.
Lemma oblivious_lift {A} (o : option A) : oblivious (lift o).
Proof. intros n1 n2 Hn. unfold agree, lift. by destruct o. Qed.
Lemma air_snoc n e : air (set_out n (nd_out n ++ [e])) = air n ++ filter is_tx [e].
Proof. unfold air. cbn [set_out nd_out]. by rewrite list.filter_app. Qed.

Lemma same_refl n : same_but_text n n.
Proof. split; [by destruct n|done]. Qed.
Lemma same_set_env n1 n2 v : same_but_text n1 n2 → same_but_text (set_env n1 v) (set_env n2 v).
Proof. intros [E Ea]. split; [rewrite E; by destruct n1|done]. Qed.
Lemma same_texts n1 n2 q1 q2 m1 m2 ps1 ps2 :
  same_but_text n1 n2 →
  same_but_text (set_out (set_msgs (set_queue n1 q1) m1) (nd_out n1 ++ [DPersist ps1]))
    (set_out (set_msgs (set_queue n2 q2) m2) (nd_out n2 ++ [DPersist ps2])).
Proof.
  intros [E Ea]. split; [rewrite E; by destruct n1|]. unfold air in *. cbn [set_out nd_out].
  rewrite !list.filter_app, Ea. done.
Qed.

Lemma oblivious_tx f k : oblivious (mesh_tx f k).
Proof.
  intros n1 n2 [E Ea]. unfold agree, mesh_tx. split; [by rewrite E|]. split; [rewrite E; by destruct n1|].
  unfold air in *. cbn [set_out nd_out]. rewrite !list.filter_app, Ea. by rewrite E.
Qed.
Lemma oblivious_packet_id : oblivious next_packet_id.
Proof.
  intros n1 n2 [E Ea]. unfold agree, next_packet_id.
  assert (nd_counter n2 = nd_counter n1) as -> by (by rewrite E).
  assert (nd_env n2 = nd_env n1) as -> by (by rewrite E).
  destruct (nd_counter n1 =? 0); (split; [done|]); (split; [rewrite E; by destruct n1|done]).
Qed.
Lemma oblivious_nonce : oblivious nonce_next.
Proof.
  intros n1 n2 [E Ea]. unfold agree, nonce_next. split; [by rewrite E|].
  split; [rewrite E; by destruct n1|done].
Qed.
Lemma oblivious_generate : oblivious crypto_generate_identity.
Proof.
  intros n1 n2 [E Ea]. unfold agree, crypto_generate_identity. split; [by rewrite E|].
  split; [rewrite E; by destruct n1|done].
Qed.
Lemma oblivious_acks a : oblivious (modify (λ n, set_acks n a)).
Proof. intros n1 n2 [E Ea]. split; [done|]. split; [rewrite E; by destruct n1|done]. Qed.
Lemma oblivious_eph f : oblivious (modify (λ n, set_eph n (f (nd_eph n)))).
Proof. intros n1 n2 [E Ea]. split; [done|]. split; [rewrite E; by destruct n1|done]. Qed.

Ltac oblivious_step :=
  first [ apply oblivious_ret | apply oblivious_lift | apply oblivious_tx | apply oblivious_packet_id
        | apply oblivious_nonce | apply oblivious_generate | apply oblivious_acks | apply oblivious_eph ].

Lemma oblivious_send_data dest payload ch ty : oblivious (send_data_packet hmac dest payload ch ty).
Proof.
  unfold send_data_packet. apply oblivious_get; [done|]. intros n0. cbn zeta.
  split_if; [oblivious_step|]. apply oblivious_bind; [oblivious_step|]. intros pkt.
  apply oblivious_get; [done|]. intros n. apply oblivious_bind; [oblivious_step|]. intros [r aad].
  apply oblivious_bind; [oblivious_step|]. intros [nonce|]; [|oblivious_step].
  destruct (channel_msg_encrypt _ _ _ _ _ _ _) as [[ct tag]|]; [|oblivious_step].
  apply oblivious_bind; [oblivious_step|]. intros ciphertext.
  destruct (data_auth_sign _ _ _ _) as [rc mac]. split_if; [oblivious_step|].
  apply oblivious_bind; [oblivious_step|]. intros buf.
  apply oblivious_bind; [oblivious_step|]. intros ok. split_if; [oblivious_step|].
  apply oblivious_bind; [|intros []; oblivious_step]. split_if; [|oblivious_step].
  apply oblivious_get; [done|]. intros n'. apply oblivious_bind; [oblivious_step|].
  intros [r' acks]. oblivious_step.
Qed.

Lemma oblivious_initiate dest idx : oblivious (initiate_dm_handshake hmac dest idx 0).
Proof.
  unfold initiate_dm_handshake. apply oblivious_bind; [oblivious_step|]. intros [g|]; [|oblivious_step].
  apply oblivious_get; [done|]. intros n. cbn zeta.
  destruct (dm_build_init _ _ _ _ _ _) as [init|]; [|oblivious_step].
  apply oblivious_bind.
  { apply (oblivious_eph (λ eph, pending_eph_store eph dest _ _)). }
  intros []. apply oblivious_bind; [|intros ?; oblivious_step].
  unfold send_ke_envelope. apply oblivious_get; [done|]. intros n'. split_if; [oblivious_step|].
  apply oblivious_bind; [oblivious_step|]. intros [r wire]. destruct r; [|oblivious_step].
  apply oblivious_send_data.
Qed.

Lemma same_persist n1 n2 m1 m2 ps1 ps2 :
  same_but_text n1 n2 →
  same_but_text (set_out (set_msgs n1 m1) (nd_out n1 ++ [DPersist ps1]))
    (set_out (set_msgs n2 m2) (nd_out n2 ++ [DPersist ps2])).
Proof.
  intros [E Ea]. split; [rewrite E; by destruct n1|]. unfold air in *. cbn [set_out nd_out].
  rewrite !list.filter_app, Ea. done.
Qed.

(** Row updates whose result is dropped. *)
Lemma oblivious_update {A} u p st (x : A) : oblivious (msgs_update_by_uid u p st ;; mret x).
Proof.
  intros n1 n2 Hn. unfold mbind, M_bind, msgs_update_by_uid.
  destruct (msg_store_update_by_uid (nd_msgs n1) u p st) as [[b1 s1] ps1],
    (msg_store_update_by_uid (nd_msgs n2) u p st) as [[b2 s2] ps2]. split; [done|]. by apply same_persist.
Qed.
Lemma add_dm_agree p d1 d2 i st u n1 n2 :
  same_but_text n1 n2 → agree (msgs_add_dm_uid p d1 i st u n1) (msgs_add_dm_uid p d2 i st u n2).
Proof.
  intros Hn. unfold msgs_add_dm_uid.
  destruct (msg_store_add_dm_uid (nd_msgs n1) p MSG_DIR_OUTGOING d1 0 0 i st u _) as [s1 ps1],
    (msg_store_add_dm_uid (nd_msgs n2) p MSG_DIR_OUTGOING d2 0 0 i st u _) as [s2 ps2].
  split; [done|]. by apply same_persist.
Qed.

Lemma queue_put_agree i dest d1 d2 idx uid n :
  (length d1 ≤ BRAMBLE_MAX_PACKET_SIZE)%nat → (length d2 ≤ BRAMBLE_MAX_PACKET_SIZE)%nat →
  agree (queue_put i dest d1 idx uid n) (queue_put i dest d2 idx uid n).
Proof.
  intros L1 L2. unfold queue_put, mbind, M_bind, now_ms, gets, modify, mret, M_ret.
  rewrite !in_buf_fits by done. cbn [lift].
  destruct (next_packet_id n) as [[pkt n']|]; [|done]. split; [done|]. split; [by destruct n'|done].
Qed.
Lemma queue_session_agree dest d1 d2 idx uid n :
  (length d1 ≤ BRAMBLE_MAX_PACKET_SIZE)%nat → (length d2 ≤ BRAMBLE_MAX_PACKET_SIZE)%nat →
  agree (queue_session_message dest d1 idx uid n) (queue_session_message dest d2 idx uid n).
Proof.
  intros L1 L2. unfold queue_session_message, gets, mbind, M_bind.
  destruct (if uid =? 0 then None else _) as [i|]; [split; [done|apply same_refl]|].
  destruct (find_index _ (nd_queue n)) as [i|]; [by apply queue_put_agree|].
  destruct (oldest_session_entry (nd_queue n)) as [o|]; [|split; [done|apply same_refl]].
  cbn [emit modify]. destruct (msgs_update_by_uid _ _ _ _) as [[b n']|]; [|done]. by apply queue_put_agree.
Qed.

Lemma await_agree idx dest d1 d2 uid b n :
  (length d1 ≤ BRAMBLE_MAX_PACKET_SIZE)%nat → (length d2 ≤ BRAMBLE_MAX_PACKET_SIZE)%nat →
  agree (await_session hmac idx dest d1 uid b n) (await_session hmac idx dest d2 uid b n).
Proof.
  intros L1 L2. unfold await_session. apply agree_after. intros row n0 _.
  apply agree_bind; [by apply queue_session_agree|]. intros pkt n1 n2 Hn.
  destruct (pkt =? 0); [by apply oblivious_update|].
  apply agree_bind.
  { destruct b; cbn [negb when]; [by apply oblivious_ret|by apply oblivious_initiate]. }
  intros [] n3 n4 Hn'. apply agree_bind; [|intros [] ? ? ?; by apply oblivious_ret].
  destruct (uid =? 0); cbn [when]; [by apply add_dm_agree|by apply oblivious_ret].
Qed.

(** A direct message never travels without a session: sending to an address
    with no active session transmits the same frames whatever the message is, so
    nothing on air depends on its text, under the channel key or otherwise; the
    call returns the same result for every message that fits. *)
Theorem unsessioned_dm_stays_off_air (n : node) (idx dest uid : Z) (d1 d2 : list Z) :
  node_ok n → (length d1 ≤ FRAG_MAX_PLAINTEXT)%nat → (length d2 ≤ FRAG_MAX_PLAINTEXT)%nat →
  (∀ i s, dm_lookup (nd_table n) dest = Some i → nd_table n !! i = Some s →
     ss_state s ≠ DM_STATE_ACTIVE) →
  ∃ r n1 n2, mesh_send_dm hmac idx dest d1 uid n = Some (r, n1) ∧
    mesh_send_dm hmac idx dest d2 uid n = Some (r, n2) ∧ air n1 = air n2.
Proof.
  intros Hok L1 L2 Hact.
  assert (FRAG_MAX_PLAINTEXT ≤ BRAMBLE_MAX_PACKET_SIZE)%nat by (unfold FRAG_MAX_PLAINTEXT, BRAMBLE_MAX_PACKET_SIZE; lia).
  assert (length d1 ≤ BRAMBLE_MAX_PACKET_SIZE ∧ length d2 ≤ BRAMBLE_MAX_PACKET_SIZE)%nat as [B1 B2] by lia.
  assert (Hag : agree (mesh_send_dm hmac idx dest d1 uid n) (mesh_send_dm hmac idx dest d2 uid n)).
  { unfold mesh_send_dm. rewrite (proj2 (Nat.ltb_ge _ _) L1), (proj2 (Nat.ltb_ge _ _) L2).
    apply agree_after. intros ? ? [= <- <-].
    destruct (dm_lookup (nd_table n) dest) as [i|] eqn:El.
    - destruct (dm_lookup_Some _ _ _ El) as (s & Hs & _).
      rewrite (list_lookup_total_correct _ _ _ Hs), (proj2 (dm_in_state_false _ _) (Hact i s eq_refl Hs)).
      cbn zeta. apply agree_after. intros [] n0 _. by apply await_agree.
    - cbn zeta. destruct (dm_alloc _ _ _) as [[i|] t]; [|apply oblivious_update, same_refl].
      apply agree_after. intros [] n0 _. apply agree_after. intros [] n1 _. by apply await_agree. }
  pose proof (mesh_send_dm_ok idx dest d1 uid n Hok) as W1.
  pose proof (mesh_send_dm_ok idx dest d2 uid n Hok) as W2. unfold wp in W1, W2.
  destruct (mesh_send_dm hmac idx dest d1 uid n) as [[r1 n1]|]; [|done].
  destruct (mesh_send_dm hmac idx dest d2 uid n) as [[r2 n2]|]; [|done].
  destruct Hag as [-> [_ Ha]]. eauto 10.
Qed.
End Specs.

(** ** The rate of re-handshakes *)

Definition tracked (rehs : list (Z * Z)) : list Z := filter (λ a, a ≠ 0) rehs.*1.
Definition rehs_ok (P : list Z) (rehs : list (Z * Z)) : Prop :=
  length rehs = DM_REHANDSHAKE_TRACK ∧ NoDup (tracked rehs) ∧ tracked rehs ⊆ P.

Lemma tracked_elem rehs p t : (p, t) ∈ rehs → p ≠ 0 → p ∈ tracked rehs.
Proof. intros Hin Hp. apply list_elem_of_filter. split; [done|]. by apply (list_elem_of_fmap_2 fst _ (p, t)). Qed.

Lemma tracked_insert rehs i p t :
  (i < length rehs)%nat → p ≠ 0 → ∃ l, tracked (<[i := (p, t)]> rehs) ≡ₚ p :: l ∧
    ∀ x u, rehs !! i = Some (x, u) → tracked rehs ≡ₚ (if decide (x = 0) then l else x :: l).
Proof.
  intros Hi Hp. destruct (lookup_lt_is_Some_2 rehs i Hi) as [[x u] Hx].
  exists (tracked (take i rehs ++ drop (S i) rehs)). unfold tracked. split.
  - rewrite insert_take_drop by done. rewrite !fmap_app. cbn [fmap list_fmap fst].
    rewrite !list.filter_app. cbn [filter list_filter]. rewrite decide_True by done.
    by rewrite <- Permutation_middle.
  - intros x' u' Hx'. rewrite Hx in Hx'. injection Hx' as <- <-.
    rewrite <- (take_drop_middle rehs i (x, u) Hx) at 1. rewrite !fmap_app. cbn [fmap list_fmap fst].
    rewrite !list.filter_app. cbn [filter list_filter]. destruct (decide (x = 0)) as [->|Hx0].
    + by rewrite decide_False by (intros H; by apply H).
    + rewrite decide_True by done. by rewrite <- Permutation_middle.
Qed.

Lemma find_key_unique rehs p t u :
  NoDup (tracked rehs) → p ≠ 0 → (p, t) ∈ rehs → (p, u) ∈ rehs → t = u.
Proof.
  intros Hnd Hp. unfold tracked in Hnd. induction rehs as [|[q v] rehs IH]; [by rewrite elem_of_nil|].
  cbn [fmap list_fmap fst] in Hnd. rewrite list.filter_cons in Hnd.
  assert (Hq : q = p → ∀ w, (p, w) ∈ rehs → False).
  { intros -> w Hw. rewrite decide_True in Hnd by done. apply NoDup_cons in Hnd as [Hnd _].
    destruct Hnd. by eapply tracked_elem. }
  rewrite !elem_of_cons. intros [H1|H1] [H2|H2]; [congruence|..].
  - exfalso. injection H1 as -> ->. by eapply Hq.
  - exfalso. injection H2 as -> ->. by eapply Hq.
  - apply IH; [|done|done]. case_decide; [by apply NoDup_cons in Hnd as [_ Hnd]|done].
Qed.

Lemma rate_step P rehs p now :
  rehs_ok P rehs → p ∈ P → p ≠ 0 → (length P ≤ DM_REHANDSHAKE_TRACK)%nat →
  let '(ok, rehs') := dm_rehandshake_rate_ok_at rehs p now in
  rehs_ok P rehs' ∧ (∀ q t, q ≠ p → q ≠ 0 → (q, t) ∈ rehs → (q, t) ∈ rehs') ∧
  (ok = true → (p, now) ∈ rehs' ∧ ∀ t, (p, t) ∈ rehs → DM_REHANDSHAKE_MIN_INTERVAL_MS ≤ now ⊖ t) ∧
  (ok = false → rehs' = rehs).
Proof.
  intros (Hl & Hnd & Hsub) HpP Hp HP. unfold dm_rehandshake_rate_ok_at.
  assert (Hkeep : ∀ i x u, rehs !! i = Some (x, u) → (x = p ∨ x = 0) →
    ∀ q t, q ≠ p → q ≠ 0 → (q, t) ∈ rehs → (q, t) ∈ <[i := (p, now)]> rehs).
  { intros i x u Hi Hx q t Hq Hq0 (j & Hj)%list_elem_of_lookup.
    apply (list_elem_of_lookup_2 _ j). rewrite list_lookup_insert_ne; [done|]. intros ->.
    rewrite Hi in Hj. injection Hj as -> ->. destruct Hx; congruence. }
  assert (Hnew : ∀ i x u, rehs !! i = Some (x, u) → (p, now) ∈ <[i := (p, now)]> rehs).
  { intros i x u Hi. apply (list_elem_of_lookup_2 _ i), list_lookup_insert_eq. by eapply lookup_lt_Some. }
  destruct (find_index (λ e, e.1 =? p) rehs) as [i|] eqn:Ef.
  - destruct (find_index_Some _ _ _ Ef) as ([x u] & Hi & Hx & _). cbn [fst] in Hx. conds. subst x.
    rewrite (list_lookup_total_correct _ _ _ Hi). cbn [snd]. split_if; [done|]. conds.
    destruct (tracked_insert rehs i p now) as (l & Hl1 & Hl2); [by eapply lookup_lt_Some|done|].
    specialize (Hl2 p u Hi). rewrite decide_False in Hl2 by done.
    split; [|split; [by eapply Hkeep; [|left]|]].
    + split; [by rewrite length_insert|]. rewrite Hl1, <- Hl2. done.
    + split; [|done]. intros _. split; [by eapply Hnew|]. intros t Ht.
      assert (t = u) as -> by (eapply find_key_unique; [done..|]; by eapply list_elem_of_lookup_2). lia.
  - apply find_index_None in Ef.
    assert (Hnp : p ∉ tracked rehs).
    { intros [_ ([x u] & Hx & Hin)%list_elem_of_fmap]%list_elem_of_filter. cbn [fst] in Hx. subst x.
      rewrite list.Forall_forall in Ef. specialize (Ef _ Hin). cbn [fst] in Ef.
      by rewrite Z.eqb_refl in Ef. }
    assert (Hfree : ∃ i u, find_index (λ e, e.1 =? 0) rehs = Some i ∧ rehs !! i = Some (0, u)).
    { destruct (find_index (λ e, e.1 =? 0) rehs) as [i|] eqn:E0.
      - destruct (find_index_Some _ _ _ E0) as ([x u] & Hi & Hx & _). cbn [fst] in Hx. conds. subst x. eauto.
      - apply find_index_None in E0. exfalso.
        assert (Hlen : length (tracked rehs) = DM_REHANDSHAKE_TRACK).
        { unfold tracked. rewrite filter_Forall_id, length_fmap; [done|]. apply list.Forall_fmap.
          eapply list.Forall_impl; [exact E0|]. intros [x u] Hx. cbn in *. by conds. }
        assert (Hle : (length (p :: tracked rehs) ≤ length P)%nat).
        { apply submseteq_length, NoDup_submseteq; [by apply NoDup_cons|].
          intros x [->|?]%elem_of_cons; [done|by apply Hsub]. }
        cbn [length] in Hle. lia. }
    destruct Hfree as (i & u & -> & Hi).
    destruct (tracked_insert rehs i p now) as (l & Hl1 & Hl2); [by eapply lookup_lt_Some|done|].
    specialize (Hl2 0 u Hi). rewrite decide_True in Hl2 by done.
    split; [|split; [by eapply Hkeep; [|right]|]].
    + split; [by rewrite length_insert|]. rewrite Hl1, <- Hl2. split; [by apply NoDup_cons|].
      intros x [->|?]%elem_of_cons; [done|by apply Hsub].
    + split; [|done]. intros _. split; [by eapply Hnew|]. intros t Ht.
      destruct Hnp. by eapply tracked_elem.
Qed.

(** The verdicts of the rate limit over requests [(real time in ms, peer)]. *)
Fixpoint rate_run (rehs : list (Z * Z)) (reqs : list (Z * Z)) : list bool :=
  match reqs with
  | [] => []
  | (t, p) :: rest =>
      let '(ok, rehs') := dm_rehandshake_rate_ok_at rehs p (u32 t) in ok :: rate_run rehs' rest
  end.
Definition rate_reqs_ok (P : list Z) (since : Z) (reqs : list (Z * Z)) : Prop :=
  Forall (λ r, since ≤ r.1 ∧ r.2 ∈ P ∧ r.2 ≠ 0) reqs ∧ StronglySorted (λ a b, a.1 ≤ b.1) reqs.

Lemma rate_reqs_ok_cons P since t q reqs :
  rate_reqs_ok P since ((t, q) :: reqs) →
  since ≤ t ∧ q ∈ P ∧ q ≠ 0 ∧ rate_reqs_ok P since reqs ∧ rate_reqs_ok P t reqs.
Proof.
  intros [[(H1 & H2 & H3) H4]%Forall_cons [Hs Hle]%StronglySorted_inv]. cbn [fst snd] in *.
  repeat split; try done. apply list.Forall_forall. intros r Hr.
  rewrite list.Forall_forall in H4, Hle. specialize (H4 _ Hr). specialize (Hle _ Hr). cbn [fst] in Hle.
  by split; [|apply H4].
Qed.

Lemma real_time_age a b : b ≤ a → u32 a ⊖ u32 b ≤ a - b.
Proof. intros. unfold u32. Z.div_mod_to_equations. lia. Qed.

Lemma rate_later P rehs reqs j p T t2 :
  rehs_ok P rehs → (length P ≤ DM_REHANDSHAKE_TRACK)%nat → rate_reqs_ok P T reqs →
  (p, u32 T) ∈ rehs → p ≠ 0 → reqs !! j = Some (t2, p) → rate_run rehs reqs !! j = Some true →
  DM_REHANDSHAKE_MIN_INTERVAL_MS ≤ t2 - T.
Proof.
  intros Hok HP. revert rehs j T Hok. induction reqs as [|[t q] reqs IH]; [done|].
  intros rehs j T Hok Hreqs Hin Hp Hj Hv.
  destruct (rate_reqs_ok_cons _ _ _ _ _ Hreqs) as (HT & HqP & Hq & HrT & Hrt).
  pose proof (rate_step P rehs q (u32 t) Hok HqP Hq HP) as Hstep. cbn [rate_run] in Hv.
  destruct (dm_rehandshake_rate_ok_at rehs q (u32 t)) as [ok rehs'] eqn:E.
  destruct Hstep as (Hok' & Hkeep & Htrue & Hfalse).
  destruct j as [|j]; cbn in Hj, Hv.
  - injection Hj as -> ->. injection Hv as ->. destruct (Htrue eq_refl) as [_ Hage].
    specialize (Hage _ Hin). pose proof (real_time_age t2 T HT). lia.
  - destruct (decide (q = p)) as [->|Hne]; [|by eapply (IH rehs' j T); [..|apply Hkeep| | |]; try done; auto].
    destruct ok.
    + destruct (Htrue eq_refl) as [Hnew _].
      assert (DM_REHANDSHAKE_MIN_INTERVAL_MS ≤ t2 - t) by (by eapply (IH rehs' j t)). lia.
    + rewrite (Hfalse eq_refl) in *. by eapply (IH rehs j T).
Qed.

Lemma rehs_boot_ok P : rehs_ok P (replicate DM_REHANDSHAKE_TRACK (0, 0)).
Proof. split; [done|]. split; [apply NoDup_nil_2|]. intros x Hx. by apply elem_of_nil in Hx. Qed.

(** The re-handshake limit holds for ever: from boot, while at most eight
    addresses ask for one, two re-handshakes with the same address that are let
    through are at least 15 s of real time apart, over any sequence of requests,
    also across the wrap of the millisecond counter. *)
Theorem rehandshakes_rate_limited (P : list Z) (reqs : list (Z * Z)) (i j : nat) (p t1 t2 : Z) :
  (length P ≤ DM_REHANDSHAKE_TRACK)%nat → rate_reqs_ok P 0 reqs → (i < j)%nat →
  reqs !! i = Some (t1, p) → reqs !! j = Some (t2, p) →
  let passed := rate_run (replicate DM_REHANDSHAKE_TRACK (0, 0)) reqs in
  passed !! i = Some true → passed !! j = Some true → DM_REHANDSHAKE_MIN_INTERVAL_MS ≤ t2 - t1.
Proof.
  intros HP. cbn zeta. generalize (rehs_boot_ok P).
  generalize (replicate DM_REHANDSHAKE_TRACK (0, 0)) as rehs. generalize 0 as since.
  revert i j. induction reqs as [|[t q] reqs IH]; [done|].
  intros i j since rehs Hok Hreqs Hij Hi Hj Hvi Hvj.
  destruct (rate_reqs_ok_cons _ _ _ _ _ Hreqs) as (_ & HqP & Hq & Hrs & Hrt).
  pose proof (rate_step P rehs q (u32 t) Hok HqP Hq HP) as Hstep. cbn [rate_run] in Hvi, Hvj.
  destruct (dm_rehandshake_rate_ok_at rehs q (u32 t)) as [ok rehs'] eqn:E.
  destruct Hstep as (Hok' & _ & Htrue & _).
  destruct j as [|j]; [lia|]. cbn in Hj, Hvj. destruct i as [|i]; cbn in Hi, Hvi.
  - injection Hi as -> ->. injection Hvi as ->. destruct (Htrue eq_refl) as [Hnew _].
    by eapply (rate_later P rehs' reqs j p t1).
  - eapply (IH i j since rehs'); try done. lia.
Qed.
Lemma rehandshakes_rate_limited_witness :
  rate_run (replicate DM_REHANDSHAKE_TRACK (0, 0))
    [(4294960000, 7); (4294960000, 9); (4294967000, 7); (4294976000, 7)] = [true; true; false; true] ∧
  DM_REHANDSHAKE_MIN_INTERVAL_MS ≤ 4294976000 - 4294960000.
Proof.
  split; [reflexivity|].
  apply (rehandshakes_rate_limited [7; 9] [(4294960000, 7); (4294960000, 9); (4294967000, 7); (4294976000, 7)]
    0 3 7 4294960000 4294976000); try reflexivity.
  - unfold DM_REHANDSHAKE_TRACK. cbn. lia.
  - split.
    + repeat (apply Forall_cons; split; [cbn [fst snd]; split; [lia|];
        split; [apply (bool_decide_eq_true_1 _); reflexivity|lia]|]). apply Forall_nil_2.
    + repeat (constructor; [|repeat (constructor; [cbn; lia|]); constructor]). constructor.
  - lia.
Defined.

(** ** Examples: a node that booted and sent to eight peers nobody answers for *)

#[local] Existing Instance toy_crypto.
#[local] Existing Instance toy_id_crypto.

Definition toy_env (t : Z) : dm_env :=
  mk_dm_env t (replicate 64 true) (replicate 16 (Some (demo_id 6 0)))
    (replicate 64 (Some (replicate 12 9))) (seqZ 1000 64) 0 0.
Definition booted : node :=
  mk_node (demo_id 5 50) toy_key false 3 [mk_channel (replicate 32 1) 7 0] 0 (identity_store_init 0)
    neighbor_init dm_table_init (replicate DM_REHANDSHAKE_TRACK (0, 0)) (replicate DM_MAX_HANDSHAKING eph_zero)
    (replicate DM_HS_DEDUP_MAX inhabitant) (replicate MAX_QUEUED_MSGS inhabitant) [] pending_ack_init
    msg_store_init 0 (toy_env 1000) [].
Definition after (n : node) (ops : list dm_op) : node :=
  match for_each ops (run_op toy_hmac) n with Some (_, n') => n' | None => n end.

Lemma toy_env_ok t : env_ok (toy_env t).
Proof. split; apply Forall_replicate; by intros ? [= <-]. Qed.
Lemma booted_ok : node_ok booted.
Proof.
  unfold node_ok. fields; [apply toy_env_ok|apply dm_table_init_ok|vm_compute; lia..].
Qed.
Lemma after_ok n ops : node_ok n → Forall op_ok ops → node_ok (after n ops).
Proof.
  intros Hn Ho. pose proof (run_ops_ok toy_hmac n ops Hn Ho) as H. unfold wp in H. unfold after.
  destruct (for_each ops (run_op toy_hmac) n) as [[[] n']|]; [|done]. apply H.
Qed.

Definition sends : list dm_op := map (λ p, OpSend 0 p [1; 2; 3] 0) (seqZ 100 8).
Definition stalled : node := after booted sends.
Lemma stalled_ok : node_ok stalled.
Proof. apply after_ok; [apply booted_ok|]. apply Forall_map, list.Forall_forall. done. Qed.

Definition mixed : list dm_op := sends ++ [OpEnvelope 7 0 (replicate 100 1); OpWorker; OpRekey 5].
Lemma mixed_ok : Forall op_ok mixed.
Proof.
  apply Forall_app. split; [apply Forall_map, list.Forall_forall; done|].
  repeat (apply Forall_cons; split; [cbn [op_ok]; try done; apply Forall_replicate; split; lia|]).
  apply Forall_nil_2.
Qed.
Lemma dm_handlers_safe_witness :
  wp (for_each mixed (run_op toy_hmac)) booted (λ _ n', node_ok n' ∧ nd_id n' = demo_id 5 50 ∧
    nd_pins n' = identity_store_init 0).
Proof. apply (dm_handlers_safe toy_hmac booted mixed booted_ok mixed_ok). Defined.

(** An INIT from a peer the node knows nothing about, waiting for the worker. *)
Definition peer_init : bramble_key_exchange_t :=
  default (mk_key_exchange ke_zero_header 0 [] [] 0 0 [])
    (dm_build_init (demo_id 3 10) (replicate 32 8) (replicate 32 8) 50 0 None).
Definition answering : node := set_work booted [WkMessage 10 0 peer_init None].
Lemma answering_ok : node_ok answering.
Proof.
  destruct booted_ok as (? & ? & ? & ? & ? & ? & ? & ? & ?). unfold node_ok. fields; [vm_compute; lia|].
  apply Forall_cons. split; [|apply Forall_nil_2]. split; [reflexivity|].
  apply (bool_decide_eq_true_1 _). vm_compute. reflexivity.
Qed.
Lemma answering_establishes :
  (r ← handshake_worker_step toy_hmac answering; s ← nd_table r.2 !! 0%nat; Some (ss_state s)) =
  Some DM_STATE_ACTIVE.
Proof. vm_compute. reflexivity. Qed.
Lemma peer_init_key : ke_long_term_pubkey peer_init = replicate 32 3.
Proof. vm_compute. reflexivity. Qed.
Lemma answering_empty i s : nd_table answering !! i = Some s → ss_state s = DM_STATE_NONE.
Proof. by intros [-> _]%lookup_replicate. Qed.
Lemma sessions_follow_pins_witness :
  ∃ n' s, handshake_worker_step toy_hmac answering = Some (tt, n') ∧ nd_table n' !! 0%nat = Some s ∧
    ss_state s = DM_STATE_ACTIVE ∧ ss_peer_addr s = 10 ∧ ss_peer_id_pub s = replicate 32 3.
Proof.
  destruct (wp_elim _ _ _
    (sessions_follow_pins toy_hmac answering 10 0 peer_init None [] answering_ok eq_refl)) as ([] & n' & E & H).
  pose proof answering_establishes as Hs. rewrite E in Hs.
  cbn [mbind option_bind snd] in Hs. destruct (nd_table n' !! 0%nat) as [s|] eqn:Et; [|discriminate Hs].
  injection Hs as Ha. exists n', s. split; [exact E|]. split; [exact Et|]. split; [exact Ha|].
  destruct (H 0%nat s Et) as [(s0 & H0 & (_ & _ & _ & _ & _ & Hst & _))|(Hp & Hk & _)].
  - rewrite Ha. discriminate.
  - rewrite (answering_empty _ _ H0), Ha in Hst. discriminate Hst.
  - split; [exact Hp|]. exact (eq_trans Hk peer_init_key).
Defined.

Lemma stalled_handshakes_block_new_peers_witness :
  wp (mesh_send_dm toy_hmac 0 200 [1; 2; 3] 0) (set_env stalled (toy_env 4000000))
    (λ r n', r = 0 ∧ nd_table n' = nd_table stalled).
Proof.
  refine (proj1 (stalled_handshakes_block_new_peers toy_hmac stalled 200 stalled_ok _ _)
    (toy_env 4000000) 0 [1; 2; 3] 0 (toy_env_ok _)).
  - vm_compute. reflexivity.
  - vm_compute. reflexivity.
Defined.

Lemma unanswered_handshakes_exhaust_ephemerals_witness :
  wp (initiate_dm_handshake toy_hmac 200 0 0) stalled (λ _ n', nd_eph n' = nd_eph stalled).
Proof.
  eapply wp_mono; [apply (unanswered_handshakes_exhaust_ephemerals toy_hmac stalled 200 0 0 stalled_ok)|].
  - apply (bool_decide_eq_true_1 _). vm_compute. reflexivity.
  - intros x n' H. exact (proj1 H).
Defined.

Definition demo_session (peer : Z) : dm_session_t :=
  mk_session peer (replicate 32 4) (replicate 32 3) 0 0 0 2 DM_STATE_ACTIVE false
    (mk_ratchet (replicate 32 4) (mk_chain (replicate 32 1) 0 0 true) (mk_chain (replicate 32 2) 0 0 true)
       skip_init chain_zero skip_init 0).
Lemma lost_rekey_answer_splits_session_witness :
  let lost := (establish_session 20 10 5 false [] [] 3 (Some (replicate 32 7)) (demo_session 10)).2 in
  let retried := (establish_session 20 10 5 false [] [] 3 (Some (replicate 32 8)) lost).2 in
  let completed := (establish_session 10 20 5 false [] [] 3 (Some (replicate 32 8)) (demo_session 20)).2 in
  ss_ke_epoch retried = 3 ∧ ss_ke_epoch completed = 3 ∧
  r_rk (ss_ratchet retried) ≠ r_rk (ss_ratchet completed).
Proof.
  intros lost retried completed.
  destruct (lost_rekey_answer_splits_session 10 20 (demo_session 20) (demo_session 10) 5 false false
    [] [] [] [] (replicate 32 7) (replicate 32 8) (replicate 32 4) _ _ _ _ _ _ _ _ _
    ltac:(discriminate) eq_refl eq_refl eq_refl eq_refl eq_refl eq_refl eq_refl
    eq_refl eq_refl eq_refl eq_refl eq_refl) as (_ & _ & H1 & H2 & H3 & H4).
  split; [exact H1|]. split; [exact H2|]. unfold retried, completed, lost.
  intros E. assert (E' := eq_trans (eq_sym H3) (eq_trans E H4)).
  clear -E'. vm_compute in E'. discriminate E'.
Defined.

Lemma unsessioned_dm_stays_off_air_witness :
  ∃ r n1 n2, mesh_send_dm toy_hmac 0 200 [1; 2; 3] 0 booted = Some (r, n1) ∧
    mesh_send_dm toy_hmac 0 200 [9; 9] 0 booted = Some (r, n2) ∧ air n1 = air n2.
Proof.
  apply (unsessioned_dm_stays_off_air toy_hmac booted 0 200 0 [1; 2; 3] [9; 9] booted_ok).
  - unfold FRAG_MAX_PLAINTEXT. cbn. lia.
  - unfold FRAG_MAX_PLAINTEXT. cbn. lia.
  - intros i s H. vm_compute in H. discriminate.
Defined.
