(* ===== verification/Receipts.v ===== *)
(** * Delivery receipts and the delivery log
    ([main/broadcast_delivery_receipt.c], [main/delivery_event_ring.c])

    When a broadcast is confirmed, when each node may answer, how the retry delay
    follows the airtime budget, and the ring of delivery events that the user
    interfaces poll by sequence number. *)

From stdpp Require Import base strings numbers sets option decidable list.
From S2P Require Import Prelude Tables Packet NetworkKey RoutingAuth.

(** ** Policy and timing *)

Definition BROADCAST_RECEIPT_DELAY_BASE_MS : Z := 300.
Definition BROADCAST_RECEIPT_SLOT_SPACING_MS : Z := 1000.
Definition BROADCAST_RECEIPT_SLOT_BUCKETS_MIN : Z := 4.
Definition BROADCAST_RECEIPT_SLOT_BUCKETS_MAX : Z := 32.
Definition BROADCAST_RECEIPT_RETRY_COUNT : Z := 3.
Definition RECEIPT_POLICY_FULL_MAX_PEERS : Z := 15.
Definition RECEIPT_POLICY_NEIGHBORS_MAX_PEERS : Z := 40.
Definition RECEIPT_BUDGET_MAX_MS : Z := 12000.

Definition mesh_broadcast_receipt_policy (dest_addr peer_count : Z) : Z :=
  if negb (dest_addr =? UINT32_MAX) then 0
  else if peer_count >? RECEIPT_POLICY_NEIGHBORS_MAX_PEERS then 0
  else if peer_count >? RECEIPT_POLICY_FULL_MAX_PEERS then 1
  else 2.
Definition mesh_should_emit_broadcast_delivery_receipt (dest_addr peer_count : Z) : bool :=
  mesh_broadcast_receipt_policy dest_addr peer_count >? 0.
Definition mesh_broadcast_receipt_slot_delay_ms (local_addr original_packet_id peer_count : Z) : Z :=
  let buckets := 2 * peer_count in
  let buckets := if buckets <? BROADCAST_RECEIPT_SLOT_BUCKETS_MIN
                 then BROADCAST_RECEIPT_SLOT_BUCKETS_MIN else buckets in
  let buckets := if buckets >? BROADCAST_RECEIPT_SLOT_BUCKETS_MAX
                 then BROADCAST_RECEIPT_SLOT_BUCKETS_MAX else buckets in
  let slot := Z.lxor local_addr original_packet_id mod buckets in
  BROADCAST_RECEIPT_DELAY_BASE_MS + slot * BROADCAST_RECEIPT_SLOT_SPACING_MS.
Definition mesh_broadcast_receipt_retry_count : Z := BROADCAST_RECEIPT_RETRY_COUNT.
(** [(scale_num, scale_den)] *)
Definition mesh_broadcast_receipt_retry_scale (receipt_budget_remaining_ms : Z) : Z * Z :=
  let remaining := if receipt_budget_remaining_ms >? RECEIPT_BUDGET_MAX_MS
                   then RECEIPT_BUDGET_MAX_MS else receipt_budget_remaining_ms in
  let used := RECEIPT_BUDGET_MAX_MS ⊖ remaining in
  let pct_used := u32 (used * 100) / RECEIPT_BUDGET_MAX_MS in
  if pct_used <? 30 then (1, 2) else if pct_used >? 70 then (2, 1) else (1, 1).

Section Build.
Context (hmac : list Z → list Z → list Z) (key : netkey).
(** The signed frame and its wire length; [buf] has [buf_len] bytes. *)
Definition mesh_build_broadcast_delivery_receipt_packet (local_addr receipt_packet_id
    original_src_addr original_packet_id hop_limit seq : Z) (buf : list Z) (buf_len : nat)
    : option (esp_err * list Z * nat) :=
  let receipt :=
    mk_receipt (mk_header BRAMBLE_VERSION PKT_TYPE_DELIVERY_RECEIPT 0 hop_limit original_src_addr
                  receipt_packet_id)
      local_addr original_packet_id 1 0 (replicate 8 0) (bramble_seq48_pack seq)
      (local_addr :: replicate (DELIVERY_RECEIPT_MAX_HOPS - 1) 0) in
  let receipt := (receipt_sign hmac key receipt).2 in
  '(e, buf) ← bramble_delivery_receipt_serialize receipt buf buf_len;
  Some (e, buf, match e with
                | ESP_OK => DELIVERY_RECEIPT_MIN_SIZE + Z.to_nat (rcpt_hop_count receipt) * 4
                | _ => 0
                end)%nat.
End Build.

Lemma receipt_slot_delay_bounds a p n :
  0 ≤ n → 300 ≤ mesh_broadcast_receipt_slot_delay_ms a p n ≤ 31300 ∧
  (n ≤ 2 → mesh_broadcast_receipt_slot_delay_ms a p n ≤ 3300).
Proof.
  intros Hn. unfold mesh_broadcast_receipt_slot_delay_ms, BROADCAST_RECEIPT_SLOT_BUCKETS_MIN,
    BROADCAST_RECEIPT_SLOT_BUCKETS_MAX, BROADCAST_RECEIPT_DELAY_BASE_MS, BROADCAST_RECEIPT_SLOT_SPACING_MS.
  set (x := Z.lxor a p). clearbody x.
  destruct (2 * n <? 4) eqn:E1; cbn zeta iota; (split_if; conds;
    match goal with |- context [x mod ?b] => pose proof (Z.mod_pos_bound x b ltac:(lia)) end; split; intros; lia).
Qed.

(** ** The ring *)

Definition DELIVERY_EVENT_RING_MAGIC : Z := 1146507847.
Definition DELIVERY_EVENT_RING_VERSION : Z := 1.
Definition DELIVERY_EVENT_RING_CAPACITY : nat := 512.
Definition DELIVERY_EVENT_ROUTE_MAX_HOPS : nat := 8.
Definition RECEIPT_DEDUPE_MAX : nat := 64.

Record delivery_event_record_t := mk_devent {
  de_event_seq : Z; de_message_id : Z; de_timestamp_s : Z; de_recipient_addr : Z;
  de_event_type : Z; de_route_len : Z; de_route_hops : list Z }.
Definition devent_zero : delivery_event_record_t :=
  mk_devent 0 0 0 0 0 0 (replicate DELIVERY_EVENT_ROUTE_MAX_HOPS 0).
#[global] Instance devent_inhabited : Inhabited delivery_event_record_t := populate devent_zero.

Record delivery_event_ring_t := mk_dring {
  dr_magic : Z; dr_version : Z; dr_capacity : nat; dr_count : nat; dr_write_index : nat;
  dr_next_seq : Z; dr_records : list delivery_event_record_t }.

Definition ring_oldest_index (r : delivery_event_ring_t) : nat :=
  if (dr_count r <? dr_capacity r)%nat then 0%nat else dr_write_index r.

Definition delivery_event_ring_init : delivery_event_ring_t :=
  mk_dring DELIVERY_EVENT_RING_MAGIC DELIVERY_EVENT_RING_VERSION DELIVERY_EVENT_RING_CAPACITY 0 0 1
    (replicate DELIVERY_EVENT_RING_CAPACITY devent_zero).

Definition devent_stored (e : delivery_event_record_t) (seq : Z) : delivery_event_record_t :=
  mk_devent seq (de_message_id e) (de_timestamp_s e) (de_recipient_addr e) (de_event_type e)
    (if de_route_len e >? Z.of_nat DELIVERY_EVENT_ROUTE_MAX_HOPS
     then Z.of_nat DELIVERY_EVENT_ROUTE_MAX_HOPS else de_route_len e)
    (de_route_hops e).
Definition delivery_event_ring_append (r : delivery_event_ring_t) (e : delivery_event_record_t)
    : Z * delivery_event_ring_t :=
  if (dr_capacity r =? 0)%nat then (0, r)
  else if negb (dr_magic r =? DELIVERY_EVENT_RING_MAGIC) ||
          negb (dr_version r =? DELIVERY_EVENT_RING_VERSION) then (0, r)
  else
    (dr_next_seq r,
     mk_dring (dr_magic r) (dr_version r) (dr_capacity r)
       (if (dr_count r <? dr_capacity r)%nat then S (dr_count r) else dr_count r)
       ((dr_write_index r + 1) mod dr_capacity r)%nat
       (dr_next_seq r ⊕ 1)
       (<[dr_write_index r := devent_stored e (dr_next_seq r)]> (dr_records r))).

Definition delivery_event_ring_latest_seq (r : delivery_event_ring_t) : Z :=
  if (dr_count r =? 0)%nat || (dr_next_seq r =? 0) then 0 else dr_next_seq r - 1.

Definition ring_row (r : delivery_event_ring_t) (i : nat) : delivery_event_record_t :=
  dr_records r !!! ((ring_oldest_index r + i) mod dr_capacity r)%nat.
(** [for (i; i < count && written < out_max; i++)] with [n] rows and [room] places left. *)
Fixpoint list_loop (r : delivery_event_ring_t) (since : Z) (n i room : nat)
    : list delivery_event_record_t :=
  match n, room with
  | S n', S room' =>
      if de_event_seq (ring_row r i) >? since
      then ring_row r i :: list_loop r since n' (S i) room'
      else list_loop r since n' (S i) room
  | _, _ => []
  end.
Definition delivery_event_ring_list_since (r : delivery_event_ring_t) (since_event_seq : Z)
    (out_max : nat) : list delivery_event_record_t :=
  if (out_max =? 0)%nat || (dr_count r =? 0)%nat then []
  else list_loop r since_event_seq (dr_count r) 0 out_max.

Definition seen_step (message_id : Z) (seen : list Z) (e : delivery_event_record_t) : list Z :=
  if negb (de_message_id e =? message_id) || (de_recipient_addr e =? 0) then seen
  else if existsb (λ a, a =? de_recipient_addr e) seen then seen
  else if (RECEIPT_DEDUPE_MAX <=? length seen)%nat then seen
  else seen ++ [de_recipient_addr e].
(** The addresses written and the number of unique ones: every address that
    enters [seen] is also written while there is room. *)
Definition delivery_event_ring_receipts_for_message (r : delivery_event_ring_t) (message_id : Z)
    (out_max : nat) : list Z * nat :=
  if message_id =? 0 then ([], 0%nat)
  else
    let count := if (dr_capacity r <? dr_count r)%nat then dr_capacity r else dr_count r in
    let seen := foldl (seen_step message_id) [] (ring_row r <$> seq 0 count) in
    (take out_max seen, length seen).

(** ** The ring as a log *)

Definition ring_run (evs : list delivery_event_record_t) : delivery_event_ring_t :=
  foldl (λ r e, (delivery_event_ring_append r e).2) delivery_event_ring_init evs.
(** The [i]-th event appended, as stored. *)
Definition stamped (evs : list delivery_event_record_t) : list delivery_event_record_t :=
  imap (λ i e, devent_stored e (u32 (Z.of_nat i + 1))) evs.
Definition retained (evs : list delivery_event_record_t) : list delivery_event_record_t :=
  drop (length evs - DELIVERY_EVENT_RING_CAPACITY) (stamped evs).

Record ring_inv (evs : list delivery_event_record_t) (r : delivery_event_ring_t) : Prop := {
  ri_magic : dr_magic r = DELIVERY_EVENT_RING_MAGIC;
  ri_version : dr_version r = DELIVERY_EVENT_RING_VERSION;
  ri_capacity : dr_capacity r = DELIVERY_EVENT_RING_CAPACITY;
  ri_count : dr_count r = (length evs `min` DELIVERY_EVENT_RING_CAPACITY)%nat;
  ri_write : dr_write_index r = (length evs mod DELIVERY_EVENT_RING_CAPACITY)%nat;
  ri_seq : dr_next_seq r = u32 (Z.of_nat (length evs) + 1);
  ri_length : length (dr_records r) = DELIVERY_EVENT_RING_CAPACITY;
  ri_rows : ∀ j e, stamped evs !! j = Some e → (length evs ≤ j + DELIVERY_EVENT_RING_CAPACITY)%nat →
    dr_records r !! (j mod DELIVERY_EVENT_RING_CAPACITY)%nat = Some e }.

Lemma length_stamped evs : length (stamped evs) = length evs.
Proof. apply length_imap. Qed.
Lemma stamped_snoc evs e :
  stamped (evs ++ [e]) = stamped evs ++ [devent_stored e (u32 (Z.of_nat (length evs) + 1))].
Proof. unfold stamped. rewrite imap_app. cbn. by rewrite Nat.add_0_r. Qed.

Lemma mod_near (c a b : nat) : (0 < c)%nat → (a < b < a + c)%nat → (a mod c ≠ b mod c)%nat.
Proof. intros Hc Hab He. pose proof (Nat.div_mod_eq a c). pose proof (Nat.div_mod_eq b c).
  rewrite He in *. destruct (Nat.le_gt_cases (b / c) (a / c)); nia.
Qed.

Lemma ring_inv_init : ring_inv [] delivery_event_ring_init.
Proof. by split. Qed.

Lemma ring_inv_append evs r e :
  ring_inv evs r →
  (delivery_event_ring_append r e).1 = u32 (Z.of_nat (length evs) + 1) ∧
  ring_inv (evs ++ [e]) (delivery_event_ring_append r e).2.
Proof.
  intros [Hm Hv Hc Hn Hw Hs Hl Hr]. unfold delivery_event_ring_append. rewrite Hm, Hv, Hc.
  rewrite !Z.eqb_refl. cbn [negb orb]. change (DELIVERY_EVENT_RING_CAPACITY =? 0)%nat with false.
  cbn iota. cbn [fst snd]. split; [done|].
  split; cbn [dr_magic dr_version dr_capacity dr_count dr_write_index dr_next_seq dr_records]; try done;
    remember DELIVERY_EVENT_RING_CAPACITY as c eqn:Ec;
    (assert (Hpos : (0 < c)%nat) by (subst; vm_compute; lia)); clear Ec.
  - rewrite Hn, length_app. cbn [length]. destruct (_ <? _)%nat eqn:E;
      [apply Nat.ltb_lt in E|apply Nat.ltb_ge in E]; lia.
  - rewrite Hw, length_app. cbn [length]. by rewrite Nat.Div0.add_mod_idemp_l.
  - rewrite Hs, length_app. cbn [length]. unfold u32. rewrite Zplus_mod_idemp_l. f_equal. lia.
  - by rewrite length_insert.
  - intros j x Hj Hin. rewrite length_app in Hin. cbn [length] in Hin. rewrite stamped_snoc in Hj.
    rewrite Hw, Hs. apply lookup_app_Some in Hj as [Hj|[Hge Hj]].
    + rewrite list_lookup_insert_ne; [apply Hr; [done|lia]|].
      apply lookup_lt_Some in Hj. rewrite length_stamped in Hj.
      intros E. symmetry in E. revert E. apply mod_near; lia.
    + rewrite length_stamped in Hge, Hj. apply list_lookup_singleton_Some in Hj as [Hj <-].
      replace j with (length evs) by lia. rewrite list_lookup_insert_eq; [done|].
      rewrite Hl. apply Nat.mod_upper_bound. lia.
Qed.

Lemma ring_run_inv evs : ring_inv evs (ring_run evs).
Proof.
  unfold ring_run. induction evs as [|e evs IH] using rev_ind; [apply ring_inv_init|].
  rewrite foldl_app. cbn [foldl]. by apply ring_inv_append.
Qed.

Lemma ring_rows_retained evs r :
  ring_inv evs r → ring_row r <$> seq 0 (dr_count r) = retained evs.
Proof.
  intros [Hm Hv Hc Hn Hw Hs Hl Hr]. unfold retained.
  remember DELIVERY_EVENT_RING_CAPACITY as c eqn:Ec. assert (Hpos : (0 < c)%nat) by (subst; vm_compute; lia).
  clear Ec. apply list_eq. intros i. rewrite list_lookup_fmap.
  destruct (decide (i < dr_count r)%nat) as [Hi|Hi].
  - rewrite lookup_seq_lt by done. cbn [fmap option_fmap option_map Nat.add]. rewrite lookup_drop.
    destruct (lookup_lt_is_Some_2 (stamped evs) (length evs - c + i)) as [e He];
      [rewrite length_stamped; lia|].
    rewrite He. f_equal. unfold ring_row. cbn [Nat.add]. apply list_lookup_total_correct.
    rewrite <- (Hr _ _ He) by lia. f_equal. rewrite Hc. unfold ring_oldest_index. rewrite Hc, Hn, Hw.
    destruct (_ <? _)%nat eqn:E; [apply Nat.ltb_lt in E; f_equal; lia|apply Nat.ltb_ge in E].
    rewrite Nat.Div0.add_mod_idemp_l.
    replace (length evs + i)%nat with ((length evs - c + i) + 1 * c)%nat by lia.
    apply Nat.Div0.mod_add.
  - rewrite lookup_seq_ge by lia. symmetry.
    apply lookup_ge_None_2. rewrite length_drop, length_stamped. lia.
Qed.

Lemma list_loop_spec r since n i room :
  list_loop r since n i room =
  take room (filter (λ e, since < de_event_seq e) (ring_row r <$> seq i n)).
Proof.
  revert i room. induction n as [|n IH]; intros i room; [by destruct room|].
  cbn [list_loop seq fmap list_fmap]. rewrite list.filter_cons.
  destruct room as [|room]; [done|]. rewrite Z.gtb_ltb.
  destruct (decide _) as [Hd|Hd].
  - rewrite (proj2 (Z.ltb_lt _ _) Hd). cbn [take]. f_equal. apply IH.
  - rewrite (proj2 (Z.ltb_ge _ _)) by lia. apply IH.
Qed.

(** The distinct nonzero recipients of a message, in order of first report. *)
Definition recipients (message_id : Z) (l : list delivery_event_record_t) : list Z :=
  foldl (λ acc a, if decide (a ∈ acc) then acc else acc ++ [a]) []
    (de_recipient_addr <$> filter (λ e, de_message_id e = message_id ∧ de_recipient_addr e ≠ 0) l).

Lemma existsb_elem (a : Z) l : existsb (λ b, b =? a) l = bool_decide (a ∈ l).
Proof.
  destruct (bool_decide_reflect (a ∈ l)) as [H|H].
  - apply existsb_exists. exists a. split; [by apply list_elem_of_In|apply Z.eqb_refl].
  - apply not_true_iff_false. rewrite existsb_exists. intros (x & Hx & He). apply Z.eqb_eq in He. subst.
    by apply H, list_elem_of_In.
Qed.

Lemma seen_fold_spec message_id l acc seen :
  seen = take RECEIPT_DEDUPE_MAX acc →
  (length acc ≤ RECEIPT_DEDUPE_MAX)%nat ∨ length seen = RECEIPT_DEDUPE_MAX →
  foldl (seen_step message_id) seen l =
  take RECEIPT_DEDUPE_MAX (foldl (λ acc a, if decide (a ∈ acc) then acc else acc ++ [a]) acc
    (de_recipient_addr <$> filter (λ e, de_message_id e = message_id ∧ de_recipient_addr e ≠ 0) l)).
Proof.
  revert acc seen. induction l as [|e l IH]; intros acc seen Hs Hlen; cbn [foldl filter list_filter fmap list_fmap].
  - done.
  - unfold seen_step at 2. case_decide as Hd.
    + destruct Hd as [-> Hr]. rewrite Z.eqb_refl. rewrite (proj2 (Z.eqb_neq _ _) Hr). cbn [negb orb fmap list_fmap foldl].
      rewrite existsb_elem. destruct (bool_decide_reflect (de_recipient_addr e ∈ seen)) as [Hin|Hin].
      * rewrite decide_True; [by apply IH|]. subst seen. by apply elem_of_take in Hin as (i & ? & ?);
          eapply list_elem_of_lookup_2.
      * destruct (RECEIPT_DEDUPE_MAX <=? length seen)%nat eqn:E.
        -- apply Nat.leb_le in E. case_decide; [by apply IH|]. apply IH.
           ++ subst seen. rewrite length_take in E. rewrite take_app_le by lia. done.
           ++ right. subst seen. rewrite length_take in E |- *. lia.
        -- apply Nat.leb_gt in E. assert (Hacc : seen = acc).
           { subst seen. apply take_ge. rewrite length_take in E, Hlen. lia. }
           rewrite Hacc in *. clear Hs. rewrite decide_False by done.
           apply IH; [|left; rewrite length_app; cbn [length]; lia].
           symmetry. apply take_ge. rewrite length_app. cbn [length]. lia.
    + assert (Hn : negb (de_message_id e =? message_id) || (de_recipient_addr e =? 0) = true).
      { destruct (Z.eqb_spec (de_message_id e) message_id), (Z.eqb_spec (de_recipient_addr e) 0); try done.
        destruct Hd. done. }
      rewrite Hn. by apply IH.
Qed.

(** The delivery log is exact: after any history of events the ring holds the
    last 512 in order under consecutive sequence numbers, polling from a sequence
    number returns exactly the retained events after it, in order and as many as
    fit, the latest number is that of the last event (below the wrap of the
    counter), and the receipts of a message are its distinct recipients among the
    retained events in order of arrival, at most 64. *)
Theorem delivery_log_exact (evs : list delivery_event_record_t) (since message_id : Z) (out_max : nat) :
  let r := ring_run evs in
  ring_row r <$> seq 0 (dr_count r) = retained evs ∧
  delivery_event_ring_list_since r since out_max =
    take out_max (filter (λ e, since < de_event_seq e) (retained evs)) ∧
  (Z.of_nat (length evs) < UINT32_MAX → delivery_event_ring_latest_seq r = Z.of_nat (length evs)) ∧
  delivery_event_ring_receipts_for_message r message_id out_max =
    (let l := if message_id =? 0 then []
              else take RECEIPT_DEDUPE_MAX (recipients message_id (retained evs)) in
     (take out_max l, length l)).
Proof.
  intros r. pose proof (ring_run_inv evs) as Hi. pose proof (ring_rows_retained _ _ Hi) as Hrows.
  fold r in Hi, Hrows. split; [done|]. split; [|split].
  - unfold delivery_event_ring_list_since. destruct (out_max =? 0)%nat eqn:E0.
    { apply Nat.eqb_eq in E0 as ->. by rewrite take_0. }
    rewrite <- Hrows. cbn [orb]. destruct (dr_count r =? 0)%nat eqn:E1.
    + apply Nat.eqb_eq in E1 as ->. by destruct out_max.
    + apply list_loop_spec.
  - intros Hb. unfold delivery_event_ring_latest_seq. destruct Hi as [_ _ _ Hn _ Hs _ _].
    unfold UINT32_MAX in Hb. rewrite Hs, u32_id by (unfold is_u32; lia).
    destruct (dr_count r =? 0)%nat eqn:E1.
    + apply Nat.eqb_eq in E1. rewrite Hn in E1. unfold DELIVERY_EVENT_RING_CAPACITY in E1. cbn [orb]. lia.
    + cbn [orb]. split_if; conds; lia.
  - unfold delivery_event_ring_receipts_for_message. destruct (message_id =? 0); [by rewrite take_nil|].
    cbn zeta. destruct Hi as [_ _ Hc Hn _ _ _ _].
    rewrite (proj2 (Nat.ltb_ge (dr_capacity r) (dr_count r))) by lia. rewrite Hrows.
    rewrite (seen_fold_spec message_id (retained evs) [] []); [done|by rewrite take_nil|left; cbn; lia].
Qed.
