(* ===== verification/MeshRx.v ===== *)
(** * Reception of data, acknowledgements and receipts
    ([handle_data], [confirm_data_delivery], the duplicate gate and the DATA case of
    [mesh_process_rx_packet] in [main/mesh_task.c]; [main/mesh_reliability.c])

    What a node does with a received frame: the gate that recognises duplicates,
    origin authentication, reverse routes, relaying, decryption, replay windows,
    reassembly, the message log, acknowledgements and delivery receipts, composed
    as the firmware composes them.

    The state is the direct-message node of [MeshDm], the routing state of
    [MeshRouting] and the tables of this file; the address, key and pending
    acknowledgements of the routing state are those of the node ([view]).  A
    handler returns [None] on an access outside a buffer.  Roll-call payloads
    leave the model as events; whether an announcement was newly taken is drawn. *)

From stdpp Require Import base strings numbers sets option decidable list.
From S2P Require Import Prelude Tables Packet Dedup ReplayWindow ReplayDeferred NonceCounter Fragment.
From S2P Require Import Airtime TxGate Reliability Routing Forwarding NetworkKey RoutingAuth Discovery.
From S2P Require Import ChannelFlood Timesync MeshRouting DmCrypto DmRatchet DmTable Identity Channel.
From S2P Require Import MsgStore MeshDm Receipts.

Definition RECEIPT_QUEUE_CAPACITY : nat := 8.
Definition RECEIPT_MAX_DEFERS : Z := 8.
Definition RECENT_BROADCAST_RING_SIZE : nat := 8.
Definition ACK_MAX_SIZE : nat := ACK_BASE_SIZE + ACK_MAX_HOPS * 4.
Definition DELIVERY_RECEIPT_MAX_SIZE : nat := 68.
Definition BRAMBLE_DATA_AUTH_HMAC_OFFSET : nat := HEADER_SIZE + 8.
Definition BRAMBLE_DATA_NONCE_OFFSET : nat := HEADER_SIZE + 16.
Definition BRAMBLE_PUBLIC_CHANNEL_INDEX : nat := 0.
Definition DM_DECRYPT_REPLAY : Z := -2.
Definition APP_TYPE_ROLLCALL : Z := 4.
Definition APP_TYPE_ROLLCALL_REPLY : Z := 5.
Definition DELIVERY_EVENT_TYPE_ACK : Z := 1.
Definition DELIVERY_EVENT_TYPE_BROADCAST_DELIVERY : Z := 2.

Inductive broadcast_telemetry_mode_t :=
  | BROADCAST_TELEMETRY_OFF | BROADCAST_TELEMETRY_RECIPIENT_ONLY | BROADCAST_TELEMETRY_PATH_SAMPLED.

Record pending_receipt_t := mk_preceipt {
  pr_used : bool; pr_original_src_addr : Z; pr_original_packet_id : Z; pr_buf : list Z;
  pr_wire_len : nat; pr_attempts_total : Z; pr_attempts_sent : Z; pr_defers : Z; pr_due_at_ms : Z }.
Definition preceipt_zero : pending_receipt_t :=
  mk_preceipt false 0 0 (replicate DELIVERY_RECEIPT_MAX_SIZE 0) 0 0 0 0 0.
#[global] Instance preceipt_inhabited : Inhabited pending_receipt_t := populate preceipt_zero.

(** The enumeration constants, for the relay queue's [tx_kind]. *)
Definition tx_kind_code (k : tx_kind_t) : Z :=
  match k with
  | TX_KIND_DATA => 0 | TX_KIND_DATA_BROADCAST => 1 | TX_KIND_DATA_RETRY => 2 | TX_KIND_FORWARD => 3
  | TX_KIND_MAILBOX => 4 | TX_KIND_BEACON => 5 | TX_KIND_ROUTING => 6 | TX_KIND_ACK => 7
  | TX_KIND_RECEIPT => 8 | TX_KIND_RECEIPT_FORWARD => 9 | TX_KIND_PROBE => 10 | TX_KIND_PROBE_REPLY => 11
  end.

(** Draws beside those of the node: verdicts of [tx_gate_check], results of the
    gate for receipts with the time they took, the receipt budget left, whether a
    roll-call was newly taken, whether an allocation succeeded. *)
Record rx_draws_t := mk_draws {
  d_check : list bool; d_gate : list (Z * Z); d_remaining : Z; d_taken : list bool; d_alloc : list bool }.

Inductive rx_event :=
  | ROnMessage (from : Z) (text : list Z) (rssi snr channel : Z) (broadcast : bool)
  | ROnAck (from packet_id rssi_at_dest : Z) (route : list Z)
  | ROnBroadcastDelivery (recipient broadcast_id rssi_at_dest : Z) (path : list Z)
  | RTimer (delay_ms : option Z) (** the receipt timer is armed or stopped *)
  | RRollcallAnnounce (from : Z) (channel_index : nat) (data : list Z)
  | RRollcallResponse (from : Z) (data : list Z)
  | RRollcallReceipt (from orig_packet_id hop_count : Z) (path : list Z).

Record rx := mk_rx {
  rx_node : node; rx_mesh : mesh; rx_buckets : list catchup_bucket_t;
  rx_dedup : dedup_buffer_t; rx_flood_dedup : dedup_buffer_t; rx_delivered : dedup_buffer_t;
  rx_replay : replay_table_t; rx_deferred : replay_deferred_t; rx_timesync : timesync_state_t;
  rx_reasm : reassembly_ctx_t; rx_floodq : list pending_flood_relay_t; rx_flood_drops : Z;
  rx_receipts : list pending_receipt_t; rx_recent : list Z; rx_recent_idx : nat;
  rx_ring : delivery_event_ring_t; rx_telemetry : broadcast_telemetry_mode_t;
  rx_draws : rx_draws_t; rx_out : list rx_event }.

Section RxSetters.
Context (r : rx).
Definition rset_node x := mk_rx x (rx_mesh r) (rx_buckets r) (rx_dedup r) (rx_flood_dedup r)
  (rx_delivered r) (rx_replay r) (rx_deferred r) (rx_timesync r) (rx_reasm r) (rx_floodq r)
  (rx_flood_drops r) (rx_receipts r) (rx_recent r) (rx_recent_idx r) (rx_ring r) (rx_telemetry r)
  (rx_draws r) (rx_out r).
Definition rset_mesh x := mk_rx (rx_node r) x (rx_buckets r) (rx_dedup r) (rx_flood_dedup r)
  (rx_delivered r) (rx_replay r) (rx_deferred r) (rx_timesync r) (rx_reasm r) (rx_floodq r)
  (rx_flood_drops r) (rx_receipts r) (rx_recent r) (rx_recent_idx r) (rx_ring r) (rx_telemetry r)
  (rx_draws r) (rx_out r).
Definition rset_buckets x := mk_rx (rx_node r) (rx_mesh r) x (rx_dedup r) (rx_flood_dedup r)
  (rx_delivered r) (rx_replay r) (rx_deferred r) (rx_timesync r) (rx_reasm r) (rx_floodq r)
  (rx_flood_drops r) (rx_receipts r) (rx_recent r) (rx_recent_idx r) (rx_ring r) (rx_telemetry r)
  (rx_draws r) (rx_out r).
Definition rset_dedup x := mk_rx (rx_node r) (rx_mesh r) (rx_buckets r) x (rx_flood_dedup r)
  (rx_delivered r) (rx_replay r) (rx_deferred r) (rx_timesync r) (rx_reasm r) (rx_floodq r)
  (rx_flood_drops r) (rx_receipts r) (rx_recent r) (rx_recent_idx r) (rx_ring r) (rx_telemetry r)
  (rx_draws r) (rx_out r).
Definition rset_flood_dedup x := mk_rx (rx_node r) (rx_mesh r) (rx_buckets r) (rx_dedup r) x
  (rx_delivered r) (rx_replay r) (rx_deferred r) (rx_timesync r) (rx_reasm r) (rx_floodq r)
  (rx_flood_drops r) (rx_receipts r) (rx_recent r) (rx_recent_idx r) (rx_ring r) (rx_telemetry r)
  (rx_draws r) (rx_out r).
Definition rset_delivered x := mk_rx (rx_node r) (rx_mesh r) (rx_buckets r) (rx_dedup r)
  (rx_flood_dedup r) x (rx_replay r) (rx_deferred r) (rx_timesync r) (rx_reasm r) (rx_floodq r)
  (rx_flood_drops r) (rx_receipts r) (rx_recent r) (rx_recent_idx r) (rx_ring r) (rx_telemetry r)
  (rx_draws r) (rx_out r).
Definition rset_replay x := mk_rx (rx_node r) (rx_mesh r) (rx_buckets r) (rx_dedup r)
  (rx_flood_dedup r) (rx_delivered r) x (rx_deferred r) (rx_timesync r) (rx_reasm r) (rx_floodq r)
  (rx_flood_drops r) (rx_receipts r) (rx_recent r) (rx_recent_idx r) (rx_ring r) (rx_telemetry r)
  (rx_draws r) (rx_out r).
Definition rset_deferred x := mk_rx (rx_node r) (rx_mesh r) (rx_buckets r) (rx_dedup r)
  (rx_flood_dedup r) (rx_delivered r) (rx_replay r) x (rx_timesync r) (rx_reasm r) (rx_floodq r)
  (rx_flood_drops r) (rx_receipts r) (rx_recent r) (rx_recent_idx r) (rx_ring r) (rx_telemetry r)
  (rx_draws r) (rx_out r).
Definition rset_reasm x := mk_rx (rx_node r) (rx_mesh r) (rx_buckets r) (rx_dedup r)
  (rx_flood_dedup r) (rx_delivered r) (rx_replay r) (rx_deferred r) (rx_timesync r) x (rx_floodq r)
  (rx_flood_drops r) (rx_receipts r) (rx_recent r) (rx_recent_idx r) (rx_ring r) (rx_telemetry r)
  (rx_draws r) (rx_out r).
Definition rset_floodq x := mk_rx (rx_node r) (rx_mesh r) (rx_buckets r) (rx_dedup r)
  (rx_flood_dedup r) (rx_delivered r) (rx_replay r) (rx_deferred r) (rx_timesync r) (rx_reasm r) x
  (rx_flood_drops r) (rx_receipts r) (rx_recent r) (rx_recent_idx r) (rx_ring r) (rx_telemetry r)
  (rx_draws r) (rx_out r).
Definition rset_flood_drops x := mk_rx (rx_node r) (rx_mesh r) (rx_buckets r) (rx_dedup r)
  (rx_flood_dedup r) (rx_delivered r) (rx_replay r) (rx_deferred r) (rx_timesync r) (rx_reasm r)
  (rx_floodq r) x (rx_receipts r) (rx_recent r) (rx_recent_idx r) (rx_ring r) (rx_telemetry r)
  (rx_draws r) (rx_out r).
Definition rset_receipts x := mk_rx (rx_node r) (rx_mesh r) (rx_buckets r) (rx_dedup r)
  (rx_flood_dedup r) (rx_delivered r) (rx_replay r) (rx_deferred r) (rx_timesync r) (rx_reasm r)
  (rx_floodq r) (rx_flood_drops r) x (rx_recent r) (rx_recent_idx r) (rx_ring r) (rx_telemetry r)
  (rx_draws r) (rx_out r).
Definition rset_recent x := mk_rx (rx_node r) (rx_mesh r) (rx_buckets r) (rx_dedup r)
  (rx_flood_dedup r) (rx_delivered r) (rx_replay r) (rx_deferred r) (rx_timesync r) (rx_reasm r)
  (rx_floodq r) (rx_flood_drops r) (rx_receipts r) x (rx_recent_idx r) (rx_ring r) (rx_telemetry r)
  (rx_draws r) (rx_out r).
Definition rset_recent_idx x := mk_rx (rx_node r) (rx_mesh r) (rx_buckets r) (rx_dedup r)
  (rx_flood_dedup r) (rx_delivered r) (rx_replay r) (rx_deferred r) (rx_timesync r) (rx_reasm r)
  (rx_floodq r) (rx_flood_drops r) (rx_receipts r) (rx_recent r) x (rx_ring r) (rx_telemetry r)
  (rx_draws r) (rx_out r).
Definition rset_ring x := mk_rx (rx_node r) (rx_mesh r) (rx_buckets r) (rx_dedup r)
  (rx_flood_dedup r) (rx_delivered r) (rx_replay r) (rx_deferred r) (rx_timesync r) (rx_reasm r)
  (rx_floodq r) (rx_flood_drops r) (rx_receipts r) (rx_recent r) (rx_recent_idx r) x
  (rx_telemetry r) (rx_draws r) (rx_out r).
Definition rset_draws x := mk_rx (rx_node r) (rx_mesh r) (rx_buckets r) (rx_dedup r)
  (rx_flood_dedup r) (rx_delivered r) (rx_replay r) (rx_deferred r) (rx_timesync r) (rx_reasm r)
  (rx_floodq r) (rx_flood_drops r) (rx_receipts r) (rx_recent r) (rx_recent_idx r) (rx_ring r)
  (rx_telemetry r) x (rx_out r).
Definition rset_out x := mk_rx (rx_node r) (rx_mesh r) (rx_buckets r) (rx_dedup r)
  (rx_flood_dedup r) (rx_delivered r) (rx_replay r) (rx_deferred r) (rx_timesync r) (rx_reasm r)
  (rx_floodq r) (rx_flood_drops r) (rx_receipts r) (rx_recent r) (rx_recent_idx r) (rx_ring r)
  (rx_telemetry r) (rx_draws r) x.
End RxSetters.

(** ** The monad *)

Definition Rx (A : Type) : Type := rx → option (A * rx).
#[global] Instance Rx_ret : MRet Rx := λ A x r, Some (x, r).
#[global] Instance Rx_bind : MBind Rx := λ A B k m r,
  match m r with None => None | Some (x, r) => k x r end.
Definition rget : Rx rx := λ r, Some (r, r).
Definition rmodify (f : rx → rx) : Rx unit := λ r, Some (tt, f r).
Definition rlift {A} (o : option A) : Rx A := λ r, match o with None => None | Some x => Some (x, r) end.
Definition remit (e : rx_event) : Rx unit := rmodify (λ r, rset_out r (rx_out r ++ [e])).
Definition rwhen (b : bool) (m : Rx unit) : Rx unit := if b then m else mret tt.
Definition on_node {A} (m : M A) : Rx A := λ r,
  match m (rx_node r) with None => None | Some (x, n) => Some (x, rset_node r n) end.

Definition rnow : Rx Z := on_node now_ms.
Definition self (r : rx) : Z := id_address (nd_id (rx_node r)).
Definition rkey (r : rx) : netkey := nd_key (rx_node r).
Definition set_neighbors (n : node) x := mk_node (nd_id n) (nd_key n) (nd_flood_transport n)
  (nd_flood_hop_limit n) (nd_channels n) (nd_default_channel_idx n) (nd_pins n) x (nd_table n)
  (nd_rehs n) (nd_eph n) (nd_hs n) (nd_queue n) (nd_work n) (nd_acks n) (nd_msgs n) (nd_counter n)
  (nd_env n) (nd_out n).
Definition set_channels (n : node) x := mk_node (nd_id n) (nd_key n) (nd_flood_transport n)
  (nd_flood_hop_limit n) x (nd_default_channel_idx n) (nd_pins n) (nd_neighbors n) (nd_table n)
  (nd_rehs n) (nd_eph n) (nd_hs n) (nd_queue n) (nd_work n) (nd_acks n) (nd_msgs n) (nd_counter n)
  (nd_env n) (nd_out n).
Definition with_now (v : dm_env) (t : Z) : dm_env :=
  mk_dm_env t (v_tx v) (v_gen v) (v_nonce v) (v_rand v) (v_net_s v) (v_uptime_s v).

Definition esp_random : Rx Z := on_node (λ n,
  let v := nd_env n in
  Some (u32 (match v_rand v with [] => 0 | x :: _ => x end),
        set_env n (mk_dm_env (v_now v) (v_tx v) (v_gen v) (v_nonce v) (tail (v_rand v)) (v_net_s v)
                     (v_uptime_s v)))).
Definition draw_check : Rx bool := λ r,
  let d := rx_draws r in
  Some (match d_check d with [] => false | b :: _ => b end,
        rset_draws r (mk_draws (tail (d_check d)) (d_gate d) (d_remaining d) (d_taken d) (d_alloc d))).
Definition draw_taken : Rx bool := λ r,
  let d := rx_draws r in
  Some (match d_taken d with [] => false | b :: _ => b end,
        rset_draws r (mk_draws (d_check d) (d_gate d) (d_remaining d) (tail (d_taken d)) (d_alloc d))).
Definition malloc_ok : Rx bool := λ r,
  let d := rx_draws r in
  Some (match d_alloc d with [] => false | b :: _ => b end,
        rset_draws r (mk_draws (d_check d) (d_gate d) (d_remaining d) (d_taken d) (tail (d_alloc d)))).
(** [mesh_tx] where the caller tells the return codes apart; the clock runs on
    while the gate listens. *)
Definition mesh_tx_rc (frame : list Z) (kind : tx_kind_t) : Rx Z := λ r,
  let d := rx_draws r in
  let '(rc, elapsed) := match d_gate d with [] => (TX_GATE_ERR_RADIO, 0) | x :: _ => x end in
  let n := rx_node r in
  let n := set_env n (with_now (nd_env n) (u32 (v_now (nd_env n) + elapsed))) in
  let n := set_out n (nd_out n ++ [DTx frame kind (rc =? TX_GATE_OK)]) in
  Some (rc, rset_node (rset_draws r (mk_draws (d_check d) (tail (d_gate d)) (d_remaining d) (d_taken d)
                                       (d_alloc d))) n).
(** [control_seq_next] *)
Definition control_seq_next : Rx (option Z) :=
  nonce ← on_node nonce_next; mret (nonce_counter_extract <$> nonce).
Definition rx_control_replay_ok (signer seq : Z) : Rx bool :=
  now ← rnow; r ← rget;
  let '(ok, m) := control_replay_ok (rx_mesh r) signer seq now in
  rmodify (λ r, rset_mesh r m) ;; mret ok.
Definition peer_count (r : rx) : Z := u8 (Z.of_nat (neighbor_count (nd_neighbors (rx_node r)))).

(** The routing state with the node's address, key and pending acknowledgements. *)
Definition view (r : rx) : mesh :=
  let m := rx_mesh r in
  mk_mesh (self r) (rkey r) (s_rreq_dedup m) (s_reverse_routes m) (s_routes m) (s_pending_disc m)
    (s_rreq_fwd_queue m) (s_rreq_fwd_rl m) (s_control_replay m) (nd_acks (rx_node r))
    (s_mailbox_enabled m) (s_mailbox m).

Definition mesh_note_peer_heard (addr rssi snr : Z) : Rx unit :=
  r ← rget; now ← rnow;
  if (addr =? 0) || (addr =? self r) then mret tt
  else on_node (modify (λ n, set_neighbors n (neighbor_touch (nd_neighbors n) addr (i8 rssi) snr now).2)).

(** ** Delivery events *)

Definition delivery_event_ring_append_locked (e : delivery_event_record_t) : Rx unit :=
  rmodify (λ r, rset_ring r (delivery_event_ring_append (rx_ring r) e).2).
(** [evt] has its hops zeroed. *)
Definition delivery_event_set_route (evt : delivery_event_record_t) (hop_count : Z)
    (relay_path : option (list Z)) : option delivery_event_record_t :=
  let hops := if hop_count >? Z.of_nat DELIVERY_EVENT_ROUTE_MAX_HOPS
              then Z.of_nat DELIVERY_EVENT_ROUTE_MAX_HOPS else hop_count in
  route ← (match relay_path with
           | None => Some (de_route_hops evt)
           | Some p => bs ← rdn p 0 (Z.to_nat hops); wr (de_route_hops evt) 0 bs
           end);
  Some (mk_devent (de_event_seq evt) (de_message_id evt) (de_timestamp_s evt) (de_recipient_addr evt)
          (de_event_type evt) hops route).
Definition record_ack_delivery_event (ack : bramble_ack_t) : Rx unit :=
  now ← rnow;
  evt ← rlift (delivery_event_set_route
    (mk_devent 0 (ack_packet_id ack) (now / 1000) (ack_src_addr ack) DELIVERY_EVENT_TYPE_ACK 0
       (replicate DELIVERY_EVENT_ROUTE_MAX_HOPS 0)) (ack_hop_count ack) (Some (ack_relay_path ack)));
  delivery_event_ring_append_locked evt.
Definition record_broadcast_delivery_event (recipient_addr broadcast_id hop_count : Z)
    (relay_path : list Z) : Rx unit :=
  now ← rnow;
  evt ← rlift (delivery_event_set_route
    (mk_devent 0 broadcast_id (now / 1000) recipient_addr DELIVERY_EVENT_TYPE_BROADCAST_DELIVERY 0
       (replicate DELIVERY_EVENT_ROUTE_MAX_HOPS 0)) hop_count (Some relay_path));
  delivery_event_ring_append_locked evt.

Definition recent_broadcast_record (packet_id : Z) : Rx unit :=
  if packet_id =? 0 then mret tt
  else rmodify (λ r, rset_recent_idx (rset_recent r (<[rx_recent_idx r := packet_id]> (rx_recent r)))
                       ((rx_recent_idx r + 1) mod RECENT_BROADCAST_RING_SIZE)%nat).
Definition recent_broadcast_contains (recent : list Z) (packet_id : Z) : bool :=
  if packet_id =? 0 then false else existsb (λ x, x =? packet_id) recent.

Definition mesh_emit_broadcast_delivery_notification (src_addr broadcast_id rssi_at_dest hop_count : Z)
    (relay_path : list Z) : Rx unit :=
  r ← rget;
  match rx_telemetry r with
  | BROADCAST_TELEMETRY_OFF => mret tt
  | mode =>
      let bounded := if hop_count >? Z.of_nat DELIVERY_RECEIPT_MAX_HOPS
                     then Z.of_nat DELIVERY_RECEIPT_MAX_HOPS else hop_count in
      path ← (match mode with
              | BROADCAST_TELEMETRY_PATH_SAMPLED =>
                  if hop_count >? 0 then rlift (rdn relay_path 0 (Z.to_nat bounded)) else mret []
              | _ => mret []
              end);
      record_broadcast_delivery_event src_addr broadcast_id hop_count relay_path ;;
      remit (ROnBroadcastDelivery src_addr broadcast_id rssi_at_dest path)
  end.

Definition maybe_emit_implicit_broadcast_delivery (header : bramble_header_t) (data : list Z)
    : Rx unit :=
  r ← rget;
  if negb (h_type header =? PKT_TYPE_DATA) then mret tt
  else if negb (h_dest_addr header =? UINT32_MAX) then mret tt
  else if negb (recent_broadcast_contains (rx_recent r) (h_packet_id header)) then mret tt
  else if (length data <? HEADER_SIZE + 4)%nat then mret tt
  else
    relayer_addr ← rlift (get_le32 data HEADER_SIZE);
    if relayer_addr =? 0 then mret tt
    else
      mesh_emit_broadcast_delivery_notification relayer_addr (h_packet_id header) 0 1 [relayer_addr] ;;
      record_broadcast_delivery_event relayer_addr (h_packet_id header) 1 [relayer_addr].

(** ** Receipts this node owes *)

Definition earliest_step (acc : option Z) (q : pending_receipt_t) : option Z :=
  if negb (pr_used q) then acc
  else match acc with
       | None => Some (pr_due_at_ms q)
       | Some e => if pr_due_at_ms q <? e then Some (pr_due_at_ms q) else Some e
       end.
Definition mesh_schedule_next_receipt_timer : Rx unit :=
  r ← rget; t ← rnow;
  match foldl earliest_step None (rx_receipts r) with
  | None => remit (RTimer None)
  | Some due => remit (RTimer (Some (if due <=? t then 1 else due - t)))
  end.

Definition set_receipt (i : nat) (q : pending_receipt_t) : Rx unit :=
  rmodify (λ r, rset_receipts r (<[i := q]> (rx_receipts r))).

Section Reception.
Context `{DC : DmCrypto} `{IC : IdCrypto} (hmac : list Z → list Z → list Z).

Definition queue_broadcast_delivery_receipt (original_src_addr original_packet_id : Z) : Rx unit :=
  r ← rget;
  if negb (network_key_is_provisioned (rkey r)) then mret tt
  else
    let policy := mesh_broadcast_receipt_policy UINT32_MAX (peer_count r) in
    let hop_limit := if policy >=? 2 then 8 else 1 in
    seq ← control_seq_next;
    match seq with
    | None => mret tt
    | Some seq =>
        pkt_id ← on_node next_packet_id;
        '(e, buf, wire_len) ← rlift (mesh_build_broadcast_delivery_receipt_packet hmac (rkey r) (self r)
           pkt_id original_src_addr original_packet_id hop_limit seq
           (replicate DELIVERY_RECEIPT_MAX_SIZE 0) DELIVERY_RECEIPT_MAX_SIZE);
        match e with
        | ESP_OK =>
            match find_index (λ q, negb (pr_used q)) (rx_receipts r) with
            | None => mret tt
            | Some slot =>
                let slot_delay := mesh_broadcast_receipt_slot_delay_ms (self r) original_packet_id
                                    (peer_count r) in
                jitter ← esp_random;
                now ← rnow;
                bytes ← rlift (rdn buf 0 wire_len);
                let attempts := if mesh_broadcast_receipt_retry_count =? 0 then 1
                                else mesh_broadcast_receipt_retry_count in
                set_receipt slot
                  (mk_preceipt true original_src_addr original_packet_id
                     (filled bytes (replicate DELIVERY_RECEIPT_MAX_SIZE 0)) wire_len attempts 0 0
                     (now ⊕ (slot_delay + jitter mod 400))) ;;
                mesh_schedule_next_receipt_timer
            end
        | _ => mret tt
        end
    end.

(** An attempt was spent without a frame on the air: drop, or back off from [t]. *)
Definition receipt_backoff (i : nat) (q : pending_receipt_t) (t : Z) : Rx unit :=
  let sent := u8 (pr_attempts_sent q + 1) in
  (if sent >=? pr_attempts_total q then set_receipt i preceipt_zero
   else
     r ← rget;
     let '(num, den) := mesh_broadcast_receipt_retry_scale (d_remaining (rx_draws r)) in
     rand ← esp_random;
     let raw := 1000 + sent * 2000 + rand mod 1000 in
     set_receipt i (mk_preceipt (pr_used q) (pr_original_src_addr q) (pr_original_packet_id q) (pr_buf q)
       (pr_wire_len q) (pr_attempts_total q) sent 0 (t ⊕ (raw * num / den)))) ;;
  mesh_schedule_next_receipt_timer.

Definition mesh_process_receipt_tx_event : Rx unit :=
  t_now ← rnow;
  r ← rget;
  match find_index (λ q, pr_used q && (pr_due_at_ms q <=? t_now)) (rx_receipts r) with
  | None => mesh_schedule_next_receipt_timer
  | Some i =>
      let q := rx_receipts r !!! i in
      frame ← rlift (rdn (pr_buf q) 0 (pr_wire_len q));
      rc ← mesh_tx_rc frame TX_KIND_RECEIPT;
      if rc =? TX_GATE_ERR_BUDGET then receipt_backoff i q t_now
      else if rc =? TX_GATE_ERR_CHANNEL_BUSY then
        t_after_lbt ← rnow;
        let defers := u8 (pr_defers q + 1) in
        if defers <? RECEIPT_MAX_DEFERS then
          rand ← esp_random;
          set_receipt i (mk_preceipt (pr_used q) (pr_original_src_addr q) (pr_original_packet_id q)
            (pr_buf q) (pr_wire_len q) (pr_attempts_total q) (pr_attempts_sent q) defers
            (t_after_lbt ⊕ (250 + rand mod 750))) ;;
          mesh_schedule_next_receipt_timer
        else receipt_backoff i q t_after_lbt
      else
        let sent := u8 (pr_attempts_sent q + 1) in
        if sent >=? pr_attempts_total q then
          set_receipt i preceipt_zero ;; mesh_schedule_next_receipt_timer
        else
          r ← rget;
          let '(num, den) := mesh_broadcast_receipt_retry_scale (d_remaining (rx_draws r)) in
          let reslot := mesh_broadcast_receipt_slot_delay_ms (self r)
                          (Z.lxor (pr_original_packet_id q) (u32 (sent << 28))) (peer_count r) in
          rand ← esp_random;
          now ← rnow;
          let delay := (reslot + rand mod 400) * num / den in
          let delay := if delay =? 0 then 1 else delay in
          set_receipt i (mk_preceipt (pr_used q) (pr_original_src_addr q) (pr_original_packet_id q)
            (pr_buf q) (pr_wire_len q) (pr_attempts_total q) sent 0 (now ⊕ delay)) ;;
          mesh_schedule_next_receipt_timer
  end.

(** ** Acknowledgements *)

Definition ack_zero : bramble_ack_t :=
  mk_ack header_zero 0 0 0 0 0 (replicate 8 0) (replicate 6 0) (replicate ACK_MAX_HOPS 0).
Definition receipt_zero : bramble_delivery_receipt_t :=
  mk_receipt header_zero 0 0 0 0 (replicate 8 0) (replicate 6 0) (replicate DELIVERY_RECEIPT_MAX_HOPS 0).

Definition send_ack (dest_addr acked_id rssi : Z) : Rx unit :=
  r ← rget;
  if negb (network_key_is_provisioned (rkey r)) then mret tt
  else
    seq ← control_seq_next;
    match seq with
    | None => mret tt
    | Some seq =>
        pkt_id ← on_node next_packet_id;
        let ack :=
          mk_ack (mk_header BRAMBLE_VERSION PKT_TYPE_ACK 0
                    (flood_origination_hop_limit (nd_flood_transport (rx_node r))
                       (nd_flood_hop_limit (rx_node r)))
                    dest_addr pkt_id)
            (self r) acked_id 0 (i8 rssi) 1 (replicate 8 0) (bramble_seq48_pack seq)
            (self r :: replicate (ACK_MAX_HOPS - 1) 0) in
        let ack := (ack_sign hmac (rkey r) ack).2 in
        '(e, buf) ← rlift (bramble_ack_serialize ack (replicate ACK_MAX_SIZE 0) ACK_MAX_SIZE);
        match e with
        | ESP_OK =>
            frame ← rlift (rdn buf 0 (bramble_ack_wire_size ack));
            on_node (mesh_tx frame TX_KIND_ACK) ;; mret tt
        | _ => mret tt
        end
    end.

(** [if (hop_count < ACK_MAX_HOPS) relay_path[hop_count++] = self;] and a new hop limit. *)
Definition ack_trail (a : bramble_ack_t) (addr : Z) : bramble_ack_t :=
  if ack_hop_count a <? Z.of_nat ACK_MAX_HOPS
  then mk_ack (ack_header a) (ack_src_addr a) (ack_packet_id a) (ack_flags a) (ack_rssi_at_dest a)
         (ack_hop_count a + 1) (ack_auth_hmac a) (ack_seq a)
         (<[Z.to_nat (ack_hop_count a) := addr]> (ack_relay_path a))
  else a.
Definition header_with_hops (h : bramble_header_t) (hops : Z) : bramble_header_t :=
  mk_header (h_version h) (h_type h) (h_flags h) hops (h_dest_addr h) (h_packet_id h).
Definition ack_with_hops (a : bramble_ack_t) (hops : Z) : bramble_ack_t :=
  mk_ack (header_with_hops (ack_header a) hops) (ack_src_addr a) (ack_packet_id a) (ack_flags a)
    (ack_rssi_at_dest a) (ack_hop_count a) (ack_auth_hmac a) (ack_seq a) (ack_relay_path a).
(** [!route || route->state == ROUTE_BROKEN] *)
Definition route_unusable (routes : routing_table_t) (dest : Z) : bool :=
  match route_lookup routes dest with
  | None => true
  | Some e => bool_decide (rt_state e = ROUTE_BROKEN)
  end.

Definition forward_ack (ack : bramble_ack_t) : Rx unit :=
  r ← rget;
  let ack := ack_trail ack (self r) in
  if h_hop_limit (ack_header ack) <=? 1 then mret tt
  else
    let ack := ack_with_hops ack (h_hop_limit (ack_header ack) - 1) in
    if route_unusable (s_routes (rx_mesh r)) (h_dest_addr (ack_header ack)) then mret tt
    else
      '(e, buf) ← rlift (bramble_ack_serialize ack (replicate ACK_MAX_SIZE 0) ACK_MAX_SIZE);
      match e with
      | ESP_OK =>
          frame ← rlift (rdn buf 0 (bramble_ack_wire_size ack));
          on_node (mesh_tx frame TX_KIND_ACK) ;; mret tt
      | _ => mret tt
      end.

Definition rx_schedule_flood_relay (buf : list Z) (len : nat) (jitter_ms flood_key : Z) (kind : tx_kind_t)
    : Rx unit :=
  now ← rnow; r ← rget;
  let '(_, q, drops) := schedule_flood_relay (rx_floodq r) buf len now jitter_ms flood_key
                          (tx_kind_code kind) (rx_flood_drops r) in
  rmodify (λ r, rset_flood_drops (rset_floodq r q) drops).

(** The flood branch of [handle_ack]. *)
Definition flood_ack (ack : bramble_ack_t) : Rx unit :=
  r ← rget;
  let flood_key := Z.lxor (h_packet_id (ack_header ack)) (ack_src_addr ack) in
  let is_own_echo := ack_src_addr ack =? self r in
  budget_permits ← draw_check;
  rand ← esp_random;
  let flood := channel_flood_decide (h_hop_limit (ack_header ack)) is_own_echo budget_permits rand in
  if negb (cf_should_relay flood) then mret tt
  else
    let ack := ack_with_hops (ack_trail ack (self r)) (cf_new_hop_limit flood) in
    '(e, buf) ← rlift (bramble_ack_serialize ack (replicate ACK_MAX_SIZE 0) ACK_MAX_SIZE);
    match e with
    | ESP_OK => rx_schedule_flood_relay buf (bramble_ack_wire_size ack) (cf_jitter_ms flood) flood_key
                  TX_KIND_ACK
    | _ => mret tt
    end.

(** Own address, then the relay path backwards, at most [MSG_ROUTE_MAX_HOPS]. *)
Definition route_to_dest (own hop_count : Z) (relay_path : list Z) : option (list Z) :=
  path ← rdn relay_path 0 (Z.to_nat hop_count);
  Some (take MSG_ROUTE_MAX_HOPS (own :: rev path)).
Definition msgs_delivered (packet_id : Z) (route : list Z) : Rx bool :=
  on_node (λ n,
    let '(ok, st, ps) := msg_store_update_status_with_route (nd_msgs n) packet_id MSG_STATUS_DELIVERED
      (Z.of_nat (length route)) (Some (filled route (replicate MSG_ROUTE_MAX_HOPS 0))) in
    Some (ok, set_out (set_msgs n st) (nd_out n ++ [DPersist ps]))).

Definition handle_ack (data : list Z) (len : nat) (rssi snr : Z) : Rx unit :=
  '(e, ack) ← rlift (bramble_ack_deserialize ack_zero data len);
  match e with
  | ESP_OK =>
      r ← rget;
      ok ← rlift (ack_verify hmac (rkey r) ack);
      if negb ok then mret tt else
      fresh ← rx_control_replay_ok (ack_src_addr ack) (bramble_seq48_unpack (ack_seq ack));
      if negb fresh then mret tt else
      rwhen (ack_hop_count ack =? 0) (mesh_note_peer_heard (ack_src_addr ack) rssi snr) ;;
      if negb (h_dest_addr (ack_header ack) =? self r)
      then if nd_flood_transport (rx_node r) then flood_ack ack else forward_ack ack
      else
        on_node (modify (λ n, set_acks n (pending_ack_remove (nd_acks n) (ack_packet_id ack)).2)) ;;
        route ← rlift (route_to_dest (self r) (ack_hop_count ack) (ack_relay_path ack));
        found ← msgs_delivered (ack_packet_id ack) route;
        rwhen found (record_ack_delivery_event ack ;;
                     remit (ROnAck (ack_src_addr ack) (ack_packet_id ack) (ack_rssi_at_dest ack) route))
  | _ => mret tt
  end.

(** ** Receipts for other nodes and for this one *)

Definition receipt_trail (q : bramble_delivery_receipt_t) (addr : Z) : bramble_delivery_receipt_t :=
  if rcpt_hop_count q <? Z.of_nat DELIVERY_RECEIPT_MAX_HOPS
  then mk_receipt (rcpt_header q) (rcpt_src_addr q) (rcpt_orig_packet_id q) (rcpt_hop_count q + 1)
         (rcpt_total_latency q) (rcpt_auth_hmac q) (rcpt_seq q)
         (<[Z.to_nat (rcpt_hop_count q) := addr]> (rcpt_relay_path q))
  else q.
Definition receipt_with_hops (q : bramble_delivery_receipt_t) (hops : Z) : bramble_delivery_receipt_t :=
  mk_receipt (header_with_hops (rcpt_header q) hops) (rcpt_src_addr q) (rcpt_orig_packet_id q)
    (rcpt_hop_count q) (rcpt_total_latency q) (rcpt_auth_hmac q) (rcpt_seq q) (rcpt_relay_path q).

Definition forward_delivery_receipt (q : bramble_delivery_receipt_t) : Rx unit :=
  r ← rget;
  let q := receipt_trail q (self r) in
  if h_hop_limit (rcpt_header q) <=? 1 then mret tt
  else
    let q := receipt_with_hops q (h_hop_limit (rcpt_header q) - 1) in
    if route_unusable (s_routes (rx_mesh r)) (h_dest_addr (rcpt_header q)) then mret tt
    else
      '(e, buf) ← rlift (bramble_delivery_receipt_serialize q (replicate DELIVERY_RECEIPT_MAX_SIZE 0)
                           DELIVERY_RECEIPT_MAX_SIZE);
      match e with
      | ESP_OK =>
          frame ← rlift (rdn buf 0 (DELIVERY_RECEIPT_MIN_SIZE + Z.to_nat (rcpt_hop_count q) * 4));
          on_node (mesh_tx frame TX_KIND_RECEIPT_FORWARD) ;; mret tt
      | _ => mret tt
      end.

Definition handle_delivery_receipt (data : list Z) (len : nat) (rssi : Z) : Rx unit :=
  '(e, q) ← rlift (bramble_delivery_receipt_deserialize receipt_zero data len);
  match e with
  | ESP_OK =>
      r ← rget;
      ok ← rlift (receipt_verify hmac (rkey r) q);
      if negb ok then mret tt else
      fresh ← rx_control_replay_ok (rcpt_src_addr q) (bramble_seq48_unpack (rcpt_seq q));
      if negb fresh then mret tt else
      if negb (h_dest_addr (rcpt_header q) =? self r) then forward_delivery_receipt q
      else
        route ← rlift (route_to_dest (self r) (rcpt_hop_count q) (rcpt_relay_path q));
        msgs_delivered (rcpt_orig_packet_id q) route ;;
        remit (RRollcallReceipt (rcpt_src_addr q) (rcpt_orig_packet_id q) (rcpt_hop_count q)
                 (rcpt_relay_path q)) ;;
        mesh_emit_broadcast_delivery_notification (rcpt_src_addr q) (rcpt_orig_packet_id q) (i8 rssi)
          (rcpt_hop_count q) (rcpt_relay_path q)
  | _ => mret tt
  end.

(** ** Data frames *)

Definition confirm_data_delivery (dir : msg_direction_t) (peer_addr wire_src_addr dest_addr
    acked_id receipt_packet_id rssi : Z) : Rx unit :=
  match dir with
  | MSG_DIR_INCOMING =>
      send_ack peer_addr acked_id rssi ;;
      now ← rnow;
      rmodify (λ r, rset_delivered r
                 (dedup_check_and_add (rx_delivered r) (Z.lxor acked_id wire_src_addr) now).2)
  | _ =>
      r ← rget;
      rwhen (mesh_should_emit_broadcast_delivery_receipt dest_addr (peer_count r))
        (queue_broadcast_delivery_receipt peer_addr receipt_packet_id)
  end.

(** The relay block of [handle_data], entered for a broadcast and, under flood
    transport, for a unicast to someone else. *)
Definition flood_data (data : list Z) (len : nat) (hdr : bramble_header_t) (src_addr : Z) : Rx unit :=
  now ← rnow;
  r ← rget;
  let flood_key := Z.lxor (h_packet_id hdr) src_addr in
  let '(is_dup, seen) := dedup_check_and_add (rx_flood_dedup r) flood_key now in
  rmodify (λ r, rset_flood_dedup r seen) ;;
  let is_own_echo := src_addr =? self r in
  budget_permits ← draw_check;
  rand ← esp_random;
  let flood := channel_flood_decide (h_hop_limit hdr) (is_dup || is_own_echo) budget_permits rand in
  if negb (cf_should_relay flood) then mret tt
  else
    frame ← rlift (rdn data 0 len);
    buf ← rlift (wr (replicate BRAMBLE_MAX_PACKET_SIZE 0) 0 frame);
    '(_, buf) ← rlift (bramble_header_serialize (header_with_hops hdr (cf_new_hop_limit flood)) buf
                         HEADER_SIZE);
    buf ← (if (BRAMBLE_DATA_PREV_HOP_OFFSET + 4 <=? len)%nat
           then rlift (wr buf BRAMBLE_DATA_PREV_HOP_OFFSET (le32_bytes (self r))) else mret buf);
    rx_schedule_flood_relay buf len (cf_jitter_ms flood) flood_key TX_KIND_DATA_BROADCAST.

(** The decryption fork. *)
Definition decrypt_channel (nonce ct tag aad : list Z) : Rx (option channel_msg_info_t) :=
  now ← rnow;
  r ← rget;
  let '(info, chs, bs) := channel_msg_decrypt nonce ct tag aad (nd_channels (rx_node r)) (rx_buckets r) now in
  rmodify (λ r, rset_buckets (rset_node r (set_channels (rx_node r) chs)) bs) ;;
  mret info.
Definition decrypt_session (hdr : bramble_header_t) (src_addr : Z) (nonce ct tag : list Z)
    : Rx (option channel_msg_info_t) :=
  now ← rnow;
  r ← rget;
  let n := rx_node r in
  let failed := on_node (maybe_trigger_dm_rehandshake src_addr) ;; mret None in
  match dm_lookup (nd_table n) src_addr with
  | None => failed
  | Some i =>
      if negb (dm_in_state DM_STATE_ACTIVE (nd_table n !!! i)) then failed
      else
        let '(drc, pt, sess) := dm_session_ratchet_decrypt (nd_table n !!! i) hdr src_addr nonce ct tag in
        let sess := if drc =? DM_DECRYPT_OK then stamp_active now (ss_state sess) sess else sess in
        on_node (set_session i sess) ;;
        if drc =? DM_DECRYPT_REPLAY then mret None
        else if negb (drc =? DM_DECRYPT_OK) then failed
        else mret (Some (mk_info 0 0 APP_TYPE_CHAT src_addr 0 (default [] pt) 0))
  end.

Definition channel_source_is_replay_trustworthy (is_channel_message : bool) (channel_index : nat) : bool :=
  if negb is_channel_message then true else negb (channel_index =? BRAMBLE_PUBLIC_CHANNEL_INDEX)%nat.

(** [(uint32_t)(timesync_get_network_time(...) / 1000)] *)
Definition network_s (ts : timesync_state_t) (now : Z) : Z :=
  u32 (Z.quot (timesync_get_network_time ts now) 1000).
(** The authenticated send time is in the future or too old. *)
Definition stale_chat (sent_at now_s : Z) : bool :=
  (sent_at >? (now_s ⊕ DEFERRED_SKEW_S)) ||
  ((now_s >? sent_at) && ((now_s ⊖ sent_at) >? DEFERRED_TTL_S)).

(** Whether the decrypted message may be processed. *)
Definition replay_gate (src_addr rx_counter : Z) (is_channel_message : bool) (info : channel_msg_info_t)
    : Rx bool :=
  if negb (channel_source_is_replay_trustworthy is_channel_message (in_channel_index info)) then mret true
  else
    now ← rnow;
    r ← rget;
    let '(rp, table) := replay_check_and_add (rx_replay r) src_addr rx_counter now in
    rmodify (λ r, rset_replay r table) ;;
    let ts := rx_timesync r in
    let confident := timesync_is_confident ts now in
    let now_s := network_s ts now in
    let chat := in_app_type info =? APP_TYPE_CHAT in
    if negb (rp =? REPLAY_ACCEPT) && negb (rp =? REPLAY_BELOW_WINDOW) then mret false
    else if (rp =? REPLAY_ACCEPT) && chat && confident && stale_chat (in_sent_at info) now_s
    then mret false
    else
      rwhen ((rp =? REPLAY_ACCEPT) && chat)
        (rmodify (λ r, rset_deferred r (replay_deferred_mark_seen (rx_deferred r) src_addr rx_counter now_s))) ;;
      if negb (rp =? REPLAY_BELOW_WINDOW) then mret true
      else if negb chat then mret false
      else
        let '(dp, d) := replay_deferred_accept (rx_deferred r) src_addr rx_counter (in_sent_at info) now_s
                          confident in
        rmodify (λ r, rset_deferred r d) ;;
        mret (dp =? REPLAY_ACCEPT).

(** Files the text, notifies the clients and confirms: the common end of the
    single-packet and the reassembled path. *)
Definition store_message (info : channel_msg_info_t) (wire_src : Z) (hdr : bramble_header_t)
    (hdr_dest : Z) (text : list Z) (receipt_id rssi snr : Z) : Rx unit :=
  let is_channel_message := in_channel_id info >? 0 in
  let dir := if (hdr_dest =? UINT32_MAX) && negb is_channel_message
             then MSG_DIR_BROADCAST_IN else MSG_DIR_INCOMING in
  on_node (λ n,
    let '(st, ps) :=
      if is_channel_message
      then msg_store_add_channel (nd_msgs n) (in_src_addr info) dir text (i8 rssi) snr 0 MSG_STATUS_NONE
             (u8 (in_channel_id info)) (v_uptime_s (nd_env n))
      else msg_store_add_dm (nd_msgs n) (in_src_addr info) dir text (i8 rssi) snr 0 MSG_STATUS_NONE
             (v_uptime_s (nd_env n)) in
    Some (tt, set_out (set_msgs n st) (nd_out n ++ [DPersist ps]))) ;;
  remit (ROnMessage (in_src_addr info) text rssi snr
           (if in_channel_id info >? 0 then in_channel_id info else MSG_STORE_DM_CHANNEL)
           (bool_decide (dir = MSG_DIR_BROADCAST_IN))) ;;
  confirm_data_delivery dir (in_src_addr info) wire_src (h_dest_addr hdr) (h_packet_id hdr) receipt_id rssi.

(** A valid fragment header, or none: the message is a single packet. *)
Definition fragment_of (data : list Z) : option (option frag_header_t) :=
  if (length data <? FRAG_HEADER_SIZE)%nat then Some None
  else
    fh ← frag_header_parse data;
    Some (if (fh_frag_total fh >? 1) && (fh_frag_index fh <? fh_frag_total fh) &&
             (fh_frag_total fh <=? Z.of_nat FRAG_MAX_FRAGMENTS)
          then Some fh else None).

Definition receive_fragment (info : channel_msg_info_t) (fh : frag_header_t) (wire_src : Z)
    (hdr : bramble_header_t) (hdr_dest rssi snr : Z) : Rx unit :=
  now ← rnow;
  r ← rget;
  '(ret, ctx) ← rlift (reassembly_add (rx_reasm r) fh (drop FRAG_HEADER_SIZE (in_data info)) now
                         (h_packet_id hdr));
  rmodify (λ r, rset_reasm r ctx) ;;
  if negb (ret =? 1) then mret tt
  else
    let first_id := reassembly_get_first_packet_id ctx (fh_message_id fh) in
    let reasm_sz := (Z.to_nat (fh_frag_total fh) * FRAG_MAX_PLAINTEXT)%nat in
    ok ← malloc_ok;
    if negb ok then mret tt else
    '(total, ctx, out) ← rlift (reassembly_collect ctx (fh_message_id fh) (replicate reasm_sz 0) reasm_sz);
    rmodify (λ r, rset_reasm r ctx) ;;
    match total with
    | None => mret tt
    | Some total =>
        if (total =? 0)%nat then mret tt else
        ok ← malloc_ok;
        if negb ok then mret tt else
        let tlen := if (reasm_sz + 1 <=? total)%nat then reasm_sz else total in
        text ← rlift (rdn out 0 tlen);
        store_message info wire_src hdr hdr_dest text first_id rssi snr
    end.

Definition dispatch_payload (info : channel_msg_info_t) (wire_src : Z) (hdr : bramble_header_t)
    (hdr_dest rssi snr : Z) : Rx unit :=
  if in_app_type info =? APP_TYPE_KE then
    on_node (handle_ke_envelope wire_src (Z.of_nat (in_channel_index info)) (in_data info))
  else if in_app_type info =? APP_TYPE_ROLLCALL then
    remit (RRollcallAnnounce (in_src_addr info) (in_channel_index info) (in_data info)) ;;
    taken ← draw_taken;
    rwhen taken (confirm_data_delivery MSG_DIR_BROADCAST_IN (in_src_addr info) wire_src (h_dest_addr hdr)
                   (h_packet_id hdr) (h_packet_id hdr) rssi)
  else if in_app_type info =? APP_TYPE_ROLLCALL_REPLY then
    remit (RRollcallResponse (in_src_addr info) (in_data info)) ;;
    confirm_data_delivery MSG_DIR_INCOMING (in_src_addr info) wire_src (h_dest_addr hdr) (h_packet_id hdr)
      (h_packet_id hdr) rssi
  else if (length (in_data info) =? 0)%nat then mret tt
  else
    frag ← rlift (fragment_of (in_data info));
    match frag with
    | Some fh => receive_fragment info fh wire_src hdr hdr_dest rssi snr
    | None =>
        let tlen := if (256 <=? length (in_data info))%nat then 255%nat else length (in_data info) in
        store_message info wire_src hdr hdr_dest (take tlen (in_data info)) (h_packet_id hdr) rssi snr
    end.

Definition handle_data (data : list Z) (len : nat) (rssi snr : Z) : Rx unit :=
  if (len <? BRAMBLE_DATA_ENVELOPE_PREFIX_SIZE + BRAMBLE_NONCE_SIZE + BRAMBLE_TAG_SIZE + 1)%nat then mret tt
  else
    src_addr ← rlift (get_le32 data BRAMBLE_DATA_SRC_ADDR_OFFSET);
    r ← rget;
    if src_addr =? self r then mret tt else
    let ct_len := (len - BRAMBLE_DATA_ENVELOPE_PREFIX_SIZE - BRAMBLE_NONCE_SIZE - BRAMBLE_TAG_SIZE)%nat in
    if (BRAMBLE_MAX_PACKET_SIZE <? ct_len)%nat then mret tt else
    nonce ← rlift (rdn data BRAMBLE_DATA_NONCE_OFFSET BRAMBLE_NONCE_SIZE);
    ct ← rlift (rdn data (BRAMBLE_DATA_NONCE_OFFSET + BRAMBLE_NONCE_SIZE) ct_len);
    tag ← rlift (rdn data (BRAMBLE_DATA_NONCE_OFFSET + BRAMBLE_NONCE_SIZE + ct_len) BRAMBLE_TAG_SIZE);
    '(e, hdr) ← rlift (bramble_header_deserialize header_zero data len);
    match e with
    | ESP_OK =>
        let dest_is_broadcast := h_dest_addr hdr =? UINT32_MAX in
        let dest_is_self := h_dest_addr hdr =? self r in
        rwhen (dest_is_broadcast || (nd_flood_transport (rx_node r) && negb dest_is_self))
          (flood_data data len hdr src_addr) ;;
        if negb dest_is_broadcast && negb dest_is_self then mret tt else
        '(_, aad) ← rlift (bramble_build_aead_aad hdr src_addr (replicate (HEADER_SIZE + 4) 0)
                             (HEADER_SIZE + 4));
        let is_channel_message := negb (Z.land (h_flags hdr) FLAG_CHANNEL =? 0) in
        info ← (if is_channel_message then decrypt_channel nonce ct tag aad
                else decrypt_session hdr src_addr nonce ct tag);
        match info with
        | None => mret tt
        | Some info =>
            go ← replay_gate src_addr (nonce_counter_extract nonce) is_channel_message info;
            if negb go then mret tt else
            hdr_dest ← rlift (get_le32 data 4);
            dispatch_payload info src_addr hdr hdr_dest rssi snr
        end
    | _ => mret tt
    end.

(** ** Dispatch *)

(** Overheard copies of a frame this node is about to relay. *)
Definition note_overheard (flood_key : Z) : Rx unit :=
  rmodify (λ r, rset_floodq r (channel_flood_note_overheard (rx_floodq r) flood_key).2).

Definition att_blank : bramble_identity_attestation_t :=
  mk_attestation header_zero 0 (replicate 32 0) (replicate 32 0) (replicate 64 0) 0 (replicate 64 0)
    (replicate 8 0) (replicate 6 0).
Definition dedup_key (header : bramble_header_t) (data : list Z) : option Z :=
  let key := Z.lxor (h_packet_id header) (u32 (h_type header << 24)) in
  if (h_type header =? PKT_TYPE_PROBE_ACK) && (HEADER_SIZE + 4 <=? length data)%nat then
    addr ← get_le32 data HEADER_SIZE;
    let key := Z.lxor key addr in
    if (HEADER_SIZE + 6 <=? length data)%nat then
      round ← rd data (HEADER_SIZE + 5); Some (Z.lxor key (round << 16))
    else Some key
  else Some key.

(** What a duplicate still does: the sender's repeat of a delivered message is
    acknowledged again; authentic copies of frames queued for relaying count. *)
Definition rx_duplicate (header : bramble_header_t) (data : list Z) (rssi : Z) : Rx unit :=
  maybe_emit_implicit_broadcast_delivery header data ;;
  now ← rnow;
  r ← rget;
  let len := length data in
  let self_addr := self r in
  let flood := nd_flood_transport (rx_node r) in
  let is_data := h_type header =? PKT_TYPE_DATA in
  (if is_data && (h_dest_addr header =? self_addr) && (BRAMBLE_DATA_NONCE_OFFSET <=? len)%nat then
     src ← rlift (get_le32 data BRAMBLE_DATA_SRC_ADDR_OFFSET);
     if negb (dedup_contains (rx_delivered r) (Z.lxor (h_packet_id header) src) now) then mret tt
     else
       mac ← rlift (rdn data BRAMBLE_DATA_AUTH_HMAC_OFFSET 8);
       ok ← rlift (data_auth_verify hmac (rkey r) header src mac);
       rwhen ok (send_ack src (h_packet_id header) rssi)
   else mret tt) ;;
  (if is_data && ((h_dest_addr header =? UINT32_MAX) || (flood && negb (h_dest_addr header =? self_addr))) &&
      (BRAMBLE_DATA_NONCE_OFFSET <=? len)%nat then
     src ← rlift (get_le32 data BRAMBLE_DATA_SRC_ADDR_OFFSET);
     mac ← rlift (rdn data BRAMBLE_DATA_AUTH_HMAC_OFFSET 8);
     ok ← rlift (data_auth_verify hmac (rkey r) header src mac);
     rwhen ok (note_overheard (Z.lxor (h_packet_id header) src))
   else mret tt) ;;
  (if (h_type header =? PKT_TYPE_ACK) && flood && negb (h_dest_addr header =? self_addr) &&
      (HEADER_SIZE + 4 <=? len)%nat then
     '(e, ack) ← rlift (bramble_ack_deserialize ack_zero data len);
     match e with
     | ESP_OK =>
         ok ← rlift (ack_verify hmac (rkey r) ack);
         rwhen ok (note_overheard (Z.lxor (h_packet_id (ack_header ack)) (ack_src_addr ack)))
     | _ => mret tt
     end
   else mret tt) ;;
  (if h_type header =? PKT_TYPE_IDENTITY_ATTESTATION then
     '(e, att) ← rlift (bramble_identity_attestation_deserialize att_blank data len);
     match e with
     | ESP_OK =>
         ok ← rlift (ident_relay_verify hmac (rkey r) att);
         rwhen ok (note_overheard (Z.lxor (h_packet_id (att_header att)) (att_src_addr att)))
     | _ => mret tt
     end
   else mret tt).

(** The start of [mesh_process_rx_packet]: the header, if the frame is new and
    goes on to its handler. *)
Definition rx_gate (data : list Z) (rssi : Z) : Rx (option bramble_header_t) :=
  let len := length data in
  if (len <? HEADER_SIZE)%nat then mret None else
  '(e, header) ← rlift (bramble_header_deserialize header_zero data len);
  match e with
  | ESP_OK =>
      if negb (bramble_header_is_supported_version (Some header)) then mret None else
      key ← rlift (dedup_key header data);
      now ← rnow;
      r ← rget;
      let '(dup, buf) := dedup_check_and_add (rx_dedup r) key now in
      rmodify (λ r, rset_dedup r buf) ;;
      if (dup : bool) then rx_duplicate header data rssi ;; mret None else mret (Some header)
  | _ => mret None
  end.

(** [forward_data_packet] on the shared state.  The packet id and the sequence
    number are drawn only when a route error goes out. *)
Definition is_routing_tx (e : mesh_event) : bool :=
  match e with EvTx _ TX_KIND_ROUTING => true | _ => false end.
Definition rx_forward_data (data : list Z) (header : bramble_header_t) : Rx unit :=
  now ← rnow;
  r ← rget;
  let v := nd_env (rx_node r) in
  '(pkt_id, n) ← rlift (next_packet_id (rx_node r));
  let seq := match v_nonce v with Some nonce :: _ => Some (nonce_counter_extract nonce) | _ => None end in
  '(m, evs) ← rlift (forward_data_packet hmac (view r) (mk_env now 0 pkt_id seq) data (length data) header);
  rmodify (λ r, rset_mesh r m) ;;
  (if existsb is_routing_tx evs then
     rmodify (λ r, rset_node r n) ;; on_node nonce_next ;; mret tt
   else mret tt) ;;
  on_node (for_each evs (λ e, match e with EvTx f k => mesh_tx f k ;; mret tt | _ => mret tt end)).

(** The DATA case of the dispatch. *)
Definition rx_data (header : bramble_header_t) (data : list Z) (rssi snr : Z) : Rx unit :=
  if (length data <? BRAMBLE_DATA_NONCE_OFFSET)%nat then mret tt else
  src ← rlift (get_le32 data BRAMBLE_DATA_SRC_ADDR_OFFSET);
  prev_hop ← rlift (get_le32 data BRAMBLE_DATA_PREV_HOP_OFFSET);
  mac ← rlift (rdn data BRAMBLE_DATA_AUTH_HMAC_OFFSET 8);
  r ← rget;
  ok ← rlift (data_auth_verify hmac (rkey r) header src mac);
  if negb ok then mret tt else
  rwhen (prev_hop =? src) (mesh_note_peer_heard src rssi snr) ;;
  now ← rnow;
  let d := data_rx_decide (h_dest_addr header) (self r) src prev_hop (h_hop_limit header)
             (metric_apply_link_penalty 255 (i8 rssi) snr) in
  rwhen (dd_install_reverse_route d)
    (rmodify (λ r, rset_mesh r (set_routes (rx_mesh r)
       (route_install (s_routes (rx_mesh r)) (dd_reverse_dest d) (dd_reverse_next_hop d)
          (dd_reverse_hop_count d) (dd_reverse_metric d) ROUTE_ACTIVE ROUTE_SRC_BREADCRUMB now).2))) ;;
  match dd_action d with
  | DATA_RX_FORWARD =>
      if nd_flood_transport (rx_node r) then handle_data data (length data) rssi snr
      else rx_forward_data data header
  | DATA_RX_DELIVER => handle_data data (length data) rssi snr
  end.

(** Reception of a data frame, an acknowledgement or a receipt; the handlers of
    the other types are not part of this file. *)
Definition receive (data : list Z) (rssi snr : Z) : Rx unit :=
  header ← rx_gate data rssi;
  match header with
  | None => mret tt
  | Some h =>
      if h_type h =? PKT_TYPE_DATA then rx_data h data rssi snr
      else if h_type h =? PKT_TYPE_ACK then handle_ack data (length data) rssi snr
      else if h_type h =? PKT_TYPE_DELIVERY_RECEIPT then handle_delivery_receipt data (length data) rssi
      else mret tt
  end.
End Reception.
