(* ===== verification/MeshRxSpec.v ===== *)
(** * What reception promises

    Triples over the reception monad, which parts of the state each handler
    leaves alone, when a message is delivered, and the life of a receipt. *)

From stdpp Require Import base strings numbers sets option decidable list.
From S2P Require Import Prelude Tables Packet PacketSpec Dedup ReplayWindow ReplayDeferred NonceCounter.
From S2P Require Import Fragment Mailbox Airtime TxGate Reliability Routing Forwarding NetworkKey RoutingAuth.
From S2P Require Import Discovery ChannelFlood Timesync MeshRouting DmCrypto DmRatchet DmTable Identity.
From S2P Require Import Security IdentityStore Channel MsgStore MeshDm MeshDmSpec Receipts MeshRx.

Create HintDb rx.

(** ** Triples

    [rwp total m r Q]: if the handler returns from [r], [Q] holds of its result and
    the state it leaves; with [total] it does return. *)
Definition rwp (total : bool) {A} (m : Rx A) (r : rx) (Q : A → rx → Prop) : Prop :=
  match m r with Some (x, r') => Q x r' | None => total = false end.

Section Triples.
Context (tot : bool).
Lemma rwp_ret {A} (x : A) r (Q : A → rx → Prop) : Q x r → rwp tot (mret x) r Q.
Proof. done. Qed.
Lemma rwp_bind {A B} (m : Rx A) (k : A → Rx B) r (Q : B → rx → Prop) :
  rwp tot m r (λ x r', rwp tot (k x) r' Q) → rwp tot (m ≫= k) r Q.
Proof. unfold rwp, mbind, Rx_bind. destruct (m r) as [[x r']|]; done. Qed.
Lemma rwp_mono {A} (m : Rx A) r (Q Q' : A → rx → Prop) :
  rwp tot m r Q → (∀ x r', Q x r' → Q' x r') → rwp tot m r Q'.
Proof. unfold rwp. destruct (m r) as [[x r']|]; [|done]. intros H HQ. by apply HQ. Qed.
Lemma rwp_get r (Q : rx → rx → Prop) : Q r r → rwp tot rget r Q.
Proof. done. Qed.
Lemma rwp_modify f r (Q : unit → rx → Prop) : Q tt (f r) → rwp tot (rmodify f) r Q.
Proof. done. Qed.
Lemma rwp_now r (Q : Z → rx → Prop) : Q (v_now (nd_env (rx_node r))) r → rwp tot rnow r Q.
Proof. intros H. unfold rwp, rnow, on_node, now_ms, gets. by destruct r. Qed.
Lemma rwp_when b m r (Q : unit → rx → Prop) :
  (b = true → rwp tot m r Q) → (b = false → Q tt r) → rwp tot (rwhen b m) r Q.
Proof. destruct b; cbn [rwhen]; intros; [by auto|apply rwp_ret; auto]. Qed.
Lemma rwp_node {A} (m : M A) r (Q : A → rx → Prop) :
  (match m (rx_node r) with
   | Some (x, n) => Q x (rset_node r n) | None => tot = false end) → rwp tot (on_node m) r Q.
Proof. unfold rwp, on_node. by destruct (m (rx_node r)) as [[x n]|]. Qed.
End Triples.

Lemma rwp_lift {A} (o : option A) r (Q : A → rx → Prop) :
  (∀ x, o = Some x → Q x r) → rwp false (rlift o) r Q.
Proof. unfold rwp, rlift. destruct o; auto. Qed.
Lemma rwp_lift_total {A} (o : option A) r (Q : A → rx → Prop) :
  is_Some o → (∀ x, o = Some x → Q x r) → rwp true (rlift o) r Q.
Proof. intros [x ->] H. by apply H. Qed.
Lemma rwp_elim {A} (m : Rx A) r (Q : A → rx → Prop) :
  rwp true m r Q → ∃ x r', m r = Some (x, r') ∧ Q x r'.
Proof. unfold rwp. destruct (m r) as [[x r']|]; [|done]. eauto. Qed.

(** ** What no handler here touches, and what few do *)

Definition is_message (e : rx_event) : bool := match e with ROnMessage _ _ _ _ _ _ => true | _ => false end.
(** The messages delivered to the clients. *)
Definition messages (r : rx) : list rx_event := filter (λ e, is_message e = true) (rx_out r).

(** The same configuration, clock and network time. *)
Definition same_node (n n' : node) : Prop :=
  nd_id n' = nd_id n ∧ nd_key n' = nd_key n ∧ nd_flood_transport n' = nd_flood_transport n ∧
  v_now (nd_env n') = v_now (nd_env n) ∧ v_uptime_s (nd_env n') = v_uptime_s (nd_env n).
#[global] Instance same_node_po : PreOrder same_node.
Proof.
  split; unfold same_node; [by intros n|].
  intros a b c (? & ? & ? & ? & ?) (? & ? & ? & ? & ?). repeat split; congruence.
Qed.
(** Nothing delivered, nothing filed. *)
Definition silent (r r' : rx) : Prop :=
  same_node (rx_node r) (rx_node r') ∧ nd_msgs (rx_node r') = nd_msgs (rx_node r) ∧
  messages r' = messages r ∧ rx_timesync r' = rx_timesync r ∧ rx_replay r' = rx_replay r ∧
  rx_deferred r' = rx_deferred r ∧ nd_acks (rx_node r') = nd_acks (rx_node r) ∧
  rx_reasm r' = rx_reasm r.
#[global] Instance silent_po : PreOrder silent.
Proof.
  split; unfold silent.
  - intros r. split; [reflexivity|done].
  - intros a b c (J & ? & ? & ? & ? & ? & ? & ?) (K & ? & ? & ? & ? & ? & ? & ?).
    split; [by transitivity (rx_node b)|]. repeat split; congruence.
Qed.

(** A node action that files nothing. *)
Definition node_silent {A} (m : M A) : Prop := ∀ n x n', m n = Some (x, n') →
  same_node n n' ∧ nd_msgs n' = nd_msgs n ∧ nd_acks n' = nd_acks n.
Lemma silent_node {A} (m : M A) r :
  node_silent m → rwp false (on_node m) r (λ _ r', silent r r').
Proof.
  intros Hm. apply rwp_node. destruct (m (rx_node r)) as [[x n]|] eqn:E; [|done].
  destruct (Hm _ _ _ E) as (J & ? & ?). by destruct r.
Qed.

Lemma node_silent_ret {A} (x : A) : node_silent (mret x).
Proof. intros n y n' [= <- <-]. by split; [reflexivity|]. Qed.
Lemma node_silent_bind {A B} (m : M A) (k : A → M B) :
  node_silent m → (∀ x, node_silent (k x)) → node_silent (m ≫= k).
Proof.
  intros Hm Hk n y n2 H. unfold mbind, M_bind in H. destruct (m n) as [[x n1]|] eqn:E; [|done].
  destruct (Hm _ _ _ E) as (J1 & ? & ?), (Hk x _ _ _ H) as (J2 & ? & ?).
  split; [by transitivity n1|]. split; congruence.
Qed.
Lemma node_silent_get : node_silent get.
Proof. intros n y n' [= <- <-]. by split; [reflexivity|]. Qed.
Lemma node_silent_lift {A} (o : option A) : node_silent (lift o).
Proof. intros n y n'. unfold lift. destruct o; [|done]. intros [= <- <-]. by split; [reflexivity|]. Qed.
Lemma node_silent_modify f :
  (∀ n, same_node n (f n) ∧ nd_msgs (f n) = nd_msgs n ∧ nd_acks (f n) = nd_acks n) →
  node_silent (modify f).
Proof. intros Hf n y n' [= <- <-]. apply Hf. Qed.
Lemma node_silent_now : node_silent now_ms.
Proof. intros n y n' [= <- <-]. by split; [reflexivity|]. Qed.
Lemma node_silent_tx f k : node_silent (mesh_tx f k).
Proof. intros n y n' [= <- <-]. by split. Qed.
Lemma node_silent_nonce : node_silent nonce_next.
Proof. intros n y n' [= <- <-]. by split. Qed.
Lemma node_silent_id : node_silent next_packet_id.
Proof.
  intros n y n'. unfold next_packet_id. destruct (nd_counter n =? 0); intros [= <- <-]; by split.
Qed.
Lemma node_silent_rate p t : node_silent (dm_rehandshake_rate_ok p t).
Proof.
  intros n y n'. unfold dm_rehandshake_rate_ok.
  destruct (dm_rehandshake_rate_ok_at _ _ _). intros [= <- <-]. by split.
Qed.
Lemma node_silent_work w : node_silent (work_send w).
Proof. intros n y n'. unfold work_send. destruct (_ <? _)%nat; intros [= <- <-]; by split. Qed.
Lemma node_silent_session i s : node_silent (set_session i s).
Proof. intros n y n' [= <- <-]. by split. Qed.
#[export] Hint Resolve node_silent_ret node_silent_bind node_silent_get node_silent_lift node_silent_now
  node_silent_tx node_silent_nonce node_silent_id node_silent_rate node_silent_work
  node_silent_session : rx.
Ltac node_silent :=
  repeat first
    [ progress auto with rx | apply node_silent_bind; [|intros]
    | match goal with |- node_silent (if ?b then _ else _) => destruct b end
    | match goal with |- node_silent (match ?x with _ => _ end) => destruct x end
    | progress cbn zeta ].

Lemma node_silent_rehandshake p : node_silent (maybe_trigger_dm_rehandshake p).
Proof. unfold maybe_trigger_dm_rehandshake. node_silent. Qed.

Lemma node_silent_ke `{IC : IdCrypto} src ch data : node_silent (handle_ke_envelope src ch data).
Proof.
  unfold handle_ke_envelope. node_silent. intros n y n'.
  destruct (hs_dedup_check_and_record _ _ _ _ _). intros [= <- <-]. by split.
Qed.

(** ** Handlers that deliver nothing *)

(** Where the handler returns, it has moved along [R]. *)
Definition rsteps (R : rx → rx → Prop) {A} (m : Rx A) : Prop := ∀ r, rwp false m r (λ _ r', R r r').

Section Steps.
Context (R : rx → rx → Prop) `{HR : !PreOrder R}.
Lemma rsteps_ret {A} (x : A) : rsteps R (mret x).
Proof. intros r. by apply rwp_ret. Qed.
Lemma rsteps_bind {A B} (m : Rx A) (k : A → Rx B) :
  rsteps R m → (∀ x, rsteps R (k x)) → rsteps R (m ≫= k).
Proof.
  intros Hm Hk r. apply rwp_bind. eapply rwp_mono; [apply Hm|]. intros x r1 H1.
  eapply rwp_mono; [apply Hk|]. intros y r2 H2. by transitivity r1.
Qed.
Lemma rsteps_get : rsteps R rget.
Proof. intros r. by apply rwp_get. Qed.
Lemma rsteps_now : rsteps R rnow.
Proof. intros r. by apply rwp_now. Qed.
Lemma rsteps_lift {A} (o : option A) : rsteps R (rlift o).
Proof. intros r. by apply rwp_lift. Qed.
Lemma rsteps_modify f : (∀ r, R r (f r)) → rsteps R (rmodify f).
Proof. intros Hf r. apply rwp_modify, Hf. Qed.
Lemma rsteps_when b m : rsteps R m → rsteps R (rwhen b m).
Proof. intros Hm r. apply rwp_when; intros _; [apply Hm|reflexivity]. Qed.
End Steps.
#[export] Hint Resolve rsteps_ret rsteps_get rsteps_now rsteps_lift rsteps_when : rx.
#[export] Hint Extern 0 (PreOrder _) => typeclasses eauto : rx.

Abbreviation rsilent m := (rsteps silent m).
Lemma rsilent_node {A} (m : M A) : node_silent m → rsilent (on_node m).
Proof. intros Hm r. by apply silent_node. Qed.
Lemma rsilent_emit e : is_message e = false → rsilent (remit e).
Proof.
  intros He. apply rsteps_modify. intros r. unfold silent, messages. destruct r. cbn.
  rewrite filter_app. cbn [filter list_filter]. rewrite decide_False by congruence.
  by rewrite app_nil_r.
Qed.
Lemma rsilent_random : rsilent esp_random.
Proof. apply rsilent_node. intros n y n' [= <- <-]. by split. Qed.
Lemma rsilent_check : rsilent draw_check.
Proof. intros r. by destruct r. Qed.
Lemma rsilent_taken : rsilent draw_taken.
Proof. intros r. by destruct r. Qed.
Lemma rsilent_malloc : rsilent malloc_ok.
Proof. intros r. by destruct r. Qed.
#[export] Hint Resolve rsilent_random rsilent_check rsilent_taken rsilent_malloc : rx.
(** Closes [rsteps] goals along the structure of the handler. *)
Ltac rsteps :=
  repeat first
    [ progress auto with rx | apply rsteps_bind; [typeclasses eauto| |intros]
    | apply rsilent_node; solve [node_silent] | apply rsilent_emit; reflexivity
    | apply rsteps_modify; let r := fresh in intros r; by destruct r
    | apply rsteps_when; [typeclasses eauto|]
    | match goal with |- rsteps _ (if ?b then _ else _) => destruct b end
    | match goal with |- rsteps _ (match ?x with _ => _ end) => destruct x end
    | progress cbn zeta ].

Lemma rsilent_seq : rsilent control_seq_next.
Proof. unfold control_seq_next. rsteps. Qed.
Lemma rsilent_replay_ctl a b : rsilent (rx_control_replay_ok a b).
Proof. unfold rx_control_replay_ok. rsteps. Qed.
Lemma rsilent_heard a b c : rsilent (mesh_note_peer_heard a b c).
Proof. unfold mesh_note_peer_heard. rsteps. Qed.
Lemma rsilent_ring e : rsilent (delivery_event_ring_append_locked e).
Proof. unfold delivery_event_ring_append_locked. rsteps. Qed.
#[export] Hint Resolve rsilent_seq rsilent_replay_ctl rsilent_heard rsilent_ring : rx.
Lemma rsilent_bcast_event a b c d : rsilent (record_broadcast_delivery_event a b c d).
Proof. unfold record_broadcast_delivery_event. rsteps. Qed.
#[export] Hint Resolve rsilent_bcast_event : rx.
Lemma rsilent_notify a b c d e : rsilent (mesh_emit_broadcast_delivery_notification a b c d e).
Proof. unfold mesh_emit_broadcast_delivery_notification. rsteps. Qed.
#[export] Hint Resolve rsilent_notify : rx.
Lemma rsilent_implicit h d : rsilent (maybe_emit_implicit_broadcast_delivery h d).
Proof. unfold maybe_emit_implicit_broadcast_delivery. rsteps. Qed.
Lemma rsilent_timer : rsilent mesh_schedule_next_receipt_timer.
Proof. unfold mesh_schedule_next_receipt_timer. rsteps. Qed.
Lemma rsilent_set_receipt i q : rsilent (set_receipt i q).
Proof. unfold set_receipt. rsteps. Qed.
Lemma rsilent_flood_relay a b c d e : rsilent (rx_schedule_flood_relay a b c d e).
Proof. unfold rx_schedule_flood_relay. rsteps. Qed.
Lemma rsilent_overheard k : rsilent (note_overheard k).
Proof. unfold note_overheard. rsteps. Qed.
#[export] Hint Resolve rsilent_implicit rsilent_timer rsilent_set_receipt rsilent_flood_relay
  rsilent_overheard : rx.

Section Silent.
Context `{DC : DmCrypto} `{IC : IdCrypto} (hmac : list Z → list Z → list Z).

Lemma rsilent_queue_receipt a b : rsilent (queue_broadcast_delivery_receipt hmac a b).
Proof. unfold queue_broadcast_delivery_receipt. rsteps. Qed.
Lemma rsilent_send_ack a b c : rsilent (send_ack hmac a b c).
Proof. unfold send_ack. rsteps. Qed.
Lemma rsilent_forward_ack a : rsilent (forward_ack a).
Proof. unfold forward_ack. rsteps. Qed.
Lemma rsilent_flood_ack a : rsilent (flood_ack a).
Proof. unfold flood_ack. rsteps. Qed.
Lemma rsilent_forward_receipt a : rsilent (forward_delivery_receipt a).
Proof. unfold forward_delivery_receipt. rsteps. Qed.
#[local] Hint Resolve rsilent_queue_receipt rsilent_send_ack : rx.
Lemma rsilent_confirm dir a b c d e f : rsilent (confirm_data_delivery hmac dir a b c d e f).
Proof. unfold confirm_data_delivery. rsteps. Qed.
Lemma rsilent_flood_data a b c d : rsilent (flood_data a b c d).
Proof. unfold flood_data. rsteps. Qed.
Lemma rsilent_duplicate h d t : rsilent (rx_duplicate hmac h d t).
Proof. unfold rx_duplicate. rsteps. Qed.
Lemma rsilent_gate d t : rsilent (rx_gate hmac d t).
Proof. unfold rx_gate. pose proof rsilent_duplicate. rsteps. Qed.
Lemma rsilent_channel a b c d : rsilent (decrypt_channel a b c d).
Proof. unfold decrypt_channel. rsteps. Qed.
Lemma rsilent_session a b c d e : rsilent (decrypt_session a b c d e).
Proof. unfold decrypt_session. pose proof node_silent_rehandshake. rsteps. Qed.
End Silent.

(** ** Steps that keep the keys

    Until a frame is decrypted, what it will be decrypted with stays. *)
Definition keeps (r r' : rx) : Prop :=
  silent r r' ∧ nd_channels (rx_node r') = nd_channels (rx_node r) ∧
  nd_table (rx_node r') = nd_table (rx_node r) ∧ rx_buckets r' = rx_buckets r.
#[global] Instance keeps_po : PreOrder keeps.
Proof.
  split; unfold keeps.
  - intros r. split; [reflexivity|done].
  - intros a b c (J & ? & ? & ?) (K & ? & ? & ?).
    split; [by transitivity b|]. repeat split; congruence.
Qed.
Lemma keeps_silent r r' : keeps r r' → silent r r'.
Proof. by intros [? _]. Qed.
Lemma keeps_check : rsteps keeps draw_check.
Proof. intros r. by destruct r. Qed.
Lemma keeps_random : rsteps keeps esp_random.
Proof. intros r. by destruct r. Qed.
#[export] Hint Resolve keeps_silent keeps_check keeps_random : rx.
Lemma keeps_heard a b c : rsteps keeps (mesh_note_peer_heard a b c).
Proof. unfold mesh_note_peer_heard. rsteps. Qed.
Lemma keeps_flood_relay a b c d e : rsteps keeps (rx_schedule_flood_relay a b c d e).
Proof. unfold rx_schedule_flood_relay. rsteps. Qed.
#[export] Hint Resolve keeps_heard keeps_flood_relay : rx.
Lemma keeps_flood_data a b c d : rsteps keeps (flood_data a b c d).
Proof. unfold flood_data. rsteps. Qed.
#[export] Hint Resolve keeps_flood_data : rx.

(** ** When a message is delivered *)

(** No message delivered, no row filed. *)
Definition unfiled (r r' : rx) : Prop :=
  messages r' = messages r ∧ nd_msgs (rx_node r') = nd_msgs (rx_node r).
(** Nor has what the text depends on changed. *)
Definition calm (r r' : rx) : Prop :=
  same_node (rx_node r) (rx_node r') ∧ unfiled r r' ∧ rx_reasm r' = rx_reasm r.
#[global] Instance unfiled_po : PreOrder unfiled.
Proof. split; unfold unfiled; [done|]. intros a b c [? ?] [? ?]. split; congruence. Qed.
#[global] Instance calm_po : PreOrder calm.
Proof.
  split; unfold calm.
  - intros r. split; [reflexivity|]. by split; [reflexivity|].
  - intros a b c (? & ? & ?) (? & ? & ?). split; [by transitivity (rx_node b)|].
    split; [by transitivity b|congruence].
Qed.
Lemma silent_calm r r' : silent r r' → calm r r'.
Proof. intros (? & ? & ? & _ & _ & _ & _ & ?). by split; [|split]. Qed.
Lemma calm_unfiled r r' : calm r r' → unfiled r r'.
Proof. by intros (_ & ? & _). Qed.
#[export] Hint Resolve silent_calm calm_unfiled : rx.

(** The text is filed in the log and handed to the clients, once. *)
Definition delivery (r : rx) (info : channel_msg_info_t) (hdr_dest : Z) (text : list Z) (rssi snr : Z)
    (r' : rx) : Prop :=
  let n := rx_node r in
  let channel := in_channel_id info >? 0 in
  let dir := if (hdr_dest =? UINT32_MAX) && negb channel then MSG_DIR_BROADCAST_IN else MSG_DIR_INCOMING in
  messages r' = messages r ++
    [ROnMessage (in_src_addr info) text rssi snr (if channel then in_channel_id info else MSG_STORE_DM_CHANNEL)
       ((hdr_dest =? UINT32_MAX) && negb channel)] ∧
  nd_msgs (rx_node r') =
    (if channel
     then msg_store_add_channel (nd_msgs n) (in_src_addr info) dir text (i8 rssi) snr 0 MSG_STATUS_NONE
            (u8 (in_channel_id info)) (v_uptime_s (nd_env n))
     else msg_store_add_dm (nd_msgs n) (in_src_addr info) dir text (i8 rssi) snr 0 MSG_STATUS_NONE
            (v_uptime_s (nd_env n))).1.
Lemma calm_delivery r r1 info d text rssi snr r' :
  calm r r1 → delivery r1 info d text rssi snr r' → delivery r info d text rssi snr r'.
Proof.
  intros ((_ & _ & _ & _ & Hup) & [Hm Hs] & _). unfold delivery. by rewrite Hm, Hs, Hup.
Qed.
Lemma delivery_silent r info d text rssi snr r1 r' :
  delivery r info d text rssi snr r1 → silent r1 r' → delivery r info d text rssi snr r'.
Proof. intros [Hm Hs] (_ & Hs' & Hm' & _). unfold delivery. by rewrite Hm', Hs'. Qed.

(** The text the payload of this frame completes: the payload itself, or the
    concatenation of the fragments gathered so far with this one. *)
Definition payload_text (r : rx) (info : channel_msg_info_t) (packet_id : Z) (text : list Z) : Prop :=
  let now := v_now (nd_env (rx_node r)) in
  (fragment_of (in_data info) = Some None ∧
   text = take (if (256 <=? length (in_data info))%nat then 255 else length (in_data info)) (in_data info)) ∨
  ∃ fh ctx total ctx' out,
    fragment_of (in_data info) = Some (Some fh) ∧
    reassembly_add (rx_reasm r) fh (drop FRAG_HEADER_SIZE (in_data info)) now packet_id = Some (1, ctx) ∧
    let sz := (Z.to_nat (fh_frag_total fh) * FRAG_MAX_PLAINTEXT)%nat in
    reassembly_collect ctx (fh_message_id fh) (replicate sz 0) sz = Some (Some total, ctx', out) ∧
    total ≠ 0%nat ∧ rdn out 0 (if (sz + 1 <=? total)%nat then sz else total) = Some text.
Lemma calm_payload r r1 info pid text : calm r r1 → payload_text r1 info pid text → payload_text r info pid text.
Proof. intros ((_ & _ & _ & Hnow & _) & _ & Hr). unfold payload_text. by rewrite Hnow, Hr. Qed.

Lemma rsteps_mono (R R' : rx → rx → Prop) {A} (m : Rx A) :
  (∀ r r', R r r' → R' r r') → rsteps R m → rsteps R' m.
Proof. intros HR Hm r. eapply rwp_mono; [apply Hm|]. eauto. Qed.
Lemma rsilent_keeps {A} (m : Rx A) : rsteps keeps m → rsilent m.
Proof. apply rsteps_mono, keeps_silent. Qed.
Lemma unfiled_silent {A} (m : Rx A) : rsilent m → rsteps unfiled m.
Proof. apply rsteps_mono. intros r r' H. by apply calm_unfiled, silent_calm. Qed.

Section Delivery.
Context `{DC : DmCrypto} `{IC : IdCrypto} (hmac : list Z → list Z → list Z).

Lemma store_message_spec info src hdr d text id rssi snr r :
  rwp false (store_message hmac info src hdr d text id rssi snr) r
    (λ _ r', delivery r info d text rssi snr r').
Proof.
  unfold store_message. cbv zeta. apply rwp_bind, rwp_node.
  set (dir := if _ && _ then _ else _).
  destruct (if in_channel_id info >? 0 then _ else _) as [st ps] eqn:E.
  apply rwp_bind, rwp_modify.
  eapply rwp_mono; [apply (rsilent_confirm hmac)|]. intros [] r'. apply delivery_silent.
  unfold delivery. fold dir. rewrite E. destruct r as [n]. cbn. split; [|done].
  unfold messages. cbn. rewrite filter_app. do 2 f_equal. unfold dir.
  by destruct ((d =? UINT32_MAX) && negb (in_channel_id info >? 0)).
Qed.

Lemma receive_fragment_spec info fh src hdr d rssi snr r :
  fragment_of (in_data info) = Some (Some fh) →
  rwp false (receive_fragment hmac info fh src hdr d rssi snr) r (λ _ r',
    unfiled r r' ∨ ∃ text, payload_text r info (h_packet_id hdr) text ∧ delivery r info d text rssi snr r').
Proof.
  intros Hf. unfold receive_fragment. apply rwp_bind, rwp_now. apply rwp_bind, rwp_get.
  apply rwp_bind, rwp_lift. intros [ret ctx] Hadd. apply rwp_bind, rwp_modify.
  destruct (ret =? 1) eqn:E1; cbn [negb]; [|apply rwp_ret; left; by destruct r].
  apply Z.eqb_eq in E1 as ->. cbv zeta. apply rwp_bind. unfold malloc_ok at 1, rwp at 1.
  set (b := match d_alloc _ with [] => _ | _ => _ end). set (r1 := rset_draws _ _).
  assert (H1 : unfiled r r1 ∧ v_uptime_s (nd_env (rx_node r1)) = v_uptime_s (nd_env (rx_node r)))
    by (by destruct r).
  clearbody b r1. destruct b; cbn [negb]; [|apply rwp_ret; left; apply H1].
  apply rwp_bind, rwp_lift. intros [[total ctx'] out] Hc. apply rwp_bind, rwp_modify.
  assert (H2 : unfiled r (rset_reasm r1 ctx') ∧
    v_uptime_s (nd_env (rx_node (rset_reasm r1 ctx'))) = v_uptime_s (nd_env (rx_node r))).
  { destruct H1 as [H1 <-]. split; [|by destruct r1]. transitivity r1; [done|by destruct r1]. }
  destruct total as [total|]; [|apply rwp_ret; left; apply H2].
  destruct (total =? 0)%nat eqn:E0; [apply rwp_ret; left; apply H2|].
  apply Nat.eqb_neq in E0. apply rwp_bind. unfold malloc_ok at 1, rwp at 1.
  set (b := match d_alloc _ with [] => _ | _ => _ end). set (r2 := rset_draws _ _).
  assert (H3 : unfiled r r2 ∧ v_uptime_s (nd_env (rx_node r2)) = v_uptime_s (nd_env (rx_node r))).
  { destruct H2 as [H2 <-]. split; [|by destruct r1]. by etransitivity; [exact H2|]. }
  clearbody b r2. destruct b; cbn [negb]; [|apply rwp_ret; left; apply H3].
  apply rwp_bind, rwp_lift. intros text Ht.
  eapply rwp_mono; [apply store_message_spec|]. intros [] r' Hd. right. exists text. split.
  - right. by exists fh, ctx, total, ctx', out.
  - destruct H3 as [[Hm Hs] Hup]. revert Hd. unfold delivery. by rewrite Hm, Hs, Hup.
Qed.

Lemma dispatch_spec info src hdr d rssi snr r :
  rwp false (dispatch_payload hmac info src hdr d rssi snr) r (λ _ r',
    unfiled r r' ∨ ∃ text, payload_text r info (h_packet_id hdr) text ∧ delivery r info d text rssi snr r').
Proof.
  unfold dispatch_payload.
  assert (Hun : ∀ (m : Rx unit), rsteps unfiled m → rwp false m r (λ _ r',
    unfiled r r' ∨ ∃ text, payload_text r info (h_packet_id hdr) text ∧ delivery r info d text rssi snr r')).
  { intros m Hm. eapply rwp_mono; [apply Hm|]. by left. }
  pose proof (rsilent_confirm hmac) as Hc.
  destruct (in_app_type info =? APP_TYPE_KE).
  { apply Hun, unfiled_silent, rsilent_node, node_silent_ke. }
  destruct (in_app_type info =? APP_TYPE_ROLLCALL); [apply Hun, unfiled_silent; rsteps|].
  destruct (in_app_type info =? APP_TYPE_ROLLCALL_REPLY); [apply Hun, unfiled_silent; rsteps|].
  destruct (length (in_data info) =? 0)%nat; [by apply Hun, rsteps_ret, _|].
  apply rwp_bind, rwp_lift. intros [fh|] Hf; [by apply receive_fragment_spec|].
  eapply rwp_mono; [apply store_message_spec|]. intros [] r' Hd. right. eexists. split; [|exact Hd].
  by left.
Qed.

(** The frame opened under a channel key or the sender's session. *)
Definition opened (r : rx) (hdr : bramble_header_t) (src : Z) (nonce ct tag : list Z)
    (info : channel_msg_info_t) : Prop :=
  let n := rx_node r in
  if negb (Z.land (h_flags hdr) FLAG_CHANNEL =? 0) then
    ∃ e aad, bramble_build_aead_aad hdr src (replicate (HEADER_SIZE + 4) 0) (HEADER_SIZE + 4) = Some (e, aad) ∧
      (channel_msg_decrypt nonce ct tag aad (nd_channels n) (rx_buckets r) (v_now (nd_env n))).1.1 = Some info
  else
    ∃ i pt s, dm_lookup (nd_table n) src = Some i ∧ dm_in_state DM_STATE_ACTIVE (nd_table n !!! i) = true ∧
      dm_session_ratchet_decrypt (nd_table n !!! i) hdr src nonce ct tag = (DM_DECRYPT_OK, pt, s) ∧
      info = mk_info 0 0 APP_TYPE_CHAT src 0 (default [] pt) 0.
(** The replay windows let the counter through. *)
Definition not_replayed (r : rx) (src counter : Z) (channel : bool) (info : channel_msg_info_t) : Prop :=
  let now := v_now (nd_env (rx_node r)) in
  let now_s := network_s (rx_timesync r) now in
  let confident := timesync_is_confident (rx_timesync r) now in
  let chat := in_app_type info =? APP_TYPE_CHAT in
  channel_source_is_replay_trustworthy channel (in_channel_index info) = false ∨
  (replay_check_and_add (rx_replay r) src counter now).1 = REPLAY_ACCEPT ∧
    (chat && confident && stale_chat (in_sent_at info) now_s) = false ∨
  (replay_check_and_add (rx_replay r) src counter now).1 = REPLAY_BELOW_WINDOW ∧ chat = true ∧
    (replay_deferred_accept (rx_deferred r) src counter (in_sent_at info) now_s confident).1 = REPLAY_ACCEPT.
Lemma silent_not_replayed r r1 src c ch info :
  silent r r1 → not_replayed r1 src c ch info → not_replayed r src c ch info.
Proof.
  intros ((_ & _ & _ & Hnow & _) & _ & _ & Hts & Hrp & Hd & _). unfold not_replayed.
  by rewrite Hnow, Hts, Hrp, Hd.
Qed.

Lemma replay_gate_spec src c ch info r :
  rwp false (replay_gate src c ch info) r
    (λ go r', calm r r' ∧ (go = true → not_replayed r src c ch info)).
Proof.
  unfold replay_gate, not_replayed.
  destruct (channel_source_is_replay_trustworthy _ _); cbn [negb]; [|apply rwp_ret; split; [done|by left]].
  apply rwp_bind, rwp_now. apply rwp_bind, rwp_get.
  destruct (replay_check_and_add _ _ _ _) as [rp table] eqn:Erp. apply rwp_bind, rwp_modify. cbv zeta.
  cbn [fst].
  destruct (rp =? REPLAY_ACCEPT) eqn:Ea; cbn [negb andb].
  - apply Z.eqb_eq in Ea as ->. destruct (_ && _ && stale_chat _ _) eqn:Es.
    { apply rwp_ret. split; [by destruct r|done]. }
    apply rwp_bind, rwp_when; intros Hc; [apply rwp_modify|]; cbn [Z.eqb negb]; apply rwp_ret;
      (split; [by destruct r|]); intros _; right; left; done.
  - destruct (rp =? REPLAY_BELOW_WINDOW) eqn:Eb; cbn [negb rwhen]; [|apply rwp_ret; by destruct r].
    apply Z.eqb_eq in Eb as ->. apply rwp_bind, rwp_ret.
    destruct (in_app_type info =? APP_TYPE_CHAT); cbn [negb]; [|apply rwp_ret; by destruct r].
    destruct (replay_deferred_accept _ _ _ _ _ _) as [dp d] eqn:Ed.
    apply rwp_bind, rwp_modify, rwp_ret. split; [by destruct r|].
    intros Hdp%Z.eqb_eq. right; right. done.
Qed.

Lemma decrypt_channel_spec hdr src nonce ct tag aad e r :
  negb (Z.land (h_flags hdr) FLAG_CHANNEL =? 0) = true →
  bramble_build_aead_aad hdr src (replicate (HEADER_SIZE + 4) 0) (HEADER_SIZE + 4) = Some (e, aad) →
  rwp false (decrypt_channel nonce ct tag aad) r
    (λ o r', silent r r' ∧ ∀ info, o = Some info → opened r hdr src nonce ct tag info).
Proof.
  intros Hch Haad. unfold decrypt_channel. apply rwp_bind, rwp_now. apply rwp_bind, rwp_get.
  destruct (channel_msg_decrypt _ _ _ _ _ _ _) as [[o chs] bs] eqn:E. apply rwp_bind, rwp_modify, rwp_ret.
  split; [by destruct r|]. intros info ->. unfold opened. rewrite Hch. exists e, aad. by rewrite E.
Qed.
Lemma decrypt_session_spec hdr src nonce ct tag r :
  negb (Z.land (h_flags hdr) FLAG_CHANNEL =? 0) = false →
  rwp false (decrypt_session hdr src nonce ct tag) r
    (λ o r', silent r r' ∧ ∀ info, o = Some info → opened r hdr src nonce ct tag info).
Proof.
  intros Hch. unfold decrypt_session. apply rwp_bind, rwp_now. apply rwp_bind, rwp_get. cbv zeta.
  set (failed := on_node (maybe_trigger_dm_rehandshake src) ≫= _).
  assert (Hfail : ∀ r, rwp false failed r (λ o r', silent r r' ∧ o = None)).
  { intros r0. apply rwp_bind.
    eapply rwp_mono; [apply silent_node, node_silent_rehandshake|]. intros u r1 H1. by apply rwp_ret. }
  clearbody failed.
  assert (Hno : rwp false failed r
    (λ o r', silent r r' ∧ ∀ info, o = Some info → opened r hdr src nonce ct tag info)).
  { eapply rwp_mono; [apply Hfail|]. by intros o r' [H ->]. }
  destruct (dm_lookup _ _) as [i|] eqn:El; [|done].
  destruct (dm_in_state _ _) eqn:Es; cbn [negb]; [|done].
  destruct (dm_session_ratchet_decrypt _ _ _ _ _ _) as [[drc pt] sess] eqn:Ed.
  apply rwp_bind. eapply rwp_mono; [apply silent_node, node_silent_session|]. intros [] r1 H1.
  destruct (drc =? DM_DECRYPT_REPLAY); [by apply rwp_ret|].
  destruct (drc =? DM_DECRYPT_OK) eqn:Eok; cbn [negb].
  - apply Z.eqb_eq in Eok as ->. apply rwp_ret. split; [done|]. intros info [= <-].
    unfold opened. rewrite Hch. by exists i, pt, sess.
  - eapply rwp_mono; [apply Hfail|]. intros o r' [H ->]. split; [by transitivity r1|done].
Qed.
Lemma keeps_opened r r1 hdr src nonce ct tag info :
  keeps r r1 → opened r1 hdr src nonce ct tag info → opened r hdr src nonce ct tag info.
Proof.
  intros ([(_ & _ & _ & Hnow & _) _] & Hc & Ht & Hb). unfold opened. by rewrite Hc, Ht, Hb, Hnow.
Qed.

(** The frame is for this node, from another, opens and is no replay. *)
Definition readable (r : rx) (data : list Z) (len : nat) (hdr : bramble_header_t) (src : Z)
    (info : channel_msg_info_t) : Prop :=
  get_le32 data BRAMBLE_DATA_SRC_ADDR_OFFSET = Some src ∧ src ≠ self r ∧
  bramble_header_deserialize header_zero data len = Some (ESP_OK, hdr) ∧
  (h_dest_addr hdr = self r ∨ h_dest_addr hdr = UINT32_MAX) ∧
  ∃ nonce ct tag,
    let ct_len := (len - BRAMBLE_DATA_ENVELOPE_PREFIX_SIZE - BRAMBLE_NONCE_SIZE - BRAMBLE_TAG_SIZE)%nat in
    rdn data BRAMBLE_DATA_NONCE_OFFSET BRAMBLE_NONCE_SIZE = Some nonce ∧
    rdn data (BRAMBLE_DATA_NONCE_OFFSET + BRAMBLE_NONCE_SIZE) ct_len = Some ct ∧
    rdn data (BRAMBLE_DATA_NONCE_OFFSET + BRAMBLE_NONCE_SIZE + ct_len) BRAMBLE_TAG_SIZE = Some tag ∧
    opened r hdr src nonce ct tag info ∧
    not_replayed r src (nonce_counter_extract nonce) (negb (Z.land (h_flags hdr) FLAG_CHANNEL =? 0)) info.

Lemma handle_data_spec data len rssi snr r :
  rwp false (handle_data hmac data len rssi snr) r (λ _ r',
    unfiled r r' ∨ ∃ hdr src info d text, readable r data len hdr src info ∧ get_le32 data 4 = Some d ∧
      payload_text r info (h_packet_id hdr) text ∧ delivery r info d text rssi snr r').
Proof.
  unfold handle_data. destruct (len <? _)%nat; [apply rwp_ret; by left|].
  apply rwp_bind, rwp_lift. intros src Hsrc. apply rwp_bind, rwp_get.
  destruct (src =? self r) eqn:Eself; [apply rwp_ret; by left|]. apply Z.eqb_neq in Eself.
  cbv zeta. destruct (_ <? _)%nat; [apply rwp_ret; by left|].
  apply rwp_bind, rwp_lift. intros nonce Hnonce. apply rwp_bind, rwp_lift. intros ct Hct.
  apply rwp_bind, rwp_lift. intros tag Htag. apply rwp_bind, rwp_lift. intros [e hdr] Hhdr.
  destruct e; try (apply rwp_ret; by left).
  apply rwp_bind. eapply rwp_mono; [apply (rsteps_when keeps), keeps_flood_data|]. intros [] r1 H1.
  cbv beta. destruct (_ && _) eqn:Edest; [apply rwp_ret; left; by apply calm_unfiled, silent_calm, keeps_silent|].
  apply rwp_bind, rwp_lift. intros [e aad] Haad. apply rwp_bind.
  apply (rwp_mono _ _ _ (λ o r2, silent r1 r2 ∧ ∀ info, o = Some info → opened r1 hdr src nonce ct tag info)).
  { destruct (negb (Z.land _ _ =? 0)) eqn:Ech; [by eapply decrypt_channel_spec|by apply decrypt_session_spec]. }
  intros o r2 [H2 Ho].
  assert (H02 : silent r r2) by (transitivity r1; [by apply keeps_silent|done]).
  destruct o as [info|]; [|apply rwp_ret; left; by apply calm_unfiled, silent_calm].
  apply rwp_bind. eapply rwp_mono; [apply replay_gate_spec|]. intros go r3 [H3 Hgo]. cbv beta.
  assert (H03 : calm r r3) by (transitivity r2; [by apply silent_calm|done]).
  destruct go; cbn [negb]; [|apply rwp_ret; left; by apply calm_unfiled].
  apply rwp_bind, rwp_lift. intros d Hd. eapply rwp_mono; [apply dispatch_spec|].
  intros [] r' [H4|(text & Ht & H4)].
  - left. transitivity r3; [by apply calm_unfiled|done].
  - right. exists hdr, src, info, d, text.
    split; [|split; [done|split; [by eapply calm_payload|by eapply calm_delivery]]].
    split; [done|]. split; [done|]. split; [done|]. split.
    + apply andb_false_iff in Edest as [E|E]; apply negb_false_iff, Z.eqb_eq in E; auto.
    + exists nonce, ct, tag. split; [done|]. split; [done|]. split; [done|]. split.
      * eapply keeps_opened; [done|by apply Ho].
      * eapply silent_not_replayed; [done|by apply Hgo].
Qed.

Lemma node_silent_for_each {A} (l : list A) f : (∀ x, node_silent (f x)) → node_silent (for_each l f).
Proof. intros Hf. induction l as [|x l IH]; cbn [for_each]; node_silent. Qed.
Lemma rsilent_forward data h : rsilent (rx_forward_data hmac data h).
Proof.
  unfold rx_forward_data. intros r. apply rwp_bind, rwp_now. apply rwp_bind, rwp_get.
  cbv zeta. apply rwp_bind, rwp_lift. intros [pkt n] Hn. apply rwp_bind, rwp_lift. intros [m evs] Hm.
  apply node_silent_id in Hn. apply rwp_bind, rwp_modify.
  assert (Hrest : rsilent (on_node (for_each evs (λ e, match e with
    | EvTx f k => mesh_tx f k ;; mret tt | _ => mret tt end)))).
  { apply rsilent_node, node_silent_for_each. intros []; node_silent. }
  apply rwp_bind. destruct (existsb _ _).
  - apply rwp_bind, rwp_modify. apply rwp_bind.
    eapply rwp_mono; [apply silent_node, node_silent_nonce|]. intros o r2 H2. apply rwp_ret.
    eapply rwp_mono; [apply Hrest|]. intros [] r3 H3. etransitivity; [|exact H3].
    etransitivity; [|exact H2]. destruct Hn as (J & ? & ?). destruct r. by split.
  - apply rwp_ret. eapply rwp_mono; [apply Hrest|]. intros [] r3 H3. etransitivity; [|exact H3].
    by destruct r.
Qed.

Lemma keeps_readable r r1 data len hdr src info :
  keeps r r1 → readable r1 data len hdr src info → readable r data len hdr src info.
Proof.
  intros Hk (? & ? & ? & ? & nonce & ct & tag & ? & ? & ? & Ho & Hn).
  assert (Hself : self r1 = self r).
  { unfold self. by destruct Hk as [[(-> & _) _] _]. }
  rewrite Hself in *. unfold readable. split; [done|]. split; [done|]. split; [done|]. split; [done|].
  exists nonce, ct, tag. split; [done|]. split; [done|]. split; [done|]. split.
  - by eapply keeps_opened.
  - eapply silent_not_replayed; [by apply keeps_silent|done].
Qed.

(** The message a frame delivers: authentic, readable, complete. *)
Definition authentic_delivery (r : rx) (data : list Z) (rssi snr : Z) (r' : rx) : Prop :=
  ∃ hdr src mac info d text,
    rdn data BRAMBLE_DATA_AUTH_HMAC_OFFSET 8 = Some mac ∧
    data_auth_verify hmac (rkey r) hdr src mac = Some true ∧
    readable r data (length data) hdr src info ∧ get_le32 data 4 = Some d ∧
    payload_text r info (h_packet_id hdr) text ∧ delivery r info d text rssi snr r'.
Lemma keeps_authentic r r1 data rssi snr r' :
  keeps r r1 → authentic_delivery r1 data rssi snr r' → authentic_delivery r data rssi snr r'.
Proof.
  intros Hk (hdr & src & mac & info & d & text & ? & Hv & ? & ? & Ht & Hd).
  assert (Hkey : rkey r1 = rkey r).
  { unfold rkey. by destruct Hk as [[(_ & -> & _) _] _]. }
  rewrite Hkey in Hv. pose proof (silent_calm _ _ (keeps_silent _ _ Hk)) as Hc.
  exists hdr, src, mac, info, d, text. split; [done|]. split; [done|].
  split; [by eapply keeps_readable|]. split; [done|]. split; [by eapply calm_payload|by eapply calm_delivery].
Qed.

Lemma rx_data_spec header data rssi snr r :
  bramble_header_deserialize header_zero data (length data) = Some (ESP_OK, header) →
  rwp false (rx_data hmac header data rssi snr) r
    (λ _ r', unfiled r r' ∨ authentic_delivery r data rssi snr r').
Proof.
  intros Hh. unfold rx_data. destruct (_ <? _)%nat; [apply rwp_ret; by left|].
  apply rwp_bind, rwp_lift. intros src Hsrc. apply rwp_bind, rwp_lift. intros prev Hprev.
  apply rwp_bind, rwp_lift. intros mac Hmac. apply rwp_bind, rwp_get. apply rwp_bind, rwp_lift.
  intros ok Hok. destruct ok; cbn [negb]; [|apply rwp_ret; by left].
  apply rwp_bind. eapply rwp_mono; [apply (rsteps_when keeps), keeps_heard|]. intros [] r1 H1. cbv beta.
  apply rwp_bind, rwp_now. cbv zeta. apply rwp_bind.
  eapply rwp_mono; [apply (rsteps_when keeps), rsteps_modify|].
  { intros r0. by destruct r0. }
  intros [] r2 H2. cbv beta. assert (H02 : keeps r r2) by (by transitivity r1).
  assert (Hdata : rwp false (handle_data hmac data (length data) rssi snr) r2
    (λ _ r', unfiled r r' ∨ authentic_delivery r data rssi snr r')).
  { eapply rwp_mono; [apply handle_data_spec|]. intros [] r' [H3|(hdr & s & info & d & text & Hr & ? & ? & ?)].
    - left. transitivity r2; [by apply calm_unfiled, silent_calm, keeps_silent|done].
    - right. eapply (keeps_authentic _ r2); [done|].
      exists hdr, s, mac, info, d, text. split; [done|]. split; [|done].
      destruct Hr as (Hs' & _ & Hh' & _). simplify_eq.
      assert (Hkey : rkey r2 = rkey r) by (unfold rkey; by destruct H02 as [[(_ & -> & _) _] _]).
      by rewrite Hkey. }
  destruct (dd_action _); [|].
  all: first [done | destruct (nd_flood_transport _); [done|]].
  eapply rwp_mono; [apply rsilent_forward|]. intros [] r' H3. left.
  apply calm_unfiled. transitivity r2; [by apply silent_calm, keeps_silent|by apply silent_calm].
Qed.


(** Acknowledgements and receipts deliver no message. *)
Definition undelivered (r r' : rx) : Prop := messages r' = messages r.
#[local] Instance undelivered_po : PreOrder undelivered.
Proof. split; unfold undelivered; [done|]. intros a b c. congruence. Qed.
Lemma undelivered_node {A} (m : M A) : rsteps undelivered (on_node m).
Proof. intros r. apply rwp_node. by destruct (m _) as [[x n]|], r. Qed.
Lemma undelivered_silent {A} (m : Rx A) : rsilent m → rsteps undelivered m.
Proof. apply rsteps_mono. by intros r r' (_ & _ & ? & _). Qed.
Lemma undelivered_emit e : is_message e = false → rsteps undelivered (remit e).
Proof. intros. by apply undelivered_silent, rsilent_emit. Qed.
Ltac undelivered :=
  repeat first
    [ apply undelivered_node | apply undelivered_emit; reflexivity
    | apply undelivered_silent; solve [rsteps] | progress rsteps ].
Lemma undelivered_ack data len rssi snr : rsteps undelivered (handle_ack hmac data len rssi snr).
Proof. unfold handle_ack, msgs_delivered. pose proof rsilent_flood_ack. pose proof rsilent_forward_ack.
  unfold record_ack_delivery_event. undelivered.
Qed.
Lemma undelivered_receipt data len rssi : rsteps undelivered (handle_delivery_receipt hmac data len rssi).
Proof.
  unfold handle_delivery_receipt, msgs_delivered. pose proof rsilent_forward_receipt. undelivered.
Qed.


(** A well-formed data frame that was not received before. *)
Definition fresh_data (r : rx) (data : list Z) (hdr : bramble_header_t) : Prop :=
  bramble_header_deserialize header_zero data (length data) = Some (ESP_OK, hdr) ∧
  bramble_header_is_supported_version (Some hdr) = true ∧ h_type hdr = PKT_TYPE_DATA ∧
  ∃ key, dedup_key hdr data = Some key ∧
    (dedup_check_and_add (rx_dedup r) key (v_now (nd_env (rx_node r)))).1 = false.

Lemma rx_gate_spec data rssi r :
  rwp false (rx_gate hmac data rssi) r (λ o r',
    match o with
    | None => silent r r'
    | Some h => keeps r r' ∧
        bramble_header_deserialize header_zero data (length data) = Some (ESP_OK, h) ∧
        (h_type h = PKT_TYPE_DATA → fresh_data r data h)
    end).
Proof.
  unfold rx_gate. cbv zeta. destruct (_ <? _)%nat; [by apply rwp_ret|].
  apply rwp_bind, rwp_lift. intros [e h] Hh. destruct e; try by apply rwp_ret.
  destruct (bramble_header_is_supported_version _) eqn:Hv; cbn [negb]; [|by apply rwp_ret].
  apply rwp_bind, rwp_lift. intros key Hkey. apply rwp_bind, rwp_now. apply rwp_bind, rwp_get.
  destruct (dedup_check_and_add _ _ _) as [dup buf] eqn:Edup. apply rwp_bind, rwp_modify.
  destruct dup.
  - apply rwp_bind. eapply rwp_mono; [apply (rsilent_duplicate hmac)|]. intros [] r' H. apply rwp_ret.
    etransitivity; [|exact H]. by destruct r.
  - apply rwp_ret. split; [by destruct r|]. split; [done|]. intros Ht. split; [done|]. split; [done|].
    split; [done|]. exists key. by rewrite Edup.
Qed.

Lemma receive_spec data rssi snr r :
  rwp false (receive hmac data rssi snr) r (λ _ r',
    unfiled r r' ∨
    (∃ h, bramble_header_deserialize header_zero data (length data) = Some (ESP_OK, h) ∧
          h_type h ≠ PKT_TYPE_DATA ∧ messages r' = messages r) ∨
    ∃ hdr, fresh_data r data hdr ∧ authentic_delivery r data rssi snr r').
Proof.
  unfold receive. apply rwp_bind. eapply rwp_mono; [apply rx_gate_spec|]. intros [h|] r1; cbv beta iota.
  2: { intros H. apply rwp_ret. left. by apply calm_unfiled, silent_calm. }
  intros (Hk & Hh & Hf). assert (H01 : unfiled r r1) by (by apply calm_unfiled, silent_calm, keeps_silent).
  destruct (h_type h =? PKT_TYPE_DATA) eqn:Et.
  - apply Z.eqb_eq in Et. eapply rwp_mono; [by apply rx_data_spec|]. intros [] r' [H|H].
    + left. by transitivity r1.
    + right; right. exists h. split; [by apply Hf|]. by eapply keeps_authentic.
  - apply Z.eqb_neq in Et.
    assert (Hoff : ∀ m : Rx unit, rsteps undelivered m → rwp false m r1 (λ _ r',
      unfiled r r' ∨ (∃ h, bramble_header_deserialize header_zero data (length data) = Some (ESP_OK, h) ∧
          h_type h ≠ PKT_TYPE_DATA ∧ messages r' = messages r) ∨
      ∃ hdr, fresh_data r data hdr ∧ authentic_delivery r data rssi snr r')).
    { intros m Hm. eapply rwp_mono; [apply Hm|]. intros [] r' H. right; left. exists h.
      split; [done|]. split; [done|]. rewrite H. apply H01. }
    destruct (_ =? PKT_TYPE_ACK); [apply Hoff, undelivered_ack|].
    destruct (_ =? PKT_TYPE_DELIVERY_RECEIPT); [apply Hoff, undelivered_receipt|].
    apply rwp_ret. by left.
Qed.

(** C19. A received frame hands at most one message to the clients, and only if it
    is a data frame of a supported version not seen by the duplicate gate, from
    another node, addressed to this one or to all, whose origin MAC verifies under
    the network key, which opens under a channel key or the sender's active
    session, and whose counter the replay windows admit (public-channel frames are
    exempt).  The text is the payload or the fragments it completes, and exactly
    this text is filed in the message log, once. *)
Theorem deliveries_authentic data rssi snr r r' :
  receive hmac data rssi snr r = Some (tt, r') →
  messages r' = messages r ∨
  ∃ hdr, fresh_data r data hdr ∧ authentic_delivery r data rssi snr r'.
Proof.
  intros H. pose proof (receive_spec data rssi snr r) as S. unfold rwp in S. rewrite H in S.
  destruct S as [[? _]|[(h & _ & _ & ?)|S]]; auto.
Qed.

(** The network time is trusted and later than the lifetime of a deferred message. *)
Definition trusted_time (r : rx) : Prop :=
  timesync_is_confident (rx_timesync r) (v_now (nd_env (rx_node r))) = true ∧
  DEFERRED_TTL_S < network_s (rx_timesync r) (v_now (nd_env (rx_node r))).

(** A direct message carries no send time, so it counts as sent in second 0. *)
Lemma trusted_time_no_dm src c info r :
  trusted_time r → in_app_type info = APP_TYPE_CHAT → in_sent_at info = 0 →
  ¬ not_replayed r src c false info.
Proof.
  intros [Hconf Hlate] Happ Hsent. unfold not_replayed. rewrite Happ, Hsent, Hconf, Z.eqb_refl.
  set (now_s := network_s _ _) in *.
  assert (Hr : 0 <= now_s < 4294967296) by (apply Z.mod_pos_bound; lia).
  assert (Hsub : now_s ⊖ 0 = now_s) by (unfold u32; rewrite Z.sub_0_r; by apply Z.mod_small).
  assert (H1 : (now_s >? 0) = true) by (unfold DEFERRED_TTL_S in Hlate; lia).
  assert (H2 : (now_s >? DEFERRED_TTL_S) = true) by lia.
  unfold stale_chat, replay_deferred_accept. rewrite Hsub, H1, H2.
  intros [H|[[_ H]|(_ & _ & H)]]; [done| |].
  - by rewrite orb_true_r in H.
  - cbn [negb andb] in H. by destruct (0 >? _).
Qed.

(** Once the network time is trusted and past the first day, no direct message
    is received any more: a data frame without the channel flag, whatever it
    carries, neither reaches the clients nor the message log.  Session payloads
    have no send time, so the freshness test reads them as sent in second 0 and
    drops each as stale. *)
Theorem trusted_time_drops_direct_messages data rssi snr hdr r r' :
  trusted_time r →
  bramble_header_deserialize header_zero data (length data) = Some (ESP_OK, hdr) →
  h_type hdr = PKT_TYPE_DATA → Z.land (h_flags hdr) FLAG_CHANNEL = 0 →
  receive hmac data rssi snr r = Some (tt, r') →
  messages r' = messages r ∧ nd_msgs (rx_node r') = nd_msgs (rx_node r).
Proof.
  intros Ht Hh Hty Hfl H. pose proof (receive_spec data rssi snr r) as S. unfold rwp in S. rewrite H in S.
  destruct S as [S|[(h & Hh' & Hn & _)|(h & (Hh' & _) & h' & src & mac & info & d & text & _ & _ & S & _)]].
  - done.
  - simplify_eq.
  - exfalso. destruct S as (_ & _ & Hh2 & _ & nonce & ct & tag & _ & _ & _ & Ho & Hn). simplify_eq.
    unfold opened in Ho. rewrite Hfl in *. cbn [Z.eqb negb] in *.
    destruct Ho as (i & pt & s & _ & _ & _ & ->). revert Hn. by apply trusted_time_no_dm.
Qed.

End Delivery.

(** ** Examples *)

#[local] Existing Instance toy_crypto.
#[local] Existing Instance toy_id_crypto.

(** Two nodes in an established session: 60 writes, 50 receives. *)
Definition paired (flip : bool) (peer : Z) : dm_session_t :=
  let a := mk_chain (replicate 32 1) 0 0 true in
  let b := mk_chain (replicate 32 2) 0 0 true in
  mk_session peer (replicate 32 4) (replicate 32 3) 0 0 0 2 DM_STATE_ACTIVE false
    (mk_ratchet (replicate 32 4) (if flip then b else a) (if flip then a else b) skip_init chain_zero
       skip_init 0).
Definition demo_node (addr : Z) (sess : dm_session_t) : node :=
  mk_node (demo_id 5 addr) toy_key false 3 [mk_channel (replicate 32 1) 7 0] 0 (identity_store_init 0)
    neighbor_init (<[0%nat := sess]> dm_table_init) (replicate DM_REHANDSHAKE_TRACK (0, 0))
    (replicate DM_MAX_HANDSHAKING eph_zero) (replicate DM_HS_DEDUP_MAX inhabitant)
    (replicate MAX_QUEUED_MSGS inhabitant) [] pending_ack_init msg_store_init 0 (toy_env 1000) [].
Definition demo_rx (ts : timesync_state_t) : rx :=
  mk_rx (demo_node 50 (paired true 60))
    (mk_mesh 50 toy_key rreq_dedup_init reverse_route_init route_init discovery_init [] (rreq_fwd_init 0)
       replay_table_init pending_ack_init false mailbox_init)
    catchup_reset dedup_init dedup_init dedup_init replay_table_init replay_deferred_init ts reassembly_init
    (replicate FLOOD_RELAY_QUEUE_CAPACITY relay_zero) 0 (replicate RECEIPT_QUEUE_CAPACITY preceipt_zero)
    (replicate RECENT_BROADCAST_RING_SIZE 0) 0 delivery_event_ring_init BROADCAST_TELEMETRY_OFF
    (mk_draws [] [] 0 [] []) [].
(** The clock of 50 agrees with a network that has been up for two days. *)
Definition trusted_clock : timesync_state_t :=
  mk_timesync 172800000 1 900 true (ts_pending timesync_init).
Definition demo_dm : list Z :=
  match send_dm_packet toy_hmac 50 [104; 105] 0 (demo_node 60 (paired false 50)) with
  | Some (_, n) => match nd_out n with DTx f _ _ :: _ => f | _ => [] end
  | None => []
  end.
Definition received (ts : timesync_state_t) : rx :=
  match receive toy_hmac demo_dm (-70) 5 (demo_rx ts) with Some (_, r) => r | None => demo_rx ts end.
Lemma received_run :
  receive toy_hmac demo_dm (-70) 5 (demo_rx timesync_init) = Some (tt, received timesync_init) ∧
  receive toy_hmac demo_dm (-70) 5 (demo_rx trusted_clock) = Some (tt, received trusted_clock).
Proof. split; vm_compute; reflexivity. Qed.
(** With an untrusted clock the same frame arrives. *)
Lemma received_text : messages (received timesync_init) = [ROnMessage 60 [104; 105] (-70) 5 (-1) false].
Proof. vm_compute. reflexivity. Qed.

Lemma deliveries_authentic_witness :
  ∃ hdr, fresh_data (demo_rx timesync_init) demo_dm hdr ∧
    authentic_delivery toy_hmac (demo_rx timesync_init) demo_dm (-70) 5 (received timesync_init).
Proof.
  destruct (deliveries_authentic toy_hmac demo_dm (-70) 5 _ _ (proj1 received_run)) as [H|H]; [|exact H].
  rewrite received_text in H. discriminate H.
Defined.
Lemma trusted_time_drops_direct_messages_witness :
  messages (received trusted_clock) = messages (demo_rx trusted_clock).
Proof.
  refine (proj1 (trusted_time_drops_direct_messages toy_hmac demo_dm (-70) 5
    (mk_header 5 10 4 8 50 1000) (demo_rx trusted_clock) (received trusted_clock) _ _ _ _ (proj2 received_run))).
  - split; [reflexivity|]. apply Z.ltb_lt. vm_compute. reflexivity.
  - vm_compute. reflexivity.
  - reflexivity.
  - reflexivity.
Defined.
