(* ===== verification/MeshReceiptSpec.v ===== *)
(** * What acknowledgements and receipts promise

    The life of a delivery receipt in the sender's queue, and what an
    acknowledgement or a receipt may change at the node it confirms to. *)

From stdpp Require Import base strings numbers sets option decidable list.
From S2P Require Import Prelude Tables Packet PacketSpec TxGate Reliability NetworkKey RoutingAuth.
From S2P Require Import Timesync DmCrypto Identity MsgStore Channel MeshRouting MeshDm Receipts MeshRx.
From S2P Require Import NonceCounter MeshRxSpec.

(** ** The receipt queue *)

(** Events a queued receipt may still take: eight deferrals for each attempt. *)
Definition receipt_work (q : pending_receipt_t) : Z :=
  if pr_used q then (pr_attempts_total q - pr_attempts_sent q) * RECEIPT_MAX_DEFERS - pr_defers q else 0.
Definition owed (l : list pending_receipt_t) : Z := foldr Z.add 0 (receipt_work <$> l).
Definition receipt_ok (q : pending_receipt_t) : Prop :=
  length (pr_buf q) = DELIVERY_RECEIPT_MAX_SIZE ∧
  (pr_used q = true →
   (pr_wire_len q ≤ DELIVERY_RECEIPT_MAX_SIZE)%nat ∧
   0 ≤ pr_attempts_sent q < pr_attempts_total q ∧
   pr_attempts_total q ≤ mesh_broadcast_receipt_retry_count ∧ 0 ≤ pr_defers q < RECEIPT_MAX_DEFERS).
Definition receipts_ok (l : list pending_receipt_t) : Prop :=
  length l = RECEIPT_QUEUE_CAPACITY ∧ Forall receipt_ok l.

Ltac receipt_consts := unfold RECEIPT_MAX_DEFERS, mesh_broadcast_receipt_retry_count,
  BROADCAST_RECEIPT_RETRY_COUNT, RECEIPT_QUEUE_CAPACITY in *.

Lemma receipt_work_bounds q : receipt_ok q → 0 ≤ receipt_work q ≤ 24 ∧ (receipt_work q = 0 ↔ pr_used q = false).
Proof.
  intros [_ H]. unfold receipt_work. destruct (pr_used q); [|lia].
  destruct (H eq_refl) as (_ & ? & ? & ?). receipt_consts. split; [lia|]. split; [lia|done].
Qed.
Lemma owed_bounds l : Forall receipt_ok l → 0 ≤ owed l ≤ 24 * Z.of_nat (length l).
Proof.
  induction 1 as [|q l Hq _ IH]; unfold owed in *; cbn in *; [lia|].
  destruct (receipt_work_bounds q Hq). lia.
Qed.
Lemma owed_zero l : Forall receipt_ok l → owed l = 0 ↔ Forall (λ q, pr_used q = false) l.
Proof.
  induction 1 as [|q l Hq Hl IH]; [by split|]. pose proof (owed_bounds l Hl).
  destruct (receipt_work_bounds q Hq) as [? Hz]. rewrite Forall_cons, <- Hz, <- IH.
  unfold owed in *. cbn in *. lia.
Qed.
Lemma owed_cons q l : owed (q :: l) = receipt_work q + owed l.
Proof. done. Qed.
Lemma owed_insert l i q q' : l !! i = Some q → owed (<[i := q']> l) = owed l - receipt_work q + receipt_work q'.
Proof.
  revert i. induction l as [|x l IH]; intros [|i] Hi; cbn in Hi; simplify_eq.
  - cbn [insert list_insert]. rewrite !owed_cons. lia.
  - change (<[S i := q']> (x :: l)) with (x :: <[i := q']> l). rewrite !owed_cons, (IH i) by done. lia.
Qed.

Lemma earliest_some l e : is_Some (foldl earliest_step (Some e) l).
Proof.
  revert e. induction l as [|q l IH]; intros e; cbn; [eauto|]. unfold earliest_step at 2.
  destruct (pr_used q); cbn; [destruct (_ <? _)|]; apply IH.
Qed.
Lemma earliest_none l : foldl earliest_step None l = None ↔ Forall (λ q, pr_used q = false) l.
Proof.
  induction l as [|q l IH]; [by split|]. cbn [foldl]. rewrite Forall_cons, <- IH.
  unfold earliest_step at 2. destruct (pr_used q); cbn [negb]; [|tauto].
  destruct (earliest_some l (pr_due_at_ms q)) as [x ->]. by split; [|intros []].
Qed.

(** The timer runs exactly while a receipt is owed. *)
Definition timer_set (r : rx) : Prop :=
  ∃ t, last (rx_out r) = Some (RTimer t) ∧ (t = None ↔ owed (rx_receipts r) = 0).
Lemma timer_spec r tot :
  Forall receipt_ok (rx_receipts r) →
  rwp tot mesh_schedule_next_receipt_timer r (λ _ r', rx_receipts r' = rx_receipts r ∧ timer_set r').
Proof.
  intros Hok. unfold mesh_schedule_next_receipt_timer. apply rwp_bind, rwp_get. apply rwp_bind, rwp_now.
  pose proof (earliest_none (rx_receipts r)) as Hn. rewrite <- (owed_zero _ Hok) in Hn.
  destruct (foldl _ _ _) as [due|]; apply rwp_modify; (split; [by destruct r|]); unfold timer_set;
    destruct r; cbn in *; rewrite last_snoc; eexists; (split; [done|]).
  - by split; [|intros ?%Hn].
  - by rewrite <- Hn.
Qed.

Section Queue.
Context (l : list pending_receipt_t) (i : nat) (q : pending_receipt_t).
Hypotheses (Hl : receipts_ok l) (Hi : l !! i = Some q) (Hu : pr_used q = true).

Definition spent (r' : rx) : Prop :=
  receipts_ok (rx_receipts r') ∧ owed (rx_receipts r') < owed l ∧ timer_set r'.
Lemma set_receipt_spent q' r tot :
  rx_receipts r = l → receipt_ok q' → receipt_work q' < receipt_work q →
  rwp tot (set_receipt i q' ;; mesh_schedule_next_receipt_timer) r (λ _ r', spent r').
Proof.
  intros Hr Hq Hw. apply rwp_bind, rwp_modify. destruct Hl as [Hlen Hall].
  assert (Hr' : rx_receipts (rset_receipts r (<[i := q']> (rx_receipts r))) = <[i := q']> l)
    by (rewrite <- Hr; by destruct r).
  assert (Hok : Forall receipt_ok (<[i := q']> l)) by (by apply Forall_insert).
  eapply rwp_mono; [apply timer_spec; by rewrite Hr'|]. intros [] r' [E Ht]. rewrite Hr' in E.
  split; [|split; [|done]]; rewrite E.
  - split; [by rewrite length_insert|done].
  - rewrite (owed_insert _ _ q) by done. lia.
Qed.

Lemma random_receipts tot (Q : Z → rx → Prop) r :
  (∀ x r', rx_receipts r' = rx_receipts r → Q x r') → rwp tot esp_random r Q.
Proof. intros HQ. apply HQ. by destruct r. Qed.

(** The three ways an event ends. *)
Lemma retry_spent sent due r tot :
  rx_receipts r = l → sent = pr_attempts_sent q + 1 → sent < pr_attempts_total q →
  rwp tot (set_receipt i (mk_preceipt (pr_used q) (pr_original_src_addr q) (pr_original_packet_id q) (pr_buf q)
       (pr_wire_len q) (pr_attempts_total q) sent 0 due) ;; mesh_schedule_next_receipt_timer) r
    (λ _ r', spent r').
Proof.
  intros Hr -> Hlt. destruct Hl as [_ Hall]. destruct (Forall_lookup_1 _ _ _ _ Hall Hi) as [Hb H].
  destruct (H Hu) as (? & ? & ? & ?). apply set_receipt_spent; [done| |].
  - split; [done|]. cbn. intros _. receipt_consts. lia.
  - unfold receipt_work. cbn. rewrite Hu. receipt_consts. lia.
Qed.
Lemma defer_spent defers due r tot :
  rx_receipts r = l → defers = pr_defers q + 1 → defers < RECEIPT_MAX_DEFERS →
  rwp tot (set_receipt i (mk_preceipt (pr_used q) (pr_original_src_addr q) (pr_original_packet_id q) (pr_buf q)
       (pr_wire_len q) (pr_attempts_total q) (pr_attempts_sent q) defers due) ;;
     mesh_schedule_next_receipt_timer) r (λ _ r', spent r').
Proof.
  intros Hr -> Hlt. destruct Hl as [_ Hall]. destruct (Forall_lookup_1 _ _ _ _ Hall Hi) as [Hb H].
  destruct (H Hu) as (? & ? & ? & ?). apply set_receipt_spent; [done| |].
  - split; [done|]. cbn. intros _. lia.
  - unfold receipt_work. cbn. rewrite Hu. lia.
Qed.
Lemma drop_spent r tot :
  rx_receipts r = l →
  rwp tot (set_receipt i preceipt_zero ;; mesh_schedule_next_receipt_timer) r (λ _ r', spent r').
Proof.
  intros Hr. destruct Hl as [_ Hall]. pose proof (Forall_lookup_1 _ _ _ _ Hall Hi) as Hq.
  apply set_receipt_spent; [done|by split|].
  destruct (receipt_work_bounds q Hq) as [? Hz]. rewrite Hu in Hz.
  change (receipt_work preceipt_zero) with 0. destruct (decide (receipt_work q = 0)) as [E|]; [|lia].
  by apply Hz in E.
Qed.

Lemma rwp_if_bind tot {A B} (b : bool) (m1 m2 : Rx A) (k : A → Rx B) r (Q : B → rx → Prop) :
  (b = true → rwp tot (m1 ≫= k) r Q) → (b = false → rwp tot (m2 ≫= k) r Q) →
  rwp tot ((if b then m1 else m2) ≫= k) r Q.
Proof. destruct b; auto. Qed.

Lemma rwp_unbind tot {A B} (m : Rx A) (k : A → Rx B) r (Q : B → rx → Prop) :
  rwp tot (m ≫= k) r Q → rwp tot m r (λ x r', rwp tot (k x) r' Q).
Proof. unfold rwp, mbind, Rx_bind. by destruct (m r) as [[x r']|]. Qed.

Lemma sent_next : u8 (pr_attempts_sent q + 1) = pr_attempts_sent q + 1.
Proof.
  destruct Hl as [_ Hall]. destruct (Forall_lookup_1 _ _ _ _ Hall Hi) as [_ H].
  destruct (H Hu) as (_ & ? & ? & _). receipt_consts. apply Z.mod_small. lia.
Qed.
Lemma defers_next : u8 (pr_defers q + 1) = pr_defers q + 1.
Proof.
  destruct Hl as [_ Hall]. destruct (Forall_lookup_1 _ _ _ _ Hall Hi) as [_ H].
  destruct (H Hu) as (_ & _ & _ & ?). receipt_consts. apply Z.mod_small. lia.
Qed.

Lemma backoff_spent t r tot : rx_receipts r = l → rwp tot (receipt_backoff i q t) r (λ _ r', spent r').
Proof.
  intros Hr. unfold receipt_backoff. rewrite sent_next. apply rwp_if_bind; intros E.
  - by apply drop_spent.
  - apply rwp_bind, rwp_bind, rwp_get. destruct (mesh_broadcast_receipt_retry_scale _) as [num den].
    apply rwp_bind, random_receipts. intros rand r1 Hr1. cbv zeta.
    pose proof (retry_spent (pr_attempts_sent q + 1)
      (t ⊕ ((1000 + (pr_attempts_sent q + 1) * 2000 + rand mod 1000) * num / den)) r1 tot) as H.
    apply rwp_unbind, H; [congruence|done|lia].
Qed.
Lemma radio_receipts tot f k (Q : Z → rx → Prop) r :
  (∀ rc r', rx_receipts r' = rx_receipts r → Q rc r') → rwp tot (mesh_tx_rc f k) r Q.
Proof.
  intros HQ. unfold rwp, mesh_tx_rc. destruct (match d_gate _ with [] => _ | _ => _ end) as [rc el].
  apply HQ. by destruct r.
Qed.
Lemma frame_ok : ∃ frame, rdn (pr_buf q) 0 (pr_wire_len q) = Some frame.
Proof.
  destruct Hl as [_ Hall]. destruct (Forall_lookup_1 _ _ _ _ Hall Hi) as [Hb H].
  destruct (H Hu) as (? & _). apply rdn_is_Some. lia.
Qed.
End Queue.

Lemma receipts_owed l : receipts_ok l → 0 ≤ owed l ≤ 192.
Proof. intros [Hlen Hall]. pose proof (owed_bounds l Hall). receipt_consts. lia. Qed.

(** C20. The receipt queue drains: an event of the receipt timer returns with a
    well-formed queue; if a receipt was due, the events still owed strictly
    decrease, otherwise the queue is as it was.  At most 192 are ever owed (eight
    receipts, three attempts, eight deferrals each), whatever the radio answers,
    and the timer is left running exactly while a receipt is queued. *)
Theorem receipts_drain r :
  receipts_ok (rx_receipts r) →
  rwp true mesh_process_receipt_tx_event r (λ _ r',
    receipts_ok (rx_receipts r') ∧ 0 ≤ owed (rx_receipts r') ≤ 192 ∧ timer_set r' ∧
    if existsb (λ q, pr_used q && (pr_due_at_ms q <=? v_now (nd_env (rx_node r)))) (rx_receipts r)
    then owed (rx_receipts r') < owed (rx_receipts r) else rx_receipts r' = rx_receipts r).
Proof.
  intros Hok. unfold mesh_process_receipt_tx_event. apply rwp_bind, rwp_now. apply rwp_bind, rwp_get.
  set (due := λ q, _). destruct (find_index due _) as [i|] eqn:Ei.
  2: { apply find_index_None in Ei. eapply rwp_mono; [apply timer_spec, Hok|]. intros [] r' [E Ht].
    rewrite E. split; [done|]. split; [by apply receipts_owed|]. split; [done|].
    assert (existsb due (rx_receipts r) = false) as ->; [|done].
    apply not_true_iff_false. intros (x & Hx & Hd)%existsb_exists.
    rewrite Forall_forall in Ei. apply list_elem_of_In in Hx. rewrite Ei in Hd; done. }
  apply find_index_Some in Ei as (q & Hq & Hd & _).
  assert (existsb due (rx_receipts r) = true) as ->.
  { apply existsb_exists. exists q. split; [|done]. by apply list_elem_of_In, (list_elem_of_lookup_2 _ i). }
  assert (Hu : pr_used q = true) by (by apply andb_true_iff in Hd as [? _]).
  rewrite (list_lookup_total_correct _ _ _ Hq).
  apply (rwp_mono _ _ _ (λ _ r', spent (rx_receipts r) r')).
  2: { intros [] r' (H1 & H2 & H3). split; [done|]. split; [by apply receipts_owed|done]. }
  destruct (frame_ok _ _ _ Hok Hq Hu) as [frame Hf].
  apply rwp_bind, rwp_lift_total; [by rewrite Hf|]. intros f _. apply rwp_bind, radio_receipts.
  intros rc r1 Hr1. destruct (rc =? TX_GATE_ERR_BUDGET); [by apply backoff_spent|].
  destruct (rc =? TX_GATE_ERR_CHANNEL_BUSY).
  - apply rwp_bind, rwp_now. cbv zeta. rewrite (defers_next _ _ _ Hok Hq Hu).
    destruct (pr_defers q + 1 <? RECEIPT_MAX_DEFERS) eqn:Ed; [|by apply backoff_spent].
    apply rwp_bind, random_receipts. intros rand r2 Hr2.
    apply defer_spent; try done; [congruence|lia].
  - cbv zeta. rewrite (sent_next _ _ _ Hok Hq Hu).
    destruct (_ >=? _) eqn:Es; [by apply drop_spent with q|].
    apply rwp_bind, rwp_get. destruct (mesh_broadcast_receipt_retry_scale _) as [num den].
    apply rwp_bind, random_receipts. intros rand r2 Hr2. apply rwp_bind, rwp_now.
    apply retry_spent; try done; [congruence|lia].
Qed.

(** Queueing a receipt keeps the queue well-formed; it owes 24 events at first. *)
Lemma queue_receipt_ok hmac src pid r :
  receipts_ok (rx_receipts r) →
  rwp false (queue_broadcast_delivery_receipt hmac src pid) r (λ _ r',
    receipts_ok (rx_receipts r') ∧
    (rx_receipts r' = rx_receipts r ∨ owed (rx_receipts r') = owed (rx_receipts r) + 24 ∧ timer_set r')).
Proof.
  intros Hok. unfold queue_broadcast_delivery_receipt. apply rwp_bind, rwp_get.
  assert (Hnode : ∀ {A} (m : M A) r0 (Q : A → rx → Prop),
    (∀ x r1, rx_receipts r1 = rx_receipts r0 → Q x r1) → rwp false (on_node m) r0 Q).
  { intros A m r0 Q HQ. apply rwp_node. destruct (m _) as [[x n]|]; [|done]. apply HQ. by destruct r0. }
  split_if; [apply rwp_ret; auto|]. cbv zeta. unfold control_seq_next.
  apply rwp_bind, rwp_bind, Hnode. intros nonce r1 H1. apply rwp_ret.
  destruct (nonce_counter_extract <$> nonce) as [seq|]; [|apply rwp_ret; rewrite H1; auto].
  apply rwp_bind, Hnode. intros pkt r2 H2. rewrite H1 in H2. apply rwp_bind, rwp_lift.
  intros [[e buf] wire] Hbuild. destruct e; try (apply rwp_ret; rewrite H2; by auto).
  assert (Hw : wire = (DELIVERY_RECEIPT_MIN_SIZE + 4)%nat).
  { unfold mesh_build_broadcast_delivery_receipt_packet in Hbuild.
    destruct (bramble_delivery_receipt_serialize _ _ _) as [[e b]|]; [|done]. cbn in Hbuild.
    destruct e; simplify_eq. unfold receipt_sign. by destruct (network_key_mac _ _ _ _). }
  destruct (find_index _ _) as [slot|] eqn:Es; [|apply rwp_ret; rewrite H2; auto].
  apply find_index_Some in Es as (q & Hq & Hu & _). apply negb_true_iff in Hu.
  apply rwp_bind, random_receipts. intros jitter r3 H3. rewrite H2 in H3.
  apply rwp_bind, rwp_now. apply rwp_bind, rwp_lift. intros bytes Hb.
  set (q' := mk_preceipt _ _ _ _ _ _ _ _ _).
  assert (Hq' : receipt_ok q').
  { split; [|intros _; subst wire; cbn; unfold DELIVERY_RECEIPT_MIN_SIZE, DELIVERY_RECEIPT_MAX_SIZE;
      receipt_consts; lia].
    unfold q'. cbn [pr_buf]. rewrite length_filled; [apply length_replicate|]. apply rdn_inv in Hb as (_ & Hb & _).
    rewrite Hb, Hw, length_replicate. unfold DELIVERY_RECEIPT_MIN_SIZE, DELIVERY_RECEIPT_MAX_SIZE. lia. }
  destruct Hok as [Hlen Hall]. apply rwp_bind, rwp_modify.
  assert (E : rx_receipts (rset_receipts r3 (<[slot := q']> (rx_receipts r3))) = <[slot := q']> (rx_receipts r))
    by (rewrite <- H3; by destruct r3).
  assert (Hall' : Forall receipt_ok (<[slot := q']> (rx_receipts r))) by (by apply Forall_insert).
  eapply rwp_mono; [apply timer_spec; by rewrite E|]. intros [] r' [E' Ht]. rewrite E', E.
  split; [split; [by rewrite length_insert|done]|]. right. split; [|done].
  rewrite (owed_insert _ _ q) by done. unfold receipt_work at 1. by rewrite Hu, Z.sub_0_r.
Qed.

(** ** Acknowledgements *)

Section Acks.
Context (hmac : list Z → list Z → list Z).

(** What an acknowledgement for this node does: the pending message is no longer
    retried and its row is marked delivered, with the path. *)
Definition acked (r : rx) (ack : bramble_ack_t) (r' : rx) : Prop :=
  let n := rx_node r in
  ∃ route, route_to_dest (self r) (ack_hop_count ack) (ack_relay_path ack) = Some route ∧
    nd_acks (rx_node r') = (pending_ack_remove (nd_acks n) (ack_packet_id ack)).2 ∧
    nd_msgs (rx_node r') =
      (msg_store_update_status_with_route (nd_msgs n) (ack_packet_id ack) MSG_STATUS_DELIVERED
         (Z.of_nat (length route)) (Some (filled route (replicate MSG_ROUTE_MAX_HOPS 0)))).1.2.

Lemma replay_ctl_spec a b r :
  rwp false (rx_control_replay_ok a b) r (λ ok r', silent r r' ∧
    ok = (control_replay_ok (rx_mesh r) a b (v_now (nd_env (rx_node r)))).1).
Proof.
  unfold rx_control_replay_ok. apply rwp_bind, rwp_now. apply rwp_bind, rwp_get.
  destruct (control_replay_ok _ _ _ _) as [ok m]. apply rwp_bind, rwp_modify, rwp_ret.
  split; [by destruct r|done].
Qed.
Lemma rsilent_ack_event ack : rsilent (record_ack_delivery_event ack).
Proof. unfold record_ack_delivery_event. rsteps. Qed.

Lemma ack_for_us ack r :
  rwp false
    (on_node (modify (λ n, set_acks n (pending_ack_remove (nd_acks n) (ack_packet_id ack)).2)) ;;
     route ← rlift (route_to_dest (self r) (ack_hop_count ack) (ack_relay_path ack));
     found ← msgs_delivered (ack_packet_id ack) route;
     rwhen found (record_ack_delivery_event ack ;;
                  remit (ROnAck (ack_src_addr ack) (ack_packet_id ack) (ack_rssi_at_dest ack) route)))
    r (λ _ r', acked r ack r').
Proof.
  apply rwp_bind, rwp_node. cbn [modify]. apply rwp_bind, rwp_lift. intros route Hroute.
  apply rwp_bind, rwp_node.
  set (r0 := rset_node r _).
  assert (Hm : nd_msgs (rx_node r0) = nd_msgs (rx_node r)) by (by destruct r). rewrite Hm.
  destruct (msg_store_update_status_with_route _ _ _ _ _) as [[found st] ps] eqn:E.
  assert (Hend : rsilent (rwhen found (record_ack_delivery_event ack ;;
    remit (ROnAck (ack_src_addr ack) (ack_packet_id ack) (ack_rssi_at_dest ack) route)))).
  { pose proof rsilent_ack_event. rsteps. }
  eapply rwp_mono; [apply Hend|]. intros [] r' (_ & Hmsgs & _ & _ & _ & _ & Hacks & _).
  exists route. split; [done|]. rewrite Hacks, Hmsgs, E. by destruct r.
Qed.

(** C21. An acknowledgement changes the retry table or the message log only if its
    MAC verifies under the network key, its sequence number is fresh for its
    signer and it is addressed to this node; then the pending message it names is
    removed and its row is marked delivered with this node and the reversed relay
    path as route.  Everything else it may do is to be relayed. *)
Theorem acks_authentic data len rssi snr r r' :
  handle_ack hmac data len rssi snr r = Some (tt, r') →
  nd_acks (rx_node r') = nd_acks (rx_node r) ∧ nd_msgs (rx_node r') = nd_msgs (rx_node r) ∨
  ∃ ack, bramble_ack_deserialize ack_zero data len = Some (ESP_OK, ack) ∧
    ack_verify hmac (rkey r) ack = Some true ∧
    (control_replay_ok (rx_mesh r) (ack_src_addr ack) (bramble_seq48_unpack (ack_seq ack))
       (v_now (nd_env (rx_node r)))).1 = true ∧
    h_dest_addr (ack_header ack) = self r ∧ acked r ack r'.
Proof.
  intros H. pattern r'. match goal with |- ?P r' => set (Post := P) end.
  assert (S : rwp false (handle_ack hmac data len rssi snr) r (λ _ r', Post r')).
  2: { unfold rwp in S. by rewrite H in S. }
  clear H r'. unfold handle_ack.
  assert (Hs : ∀ r', silent r r' → Post r').
  { intros r' (_ & ? & _ & _ & _ & _ & ? & _). by left. }
  apply rwp_bind, rwp_lift. intros [e ack] Hack. destruct e; try (apply rwp_ret; by apply Hs).
  apply rwp_bind, rwp_get. apply rwp_bind, rwp_lift. intros ok Hok.
  destruct ok; cbn [negb]; [|apply rwp_ret; by apply Hs].
  apply rwp_bind. eapply rwp_mono; [apply replay_ctl_spec|]. intros fresh r1 [H1 Hf]. cbv beta.
  destruct fresh; cbn [negb]; [|by apply rwp_ret, Hs].
  apply rwp_bind. eapply rwp_mono; [apply (rsteps_when silent), rsilent_heard|]. intros [] r2 H2. cbv beta.
  assert (H02 : silent r r2) by (by transitivity r1).
  destruct (h_dest_addr _ =? self r) eqn:Ed; cbn [negb].
  - apply Z.eqb_eq in Ed.
    assert (Hself : self r2 = self r) by (unfold self; by destruct H02 as [(-> & _) _]). rewrite <- Hself.
    eapply rwp_mono; [apply ack_for_us|]. intros [] r' (route & Hr & Ha & Hm). right. exists ack.
    split; [done|]. split; [done|]. split; [done|]. split; [done|]. exists route.
    destruct H02 as (_ & Em & _ & _ & _ & _ & Ea & _). rewrite Hself, Em, Ea in *. done.
  - assert (Hr : rsilent (if nd_flood_transport (rx_node r) then flood_ack ack else forward_ack ack)).
    { destruct (nd_flood_transport _); [apply rsilent_flood_ack|apply rsilent_forward_ack]. }
    eapply rwp_mono; [apply Hr|]. intros [] r' H3. apply Hs. by transitivity r2.
Qed.
End Acks.

(** ** Examples *)

#[local] Existing Instance toy_crypto.
#[local] Existing Instance toy_id_crypto.

(** The sender of the direct message, and the acknowledgement that comes back. *)
Definition demo_sender : rx :=
  match send_dm_packet toy_hmac 50 [104; 105] 0 (demo_node 60 (paired false 50)) with
  | Some (_, n) => rset_node (demo_rx timesync_init) n
  | None => demo_rx timesync_init
  end.
Definition demo_ack : list Z :=
  match filter (λ e, match e with DTx _ TX_KIND_ACK _ => true | _ => false end = true)
          (nd_out (rx_node (received timesync_init))) with
  | DTx f _ _ :: _ => f
  | _ => []
  end.
Definition demo_acked : rx :=
  match handle_ack toy_hmac demo_ack (length demo_ack) (-60) 7 demo_sender with
  | Some (_, r) => r
  | None => demo_sender
  end.
Lemma demo_ack_run :
  handle_ack toy_hmac demo_ack (length demo_ack) (-60) 7 demo_sender = Some (tt, demo_acked) ∧
  length (filter (λ e, pa_active e = true) (nd_acks (rx_node demo_sender))) = 1%nat ∧
  length (filter (λ e, pa_active e = true) (nd_acks (rx_node demo_acked))) = 0%nat.
Proof. split; [vm_compute; reflexivity|]. split; vm_compute; reflexivity. Qed.
Lemma acks_authentic_witness :
  ∃ ack, bramble_ack_deserialize ack_zero demo_ack (length demo_ack) = Some (ESP_OK, ack) ∧
    acked demo_sender ack demo_acked.
Proof.
  destruct (acks_authentic toy_hmac _ _ _ _ _ _ (proj1 demo_ack_run)) as [[E _]|(ack & H1 & _ & _ & _ & H2)].
  - exfalso. destruct demo_ack_run as (_ & Ha & Hb). rewrite E, Ha in Hb. discriminate Hb.
  - exists ack. split; [exact H1|exact H2].
Defined.

(** One receipt due, one for later, and a radio that finds the channel busy. *)
Definition demo_owing : rx :=
  let r := demo_rx timesync_init in
  let q due := mk_preceipt true 60 7 (replicate DELIVERY_RECEIPT_MAX_SIZE 0) 41 3 0 0 due in
  rset_draws (rset_receipts r (q 1000 :: q 5000 :: replicate 6 preceipt_zero))
    (mk_draws [] [(TX_GATE_ERR_CHANNEL_BUSY, 40)] 0 [] []).
Lemma receipts_drain_witness :
  ∃ r', mesh_process_receipt_tx_event demo_owing = Some (tt, r') ∧
    owed (rx_receipts demo_owing) = 48 ∧ owed (rx_receipts r') < 48 ∧ timer_set r'.
Proof.
  assert (Hok : receipts_ok (rx_receipts demo_owing)).
  { split; [reflexivity|]. do 2 (apply Forall_cons_2; [split; [reflexivity|]; intros _; cbn;
      unfold DELIVERY_RECEIPT_MAX_SIZE; receipt_consts; lia|]).
    apply (Forall_replicate receipt_ok 6 preceipt_zero). split; [reflexivity|discriminate]. }
  destruct (rwp_elim _ _ _ (receipts_drain demo_owing Hok)) as ([] & r' & E & _ & _ & Ht & Hd).
  exists r'. split; [exact E|]. split; [reflexivity|]. split; [exact Hd|exact Ht].
Defined.
