(* ===== verification/ParkedRetry.v ===== *)
(** * Retries of parked messages ([main/parked_retry.c])

    A parked message is sent again on two edges: a beacon of its peer (on
    admission to the neighbor table, or once the peer's entry is armed and due)
    and a periodic sweep that takes one peer at a time.  This file holds both
    decisions over the neighbor table and the sweep's state. *)

From stdpp Require Import base numbers sets option decidable list.
From S2P Require Import Prelude Tables Routing.

Definition PARKED_RETRY_COOLDOWN_MS : Z := 300000.
Definition PARKED_RETRY_SWEEP_MS : Z := 300000.

Record parked_sweep_t := mk_sweep { sw_next_sweep_ms : Z; sw_last_peer : Z; sw_hold_until_ms : Z }.

(** The cast to [int32_t]. *)
Definition i32 (z : Z) : Z := (z + 2147483648) mod 4294967296 - 2147483648.
Definition deadline_at (t : Z) : Z := if negb (t =? 0) then t else 1.
Definition elapsed (now_ms deadline_ms : Z) : bool := i32 (now_ms ⊖ deadline_ms) >=? 0.

Definition parked_retry_sweep_due (s : parked_sweep_t) (now_ms : Z) : bool * parked_sweep_t :=
  if negb (elapsed now_ms (sw_next_sweep_ms s)) then (false, s)
  else (true, mk_sweep (deadline_at (now_ms ⊕ PARKED_RETRY_SWEEP_MS)) (sw_last_peer s) (sw_hold_until_ms s)).
Definition parked_retry_swept (s : parked_sweep_t) (peer_addr now_ms : Z) : parked_sweep_t :=
  mk_sweep (sw_next_sweep_ms s) peer_addr (deadline_at (now_ms ⊕ PARKED_RETRY_COOLDOWN_MS)).
Definition parked_retry_sweep_skipped (s : parked_sweep_t) (peer_addr : Z) : parked_sweep_t :=
  mk_sweep (sw_next_sweep_ms s) peer_addr 0.
Definition parked_retry_sweep_defers_to_beacon (table : neighbor_table_t) (peer_addr : Z) : bool :=
  match neighbor_lookup table peer_addr with
  | Some e => negb (nb_parked_retry_after_ms e =? 0)
  | None => false
  end.

(** [neighbor_lookup(table, addr)->parked_retry_after_ms = v], where there is an entry. *)
Definition with_parked (e : neighbor_entry_t) (v : Z) : neighbor_entry_t :=
  mk_neighbor (nb_addr e) (nb_rssi e) (nb_snr e) (nb_last_heard e) (nb_pubkey_hash e) (nb_name e)
    (nb_first_seen_ms e) (nb_beacon_count e) v.
Definition set_parked (table : neighbor_table_t) (addr v : Z) : neighbor_table_t :=
  match neighbor_index table addr with
  | Some i => tset table i (with_parked (entries table !!! i) v)
  | None => table
  end.

Definition parked_retry_arm (table : neighbor_table_t) (peer_addr now_ms : Z) : bool * neighbor_table_t :=
  match neighbor_lookup table peer_addr with
  | None => (false, table)
  | Some _ => (true, set_parked table peer_addr (deadline_at now_ms))
  end.

(** [sweep] is never [NULL] at the calls. *)
Definition parked_retry_beacon_decide_flush (table : neighbor_table_t) (sweep : parked_sweep_t)
    (peer_addr : Z) (is_new_peer : bool) (now_ms : Z) : bool * neighbor_table_t :=
  if negb (peer_addr =? 0) && (sw_last_peer sweep =? peer_addr) &&
     negb (elapsed now_ms (sw_hold_until_ms sweep)) then
    (false,
     match neighbor_lookup table peer_addr with
     | Some held =>
         if (nb_parked_retry_after_ms held =? 0) ||
            elapsed (sw_hold_until_ms sweep) (nb_parked_retry_after_ms held)
         then set_parked table peer_addr (sw_hold_until_ms sweep) else table
     | None => table
     end)
  else if is_new_peer then (true, table)
  else
    (match neighbor_lookup table peer_addr with
     | None => false
     | Some e => if nb_parked_retry_after_ms e =? 0 then false
                 else elapsed now_ms (nb_parked_retry_after_ms e)
     end, table).

Definition parked_retry_flushed (table : neighbor_table_t) (peer_addr found now_ms : Z) : neighbor_table_t :=
  match neighbor_lookup table peer_addr with
  | None => table
  | Some _ => set_parked table peer_addr
                (if found >? 0 then deadline_at (now_ms ⊕ PARKED_RETRY_COOLDOWN_MS) else 0)
  end.

(** ** Machine time and real time *)

(** Deadlines that a comparison can tell apart lie within 2^31 ms of the clock. *)
Definition near (t d : Z) : Prop := -2147483648 ≤ t - d < 2147483648.

Lemma elapsed_real t d : near t d → elapsed (u32 t) (u32 d) = (d <=? t).
Proof. intros Hn. unfold elapsed, near, i32 in *. apply eq_bool_prop_intro. rewrite !Is_true_true.
  rewrite Z.geb_leb, !Z.leb_le. cint. Qed.

(** The instant a stored deadline stands for: the marker 0 is moved by one. *)
Definition nudge (d : Z) : Z := if u32 d =? 0 then d + 1 else d.
Lemma deadline_nudge d : deadline_at (u32 d) = u32 (nudge d).
Proof. unfold deadline_at, nudge. destruct (u32 d =? 0) eqn:E; conds; cbn [negb]; [cint|done]. Qed.
Lemma nudge_nonzero d : u32 (nudge d) ≠ 0.
Proof. unfold nudge. destruct (u32 d =? 0) eqn:E; conds; [cint|done]. Qed.

(** ** One entry at a time *)

Lemma find_index_key {A B} (k : A → B) (f : B → bool) (l : list A) :
  find_index (λ x, f (k x)) l = find_index f (k <$> l).
Proof. induction l as [|x l IH]; [done|]. cbn. destruct (f (k x)); [done|]. by rewrite IH. Qed.

Lemma neighbor_index_set_parked t a v b : neighbor_index (set_parked t a v) b = neighbor_index t b.
Proof.
  unfold set_parked. destruct (neighbor_index t a) as [i|] eqn:E; [|done].
  unfold neighbor_index in *. rewrite live_tset, !(find_index_key nb_addr (λ x, x =? b)).
  f_equal. rewrite list_fmap_insert. cbn [with_parked nb_addr].
  apply find_index_Some in E as (e & He & _ & _). apply list_insert_id.
  rewrite list_lookup_fmap, He. cbn. do 2 f_equal. symmetry. apply list_lookup_total_correct.
  unfold live in He. by apply lookup_take_Some in He as [? _].
Qed.
Lemma neighbor_index_in t a i : neighbor_index t a = Some i → (i < length (entries t))%nat.
Proof. unfold neighbor_index, live. intros H%find_index_lt. rewrite length_take in H. lia. Qed.

Lemma lookup_set_parked t a v :
  neighbor_lookup (set_parked t a v) a = (λ e, with_parked e v) <$> neighbor_lookup t a.
Proof.
  unfold neighbor_lookup at 1. rewrite neighbor_index_set_parked. unfold set_parked, neighbor_lookup.
  destruct (neighbor_index t a) as [i|] eqn:E; [|done]. cbn. f_equal.
  apply list_lookup_total_insert_eq. by eapply neighbor_index_in.
Qed.
Lemma lookup_set_parked_ne t a v b :
  a ≠ b → neighbor_lookup (set_parked t a v) b = neighbor_lookup t b.
Proof.
  intros Hab. unfold neighbor_lookup at 1. rewrite neighbor_index_set_parked. unfold set_parked, neighbor_lookup.
  destruct (neighbor_index t a) as [i|] eqn:Ea; [|done].
  destruct (neighbor_index t b) as [j|] eqn:Eb; [|done]. cbn. f_equal.
  apply list_lookup_total_insert_ne. intros ->. unfold neighbor_index in *.
  apply find_index_Some in Ea as (e & He & H1 & _), Eb as (e' & He' & H2 & _). simplify_eq. lia.
Qed.

(** ** The decision in real time *)

(** Whether a beacon of the peer flushes at real time [now], and the instant its
    entry is armed for afterwards: [hold] is the end of the sweep's hold on this
    peer, [armed] the instant the entry is armed for. *)
Definition flush_spec (hold armed : option Z) (is_new : bool) (now : Z) : bool * option Z :=
  match hold with
  | Some h =>
      if now <? h then
        (false, Some (match armed with Some a => if a <=? h then h else a | None => h end))
      else (is_new || match armed with Some a => a <=? now | None => false end, armed)
  | None => (is_new || match armed with Some a => a <=? now | None => false end, armed)
  end.

Definition armed_ok (now : Z) (e : neighbor_entry_t) (armed : option Z) : Prop :=
  match armed with
  | Some a => nb_parked_retry_after_ms e = u32 a ∧ u32 a ≠ 0 ∧ near now a
  | None => nb_parked_retry_after_ms e = 0
  end.
Definition hold_ok (now peer : Z) (s : parked_sweep_t) (hold : option Z) : Prop :=
  match hold with
  | Some h => sw_last_peer s = peer ∧ sw_hold_until_ms s = u32 h ∧ u32 h ≠ 0 ∧ near now h
  | None => sw_last_peer s ≠ peer
  end.

Lemma with_parked_id e : with_parked e (nb_parked_retry_after_ms e) = e.
Proof. by destruct e. Qed.

Lemma decide_refines t s peer e hold armed is_new now :
  peer ≠ 0 → neighbor_lookup t peer = Some e → armed_ok now e armed → hold_ok now peer s hold →
  (∀ h a, hold = Some h → armed = Some a → near h a) →
  let r := parked_retry_beacon_decide_flush t s peer is_new (u32 now) in
  let r' := flush_spec hold armed is_new now in
  r.1 = r'.1 ∧
  neighbor_lookup r.2 peer = Some (with_parked e (match r'.2 with Some a => u32 a | None => 0 end)) ∧
  ∀ b, b ≠ peer → neighbor_lookup r.2 b = neighbor_lookup t b.
Proof.
  intros Hp He Ha Hh Hn. cbv zeta. unfold parked_retry_beacon_decide_flush.
  rewrite (proj2 (Z.eqb_neq peer 0) Hp), He. cbn [negb andb].
  assert (Hid : Some e = Some (with_parked e (match armed with Some a => u32 a | None => 0 end))).
  { f_equal. destruct armed; cbn in Ha; [destruct Ha as (<- & _)|rewrite <- Ha]; by rewrite with_parked_id. }
  assert (Hdue : (if nb_parked_retry_after_ms e =? 0 then false
                  else elapsed (u32 now) (nb_parked_retry_after_ms e)) =
                 match armed with Some a => a <=? now | None => false end).
  { destruct armed as [a|]; cbn in Ha; [|by rewrite Ha]. destruct Ha as (-> & Hz & Hna).
    rewrite (proj2 (Z.eqb_neq _ _) Hz). by apply elapsed_real. }
  assert (Hfree : ∀ r, r = (if is_new then (true, t) else
      (if nb_parked_retry_after_ms e =? 0 then false
       else elapsed (u32 now) (nb_parked_retry_after_ms e), t)) →
    r.1 = is_new || match armed with Some a => a <=? now | None => false end ∧ r.2 = t).
  { intros r ->. destruct is_new; [done|]. cbn. by rewrite Hdue. }
  destruct hold as [h|]; cbn in Hh.
  - destruct Hh as (-> & -> & Hz & Hnh). rewrite Z.eqb_refl, elapsed_real by done. cbn [andb].
    cbn [flush_spec]. rewrite (Z.leb_antisym now h). destruct (now <? h) eqn:E; cbn [negb].
    + split; [done|]. cbn [snd]. destruct armed as [a|]; cbn in Ha.
      * destruct Ha as (-> & Hza & Hna). rewrite (proj2 (Z.eqb_neq _ _) Hza). cbn [orb].
        rewrite elapsed_real by (by apply Hn). destruct (a <=? h).
        -- rewrite lookup_set_parked, He. split; [done|]. intros b Hb. by apply lookup_set_parked_ne.
        -- split; [by rewrite He|done].
      * rewrite Ha. cbn [Z.eqb orb]. rewrite lookup_set_parked, He. split; [done|].
        intros b Hb. by apply lookup_set_parked_ne.
    + destruct (Hfree _ eq_refl) as [-> ->]. by rewrite He.
  - rewrite (proj2 (Z.eqb_neq _ _) Hh). cbn [andb negb flush_spec].
    destruct (Hfree _ eq_refl) as [-> ->]. by rewrite He.
Qed.

(** What a beacon does for parked messages, with clock wrap-around: for
    deadlines within 2^31 ms of the clock, the decision and the deadline it leaves
    are those of the specification over real time (held peers are deferred to the
    end of the hold and never earlier, admitted and due peers flush), no other
    entry changes, and an edge that a hold defers is not lost: the first beacon
    after the hold flushes. *)
Theorem parked_edges_kept t s peer e hold armed is_new now :
  peer ≠ 0 → neighbor_lookup t peer = Some e → armed_ok now e armed → hold_ok now peer s hold →
  (∀ h a, hold = Some h → armed = Some a → near h a) →
  let r := parked_retry_beacon_decide_flush t s peer is_new (u32 now) in
  let r' := flush_spec hold armed is_new now in
  r.1 = r'.1 ∧
  neighbor_lookup r.2 peer = Some (with_parked e (match r'.2 with Some a => u32 a | None => 0 end)) ∧
  (∀ b, b ≠ peer → neighbor_lookup r.2 b = neighbor_lookup t b) ∧
  ∀ h later, hold = Some h → now < h → (∀ a, armed = Some a → a ≤ h) → h ≤ later < h + 2147483648 →
    r.1 = false ∧ (parked_retry_beacon_decide_flush r.2 s peer false (u32 later)).1 = true.
Proof.
  intros Hp He Ha Hh Hn.
  destruct (decide_refines t s peer e hold armed is_new now) as (H1 & H2 & H3); [done..|].
  cbv zeta in *. split; [done|]. split; [done|]. split; [done|].
  intros h later -> Hlt Hle Hl. cbn [flush_spec] in *. rewrite (proj2 (Z.ltb_lt _ _) Hlt) in *.
  split; [done|]. cbn [snd] in H2.
  assert (Harm : match armed with Some a => if a <=? h then h else a | None => h end = h).
  { destruct armed as [a|]; [|done]. by rewrite (proj2 (Z.leb_le _ _) (Hle a eq_refl)). }
  rewrite Harm in H2. destruct Hh as (Hlp & Hhu & Hz & Hnh).
  set (t' := (parked_retry_beacon_decide_flush _ _ _ _ _).2) in *.
  destruct (decide_refines t' s peer (with_parked e (u32 h)) (Some h) (Some h) false later)
    as (H1' & _ & _); [done|done| | |by intros ? ? [= <-] [= <-]; unfold near; lia|].
  - cbn. split; [done|]. split; [done|]. unfold near. lia.
  - cbn. split; [done|]. split; [done|]. split; [done|]. unfold near. lia.
  - rewrite H1'. cbn [flush_spec]. rewrite (proj2 (Z.ltb_ge later h)) by lia. cbn. lia.
Qed.

(** A peer that a sweep passes over loses its retry in the second half of the
    clock: skipping clears the hold to 0, which reads as a hold until the clock
    wraps, so the next beacon of a peer that is armed and due neither flushes nor
    keeps it armed. *)
Theorem skipped_peer_disarmed t s peer e is_new now :
  peer ≠ 0 → neighbor_lookup t peer = Some e → 2147483648 ≤ now < 4294967296 →
  2147483648 < nb_parked_retry_after_ms e ≤ now →
  let r := parked_retry_beacon_decide_flush t (parked_retry_sweep_skipped s peer) peer is_new now in
  r.1 = false ∧ neighbor_lookup r.2 peer = Some (with_parked e 0) ∧
  elapsed now (nb_parked_retry_after_ms e) = true.
Proof.
  intros Hp He Hnow Hd. cbv zeta. unfold parked_retry_beacon_decide_flush, parked_retry_sweep_skipped.
  cbn [sw_last_peer sw_hold_until_ms]. rewrite (proj2 (Z.eqb_neq peer 0) Hp), Z.eqb_refl, He. cbn [negb andb].
  assert (elapsed now 0 = false) as ->.
  { unfold elapsed, i32. rewrite Z.geb_leb. apply Z.leb_gt. cint. }
  assert (elapsed 0 (nb_parked_retry_after_ms e) = true) as ->.
  { unfold elapsed, i32. rewrite Z.geb_leb. apply Z.leb_le. cint. }
  cbn [negb]. rewrite orb_true_r. cbn [fst snd]. rewrite lookup_set_parked, He.
  split; [done|]. split; [done|]. unfold elapsed, i32. rewrite Z.geb_leb. apply Z.leb_le. cint.
Qed.

(** ** Witnesses *)

Definition demo_neighbors (after_ms : Z) : neighbor_table_t :=
  mk_ctable (with_parked (neighbor_new 7 (-70) 5 1 100) after_ms :: replicate 31 neighbor_zero) 1.

Lemma parked_edges_kept_witness :
  let t := demo_neighbors 0 in
  let s := parked_retry_swept (mk_sweep 0 0 0) 7 (u32 4294900000) in
  let r := parked_retry_beacon_decide_flush t s 7 true (u32 4294950000) in
  r.1 = false ∧ (parked_retry_beacon_decide_flush r.2 s 7 false (u32 4295210000)).1 = true.
Proof.
  intros t s r.
  apply (proj2 (proj2 (proj2 (parked_edges_kept t s 7 (neighbor_new 7 (-70) 5 1 100) (Some 4295200000) None true
    4294950000 ltac:(discriminate) eq_refl eq_refl
    ltac:(split; [reflexivity|split; [reflexivity|split; [discriminate|unfold near; lia]]])
    ltac:(discriminate)))) 4295200000 4295210000); [reflexivity|lia|discriminate|lia].
Defined.
Lemma skipped_peer_disarmed_witness :
  neighbor_lookup (parked_retry_beacon_decide_flush (demo_neighbors 3000000000)
    (parked_retry_sweep_skipped (mk_sweep 0 0 0) 7) 7 false 3000000000).2 7 =
  Some (neighbor_new 7 (-70) 5 1 100).
Proof.
  apply (skipped_peer_disarmed (demo_neighbors 3000000000) (mk_sweep 0 0 0) 7
    (with_parked (neighbor_new 7 (-70) 5 1 100) 3000000000) false 3000000000);
    [discriminate|reflexivity|lia|cbn; lia].
Defined.
