(* ===== verification/Beacon.v ===== *)
(** * Beacons and their schedule
    ([components/routing/beacon.c], [main/beacon_policy_calc.c])

    The fields of a beacon, the MAC over everything but itself, name included,
    and the interval policy: dense meshes back off, churning ones speed up, and
    every interval is jittered. *)

From stdpp Require Import base strings numbers sets option decidable list.
From S2P Require Import Prelude Tables Packet PacketSpec NetworkKey RoutingAuth ParkedRetry.

(** ** Building and authenticating *)

Definition beacon_build (my_addr pubkey_hash uptime_min battery_pct tx_queue_depth neighbor_count flags
    network_time time_confidence : Z) : bramble_beacon_t :=
  mk_beacon (mk_header BRAMBLE_VERSION PKT_TYPE_BEACON 0 1 UINT32_MAX 0) my_addr pubkey_hash uptime_min
    battery_pct tx_queue_depth neighbor_count flags network_time time_confidence (replicate 6 0)
    (replicate 16 0) 0 (replicate (BEACON_NAME_MAX + 1) 0).

Definition beacon_with_hmac (b : bramble_beacon_t) (m : list Z) : bramble_beacon_t :=
  mk_beacon (bcn_header b) (bcn_src_addr b) (bcn_pubkey_hash b) (bcn_uptime_min b) (bcn_battery_pct b)
    (bcn_tx_queue_depth b) (bcn_neighbor_count b) (bcn_flags b) (bcn_network_time b)
    (bcn_time_confidence b) (bcn_seq b) m (bcn_name_len b) (bcn_name b).

Section Auth.
Context (hmac : list Z → list Z → list Z).

(** The result of the serializer is not looked at; the stack buffers start zeroed here. *)
Definition beacon_compute_hmac (beacon : bramble_beacon_t) (shared_key : list Z) : option bramble_beacon_t :=
  let cap := (BEACON_SIZE + 1 + BEACON_NAME_MAX)%nat in
  let beacon := beacon_with_hmac beacon (replicate 16 0) in
  '(_, buf) ← bramble_beacon_serialize beacon (replicate cap 0) cap;
  let prefix_len := (BEACON_SIZE - 16)%nat in
  wire ← bramble_beacon_wire_size beacon;
  let name_wire_len := (wire - BEACON_SIZE)%nat in
  prefix ← rdn buf 0 prefix_len;
  input ← wr (replicate (BEACON_SIZE - 16 + 1 + BEACON_NAME_MAX) 0) 0 prefix;
  input ← (if (0 <? name_wire_len)%nat
           then name ← rdn buf BEACON_SIZE name_wire_len; wr input prefix_len name
           else Some input);
  input ← rdn input 0 (prefix_len + name_wire_len);
  mac ← rdn (hmac shared_key input) 0 16;
  Some (beacon_with_hmac beacon mac).

Definition beacon_verify_hmac (beacon : bramble_beacon_t) (shared_key : list Z) : option bool :=
  copy ← beacon_compute_hmac beacon shared_key;
  crypto_ct_memeq (bcn_auth_hmac beacon) (bcn_auth_hmac copy) 16.
End Auth.

(** ** The interval policy *)

Definition MAX_CHURN_HISTORY : nat := 16.
Definition BEACON_JITTER_MS : Z := 5000.

Record churn_sample_t := mk_churn { cs_timestamp : Z; cs_neighbor_count : Z }.

(** The accumulator: the number of changes and the last count seen, if any. *)
Definition churn_step (now_ms window_ms : Z) (acc : Z * option Z) (s : churn_sample_t) : Z * option Z :=
  if cs_timestamp s =? 0 then acc
  else if (now_ms ⊖ cs_timestamp s) >? window_ms then acc
  else match acc.2 with
       | None => (acc.1, Some (cs_neighbor_count s))
       | Some last => if negb (cs_neighbor_count s =? last) then (u8 (acc.1 + 1), Some (cs_neighbor_count s))
                      else acc
       end.
Definition beacon_churn_count (hist : list churn_sample_t) (now_ms window_ms : Z) : Z :=
  (foldl (churn_step now_ms window_ms) (0, None) hist).1.

Record beacon_interval_decision_t := mk_decision {
  bd_interval_ms : Z; bd_in_backoff : bool; bd_adaptive_active : bool }.

Definition beacon_interval_decide (enabled mode_is_adaptive : bool) (base_interval_ms min_interval_ms
    max_interval_ms dense_threshold churn_threshold neighbor_count churn_events : Z)
    : beacon_interval_decision_t :=
  if negb enabled || negb mode_is_adaptive then mk_decision base_interval_ms false false
  else if neighbor_count >=? dense_threshold then mk_decision max_interval_ms true true
  else if churn_events >=? churn_threshold then mk_decision min_interval_ms false true
  else mk_decision base_interval_ms false true.

Definition beacon_next_interval_ms (base_interval_ms rand16 : Z) : Z :=
  let span := BEACON_JITTER_MS in
  let span := if span >? base_interval_ms / 2 then base_interval_ms / 2 else span in
  if span =? 0 then base_interval_ms
  else
    let jitter := rand16 mod (2 * span) - span in
    u32 (i32 base_interval_ms + jitter).

(** The jitter never takes more than half the interval, nor more than five
    seconds, so beacons neither stop nor crowd. *)
Lemma beacon_interval_bounds base r :
  0 ≤ base < 2147480000 → 0 ≤ r →
  let d := beacon_next_interval_ms base r in
  base - 5000 ≤ d ≤ base + 5000 ∧ base ≤ 2 * d ∧ 2 * d ≤ 3 * base ∧ (d = 0 → base = 0).
Proof.
  intros Hb Hr. cbv zeta. unfold beacon_next_interval_ms, BEACON_JITTER_MS, i32.
  destruct (5000 >? base / 2) eqn:E; conds; cbv zeta.
  - destruct (base / 2 =? 0) eqn:E0; conds; [cint|].
    pose proof (Z.mod_pos_bound r (2 * (base / 2)) ltac:(cint)) as Hm. revert Hm.
    generalize (r mod (2 * (base / 2))). intros j Hj.
    rewrite (Z.mod_small (base + 2147483648)) by lia. unfold u32. rewrite Z.mod_small by cint. cint.
  - cbn [Z.eqb]. pose proof (Z.mod_pos_bound r (2 * 5000) ltac:(lia)) as Hm. revert Hm.
    generalize (r mod (2 * 5000)). intros j Hj.
    rewrite (Z.mod_small (base + 2147483648)) by lia. unfold u32. rewrite Z.mod_small by cint. cint.
Qed.

(** ** What the MAC covers *)

Section BeaconMac.
Context (hmac : list Z → list Z → list Z) `{HL : !HmacLaws hmac} (key : list Z).

(** The wire bytes without the MAC's own sixteen. *)
Definition beacon_auth_input (b : bramble_beacon_t) : list Z :=
  let bytes := beacon_bytes b (default 0%nat (beacon_wire_name_len b)) in
  take (BEACON_SIZE - 16) bytes ++ drop BEACON_SIZE bytes.
(** What the receiver learns from a beacon, its MAC aside. *)
Definition beacon_claim (b : bramble_beacon_t) : bramble_beacon_t :=
  beacon_norm (beacon_with_hmac b (replicate 16 0)).

Lemma beacon_with_hmac_ok b m : beacon_ok b → length m = 16%nat → beacon_ok (beacon_with_hmac b m).
Proof. intros (?&?&?&?&?&?&?&?&?&?&?&?&?&?) Hm. by split_and!. Qed.

Lemma split_beacon_bytes b n : beacon_ok b →
  ∃ pre post, length pre = (BEACON_SIZE - 16)%nat ∧
    ∀ m, beacon_bytes (beacon_with_hmac b m) n = pre ++ m ++ post.
Proof.
  intros (_&_&_&_&_&_&_&_&_&_&Hs&_&_&_).
  exists (header_bytes (bcn_header b) ++ be32_bytes (bcn_src_addr b) ++
  be32_bytes (bcn_pubkey_hash b) ++ be16_bytes (bcn_uptime_min b) ++
  [bcn_battery_pct b] ++ [bcn_tx_queue_depth b] ++ [bcn_neighbor_count b] ++
  [bcn_flags b] ++ be32_bytes (bcn_network_time b) ++ be16_bytes (bcn_time_confidence b) ++
  bcn_seq b), (if (0 <? n)%nat then [Z.of_nat n] ++ take n (bcn_name b) else []).
  split.
  - rewrite !length_app, length_header_bytes, Hs. reflexivity.
  - intros m. unfold beacon_bytes. cbn [beacon_with_hmac bcn_header bcn_src_addr bcn_pubkey_hash
      bcn_uptime_min bcn_battery_pct bcn_tx_queue_depth bcn_neighbor_count bcn_flags bcn_network_time
      bcn_time_confidence bcn_seq bcn_auth_hmac bcn_name]. by rewrite <- !app_assoc.
Qed.
Lemma auth_input_hmac b m m' : beacon_ok b → length m = 16%nat → length m' = 16%nat →
  beacon_auth_input (beacon_with_hmac b m) = beacon_auth_input (beacon_with_hmac b m').
Proof.
  intros Hok Hm Hm'. unfold beacon_auth_input.
  change (beacon_wire_name_len (beacon_with_hmac b ?x)) with (beacon_wire_name_len b).
  set (n := default _ _). destruct (split_beacon_bytes b n Hok) as (pre & post & Hp & E). rewrite !E.
  rewrite !take_app_le by lia. f_equal.
  replace BEACON_SIZE with (length pre + length m)%nat at 1 by (rewrite Hp, Hm; reflexivity).
  replace BEACON_SIZE with (length pre + length m')%nat by (rewrite Hp, Hm'; reflexivity).
  by rewrite !drop_app_add, !drop_app_length.
Qed.

Lemma rdn_filled_prefix bytes buf off n :
  (off + n ≤ length bytes)%nat → rdn (filled bytes buf) off n = Some (take n (drop off bytes)).
Proof.
  intros Hn. unfold rdn, filled. rewrite decide_True by (rewrite length_app; lia). f_equal.
  rewrite drop_app_le by lia. by rewrite take_app_le by (rewrite length_drop; lia).
Qed.

Lemma compute_hmac_spec b :
  beacon_ok b →
  beacon_compute_hmac hmac b key =
    Some (beacon_with_hmac b (take 16 (hmac key (beacon_auth_input b)))).
Proof.
  intros Hok. unfold beacon_compute_hmac. cbv zeta.
  set (b0 := beacon_with_hmac b (replicate 16 0)).
  assert (Hok0 : beacon_ok b0) by (by apply beacon_with_hmac_ok).
  destruct (beacon_wire_name_len_spec b0 Hok0) as (n & Hn & Hle & _).
  pose proof (length_beacon_bytes b0 n Hok0 Hle) as Hlen.
  rewrite (beacon_serialize_spec b0 n); [|done..| |by rewrite length_replicate].
  2: { unfold BEACON_NAME_MAX in *. destruct (0 <? n)%nat; lia. }
  cbn [mbind option_bind]. unfold bramble_beacon_wire_size. rewrite Hn. cbn [mbind option_bind].
  set (bytes := beacon_bytes b0 n) in *.
  assert (Hin : beacon_auth_input b = take (BEACON_SIZE - 16) bytes ++ drop BEACON_SIZE bytes).
  { assert (Hb : beacon_with_hmac b (bcn_auth_hmac b) = b) by (by destruct b). rewrite <- Hb at 1.
    rewrite (auth_input_hmac b (bcn_auth_hmac b) (replicate 16 0)); [|done| |done].
    - unfold beacon_auth_input. fold b0. by rewrite Hn.
    - by destruct Hok as (_&_&_&_&_&_&_&_&_&_&_&?&_). }
  rewrite Hin. set (name := drop BEACON_SIZE bytes) in *. set (prefix := take (BEACON_SIZE - 16) bytes) in *.
  assert (Hw : (BEACON_SIZE + (if (0 <? n)%nat then 1 + n else 0) - BEACON_SIZE)%nat = length name).
  { unfold name. rewrite length_drop, Hlen. lia. }
  rewrite Hw.
  assert (Hp : length prefix = (BEACON_SIZE - 16)%nat).
  { unfold prefix. rewrite length_take, Hlen. unfold BEACON_SIZE, HEADER_SIZE. lia. }
  assert (Hnl : (length name ≤ 1 + BEACON_NAME_MAX)%nat).
  { rewrite <- Hw. destruct (0 <? n)%nat; lia. }
  rewrite (rdn_filled_prefix bytes _ 0 (BEACON_SIZE - 16)) by (rewrite Hlen; unfold BEACON_SIZE, HEADER_SIZE; lia).
  cbn [mbind option_bind]. rewrite drop_0. fold prefix.
  rewrite <- (filled_nil (replicate (BEACON_SIZE - 16 + 1 + BEACON_NAME_MAX) 0)), wr_filled;
    [|done|rewrite length_replicate; cbn [app length]; lia].
  cbn [app mbind option_bind].
  assert (Hinput : (if (0 <? length name)%nat
     then nm ← rdn (filled bytes (replicate (BEACON_SIZE + 1 + BEACON_NAME_MAX) 0)) BEACON_SIZE (length name);
          wr (filled prefix (replicate (BEACON_SIZE - 16 + 1 + BEACON_NAME_MAX) 0)) (BEACON_SIZE - 16) nm
     else Some (filled prefix (replicate (BEACON_SIZE - 16 + 1 + BEACON_NAME_MAX) 0))) =
    Some (filled (prefix ++ name) (replicate (BEACON_SIZE - 16 + 1 + BEACON_NAME_MAX) 0))).
  { destruct (Nat.ltb_spec 0 (length name)) as [Hpos|Hz].
    - rewrite rdn_filled_prefix by (rewrite Hlen; lia). cbn [mbind option_bind].
      fold name. rewrite (firstn_all name). rewrite wr_filled; [done|by rewrite Hp|].
      rewrite length_replicate. lia.
    - destruct name; [|cbn in Hz; lia]. by rewrite app_nil_r. }
  rewrite Hinput. cbn [mbind option_bind].
  replace (BEACON_SIZE - 16 + length name)%nat with (length (prefix ++ name)) by (rewrite length_app; lia).
  rewrite rdn_filled_prefix by lia. rewrite drop_0, firstn_all. cbn [mbind option_bind].
  rewrite rdn_some by (rewrite (hmac_length _ _); lia). by rewrite drop_0.
Qed.

Lemma verify_hmac_spec b :
  beacon_ok b → Forall is_u8 (bcn_auth_hmac b) →
  beacon_verify_hmac hmac b key =
    Some (bool_decide (bcn_auth_hmac b = take 16 (hmac key (beacon_auth_input b)))).
Proof.
  intros Hok Hb. unfold beacon_verify_hmac. rewrite compute_hmac_spec by done. cbn [mbind option_bind].
  cbn [beacon_with_hmac bcn_auth_hmac]. apply crypto_ct_memeq_spec; [|by rewrite length_take, (hmac_length _ _)|done|].
  - by destruct Hok as (_&_&_&_&_&_&_&_&_&_&_&?&_).
  - apply Forall_take, (hmac_bytes _ _).
Qed.

Lemma auth_input_inj b b' :
  beacon_ok b → beacon_ok b' → beacon_auth_input b = beacon_auth_input b' → beacon_claim b = beacon_claim b'.
Proof.
  intros Hok Hok' E. unfold beacon_claim, beacon_norm.
  change (beacon_wire_name_len (beacon_with_hmac ?x _)) with (beacon_wire_name_len x).
  unfold beacon_auth_input in E.
  destruct (beacon_wire_name_len_spec b Hok) as (n & Hn & Hle & _).
  destruct (beacon_wire_name_len_spec b' Hok') as (n' & Hn' & Hle' & _).
  rewrite Hn, Hn' in *. cbn [default] in *.
  destruct (split_beacon_bytes b n Hok) as (pre & post & Hp & S),
    (split_beacon_bytes b' n' Hok') as (pre' & post' & Hp' & S').
  assert (Hb : ∀ x, beacon_ok x → beacon_with_hmac x (bcn_auth_hmac x) = x ∧ length (bcn_auth_hmac x) = 16%nat).
  { intros x (_&_&_&_&_&_&_&_&_&_&_&?&_). by destruct x. }
  destruct (Hb b Hok) as [Eb Hm], (Hb b' Hok') as [Eb' Hm'].
  rewrite <- Eb, <- Eb', S, S' in E. rewrite !take_app_le in E by lia.
  rewrite (take_ge pre), (take_ge pre') in E by lia.
  replace BEACON_SIZE with (length pre + length (bcn_auth_hmac b))%nat in E at 1 by (rewrite Hp, Hm; reflexivity).
  replace BEACON_SIZE with (length pre' + length (bcn_auth_hmac b'))%nat in E by (rewrite Hp', Hm'; reflexivity).
  rewrite !drop_app_add, !drop_app_length in E. apply app_inj_1 in E as [-> ->]; [|by rewrite Hp].
  pose proof (beacon_with_hmac_ok b (replicate 16 0) Hok eq_refl) as Ho.
  pose proof (beacon_with_hmac_ok b' (replicate 16 0) Hok' eq_refl) as Ho'.
  pose proof (length_beacon_bytes _ n Ho Hle) as Hl. pose proof (length_beacon_bytes _ n' Ho' Hle') as Hl'.
  rewrite S in Hl. rewrite S' in Hl'. rewrite Hl' in Hl.
  assert (n' = n) as ->.
  { destruct (Nat.ltb_spec 0 n), (Nat.ltb_spec 0 n'); lia. }
  pose proof (beacon_deserialize_spec _ n b Ho Hle) as D. pose proof (beacon_deserialize_spec _ n b Ho' Hle) as D'.
  rewrite S in D. rewrite S', D in D'. cbn [id]. congruence.
Qed.

(** Beacons are authentic: signing computes the MAC of everything on the wire
    but itself, a signed beacon verifies, and a beacon that verifies under another
    one's MAC although the receiver would learn something else from it (address,
    keys, network time, sequence number or name) exhibits two different HMAC
    inputs with the same truncated tag. *)
Theorem beacons_authentic b b' :
  beacon_ok b → beacon_ok b' → Forall is_u8 (bcn_auth_hmac b') →
  ∃ signed, beacon_compute_hmac hmac b key = Some signed ∧
    beacon_claim signed = beacon_claim b ∧
    beacon_verify_hmac hmac signed key = Some true ∧
    (beacon_verify_hmac hmac b' key = Some true → bcn_auth_hmac b' = bcn_auth_hmac signed →
     beacon_claim b' ≠ beacon_claim b →
     beacon_auth_input b' ≠ beacon_auth_input b ∧
     take 16 (hmac key (beacon_auth_input b')) = take 16 (hmac key (beacon_auth_input b))).
Proof.
  intros Hok Hok' Hb'. eexists. rewrite compute_hmac_spec by done. split; [done|].
  set (mac := take 16 _).
  assert (Hmac : length mac = 16%nat) by (unfold mac; by rewrite length_take, (hmac_length _ _)).
  assert (Hin : beacon_auth_input (beacon_with_hmac b mac) = beacon_auth_input b).
  { assert (Hb : beacon_with_hmac b (bcn_auth_hmac b) = b) by (by destruct b). rewrite <- Hb at 2.
    apply auth_input_hmac; [done|done|]. by destruct Hok as (_&_&_&_&_&_&_&_&_&_&_&?&_). }
  split; [done|]. split.
  - rewrite verify_hmac_spec; [|by apply beacon_with_hmac_ok|apply Forall_take, (hmac_bytes _ _)].
    rewrite Hin. by rewrite bool_decide_true.
  - rewrite verify_hmac_spec by done. intros [= V%bool_decide_eq_true] E Hne. split.
    + intros Ei. by apply Hne, auth_input_inj.
    + rewrite <- V, E. done.
Qed.
End BeaconMac.

Definition demo_beacon (name : list Z) : bramble_beacon_t :=
  let b := beacon_build 7 99 10 80 0 2 0 5000 1 in
  mk_beacon (bcn_header b) 7 99 10 80 0 2 0 5000 1 (replicate 6 1) (replicate 16 2) (Z.of_nat (length name))
    (name ++ replicate (17 - length name) 0).
Lemma demo_beacon_ok name : (length name ≤ 16)%nat → beacon_ok (demo_beacon name).
Proof.
  intros Hn. unfold beacon_ok, demo_beacon, header_ok.
  assert (Hl : length (name ++ replicate (17 - length name) 0) = 17%nat)
    by (rewrite length_app, length_replicate; lia).
  revert Hl. generalize (name ++ replicate (17 - length name) 0). intros nm Hl. cbn.
  unfold BRAMBLE_VERSION, PKT_TYPE_BEACON in *. repeat split; try (cint_unfold; lia).
Qed.
Lemma beacons_authentic_witness :
  ∃ signed, beacon_compute_hmac toy_hmac (demo_beacon [65; 66]) (replicate 32 4) = Some signed ∧
    beacon_verify_hmac toy_hmac signed (replicate 32 4) = Some true.
Proof.
  destruct (beacons_authentic toy_hmac (replicate 32 4) (demo_beacon [65; 66]) (demo_beacon [])
    (demo_beacon_ok [65; 66] ltac:(cbn; lia)) (demo_beacon_ok [] ltac:(cbn; lia))
    ltac:(apply Forall_replicate; cint_unfold; lia)) as (signed & H1 & _ & H2 & _).
  exists signed. split; [exact H1|exact H2].
Defined.
