(* ===== verification/Probe.v ===== *)
(** * Reach probes: replies, results and the stand-alone engine
      ([main/probe_reply.c], [main/probe_results.c], [components/bramble_probe/bramble_probe.c])

    The queue of jittered, repeated replies, the table of responders of a sweep,
    and the self-contained probe engine with its own packets, limiter and
    response window. *)

From stdpp Require Import base strings numbers sets option decidable list.
From S2P Require Import Prelude Tables.

(** ** The reply queue *)

Definition PROBE_REPLY_ATTEMPTS : Z := 3.
Definition PROBE_REPLY_RETRY_SPACING_MS : Z := 140.
Definition PROBE_REPLY_QUEUE_CAPACITY : nat := 4.
Definition PROBE_REPLY_BUF : nat := 20.

Record pending_probe_reply_t := mk_preply {
  pp_used : bool; pp_buf : list Z; pp_wire_len : Z; pp_attempts_total : Z; pp_attempts_sent : Z;
  pp_due_at_ms : Z }.
Definition preply_zero : pending_probe_reply_t := mk_preply false (replicate PROBE_REPLY_BUF 0) 0 0 0 0.
#[global] Instance preply_inhabited : Inhabited pending_probe_reply_t := populate preply_zero.
Inductive probe_reply_tx_result_t := PROBE_REPLY_TX_DENIED | PROBE_REPLY_TX_SENT.

Definition probe_reply_slot_ms (address : Z) : Z := 300 + address mod 6 * 110.
Definition probe_reply_initial_delay_ms (address jitter_ms : Z) : Z :=
  u32 (probe_reply_slot_ms address + jitter_ms).
Definition probe_reply_attempt_due_ms (now_ms initial_delay_ms attempt_index : Z) : Z :=
  u32 (now_ms + initial_delay_ms + attempt_index * PROBE_REPLY_RETRY_SPACING_MS).

(** The slot, [None] for -1. *)
Definition probe_reply_queue_insert (q : list pending_probe_reply_t) (buf : list Z)
    (wire_len attempts_total first_due_ms : Z) : option (option nat * list pending_probe_reply_t) :=
  match find_index (λ e, negb (pp_used e)) q with
  | None => Some (None, q)
  | Some i =>
      if wire_len >? Z.of_nat PROBE_REPLY_BUF then Some (None, q)
      else
        bytes ← rdn buf 0 (Z.to_nat wire_len);
        b ← wr (replicate PROBE_REPLY_BUF 0) 0 bytes;
        Some (Some i, <[i := mk_preply true b wire_len attempts_total 0 first_due_ms]> q)
  end.
Definition earlier (acc : option Z) (e : pending_probe_reply_t) : option Z :=
  if negb (pp_used e) then acc
  else match acc with
       | None => Some (pp_due_at_ms e)
       | Some m => if pp_due_at_ms e <? m then Some (pp_due_at_ms e) else acc
       end.
Definition probe_reply_queue_earliest_due (q : list pending_probe_reply_t) : option Z :=
  foldl earlier None q.
Definition probe_reply_queue_find_due (q : list pending_probe_reply_t) (now_ms : Z) : option nat :=
  find_index (λ e, pp_used e && (pp_due_at_ms e <=? now_ms)) q.
Definition probe_reply_queue_apply_result (item : pending_probe_reply_t) (result : probe_reply_tx_result_t)
    (now_ms : Z) : pending_probe_reply_t :=
  match result with
  | PROBE_REPLY_TX_DENIED => preply_zero
  | PROBE_REPLY_TX_SENT =>
      let sent := u8 (pp_attempts_sent item + 1) in
      if sent >=? pp_attempts_total item then preply_zero
      else mk_preply (pp_used item) (pp_buf item) (pp_wire_len item) (pp_attempts_total item) sent
             (now_ms ⊕ PROBE_REPLY_RETRY_SPACING_MS)
  end.

(** ** The responders of a sweep *)

Definition MAX_PROBE_RESULTS : nat := 16.

Record probe_result_t := mk_presult {
  pv_addr : Z; pv_hops : Z; pv_rssi : Z; pv_snr : Z; pv_latency_ms : Z; pv_seen_round_mask : Z }.
#[global] Instance presult_inhabited : Inhabited probe_result_t := populate (mk_presult 0 0 0 0 0 0).

Definition round_bit (probe_round : Z) : Z := u8 (Z.shiftl 1 (probe_round - 1)).
Definition probe_results_upsert (t : ctable probe_result_t) (max_results : nat)
    (resp_addr hops rssi snr latency_ms probe_round : Z) : ctable probe_result_t :=
  match find_index (λ r, pv_addr r =? resp_addr) (live t) with
  | Some i =>
      let r := entries t !!! i in
      tset t i (mk_presult (pv_addr r) hops (if rssi >? pv_rssi r then rssi else pv_rssi r)
                  (if snr >? pv_snr r then snr else pv_snr r) latency_ms
                  (Z.lor (pv_seen_round_mask r) (round_bit probe_round)))
  | None =>
      if (count t <? max_results)%nat
      then tpush t (mk_presult resp_addr hops rssi snr latency_ms (round_bit probe_round)) else t
  end.

(** ** The stand-alone engine *)

Module Engine.

Definition BRAMBLE_TYPE_BROADCAST_PROBE : Z := 18.
Definition BRAMBLE_TYPE_BROADCAST_ACK : Z := 19.
Definition PROBE_FLAG_INCLUDE_RSSI : Z := 1.
Definition PROBE_FLAG_SILENT : Z := 4.
Definition PROBE_RATE_LIMIT_TOKENS : Z := 3.
Definition PROBE_RATE_LIMIT_REFILL_MS : Z := 60000.
Definition PROBE_ACK_COOLDOWN_MS : Z := 10000.
Definition PROBE_COLLECTION_WINDOW_MS : Z := 30000.
Definition PROBE_ACK_JITTER_MIN_MS : Z := 100.
Definition PROBE_ACK_JITTER_MAX_MS : Z := 2000.
Definition PROBE_DEDUP_SIZE : nat := 16.
Definition PROBE_MAX_RESPONSES : nat := 32.
Definition PROBE_PACKET_SIZE : nat := 12.

Record probe_response_t := mk_presponse {
  pr_responder_addr : Z; pr_hop_count : Z; pr_rssi : Z; pr_has_rssi : bool; pr_latency_ms : Z }.
#[global] Instance presponse_inhabited : Inhabited probe_response_t := populate (mk_presponse 0 0 0 false 0).
Record result_t := mk_result {
  rs_probe_id : Z; rs_start_ms : Z; rs_complete : bool; rs_responses : ctable probe_response_t }.
Definition result_zero : result_t :=
  mk_result 0 0 false (table_init PROBE_MAX_RESPONSES (mk_presponse 0 0 0 false 0)).
Record probe_rate_limit_t := mk_limit { tokens : Z; max_tokens : Z; last_refill_ms : Z; refill_interval_ms : Z }.
(** [pa_ack]: the 13 bytes of the structure and the padding byte behind them. *)
Record pending_probe_ack_t := mk_pack { pa_active : bool; pa_send_at_ms : Z; pa_ack : list Z; pa_ack_len : nat }.

Record bramble_probe_state_t := mk_engine {
  my_addr : Z; send_limiter : probe_rate_limit_t; last_ack_sent_ms : Z; seen_probes : list Z;
  seen_index : nat; result : result_t; collecting : bool; pending_ack : pending_probe_ack_t;
  have_send_fn : bool; seed : Z }.

Section EngineSetters.
Context (s : bramble_probe_state_t).
Definition eset_limiter x := mk_engine (my_addr s) x (last_ack_sent_ms s) (seen_probes s) (seen_index s)
  (result s) (collecting s) (pending_ack s) (have_send_fn s) (seed s).
Definition eset_collect r c := mk_engine (my_addr s) (send_limiter s) (last_ack_sent_ms s) (seen_probes s)
  (seen_index s) r c (pending_ack s) (have_send_fn s) (seed s).
Definition eset_seen l i := mk_engine (my_addr s) (send_limiter s) (last_ack_sent_ms s) l i
  (result s) (collecting s) (pending_ack s) (have_send_fn s) (seed s).
Definition eset_ack last a := mk_engine (my_addr s) (send_limiter s) last (seen_probes s)
  (seen_index s) (result s) (collecting s) a (have_send_fn s) (seed s).
Definition eset_seed x := mk_engine (my_addr s) (send_limiter s) (last_ack_sent_ms s) (seen_probes s)
  (seen_index s) (result s) (collecting s) (pending_ack s) (have_send_fn s) x.
End EngineSetters.

(** The generator's seed is a static, kept in the state here. *)
Definition probe_simple_random (seed min max : Z) : Z * Z :=
  let seed := u32 (seed * 1103515245 + 12345) in
  (if max <=? min then min else min + seed mod (max - min + 1), seed).

Definition rate_limit_init (max_tokens refill_ms now_ms : Z) : probe_rate_limit_t :=
  mk_limit max_tokens max_tokens now_ms refill_ms.
(** [tokens] is eight bits wide and added to before it is capped. *)
Definition rate_limit_refill (rl : probe_rate_limit_t) (now_ms : Z) : probe_rate_limit_t :=
  if refill_interval_ms rl =? 0 then rl
  else
    let new_tokens := (now_ms ⊖ last_refill_ms rl) / refill_interval_ms rl in
    if new_tokens >? 0 then
      let t := u8 (tokens rl + new_tokens) in
      mk_limit (if t >? max_tokens rl then max_tokens rl else t) (max_tokens rl)
        (u32 (last_refill_ms rl + new_tokens * refill_interval_ms rl)) (refill_interval_ms rl)
    else rl.
Definition rate_limit_try (rl : probe_rate_limit_t) (now_ms : Z) : bool * probe_rate_limit_t :=
  let rl := rate_limit_refill rl now_ms in
  if tokens rl >? 0
  then (true, mk_limit (tokens rl - 1) (max_tokens rl) (last_refill_ms rl) (refill_interval_ms rl))
  else (false, rl).

Definition dedup_check (s : bramble_probe_state_t) (probe_id : Z) : bool :=
  existsb (λ x, x =? probe_id) (seen_probes s).
Definition dedup_add (s : bramble_probe_state_t) (probe_id : Z) : bramble_probe_state_t :=
  eset_seen s (<[seen_index s := probe_id]> (seen_probes s)) (Nat.modulo (seen_index s + 1) PROBE_DEDUP_SIZE).

Definition bramble_probe_init (my_addr : Z) (have_send_fn : bool) (seed : Z) : bramble_probe_state_t :=
  mk_engine my_addr (rate_limit_init PROBE_RATE_LIMIT_TOKENS PROBE_RATE_LIMIT_REFILL_MS 0) 0
    (replicate PROBE_DEDUP_SIZE 0) 0 result_zero false (mk_pack false 0 (replicate 14 0) 0) have_send_fn seed.

(** The result, the frames handed to the callback and the state. *)
Definition bramble_probe_send (s : bramble_probe_state_t) (flags now_ms : Z)
    : Z * list (list Z) * bramble_probe_state_t :=
  let '(ok, rl) := rate_limit_try (send_limiter s) now_ms in
  let s := eset_limiter s rl in
  if negb ok then (-1, [], s)
  else
    let probe_id := Z.lxor (Z.lxor (my_addr s) now_ms) (u32 (Z.shiftl now_ms 16)) in
    let pkt := [1; BRAMBLE_TYPE_BROADCAST_PROBE; flags; 3] ++ le32_bytes (my_addr s) ++ le32_bytes probe_id in
    (0, if have_send_fn s then [pkt] else [],
     eset_collect s (mk_result probe_id now_ms false (rs_responses result_zero)) true).

(** [None]: an access outside [data]. *)
Definition bramble_probe_handle_probe (s : bramble_probe_state_t) (data : list Z) (len : nat) (rssi now_ms : Z)
    : option bramble_probe_state_t :=
  if (len <? PROBE_PACKET_SIZE)%nat then Some s
  else
    flags ← rd data 2;
    src_addr ← le32_val <$> rdn data 4 4;
    probe_id ← le32_val <$> rdn data 8 4;
    if src_addr =? my_addr s then Some s
    else if negb (Z.land flags PROBE_FLAG_SILENT =? 0) then Some s
    else if dedup_check s probe_id then Some s
    else
      let s := dedup_add s probe_id in
      if (now_ms ⊖ last_ack_sent_ms s) <? PROBE_ACK_COOLDOWN_MS then Some s
      else
        let ack := [1; BRAMBLE_TYPE_BROADCAST_ACK; flags; 1] ++ le32_bytes (my_addr s) ++
                   le32_bytes probe_id ++ [u8 rssi] in
        let ack_len := if negb (Z.land flags PROBE_FLAG_INCLUDE_RSSI =? 0) then 14%nat else 13%nat in
        let '(jitter, seed') := probe_simple_random (seed s) PROBE_ACK_JITTER_MIN_MS PROBE_ACK_JITTER_MAX_MS in
        Some (eset_seed (eset_ack s (last_ack_sent_ms s) (mk_pack true (now_ms ⊕ jitter) (ack ++ [0]) ack_len))
                seed').

Definition updated (r : probe_response_t) (hop_count rssi latency_ms : Z) (has_rssi : bool) : probe_response_t :=
  mk_presponse (pr_responder_addr r) hop_count
    (if has_rssi && (negb (pr_has_rssi r) || (rssi >? pr_rssi r)) then rssi else pr_rssi r)
    (has_rssi || pr_has_rssi r) latency_ms.
Definition bramble_probe_handle_ack (s : bramble_probe_state_t) (data : list Z) (len : nat) (now_ms : Z)
    : option bramble_probe_state_t :=
  if (len <? 13)%nat then Some s
  else
    flags ← rd data 2;
    hop_count ← rd data 3;
    src_addr ← le32_val <$> rdn data 4 4;
    probe_id ← le32_val <$> rdn data 8 4;
    rssi ← i8 <$> rd data 12;
    if negb (collecting s) || negb (probe_id =? rs_probe_id (result s)) then Some s
    else if src_addr =? my_addr s then Some s
    else
      let has_rssi := negb (Z.land flags PROBE_FLAG_INCLUDE_RSSI =? 0) && (14 <=? len)%nat in
      let latency_ms := now_ms ⊖ rs_start_ms (result s) in
      let t := rs_responses (result s) in
      let with_responses t := eset_collect s
        (mk_result (rs_probe_id (result s)) (rs_start_ms (result s)) (rs_complete (result s)) t) (collecting s) in
      match find_index (λ r, pr_responder_addr r =? src_addr) (live t) with
      | Some i => Some (with_responses (tset t i (updated (entries t !!! i) hop_count rssi latency_ms has_rssi)))
      | None =>
          if (PROBE_MAX_RESPONSES <=? count t)%nat then Some s
          else Some (with_responses (tpush t (mk_presponse src_addr hop_count (if has_rssi then rssi else 0)
                                                has_rssi latency_ms)))
      end.

Definition bramble_probe_get_result (s : bramble_probe_state_t) : result_t := result s.

Definition bramble_probe_tick (s : bramble_probe_state_t) (now_ms : Z) : list (list Z) * bramble_probe_state_t :=
  let a := pending_ack s in
  let due := pa_active a && (now_ms >=? pa_send_at_ms a) in
  let out := if due && have_send_fn s then [take (pa_ack_len a) (pa_ack a)] else [] in
  let s := if due then eset_ack s now_ms (mk_pack false (pa_send_at_ms a) (pa_ack a) (pa_ack_len a)) else s in
  let r := result s in
  (out, if collecting s && ((now_ms ⊖ rs_start_ms r) >=? PROBE_COLLECTION_WINDOW_MS)
        then eset_collect s (mk_result (rs_probe_id r) (rs_start_ms r) true (rs_responses r)) false else s).
End Engine.
