(* ===== verification/Rollcall.v ===== *)
(** * The attested roll-call: protocol core ([components/rollcall/rollcall.c])

    Wire codecs, the message a responder signs, response stagger, the round
    schedule, the initiation limit, the member's answer-once table and hourly
    answer budget, and the initiator's ledger.

    Pointers are non-null here: a null argument makes each of these functions
    return its refusal and touch nothing. *)

From stdpp Require Import base strings numbers sets option decidable list.
From S2P Require Import Prelude Tables Packet NetworkKey RoutingAuth ParkedRetry.

Definition ROLLCALL_TEXT_MAX : nat := 48.
Definition ROLLCALL_MAX_ROUNDS : Z := 3.
Definition ROLLCALL_MAX_RESPONDERS : nat := 24.
Definition ROLLCALL_MAX_EXPECTED : nat := 24.
Definition ROLLCALL_PATH_MAX : nat := 8.
Definition ROLLCALL_SEEN_MAX : nat := 8.
Definition ROLLCALL_PENDING_MAX : nat := 2.
Definition ROLLCALL_ANNOUNCE_HEADER_SIZE : nat := 6.
Definition ROLLCALL_ANNOUNCE_MAX_SIZE : nat := ROLLCALL_ANNOUNCE_HEADER_SIZE + ROLLCALL_TEXT_MAX.
Definition ROLLCALL_SIG_SIZE : nat := 64.
Definition ROLLCALL_RESPONSE_SIZE : nat := 4 + 1 + 4 + ROLLCALL_SIG_SIZE.
Definition ROLLCALL_MSG_CONTEXT : list Z := str_bytes "bramble-rollcall-v1".
Definition ROLLCALL_MSG_CONTEXT_LEN : nat := 19.
Definition ROLLCALL_MSG_SIZE : nat := ROLLCALL_MSG_CONTEXT_LEN + 4 + 4 + 4.
Definition ROLLCALL_RESPONSE_BASE_MS : Z := 400.
Definition ROLLCALL_RESPONSE_SLOT_MS : Z := 600.
Definition ROLLCALL_RESPONSE_JITTER_MS : Z := 500.
Definition ROLLCALL_SLOT_BUCKETS_MIN : Z := 4.
Definition ROLLCALL_SLOT_BUCKETS_MAX : Z := 32.
Definition ROLLCALL_ROUND_BASE_MS : Z := 30000.
Definition ROLLCALL_COLLECT_TAIL_MS : Z := 45000.
Definition ROLLCALL_MIN_INTERVAL_MS : Z := 300000.
Definition ROLLCALL_ANSWER_WINDOW_MS : Z := 3600000.
Definition ROLLCALL_ANSWER_MAX_PER_HOUR : nat := 12.

(** ** Wire *)

Record rollcall_announce_t := mk_announce {
  ra_rollcall_id : Z; ra_round : Z; ra_text_len : Z; ra_text : list Z }.
Record rollcall_response_t := mk_response {
  rr_rollcall_id : Z; rr_round : Z; rr_responder_addr : Z; rr_sig : list Z }.

Definition bad_round (round : Z) : bool := (round <? 1) || (round >? ROLLCALL_MAX_ROUNDS).

(** The bytes written, zero for a refusal, and the buffer; [None]: an access outside a buffer. *)
Definition rollcall_announce_encode (a : rollcall_announce_t) (out : list Z) (out_cap : nat)
    : option (nat * list Z) :=
  if ra_rollcall_id a =? 0 then Some (0%nat, out)
  else if bad_round (ra_round a) then Some (0%nat, out)
  else if ra_text_len a >? Z.of_nat ROLLCALL_TEXT_MAX then Some (0%nat, out)
  else
    let need := (ROLLCALL_ANNOUNCE_HEADER_SIZE + Z.to_nat (ra_text_len a))%nat in
    if (out_cap <? need)%nat then Some (0%nat, out)
    else
      out ← put_be32 out 0 (ra_rollcall_id a);
      out ← wr out 4 [ra_round a];
      out ← wr out 5 [ra_text_len a];
      text ← rdn (ra_text a) 0 (Z.to_nat (ra_text_len a));
      out ← wr out ROLLCALL_ANNOUNCE_HEADER_SIZE text;
      Some (need, out).

(** [Some None]: refused. *)
Definition rollcall_announce_decode (buf : list Z) (len : nat) : option (option rollcall_announce_t) :=
  if (len <? ROLLCALL_ANNOUNCE_HEADER_SIZE)%nat then Some None
  else
    id ← get_be32 buf 0;
    round ← rd buf 4;
    text_len ← rd buf 5;
    if id =? 0 then Some None
    else if bad_round round then Some None
    else if text_len >? Z.of_nat ROLLCALL_TEXT_MAX then Some None
    else if negb (len =? ROLLCALL_ANNOUNCE_HEADER_SIZE + Z.to_nat text_len)%nat then Some None
    else
      bytes ← rdn buf ROLLCALL_ANNOUNCE_HEADER_SIZE (Z.to_nat text_len);
      text ← wr (replicate (ROLLCALL_TEXT_MAX + 1) 0) 0 bytes;
      text ← wr text (Z.to_nat text_len) [0];
      Some (Some (mk_announce id round text_len text)).

Definition rollcall_response_encode (r : rollcall_response_t) (out : list Z) (out_cap : nat)
    : option (nat * list Z) :=
  if rr_rollcall_id r =? 0 then Some (0%nat, out)
  else if bad_round (rr_round r) then Some (0%nat, out)
  else if (out_cap <? ROLLCALL_RESPONSE_SIZE)%nat then Some (0%nat, out)
  else
    out ← put_be32 out 0 (rr_rollcall_id r);
    out ← wr out 4 [rr_round r];
    out ← put_be32 out 5 (rr_responder_addr r);
    out ← wr out 9 (rr_sig r);
    Some (ROLLCALL_RESPONSE_SIZE, out).
Definition rollcall_response_decode (buf : list Z) (len : nat) : option (option rollcall_response_t) :=
  if negb (len =? ROLLCALL_RESPONSE_SIZE)%nat then Some None
  else
    id ← get_be32 buf 0;
    round ← rd buf 4;
    if id =? 0 then Some None
    else if bad_round round then Some None
    else
      addr ← get_be32 buf 5;
      sig ← rdn buf 9 ROLLCALL_SIG_SIZE;
      Some (Some (mk_response id round addr sig)).

(** Domain separated, with both ends and the roll-call named. *)
Definition rollcall_signed_msg (rollcall_id initiator_addr responder_addr : Z) (out : list Z)
    (out_cap : nat) : option (nat * list Z) :=
  if (out_cap <? ROLLCALL_MSG_SIZE)%nat then Some (0%nat, out)
  else
    out ← wr out 0 ROLLCALL_MSG_CONTEXT;
    out ← put_be32 out ROLLCALL_MSG_CONTEXT_LEN rollcall_id;
    out ← put_be32 out (ROLLCALL_MSG_CONTEXT_LEN + 4) initiator_addr;
    out ← put_be32 out (ROLLCALL_MSG_CONTEXT_LEN + 8) responder_addr;
    Some (ROLLCALL_MSG_SIZE, out).

(** ** Stagger and schedule *)

Definition rollcall_response_slot (responder_addr rollcall_id peer_count : Z) : Z :=
  let buckets := peer_count * 2 in
  let buckets := if buckets <? ROLLCALL_SLOT_BUCKETS_MIN then ROLLCALL_SLOT_BUCKETS_MIN else buckets in
  let buckets := if buckets >? ROLLCALL_SLOT_BUCKETS_MAX then ROLLCALL_SLOT_BUCKETS_MAX else buckets in
  Z.lxor responder_addr rollcall_id mod buckets.
Definition rollcall_response_delay_ms (responder_addr rollcall_id peer_count random_value : Z) : Z :=
  ROLLCALL_RESPONSE_BASE_MS +
  rollcall_response_slot responder_addr rollcall_id peer_count * ROLLCALL_RESPONSE_SLOT_MS +
  random_value mod ROLLCALL_RESPONSE_JITTER_MS.

Definition rollcall_round_delay_ms (rounds_sent : Z) : Z :=
  if (rounds_sent <? 1) || (rounds_sent >=? ROLLCALL_MAX_ROUNDS) then 0
  else Z.shiftl ROLLCALL_ROUND_BASE_MS (rounds_sent - 1).
Definition rollcall_window_ms : Z :=
  foldl (λ total r, u32 (total + rollcall_round_delay_ms r)) 0
    (Z.of_nat <$> seq 1 (Z.to_nat ROLLCALL_MAX_ROUNDS - 1)) + ROLLCALL_COLLECT_TAIL_MS.

(** ** The initiation limit *)

Inductive rollcall_start_check_t := ROLLCALL_START_OK | ROLLCALL_START_BUSY | ROLLCALL_START_RATE_LIMITED.
Record rollcall_rate_state_t := mk_rate { rs_ever_started : bool; rs_last_start_ms : Z }.
Definition rollcall_rate_init : rollcall_rate_state_t := mk_rate false 0.
Definition rollcall_rate_check (rl : rollcall_rate_state_t) (ledger_open : bool) (now_ms : Z)
    : rollcall_start_check_t :=
  if ledger_open then ROLLCALL_START_BUSY
  else if negb (rs_ever_started rl) then ROLLCALL_START_OK
  else if (now_ms ⊖ rs_last_start_ms rl) <? ROLLCALL_MIN_INTERVAL_MS then ROLLCALL_START_RATE_LIMITED
  else ROLLCALL_START_OK.
Definition rollcall_rate_note_start (now_ms : Z) : rollcall_rate_state_t := mk_rate true now_ms.

(** ** Answering once *)

Record rollcall_seen_entry_t := mk_seen {
  sn_used : bool; sn_rollcall_id : Z; sn_initiator_addr : Z; sn_seen_ms : Z }.
Definition seen_zero : rollcall_seen_entry_t := mk_seen false 0 0 0.
#[global] Instance seen_inhabited : Inhabited rollcall_seen_entry_t := populate seen_zero.
Abbreviation rollcall_seen_table_t := (list rollcall_seen_entry_t).
Definition rollcall_seen_init : rollcall_seen_table_t := replicate ROLLCALL_SEEN_MAX seen_zero.

Definition seen_for (rollcall_id initiator_addr : Z) (e : rollcall_seen_entry_t) : bool :=
  sn_used e && (sn_rollcall_id e =? rollcall_id) && (sn_initiator_addr e =? initiator_addr).
Definition rollcall_seen_contains (t : rollcall_seen_table_t) (rollcall_id initiator_addr : Z) : bool :=
  existsb (seen_for rollcall_id initiator_addr) t.
(** [best = 0, oldest = 0; if (age(i) >= oldest) ...]: the last of the greatest ages. *)
Definition oldest_slot {A} (age : A → Z) (l : list A) : nat :=
  (foldl (λ '(slot, oldest, i) x,
     if age x >=? oldest then (i, age x, S i) else (slot, oldest, S i)) (0%nat, 0, 0%nat) l).1.1.
Definition rollcall_seen_claim (t : rollcall_seen_table_t) (rollcall_id initiator_addr now_ms : Z)
    : bool * rollcall_seen_table_t :=
  if rollcall_id =? 0 then (false, t)
  else if rollcall_seen_contains t rollcall_id initiator_addr then (false, t)
  else
    let slot := match find_index (λ e, negb (sn_used e)) t with
                | Some i => i
                | None => oldest_slot (λ e, now_ms ⊖ sn_seen_ms e) t
                end in
    (true, <[slot := mk_seen true rollcall_id initiator_addr now_ms]> t).
Definition rollcall_seen_release (t : rollcall_seen_table_t) (rollcall_id initiator_addr : Z)
    : rollcall_seen_table_t :=
  match find_index (seen_for rollcall_id initiator_addr) t with
  | Some i => <[i := seen_zero]> t
  | None => t
  end.

(** ** The answer budget

    The two arrays of the C structure, side by side. *)

Record answer_slot := mk_answer { ab_used : bool; ab_at_ms : Z }.
Abbreviation rollcall_answer_budget_t := (list answer_slot).
Definition rollcall_answer_budget_init : rollcall_answer_budget_t :=
  replicate ROLLCALL_ANSWER_MAX_PER_HOUR (mk_answer false 0).
Definition answer_age (now_ms : Z) (s : answer_slot) : Z := now_ms ⊖ ab_at_ms s.
Definition in_answer_window (now_ms : Z) (s : answer_slot) : bool :=
  ab_used s && (answer_age now_ms s <? ROLLCALL_ANSWER_WINDOW_MS).
Definition rollcall_answer_budget_used (b : rollcall_answer_budget_t) (now_ms : Z) : Z :=
  foldl (λ n s, if in_answer_window now_ms s then u8 (n + 1) else n) 0 b.
Definition rollcall_answer_budget_allow (b : rollcall_answer_budget_t) (now_ms : Z) : bool :=
  rollcall_answer_budget_used b now_ms <? Z.of_nat ROLLCALL_ANSWER_MAX_PER_HOUR.
Definition rollcall_answer_budget_note (b : rollcall_answer_budget_t) (now_ms : Z)
    : rollcall_answer_budget_t :=
  let slot :=
    match find_index (λ s, negb (ab_used s) || (answer_age now_ms s >=? ROLLCALL_ANSWER_WINDOW_MS)) b with
    | Some i => i
    | None => oldest_slot (answer_age now_ms) b
    end in
  <[slot := mk_answer true now_ms]> b.

(** ** The ledger *)

Record rollcall_entry_t := mk_entry {
  re_used : bool; re_addr : Z; re_responded : bool; re_responded_at_ms : Z; re_round : Z;
  re_have_path : bool; re_hop_count : Z; re_relay_path : list Z }.
Definition entry_zero : rollcall_entry_t := mk_entry false 0 false 0 0 false 0 (replicate ROLLCALL_PATH_MAX 0).
#[global] Instance rc_entry_inhabited : Inhabited rollcall_entry_t := populate entry_zero.
Definition entry_fresh (addr : Z) : rollcall_entry_t :=
  mk_entry true addr false 0 0 false 0 (replicate ROLLCALL_PATH_MAX 0).

(** [lg_expected]: the live part of the array. *)
Record rollcall_ledger_t := mk_ledger {
  lg_active : bool; lg_open : bool; lg_rollcall_id : Z; lg_initiator_addr : Z; lg_started_ms : Z;
  lg_closed_ms : Z; lg_rounds_sent : Z; lg_next_round_ms : Z; lg_text_len : Z; lg_text : list Z;
  lg_anchored : bool; lg_expected : list Z; lg_entries : ctable rollcall_entry_t;
  lg_overflow : Z; lg_unattested : Z; lg_late : Z }.
Definition rollcall_ledger_init : rollcall_ledger_t :=
  mk_ledger false false 0 0 0 0 0 0 0 (replicate (ROLLCALL_TEXT_MAX + 1) 0) false []
    (table_init ROLLCALL_MAX_RESPONDERS entry_zero) 0 0 0.

Section LedgerSetters.
Context (l : rollcall_ledger_t).
Definition lset_rounds sent next := mk_ledger (lg_active l) (lg_open l) (lg_rollcall_id l)
  (lg_initiator_addr l) (lg_started_ms l) (lg_closed_ms l) sent next (lg_text_len l) (lg_text l)
  (lg_anchored l) (lg_expected l) (lg_entries l) (lg_overflow l) (lg_unattested l) (lg_late l).
Definition lset_closed now := mk_ledger (lg_active l) false (lg_rollcall_id l) (lg_initiator_addr l)
  (lg_started_ms l) now (lg_rounds_sent l) (lg_next_round_ms l) (lg_text_len l) (lg_text l)
  (lg_anchored l) (lg_expected l) (lg_entries l) (lg_overflow l) (lg_unattested l) (lg_late l).
Definition lset_entries x := mk_ledger (lg_active l) (lg_open l) (lg_rollcall_id l)
  (lg_initiator_addr l) (lg_started_ms l) (lg_closed_ms l) (lg_rounds_sent l) (lg_next_round_ms l)
  (lg_text_len l) (lg_text l) (lg_anchored l) (lg_expected l) x (lg_overflow l) (lg_unattested l)
  (lg_late l).
Definition lset_counts overflow unattested late := mk_ledger (lg_active l) (lg_open l)
  (lg_rollcall_id l) (lg_initiator_addr l) (lg_started_ms l) (lg_closed_ms l) (lg_rounds_sent l)
  (lg_next_round_ms l) (lg_text_len l) (lg_text l) (lg_anchored l) (lg_expected l) (lg_entries l)
  overflow unattested late.
End LedgerSetters.

(** [None]: an access outside a buffer; the flag is the return value. *)
Definition rollcall_ledger_start (l : rollcall_ledger_t) (rollcall_id initiator_addr now_ms : Z)
    (text : list Z) (text_len : Z) (expected : list Z) (anchored : bool)
    : option (bool * rollcall_ledger_t) :=
  if rollcall_id =? 0 then Some (false, l)
  else if text_len >? Z.of_nat ROLLCALL_TEXT_MAX then Some (false, l)
  else
    bytes ← rdn text 0 (Z.to_nat text_len);
    buf ← wr (replicate (ROLLCALL_TEXT_MAX + 1) 0) 0 bytes;
    buf ← wr buf (Z.to_nat text_len) [0];
    let certified := anchored && (0 <? length expected)%nat in
    let kept := filter (λ a, a ≠ 0 ∧ a ≠ initiator_addr) (take ROLLCALL_MAX_EXPECTED expected) in
    Some (true, mk_ledger true true rollcall_id initiator_addr now_ms 0 0 now_ms text_len buf
                  certified (if certified then kept else []) (table_init ROLLCALL_MAX_RESPONDERS entry_zero)
                  0 0 0).

Definition rollcall_ledger_note_round (l : rollcall_ledger_t) (round now_ms : Z)
    : Z * rollcall_ledger_t :=
  if negb (lg_active l) then (0, l)
  else
    let delay := rollcall_round_delay_ms round in
    let next := if delay =? 0 then 0 else now_ms ⊕ delay in
    (next, lset_rounds l round next).
Definition rollcall_ledger_round_due (l : rollcall_ledger_t) (now_ms : Z) : bool :=
  if negb (lg_active l) || negb (lg_open l) then false
  else if lg_rounds_sent l >=? ROLLCALL_MAX_ROUNDS then false
  else if (lg_rounds_sent l >? 0) && (lg_next_round_ms l =? 0) then false
  else i32 (now_ms ⊖ lg_next_round_ms l) >=? 0.
Definition rollcall_ledger_close_at (l : rollcall_ledger_t) : Z :=
  if negb (lg_active l) then 0 else lg_started_ms l ⊕ rollcall_window_ms.
Definition rollcall_ledger_maybe_close (l : rollcall_ledger_t) (now_ms : Z) : bool * rollcall_ledger_t :=
  if negb (lg_active l) || negb (lg_open l) then (false, l)
  else if i32 (now_ms ⊖ rollcall_ledger_close_at l) <? 0 then (false, l)
  else (true, lset_closed l now_ms).

Definition row_for (addr : Z) (e : rollcall_entry_t) : bool := re_used e && (re_addr e =? addr).
Definition entry_find (es : ctable rollcall_entry_t) (addr : Z) : option nat :=
  find_index (row_for addr) (live es).
(** The row of [addr], an unused one or, for an answer, one that holds a path only. *)
Definition entry_upsert (es : ctable rollcall_entry_t) (addr : Z) (for_response : bool)
    : option (nat * ctable rollcall_entry_t) :=
  match entry_find es addr with
  | Some i => Some (i, es)
  | None =>
      if (count es <? ROLLCALL_MAX_RESPONDERS)%nat then Some (count es, tpush es (entry_fresh addr))
      else if negb for_response then None
      else match find_index (λ e, re_used e && negb (re_responded e)) (live es) with
           | Some i => Some (i, tset es i (entry_fresh addr))
           | None => None
           end
  end.

Definition responded (e : rollcall_entry_t) (round now_ms : Z) : rollcall_entry_t :=
  mk_entry (re_used e) (re_addr e) true now_ms round (re_have_path e) (re_hop_count e) (re_relay_path e).
Definition rollcall_ledger_note_response (l : rollcall_ledger_t) (rollcall_id responder_addr round now_ms : Z)
    : bool * rollcall_ledger_t :=
  if negb (lg_active l) then (false, l)
  else if negb (rollcall_id =? lg_rollcall_id l) then (false, l)
  else if (responder_addr =? 0) || (responder_addr =? lg_initiator_addr l) then (false, l)
  else if negb (lg_open l)
  then (false, lset_counts l (lg_overflow l) (lg_unattested l) (u32 (lg_late l + 1)))
  else
    match entry_upsert (lg_entries l) responder_addr true with
    | None => (false, lset_counts l (u32 (lg_overflow l + 1)) (lg_unattested l) (lg_late l))
    | Some (i, es) =>
        let e := entries es !!! i in
        if re_responded e then (true, lset_entries l es)
        else (true, lset_entries l (tset es i (responded e round now_ms)))
    end.
Definition rollcall_ledger_note_unattested (l : rollcall_ledger_t) : rollcall_ledger_t :=
  if negb (lg_active l) then l
  else lset_counts l (lg_overflow l) (u32 (lg_unattested l + 1)) (lg_late l).
(** [relay_path] has at least [hop_count] entries, up to the limit. *)
Definition with_path (e : rollcall_entry_t) (n : Z) (relay_path : list Z) : rollcall_entry_t :=
  mk_entry (re_used e) (re_addr e) (re_responded e) (re_responded_at_ms e) (re_round e) true n
    (filled (take (Z.to_nat n) relay_path) (replicate ROLLCALL_PATH_MAX 0)).
Definition rollcall_ledger_note_path (l : rollcall_ledger_t) (rollcall_id responder_addr : Z)
    (responder_pinned : bool) (hop_count : Z) (relay_path : list Z) : bool * rollcall_ledger_t :=
  if negb (lg_active l) || negb (lg_open l) then (false, l)
  else if negb (rollcall_id =? lg_rollcall_id l) then (false, l)
  else if (responder_addr =? 0) || (responder_addr =? lg_initiator_addr l) then (false, l)
  else
    match (if responder_pinned then entry_upsert (lg_entries l) responder_addr false
           else i ← entry_find (lg_entries l) responder_addr; Some (i, lg_entries l)) with
    | None => (false, l)
    | Some (i, es) =>
        let n := if hop_count >? Z.of_nat ROLLCALL_PATH_MAX then Z.of_nat ROLLCALL_PATH_MAX else hop_count in
        (true, lset_entries l (tset es i (with_path (entries es !!! i) n relay_path)))
    end.

Definition rollcall_ledger_find (l : rollcall_ledger_t) (addr : Z) : option rollcall_entry_t :=
  if negb (lg_active l) then None
  else i ← entry_find (lg_entries l) addr; live (lg_entries l) !! i.
Definition rollcall_ledger_responded_count (l : rollcall_ledger_t) : Z :=
  if negb (lg_active l) then 0
  else foldl (λ n e, if re_used e && re_responded e then u8 (n + 1) else n) 0 (live (lg_entries l)).
(** The addresses, of which the caller's array takes the first [out_cap], and their number. *)
Definition answered (l : rollcall_ledger_t) (addr : Z) : bool :=
  match rollcall_ledger_find l addr with Some e => re_responded e | None => false end.
Definition rollcall_ledger_missing (l : rollcall_ledger_t) (out_cap : nat) : Z * list Z :=
  if negb (lg_active l) || negb (lg_anchored l) then (0, [])
  else
    let missing := filter (λ a, answered l a = false) (lg_expected l) in
    (u8 (Z.of_nat (length missing)), take out_cap missing).
