(* ===== verification/RollcallSpec.v ===== *)
(** * The roll-call core: what its tables promise

    The answer budget never lets a thirteenth answer into one hour, whatever the
    clock does; the ledger is the list of first answers, paths never cost one its
    row, and the missing are the expected who did not answer; the codecs are
    inverse to each other. *)

From stdpp Require Import base strings numbers sets option decidable list.
From Stdlib Require Import Sorting.Sorted.
From S2P Require Import Prelude Tables Packet PacketSpec NetworkKey RoutingAuth ParkedRetry Rollcall.

(** ** Counting *)

Definition cnt {A} (f : A → bool) (l : list A) : nat := length (filter (λ x, f x = true) l).

Lemma cnt_cons {A} (f : A → bool) x l : cnt f (x :: l) = ((if f x then 1 else 0) + cnt f l)%nat.
Proof. unfold cnt. rewrite filter_cons. destruct (f x); case_decide; cbn; congruence || lia. Qed.
Lemma cnt_le {A} (f : A → bool) l : (cnt f l ≤ length l)%nat.
Proof. apply length_filter. Qed.
Lemma cnt_mono {A} (f g : A → bool) l :
  (∀ x, x ∈ l → f x = true → g x = true) → (cnt f l ≤ cnt g l)%nat.
Proof.
  induction l as [|x l IH]; intros H; [done|]. rewrite !cnt_cons.
  specialize (IH (λ y Hy, H y (list_elem_of_further _ _ _ Hy))).
  pose proof (H x (list_elem_of_here _ _)). destruct (f x), (g x); naive_solver lia.
Qed.
Lemma cnt_all {A} (f : A → bool) l : Forall (λ x, f x = true) l → cnt f l = length l.
Proof. induction 1 as [|x l Hx _ IH]; [done|]. rewrite cnt_cons, IH, Hx. done. Qed.
Lemma cnt_ext {A} (f g : A → bool) l : (∀ x, x ∈ l → f x = g x) → cnt f l = cnt g l.
Proof. intros H. apply Nat.le_antisymm; apply cnt_mono; intros x Hx; by rewrite (H x Hx). Qed.
Lemma cnt_insert {A} (f : A → bool) l i x y :
  l !! i = Some x →
  (cnt f (<[i := y]> l) + (if f x then 1 else 0) = cnt f l + (if f y then 1 else 0))%nat.
Proof.
  revert i; induction l as [|z l IH]; intros [|i]; [done|done|intros [= ->]|].
  - change (<[0%nat := y]> (x :: l)) with (y :: l). rewrite !cnt_cons. lia.
  - change ((z :: l) !! S i) with (l !! i). change (<[S i := y]> (z :: l)) with (z :: <[i := y]> l).
    intros H. specialize (IH i H). rewrite !cnt_cons. lia.
Qed.
Lemma cnt_foldl {A} (f : A → bool) l n :
  0 ≤ n → n + Z.of_nat (length l) < 256 →
  foldl (λ n s, if f s then u8 (n + 1) else n) n l = n + Z.of_nat (cnt f l).
Proof.
  revert n; induction l as [|x l IH]; intros n H0 Hn; [cbn; lia|].
  cbn [foldl length] in *. rewrite cnt_cons. destruct (f x).
  - rewrite (u8_id (n + 1)) by (cint_unfold; lia). rewrite IH; lia.
  - rewrite IH; lia.
Qed.

(** The slot picked is there and no other is older. *)
Lemma oldest_slot_spec {A} (age : A → Z) (l : list A) :
  l ≠ [] → (∀ x, 0 ≤ age x) →
  ∃ x, l !! oldest_slot age l = Some x ∧ ∀ y, y ∈ l → age y ≤ age x.
Proof.
  intros Hl Hage. unfold oldest_slot.
  set (step := λ '(slot, oldest, i) x, if age x >=? oldest then (i, age x, S i) else (slot, oldest, S i)).
  assert (H : ∀ l' pre slot oldest, length pre ≠ 0%nat →
    (∃ x, pre !! slot = Some x ∧ age x = oldest ∧ ∀ y, y ∈ pre → age y ≤ oldest) →
    let r := foldl step (slot, oldest, length pre) l' in
    ∃ x, (pre ++ l') !! r.1.1 = Some x ∧ ∀ y, y ∈ pre ++ l' → age y ≤ age x).
  { induction l' as [|z l' IH]; intros pre slot oldest Hp (x & Hx & Ho & Hall).
    - cbn. rewrite app_nil_r. exists x. split; [done|]. intros y Hy. rewrite Ho. auto.
    - cbn [foldl]. replace (pre ++ z :: l') with ((pre ++ [z]) ++ l') by (by rewrite <- app_assoc).
      assert (Hlen : S (length pre) = length (pre ++ [z])) by (rewrite length_app; cbn; lia).
      unfold step at 2. destruct (age z >=? oldest) eqn:E; conds; rewrite Hlen; apply IH.
      + rewrite length_app; cbn; lia.
      + exists z. split; [|split; [done|]].
        * rewrite lookup_app_r by lia. by rewrite Nat.sub_diag.
        * intros y [Hy|Hy%list_elem_of_singleton]%elem_of_app; [specialize (Hall y Hy); lia|subst; lia].
      + rewrite length_app; cbn; lia.
      + exists x. split; [by apply lookup_app_l_Some|split; [done|]].
        intros y [Hy|Hy%list_elem_of_singleton]%elem_of_app; [auto|subst; lia]. }
  destruct l as [|z l]; [done|]. cbn [foldl]. unfold step at 2.
  assert (E : (age z >=? 0) = true) by (apply Z.geb_le; apply Hage). rewrite E.
  apply (H l [z] 0%nat (age z)); [done|]. exists z. split; [done|]. split; [done|].
  intros y Hy%list_elem_of_singleton. by subst.
Qed.

(** ** The answer budget *)

Definition W : Z := ROLLCALL_ANSWER_WINDOW_MS.
(** Answers noted at the real times [ts], of which the code sees 32 bits. *)
Definition budget_after (ts : list Z) : rollcall_answer_budget_t :=
  foldl (λ b t, rollcall_answer_budget_note b (u32 t)) rollcall_answer_budget_init ts.
Definition answers_within_hour (ts : list Z) (now : Z) : nat := cnt (λ t, now - t <? W) ts.

Lemma budget_used_cnt b now :
  length b = ROLLCALL_ANSWER_MAX_PER_HOUR →
  rollcall_answer_budget_used b now = Z.of_nat (cnt (in_answer_window now) b).
Proof.
  intros Hb. unfold rollcall_answer_budget_used. rewrite cnt_foldl; [done|lia|].
  rewrite Hb. done.
Qed.
Lemma answer_age_real now s : answer_age (u32 now) s = u32 (now - ab_at_ms s).
Proof. unfold answer_age. cint. Qed.

(** [d] milliseconds after [now] the slots still show every answer that is then
    in the hour, up to the twelve they can hold. *)
Definition counted (t d : Z) (s : answer_slot) : bool := ab_used s && (u32 (t - ab_at_ms s) + d <? W).
Definition budget_inv (b : rollcall_answer_budget_t) (hist : list Z) (t : Z) : Prop :=
  length b = ROLLCALL_ANSWER_MAX_PER_HOUR ∧ Forall (λ h, h ≤ t) hist ∧
  ∀ d, 0 ≤ d →
    (ROLLCALL_ANSWER_MAX_PER_HOUR `min` answers_within_hour hist (t + d) ≤ cnt (counted t d) b)%nat.

Lemma budget_inv_init t : budget_inv rollcall_answer_budget_init [] t.
Proof. split; [done|]. split; [constructor|]. intros d _. cbn. lia. Qed.
Lemma budget_inv_wait b hist t t' : t ≤ t' → budget_inv b hist t → budget_inv b hist t'.
Proof.
  intros Ht (Hb & Hh & H). split; [done|]. split; [eapply Forall_impl; [done|]; cbn; lia|].
  intros d Hd. specialize (H (t' - t + d) ltac:(lia)).
  replace (t + (t' - t + d)) with (t' + d) in H by lia. etransitivity; [apply H|].
  apply cnt_mono. intros s _. unfold counted.
  intros [Hu Ha]%andb_true_iff. conds. rewrite Hu. cbn [andb]. apply Z.ltb_lt.
  unfold W, ROLLCALL_ANSWER_WINDOW_MS in *. revert Ha. cint.
Qed.
Lemma hist_cons hist t d :
  0 ≤ d → answers_within_hour (t :: hist) (t + d) =
  ((if (d <? W)%Z then 1 else 0) + answers_within_hour hist (t + d))%nat.
Proof.
  intros Hd. unfold answers_within_hour. rewrite cnt_cons. by replace (t + d - t) with d by lia.
Qed.
Lemma counted_new t d : counted t d (mk_answer true (u32 t)) = (d <? W).
Proof. unfold counted. cbn. by replace (u32 (t - u32 t)) with 0 by cint. Qed.

Lemma budget_inv_note b hist t :
  budget_inv b hist t → budget_inv (rollcall_answer_budget_note b (u32 t)) (t :: hist) t.
Proof.
  intros (Hb & Hh & H). unfold rollcall_answer_budget_note.
  assert (Hkey : ∃ i x, b !! i = Some x ∧
    (match find_index (λ s, negb (ab_used s) || (answer_age (u32 t) s >=? ROLLCALL_ANSWER_WINDOW_MS)) b with
     | Some i => i | None => oldest_slot (answer_age (u32 t)) b end) = i ∧
    ∀ d, 0 ≤ d → counted t d x = true → cnt (counted t d) b = length b).
  { destruct (find_index _ b) as [i|] eqn:E.
    - apply find_index_Some in E as (x & Hx & Hf & _). exists i, x. split; [done|]. split; [done|].
      intros d Hd. unfold counted. rewrite answer_age_real in Hf.
      intros [Hu Ha]%andb_true_iff. rewrite Hu in Hf. cbn [negb orb] in Hf. conds. unfold W in *. lia.
    - apply find_index_None in E.
      destruct (oldest_slot_spec (answer_age (u32 t)) b) as (x & Hx & Hmax).
      { by destruct b. } { intros s. unfold answer_age. cint. }
      exists (oldest_slot (answer_age (u32 t)) b), x. split; [done|]. split; [done|].
      intros d Hd [_ Ha]%andb_true_iff. apply cnt_all, list.Forall_forall. intros s Hs.
      rewrite list.Forall_forall in E. specialize (E s Hs). specialize (Hmax s Hs).
      apply orb_false_iff in E as [E _]. rewrite !answer_age_real in Hmax. conds.
      unfold counted. rewrite E. cbn [andb]. apply Z.ltb_lt. lia. }
  destruct Hkey as (i & x & Hx & -> & Hfull). split; [by rewrite length_insert|].
  split; [by constructor; [lia|]|]. intros d Hd. specialize (H d Hd). specialize (Hfull d Hd).
  rewrite hist_cons by done.
  pose proof (cnt_insert (counted t d) b i x (mk_answer true (u32 t)) Hx) as E.
  rewrite counted_new in E. destruct (counted t d x) eqn:Ex.
  - rewrite Hfull in E by done. destruct (d <? W) eqn:Ed; conds; [lia|].
    unfold counted in Ex. apply andb_true_iff in Ex as [_ Ex]. conds.
    pose proof (u32_range (t - ab_at_ms x)) as Hr. cint_unfold. lia.
  - lia.
Qed.

(** Every slot is one of the answers. *)
Definition budget_sub (b : rollcall_answer_budget_t) (hist : list Z) : Prop :=
  ∀ f, (cnt (λ s, ab_used s && f (ab_at_ms s)) b ≤ cnt (λ h, f (u32 h)) hist)%nat.
Lemma budget_sub_note b hist t :
  length b = ROLLCALL_ANSWER_MAX_PER_HOUR →
  budget_sub b hist → budget_sub (rollcall_answer_budget_note b (u32 t)) (t :: hist).
Proof.
  intros Hb H f. unfold rollcall_answer_budget_note.
  match goal with |- context [<[?j := _]> b] => set (i := j) end.
  rewrite cnt_cons. specialize (H f). destruct (b !! i) as [x|] eqn:Hx.
  - pose proof (cnt_insert (λ s, ab_used s && f (ab_at_ms s)) b i x (mk_answer true (u32 t)) Hx) as E.
    cbn in E. destruct (f (u32 t)); lia.
  - rewrite list_insert_ge by (by apply lookup_ge_None). lia.
Qed.

Lemma budget_after_inv ts : ∀ hist b t,
  budget_inv b hist t → budget_sub b hist → StronglySorted Z.le (t :: ts) →
  let b' := foldl (λ b t, rollcall_answer_budget_note b (u32 t)) b ts in
  let t' := default t (last ts) in
  budget_inv b' (rev ts ++ hist) t' ∧ budget_sub b' (rev ts ++ hist).
Proof.
  induction ts as [|t1 ts IH]; intros hist b t Hi Hs Hsort; [done|].
  cbn [foldl rev]. rewrite <- app_assoc. cbn [app].
  apply StronglySorted_inv in Hsort as [Hsort Hle]. inv_Forall.
  pose proof (budget_inv_wait b hist t t1 ltac:(lia) Hi) as Hi1.
  assert (E : default t (last (t1 :: ts)) = default t1 (last ts)).
  { rewrite last_cons. by destruct (last ts). }
  cbv zeta. rewrite E. apply IH; [by apply budget_inv_note| |done]. apply budget_sub_note; [apply Hi|done].
Qed.

Lemma cnt_perm {A} (f : A → bool) l l' : l ≡ₚ l' → cnt f l = cnt f l'.
Proof. intros H. unfold cnt. by rewrite H. Qed.

(** C25. A member's airtime for roll-calls is bounded: whenever the budget allows
    another answer, fewer than twelve were noted within the last hour, however they
    were noted and across any number of wraps of the 32-bit clock; and until the
    clock first wraps the budget refuses only when twelve really were. *)
Theorem answers_bounded ts now :
  StronglySorted Z.le (0 :: ts) → Forall (λ t, t ≤ now) ts →
  (rollcall_answer_budget_allow (budget_after ts) (u32 now) = true →
   (answers_within_hour ts now < ROLLCALL_ANSWER_MAX_PER_HOUR)%nat) ∧
  (now < 2 ^ 32 →
   rollcall_answer_budget_allow (budget_after ts) (u32 now) =
   (answers_within_hour ts now <? ROLLCALL_ANSWER_MAX_PER_HOUR)%nat).
Proof.
  intros Hsort Hnow.
  destruct (budget_after_inv ts [] rollcall_answer_budget_init 0 (budget_inv_init 0)
    (λ f, Nat.le_0_l _) Hsort) as [Hi Hs]. rewrite app_nil_r in Hi, Hs. fold (budget_after ts) in Hi, Hs.
  assert (H0 : 0 ≤ now ∨ ts = []).
  { destruct ts as [|t ts]; [by right|left]. apply StronglySorted_inv in Hsort as [_ H]. inv_Forall. lia. }
  assert (Hlast : default 0 (last ts) ≤ now ∨ ts = []).
  { destruct (last ts) as [t|] eqn:E; [left|right; by apply last_None].
    cbn. rewrite list.Forall_forall in Hnow. apply Hnow. by apply last_Some_elem_of. }
  assert (Hinv : budget_inv (budget_after ts) (rev ts) now).
  { destruct Hlast as [Hlast| ->]; [by eapply budget_inv_wait|apply budget_inv_init]. }
  destruct Hinv as (Hb & _ & Hcnt). specialize (Hcnt 0 ltac:(lia)). rewrite Z.add_0_r in Hcnt.
  unfold answers_within_hour in Hcnt |- *. rewrite (cnt_perm _ (rev ts) ts) in Hcnt by (symmetry; apply Permutation_rev).
  unfold rollcall_answer_budget_allow. rewrite budget_used_cnt by done.
  assert (Hw : cnt (in_answer_window (u32 now)) (budget_after ts) = cnt (counted now 0) (budget_after ts)).
  { apply cnt_ext. intros s _. unfold in_answer_window, counted. by rewrite answer_age_real, Z.add_0_r. }
  rewrite Hw. split.
  - intros H%Z.ltb_lt. lia.
  - intros Hn. assert (Hup : (cnt (counted now 0) (budget_after ts) ≤ cnt (λ t, (now - t <? W)%Z) ts)%nat).
    { specialize (Hs (λ a, u32 (now - a) + 0 <? W)). etransitivity; [apply Hs|].
      rewrite (cnt_perm _ (rev ts) ts) by (symmetry; apply Permutation_rev).
      apply cnt_mono. intros t Ht H%Z.ltb_lt. apply Z.ltb_lt.
      rewrite list.Forall_forall in Hnow. specialize (Hnow t Ht).
      apply StronglySorted_inv in Hsort as [_ Hpos]. rewrite list.Forall_forall in Hpos. specialize (Hpos t Ht).
      revert H. change (2 ^ 32) with 4294967296 in Hn. cint. }
    destruct (Nat.ltb_spec (cnt (λ t, (now - t <? W)%Z) ts) ROLLCALL_ANSWER_MAX_PER_HOUR).
    + apply Z.ltb_lt. unfold ROLLCALL_ANSWER_MAX_PER_HOUR in *. lia.
    + apply Z.ltb_ge. unfold ROLLCALL_ANSWER_MAX_PER_HOUR in *. lia.
Qed.

(** ** The ledger

    What the initiator promises to keep: the first answer of each member, in an
    open roll-call, up to the capacity. *)

Abbreviation answer := (Z * Z * Z)%type.
Definition answer_of (e : rollcall_entry_t) : answer := (re_addr e, re_round e, re_responded_at_ms e).
Definition answer_rows (es : list rollcall_entry_t) : list answer :=
  answer_of <$> filter (λ e, re_responded e = true) es.
Definition answers (l : rollcall_ledger_t) : list answer := answer_rows (live (lg_entries l)).
Definition who (a : answer) : Z := a.1.1.

Record roll := mk_roll { ro_open : bool; ro_log : list answer; ro_overflow : Z; ro_late : Z }.

Inductive ledger_op :=
  | LAnswer (id addr round now : Z)
  | LUnattested
  | LPath (id addr : Z) (pinned : bool) (hops : Z) (path : list Z)
  | LRound (round now : Z)
  | LClose (now : Z).
Definition ledger_step (l : rollcall_ledger_t) (op : ledger_op) : bool * rollcall_ledger_t :=
  match op with
  | LAnswer id addr round now => rollcall_ledger_note_response l id addr round now
  | LUnattested => (true, rollcall_ledger_note_unattested l)
  | LPath id addr pinned hops path => (true, (rollcall_ledger_note_path l id addr pinned hops path).2)
  | LRound round now => (true, (rollcall_ledger_note_round l round now).2)
  | LClose now => rollcall_ledger_maybe_close l now
  end.

Section Roll.
Context (id initiator started : Z).
Definition window_over (now : Z) : bool := negb (i32 (now ⊖ (started ⊕ 135000)) <? 0).
Definition roll_step (a : roll) (op : ledger_op) : bool * roll :=
  match op with
  | LAnswer id' addr round now =>
      if negb (id' =? id) || (addr =? 0) || (addr =? initiator) then (false, a)
      else if negb (ro_open a) then (false, mk_roll false (ro_log a) (ro_overflow a) (u32 (ro_late a + 1)))
      else if bool_decide (addr ∈ who <$> ro_log a) then (true, a)
      else if (length (ro_log a) <? ROLLCALL_MAX_RESPONDERS)%nat
      then (true, mk_roll true (ro_log a ++ [(addr, round, now)]) (ro_overflow a) (ro_late a))
      else (false, mk_roll true (ro_log a) (u32 (ro_overflow a + 1)) (ro_late a))
  | LClose now =>
      if ro_open a && window_over now then (true, mk_roll false (ro_log a) (ro_overflow a) (ro_late a))
      else (false, a)
  | _ => (true, a)
  end.

(** The table part of the invariant, then the ledger with its abstract state. *)
Definition rows_ok (es : ctable rollcall_entry_t) : Prop :=
  table_wf ROLLCALL_MAX_RESPONDERS es ∧ Forall (λ e, re_used e = true) (live es) ∧
  NoDup (re_addr <$> live es).
Definition ledger_rep (l : rollcall_ledger_t) (a : roll) : Prop :=
  lg_active l = true ∧ lg_rollcall_id l = id ∧ lg_initiator_addr l = initiator ∧
  lg_started_ms l = started ∧ lg_open l = ro_open a ∧ lg_overflow l = ro_overflow a ∧
  lg_late l = ro_late a ∧ rows_ok (lg_entries l) ∧ answers l ≡ₚ ro_log a.
End Roll.

Lemma answer_rows_insert es i e e' :
  es !! i = Some e → re_responded e = false → re_responded e' = true →
  answer_rows (<[i := e']> es) ≡ₚ answer_rows es ++ [answer_of e'].
Proof.
  intros Hi He He'. unfold answer_rows. rewrite (insert_take_drop es i e') by (by eapply lookup_lt_Some).
  rewrite <- (take_drop_middle es i e Hi) at 3. rewrite !filter_app, !filter_cons.
  rewrite (decide_True _ _ He'), decide_False by congruence. rewrite !fmap_app, fmap_cons.
  rewrite <- app_assoc. apply Permutation_app_head. by rewrite Permutation_cons_append.
Qed.
Lemma answer_rows_same es i e e' :
  es !! i = Some e → re_responded e' = re_responded e → (re_responded e = true → answer_of e' = answer_of e) →
  answer_rows (<[i := e']> es) = answer_rows es.
Proof.
  intros Hi He Ha. unfold answer_rows. rewrite (insert_take_drop es i e') by (by eapply lookup_lt_Some).
  rewrite <- (take_drop_middle es i e Hi) at 3. rewrite !filter_app, !filter_cons, He.
  case_decide; rewrite !fmap_app; [rewrite !fmap_cons, Ha by done|]; done.
Qed.
Lemma addrs_insert_same (es : list rollcall_entry_t) i e e' :
  es !! i = Some e → re_addr e' = re_addr e → re_addr <$> <[i := e']> es = re_addr <$> es.
Proof. intros Hi Ha. rewrite list_fmap_insert. apply list_insert_id. by rewrite list_lookup_fmap, Hi, Ha. Qed.
Lemma length_answer_rows es : length (answer_rows es) = cnt re_responded es.
Proof. unfold answer_rows, cnt. by rewrite length_fmap. Qed.
Lemma cnt_lt {A} (f : A → bool) l x : x ∈ l → f x = false → (cnt f l < length l)%nat.
Proof.
  intros Hx Hf. induction l as [|y l IH]; [by apply not_elem_of_nil in Hx|]. rewrite cnt_cons.
  pose proof (cnt_le f l). apply elem_of_cons in Hx as [->|Hx].
  - rewrite Hf. cbn. lia.
  - specialize (IH Hx). cbn. destruct (f y); lia.
Qed.

Lemma entry_find_Some es addr i :
  rows_ok es → entry_find es addr = Some i →
  ∃ e, live es !! i = Some e ∧ entries es !!! i = e ∧ re_addr e = addr ∧ re_used e = true.
Proof.
  intros (Hwf & _ & _) (e & Hi & Hf & _)%find_index_Some. exists e. split; [done|].
  pose proof (lookup_lt_Some _ _ _ Hi) as Hlt. rewrite (length_live _ _ Hwf) in Hlt.
  rewrite (live_lookup _ _ _ Hwf Hlt) in Hi. injection Hi as Hi. split; [done|].
  unfold row_for in Hf. apply andb_true_iff in Hf as [? ?]. conds. done.
Qed.
Lemma entry_find_None es addr : rows_ok es → entry_find es addr = None → addr ∉ (re_addr <$> live es).
Proof.
  intros (_ & Hu & _) H%find_index_None (e & -> & He)%list_elem_of_fmap.
  rewrite list.Forall_forall in H, Hu. specialize (H e He). specialize (Hu e He).
  unfold row_for in H. by rewrite Hu, Z.eqb_refl in H.
Qed.
Lemma answered_in es addr : addr ∈ who <$> answer_rows es → addr ∈ re_addr <$> es.
Proof.
  intros (a & -> & (e & -> & [_ He]%list_elem_of_filter)%list_elem_of_fmap)%list_elem_of_fmap.
  apply list_elem_of_fmap. by exists e.
Qed.
(** With one row per address, a row that did not answer shows the address did not. *)
Lemma unanswered_row es i e :
  NoDup (re_addr <$> es) → es !! i = Some e → re_responded e = false → re_addr e ∉ who <$> answer_rows es.
Proof.
  intros Hnd Hi He (a & Ha & (e' & -> & [Hr Hin]%list_elem_of_filter)%list_elem_of_fmap)%list_elem_of_fmap.
  apply list_elem_of_lookup in Hin as [j Hj]. cbn in Ha.
  assert (i = j) as ->; [|congruence].
  eapply NoDup_lookup; [done| |]; rewrite list_lookup_fmap; [by rewrite Hi|by rewrite Hj, Ha].
Qed.

(** The rows an upsert offers: the address's own row, or a fresh one in a place no answer holds. *)
Lemma entry_upsert_spec es addr b :
  rows_ok es →
  match entry_upsert es addr b with
  | Some (i, es') =>
      ∃ e, live es' !! i = Some e ∧ entries es' !!! i = e ∧ re_addr e = addr ∧ re_used e = true ∧
        rows_ok es' ∧ answer_rows (live es') = answer_rows (live es) ∧
        (re_responded e = true → es' = es)
  | None => (addr ∉ (re_addr <$> live es)) ∧ length (live es) = ROLLCALL_MAX_RESPONDERS ∧
            (b = true → Forall (λ e, re_responded e = true) (live es))
  end.
Proof.
  intros Hok. pose proof Hok as (Hwf & Hu & Hnd). unfold entry_upsert.
  destruct (entry_find es addr) as [i|] eqn:E.
  { destruct (entry_find_Some es addr i Hok E) as (e & ? & ? & ? & ?). exists e. done. }
  pose proof (entry_find_None es addr Hok E) as Hnew.
  destruct (Nat.ltb_spec (count es) ROLLCALL_MAX_RESPONDERS) as [Hc|Hc].
  { pose proof (live_tpush _ es (entry_fresh addr) Hwf Hc) as Hl.
    assert (Hi : live (tpush es (entry_fresh addr)) !! count es = Some (entry_fresh addr)).
    { rewrite Hl, lookup_app_r, (length_live _ _ Hwf), Nat.sub_diag by (by rewrite (length_live _ _ Hwf)). done. }
    exists (entry_fresh addr). split; [done|]. split.
    { pose proof (tpush_wf _ es (entry_fresh addr) Hwf Hc) as Hwf'.
      assert (Hlt : (count es < count (tpush es (entry_fresh addr)))%nat) by (cbn; lia).
      rewrite (live_lookup _ _ _ Hwf' Hlt) in Hi. congruence. }
    split; [done|]. split; [done|]. split; [|split; [|done]].
    - split; [by apply tpush_wf|]. rewrite Hl. split; [by apply Forall_app_2; [|repeat constructor]|].
      rewrite fmap_app. apply NoDup_app. split; [done|]. split; [|apply NoDup_singleton].
      intros a Ha Hin%list_elem_of_singleton. cbn in Hin. by subst.
    - rewrite Hl. unfold answer_rows. rewrite filter_app, filter_cons, decide_False by done. cbn.
      by rewrite app_nil_r. }
  assert (Hfull : length (live es) = ROLLCALL_MAX_RESPONDERS).
  { rewrite (length_live _ _ Hwf). destruct Hwf. lia. }
  destruct b; cbn [negb]; [|done].
  destruct (find_index _ (live es)) as [i|] eqn:F.
  - apply find_index_Some in F as (e & Hi & [Hue Hre]%andb_true_iff & _). apply negb_true_iff in Hre.
    assert (Hlt : (i < count es)%nat) by (rewrite <- (length_live _ _ Hwf); by eapply lookup_lt_Some).
    exists (entry_fresh addr). rewrite live_tset, list_lookup_insert_eq by (by eapply lookup_lt_Some).
    split; [done|]. split.
    { cbn. apply list_lookup_total_correct, list_lookup_insert_eq. destruct Hwf. lia. }
    split; [done|]. split; [done|]. split; [|split; [|done]].
    + split; [by apply tset_wf|]. rewrite live_tset. split; [by apply Forall_insert|].
      rewrite list_fmap_insert. cbn.
      rewrite (insert_take_drop _ i addr) by (rewrite length_fmap; by eapply lookup_lt_Some).
      assert (Hi' : (re_addr <$> live es) !! i = Some (re_addr e)) by (by rewrite list_lookup_fmap, Hi).
      rewrite <- (take_drop_middle _ i _ Hi') in Hnd, Hnew. revert Hnd Hnew.
      rewrite <- !Permutation_middle. rewrite !NoDup_cons, not_elem_of_cons. naive_solver.
    + apply answer_rows_same with e; [done|by rewrite Hre|by rewrite Hre].
  - split; [done|]. split; [done|]. intros _. apply find_index_None in F.
    apply list.Forall_forall. intros e He. rewrite list.Forall_forall in F, Hu.
    specialize (F e He). rewrite (Hu e He) in F. cbn in F. by apply negb_false_iff in F.
Qed.

Lemma rows_ok_tset es i e e' :
  rows_ok es → live es !! i = Some e → re_addr e' = re_addr e → re_used e' = true → rows_ok (tset es i e').
Proof.
  intros (Hwf & Hu & Hnd) Hi Ha Hue. split; [by apply tset_wf|]. rewrite live_tset. split.
  - by apply Forall_insert.
  - by rewrite (addrs_insert_same _ _ e).
Qed.

Section Refinement.
Context (id initiator started : Z).
Local Abbreviation rep := (ledger_rep id initiator started).

Lemma rep_entries l a es log :
  rep l a → rows_ok es → answer_rows (live es) ≡ₚ log →
  rep (lset_entries l es) (mk_roll (ro_open a) log (ro_overflow a) (ro_late a)).
Proof. by intros (? & ? & ? & ? & ? & ? & ? & ? & ?) ? ?. Qed.
Lemma rep_counts l a ov un late :
  rep l a → rep (lset_counts l ov un late) (mk_roll (ro_open a) (ro_log a) ov late).
Proof. by intros (? & ? & ? & ? & ? & ? & ? & ? & ?). Qed.

Lemma note_response_refines l a addr round now :
  rep l a →
  let '(r, l') := rollcall_ledger_note_response l id addr round now in
  let '(r', a') := roll_step id initiator started a (LAnswer id addr round now) in
  r = r' ∧ rep l' a'.
Proof.
  intros Hrep. pose proof Hrep as (Ha & Hid & Hin & Hst & Ho & Hov & Hlt & Hok & Hans).
  unfold rollcall_ledger_note_response, roll_step. rewrite Ha, Hid, Hin, Z.eqb_refl. cbn [negb orb].
  destruct ((addr =? 0) || (addr =? initiator)) eqn:E; [done|].
  rewrite Ho. destruct (ro_open a) eqn:Eo; cbn [negb].
  2: { split; [done|]. rewrite <- Hov, <- Hlt, <- Eo. by apply rep_counts. }
  pose proof (entry_upsert_spec (lg_entries l) addr true Hok) as Hup.
  destruct (entry_upsert (lg_entries l) addr true) as [[i es]|].
  - destruct Hup as (e & Hi & He & Hae & Hue & Hok' & Hrows & Hsame). rewrite He.
    destruct (re_responded e) eqn:Er.
    + rewrite bool_decide_true.
      2: { rewrite <- Hans. unfold answers. rewrite <- Hrows. apply list_elem_of_fmap.
           exists (answer_of e). split; [done|]. apply list_elem_of_fmap. exists e. split; [done|].
           apply list_elem_of_filter. split; [done|]. by eapply list_elem_of_lookup_2. }
      split; [done|]. apply (rep_entries l a es (ro_log a)) in Hrep; [by destruct a|done|by rewrite Hrows].
    + rewrite bool_decide_false.
      2: { rewrite <- Hans. unfold answers. rewrite <- Hrows, <- Hae.
           destruct Hok' as (_ & _ & Hnd). by eapply unanswered_row. }
      assert (Hlen : (length (ro_log a) <? ROLLCALL_MAX_RESPONDERS)%nat = true).
      { apply Nat.ltb_lt. rewrite <- Hans. unfold answers. rewrite <- Hrows, length_answer_rows.
        destruct Hok' as (Hwf & _ & _). eapply Nat.lt_le_trans; [|by apply (table_wf_count_live _ _ Hwf)].
        eapply cnt_lt; [by eapply list_elem_of_lookup_2|done]. }
      rewrite Hlen. split; [done|]. replace (mk_roll true) with (mk_roll (ro_open a)) by (by rewrite Eo).
      apply rep_entries; [done|by apply (rows_ok_tset es i e)|].
      rewrite live_tset, (answer_rows_insert _ i e), Hrows by done. rewrite Hans.
      unfold answer_of. cbn. by rewrite Hae.
  - destruct Hup as (Hnew & Hfull & Hall). rewrite bool_decide_false.
    2: { rewrite <- Hans. intros H%answered_in. by apply Hnew. }
    assert (Hlen : (length (ro_log a) <? ROLLCALL_MAX_RESPONDERS)%nat = false).
    { apply Nat.ltb_ge. rewrite <- Hans. unfold answers. rewrite length_answer_rows, cnt_all by auto. lia. }
    rewrite Hlen, <- Hov, <- Hlt. split; [done|]. replace (mk_roll true) with (mk_roll (ro_open a)) by (by rewrite Eo).
    by apply rep_counts.
Qed.

Lemma note_path_refines l a id' addr pinned hops path :
  rep l a → rep (rollcall_ledger_note_path l id' addr pinned hops path).2 a.
Proof.
  intros Hrep. pose proof Hrep as (Ha & Hid & Hin & Hst & Ho & Hov & Hlt & Hok & Hans).
  unfold rollcall_ledger_note_path. do 3 (split_if; [done|]).
  assert (Hup : match (if pinned then entry_upsert (lg_entries l) addr false
           else i ← entry_find (lg_entries l) addr; Some (i, lg_entries l)) with
    | None => True
    | Some (i, es) => ∃ e, live es !! i = Some e ∧ entries es !!! i = e ∧ re_used e = true ∧ rows_ok es ∧
        answer_rows (live es) = answers l
    end).
  { destruct pinned.
    - pose proof (entry_upsert_spec (lg_entries l) addr false Hok) as Hup.
      destruct (entry_upsert _ _ _) as [[i es]|]; [|done].
      destruct Hup as (e & ? & ? & ? & ? & ? & ? & ?). by exists e.
    - destruct (entry_find (lg_entries l) addr) as [i|] eqn:E; [|done].
      destruct (entry_find_Some _ _ _ Hok E) as (e & ? & ? & ? & ?). by exists e. }
  destruct (if pinned then _ else _) as [[i es]|]; [|done].
  destruct Hup as (e & Hi & He & Hue & Hok' & Hrows). rewrite He.
  cbn [snd]. eapply (rep_entries l a _ (ro_log a)) in Hrep as Hr;
    [destruct a; exact Hr|by apply (rows_ok_tset es i e)|].
  rewrite live_tset, (answer_rows_same _ _ e), Hrows by done. exact Hans.
Qed.

Lemma ledger_step_refines l a op :
  rep l a →
  let '(r, l') := ledger_step l op in
  let '(r', a') := roll_step id initiator started a op in
  r = r' ∧ rep l' a'.
Proof.
  intros Hrep. pose proof Hrep as (Ha & Hid & Hin & Hst & Ho & Hov & Hlt & Hok & Hans).
  destruct op as [id' addr round now| |id' addr pinned hops path|round now|now].
  - destruct (Z.eqb_spec id' id) as [->|Hne].
    + exact (note_response_refines l a addr round now Hrep).
    + cbn [ledger_step roll_step]. unfold rollcall_ledger_note_response. rewrite Ha, Hid.
      apply Z.eqb_neq in Hne. by rewrite Hne.
  - cbn [ledger_step roll_step]. unfold rollcall_ledger_note_unattested. rewrite Ha. split; [done|].
    cbn [negb]. rewrite Hov, Hlt. apply (rep_counts l a (ro_overflow a) (u32 (lg_unattested l + 1)) (ro_late a)) in Hrep.
    by destruct a.
  - split; [done|]. by apply note_path_refines.
  - cbn [ledger_step roll_step]. unfold rollcall_ledger_note_round. rewrite Ha. by split.
  - cbn [ledger_step roll_step]. unfold rollcall_ledger_maybe_close, rollcall_ledger_close_at, window_over.
    rewrite Ha, Hst, Ho. cbn [negb orb]. change rollcall_window_ms with 135000.
    destruct (ro_open a) eqn:Eo; cbn [negb andb]; [|done].
    destruct (i32 _ <? 0); cbn [negb]; [done|]. split; [done|]. by split.
Qed.
End Refinement.

Fixpoint run_ledger (l : rollcall_ledger_t) (ops : list ledger_op) : list bool * rollcall_ledger_t :=
  match ops with
  | [] => ([], l)
  | op :: ops => let '(r, l) := ledger_step l op in let '(rs, l) := run_ledger l ops in (r :: rs, l)
  end.
Fixpoint run_roll (id initiator started : Z) (a : roll) (ops : list ledger_op) : list bool * roll :=
  match ops with
  | [] => ([], a)
  | op :: ops =>
      let '(r, a) := roll_step id initiator started a op in
      let '(rs, a) := run_roll id initiator started a ops in (r :: rs, a)
  end.
Lemma run_refines id initiator started ops : ∀ l a,
  ledger_rep id initiator started l a →
  (run_ledger l ops).1 = (run_roll id initiator started a ops).1 ∧
  ledger_rep id initiator started (run_ledger l ops).2 (run_roll id initiator started a ops).2.
Proof.
  induction ops as [|op ops IH]; intros l a Hrep; [done|]. cbn [run_ledger run_roll].
  pose proof (ledger_step_refines _ _ _ l a op Hrep) as Hs.
  destruct (ledger_step l op) as [r l'], (roll_step _ _ _ a op) as [r' a']. destruct Hs as [-> Hs].
  specialize (IH l' a' Hs). destruct (run_ledger l' ops), (run_roll _ _ _ a' ops). cbn in *.
  by destruct IH as [-> ?].
Qed.

Lemma answered_iff l addr :
  lg_active l = true → rows_ok (lg_entries l) → answered l addr = true ↔ addr ∈ who <$> answers l.
Proof.
  intros Ha Hok. unfold answered, rollcall_ledger_find. rewrite Ha. cbn [negb].
  destruct (entry_find (lg_entries l) addr) as [i|] eqn:E; cbn [mbind option_bind].
  - destruct (entry_find_Some _ _ _ Hok E) as (e & Hi & _ & <- & _). rewrite Hi.
    destruct (re_responded e) eqn:Er; split; try done.
    + intros _. apply list_elem_of_fmap. exists (answer_of e). split; [done|].
      apply list_elem_of_fmap. exists e. split; [done|]. apply list_elem_of_filter.
      split; [done|]. by eapply list_elem_of_lookup_2.
    + intros H. exfalso. revert H. destruct Hok as (_ & _ & Hnd). by eapply unanswered_row.
  - split; [done|]. intros H%answered_in. by apply (entry_find_None _ _ Hok E) in H.
Qed.
(** The expected set a start keeps is small enough for its counters. *)
Lemma started_rep l0 id initiator now text text_len expected anchored l :
  rollcall_ledger_start l0 id initiator now text text_len expected anchored = Some (true, l) →
  ledger_rep id initiator now l (mk_roll true [] 0 0) ∧
  lg_anchored l = anchored && (0 <? length expected)%nat ∧
  (length (lg_expected l) ≤ ROLLCALL_MAX_EXPECTED)%nat ∧
  (lg_anchored l = true →
   lg_expected l = filter (λ a, a ≠ 0 ∧ a ≠ initiator) (take ROLLCALL_MAX_EXPECTED expected)).
Proof.
  unfold rollcall_ledger_start. do 2 (split_if; [discriminate|]).
  destruct (rdn text 0 _) as [bytes|]; [|discriminate]. cbn [mbind option_bind].
  destruct (wr _ 0 bytes) as [buf|]; [|discriminate]. cbn [mbind option_bind].
  destruct (wr buf _ _) as [buf'|]; [|discriminate]. cbn [mbind option_bind]. intros [= <-]. split; [|split; [done|]].
  - split_and!; try done. unfold rows_ok. cbn [lg_entries].
    rewrite live_init. split; [apply table_init_wf|].
    split; constructor.
  - cbn [lg_expected lg_anchored]. split; [|by intros ->].
    split_if; [|cbn; lia]. etransitivity; [apply length_filter|]. rewrite length_take. lia.
Qed.
Lemma run_expected ops : ∀ l,
  lg_expected (run_ledger l ops).2 = lg_expected l ∧ lg_anchored (run_ledger l ops).2 = lg_anchored l.
Proof.
  induction ops as [|op ops IH]; intros l; [done|]. cbn [run_ledger].
  assert (H : lg_expected (ledger_step l op).2 = lg_expected l ∧ lg_anchored (ledger_step l op).2 = lg_anchored l).
  { destruct op; cbn [ledger_step snd].
    - unfold rollcall_ledger_note_response. repeat split_if; try done.
      destruct (entry_upsert _ _ _) as [[??]|]; [|done]. by split_if.
    - unfold rollcall_ledger_note_unattested. by split_if.
    - unfold rollcall_ledger_note_path. do 3 (split_if; [done|]).
      by destruct (if pinned then _ else _) as [[??]|].
    - unfold rollcall_ledger_note_round. by split_if.
    - unfold rollcall_ledger_maybe_close. by repeat split_if. }
  destruct (ledger_step l op) as [r l']. specialize (IH l'). destruct (run_ledger l' ops). cbn in *. intuition congruence.
Qed.

(** The ledger of a roll-call is the list of first answers: every call reports
    and leaves what the abstract log does, whatever paths, rounds, unattested
    answers and repetitions come between; an answer is turned away only from
    oneself, from another roll-call, after the window closed or when twenty-four
    other members answered; the number of answers is the log's and the members
    reported missing are the expected ones that are not in it. *)
Theorem ledger_exact l0 id initiator now text text_len expected anchored l ops cap :
  rollcall_ledger_start l0 id initiator now text text_len expected anchored = Some (true, l) →
  let '(rs, l') := run_ledger l ops in
  let '(rs', a) := run_roll id initiator now (mk_roll true [] 0 0) ops in
  rs = rs' ∧ answers l' ≡ₚ ro_log a ∧ lg_open l' = ro_open a ∧
  lg_overflow l' = ro_overflow a ∧ lg_late l' = ro_late a ∧
  rollcall_ledger_responded_count l' = Z.of_nat (length (ro_log a)) ∧
  let missing := filter (λ m, m ∉ who <$> ro_log a)
                   (filter (λ m, m ≠ 0 ∧ m ≠ initiator) (take ROLLCALL_MAX_EXPECTED expected)) in
  rollcall_ledger_missing l' cap =
    if anchored && (0 <? length expected)%nat then (Z.of_nat (length missing), take cap missing) else (0, []).
Proof.
  intros (Hrep & Hanc & Hexl & Hex)%started_rep.
  pose proof (run_refines _ _ _ ops _ _ Hrep) as Hrun. pose proof (run_expected ops l) as [He Han].
  destruct (run_ledger l ops) as [rs l'], (run_roll _ _ _ _ ops) as [rs' a]. cbn [fst snd] in *.
  destruct Hrun as [-> (Ha & _ & _ & _ & Ho & Hov & Hlt & Hok & Hans)].
  split; [done|]. split; [done|]. split; [done|]. split; [done|]. split; [done|]. split.
  - unfold rollcall_ledger_responded_count. rewrite Ha. cbn [negb].
    rewrite cnt_foldl; [|lia|].
    2: { destruct Hok as (Hwf & _). pose proof (table_wf_count_live _ _ Hwf). unfold ROLLCALL_MAX_RESPONDERS in *. lia. }
    rewrite <- Hans. unfold answers. rewrite length_answer_rows, Z.add_0_l. f_equal. apply cnt_ext.
    intros e He'. destruct Hok as (_ & Hu & _). rewrite list.Forall_forall in Hu. by rewrite (Hu e He').
  - cbv zeta. unfold rollcall_ledger_missing. rewrite Ha, Han. cbn [negb orb]. rewrite <- Hanc in *.
    destruct (lg_anchored l) eqn:El; cbn [negb]; [|done]. rewrite He, <- Hex by done.
    assert (Hm : filter (λ m, answered l' m = false) (lg_expected l) =
                 filter (λ m, m ∉ who <$> ro_log a) (lg_expected l)).
    { apply list_filter_iff. intros m. rewrite <- Hans, <- answered_iff by done. by destruct (answered l' m). }
    rewrite Hm. f_equal. apply u8_id.
    match goal with |- is_u8 (Z.of_nat ?n) => assert ((n ≤ ROLLCALL_MAX_EXPECTED)%nat) end.
    { etransitivity; [apply length_filter|]. exact Hexl. }
    cint_unfold. unfold ROLLCALL_MAX_EXPECTED in *. lia.
Qed.

(** ** The wire *)

Definition announce_ok (a : rollcall_announce_t) : Prop :=
  is_u32 (ra_rollcall_id a) ∧ ra_rollcall_id a ≠ 0 ∧ bad_round (ra_round a) = false ∧
  ∃ text, ra_text_len a = Z.of_nat (length text) ∧ (length text ≤ ROLLCALL_TEXT_MAX)%nat ∧
    ra_text a = filled text (replicate (ROLLCALL_TEXT_MAX + 1) 0).
Definition response_ok (r : rollcall_response_t) : Prop :=
  is_u32 (rr_rollcall_id r) ∧ rr_rollcall_id r ≠ 0 ∧ bad_round (rr_round r) = false ∧
  is_u32 (rr_responder_addr r) ∧ length (rr_sig r) = ROLLCALL_SIG_SIZE.

Definition signed_bytes (id initiator responder : Z) : list Z :=
  ROLLCALL_MSG_CONTEXT ++ be32_bytes id ++ be32_bytes initiator ++ be32_bytes responder.
Lemma signed_msg_spec id initiator responder :
  rollcall_signed_msg id initiator responder (replicate ROLLCALL_MSG_SIZE 0) ROLLCALL_MSG_SIZE =
    Some (ROLLCALL_MSG_SIZE, signed_bytes id initiator responder).
Proof. reflexivity. Qed.
Lemma signed_bytes_inj i a b i' a' b' :
  is_u32 i → is_u32 a → is_u32 b → is_u32 i' → is_u32 a' → is_u32 b' →
  signed_bytes i a b = signed_bytes i' a' b' → i = i' ∧ a = a' ∧ b = b'.
Proof.
  intros ? ? ? ? ? ? H. unfold signed_bytes in H. apply app_inv_head in H.
  apply app_inj_1 in H as [Hi H]; [|done]. apply app_inj_1 in H as [Ha Hb]; [|done].
  by split_and!; apply be32_bytes_inj.
Qed.

Lemma get_be32_here v rest off : is_u32 v → off = 0%nat → get_be32 (be32_bytes v ++ rest) off = Some v.
Proof.
  intros Hv ->. unfold get_be32. rewrite rdn_app_here by done. cbn [fmap option_fmap option_map].
  by rewrite be32_roundtrip.
Qed.

Lemma announce_roundtrip a out :
  announce_ok a → (ROLLCALL_ANNOUNCE_HEADER_SIZE + Z.to_nat (ra_text_len a) ≤ length out)%nat →
  ∃ n out', rollcall_announce_encode a out (length out) = Some (n, out') ∧ n ≠ 0%nat ∧
    rollcall_announce_decode (take n out') n = Some (Some a).
Proof.
  intros (Hid & Hz & Hr & text & Hl & Hmax & Ht) Hlen.
  destruct a as [id round tl tx]. cbn [ra_rollcall_id ra_round ra_text_len ra_text] in *. subst tl tx.
  rewrite Nat2Z.id in *. unfold rollcall_announce_encode. cbn [ra_rollcall_id ra_round ra_text_len ra_text].
  apply Z.eqb_neq in Hz as Hz'. rewrite Hz', Hr.
  assert (Hg : (Z.of_nat (length text) >? Z.of_nat ROLLCALL_TEXT_MAX) = false).
  { rewrite Z.gtb_ltb. apply Z.ltb_ge. lia. }
  rewrite Hg, Nat2Z.id. destruct (Nat.ltb_spec (length out) (ROLLCALL_ANNOUNCE_HEADER_SIZE + length text)); [lia|].
  unfold put_be32. unfold ROLLCALL_ANNOUNCE_HEADER_SIZE in *.
  change (wr out 0) with (wr (filled [] out) 0). rewrite wr_filled; [|done|cbn; lia]. cbn [mbind option_bind app].
  rewrite wr_filled; [|done|cbn; lia]. cbn [mbind option_bind].
  rewrite wr_filled; [|done|cbn; lia]. cbn [mbind option_bind].
  rewrite rdn_some; [|rewrite length_filled; rewrite ?length_replicate; lia].
  cbn [mbind option_bind]. rewrite drop_0. unfold filled at 2. rewrite take_app_length.
  rewrite wr_filled; [|done|cbn; lia]. cbn [mbind option_bind].
  eexists _, _. split; [done|]. split; [lia|].
  set (msg := ((be32_bytes id ++ [round]) ++ [Z.of_nat (length text)]) ++ text).
  assert (Hmsg : length msg = (6 + length text)%nat) by (unfold msg; rewrite length_app; done).
  assert (Htake : take (6 + length text) (filled msg out) = msg).
  { unfold filled. rewrite <- Hmsg. apply take_app_length. }
  rewrite Htake. unfold rollcall_announce_decode, ROLLCALL_ANNOUNCE_HEADER_SIZE.
  destruct (Nat.ltb_spec (6 + length text) 6); [lia|].
  assert (Em : msg = be32_bytes id ++ [round; Z.of_nat (length text)] ++ text).
  { unfold msg. by rewrite <- !app_assoc. }
  assert (E0 : get_be32 msg 0 = Some id) by (rewrite Em; by apply get_be32_here).
  assert (E4 : rd msg 4 = Some round) by (by rewrite Em).
  assert (E5 : rd msg 5 = Some (Z.of_nat (length text))) by (by rewrite Em).
  assert (E6 : rdn msg 6 (length text) = Some text).
  { rewrite Em, app_assoc, rdn_app_skip by (cbn; lia). by apply rdn_whole. }
  rewrite E0, E4, E5. cbn [mbind option_bind].
  rewrite Hz', Hr, Hg, Nat2Z.id, Nat.eqb_refl. cbn [negb]. rewrite E6. cbn [mbind option_bind].
  rewrite <- (filled_nil (replicate (ROLLCALL_TEXT_MAX + 1) 0)) at 1.
  rewrite wr_filled; [|done|rewrite length_replicate; cbn [length app]; lia]. cbn [mbind option_bind app].
  rewrite wr_filled; [|done|rewrite length_replicate; cbn [length app]; lia]. cbn [mbind option_bind].
  do 3 f_equal. unfold filled. rewrite <- app_assoc. f_equal. rewrite length_app. cbn [length app].
  rewrite !drop_replicate.
  by replace (ROLLCALL_TEXT_MAX + 1 - length text)%nat with (S (ROLLCALL_TEXT_MAX + 1 - (length text + 1))) by lia.
Qed.

Lemma response_roundtrip r :
  response_ok r →
  ∃ out', rollcall_response_encode r (replicate ROLLCALL_RESPONSE_SIZE 0) ROLLCALL_RESPONSE_SIZE =
            Some (ROLLCALL_RESPONSE_SIZE, out') ∧ length out' = ROLLCALL_RESPONSE_SIZE ∧
    rollcall_response_decode out' ROLLCALL_RESPONSE_SIZE = Some (Some r).
Proof.
  intros (Hid & Hz & Hr & Ha & Hs). destruct r as [id round addr sig].
  cbn [rr_rollcall_id rr_round rr_responder_addr rr_sig] in *.
  unfold rollcall_response_encode. cbn [rr_rollcall_id rr_round rr_responder_addr rr_sig].
  apply Z.eqb_neq in Hz as Hz'. rewrite Hz', Hr, Nat.ltb_irrefl. unfold put_be32.
  assert (Hl : length (replicate ROLLCALL_RESPONSE_SIZE 0) = 73%nat) by apply length_replicate.
  revert Hl. generalize (replicate ROLLCALL_RESPONSE_SIZE 0). intros out Hl.
  change (wr out 0) with (wr (filled [] out) 0). rewrite wr_filled; [|done|cbn; lia]. cbn [mbind option_bind app].
  rewrite wr_filled; [|done|cbn; lia]. cbn [mbind option_bind].
  rewrite wr_filled; [|done|cbn; lia]. cbn [mbind option_bind].
  rewrite wr_filled; [|done|]. 2: { rewrite Hs, Hl. apply Nat.leb_le. reflexivity. }
  cbn [mbind option_bind]. eexists. split; [done|].
  set (msg := ((be32_bytes id ++ [round]) ++ be32_bytes addr) ++ sig).
  assert (Hmsg : length msg = 73%nat) by (unfold msg; rewrite length_app, Hs; done).
  rewrite filled_exact by lia. split; [done|].
  assert (Em : msg = be32_bytes id ++ [round] ++ be32_bytes addr ++ sig) by (unfold msg; by rewrite <- !app_assoc).
  unfold rollcall_response_decode. rewrite Nat.eqb_refl. cbn [negb].
  assert (E0 : get_be32 msg 0 = Some id) by (rewrite Em; by apply get_be32_here).
  assert (E4 : rd msg 4 = Some round) by (by rewrite Em).
  assert (E5 : get_be32 msg 5 = Some addr).
  { rewrite Em, app_assoc. unfold get_be32. rewrite rdn_app_skip by (cbn; lia).
    by apply (get_be32_here addr sig 0). }
  assert (E9 : rdn msg 9 ROLLCALL_SIG_SIZE = Some sig).
  { rewrite Em, !app_assoc, rdn_app_skip by (cbn; lia). by apply rdn_whole. }
  rewrite E0, E4. cbn [mbind option_bind]. rewrite Hz', Hr, E5. cbn [mbind option_bind]. by rewrite E9.
Qed.

(** ** Witnesses *)

Lemma answers_bounded_witness :
  let ts := (λ i, Z.of_nat i * 1000) <$> seq 1 11 in
  rollcall_answer_budget_allow (budget_after ts) (u32 12000) = true ∧
  (answers_within_hour ts 12000 < 12)%nat.
Proof.
  set (ts := (λ i, Z.of_nat i * 1000) <$> seq 1 11).
  assert (Hs : StronglySorted Z.le (0 :: ts)).
  { unfold ts. vm_compute. repeat constructor; discriminate. }
  assert (Hn : Forall (λ t, t ≤ 12000) ts) by (unfold ts; repeat constructor; discriminate).
  split; [reflexivity|]. apply (proj1 (answers_bounded ts 12000 Hs Hn)). reflexivity.
Defined.

Definition demo_ledger : rollcall_ledger_t :=
  match rollcall_ledger_start rollcall_ledger_init 77 1 1000 [] 0 [1; 2; 3] true with
  | Some (_, l) => l
  | None => rollcall_ledger_init
  end.
Lemma ledger_exact_witness :
  let '(_, l) := run_ledger demo_ledger [LPath 77 2 true 1 [5]; LAnswer 77 2 1 1500; LAnswer 77 2 2 9000] in
  answers l ≡ₚ [(2, 1, 1500)] ∧ rollcall_ledger_missing l 24 = (1, [3]).
Proof.
  pose proof (ledger_exact rollcall_ledger_init 77 1 1000 [] 0 [1; 2; 3] true demo_ledger
    [LPath 77 2 true 1 [5]; LAnswer 77 2 1 1500; LAnswer 77 2 2 9000] 24 ltac:(reflexivity)) as H.
  vm_compute in H. vm_compute. exact (conj (proj1 (proj2 H)) (proj2 (proj2 (proj2 (proj2 (proj2 (proj2 H))))))).
Defined.
