(* ===== verification/Location.v ===== *)
(** * Positions ([components/location/location.c])

    The privacy tiers and their encodings, the cache of peers' positions, the
    sharing rules with their keys, the pacing of shares and of handshakes, and the
    records in flash.  C strings are byte lists without the terminator; the
    namespace of the flash store is the list of its entries in the order an
    iteration visits them, a value written again moves to the end. *)

From stdpp Require Import base strings numbers sets option decidable list.
From S2P Require Import Prelude Tables NetworkKey ParkedRetry.

Definition LOCATION_TIER_FULL : Z := 0.
Definition LOCATION_TIER_COARSE : Z := 1.
Definition LOCATION_TIER_PRESENCE : Z := 2.
Definition LOCATION_FULL_SIZE : nat := 17.
Definition LOCATION_COARSE_SIZE : nat := 5.
Definition LOCATION_PRESENCE_SIZE : nat := 1.
Definition LOCATION_INNER_TIER_OFFSET : nat := 0.
Definition L_LOC_INNER : nat := 1 + LOCATION_FULL_SIZE.
Definition LOCATION_MAX_CONTACTS : nat := 16.
Definition LOCATION_DEFAULT_INTERVAL_S : Z := 300.
Definition LOCATION_MIN_INTERVAL_S : Z := 30.
Definition LOCATION_CACHE_TTL_MS : Z := 3600000.
Definition PEER_LOCATION_KEY_PREFIX : list Z := str_bytes "lp_".
Definition PEER_LOCATION_KEY_MAX : nat := 16.
Definition PEER_LOCATION_RECORD_VERSION : Z := 1.
Definition PEER_LOCATION_RECORD_V0_SIZE : nat := 22.
Definition PEER_LOCATION_BOOT_ID_KEY : list Z := str_bytes "boot_id".
Definition LOCATION_CONTACT_RULE_PREFIX : list Z := str_bytes "lcr_".
Definition LOCATION_CHANNEL_RULE_PREFIX : list Z := str_bytes "lch_".
Definition LOCATION_TARGET_CONTACT : Z := 0.
Definition LOCATION_TARGET_CHANNEL : Z := 1.
Definition LOCATION_MAX_CHANNEL_TARGETS : nat := 16.
Definition LOCATION_MAX_TARGETS : nat := LOCATION_MAX_CONTACTS + LOCATION_MAX_CHANNEL_TARGETS.
Definition LOCATION_PUBLIC_CHANNEL_INDEX : Z := 0.
Definition LOCATION_HS_BACKOFF_START_MS : Z := 60000.
Definition LOCATION_HS_BACKOFF_MAX_MS : Z := 30 * 60 * 1000.
Definition LOCATION_HS_TRACK : nat := 8.
Definition LOCATION_TARGET_KEY_SIZE : nat := 16.
Definition LOCATION_SEND_RETRY_S : Z := 10.

Record location_policy_t := mk_lpolicy { lpo_enabled : bool; lpo_default_tier : Z; lpo_interval_s : Z }.
Record bramble_position_t := mk_pos {
  po_latitude_e7 : Z; po_longitude_e7 : Z; po_altitude_m : Z; po_accuracy_m : Z; po_speed_kmh : Z;
  po_heading_deg2 : Z; po_timestamp : Z; po_valid : bool }.
Definition pos_zero : bramble_position_t := mk_pos 0 0 0 0 0 0 0 false.
Record location_cache_entry_t := mk_lcache {
  lc_peer_addr : Z; lc_pos : bramble_position_t; lc_received_ms : Z; lc_active : bool; lc_age_known : bool }.
Definition lcache_zero : location_cache_entry_t := mk_lcache 0 pos_zero 0 false false.
#[global] Instance lcache_inhabited : Inhabited location_cache_entry_t := populate lcache_zero.
Record location_manager_t := mk_lmgr {
  lm_my_position : bramble_position_t; lm_cache : ctable location_cache_entry_t }.

Definition i16 (z : Z) : Z := (z + 32768) mod 65536 - 32768.
Definition le16_bytes (v : Z) : list Z := [u8 v; u8 (v >> 8)].
Definition le16_val (bs : list Z) : Z :=
  match bs with [a; b] => Z.lor a (b << 8) | _ => 0 end.

(** ** The share mode of the settings screen *)

Definition LOC_SHARE_OFF : Z := 0.
Definition LOC_SHARE_COUNT : Z := 3.
(** [stored]: the byte under [loc_share], if the store opened and has one. *)
Definition location_share_mode_get (stored : option Z) : Z :=
  let mode := default LOC_SHARE_OFF stored in
  if mode >=? LOC_SHARE_COUNT then LOC_SHARE_OFF else mode.
Definition location_share_mode_set (stored : option Z) (opened : bool) (mode : Z) : option Z :=
  if opened then Some (u8 mode) else stored.

Definition location_init : location_manager_t :=
  mk_lmgr pos_zero (table_init LOCATION_MAX_CONTACTS lcache_zero).
Definition location_set_position (mgr : location_manager_t) (pos : bramble_position_t) : location_manager_t :=
  mk_lmgr pos (lm_cache mgr).

(** ** Encodings

    The size written or -1, and the buffer; [None]: an access outside it. *)

Definition location_serialize_full (pos : bramble_position_t) (buf : list Z) (buf_len : nat)
    : option (Z * list Z) :=
  if (buf_len <? LOCATION_FULL_SIZE)%nat then Some (-1, buf)
  else
    buf ← wr buf 0 (le32_bytes (u32 (po_latitude_e7 pos)));
    buf ← wr buf 4 (le32_bytes (u32 (po_longitude_e7 pos)));
    buf ← wr buf 8 (le16_bytes (po_altitude_m pos));
    buf ← wr buf 10 [po_accuracy_m pos];
    buf ← wr buf 11 [po_speed_kmh pos];
    buf ← wr buf 12 [po_heading_deg2 pos];
    buf ← wr buf 13 (le32_bytes (po_timestamp pos));
    Some (Z.of_nat LOCATION_FULL_SIZE, buf).
Definition location_deserialize_full (buf : list Z) (len : nat) (pos : bramble_position_t)
    : option (Z * bramble_position_t) :=
  if (len <? LOCATION_FULL_SIZE)%nat then Some (-1, pos)
  else
    lat ← le32_val <$> rdn buf 0 4;
    lon ← le32_val <$> rdn buf 4 4;
    alt ← le16_val <$> rdn buf 8 2;
    acc ← rd buf 10;
    spd ← rd buf 11;
    hdg ← rd buf 12;
    ts ← le32_val <$> rdn buf 13 4;
    Some (Z.of_nat LOCATION_FULL_SIZE, mk_pos (i32 lat) (i32 lon) (i16 alt) acc spd hdg ts true).

Definition location_serialize_coarse (pos : bramble_position_t) (buf : list Z) (buf_len : nat)
    : option (Z * list Z) :=
  if (buf_len <? LOCATION_COARSE_SIZE)%nat then Some (-1, buf)
  else
    let grid_lat := Z.quot (po_latitude_e7 pos) 10000 in
    let grid_lon := Z.quot (po_longitude_e7 pos) 10000 in
    let enc_lat := u16 (Z.quot (grid_lat + 90000) 3) in
    let enc_lon := u16 (Z.quot (grid_lon + 180000) 6) in
    buf ← wr buf 0 (le16_bytes enc_lat);
    buf ← wr buf 2 (le16_bytes enc_lon);
    buf ← wr buf 4 [u8 (po_timestamp pos)];
    Some (Z.of_nat LOCATION_COARSE_SIZE, buf).
Definition location_deserialize_coarse (buf : list Z) (len : nat) (pos : bramble_position_t)
    : option (Z * bramble_position_t) :=
  if (len <? LOCATION_COARSE_SIZE)%nat then Some (-1, pos)
  else
    enc_lat ← le16_val <$> rdn buf 0 2;
    enc_lon ← le16_val <$> rdn buf 2 2;
    ts ← rd buf 4;
    let grid_lat := enc_lat * 3 - 90000 in
    let grid_lon := enc_lon * 6 - 180000 in
    Some (Z.of_nat LOCATION_COARSE_SIZE, mk_pos (grid_lat * 10000) (grid_lon * 10000) 0 0 0 0 ts true).

Definition location_serialize_presence (pos : bramble_position_t) (buf : list Z) (buf_len : nat)
    : option (Z * list Z) :=
  if (buf_len <? LOCATION_PRESENCE_SIZE)%nat then Some (-1, buf)
  else buf ← wr buf 0 [if po_valid pos then 1 else 0]; Some (Z.of_nat LOCATION_PRESENCE_SIZE, buf).

Definition location_serialize_for_tier (pos : bramble_position_t) (tier : Z) (buf : list Z) (buf_len : nat)
    : option (Z * list Z) :=
  if tier =? LOCATION_TIER_FULL then location_serialize_full pos buf buf_len
  else if tier =? LOCATION_TIER_PRESENCE then location_serialize_presence pos buf buf_len
  else location_serialize_coarse pos buf buf_len.
Definition location_deserialize_for_tier (buf : list Z) (len : nat) (tier : Z) (pos : bramble_position_t)
    : option (Z * bramble_position_t) :=
  if tier =? LOCATION_TIER_FULL then location_deserialize_full buf len pos
  else if tier =? LOCATION_TIER_PRESENCE then
    if (len <? LOCATION_PRESENCE_SIZE)%nat then Some (-1, pos)
    else
      b ← rd buf 0;
      Some (Z.of_nat LOCATION_PRESENCE_SIZE, mk_pos 0 0 0 0 0 0 0 (negb (b =? 0)))
  else location_deserialize_coarse buf len pos.

(** The outer [None]: an access outside the plaintext; the inner one: -1. *)
Definition location_parse_inner (plaintext : list Z) (plaintext_len : nat) (pos : bramble_position_t)
    : option (option (Z * bramble_position_t)) :=
  if (plaintext_len <? 1)%nat then Some None
  else
    tier ← rd plaintext LOCATION_INNER_TIER_OFFSET;
    '(n, pos) ← location_deserialize_for_tier (drop 1 plaintext) (plaintext_len - 1) tier pos;
    Some (if n <=? 0 then None else Some (tier, pos)).
Definition location_tier_has_coordinates (tier : Z) : bool :=
  (tier =? LOCATION_TIER_FULL) || (tier =? LOCATION_TIER_COARSE).

(** ** The cache *)

Definition cached_for (peer_addr : Z) (e : location_cache_entry_t) : bool := lc_peer_addr e =? peer_addr.
(** The slot and the cache; [None]: full and the peer is not in it. *)
Definition cache_slot (c : ctable location_cache_entry_t) (peer_addr : Z)
    : option (nat * ctable location_cache_entry_t) :=
  match find_index (cached_for peer_addr) (live c) with
  | Some i => Some (i, c)
  | None =>
      if (LOCATION_MAX_CONTACTS <=? count c)%nat then None
      else Some (count c, tpush c (mk_lcache peer_addr pos_zero 0 false false))
  end.
Definition with_cache (mgr : location_manager_t) (c : ctable location_cache_entry_t) : location_manager_t :=
  mk_lmgr (lm_my_position mgr) c.
Definition location_cache_update (mgr : location_manager_t) (peer_addr : Z) (pos : bramble_position_t)
    (now_ms : Z) : Z * location_manager_t :=
  match cache_slot (lm_cache mgr) peer_addr with
  | None => (-1, mgr)
  | Some (i, c) =>
      (0, with_cache mgr (tset c i (mk_lcache (lc_peer_addr (entries c !!! i)) pos now_ms true true)))
  end.
Definition location_cache_drop (mgr : location_manager_t) (peer_addr : Z) : location_manager_t :=
  match find_index (cached_for peer_addr) (live (lm_cache mgr)) with
  | Some i => with_cache mgr (tswap_remove (lm_cache mgr) i)
  | None => mgr
  end.
Definition location_cache_apply_share (mgr : location_manager_t) (peer_addr tier : Z)
    (pos : bramble_position_t) (now_ms : Z) : location_manager_t :=
  if negb (location_tier_has_coordinates tier) || negb (po_valid pos)
  then location_cache_drop mgr peer_addr
  else (location_cache_update mgr peer_addr pos now_ms).2.
Definition location_age_is_fresh (age_known : bool) (received_ms now_ms : Z) : bool :=
  if negb age_known then false else (now_ms ⊖ received_ms) <? LOCATION_CACHE_TTL_MS.
Definition location_cache_get (mgr : location_manager_t) (peer_addr : Z) : option location_cache_entry_t :=
  find (λ e, cached_for peer_addr e && lc_active e) (live (lm_cache mgr)).
Definition cache_expired (now_ms : Z) (e : location_cache_entry_t) : bool :=
  lc_age_known e && ((now_ms ⊖ lc_received_ms e) >? LOCATION_CACHE_TTL_MS).
Definition location_cache_purge (mgr : location_manager_t) (now_ms : Z) : location_manager_t :=
  with_cache mgr (swap_purge (cache_expired now_ms) (lm_cache mgr)).

(** ** Sharing policy and rules *)

Definition location_policy_clamp_interval_s (interval_s : Z) : Z :=
  if interval_s <? LOCATION_MIN_INTERVAL_S then LOCATION_MIN_INTERVAL_S else interval_s.
Definition location_tier_from_string (tier : list Z) : Z :=
  if bool_decide (tier = str_bytes "full") || bool_decide (tier = str_bytes "exact") then LOCATION_TIER_FULL
  else if bool_decide (tier = str_bytes "presence") then LOCATION_TIER_PRESENCE
  else LOCATION_TIER_COARSE.
Definition location_tier_to_string (tier : Z) : list Z :=
  if tier =? LOCATION_TIER_FULL then str_bytes "full"
  else if tier =? LOCATION_TIER_PRESENCE then str_bytes "presence"
  else str_bytes "coarse".
Definition location_policy_set_defaults : location_policy_t :=
  mk_lpolicy false LOCATION_TIER_COARSE LOCATION_DEFAULT_INTERVAL_S.
Definition location_policy_normalize (p : location_policy_t) : location_policy_t :=
  mk_lpolicy (lpo_enabled p)
    (if lpo_default_tier p >? LOCATION_TIER_PRESENCE then LOCATION_TIER_COARSE else lpo_default_tier p)
    (location_policy_clamp_interval_s (lpo_interval_s p)).
Definition location_share_round_enabled (p : location_policy_t) (has_source : bool) (target_count : nat)
    : bool :=
  if negb (lpo_enabled p) then false else has_source && (0 <? target_count)%nat.

(** *** Numbers in strings *)

Definition is_space (c : Z) : bool := (c =? 32) || ((9 <=? c) && (c <=? 13)).
Definition digit_val (c : Z) : option Z :=
  if (48 <=? c) && (c <=? 57) then Some (c - 48) else None.
Definition hex_val (c : Z) : option Z :=
  if (48 <=? c) && (c <=? 57) then Some (c - 48)
  else if (65 <=? c) && (c <=? 70) then Some (c - 55)
  else if (97 <=? c) && (c <=? 102) then Some (c - 87)
  else None.
Fixpoint skip_space (s : list Z) : list Z :=
  match s with [] => [] | c :: s' => if is_space c then skip_space s' else s end.
(** The number the leading digits spell, how many there are, and the rest. *)
Fixpoint digits (base : Z) (val : Z → option Z) (s : list Z) (acc : Z) (n : nat) : Z * nat * list Z :=
  match s with
  | c :: s' =>
      match val c with
      | Some d => digits base val s' (acc * base + d) (S n)
      | None => (acc, n, s)
      end
  | [] => (acc, n, [])
  end.
Definition sign_of (s : list Z) : bool * list Z :=
  match s with
  | [] => (false, s)
  | c :: s' => if c =? 45 then (true, s') else if c =? 43 then (false, s') else (false, s)
  end.
(** [%d]: white space, a sign, digits; out of range saturates. *)
Definition scan_int (s : list Z) : option (Z * list Z) :=
  let '(neg, s) := sign_of (skip_space s) in
  match digits 10 digit_val s 0 0 with
  | (_, O, _) => None
  | (v, _, rest) => Some (Z.max (-2147483648) (Z.min 2147483647 (if (neg : bool) then - v else v)), rest)
  end.
(** [%15[^|]]: one to fifteen bytes other than the bar. *)
Fixpoint scan_field (n : nat) (s : list Z) : list Z * list Z :=
  match n, s with
  | S n', c :: s' =>
      if c =? 124 then ([], s) else let '(f, rest) := scan_field n' s' in (c :: f, rest)
  | _, _ => ([], s)
  end.
(** [strtoul(s, &end, 16)] with a 32-bit [unsigned long]; the rest is what [end] points to. *)
Definition strtoul16 (s : list Z) : Z * list Z :=
  let '(neg, t) := sign_of (skip_space s) in
  let '(v, n, rest) := digits 16 hex_val t 0 0 in
  let '(v, n, rest) :=
    match t with
    | z :: x :: t' =>
        if (z =? 48) && ((x =? 120) || (x =? 88)) then
          match digits 16 hex_val t' 0 0 with
          | (_, O, _) => (v, n, rest)
          | r => r
          end
        else (v, n, rest)
    | _ => (v, n, rest)
    end in
  match n with
  | O => (0, s)
  | _ => (if v >? UINT32_MAX then UINT32_MAX else if (neg : bool) then u32 (- v) else v, rest)
  end.
(** [%u] and [%d] of a number that is not negative, [%08X], [%02d]. *)
Fixpoint dec_digits (fuel : nat) (v : Z) (acc : list Z) : list Z :=
  match fuel with
  | O => acc
  | S fuel => let acc := (48 + v mod 10) :: acc in if v <? 10 then acc else dec_digits fuel (v / 10) acc
  end.
Definition dec (v : Z) : list Z := dec_digits 10 v [].
Definition hex_digit (d : Z) : Z := if d <? 10 then 48 + d else 55 + d.
Definition hex8 (v : Z) : list Z :=
  map (λ k, hex_digit (Z.land (v >> k) 15)) [28; 24; 20; 16; 12; 8; 4; 0].
Definition dec2 (v : Z) : list Z := if v <? 10 then 48 :: dec v else dec v.
(** [snprintf(out, out_len, ...)]: the string that ends up in [out]. *)
Definition snprintf (out_len : nat) (s : list Z) : list Z := take (out_len - 1) s.

(** *** Rules *)

Record location_rule_t := mk_lrule { lr_enabled : bool; lr_tier : Z; lr_interval_s : Z }.
Record location_target_t := mk_target { tg_kind : Z; tg_id : Z; tg_tier : Z; tg_interval_s : Z }.
#[global] Instance target_inhabited : Inhabited location_target_t := populate (mk_target 0 0 0 0).

(** The literal [|]. *)
Definition scan_bar (s : list Z) : option (list Z) :=
  match s with c :: s' => if c =? 124 then Some s' else None | [] => None end.
(** The conversions of [sscanf(raw, "%d|%15[^|]|%d", ...)] that succeeded. *)
Definition scan_rule (raw : list Z) : option Z * option (list Z) * option Z :=
  match scan_int raw with
  | None => (None, None, None)
  | Some (enabled, rest) =>
      match scan_field 15 <$> scan_bar rest with
      | None | Some ([], _) => (Some enabled, None, None)
      | Some (tier, rest) =>
          (Some enabled, Some tier,
           match scan_bar rest with Some rest => fst <$> scan_int rest | None => None end)
      end
  end.
Definition location_rule_parse (raw : list Z) : location_rule_t :=
  match scan_rule raw with
  | (Some enabled, Some tier, interval_s) =>
      mk_lrule (negb (enabled =? 0)) (location_tier_from_string tier)
        (match interval_s with
         | Some i => if i >? 0 then location_policy_clamp_interval_s (u16 i) else LOCATION_DEFAULT_INTERVAL_S
         | None => LOCATION_DEFAULT_INTERVAL_S
         end)
  | _ => mk_lrule true (location_tier_from_string raw) LOCATION_DEFAULT_INTERVAL_S
  end.
Definition location_rule_format (out_len : nat) (r : location_rule_t) : list Z :=
  snprintf out_len ((if lr_enabled r then 49 else 48) :: 124 :: location_tier_to_string (lr_tier r) ++
                    124 :: dec (lr_interval_s r)).

Definition location_contact_key (out_len : nat) (addr : Z) : option (list Z) :=
  if (out_len <? LOCATION_TARGET_KEY_SIZE)%nat then None
  else Some (snprintf out_len (LOCATION_CONTACT_RULE_PREFIX ++ hex8 addr)).
Definition location_channel_target_is_permitted (channel_index : Z) : bool :=
  negb (channel_index =? LOCATION_PUBLIC_CHANNEL_INDEX).
Definition location_channel_key (out_len : nat) (channel_index : Z) : option (list Z) :=
  if (out_len <? LOCATION_TARGET_KEY_SIZE)%nat then None
  else if (channel_index <? 0) || (channel_index >=? Z.of_nat LOCATION_MAX_CHANNEL_TARGETS) then None
  else Some (snprintf out_len (LOCATION_CHANNEL_RULE_PREFIX ++ dec2 channel_index)).

Definition location_suffix_is_exact (suffix : list Z) (n : nat) (hex : bool) : bool :=
  forallb (λ c, bool_decide (is_Some (if hex then hex_val c else digit_val c))) (take n suffix) &&
  (length suffix =? n)%nat.
(** [atoi] of decimal digits. *)
Definition atoi (s : list Z) : Z := (digits 10 digit_val s 0 0).1.1.
(** [strncmp(key, prefix, len) == 0]: what follows the prefix. *)
Fixpoint after_prefix (prefix key : list Z) : option (list Z) :=
  match prefix, key with
  | [], _ => Some key
  | p :: prefix', k :: key' => if p =? k then after_prefix prefix' key' else None
  | _ :: _, [] => None
  end.
Definition location_channel_index_from_suffix (suffix : list Z) : Z :=
  if negb (location_suffix_is_exact suffix 2 false) then -1 else atoi suffix.
(** The kind and identifier a key names. *)
Definition target_of_key (key : list Z) : option (Z * Z) :=
  match after_prefix LOCATION_CONTACT_RULE_PREFIX key with
  | Some suffix =>
      if negb (location_suffix_is_exact suffix 8 true) then None
      else Some (LOCATION_TARGET_CONTACT, (strtoul16 suffix).1)
  | None =>
      match after_prefix LOCATION_CHANNEL_RULE_PREFIX key with
      | Some suffix =>
          if negb (location_suffix_is_exact suffix 2 false) then None
          else
            let index := atoi suffix in
            if (index <? 0) || (index >=? Z.of_nat LOCATION_MAX_CHANNEL_TARGETS) then None
            else if negb (location_channel_target_is_permitted index) then None
            else Some (LOCATION_TARGET_CHANNEL, index)
      | None => None
      end
  end.
Definition location_target_from_entry (key raw : list Z) : option location_target_t :=
  match target_of_key key with
  | None => None
  | Some (kind, id) =>
      let rule := location_rule_parse raw in
      if negb (lr_enabled rule) then None
      else Some (mk_target kind id (lr_tier rule) (location_policy_clamp_interval_s (lr_interval_s rule)))
  end.
Definition location_targets_min_interval_s (targets : list location_target_t) : Z :=
  foldl (λ m t, if (m =? 0) || (tg_interval_s t <? m) then tg_interval_s t else m) 0 targets.

(** ** Pacing of handshakes *)

Record location_hs_slot_t := mk_hslot { hs_addr : Z; hs_next_attempt_ms : Z; hs_backoff_ms : Z }.
Definition hslot_zero : location_hs_slot_t := mk_hslot 0 0 0.
#[global] Instance hslot_inhabited : Inhabited location_hs_slot_t := populate hslot_zero.
Abbreviation location_hs_table_t := (list location_hs_slot_t).

Definition location_hs_reset : location_hs_table_t := replicate LOCATION_HS_TRACK hslot_zero.
Definition location_hs_clear (table : location_hs_table_t) (addr : Z) : location_hs_table_t :=
  if addr =? 0 then table
  else match find_index (λ s, hs_addr s =? addr) table with
       | Some i => <[i := hslot_zero]> table
       | None => table
       end.
(** [next_attempt_ms] compared as it is, the first of equals. *)
Definition hs_oldest (table : location_hs_table_t) : nat :=
  best_index (λ x y, hs_next_attempt_ms x <? hs_next_attempt_ms y) table.
Definition hs_backed_off (slot : location_hs_slot_t) : Z :=
  let b := if hs_backoff_ms slot >=? LOCATION_HS_BACKOFF_MAX_MS then LOCATION_HS_BACKOFF_MAX_MS
           else u32 (hs_backoff_ms slot * 2) in
  if b >? LOCATION_HS_BACKOFF_MAX_MS then LOCATION_HS_BACKOFF_MAX_MS else b.
Definition location_hs_should_attempt (table : location_hs_table_t) (addr : Z)
    (reachable defer_first : bool) (now_ms : Z) : bool * location_hs_table_t :=
  if addr =? 0 then (false, table)
  else if negb reachable then (false, table)
  else
    match find_index (λ s, negb (hs_addr s =? 0) && (hs_addr s =? addr)) table with
    | Some i =>
        let slot := table !!! i in
        if i32 (now_ms ⊖ hs_next_attempt_ms slot) <? 0 then (false, table)
        else
          let b := hs_backed_off slot in
          (true, <[i := mk_hslot (hs_addr slot) (now_ms ⊕ b) b]> table)
    | None =>
        let idx := match find_index (λ s, hs_addr s =? 0) table with
                   | Some i => i
                   | None => hs_oldest table
                   end in
        (negb defer_first,
         <[idx := mk_hslot addr (now_ms ⊕ LOCATION_HS_BACKOFF_START_MS) LOCATION_HS_BACKOFF_START_MS]> table)
    end.

(** ** Pacing of shares *)

Record location_schedule_slot_t := mk_lslot {
  sl_kind : Z; sl_id : Z; sl_last_attempt_ms : Z; sl_wait_ms : Z; sl_used : bool }.
Definition lslot_zero : location_schedule_slot_t := mk_lslot 0 0 0 0 false.
#[global] Instance lslot_inhabited : Inhabited location_schedule_slot_t := populate lslot_zero.
Abbreviation location_schedule_t := (list location_schedule_slot_t).

Definition location_schedule_init : location_schedule_t := replicate LOCATION_MAX_TARGETS lslot_zero.
Definition slot_for (kind id : Z) (s : location_schedule_slot_t) : bool :=
  sl_used s && (sl_kind s =? kind) && (sl_id s =? id).
Definition location_schedule_find (sched : location_schedule_t) (kind id : Z) : option nat :=
  find_index (slot_for kind id) sched.
Definition location_schedule_is_due (sched : location_schedule_t) (target : location_target_t) (now_ms : Z)
    : bool :=
  match location_schedule_find sched (tg_kind target) (tg_id target) with
  | None => true
  | Some i =>
      let slot := sched !!! i in (now_ms ⊖ sl_last_attempt_ms slot) >=? sl_wait_ms slot
  end.
Definition schedule_wait (target : location_target_t) (sent : bool) : Z :=
  let interval_ms := u32 (location_policy_clamp_interval_s (tg_interval_s target) * 1000) in
  if negb sent && (tg_kind target =? LOCATION_TARGET_CHANNEL) then
    let retry_ms := LOCATION_SEND_RETRY_S * 1000 in
    if retry_ms <? interval_ms then retry_ms else interval_ms
  else interval_ms.
Definition location_schedule_record (sched : location_schedule_t) (target : location_target_t)
    (now_ms : Z) (sent : bool) : location_schedule_t :=
  let i := match location_schedule_find sched (tg_kind target) (tg_id target) with
           | Some i => i
           | None =>
               match find_index (λ s, negb (sl_used s)) sched with
               | Some i => i
               | None => best_index (λ x y, (now_ms ⊖ sl_last_attempt_ms x) >? (now_ms ⊖ sl_last_attempt_ms y))
                           sched
               end
           end in
  <[i := mk_lslot (tg_kind target) (tg_id target) now_ms (schedule_wait target sent) true]> sched.
Definition configured (targets : list location_target_t) (s : location_schedule_slot_t) : bool :=
  existsb (λ t, (tg_kind t =? sl_kind s) && (tg_id t =? sl_id s)) targets.
Definition location_schedule_retain (sched : location_schedule_t) (targets : list location_target_t)
    : location_schedule_t :=
  map (λ s, if sl_used s && negb (configured targets s)
            then mk_lslot (sl_kind s) (sl_id s) (sl_last_attempt_ms s) (sl_wait_ms s) false else s) sched.

(** ** Flash *)

Inductive nvs_value :=
  | NvU8 (v : Z) | NvU16 (v : Z) | NvU32 (v : Z) | NvI32 (v : Z) | NvStr (s : list Z) | NvBlob (b : list Z).
Abbreviation nvs_ns := (list (list Z * nvs_value)).
Definition nvs_lookup (ns : nvs_ns) (key : list Z) : option nvs_value :=
  snd <$> find (λ e, bool_decide (e.1 = key)) ns.
Definition nvs_get_u8 (ns : nvs_ns) (key : list Z) : option Z :=
  match nvs_lookup ns key with Some (NvU8 v) => Some v | _ => None end.
Definition nvs_get_u16 (ns : nvs_ns) (key : list Z) : option Z :=
  match nvs_lookup ns key with Some (NvU16 v) => Some v | _ => None end.
Definition nvs_get_u32 (ns : nvs_ns) (key : list Z) : option Z :=
  match nvs_lookup ns key with Some (NvU32 v) => Some v | _ => None end.
Definition nvs_get_i32 (ns : nvs_ns) (key : list Z) : option Z :=
  match nvs_lookup ns key with Some (NvI32 v) => Some v | _ => None end.
(** A string or blob that fits the caller's buffer of [cap] bytes, the terminator included. *)
Definition nvs_get_str (ns : nvs_ns) (key : list Z) (cap : nat) : option (list Z) :=
  match nvs_lookup ns key with
  | Some (NvStr s) => if (length s <? cap)%nat then Some s else None
  | _ => None
  end.
Definition nvs_get_blob (ns : nvs_ns) (key : list Z) (cap : nat) : option (list Z) :=
  match nvs_lookup ns key with
  | Some (NvBlob b) => if (length b <=? cap)%nat then Some b else None
  | _ => None
  end.
Definition nvs_erase (ns : nvs_ns) (key : list Z) : nvs_ns := filter (λ e, e.1 ≠ key) ns.
Definition nvs_set (ns : nvs_ns) (key : list Z) (v : nvs_value) : nvs_ns := nvs_erase ns key ++ [(key, v)].

Record persisted_peer_location_t := mk_prec {
  pl_latitude_e7 : Z; pl_longitude_e7 : Z; pl_altitude_m : Z; pl_accuracy_m : Z; pl_speed_kmh : Z;
  pl_heading_deg2 : Z; pl_timestamp : Z; pl_received_ms : Z; pl_tier : Z; pl_version : Z; pl_boot_id : Z }.
Record peer_location_record_t := mk_lrec {
  re_pos : bramble_position_t; re_tier : Z; re_received_ms : Z; re_boot_id : Z; re_age_known : bool }.
Record peer_location_restore_entry_t := mk_restore { rs_peer_addr : Z; rs_rec : peer_location_record_t }.

Definition peer_location_record_key (out_len : nat) (peer_addr : Z) : list Z :=
  snprintf out_len (PEER_LOCATION_KEY_PREFIX ++ hex8 peer_addr).
Definition peer_location_key_parse (key : list Z) : option Z :=
  match after_prefix PEER_LOCATION_KEY_PREFIX key with
  | None | Some [] => None
  | Some hex =>
      match strtoul16 hex with
      | (addr, []) => Some (u32 addr)
      | _ => None
      end
  end.
Definition peer_location_record_encode (pos : bramble_position_t) (tier now_ms boot_id : Z)
    : persisted_peer_location_t :=
  mk_prec (po_latitude_e7 pos) (po_longitude_e7 pos) (po_altitude_m pos) (po_accuracy_m pos)
    (po_speed_kmh pos) (po_heading_deg2 pos) (po_timestamp pos) now_ms tier PEER_LOCATION_RECORD_VERSION
    boot_id.
(** The packed structure, little-endian. *)
Definition persisted_bytes (r : persisted_peer_location_t) : list Z :=
  le32_bytes (u32 (pl_latitude_e7 r)) ++ le32_bytes (u32 (pl_longitude_e7 r)) ++
  le16_bytes (pl_altitude_m r) ++ [pl_accuracy_m r; pl_speed_kmh r; pl_heading_deg2 r] ++
  le32_bytes (pl_timestamp r) ++ le32_bytes (pl_received_ms r) ++ [pl_tier r; pl_version r] ++
  le32_bytes (pl_boot_id r).
Definition PERSISTED_SIZE : nat := 27.
Definition persisted_of (b : list Z) : option persisted_peer_location_t :=
  lat ← le32_val <$> rdn b 0 4;
  lon ← le32_val <$> rdn b 4 4;
  alt ← le16_val <$> rdn b 8 2;
  acc ← rd b 10; spd ← rd b 11; hdg ← rd b 12;
  ts ← le32_val <$> rdn b 13 4;
  recv ← le32_val <$> rdn b 17 4;
  tier ← rd b 21; version ← rd b 22;
  boot ← le32_val <$> rdn b 23 4;
  Some (mk_prec (i32 lat) (i32 lon) (i16 alt) acc spd hdg ts recv tier version boot).
(** The outer [None]: an access outside the blob; the inner one: -1. *)
Definition peer_location_record_decode (blob : list Z) (current_boot_id : Z)
    : option (option peer_location_record_t) :=
  let decoded r boot_id := mk_lrec
    (mk_pos (pl_latitude_e7 r) (pl_longitude_e7 r) (pl_altitude_m r) (pl_accuracy_m r) (pl_speed_kmh r)
       (pl_heading_deg2 r) (pl_timestamp r) true)
    (pl_tier r) (pl_received_ms r) boot_id (negb (boot_id =? 0) && (boot_id =? current_boot_id)) in
  if (length blob =? PERSISTED_SIZE)%nat then
    r ← persisted_of blob;
    Some (if negb (pl_version r =? PEER_LOCATION_RECORD_VERSION) then None
          else Some (decoded r (pl_boot_id r)))
  else if (length blob =? PEER_LOCATION_RECORD_V0_SIZE)%nat then
    r ← persisted_of (blob ++ replicate (PERSISTED_SIZE - PEER_LOCATION_RECORD_V0_SIZE) 0);
    Some (Some (decoded r 0))
  else Some None.

(** The boot counter: its value, whether it was resolved this boot. *)
Record boot_state := mk_boot { bo_id : Z; bo_resolved : bool }.
(** [opened], [written]: whether the store opens and the write is committed. *)
Definition location_store_begin_boot (b : boot_state) (ns : nvs_ns) (opened written : bool)
    : Z * boot_state * nvs_ns :=
  if bo_resolved b then (bo_id b, b, ns)
  else if negb opened then (bo_id b, mk_boot (bo_id b) true, ns)
  else
    let next := default 0 (nvs_get_u32 ns PEER_LOCATION_BOOT_ID_KEY) ⊕ 1 in
    let next := if next =? 0 then 1 else next in
    if written then (next, mk_boot next true, nvs_set ns PEER_LOCATION_BOOT_ID_KEY (NvU32 next))
    else (bo_id b, mk_boot (bo_id b) true, ns).
Definition location_store_boot_id (b : boot_state) : Z := bo_id b.
Definition location_store_reset_boot_state : boot_state := mk_boot 0 false.
Definition location_store_save_peer (b : boot_state) (ns : nvs_ns) (opened written : bool) (peer_addr : Z)
    (pos : bramble_position_t) (tier now_ms : Z) : nvs_ns :=
  if negb opened then ns
  else
    let stored := peer_location_record_encode pos tier now_ms (location_store_boot_id b) in
    if written
    then nvs_set ns (peer_location_record_key PEER_LOCATION_KEY_MAX peer_addr) (NvBlob (persisted_bytes stored))
    else ns.

Definition newer (a b : peer_location_restore_entry_t) : bool :=
  (re_boot_id (rs_rec a) >? re_boot_id (rs_rec b)) ||
  ((re_boot_id (rs_rec a) =? re_boot_id (rs_rec b)) && (re_received_ms (rs_rec a) >? re_received_ms (rs_rec b))).
(** [out[0..count)] with the candidate in front of the first older entry, the last
    one dropped when there is no room. *)
Definition restore_insert (out : list peer_location_restore_entry_t) (max : nat)
    (candidate : peer_location_restore_entry_t) : list peer_location_restore_entry_t :=
  let pos := default (length out) (find_index (newer candidate) out) in
  if (max <=? pos)%nat then out
  else take max (take pos out ++ candidate :: drop pos out).
(** One entry of the iteration. *)
Definition collect_step (ns : nvs_ns) (max : nat) (boot_id : Z) (out : list peer_location_restore_entry_t)
    (e : list Z * nvs_value) : option (list peer_location_restore_entry_t) :=
  match peer_location_key_parse e.1 with
  | None => Some out
  | Some addr =>
      match nvs_get_blob ns e.1 PERSISTED_SIZE with
      | None => Some out
      | Some blob =>
          r ← peer_location_record_decode blob boot_id;
          Some (match r with Some rec => restore_insert out max (mk_restore addr rec) | None => out end)
      end
  end.
Fixpoint collect_loop (ns : nvs_ns) (max : nat) (boot_id : Z) (rest : nvs_ns)
    (out : list peer_location_restore_entry_t) : option (list peer_location_restore_entry_t) :=
  match rest with
  | [] => Some out
  | e :: rest => out ← collect_step ns max boot_id out e; collect_loop ns max boot_id rest out
  end.
Definition location_store_collect (b : boot_state) (ns : nvs_ns) (opened : bool) (max : nat)
    : option (list peer_location_restore_entry_t) :=
  if (max <=? 0)%nat || negb opened then Some []
  else collect_loop ns max (location_store_boot_id b) ns [].
Fixpoint location_store_apply (mgr : location_manager_t) (entries : list peer_location_restore_entry_t)
    : location_manager_t :=
  match entries with
  | [] => mgr
  | e :: rest =>
      let rec := rs_rec e in
      if negb (location_tier_has_coordinates (re_tier rec)) || negb (po_valid (re_pos rec))
      then location_store_apply mgr rest
      else
        match cache_slot (lm_cache mgr) (rs_peer_addr e) with
        | None => mgr
        | Some (i, c) =>
            location_store_apply
              (with_cache mgr (tset c i (mk_lcache (lc_peer_addr (Tables.entries c !!! i)) (re_pos rec)
                                           (re_received_ms rec) true (re_age_known rec)))) rest
        end
  end.
