(* ===== verification/MeshState.v ===== *)
(** * The state of the mesh task ([main/mesh_internal.h], the statics of
      [main/mesh_task.c] and [main/mesh_beacon.c])

    The reception state of [MeshRx] with what the send path, the beacon module and
    the maintenance tick keep beside it, and the monad their handlers are written
    in.  A handler of a part runs on the whole through [zoom]. *)

From stdpp Require Import base strings numbers sets option decidable list.
From S2P Require Import Prelude Tables Packet Routing Security Identity ParkedRetry Beacon Probe Rollcall Location.
From S2P Require Import MeshDm MeshRx.

(** ** State with failure

    [None] is an access outside a buffer, as in [MeshDm.M] and [MeshRx.Rx], which
    are instances. *)

Definition St (S A : Type) : Type := S → option (A * S).
#[global] Instance St_ret S : MRet (St S) := λ A x s, Some (x, s).
#[global] Instance St_bind S : MBind (St S) := λ A B k m s,
  match m s with None => None | Some (x, s) => k x s end.
Definition sget {S} : St S S := λ s, Some (s, s).
Definition sgets {S A} (f : S → A) : St S A := λ s, Some (f s, s).
Definition smodify {S} (f : S → S) : St S unit := λ s, Some (tt, f s).
Definition slift {S A} (o : option A) : St S A := λ s,
  match o with None => None | Some x => Some (x, s) end.
Definition swhen {S} (b : bool) (m : St S unit) : St S unit := if b then m else mret tt.
Fixpoint sfor {S A} (l : list A) (f : A → St S unit) : St S unit :=
  match l with [] => mret tt | x :: l' => f x ;; sfor l' f end.
(** [m] on the part of the state that [view] and [put] focus on. *)
Definition zoom {S P A} (view : S → P) (put : S → P → S) (m : St P A) : St S A := λ s,
  match m (view s) with None => None | Some (x, p) => Some (x, put s p) end.

(** ** The node *)

Inductive battery_charging_t := BATTERY_CHG_UNKNOWN | BATTERY_CHG_NO | BATTERY_CHG_YES.
#[global] Instance charging_eq_dec : EqDecision battery_charging_t.
Proof. solve_decision. Defined.
(** What [battery_get_status] reports, as far as the beacon reads it. *)
Record battery_status_t := mk_battery { bs_charging : battery_charging_t; bs_pct : Z; bs_reading : bool }.

Record beacon_policy_config_t := mk_policy {
  bp_enabled : bool; bp_mode : Z; bp_base_interval_ms : Z; bp_min_interval_ms : Z; bp_max_interval_ms : Z;
  bp_dense_threshold : Z; bp_churn_threshold : Z; bp_churn_window_ms : Z }.
Record beacon_policy_status_t := mk_bstatus {
  bst_active_mode : Z; bst_current_interval_ms : Z; bst_churn_events : Z; bst_neighbor_count : Z;
  bst_in_backoff : bool; bst_last_transition_ms : Z }.

(** The statics of the beacon module; [bc_pins_flash] and [bc_policy_flash] are the
    blobs in flash, [bc_id] the anchor and endorsement of the identity component,
    [bc_nvs] whether the next flash accesses succeed. *)
Record beacon_state := mk_bc {
  bc_key : list Z; bc_node_name : list Z; bc_att_last_ms : Z; bc_att_wait_ms : Z;
  bc_churn : list churn_sample_t; bc_churn_idx : nat; bc_policy : beacon_policy_config_t;
  bc_status : beacon_policy_status_t; bc_battery : battery_status_t; bc_id : id_module;
  bc_pins_flash : option (list Z); bc_policy_flash : option beacon_policy_config_t; bc_nvs : list bool }.

(** The statics of the maintenance tick. *)
Record sched := mk_sched {
  sc_last_beacon_ms : Z; sc_beacon_interval : Z; sc_last_purge_ms : Z; sc_last_neighbor_count : Z;
  sc_last_disc_check : Z; sc_last_ack_tick : Z; sc_flush_requested : bool }.

(** The statics of the probe module; the results are an array with a count. *)
Record probe_state := mk_probe {
  ps_request_pending : bool; ps_request_id : Z; ps_id : Z; ps_sent_ms : Z; ps_results : ctable probe_result_t;
  ps_collecting : bool; ps_complete_emitted : bool; ps_rounds_sent : Z; ps_next_round_ms : Z;
  ps_replies : list pending_probe_reply_t; ps_ingress : probe_ingress_limiter_t }.

Definition probe_zero (now_ms : Z) : probe_state :=
  mk_probe false 0 0 0 (table_init MAX_PROBE_RESULTS (mk_presult 0 0 0 0 0 0)) false false 0 0
    (replicate PROBE_REPLY_QUEUE_CAPACITY preply_zero) (probe_ingress_init now_ms).

(** The heap block of the roll-call module. *)
Record rollcall_pending_t := mk_rcpending {
  rp_used : bool; rp_rollcall_id : Z; rp_initiator_addr : Z; rp_round : Z; rp_channel_idx : Z;
  rp_due_at_ms : Z }.
Definition rcpending_zero : rollcall_pending_t := mk_rcpending false 0 0 0 0 0.
#[global] Instance rcpending_inhabited : Inhabited rollcall_pending_t := populate rcpending_zero.
Record rollcall_runtime_t := mk_rc {
  rc_ledger : rollcall_ledger_t; rc_rate : rollcall_rate_state_t; rc_announce_pkt_id : list Z;
  rc_seen : rollcall_seen_table_t; rc_pending : list rollcall_pending_t;
  rc_answer_budget : rollcall_answer_budget_t; rc_pending_dropped : Z; rc_answer_limited : Z }.

(** The statics of the location module and the location component; [lo_flash] is
    their namespace in flash, [lo_gps] what the receiver reports. *)
Record loc_state := mk_loc {
  lo_mgr : location_manager_t; lo_schedule : location_schedule_t; lo_hs : location_hs_table_t;
  lo_last_policy_tick_ms : Z; lo_last_send_ms : Z; lo_boot : boot_state; lo_flash : nvs_ns;
  lo_gps : option bramble_position_t }.
Definition loc_zero : loc_state :=
  mk_loc location_init location_schedule_init location_hs_reset 0 0 location_store_reset_boot_state [] None.

Inductive mt_event :=
  | MOnNeighborChange
  | MOnIdentityChange (new_address : Z)
  | MReplaySave (force : bool)
  | MProbeTimer (delay_ms : option Z)
  | MOnProbeResult (r : probe_result_t) (probe_round probe_id : Z)
  | MOnProbeComplete (probe_id duration_ms : Z) (responders : list probe_result_t)
  | MOnRollCall (rollcall_id from : Z) (text : list Z) (round : Z)
  | MOnRollCallResponse (rollcall_id address round responded expected : Z)
  | MOnRollCallComplete (rollcall_id responded expected : Z) (anchored : bool) (rounds unattested : Z)
  | MOnPeerLocation
  | MOnLocationEvent (event : string) (peer_addr tier timestamp_ms rssi snr count : Z).

Record mt := mk_mt {
  mt_rx : rx; mt_rreq_rl : rreq_rate_limiter_t; mt_last_broadcast_id : Z; mt_sweep : parked_sweep_t;
  mt_beacon : beacon_state; mt_sched : sched; mt_probe : probe_state;
  mt_rollcall : option rollcall_runtime_t; mt_loc : loc_state; mt_out : list mt_event }.

Section MtSetters.
Context (s : mt).
Definition mset_rx x := mk_mt x (mt_rreq_rl s) (mt_last_broadcast_id s) (mt_sweep s) (mt_beacon s)
  (mt_sched s) (mt_probe s) (mt_rollcall s) (mt_loc s) (mt_out s).
Definition mset_rreq_rl x := mk_mt (mt_rx s) x (mt_last_broadcast_id s) (mt_sweep s) (mt_beacon s)
  (mt_sched s) (mt_probe s) (mt_rollcall s) (mt_loc s) (mt_out s).
Definition mset_last_broadcast x := mk_mt (mt_rx s) (mt_rreq_rl s) x (mt_sweep s) (mt_beacon s)
  (mt_sched s) (mt_probe s) (mt_rollcall s) (mt_loc s) (mt_out s).
Definition mset_sweep x := mk_mt (mt_rx s) (mt_rreq_rl s) (mt_last_broadcast_id s) x (mt_beacon s)
  (mt_sched s) (mt_probe s) (mt_rollcall s) (mt_loc s) (mt_out s).
Definition mset_beacon x := mk_mt (mt_rx s) (mt_rreq_rl s) (mt_last_broadcast_id s) (mt_sweep s) x
  (mt_sched s) (mt_probe s) (mt_rollcall s) (mt_loc s) (mt_out s).
Definition mset_sched x := mk_mt (mt_rx s) (mt_rreq_rl s) (mt_last_broadcast_id s) (mt_sweep s)
  (mt_beacon s) x (mt_probe s) (mt_rollcall s) (mt_loc s) (mt_out s).
Definition mset_probe x := mk_mt (mt_rx s) (mt_rreq_rl s) (mt_last_broadcast_id s) (mt_sweep s)
  (mt_beacon s) (mt_sched s) x (mt_rollcall s) (mt_loc s) (mt_out s).
Definition mset_rollcall x := mk_mt (mt_rx s) (mt_rreq_rl s) (mt_last_broadcast_id s) (mt_sweep s)
  (mt_beacon s) (mt_sched s) (mt_probe s) x (mt_loc s) (mt_out s).
Definition mset_out x := mk_mt (mt_rx s) (mt_rreq_rl s) (mt_last_broadcast_id s) (mt_sweep s)
  (mt_beacon s) (mt_sched s) (mt_probe s) (mt_rollcall s) (mt_loc s) x.
Definition mset_loc x := mk_mt (mt_rx s) (mt_rreq_rl s) (mt_last_broadcast_id s) (mt_sweep s)
  (mt_beacon s) (mt_sched s) (mt_probe s) (mt_rollcall s) x (mt_out s).
End MtSetters.

Definition mt_node (s : mt) : node := rx_node (mt_rx s).
Definition mset_node (s : mt) (n : node) : mt := mset_rx s (rset_node (mt_rx s) n).

Abbreviation T := (St mt).
Definition on_rx {A} (m : Rx A) : T A := zoom mt_rx mset_rx m.
Definition on_nd {A} (m : M A) : T A := zoom mt_node mset_node m.
Definition notify (e : mt_event) : T unit := smodify (λ s, mset_out s (mt_out s ++ [e])).
Definition tnow : T Z := sgets (λ s, v_now (nd_env (mt_node s))).
(** [now_uptime_s] *)
Definition now_uptime_s : T Z := sgets (λ s, v_uptime_s (nd_env (mt_node s))).

(** Node fields that only the mesh task writes. *)
Definition set_id (n : node) x := mk_node x (nd_key n) (nd_flood_transport n) (nd_flood_hop_limit n)
  (nd_channels n) (nd_default_channel_idx n) (nd_pins n) (nd_neighbors n) (nd_table n) (nd_rehs n)
  (nd_eph n) (nd_hs n) (nd_queue n) (nd_work n) (nd_acks n) (nd_msgs n) (nd_counter n) (nd_env n) (nd_out n).
Definition set_pins (n : node) x := mk_node (nd_id n) (nd_key n) (nd_flood_transport n)
  (nd_flood_hop_limit n) (nd_channels n) (nd_default_channel_idx n) x (nd_neighbors n) (nd_table n)
  (nd_rehs n) (nd_eph n) (nd_hs n) (nd_queue n) (nd_work n) (nd_acks n) (nd_msgs n) (nd_counter n)
  (nd_env n) (nd_out n).
