(* ===== verification/MeshSend.v ===== *)
(** * Sending ([main/mesh_task.c]: [mesh_send_broadcast] to [mesh_flush_parked_for],
      [flush_queued_messages], [sweep_parked_messages]; [main/rreq_pseudonym.c];
      [mailbox_flush_for] of [main/mesh_mailbox.c])

    What a node does with a text of its user: broadcasts with and without
    fragmentation, direct messages with the wait for a route or a session, the
    messages parked for a peer that did not answer, and mail held for others. *)

From stdpp Require Import base strings numbers sets option decidable list.
From S2P Require Import Prelude Tables Packet Fragment Mailbox TxGate Reliability Routing NetworkKey.
From S2P Require Import RoutingAuth Discovery ChannelFlood Security MeshRouting DmCrypto DmTable Identity.
From S2P Require Import Channel MsgStore MeshDm Receipts MeshRx ParkedRetry Beacon MeshState.

(** ** Pieces of the state *)

Definition set_routing (f : mesh → mesh) : T unit :=
  smodify (λ s, mset_rx s (rset_mesh (mt_rx s) (f (rx_mesh (mt_rx s))))).
Definition t_neighbors (f : neighbor_table_t → neighbor_table_t) : T unit :=
  on_nd (modify (λ n, set_neighbors n (f (nd_neighbors n)))).
Definition set_queued (i : nat) (q : queued_msg_t) : M unit :=
  modify (λ n, set_queue n (<[i := q]> (nd_queue n))).
(** [msg_store_add_channel(peer, dir, text, len, 0, 0, packet_id, status, channel)] *)
Definition msgs_add_channel (peer : Z) (dir : msg_direction_t) (text : list Z) (packet_id : Z)
    (status : msg_status_t) (channel : Z) : M unit := λ n,
  let '(st, ps) := msg_store_add_channel (nd_msgs n) peer dir text 0 0 packet_id status channel
                     (v_uptime_s (nd_env n)) in
  Some (tt, set_out (set_msgs n st) (nd_out n ++ [DPersist ps])).
Definition msgs_unpark (uid : Z) : M bool := λ n,
  let '(ok, st, ps) := msg_store_unpark (nd_msgs n) uid in
  Some (ok, set_out (set_msgs n st) (nd_out n ++ [DPersist ps])).
Definition msgs_expire_parked (now_s : Z) : M Z := λ n,
  match msg_store_expire_parked (nd_msgs n) now_s with
  | None => None
  | Some (k, st, ps) => Some (k, set_out (set_msgs n st) (nd_out n ++ [DPersist ps]))
  end.
Definition tx_events (evs : list mesh_event) : M unit :=
  for_each evs (λ e, match e with EvTx f k => mesh_tx f k ;; mret tt | _ => mret tt end).

Definition rreq_pseudonym_generate (hmac : list Z → list Z → list Z) (private_key : list Z)
    (address query_id : Z) : Z :=
  le32_val (take 4 (hmac private_key (le32_bytes address ++ le32_bytes query_id))).

Section Send.
Context `{DC : DmCrypto} `{IC : IdCrypto} (hmac : list Z → list Z → list Z).

(** ** Broadcasts *)

Definition channel_at (s : mt) (idx : Z) : option bramble_channel_t :=
  nd_channels (mt_node s) !! Z.to_nat idx.
(** [send_data_packet(dest, data, len, &s_channels[idx], 0x01)] *)
Definition send_on_channel (idx dest_addr : Z) (payload : list Z) : T Z :=
  s ← sget;
  ch ← slift (channel_at s idx);
  on_nd (send_data_packet hmac dest_addr payload ch APP_TYPE_CHAT).
Definition note_broadcast (first : bool) (pkt_id : Z) : T unit :=
  swhen first (smodify (λ s, mset_last_broadcast s pkt_id)) ;;
  on_rx (recent_broadcast_record pkt_id).

(** The loop over the fragments; the id of the first one, zero if it failed. *)
Fixpoint send_fragments (idx dest_addr : Z) (frags : list fragment_t) (i : nat) (first_pkt_id : Z) : T Z :=
  match frags with
  | [] => mret first_pkt_id
  | f :: frags =>
      data ← slift (rdn (fr_data f) 0 (fr_len f));
      pkt_id ← send_on_channel idx dest_addr data;
      swhen (negb (pkt_id =? 0)) (swhen (dest_addr =? UINT32_MAX) (note_broadcast (i =? 0)%nat pkt_id)) ;;
      send_fragments idx dest_addr frags (S i)
        (if (i =? 0)%nat && negb (pkt_id =? 0) then pkt_id else first_pkt_id)
  end.
(** Allocation, splitting and the loop; [None]: it gave up before the first fragment. *)
Definition send_fragmented (idx dest_addr : Z) (data : list Z) : T (option Z) :=
  msg_id ← on_nd next_packet_id;
  ok ← on_rx malloc_ok;
  if negb ok then mret None else
  '(num_frags, frags) ← slift (fragment_split data (Z.land msg_id 65535)
     (replicate FRAG_MAX_FRAGMENTS (mk_fragment (replicate (FRAG_HEADER_SIZE + FRAG_MAX_PLAINTEXT) 0) 0))
     FRAG_MAX_FRAGMENTS);
  match num_frags with
  | None => mret None
  | Some n => first ← send_fragments idx dest_addr (take n frags) 0 0; mret (Some first)
  end.

(** The verdict of the airtime pre-check is drawn. *)
Definition mesh_send_broadcast (data : list Z) : T Z :=
  s ← sget;
  match nd_channels (mt_node s) with
  | [] => mret (-1)
  | ch :: _ =>
      if negb (chn_channel_id ch =? 0) then mret (-1) else
      ok ← on_rx draw_check;
      if negb ok then mret (-2) else
      if (FRAG_MAX_PLAINTEXT <? length data)%nat then
        first ← send_fragmented 0 UINT32_MAX data;
        match first with
        | None => mret (-1)
        | Some first_pkt_id =>
            on_nd (msgs_add_channel UINT32_MAX MSG_DIR_BROADCAST_OUT data first_pkt_id MSG_STATUS_NONE 0) ;;
            mret 0
        end
      else
        pkt_id ← send_on_channel 0 UINT32_MAX data;
        swhen (negb (pkt_id =? 0))
          (note_broadcast true pkt_id ;;
           on_nd (msgs_add_channel UINT32_MAX MSG_DIR_BROADCAST_OUT data pkt_id MSG_STATUS_NONE 0)) ;;
        mret (if negb (pkt_id =? 0) then 0 else -1)
  end.

Definition num_channels (s : mt) : Z := Z.of_nat (length (nd_channels (mt_node s))).
Definition mesh_send_channel_uid (channel_idx dest_addr : Z) (data : list Z) (uid : Z) : T Z :=
  s ← sget;
  if (channel_idx <? 0) || (channel_idx >=? num_channels s) then
    on_nd (msgs_update_by_uid uid 0 MSG_STATUS_FAILED) ;; mret 0
  else if negb (dest_addr =? UINT32_MAX) then on_nd (mesh_send_dm hmac channel_idx dest_addr data uid)
  else
    let public := (dest_addr =? UINT32_MAX) && (channel_idx =? 0) in
    let dir := if public then MSG_DIR_BROADCAST_OUT else MSG_DIR_OUTGOING in
    let status := if public then MSG_STATUS_NONE else MSG_STATUS_SENT in
    if (FRAG_MAX_PLAINTEXT <? length data)%nat then
      first ← send_fragmented channel_idx dest_addr data;
      match first with
      | None => mret 0
      | Some first_pkt_id =>
          swhen (negb (first_pkt_id =? 0))
            (on_nd (msgs_add_channel dest_addr dir data first_pkt_id status (u8 channel_idx))) ;;
          mret first_pkt_id
      end
    else
      pkt_id ← send_on_channel channel_idx dest_addr data;
      swhen (negb (pkt_id =? 0))
        (swhen (dest_addr =? UINT32_MAX) (note_broadcast true pkt_id) ;;
         on_nd (msgs_add_channel dest_addr dir data pkt_id status (u8 channel_idx))) ;;
      mret pkt_id.
Definition mesh_send_channel (channel_idx dest_addr : Z) (data : list Z) : T Z :=
  mesh_send_channel_uid channel_idx dest_addr data 0.

(** ** Waiting for a route *)

(** [data] is copied into an array of [BRAMBLE_MAX_PACKET_SIZE] bytes. *)
Definition queue_message (dest_addr : Z) (data : list Z) (uid : Z) : M Z :=
  n ← get;
  if negb (uid =? 0) && existsb (queued_for_uid uid) (nd_queue n) then mret 0
  else
    match find_index (λ q, negb (qm_used q)) (nd_queue n) with
    | None => mret (-3)
    | Some i =>
        lift (if (BRAMBLE_MAX_PACKET_SIZE <? length data)%nat then None else Some tt) ;;
        set_queued i (mk_queued dest_addr data (v_now (nd_env n)) true QUEUE_REASON_ROUTE 0 uid 0) ;;
        mret 0
    end.

Definition originate_rreq (dest_addr query_id hop_limit : Z) : T unit :=
  s ← sget;
  let id := nd_id (mt_node s) in
  let pseudonym := rreq_pseudonym_generate hmac (id_private_key id) (id_address id) query_id in
  evs ← slift (send_rreq (rreq_build_originator (id_address id) dest_addr query_id pseudonym hop_limit));
  on_nd (tx_events evs).
Definition initiate_discovery (dest_addr : Z) : T Z :=
  now ← tnow;
  s ← sget;
  let '(ok, rl) := rreq_rate_allow (mt_rreq_rl s) (id_address (nd_id (mt_node s))) dest_addr now in
  smodify (λ s, mset_rreq_rl s rl) ;;
  if negb ok then mret (-1)
  else
    query_id ← on_nd next_packet_id;
    set_routing (λ m, set_pending_disc m (discovery_start (s_pending_disc m) dest_addr query_id now).2) ;;
    originate_rreq dest_addr query_id (discovery_hop_limit_for_attempt 1) ;;
    mret 0.

(** [!route || route->state == ROUTE_BROKEN || route->state == ROUTE_DISCOVERING] *)
Definition route_missing (routes : routing_table_t) (dest_addr : Z) : bool :=
  match route_lookup routes dest_addr with
  | None => true
  | Some e => bool_decide (rt_state e = ROUTE_BROKEN) || bool_decide (rt_state e = ROUTE_DISCOVERING)
  end.
(** Not under flood transport, not a neighbor and no usable route. *)
Definition must_discover (s : mt) (dest_addr : Z) : bool :=
  negb (nd_flood_transport (mt_node s)) &&
  negb (bool_decide (is_Some (neighbor_lookup (nd_neighbors (mt_node s)) dest_addr))) &&
  route_missing (s_routes (rx_mesh (mt_rx s))) dest_addr.

Definition mesh_send_message_uid (dest_addr : Z) (data : list Z) (uid : Z) : T Z :=
  s ← sget;
  if num_channels s =? 0 then on_nd (msgs_update_by_uid uid 0 MSG_STATUS_FAILED) ;; mret 0
  else if must_discover s dest_addr then
    (match discovery_lookup (s_pending_disc (rx_mesh (mt_rx s))) dest_addr with
     | Some _ => mret tt
     | None => initiate_discovery dest_addr ;; mret tt
     end) ;;
    row_uid ← (if negb (uid =? 0) then mret uid else on_nd msgs_next_uid);
    rc ← on_nd (queue_message dest_addr data row_uid);
    if negb (rc =? 0) then on_nd (msgs_update_by_uid uid 0 MSG_STATUS_FAILED) ;; mret 0
    else
      swhen (uid =? 0) (on_nd (msgs_add_dm_uid dest_addr data 0 MSG_STATUS_NONE row_uid)) ;;
      mret 1
  else
    let idx := nd_default_channel_idx (mt_node s) in
    let send_idx := if (idx <? 0) || (idx >=? num_channels s) then 0 else idx in
    mesh_send_channel_uid send_idx dest_addr data uid.
Definition mesh_send_message (dest_addr : Z) (data : list Z) : T Z := mesh_send_message_uid dest_addr data 0.
Definition mesh_resend_message (dest_addr : Z) (data : list Z) (uid : Z) : T Z :=
  mesh_send_message_uid dest_addr data uid.

Definition queued_for_route (dest_addr : Z) (q : queued_msg_t) : bool :=
  qm_used q && bool_decide (qm_reason q = QUEUE_REASON_ROUTE) && (qm_dest_addr q =? dest_addr).
(** The entry stops matching its uid before the send and is freed after it. *)
Definition with_uid (q : queued_msg_t) (uid : Z) : queued_msg_t :=
  mk_queued (qm_dest_addr q) (qm_data q) (qm_timestamp q) (qm_used q) (qm_reason q) (qm_pkt_id q) uid
    (qm_channel_idx q).
Definition flush_queued_messages (dest_addr : Z) : T unit :=
  sfor (seq 0 MAX_QUEUED_MSGS) (λ i,
    s ← sget;
    let q := nd_queue (mt_node s) !!! i in
    swhen (queued_for_route dest_addr q)
      (on_nd (set_queued i (with_uid q 0)) ;;
       mesh_send_message_uid dest_addr (qm_data q) (qm_uid q) ;;
       on_nd (queue_release i))).

(** ** Parked messages *)

Definition mesh_park_window_open (uid : Z) : T bool :=
  now_s ← now_uptime_s;
  sgets (λ s, msg_store_park_window_open (nd_msgs (mt_node s)) uid now_s).
Definition mesh_park_message (uid : Z) : T bool :=
  if uid =? 0 then mret false else
  open ← mesh_park_window_open uid;
  if negb open then mret false else
  ok ← on_nd (msgs_update_by_uid uid 0 MSG_STATUS_QUEUED);
  if negb ok then mret false else
  s ← sget;
  match msg_store_peer_for_uid (nd_msgs (mt_node s)) uid with
  | None => mret true
  | Some peer_addr =>
      t ← tnow;
      t_neighbors (λ nb, (parked_retry_arm nb peer_addr t).2) ;;
      mret true
  end.
Definition mesh_cancel_parked_message (uid : Z) : T bool := on_nd (msgs_unpark uid).

(** The row, unless it was evicted or its last frame awaits its acknowledgement. *)
Definition flush_parked_row (uid : Z) : T unit :=
  s ← sget;
  match msg_store_get_copy_by_uid (nd_msgs (mt_node s)) uid with
  | None => mret tt
  | Some msg =>
      if pending_ack_is_active (nd_acks (mt_node s)) (m_packet_id msg) then mret tt
      else mesh_resend_message (m_peer_addr msg) (m_text msg) (m_uid msg) ;; mret tt
  end.
Definition mesh_flush_parked_for (peer_addr : Z) : T Z :=
  now_s ← now_uptime_s;
  s ← sget;
  let uids := msg_store_parked_uids_for_peer (nd_msgs (mt_node s)) peer_addr false
                (Z.of_nat MSG_STORE_MAX) now_s in
  sfor uids flush_parked_row ;;
  mret (Z.of_nat (length uids)).

Definition sweep_parked_messages (t : Z) : T unit :=
  s ← sget;
  let '(due, sweep) := parked_retry_sweep_due (mt_sweep s) t in
  smodify (λ s, mset_sweep s sweep) ;;
  if negb due then mret tt else
  now_s ← now_uptime_s;
  on_nd (msgs_expire_parked now_s) ;;
  s ← sget;
  match msg_store_next_parked_peer (nd_msgs (mt_node s)) (sw_last_peer (mt_sweep s)) now_s with
  | None => mret tt
  | Some peer =>
      if parked_retry_sweep_defers_to_beacon (nd_neighbors (mt_node s)) peer then
        smodify (λ s, mset_sweep s (parked_retry_sweep_skipped (mt_sweep s) peer))
      else
        smodify (λ s, mset_sweep s (parked_retry_swept (mt_sweep s) peer t)) ;;
        mesh_flush_parked_for peer ;; mret tt
  end.
End Send.

(** ** Mail held for others *)

Definition on_mailbox (f : mailbox_t → option mailbox_t) : T unit :=
  s ← sget;
  mb ← slift (f (s_mailbox (rx_mesh (mt_rx s))));
  set_routing (λ m, set_mailbox m mb).
(** A stored frame goes out with this node as its previous hop. *)
Definition restamped (addr : Z) (e : mailbox_entry_t) : option (list Z) :=
  if (BRAMBLE_DATA_PREV_HOP_OFFSET + 4 <=? me_payload_len e)%nat
  then wr (me_payload e) BRAMBLE_DATA_PREV_HOP_OFFSET (le32_bytes addr) else Some (me_payload e).
Definition mailbox_flush_one (e : mailbox_entry_t) : T unit :=
  s ← sget;
  payload ← slift (restamped (id_address (nd_id (mt_node s))) e);
  frame ← slift (rdn payload 0 (me_payload_len e));
  ok ← on_nd (mesh_tx frame TX_KIND_MAILBOX);
  swhen (negb ok)
    (on_mailbox (λ mb, snd <$> mailbox_store mb (me_src_addr e) (me_dest_addr e) payload
                                 (me_payload_len e) (me_packet_id e) (me_stored_at_ms e))).
Definition mailbox_flush_for (dest_addr : Z) : T unit :=
  s ← sget;
  let '(entries, mb) := mailbox_retrieve (s_mailbox (rx_mesh (mt_rx s))) dest_addr MAILBOX_MAX_PER_DEST in
  set_routing (λ m, set_mailbox m mb) ;;
  sfor entries mailbox_flush_one.
