(* ===== verification/MeshSendSpec.v ===== *)
(** * What sending promises

    Triples over the mesh task's state, the queue of waiting messages, and the
    theorems about sends, queued rows and parked messages. *)

From stdpp Require Import base strings numbers sets option decidable list.
From S2P Require Import Prelude Tables Packet PacketSpec Fragment Mailbox TxGate Reliability Routing.
From S2P Require Import NetworkKey RoutingAuth Discovery ChannelFlood Security MeshRouting MeshRoutingSpec.
From S2P Require Import DmCrypto DmRatchet.
From S2P Require Import DmTable Identity IdentityStore Channel MsgStore MsgStoreSpec MeshDm MeshDmSpec.
From S2P Require Import Receipts MeshRx MeshRxSpec ParkedRetry Beacon MeshState MeshSend.

Create HintDb mt.

(** ** Triples

    [swp m s Q]: from [s] the handler returns, and [Q] holds of its result and the
    state it leaves. *)
Definition swp {S A} (m : St S A) (s : S) (Q : A → S → Prop) : Prop :=
  match m s with Some (x, s') => Q x s' | None => False end.

Section Triples.
Context {S : Type}.
Implicit Types (s : S).
Lemma swp_ret {A} (x : A) s (Q : A → S → Prop) : Q x s → swp (mret x) s Q.
Proof. done. Qed.
Lemma swp_bind {A B} (m : St S A) (k : A → St S B) s (Q : B → S → Prop) :
  swp m s (λ x s', swp (k x) s' Q) → swp (m ≫= k) s Q.
Proof. unfold swp, mbind, St_bind. destruct (m s) as [[x s']|]; done. Qed.
Lemma swp_mono {A} (m : St S A) s (Q Q' : A → S → Prop) :
  swp m s Q → (∀ x s', Q x s' → Q' x s') → swp m s Q'.
Proof. unfold swp. destruct (m s) as [[x s']|]; [|done]. intros H HQ. by apply HQ. Qed.
Lemma swp_get s (Q : S → S → Prop) : Q s s → swp sget s Q.
Proof. done. Qed.
Lemma swp_gets {A} (f : S → A) s (Q : A → S → Prop) : Q (f s) s → swp (sgets f) s Q.
Proof. done. Qed.
Lemma swp_modify f s (Q : unit → S → Prop) : Q tt (f s) → swp (smodify f) s Q.
Proof. done. Qed.
Lemma swp_lift {A} (o : option A) x s (Q : A → S → Prop) : o = Some x → Q x s → swp (slift o) s Q.
Proof. unfold swp, slift. by intros ->. Qed.
Lemma swp_when b m s (Q : unit → S → Prop) :
  (b = true → swp m s Q) → (b = false → Q tt s) → swp (swhen b m) s Q.
Proof. unfold swhen. destruct b; intros H1 H2; [by apply H1|]. apply swp_ret. by apply H2. Qed.
Lemma swp_for {A} (l : list A) (f : A → St S unit) (I : S → Prop) s :
  I s → (∀ x s, x ∈ l → I s → swp (f x) s (λ _ s', I s')) → swp (sfor l f) s (λ _ s', I s').
Proof.
  revert s. induction l as [|x l IH]; intros s Hs Hf; cbn [sfor]; [by apply swp_ret|].
  apply swp_bind. eapply swp_mono; [apply Hf; [left|done]|]. intros [] s' Hs'.
  apply IH; [done|]. intros y t Hy. apply Hf. by right.
Qed.
Lemma swp_elim {A} (m : St S A) s (Q : A → S → Prop) :
  swp m s Q → ∃ x s', m s = Some (x, s') ∧ Q x s'.
Proof. unfold swp. destruct (m s) as [[x s']|]; [|done]. eauto. Qed.
Lemma swp_zoom {P A} (view : S → P) put (m : St P A) s (Q : A → S → Prop) :
  swp m (view s) (λ x p, Q x (put s p)) → swp (zoom view put m) s Q.
Proof. unfold swp, zoom. by destruct (m (view s)) as [[x p]|]. Qed.
End Triples.
Lemma swp_nd {A} (m : M A) s (Q : A → mt → Prop) :
  wp m (mt_node s) (λ x n, Q x (mset_node s n)) → swp (on_nd m) s Q.
Proof. apply swp_zoom. Qed.

(** ** Steps along a relation

    Where the handler returns, it has moved along [R]. *)
Definition moves {S} (R : S → S → Prop) {A} (m : St S A) : Prop :=
  ∀ s x s', m s = Some (x, s') → R s s'.

Section Moves.
Context {S : Type} (R : S → S → Prop) `{HR : !PreOrder R}.
Lemma moves_ret {A} (x : A) : moves R (mret (M:=St S) x).
Proof. by intros s y s' [= <- <-]. Qed.
Lemma moves_bind {A B} (m : St S A) (k : A → St S B) :
  moves R m → (∀ x, moves R (k x)) → moves R (m ≫= k).
Proof.
  intros Hm Hk s y s2 H. unfold mbind, St_bind in H. destruct (m s) as [[x s1]|] eqn:E; [|done].
  transitivity s1; [by eapply Hm|by eapply Hk].
Qed.
Lemma moves_get : moves R (sget (S:=S)).
Proof. by intros s y s' [= <- <-]. Qed.
Lemma moves_gets {A} (f : S → A) : moves R (sgets f).
Proof. by intros s y s' [= <- <-]. Qed.
Lemma moves_lift {A} (o : option A) : moves R (slift (S:=S) o).
Proof. intros s y s'. unfold slift. destruct o; [|done]. by intros [= <- <-]. Qed.
Lemma moves_modify f : (∀ s, R s (f s)) → moves R (smodify f).
Proof. intros Hf s y s' [= <- <-]. apply Hf. Qed.
Lemma moves_when b m : moves R m → moves R (swhen b m).
Proof. destruct b; [done|]. intros _. apply moves_ret. Qed.
Lemma moves_for {A} (l : list A) (f : A → St S unit) : (∀ x, moves R (f x)) → moves R (sfor l f).
Proof. intros Hf. induction l as [|x l IH]; cbn [sfor]; [apply moves_ret|]. by apply moves_bind. Qed.
End Moves.
(** A run that returns and moves. *)
Lemma swp_moves {S A} (R : S → S → Prop) (m : St S A) s (Q : A → S → Prop) :
  moves R m → swp m s Q → swp m s (λ x s', Q x s' ∧ R s s').
Proof. unfold swp. intros HR. destruct (m s) as [[x s']|] eqn:E; [|done]. split; [done|by eapply HR]. Qed.
Lemma moves_zoom {S P A} (R : S → S → Prop) (R' : P → P → Prop) (view : S → P) put (m : St P A) :
  (∀ s p, R' (view s) p → R s (put s p)) → moves R' m → moves R (zoom view put m).
Proof.
  intros Hput Hm s x s'. unfold zoom. destruct (m (view s)) as [[y p]|] eqn:E; [|done].
  intros [= <- <-]. apply Hput. by eapply Hm.
Qed.
(** [P] is kept. *)
Definition pres {S} (P : S → Prop) (s s' : S) : Prop := P s → P s'.
#[global] Instance pres_po {S} (P : S → Prop) : PreOrder (pres P).
Proof. split; unfold pres; [by intros s|]. intros a b c ? ?. auto. Qed.

Lemma moves_mono {S A} (R R' : S → S → Prop) (m : St S A) :
  (∀ s s', R s s' → R' s s') → moves R m → moves R' m.
Proof. intros Hm H s x s' E. eapply Hm, H, E. Qed.

(** ** The waiting messages and the log *)

(** At most one entry per message, each within its array. *)
Definition queue_ok (q : list queued_msg_t) : Prop :=
  (∀ i j a b, q !! i = Some a → q !! j = Some b → qm_used a = true → qm_used b = true →
     qm_uid a = qm_uid b → qm_uid a ≠ 0 → i = j) ∧
  Forall (λ e, length (qm_data e) ≤ BRAMBLE_MAX_PACKET_SIZE)%nat q.
(** Texts of direct messages of this node fit a queue entry. *)
Definition row_short (m : stored_msg_t) : Prop :=
  m_direction m = MSG_DIR_OUTGOING → m_channel_index m < 0 → (length (m_text m) ≤ BRAMBLE_MAX_PACKET_SIZE)%nat.
Definition store_ok (st : msg_store) : Prop := store_wf st ∧ Forall row_short (log st).
Definition send_inv (n : node) : Prop := queue_ok (nd_queue n) ∧ store_ok (nd_msgs n).

Lemma queue_ok_insert q i e :
  queue_ok q → (length (qm_data e) ≤ BRAMBLE_MAX_PACKET_SIZE)%nat →
  (qm_used e = true → qm_uid e ≠ 0 →
   ∀ j b, j ≠ i → q !! j = Some b → qm_used b = true → qm_uid b ≠ qm_uid e) →
  queue_ok (<[i := e]> q).
Proof.
  intros [Hu Hl] Hlen Hf. split; [|by apply Forall_insert]. intros j k a b Hj Hk Ua Ub E N.
  apply list_lookup_insert_Some in Hj, Hk.
  destruct Hj as [(<- & <- & _)|[Hij Hj]], Hk as [(<- & <- & _)|[Hik Hk]]; [done|..].
  - exfalso. eapply Hf; [done|done| |exact Hk|done|done]. congruence.
  - exfalso. eapply Hf; [done|congruence| |exact Hj|done|done]. congruence.
  - by eapply Hu.
Qed.
Lemma queued_for_fresh uid q :
  existsb (queued_for_uid uid) q = false →
  ∀ j b, q !! j = Some b → qm_used b = true → qm_uid b ≠ uid.
Proof.
  intros H j b Hb Hu E. assert (Ht : existsb (queued_for_uid uid) q = true); [|by rewrite Ht in H].
  apply existsb_exists. exists b. split; [apply list_elem_of_In; by eapply list_elem_of_lookup_2|].
  unfold queued_for_uid. rewrite Hu, E, Z.eqb_refl. done.
Qed.

(** Rows change only as [same_message] says, so short rows stay short. *)
Lemma short_step o l l' : Forall2 (row_step o) l l' → Forall row_short l → Forall row_short l'.
Proof.
  induction 1 as [|m m' l l' Hm _ IH]; [done|]. inversion_clear 1 as [|? ? Hs Hl]. constructor; [|auto].
  destruct Hm as [Hsame _]. unfold row_short in *. unfold same_message in Hsame. naive_solver congruence.
Qed.

Lemma added_short st p d t r s pid status ch uid up :
  ((ch < 0)%Z → length t ≤ BRAMBLE_MAX_PACKET_SIZE)%nat →
  row_short (added st p d t r s pid status ch uid up).
Proof.
  intros Ht _ Hc. unfold added. cbn [m_text]. rewrite length_take. specialize (Ht Hc). lia.
Qed.
Lemma store_ok_add st p d t r s pid status ch uid up :
  ((ch < 0)%Z → length t ≤ BRAMBLE_MAX_PACKET_SIZE)%nat → store_ok st →
  store_ok (msg_store_add_full st p d t r s pid status ch uid up).1.
Proof.
  intros Ht [Hwf Hs]. pose proof (add_step st p d t r s pid status ch uid up Hwf) as Ha.
  destruct (msg_store_add_full _ _ _ _ _ _ _ _ _ _ _) as [st' w]. destruct Ha as (Hwf' & Hl & _).
  split; [done|]. cbn [fst]. rewrite Hl. unfold last_rows. apply Forall_drop, Forall_app.
  split; [done|]. constructor; [by apply added_short|constructor].
Qed.
Lemma store_ok_uid st uid pid status : store_ok st → store_ok (msg_store_update_by_uid st uid pid status).1.2.
Proof.
  intros [Hwf Hs]. pose proof (update_by_uid_step st uid pid status Hwf) as H.
  destruct (msg_store_update_by_uid _ _ _ _) as [[ok st'] w]. destruct H as (Hwf' & Hr & _).
  split; [done|by eapply short_step].
Qed.
Lemma store_ok_unpark st uid : store_ok st → store_ok (msg_store_unpark st uid).1.2.
Proof.
  intros [Hwf Hs]. pose proof (unpark_step st uid Hwf) as H.
  destruct (msg_store_unpark _ _) as [[ok st'] w]. destruct H as (Hwf' & Hr & _).
  split; [done|by eapply short_step].
Qed.
Lemma store_ok_expire st now_s :
  store_ok st → ∃ k st' ws, msg_store_expire_parked st now_s = Some (k, st', ws) ∧ store_ok st'.
Proof.
  intros [Hwf Hs]. destruct (expire_parked_spec st now_s Hwf) as (st' & ws & E & Hwf' & Hl & _).
  do 3 eexists. split; [exact E|]. split; [done|]. rewrite Hl. apply Forall_fmap.
  eapply Forall_impl; [exact Hs|]. intros m Hm. unfold compose, expire_row. by destruct (overdue now_s m).
Qed.

(** ** Steps of the node *)

(** Queue and log stay as they are. *)
Definition same_qm (n n' : node) : Prop := nd_queue n' = nd_queue n ∧ nd_msgs n' = nd_msgs n.
#[global] Instance same_qm_po : PreOrder same_qm.
Proof. split; unfold same_qm; [done|]. intros a b c [? ?] [? ?]. split; congruence. Qed.
Lemma same_qm_inv n n' : same_qm n n' → pres send_inv n n'.
Proof. intros [Hq Hm]. unfold pres, send_inv. by rewrite Hq, Hm. Qed.
Lemma moves_qm {A} (m : M A) : moves same_qm m → moves (pres send_inv) m.
Proof. apply moves_mono, same_qm_inv. Qed.

Lemma qm_tx f k : moves same_qm (mesh_tx f k : St node bool).
Proof. by intros n x n' [= <- <-]. Qed.
Lemma qm_generate : moves same_qm (crypto_generate_identity : St node _).
Proof. by intros n x n' [= <- <-]. Qed.
Lemma qm_nonce : moves same_qm (nonce_next : St node _).
Proof. by intros n x n' [= <- <-]. Qed.
Lemma qm_packet_id : moves same_qm (next_packet_id : St node _).
Proof. intros n x n'. unfold next_packet_id. destruct (nd_counter n =? 0); by intros [= <- <-]. Qed.
Lemma qm_emit e : moves same_qm (emit e : St node _).
Proof. by intros n x n' [= <- <-]. Qed.
Lemma qm_set_session i x : moves same_qm (set_session i x : St node _).
Proof. by intros n y n' [= <- <-]. Qed.
Lemma qm_modify f : (∀ n, same_qm n (f n)) → moves same_qm (modify f : St node _).
Proof. intros Hf n y n' [= <- <-]. apply Hf. Qed.
Lemma qm_now : moves same_qm (now_ms : St node _).
Proof. by intros n y n' [= <- <-]. Qed.
#[export] Hint Resolve qm_tx qm_generate qm_nonce qm_packet_id qm_emit qm_set_session qm_now : mt.

Section NodeMoves.
Context (R : node → node → Prop) `{HR : !PreOrder R}.
Lemma nm_ret {A} (x : A) : moves R (mret x : M A).
Proof. exact (moves_ret R x). Qed.
Lemma nm_bind {A B} (m : M A) (k : A → M B) : moves R m → (∀ x, moves R (k x)) → moves R (m ≫= k).
Proof. exact (moves_bind R m k). Qed.
Lemma nm_get : moves R (get : St node _).
Proof. exact (moves_get R). Qed.
Lemma nm_gets {A} (f : node → A) : moves R (gets f : St node _).
Proof. exact (moves_gets R f). Qed.
Lemma nm_lift {A} (o : option A) : moves R (lift o : St node _).
Proof. exact (moves_lift R o). Qed.
Lemma nm_when b (m : M unit) : moves R m → moves R (when b m : St node _).
Proof. exact (moves_when R b m). Qed.
End NodeMoves.
#[export] Hint Resolve nm_ret nm_get nm_gets nm_lift nm_when : mt.
#[export] Hint Extern 0 (PreOrder _) => typeclasses eauto : mt.
#[export] Hint Extern 5 (moves (pres send_inv) _) => apply moves_qm : mt.
(** Closes [moves] goals over node handlers along their structure. *)
Ltac nmoves :=
  repeat first
    [ progress auto with mt
    | apply nm_bind; [typeclasses eauto| |intros]
    | apply nm_when; [typeclasses eauto|]
    | apply qm_modify; intros; by split
    | apply moves_qm, qm_modify; intros; by split
    | match goal with |- moves _ (if ?b then _ else _) => destruct b end
    | match goal with |- moves _ (match ?x with _ => _ end) => destruct x end
    | progress cbn zeta ].

(** ** Steps that keep the invariant *)

Lemma inv_store n st out : send_inv n → store_ok st → send_inv (set_out (set_msgs n st) out).
Proof. by intros [? _] ?. Qed.
Lemma inv_update uid pid status : moves (pres send_inv) (msgs_update_by_uid uid pid status : St node _).
Proof.
  intros n x n'. unfold msgs_update_by_uid. pose proof (store_ok_uid (nd_msgs n) uid pid status) as Hs.
  destruct (msg_store_update_by_uid _ _ _ _) as [[ok st] w]. intros [= <- <-] Hn.
  apply inv_store; [done|]. apply Hs, Hn.
Qed.
Lemma inv_unpark uid : moves (pres send_inv) (msgs_unpark uid : St node _).
Proof.
  intros n x n'. unfold msgs_unpark. pose proof (store_ok_unpark (nd_msgs n) uid) as Hs.
  destruct (msg_store_unpark _ _) as [[ok st] w]. intros [= <- <-] Hn.
  apply inv_store; [done|]. apply Hs, Hn.
Qed.
Lemma inv_next_uid : moves (pres send_inv) (msgs_next_uid : St node _).
Proof. by intros n x n' [= <- <-] [? ?]. Qed.
Lemma inv_add_dm peer text pid status uid :
  (length text ≤ BRAMBLE_MAX_PACKET_SIZE)%nat →
  moves (pres send_inv) (msgs_add_dm_uid peer text pid status uid : St node _).
Proof.
  intros Ht n x n'. unfold msgs_add_dm_uid, msg_store_add_dm_uid.
  pose proof (store_ok_add (nd_msgs n) peer MSG_DIR_OUTGOING text 0 0 pid status MSG_STORE_DM_CHANNEL uid
    (v_uptime_s (nd_env n)) (λ _, Ht)) as Hs.
  destruct (msg_store_add_full _ _ _ _ _ _ _ _ _ _ _) as [st w]. intros [= <- <-] Hn.
  apply inv_store; [done|]. apply Hs, Hn.
Qed.
Lemma inv_add_channel peer dir text pid status ch :
  0 ≤ ch → moves (pres send_inv) (msgs_add_channel peer dir text pid status ch : St node _).
Proof.
  intros Hc n x n'. unfold msgs_add_channel, msg_store_add_channel, msg_store_add_ex2.
  pose proof (store_ok_add (nd_msgs n) peer dir text 0 0 pid status ch 0 (v_uptime_s (nd_env n))) as Hs.
  destruct (msg_store_add_full _ _ _ _ _ _ _ _ _ _ _) as [st w]. intros [= <- <-] Hn.
  apply inv_store; [done|]. apply Hs; [lia|apply Hn].
Qed.
#[export] Hint Resolve inv_update inv_unpark inv_next_uid : mt.

(** Writing an entry of a message that is not queued yet, or not queued any more. *)
Lemma inv_set_queued i e :
  (length (qm_data e) ≤ BRAMBLE_MAX_PACKET_SIZE)%nat →
  ∀ n x n', set_queued i e n = Some (x, n') → 
  (qm_used e = true → qm_uid e ≠ 0 →
   ∀ j b, j ≠ i → nd_queue n !! j = Some b → qm_used b = true → qm_uid b ≠ qm_uid e) →
  pres send_inv n n'.
Proof. intros Hl n x n' [= <- <-] Hf [Hq ?]. split; [by apply queue_ok_insert|done]. Qed.
Lemma queue_entry_short n i : queue_ok (nd_queue n) →
  (length (qm_data (nd_queue n !!! i)) ≤ BRAMBLE_MAX_PACKET_SIZE)%nat.
Proof.
  intros [_ Hl]. rewrite list_lookup_total_alt. destruct (nd_queue n !! i) as [e|] eqn:E.
  - exact (Forall_lookup_1 _ _ _ _ Hl E).
  - cbn. lia.
Qed.
Lemma inv_release i : moves (pres send_inv) (queue_release i : St node _).
Proof.
  intros n x n' [= <- <-] Hn. pose proof (queue_entry_short n i (proj1 Hn)) as Hl.
  destruct Hn as [Hq ?]. split; [|done]. by apply queue_ok_insert.
Qed.
#[export] Hint Resolve inv_release : mt.

Lemma inv_queue_put i dest data idx uid n x n' :
  (length data ≤ BRAMBLE_MAX_PACKET_SIZE)%nat →
  (uid ≠ 0 → ∀ j b, j ≠ i → nd_queue n !! j = Some b → qm_used b = true → qm_uid b ≠ uid) →
  queue_put i dest data idx uid n = Some (x, n') → pres send_inv n n'.
Proof.
  intros Hl Hf. unfold queue_put, mbind, M_bind. rewrite in_buf_fits by done. cbn [lift].
  destruct (next_packet_id n) as [[pkt n1]|] eqn:E; [|done].
  apply qm_packet_id in E as E1. intros [= <- <-] Hn. pose proof (same_qm_inv _ _ E1 Hn) as [Hq1 ?].
  split; [|done]. apply queue_ok_insert; [done|done|]. destruct E1 as [-> _]. intros _ Hu. by apply Hf.
Qed.

Lemma inv_queue_session dest data idx uid :
  (length data ≤ BRAMBLE_MAX_PACKET_SIZE)%nat →
  moves (pres send_inv) (queue_session_message dest data idx uid).
Proof.
  intros Hl n x n' H. unfold queue_session_message, mbind, M_bind, gets in H. cbn [fst snd] in H.
  set (q := nd_queue n) in *.
  assert (Hfresh : (if uid =? 0 then None else find_index (queued_for_uid uid) q) = None → uid ≠ 0 →
    ∀ j b, q !! j = Some b → qm_used b = true → qm_uid b ≠ uid).
  { intros Hf Hu. conds. intros j b Hb Ub E. destruct (uid =? 0) eqn:E0; [conds; lia|].
    apply find_index_None in Hf. rewrite Forall_forall in Hf. unfold queued_for_uid in Hf.
    specialize (Hf b (list_elem_of_lookup_2 _ _ _ Hb)). rewrite Ub, E, Z.eqb_refl in Hf. done. }
  destruct (if uid =? 0 then None else find_index (queued_for_uid uid) q) as [i|].
  { by revert H; intros [= <- <-]. }
  specialize (Hfresh eq_refl).
  destruct (find_index _ q) as [i|].
  { eapply inv_queue_put; [exact Hl| |exact H]. intros Hu j b _ Hb. by apply (Hfresh Hu j). }
  destruct (oldest_session_entry q) as [o|]; [|by revert H; intros [= <- <-]].
  destruct (emit _ n) as [[[] n1]|] eqn:E1; [|done].
  apply qm_emit in E1. destruct (msgs_update_by_uid _ _ _ n1) as [[b n2]|] eqn:E2; [|done].
  assert (Eq2 : nd_queue n2 = nd_queue n1).
  { unfold msgs_update_by_uid in E2. destruct (msg_store_update_by_uid _ _ _ _) as [[? ?] ?].
    by injection E2 as <- <-. }
  apply inv_update in E2. intros Hn. pose proof (E2 (same_qm_inv _ _ E1 Hn)) as Hn2.
  eapply inv_queue_put; [exact Hl| |exact H|exact Hn2].
  destruct E1 as [Eq1 _]. rewrite Eq2, Eq1. intros Hu j c _ Hc. by apply (Hfresh Hu j).
Qed.

Section Send.
Context `{DC : DmCrypto} `{DL : !DmCryptoLaws} `{IC : IdCrypto} (hmac : list Z → list Z → list Z)
  `{HL : !HmacLaws hmac}.

Lemma qm_send_dm_packet dest payload i : moves same_qm (send_dm_packet hmac dest payload i).
Proof. unfold send_dm_packet. nmoves. Qed.
Lemma qm_send_data dest payload ch ty : moves same_qm (send_data_packet hmac dest payload ch ty).
Proof. unfold send_data_packet. nmoves. Qed.
#[local] Hint Resolve qm_send_data : mt.
Lemma qm_send_ke dest idx ke : moves same_qm (send_ke_envelope hmac dest idx ke).
Proof. unfold send_ke_envelope. nmoves. Qed.
#[local] Hint Resolve qm_send_ke qm_send_dm_packet : mt.
Lemma qm_initiate dest idx e : moves same_qm (initiate_dm_handshake hmac dest idx e).
Proof. unfold initiate_dm_handshake. nmoves. Qed.
#[local] Hint Resolve qm_initiate : mt.

Lemma inv_await idx dest data uid b :
  (length data ≤ BRAMBLE_MAX_PACKET_SIZE)%nat →
  moves (pres send_inv) (await_session hmac idx dest data uid b).
Proof.
  intros Hl. unfold await_session. pose proof (inv_queue_session dest data idx).
  pose proof (λ p s, inv_add_dm dest data p s). nmoves.
Qed.
Lemma inv_send_dm idx dest data uid : moves (pres send_inv) (mesh_send_dm hmac idx dest data uid).
Proof.
  unfold mesh_send_dm. destruct (FRAG_MAX_PLAINTEXT <? length data)%nat eqn:E; [nmoves|].
  apply Nat.ltb_ge in E. assert (Hl : (length data ≤ BRAMBLE_MAX_PACKET_SIZE)%nat).
  { unfold FRAG_MAX_PLAINTEXT, BRAMBLE_MAX_PACKET_SIZE in *. lia. }
  pose proof (λ i b, inv_await i dest data uid b Hl). pose proof (λ p s u, inv_add_dm dest data p s u Hl).
  nmoves.
Qed.

(** ** One row per message *)

Definition row_uids (n : node) : list Z := m_uid <$> log (nd_msgs n).
(** The messages of the log, without their status. *)
Definition row_key (m : stored_msg_t) : Z * Z * msg_direction_t * Z * list Z :=
  (m_uid m, m_peer_addr m, m_direction m, m_channel_index m, m_text m).
Definition row_keys (n : node) : list (Z * Z * msg_direction_t * Z * list Z) := row_key <$> log (nd_msgs n).
Lemma keys_uids n n' : row_keys n' = row_keys n → row_uids n' = row_uids n.
Proof.
  intros H. apply (f_equal (fmap (λ k : Z * Z * msg_direction_t * Z * list Z, k.1.1.1.1))) in H.
  unfold row_keys in H. by rewrite <- !list_fmap_compose in H.
Qed.
(** Where [uid] has its row, no row appears, disappears or changes its place. *)
Definition keeps_rows (uid : Z) (n n' : node) : Prop :=
  store_wf (nd_msgs n) ∧ uid ∈ row_uids n → store_wf (nd_msgs n') ∧ row_keys n' = row_keys n.
#[global] Instance keeps_rows_po uid : PreOrder (keeps_rows uid).
Proof.
  split; unfold keeps_rows; [by intros n [? ?]|]. intros a b c H1 H2 Ha. destruct (H1 Ha) as [Hb E1].
  destruct H2 as [Hc E2]; [split; [done|]; rewrite (keys_uids _ _ E1); apply Ha|]. split; [done|congruence].
Qed.
Lemma rows_qm uid {A} (m : M A) : moves same_qm m → moves (keeps_rows uid) m.
Proof.
  apply moves_mono. intros n n' [_ Hm]. unfold keeps_rows, row_keys, row_uids. rewrite Hm. by intros [? ?].
Qed.
Lemma rows_step o l l' : Forall2 (row_step o) l l' → row_key <$> l' = row_key <$> l.
Proof.
  induction 1 as [|m m' l l' [(Hp & Hu & Hd & _ & Hc & Ht) _] _ IH]; [done|]. cbn. rewrite IH.
  unfold row_key. by rewrite Hp, Hu, Hd, Hc, Ht.
Qed.

Lemma rows_update u uid pid status : moves (keeps_rows u) (msgs_update_by_uid uid pid status : St node _).
Proof.
  intros n x n'. unfold msgs_update_by_uid, keeps_rows, row_keys.
  pose proof (update_by_uid_step (nd_msgs n) uid pid status) as Hs.
  destruct (msg_store_update_by_uid _ _ _ _) as [[ok st] w]. intros [= <- <-] [Hwf _].
  destruct (Hs Hwf) as (Hwf' & Hr & _). split; [done|]. by eapply rows_step.
Qed.
(** An update of a row that exists reports so. *)
Lemma update_present uid pid status n x n' :
  uid ≠ 0 → uid ∈ row_uids n → msgs_update_by_uid uid pid status n = Some (x, n') → x = true.
Proof.
  intros Hu Hin. unfold msgs_update_by_uid, msg_store_update_by_uid.
  destruct (uid =? 0) eqn:E; [conds; lia|]. pose proof (find_row (λ m, m_uid m =? uid) (nd_msgs n)) as Hf.
  destruct (find_down _ _) as [i|].
  - destruct (apply_status _ _). by intros [= <- _].
  - apply list_elem_of_fmap in Hin as (m & -> & Hm). rewrite Forall_forall in Hf.
    specialize (Hf m Hm). cbv beta in Hf. conds. lia.
Qed.
(** [if (!msg_store_update_by_uid(uid, ...)) add a row] *)
Lemma rows_update_or_add uid pid status (m : M unit) :
  uid ≠ 0 → moves (keeps_rows uid) (@mbind M M_bind _ _ (λ ok, when (negb ok) m) (msgs_update_by_uid uid pid status)).
Proof.
  intros Hu n x n' H Hn. unfold mbind, M_bind in H.
  destruct (msgs_update_by_uid uid pid status n) as [[ok n1]|] eqn:E; [|done].
  pose proof (update_present _ _ _ _ _ _ Hu (proj2 Hn) E) as ->. cbn [negb when] in H.
  revert H. intros [= <- <-]. by eapply rows_update.
Qed.
Lemma rows_set_queued u i e : moves (keeps_rows u) (set_queued i e : St node _).
Proof. by intros n x n' [= <- <-] [? ?]. Qed.
Lemma rows_queue_put u i dest data idx uid : moves (keeps_rows u) (queue_put i dest data idx uid).
Proof.
  unfold queue_put. nmoves; try (apply rows_qm; by auto with mt).
  by intros n y n' [= <- <-] [? ?].
Qed.
#[local] Hint Resolve rows_update rows_set_queued rows_queue_put : mt.
#[local] Hint Extern 6 (moves (keeps_rows _) _) => apply rows_qm : mt.
Lemma rows_queue_session u dest data idx uid : moves (keeps_rows u) (queue_session_message dest data idx uid).
Proof. unfold queue_session_message. nmoves. Qed.
Lemma rows_release u i : moves (keeps_rows u) (queue_release i : St node _).
Proof. by intros n x n' [= <- <-] [? ?]. Qed.
#[local] Hint Resolve rows_queue_session rows_release : mt.
Lemma rows_modify u f : (∀ n, same_qm n (f n)) → moves (keeps_rows u) (modify f : St node _).
Proof. intros Hf. by apply rows_qm, qm_modify. Qed.

Lemma rows_await idx dest data uid b :
  uid ≠ 0 → moves (keeps_rows uid) (await_session hmac idx dest data uid b).
Proof.
  intros Hu. unfold await_session. destruct (uid =? 0) eqn:E; [conds; lia|]. cbn [negb when]. nmoves.
Qed.
Lemma rows_send_dm idx dest data uid :
  uid ≠ 0 → moves (keeps_rows uid) (mesh_send_dm hmac idx dest data uid).
Proof.
  intros Hu. unfold mesh_send_dm. pose proof (λ i d b, rows_await i d data uid b Hu).
  pose proof (λ p m, rows_update_or_add uid p MSG_STATUS_SENT m Hu).
  nmoves; by apply rows_modify.
Qed.

(** ** Sends return *)

Definition mt_inv (s : mt) : Prop := node_ok (mt_node s) ∧ send_inv (mt_node s).
(** From a state with the invariant the handler returns, and the invariant and the
    channels stay. *)
Definition kept (s s' : mt) : Prop :=
  mt_inv s' ∧ nd_channels (mt_node s') = nd_channels (mt_node s).
Definition safe_at {A} (m : T A) (s : mt) : Prop := mt_inv s → swp m s (λ _ s', kept s s').
Definition safe {A} (m : T A) : Prop := ∀ s, safe_at m s.
Lemma kept_trans s s1 s2 : kept s s1 → kept s1 s2 → kept s s2.
Proof. intros [_ E1] [I2 E2]. split; [done|congruence]. Qed.

Lemma safe_ret {A} (x : A) : safe (mret x).
Proof. intros s Hs. by apply swp_ret. Qed.
Lemma safe_bind_at {A B} (m : T A) (k : A → T B) s :
  safe_at m s → (∀ x s', kept s s' → safe_at (k x) s') → safe_at (m ≫= k) s.
Proof.
  intros Hm Hk Hs. apply swp_bind. eapply swp_mono; [by apply Hm|]. cbv beta. intros x s1 K1.
  eapply swp_mono; [exact (Hk x s1 K1 (proj1 K1))|]. cbv beta. intros y s2 K2. by eapply kept_trans.
Qed.
Lemma safe_bind {A B} (m : T A) (k : A → T B) : safe m → (∀ x, safe (k x)) → safe (m ≫= k).
Proof. intros Hm Hk s. apply safe_bind_at; [apply Hm|]. intros x s' _. apply Hk. Qed.
Lemma safe_get_at {A} (k : mt → T A) s : safe_at (k s) s → safe_at (sget ≫= k) s.
Proof. done. Qed.
Lemma safe_gets_at {A B} (f : mt → A) (k : A → T B) s : safe_at (k (f s)) s → safe_at (sgets f ≫= k) s.
Proof. done. Qed.
Lemma safe_lift_at {A B} (o : option A) x (k : A → T B) s :
  o = Some x → safe_at (k x) s → safe_at (slift o ≫= k) s.
Proof. intros -> Hk. exact Hk. Qed.
Lemma safe_when b m : safe m → safe (swhen b m).
Proof. intros Hm. destruct b; [done|]. intros s. apply safe_ret. Qed.
Lemma safe_for {A} (l : list A) f : (∀ x, safe (f x)) → safe (sfor l f).
Proof.
  intros Hf. induction l as [|x l IH]; cbn [sfor]; [apply safe_ret|]. apply safe_bind; [apply Hf|by intros].
Qed.
Lemma safe_modify f : (∀ s, mt_node (f s) = mt_node s) → safe (smodify f).
Proof. intros Hf s Hs. apply swp_modify. unfold kept, mt_inv. by rewrite Hf. Qed.
Lemma safe_routing f : safe (set_routing f).
Proof. by apply safe_modify. Qed.

(** Node handlers that return from well-formed nodes. *)
Definition nsafe {A} (m : M A) : Prop := ∀ n, node_ok n → wp m n (λ _ n', node_ok n' ∧ static_eq n n').
Lemma safe_nd {A} (m : M A) : nsafe m → moves (pres send_inv) m → safe (on_nd m).
Proof.
  intros Hm Hi s [Hn Hv]. apply swp_nd. pose proof (Hm _ Hn) as H. unfold wp in *.
  destruct (m (mt_node s)) as [[x n']|] eqn:E; [|done]. destruct H as [Hok (_ & _ & Hc & _)].
  split; [|exact Hc]. split; [exact Hok|]. exact (Hi _ _ _ E Hv).
Qed.
Lemma nsafe_quiet {A} (m : M A) : (∀ n, wp m n (λ _ n', quiet n n')) → nsafe m.
Proof.
  intros Hm n Hn. eapply wp_mono; [apply Hm|]. intros x n' Hq. split; [|apply Hq].
  exact (talks_ok _ _ (quiet_talks _ _ Hq) Hn).
Qed.
Lemma nsafe_update u p st : nsafe (msgs_update_by_uid u p st).
Proof. apply nsafe_quiet. intros n. apply wp_update_by_uid. Qed.
Lemma nsafe_next_uid : nsafe msgs_next_uid.
Proof. apply nsafe_quiet. intros n. apply wp_next_uid. Qed.
Lemma nsafe_packet_id : nsafe next_packet_id.
Proof. apply nsafe_quiet. intros n. apply wp_packet_id. Qed.
Lemma nsafe_add_dm p t i st u : nsafe (msgs_add_dm_uid p t i st u).
Proof. apply nsafe_quiet. intros n. apply wp_add_dm. Qed.
Lemma nsafe_add_channel p d t i st c : nsafe (msgs_add_channel p d t i st c).
Proof.
  apply nsafe_quiet. intros n. unfold wp, msgs_add_channel.
  destruct (msg_store_add_channel _ _ _ _ _ _ _ _ _ _). quiet_step.
Qed.
Lemma nsafe_unpark u : nsafe (msgs_unpark u).
Proof.
  apply nsafe_quiet. intros n. unfold wp, msgs_unpark.
  destruct (msg_store_unpark _ _) as [[? ?] ?]. quiet_step.
Qed.
Lemma nsafe_tx_events evs : nsafe (tx_events evs).
Proof.
  apply nsafe_quiet. intros n. apply (wp_for_each _ _ (quiet n)); [reflexivity|].
  intros e n1 _ Hq. destruct e; [|by apply wp_ret..].
  apply wp_bind. eapply wp_mono; [apply wp_mesh_tx|]. intros b n2 Hq2. apply wp_ret. by transitivity n1.
Qed.
Lemma nsafe_send_dm idx dest data uid : nsafe (mesh_send_dm hmac idx dest data uid).
Proof. intros n Hn. by apply mesh_send_dm_ok. Qed.
Lemma nsafe_send_data dest payload ch ty : nsafe (send_data_packet hmac dest payload ch ty).
Proof.
  intros n Hn. eapply wp_mono; [apply send_data_packet_spec; [done..|apply Hn]|]. intros x n' Hq.
  split; [exact (talks_ok _ _ (quiet_talks _ _ Hq) Hn)|apply Hq].
Qed.
Lemma nsafe_set_queued i e : nsafe (set_queued i e).
Proof.
  intros n Hn. apply wp_modify. split; [|unfold static_eq; fields].
  destruct Hn as (? & ? & ? & ? & ? & ? & ? & ? & ?). unfold node_ok. cbn [set_queue nd_queue].
  rewrite length_insert. fields.
Qed.
Lemma nsafe_release i : nsafe (queue_release i).
Proof.
  intros n Hn. eapply wp_mono; [apply queue_release_spec|]. intros x n' Ht.
  split; [exact (talks_ok _ _ Ht Hn)|apply Ht].
Qed.
Lemma inv_tx_events evs : moves (pres send_inv) (tx_events evs).
Proof.
  apply moves_qm. unfold tx_events. induction evs as [|e evs IH]; cbn [for_each]; nmoves.
Qed.
#[local] Hint Resolve nsafe_update nsafe_next_uid nsafe_packet_id nsafe_add_dm nsafe_add_channel nsafe_unpark
  nsafe_tx_events nsafe_send_dm nsafe_send_data nsafe_release inv_tx_events inv_send_dm : mt.

Lemma safe_rx_draw {A} (m : Rx A) : (∀ r, ∃ x r', m r = Some (x, r') ∧ rx_node r' = rx_node r) → safe (on_rx m).
Proof.
  intros Hm s Hs. destruct (Hm (mt_rx s)) as (x & r' & E & Hn). unfold swp, on_rx, zoom. rewrite E.
  unfold kept, mt_inv, mt_node in *. cbn [mset_rx mt_rx]. by rewrite Hn.
Qed.
Lemma safe_draw_check : safe (on_rx draw_check).
Proof. apply safe_rx_draw. intros r. eexists _, _. by split. Qed.
Lemma safe_malloc : safe (on_rx malloc_ok).
Proof. apply safe_rx_draw. intros r. eexists _, _. by split. Qed.
Lemma safe_record p : safe (on_rx (recent_broadcast_record p)).
Proof.
  apply safe_rx_draw. intros r. unfold recent_broadcast_record.
  destruct (p =? 0); eexists _, _; by split.
Qed.
#[local] Hint Resolve safe_ret safe_when safe_routing safe_draw_check safe_malloc safe_record : mt.
#[local] Hint Extern 3 (safe (on_nd _)) => apply safe_nd : mt.

Lemma split_total data id :
  ∃ r frags, fragment_split data id
      (replicate FRAG_MAX_FRAGMENTS (mk_fragment (replicate (FRAG_HEADER_SIZE + FRAG_MAX_PLAINTEXT) 0) 0))
      FRAG_MAX_FRAGMENTS = Some (r, frags) ∧
    ∀ n, r = Some n → Forall (λ f, fr_len f ≤ length (fr_data f))%nat (take n frags).
Proof.
  set (fs := replicate _ _). assert (Hsh : frags_shape fs).
  { apply Forall_replicate. cbn [fr_data]. apply length_replicate. }
  unfold fragment_split. fold (nfrags data). pose proof (nfrags_covers data) as Hcov.
  case_decide as H0; [by exists None, fs|]. case_decide as Hn; [by exists None, fs|].
  assert (Hlow : ((0 + nfrags data - 1) * FRAG_MAX_PLAINTEXT < length data)%nat).
  { unfold nfrags, FRAG_MAX_PLAINTEXT.
    pose proof (Nat.div_mod (length data + 154 - 1) 154 ltac:(lia)). lia. }
  destruct (split_loop_spec data (Z.of_nat (nfrags data)) id (nfrags data) 0 fs Hsh)
    as (frags & -> & Hsh' & _ & _ & Hw); [unfold fs; rewrite length_replicate; lia|done|done|].
  cbn [mbind option_bind]. exists (Some (nfrags data)), frags. split; [done|]. intros n [= <-].
  apply Forall_lookup. intros j f Hj. apply lookup_take_Some in Hj as [Hj Hlt].
  destruct (Hw j ltac:(lia)) as (f' & Hf' & Hlen & _). rewrite Hj in Hf'. injection Hf' as <-.
  rewrite Hlen, (Forall_lookup_1 _ _ _ _ Hsh' Hj). unfold chunk. rewrite length_take. lia.
Qed.

Definition in_range (s : mt) (idx : Z) : Prop := 0 ≤ idx < num_channels s.
Lemma in_range_kept s s' idx : kept s s' → in_range s idx → in_range s' idx.
Proof. unfold in_range, num_channels. by intros [_ ->]. Qed.

Lemma safe_on_channel idx dest payload s : in_range s idx → safe_at (send_on_channel hmac idx dest payload) s.
Proof.
  intros Hr. unfold send_on_channel. apply safe_get_at.
  destruct (lookup_lt_is_Some_2 (nd_channels (mt_node s)) (Z.to_nat idx)) as [ch Hch].
  { unfold in_range, num_channels in Hr. lia. }
  eapply safe_lift_at; [exact Hch|]. apply safe_nd; [apply nsafe_send_data|apply moves_qm, qm_send_data].
Qed.
Lemma safe_note b p : safe (note_broadcast b p).
Proof. apply safe_bind; [apply safe_when, safe_modify; done|]. intros _. apply safe_record. Qed.
Lemma safe_fragments idx dest frags : ∀ i first s,
  Forall (λ f, fr_len f ≤ length (fr_data f))%nat frags → in_range s idx →
  safe_at (send_fragments hmac idx dest frags i first) s.
Proof.
  induction frags as [|f frags IH]; intros i first s Hf Hr; cbn [send_fragments]; [apply safe_ret|].
  inversion_clear Hf as [|? ? Hlen Hrest].
  eapply safe_lift_at; [apply rdn_some; lia|]. apply safe_bind_at; [by apply safe_on_channel|].
  intros pkt s1 K1. apply safe_bind_at.
  { apply safe_when, safe_when, safe_note. }
  intros _ s2 K2. apply IH; [done|]. eapply in_range_kept; [exact K2|]. by eapply in_range_kept.
Qed.
Lemma safe_fragmented idx dest data s : in_range s idx → safe_at (send_fragmented hmac idx dest data) s.
Proof.
  intros Hr. unfold send_fragmented. apply safe_bind_at.
  { apply safe_nd; [apply nsafe_packet_id|apply moves_qm, qm_packet_id]. }
  intros id s1 K1. apply safe_bind_at; [apply safe_malloc|]. intros ok s2 K2.
  destruct ok; cbn [negb]; [|apply safe_ret].
  destruct (split_total data (Z.land id 65535)) as (r & frags & E & Hf).
  eapply safe_lift_at; [exact E|]. destruct r as [n|]; [|apply safe_ret].
  apply safe_bind_at; [|intros; apply safe_ret]. apply safe_fragments; [by apply Hf|].
  eapply in_range_kept; [exact K2|]. by eapply in_range_kept.
Qed.
Lemma safe_add_channel p d t i st c : 0 ≤ c → safe (on_nd (msgs_add_channel p d t i st c)).
Proof. intros Hc. apply safe_nd; [apply nsafe_add_channel|by apply inv_add_channel]. Qed.

Lemma safe_broadcast data : safe (mesh_send_broadcast hmac data).
Proof.
  intros s. unfold mesh_send_broadcast. apply safe_get_at.
  destruct (nd_channels (mt_node s)) as [|ch chs] eqn:Ec; [apply safe_ret|].
  assert (Hr : in_range s 0) by (unfold in_range, num_channels; rewrite Ec; cbn [length]; lia).
  destruct (chn_channel_id ch =? 0); cbn [negb]; [|apply safe_ret].
  apply safe_bind_at; [apply safe_draw_check|]. intros ok s1 K1. pose proof (in_range_kept _ _ _ K1 Hr) as Hr1.
  destruct ok; cbn [negb]; [|apply safe_ret]. destruct (FRAG_MAX_PLAINTEXT <? length data)%nat.
  - apply safe_bind_at; [by apply safe_fragmented|]. intros [first|] s2 K2; [|apply safe_ret].
    apply safe_bind; [by apply safe_add_channel|intros; apply safe_ret].
  - apply safe_bind_at; [by apply safe_on_channel|]. intros pkt s2 K2.
    apply safe_bind; [|intros; apply safe_ret]. apply safe_when, safe_bind; [apply safe_note|].
    intros _. by apply safe_add_channel.
Qed.
Lemma u8_nonneg z : 0 ≤ u8 z.
Proof. cint_unfold. lia. Qed.
Lemma safe_channel idx dest data uid : safe (mesh_send_channel_uid hmac idx dest data uid).
Proof.
  intros s. unfold mesh_send_channel_uid. apply safe_get_at. split_if.
  { apply safe_bind; [|intros; apply safe_ret]. auto with mt. }
  split_if; [apply safe_nd; auto with mt|]. assert (Hr : in_range s idx) by (unfold in_range; conds; lia). cbn zeta.
  pose proof (u8_nonneg idx). destruct (FRAG_MAX_PLAINTEXT <? length data)%nat.
  - apply safe_bind_at; [by apply safe_fragmented|]. intros [first|] s1 K1; [|apply safe_ret].
    apply safe_bind; [|intros; apply safe_ret]. by apply safe_when, safe_add_channel.
  - apply safe_bind_at; [by apply safe_on_channel|]. intros pkt s1 K1.
    apply safe_bind; [|intros; apply safe_ret]. apply safe_when, safe_bind; [apply safe_when, safe_note|].
    intros _. by apply safe_add_channel.
Qed.

Lemma nsafe_queue dest data uid :
  (length data ≤ BRAMBLE_MAX_PACKET_SIZE)%nat → nsafe (queue_message dest data uid).
Proof.
  intros Hl n Hn. unfold queue_message. apply wp_bind, wp_get.
  assert (Hrefl : node_ok n ∧ static_eq n n) by (split; [done|reflexivity]).
  split_if; [by apply wp_ret|]. destruct (find_index _ _) as [i|]; [|by apply wp_ret].
  apply wp_bind. eapply wp_lift; [by rewrite (proj2 (Nat.ltb_ge _ _) Hl)|]. apply wp_bind.
  eapply wp_mono; [by apply nsafe_set_queued|]. intros [] n1 H1. by apply wp_ret.
Qed.
Lemma inv_queue dest data uid :
  (length data ≤ BRAMBLE_MAX_PACKET_SIZE)%nat → moves (pres send_inv) (queue_message dest data uid).
Proof.
  intros Hl n x n' H. unfold queue_message, mbind, M_bind, St_bind, get in H.
  destruct (negb (uid =? 0) && existsb (queued_for_uid uid) (nd_queue n)) eqn:E.
  { by revert H; intros [= <- <-]. }
  destruct (find_index _ _) as [i|]; [|by revert H; intros [= <- <-]].
  unfold lift in H. rewrite (proj2 (Nat.ltb_ge _ _) Hl) in H. cbn [fst snd] in H.
  revert H. intros [= <- <-]. eapply inv_set_queued; [|reflexivity|]; [exact Hl|].
  cbn [qm_used qm_uid]. intros _ Hu j b _. apply queued_for_fresh.
  destruct (uid =? 0) eqn:E0; [conds; lia|exact E].
Qed.

Lemma safe_originate dest q h : safe (originate_rreq hmac dest q h).
Proof.
  intros s. unfold originate_rreq. apply safe_get_at. cbn zeta.
  eapply safe_lift_at; [apply send_rreq_total|]. apply safe_nd; auto with mt.
Qed.
Lemma safe_initiate dest : safe (initiate_discovery hmac dest).
Proof.
  intros s. unfold initiate_discovery. apply safe_gets_at, safe_get_at.
  destruct (rreq_rate_allow _ _ _ _) as [ok rl]. apply safe_bind; [by apply safe_modify|]. intros _.
  destruct ok; cbn [negb]; [|apply safe_ret]. apply safe_bind; [auto with mt|]. intros q.
  apply safe_bind; [apply safe_routing|]. intros _. apply safe_bind; [apply safe_originate|].
  intros. apply safe_ret.
Qed.

Lemma safe_message dest data uid :
  (length data ≤ BRAMBLE_MAX_PACKET_SIZE)%nat → safe (mesh_send_message_uid hmac dest data uid).
Proof.
  intros Hl s. unfold mesh_send_message_uid. apply safe_get_at. split_if.
  { apply safe_bind; [auto with mt|intros; apply safe_ret]. }
  split_if; [|apply safe_channel]. apply safe_bind.
  { destruct (discovery_lookup _ _); [apply safe_ret|].
    apply safe_bind; [apply safe_initiate|intros; apply safe_ret]. }
  intros _. apply safe_bind; [destruct (negb (uid =? 0)); auto with mt|]. intros row. apply safe_bind.
  { apply safe_nd; [by apply nsafe_queue|by apply inv_queue]. }
  intros rc. destruct (rc =? 0); cbn [negb].
  - apply safe_bind; [|intros; apply safe_ret]. apply safe_when.
    apply safe_nd; [apply nsafe_add_dm|by apply inv_add_dm].
  - apply safe_bind; [auto with mt|intros; apply safe_ret].
Qed.

Lemma safe_flush_queued dest : safe (flush_queued_messages hmac dest).
Proof.
  apply safe_for. intros i s. apply safe_get_at. cbn zeta. set (q := nd_queue (mt_node s) !!! i).
  destruct (queued_for_route dest q); cbn [swhen]; [|apply safe_ret].
  intros Hs. assert (Hl : (length (qm_data q) ≤ BRAMBLE_MAX_PACKET_SIZE)%nat).
  { apply queue_entry_short, Hs. }
  revert Hs. change (safe_at (on_nd (set_queued i (with_uid q 0)) ;;
       mesh_send_message_uid hmac dest (qm_data q) (qm_uid q) ;;
       on_nd (queue_release i)) s).
  apply safe_bind.
  { apply safe_nd; [apply nsafe_set_queued|]. intros n x n' E. eapply inv_set_queued; [|exact E|]; done. }
  intros _. apply safe_bind; [by apply safe_message|]. intros _. auto with mt.
Qed.

(** ** Sends of a message that has its row add none *)

Definition trows (uid : Z) (s s' : mt) : Prop := keeps_rows uid (mt_node s) (mt_node s').
#[global] Instance trows_po uid : PreOrder (trows uid).
Proof.
  split; unfold trows; [intros s; reflexivity|]. intros a b c. apply (transitivity (R:=keeps_rows uid)).
Qed.
Lemma trows_nd uid {A} (m : M A) : moves (keeps_rows uid) m → moves (trows uid) (on_nd m).
Proof. apply moves_zoom. by intros s n. Qed.
Lemma trows_modify uid f : (∀ s, mt_node (f s) = mt_node s) → moves (trows uid) (smodify f).
Proof. intros Hf. apply moves_modify. intros s. unfold trows. by rewrite Hf. Qed.
Lemma trows_rx uid {A} (m : Rx A) :
  (∀ r x r', m r = Some (x, r') → rx_node r' = rx_node r) → moves (trows uid) (on_rx m).
Proof.
  intros Hm. apply (moves_zoom _ (λ r r', rx_node r' = rx_node r)); [|done]. intros s r E.
  unfold trows, mt_node. cbn [mset_rx mt_rx]. by rewrite E.
Qed.
Lemma rows_tx_events uid evs : moves (keeps_rows uid) (tx_events evs).
Proof.
  unfold tx_events. apply rows_qm. induction evs as [|e evs IH]; cbn [for_each]; nmoves.
Qed.
Lemma rows_queue_message uid dest data u : moves (keeps_rows uid) (queue_message dest data u).
Proof. unfold queue_message. nmoves. Qed.
#[local] Hint Resolve rows_tx_events rows_queue_message : mt.
Ltac tmoves :=
  repeat first
    [ progress auto with mt
    | apply moves_ret; typeclasses eauto | apply moves_get; typeclasses eauto
    | apply moves_gets; typeclasses eauto | apply moves_lift; typeclasses eauto
    | apply moves_bind; [typeclasses eauto| |intros]
    | apply moves_when; [typeclasses eauto|]
    | apply trows_nd; solve [nmoves] | apply trows_modify; done
    | match goal with |- moves _ (if ?b then _ else _) => destruct b end
    | match goal with |- moves _ (match ?x with _ => _ end) => destruct x end
    | progress cbn zeta ].

Lemma trows_discovery uid dest : moves (trows uid) (initiate_discovery hmac dest).
Proof. unfold initiate_discovery, originate_rreq, set_routing, tnow. tmoves. Qed.
Lemma trows_dm uid idx dest data :
  uid ≠ 0 → dest ≠ UINT32_MAX → moves (trows uid) (mesh_send_channel_uid hmac idx dest data uid).
Proof.
  intros Hu Hd. unfold mesh_send_channel_uid. apply moves_bind; [typeclasses eauto|tmoves|]. intros s.
  split_if; [tmoves|]. destruct (dest =? UINT32_MAX) eqn:E; [conds; lia|]. cbn [negb].
  by apply trows_nd, rows_send_dm.
Qed.
Lemma trows_message uid dest data :
  uid ≠ 0 → dest ≠ UINT32_MAX → moves (trows uid) (mesh_send_message_uid hmac dest data uid).
Proof.
  intros Hu Hd. unfold mesh_send_message_uid. pose proof (λ i, trows_dm uid i dest data Hu Hd).
  pose proof (trows_discovery uid dest). destruct (uid =? 0) eqn:E; [conds; lia|]. cbn [negb swhen].
  tmoves.
Qed.

(** ** Parked messages *)

Lemma find_index_elem {A} (f : A → bool) l i : find_index f l = Some i → ∃ x, l !! i = Some x ∧ f x = true.
Proof. intros (x & Hx & Hf & _)%find_index_Some. eauto. Qed.
Lemma copy_by_uid st uid m :
  msg_store_get_copy_by_uid st uid = Some m → m ∈ log st ∧ m_uid m = uid.
Proof.
  unfold msg_store_get_copy_by_uid. split_if; [done|].
  rewrite (find_row_up (λ m, m_uid m =? uid) st). destruct (find_index _ _) as [i|] eqn:E; [|done].
  cbn. intros [= <-]. apply find_index_elem in E as (x & Hx & Hf). conds.
  apply log_lookup_inv in Hx as Hr. destruct Hr as [_ ->]. split; [by eapply list_elem_of_lookup_2|done].
Qed.
(** A parked message that may be retried: a direct message to a peer. *)
Definition parked_row (m : stored_msg_t) : Prop :=
  m_uid m ≠ 0 ∧ m_direction m = MSG_DIR_OUTGOING ∧ m_channel_index m < 0.
Lemma parked_dm_row m : is_parked_dm m = true → parked_row m.
Proof. unfold is_parked_dm. intros H. conds. split; [done|]. split; [by apply bool_decide_eq_true in H|lia]. Qed.
Lemma parked_uids_rows st peer max now uid :
  uid ∈ msg_store_parked_uids_for_peer st peer false max now →
  ∃ m, m ∈ log st ∧ m_uid m = uid ∧ m_peer_addr m = peer ∧ parked_row m.
Proof.
  unfold msg_store_parked_uids_for_peer. cbn [orb]. split_if; [by intros ?%not_elem_of_nil|].
  intros [i Hi]%elem_of_take. apply proj1, list_elem_of_lookup_2 in Hi.
  apply list_elem_of_fmap in Hi as (m & -> & Hm). apply list_elem_of_filter in Hm as [Hp Hm].
  exists m. conds. split; [exact Hm|]. split; [done|]. split; [done|by apply parked_dm_row].
Qed.
(** Rows of the same log with the same uid. *)
Lemma row_by_uid n n' m m' :
  row_keys n' = row_keys n → NoDup (row_uids n) → m ∈ log (nd_msgs n) → m' ∈ log (nd_msgs n') →
  m_uid m = m_uid m' → row_key m = row_key m'.
Proof.
  intros Hk Hnd [i Hi]%list_elem_of_lookup [j Hj]%list_elem_of_lookup Hu.
  assert (Hj' : row_keys n !! j = Some (row_key m')).
  { rewrite <- Hk. unfold row_keys. by rewrite list_lookup_fmap, Hj. }
  unfold row_keys in Hj'. rewrite list_lookup_fmap in Hj'.
  destruct (log (nd_msgs n) !! j) as [m''|] eqn:E; [|done]. injection Hj' as Hu' Hp Hd Hc Ht.
  assert (i = j) as ->.
  { eapply NoDup_lookup; [exact Hnd| |]; unfold row_uids; rewrite list_lookup_fmap.
    - rewrite Hi. reflexivity.
    - rewrite E. cbn. congruence. }
  rewrite Hi in E. injection E as ->. unfold row_key. congruence.
Qed.

Definition retry_inv (s s' : mt) : Prop := kept s s' ∧ row_keys (mt_node s') = row_keys (mt_node s).
(** A retried row: the send returns and the log keeps its rows. *)
Lemma flush_parked_row_ok s s1 uid peer m :
  retry_inv s s1 → NoDup (row_uids (mt_node s)) → peer ≠ UINT32_MAX →
  m ∈ log (nd_msgs (mt_node s)) → m_uid m = uid → m_peer_addr m = peer → parked_row m →
  swp (flush_parked_row hmac uid) s1 (λ _ s2, retry_inv s s2).
Proof.
  intros [K1 R1] Hnd Hp Hm Hu Hpm (Hu0 & Hdir & Hch). unfold flush_parked_row. apply swp_bind, swp_get.
  destruct (msg_store_get_copy_by_uid _ uid) as [m'|] eqn:E; [|by apply swp_ret].
  destruct (pending_ack_is_active _ _); [by apply swp_ret|].
  apply copy_by_uid in E as [Hm' Hu'].
  assert (Hkey : row_key m = row_key m') by (eapply row_by_uid; [exact R1|done..|congruence]).
  injection Hkey as E1 E2 E3 E4 E5.
  assert (Hl : (length (m_text m') ≤ BRAMBLE_MAX_PACKET_SIZE)%nat).
  { destruct K1 as [[_ [_ [_ Hs]]] _]. rewrite Forall_forall in Hs. apply (Hs m' Hm'); [congruence|lia]. }
  apply swp_bind. unfold mesh_resend_message.
  eapply swp_mono.
  { apply (swp_moves (trows (m_uid m'))); [apply trows_message; congruence|].
    exact (safe_message (m_peer_addr m') (m_text m') (m_uid m') Hl s1 (proj1 K1)). }
  cbv beta. intros r s2 [K2 R2]. apply swp_ret. split; [by eapply kept_trans|].
  rewrite <- R1. apply R2. split; [apply K1|]. apply list_elem_of_fmap. by exists m'.
Qed.
Lemma flush_parked_ok s peer :
  mt_inv s → NoDup (row_uids (mt_node s)) → peer ≠ UINT32_MAX →
  swp (mesh_flush_parked_for hmac peer) s (λ _ s', retry_inv s s').
Proof.
  intros Hs Hnd Hp. unfold mesh_flush_parked_for. apply swp_bind, swp_gets. apply swp_bind, swp_get.
  cbn zeta. apply swp_bind. eapply swp_mono.
  { apply (swp_for _ _ (retry_inv s)); [by split|]. intros uid s1 Hin K.
    apply parked_uids_rows in Hin as (m & Hm & Hu & Hpm & Hrow). by eapply flush_parked_row_ok. }
  cbv beta. intros [] s1 K. by apply swp_ret.
Qed.

Lemma safe_neighbors f : safe (t_neighbors f).
Proof.
  intros s [Hn Hv]. apply swp_nd, wp_modify. split; [|done]. split; [|done].
  destruct Hn as (? & ? & ? & ? & ? & ? & ? & ? & ?). unfold node_ok. fields.
Qed.
Lemma safe_park uid : safe (mesh_park_message uid).
Proof.
  intros s. unfold mesh_park_message. split_if; [apply safe_ret|]. unfold mesh_park_window_open.
  apply (safe_bind_at (now_s ← now_uptime_s; sgets _)).
  { intros Hs. by split. }
  intros b s1 _. destruct b; cbn [negb]; [|apply safe_ret].
  apply safe_bind_at; [apply safe_nd; auto with mt|]. intros ok s2 _. destruct ok; cbn [negb]; [|apply safe_ret].
  apply safe_get_at. destruct (msg_store_peer_for_uid _ _) as [peer|]; [|apply safe_ret].
  apply safe_gets_at. apply safe_bind; [apply safe_neighbors|intros; apply safe_ret].
Qed.

Lemma parked_peer_fold after now_s l acc lo hi :
  foldl (parked_peer_step after now_s) acc l = (lo, hi) →
  ∀ p, lo = Some p ∨ hi = Some p → acc.1 = Some p ∨ acc.2 = Some p ∨
    ∃ m, m ∈ l ∧ is_parked_dm m = true ∧ m_peer_addr m = p.
Proof.
  revert acc. induction l as [|m l IH]; intros acc; cbn [foldl].
  { intros -> p [?|?]; cbn; auto. }
  intros H p Hp. specialize (IH _ H p Hp). unfold parked_peer_step in IH.
  destruct (is_parked_dm m) eqn:Em; cbn [negb orb] in IH.
  2: { destruct IH as [?|[?|(m' & ? & ?)]]; auto. right. right. exists m'. split; [by right|done]. }
  destruct (past_park_window m now_s); cbn [negb orb] in IH.
  { destruct IH as [?|[?|(m' & ? & ?)]]; auto. right. right. exists m'. split; [by right|done]. }
  assert (Hnew : m_peer_addr m = p → ∃ m', m' ∈ m :: l ∧ is_parked_dm m' = true ∧ m_peer_addr m' = p).
  { intros E. exists m. split; [by left|done]. }
  destruct IH as [Hl|[Hl|(m' & ? & ?)]].
  - cbn [fst] in Hl. destruct (match acc.1 with None => _ | Some _ => _ end); [|auto].
    right. right. apply Hnew. congruence.
  - cbn [snd] in Hl. destruct ((m_peer_addr m >? after) && _); [|auto].
    right. right. apply Hnew. congruence.
  - right. right. exists m'. split; [by right|done].
Qed.
Lemma next_parked_row st after now_s p :
  msg_store_next_parked_peer st after now_s = Some p →
  ∃ m, m ∈ log st ∧ is_parked_dm m = true ∧ m_peer_addr m = p.
Proof.
  unfold msg_store_next_parked_peer. destruct (foldl _ _ _) as [lo hi] eqn:E. intros H.
  destruct (parked_peer_fold _ _ _ _ _ _ E p) as [?|[?|Hm]]; [|done..|done].
  destruct lo as [l|]; [|done]. destruct hi as [h|]; cbn in H; injection H as ->; auto.
Qed.

(** Expiry changes statuses only. *)
Lemma expire_keys now_s m : row_key (expire_row now_s m) = row_key m.
Proof. unfold expire_row. by destruct (overdue now_s m). Qed.
Lemma expire_parked_ok now_s s :
  mt_inv s → swp (on_nd (msgs_expire_parked now_s)) s (λ _ s', retry_inv s s' ∧
    ∀ m', m' ∈ log (nd_msgs (mt_node s')) → is_parked_dm m' = true →
      m' ∈ log (nd_msgs (mt_node s))).
Proof.
  intros [Hn [Hq [Hwf Hs]]]. apply swp_nd. unfold wp, msgs_expire_parked.
  destruct (expire_parked_spec (nd_msgs (mt_node s)) now_s Hwf) as (st' & ws & E & Hwf' & Hl & _).
  rewrite E. unfold retry_inv, kept, mt_inv. unfold row_keys, mt_node.
  cbn [mset_node mset_rx rset_node mt_rx rx_node set_out set_msgs nd_msgs nd_channels].
  fold (mt_node s). rewrite Hl. split.
  - split; [split; [split|]|].
    + destruct Hn as (? & ? & ? & ? & ? & ? & ? & ? & ?). unfold node_ok. fields.
    + split; [done|]. split; [exact Hwf'|]. change (Forall row_short (log st')). rewrite Hl.
      apply Forall_fmap.
      eapply Forall_impl; [exact Hs|]. intros m Hm. unfold compose, expire_row. by destruct (overdue now_s m).
    + done.
    + rewrite <- list_fmap_compose. apply list_fmap_ext. intros i m _. apply expire_keys.
  - intros m' (m & -> & Hm)%list_elem_of_fmap Hp. unfold expire_row in *.
    destruct (overdue now_s m) eqn:Eo; [|done]. exfalso. unfold is_parked_dm in Hp.
    cbn [with_status m_status m_direction m_channel_index m_uid] in Hp.
    rewrite (bool_decide_eq_false_2 (MSG_STATUS_FAILED = MSG_STATUS_QUEUED)) in Hp by done.
    rewrite andb_false_r in Hp. done.
Qed.

Lemma sweep_ok s t :
  mt_inv s → NoDup (row_uids (mt_node s)) →
  (∀ m, m ∈ log (nd_msgs (mt_node s)) → is_parked_dm m = true → m_peer_addr m ≠ UINT32_MAX) →
  swp (sweep_parked_messages hmac t) s (λ _ s', kept s s').
Proof.
  intros Hs Hnd Hp. unfold sweep_parked_messages. apply swp_bind, swp_get.
  destruct (parked_retry_sweep_due _ _) as [due sw]. apply swp_bind, swp_modify.
  set (s0 := mset_sweep s sw). assert (K0 : kept s s0) by by split.
  destruct due; cbn [negb]; [|by apply swp_ret]. apply swp_bind, swp_gets. apply swp_bind.
  eapply swp_mono; [by apply (expire_parked_ok _ s0)|]. cbv beta. intros k s1 [[K1 R1] Hrows].
  pose proof (kept_trans _ _ _ K0 K1) as K. apply swp_bind, swp_get.
  destruct (msg_store_next_parked_peer _ _ _) as [peer|] eqn:En; [|by apply swp_ret].
  apply next_parked_row in En as (m & Hm & Hpk & <-).
  destruct (parked_retry_sweep_defers_to_beacon _ _); [by apply swp_modify|].
  apply swp_bind, swp_modify. set (s2 := mset_sweep s1 _). assert (K2 : kept s s2) by done.
  apply swp_bind. eapply swp_mono.
  { apply (flush_parked_ok s2); [apply K2| |].
    - change (NoDup (row_uids (mt_node s1))). by rewrite (keys_uids _ _ R1).
    - apply Hp; [|done]. by apply Hrows. }
  cbv beta. intros n s3 [K3 _]. apply swp_ret. by eapply kept_trans.
Qed.

(** ** The direct-message handlers keep the queue and the log *)

Lemma pres_get (P : node → Prop) {A} (k : node → M A) :
  (∀ n, P n → moves (pres P) (k n)) → moves (pres P) (@mbind M M_bind _ _ k get).
Proof. intros Hk n x n' H Hn. exact (Hk n Hn _ _ _ H Hn). Qed.
Lemma nm_for (R : node → node → Prop) `{HR : !PreOrder R} {A} (l : list A) f :
  (∀ x, moves R (f x)) → moves R (for_each l f).
Proof.
  intros Hf. induction l as [|x l IH]; cbn [for_each]; [by apply nm_ret|].
  apply nm_bind; [done|apply Hf|by intros].
Qed.
Lemma inv_flush_session dest : moves (pres send_inv) (flush_session_queue hmac dest).
Proof.
  unfold flush_session_queue. apply nm_for; [typeclasses eauto|]. intros i. apply pres_get.
  intros n Hn. pose proof (queue_entry_short n i (proj1 Hn)) as Hl. cbn zeta.
  pose proof (λ p s u, inv_add_dm dest (qm_data (nd_queue n !!! i)) p s u Hl). nmoves.
Qed.
Lemma qm_rate p t : moves same_qm (dm_rehandshake_rate_ok p t : St node _).
Proof.
  intros n x n'. unfold dm_rehandshake_rate_ok. destruct (dm_rehandshake_rate_ok_at _ _ _).
  by intros [= <- <-].
Qed.
Lemma qm_work w : moves same_qm (work_send w : St node _).
Proof. intros n x n'. unfold work_send. destruct (_ <? _)%nat; by intros [= <- <-]. Qed.
#[local] Hint Resolve inv_flush_session qm_rate qm_work : mt.
Lemma qm_accept src init pinned : moves same_qm (accept_init src init pinned).
Proof. unfold accept_init. nmoves. Qed.
Lemma qm_establish src lt key e ikm : moves same_qm (establish src lt key e ikm).
Proof. unfold establish. nmoves. Qed.
#[local] Hint Resolve qm_accept qm_establish : mt.
Lemma inv_ke_init src idx init pinned : moves (pres send_inv) (process_ke_init hmac src idx init pinned).
Proof. unfold process_ke_init. nmoves. Qed.
Lemma inv_ke_resp src resp pinned : moves (pres send_inv) (process_ke_resp hmac src resp pinned).
Proof. unfold process_ke_resp. nmoves. Qed.
#[local] Hint Resolve inv_ke_init inv_ke_resp : mt.
Lemma inv_worker : moves (pres send_inv) (handshake_worker_step hmac).
Proof. unfold handshake_worker_step. nmoves. Qed.
Lemma qm_envelope src idx data : moves same_qm (handle_ke_envelope src idx data).
Proof.
  unfold handle_ke_envelope. nmoves. intros n y n'.
  destruct (hs_dedup_check_and_record _ _ _ _ _). by intros [= <- <-].
Qed.
Lemma qm_rekey t : moves same_qm (maybe_schedule_dm_epoch_rekey t).
Proof.
  unfold maybe_schedule_dm_epoch_rekey. apply nm_for; [typeclasses eauto|]. intros i. nmoves.
Qed.
Lemma qm_trigger p : moves same_qm (maybe_trigger_dm_rehandshake p).
Proof. unfold maybe_trigger_dm_rehandshake. nmoves. Qed.
#[local] Hint Resolve inv_worker qm_envelope qm_rekey qm_trigger : mt.
Lemma inv_dm_op op : moves (pres send_inv) (run_op hmac op).
Proof. destruct op; cbn [run_op]; nmoves. Qed.
Lemma safe_dm_op op : op_ok op → safe (on_nd (run_op hmac op)).
Proof.
  intros Hop s. destruct op as [idx dest data uid|src idx data| |peer|t|v]; cbn [op_ok] in *.
  1-5: apply safe_nd; [intros n Hn; cbn [run_op]|apply inv_dm_op].
  - apply wp_bind. eapply wp_mono; [by apply mesh_send_dm_ok|]. intros r n' H'. by apply wp_ret.
  - eapply wp_mono; [by apply envelope_ok|]. intros r n' (? & ? & _). done.
  - by apply worker_ok.
  - by apply trigger_ok.
  - by apply rekey_schedule_ok.
  - intros [Hn Hv]. apply swp_nd, wp_modify. split; [|done]. split; [|done].
    destruct Hn as (? & ? & ? & ? & ? & ? & ? & ? & ?). unfold node_ok. fields.
Qed.

(** ** The calls *)

Inductive send_op :=
  | OpBroadcast (data : list Z)
  | OpChannel (channel_idx dest_addr : Z) (data : list Z)
  | OpMessage (dest_addr : Z) (data : list Z) (uid : Z)
  | OpRouteUp (dest_addr : Z)
  | OpPark (uid : Z)
  | OpCancel (uid : Z)
  | OpRetry (peer_addr : Z)
  | OpSweep (t : Z)
  | OpDm (op : dm_op).
Definition run_send (op : send_op) : T unit :=
  match op with
  | OpBroadcast data => mesh_send_broadcast hmac data ;; mret tt
  | OpChannel idx dest data => mesh_send_channel hmac idx dest data ;; mret tt
  | OpMessage dest data uid => mesh_send_message_uid hmac dest data uid ;; mret tt
  | OpRouteUp dest => flush_queued_messages hmac dest
  | OpPark uid => mesh_park_message uid ;; mret tt
  | OpCancel uid => mesh_cancel_parked_message uid ;; mret tt
  | OpRetry peer => mesh_flush_parked_for hmac peer ;; mret tt
  | OpSweep t => sweep_parked_messages hmac t
  | OpDm op => on_nd (run_op hmac op)
  end.
(** A unicast text fits a queue entry; rows have distinct uids, and the parked
    ones are for a node. *)
Definition send_op_ok (s : mt) (op : send_op) : Prop :=
  match op with
  | OpMessage _ data _ => (length data ≤ BRAMBLE_MAX_PACKET_SIZE)%nat
  | OpRetry peer => NoDup (row_uids (mt_node s)) ∧ peer ≠ UINT32_MAX
  | OpSweep _ => NoDup (row_uids (mt_node s)) ∧
      ∀ m, m ∈ log (nd_msgs (mt_node s)) → is_parked_dm m = true → m_peer_addr m ≠ UINT32_MAX
  | OpDm op => op_ok op
  | _ => True
  end.
Lemma run_send_ok (s : mt) (op : send_op) :
  mt_inv s → send_op_ok s op → swp (run_send op) s (λ _ s', kept s s').
Proof.
  intros Hs Hop. destruct op as [data|idx dest data|dest data uid|dest|uid|uid|peer|t|op];
    cbn [run_send send_op_ok] in *.
  - revert Hs. apply safe_bind; [apply safe_broadcast|intros; apply safe_ret].
  - revert Hs. apply safe_bind; [apply safe_channel|intros; apply safe_ret].
  - revert Hs. apply safe_bind; [by apply safe_message|intros; apply safe_ret].
  - by apply safe_flush_queued.
  - revert Hs. apply safe_bind; [apply safe_park|intros; apply safe_ret].
  - revert Hs. apply safe_bind; [|intros; apply safe_ret]. apply safe_nd; auto with mt.
  - destruct Hop as [Hnd Hp]. apply swp_bind. eapply swp_mono; [by apply flush_parked_ok|]. cbv beta.
    intros n s' [K _]. by apply swp_ret.
  - destruct Hop as [Hnd Hp]. by apply sweep_ok.
  - by apply safe_dm_op.
Qed.

(** C22. The send path is safe and queues a message once.  From a well-formed state,
    broadcasts and channel messages of any length, direct messages of up to 256
    bytes, the drain of the route queue, parking, cancelling, retrying and
    sweeping parked messages, and every direct-message handler return without an
    access outside a buffer; afterwards the node is well-formed, no two entries of
    the queue belong to the same message and every entry fits its array. *)
Theorem sending_safe (s : mt) (op : send_op) :
  mt_inv s → send_op_ok s op →
  swp (run_send op) s (λ _ s', node_ok (mt_node s') ∧ queue_ok (nd_queue (mt_node s')) ∧
    store_ok (nd_msgs (mt_node s')) ∧ nd_channels (mt_node s') = nd_channels (mt_node s)).
Proof.
  intros Hs Hop. eapply swp_mono; [by apply run_send_ok|]. cbv beta. intros [] s' [[Hn [Hq Hm]] Hc].
  by split.
Qed.

(** ** Draining the route queue *)

(** The entries waiting for a route to [dest] are old ones or belong to [uid]. *)
Definition waits_only (dest uid : Z) (n n' : node) : Prop :=
  ∀ j q, nd_queue n' !! j = Some q → queued_for_route dest q = true →
    nd_queue n !! j = Some q ∨ qm_uid q = uid.
#[global] Instance waits_po dest uid : PreOrder (waits_only dest uid).
Proof.
  split; unfold waits_only; [by intros n j q; left|]. intros a b c H1 H2 j q Hj Hq.
  destruct (H2 j q Hj Hq) as [Hj'|]; [by apply H1|by right].
Qed.
Definition same_queue (n n' : node) : Prop := nd_queue n' = nd_queue n.
#[global] Instance same_queue_po : PreOrder same_queue.
Proof. split; unfold same_queue; [done|]. intros a b c. congruence. Qed.
Lemma waits_queue dest uid {A} (m : M A) : moves same_queue m → moves (waits_only dest uid) m.
Proof. apply moves_mono. unfold same_queue. intros n n' E j q Hj _. left. by rewrite <- E. Qed.
Lemma sq_qm {A} (m : M A) : moves same_qm m → moves same_queue m.
Proof. apply moves_mono. by intros n n' [? _]. Qed.
Lemma sq_update u p st : moves same_queue (msgs_update_by_uid u p st : St node _).
Proof.
  intros n x n'. unfold msgs_update_by_uid. destruct (msg_store_update_by_uid _ _ _ _) as [[? ?] ?].
  by intros [= <- <-].
Qed.
Lemma sq_add p t i st u : moves same_queue (msgs_add_dm_uid p t i st u : St node _).
Proof.
  intros n x n'. unfold msgs_add_dm_uid. destruct (msg_store_add_dm_uid _ _ _ _ _ _ _ _ _ _).
  by intros [= <- <-].
Qed.
Lemma sq_next_uid : moves same_queue (msgs_next_uid : St node _).
Proof. by intros n x n' [= <- <-]. Qed.
Lemma waits_insert dest uid i e n :
  queued_for_route dest e = false ∨ qm_uid e = uid →
  waits_only dest uid n (set_queue n (<[i := e]> (nd_queue n))).
Proof.
  intros He j q Hj Hq. cbn [set_queue nd_queue] in Hj.
  apply list_lookup_insert_Some in Hj as [(<- & <- & _)|[_ Hj]]; [|by left].
  destruct He as [He|He]; [congruence|by right].
Qed.
Lemma waits_set_queued dest uid i e :
  queued_for_route dest e = false ∨ qm_uid e = uid → moves (waits_only dest uid) (set_queued i e : St node _).
Proof. intros He n x n' [= <- <-]. by apply waits_insert. Qed.
Lemma waits_release dest uid i : moves (waits_only dest uid) (queue_release i : St node _).
Proof. intros n x n' [= <- <-]. apply waits_insert. by left. Qed.
Lemma waits_queue_put dest uid i d data idx u : moves (waits_only dest uid) (queue_put i d data idx u).
Proof.
  unfold queue_put. apply nm_bind; [typeclasses eauto|apply waits_queue, sq_qm; auto with mt|]. intros pkt.
  apply nm_bind; [typeclasses eauto|apply waits_queue, sq_qm; auto with mt|]. intros bytes.
  apply nm_bind; [typeclasses eauto|apply waits_queue, sq_qm; auto with mt|]. intros now.
  apply nm_bind; [typeclasses eauto| |intros; apply nm_ret; typeclasses eauto].
  intros n x n' [= <- <-]. apply waits_insert. left. unfold queued_for_route. cbn.
  by rewrite bool_decide_eq_false_2.
Qed.
#[local] Hint Resolve sq_update sq_add sq_next_uid waits_queue_put waits_release : mt.
#[local] Hint Extern 4 (moves same_queue _) => apply sq_qm : mt.
#[local] Hint Extern 5 (moves (waits_only _ _) _) => apply waits_queue : mt.
Lemma waits_queue_session dest uid d data idx u :
  moves (waits_only dest uid) (queue_session_message d data idx u).
Proof. unfold queue_session_message. nmoves. Qed.
#[local] Hint Resolve waits_queue_session : mt.
Lemma waits_await dest uid idx d data u b : moves (waits_only dest uid) (await_session hmac idx d data u b).
Proof. unfold await_session. nmoves. Qed.
#[local] Hint Resolve waits_await : mt.
Lemma waits_modify dest uid f : (∀ n, same_qm n (f n)) → moves (waits_only dest uid) (modify f : St node _).
Proof. intros Hf. by apply waits_queue, sq_qm, qm_modify. Qed.
Lemma waits_send_dm dest uid idx d data u : moves (waits_only dest uid) (mesh_send_dm hmac idx d data u).
Proof. unfold mesh_send_dm. nmoves; by apply waits_modify. Qed.

(** Relations on the node, lifted to the task. *)
Definition on_part (R : node → node → Prop) (s s' : mt) : Prop := R (mt_node s) (mt_node s').
#[global] Instance on_part_po R `{HR : !PreOrder R} : PreOrder (on_part R).
Proof. split; unfold on_part; [by intros s|]. intros a b c ? ?. by transitivity (mt_node b). Qed.
Lemma part_nd (R : node → node → Prop) {A} (m : M A) : moves R m → moves (on_part R) (on_nd m).
Proof. apply moves_zoom. by intros s n. Qed.
Lemma part_modify R `{HR : !PreOrder R} f : (∀ s, mt_node (f s) = mt_node s) → moves (on_part R) (smodify f).
Proof. intros Hf. apply moves_modify. intros s. unfold on_part. by rewrite Hf. Qed.
Ltac pmoves :=
  repeat first
    [ progress auto with mt
    | apply moves_ret; typeclasses eauto | apply moves_get; typeclasses eauto
    | apply moves_gets; typeclasses eauto | apply moves_lift; typeclasses eauto
    | match goal with |- moves ?R (mbind ?k (mret ?x)) => change (moves R (k x)); cbv beta end
    | apply moves_bind; [typeclasses eauto| |intros]
    | apply moves_when; [typeclasses eauto|]
    | apply part_nd; solve [nmoves] | apply part_modify; [typeclasses eauto|done]
    | match goal with |- moves _ (if ?b then _ else _) => destruct b end
    | match goal with |- moves _ (match ?x with _ => _ end) => destruct x end
    | progress cbn zeta ].

Lemma qm_tx_events evs : moves same_qm (tx_events evs).
Proof. unfold tx_events. apply nm_for; [typeclasses eauto|]. intros e. nmoves. Qed.
#[local] Hint Resolve qm_tx_events : mt.
Lemma part_discovery dest : moves (on_part same_qm) (initiate_discovery hmac dest).
Proof. unfold initiate_discovery, originate_rreq, set_routing, tnow. pmoves. Qed.
Lemma waits_queue_message dest uid d data : moves (waits_only dest uid) (queue_message d data uid).
Proof. unfold queue_message. nmoves. apply waits_set_queued. by right. Qed.
#[local] Hint Resolve waits_queue_message waits_send_dm : mt.

Lemma waits_message dest uid d data :
  uid ≠ 0 → d ≠ UINT32_MAX →
  moves (on_part (waits_only dest uid)) (mesh_send_message_uid hmac d data uid).
Proof.
  intros Hu Hd. unfold mesh_send_message_uid. destruct (uid =? 0) eqn:E; [conds; lia|]. cbn [negb swhen].
  assert (Hdisc : moves (on_part (waits_only dest uid)) (initiate_discovery hmac d)).
  { eapply moves_mono; [|apply part_discovery]. intros s s' [E' _] j q Hj _. left. by rewrite <- E'. }
  assert (Hch : ∀ i, moves (on_part (waits_only dest uid)) (mesh_send_channel_uid hmac i d data uid)).
  { intros i. unfold mesh_send_channel_uid. apply moves_bind; [typeclasses eauto|pmoves|]. intros s.
    split_if; [pmoves|]. destruct (d =? UINT32_MAX) eqn:E'; [conds; lia|]. cbn [negb]. pmoves. }
  pmoves.
Qed.

(** Every entry waiting for a route to [dest], slot [i] aside, has its row. *)
Definition waiting_rows (dest : Z) (i : option nat) (n : node) : Prop :=
  ∀ j q, i ≠ Some j → nd_queue n !! j = Some q → queued_for_route dest q = true →
    qm_uid q ≠ 0 ∧ qm_uid q ∈ row_uids n.
Lemma waiting_step dest i uid n n' :
  waiting_rows dest i n → waits_only dest uid n n' → row_uids n' = row_uids n →
  uid ≠ 0 → uid ∈ row_uids n → waiting_rows dest i n'.
Proof.
  intros Hw Hs Hr Hu Hin j q Hj Hq Hf. rewrite Hr.
  destruct (Hs j q Hq Hf) as [Hq'| ->]; [by eapply Hw|done].
Qed.

Definition drain_inv (dest : Z) (s s' : mt) : Prop :=
  kept s s' ∧ row_keys (mt_node s') = row_keys (mt_node s) ∧ waiting_rows dest None (mt_node s').
Lemma drain_one dest s s1 i :
  dest ≠ UINT32_MAX → drain_inv dest s s1 →
  swp (s ← sget;
    let q := nd_queue (mt_node s) !!! i in
    swhen (queued_for_route dest q)
      (on_nd (set_queued i (with_uid q 0)) ;;
       mesh_send_message_uid hmac dest (qm_data q) (qm_uid q) ;;
       on_nd (queue_release i))) s1 (λ _ s2, drain_inv dest s s2).
Proof.
  intros Hd (K & Rk & W). apply swp_bind, swp_get. cbn zeta. set (q := nd_queue (mt_node s1) !!! i).
  apply swp_when; intros Hq; [|done].
  assert (Hi : nd_queue (mt_node s1) !! i = Some q).
  { apply list_lookup_lookup_total. destruct (nd_queue (mt_node s1) !! i) eqn:E; [eauto|].
    unfold q in Hq. by rewrite list_lookup_total_alt, E in Hq. }
  destruct (W i q) as [Hu Hrow]; [done..|]. destruct K as [Hinv Hch].
  pose proof (queue_entry_short _ i (proj1 (proj2 Hinv))) as Hl. fold q in Hl.
  apply swp_bind, swp_nd, wp_modify. set (s2 := mset_node s1 _).
  assert (K2 : kept s1 s2).
  { pose proof (safe_nd (set_queued i (with_uid q 0)) (nsafe_set_queued _ _)) as H. apply (H ltac:(
      intros n x n' E; eapply inv_set_queued; [|exact E|]; done) s1 Hinv). }
  apply swp_bind. eapply swp_mono.
  { apply (swp_moves (on_part (waits_only dest (qm_uid q)))); [by apply waits_message|].
    apply (swp_moves (trows (qm_uid q))); [by apply trows_message|].
    exact (safe_message dest (qm_data q) (qm_uid q) Hl s2 (proj1 K2)). }
  cbv beta. intros r s3 [[K3 T3] W3].
  destruct T3 as [_ T3]; [split; [apply (proj1 K2)|exact Hrow]|].
  change (row_keys (mt_node s3) = row_keys (mt_node s1)) in T3.
  assert (Hw3 : waiting_rows dest (Some i) (mt_node s3)).
  { eapply (waiting_step _ _ (qm_uid q) (mt_node s2)); [|exact W3|by apply keys_uids|done|exact Hrow].
    intros j e Hj He Hf. apply (W j e); [done| |done]. cbn in He.
    rewrite list_lookup_insert_ne in He by congruence. exact He. }
  apply swp_nd, wp_modify. set (s4 := mset_node s3 _).
  assert (K4 : kept s3 s4) by exact (safe_nd _ (nsafe_release i) (inv_release i) s3 (proj1 K3)).
  split; [|split].
  - split; [apply K4|]. destruct K2 as [_ E2], K3 as [_ E3], K4 as [_ E4]. congruence.
  - change (row_keys (mt_node s3) = row_keys (mt_node s)). congruence.
  - intros j e _ He Hf. destruct (decide (i = j)) as [->|Hne].
    + cbn in He. apply list_lookup_insert_Some in He as [(_ & <- & _)|[? _]]; done.
    + cbn in He. rewrite list_lookup_insert_ne in He by done.
      apply (Hw3 j e); [congruence|exact He|done].
Qed.

(** One row per message.  When a route to a node comes up and the messages that
    waited for it go out, each is sent under the row it has in the log: no row is
    added, dropped, moved or given another text, whether a message goes out, waits
    again for a route or a session, or fails; and what waits again has its row. *)
Theorem drained_messages_keep_rows (s : mt) (dest : Z) :
  mt_inv s → dest ≠ UINT32_MAX → waiting_rows dest None (mt_node s) →
  swp (flush_queued_messages hmac dest) s (λ _ s', row_keys (mt_node s') = row_keys (mt_node s) ∧
    waiting_rows dest None (mt_node s')).
Proof.
  intros Hs Hd Hw. unfold flush_queued_messages. eapply swp_mono.
  { apply (swp_for _ _ (drain_inv dest s)); [by split|]. intros i s1 _. by apply drain_one. }
  by intros [] s' (_ & ? & ?).
Qed.

(** ** A text too long for the queue *)

(** A direct message of more than 256 bytes to a node that is neither a neighbor
    nor has a route is copied over the end of its queue entry: with a channel set
    up and a free entry, the call never returns normally. *)
Theorem long_unicast_overflows_queue (s : mt) (dest : Z) (data : list Z) :
  mt_inv s → num_channels s ≠ 0 → must_discover s dest = true →
  (∃ q, q ∈ nd_queue (mt_node s) ∧ qm_used q = false) →
  existsb (queued_for_uid (s_next_uid (nd_msgs (mt_node s)))) (nd_queue (mt_node s)) = false →
  (BRAMBLE_MAX_PACKET_SIZE < length data)%nat →
  mesh_send_message hmac dest data s = None.
Proof.
  intros Hs Hc Hd (q & Hq & Hfree) Hfresh Hlen. unfold mesh_send_message, mesh_send_message_uid.
  unfold mbind, St_bind, sget. rewrite (proj2 (Z.eqb_neq _ _) Hc), Hd. cbn [Z.eqb negb].
  set (disc := match discovery_lookup _ _ with Some _ => _ | None => _ end).
  assert (Hdisc : moves (on_part same_qm) disc).
  { unfold disc. pose proof (part_discovery dest). pmoves. }
  destruct (disc s) as [[[] s1]|] eqn:E1; [|done]. apply Hdisc in E1 as [Eq1 Em1].
  unfold on_nd, zoom. unfold msgs_next_uid at 1. destruct (msg_store_next_uid _) as [row st] eqn:En.
  assert (Hrow : row = s_next_uid (nd_msgs (mt_node s))).
  { unfold msg_store_next_uid in En. rewrite Em1 in En. by injection En as <- _. }
  subst row.
  match goal with |- context [queue_message ?d ?x ?u ?n] => assert (Hnone : queue_message d x u n = None) end.
  { unfold queue_message, mbind, St_bind, get. cbn [mset_node mt_node mset_rx mt_rx rset_node rx_node set_msgs nd_queue].
    fold (mt_node s1). rewrite Eq1, Hfresh, andb_false_r.
    destruct (find_index _ _) as [i|] eqn:Ei.
    - unfold lift. by rewrite (proj2 (Nat.ltb_lt _ _) Hlen).
    - exfalso. apply find_index_None in Ei. rewrite Forall_forall in Ei. specialize (Ei q Hq).
      cbv beta in Ei. by rewrite Hfree in Ei. }
  by rewrite Hnone.
Qed.

(** ** A queued message that is sent again directly *)

(** A retry does not look at the queue once the peer can be reached directly: with
    an active session, it transmits the message and leaves the entry that waits
    for a route in place, so the next route to the peer sends the same message
    again. *)
Theorem retry_leaves_queued_copy (s : mt) (dest uid : Z) (data : list Z) (i : nat) :
  mt_inv s → must_discover s dest = false → dest ≠ UINT32_MAX →
  dm_lookup (nd_table (mt_node s)) dest = Some i →
  dm_in_state DM_STATE_ACTIVE (nd_table (mt_node s) !!! i) = true →
  (length data ≤ FRAG_MAX_PLAINTEXT)%nat →
  swp (mesh_resend_message hmac dest data uid) s (λ _ s', nd_queue (mt_node s') = nd_queue (mt_node s)).
Proof.
  intros Hs Hd Hb Hlk Hact Hlen. unfold mesh_resend_message.
  assert (Hl : (length data ≤ BRAMBLE_MAX_PACKET_SIZE)%nat).
  { unfold FRAG_MAX_PLAINTEXT, BRAMBLE_MAX_PACKET_SIZE in *. lia. }
  pose proof (safe_message dest data uid Hl s Hs) as H. unfold swp in *.
  destruct (mesh_send_message_uid hmac dest data uid s) as [[x s']|] eqn:E; [|done]. clear H.
  unfold mesh_send_message_uid, mbind, St_bind, sget in E. rewrite Hd in E.
  assert (Hupd : moves (on_part same_queue) (on_nd (msgs_update_by_uid uid 0 MSG_STATUS_FAILED) ;; mret 0)).
  { pmoves. }
  destruct (num_channels s =? 0); [by apply Hupd in E|].
  unfold mesh_send_channel_uid, mbind, St_bind, sget in E.
  destruct ((_ <? 0) || _) eqn:Er in E; [by apply Hupd in E|].
  rewrite (proj2 (Z.eqb_neq _ _) Hb) in E. cbn [negb] in E. unfold on_nd, zoom in E.
  destruct (mesh_send_dm _ _ _ _ _ _) as [[y n']|] eqn:Edm; [|done]. injection E as <- <-.
  unfold mesh_send_dm in Edm. rewrite (proj2 (Nat.ltb_ge _ _) Hlen) in Edm.
  unfold mbind at 1, M_bind, get in Edm. rewrite Hlk in Edm. cbn zeta in Edm. rewrite Hact in Edm.
  revert Edm. match goal with |- ?m _ = _ → _ => enough (Hm : moves same_queue m) by apply Hm end.
  nmoves.
Qed.
End Send.

(** ** Examples *)

#[local] Existing Instance toy_crypto.
#[local] Existing Instance toy_id_crypto.

Definition demo_bc : beacon_state :=
  mk_bc (replicate 32 9) [78; 111; 100; 101] 0 0 (replicate MAX_CHURN_HISTORY (mk_churn 0 0)) 0
    (mk_policy false 0 60000 30000 120000 10 3 60000) (mk_bstatus 0 60000 0 0 false 0)
    (mk_battery BATTERY_CHG_NO 80 true) idm_zero None None [].
Definition demo_mt (n : node) : mt :=
  mk_mt (rset_node (demo_rx Timesync.timesync_init) n) rreq_rate_init 0 (mk_sweep 0 0 0) demo_bc
    (mk_sched 0 60000 0 0 0 0 false) (probe_zero 0) None loc_zero [].
(** Node 50 in a session with 60, which it does not hear. *)
Definition apart : mt := demo_mt (demo_node 50 (paired true 60)).
Definition step {A} (s : mt) (m : T A) : mt := match m s with Some (_, s') => s' | None => s end.
(** 60 written to: the text waits for a route. *)
Definition waiting : mt := step apart (mesh_send_message toy_hmac 60 [104; 105]).
(** Then heard. *)
Definition heard : mt := step waiting (t_neighbors (λ nb, (neighbor_update nb 60 (-60) 5 0 1000).2)).
Definition retried : mt := step heard (mesh_resend_message toy_hmac 60 [104; 105] 1).

Lemma store_init_ok : store_ok msg_store_init.
Proof. split; [apply store_init_wf|]. constructor. Qed.
Lemma queued_init_ok : queue_ok (replicate MAX_QUEUED_MSGS inhabitant).
Proof.
  split; [|apply Forall_replicate; cbn; lia].
  intros i j a b [-> _]%lookup_replicate_1 _ Hu. discriminate Hu.
Qed.
Lemma demo_node_ok sess : node_ok (demo_node 50 (paired sess 60)).
Proof.
  unfold node_ok. fields; [apply toy_env_ok| |vm_compute; lia..]. split; [reflexivity|].
  assert (Hone : ∀ i s, <[0%nat := paired sess 60]> dm_table_init !! i = Some s →
    ss_state s ≠ DM_STATE_NONE → i = 0%nat).
  { intros i s [(<- & _ & _)|[_ [-> _]%lookup_replicate_1]]%list_lookup_insert_Some H; done. }
  intros i j s s' Hi Hj H1 H2 _. by rewrite (Hone i s), (Hone j s').
Qed.
Lemma apart_inv : mt_inv apart.
Proof. split; [apply demo_node_ok|]. split; [apply queued_init_ok|apply store_init_ok]. Qed.

Lemma step_kept {A} (m : T A) s : safe m → mt_inv s → mt_inv (step s m).
Proof.
  intros Hm Hs. specialize (Hm s Hs). unfold swp, step in *. destruct (m s) as [[x s']|]; [|done].
  apply Hm.
Qed.
Lemma waiting_inv : mt_inv waiting.
Proof.
  apply step_kept; [|apply apart_inv]. apply (safe_message toy_hmac 60 [104; 105] 0).
  unfold BRAMBLE_MAX_PACKET_SIZE. cbn [length]. lia.
Qed.
Lemma heard_inv : mt_inv heard.
Proof. apply step_kept; [|apply waiting_inv]. intros s. apply safe_neighbors. Qed.

(** The text waits in the queue under its row. *)
Lemma sending_safe_witness :
  mt_inv apart ∧ swp (run_send toy_hmac (OpMessage 60 [104; 105] 0)) apart
    (λ _ s', queue_ok (nd_queue (mt_node s'))).
Proof.
  split; [apply apart_inv|].
  eapply swp_mono; [apply (sending_safe toy_hmac apart (OpMessage 60 [104; 105] 0) apart_inv)|].
  - apply Nat.leb_le. reflexivity.
  - intros [] s' (_ & H & _). exact H.
Defined.
Lemma waiting_queue :
  (λ q, (qm_used q, qm_uid q, qm_data q)) <$> nd_queue (mt_node waiting) =
  (true, 1, [104; 105]) :: replicate 7 (false, 0, []) ∧ row_uids (mt_node waiting) = [1].
Proof. split; vm_compute; reflexivity. Qed.

Lemma waiting_has_rows : waiting_rows 60 None (mt_node waiting).
Proof.
  assert (H : Forall (λ q, queued_for_route 60 q = false ∨ qm_uid q = 1) (nd_queue (mt_node waiting))).
  { apply (bool_decide_eq_true_1 _). vm_compute. reflexivity. }
  intros j q _ Hq Hf. pose proof (Forall_lookup_1 _ _ _ _ H Hq) as [E|E]; cbv beta in E; [congruence|].
  rewrite E, (proj2 waiting_queue). split; [done|by left].
Qed.
Lemma drained_messages_keep_rows_witness :
  swp (flush_queued_messages toy_hmac 60) waiting (λ _ s', row_uids (mt_node s') = [1]).
Proof.
  eapply swp_mono; [apply (drained_messages_keep_rows toy_hmac waiting 60 waiting_inv)|].
  - discriminate.
  - exact waiting_has_rows.
  - intros [] s' [H _]. rewrite (keys_uids _ _ H). apply waiting_queue.
Defined.

Lemma long_unicast_overflows_queue_witness :
  mesh_send_message toy_hmac 77 (replicate 257 65) apart = None.
Proof.
  apply (long_unicast_overflows_queue toy_hmac apart 77 (replicate 257 65) apart_inv).
  - discriminate.
  - reflexivity.
  - exists inhabitant. split; [left|reflexivity].
  - reflexivity.
  - rewrite length_replicate. unfold BRAMBLE_MAX_PACKET_SIZE. lia.
Defined.

(** The retry went out and the copy still waits: the route sends it once more. *)
Definition data_frames (s : mt) : nat :=
  length (filter (λ e, match e with DTx _ TX_KIND_DATA true => true | _ => false end = true) (nd_out (mt_node s))).
Lemma message_sent_twice :
  data_frames waiting = 0%nat ∧ data_frames retried = 1%nat ∧
  data_frames (step retried (flush_queued_messages toy_hmac 60)) = 2%nat.
Proof. vm_compute. auto. Qed.
Lemma retry_leaves_queued_copy_witness :
  swp (mesh_resend_message toy_hmac 60 [104; 105] 1) heard
    (λ _ s', nd_queue (mt_node s') = nd_queue (mt_node heard)) ∧
  data_frames (step retried (flush_queued_messages toy_hmac 60)) = 2%nat.
Proof.
  split; [|apply message_sent_twice].
  apply (retry_leaves_queued_copy toy_hmac heard 60 1 [104; 105] 0 heard_inv).
  - vm_compute. reflexivity.
  - discriminate.
  - vm_compute. reflexivity.
  - vm_compute. reflexivity.
  - apply Nat.leb_le. reflexivity.
Defined.
