(* ===== verification/MeshBeacon.v ===== *)
(** * Beacons, attestations and the beacon policy of a node ([main/mesh_beacon.c],
      [mesh_neighbor_update_locked] of [main/mesh_task.c])

    What a node announces about itself and what it does with the announcements
    of others: neighbors, their names, network time, mail and parked messages
    for a peer just heard, pinned identities and the sessions they overrule.

    The verdicts of the transmission gate are drawn ([MeshRx.mesh_tx_rc]), so
    [tx_gate_set_beacon_size], which only the gate reads, and the statistics of
    [s_shared] have no counterpart.  The RSSI cluster test is log-only. *)

From stdpp Require Import base strings numbers sets option decidable list.
From S2P Require Import Prelude Tables Packet Dedup TxGate Routing NetworkKey RoutingAuth ChannelFlood.
From S2P Require Import Timesync MeshRouting DmCrypto DmTable Identity IdentityStore Channel MeshDm MeshRx.
From S2P Require Import ParkedRetry Beacon MeshState MeshSend.

Definition BEACON_FLAG_MAILBOX : Z := 1.
Definition ATTESTATION_INTERVAL_MS : Z := 900000.
Definition ATTESTATION_RETRY_MS : Z := 60000.
Definition BEACON_MODE_FIXED : Z := 0.
Definition BEACON_MODE_ADAPTIVE : Z := 1.

(** ** Pieces of the state *)

Definition rset_timesync (r : rx) x := mk_rx (rx_node r) (rx_mesh r) (rx_buckets r) (rx_dedup r)
  (rx_flood_dedup r) (rx_delivered r) (rx_replay r) (rx_deferred r) x (rx_reasm r) (rx_floodq r)
  (rx_flood_drops r) (rx_receipts r) (rx_recent r) (rx_recent_idx r) (rx_ring r) (rx_telemetry r)
  (rx_draws r) (rx_out r).

Section BcSetters.
Context (b : beacon_state).
Definition bset_key x := mk_bc x (bc_node_name b) (bc_att_last_ms b) (bc_att_wait_ms b) (bc_churn b)
  (bc_churn_idx b) (bc_policy b) (bc_status b) (bc_battery b) (bc_id b) (bc_pins_flash b)
  (bc_policy_flash b) (bc_nvs b).
Definition bset_att last wait := mk_bc (bc_key b) (bc_node_name b) last wait (bc_churn b)
  (bc_churn_idx b) (bc_policy b) (bc_status b) (bc_battery b) (bc_id b) (bc_pins_flash b)
  (bc_policy_flash b) (bc_nvs b).
Definition bset_churn x i := mk_bc (bc_key b) (bc_node_name b) (bc_att_last_ms b) (bc_att_wait_ms b) x
  i (bc_policy b) (bc_status b) (bc_battery b) (bc_id b) (bc_pins_flash b) (bc_policy_flash b) (bc_nvs b).
Definition bset_policy x := mk_bc (bc_key b) (bc_node_name b) (bc_att_last_ms b) (bc_att_wait_ms b)
  (bc_churn b) (bc_churn_idx b) x (bc_status b) (bc_battery b) (bc_id b) (bc_pins_flash b)
  (bc_policy_flash b) (bc_nvs b).
Definition bset_status x := mk_bc (bc_key b) (bc_node_name b) (bc_att_last_ms b) (bc_att_wait_ms b)
  (bc_churn b) (bc_churn_idx b) (bc_policy b) x (bc_battery b) (bc_id b) (bc_pins_flash b)
  (bc_policy_flash b) (bc_nvs b).
Definition bset_pins_flash x := mk_bc (bc_key b) (bc_node_name b) (bc_att_last_ms b) (bc_att_wait_ms b)
  (bc_churn b) (bc_churn_idx b) (bc_policy b) (bc_status b) (bc_battery b) (bc_id b) x
  (bc_policy_flash b) (bc_nvs b).
Definition bset_policy_flash x := mk_bc (bc_key b) (bc_node_name b) (bc_att_last_ms b)
  (bc_att_wait_ms b) (bc_churn b) (bc_churn_idx b) (bc_policy b) (bc_status b) (bc_battery b) (bc_id b)
  (bc_pins_flash b) x (bc_nvs b).
Definition bset_nvs x := mk_bc (bc_key b) (bc_node_name b) (bc_att_last_ms b) (bc_att_wait_ms b)
  (bc_churn b) (bc_churn_idx b) (bc_policy b) (bc_status b) (bc_battery b) (bc_id b) (bc_pins_flash b)
  (bc_policy_flash b) x.
End BcSetters.

Definition set_beacon (f : beacon_state → beacon_state) : T unit :=
  smodify (λ s, mset_beacon s (f (mt_beacon s))).
(** The outcome of the next flash access, a failure once the list is used up. *)
Definition draw_nvs : T bool :=
  s ← sget;
  let l := bc_nvs (mt_beacon s) in
  set_beacon (λ b, bset_nvs b (tail l)) ;;
  mret (match l with [] => false | x :: _ => x end).
Definition save_pins : T unit :=
  ok ← draw_nvs;
  s ← sget;
  set_beacon (λ b, bset_pins_flash b
    (mesh_pin_store_save (nd_pins (mt_node s)) (bc_pins_flash b) ok)).
Definition t_pins (f : identity_store_t → identity_store_t) : T unit :=
  on_nd (modify (λ n, set_pins n (f (nd_pins n)))).
(** [crypto_generate_identity]: untouched on failure. *)
Definition generate_identity : M (option bramble_identity_t) := λ n,
  let v := nd_env n in
  Some (match v_gen v with [] => None | g :: _ => g end,
        set_env n (mk_dm_env (v_now v) (v_tx v) (tail (v_gen v)) (v_nonce v) (v_rand v) (v_net_s v)
                     (v_uptime_s v))).

Definition battery_beacon_pct (charging : battery_charging_t) (pct : Z) (have_reading : bool) : Z :=
  if bool_decide (charging = BATTERY_CHG_YES) || negb have_reading then 255 else pct.

Section MeshBeacon.
Context `{DC : DmCrypto} `{IC : IdCrypto} (hmac : list Z → list Z → list Z).
(** [crypto_ed25519_sign]: the signature by a secret key, [None] on failure. *)
Context (crypto_ed25519_sign : list Z → list Z → option (list Z)).

(** ** Announcing *)

(** The name is cut at a character boundary. *)
Definition beacon_name (node_name : list Z) : option (nat * list Z) :=
  let name := c_string node_name in
  match name with
  | [] => Some (0%nat, replicate (BEACON_NAME_MAX + 1) 0)
  | _ =>
      name_len ← bramble_utf8_trunc_len (Some name) (length name) BEACON_NAME_MAX;
      cut ← rdn name 0 name_len;
      buf ← wr (replicate (BEACON_NAME_MAX + 1) 0) 0 cut;
      buf ← wr buf name_len [0];
      Some (name_len, buf)
  end.
(** The beacon before its sequence number and MAC. *)
Definition own_beacon (s : mt) (packet_id : Z) (name_len : nat) (name : list Z) : bramble_beacon_t :=
  let n := mt_node s in
  let bat := bc_battery (mt_beacon s) in
  let ts := rx_timesync (mt_rx s) in
  let now := v_now (nd_env n) in
  mk_beacon (mk_header BRAMBLE_VERSION PKT_TYPE_BEACON 0 1 UINT32_MAX packet_id)
    (id_address (nd_id n)) (id_pubkey_hash (nd_id n)) (u16 (now / 60000))
    (battery_beacon_pct (bs_charging bat) (bs_pct bat) (bs_reading bat)) 0
    (u8 (Z.of_nat (neighbor_count (nd_neighbors n))))
    (if s_mailbox_enabled (rx_mesh (mt_rx s)) then BEACON_FLAG_MAILBOX else 0)
    (if ts_synchronized ts then u32 (timesync_get_network_time ts now) else 0)
    (if ts_synchronized ts then timesync_get_stratum ts else 65535)
    (replicate 6 0) (replicate 16 0) (Z.of_nat name_len) name.
Definition beacon_with_seq (b : bramble_beacon_t) (seq : Z) : bramble_beacon_t :=
  mk_beacon (bcn_header b) (bcn_src_addr b) (bcn_pubkey_hash b) (bcn_uptime_min b) (bcn_battery_pct b)
    (bcn_tx_queue_depth b) (bcn_neighbor_count b) (bcn_flags b) (bcn_network_time b)
    (bcn_time_confidence b) (bramble_seq48_pack seq) (bcn_auth_hmac b) (bcn_name_len b) (bcn_name b).

Definition send_beacon : T Z :=
  s ← sget;
  if negb (network_key_is_provisioned (nd_key (mt_node s))) then mret (-1) else
  packet_id ← on_nd next_packet_id;
  '(name_len, name) ← slift (beacon_name (bc_node_name (mt_beacon s)));
  let beacon := own_beacon s packet_id name_len name in
  seq ← on_rx control_seq_next;
  match seq with
  | None => mret (-1)
  | Some seq =>
      beacon ← slift (beacon_compute_hmac hmac (beacon_with_seq beacon seq) (bc_key (mt_beacon s)));
      let cap := (BEACON_SIZE + 1 + BEACON_NAME_MAX)%nat in
      '(e, buf) ← slift (bramble_beacon_serialize beacon (replicate cap 0) cap);
      match e with
      | ESP_OK =>
          len ← slift (bramble_beacon_wire_size beacon);
          frame ← slift (rdn buf 0 len);
          on_rx (mesh_tx_rc frame TX_KIND_BEACON)
      | _ => mret (-1)
      end
  end.

Definition own_attestation (s : mt) (packet_id : Z) : bramble_identity_attestation_t :=
  let n := mt_node s in
  let '(not_after, endorsement_sig) :=
    default (0, replicate 64 0) (identity_endorsement_get (bc_id (mt_beacon s))) in
  mk_attestation
    (mk_header BRAMBLE_VERSION PKT_TYPE_IDENTITY_ATTESTATION 0
       (flood_origination_hop_limit (nd_flood_transport n) (nd_flood_hop_limit n)) UINT32_MAX packet_id)
    (id_address (nd_id n)) (id_public_key (nd_id n)) (id_ed25519_public_key (nd_id n))
    (replicate 64 0) not_after endorsement_sig (replicate 8 0) (replicate 6 0).
Definition att_with_sig (a : bramble_identity_attestation_t) (sig : list Z) (seq : Z) :=
  mk_attestation (att_header a) (att_src_addr a) (att_x25519_pub a) (att_ed25519_pub a) sig
    (att_not_after a) (att_endorsement_sig a) (att_auth_hmac a) (bramble_seq48_pack seq).

Definition send_identity_attestation : T Z :=
  s ← sget;
  if negb (network_key_is_provisioned (nd_key (mt_node s))) then mret (-1) else
  seq ← on_rx control_seq_next;
  match seq with
  | None => mret (-1)
  | Some seq =>
      packet_id ← on_nd next_packet_id;
      let att := own_attestation s packet_id in
      '(e, msg) ← slift (bramble_identity_attestation_signed_msg att
                           (replicate IDENTITY_ATTESTATION_MSG_SIZE 0) IDENTITY_ATTESTATION_MSG_SIZE);
      match e with
      | ESP_OK =>
          match crypto_ed25519_sign (id_ed25519_private_key (nd_id (mt_node s))) msg with
          | None => mret (-1)
          | Some sig =>
              let '(_, att) := ident_relay_sign hmac (nd_key (mt_node s)) (att_with_sig att sig seq) in
              '(e, buf) ← slift (bramble_identity_attestation_serialize att
                                   (replicate IDENTITY_ATTESTATION_SIZE 0) IDENTITY_ATTESTATION_SIZE);
              match e with
              | ESP_OK => on_rx (mesh_tx_rc buf TX_KIND_DATA_BROADCAST)
              | _ => mret (-1)
              end
          end
      | _ => mret (-1)
      end
  end.
Definition attempt_identity_attestation (t : Z) : T unit :=
  rc ← send_identity_attestation;
  set_beacon (λ b, bset_att b t (if rc =? TX_GATE_OK then ATTESTATION_INTERVAL_MS else ATTESTATION_RETRY_MS)).
Definition mesh_trigger_attestation : T unit := t ← tnow; attempt_identity_attestation t.

(** ** Hearing beacons *)

Definition named (e : neighbor_entry_t) (name : list Z) : neighbor_entry_t :=
  mk_neighbor (nb_addr e) (nb_rssi e) (nb_snr e) (nb_last_heard e) (nb_pubkey_hash e) name
    (nb_first_seen_ms e) (nb_beacon_count e) (nb_parked_retry_after_ms e).
Definition mesh_neighbor_update_locked (addr rssi snr pubkey_hash t : Z) (name : list Z) (name_len : Z)
    : T nat :=
  s ← sget;
  let '(idx, nb) := neighbor_update (nd_neighbors (mt_node s)) addr rssi snr pubkey_hash t in
  e ← slift (entries nb !! idx);
  buf ← (if name_len >? 0
         then slift (nm ← rdn name 0 (Z.to_nat name_len);
                     buf ← wr (nb_name e) 0 nm; wr buf (Z.to_nat name_len) [0])
         else slift (wr (nb_name e) 0 [0]));
  t_neighbors (λ _, tset nb idx (named e buf)) ;;
  mret idx.

Definition beacon_zero : bramble_beacon_t :=
  mk_beacon header_zero 0 0 0 0 0 0 0 0 0 (replicate 6 0) (replicate 16 0) 0 (replicate (BEACON_NAME_MAX + 1) 0).

(** The branch for another node with this node's address. *)
Definition address_collision : T unit :=
  gen ← on_nd generate_identity;
  match gen with
  | None => mret tt
  | Some id =>
      on_nd (modify (λ n, set_id n id)) ;;
      saved ← draw_nvs;
      if negb saved then mret tt
      else
        t ← tnow;
        attempt_identity_attestation t ;;
        s ← sget;
        notify (MOnIdentityChange (id_address (nd_id (mt_node s))))
  end.

(** The offered time counts as corroboration only from established, eligible peers. *)
Definition beacon_timesync (beacon : bramble_beacon_t) (t : Z) : T unit :=
  swhen (negb (bcn_network_time beacon =? 0) && negb (bcn_time_confidence beacon =? 65535))
    (s ← sget;
     let n := mt_node s in
     let established := neighbor_is_established (nd_neighbors n) (bcn_src_addr beacon) t in
     let quorum_ok := identity_store_quorum_eligible (nd_pins n) (bcn_src_addr beacon) established t in
     let '(_, ts) := timesync_handle_sync (rx_timesync (mt_rx s)) (bcn_network_time beacon)
                       (u8 (bcn_time_confidence beacon)) (bcn_src_addr beacon) quorum_ok t in
     on_rx (rmodify (λ r, rset_timesync r ts))).
(** What waits for the peer: held mail, then the messages parked for it. *)
Definition serve_peer (addr : Z) (is_new_peer : bool) (t : Z) : T unit :=
  s ← sget;
  swhen (s_mailbox_enabled (rx_mesh (mt_rx s))) (mailbox_flush_for addr) ;;
  s ← sget;
  let '(flush, nb) :=
    parked_retry_beacon_decide_flush (nd_neighbors (mt_node s)) (mt_sweep s) addr is_new_peer t in
  t_neighbors (λ _, nb) ;;
  swhen flush
    (found ← mesh_flush_parked_for hmac addr;
     t_neighbors (λ nb, parked_retry_flushed nb addr found t)).

Definition handle_beacon (data : list Z) (len : nat) (rssi snr : Z) : T unit :=
  s ← sget;
  if negb (network_key_is_provisioned (nd_key (mt_node s))) then mret tt else
  '(e, beacon) ← slift (bramble_beacon_deserialize beacon_zero data len);
  match e with
  | ESP_OK =>
      let id := nd_id (mt_node s) in
      if bcn_src_addr beacon =? id_address id then mret tt else
      ok ← slift (beacon_verify_hmac hmac beacon (bc_key (mt_beacon s)));
      if negb ok then mret tt else
      fresh ← on_rx (rx_control_replay_ok (bcn_src_addr beacon) (bramble_seq48_unpack (bcn_seq beacon)));
      if negb fresh then mret tt else
      if identity_check_collision id (bcn_src_addr beacon) (bcn_pubkey_hash beacon)
      then address_collision
      else
        t ← tnow;
        idx ← mesh_neighbor_update_locked (bcn_src_addr beacon) (i8 rssi) snr (bcn_pubkey_hash beacon) t
                (bcn_name beacon) (bcn_name_len beacon);
        s ← sget;
        let is_new_peer := neighbor_is_newly_admitted (nd_neighbors (mt_node s)) idx t in
        beacon_timesync beacon t ;;
        serve_peer (bcn_src_addr beacon) is_new_peer t ;;
        notify MOnNeighborChange
  | _ => mret tt
  end.

(** ** Hearing attestations *)

(** The session whose key disagrees with the pin is dropped, its verification revoked. *)
Definition pin_overrules_session (addr : Z) : T unit :=
  s ← sget;
  match identity_store_lookup (nd_pins (mt_node s)) addr with
  | None => mret tt
  | Some pinned =>
      let table := nd_table (mt_node s) in
      match dm_lookup table addr with
      | None => mret tt
      | Some i =>
          let sess := table !!! i in
          swhen (dm_pin_disagrees sess (pin_x25519_pub pinned))
            (on_nd (modify (λ n, set_table n (dm_session_teardown (nd_table n) addr).2)) ;;
             swhen (dm_verified_should_clear sess (pin_x25519_pub pinned))
               (t_pins (λ p, (identity_store_clear_verified p addr).2) ;;
                t_pins (λ p, (identity_store_mark_key_changed p addr).2) ;;
                save_pins))
      end
  end.
Definition relay_attestation (data : list Z) (len : nat) (att : bramble_identity_attestation_t)
    (is_dup : bool) (flood_key : Z) : T unit :=
  s ← sget;
  let is_own_echo := att_src_addr att =? id_address (nd_id (mt_node s)) in
  budget_permits ← on_rx draw_check;
  rand ← on_rx esp_random;
  let flood := channel_flood_decide (h_hop_limit (att_header att)) (is_dup || is_own_echo)
                 budget_permits rand in
  if negb (cf_should_relay flood) then mret tt
  else
    frame ← slift (rdn data 0 len);
    buf ← slift (wr (replicate IDENTITY_ATTESTATION_SIZE 0) 0 frame);
    '(_, buf) ← slift (bramble_header_serialize
                         (header_with_hops (att_header att) (cf_new_hop_limit flood)) buf HEADER_SIZE);
    on_rx (rx_schedule_flood_relay buf len (cf_jitter_ms flood) flood_key TX_KIND_DATA_BROADCAST).

(** The wall clock for the endorsement's expiry, zero while it is not trusted. *)
Definition trusted_epoch_ms (ts : timesync_state_t) (now : Z) : Z :=
  let net_time_ms := timesync_get_network_time ts now in
  if timesync_is_confident ts now && (net_time_ms >? 0) then net_time_ms else 0.
Definition pin_is_authoritative (pin : identity_pin_result_t) : bool :=
  match pin with
  | IDENTITY_PIN_NEW | IDENTITY_PIN_REFRESHED | IDENTITY_PIN_CONFLICT => true
  | _ => false
  end.

Definition handle_identity_attestation (data : list Z) (len : nat) : T unit :=
  '(e, att) ← slift (bramble_identity_attestation_deserialize att_blank data len);
  match e with
  | ESP_OK =>
      s ← sget;
      ok ← slift (ident_relay_verify hmac (nd_key (mt_node s)) att);
      if negb ok then mret tt else
      fresh ← on_rx (rx_control_replay_ok (att_src_addr att) (bramble_seq48_unpack (att_seq att)));
      if negb fresh then mret tt else
      now ← tnow;
      let flood_key := Z.lxor (h_packet_id (att_header att)) (att_src_addr att) in
      let '(is_dup, seen) := dedup_check_and_add (rx_flood_dedup (mt_rx s)) flood_key now in
      on_rx (rmodify (λ r, rset_flood_dedup r seen)) ;;
      let '(pin, pins) := identity_store_handle_attestation (nd_pins (mt_node s)) att
                            (id_address (nd_id (mt_node s))) now
                            (trusted_epoch_ms (rx_timesync (mt_rx s)) now) in
      t_pins (λ _, pins) ;;
      swhen (bool_decide (pin = IDENTITY_PIN_NEW)) save_pins ;;
      swhen (pin_is_authoritative pin) (pin_overrules_session (att_src_addr att)) ;;
      relay_attestation data len att is_dup flood_key
  | _ => mret tt
  end.

(** ** The interval policy *)

Definition record_churn_event (t neighbor_count : Z) : T unit :=
  set_beacon (λ b, bset_churn b (<[bc_churn_idx b := mk_churn t neighbor_count]> (bc_churn b))
                     (Nat.modulo (bc_churn_idx b + 1) MAX_CHURN_HISTORY)).

(** The status the adaptive branch leaves. *)
Definition adaptive_status (st : beacon_policy_status_t) (p : beacon_policy_config_t)
    (d : beacon_interval_decision_t) (t neighbor_count churn : Z) : beacon_policy_status_t :=
  mk_bstatus BEACON_MODE_ADAPTIVE (bd_interval_ms d) churn neighbor_count (bd_in_backoff d)
    (if negb (bst_active_mode st =? BEACON_MODE_ADAPTIVE) ||
        ((bst_last_transition_ms st =? 0) && bp_enabled p)
     then t else bst_last_transition_ms st).
Definition compute_adaptive_beacon_interval (t neighbor_count : Z) : T Z :=
  s ← sget;
  let b := mt_beacon s in
  let p := bc_policy b in
  let st := bc_status b in
  let churn := beacon_churn_count (bc_churn b) t (bp_churn_window_ms p) in
  let d := beacon_interval_decide (bp_enabled p) (bp_mode p =? BEACON_MODE_ADAPTIVE)
             (bp_base_interval_ms p) (bp_min_interval_ms p) (bp_max_interval_ms p)
             (bp_dense_threshold p) (bp_churn_threshold p) neighbor_count churn in
  set_beacon (λ b, bset_status b
    (if negb (bd_adaptive_active d)
     then mk_bstatus (bst_active_mode st) (bst_current_interval_ms st) (bst_churn_events st)
            (bst_neighbor_count st) false (bst_last_transition_ms st)
     else adaptive_status st p d t neighbor_count churn)) ;;
  mret (bd_interval_ms d).

(** [None]: the NULL pointer.  What a failed commit leaves in flash is the old policy. *)
Definition mesh_set_beacon_policy (config : option beacon_policy_config_t) : T Z :=
  match config with
  | None => mret (-1)
  | Some c =>
      if (bp_min_interval_ms c <? 10000) || (bp_max_interval_ms c >? 300000) then mret (-1)
      else if bp_min_interval_ms c >? bp_max_interval_ms c then mret (-1)
      else
        set_beacon (λ b, bset_policy b c) ;;
        opened ← draw_nvs;
        if negb opened then mret (-1) else
        committed ← draw_nvs;
        if negb committed then mret (-1)
        else
          set_beacon (λ b, bset_policy_flash b (Some
            (mk_policy (bp_enabled c) (u8 (bp_mode c)) (bp_base_interval_ms c) (bp_min_interval_ms c)
               (bp_max_interval_ms c) (bp_dense_threshold c) (bp_churn_threshold c)
               (bp_churn_window_ms c)))) ;;
          mret 0
  end.
Definition mesh_get_beacon_policy : T beacon_policy_config_t := sgets (λ s, bc_policy (mt_beacon s)).
Definition mesh_get_beacon_status : T beacon_policy_status_t := sgets (λ s, bc_status (mt_beacon s)).
(** Nothing is stored before the first [mesh_set_beacon_policy]. *)
Definition mesh_beacon_policy_load_config : T unit :=
  opened ← draw_nvs;
  s ← sget;
  match bc_policy_flash (mt_beacon s) with
  | Some c => swhen opened (set_beacon (λ b, bset_policy b c))
  | None => mret tt
  end.

Definition mesh_rederive_beacon_key : T unit :=
  s ← sget;
  match network_key_get (nd_key (mt_node s)) with
  | Some net_key =>
      match crypto_hkdf_sha256 (str_bytes "bramble-beacon-v2") net_key [] 32 with
      | Some key => set_beacon (λ b, bset_key b key)
      | None => mret tt
      end
  | None => set_beacon (λ b, bset_key b (replicate 32 0))
  end.
End MeshBeacon.
