(* ===== verification/MeshBeaconSpec.v ===== *)
(** * Announcements: what a node believes

    A beacon or an attestation changes a node only if the network key vouches for
    it and its sequence number is fresh; the handlers return whatever the bytes;
    a neighbor's beacon is heard with the name it announced; a node never gives up
    its identity; and a pinned key overrules a session made with another. *)

From stdpp Require Import base strings numbers sets option decidable gmap list.
From S2P Require Import Prelude Tables Packet PacketSpec Dedup Fragment Mailbox TxGate Reliability Routing.
From S2P Require Import NetworkKey NonceCounter RoutingAuth Discovery ChannelFlood Security Timesync MeshRouting.
From S2P Require Import MeshRoutingSpec DmCrypto DmRatchet DmTable Identity IdentityStore IdentityStoreSpec.
From S2P Require Import Channel MsgStore MsgStoreSpec MeshDm MeshDmSpec Receipts MeshRx MeshRxSpec KeyedTable RoutingSpec NeighborSpec.
From S2P Require Import ParkedRetry Beacon MeshState MeshSend MeshSendSpec MeshBeacon.

Create HintDb who.

(** ** What a beacon parses to *)

Lemma get_be32_range buf off v : Forall is_u8 buf → get_be32 buf off = Some v → is_u32 v.
Proof.
  intros Hb. unfold get_be32. destruct (rdn buf off 4) as [bs|] eqn:E; [|done]. intros [= <-].
  apply be32_val_range. by eapply rdn_bytes.
Qed.
Lemma get_be16_range buf off v : Forall is_u8 buf → get_be16 buf off = Some v → is_u16 v.
Proof.
  intros Hb. unfold get_be16. destruct (rdn buf off 2) as [bs|] eqn:E; [|done]. intros [= <-].
  pose proof (rdn_bytes _ _ _ _ Hb E) as Hbs. apply rdn_inv in E as (_ & Hl & _).
  destruct bs as [|x [|y [|]]]; try done. inversion_clear Hbs as [|? ? Hx Hy]. inversion_clear Hy as [|? ? Hy' _].
  rewrite be16_val_arith by done. cint.
Qed.
(** Runs the reads of a parser that is known to have returned. *)
Ltac inv_read H :=
  match type of H with
  | context [match ?o with Some _ => _ | None => None end] =>
      let E := fresh "R" in destruct o eqn:E; [|discriminate H]; cbn [mbind option_bind] in H
  | context [?o ≫= _] =>
      let E := fresh "R" in destruct o eqn:E; [|discriminate H]; cbn [mbind option_bind] in H
  end.
Lemma header_parsed_ok h buf len h' :
  Forall is_u8 buf → bramble_header_deserialize h buf len = Some (ESP_OK, h') → header_ok h'.
Proof.
  intros Hb. unfold bramble_header_deserialize. destruct (len <? HEADER_SIZE)%nat; [done|]. intros H.
  repeat inv_read H. injection H as <-. unfold header_ok. cbn [h_version h_type h_flags h_hop_limit h_dest_addr h_packet_id].
  split_and!; first [by eapply rd_byte | by eapply get_be32_range].
Qed.
Lemma beacon_parsed_ok buf len b :
  (len ≤ length buf)%nat → Forall is_u8 buf → bramble_beacon_deserialize beacon_zero buf len = Some (ESP_OK, b) →
  beacon_ok b ∧ Forall is_u8 (bcn_auth_hmac b) ∧ (0 ≤ bcn_name_len b ≤ 16)%Z.
Proof.
  intros Hlen Hb H. destruct (beacon_deserialize_consistent beacon_zero buf len Hlen Hb) as (r & b' & E & Hc).
  rewrite H in E. injection E as <- <-.
  destruct (BEACON_SIZE <=? len)%nat; [|by destruct Hc].
  destruct Hc as (_ & (Hn & Hp & _) & _ & Hm). unfold BEACON_NAME_MAX in *.
  unfold bramble_beacon_deserialize in H. destruct (len <? BEACON_SIZE)%nat; [done|].
  destruct (bramble_header_deserialize _ _ _) as [[[] hd]|] eqn:Eh; [|done..]. cbn [mbind option_bind] in H.
  apply header_parsed_ok in Eh; [|done]. do 11 inv_read H.
  match type of H with (?o ≫= _) = _ => destruct o as [[nl nm]|]; [|done] end. cbn [mbind option_bind] in H.
  injection H as <-. cbn in Hn, Hp, Hm |- *. unfold beacon_ok.
  cbn [bcn_header bcn_src_addr bcn_pubkey_hash bcn_uptime_min bcn_battery_pct bcn_tx_queue_depth
    bcn_neighbor_count bcn_flags bcn_network_time bcn_time_confidence bcn_seq bcn_auth_hmac bcn_name_len bcn_name].
  split_and!; try first [done | by eapply rd_byte | by eapply get_be32_range | by eapply get_be16_range
    | by eapply rdn_bytes | match goal with E : rdn _ _ _ = Some ?x |- length ?x = _ => by apply rdn_inv in E as (_ & ? & _) end
    | cint_unfold; lia | lia].
Qed.

(** ** Neighbors with names *)

Definition names_ok (t : neighbor_table_t) : Prop :=
  nb_inv t ∧ Forall (λ e, length (nb_name e) = 17%nat) (entries t).
(** The entry carries the name, terminated. *)
Definition carries (e : neighbor_entry_t) (name : list Z) (n : nat) : Prop :=
  take n (nb_name e) = take n name ∧ nb_name e !! n = Some 0.
Definition same_or_gone (t t' : neighbor_table_t) (a : Z) : Prop :=
  ∀ b, b ≠ a → neighbor_lookup t' b = neighbor_lookup t b ∨ neighbor_lookup t' b = None.

(** ** Sends leave alone what announcements are about *)

Definition same_who (n n' : node) : Prop :=
  nd_id n' = nd_id n ∧ nd_key n' = nd_key n ∧ nd_pins n' = nd_pins n ∧ nd_neighbors n' = nd_neighbors n.
#[global] Instance same_who_po : PreOrder same_who.
Proof. split; unfold same_who; [done|]. intros a b c (?&?&?&?) (?&?&?&?). split_and!; congruence. Qed.

Lemma who_tx f k : moves same_who (mesh_tx f k : St node bool).
Proof. by intros n x n' [= <- <-]. Qed.
Lemma who_generate : moves same_who (crypto_generate_identity : St node _).
Proof. by intros n x n' [= <- <-]. Qed.
Lemma who_nonce : moves same_who (nonce_next : St node _).
Proof. by intros n x n' [= <- <-]. Qed.
Lemma who_packet_id : moves same_who (next_packet_id : St node _).
Proof. intros n x n'. unfold next_packet_id. destruct (nd_counter n =? 0); by intros [= <- <-]. Qed.
Lemma who_emit e : moves same_who (emit e : St node _).
Proof. by intros n x n' [= <- <-]. Qed.
Lemma who_set_session i x : moves same_who (set_session i x : St node _).
Proof. by intros n y n' [= <- <-]. Qed.
Lemma who_modify f : (∀ n, same_who n (f n)) → moves same_who (modify f : St node _).
Proof. intros Hf n y n' [= <- <-]. apply Hf. Qed.
Lemma who_now : moves same_who (now_ms : St node _).
Proof. by intros n y n' [= <- <-]. Qed.
Lemma who_update u p st : moves same_who (msgs_update_by_uid u p st : St node _).
Proof.
  intros n x n'. unfold msgs_update_by_uid. destruct (msg_store_update_by_uid _ _ _ _) as [[? ?] ?].
  by intros [= <- <-].
Qed.
Lemma who_next_uid : moves same_who (msgs_next_uid : St node _).
Proof. by intros n x n' [= <- <-]. Qed.
Lemma who_add_dm p t i st u : moves same_who (msgs_add_dm_uid p t i st u : St node _).
Proof.
  intros n x n'. unfold msgs_add_dm_uid. destruct (msg_store_add_dm_uid _ _ _ _ _ _ _ _ _).
  by intros [= <- <-].
Qed.
Lemma who_add_channel p d t i st c : moves same_who (msgs_add_channel p d t i st c : St node _).
Proof.
  intros n x n'. unfold msgs_add_channel. destruct (msg_store_add_channel _ _ _ _ _ _ _ _ _ _).
  by intros [= <- <-].
Qed.
#[export] Hint Resolve who_tx who_generate who_nonce who_packet_id who_emit who_set_session who_now
  who_update who_next_uid who_add_dm who_add_channel nm_ret nm_get nm_gets nm_lift nm_when : who.
#[export] Hint Extern 0 (PreOrder _) => typeclasses eauto : who.
Ltac wmoves :=
  repeat first
    [ progress auto with who
    | apply nm_bind; [typeclasses eauto| |intros]
    | apply nm_when; [typeclasses eauto|]
    | apply nm_for; [typeclasses eauto|intros]
    | apply who_modify; intros; by repeat split
    | match goal with |- moves _ (if ?b then _ else _) => destruct b end
    | match goal with |- moves _ (match ?x with _ => _ end) => destruct x end
    | progress cbn zeta ].

Section Announce.
Context `{DC : DmCrypto} `{DL : !DmCryptoLaws} `{IC : IdCrypto} (hmac : list Z → list Z → list Z)
  `{HL : !HmacLaws hmac}.
Context (crypto_ed25519_sign : list Z → list Z → option (list Z)).

Lemma who_send_dm_packet dest payload i : moves same_who (send_dm_packet hmac dest payload i).
Proof. unfold send_dm_packet. wmoves. Qed.
Lemma who_send_data dest payload ch ty : moves same_who (send_data_packet hmac dest payload ch ty).
Proof. unfold send_data_packet. wmoves. Qed.
#[local] Hint Resolve who_send_dm_packet who_send_data : who.
Lemma who_send_ke dest idx ke : moves same_who (send_ke_envelope hmac dest idx ke).
Proof. unfold send_ke_envelope. wmoves. Qed.
#[local] Hint Resolve who_send_ke : who.
Lemma who_initiate dest idx e : moves same_who (initiate_dm_handshake hmac dest idx e).
Proof. unfold initiate_dm_handshake. wmoves. Qed.
#[local] Hint Resolve who_initiate : who.
Lemma who_queue_session dest data idx uid : moves same_who (queue_session_message dest data idx uid).
Proof. unfold queue_session_message, queue_put. wmoves. Qed.
#[local] Hint Resolve who_queue_session : who.
Lemma who_await idx dest data uid b : moves same_who (await_session hmac idx dest data uid b).
Proof. unfold await_session. wmoves. Qed.
#[local] Hint Resolve who_await : who.
Lemma who_send_dm idx dest data uid : moves same_who (mesh_send_dm hmac idx dest data uid).
Proof. unfold mesh_send_dm. wmoves. Qed.
Lemma who_queue_message dest data u : moves same_who (queue_message dest data u).
Proof. unfold queue_message, set_queued. wmoves. Qed.
Lemma who_tx_events evs : moves same_who (tx_events evs).
Proof. unfold tx_events. wmoves. Qed.
#[local] Hint Resolve who_send_dm who_queue_message who_tx_events : who.

(** The same on the whole state, with the mailbox and the clock. *)
Definition side (s s' : mt) : Prop :=
  same_who (mt_node s) (mt_node s') ∧
  s_mailbox (rx_mesh (mt_rx s')) = s_mailbox (rx_mesh (mt_rx s)) ∧
  s_mailbox_enabled (rx_mesh (mt_rx s')) = s_mailbox_enabled (rx_mesh (mt_rx s)) ∧
  rx_timesync (mt_rx s') = rx_timesync (mt_rx s) ∧ mt_beacon s' = mt_beacon s ∧ mt_out s' = mt_out s.
#[local] Instance side_po : PreOrder side.
Proof.
  split; unfold side; [by intros s; split; [reflexivity|]|]. intros a b c (?&?&?&?&?&?) (?&?&?&?&?&?).
  split; [by transitivity (mt_node b)|]. split_and!; congruence.
Qed.
Lemma side_nd {A} (m : M A) : moves same_who m → moves side (on_nd m).
Proof. apply moves_zoom. by intros s n. Qed.
Lemma side_rx {A} (m : Rx A) :
  (∀ r x r', m r = Some (x, r') → same_who (rx_node r) (rx_node r') ∧ rx_mesh r' = rx_mesh r ∧ rx_timesync r' = rx_timesync r) →
  moves side (on_rx m).
Proof.
  intros Hm. apply (moves_zoom _ (λ r r', same_who (rx_node r) (rx_node r') ∧ rx_mesh r' = rx_mesh r ∧ rx_timesync r' = rx_timesync r)).
  - intros s r (H1 & H2 & H3). unfold side, mt_node in *. cbn [mset_rx mt_rx mt_beacon mt_out]. by rewrite H2, H3.
  - intros r x r' E. by eapply Hm.
Qed.
Lemma side_draw_check : moves side (on_rx draw_check).
Proof. apply side_rx. by intros r x r' [= <- <-]. Qed.
Lemma side_malloc : moves side (on_rx malloc_ok).
Proof. apply side_rx. by intros r x r' [= <- <-]. Qed.
Lemma side_record p : moves side (on_rx (recent_broadcast_record p)).
Proof.
  apply side_rx. intros r x r'. unfold recent_broadcast_record. destruct (p =? 0); by intros [= <- <-].
Qed.
#[local] Hint Resolve side_draw_check side_malloc side_record : who.
Ltac smoves :=
  repeat first
    [ progress auto with who
    | apply moves_ret; typeclasses eauto | apply moves_get; typeclasses eauto
    | apply moves_gets; typeclasses eauto | apply moves_lift; typeclasses eauto
    | apply moves_bind; [typeclasses eauto| |intros]
    | apply moves_when; [typeclasses eauto|]
    | apply moves_for; [typeclasses eauto|intros]
    | apply side_nd; solve [wmoves]
    | apply moves_modify; intros; by repeat split
    | match goal with |- moves _ (if ?b then _ else _) => destruct b end
    | match goal with |- moves _ (match ?x with _ => _ end) => destruct x end
    | progress cbn zeta ].
Lemma side_fragments idx dest frags : ∀ i first, moves side (send_fragments hmac idx dest frags i first).
Proof.
  induction frags as [|f frags IH]; intros i first; cbn [send_fragments]; unfold note_broadcast, send_on_channel; smoves.
Qed.
#[local] Hint Resolve side_fragments : who.
Lemma side_channel idx dest data uid : moves side (mesh_send_channel_uid hmac idx dest data uid).
Proof. unfold mesh_send_channel_uid, send_fragmented, note_broadcast, send_on_channel. smoves. Qed.
Lemma side_discovery dest : moves side (initiate_discovery hmac dest).
Proof. unfold initiate_discovery, originate_rreq, set_routing, tnow. smoves. Qed.
#[local] Hint Resolve side_channel side_discovery : who.
Lemma side_message dest data uid : moves side (mesh_send_message_uid hmac dest data uid).
Proof. unfold mesh_send_message_uid. smoves. Qed.
#[local] Hint Resolve side_message : who.
Lemma side_flush_parked peer : moves side (mesh_flush_parked_for hmac peer).
Proof. unfold mesh_flush_parked_for, flush_parked_row, mesh_resend_message, now_uptime_s. smoves. Qed.

Lemma name_written e name n :
  length (nb_name e) = 17%nat → length name = 17%nat → (n ≤ 16)%nat →
  ∃ buf, (nm ← rdn name 0 n; buf ← wr (nb_name e) 0 nm; wr buf n [0]) = Some buf ∧
    length buf = 17%nat ∧ take n buf = take n name ∧ buf !! n = Some 0.
Proof.
  intros He Hname Hn. rewrite rdn_some by lia. rewrite drop_0. cbn [mbind option_bind].
  assert (Hl : length (take n name) = n) by (rewrite length_take; lia).
  rewrite <- (filled_nil (nb_name e)), wr_filled by (cbn [length]; lia). cbn [app mbind option_bind].
  rewrite wr_filled by (cbn [length]; lia). eexists. split; [done|].
  rewrite length_filled by (rewrite length_app; cbn [length]; lia). split; [done|]. unfold filled.
  rewrite <- app_assoc. split.
  - rewrite take_app_le by lia. by rewrite take_ge by lia.
  - rewrite lookup_app_r by lia. by rewrite Hl, Nat.sub_diag.
Qed.
Lemma neighbor_update_names t a rssi snr hash now :
  names_ok t → names_ok (neighbor_update t a rssi snr hash now).2.
Proof.
  intros [Hi Hf]. split; [by apply neighbor_update_map|]. unfold neighbor_update.
  destruct (neighbor_index t a) as [i|] eqn:E.
  - cbn [snd tset entries]. apply Forall_insert; [done|]. cbn [neighbor_beaconed nb_name].
    apply neighbor_index_in in E. apply (Forall_lookup_total_1 _ _ _ Hf E).
  - case_decide; cbn [snd tset tpush entries]; by apply Forall_insert.
Qed.
Lemma name_buffer e name nl :
  length (nb_name e) = 17%nat → length name = 17%nat → (0 ≤ nl ≤ 16)%Z →
  ∃ buf, (if nl >? 0
     then nm ← rdn name 0 (Z.to_nat nl); buf ← wr (nb_name e) 0 nm; wr buf (Z.to_nat nl) [0]
     else wr (nb_name e) 0 [0]) = Some buf ∧ length buf = 17%nat ∧
     take (Z.to_nat nl) buf = take (Z.to_nat nl) name ∧ buf !! Z.to_nat nl = Some 0.
Proof.
  intros He Hn Hnl. destruct (nl >? 0) eqn:Enl; conds; [apply name_written; lia|]. replace nl with 0 by lia.
  rewrite <- (filled_nil (nb_name e)), wr_filled by (cbn [length]; lia). eexists. split; [done|].
  rewrite length_filled by (cbn [length app]; lia). done.
Qed.
Lemma update_stamps full m a rssi snr hash now m' e :
  update_spec full m a rssi snr hash now m' → m' !! a = Some e → nb_last_heard e = now ∧ nb_pubkey_hash e = hash.
Proof.
  unfold update_spec. destruct (m !! a) as [x|].
  - intros ->. rewrite lookup_insert_eq. by intros [= <-].
  - destruct full; [intros (v & _ & _ & ->)|intros ->]; rewrite lookup_insert_eq; by intros [= <-].
Qed.
Lemma update_others full m a rssi snr hash now m' b :
  update_spec full m a rssi snr hash now m' → b ≠ a → m' !! b = m !! b ∨ m' !! b = None.
Proof.
  unfold update_spec. intros H Hb. destruct (m !! a) as [x|]; [|destruct full; [destruct H as (v & _ & _ & H)|]];
    rewrite H, lookup_insert_ne by done; [by left| |by left].
  destruct (decide (nb_addr v = b)) as [<-|Hv]; [right; apply lookup_delete_eq|left; by apply lookup_delete_ne].
Qed.
Lemma neighbor_named_ok s addr rssi snr hash t name nl :
  names_ok (nd_neighbors (mt_node s)) → length name = 17%nat → (0 ≤ nl ≤ 16)%Z →
  swp (mesh_neighbor_update_locked addr rssi snr hash t name nl) s (λ idx s', ∃ nb e,
    s' = mset_node s (set_neighbors (mt_node s) nb) ∧ names_ok nb ∧
    neighbor_lookup nb addr = Some e ∧ nb_last_heard e = t ∧ nb_pubkey_hash e = hash ∧ carries e name (Z.to_nat nl) ∧
    same_or_gone (nd_neighbors (mt_node s)) nb addr).
Proof.
  intros Hok Hname Hnl. unfold mesh_neighbor_update_locked. apply swp_bind, swp_get.
  pose proof (neighbor_update_names _ addr rssi snr hash t Hok) as Hok1.
  destruct Hok as [Hinv _].
  pose proof (neighbor_update_map _ addr rssi snr hash t Hinv) as Hu. cbn zeta in Hu.
  destruct (neighbor_update _ _ _ _ _ _) as [idx nb] eqn:Eu. cbn [fst snd] in Hu, Hok1.
  destruct Hu as (Hi1 & Hidx & Hm & Hspec), Hok1 as [_ Hn1]. set (e0 := entries nb !!! idx) in *.
  assert (He0 : entries nb !! idx = Some e0).
  { apply list_lookup_lookup_total_lt. destruct Hi1 as [[Hl Hc] _]. lia. }
  pose proof (Forall_lookup_1 _ _ _ _ Hn1 He0) as Hlen0. cbv beta in Hlen0.
  pose proof Hm as [_ Haddr]%(tmap_Some (cap := MAX_NEIGHBORS)); [|done].
  pose proof (update_stamps _ _ _ _ _ _ _ _ _ Hspec Hm) as Hstamp.
  destruct (name_buffer e0 name nl) as (buf & Eb & Hbl & Hbt & Hbz); [done..|].
  apply swp_bind. eapply swp_lift; [exact He0|]. apply swp_bind.
  assert (Hb' : swp (if nl >? 0 then slift (nm ← rdn name 0 (Z.to_nat nl);
                     buf ← wr (nb_name e0) 0 nm; wr buf (Z.to_nat nl) [0])
         else slift (wr (nb_name e0) 0 [0])) s (λ x s', x = buf ∧ s' = s)).
  { destruct (nl >? 0); by eapply swp_lift. }
  eapply swp_mono; [exact Hb'|]. cbv beta. intros ? ? [-> ->]. apply swp_bind, swp_nd, wp_modify. apply swp_ret.
  destruct (keyed_tset_same nb idx (named e0 buf) Hi1 Hidx eq_refl) as [Hk Hmap].
  change (nb_addr (named e0 buf)) with (nb_addr e0) in Hmap. rewrite Haddr in Hmap.
  exists (tset nb idx (named e0 buf)), (named e0 buf). split; [done|]. split.
  { split; [done|]. cbn [tset entries]. by apply Forall_insert. }
  split; [by rewrite neighbor_lookup_map, Hmap, lookup_insert_eq|].
  split; [apply Hstamp|]. split; [apply Hstamp|]. split; [done|].
  intros b Hb. rewrite !neighbor_lookup_map, Hmap, lookup_insert_ne by done. by eapply update_others.
Qed.

(** ** Serving a peer that was heard *)

(** Direct messages are to somebody. *)
Definition unicast_rows (n : node) : Prop :=
  ∀ m, m ∈ log (nd_msgs n) → parked_row m → m_peer_addr m ≠ UINT32_MAX.
Lemma unicast_keys n n' : row_keys n' = row_keys n → unicast_rows n → unicast_rows n'.
Proof.
  intros Hk Hu m' Hm' Hp. assert (Hin : row_key m' ∈ row_keys n) by (rewrite <- Hk; by apply list_elem_of_fmap_2).
  apply list_elem_of_fmap in Hin as (m & E & Hm). unfold row_key in E. injection E as E1 E2 E3 E4 E5.
  rewrite E2. apply Hu; [done|]. unfold parked_row in *. by rewrite <- E1, <- E3, <- E4.
Qed.
Definition announce_inv (s : mt) : Prop :=
  mt_inv s ∧ (NoDup (row_uids (mt_node s)) ∧ unicast_rows (mt_node s)) ∧ mailbox_wf (s_mailbox (rx_mesh (mt_rx s))) ∧
  names_ok (nd_neighbors (mt_node s)).
(** The same neighbors, up to the marks of parked messages. *)
Definition peers_eq (t t' : neighbor_table_t) : Prop :=
  ∀ b, (λ e, with_parked e 0) <$> neighbor_lookup t' b = (λ e, with_parked e 0) <$> neighbor_lookup t b.
(** Identity, key, pins and announcements as they were. *)
Definition calm (s s' : mt) : Prop :=
  announce_inv s' ∧ nd_id (mt_node s') = nd_id (mt_node s) ∧ nd_key (mt_node s') = nd_key (mt_node s) ∧
  nd_pins (mt_node s') = nd_pins (mt_node s) ∧ mt_beacon s' = mt_beacon s ∧
  peers_eq (nd_neighbors (mt_node s)) (nd_neighbors (mt_node s')).
Lemma calm_refl s : announce_inv s → calm s s.
Proof. intros H. by split_and!. Qed.
Lemma calm_trans s1 s2 s3 : calm s1 s2 → calm s2 s3 → calm s1 s3.
Proof.
  intros (? & ? & ? & ? & ? & P) (? & ? & ? & ? & ? & Q). unfold calm.
  do 5 (split; [first [done | congruence]|]). intros b. by rewrite Q.
Qed.
(** Steps that leave the tables of the node alone. *)
Lemma calm_node s s' :
  announce_inv s → mt_inv s' → row_keys (mt_node s') = row_keys (mt_node s) →
  mailbox_wf (s_mailbox (rx_mesh (mt_rx s'))) → same_who (mt_node s) (mt_node s') → mt_beacon s' = mt_beacon s →
  calm s s'.
Proof.
  intros (_ & [Hnd Hu] & _ & Hn) Hi Hr Hm (E1 & E2 & E3 & E4) Eb. unfold calm, announce_inv. rewrite E4.
  rewrite (keys_uids _ _ Hr). pose proof (unicast_keys _ _ Hr Hu). by split_and!.
Qed.

Lemma mailbox_store_total mb src dest p len id now :
  mailbox_wf mb → (len ≤ length p)%nat → now < UINT32_MAX →
  ∃ r mb', mailbox_store mb src dest p len id now = Some (r, mb') ∧ mailbox_wf mb'.
Proof.
  intros Hwf Hl Hn. assert (Ht : is_Some (mailbox_store mb src dest p len id now)).
  { destruct (decide (len = 0 ∨ MAILBOX_MAX_PAYLOAD < len)%nat) as [Hbad|Hlen].
    { unfold mailbox_store. rewrite decide_True by done. eauto. }
    destruct (has_duplicate mb id) eqn:Hdup.
    { unfold mailbox_store. rewrite decide_False, Hdup by done. eauto. }
    destruct (mailbox_store_spec mb src dest p len id now) as (mb' & _ & _ & _ & _ & _ & _ & _ & -> & _);
      [done|lia|done|done|done|eauto]. }
  destruct Ht as [[r mb'] E]. exists r, mb'. split; [done|]. by eapply mailbox_store_wf.
Qed.
Lemma flush_one_ok e s :
  announce_inv s → buf_ok e → me_stored_at_ms e < UINT32_MAX →
  swp (mailbox_flush_one e) s (λ _ s', calm s s').
Proof.
  intros Hs [Hl Hle] Hst. unfold mailbox_flush_one. apply swp_bind, swp_get.
  assert (Hr : ∃ p, restamped (id_address (nd_id (mt_node s))) e = Some p ∧ length p = MAILBOX_MAX_PAYLOAD).
  { unfold restamped. destruct (_ <=? me_payload_len e)%nat eqn:E; [|by eexists].
    apply Nat.leb_le in E. destruct (wr_is_Some (me_payload e) BRAMBLE_DATA_PREV_HOP_OFFSET
      (le32_bytes (id_address (nd_id (mt_node s))))) as (b & -> & Hb); [cbn [length le32_bytes]; lia|].
    exists b. by rewrite Hb. }
  destruct Hr as (p & Er & Hp). apply swp_bind. eapply swp_lift; [exact Er|]. apply swp_bind.
  eapply swp_lift; [apply rdn_some; lia|]. apply swp_bind, swp_nd. unfold wp, mesh_tx.
  set (s1 := mset_node s _). assert (Hs1 : calm s s1).
  { apply calm_node; [done| |done|apply Hs|done|done]. destruct Hs as [[Hn Hq] _]. split; [|done].
    destruct Hn as (? & ? & ? & ? & ? & ? & ? & ? & ?). unfold node_ok. fields. }
  apply swp_when; [|by intros]. intros _. unfold on_mailbox. apply swp_bind, swp_get. apply swp_bind.
  set (mb := s_mailbox (rx_mesh (mt_rx s1))). assert (Hwf : mailbox_wf mb) by apply Hs1.
  destruct (mailbox_store_total mb (me_src_addr e) (me_dest_addr e) p (me_payload_len e) (me_packet_id e)
    (me_stored_at_ms e)) as (r & mb' & Es & Hwf'); [done|lia|done|].
  eapply swp_lift; [by rewrite Es|]. apply swp_modify. eapply calm_trans; [exact Hs1|].
  by apply calm_node; [apply Hs1|apply Hs1|..].
Qed.
Lemma mail_ok d s : announce_inv s → swp (mailbox_flush_for d) s (λ _ s', calm s s').
Proof.
  intros Hs. unfold mailbox_flush_for. apply swp_bind, swp_get.
  pose proof (mailbox_retrieve_spec (s_mailbox (rx_mesh (mt_rx s))) d MAILBOX_MAX_PER_DEST) as Hr.
  destruct (mailbox_retrieve _ _ _) as [out mb]. destruct Hr as (Hwf & Hout & Hperm); [apply Hs|].
  apply swp_bind, swp_modify. set (s1 := mset_rx s _).
  assert (Hs1 : calm s s1) by (by apply calm_node; [done|apply Hs|..]).
  eapply swp_mono.
  { apply (swp_for out mailbox_flush_one (calm s)); [done|]. intros e s2 He H2.
    assert (Ha : e ∈ active (s_mailbox (rx_mesh (mt_rx s)))) by (rewrite Hperm; set_solver).
    destruct Hs as (_ & _ & Hmb & _). eapply swp_mono; [apply flush_one_ok; [apply H2| |]|].
    - apply elem_of_active in Ha as [_ Ha]. pose proof (mw_buf _ Hmb) as Hb. rewrite list.Forall_forall in Hb. by apply Hb.
    - pose proof (bo_stamp _ (mw_ok _ Hmb)) as Hb. rewrite list.Forall_forall in Hb. by apply Hb.
    - cbv beta. intros x s3 H3. by eapply calm_trans. }
  done.
Qed.

Definition marked (a : Z) (t t' : neighbor_table_t) : Prop := t' = t ∨ ∃ v, t' = set_parked t a v.
Lemma decide_marks t sw a new now : marked a t (parked_retry_beacon_decide_flush t sw a new now).2.
Proof.
  unfold parked_retry_beacon_decide_flush, marked. split_if; [|by destruct new; left]. cbn [snd].
  destruct (neighbor_lookup t a); [|by left]. split_if; eauto.
Qed.
Lemma flushed_marks t a found now : marked a t (parked_retry_flushed t a found now).
Proof. unfold parked_retry_flushed, marked. destruct (neighbor_lookup t a); eauto. Qed.
Lemma set_parked_names t a v : names_ok t → names_ok (set_parked t a v).
Proof.
  intros [Hi Hf]. unfold set_parked. destruct (neighbor_index t a) as [i|] eqn:E; [|done]. split.
  - apply keyed_tset_same; [done| |done]. by destruct (kindex_Some _ _ _ Hi E).
  - cbn [tset entries]. apply Forall_insert; [done|]. cbn [with_parked nb_name].
    apply (Forall_lookup_total_1 _ _ _ Hf). by eapply neighbor_index_in.
Qed.
Lemma calm_marked s a t' : announce_inv s → marked a (nd_neighbors (mt_node s)) t' →
  calm s (mset_node s (set_neighbors (mt_node s) t')).
Proof.
  intros (Hs & Hnd & Hmb & Hn) [->|[v ->]].
  { assert (Hid : mset_node s (set_neighbors (mt_node s) (nd_neighbors (mt_node s))) = s)
      by (by destruct s as [[[]]]). rewrite Hid. by apply calm_refl. }
  unfold calm, announce_inv. split_and!; try done.
  - apply Hnd.
  - apply Hnd.
  - by apply set_parked_names.
  - intros b. change (nd_neighbors (mt_node (mset_node s ?n))) with (nd_neighbors n).
    cbn [set_neighbors nd_neighbors]. destruct (decide (b = a)) as [->|Hb].
    + rewrite lookup_set_parked. by destruct (neighbor_lookup _ a).
    + by rewrite lookup_set_parked_ne.
Qed.
Lemma flush_unicast_ok s peer :
  announce_inv s → swp (mesh_flush_parked_for hmac peer) s (λ _ s', retry_inv s s').
Proof.
  intros (Hs & [Hnd Hu] & _). destruct (decide (peer = UINT32_MAX)) as [->|Hp]; [|by apply flush_parked_ok].
  unfold mesh_flush_parked_for. apply swp_bind, swp_gets. apply swp_bind, swp_get. cbn zeta.
  destruct (msg_store_parked_uids_for_peer _ _ _ _ _) as [|uid l] eqn:E; [by apply swp_bind, swp_ret, swp_ret|].
  assert (Hin : uid ∈ uid :: l) by left. rewrite <- E in Hin.
  apply parked_uids_rows in Hin as (m & Hm & _ & Hpm & Hrow). by destruct (Hu m Hm Hrow).
Qed.
Lemma serve_ok a new t s : announce_inv s → swp (serve_peer hmac a new t) s (λ _ s', calm s s').
Proof.
  intros Hs. unfold serve_peer. apply swp_bind, swp_get. apply swp_bind.
  eapply (swp_mono _ _ (λ _ s', calm s s')).
  { apply swp_when; [intros _; by apply mail_ok|intros _; by apply calm_refl]. }
  cbv beta. intros [] s1 H1. apply swp_bind, swp_get.
  pose proof (decide_marks (nd_neighbors (mt_node s1)) (mt_sweep s1) a new t) as Hm.
  destruct (parked_retry_beacon_decide_flush _ _ _ _ _) as [flush nb]. cbn [snd] in Hm.
  apply swp_bind. unfold t_neighbors at 1. apply swp_nd, wp_modify.
  assert (H2 : calm s (mset_node s1 (set_neighbors (mt_node s1) nb))).
  { eapply calm_trans; [exact H1|]. by eapply calm_marked; [apply H1|]. }
  set (s2 := mset_node s1 _) in *. clearbody s2. apply swp_when; [|done]. intros _. apply swp_bind.
  eapply swp_mono; [apply (swp_moves side); [apply side_flush_parked|apply flush_unicast_ok, H2]|].
  cbv beta. intros found s3 [Hr Hside].
  assert (H3 : calm s s3).
  { eapply calm_trans; [exact H2|]. destruct Hside as (Hw & Emb & _ & _ & Eb & _).
    apply calm_node; [apply H2|apply Hr| |rewrite Emb; apply H2|done|done]. apply Hr. }
  apply swp_nd, wp_modify. eapply calm_trans; [exact H3|]. eapply calm_marked; [apply H3|apply flushed_marks].
Qed.

(** ** Beacons *)

(** The network key vouches for the beacon in the frame, and it is somebody else's. *)
Definition vouched (s : mt) (data : list Z) (b : bramble_beacon_t) : Prop :=
  network_key_is_provisioned (nd_key (mt_node s)) = true ∧
  bramble_beacon_deserialize beacon_zero data (length data) = Some (ESP_OK, b) ∧
  bcn_src_addr b ≠ id_address (nd_id (mt_node s)) ∧
  bcn_auth_hmac b = take 16 (hmac (bc_key (mt_beacon s)) (beacon_auth_input b)).
Definition control_check (s : mt) (signer seq : Z) : bool * mesh :=
  control_replay_ok (rx_mesh (mt_rx s)) signer seq (v_now (nd_env (mt_node s))).
(** Only the replay window of control frames moved. *)
Definition window_moved (s : mt) (m : mesh) : mt := mset_rx s (rset_mesh (mt_rx s) m).
(** The sender is a neighbor heard now, with its key hash and name; the others are
    as they were, but for one that may have made room. *)
Definition heard_beacon (s s' : mt) (b : bramble_beacon_t) : Prop :=
  (∃ e, neighbor_lookup (nd_neighbors (mt_node s')) (bcn_src_addr b) = Some e ∧
     nb_last_heard e = v_now (nd_env (mt_node s)) ∧ nb_pubkey_hash e = bcn_pubkey_hash b ∧
     carries e (bcn_name b) (Z.to_nat (bcn_name_len b))) ∧
  ∀ a, a ≠ bcn_src_addr b →
    (λ e, with_parked e 0) <$> neighbor_lookup (nd_neighbors (mt_node s')) a =
      (λ e, with_parked e 0) <$> neighbor_lookup (nd_neighbors (mt_node s)) a ∨
    neighbor_lookup (nd_neighbors (mt_node s')) a = None.
Lemma rnow_run r : rnow r = Some (v_now (nd_env (rx_node r)), r).
Proof. by destruct r. Qed.
Lemma control_run signer seq r :
  rx_control_replay_ok signer seq r =
    (let '(ok, m) := control_replay_ok (rx_mesh r) signer seq (v_now (nd_env (rx_node r))) in
     Some (ok, rset_mesh r m)).
Proof.
  unfold rx_control_replay_ok. unfold mbind at 1, Rx_bind at 1. rewrite rnow_run.
  unfold mbind at 1, Rx_bind at 1, rget. by destruct (control_replay_ok _ _ _ _).
Qed.
Lemma swp_control s signer seq (Q : bool → mt → Prop) :
  Q (control_check s signer seq).1 (window_moved s (control_check s signer seq).2) →
  swp (on_rx (rx_control_replay_ok signer seq)) s Q.
Proof.
  unfold control_check, mt_node. intros H. apply swp_zoom. unfold swp. rewrite control_run.
  by destruct (control_replay_ok _ _ _ _).
Qed.
Lemma window_calm s signer seq : announce_inv s → calm s (window_moved s (control_check s signer seq).2).
Proof.
  intros Hs. apply calm_node; [done|apply Hs|done| |done|done].
  unfold control_check, control_replay_ok. destruct (ReplayWindow.replay_check_and_add _ _ _ _). apply Hs.
Qed.
Lemma calm_heard s s1 s' b :
  heard_beacon s s1 b → peers_eq (nd_neighbors (mt_node s1)) (nd_neighbors (mt_node s')) → heard_beacon s s' b.
Proof.
  intros [(e & Hl & Ht & Hh & Hn) Ho] Hp. split.
  - pose proof (Hp (bcn_src_addr b)) as E. rewrite Hl in E.
    destruct (neighbor_lookup (nd_neighbors (mt_node s')) _) as [e'|] eqn:El; [|done].
    injection E as E1 E2 E3 E4 E5 E6 E7 E8. exists e'. split; [done|]. unfold carries in *.
    by rewrite E4, E5, E6.
  - intros a Ha. specialize (Hp a). destruct (Ho a Ha) as [E|E]; rewrite E in Hp; [by left|right].
    by destruct (neighbor_lookup (nd_neighbors (mt_node s')) a).
Qed.

Lemma timesync_calm b t s : announce_inv s → swp (beacon_timesync b t) s (λ _ s', calm s s').
Proof.
  intros Hs. unfold beacon_timesync. apply swp_when; [|intros _; by apply calm_refl]. intros _.
  apply swp_bind, swp_get. cbn zeta. destruct (timesync_handle_sync _ _ _ _ _ _) as [v ts].
  apply swp_zoom. unfold swp, rmodify. by apply calm_node; [done|apply Hs|done|apply Hs|..].
Qed.
Lemma admit_ok s b rssi snr :
  announce_inv s → beacon_ok b → (0 ≤ bcn_name_len b ≤ 16)%Z →
  swp (t ← tnow;
       idx ← mesh_neighbor_update_locked (bcn_src_addr b) (i8 rssi) snr (bcn_pubkey_hash b) t
               (bcn_name b) (bcn_name_len b);
       s ← sget;
       let is_new_peer := neighbor_is_newly_admitted (nd_neighbors (mt_node s)) idx t in
       beacon_timesync b t ;;
       serve_peer hmac (bcn_src_addr b) is_new_peer t ;;
       notify MOnNeighborChange) s (λ _ s',
    announce_inv s' ∧ nd_id (mt_node s') = nd_id (mt_node s) ∧ nd_key (mt_node s') = nd_key (mt_node s) ∧
    nd_pins (mt_node s') = nd_pins (mt_node s) ∧ heard_beacon s s' b).
Proof.
  intros Hs Hb Hnl. assert (Hname : length (bcn_name b) = 17%nat) by apply Hb.
  apply swp_bind, swp_gets. apply swp_bind.
  eapply swp_mono; [apply neighbor_named_ok; [apply Hs|done|done]|]. cbv beta.
  intros idx s1 (nb & e & -> & Hn & Hl & Ht & Hh & Hc & Ho). set (s1 := mset_node s _).
  assert (H1 : announce_inv s1).
  { destruct Hs as (Hi & Hnd & Hmb & _). split; [|by split; [exact Hnd|]].
    pose proof (safe_neighbors (λ _, nb) s Hi) as H. apply H. }
  assert (Hheard : heard_beacon s s1 b).
  { split; [by exists e|]. intros a Ha. destruct (Ho a Ha) as [E|E]; [left|by right]. change (nd_neighbors (mt_node s1)) with nb. by rewrite E. }
  apply swp_bind, swp_get. apply swp_bind. eapply swp_mono; [by apply timesync_calm|]. cbv beta. intros [] s2 H2.
  apply swp_bind. eapply swp_mono; [apply serve_ok, H2|]. cbv beta. intros [] s3 H3.
  apply swp_modify. destruct (calm_trans _ _ _ H2 H3) as (I3 & E1 & E2 & E3 & _ & Hp).
  split; [exact I3|]. split; [exact E1|]. split; [exact E2|]. split; [exact E3|]. by eapply calm_heard.
Qed.

(** What the handler of beacons does. *)
Definition beacon_gate (data : list Z) (s s' : mt) : Prop :=
  announce_inv s' ∧
  (nd_id (mt_node s') = nd_id (mt_node s) ∧ nd_key (mt_node s') = nd_key (mt_node s) ∧
   nd_pins (mt_node s') = nd_pins (mt_node s)) ∧
  ((∀ b, ¬ vouched s data b) → s' = s) ∧
  ∀ b, vouched s data b →
    let '(fresh, m) := control_check s (bcn_src_addr b) (bramble_seq48_unpack (bcn_seq b)) in
    if fresh then heard_beacon s s' b else s' = window_moved s m.
Lemma handle_beacon_ok s data rssi snr :
  announce_inv s → Forall is_u8 data →
  swp (handle_beacon hmac crypto_ed25519_sign data (length data) rssi snr) s (λ _ s', beacon_gate data s s').
Proof.
  intros Hs Hd. unfold handle_beacon. apply swp_bind, swp_get.
  assert (Hno : (∀ b, ¬ vouched s data b) → beacon_gate data s s).
  { intros Hv. split; [done|]. split; [done|]. split; [done|]. intros b Hb. by destruct (Hv b). }
  destruct (network_key_is_provisioned _) eqn:Ek; cbn [negb].
  2: { apply swp_ret, Hno. intros b (E & _). congruence. }
  destruct (beacon_deserialize_consistent beacon_zero data (length data)) as (e & b & Eb & _); [done..|].
  apply swp_bind. eapply swp_lift; [exact Eb|]. cbv beta iota.
  destruct e; [|apply swp_ret, Hno; intros b' (_ & E & _); congruence].
  destruct (beacon_parsed_ok _ _ _ (le_n _) Hd Eb) as (Hok & Hmac & Hnl).
  destruct (bcn_src_addr b =? id_address (nd_id (mt_node s))) eqn:Eself; conds.
  { apply swp_ret, Hno. intros b' (_ & E & Hne & _). rewrite Eb in E. injection E as <-. lia. }
  apply swp_bind. eapply swp_lift; [by apply verify_hmac_spec|].
  case_bool_decide as Ev; cbn [negb].
  2: { apply swp_ret, Hno. intros b' (_ & E & _ & Hv). rewrite Eb in E. by injection E as <-. }
  assert (Hv : vouched s data b) by (by split_and!).
  assert (Hu : ∀ b', vouched s data b' → b' = b).
  { intros b' (_ & E & _). rewrite Eb in E. by injection E. }
  apply swp_bind, swp_control. pose proof (window_calm s (bcn_src_addr b) (bramble_seq48_unpack (bcn_seq b)) Hs) as Hc.
  destruct (control_check s (bcn_src_addr b) (bramble_seq48_unpack (bcn_seq b))) as [fresh m] eqn:Ec. cbn [fst snd] in Hc |- *.
  destruct Hc as (Hs1 & E1 & E2 & E3 & _). destruct fresh; cbn [negb].
  - unfold identity_check_collision. rewrite (proj2 (Z.eqb_neq _ _)) by lia. cbn [negb].
    eapply swp_mono; [by apply (admit_ok (window_moved s m))|]. cbv beta.
    intros [] s' (I' & F1 & F2 & F3 & Hh). split; [done|]. split; [by rewrite F1, F2, F3|].
    split; [by intros H; destruct (H b)|]. intros b' ->%Hu. rewrite Ec. exact Hh.
  - apply swp_ret. split; [done|]. split; [done|]. split; [by intros H; destruct (H b)|].
    intros b' ->%Hu. by rewrite Ec.
Qed.
(** C23. Beacons are gated.  On any frame the handler returns and keeps the node well
    formed, and it never touches the identity, the network key or the pinned keys
    (so the branch that would regenerate the identity on a collision is never
    taken).  A frame that the network key does not vouch for, or with the node's own
    address, changes nothing at all; one that is vouched for but not fresh moves the
    replay window and nothing else; and a fresh one makes its sender a neighbor,
    heard now, under the key hash and exactly the name it announced. *)
Theorem beacons_gated (s : mt) (data : list Z) (rssi snr : Z) :
  announce_inv s → Forall is_u8 data →
  swp (handle_beacon hmac crypto_ed25519_sign data (length data) rssi snr) s (λ _ s',
    announce_inv s' ∧
    (nd_id (mt_node s') = nd_id (mt_node s) ∧ nd_key (mt_node s') = nd_key (mt_node s) ∧
     nd_pins (mt_node s') = nd_pins (mt_node s)) ∧
    ((∀ b, ¬ vouched s data b) → s' = s) ∧
    ∀ b, vouched s data b →
      let '(fresh, m) := control_check s (bcn_src_addr b) (bramble_seq48_unpack (bcn_seq b)) in
      if fresh then heard_beacon s s' b else s' = window_moved s m).
Proof. apply handle_beacon_ok. Qed.

(** ** From one node to the other *)

Lemma seq48_roundtrip c : is_u48 c → bramble_seq48_unpack (bramble_seq48_pack c) = c.
Proof. exact (nonce_extract_bytes 0 0 c). Qed.
Lemma boundary_prefix (a b : list Z) i : take i a = take i b → is_boundary a i → is_boundary b i.
Proof.
  intros E [n Hn]. exists n. revert i E Hn. induction n as [|n IH]; intros i E; cbn [nth_boundary]; [done|].
  destruct (nth_boundary a n) as [j|]; [|done]. cbn [mbind option_bind].
  destruct (a !! j) as [c|] eqn:Ec; [|done]. cbn [mbind option_bind]. intros [= <-].
  pose proof (utf8_seq_len_range c) as Hc. rewrite (IH j).
  - cbn [mbind option_bind]. assert (b !! j = Some c) as ->; [|done].
    rewrite <- (lookup_take_lt b (j + utf8_seq_len c)), <- E by lia. by rewrite lookup_take_lt by lia.
  - apply (f_equal (take j)) in E. rewrite !take_take in E. by rewrite !Nat.min_l in E by lia.
  - done.
Qed.
(** The announced name: cut at the last character that fits sixteen bytes. *)
Definition cut_at (name : list Z) (n : nat) : Prop :=
  is_boundary name n ∧ (n ≤ length name)%nat ∧ (n ≤ BEACON_NAME_MAX)%nat ∧
  ∀ j, is_boundary name j → (j ≤ length name)%nat → (j ≤ BEACON_NAME_MAX)%nat → (j ≤ n)%nat.
Lemma beacon_name_ok node_name :
  ∃ n buf, beacon_name node_name = Some (n, buf) ∧ length buf = 17%nat ∧ cut_at (c_string node_name) n ∧
    take n buf = take n (c_string node_name).
Proof.
  unfold beacon_name. cbv zeta. destruct (c_string node_name) as [|x l] eqn:E.
  { exists 0%nat, (replicate 17 0). split; [done|]. split; [done|]. split; [|done].
    split; [by exists 0%nat|]. split; [cbn [length]; lia|]. split; [lia|]. intros j _ Hj _. exact Hj. }
  rewrite <- E. set (name := c_string node_name). clearbody name. clear E x l.
  destruct (utf8_trunc_len_spec name (length name) BEACON_NAME_MAX) as (n & En & Hb & H1 & H2 & Hmax); [lia|].
  rewrite En. cbn [mbind option_bind]. rewrite rdn_some by lia. cbn [mbind option_bind]. rewrite drop_0.
  assert (Hl : length (take n name) = n) by (rewrite length_take; lia). unfold BEACON_NAME_MAX in *.
  rewrite <- (filled_nil (replicate (16 + 1) 0)), wr_filled by (rewrite ?length_replicate; cbn [length]; lia).
  cbn [app mbind option_bind]. rewrite wr_filled by (rewrite ?length_replicate; cbn [length]; lia).
  cbn [mbind option_bind]. eexists _, _. split; [done|]. split.
  { rewrite length_filled by (rewrite length_app, length_replicate; cbn [length]; lia). by rewrite length_replicate. }
  split; [done|]. unfold filled. rewrite <- app_assoc, take_app_le by lia. by rewrite take_ge by lia.
Qed.

(** Fields within their types. *)
Definition sender_ok (s : mt) : Prop :=
  let n := mt_node s in
  is_u32 (id_address (nd_id n)) ∧ is_u32 (id_pubkey_hash (nd_id n)) ∧ is_u32 (nd_counter n) ∧
  is_u8 (bs_pct (bc_battery (mt_beacon s))) ∧ is_u16 (ts_stratum (rx_timesync (mt_rx s))) ∧
  Forall is_u8 (bc_node_name (mt_beacon s)).
Lemma own_beacon_ok s id n name seq :
  sender_ok s → is_u32 id → (n ≤ 16)%nat → length name = 17%nat →
  beacon_ok (beacon_with_seq (own_beacon s id n name) seq).
Proof.
  intros (H1 & H2 & _ & H4 & H5 & _) Hid Hn Hl. unfold beacon_ok, beacon_with_seq, own_beacon, header_ok.
  cbn [bcn_header bcn_src_addr bcn_pubkey_hash bcn_uptime_min bcn_battery_pct bcn_tx_queue_depth
    bcn_neighbor_count bcn_flags bcn_network_time bcn_time_confidence bcn_seq bcn_auth_hmac bcn_name_len bcn_name
    h_version h_type h_flags h_hop_limit h_dest_addr h_packet_id].
  unfold battery_beacon_pct, BEACON_FLAG_MAILBOX, timesync_get_stratum, BRAMBLE_VERSION, PKT_TYPE_BEACON in *.
  split_and!; repeat split_if; try done; try (cint_unfold; lia); auto with cint.
Qed.

Lemma wire_name_len_at b n :
  beacon_ok b → bcn_name_len b = Z.of_nat n → (n ≤ 16)%nat → is_boundary (bcn_name b) n →
  beacon_wire_name_len b = Some n.
Proof.
  intros Hok Hn Hle Hb. assert (Hl : length (bcn_name b) = 17%nat) by apply Hok.
  unfold beacon_wire_name_len. rewrite Hn. unfold BEACON_NAME_MAX.
  destruct (Z.of_nat n >? Z.of_nat 16) eqn:E; conds; [lia|]. rewrite Nat2Z.id.
  destruct (utf8_trunc_len_spec (bcn_name b) n 16) as (r & -> & _ & H1 & _ & H2); [lia|].
  f_equal. specialize (H2 n Hb). lia.
Qed.
Lemma beacon_bytes_norm b n : beacon_ok b → (n ≤ 16)%nat → beacon_bytes (beacon_norm_at n b) n = beacon_bytes b n.
Proof.
  intros Hok Hn. assert (Hl : length (bcn_name b) = 17%nat) by apply Hok. unfold beacon_bytes, beacon_norm_at.
  cbn [bcn_header bcn_src_addr bcn_pubkey_hash bcn_uptime_min bcn_battery_pct bcn_tx_queue_depth
    bcn_neighbor_count bcn_flags bcn_network_time bcn_time_confidence bcn_seq bcn_auth_hmac bcn_name].
  rewrite take_app_le by (rewrite length_take; lia). by rewrite take_take, Nat.min_id.
Qed.
Lemma norm_ok b n : beacon_ok b → (n ≤ 16)%nat → beacon_ok (beacon_norm_at n b).
Proof.
  intros Hok Hn. assert (Hl : length (bcn_name b) = 17%nat) by apply Hok.
  destruct Hok as (?&?&?&?&?&?&?&?&?&?&?&?&?&?). unfold beacon_ok, beacon_norm_at.
  cbn [bcn_header bcn_src_addr bcn_pubkey_hash bcn_uptime_min bcn_battery_pct bcn_tx_queue_depth bcn_name_len
    bcn_neighbor_count bcn_flags bcn_network_time bcn_time_confidence bcn_seq bcn_auth_hmac bcn_name].
  split_and!; try done; try (cint_unfold; lia). unfold BEACON_NAME_MAX; rewrite ?length_app, ?length_take, ?length_replicate; lia.
Qed.

Lemma packet_id_run n : is_u32 (nd_counter n) → ∃ id n',
  next_packet_id n = Some (id, n') ∧ is_u32 id ∧ v_nonce (nd_env n') = v_nonce (nd_env n) ∧ nd_out n' = nd_out n.
Proof.
  intros Hc. unfold next_packet_id. destruct (nd_counter n =? 0).
  - eexists _, _. split; [done|]. split; [auto with cint|done].
  - by eexists _, _.
Qed.
(** The beacon on the air. *)
Definition announced (s : mt) (id : Z) (n : nat) (name : list Z) (seq : Z) : bramble_beacon_t :=
  let b := beacon_with_seq (own_beacon s id n name) seq in
  beacon_with_hmac b (take 16 (hmac (bc_key (mt_beacon s)) (beacon_auth_input b))).
Lemma announced_ok s id n name seq :
  sender_ok s → is_u32 id → (n ≤ 16)%nat → length name = 17%nat → beacon_ok (announced s id n name seq).
Proof.
  intros. apply beacon_with_hmac_ok; [by apply own_beacon_ok|]. rewrite length_take, (hmac_length _ _). lia.
Qed.
Lemma send_beacon_frame s src salt c :
  sender_ok s → network_key_is_provisioned (nd_key (mt_node s)) = true → is_u48 c →
  head (v_nonce (nd_env (mt_node s))) = Some (Some (nonce_bytes src salt c)) →
  ∃ id n name, is_u32 id ∧ length name = 17%nat ∧ cut_at (c_string (bc_node_name (mt_beacon s))) n ∧
    take n name = take n (c_string (bc_node_name (mt_beacon s))) ∧
    swp (send_beacon hmac) s (λ rc s1, nd_out (mt_node s1) =
      nd_out (mt_node s) ++ [DTx (beacon_bytes (announced s id n name c) n) TX_KIND_BEACON (rc =? TX_GATE_OK)]).
Proof.
  intros Hs Hk Hc Hv. destruct (packet_id_run (mt_node s)) as (id & n1 & E1 & Hid & Ev & Eo); [apply Hs|].
  destruct (beacon_name_ok (bc_node_name (mt_beacon s))) as (n & name & En & Hl & Hcut & Hname).
  exists id, n, name. split; [done|]. split; [done|]. split; [done|]. split; [done|].
  assert (Hn : (n ≤ 16)%nat) by apply Hcut. pose proof (announced_ok s id n name c Hs Hid Hn Hl) as Hok.
  unfold send_beacon. apply swp_bind, swp_get. rewrite Hk. cbn [negb]. apply swp_bind, swp_nd. unfold wp. rewrite E1.
  apply swp_bind. eapply swp_lift; [exact En|]. cbv beta iota. apply swp_bind, swp_zoom.
  unfold swp at 1, control_seq_next, mbind at 1, Rx_bind at 1, on_node, nonce_next.
  change (rx_node (mt_rx (mset_node s n1))) with n1. rewrite Ev.
  destruct (v_nonce (nd_env (mt_node s))) as [|nonce rest]; [done|]. cbn [head] in Hv. injection Hv as ->.
  cbn [mret Rx_ret fmap option_fmap option_map]. rewrite nonce_extract_bytes by done.
  apply swp_bind. eapply swp_lift; [exact (compute_hmac_spec hmac _ _ (own_beacon_ok s id n name c Hs Hid Hn Hl))|]. fold (announced s id n name c).
  apply swp_bind. assert (Hw : beacon_wire_name_len (announced s id n name c) = Some n).
  { apply wire_name_len_at; [done|done|done|]. change (bcn_name _) with name.
    eapply boundary_prefix; [|apply Hcut]. done. }
  assert (Hlen := length_beacon_bytes _ n Hok Hn).
  eapply swp_lift; [apply (beacon_serialize_spec _ n); [done|done|done| |by rewrite length_replicate]|].
  { unfold BEACON_NAME_MAX. destruct (0 <? n)%nat; lia. }
  cbv beta iota. apply swp_bind. eapply swp_lift; [unfold bramble_beacon_wire_size; rewrite Hw; done|].
  apply swp_bind. rewrite <- Hlen. eapply swp_lift; [apply rdn_filled_prefix; lia|]. rewrite drop_0, firstn_all.
  apply swp_zoom. unfold swp, mesh_tx_rc. cbn [mt_node mset_rx mt_rx mset_node rset_node rx_node].
  destruct (match d_gate _ with [] => _ | _ => _ end) as [rc el]. cbn. by rewrite Eo.
Qed.

Lemma beacon_bytes_u8 b n :
  beacon_ok b → Forall is_u8 (bcn_seq b) → Forall is_u8 (bcn_auth_hmac b) → Forall is_u8 (take n (bcn_name b)) →
  (n ≤ 16)%nat → Forall is_u8 (beacon_bytes b n).
Proof.
  intros ((?&?&?&?&?&?)&?&?&?&?&?&?&?&?&?&?&?&?&?) Hs Hm Hn Hle. unfold beacon_bytes, header_bytes.
  rewrite !Forall_app, !Forall_singleton. split_and!; try done; try apply be32_bytes_u8; try apply be16_bytes_u8.
  destruct (0 <? n)%nat; [|constructor]. rewrite Forall_app, Forall_singleton. split; [cint_unfold; lia|done].
Qed.
Lemma frame_bytes s id n name seq :
  sender_ok s → is_u32 id → (n ≤ 16)%nat → Forall is_u8 (take n name) → length name = 17%nat →
  Forall is_u8 (beacon_bytes (announced s id n name seq) n).
Proof.
  intros Hs Hid Hn Hname Hl. apply beacon_bytes_u8; [by apply announced_ok| | |exact Hname|done].
  - change (Forall is_u8 (bramble_seq48_pack seq)). unfold bramble_seq48_pack.
    repeat (apply List.Forall_cons; [auto with cint|]). apply List.Forall_nil.
  - apply Forall_take, (hmac_bytes _ _).
Qed.
(** The beacon a node announces is vouched for at every node with its beacon key. *)
Lemma announced_vouched s s2 id n name seq :
  sender_ok s → is_u32 id → (n ≤ 16)%nat → length name = 17%nat → is_boundary name n →
  network_key_is_provisioned (nd_key (mt_node s2)) = true → bc_key (mt_beacon s2) = bc_key (mt_beacon s) →
  id_address (nd_id (mt_node s)) ≠ id_address (nd_id (mt_node s2)) →
  vouched s2 (beacon_bytes (announced s id n name seq) n) (beacon_norm_at n (announced s id n name seq)).
Proof.
  intros Hs Hid Hn Hl Hb Hk Ek Hne. pose proof (announced_ok s id n name seq Hs Hid Hn Hl) as Hok.
  pose proof (own_beacon_ok s id n name seq Hs Hid Hn Hl) as Hown.
  split; [done|]. split; [rewrite length_beacon_bytes by done; by apply beacon_deserialize_spec|].
  split; [exact Hne|]. change (bcn_auth_hmac (beacon_norm_at n ?b)) with (bcn_auth_hmac b). rewrite Ek.
  assert (Hlt : length (take n name) = n) by (rewrite length_take; lia).
  assert (Hin : beacon_auth_input (beacon_norm_at n (announced s id n name seq)) =
                beacon_auth_input (beacon_with_seq (own_beacon s id n name) seq)).
  { unfold beacon_auth_input at 1. rewrite (wire_name_len_at _ n); [|by apply norm_ok|done|done|].
    2: { eapply boundary_prefix; [|exact Hb]. cbn [beacon_norm_at announced beacon_with_hmac beacon_with_seq own_beacon bcn_name].
         rewrite take_app_le by lia. by rewrite take_take, Nat.min_id. }
    cbn [default]. rewrite beacon_bytes_norm by done. set (b := beacon_with_seq _ _) in *.
    assert (Hw : beacon_wire_name_len (announced s id n name seq) = Some n) by (by apply wire_name_len_at).
    transitivity (beacon_auth_input (announced s id n name seq)).
    { unfold beacon_auth_input. by rewrite Hw. }
    transitivity (beacon_auth_input (beacon_with_hmac b (bcn_auth_hmac b))); [|done].
    apply auth_input_hmac; [done| |done]. rewrite length_take, (hmac_length _ _). lia. }
  by rewrite Hin.
Qed.

(** A beacon introduces its sender.  A node with the network key that draws a
    nonce sends exactly one frame, and every other node with the same beacon key
    for which that nonce is fresh hears it: afterwards the sender is one of its
    neighbors, under the sender's key hash and the sender's own name, cut at the
    last UTF-8 character that fits sixteen bytes. *)
Theorem beacon_introduces_sender (s s2 : mt) (src salt c rssi snr : Z) :
  sender_ok s → network_key_is_provisioned (nd_key (mt_node s)) = true → is_u48 c →
  head (v_nonce (nd_env (mt_node s))) = Some (Some (nonce_bytes src salt c)) →
  announce_inv s2 → network_key_is_provisioned (nd_key (mt_node s2)) = true →
  bc_key (mt_beacon s2) = bc_key (mt_beacon s) →
  id_address (nd_id (mt_node s)) ≠ id_address (nd_id (mt_node s2)) →
  (control_check s2 (id_address (nd_id (mt_node s))) c).1 = true →
  swp (send_beacon hmac) s (λ rc s1, ∃ frame n,
    nd_out (mt_node s1) = nd_out (mt_node s) ++ [DTx frame TX_KIND_BEACON (rc =? TX_GATE_OK)] ∧
    cut_at (c_string (bc_node_name (mt_beacon s))) n ∧
    swp (handle_beacon hmac crypto_ed25519_sign frame (length frame) rssi snr) s2 (λ _ s3, ∃ e,
      neighbor_lookup (nd_neighbors (mt_node s3)) (id_address (nd_id (mt_node s))) = Some e ∧
      nb_pubkey_hash e = id_pubkey_hash (nd_id (mt_node s)) ∧
      carries e (c_string (bc_node_name (mt_beacon s))) n)).
Proof.
  intros Hs Hk Hc Hv H2 Hk2 Ek Hne Hfresh.
  destruct (send_beacon_frame s src salt c) as (id & n & name & Hid & Hl & Hcut & Hname & Hsend); [done..|].
  assert (Hn : (n ≤ 16)%nat) by apply Hcut.
  eapply swp_mono; [exact Hsend|]. cbv beta. intros rc s1 Eo. eexists _, n. split; [exact Eo|]. split; [done|].
  assert (Hu : Forall is_u8 (take n name)).
  { rewrite Hname. apply Forall_take. destruct Hs as (_ & _ & _ & _ & _ & Hs). clear -Hs.
    induction Hs as [|x l Hx _ IH]; cbn [c_string]; [constructor|]. destruct (x =? 0); by constructor. }
  eapply swp_mono; [apply handle_beacon_ok; [done|by apply frame_bytes]|]. cbv beta.
  intros [] s3 (_ & _ & _ & Hg).
  specialize (Hg _ (announced_vouched s s2 id n name c Hs Hid Hn Hl ltac:(by eapply boundary_prefix; [|apply Hcut]) Hk2 Ek Hne)).
  cbn [beacon_norm_at announced beacon_with_hmac beacon_with_seq own_beacon bcn_src_addr bcn_seq] in Hg.
  rewrite seq48_roundtrip in Hg by done.
  destruct (control_check s2 (id_address (nd_id (mt_node s))) c) as [fresh m]. cbn [fst] in Hfresh. subst fresh.
  destruct Hg as [(e & Hl3 & _ & Hh & [Hc1 Hc2]) _].
  cbn [beacon_norm_at announced beacon_with_hmac beacon_with_seq own_beacon bcn_src_addr bcn_pubkey_hash bcn_name
    bcn_name_len] in *. rewrite Nat2Z.id in *.
  exists e. split; [done|]. split; [done|]. split; [|done]. rewrite Hc1, take_app_le by (rewrite length_take; lia).
  by rewrite take_take, Nat.min_id, Hname.
Qed.
End Announce.

(** ** Examples *)

#[local] Existing Instance toy_crypto.
#[local] Existing Instance toy_id_crypto.

Definition no_sign (sk msg : list Z) : option (list Z) := None.
(** Node 60, named "Node", within earshot of [MeshSendSpec.apart]. *)
Definition caller : mt := demo_mt (demo_node 60 (paired false 50)).
Definition demo_seq : Z := 9934410942729.
Lemma apart_announce : announce_inv apart.
Proof.
  split; [apply apart_inv|]. split; [split; [constructor|]|].
  - intros m Hm. by apply not_elem_of_nil in Hm.
  - split; [apply mailbox_init_wf|]. split; [|by apply Forall_replicate].
    split; [apply table_init_wf|constructor].
Qed.
Lemma caller_ok : sender_ok caller.
Proof.
  unfold sender_ok. cbn zeta.
  split; [vm_compute; intuition discriminate|]. split; [vm_compute; intuition discriminate|].
  split; [vm_compute; intuition discriminate|]. split; [vm_compute; intuition discriminate|].
  split; [vm_compute; intuition discriminate|]. repeat constructor; vm_compute; intuition discriminate.
Qed.
Definition call_frame : list Z :=
  match send_beacon toy_hmac caller with
  | Some (_, s) => match nd_out (mt_node s) with [DTx f _ _] => f | _ => [] end
  | None => []
  end.
Lemma call_frame_bytes : Forall is_u8 call_frame ∧ length call_frame = 59%nat.
Proof.
  split; [|vm_compute; reflexivity]. apply (bool_decide_eq_true_1 (Forall (λ x, 0 ≤ x < 256) call_frame)).
  vm_compute. reflexivity.
Qed.
Lemma beacons_gated_witness :
  Forall is_u8 call_frame ∧
  swp (handle_beacon toy_hmac no_sign call_frame (length call_frame) (-60) 5) apart
    (λ _ s', nd_id (mt_node s') = nd_id (mt_node apart) ∧ nd_pins (mt_node s') = nd_pins (mt_node apart)).
Proof.
  split; [apply call_frame_bytes|].
  eapply swp_mono; [apply (beacons_gated toy_hmac no_sign apart call_frame (-60) 5 apart_announce), call_frame_bytes|].
  intros [] s' (_ & (H1 & _ & H2) & _). exact (conj H1 H2).
Defined.
Lemma beacon_introduces_sender_witness :
  swp (send_beacon toy_hmac) caller (λ rc s1, ∃ frame n,
    nd_out (mt_node s1) = [DTx frame TX_KIND_BEACON (rc =? TX_GATE_OK)] ∧ cut_at [78; 111; 100; 101] n ∧
    swp (handle_beacon toy_hmac no_sign frame (length frame) (-60) 5) apart (λ _ s3, ∃ e,
      neighbor_lookup (nd_neighbors (mt_node s3)) 60 = Some e ∧ carries e [78; 111; 100; 101] n)).
Proof.
  eapply swp_mono; [apply (beacon_introduces_sender toy_hmac no_sign caller apart 151587081 2313 demo_seq (-60) 5 caller_ok)|].
  - reflexivity.
  - unfold is_u48, demo_seq. lia.
  - vm_compute. reflexivity.
  - exact apart_announce.
  - reflexivity.
  - reflexivity.
  - discriminate.
  - vm_compute. reflexivity.
  - intros rc s1 (frame & n & H1 & H2 & H3). exists frame, n. split; [exact H1|]. split; [exact H2|].
    eapply swp_mono; [exact H3|]. intros [] s3 (e & E1 & _ & E3). exists e. exact (conj E1 E3).
Defined.
