(* ===== verification/MeshProbe.v ===== *)
(** * Reach probes of a node ([main/mesh_probe.c])

    A sweep of three rounds asks who can hear the node; every node that hears a
    round queues a jittered, repeated reply and relays the probe.  The reply timer
    exists once the task runs; arming and stopping it are events. *)

From stdpp Require Import base strings numbers sets option decidable list.
From S2P Require Import Prelude Tables Packet TxGate Security ChannelFlood MeshRouting DmCrypto MeshDm MeshRx Probe MeshState.

Definition PROBE_SWEEP_ROUNDS : Z := 3.
Definition PROBE_SWEEP_INTERVAL_MS : Z := 350.
Definition PROBE_COLLECTION_WINDOW_MS : Z := 5000.

Section ProbeSetters.
Context (p : probe_state).
Definition pset_request b id := mk_probe b id (ps_id p) (ps_sent_ms p) (ps_results p) (ps_collecting p)
  (ps_complete_emitted p) (ps_rounds_sent p) (ps_next_round_ms p) (ps_replies p) (ps_ingress p).
Definition pset_results x := mk_probe (ps_request_pending p) (ps_request_id p) (ps_id p) (ps_sent_ms p) x
  (ps_collecting p) (ps_complete_emitted p) (ps_rounds_sent p) (ps_next_round_ms p) (ps_replies p)
  (ps_ingress p).
Definition pset_rounds sent next := mk_probe (ps_request_pending p) (ps_request_id p) (ps_id p)
  (ps_sent_ms p) (ps_results p) (ps_collecting p) (ps_complete_emitted p) sent next (ps_replies p)
  (ps_ingress p).
Definition pset_completed := mk_probe (ps_request_pending p) (ps_request_id p) (ps_id p) (ps_sent_ms p)
  (ps_results p) false true (ps_rounds_sent p) (ps_next_round_ms p) (ps_replies p) (ps_ingress p).
Definition pset_replies x := mk_probe (ps_request_pending p) (ps_request_id p) (ps_id p) (ps_sent_ms p)
  (ps_results p) (ps_collecting p) (ps_complete_emitted p) (ps_rounds_sent p) (ps_next_round_ms p) x
  (ps_ingress p).
Definition pset_ingress x := mk_probe (ps_request_pending p) (ps_request_id p) (ps_id p) (ps_sent_ms p)
  (ps_results p) (ps_collecting p) (ps_complete_emitted p) (ps_rounds_sent p) (ps_next_round_ms p)
  (ps_replies p) x.
End ProbeSetters.
Definition set_probe (f : probe_state → probe_state) : T unit :=
  smodify (λ s, mset_probe s (f (mt_probe s))).

(** ** The reply queue *)

Definition mesh_schedule_next_probe_reply_timer : T unit :=
  s ← sget;
  match probe_reply_queue_earliest_due (ps_replies (mt_probe s)) with
  | None => notify (MProbeTimer None)
  | Some earliest_due =>
      t ← tnow;
      notify (MProbeTimer (Some (if earliest_due <=? t then 1 else earliest_due - t)))
  end.
Definition queue_probe_reply (buf : list Z) (wire_len address : Z) : T unit :=
  rand ← on_rx esp_random;
  t ← tnow;
  s ← sget;
  let initial_delay_ms := probe_reply_initial_delay_ms address (rand mod 120) in
  let first_due_ms := probe_reply_attempt_due_ms t initial_delay_ms 0 in
  '(slot, q) ← slift (probe_reply_queue_insert (ps_replies (mt_probe s)) buf wire_len PROBE_REPLY_ATTEMPTS
                        first_due_ms);
  set_probe (λ p, pset_replies p q) ;;
  match slot with
  | None => mret tt
  | Some _ => mesh_schedule_next_probe_reply_timer
  end.
Definition mesh_process_probe_reply_tx_event : T unit :=
  t_now ← tnow;
  s ← sget;
  let q := ps_replies (mt_probe s) in
  match probe_reply_queue_find_due q t_now with
  | None => mesh_schedule_next_probe_reply_timer
  | Some due_idx =>
      let item := q !!! due_idx in
      frame ← slift (rdn (pp_buf item) 0 (Z.to_nat (pp_wire_len item)));
      rc ← on_rx (mesh_tx_rc frame TX_KIND_PROBE_REPLY);
      t_after ← tnow;
      let result := if rc =? TX_GATE_ERR_BUDGET then PROBE_REPLY_TX_DENIED else PROBE_REPLY_TX_SENT in
      set_probe (λ p, pset_replies p
        (<[due_idx := probe_reply_queue_apply_result item result t_after]> (ps_replies p))) ;;
      mesh_schedule_next_probe_reply_timer
  end.

(** ** The sweep *)

(** A header in front of the bytes, in a buffer of twenty. *)
Definition probe_frame (h : bramble_header_t) (body : list Z) : option (list Z) :=
  '(_, buf) ← bramble_header_serialize h (replicate 20 0) HEADER_SIZE;
  buf ← wr buf HEADER_SIZE body;
  rdn buf 0 (HEADER_SIZE + length body).
Definition mesh_send_probe_round (pid round : Z) : T Z :=
  s ← sget;
  frame ← slift (probe_frame (mk_header BRAMBLE_VERSION PKT_TYPE_PROBE 0 8 UINT32_MAX pid)
                   (le32_bytes (id_address (nd_id (mt_node s))) ++ [round]));
  on_rx (mesh_tx_rc frame TX_KIND_PROBE).
Definition mesh_start_probe_sweep (pid : Z) : T unit :=
  t ← tnow;
  set_probe (λ p, mk_probe (ps_request_pending p) (ps_request_id p) pid t
                    (mk_ctable (entries (ps_results p)) 0) true false 0 t (ps_replies p) (ps_ingress p)) ;;
  mesh_send_probe_round pid 1 ;;
  set_probe (λ p, pset_rounds p 1 (ps_sent_ms p ⊕ PROBE_SWEEP_INTERVAL_MS)).
Definition mesh_send_probe : T Z :=
  pid ← on_nd next_packet_id;
  s ← sget;
  if ps_request_pending (mt_probe s) || ps_collecting (mt_probe s) then mret 0
  else set_probe (λ p, pset_request p true pid) ;; mret pid.

(** ** Reception *)

Definition handle_probe (data : list Z) (len : nat) : T unit :=
  if (len <? HEADER_SIZE + 4)%nat then mret tt else
  '(_, header) ← slift (bramble_header_deserialize header_zero data len);
  src_addr ← slift (get_le32 data HEADER_SIZE);
  probe_round ← (if (HEADER_SIZE + 5 <=? len)%nat then slift (rd data (HEADER_SIZE + 4)) else mret 1);
  s ← sget;
  let me := id_address (nd_id (mt_node s)) in
  if src_addr =? me then mret tt else
  let forward_eligible := h_hop_limit header >? 1 in
  t ← tnow;
  let '(ingress, rl) := probe_ingress_allow (ps_ingress (mt_probe s)) forward_eligible t in
  set_probe (λ p, pset_ingress p rl) ;;
  if negb (pid_reply ingress) then mret tt else
  ack ← slift (probe_frame (mk_header BRAMBLE_VERSION PKT_TYPE_PROBE_ACK 0 8 src_addr (h_packet_id header))
                 (le32_bytes me ++ [1; probe_round]));
  queue_probe_reply ack (Z.of_nat (HEADER_SIZE + 6)) me ;;
  swhen (forward_eligible && pid_forward ingress)
    (body ← slift (rdn data HEADER_SIZE 4);
     fwd ← slift (probe_frame (header_with_hops header (u8 (h_hop_limit header - 1))) body);
     on_rx (mesh_tx_rc fwd TX_KIND_PROBE) ;; mret tt).

Definition handle_probe_ack (data : list Z) (len : nat) (rssi snr : Z) : T unit :=
  if (len <? HEADER_SIZE + 5)%nat then mret tt else
  '(_, header) ← slift (bramble_header_deserialize header_zero data len);
  s ← sget;
  let me := id_address (nd_id (mt_node s)) in
  let p := mt_probe s in
  if negb (h_dest_addr header =? me) then
    swhen (h_hop_limit header >? 1)
      (frame ← slift (rdn data 0 len);
       buf ← slift (wr (replicate BRAMBLE_MAX_PACKET_SIZE 0) 0 frame);
       '(_, buf) ← slift (bramble_header_serialize
                            (header_with_hops header (u8 (h_hop_limit header - 1))) buf HEADER_SIZE);
       frame ← slift (rdn buf 0 len);
       on_rx (mesh_tx_rc frame TX_KIND_PROBE_REPLY) ;; mret tt)
  else if negb (ps_collecting p) || negb (h_packet_id header =? ps_id p) then mret tt
  else
    resp_addr ← slift (get_le32 data HEADER_SIZE);
    hops ← slift (rd data (HEADER_SIZE + 4));
    round ← (if (HEADER_SIZE + 6 <=? len)%nat then slift (rd data (HEADER_SIZE + 5)) else mret 1);
    let probe_round := if (round <? 1) || (round >? PROBE_SWEEP_ROUNDS) then 1 else round in
    if resp_addr =? me then mret tt
    else
      t ← tnow;
      let latency := t ⊖ ps_sent_ms p in
      set_probe (λ p, pset_results p
        (probe_results_upsert (ps_results p) MAX_PROBE_RESULTS resp_addr hops rssi snr latency probe_round)) ;;
      notify (MOnProbeResult (mk_presult resp_addr hops rssi snr latency (round_bit probe_round)) probe_round
                (ps_id p)).

(** ** The probe part of the maintenance tick *)

Definition probe_tick (t : Z) : T unit :=
  s ← sget;
  let p := mt_probe s in
  swhen (ps_collecting p && (ps_rounds_sent p <? PROBE_SWEEP_ROUNDS) && (t >=? ps_next_round_ms p))
    (let round := u8 (ps_rounds_sent p + 1) in
     mesh_send_probe_round (ps_id p) round ;;
     set_probe (λ p, pset_rounds p round (t ⊕ PROBE_SWEEP_INTERVAL_MS))) ;;
  s ← sget;
  let p := mt_probe s in
  swhen (ps_collecting p && negb (ps_complete_emitted p) &&
         ((t ⊖ ps_sent_ms p) >=? PROBE_COLLECTION_WINDOW_MS))
    (notify (MOnProbeComplete (ps_id p) (t ⊖ ps_sent_ms p) (live (ps_results p))) ;;
     set_probe pset_completed).
