(* ===== verification/MeshPinSpec.v ===== *)
(** * Attestations: pinned keys overrule sessions

    What the handler of attestations does with a frame: nothing unless the network
    key vouches for it and its sequence number is fresh; then the pin store takes
    it, and a session made with another key than the pinned one is dropped. *)

From stdpp Require Import base strings numbers sets option decidable list.
From S2P Require Import Prelude Tables Packet PacketSpec Dedup TxGate Routing NetworkKey RoutingAuth.
From S2P Require Import ChannelFlood Timesync MeshRouting MeshRoutingSpec DmCrypto DmRatchet DmTable.
From S2P Require Import Identity IdentityStore IdentityStoreSpec Channel MsgStore MsgStoreSpec MeshDm MeshDmSpec.
From S2P Require Import MeshRx MeshRxSpec ParkedRetry Beacon MeshState MeshSend MeshSendSpec MeshBeacon MeshBeaconSpec.

(** ** The pin store *)

Lemma lookup_update_pin s a f :
  (∀ e, pin_for a (f e) = pin_for a e) →
  identity_store_lookup (update_pin s a f).2 a = f <$> identity_store_lookup s a.
Proof.
  intros Hf. unfold update_pin, identity_store_lookup. destruct (find_entry s a) as [i|] eqn:E; cbn [snd].
  2: { rewrite E. done. }
  destruct (find_index_Some _ _ _ E) as (e & He & Hp & _).
  rewrite (list_lookup_total_correct _ _ _ He). unfold find_entry in *. cbn [set_entries is_entries].
  rewrite (find_index_insert _ _ _ _ e He (Hf e)), E. cbn [mbind option_bind].
  rewrite list_lookup_insert_eq by (by eapply lookup_lt_Some). by rewrite He.
Qed.
(** A pin revoked. *)
Definition revoked (p : identity_store_t) (a : Z) : identity_store_t :=
  (identity_store_mark_key_changed (identity_store_clear_verified p a).2 a).2.
Lemma revoked_spec p a pin :
  identity_store_lookup p a = Some pin →
  identity_store_is_verified (revoked p a) a = false ∧ identity_store_key_changed (revoked p a) a = true.
Proof.
  intros H. assert (Hl : identity_store_lookup (revoked p a) a = Some (pin_mark_changed (pin_clear_verified pin))).
  { unfold revoked, identity_store_mark_key_changed, identity_store_clear_verified.
    by rewrite !lookup_update_pin, H. }
  unfold identity_store_is_verified, identity_store_key_changed. by rewrite Hl.
Qed.

Section Pins.
Context `{DC : DmCrypto} `{DL : !DmCryptoLaws} `{IC : IdCrypto} (hmac : list Z → list Z → list Z)
  `{HL : !HmacLaws hmac}.

(** ** Dropping a session that disagrees *)

(** Every session of the peer was made with the pinned key; the sessions of others
    are as they were; and a verified one that was dropped revoked the verification. *)
Record pin_enforced (pins : identity_store_t) (a : Z) (s s' : mt) : Prop := {
  pe_agree : ∀ p j sess, identity_store_lookup pins a = Some p → nd_table (mt_node s') !! j = Some sess →
    slot_for_peer a sess = true → dm_pin_disagrees sess (pin_x25519_pub p) = false;
  pe_others : ∀ j sess, nd_table (mt_node s) !! j = Some sess → slot_for_peer a sess = false →
    nd_table (mt_node s') !! j = Some sess;
  pe_revoked : ∀ p j sess, identity_store_lookup pins a = Some p → nd_table (mt_node s) !! j = Some sess →
    slot_for_peer a sess = true → dm_verified_should_clear sess (pin_x25519_pub p) = true →
    identity_store_is_verified (nd_pins (mt_node s')) a = false ∧
    identity_store_key_changed (nd_pins (mt_node s')) a = true }.
(** Everything but sessions and pins of the node. *)
Definition only_pins (s s' : mt) : Prop :=
  nd_id (mt_node s') = nd_id (mt_node s) ∧ nd_key (mt_node s') = nd_key (mt_node s) ∧
  nd_neighbors (mt_node s') = nd_neighbors (mt_node s) ∧ nd_queue (mt_node s') = nd_queue (mt_node s) ∧
  nd_msgs (mt_node s') = nd_msgs (mt_node s) ∧ nd_out (mt_node s') = nd_out (mt_node s).
#[local] Instance only_pins_po : PreOrder only_pins.
Proof.
  split; unfold only_pins; [done|]. intros a b c (?&?&?&?&?&?) (?&?&?&?&?&?). split_and!; congruence.
Qed.
Lemma slot_unique t a i j x y :
  dm_table_ok t → t !! i = Some x → t !! j = Some y → slot_for_peer a x = true → slot_for_peer a y = true → i = j.
Proof.
  intros [_ Hu] Hi Hj Hx Hy. unfold slot_for_peer in *. conds.
  eapply Hu; [exact Hi|exact Hj| | |lia]; intros E; apply dm_in_state_spec in E; congruence.
Qed.
Lemma enforce_dropped a s s' pin i sess :
  node_ok (mt_node s) → identity_store_lookup (nd_pins (mt_node s)) a = Some pin →
  nd_table (mt_node s) !! i = Some sess → slot_for_peer a sess = true →
  nd_table (mt_node s') = <[i := session_zero]> (nd_table (mt_node s)) →
  (dm_verified_should_clear sess (pin_x25519_pub pin) = true →
   nd_pins (mt_node s') = revoked (nd_pins (mt_node s)) a) →
  pin_enforced (nd_pins (mt_node s)) a s s'.
Proof.
  intros (_ & _ & Ht & _) Hl Hi Hs Et Ep. split.
  - intros p j sess' _ Hj Hs'. rewrite Et in Hj. destruct (decide (i = j)) as [<-|Hne].
    { rewrite list_lookup_insert_eq in Hj by (by eapply lookup_lt_Some). by injection Hj as <-. }
    rewrite list_lookup_insert_ne in Hj by done. destruct Hne. by eapply slot_unique.
  - intros j sess' Hj Hs'. rewrite Et. rewrite list_lookup_insert_ne; [done|]. intros <-. congruence.
  - intros p j sess' Hp Hj Hs' Hc. assert (j = i) as -> by (by eapply slot_unique).
    rewrite Hi in Hj. injection Hj as <-. rewrite Hl in Hp. injection Hp as <-. rewrite (Ep Hc). by eapply revoked_spec.
Qed.
Lemma enforce_agreed a s pin i sess :
  node_ok (mt_node s) → identity_store_lookup (nd_pins (mt_node s)) a = Some pin →
  nd_table (mt_node s) !! i = Some sess → slot_for_peer a sess = true →
  dm_pin_disagrees sess (pin_x25519_pub pin) = false → pin_enforced (nd_pins (mt_node s)) a s s.
Proof.
  intros (_ & _ & Ht & _) Hl Hi Hs Ed. split; [|done|].
  - intros p j sess' Hp Hj Hs'. assert (j = i) as -> by (by eapply slot_unique). congruence.
  - intros p j sess' Hp Hj Hs'. assert (j = i) as -> by (by eapply slot_unique).
    rewrite Hi in Hj. injection Hj as <-. rewrite Hl in Hp. injection Hp as <-.
    unfold dm_verified_should_clear. by rewrite Ed, andb_false_r.
Qed.
Lemma save_pins_ok s : swp save_pins s (λ _ s', mt_rx s' = mt_rx s).
Proof. unfold save_pins, draw_nvs, set_beacon. done. Qed.
Lemma teardown_node a n i :
  node_ok n → dm_lookup (nd_table n) a = Some i →
  node_ok (set_table n (dm_session_teardown (nd_table n) a).2) ∧
  (dm_session_teardown (nd_table n) a).2 = <[i := session_zero]> (nd_table n).
Proof.
  intros Hn Hi. split; [|unfold dm_session_teardown; by rewrite Hi].
  pose proof (teardown_handshaking (nd_table n) a) as Hh. pose proof (teardown_ok (nd_table n) a) as Hok.
  destruct Hn as (? & ? & ? & ? & ? & ? & ? & ? & ?). unfold node_ok. fields; [by apply Hok|]. etransitivity; [exact Hh|done].
Qed.
Lemma overrule_ok a s :
  node_ok (mt_node s) →
  swp (pin_overrules_session a) s (λ _ s', node_ok (mt_node s') ∧ only_pins s s' ∧
    pin_enforced (nd_pins (mt_node s)) a s s').
Proof.
  intros Hn. unfold pin_overrules_session. apply swp_bind, swp_get.
  destruct (identity_store_lookup _ a) as [pin|] eqn:El.
  2: { apply swp_ret. split; [done|]. split; [reflexivity|]. split; [intros; congruence|done|intros; congruence]. }
  destruct (dm_lookup _ a) as [i|] eqn:Ei.
  2: { apply swp_ret. split; [done|]. split; [reflexivity|]. apply find_index_None in Ei. rewrite list.Forall_forall in Ei.
       split; [|done|]; intros p j sess _ Hj Hs; specialize (Ei sess ltac:(by eapply list_elem_of_lookup_2)); congruence. }
  destruct (find_index_Some _ _ _ Ei) as (sess & Hi & Hslot & _).
  rewrite (list_lookup_total_correct _ _ _ Hi). apply swp_when.
  2: { intros Ed. split; [done|]. split; [reflexivity|]. by eapply enforce_agreed. }
  intros _. destruct (teardown_node a (mt_node s) i Hn Ei) as [Hn1 Et]. apply swp_bind, swp_nd, wp_modify.
  apply swp_when.
  - intros _. unfold t_pins. apply swp_bind, swp_nd, wp_modify. apply swp_bind, swp_nd, wp_modify.
    eapply swp_mono; [apply save_pins_ok|]. cbv beta. intros [] s' Er. unfold only_pins, mt_node in *. rewrite Er.
    split; [|split; [done|]].
    + destruct Hn1 as (? & ? & ? & ? & ? & ? & ? & ? & ?). unfold node_ok. fields.
    + eapply enforce_dropped; [done|done|done|done|unfold mt_node; by rewrite Er|]. intros _. unfold mt_node. by rewrite Er.
  - intros Ec. split; [done|]. split; [done|]. eapply enforce_dropped; [done..|]. intros H. congruence.
Qed.

(** ** The handler *)

Lemma attestation_parsed buf len a :
  bramble_identity_attestation_deserialize att_blank buf len = Some (ESP_OK, a) →
  len = IDENTITY_ATTESTATION_SIZE ∧ length (att_auth_hmac a) = 8%nat.
Proof.
  unfold bramble_identity_attestation_deserialize. destruct (len =? IDENTITY_ATTESTATION_SIZE)%nat eqn:E; [|done].
  cbn [negb]. intros H. apply Nat.eqb_eq in E. split; [done|].
  destruct (bramble_header_deserialize _ _ _) as [[[] hd]|]; [|done..]. cbn [mbind option_bind] in H.
  repeat inv_read H. injection H as <-. cbn [att_auth_hmac].
  match goal with E : rdn _ _ 8 = Some ?x |- length ?x = _ => by apply rdn_inv in E as (_ & ? & _) end.
Qed.
(** The node, its random words and the relay queue aside. *)
Definition same_core (s s' : mt) : Prop :=
  only_pins s s' ∧ nd_table (mt_node s') = nd_table (mt_node s) ∧ nd_pins (mt_node s') = nd_pins (mt_node s).
Lemma relay_ok data att is_dup key s :
  node_ok (mt_node s) → length data = IDENTITY_ATTESTATION_SIZE →
  swp (relay_attestation data (length data) att is_dup key) s (λ _ s', node_ok (mt_node s') ∧ same_core s s').
Proof.
  intros Hn Hl. unfold relay_attestation. apply swp_bind, swp_get. cbn zeta.
  apply swp_bind, swp_zoom. unfold swp at 1, draw_check. set (s1 := mset_rx s _).
  assert (H1 : node_ok (mt_node s1) ∧ same_core s s1) by done. clearbody s1.
  apply swp_bind, swp_zoom. unfold swp at 1, esp_random, on_node. set (s2 := mset_rx s1 _).
  assert (H2 : node_ok (mt_node s2) ∧ same_core s s2).
  { destruct H1 as [(? & ? & ? & ? & ? & ? & ? & ? & ?) H1]. split; [unfold node_ok; fields|exact H1]. }
  clearbody s2. destruct (cf_should_relay _); cbn [negb]; [|by apply swp_ret].
  apply swp_bind. eapply swp_lift; [apply rdn_some; lia|]. rewrite drop_0, firstn_all. apply swp_bind.
  destruct (wr_is_Some (replicate IDENTITY_ATTESTATION_SIZE 0) 0 data) as (buf & Eb & Hb);
    [rewrite length_replicate; lia|]. rewrite length_replicate in Hb.
  eapply swp_lift; [exact Eb|]. apply swp_bind.
  eapply swp_lift; [apply header_serialize_spec; [lia|rewrite Hb; unfold IDENTITY_ATTESTATION_SIZE, HEADER_SIZE; lia]|].
  cbv beta iota. apply swp_zoom. unfold swp, rx_schedule_flood_relay. unfold mbind at 1, Rx_bind at 1. rewrite rnow_run.
  unfold mbind at 1, Rx_bind at 1, rget. by destruct (schedule_flood_relay _ _ _ _ _ _ _ _) as [[? ?] ?].
Qed.
Lemma enforced_core pins a s s1 s' :
  pin_enforced pins a s s1 → same_core s1 s' → pin_enforced pins a s s'.
Proof. intros [H1 H2 H3] (_ & Et & Ep). split; by rewrite ?Et, ?Ep. Qed.
Lemma enforced_start pins a s s0 s' :
  nd_table (mt_node s) = nd_table (mt_node s0) → pin_enforced pins a s s' → pin_enforced pins a s0 s'.
Proof. intros E [H1 H2 H3]. split; rewrite <- ?E; done. Qed.
Definition att_vouched (s : mt) (data : list Z) (a : bramble_identity_attestation_t) : Prop :=
  bramble_identity_attestation_deserialize att_blank data (length data) = Some (ESP_OK, a) ∧
  ident_relay_verify hmac (nd_key (mt_node s)) a = Some true.
(** What the pin store makes of it. *)
Definition pinned_to (s : mt) (a : bramble_identity_attestation_t) : identity_pin_result_t * identity_store_t :=
  let now := v_now (nd_env (mt_node s)) in
  identity_store_handle_attestation (nd_pins (mt_node s)) a (id_address (nd_id (mt_node s))) now
    (trusted_epoch_ms (rx_timesync (mt_rx s)) now).

Definition pinned_and_enforced (s s' : mt) (a : bramble_identity_attestation_t) : Prop :=
  let '(pin, pins) := pinned_to s a in
  if pin_is_authoritative pin then pin_enforced pins (att_src_addr a) s s'
  else nd_table (mt_node s') = nd_table (mt_node s) ∧ nd_pins (mt_node s') = pins.
(** The part after the gates, from a state that differs in the replay window only. *)
Lemma take_attestation s s0 data a :
  node_ok (mt_node s) → length data = IDENTITY_ATTESTATION_SIZE → mt_node s0 = mt_node s →
  swp (now ← tnow;
       let flood_key := Z.lxor (h_packet_id (att_header a)) (att_src_addr a) in
       let '(is_dup, seen) := dedup_check_and_add (rx_flood_dedup (mt_rx s)) flood_key now in
       on_rx (rmodify (λ r, rset_flood_dedup r seen)) ;;
       let '(pin, pins) := identity_store_handle_attestation (nd_pins (mt_node s)) a
                             (id_address (nd_id (mt_node s))) now
                             (trusted_epoch_ms (rx_timesync (mt_rx s)) now) in
       t_pins (λ _, pins) ;;
       swhen (bool_decide (pin = IDENTITY_PIN_NEW)) save_pins ;;
       swhen (pin_is_authoritative pin) (pin_overrules_session (att_src_addr a)) ;;
       relay_attestation data (length data) a is_dup flood_key) s0
    (λ _ s', node_ok (mt_node s') ∧ only_pins s s' ∧ pinned_and_enforced s s' a).
Proof.
  intros Hn Hl En. apply swp_bind, swp_gets. cbn zeta. rewrite En.
  destruct (dedup_check_and_add _ _ _) as [is_dup seen].
  apply swp_bind, swp_zoom. unfold swp at 1, rmodify. unfold pinned_and_enforced, pinned_to. cbn zeta.
  destruct (identity_store_handle_attestation _ _ _ _ _) as [pin pins].
  apply swp_bind. unfold t_pins. apply swp_nd, wp_modify. set (s1 := mset_node _ _).
  assert (H1 : node_ok (mt_node s1) ∧ only_pins s s1 ∧ nd_table (mt_node s1) = nd_table (mt_node s) ∧
    nd_pins (mt_node s1) = pins).
  { assert (E1 : mt_node s1 = set_pins (mt_node s0) pins) by done. unfold only_pins. rewrite E1, En.
    split; [|done]. destruct Hn as (? & ? & ? & ? & ? & ? & ? & ? & ?). unfold node_ok. fields. }
  clearbody s1. apply swp_bind.
  eapply (swp_mono _ _ (λ _ s2, mt_node s2 = mt_node s1)).
  { apply swp_when; [|done]. intros _. eapply swp_mono; [apply save_pins_ok|]. cbv beta. unfold mt_node. by intros [] s2 ->. }
  cbv beta. intros [] s2 E2. destruct H1 as (N1 & O1 & T1 & P1). apply swp_bind.
  eapply (swp_mono _ _ (λ _ s3, node_ok (mt_node s3) ∧ only_pins s s3 ∧
     if pin_is_authoritative pin then pin_enforced pins (att_src_addr a) s s3
     else nd_table (mt_node s3) = nd_table (mt_node s) ∧ nd_pins (mt_node s3) = pins)).
  { destruct (pin_is_authoritative pin); cbn [swhen].
    - eapply swp_mono; [apply overrule_ok; by rewrite E2|]. cbv beta. intros [] s3 (N3 & O3 & F3). split; [done|].
      rewrite E2, P1 in F3. split; [|eapply enforced_start; [|exact F3]; by rewrite E2].
      transitivity s1; [exact O1|]. unfold only_pins in O3. by rewrite E2 in O3.
    - apply swp_ret. unfold only_pins. rewrite E2. by split_and!; try apply O1. }
  cbv beta. intros [] s3 (N3 & O3 & F3). eapply swp_mono; [by apply relay_ok|]. cbv beta.
  intros [] s4 [N4 C4]. split; [done|]. split; [transitivity s3; [done|apply C4]|].
  destruct (pin_is_authoritative pin); [by eapply enforced_core|]. destruct C4 as (_ & Et & Ep). by rewrite Et, Ep.
Qed.

(** C24. A pinned key overrules a session.  On any frame the handler of attestations
    returns and touches nothing of the node but its pins and sessions.  A frame the
    network key does not vouch for changes nothing; one that is not fresh moves the
    replay window only.  When the pin store accepts a fresh one (a new pin, a
    confirmed one, or a conflict with the pin it holds), every session with that
    address that remains was made with the pinned key, no session with anybody else
    is touched, and a session that had been verified by its user takes the
    verification with it: the pin reads unverified and its key changed.  When it does
    not accept it, no session changes. *)
Theorem pins_overrule_sessions (s : mt) (data : list Z) :
  node_ok (mt_node s) → Forall is_u8 data →
  swp (handle_identity_attestation hmac data (length data)) s (λ _ s',
    node_ok (mt_node s') ∧ only_pins s s' ∧
    ((∀ a, ¬ att_vouched s data a) → s' = s) ∧
    ∀ a, att_vouched s data a →
      let '(fresh, m) := control_check s (att_src_addr a) (bramble_seq48_unpack (att_seq a)) in
      if fresh then pinned_and_enforced s s' a else s' = window_moved s m).
Proof.
  intros Hn Hd. unfold handle_identity_attestation.
  destruct (attestation_deserialize_safe att_blank data (length data) (le_n _)) as [[e a] Ea].
  apply swp_bind. eapply swp_lift; [exact Ea|]. cbv beta iota.
  assert (Hno : (∀ a', ¬ att_vouched s data a') → ∀ P : bramble_identity_attestation_t → Prop,
    node_ok (mt_node s) ∧ only_pins s s ∧ ((∀ a, ¬ att_vouched s data a) → s = s) ∧ ∀ a, att_vouched s data a → P a).
  { intros H P. split; [done|]. split; [reflexivity|]. split; [done|]. intros a' Ha. by destruct (H a'). }
  destruct e; [|apply swp_ret, Hno; intros a' [E _]; congruence].
  destruct (attestation_parsed _ _ _ Ea) as [Hl H8]. apply swp_bind, swp_get. apply swp_bind.
  destruct (mac_verify_total hmac (nd_key (mt_node s)) ident_label (ident_relay_build_auth_buf a) _ H8) as [ok Eok].
  eapply swp_lift; [exact Eok|]. destruct ok; cbn [negb].
  2: { apply swp_ret, Hno. intros a' [E V]. rewrite Ea in E. injection E as <-. unfold ident_relay_verify in V. congruence. }
  assert (Hv : att_vouched s data a) by done.
  assert (Hu : ∀ a', att_vouched s data a' → a' = a) by (intros a' [E _]; rewrite Ea in E; by injection E).
  apply swp_bind, swp_control.
  destruct (control_check s (att_src_addr a) (bramble_seq48_unpack (att_seq a))) as [fresh m] eqn:Ec. cbn [fst snd].
  destruct fresh; cbn [negb].
  - eapply swp_mono; [by apply (take_attestation s (window_moved s m))|]. cbv beta. intros [] s' (N' & O' & F').
    split; [done|]. split; [done|]. split; [by intros H; destruct (H a)|]. intros a' ->%Hu. by rewrite Ec.
  - apply swp_ret. split; [done|]. split; [by repeat split|]. split; [by intros H; destruct (H a)|].
    intros a' ->%Hu. by rewrite Ec.
Qed.
End Pins.

(** ** An example *)

#[local] Existing Instance toy_crypto.
#[local] Existing Instance toy_id_crypto.

(** Node 60 attests keys that are not the ones [MeshSendSpec.apart] has a session with. *)
Definition attester : mt := mset_node caller (set_id (mt_node caller)
  (mk_identity (replicate 32 5) (replicate 32 5) ([0; 0; 0; 60] ++ replicate 28 7) (replicate 32 8) 60 0)).
Definition attester_sign (sk msg : list Z) : option (list Z) :=
  Some (toy_sign (id_ed25519_public_key (nd_id (mt_node attester))) msg).
Definition att_frame : list Z :=
  match send_identity_attestation toy_hmac attester_sign attester with
  | Some (_, s) => match nd_out (mt_node s) with [DTx f _ _] => f | _ => [] end
  | None => []
  end.
Definition att_parsed : bramble_identity_attestation_t :=
  match bramble_identity_attestation_deserialize att_blank att_frame (length att_frame) with
  | Some (_, a) => a
  | None => att_blank
  end.
Lemma att_frame_bytes : Forall is_u8 att_frame.
Proof. apply (bool_decide_eq_true_1 (Forall (λ x, 0 ≤ x < 256) att_frame)). vm_compute. reflexivity. Qed.
Lemma att_frame_vouched : att_vouched toy_hmac apart att_frame att_parsed.
Proof. split; vm_compute; reflexivity. Qed.
Lemma att_frame_pins :
  att_src_addr att_parsed = 60 ∧
  (control_check apart 60 (bramble_seq48_unpack (att_seq att_parsed))).1 = true ∧
  (pinned_to apart att_parsed).1 = IDENTITY_PIN_NEW ∧
  pin_x25519_pub <$> identity_store_lookup (pinned_to apart att_parsed).2 60 = Some (replicate 32 5).
Proof. split_and!; vm_compute; reflexivity. Qed.
(** No session with 60 under another key is left. *)
Lemma pins_overrule_sessions_witness :
  swp (handle_identity_attestation toy_hmac att_frame (length att_frame)) apart (λ _ s',
    ∀ j sess, nd_table (mt_node s') !! j = Some sess → slot_for_peer 60 sess = true →
      dm_pin_disagrees sess (replicate 32 5) = false).
Proof.
  eapply swp_mono; [apply (pins_overrule_sessions toy_hmac apart att_frame (proj1 apart_inv) att_frame_bytes)|].
  intros [] s' (_ & _ & _ & H). specialize (H att_parsed att_frame_vouched).
  destruct att_frame_pins as (Ea & Ef & Ep & El). rewrite Ea in H.
  destruct (control_check apart 60 _) as [fresh m]. cbn [fst] in Ef. subst fresh.
  unfold pinned_and_enforced in H. destruct (pinned_to apart att_parsed) as [pin pins]. cbn [fst snd] in *. subst pin.
  cbn [pin_is_authoritative] in H. rewrite Ea in H. destruct (identity_store_lookup pins 60) as [p|] eqn:E; [|done].
  intros j sess Hj Hs. assert (Ek : pin_x25519_pub p = replicate 32 5) by (by injection El). rewrite <- Ek.
  exact (pe_agree _ _ _ _ H p j sess E Hj Hs).
Defined.
