(* ===== verification/MeshRollcall.v ===== *)
(** * Roll-calls of a node ([main/mesh_rollcall.c])

    The two sides of the roll-call over the node's own transports: the initiator
    floods announcements and keeps the ledger, the member answers once, signed,
    and within its budget.  [None] in [mt_rollcall] is the block not yet allocated. *)

From stdpp Require Import base strings numbers sets option decidable list.
From S2P Require Import Prelude Tables Packet Routing NetworkKey RoutingAuth DmCrypto Identity IdentityStore.
From S2P Require Import Channel MeshDm MeshRx ParkedRetry Rollcall MeshState MeshSend.

Definition MESH_ROLLCALL_OK : Z := 0.
Definition MESH_ROLLCALL_ERR_INTERNAL : Z := -5.
Definition MESH_ROLLCALL_ERR_TEXT_TOO_LONG : Z := -3.
Definition MESH_ROLLCALL_ERR_BUSY : Z := -1.
Definition MESH_ROLLCALL_ERR_RATE_LIMITED : Z := -2.
Definition MESH_ROLLCALL_ERR_TX : Z := -4.

Section RcSetters.
Context (r : rollcall_runtime_t).
Definition rcset_ledger x := mk_rc x (rc_rate r) (rc_announce_pkt_id r) (rc_seen r) (rc_pending r)
  (rc_answer_budget r) (rc_pending_dropped r) (rc_answer_limited r).
Definition rcset_rate x := mk_rc (rc_ledger r) x (rc_announce_pkt_id r) (rc_seen r) (rc_pending r)
  (rc_answer_budget r) (rc_pending_dropped r) (rc_answer_limited r).
Definition rcset_announce x := mk_rc (rc_ledger r) (rc_rate r) x (rc_seen r) (rc_pending r)
  (rc_answer_budget r) (rc_pending_dropped r) (rc_answer_limited r).
Definition rcset_member seen pending budget := mk_rc (rc_ledger r) (rc_rate r) (rc_announce_pkt_id r) seen
  pending budget (rc_pending_dropped r) (rc_answer_limited r).
Definition rcset_counts dropped limited := mk_rc (rc_ledger r) (rc_rate r) (rc_announce_pkt_id r) (rc_seen r)
  (rc_pending r) (rc_answer_budget r) dropped limited.
End RcSetters.

Definition rc_zero : rollcall_runtime_t :=
  mk_rc rollcall_ledger_init rollcall_rate_init (replicate (Z.to_nat ROLLCALL_MAX_ROUNDS) 0) rollcall_seen_init
    (replicate ROLLCALL_PENDING_MAX rcpending_zero) rollcall_answer_budget_init 0 0.
Definition set_rc (f : rollcall_runtime_t → rollcall_runtime_t) : T unit :=
  smodify (λ s, mset_rollcall s (f <$> mt_rollcall s)).
(** Allocated on first use. *)
Definition rollcall_runtime : T (option rollcall_runtime_t) :=
  s ← sget;
  match mt_rollcall s with
  | Some rc => mret (Some rc)
  | None =>
      ok ← on_rx malloc_ok;
      if negb ok then mret None
      else smodify (λ s, mset_rollcall s (Some rc_zero)) ;; mret (Some rc_zero)
  end.
Definition rollcall_channel (s : mt) : option bramble_channel_t := nd_channels (mt_node s) !! 0%nat.

Section MeshRollcall.
Context `{DC : DmCrypto} `{IC : IdCrypto} (hmac : list Z → list Z → list Z).
(** As in [MeshBeacon]. *)
Context (crypto_ed25519_sign : list Z → list Z → option (list Z)).

(** ** The initiator *)

Definition rollcall_collect_expected (s : mt) : list Z :=
  let pins := nd_pins (mt_node s) in
  if negb (is_has_anchor pins) then []
  else take ROLLCALL_MAX_EXPECTED
         (pin_address <$> filter (λ p, pin_used p = true ∧ pin_address p ≠ id_address (nd_id (mt_node s)))
                            (is_entries pins)).

Definition rollcall_send_round (round : Z) : T Z :=
  s ← sget;
  match mt_rollcall s with
  | None => mret 0
  | Some rc =>
      let l := rc_ledger rc in
      if negb (lg_active l) then mret 0 else
      match rollcall_channel s with
      | None => mret 0
      | Some ch =>
          bytes ← slift (rdn (lg_text l) 0 (Z.to_nat (lg_text_len l)));
          text ← slift (wr (replicate (ROLLCALL_TEXT_MAX + 1) 0) 0 bytes);
          '(n, payload) ← slift (rollcall_announce_encode
             (mk_announce (lg_rollcall_id l) round (lg_text_len l) text)
             (replicate ROLLCALL_ANNOUNCE_MAX_SIZE 0) ROLLCALL_ANNOUNCE_MAX_SIZE);
          if (n =? 0)%nat then mret 0 else
          payload ← slift (rdn payload 0 n);
          pkt_id ← on_nd (send_data_packet hmac UINT32_MAX payload ch APP_TYPE_ROLLCALL);
          if pkt_id =? 0 then mret 0
          else
            swhen ((round >=? 1) && (round <=? ROLLCALL_MAX_ROUNDS))
              (set_rc (λ rc, rcset_announce rc (<[Z.to_nat (round - 1) := pkt_id]> (rc_announce_pkt_id rc)))) ;;
            mret pkt_id
      end
  end.

(** The return code and the identifier. *)
Definition mesh_rollcall_start (text : list Z) : T (Z * Z) :=
  if (ROLLCALL_TEXT_MAX <? length text)%nat then mret (MESH_ROLLCALL_ERR_TEXT_TOO_LONG, 0) else
  rc ← rollcall_runtime;
  match rc with
  | None => mret (MESH_ROLLCALL_ERR_INTERNAL, 0)
  | Some rc =>
      t ← tnow;
      match rollcall_rate_check (rc_rate rc) (lg_active (rc_ledger rc) && lg_open (rc_ledger rc)) t with
      | ROLLCALL_START_BUSY => mret (MESH_ROLLCALL_ERR_BUSY, 0)
      | ROLLCALL_START_RATE_LIMITED => mret (MESH_ROLLCALL_ERR_RATE_LIMITED, 0)
      | ROLLCALL_START_OK =>
          id ← on_nd next_packet_id;
          let id := if id =? 0 then 1 else id in
          s ← sget;
          '(ok, l) ← slift (rollcall_ledger_start (rc_ledger rc) id (id_address (nd_id (mt_node s))) t text
                              (u8 (Z.of_nat (length text))) (rollcall_collect_expected s)
                              (is_has_anchor (nd_pins (mt_node s))));
          set_rc (λ rc, rcset_ledger rc l) ;;
          if negb ok then mret (MESH_ROLLCALL_ERR_INTERNAL, 0) else
          pkt_id ← rollcall_send_round 1;
          if pkt_id =? 0 then
            set_rc (λ rc, rcset_ledger rc rollcall_ledger_init) ;; mret (MESH_ROLLCALL_ERR_TX, 0)
          else
            set_rc (λ rc, rcset_ledger (rcset_rate rc (rollcall_rate_note_start t))
                            (rollcall_ledger_note_round (rc_ledger rc) 1 t).2) ;;
            mret (MESH_ROLLCALL_OK, id)
      end
  end.

Definition mesh_rollcall_ledger (s : mt) : option rollcall_ledger_t :=
  rc ← mt_rollcall s;
  if negb (lg_active (rc_ledger rc)) then None else Some (rc_ledger rc).
Definition mesh_rollcall_pending_dropped (s : mt) : Z :=
  match mt_rollcall s with None => 0 | Some rc => rc_pending_dropped rc end.
Definition mesh_rollcall_answer_limited (s : mt) : Z :=
  match mt_rollcall s with None => 0 | Some rc => rc_answer_limited rc end.
Definition mesh_rollcall_retry_after_ms (s : mt) : Z :=
  match mt_rollcall s with
  | None => 0
  | Some rc =>
      let t := v_now (nd_env (mt_node s)) in
      let l := rc_ledger rc in
      let left := i32 (rollcall_ledger_close_at l ⊖ t) in
      let wait := if lg_active l && lg_open l && (left >? 0) then left else 0 in
      let since := t ⊖ rs_last_start_ms (rc_rate rc) in
      if rs_ever_started (rc_rate rc) && (since <? ROLLCALL_MIN_INTERVAL_MS) &&
         (ROLLCALL_MIN_INTERVAL_MS - since >? wait)
      then ROLLCALL_MIN_INTERVAL_MS - since else wait
  end.
Definition rollcall_emit_complete (l : rollcall_ledger_t) : T unit :=
  notify (MOnRollCallComplete (lg_rollcall_id l) (rollcall_ledger_responded_count l)
            (Z.of_nat (length (lg_expected l))) (lg_anchored l) (lg_rounds_sent l) (lg_unattested l)).

(** ** The member *)

Definition mesh_rollcall_handle_announce (src_addr channel_idx : Z) (data : list Z) : T bool :=
  ann ← slift (rollcall_announce_decode data (length data));
  match ann with
  | None => mret false
  | Some ann =>
      rc ← rollcall_runtime;
      match rc with
      | None => mret false
      | Some rc =>
          t ← tnow;
          if rollcall_seen_contains (rc_seen rc) (ra_rollcall_id ann) src_addr then mret false else
          match find_index (λ p, negb (rp_used p)) (rc_pending rc) with
          | None =>
              set_rc (λ rc, rcset_counts rc (u32 (rc_pending_dropped rc + 1)) (rc_answer_limited rc)) ;;
              mret false
          | Some slot =>
              if negb (rollcall_answer_budget_allow (rc_answer_budget rc) t) then
                set_rc (λ rc, rcset_counts rc (rc_pending_dropped rc) (u32 (rc_answer_limited rc + 1))) ;;
                mret false
              else
                let '(claimed, seen) := rollcall_seen_claim (rc_seen rc) (ra_rollcall_id ann) src_addr t in
                if negb claimed then mret false else
                rand ← on_rx esp_random;
                s ← sget;
                let delay := rollcall_response_delay_ms (id_address (nd_id (mt_node s)))
                               (ra_rollcall_id ann)
                               (u8 (Z.of_nat (neighbor_count (nd_neighbors (mt_node s))))) rand in
                let p := mk_rcpending true (ra_rollcall_id ann) src_addr (ra_round ann)
                           (if channel_idx >=? 0 then channel_idx else 0) (t ⊕ delay) in
                set_rc (λ rc, rcset_member rc seen (<[slot := p]> (rc_pending rc)) (rc_answer_budget rc)) ;;
                notify (MOnRollCall (ra_rollcall_id ann) src_addr (c_string (ra_text ann)) (ra_round ann)) ;;
                mret true
          end
      end
  end.

(** The claim goes back with the answer that was never sent. *)
Definition rollcall_abandon_pending (i : nat) (p : rollcall_pending_t) : T unit :=
  set_rc (λ rc, rcset_member rc (rollcall_seen_release (rc_seen rc) (rp_rollcall_id p) (rp_initiator_addr p))
                  (<[i := rcpending_zero]> (rc_pending rc)) (rc_answer_budget rc)).
(** The public channel is always there. *)
Definition rollcall_send_pending (i : nat) (p : rollcall_pending_t) : T unit :=
  s ← sget;
  let me := nd_id (mt_node s) in
  '(n, msg) ← slift (rollcall_signed_msg (rp_rollcall_id p) (rp_initiator_addr p) (id_address me)
                       (replicate ROLLCALL_MSG_SIZE 0) ROLLCALL_MSG_SIZE);
  if (n =? 0)%nat then rollcall_abandon_pending i p else
  match crypto_ed25519_sign (id_ed25519_private_key me) msg with
  | None => rollcall_abandon_pending i p
  | Some sig =>
      '(n, payload) ← slift (rollcall_response_encode
         (mk_response (rp_rollcall_id p) (rp_round p) (id_address me) sig)
         (replicate ROLLCALL_RESPONSE_SIZE 0) ROLLCALL_RESPONSE_SIZE);
      if (n =? 0)%nat then rollcall_abandon_pending i p
      else
        let idx := rp_channel_idx p in
        let ch_idx := if (idx <? 0) || (idx >=? num_channels s) then 0 else idx in
        ch ← slift (channel_at s ch_idx);
        payload ← slift (rdn payload 0 n);
        pkt_id ← on_nd (send_data_packet hmac (rp_initiator_addr p) payload ch APP_TYPE_ROLLCALL_REPLY);
        if pkt_id =? 0 then rollcall_abandon_pending i p
        else
          t ← tnow;
          set_rc (λ rc, rcset_member rc (rc_seen rc) (<[i := rcpending_zero]> (rc_pending rc))
                          (rollcall_answer_budget_note (rc_answer_budget rc) t))
  end.

(** ** Answers and paths *)

Definition rollcall_unattested : T unit :=
  set_rc (λ rc, rcset_ledger rc (rollcall_ledger_note_unattested (rc_ledger rc))).
Definition mesh_rollcall_handle_response (src_addr : Z) (data : list Z) : T unit :=
  s ← sget;
  match mesh_rollcall_ledger s with
  | None => mret tt
  | Some l =>
      resp ← slift (rollcall_response_decode data (length data));
      match resp with
      | None => mret tt
      | Some resp =>
          if negb (rr_rollcall_id resp =? lg_rollcall_id l) then mret tt
          else if negb (rr_responder_addr resp =? src_addr) then rollcall_unattested
          else
            match identity_store_lookup (nd_pins (mt_node s)) (rr_responder_addr resp) with
            | None => rollcall_unattested
            | Some pin =>
                '(_, msg) ← slift (rollcall_signed_msg (rr_rollcall_id resp) (lg_initiator_addr l)
                                     (rr_responder_addr resp) (replicate ROLLCALL_MSG_SIZE 0)
                                     ROLLCALL_MSG_SIZE);
                if negb (crypto_ed25519_verify (pin_ed25519_pub pin) msg (rr_sig resp))
                then rollcall_unattested
                else
                  t ← tnow;
                  let '(ok, l) := rollcall_ledger_note_response l (rr_rollcall_id resp)
                                    (rr_responder_addr resp) (rr_round resp) t in
                  set_rc (λ rc, rcset_ledger rc l) ;;
                  swhen ok (notify (MOnRollCallResponse (rr_rollcall_id resp) (rr_responder_addr resp)
                                      (rr_round resp) (rollcall_ledger_responded_count l)
                                      (Z.of_nat (length (lg_expected l)))))
            end
      end
  end.

Definition mesh_rollcall_note_receipt (responder_addr orig_packet_id hop_count : Z) (relay_path : list Z)
    : T unit :=
  s ← sget;
  match mesh_rollcall_ledger s, mt_rollcall s with
  | Some l, Some rc =>
      if negb (lg_open l) then mret tt
      else if negb (existsb (λ x, negb (x =? 0) && (x =? orig_packet_id)) (rc_announce_pkt_id rc)) then mret tt
      else
        hops ← slift (rdn relay_path 0 (Z.to_nat hop_count));
        let path := take ROLLCALL_PATH_MAX (id_address (nd_id (mt_node s)) :: rev hops) in
        let pinned := bool_decide (is_Some (identity_store_lookup (nd_pins (mt_node s)) responder_addr)) in
        set_rc (λ rc, rcset_ledger rc (rollcall_ledger_note_path l (lg_rollcall_id l) responder_addr pinned
                                         (Z.of_nat (length path)) path).2)
  | _, _ => mret tt
  end.

(** ** The tick *)

Definition mesh_rollcall_tick (t : Z) : T unit :=
  s ← sget;
  match mt_rollcall s with
  | None => mret tt
  | Some _ =>
      sfor (seq 0 ROLLCALL_PENDING_MAX) (λ i,
        s ← sget;
        match mt_rollcall s with
        | None => mret tt
        | Some rc =>
            let p := rc_pending rc !!! i in
            swhen (rp_used p && (i32 (t ⊖ rp_due_at_ms p) >=? 0)) (rollcall_send_pending i p)
        end) ;;
      s ← sget;
      match mesh_rollcall_ledger s with
      | None => mret tt
      | Some l =>
          swhen (rollcall_ledger_round_due l t)
            (let round := u8 (lg_rounds_sent l + 1) in
             rollcall_send_round round ;;
             set_rc (λ rc, rcset_ledger rc (rollcall_ledger_note_round (rc_ledger rc) round t).2)) ;;
          s ← sget;
          match mt_rollcall s with
          | None => mret tt
          | Some rc =>
              let '(closed, l) := rollcall_ledger_maybe_close (rc_ledger rc) t in
              set_rc (λ rc, rcset_ledger rc l) ;;
              swhen closed (rollcall_emit_complete l)
          end
      end
  end.
End MeshRollcall.
