(* ===== verification/MeshRollcallSpec.v ===== *)
(** * Roll-calls: nobody answers for somebody else

    Whatever a node starts, hears and times out, its roll-call code returns, and a
    member stands in the ledger as having answered only if a response arrived from
    its address whose signature, over this roll-call, this initiator and that
    address, verifies under the key pinned for it. *)

From stdpp Require Import base strings numbers sets option decidable list.
From S2P Require Import Prelude Tables Packet PacketSpec Dedup TxGate Routing NetworkKey RoutingAuth.
From S2P Require Import ChannelFlood MeshRouting MeshRoutingSpec DmCrypto DmRatchet DmTable Identity IdentityStore.
From S2P Require Import IdentityStoreSpec Channel MsgStore MsgStoreSpec MeshDm MeshDmSpec MeshRx MeshRxSpec ParkedRetry.
From S2P Require Import Beacon Rollcall RollcallSpec MeshState MeshSend MeshSendSpec MeshBeacon MeshBeaconSpec MeshPinSpec MeshRollcall.

Section Attested.
Context `{DC : DmCrypto} `{DL : !DmCryptoLaws} `{IC : IdCrypto} (hmac : list Z → list Z → list Z)
  `{HL : !HmacLaws hmac}.
Context (crypto_ed25519_sign : list Z → list Z → option (list Z)).
(** An Ed25519 signature has 64 bytes. *)
Context (Hsign : ∀ sk msg sig, crypto_ed25519_sign sk msg = Some sig → length sig = ROLLCALL_SIG_SIZE).
(** The pins of the node, and the responses it hears. *)
Context (pins : identity_store_t) (heard : list (Z * list Z)).

(** ** What stands behind a row *)

Definition attested (l : rollcall_ledger_t) (a : Z) : Prop :=
  ∃ data resp pin, (a, data) ∈ heard ∧ rollcall_response_decode data (length data) = Some (Some resp) ∧
    rr_rollcall_id resp = lg_rollcall_id l ∧ rr_responder_addr resp = a ∧
    identity_store_lookup pins a = Some pin ∧
    crypto_ed25519_verify (pin_ed25519_pub pin) (signed_bytes (lg_rollcall_id l) (lg_initiator_addr l) a)
      (rr_sig resp) = true.
Definition ledger_ok (l : rollcall_ledger_t) : Prop :=
  length (lg_text l) = (ROLLCALL_TEXT_MAX + 1)%nat ∧ (0 ≤ lg_text_len l ≤ Z.of_nat ROLLCALL_TEXT_MAX)%Z ∧
  rows_ok (lg_entries l) ∧ ∀ a, a ∈ who <$> answers l → attested l a.
Definition rc_inv (s : mt) : Prop :=
  mt_inv s ∧ 0 < num_channels s ∧ nd_pins (mt_node s) = pins ∧
  ∀ rc, mt_rollcall s = Some rc → ledger_ok (rc_ledger rc).

(** ** Handlers that keep it *)

Definition keeps_at {A} (m : T A) (s : mt) : Prop := rc_inv s → swp m s (λ _ s', rc_inv s').
Definition keeps {A} (m : T A) : Prop := ∀ s, keeps_at m s.
Lemma keeps_ret {A} (x : A) : keeps (mret x).
Proof. by intros s Hs. Qed.
Lemma keeps_bind {A B} (m : T A) (k : A → T B) : keeps m → (∀ x, keeps (k x)) → keeps (m ≫= k).
Proof.
  intros Hm Hk s Hs. apply swp_bind. eapply swp_mono; [by apply Hm|]. cbv beta. intros x s1 H1. by apply Hk.
Qed.
Lemma keeps_bind_at {A B} (m : T A) (k : A → T B) s : keeps_at m s → (∀ x, keeps (k x)) → keeps_at (m ≫= k) s.
Proof.
  intros Hm Hk Hs. apply swp_bind. eapply swp_mono; [by apply Hm|]. cbv beta. intros x s1 H1. by apply Hk.
Qed.
Lemma keeps_get {A} (k : mt → T A) s : keeps_at (k s) s → keeps_at (sget ≫= k) s.
Proof. done. Qed.
Lemma keeps_now {A} (k : Z → T A) s : keeps_at (k (v_now (nd_env (mt_node s)))) s → keeps_at (tnow ≫= k) s.
Proof. done. Qed.
Lemma keeps_lift {A B} (o : option A) x (k : A → T B) s : o = Some x → keeps_at (k x) s → keeps_at (slift o ≫= k) s.
Proof. intros -> Hk. exact Hk. Qed.
Lemma keeps_when b m s : (b = true → keeps_at m s) → keeps_at (swhen b m) s.
Proof. destruct b; [intros H; by apply H|]. intros _. apply keeps_ret. Qed.
Lemma keeps_notify e : keeps (notify e).
Proof. by intros s Hs. Qed.
Lemma keeps_for {A} (l : list A) f : (∀ x, x ∈ l → keeps (f x)) → keeps (sfor l f).
Proof. intros Hf s Hs. apply (swp_for l f rc_inv); [done|]. intros x s1 Hx H1. by apply Hf. Qed.
Lemma keeps_nd {A} (m : M A) : nsafe m → moves (pres send_inv) m → moves same_who m → keeps (on_nd m).
Proof.
  intros Hm Hi Hw s (Hs & Hc & Hp & Hrc). pose proof (safe_nd m Hm Hi s Hs) as H. unfold swp, on_nd, zoom in *.
  destruct (m (mt_node s)) as [[x n]|] eqn:E; [|done]. destruct H as [H1 H2]. apply Hw in E as (_ & _ & E & _).
  split; [done|]. split; [unfold num_channels in *; by rewrite H2|]. split; [|done].
  change (nd_pins n = pins). by rewrite E.
Qed.
Lemma keeps_rx {A} (m : Rx A) : (∀ r, ∃ x r', m r = Some (x, r') ∧ rx_node r' = rx_node r) → keeps (on_rx m).
Proof.
  intros Hm s (Hs & Hc & Hp & Hrc). destruct (Hm (mt_rx s)) as (x & r' & E & Hn). unfold swp, on_rx, zoom. rewrite E.
  unfold rc_inv, mt_inv, num_channels, mt_node in *. cbn [mset_rx mt_rx]. by rewrite Hn.
Qed.
Lemma keeps_malloc : keeps (on_rx malloc_ok).
Proof. apply keeps_rx. intros r. eexists _, _. by split. Qed.
Lemma keeps_rx_random : keeps (on_rx esp_random).
Proof.
  intros s ([Hn Hq] & Hc & Hp & Hrc). apply swp_zoom. unfold swp, esp_random, on_node. split; [|done]. split; [|done].
  destruct Hn as (? & ? & ? & ? & ? & ? & ? & ? & ?). unfold node_ok. fields.
Qed.
Lemma keeps_set f s :
  (∀ rc, mt_rollcall s = Some rc → ledger_ok (rc_ledger rc) → ledger_ok (rc_ledger (f rc))) → keeps_at (set_rc f) s.
Proof.
  intros Hf (Hs & Hc & Hp & Hrc). apply swp_modify. split; [done|]. split; [done|]. split; [done|].
  cbn [mset_rollcall mt_rollcall]. intros rc' Hrc'. destruct (mt_rollcall s) as [rc|]; [|done].
  injection Hrc' as <-. by apply Hf, Hrc.
Qed.
Lemma keeps_set_member f : (∀ rc, rc_ledger (f rc) = rc_ledger rc) → keeps (set_rc f).
Proof. intros Hf s. apply keeps_set. intros rc _. by rewrite Hf. Qed.
Lemma keeps_send dest payload ch ty : keeps (on_nd (send_data_packet hmac dest payload ch ty)).
Proof. apply keeps_nd; [by apply nsafe_send_data|apply moves_qm, qm_send_data|apply who_send_data]. Qed.
Lemma keeps_packet_id : keeps (on_nd next_packet_id).
Proof. apply keeps_nd; [apply nsafe_packet_id|apply moves_qm, qm_packet_id|apply who_packet_id]. Qed.

(** ** The ledger *)

Definition same_call (l l' : rollcall_ledger_t) : Prop :=
  lg_text l' = lg_text l ∧ lg_text_len l' = lg_text_len l ∧ lg_rollcall_id l' = lg_rollcall_id l ∧
  lg_initiator_addr l' = lg_initiator_addr l.
Lemma step_same_call l op : same_call l (ledger_step l op).2.
Proof.
  destruct op as [id addr round now| |id addr pinned hops path|round now|now]; cbn [ledger_step snd].
  - unfold rollcall_ledger_note_response. do 4 (split_if; [done|]).
    destruct (entry_upsert _ _ _) as [[i es]|]; [by split_if|done].
  - unfold rollcall_ledger_note_unattested. by split_if.
  - unfold rollcall_ledger_note_path. do 3 (split_if; [done|]). by destruct (if pinned then _ else _) as [[i es]|].
  - unfold rollcall_ledger_note_round. by split_if.
  - unfold rollcall_ledger_maybe_close. do 2 (split_if; [done|]). done.
Qed.
Lemma step_inactive l op : lg_active l = false → (ledger_step l op).2 = l.
Proof.
  intros Ha. destruct op; cbn [ledger_step snd];
    unfold rollcall_ledger_note_response, rollcall_ledger_note_unattested, rollcall_ledger_note_path,
      rollcall_ledger_note_round, rollcall_ledger_maybe_close; by rewrite Ha.
Qed.
(** Only an answer adds a row, and only its own. *)
Lemma step_answers l op :
  lg_active l = true → rows_ok (lg_entries l) →
  rows_ok (lg_entries (ledger_step l op).2) ∧
  ∀ a, a ∈ who <$> answers (ledger_step l op).2 → a ∈ who <$> answers l ∨
    ∃ round now, op = LAnswer (lg_rollcall_id l) a round now.
Proof.
  intros Ha Hok.
  assert (Hrep : ledger_rep (lg_rollcall_id l) (lg_initiator_addr l) (lg_started_ms l) l
    (mk_roll (lg_open l) (answers l) (lg_overflow l) (lg_late l))) by (by split_and!; try apply Hok).
  pose proof (ledger_step_refines _ _ _ l _ op Hrep) as H.
  destruct (ledger_step l op) as [r l'], (roll_step _ _ _ _ op) as [r' a'] eqn:Er. cbn [snd].
  destruct H as [_ (_ & _ & _ & _ & _ & _ & _ & Hok' & Hans)]. split; [done|]. intros a. rewrite Hans. clear -Er.
  destruct op as [id addr round now| |id addr pinned hops path|round now|now]; cbn [roll_step] in Er;
    try (injection Er as _ <-; by left).
  - revert Er. cbn [ro_open ro_log ro_overflow ro_late]. split_if; [intros [= _ <-]; by left|].
    split_if; [intros [= _ <-]; by left|]. split_if; [intros [= _ <-]; by left|].
    split_if; [|intros [= _ <-]; by left]. intros [= _ <-]. cbn [ro_log]. rewrite fmap_app.
    intros [H|H]%elem_of_app; [by left|right]. apply list_elem_of_singleton in H. cbn in H. subst a.
    exists round, now. f_equal. conds. lia.
  - revert Er. cbn [ro_open ro_log ro_overflow ro_late]. split_if; intros [= _ <-]; by left.
Qed.
Lemma attested_same l l' a : same_call l l' → attested l a → attested l' a.
Proof. intros (_ & _ & E1 & E2). unfold attested. by rewrite E1, E2. Qed.
Lemma step_ok l op :
  ledger_ok l → (∀ a round now, op = LAnswer (lg_rollcall_id l) a round now → attested l a) →
  ledger_ok (ledger_step l op).2.
Proof.
  intros Hl Hop. destruct (lg_active l) eqn:Ha; [|by rewrite step_inactive].
  pose proof (step_same_call l op) as Hs. destruct Hl as (H1 & H2 & Hok & Hat).
  destruct (step_answers l op Ha Hok) as [Hok' Hans]. destruct (ledger_step l op) as [r l']. cbn [snd] in *.
  split; [by rewrite (proj1 Hs)|]. split; [by rewrite (proj1 (proj2 Hs))|]. split; [done|].
  intros a Hin. apply (attested_same l); [done|]. destruct (Hans a Hin) as [Hin'|(round & now & E)]; eauto.
Qed.
Lemma ledger_init_ok : ledger_ok rollcall_ledger_init.
Proof.
  split; [done|]. split; [cbn; lia|]. split; [|intros a Ha; by apply not_elem_of_nil in Ha].
  split; [apply table_init_wf|]. split; constructor.
Qed.
Lemma start_ok l id initiator now text expected anchored :
  ledger_ok l → (length text ≤ ROLLCALL_TEXT_MAX)%nat →
  ∃ ok l', rollcall_ledger_start l id initiator now text (u8 (Z.of_nat (length text))) expected anchored =
    Some (ok, l') ∧ ledger_ok l'.
Proof.
  intros Hl Ht. assert (Hu : u8 (Z.of_nat (length text)) = Z.of_nat (length text)).
  { unfold ROLLCALL_TEXT_MAX in Ht. cint. }
  rewrite Hu. unfold rollcall_ledger_start. split_if; [by eexists _, _|]. split_if; [by eexists _, _|].
  rewrite Nat2Z.id, rdn_some by lia. rewrite drop_0, firstn_all. cbn [mbind option_bind].
  rewrite <- (filled_nil (replicate (ROLLCALL_TEXT_MAX + 1) 0)), wr_filled
    by (rewrite ?length_replicate; cbn [length]; lia). cbn [app mbind option_bind].
  rewrite wr_filled by (rewrite ?length_replicate; cbn [length]; lia). cbn [mbind option_bind].
  eexists _, _. split; [done|]. split; [|split; [cbn [lg_text_len]; lia|]].
  { cbn [lg_text]. rewrite length_filled; rewrite ?length_app, ?length_replicate; cbn [length]; lia. }
  split; [|intros a Ha; by apply not_elem_of_nil in Ha].
  split; [apply table_init_wf|]. split; constructor.
Qed.

(** ** The handlers *)

Lemma keeps_runtime : keeps rollcall_runtime.
Proof.
  intros s. unfold rollcall_runtime. apply keeps_get. destruct (mt_rollcall s) as [rc|]; [apply keeps_ret|].
  apply keeps_bind; [apply keeps_malloc|]. intros ok. destruct ok; cbn [negb]; [|apply keeps_ret].
  apply keeps_bind; [|intros; apply keeps_ret]. clear s. intros s (Hs & Hc & Hp & _). apply swp_modify.
  split; [done|]. split; [done|]. split; [done|]. intros rc [= <-]. apply ledger_init_ok.
Qed.
(** What it returns is the block in place. *)
Lemma runtime_spec s : swp rollcall_runtime s (λ r s', match r with Some rc => mt_rollcall s' = Some rc | None => True end).
Proof.
  unfold rollcall_runtime. apply swp_bind, swp_get. destruct (mt_rollcall s) as [rc|] eqn:E; [by apply swp_ret|].
  apply swp_bind, swp_zoom. unfold swp at 1, malloc_ok. destruct (match d_alloc _ with [] => _ | _ => _ end); cbn [negb]; [|by apply swp_ret].
  by apply swp_bind, swp_modify, swp_ret.
Qed.
Lemma keeps_with_runtime {A} (k : option rollcall_runtime_t → T A) :
  keeps (k None) → (∀ rc s, mt_rollcall s = Some rc → keeps_at (k (Some rc)) s) → keeps (rollcall_runtime ≫= k).
Proof.
  intros Hn Hs s Hi. apply swp_bind. pose proof (keeps_runtime s Hi) as H. pose proof (runtime_spec s) as R.
  unfold swp in *. destruct (rollcall_runtime s) as [[[rc|] s1]|]; [|by apply Hn|done]. by apply Hs.
Qed.
Lemma encode_total id round l :
  ledger_ok l → ∃ n out, rollcall_announce_encode (mk_announce id round (lg_text_len l)
      (filled (take (Z.to_nat (lg_text_len l)) (lg_text l)) (replicate (ROLLCALL_TEXT_MAX + 1) 0)))
      (replicate ROLLCALL_ANNOUNCE_MAX_SIZE 0) ROLLCALL_ANNOUNCE_MAX_SIZE = Some (n, out) ∧ (n ≤ length out)%nat.
Proof.
  intros (H1 & H2 & _). unfold rollcall_announce_encode.
  cbn [ra_rollcall_id ra_round ra_text_len ra_text]. do 3 (split_if; [eexists _, _; split; [done|cbn; lia]|]).
  split_if; [eexists _, _; split; [done|cbn; lia]|]. unfold put_be32, ROLLCALL_ANNOUNCE_HEADER_SIZE, ROLLCALL_TEXT_MAX in *.
  set (tl := Z.to_nat (lg_text_len l)) in *. assert (Htl : (tl ≤ 48)%nat) by lia.
  change ROLLCALL_ANNOUNCE_MAX_SIZE with 54%nat.
  assert (Hlt : length (take tl (lg_text l)) = tl) by (rewrite length_take; lia).
  assert (Hbuf : length (replicate 54 0) = 54%nat) by apply length_replicate.
  revert Hbuf. generalize (replicate 54 0). intros buf Hbuf.
  change (wr buf 0) with (wr (filled [] buf) 0). rewrite wr_filled; [|done|cbn; lia].
  cbn [app mbind option_bind]. rewrite wr_filled; [|done|cbn; lia]. cbn [mbind option_bind].
  rewrite wr_filled; [|done|cbn; lia]. cbn [mbind option_bind].
  set (text := filled (take tl (lg_text l)) _).
  assert (Htext : length text = 49%nat) by (unfold text; rewrite length_filled; rewrite ?length_replicate; lia).
  rewrite rdn_some by lia. cbn [mbind option_bind]. rewrite drop_0.
  assert (Hcut : length (take tl text) = tl) by (rewrite length_take; lia).
  rewrite wr_filled; [|done|cbn; lia]. cbn [mbind option_bind]. eexists _, _. split; [done|].
  rewrite length_filled by (rewrite length_app; cbn; lia). lia.
Qed.
Lemma keeps_round round : keeps (rollcall_send_round hmac round).
Proof.
  intros s Hi. pose proof Hi as (_ & Hc & _ & Hrc). revert Hi.
  change (keeps_at (rollcall_send_round hmac round) s). unfold rollcall_send_round. apply keeps_get.
  destruct (mt_rollcall s) as [rc|]; [|apply keeps_ret]. specialize (Hrc rc eq_refl). cbn zeta.
  destruct (lg_active (rc_ledger rc)); cbn [negb]; [|apply keeps_ret].
  destruct (rollcall_channel s) as [ch|]; [|apply keeps_ret].
  pose proof Hrc as (H1 & H2 & _). eapply keeps_lift; [apply rdn_some; lia|]. rewrite drop_0.
  eapply keeps_lift.
  { rewrite <- (filled_nil (replicate (ROLLCALL_TEXT_MAX + 1) 0)). apply wr_filled; [done|].
    rewrite length_take, length_replicate. cbn [length]. lia. }
  cbn [app]. destruct (encode_total (lg_rollcall_id (rc_ledger rc)) round _ Hrc) as (n & out & E & Hn).
  eapply keeps_lift; [exact E|]. cbv beta iota. destruct (n =? 0)%nat; [apply keeps_ret|].
  eapply keeps_lift; [apply rdn_some; lia|]. apply keeps_bind; [apply keeps_send|]. intros pkt.
  destruct (pkt =? 0); [apply keeps_ret|]. apply keeps_bind; [|intros; apply keeps_ret]. intros s1.
  apply keeps_when. intros _. by apply keeps_set_member.
Qed.
Lemma keeps_step op :
  (∀ l a round now, op l = LAnswer (lg_rollcall_id l) a round now → attested l a) →
  keeps (set_rc (λ rc, rcset_ledger rc (ledger_step (rc_ledger rc) (op (rc_ledger rc))).2)).
Proof.
  intros Hop s. apply keeps_set. intros rc _ Hl. cbn [rcset_ledger rc_ledger]. apply step_ok; [done|]. apply Hop.
Qed.
Lemma keeps_start text : keeps (mesh_rollcall_start hmac text).
Proof.
  unfold mesh_rollcall_start. destruct (Nat.ltb_spec ROLLCALL_TEXT_MAX (length text)) as [Ht|Ht]; [apply keeps_ret|].
  apply keeps_with_runtime; [apply keeps_ret|]. intros rc s Es. apply keeps_now.
  destruct (rollcall_rate_check _ _ _); try apply keeps_ret.
  intros Hi. assert (Hl : ledger_ok (rc_ledger rc)) by (by apply Hi). revert Hi.
  apply keeps_bind_at; [apply keeps_packet_id|]. intros id s1. cbn zeta. apply keeps_get.
  set (id' := if id =? 0 then 1 else id).
  destruct (start_ok (rc_ledger rc) id' (id_address (nd_id (mt_node s1))) (v_now (nd_env (mt_node s))) text
    (rollcall_collect_expected s1) (is_has_anchor (nd_pins (mt_node s1))) Hl Ht) as (ok & l & E & Hl').
  eapply keeps_lift; [exact E|]. cbv beta iota.
  apply keeps_bind_at; [by apply keeps_set|]. intros _. destruct ok; cbn [negb]; [|apply keeps_ret].
  apply keeps_bind; [apply keeps_round|]. intros pkt. destruct (pkt =? 0).
  - apply keeps_bind; [|intros; apply keeps_ret]. intros s2. apply keeps_set. intros. apply ledger_init_ok.
  - apply keeps_bind; [|intros; apply keeps_ret]. intros s2. apply keeps_set. intros rc' _ Hl2.
    exact (step_ok _ (LRound 1 (v_now (nd_env (mt_node s)))) Hl2 ltac:(done)).
Qed.

Lemma announce_decode_total data : is_Some (rollcall_announce_decode data (length data)).
Proof.
  unfold rollcall_announce_decode, ROLLCALL_ANNOUNCE_HEADER_SIZE.
  destruct (Nat.ltb_spec (length data) 6) as [H|H]; [eauto|].
  destruct (get_be32_is_Some data 0) as [id ->]; [lia|]. cbn [mbind option_bind].
  destruct (rd_is_Some data 4) as [r ->]; [lia|]. destruct (rd_is_Some data 5) as [tl ->]; [lia|].
  cbn [mbind option_bind]. do 4 (split_if; [eauto|]). unfold ROLLCALL_TEXT_MAX in *. conds.
  assert (El : length data = (6 + Z.to_nat tl)%nat) by (by apply Nat.eqb_eq).
  rewrite rdn_some by lia. cbn [mbind option_bind]. set (bytes := take _ _).
  assert (Hb : length bytes = Z.to_nat tl) by (unfold bytes; rewrite length_take, length_drop; lia).
  destruct (wr_is_Some (replicate (48 + 1) 0) 0 bytes) as (t1 & -> & Ht1); [rewrite length_replicate; lia|].
  rewrite length_replicate in Ht1. cbn [mbind option_bind].
  destruct (wr_is_Some t1 (Z.to_nat tl) [0]) as (t2 & -> & _); [cbn [length]; lia|]. cbn [mbind option_bind]. eauto.
Qed.
Lemma response_decode_total data : is_Some (rollcall_response_decode data (length data)).
Proof.
  unfold rollcall_response_decode. destruct (length data =? ROLLCALL_RESPONSE_SIZE)%nat eqn:E; cbn [negb]; [|eauto].
  apply Nat.eqb_eq in E. change ROLLCALL_RESPONSE_SIZE with 73%nat in E.
  destruct (get_be32_is_Some data 0) as [id ->]; [lia|]. destruct (rd_is_Some data 4) as [r ->]; [lia|].
  cbn [mbind option_bind]. do 2 (split_if; [eauto|]).
  destruct (get_be32_is_Some data 5) as [a ->]; [lia|]. cbn [mbind option_bind].
  rewrite rdn_some by (unfold ROLLCALL_SIG_SIZE; lia). eauto.
Qed.
Lemma response_encode_total r :
  length (rr_sig r) = ROLLCALL_SIG_SIZE → ∃ n out,
    rollcall_response_encode r (replicate ROLLCALL_RESPONSE_SIZE 0) ROLLCALL_RESPONSE_SIZE = Some (n, out) ∧
    (n ≤ length out)%nat.
Proof.
  intros Hs. unfold rollcall_response_encode, put_be32. do 2 (split_if; [eexists _, _; split; [done|cbn; lia]|]).
  rewrite Nat.ltb_irrefl. change ROLLCALL_RESPONSE_SIZE with 73%nat. unfold ROLLCALL_SIG_SIZE in Hs.
  destruct (wr_is_Some (replicate 73 0) 0 (be32_bytes (rr_rollcall_id r))) as (b1 & -> & H1); [cbn; lia|].
  rewrite length_replicate in H1. cbn [mbind option_bind].
  destruct (wr_is_Some b1 4 [rr_round r]) as (b2 & -> & H2); [cbn; lia|]. cbn [mbind option_bind].
  destruct (wr_is_Some b2 5 (be32_bytes (rr_responder_addr r))) as (b3 & -> & H3); [cbn; lia|]. cbn [mbind option_bind].
  destruct (wr_is_Some b3 9 (rr_sig r)) as (b4 & -> & H4); [lia|]. cbn [mbind option_bind].
  eexists _, _. split; [done|lia].
Qed.
Lemma keeps_announce src idx data : keeps (mesh_rollcall_handle_announce src idx data).
Proof.
  intros s. unfold mesh_rollcall_handle_announce. destruct (announce_decode_total data) as [ann E].
  eapply keeps_lift; [exact E|]. destruct ann as [ann|]; [|apply keeps_ret]. revert s.
  apply keeps_with_runtime; [apply keeps_ret|]. intros rc s _. apply keeps_now.
  destruct (rollcall_seen_contains _ _ _); [apply keeps_ret|]. destruct (find_index _ _) as [slot|].
  2: { apply keeps_bind; [by apply keeps_set_member|intros; apply keeps_ret]. }
  destruct (rollcall_answer_budget_allow _ _); cbn [negb].
  2: { apply keeps_bind; [by apply keeps_set_member|intros; apply keeps_ret]. }
  destruct (rollcall_seen_claim _ _ _ _) as [claimed seen]. destruct claimed; cbn [negb]; [|apply keeps_ret].
  apply keeps_bind; [apply keeps_rx_random|]. intros rand s1. apply keeps_get. cbn zeta.
  apply keeps_bind; [by apply keeps_set_member|]. intros _. apply keeps_bind; [apply keeps_notify|]. intros. apply keeps_ret.
Qed.
Lemma keeps_abandon i p : keeps (rollcall_abandon_pending i p).
Proof. by apply keeps_set_member. Qed.
Lemma keeps_pending i p : keeps (rollcall_send_pending hmac crypto_ed25519_sign i p).
Proof.
  intros s Hi. pose proof Hi as (_ & Hc & _). revert Hi.
  change (keeps_at (rollcall_send_pending hmac crypto_ed25519_sign i p) s). unfold rollcall_send_pending.
  apply keeps_get. cbn zeta. eapply keeps_lift; [apply signed_msg_spec|]. cbv beta iota.
  change (ROLLCALL_MSG_SIZE =? 0)%nat with false. cbv iota.
  destruct (crypto_ed25519_sign _ _) as [sig|] eqn:Es; [|apply keeps_abandon]. apply Hsign in Es.
  destruct (response_encode_total (mk_response (rp_rollcall_id p) (rp_round p) (id_address (nd_id (mt_node s))) sig) Es)
    as (n & out & E & Hn).
  eapply keeps_lift; [exact E|]. cbv beta iota. destruct (n =? 0)%nat; [apply keeps_abandon|].
  set (idx := if _ || _ then 0 else rp_channel_idx p).
  assert (Hidx : (Z.to_nat idx < length (nd_channels (mt_node s)))%nat).
  { unfold idx, num_channels in *. split_if; conds; lia. }
  destruct (lookup_lt_is_Some_2 _ _ Hidx) as [ch Hch]. eapply keeps_lift; [exact Hch|].
  eapply keeps_lift; [apply rdn_some; lia|]. apply keeps_bind; [apply keeps_send|]. intros pkt.
  destruct (pkt =? 0); [apply keeps_abandon|]. intros s1. apply keeps_now. by apply keeps_set_member.
Qed.
Lemma keeps_response src data : (src, data) ∈ heard → keeps (mesh_rollcall_handle_response src data).
Proof.
  intros Hin s Hi. pose proof Hi as (_ & _ & Hpins & Hrc). revert Hi.
  change (keeps_at (mesh_rollcall_handle_response src data) s). unfold mesh_rollcall_handle_response. apply keeps_get.
  destruct (mesh_rollcall_ledger s) as [l|] eqn:El; [|apply keeps_ret].
  destruct (response_decode_total data) as [resp Er]. eapply keeps_lift; [exact Er|].
  destruct resp as [resp|]; [|apply keeps_ret].
  assert (Hun : keeps rollcall_unattested) by (by apply (keeps_step (λ _, LUnattested))).
  destruct (rr_rollcall_id resp =? lg_rollcall_id l) eqn:Eid; cbn [negb]; [|apply keeps_ret].
  destruct (rr_responder_addr resp =? src) eqn:Ea; cbn [negb]; [|apply Hun].
  destruct (identity_store_lookup _ _) as [pin|] eqn:Ep; [|apply Hun].
  eapply keeps_lift; [apply signed_msg_spec|]. cbv beta iota.
  destruct (crypto_ed25519_verify _ _ _) eqn:Ev; cbn [negb]; [|apply Hun]. conds. apply keeps_now.
  unfold mesh_rollcall_ledger in El. destruct (mt_rollcall s) as [rc|] eqn:Erc; [|done]. cbn [mbind option_bind] in El.
  destruct (lg_active (rc_ledger rc)); cbn [negb] in El; [|done]. injection El as <-.
  assert (Hat : attested (rc_ledger rc) (rr_responder_addr resp)).
  { exists data, resp, pin. rewrite Ea at 1. rewrite Hpins in Ep. by rewrite <- Eid. }
  set (now := v_now _).
  pose proof (step_ok (rc_ledger rc) (LAnswer (rr_rollcall_id resp) (rr_responder_addr resp) (rr_round resp) now)
    (Hrc rc eq_refl)) as Hok. cbn [ledger_step] in Hok.
  destruct (rollcall_ledger_note_response _ _ _ _ _) as [ok l']. cbn [snd] in Hok.
  apply keeps_bind_at.
  - apply keeps_set. intros rc' _ _. apply Hok. intros a round now' [= _ <- _ _]. exact Hat.
  - intros _ s1. apply keeps_when. intros _. apply keeps_notify.
Qed.
Lemma keeps_receipt a id hops path :
  (Z.to_nat hops ≤ length path)%nat → keeps (mesh_rollcall_note_receipt a id hops path).
Proof.
  intros Hl s Hi. pose proof Hi as (_ & _ & _ & Hrc). revert Hi.
  change (keeps_at (mesh_rollcall_note_receipt a id hops path) s). unfold mesh_rollcall_note_receipt. apply keeps_get.
  unfold mesh_rollcall_ledger. destruct (mt_rollcall s) as [rc|] eqn:Erc; [|apply keeps_ret]. cbn [mbind option_bind].
  destruct (lg_active (rc_ledger rc)); cbn [negb]; [|apply keeps_ret].
  destruct (lg_open (rc_ledger rc)); cbn [negb]; [|apply keeps_ret]. destruct (existsb _ _); cbn [negb]; [|apply keeps_ret].
  eapply keeps_lift; [apply rdn_some; lia|]. cbn zeta. apply keeps_set. intros rc' _ _.
  exact (step_ok (rc_ledger rc) (LPath _ a _ _ _) (Hrc rc eq_refl) ltac:(done)).
Qed.
Lemma keeps_tick t : keeps (mesh_rollcall_tick hmac crypto_ed25519_sign t).
Proof.
  intros s. unfold mesh_rollcall_tick. apply keeps_get. destruct (mt_rollcall s) as [?|]; [|apply keeps_ret].
  revert s. apply keeps_bind.
  { apply keeps_for. intros i _ s. apply keeps_get. destruct (mt_rollcall s) as [rc|]; [|apply keeps_ret].
    apply keeps_when. intros _. apply keeps_pending. }
  intros _ s. apply keeps_get. destruct (mesh_rollcall_ledger s) as [l|]; [|apply keeps_ret].
  apply keeps_bind_at.
  { apply keeps_when. intros _. apply keeps_bind; [apply keeps_round|]. intros _.
    apply (keeps_step (λ _, LRound (u8 (lg_rounds_sent l + 1)) t)). done. }
  intros _ s1 Hi. pose proof Hi as (_ & _ & _ & Hrc). revert Hi. apply keeps_get.
  destruct (mt_rollcall s1) as [rc|] eqn:Erc; [|apply keeps_ret].
  pose proof (step_ok (rc_ledger rc) (LClose t) (Hrc rc eq_refl) ltac:(done)) as Hok. cbn [ledger_step] in Hok.
  destruct (rollcall_ledger_maybe_close _ _) as [closed l']. cbn [snd] in Hok.
  apply keeps_bind_at; [by apply keeps_set|]. intros _ s2. apply keeps_when. intros _. apply keeps_notify.
Qed.
End Attested.

(** ** Histories *)

Inductive rc_op :=
  | RcStart (text : list Z)
  | RcAnnounce (src channel_idx : Z) (data : list Z)
  | RcResponse (src : Z) (data : list Z)
  | RcReceipt (responder orig_packet_id hop_count : Z) (relay_path : list Z)
  | RcTick (t : Z)
  | RcClock (now : Z).
Definition rc_op_ok (op : rc_op) : Prop :=
  match op with RcReceipt _ _ hops path => (Z.to_nat hops ≤ length path)%nat | _ => True end.
Definition responses (ops : list rc_op) : list (Z * list Z) :=
  ops ≫= λ op, match op with RcResponse src data => [(src, data)] | _ => [] end.

Section History.
Context `{DC : DmCrypto} `{DL : !DmCryptoLaws} `{IC : IdCrypto} (hmac : list Z → list Z → list Z)
  `{HL : !HmacLaws hmac}.
Context (crypto_ed25519_sign : list Z → list Z → option (list Z)).

Definition run_rc (op : rc_op) : T unit :=
  match op with
  | RcStart text => mesh_rollcall_start hmac text ;; mret tt
  | RcAnnounce src idx data => mesh_rollcall_handle_announce src idx data ;; mret tt
  | RcResponse src data => mesh_rollcall_handle_response src data
  | RcReceipt a id hops path => mesh_rollcall_note_receipt a id hops path
  | RcTick t => mesh_rollcall_tick hmac crypto_ed25519_sign t
  | RcClock now => on_nd (modify (λ n, set_env n (with_now (nd_env n) now)))
  end.
Lemma keeps_op pins heard op :
  (∀ sk msg sig, crypto_ed25519_sign sk msg = Some sig → length sig = ROLLCALL_SIG_SIZE) →
  rc_op_ok op → (∀ src data, op = RcResponse src data → (src, data) ∈ heard) → keeps pins heard (run_rc op).
Proof.
  intros Hsign Hok Hh. destruct op as [text|src idx data|src data|a id hops path|t|now]; cbn [run_rc rc_op_ok] in *.
  - apply keeps_bind; [by apply keeps_start|]. intros. apply keeps_ret.
  - apply keeps_bind; [by apply keeps_announce|]. intros. apply keeps_ret.
  - by apply keeps_response, Hh.
  - by apply keeps_receipt.
  - by apply keeps_tick.
  - intros s ([Hn Hq] & Hrest). apply swp_nd, wp_modify. split; [|exact Hrest]. split; [|exact Hq].
    destruct Hn as (? & ? & ? & ? & ? & ? & ? & ? & ?). unfold node_ok. fields.
Qed.

(** C26. Nobody answers a roll-call for somebody else.  A node that has taken part in
    none runs through any history of roll-calls it starts, announcements, responses
    and receipts it hears, ticks and clock changes: every step returns, and whenever
    its ledger holds a member as having answered, one of the responses heard came
    from that member's address, named it and the ledger's roll-call, and carried a
    signature of exactly this roll-call, this initiator and this member that
    verifies under the key pinned for the member. *)
Theorem answers_attested (s : mt) (ops : list rc_op) :
  (∀ sk msg sig, crypto_ed25519_sign sk msg = Some sig → length sig = ROLLCALL_SIG_SIZE) →
  mt_inv s → 0 < num_channels s → mt_rollcall s = None → Forall rc_op_ok ops →
  swp (sfor ops run_rc) s (λ _ s', ∀ l a,
    mesh_rollcall_ledger s' = Some l → answered l a = true →
    ∃ data resp pin, (a, data) ∈ responses ops ∧
      rollcall_response_decode data (length data) = Some (Some resp) ∧
      rr_rollcall_id resp = lg_rollcall_id l ∧ rr_responder_addr resp = a ∧
      identity_store_lookup (nd_pins (mt_node s)) a = Some pin ∧
      crypto_ed25519_verify (pin_ed25519_pub pin) (signed_bytes (lg_rollcall_id l) (lg_initiator_addr l) a)
        (rr_sig resp) = true).
Proof.
  intros Hsign Hs Hc Hn Hops. rewrite list.Forall_forall in Hops. set (pins := nd_pins (mt_node s)).
  assert (H0 : rc_inv pins (responses ops) s).
  { split; [done|]. split; [done|]. split; [done|]. intros rc Hrc. congruence. }
  eapply swp_mono.
  { apply (keeps_for pins (responses ops)); [|exact H0]. intros op Hop. apply keeps_op; [done|by apply Hops|].
    intros src data ->. unfold responses. apply list_elem_of_bind. exists (RcResponse src data). split; [left|done]. }
  cbv beta. intros [] s' (_ & _ & _ & Hrc) l a Hl Ha. unfold mesh_rollcall_ledger in Hl.
  destruct (mt_rollcall s') as [rc|]; [|done]. cbn [mbind option_bind] in Hl.
  destruct (lg_active (rc_ledger rc)) eqn:Eact; cbn [negb] in Hl; [|done]. injection Hl as <-.
  destruct (Hrc rc eq_refl) as (_ & _ & Hok & Hat). apply Hat. by apply answered_iff.
Qed.
End History.

(** ** An example *)

#[local] Existing Instance toy_crypto.

(** Signatures padded to their size. *)
Definition padded_sign (pub msg : list Z) : list Z := take 64 (toy_sign pub msg ++ replicate 64 0).
Definition padded_crypto : IdCrypto :=
  {| crypto_sha256 m := take 32 (m ++ replicate 32 0);
     crypto_ed25519_verify pub msg sig := bool_decide (sig = padded_sign pub msg) |}.
#[local] Existing Instance padded_crypto.
Definition sign_padded (sk msg : list Z) : option (list Z) := Some (padded_sign sk msg).
Definition peer_key : list Z := [0; 0; 0; 60] ++ replicate 28 7.
(** [MeshSendSpec.apart] with the key of 60 pinned and memory for the block. *)
Definition roller : mt :=
  let s := mset_node apart (set_pins (mt_node apart)
             (identity_store_pin (identity_store_init 0) 60 peer_key (replicate 32 5) 1000).2) in
  mset_rx s (rset_draws (mt_rx s) (mk_draws [] [] 0 [] [true])).
(** 60 answers roll-call 1000 of 50; 61 copies the answer. *)
Definition roll_answer : list Z :=
  match rollcall_response_encode (mk_response 1000 1 60 (padded_sign peer_key (signed_bytes 1000 50 60)))
      (replicate ROLLCALL_RESPONSE_SIZE 0) ROLLCALL_RESPONSE_SIZE with
  | Some (_, out) => out
  | None => []
  end.
Definition roll_history : list rc_op :=
  [RcStart [82; 67]; RcResponse 61 roll_answer; RcResponse 60 roll_answer; RcTick 200000].
Lemma padded_length sk msg sig : sign_padded sk msg = Some sig → length sig = ROLLCALL_SIG_SIZE.
Proof.
  unfold sign_padded. intros E. assert (padded_sign sk msg = sig) as <- by congruence.
  unfold padded_sign, ROLLCALL_SIG_SIZE. rewrite length_take, length_app, length_replicate. lia.
Qed.
Lemma roller_inv : mt_inv roller.
Proof.
  destruct apart_inv as [Hn Hq]. split; [|exact Hq].
  destruct Hn as (? & ? & ? & ? & ? & ? & ? & ? & ?). unfold node_ok. fields.
Qed.
Lemma roll_run :
  match sfor roll_history (run_rc toy_hmac sign_padded) roller with
  | Some (_, s) => mt_out s = [MOnRollCallResponse 1000 60 1 1 0; MOnRollCallComplete 1000 1 0 false 2 1]
  | None => False
  end.
Proof. vm_compute. reflexivity. Qed.
Lemma answers_attested_witness :
  swp (sfor roll_history (run_rc toy_hmac sign_padded)) roller (λ _ s', ∀ l a,
    mesh_rollcall_ledger s' = Some l → answered l a = true → (a, roll_answer) ∈ responses roll_history).
Proof.
  eapply swp_mono.
  - apply (answers_attested toy_hmac sign_padded roller roll_history padded_length roller_inv).
    + vm_compute. reflexivity.
    + reflexivity.
    + unfold roll_history. repeat apply List.Forall_cons; try exact I. apply List.Forall_nil.
  - intros [] s' H l a Hl Ha. destruct (H l a Hl Ha) as (data & _ & _ & Hin & _).
    change (responses roll_history) with [(61, roll_answer); (60, roll_answer)] in *.
    assert (E : Forall (λ p : Z * list Z, p.2 = roll_answer) [(61, roll_answer); (60, roll_answer)]) by (by repeat constructor).
    rewrite list.Forall_forall in E. specialize (E (a, data) Hin). cbn [snd] in E. rewrite E in Hin. exact Hin.
Defined.
