(* ===== verification/MeshLocation.v ===== *)
(** * Sharing positions on the mesh ([main/mesh_location.c], the restore of
      [main/mesh_persist.c])

    The policy tick with its two phases (collecting the targets from flash,
    transmitting to those that are due), the two ways a position leaves the node,
    and the reception of a peer's.  Whether the flash store opens is drawn, as in
    [MeshBeacon]. *)

From stdpp Require Import base strings numbers sets option decidable list.
From S2P Require Import Prelude Tables Packet ReplayWindow NonceCounter TxGate Routing NetworkKey RoutingAuth ChannelFlood.
From S2P Require Import MeshRouting DmCrypto DmRatchet DmTable Identity Channel MeshDm MeshRx ParkedRetry Location.
From S2P Require Import MeshState MeshSend MeshBeacon.

Definition LOCATION_POLICY_TICK_MS : Z := 5000.
Definition LOCATION_SHARE_STATE_CACHE_MS : Z := 10000.
Definition APP_TYPE_LOCATION : Z := 3.

(** ** State *)

Section LocSetters.
Context (l : loc_state).
Definition lset_mgr x := mk_loc x (lo_schedule l) (lo_hs l) (lo_last_policy_tick_ms l) (lo_last_send_ms l)
  (lo_boot l) (lo_flash l) (lo_gps l).
Definition lset_schedule x := mk_loc (lo_mgr l) x (lo_hs l) (lo_last_policy_tick_ms l)
  (lo_last_send_ms l) (lo_boot l) (lo_flash l) (lo_gps l).
Definition lset_hs x := mk_loc (lo_mgr l) (lo_schedule l) x (lo_last_policy_tick_ms l)
  (lo_last_send_ms l) (lo_boot l) (lo_flash l) (lo_gps l).
Definition lset_tick x := mk_loc (lo_mgr l) (lo_schedule l) (lo_hs l) x (lo_last_send_ms l)
  (lo_boot l) (lo_flash l) (lo_gps l).
Definition lset_send x := mk_loc (lo_mgr l) (lo_schedule l) (lo_hs l) (lo_last_policy_tick_ms l) x
  (lo_boot l) (lo_flash l) (lo_gps l).
Definition lset_store b ns := mk_loc (lo_mgr l) (lo_schedule l) (lo_hs l) (lo_last_policy_tick_ms l)
  (lo_last_send_ms l) b ns (lo_gps l).
End LocSetters.
Definition set_loc (f : loc_state → loc_state) : T unit := smodify (λ s, mset_loc s (f (mt_loc s))).
Definition loc {A} (f : loc_state → A) : T A := sgets (λ s, f (mt_loc s)).

(** ** Policy and targets *)

Definition location_policy_load_or_defaults (ns : nvs_ns) : location_policy_t :=
  let p := location_policy_set_defaults in
  location_policy_normalize
    (mk_lpolicy
       (match nvs_get_u8 ns (str_bytes "enabled") with Some e => negb (e =? 0) | None => lpo_enabled p end)
       (match nvs_get_str ns (str_bytes "def_tier") 16 with
        | Some tier => location_tier_from_string tier
        | None => lpo_default_tier p
        end)
       (default (lpo_interval_s p) (nvs_get_u16 ns (str_bytes "interval_s")))).

(** A rule of a channel that may not carry positions. *)
Definition dead_rule (key : list Z) : bool :=
  match after_prefix LOCATION_CHANNEL_RULE_PREFIX key with
  | Some suffix =>
      let idx := location_channel_index_from_suffix suffix in
      (idx >=? 0) && negb (location_channel_target_is_permitted idx)
  | None => false
  end.
Definition dead_keys (ns : nvs_ns) : list (list Z) :=
  take LOCATION_MAX_CHANNEL_TARGETS
    (map (λ e, snprintf LOCATION_TARGET_KEY_SIZE e.1) (List.filter (λ e, dead_rule e.1) ns)).
Definition location_purge_dead_channel_rules (ns : nvs_ns) (keys : list (list Z)) (opened : bool) : nvs_ns :=
  if opened then foldl nvs_erase ns keys else ns.

Definition same_target (a b : location_target_t) : bool :=
  (tg_kind a =? tg_kind b) && (tg_id a =? tg_id b).
Definition collect_target (ns : nvs_ns) (out : list location_target_t) (key : list Z)
    : list location_target_t :=
  match nvs_get_str ns key 64 with
  | None => out
  | Some raw =>
      match location_target_from_entry key raw with
      | None => out
      | Some target =>
          if existsb (λ t, same_target t target) out then out
          else if (length out <? LOCATION_MAX_TARGETS)%nat then out ++ [target]
          else out
      end
  end.
(** The targets of the entries in the namespace. *)
Definition targets_of (ns : nvs_ns) : list location_target_t :=
  foldl (λ out e, collect_target ns out e.1) [] ns.
Definition location_collect_targets : T (list location_target_t) :=
  opened ← draw_nvs;
  if negb opened then mret [] else
  ns ← loc lo_flash;
  (match dead_keys ns with
   | [] => mret tt
   | keys =>
       writable ← draw_nvs;
       set_loc (λ l, lset_store l (lo_boot l) (location_purge_dead_channel_rules ns keys writable))
   end) ;;
  mret (targets_of ns).

(** ** Transmission *)

(** [None]: the tier could not be encoded. *)
Definition location_build_inner (pos : bramble_position_t) (tier : Z) : option (option (list Z)) :=
  inner ← wr (replicate L_LOC_INNER 0) LOCATION_INNER_TIER_OFFSET [tier];
  '(n, body) ← location_serialize_for_tier pos tier (drop 1 inner) LOCATION_FULL_SIZE;
  Some (if n >? 0 then Some (take 1 inner ++ body) else None).

Definition location_header (flags dest_addr pkt_id : Z) : bramble_header_t :=
  mk_header BRAMBLE_VERSION PKT_TYPE_LOCATION flags 3 dest_addr pkt_id.

Section Share.
Context `{DC : DmCrypto} `{IC : IdCrypto} (hmac : list Z → list Z → list Z).

(** Signing, framing and the radio: the packet id, zero when nothing went out. *)
Definition location_transmit (n : node) (header : bramble_header_t) (nonce ct tag : list Z) : M Z :=
  let src := id_address (nd_id n) in
  let '(rc, mac) := data_auth_sign hmac (nd_key n) header src in
  if negb (rc =? 0) then mret 0 else
  frame ← lift (data_frame BRAMBLE_MAX_PACKET_SIZE header src mac nonce ct tag);
  ok ← mesh_tx frame TX_KIND_DATA;
  mret (if (ok : bool) then h_packet_id header else 0).

(** The packet id and whether there was no session. *)
Definition location_tx_directed (dest_addr : Z) (inner : list Z) : M (Z * bool) :=
  pkt_id ← next_packet_id;
  n ← get;
  let header := location_header FLAG_ENCRYPT dest_addr pkt_id in
  let session_inner := inner ++ replicate CHANNEL_MSG_OVERHEAD 0 in
  match dm_lookup (nd_table n) dest_addr with
  | None => mret (0, true)
  | Some i =>
      if negb (dm_in_state DM_STATE_ACTIVE (nd_table n !!! i)) then mret (0, true)
      else
        nonce ← nonce_next;
        match nonce with
        | None => mret (0, false)
        | Some nonce =>
            match dm_session_ratchet_encrypt (nd_table n !!! i) header (id_address (nd_id n)) session_inner
                    nonce with
            | (None, sess) => set_session i sess ;; mret (0, false)
            | (Some (framed, tag), sess) =>
                ciphertext ← lift (in_buf (DM_RATCHET_HEADER_SIZE + (L_LOC_INNER + CHANNEL_MSG_OVERHEAD))
                                     framed);
                now ← now_ms;
                set_session i (stamp_active now (ss_state sess) sess) ;;
                pkt ← location_transmit n header nonce ciphertext tag;
                mret (pkt, false)
            end
        end
  end.

Definition location_tx_channel (channel_idx : Z) (inner : list Z) : M Z :=
  n ← get;
  if (channel_idx <? 0) || (channel_idx >=? Z.of_nat (length (nd_channels n))) then mret 0
  else if negb (location_channel_target_is_permitted channel_idx) then mret 0
  else
    pkt_id ← next_packet_id;
    n ← get;
    let header := location_header (Z.lor FLAG_ENCRYPT FLAG_CHANNEL) UINT32_MAX pkt_id in
    let src := id_address (nd_id n) in
    '(_, aad) ← lift (bramble_build_aead_aad header src (replicate (HEADER_SIZE + 4) 0) (HEADER_SIZE + 4));
    nonce ← nonce_next;
    match nonce with
    | None => mret 0
    | Some nonce =>
        match channel_msg_encrypt (nd_channels n !!! Z.to_nat channel_idx) src APP_TYPE_LOCATION 0 inner aad
                nonce with
        | None => mret 0
        | Some (ct, tag) =>
            ciphertext ← lift (in_buf (CHANNEL_MSG_OVERHEAD + L_LOC_INNER) ct);
            location_transmit n header nonce ciphertext tag
        end
    end.

Definition mesh_send_location_packet (dest_addr : Z) (pos : bramble_position_t) (tier : Z) : T Z :=
  if negb (po_valid pos) then mret 0 else
  let tier := if tier >? LOCATION_TIER_PRESENCE then LOCATION_TIER_COARSE else tier in
  inner ← slift (location_build_inner pos tier);
  match inner with
  | None => mret 0
  | Some inner =>
      if negb (dest_addr =? UINT32_MAX)
      then '(pkt, _) ← on_nd (location_tx_directed dest_addr inner); mret pkt
      else
        s ← sget;
        on_nd (location_tx_channel (nd_default_channel_idx (mt_node s)) inner)
  end.

Definition mesh_emit_location_event (event : string) (peer_addr tier timestamp_ms rssi snr count : Z)
    : T unit := notify (MOnLocationEvent event peer_addr tier timestamp_ms rssi snr count).

(** Whether a handshake was queued. *)
Definition location_request_dm_session (peer t : Z) : T bool :=
  s ← sget;
  let n := mt_node s in
  let me := id_address (nd_id n) in
  if (peer =? 0) || (peer =? me) then mret false else
  let busy := match dm_lookup (nd_table n) peer with
              | Some i => dm_in_state DM_STATE_HANDSHAKING (nd_table n !!! i) ||
                          dm_in_state DM_STATE_ACTIVE (nd_table n !!! i)
              | None => false
              end in
  if busy then mret false else
  let reachable := bool_decide (is_Some (neighbor_lookup (nd_neighbors n) peer)) in
  let '(attempt, table) := location_hs_should_attempt (lo_hs (mt_loc s)) peer reachable (me >? peer) t in
  set_loc (λ l, lset_hs l table) ;;
  if negb attempt then mret false
  else on_nd (work_send (WkInitiate peer (nd_default_channel_idx n) 0)).

(** One target that is due; the shares sent and whether a handshake was started. *)
Definition share_target (t : Z) (pos : bramble_position_t) (target : location_target_t)
    (acc : Z * bool) : T (Z * bool) :=
  let '(sent_count, handshake_started) := acc in
  inner ← slift (location_build_inner pos (tg_tier target));
  '(pkt, needs_session) ←
    match inner with
    | None => mret (0, false)
    | Some inner =>
        if tg_kind target =? LOCATION_TARGET_CHANNEL
        then pkt ← on_nd (location_tx_channel (tg_id target) inner); mret (pkt, false)
        else on_nd (location_tx_directed (tg_id target) inner)
    end;
  let sent := negb (pkt =? 0) in
  started ←
    (if tg_kind target =? LOCATION_TARGET_CONTACT then
       if (needs_session : bool) then
         if negb handshake_started then location_request_dm_session (tg_id target) t else mret false
       else set_loc (λ l, lset_hs l (location_hs_clear (lo_hs l) (tg_id target))) ;; mret false
     else mret false);
  set_loc (λ l, lset_schedule l (location_schedule_record (lo_schedule l) target t sent)) ;;
  mret (if sent then u32 (sent_count + 1) else sent_count, handshake_started || started).
Fixpoint share_loop (t : Z) (pos : bramble_position_t) (targets : list location_target_t)
    (acc : Z * bool) : T (Z * bool) :=
  match targets with
  | [] => mret acc
  | target :: rest =>
      s ← sget;
      acc ← (if negb (location_schedule_is_due (lo_schedule (mt_loc s)) target t) then mret acc
             else share_target t pos target acc);
      share_loop t pos rest acc
  end.
Definition mesh_send_location_updates (t : Z) (policy : location_policy_t)
    (source_pos : bramble_position_t) (targets : list location_target_t) : T unit :=
  let p := source_pos in
  let pos := mk_pos (po_latitude_e7 p) (po_longitude_e7 p) (po_altitude_m p) (po_accuracy_m p)
               (po_speed_kmh p) (po_heading_deg2 p) (t / 1000) true in
  '(sent_count, _) ← share_loop t pos targets (0, false);
  swhen (sent_count >? 0)
    (set_loc (λ l, lset_send l t) ;;
     mesh_emit_location_event "sent" 0 (lpo_default_tier policy) t 0 0 sent_count).

(** The receiver's fix, else the coordinates set by hand. *)
Definition manual_position (ns : nvs_ns) : option bramble_position_t :=
  match nvs_get_i32 ns (str_bytes "lat_e6"), nvs_get_i32 ns (str_bytes "lon_e6") with
  | Some lat_e6, Some lon_e6 =>
      if (lat_e6 =? 0) && (lon_e6 =? 0) then None
      else Some (mk_pos (lat_e6 * 10) (lon_e6 * 10) 0 0 0 0 0 true)
  | _, _ => None
  end.
Definition mesh_resolve_self_position : T (option bramble_position_t) :=
  gps ← loc lo_gps;
  match gps with
  | Some p => if po_valid p then mret (Some p)
              else opened ← draw_nvs; ns ← loc lo_flash; mret (if (opened : bool) then manual_position ns else None)
  | None => opened ← draw_nvs; ns ← loc lo_flash; mret (if (opened : bool) then manual_position ns else None)
  end.

Definition mesh_location_policy_tick (t : Z) : T unit :=
  last ← loc lo_last_policy_tick_ms;
  if (t ⊖ last) <? LOCATION_POLICY_TICK_MS then mret tt else
  set_loc (λ l, lset_tick l t) ;;
  opened ← draw_nvs;
  if negb opened then mret tt else
  ns ← loc lo_flash;
  let policy := location_policy_load_or_defaults ns in
  if negb (lpo_enabled policy) then mret tt else
  source_pos ← mesh_resolve_self_position;
  targets ← location_collect_targets;
  set_loc (λ l, lset_schedule l (location_schedule_retain (lo_schedule l) targets)) ;;
  if negb (location_share_round_enabled policy (bool_decide (is_Some source_pos)) (length targets))
  then mret tt
  else mesh_send_location_updates t policy (default pos_zero source_pos) targets.

(** ** Reception *)

(** The position and its tier, with the index of the channel. *)
Definition location_rx_decode_channel (nonce ct tag aad : list Z)
    : Rx (option (Z * bramble_position_t * nat)) :=
  info ← decrypt_channel nonce ct tag aad;
  match info with
  | None => mret None
  | Some info =>
      r ← rlift (location_parse_inner (in_data info) (length (in_data info)) pos_zero);
      mret ((λ '(tier, pos), (tier, pos, in_channel_index info)) <$> r)
  end.
Definition location_rx_decode_session (header : bramble_header_t) (src_addr : Z) (nonce ct tag : list Z)
    : Rx (option (Z * bramble_position_t * nat)) :=
  now ← rnow;
  r ← rget;
  let n := rx_node r in
  let size := (L_LOC_INNER + CHANNEL_MSG_OVERHEAD)%nat in
  match dm_lookup (nd_table n) src_addr with
  | None => mret None
  | Some i =>
      if negb (dm_in_state DM_STATE_ACTIVE (nd_table n !!! i)) then mret None
      else if negb (length ct =? DM_RATCHET_HEADER_SIZE + size)%nat then mret None
      else
        let '(drc, pt, sess) := dm_session_ratchet_decrypt (nd_table n !!! i) header src_addr nonce ct tag in
        let plaintext := default [] pt in
        if (drc =? DM_DECRYPT_OK) && (length plaintext =? size)%nat then
          on_node (set_session i (stamp_active now (ss_state sess) sess)) ;;
          r ← rlift (location_parse_inner plaintext size pos_zero);
          mret ((λ '(tier, pos), (tier, pos, 0%nat)) <$> r)
        else on_node (set_session i sess) ;; mret None
  end.

(** From the decoded position on: the replay window, the cache, the record in flash. *)
Definition note_share (nonce : list Z) (src_addr tier : Z) (pos : bramble_position_t) (trusted : bool)
    (rssi snr : Z) : T unit :=
  t ← tnow;
  s ← sget;
  let '(rp, table) := replay_check_and_add (rx_replay (mt_rx s)) src_addr (nonce_counter_extract nonce) t in
  swhen trusted (on_rx (rmodify (λ r, rset_replay r table))) ;;
  if trusted && negb (rp =? REPLAY_ACCEPT) then mret tt else
  set_loc (λ l, lset_mgr l (location_cache_apply_share (lo_mgr l) src_addr tier pos t)) ;;
  opened ← draw_nvs;
  written ← (if (opened : bool) then draw_nvs else mret false);
  set_loc (λ l, lset_store l (lo_boot l)
    (location_store_save_peer (lo_boot l) (lo_flash l) opened written src_addr pos tier t)) ;;
  notify MOnPeerLocation ;;
  mesh_emit_location_event "received" src_addr tier t rssi snr 0.

Definition handle_location (data : list Z) (len : nat) (rssi snr : Z) : T unit :=
  if (len <? BRAMBLE_DATA_ENVELOPE_PREFIX_SIZE + BRAMBLE_NONCE_SIZE + BRAMBLE_TAG_SIZE + 1)%nat then mret tt
  else
    src_addr ← slift (get_le32 data BRAMBLE_DATA_SRC_ADDR_OFFSET);
    s ← sget;
    if src_addr =? id_address (nd_id (mt_node s)) then mret tt else
    '(e, header) ← slift (bramble_header_deserialize header_zero data len);
    match e with
    | ESP_OK =>
        mac ← slift (rdn data BRAMBLE_DATA_AUTH_HMAC_OFFSET 8);
        ok ← slift (data_auth_verify hmac (nd_key (mt_node s)) header src_addr mac);
        if negb ok then mret tt else
        let ct_len := (len - BRAMBLE_DATA_ENVELOPE_PREFIX_SIZE - BRAMBLE_NONCE_SIZE - BRAMBLE_TAG_SIZE)%nat in
        nonce ← slift (rdn data BRAMBLE_DATA_NONCE_OFFSET BRAMBLE_NONCE_SIZE);
        ct ← slift (rdn data (BRAMBLE_DATA_NONCE_OFFSET + BRAMBLE_NONCE_SIZE) ct_len);
        tag ← slift (rdn data (BRAMBLE_DATA_NONCE_OFFSET + BRAMBLE_NONCE_SIZE + ct_len) BRAMBLE_TAG_SIZE);
        if (BRAMBLE_MAX_PACKET_SIZE <? ct_len)%nat then mret tt else
        '(_, aad) ← slift (bramble_build_aead_aad header src_addr (replicate (HEADER_SIZE + 4) 0)
                             (HEADER_SIZE + 4));
        let is_channel_message := negb (Z.land (h_flags header) FLAG_CHANNEL =? 0) in
        decoded ← on_rx (if is_channel_message then location_rx_decode_channel nonce ct tag aad
                         else location_rx_decode_session header src_addr nonce ct tag);
        match decoded with
        | None => mret tt
        | Some (tier, pos, channel_index) =>
            note_share nonce src_addr tier pos (channel_source_is_replay_trustworthy is_channel_message channel_index)
              rssi snr
        end
    | _ => mret tt
    end.
End Share.

(** ** What others read *)

Definition mesh_get_location_state : T location_manager_t :=
  mgr ← loc lo_mgr;
  self ← mesh_resolve_self_position;
  mret (mk_lmgr (default (let p := lm_my_position mgr in
                          mk_pos (po_latitude_e7 p) (po_longitude_e7 p) (po_altitude_m p) (po_accuracy_m p)
                            (po_speed_kmh p) (po_heading_deg2 p) (po_timestamp p) false) self)
          (lm_cache mgr)).

Record mesh_location_share_state_t := mk_share_state {
  sh_sharing_active : bool; sh_interval_s : Z; sh_last_send_ms : Z }.
(** [cache]: when the answer was computed and its cached part. *)
Definition mesh_location_get_share_state (cache : option (Z * bool * Z))
    : T (mesh_location_share_state_t * option (Z * bool * Z)) :=
  now ← tnow;
  let stale := match cache with Some (at_ms, _, _) => (now ⊖ at_ms) >=? LOCATION_SHARE_STATE_CACHE_MS
                              | None => true end in
  last_send ← loc lo_last_send_ms;
  if stale then
    opened ← draw_nvs;
    if negb opened then mret (mk_share_state false 0 last_send, cache) else
    ns ← loc lo_flash;
    let policy := location_policy_load_or_defaults ns in
    targets ← location_collect_targets;
    let active := lpo_enabled policy && (0 <? length targets)%nat in
    let min_interval_s := location_targets_min_interval_s targets in
    let interval := if min_interval_s >? 0 then min_interval_s else lpo_interval_s policy in
    mret (mk_share_state active interval last_send, Some (now, active, interval))
  else
    match cache with
    | Some (_, active, interval) => mret (mk_share_state active interval last_send, cache)
    | None => mret (mk_share_state false 0 last_send, cache)
    end.

(** Boot: bump the counter, collect, apply. *)
Definition mesh_peer_location_restore : T unit :=
  l ← loc (λ l, l);
  resolved ← loc (λ l, bo_resolved (lo_boot l));
  opened ← (if (resolved : bool) then mret true else draw_nvs);
  written ← (if (resolved : bool) || negb opened then mret true else draw_nvs);
  let '(_, boot, ns) := location_store_begin_boot (lo_boot l) (lo_flash l) opened written in
  set_loc (λ l, lset_store l boot ns) ;;
  readable ← draw_nvs;
  entries ← slift (location_store_collect boot ns readable LOCATION_MAX_CONTACTS);
  set_loc (λ l, lset_mgr l (location_store_apply (lo_mgr l) entries)).
