(* ===== verification/LocationSpec.v ===== *)
(** * What the encodings and rules of positions guarantee

    The tiers reveal what they promise and no more; positions and rules survive
    their encodings. *)

From stdpp Require Import base strings numbers sets option decidable list.
From S2P Require Import Prelude Tables NetworkKey ParkedRetry Location MeshState MeshLocation.

(** ** Encodings *)

(** The ranges of the fields of a position on the globe. *)
Definition pos_ok (p : bramble_position_t) : Prop :=
  -900000000 <= po_latitude_e7 p <= 900000000 ∧ -1800000000 <= po_longitude_e7 p <= 1800000000 ∧
  -32768 <= po_altitude_m p < 32768 ∧ is_u8 (po_accuracy_m p) ∧ is_u8 (po_speed_kmh p) ∧
  is_u8 (po_heading_deg2 p) ∧ is_u32 (po_timestamp p).
Definition cell_lat (p : bramble_position_t) : Z := (Z.quot (po_latitude_e7 p) 10000 + 90000) / 3.
Definition cell_lon (p : bramble_position_t) : Z := (Z.quot (po_longitude_e7 p) 10000 + 180000) / 6.
(** What a receiver may learn: everything, the cell and the low byte of the time, or
    that there is a position. *)
Definition same_view (tier : Z) (p q : bramble_position_t) : Prop :=
  if tier =? LOCATION_TIER_FULL then p = q
  else if tier =? LOCATION_TIER_PRESENCE then po_valid p = po_valid q
  else cell_lat p = cell_lat q ∧ cell_lon p = cell_lon q ∧ u8 (po_timestamp p) = u8 (po_timestamp q).

Lemma le16_val_arith a b : is_u8 a → is_u8 b → le16_val [a; b] = a + 256 * b.
Proof.
  intros Ha Hb. unfold le16_val. rewrite shiftl_mul by lia. rewrite Z.lor_comm.
  rewrite (lor_disjoint _ _ 8); [change (2 ^ 8) with 256; lia|lia| |exact Ha].
  apply Z.mod_mul. done.
Qed.
Lemma le16_roundtrip v : is_u16 v → le16_val (le16_bytes v) = v.
Proof.
  intros H. unfold le16_bytes. rewrite le16_val_arith by apply u8_range. rewrite shiftr_div by lia. cint.
Qed.
Lemma i16_of_le16 v : -32768 <= v < 32768 → i16 (le16_val (le16_bytes v)) = v.
Proof.
  intros H. unfold le16_bytes. rewrite le16_val_arith by apply u8_range. rewrite shiftr_div by lia.
  unfold i16. cint.
Qed.
Lemma i32_u32 v : -2147483648 <= v < 2147483648 → i32 (u32 v) = v.
Proof. intros H. unfold i32. cint. Qed.
(** Truncation towards zero stays within a unit; the offset keeps the cells
    non-negative. *)
Lemma quot_unit x : -10000 < x - 10000 * Z.quot x 10000 < 10000.
Proof. pose proof (Z.quot_rem' x 10000). pose proof (Z.rem_bound_abs x 10000). lia. Qed.
Lemma quot_range x k : -(10000 * k) <= x <= 10000 * k → -k <= Z.quot x 10000 <= k.
Proof. intros H. pose proof (quot_unit x). destruct (Z.quot_rem' x 10000). Z.to_euclidean_division_equations. lia. Qed.
Lemma cell_lat_enc p : pos_ok p →
  u16 (Z.quot (Z.quot (po_latitude_e7 p) 10000 + 90000) 3) = cell_lat p ∧ 0 <= cell_lat p <= 60000.
Proof.
  intros (H & _). unfold cell_lat. pose proof (quot_range (po_latitude_e7 p) 90000).
  rewrite Z.quot_div_nonneg by lia. unfold u16.
  assert (0 <= (Z.quot (po_latitude_e7 p) 10000 + 90000) / 3 <= 60000) by (Z.to_euclidean_division_equations; lia).
  rewrite Z.mod_small; lia.
Qed.
Lemma cell_lon_enc p : pos_ok p →
  u16 (Z.quot (Z.quot (po_longitude_e7 p) 10000 + 180000) 6) = cell_lon p ∧ 0 <= cell_lon p <= 60000.
Proof.
  intros (_ & H & _). unfold cell_lon. pose proof (quot_range (po_longitude_e7 p) 180000).
  rewrite Z.quot_div_nonneg by lia. unfold u16.
  assert (0 <= (Z.quot (po_longitude_e7 p) 10000 + 180000) / 6 <= 60000) by (Z.to_euclidean_division_equations; lia).
  rewrite Z.mod_small; lia.
Qed.

Definition full_bytes (p : bramble_position_t) : list Z :=
  le32_bytes (u32 (po_latitude_e7 p)) ++ le32_bytes (u32 (po_longitude_e7 p)) ++
  le16_bytes (po_altitude_m p) ++ [po_accuracy_m p; po_speed_kmh p; po_heading_deg2 p] ++
  le32_bytes (po_timestamp p).
Definition coarse_bytes (p : bramble_position_t) : list Z :=
  le16_bytes (cell_lat p) ++ le16_bytes (cell_lon p) ++ [u8 (po_timestamp p)] ++ replicate 12 0.
Definition presence_bytes (p : bramble_position_t) : list Z := (if po_valid p then 1 else 0) :: replicate 16 0.
Lemma build_full p : location_build_inner p LOCATION_TIER_FULL = Some (Some (0 :: full_bytes p)).
Proof. reflexivity. Qed.
Lemma build_presence p : location_build_inner p LOCATION_TIER_PRESENCE = Some (Some (2 :: presence_bytes p)).
Proof. reflexivity. Qed.
Lemma build_coarse p : pos_ok p → location_build_inner p LOCATION_TIER_COARSE = Some (Some (1 :: coarse_bytes p)).
Proof.
  intros H. unfold coarse_bytes. rewrite <- (proj1 (cell_lat_enc p H)), <- (proj1 (cell_lon_enc p H)). reflexivity.
Qed.

Lemma le16_inj a b : is_u16 a → is_u16 b → le16_bytes a = le16_bytes b → a = b.
Proof. intros Ha Hb E. rewrite <- (le16_roundtrip a Ha), <- (le16_roundtrip b Hb). by rewrite E. Qed.
Lemma i16_inj a b : -32768 <= a < 32768 → -32768 <= b < 32768 → le16_bytes a = le16_bytes b → a = b.
Proof. intros Ha Hb E. rewrite <- (i16_of_le16 a Ha), <- (i16_of_le16 b Hb). by rewrite E. Qed.

Lemma parse_full p pad q : pos_ok p → po_valid p = true →
  location_parse_inner ((0 :: full_bytes p) ++ pad) (length ((0 :: full_bytes p) ++ pad)) q = Some (Some (0, p)).
Proof.
  intros (Hlat & Hlon & Halt & _ & _ & _ & Hts) Hv. destruct p as [lat lon alt acc spd hdg ts v]. cbn in *. subst v.
  change (full_bytes _) with (le32_bytes (u32 lat) ++ le32_bytes (u32 lon) ++ le16_bytes alt ++ [acc; spd; hdg] ++ le32_bytes ts).
  unfold location_parse_inner. cbn -[le32_val le32_bytes le16_val le16_bytes i32 i16 u32].
  unfold rdn. rewrite !decide_True by (cbn; lia).
  change (take 4 (drop 0 _)) with (le32_bytes (u32 lat)). change (take 4 (drop 4 _)) with (le32_bytes (u32 lon)).
  change (take 2 (drop 8 _)) with (le16_bytes alt). change (take 4 (drop 13 _)) with (le32_bytes ts).
  cbn -[le32_val le32_bytes le16_val le16_bytes i32 i16 u32].
  rewrite !le32_roundtrip by (apply u32_range || done). rewrite i16_of_le16, !i32_u32 by lia. done.
Qed.
Lemma parse_coarse p pad q : pos_ok p →
  location_parse_inner ((1 :: coarse_bytes p) ++ pad) (length ((1 :: coarse_bytes p) ++ pad)) q =
  Some (Some (1, mk_pos ((3 * cell_lat p - 90000) * 10000) ((6 * cell_lon p - 180000) * 10000) 0 0 0 0
                   (u8 (po_timestamp p)) true)).
Proof.
  intros H. destruct (cell_lat_enc p H) as [_ Hlat]. destruct (cell_lon_enc p H) as [_ Hlon].
  unfold location_parse_inner, coarse_bytes.
  cbn -[le16_val le16_bytes cell_lat cell_lon u8]. unfold location_deserialize_coarse.
  cbn -[le16_val cell_lat cell_lon u8]. unfold rdn. rewrite !decide_True by (cbn; lia).
  change (take 2 (drop 0 _)) with (le16_bytes (cell_lat p)). change (take 2 (drop 2 _)) with (le16_bytes (cell_lon p)).
  cbn -[le16_val le16_bytes cell_lat cell_lon u8].
  rewrite !le16_roundtrip by (unfold is_u16; lia). do 4 f_equal; lia.
Qed.
Lemma parse_presence p pad q : po_valid p = true →
  location_parse_inner ((2 :: presence_bytes p) ++ pad) (length ((2 :: presence_bytes p) ++ pad)) q =
  Some (Some (2, mk_pos 0 0 0 0 0 0 0 true)).
Proof. intros Hv. unfold location_parse_inner, presence_bytes. rewrite Hv. reflexivity. Qed.

(** What a receiver of the tier sees of [p]. *)
Definition decoded_as (tier : Z) (p r : bramble_position_t) : Prop :=
  if tier =? LOCATION_TIER_FULL then r = p
  else if tier =? LOCATION_TIER_PRESENCE then r = mk_pos 0 0 0 0 0 0 0 true
  else r = mk_pos (po_latitude_e7 r) (po_longitude_e7 r) 0 0 0 0 (u8 (po_timestamp p)) true ∧
       (po_latitude_e7 r + 900000000) mod 30000 = 0 ∧ (po_longitude_e7 r + 1800000000) mod 60000 = 0 ∧
       -10000 < po_latitude_e7 p - po_latitude_e7 r < 30000 ∧
       -10000 < po_longitude_e7 p - po_longitude_e7 r < 60000.
Lemma coarse_decoded p : pos_ok p →
  decoded_as LOCATION_TIER_COARSE p
    (mk_pos ((3 * cell_lat p - 90000) * 10000) ((6 * cell_lon p - 180000) * 10000) 0 0 0 0
       (u8 (po_timestamp p)) true).
Proof.
  intros H. unfold decoded_as. cbn -[cell_lat cell_lon u8].
  pose proof (quot_unit (po_latitude_e7 p)). pose proof (quot_unit (po_longitude_e7 p)).
  unfold cell_lat, cell_lon. set (x := Z.quot (po_latitude_e7 p) 10000) in *.
  set (y := Z.quot (po_longitude_e7 p) 10000) in *. clearbody x y.
  split_and!; [done| | |..]; Z.to_euclidean_division_equations; lia.
Qed.

(** A valid position on the globe, shared at any tier and padded as either
    transport does, decodes to what the tier promises: exactly itself, the corner of
    a 0.003 by 0.006 degree cell it lies in or just outside of (the truncation
    towards zero), or a bare presence.  Every tier is the same 18 bytes long. *)
Theorem shared_positions_decode p tier pad q :
  pos_ok p → po_valid p = true → 0 <= tier <= 2 →
  ∃ inner r, location_build_inner p tier = Some (Some inner) ∧ length inner = L_LOC_INNER ∧
    location_parse_inner (inner ++ pad) (length (inner ++ pad)) q = Some (Some (tier, r)) ∧
    decoded_as tier p r.
Proof.
  intros Hp Hv Ht. assert (tier = 0 ∨ tier = 1 ∨ tier = 2) as [->|[->| ->]] by lia.
  - exists (0 :: full_bytes p), p. split_and!; [apply build_full|done|by apply parse_full|done].
  - exists (1 :: coarse_bytes p); eexists. split_and!; [by apply build_coarse|done|by apply parse_coarse|].
    by apply coarse_decoded.
  - exists (2 :: presence_bytes p); eexists. split_and!; [apply build_presence|done|by apply parse_presence|done].
Qed.
Definition sydney : bramble_position_t := mk_pos (-338567844) 1512152967 58 4 0 0 1700000123 true.
Lemma shared_positions_decode_witness :
  ∃ inner r, location_build_inner sydney 1 = Some (Some inner) ∧ length inner = L_LOC_INNER ∧
    location_parse_inner (inner ++ replicate 8 0) (length (inner ++ replicate 8 0)) pos_zero =
      Some (Some (1, r)) ∧ decoded_as 1 sydney r.
Proof.
  apply (shared_positions_decode sydney 1 (replicate 8 0) pos_zero); [|reflexivity|lia].
  unfold pos_ok, is_u8, is_u32; cbn; lia.
Defined.

Lemma full_bytes_inj p q : pos_ok p → pos_ok q → po_valid p = po_valid q → full_bytes p = full_bytes q → p = q.
Proof.
  intros Hp Hq Hv E. destruct (po_valid p) eqn:Ev.
  - pose proof (parse_full p [] p Hp Ev) as A. rewrite E in A.
    rewrite (parse_full q [] p Hq) in A by congruence. congruence.
  - set (on r := mk_pos (po_latitude_e7 r) (po_longitude_e7 r) (po_altitude_m r) (po_accuracy_m r)
                   (po_speed_kmh r) (po_heading_deg2 r) (po_timestamp r) true).
    assert (A : on p = on q).
    { pose proof (parse_full (on p) [] p Hp eq_refl) as A. change (full_bytes (on p)) with (full_bytes p) in A.
      rewrite E in A. pose proof (parse_full (on q) [] p Hq eq_refl) as B.
      change (full_bytes (on q)) with (full_bytes q) in B. congruence. }
    destruct p, q; unfold on in A; cbn in *; congruence.
Qed.

(** C28. Two positions give the same plaintext at a tier exactly when the tier shows
    them alike: at the coarse tier the frame depends on the cell and the low byte of
    the time alone, at the presence tier on nothing of the position. *)
Theorem tiers_hide_position p q tier :
  pos_ok p → pos_ok q → po_valid p = po_valid q → 0 <= tier <= 2 →
  (location_build_inner p tier = location_build_inner q tier ↔ same_view tier p q).
Proof.
  intros Hp Hq Hv Ht. assert (tier = 0 ∨ tier = 1 ∨ tier = 2) as [->|[->| ->]] by lia.
  - rewrite !build_full. unfold same_view; cbn -[full_bytes].
    split; [intros E|by intros ->]. apply full_bytes_inj; [done..|]. congruence.
  - rewrite !build_coarse by done. unfold same_view; cbn -[cell_lat cell_lon u8 coarse_bytes].
    destruct (cell_lat_enc p Hp) as [_ ?], (cell_lat_enc q Hq) as [_ ?].
    destruct (cell_lon_enc p Hp) as [_ ?], (cell_lon_enc q Hq) as [_ ?].
    split.
    + intros E'. assert (E : coarse_bytes p = coarse_bytes q) by congruence. unfold coarse_bytes in E.
      apply app_inj_1 in E as [E1 E]; [|done]. apply app_inj_1 in E as [E2 E]; [|done].
      split_and!; [apply le16_inj; [unfold is_u16; lia..|done]..|by inversion E].
    + unfold coarse_bytes. intros (-> & -> & ->). done.
  - rewrite !build_presence. unfold same_view, presence_bytes; cbn. rewrite Hv. done.
Qed.
(** Two places of a cell, and one across its edge. *)
Lemma tiers_hide_position_witness :
  location_build_inner sydney 1 = location_build_inner (mk_pos (-338569999) 1512140001 3 9 5 7 1700000123 true) 1 ∧
  location_build_inner sydney 1 ≠ location_build_inner (mk_pos (-338590001) 1512152967 58 4 0 0 1700000123 true) 1.
Proof.
  split.
  - apply (tiers_hide_position sydney _ 1); [unfold pos_ok, is_u8, is_u32; cbn; lia..|reflexivity|lia|].
    vm_compute. done.
  - intros E. apply (tiers_hide_position sydney _ 1) in E; [|unfold pos_ok, is_u8, is_u32; cbn; lia..|reflexivity|lia].
    destruct E as [E _]. vm_compute in E. discriminate E.
Defined.

(** ** Rules and keys *)

Lemma digits_dec fuel v acc a n : 0 <= v < 10 ^ Z.of_nat fuel → (0 < fuel)%nat →
  ∃ k, (0 < k)%nat ∧
    digits 10 digit_val (dec_digits fuel v acc) a n = digits 10 digit_val acc (a * 10 ^ Z.of_nat k + v) (n + k).
Proof.
  revert v acc n. induction fuel as [|fuel IH]; intros v acc n Hv Hf; [lia|].
  assert (D : ∀ d, 0 <= d < 10 → digit_val (48 + d) = Some d).
  { intros d Hd. unfold digit_val. rewrite (proj2 (Z.leb_le 48 _)), (proj2 (Z.leb_le _ 57)) by lia.
    cbn [andb]. f_equal. lia. }
  rewrite Nat2Z.inj_succ, Z.pow_succ_r in Hv by lia. cbn [dec_digits]. destruct (v <? 10) eqn:E; conds.
  - exists 1%nat. split; [lia|]. cbn [digits]. rewrite D by (apply Z.mod_pos_bound; lia).
    rewrite Z.mod_small by lia. do 2 f_equal; lia.
  - destruct fuel as [|fuel]; [cbn in Hv; lia|].
    destruct (IH (v / 10) ((48 + v mod 10) :: acc) n) as (k & Hk & ->);
      [split; [apply Z.div_pos; lia|apply Z.div_lt_upper_bound; lia]|lia|].
    exists (S k). split; [lia|]. cbn [digits]. rewrite D by (apply Z.mod_pos_bound; lia).
    replace (n + S k)%nat with (S (n + k)) by lia. f_equal.
    rewrite Nat2Z.inj_succ, Z.pow_succ_r by lia. pose proof (Z.div_mod v 10). lia.
Qed.
Lemma dec_head fuel v acc : 0 <= v → (0 < fuel)%nat → ∃ d s, dec_digits fuel v acc = (48 + d) :: s ∧ 0 <= d < 10.
Proof.
  revert v acc. induction fuel as [|fuel IH]; intros v acc Hv Hf; [lia|]. cbn [dec_digits].
  pose proof (Z.mod_pos_bound v 10). destruct (v <? 10) eqn:E; conds; [eauto with lia|].
  destruct fuel as [|fuel]; [cbn; eauto with lia|]. apply IH; [apply Z.div_pos; lia|lia].
Qed.
(** No leading space or sign. *)
Lemma scan_digit d s : 0 <= d < 10 → sign_of (skip_space ((48 + d) :: s)) = (false, (48 + d) :: s).
Proof.
  intros Hd. unfold sign_of. cbn [skip_space]. replace (is_space (48 + d)) with false.
  2: { unfold is_space. rewrite (proj2 (Z.eqb_neq _ 32)), (proj2 (Z.leb_gt _ 13)) by lia. by rewrite andb_false_r. }
  destruct (48 + d =? 45) eqn:E1; conds; [lia|]. destruct (48 + d =? 43) eqn:E2; conds; [lia|done].
Qed.
Lemma scan_dec v : 0 <= v < 2147483648 → scan_int (dec v) = Some (v, []).
Proof.
  intros Hv. unfold dec. destruct (digits_dec 10 v [] 0 0) as (k & Hk & E); [cbn; lia|lia|].
  destruct (dec_head 10 v []) as (d & s & Eh & Hd); [lia|lia|].
  unfold scan_int. rewrite Eh, scan_digit, <- Eh by done. rewrite E. cbn [digits].
  destruct k as [|k]; [lia|]. cbn [Nat.add]. do 2 f_equal. lia.
Qed.

Definition rule_ok (r : location_rule_t) : Prop :=
  0 <= lr_tier r <= 2 ∧ LOCATION_MIN_INTERVAL_S <= lr_interval_s r < 65536.
Lemma dec_short v : 0 <= v < 65536 → (length (dec v) ≤ 5)%nat.
Proof.
  intros Hv. unfold dec. cbn [dec_digits].
  assert (0 <= v / 10 < 6554 ∧ 0 <= v / 10 / 10 < 656 ∧ 0 <= v / 10 / 10 / 10 < 66 ∧ v / 10 / 10 / 10 / 10 < 7)
    by (Z.to_euclidean_division_equations; lia).
  repeat case_match; conds; cbn; lia.
Qed.
Lemma tier_field tier rest : 0 <= tier <= 2 →
  scan_field 15 (location_tier_to_string tier ++ 124 :: rest) = (location_tier_to_string tier, 124 :: rest) ∧
  location_tier_from_string (location_tier_to_string tier) = tier ∧ location_tier_to_string tier ≠ [].
Proof. intros H. assert (tier = 0 ∨ tier = 1 ∨ tier = 2) as [->|[->| ->]] by lia; done. Qed.
Lemma scan_rule_format (en : bool) tier iv : 0 <= tier <= 2 → 0 <= iv < 2147483648 →
  scan_rule ((if en then 49 else 48) :: 124 :: location_tier_to_string tier ++ 124 :: dec iv) =
  (Some (if en then 1 else 0), Some (location_tier_to_string tier), Some iv).
Proof.
  intros Ht Hi. destruct (tier_field tier (dec iv) Ht) as (E1 & _ & E2).
  unfold scan_rule. set (rest := location_tier_to_string tier ++ 124 :: dec iv) in *.
  assert (E : scan_int ((if en then 49 else 48) :: 124 :: rest) = Some (if en then 1 else 0, 124 :: rest)) by
    (by destruct en).
  rewrite E. cbn [scan_bar Z.eqb Pos.eqb fmap option_fmap option_map]. rewrite E1.
  destruct (location_tier_to_string tier) eqn:Et; [done|]. cbn [scan_bar Z.eqb Pos.eqb].
  by rewrite scan_dec.
Qed.
Lemma rule_roundtrip n r : rule_ok r → (17 <= n)%nat → location_rule_parse (location_rule_format n r) = r.
Proof.
  intros [Ht Hi] Hn. unfold LOCATION_MIN_INTERVAL_S in Hi. unfold location_rule_format, snprintf.
  pose proof (dec_short (lr_interval_s r)) as Hd.
  rewrite take_ge.
  2: { cbn [length]. rewrite length_app. cbn [length].
       assert (length (location_tier_to_string (lr_tier r)) ≤ 8)%nat by
         (unfold location_tier_to_string; repeat case_match; cbn; lia). lia. }
  unfold location_rule_parse. rewrite scan_rule_format by lia.
  destruct (tier_field (lr_tier r) [] Ht) as (_ & -> & _).
  destruct (lr_interval_s r >? 0) eqn:E; conds; [|lia]. rewrite u16_id by (unfold is_u16; lia).
  unfold location_policy_clamp_interval_s, LOCATION_MIN_INTERVAL_S.
  destruct (lr_interval_s r <? 30) eqn:E'; conds; [lia|]. by destruct r as [[] ? ?].
Qed.

Lemma hex_roundtrip d : 0 <= d < 16 → hex_val (hex_digit d) = Some d ∧ is_space (hex_digit d) = false ∧
  hex_digit d ∉ [43; 45; 88; 120].
Proof.
  intros H. assert (Hd : d ∈ seqZ 0 16) by (apply elem_of_seqZ; lia).
  assert (A : Forall (λ d, hex_val (hex_digit d) = Some d ∧ is_space (hex_digit d) = false ∧
                hex_digit d ∉ [43; 45; 88; 120]) (seqZ 0 16)).
  { apply (bool_decide_unpack _). vm_compute. exact I. }
  rewrite list.Forall_forall in A. by apply A.
Qed.
Lemma nibble v k : 0 <= v → 0 <= k → Z.land (v >> k) 15 = v / 2 ^ k mod 16.
Proof. intros. rewrite shiftr_div by lia. apply (Z.land_ones _ 4). lia. Qed.
Lemma nibble_range v k : 0 <= v → 0 <= k → 0 <= Z.land (v >> k) 15 < 16.
Proof. intros. rewrite nibble by lia. by apply Z.mod_pos_bound. Qed.
Lemma digits_hex8 a : is_u32 a → digits 16 hex_val (hex8 a) 0 0 = (a, 8%nat, []).
Proof.
  intros Ha. unfold is_u32 in Ha. unfold hex8. cbn [map].
  do 8 (cbn [digits]; rewrite (λ k H, proj1 (hex_roundtrip _ (nibble_range a k (proj1 Ha) H))) by lia).
  cbn [digits]. rewrite !nibble by lia. do 2 f_equal.
  change (2 ^ 0) with 1; change (2 ^ 4) with 16; change (2 ^ 8) with 256; change (2 ^ 12) with 4096;
  change (2 ^ 16) with 65536; change (2 ^ 20) with 1048576; change (2 ^ 24) with 16777216;
  change (2 ^ 28) with 268435456. Z.to_euclidean_division_equations. lia.
Qed.
Lemma strtoul_hex8 a : is_u32 a → strtoul16 (hex8 a) = (a, []).
Proof.
  intros Ha. pose proof (digits_hex8 a Ha) as E. unfold strtoul16.
  assert (S : sign_of (skip_space (hex8 a)) = (false, hex8 a)).
  { unfold hex8. cbn [map]. destruct (hex_roundtrip (Z.land (a >> 28) 15)) as (_ & Hs & Hn);
      [apply nibble_range; unfold is_u32 in *; lia|].
    cbn [skip_space]. rewrite Hs. unfold sign_of. rewrite !elem_of_cons in Hn.
    destruct (_ =? 45) eqn:E1; conds; [tauto|]. destruct (_ =? 43) eqn:E2; conds; [tauto|done]. }
  rewrite S, E. unfold hex8 at 1. cbn [map].
  destruct (hex_roundtrip (Z.land (a >> 24) 15)) as (_ & _ & Hn);
    [apply nibble_range; unfold is_u32 in *; lia|]. rewrite !elem_of_cons in Hn.
  destruct (_ && _) eqn:E1.
  - exfalso. apply andb_true_iff in E1 as [_ E1]. apply orb_true_iff in E1 as [E1|E1]; conds; tauto.
  - unfold is_u32, UINT32_MAX in *. destruct (a >? 4294967295) eqn:E2; conds; [lia|done].
Qed.

Lemma contact_key_target addr : is_u32 addr →
  ∃ key, location_contact_key LOCATION_TARGET_KEY_SIZE addr = Some key ∧
    target_of_key key = Some (LOCATION_TARGET_CONTACT, addr).
Proof.
  intros Ha. eexists. split; [reflexivity|]. unfold snprintf. rewrite take_ge by (cbn; lia).
  assert (E : after_prefix LOCATION_CONTACT_RULE_PREFIX (LOCATION_CONTACT_RULE_PREFIX ++ hex8 addr) = Some (hex8 addr))
    by reflexivity.
  unfold target_of_key. rewrite E, (strtoul_hex8 addr Ha). cbn [fst].
  replace (location_suffix_is_exact (hex8 addr) 8 true) with true; [done|].
  unfold location_suffix_is_exact. cbn [hex8 map take forallb length Nat.eqb]. rewrite andb_true_r.
  unfold is_u32 in Ha.
  assert (D : ∀ k, 0 <= k → bool_decide (is_Some (hex_val (hex_digit (Z.land (addr >> k) 15)))) = true).
  { intros k Hk. apply bool_decide_eq_true_2. rewrite (proj1 (hex_roundtrip _ (nibble_range addr k (proj1 Ha) Hk))). eauto. }
  by rewrite !D by lia.
Qed.
Lemma channel_key_target i : 0 <= i < 16 →
  ∃ key, location_channel_key LOCATION_TARGET_KEY_SIZE i = Some key ∧
    target_of_key key = if location_channel_target_is_permitted i then Some (LOCATION_TARGET_CHANNEL, i) else None.
Proof.
  intros Hi. exists (LOCATION_CHANNEL_RULE_PREFIX ++ dec2 i).
  assert (A : Forall (λ i, location_channel_key LOCATION_TARGET_KEY_SIZE i = Some (LOCATION_CHANNEL_RULE_PREFIX ++ dec2 i) ∧
    target_of_key (LOCATION_CHANNEL_RULE_PREFIX ++ dec2 i) =
      if location_channel_target_is_permitted i then Some (LOCATION_TARGET_CHANNEL, i) else None) (seqZ 0 16)).
  { apply (bool_decide_unpack _). vm_compute. exact I. }
  rewrite list.Forall_forall in A. apply A, elem_of_seqZ. lia.
Qed.
(** Whatever the key: a channel target names a private channel. *)
Lemma target_of_key_private key kind id : target_of_key key = Some (kind, id) →
  kind = LOCATION_TARGET_CONTACT ∨ kind = LOCATION_TARGET_CHANNEL ∧ 1 <= id < Z.of_nat LOCATION_MAX_CHANNEL_TARGETS.
Proof.
  unfold target_of_key. destruct (after_prefix LOCATION_CONTACT_RULE_PREFIX key) as [suffix|].
  - destruct (negb _); [done|]. intros [= <- <-]. by left.
  - destruct (after_prefix LOCATION_CHANNEL_RULE_PREFIX key) as [suffix|]; [|done].
    destruct (negb _); [done|]. destruct (_ || _) eqn:E1; [done|]. apply orb_false_iff in E1 as [E1 E2].
    unfold location_channel_target_is_permitted, LOCATION_PUBLIC_CHANNEL_INDEX.
    destruct (atoi suffix =? 0) eqn:E3; [done|]. intros [= <- <-]. conds. right. split; [done|].
    lia.
Qed.

(** The rule strings and keys the configuration writes are read back exactly: an
    enabled rule becomes the target it names at its tier and interval, for every
    address and every private channel.  No key and no rule, well-formed or not,
    becomes a target on the public channel or one shared faster than every 30 s. *)
Theorem rules_roundtrip n r : rule_ok r → (17 <= n)%nat →
  (∀ addr, is_u32 addr → ∃ key, location_contact_key LOCATION_TARGET_KEY_SIZE addr = Some key ∧
     location_target_from_entry key (location_rule_format n r) =
       if lr_enabled r then Some (mk_target LOCATION_TARGET_CONTACT addr (lr_tier r) (lr_interval_s r)) else None) ∧
  (∀ i, 0 <= i < 16 → ∃ key, location_channel_key LOCATION_TARGET_KEY_SIZE i = Some key ∧
     location_target_from_entry key (location_rule_format n r) =
       if lr_enabled r && location_channel_target_is_permitted i
       then Some (mk_target LOCATION_TARGET_CHANNEL i (lr_tier r) (lr_interval_s r)) else None) ∧
  (∀ key raw t, location_target_from_entry key raw = Some t →
     (tg_kind t = LOCATION_TARGET_CHANNEL → location_channel_target_is_permitted (tg_id t) = true) ∧
     LOCATION_MIN_INTERVAL_S <= tg_interval_s t).
Proof.
  intros Hr Hn.
  assert (C : ∀ i, LOCATION_MIN_INTERVAL_S <= location_policy_clamp_interval_s i ∧
                   (LOCATION_MIN_INTERVAL_S <= i → location_policy_clamp_interval_s i = i)).
  { intros i. unfold location_policy_clamp_interval_s. destruct (i <? _) eqn:E; conds; lia. }
  split_and!.
  - intros addr Ha. destruct (contact_key_target addr Ha) as (key & Ek & Et). exists key. split; [done|].
    unfold location_target_from_entry. rewrite Et, rule_roundtrip, (proj2 (C _)) by (done || apply Hr).
    by destruct (lr_enabled r).
  - intros i Hi. destruct (channel_key_target i Hi) as (key & Ek & Et). exists key. split; [done|].
    unfold location_target_from_entry. rewrite Et, rule_roundtrip, (proj2 (C _)) by (done || apply Hr).
    by destruct (lr_enabled r), (location_channel_target_is_permitted i).
  - intros key raw t. unfold location_target_from_entry. destruct (target_of_key key) as [[kind id]|] eqn:Et; [|done].
    destruct (lr_enabled _); [|done]. cbn. intros [= <-]. cbn. split; [|apply C].
    intros ->. destruct (target_of_key_private _ _ _ Et) as [?|[_ ?]]; [done|].
    unfold location_channel_target_is_permitted, LOCATION_PUBLIC_CHANNEL_INDEX. destruct (id =? 0) eqn:E; conds; [lia|done].
Qed.
Lemma rules_roundtrip_witness :
  ∃ key, location_contact_key LOCATION_TARGET_KEY_SIZE 3735928559 = Some key ∧
    location_target_from_entry key (location_rule_format 32 (mk_lrule true LOCATION_TIER_COARSE 900)) =
      Some (mk_target LOCATION_TARGET_CONTACT 3735928559 LOCATION_TIER_COARSE 900).
Proof.
  apply (rules_roundtrip 32 (mk_lrule true LOCATION_TIER_COARSE 900));
    [split; cbn; unfold LOCATION_TIER_COARSE, LOCATION_MIN_INTERVAL_S; lia|lia|unfold is_u32; lia].
Defined.
