(* ===== verification/LocationStoreSpec.v ===== *)
(** * Peers' positions in memory and in flash

    The cache is a map of at most sixteen peers to the position each shared last,
    and the restore at boot takes the newest records of the flash. *)

From stdpp Require Import base strings numbers sets option decidable sorting gmap list.
From S2P Require Import Prelude Tables KeyedTable NetworkKey ParkedRetry Location LocationSpec.

(** ** The cache *)

Abbreviation cmap := (tmap lc_peer_addr).
Abbreviation ckeyed := (keyed lc_peer_addr LOCATION_MAX_CONTACTS).
(** An entry that can be placed on a map. *)
Definition placed (e : location_cache_entry_t) : Prop := lc_active e = true ∧ po_valid (lc_pos e) = true.
Definition cache_ok (mgr : location_manager_t) : Prop := ckeyed (lm_cache mgr) ∧ Forall placed (live (lm_cache mgr)).

Inductive cache_op :=
  | CShare (peer_addr tier : Z) (pos : bramble_position_t) (now_ms : Z)
  | CPurge (now_ms : Z).
Definition run_cache (mgr : location_manager_t) (op : cache_op) : location_manager_t :=
  match op with
  | CShare a tier pos now => location_cache_apply_share mgr a tier pos now
  | CPurge now => location_cache_purge mgr now
  end.
(** The promise: a share with coordinates is what the peer is shown at, unless
    sixteen others are known; a share without them withdraws the peer. *)
Definition spec_cache (m : gmap Z location_cache_entry_t) (op : cache_op) : gmap Z location_cache_entry_t :=
  match op with
  | CShare a tier pos now =>
      if location_tier_has_coordinates tier && po_valid pos then
        if bool_decide (is_Some (m !! a)) || (size m <? LOCATION_MAX_CONTACTS)%nat
        then <[a := mk_lcache a pos now true true]> m else m
      else delete a m
  | CPurge now => filter (λ kv, cache_expired now kv.2 = false) m
  end.

Lemma keyed_tswap_remove t i : ckeyed t → (i < count t)%nat →
  ckeyed (tswap_remove t i) ∧ cmap (tswap_remove t i) = delete (lc_peer_addr (entries t !!! i)) (cmap t).
Proof.
  intros Hk Hi. pose proof Hk as [Hwf Hnd]. pose proof (live_tswap_remove _ t i Hwf Hi) as Hp.
  assert (Hk' : ckeyed (tswap_remove t i)).
  { split; [by apply tswap_remove_wf|]. rewrite <- Hp in Hnd. cbn in Hnd. by apply NoDup_cons in Hnd as [_ ?]. }
  split; [done|]. eapply tmap_ext; [exact Hk'|]. intros d e. rewrite lookup_delete_Some, (tmap_Some _ _ _ Hk).
  rewrite <- Hp in Hnd |- *. cbn in Hnd. apply NoDup_cons in Hnd as [Hn _].
  rewrite elem_of_cons. split.
  - intros (Hne & [->|He] & <-); done.
  - intros [He <-]. split_and!; [|by right|done]. intros E. apply Hn. rewrite E. apply list_elem_of_fmap. eauto.
Qed.
Lemma slot_ok c a e : ckeyed c → Forall placed (live c) → lc_peer_addr e = a → placed e →
  match cache_slot c a with
  | None => cmap c !! a = None ∧ size (cmap c) = LOCATION_MAX_CONTACTS
  | Some (i, c') => lc_peer_addr (entries c' !!! i) = a ∧ ckeyed (tset c' i e) ∧
      Forall placed (live (tset c' i e)) ∧ cmap (tset c' i e) = <[a := e]> (cmap c) ∧
      (is_Some (cmap c !! a) ∨ (size (cmap c) < LOCATION_MAX_CONTACTS)%nat)
  end.
Proof.
  intros Hk Hp Hea He. rewrite (tmap_size _ Hk). unfold cache_slot.
  destruct (find_index (cached_for a) (live c)) as [i|] eqn:E.
  - destruct (kindex_Some _ _ _ Hk E) as (Hi & Hl & Ha & Hm).
    destruct (keyed_tset_same c i e Hk Hi) as [Hk' Hm']; [congruence|]. rewrite Hea in Hm'.
    split_and!; [done|done| |done|left; rewrite Hm; eauto]. rewrite live_tset. by apply Forall_insert_slot.
  - pose proof (kindex_None _ _ Hk E) as Hm. destruct (LOCATION_MAX_CONTACTS <=? count c)%nat eqn:Ec.
    + apply Nat.leb_le in Ec. split; [done|]. destruct Hk as [[_ ?] _]. lia.
    + apply Nat.leb_gt in Ec. set (z := mk_lcache a pos_zero 0 false false).
      assert (Ez : entries (tpush c z) !!! count c = z).
      { cbn. apply list_lookup_total_insert_eq. destruct Hk as [[Hl _] _]. lia. }
      destruct (keyed_tpush c z Hk Ec Hm) as [Hk1 Hm1].
      destruct (keyed_tset_same (tpush c z) (count c) e Hk1) as [Hk2 Hm2]; [cbn; lia|by rewrite Ez|].
      split_and!; [by rewrite Ez|done| | |by right].
      * rewrite live_tset, (live_tpush LOCATION_MAX_CONTACTS) by (apply Hk || done).
        rewrite <- (length_live _ _ (proj1 Hk)), insert_app_r_alt by lia.
        rewrite Nat.sub_diag. apply Forall_app. split; [done|]. constructor; [done|constructor].
      * rewrite Hm2, Hm1, Hea. cbn [z lc_peer_addr]. by rewrite insert_insert_eq.
Qed.
Lemma update_ok mgr a pos now : cache_ok mgr → po_valid pos = true →
  cache_ok (location_cache_update mgr a pos now).2 ∧
  cmap (lm_cache (location_cache_update mgr a pos now).2) =
    if bool_decide (is_Some (cmap (lm_cache mgr) !! a)) || (size (cmap (lm_cache mgr)) <? LOCATION_MAX_CONTACTS)%nat
    then <[a := mk_lcache a pos now true true]> (cmap (lm_cache mgr)) else cmap (lm_cache mgr).
Proof.
  intros [Hk Hp] Hv. pose proof (slot_ok _ a (mk_lcache a pos now true true) Hk Hp eq_refl (conj eq_refl Hv)) as S.
  unfold location_cache_update. destruct (cache_slot (lm_cache mgr) a) as [[i c]|]; cbn [snd with_cache lm_cache].
  - destruct S as (-> & Hk' & Hp' & Hm & Hroom). split; [done|].
    destruct Hroom as [?|?]; [by rewrite bool_decide_eq_true_2|].
    by rewrite (proj2 (Nat.ltb_lt _ _)), orb_true_r by done.
  - destruct S as [-> ->]. rewrite bool_decide_eq_false_2 by (by intros [? [=]]). done.
Qed.
Lemma drop_ok mgr a : cache_ok mgr →
  cache_ok (location_cache_drop mgr a) ∧ cmap (lm_cache (location_cache_drop mgr a)) = delete a (cmap (lm_cache mgr)).
Proof.
  intros [Hk Hp]. unfold location_cache_drop. destruct (find_index _ _) as [i|] eqn:E.
  - destruct (kindex_Some _ _ _ Hk E) as (Hi & Hl & Ha & Hm). cbn [with_cache lm_cache].
    destruct (keyed_tswap_remove _ i Hk Hi) as [Hk' Hm']. rewrite Ha in Hm'. split; [|done]. split; [done|].
    cbn [with_cache lm_cache]. pose proof (live_tswap_remove _ (lm_cache mgr) i (proj1 Hk) Hi) as P. rewrite <- P in Hp.
    by apply Forall_cons in Hp as [_ ?].
  - pose proof (kindex_None _ _ Hk E) as Hm. rewrite delete_id by done. done.
Qed.
Lemma run_cache_ok mgr op : cache_ok mgr →
  cache_ok (run_cache mgr op) ∧ cmap (lm_cache (run_cache mgr op)) = spec_cache (cmap (lm_cache mgr)) op.
Proof.
  intros Hok. destruct op as [a tier pos now|now]; cbn [run_cache spec_cache].
  - unfold location_cache_apply_share. destruct (location_tier_has_coordinates tier), (po_valid pos) eqn:Ev; cbn [negb orb andb];
      [by apply update_ok|by apply drop_ok..].
  - destruct Hok as [Hk Hp]. unfold location_cache_purge. cbn [with_cache lm_cache].
    destruct (keyed_swap_purge (cache_expired now) _ Hk) as [Hk' Hm']. split; [split; [done|]|done].
    cbn [with_cache lm_cache]. rewrite (live_swap_purge _ _ _ (proj1 Hk)). rewrite list.Forall_forall in *. intros e.
    rewrite list_elem_of_filter. intros [_ ?]. by apply Hp.
Qed.
Lemma cache_get_spec mgr a : cache_ok mgr → location_cache_get mgr a = cmap (lm_cache mgr) !! a.
Proof.
  intros [Hk Hp]. unfold location_cache_get. symmetry. destruct (find _ _) as [e|] eqn:E.
  - apply find_some in E as [He E]. apply andb_true_iff in E as [E _]. apply Z.eqb_eq in E.
    apply (tmap_Some _ _ _ Hk). split; [by apply list_elem_of_In|done].
  - apply eq_None_not_Some. intros [e He]. apply (tmap_Some _ _ _ Hk) in He as [He Ha].
    apply list_elem_of_In in He as Hi. pose proof (find_none _ _ E _ Hi) as F. cbn in F.
    rewrite list.Forall_forall in Hp. destruct (Hp e He) as [Hact _]. rewrite Hact, andb_true_r in F.
    unfold cached_for in F. rewrite Ha, Z.eqb_refl in F. done.
Qed.

(** After any history of shares and purges the cache answers as the map of the
    promise does: the last position of each peer that shared coordinates, at most
    sixteen peers, nothing for a peer whose last share withdrew its position, and
    nothing but placeable entries. *)
Theorem cached_positions_exact ops a :
  let mgr := foldl run_cache location_init ops in
  let m := foldl spec_cache ∅ ops in
  location_cache_get mgr a = m !! a ∧ (size m ≤ LOCATION_MAX_CONTACTS)%nat ∧
  (∀ e, m !! a = Some e → lc_peer_addr e = a ∧ placed e).
Proof.
  assert (H : cache_ok (foldl run_cache location_init ops) ∧
              cmap (lm_cache (foldl run_cache location_init ops)) = foldl spec_cache ∅ ops).
  { induction ops as [|op ops IH] using rev_ind; [split; [|done]|].
    - split; [apply (keyed_init (key := lc_peer_addr))|constructor].
    - destruct IH as [Hok Hm]. rewrite !foldl_app. cbn [foldl].
      destruct (run_cache_ok _ op Hok) as [Hok' Hm']. split; [done|]. by rewrite Hm', Hm. }
  cbv zeta. destruct H as [Hok Hm]. rewrite cache_get_spec, <- Hm by done. split_and!.
  - done.
  - rewrite (tmap_size _ (proj1 Hok)). apply Hok.
  - intros e He. apply (tmap_Some _ _ _ (proj1 Hok)) in He as [He Ha]. split; [done|].
    destruct Hok as [_ Hp]. rewrite list.Forall_forall in Hp. by apply Hp.
Qed.

(** ** Restoring from flash *)

Abbreviation restore_t := peer_location_restore_entry_t.
(** [a] is not older than [b]. *)
Definition not_older (a b : restore_t) : Prop := newer b a = false.
Lemma newer_true a b : newer a b = true ↔
  re_boot_id (rs_rec b) < re_boot_id (rs_rec a) ∨
  re_boot_id (rs_rec a) = re_boot_id (rs_rec b) ∧ re_received_ms (rs_rec b) < re_received_ms (rs_rec a).
Proof. unfold newer. rewrite orb_true_iff, andb_true_iff, !Z.gtb_lt, Z.eqb_eq. done. Qed.
Lemma not_older_spec a b : not_older a b ↔
  re_boot_id (rs_rec b) < re_boot_id (rs_rec a) ∨
  re_boot_id (rs_rec b) = re_boot_id (rs_rec a) ∧ re_received_ms (rs_rec b) <= re_received_ms (rs_rec a).
Proof. unfold not_older. rewrite <- not_true_iff_false, newer_true. lia. Qed.
Lemma not_older_trans a b c : not_older a b → not_older b c → not_older a c.
Proof. rewrite !not_older_spec. lia. Qed.
Lemma newer_not_older a b : newer a b = true → not_older a b.
Proof. rewrite newer_true, not_older_spec. lia. Qed.

(** [out] is the newest of [all], newest first, at most [max] of them. *)
Definition newest_of (max : nat) (all out : list restore_t) : Prop :=
  StronglySorted not_older out ∧ (length out ≤ max)%nat ∧
  ∃ left, all ≡ₚ out ++ left ∧ (left = [] ∨ length out = max) ∧ Forall (λ d, Forall (λ o, not_older o d) out) left.

Lemma sorted_app l k : StronglySorted not_older (l ++ k) ↔
  StronglySorted not_older l ∧ StronglySorted not_older k ∧ Forall (λ x, Forall (not_older x) k) l.
Proof.
  rewrite StronglySorted_app, !list.Forall_forall. setoid_rewrite list.Forall_forall. naive_solver.
Qed.
Lemma insert_sorted out c : StronglySorted not_older out →
  let pos := default (length out) (find_index (newer c) out) in
  StronglySorted not_older (take pos out ++ c :: drop pos out).
Proof.
  intros Hs pos. rewrite <- (take_drop pos out) in Hs. apply sorted_app in Hs as (H1 & H2 & H3).
  apply sorted_app. destruct (find_index (newer c) out) as [i|] eqn:E; cbn in pos.
  - destruct (find_index_Some _ _ _ E) as (x & Hx & Hn & Hb). subst pos.
    rewrite (drop_S _ _ _ Hx) in *. split_and!; [done| |].
    + apply StronglySorted_inv in H2 as [H2 Hxs]. constructor; [by constructor|]. constructor; [by apply newer_not_older|].
      eapply list.Forall_impl; [exact Hxs|]. intros y Hy. eapply not_older_trans; [by apply newer_not_older|done].
    + rewrite list.Forall_forall in *. intros y Hy. constructor; [by apply Hb|by apply H3].
  - subst pos. rewrite drop_all. split_and!; [done|repeat constructor|].
    rewrite take_ge by done. apply find_index_None in E.
    eapply list.Forall_impl; [exact E|]. intros y Hy. repeat constructor. exact Hy.
Qed.
Lemma restore_insert_newest max all out c :
  newest_of max all out → newest_of max (all ++ [c]) (restore_insert out max c).
Proof.
  intros (Hs & Hl & left & Hp & Hfull & Hleft). pose proof (insert_sorted out c Hs) as Hs'. cbn zeta in Hs'.
  unfold restore_insert. set (pos := default (length out) (find_index (newer c) out)) in *.
  assert (Hpos : (pos ≤ length out)%nat).
  { subst pos. destruct (find_index _ _) eqn:E; cbn; [|done]. apply find_index_lt in E. lia. }
  set (ins := take pos out ++ c :: drop pos out) in *.
  assert (Hins : c :: out ≡ₚ ins) by (subst ins; rewrite <- Permutation_middle, take_drop; done).
  assert (Hlen : length ins = S (length out)) by (rewrite <- Hins; done).
  assert (E : (if (max <=? pos)%nat then out else take max ins) = take max ins).
  { destruct (max <=? pos)%nat eqn:E; [|done]. apply Nat.leb_le in E.
    assert (pos = length out ∧ max = length out) as [Ep Em] by lia.
    subst ins. rewrite Ep, (take_ge out), Em by done. by rewrite take_app_length. }
  rewrite E. clear E.
  assert (Hsplit : Forall (λ d, Forall (λ o, not_older o d) (take max ins)) (drop max ins)).
  { rewrite <- (take_drop max ins) in Hs'. apply sorted_app in Hs' as (_ & _ & H).
    rewrite !list.Forall_forall in *. setoid_rewrite list.Forall_forall. setoid_rewrite list.Forall_forall in H.
    intros d Hd o Ho. by apply H. }
  split; [|split; [rewrite length_take; lia|]].
  { rewrite <- (take_drop max ins) in Hs'. by apply sorted_app in Hs' as (? & _). }
  exists (drop max ins ++ left). split; [|split].
  - rewrite app_assoc, take_drop, <- Hins, Hp. by rewrite <- Permutation_cons_append.
  - destruct Hfull as [->|Hm]; rewrite length_take, Hlen.
    + destruct (decide (length out < max)%nat); [left; rewrite drop_ge by lia; done|right; lia].
    + right. lia.
  - apply Forall_app. split; [done|]. destruct Hfull as [->|Hm]; [constructor|].
    assert (Hsub : ∀ o, o ∈ take max ins → o = c ∧ (∃ o', o' ∈ out ∧ not_older c o') ∨ o ∈ out).
    { intros o Ho. destruct (decide (pos = length out)) as [Ep|Hlt].
      { right. revert Ho. subst ins. by rewrite Ep, (take_ge out), <- Hm, take_app_length by done. }
      assert (Ho' : o ∈ c :: out) by (rewrite Hins, <- (take_drop max ins); apply elem_of_app; by left).
      apply elem_of_cons in Ho' as [->|?]; [left|by right]. split; [done|].
      subst pos. destruct (find_index (newer c) out) as [i|] eqn:Ei; [|done].
      destruct (find_index_Some _ _ _ Ei) as (x & Hx & Hn & _). exists x.
      split; [by eapply list_elem_of_lookup_2|by apply newer_not_older]. }
    rewrite list.Forall_forall in Hleft. rewrite list.Forall_forall. intros d Hd. specialize (Hleft d Hd).
    rewrite list.Forall_forall in Hleft. rewrite list.Forall_forall. intros o Ho.
    destruct (Hsub o Ho) as [(-> & o' & Ho' & Hc)|Ho']; [|by apply Hleft].
    eapply not_older_trans; [exact Hc|by apply Hleft].
Qed.

(** *** Records *)

Lemma persisted_of_total b : (PERSISTED_SIZE ≤ length b)%nat → is_Some (persisted_of b).
Proof.
  unfold PERSISTED_SIZE, persisted_of. intros H.
  repeat (apply bind_is_Some; [first [apply rd_is_Some; lia | apply fmap_is_Some, rdn_is_Some; lia]|intros ? _]).
  eauto.
Qed.
Lemma record_decode_total blob boot : is_Some (peer_location_record_decode blob boot).
Proof.
  unfold peer_location_record_decode. destruct (length blob =? PERSISTED_SIZE)%nat eqn:E;
    [|destruct (length blob =? PEER_LOCATION_RECORD_V0_SIZE)%nat eqn:E'].
  - apply Nat.eqb_eq in E. apply bind_is_Some; [apply persisted_of_total; lia|eauto].
  - apply Nat.eqb_eq in E'. apply bind_is_Some; [|eauto]. apply persisted_of_total.
    rewrite length_app, length_replicate, E'. done.
  - eauto.
Qed.
(** The record an entry of the namespace holds. *)
Definition record_of (ns : nvs_ns) (boot_id : Z) (e : list Z * nvs_value) : option restore_t :=
  addr ← peer_location_key_parse e.1;
  blob ← nvs_get_blob ns e.1 PERSISTED_SIZE;
  match peer_location_record_decode blob boot_id with Some (Some rec) => Some (mk_restore addr rec) | _ => None end.
Lemma collect_loop_newest ns max boot rest : ∀ all out, newest_of max all out →
  ∃ out', collect_loop ns max boot rest out = Some out' ∧ newest_of max (all ++ omap (record_of ns boot) rest) out'.
Proof.
  induction rest as [|e rest IH]; intros all out Hn; cbn [collect_loop omap list_omap].
  { exists out. by rewrite app_nil_r. }
  unfold collect_step, record_of at 1.
  destruct (peer_location_key_parse e.1) as [a|]; cbn [mbind option_bind]; [|by apply IH].
  destruct (nvs_get_blob _ _ _) as [blob|]; cbn [mbind option_bind]; [|by apply IH].
  destruct (record_decode_total blob boot) as [[rec|] ->]; cbn [mbind option_bind]; [|by apply IH].
  destruct (IH _ _ (restore_insert_newest max all out (mk_restore a rec) Hn)) as (out' & E & Hn').
  exists out'. split; [done|]. by rewrite <- app_assoc in Hn'.
Qed.
Lemma collect_newest b ns max : (0 < max)%nat →
  ∃ out, location_store_collect b ns true max = Some out ∧ newest_of max (omap (record_of ns (bo_id b)) ns) out.
Proof.
  intros Hm. unfold location_store_collect. rewrite (proj2 (Nat.leb_gt _ _)) by done. cbn [negb orb].
  apply (collect_loop_newest ns max (bo_id b) ns [] []). split_and!; [constructor|cbn; lia|].
  exists []. split_and!; [done|by left|constructor].
Qed.

(** *** Into the cache *)

Definition as_cached (r : restore_t) : location_cache_entry_t :=
  mk_lcache (rs_peer_addr r) (re_pos (rs_rec r)) (re_received_ms (rs_rec r)) true (re_age_known (rs_rec r)).
Definition placeable (r : restore_t) : bool :=
  location_tier_has_coordinates (re_tier (rs_rec r)) && po_valid (re_pos (rs_rec r)).

(** Every restored entry comes from a placeable record. *)
Lemma apply_ok es : ∀ mgr, cache_ok mgr →
  cache_ok (location_store_apply mgr es) ∧
  (∀ a e, cmap (lm_cache (location_store_apply mgr es)) !! a = Some e →
     cmap (lm_cache mgr) !! a = Some e ∨ ∃ r, r ∈ es ∧ placeable r = true ∧ rs_peer_addr r = a ∧ e = as_cached r).
Proof.
  induction es as [|r es IH]; intros mgr Hok; cbn [location_store_apply]; [by eauto|].
  destruct (negb _ || negb _) eqn:E.
  - destruct (IH mgr Hok) as [Hok' Hin]. split; [done|]. intros a e He.
    destruct (Hin a e He) as [?|(r' & ? & ?)]; [by left|right]. exists r'. rewrite elem_of_cons. tauto.
  - assert (Hpl : placeable r = true) by
      (apply orb_false_iff in E as [E1 E2]; apply negb_false_iff in E1, E2; unfold placeable; by rewrite E1, E2).
    apply andb_true_iff in Hpl as Hpl'. destruct Hpl' as [_ Hv]. destruct Hok as [Hk Hp].
    pose proof (slot_ok _ (rs_peer_addr r) (as_cached r) Hk Hp eq_refl (conj eq_refl Hv)) as S.
    destruct (cache_slot (lm_cache mgr) (rs_peer_addr r)) as [[i c]|]; [|split; [done|by left]].
    destruct S as (-> & Hk' & Hp' & Hm & _).
    destruct (IH (with_cache mgr (tset c i (as_cached r)))) as [Hok' Hin]; [done|]. split; [exact Hok'|].
    intros a e He. destruct (Hin a e He) as [H|(r' & ? & ?)].
    + cbn [with_cache lm_cache] in H. rewrite Hm, lookup_insert_Some in H. destruct H as [[<- <-]|[_ H]]; [right|by left].
      exists r. rewrite elem_of_cons. tauto.
    + right. exists r'. rewrite elem_of_cons. tauto.
Qed.
(** With one record per peer none is lost. *)
Lemma apply_all es : ∀ mgr, cache_ok mgr → NoDup (rs_peer_addr <$> es) →
  (size (cmap (lm_cache mgr)) + length es ≤ LOCATION_MAX_CONTACTS)%nat →
  ∀ a, (∀ r, r ∈ es → placeable r = true → rs_peer_addr r = a →
          cmap (lm_cache (location_store_apply mgr es)) !! a = Some (as_cached r)) ∧
       (a ∉ rs_peer_addr <$> es →
          cmap (lm_cache (location_store_apply mgr es)) !! a = cmap (lm_cache mgr) !! a).
Proof.
  induction es as [|r es IH]; intros mgr Hok Hnd Hsz a; cbn [location_store_apply length] in *; [set_solver|].
  apply NoDup_cons in Hnd as [Hr Hnd]. destruct (negb _ || negb _) eqn:E.
  - destruct (IH mgr Hok Hnd ltac:(lia) a) as [H1 H2]. split.
    + intros r' [->|Hr']%elem_of_cons Hpl Ha; [|by apply H1].
      apply andb_true_iff in Hpl as [E1 E2]. rewrite E1, E2 in E. done.
    + intros Ha. apply H2. rewrite fmap_cons, not_elem_of_cons in Ha. tauto.
  - apply orb_false_iff in E as [E1 E2]. apply negb_false_iff in E1, E2. destruct Hok as [Hk Hp].
    pose proof (slot_ok _ (rs_peer_addr r) (as_cached r) Hk Hp eq_refl (conj eq_refl E2)) as S.
    destruct (cache_slot (lm_cache mgr) (rs_peer_addr r)) as [[i c]|]; [|destruct S as [_ S]; rewrite S in Hsz; lia].
    destruct S as (-> & Hk' & Hp' & Hm & _).
    change (mk_lcache _ _ _ _ _) with (as_cached r).
    destruct (IH (with_cache mgr (tset c i (as_cached r)))) with (a := a) as [H1 H2]; [done|done| |].
    { cbn [with_cache lm_cache]. rewrite Hm, map_size_insert. destruct (cmap (lm_cache mgr) !! rs_peer_addr r); cbn; lia. }
    split.
    + intros r' [->|Hr']%elem_of_cons Hpl Ha; [|by apply H1]. rewrite H2 by (by rewrite <- Ha).
      cbn [with_cache lm_cache]. rewrite Hm, Ha. apply lookup_insert_eq.
    + rewrite fmap_cons, not_elem_of_cons. intros [Hne Ha]. rewrite H2 by done. cbn [with_cache lm_cache].
      rewrite Hm. by apply lookup_insert_ne.
Qed.

(** *** Writing records *)

Definition prec_ok (r : persisted_peer_location_t) : Prop :=
  -2147483648 <= pl_latitude_e7 r < 2147483648 ∧ -2147483648 <= pl_longitude_e7 r < 2147483648 ∧
  -32768 <= pl_altitude_m r < 32768 ∧ is_u32 (pl_timestamp r) ∧ is_u32 (pl_received_ms r) ∧ is_u32 (pl_boot_id r).
Lemma persisted_roundtrip r : prec_ok r → persisted_of (persisted_bytes r) = Some r.
Proof.
  intros (Hlat & Hlon & Halt & Hts & Hrx & Hb). destruct r as [lat lon alt acc spd hdg ts rx tier ver boot].
  cbn in Hlat, Hlon, Halt, Hts, Hrx, Hb.
  change (persisted_of _) with (Some (mk_prec (i32 (le32_val (le32_bytes (u32 lat)))) (i32 (le32_val (le32_bytes (u32 lon))))
    (i16 (le16_val (le16_bytes alt))) acc spd hdg (le32_val (le32_bytes ts)) (le32_val (le32_bytes rx)) tier ver
    (le32_val (le32_bytes boot)))).
  rewrite !le32_roundtrip by (apply u32_range || done). by rewrite i16_of_le16, !i32_u32 by lia.
Qed.
Lemma record_key_length a : length (peer_location_record_key PEER_LOCATION_KEY_MAX a) = 11%nat.
Proof. reflexivity. Qed.
Lemma record_key_parse a : is_u32 a → peer_location_key_parse (peer_location_record_key PEER_LOCATION_KEY_MAX a) = Some a.
Proof.
  intros Ha. unfold peer_location_key_parse, peer_location_record_key, snprintf. rewrite take_ge by (cbn; lia).
  assert (E : after_prefix PEER_LOCATION_KEY_PREFIX (PEER_LOCATION_KEY_PREFIX ++ hex8 a) = Some (hex8 a)) by reflexivity.
  rewrite E, (strtoul_hex8 a Ha). unfold hex8. cbn [map]. by rewrite u32_id.
Qed.
Lemma nvs_lookup_set ns key v : nvs_lookup (nvs_set ns key v) key = Some v.
Proof.
  unfold nvs_lookup, nvs_set. assert (F : find (λ e, bool_decide (e.1 = key)) (nvs_erase ns key) = None).
  { destruct (find _ _) as [e|] eqn:E; [|done]. apply find_some in E as [Hin E]. apply bool_decide_eq_true in E.
    apply list_elem_of_In in Hin. unfold nvs_erase in Hin. apply list_elem_of_filter in Hin as [? _]. done. }
  induction (nvs_erase ns key) as [|e l IH]; cbn in *; [by rewrite bool_decide_eq_true_2|].
  destruct (bool_decide (e.1 = key)); [done|]. by apply IH.
Qed.
Lemma nvs_get_blob_set ns key blob cap : (length blob ≤ cap)%nat →
  nvs_get_blob (nvs_set ns key (NvBlob blob)) key cap = Some blob.
Proof. intros H. unfold nvs_get_blob. rewrite nvs_lookup_set. by rewrite (proj2 (Nat.leb_le _ _)). Qed.
Lemma persisted_length r : length (persisted_bytes r) = PERSISTED_SIZE.
Proof. reflexivity. Qed.
(** The flash holds records only under the keys the node writes. *)
Definition canonical (ns : nvs_ns) : Prop :=
  ∀ e a, e ∈ ns → peer_location_key_parse e.1 = Some a → e.1 = peer_location_record_key PEER_LOCATION_KEY_MAX a.
Lemma canonical_set ns a v : is_u32 a → canonical ns →
  canonical (nvs_set ns (peer_location_record_key PEER_LOCATION_KEY_MAX a) v).
Proof.
  intros Ha Hc e a'. unfold nvs_set, nvs_erase. rewrite elem_of_app, list_elem_of_filter, list_elem_of_singleton.
  intros [[_ He]| ->]; [by apply Hc|]. cbn [fst]. rewrite record_key_parse by done. congruence.
Qed.
(** The record of the peer after a save. *)
Lemma saved_record b ns a pos tier now r :
  is_u32 a → pos_ok pos → is_u32 now → is_u32 (bo_id b) → canonical ns →
  let ns' := location_store_save_peer b ns true true a pos tier now in
  ∀ boot, r ∈ omap (record_of ns' boot) ns' → rs_peer_addr r = a →
  rs_rec r = mk_lrec (mk_pos (po_latitude_e7 pos) (po_longitude_e7 pos) (po_altitude_m pos) (po_accuracy_m pos)
               (po_speed_kmh pos) (po_heading_deg2 pos) (po_timestamp pos) true) tier now (bo_id b)
               (negb (bo_id b =? 0) && (bo_id b =? boot)).
Proof.
  intros Ha Hpos Hnow Hb Hc ns' boot. rewrite list_elem_of_omap. intros (e & He & Er) Hra.
  unfold record_of in Er. destruct (peer_location_key_parse e.1) as [a'|] eqn:Ek; cbn in Er; [|done].
  destruct (nvs_get_blob _ _ _) as [blob|] eqn:Eb; cbn in Er; [|done].
  assert (Hc' : canonical ns') by (by apply canonical_set).
  destruct (peer_location_record_decode blob boot) as [[rec|]|] eqn:Ed; [|done..].
  injection Er as <-. cbn [rs_peer_addr rs_rec] in Hra |- *. subst a'. rewrite (Hc' e a He Ek) in Eb.
  set (stored := peer_location_record_encode pos tier now (location_store_boot_id b)).
  assert (blob = persisted_bytes stored) as ->.
  { change ns' with (nvs_set ns (peer_location_record_key PEER_LOCATION_KEY_MAX a) (NvBlob (persisted_bytes stored))) in Eb.
    rewrite (nvs_get_blob_set ns _ (persisted_bytes stored) PERSISTED_SIZE (Nat.eq_le_incl _ _ (persisted_length stored))) in Eb.
    congruence. }
  unfold peer_location_record_decode in Ed. rewrite persisted_length, Nat.eqb_refl, persisted_roundtrip in Ed.
  - apply (inj Some), (inj Some). rewrite <- Ed. reflexivity.
  - destruct Hpos as (? & ? & ? & _ & _ & _ & ?). unfold prec_ok. cbn. split_and!; try done; lia.
Qed.

Lemma location_init_ok : cache_ok location_init.
Proof. split; [apply (keyed_init (key := lc_peer_addr))|constructor]. Qed.
Lemma newest_elem max all out r : newest_of max all out → r ∈ out → r ∈ all.
Proof. intros (_ & _ & left & Hp & _) Hr. rewrite Hp. apply elem_of_app. by left. Qed.

(** Whatever the flash holds, the restore at boot stays in bounds and takes the
    sixteen newest records, by boot and then by uptime, newest first.  The cache it
    fills holds only records with coordinates; with one record per peer it holds all
    of those, and an age counts as known only for records of this very boot. *)
Theorem restored_positions_exact b ns :
  ∃ out, location_store_collect b ns true LOCATION_MAX_CONTACTS = Some out ∧
    newest_of LOCATION_MAX_CONTACTS (omap (record_of ns (bo_id b)) ns) out ∧
    let mgr := location_store_apply location_init out in
    (∀ a e, location_cache_get mgr a = Some e →
       ∃ r, r ∈ out ∧ placeable r = true ∧ rs_peer_addr r = a ∧ e = as_cached r ∧
         (lc_age_known e = true → bo_id b ≠ 0 ∧ re_boot_id (rs_rec r) = bo_id b)) ∧
    (NoDup (rs_peer_addr <$> out) →
     ∀ r, r ∈ out → placeable r = true → location_cache_get mgr (rs_peer_addr r) = Some (as_cached r)).
Proof.
  destruct (collect_newest b ns LOCATION_MAX_CONTACTS ltac:(unfold LOCATION_MAX_CONTACTS; lia)) as (out & E & Hn).
  exists out. split; [done|]. split; [done|]. cbv zeta. destruct (apply_ok out _ location_init_ok) as [Hok Hin]. split.
  - intros a e. rewrite cache_get_spec by done. intros He.
    destruct (Hin a e He) as [H|(r & Hr & Hpl & Ha & ->)]; [done|]. exists r. split_and!; try done.
    cbn [as_cached lc_age_known]. intros Hage. pose proof (newest_elem _ _ _ _ Hn Hr) as Hr'.
    apply list_elem_of_omap in Hr' as (x & _ & Ex). revert Ex. unfold record_of.
    destruct (peer_location_key_parse _); [|done]. destruct (nvs_get_blob _ _ _) as [blob|]; [|done]. cbn [mbind option_bind].
    unfold peer_location_record_decode. destruct (_ =? PERSISTED_SIZE)%nat.
    + destruct (persisted_of blob) as [rec|]; [|done]. cbn [mbind option_bind]. destruct (negb _); [done|].
      intros [= <-]. cbn in Hage |- *. apply andb_true_iff in Hage as [H1 H2]. apply Z.eqb_eq in H2.
      rewrite <- H2. destruct (pl_boot_id rec =? 0) eqn:E0; conds; done.
    + destruct (_ =? PEER_LOCATION_RECORD_V0_SIZE)%nat; [|done]. destruct (persisted_of _) as [rec|]; [|done].
      intros [= <-]. done.
  - intros Hnd r Hr Hpl. rewrite cache_get_spec by done.
    destruct (apply_all out location_init location_init_ok Hnd) with (a := rs_peer_addr r) as [H _]; [|by apply H].
    destruct Hn as (_ & Hl & _). exact Hl.
Qed.

(** A share without coordinates withdraws the peer's position: it leaves the
    cache at once, and once its record is in flash no later boot brings a position of
    that peer back. *)
Theorem withdrawn_positions_stay_gone mgr b ns a tier pos now b' :
  cache_ok mgr → canonical ns → is_u32 a → pos_ok pos → is_u32 now → is_u32 (bo_id b) →
  location_tier_has_coordinates tier = false →
  location_cache_get (location_cache_apply_share mgr a tier pos now) a = None ∧
  ∃ out, location_store_collect b' (location_store_save_peer b ns true true a pos tier now) true
           LOCATION_MAX_CONTACTS = Some out ∧
    location_cache_get (location_store_apply location_init out) a = None.
Proof.
  intros Hok Hc Ha Hpos Hnow Hb Ht. split.
  - destruct (run_cache_ok mgr (CShare a tier pos now) Hok) as [Hok' Hm]. cbn [run_cache] in *.
    rewrite cache_get_spec, Hm by done. cbn [spec_cache]. rewrite Ht. cbn [andb]. apply lookup_delete_eq.
  - set (ns' := location_store_save_peer b ns true true a pos tier now).
    destruct (collect_newest b' ns' LOCATION_MAX_CONTACTS ltac:(unfold LOCATION_MAX_CONTACTS; lia)) as (out & E & Hn).
    exists out. split; [done|]. destruct (apply_ok out _ location_init_ok) as [Hok' Hin].
    rewrite cache_get_spec by done. apply eq_None_not_Some. intros [e He].
    destruct (Hin a e He) as [H|(r & Hr & Hpl & Hra & _)]; [done|].
    pose proof (saved_record b ns a pos tier now r Ha Hpos Hnow Hb Hc _ (newest_elem _ _ _ _ Hn Hr) Hra) as Er.
    unfold placeable in Hpl. rewrite Er in Hpl. cbn [re_tier] in Hpl. by rewrite Ht in Hpl.
Qed.
(** Node 60 shared its exact position, then only its presence. *)
Definition known : location_manager_t :=
  location_cache_apply_share location_init 60 LOCATION_TIER_FULL sydney 1000.
Definition known_flash : nvs_ns :=
  location_store_save_peer (mk_boot 3 true) [(str_bytes "enabled", NvU8 1)] true true 60 sydney LOCATION_TIER_FULL 1000.
Lemma known_flash_canonical : canonical known_flash.
Proof.
  intros e a. unfold known_flash. intros He. apply elem_of_cons in He as [->|He]; [by vm_compute|].
  apply list_elem_of_singleton in He as ->. vm_compute. intros [= <-]. reflexivity.
Qed.
Lemma withdrawn_positions_stay_gone_witness :
  location_cache_get known 60 ≠ None ∧
  location_cache_get (location_cache_apply_share known 60 LOCATION_TIER_PRESENCE pos_zero 2000) 60 = None ∧
  ∃ out, location_store_collect (mk_boot 4 true)
           (location_store_save_peer (mk_boot 3 true) known_flash true true 60 pos_zero LOCATION_TIER_PRESENCE 2000)
           true LOCATION_MAX_CONTACTS = Some out ∧
    location_cache_get (location_store_apply location_init out) 60 = None.
Proof.
  split; [by vm_compute|].
  apply (withdrawn_positions_stay_gone known (mk_boot 3 true) known_flash 60 LOCATION_TIER_PRESENCE pos_zero 2000
           (mk_boot 4 true)); [|exact known_flash_canonical|unfold is_u32; lia| |unfold is_u32; lia| |reflexivity].
  - exact (proj1 (run_cache_ok location_init (CShare 60 LOCATION_TIER_FULL sydney 1000) location_init_ok)).
  - unfold pos_ok, is_u8, is_u32; cbn; lia.
  - unfold is_u32; cbn; lia.
Defined.
