(* ===== verification/MeshLocationSpec.v ===== *)
(** * Who learns a node's position, and whose positions it believes

    The policy tick of [main/mesh_location.c] transmits positions to the targets of
    the configured rules and to nobody else; the handler of location frames believes
    authentic frames only. *)

From stdpp Require Import base strings numbers sets option decidable list.
From S2P Require Import Prelude Tables Packet PacketSpec ReplayWindow NonceCounter TxGate Routing NetworkKey RoutingAuth ChannelFlood.
From S2P Require Import MeshRouting MeshRoutingSpec DmCrypto DmRatchet DmTable Identity Channel MeshDm MeshDmSpec.
From S2P Require Import Receipts MeshRx MeshRxSpec ParkedRetry Location MeshState MeshSend MeshSendSpec MeshBeacon.
From S2P Require Import MeshLocation LocationSpec.

(** ** Targets *)

Definition target_name (tg : location_target_t) : Z * Z := (tg_kind tg, tg_id tg).
(** The rule in flash that makes [tg] a target. *)
Definition ruled (ns : nvs_ns) (tg : location_target_t) : Prop :=
  ∃ key raw, nvs_lookup ns key = Some (NvStr raw) ∧ location_target_from_entry key raw = Some tg.

Lemma collect_target_ok ns out key :
  Forall (ruled ns) out → NoDup (target_name <$> out) →
  Forall (ruled ns) (collect_target ns out key) ∧ NoDup (target_name <$> collect_target ns out key).
Proof.
  intros Hr Hn. unfold collect_target, nvs_get_str.
  destruct (nvs_lookup ns key) as [[]|] eqn:Ek; try done.
  destruct (_ <? _)%nat; [|done]. destruct (location_target_from_entry key _) as [tg|] eqn:Et; [|done].
  destruct (existsb _ out) eqn:Ex; [done|]. destruct (_ <? _)%nat; [|done].
  split; [apply Forall_app; split; [done|]; constructor; [|done]; by eexists _, _|].
  rewrite fmap_app. apply NoDup_app. split; [done|]. split; [|apply NoDup_singleton].
  intros x (u & -> & Hu)%list_elem_of_fmap Hx. apply list_elem_of_singleton in Hx. injection Hx as E1 E2.
  assert (existsb (λ t, same_target t tg) out = true) as Hc; [|congruence].
  apply existsb_exists. exists u. split; [by apply list_elem_of_In|]. unfold same_target.
  by rewrite E1, E2, !Z.eqb_refl.
Qed.
Lemma targets_of_ok ns : Forall (ruled ns) (targets_of ns) ∧ NoDup (target_name <$> targets_of ns).
Proof.
  unfold targets_of. assert (∀ (es : nvs_ns) out, Forall (ruled ns) out → NoDup (target_name <$> out) →
    let out' := foldl (λ out e, collect_target ns out e.1) out es in
    Forall (ruled ns) out' ∧ NoDup (target_name <$> out')) as H.
  { induction es as [|e es IH]; intros out Hr Hn; cbn [foldl]; [done|].
    destruct (collect_target_ok ns out e.1 Hr Hn) as [Hr' Hn']. by apply IH. }
  apply H; [constructor|apply NoDup_nil_2].
Qed.

Lemma collect_target_length ns out key :
  (length out <= LOCATION_MAX_TARGETS)%nat → (length (collect_target ns out key) <= LOCATION_MAX_TARGETS)%nat.
Proof.
  intros Hl. unfold collect_target. destruct (nvs_get_str _ _ _); [|done].
  destruct (location_target_from_entry _ _); [|done]. destruct (existsb _ _); [done|].
  destruct (Nat.ltb_spec (length out) LOCATION_MAX_TARGETS); [|done]. rewrite length_app. cbn [length]. lia.
Qed.
Lemma targets_of_length ns : (length (targets_of ns) <= LOCATION_MAX_TARGETS)%nat.
Proof.
  unfold targets_of. assert (H : ∀ (es : nvs_ns) out, (length out <= LOCATION_MAX_TARGETS)%nat →
    (length (foldl (λ out e, collect_target ns out e.1) out es) <= LOCATION_MAX_TARGETS)%nat).
  { induction es as [|e es IH]; intros out Hl; cbn [foldl]; [done|]. by apply IH, collect_target_length. }
  apply H. unfold LOCATION_MAX_TARGETS. cbn [length]. lia.
Qed.

(** ** The schedule *)

Definition slot_name (s : location_schedule_slot_t) : Z * Z := (sl_kind s, sl_id s).
(** A slot for every target there can be, and one for each. *)
Definition sched_ok (sched : location_schedule_t) : Prop :=
  length sched = LOCATION_MAX_TARGETS ∧
  ∀ i j a b, sched !! i = Some a → sched !! j = Some b → sl_used a = true → sl_used b = true →
    slot_name a = slot_name b → i = j.
Definition names (tg : location_target_t) (s : location_schedule_slot_t) : Prop :=
  sl_used s = true ∧ slot_name s = target_name tg.
(** The last attempt for the target, if the schedule has one, is as long ago as it was to wait. *)
Definition due (sched : location_schedule_t) (t : Z) (tg : location_target_t) : Prop :=
  ∀ s, s ∈ sched → names tg s → sl_wait_ms s <= (t ⊖ sl_last_attempt_ms s).
Lemma slot_for_names tg s : slot_for (tg_kind tg) (tg_id tg) s = true ↔ names tg s.
Proof.
  unfold slot_for, names, slot_name, target_name. rewrite !andb_true_iff, !Z.eqb_eq.
  split; [intros [[? ->] ->]; done|intros [? [= -> ->]]; done].
Qed.
Lemma sched_find sched tg : sched_ok sched →
  match location_schedule_find sched (tg_kind tg) (tg_id tg) with
  | Some i => ∃ s, sched !! i = Some s ∧ names tg s ∧ ∀ s', s' ∈ sched → names tg s' → s' = s
  | None => ∀ s, s ∈ sched → ¬ names tg s
  end.
Proof.
  intros [Hl Hu]. unfold location_schedule_find. destruct (find_index _ sched) as [i|] eqn:E.
  - apply find_index_Some in E as (s & Hs & Hf & _). apply slot_for_names in Hf. exists s. split; [done|]. split; [done|].
    intros s' [j Hj]%list_elem_of_lookup [Hu' Hn']. destruct Hf as [Huf Hnf]. assert (i = j) as -> by (eapply Hu; [done|done|done|done|congruence]). congruence.
  - apply find_index_None in E. intros s Hs Hn%slot_for_names. rewrite list.Forall_forall in E. by rewrite (E s Hs) in Hn.
Qed.
Lemma is_due_spec sched tg t : sched_ok sched → location_schedule_is_due sched tg t = true ↔ due sched t tg.
Proof.
  intros Hok. pose proof (sched_find sched tg Hok) as Hf. unfold location_schedule_is_due.
  destruct (location_schedule_find _ _ _) as [i|].
  - destruct Hf as (s & Hs & Hn & Hu). rewrite (list_lookup_total_correct _ _ _ Hs), Z.geb_leb, Z.leb_le. split.
    + intros H s' Hs' Hn'. by rewrite (Hu s' Hs' Hn').
    + intros H. apply H; [by eapply list_elem_of_lookup_2|done].
  - split; [|done]. intros _ s Hs Hn. by destruct (Hf s Hs).
Qed.
(** Every slot in use is some target's of [all]. *)
Definition within (all : list location_target_t) (sched : location_schedule_t) : Prop :=
  ∀ s, s ∈ sched → sl_used s = true → ∃ tg, tg ∈ all ∧ names tg s.
Lemma used_names_NoDup sched : sched_ok sched → (∀ s, s ∈ sched → sl_used s = true) → NoDup (slot_name <$> sched).
Proof.
  intros [_ Hu] Hall. apply NoDup_alt. intros i j x Hi Hj. rewrite list_lookup_fmap in Hi, Hj.
  apply fmap_Some in Hi as (a & Ha & ->). apply fmap_Some in Hj as (b & Hb & E).
  eapply Hu; [done|done|by apply Hall, (list_elem_of_lookup_2 _ i)|by apply Hall, (list_elem_of_lookup_2 _ j)|done].
Qed.
(** A target without a slot finds one that is free: the schedule holds other targets only. *)
Lemma record_finds all sched tg :
  sched_ok sched → within all sched → (length all <= LOCATION_MAX_TARGETS)%nat → tg ∈ all →
  (∀ s, s ∈ sched → ¬ names tg s) → ∃ s, s ∈ sched ∧ sl_used s = false.
Proof.
  intros Hok Hw Hl Htg Hno. destruct (decide (Exists (λ s, sl_used s = false) sched)) as [H|H].
  { by apply Exists_exists in H as (s & ? & ?); eauto. }
  assert (Hall : ∀ s, s ∈ sched → sl_used s = true).
  { intros s Hs. destruct (sl_used s) eqn:E; [done|]. destruct H. apply Exists_exists. eauto. }
  exfalso. assert (Hnd : NoDup (target_name tg :: (slot_name <$> sched))).
  { apply NoDup_cons. split; [|by apply used_names_NoDup]. intros (s & E & Hs)%list_elem_of_fmap.
    apply (Hno s Hs). split; [by apply Hall|done]. }
  assert (Hsub : target_name tg :: (slot_name <$> sched) ⊆ (target_name <$> all)).
  { intros x [->|(s & -> & Hs)%list_elem_of_fmap]%list.elem_of_cons; [by apply list_elem_of_fmap; eauto|].
    destruct (Hw s Hs (Hall s Hs)) as (tg' & Htg' & [_ E]). apply list_elem_of_fmap. eauto. }
  apply NoDup_submseteq in Hsub; [|done]. apply submseteq_length in Hsub. cbn [length] in Hsub.
  rewrite !length_fmap in Hsub. destruct Hok as [E _]. lia.
Qed.
(** Recording an attempt changes the slot of its target and no other. *)
Lemma record_spec all sched tg t sent :
  sched_ok sched → within all sched → (length all <= LOCATION_MAX_TARGETS)%nat → tg ∈ all →
  let sched' := location_schedule_record sched tg t sent in
  sched_ok sched' ∧ within all sched' ∧
  (∃ s, s ∈ sched' ∧ names tg s ∧ sl_last_attempt_ms s = t ∧ sl_wait_ms s = schedule_wait tg sent) ∧
  ∀ tg', target_name tg' ≠ target_name tg → ∀ s, names tg' s → s ∈ sched' ↔ s ∈ sched.
Proof.
  intros Hok Hw Hl Htg. cbn zeta. unfold location_schedule_record. set (i := match location_schedule_find _ _ _ with Some _ => _ | None => _ end).
  assert (Hi : ∃ old, sched !! i = Some old ∧ (names tg old ∨ sl_used old = false) ∧
    ∀ j b, sched !! j = Some b → names tg b → j = i).
  { pose proof (sched_find sched tg Hok) as Hf. unfold i. destruct (location_schedule_find _ _ _) as [k|].
    - destruct Hf as (s & Hs & Hn & _). exists s. split; [done|]. split; [by left|]. intros j b Hb [Hub Hnb]. destruct Hn as [Hus Hns].
      destruct Hok as [_ Hu]. eapply Hu; [done|done|done|done|congruence].
    - destruct (record_finds all sched tg Hok Hw Hl Htg Hf) as (s & Hs & Hfree).
      destruct (find_index _ sched) as [k|] eqn:Ek.
      + apply find_index_Some in Ek as (x & Hx & Hxf & _). apply negb_true_iff in Hxf. exists x. split; [done|]. split; [by right|].
        intros j b Hb Hn. destruct (Hf b); [by eapply list_elem_of_lookup_2|done].
      + apply find_index_None in Ek. rewrite list.Forall_forall in Ek. specialize (Ek s Hs). cbn in Ek. by rewrite Hfree in Ek. }
  destruct Hi as (old & Hold & Hcase & Honly). clearbody i. set (new := mk_lslot _ _ _ _ _).
  assert (Hnew : names tg new) by done. assert (Hlt := lookup_lt_Some _ _ _ Hold).
  assert (Hin : ∀ s, s ∈ <[i := new]> sched ↔ s = new ∨ ∃ j, j ≠ i ∧ sched !! j = Some s).
  { intros s. rewrite list_elem_of_lookup. setoid_rewrite list_lookup_insert_Some. naive_solver. }
  split; [split|split; [|split]].
  - rewrite length_insert. apply Hok.
  - intros a b x y Ha Hb Hx Hy E. rewrite list_lookup_insert_Some in Ha, Hb. destruct Hok as [_ Hu].
    destruct Ha as [(<- & <- & _)|[Ha1 Ha]], Hb as [(<- & <- & _)|[Hb1 Hb]]; [done| | |by eapply Hu].
    + symmetry. by apply (Honly b y).
    + by apply (Honly a x).
  - intros s [->|(j & _ & Hj)]%Hin Hs; [by exists tg|]. apply Hw; [by eapply list_elem_of_lookup_2|done].
  - exists new. split; [apply Hin; by left|]. done.
  - intros tg' Hne s Hs. rewrite Hin. split.
    + intros [->|(j & _ & Hj)]; [|by eapply list_elem_of_lookup_2]. destruct Hs as [_ E]. by destruct Hne.
    + intros [j Hj]%list_elem_of_lookup. right. exists j. split; [|done]. intros ->. rewrite Hold in Hj. injection Hj as ->.
      destruct Hs as [Hu E]. destruct Hcase as [[_ E']|E']; congruence.
Qed.
Lemma retain_spec sched targets : sched_ok sched →
  let sched' := location_schedule_retain sched targets in
  sched_ok sched' ∧ within targets sched' ∧ ∀ t tg, tg ∈ targets → due sched' t tg ↔ due sched t tg.
Proof.
  intros [Hl Hu]. cbn zeta. unfold location_schedule_retain. set (f := λ s, if _ && _ then _ else s).
  assert (Hname : ∀ s, slot_name (f s) = slot_name s) by (intros s; unfold f; by destruct (_ && _)).
  assert (Hused : ∀ s, sl_used (f s) = true → f s = s ∧ ∃ tg, tg ∈ targets ∧ names tg s).
  { intros s. unfold f. destruct (sl_used s) eqn:E; cbn [andb]; [|by rewrite E]. destruct (configured targets s) eqn:Ec; cbn [negb]; [|done].
    intros _. split; [done|]. apply existsb_exists in Ec as (tg & Hin%list_elem_of_In & Hc). exists tg. split; [done|].
    apply andb_true_iff in Hc as [E1%Z.eqb_eq E2%Z.eqb_eq]. split; [done|]. unfold slot_name, target_name. congruence. }
  assert (Hin : ∀ s, s ∈ map f sched → sl_used s = true → s ∈ sched).
  { intros s (x & -> & Hx)%list_elem_of_fmap Hs. by destruct (Hused x Hs) as [-> _]. }
  split; [split|split].
  - by rewrite length_map.
  - intros i j a b Ha Hb. change (map f sched) with (f <$> sched) in *. rewrite list_lookup_fmap in Ha, Hb.
    apply fmap_Some in Ha as (x & Hx & ->). apply fmap_Some in Hb as (y & Hy & ->). intros Ux Uy.
    destruct (Hused x Ux) as [Ex _], (Hused y Uy) as [Ey _]. rewrite Ex, Ey in *. by eapply Hu.
  - intros s (x & -> & Hx)%list_elem_of_fmap Hs. destruct (Hused x Hs) as [-> ?]. done.
  - intros t tg Htg. split; intros Hd s Hs Hn.
    + apply Hd; [|done]. assert (f s = s) as <-; [|by apply list_elem_of_fmap; eauto]. unfold f.
      assert (configured targets s = true) as ->; [|by rewrite andb_false_r]. apply existsb_exists. exists tg.
      split; [by apply list_elem_of_In|]. destruct Hn as [_ [= -> ->]]. by rewrite !Z.eqb_refl.
    + apply Hd; [|done]. apply Hin; [done|apply Hn].
Qed.

(** ** Shares *)

Section Shares.
Context `{DC : DmCrypto} `{DL : !DmCryptoLaws} `{IC : IdCrypto} (hmac : list Z → list Z → list Z)
  `{HL : !HmacLaws hmac}.

(** [frame] carries [inner] sealed for the target: under the key of the channel it
    names, or in the session with the contact it names. *)
Definition sealed_for (chs : list bramble_channel_t) (table : dm_table_t) (me : Z) (tg : location_target_t)
    (inner frame : list Z) : Prop :=
  ∃ pkt mac nonce ct tag,
    if tg_kind tg =? LOCATION_TARGET_CHANNEL then
      0 < tg_id tg < Z.of_nat (length chs) ∧
      data_frame BRAMBLE_MAX_PACKET_SIZE (location_header (Z.lor FLAG_ENCRYPT FLAG_CHANNEL) UINT32_MAX pkt) me mac
        nonce ct tag = Some frame ∧
      ∃ aad, channel_msg_encrypt (chs !!! Z.to_nat (tg_id tg)) me APP_TYPE_LOCATION 0 inner aad nonce =
        Some (ct, tag)
    else
      data_frame BRAMBLE_MAX_PACKET_SIZE (location_header FLAG_ENCRYPT (tg_id tg) pkt) me mac nonce ct tag =
        Some frame ∧
      ∃ s0 sess, s0 ∈ table ∧ same_session s0 sess ∧ ss_peer_addr s0 = tg_id tg ∧
        dm_in_state DM_STATE_ACTIVE s0 = true ∧
        (dm_session_ratchet_encrypt sess (location_header FLAG_ENCRYPT (tg_id tg) pkt) me
           (inner ++ replicate CHANNEL_MSG_OVERHEAD 0) nonce).1 = Some (ct, tag).

(** At most one data frame goes out, and it satisfies [P]. *)
Definition sends (P : list Z → Prop) (n n' : node) : Prop :=
  nd_out n' = nd_out n ∨ ∃ frame ok, nd_out n' = nd_out n ++ [DTx frame TX_KIND_DATA ok] ∧ P frame.
Lemma sends_none P n n' : nd_out n' = nd_out n → sends P n n'.
Proof. by left. Qed.
Lemma sends_from P n n1 n' : nd_out n1 = nd_out n → sends P n1 n' → sends P n n'.
Proof. unfold sends. by intros ->. Qed.
Lemma sends_mono (P Q : list Z → Prop) n n' : (∀ f, P f → Q f) → sends P n n' → sends Q n n'.
Proof. intros H [E|(f & ok & E & Hf)]; [by left|right]. eauto 6. Qed.

(** A step of the transmission: quiet, with the queue and the log as they were. *)
Definition hushed (n n' : node) : Prop := quiet n n' ∧ same_qm n n'.
#[local] Instance hushed_po : PreOrder hushed.
Proof.
  unfold hushed. split; [intros n; split; reflexivity|].
  intros a b c [H1 H2] [H3 H4]. split; [by transitivity b|]. unfold same_qm in *. intuition congruence.
Qed.

Lemma packet_id_spec n : wp next_packet_id n (λ _ n', hushed n n' ∧ nd_out n' = nd_out n).
Proof.
  unfold wp, next_packet_id, hushed, same_qm. destruct (nd_counter n =? 0); repeat split; try done; by apply H.
Qed.
Lemma nonce_spec n :
  wp nonce_next n (λ r n', (hushed n n' ∧ nd_out n' = nd_out n) ∧
    (env_ok (nd_env n) → ∀ b, r = Some b → length b = 12%nat)).
Proof.
  pose proof (wp_nonce n) as H. unfold wp, nonce_next in *. destruct H as [Hq Hn].
  unfold hushed, same_qm. split; [|exact Hn]. split; [|done]. split; [exact Hq|done].
Qed.

Lemma transmit_spec n0 h nonce ct tag n :
  length nonce = 12%nat → length tag = 16%nat → (length ct ≤ 200)%nat →
  wp (location_transmit hmac n0 h nonce ct tag) n (λ _ n', hushed n n' ∧
    sends (λ frame, ∃ mac, data_frame BRAMBLE_MAX_PACKET_SIZE h (id_address (nd_id n0)) mac nonce ct tag =
      Some frame) n n').
Proof.
  intros Hn Ht Hc. unfold location_transmit, data_auth_sign.
  pose proof (mac_length hmac (nd_key n0) data_label (data_build_auth_buf h (id_address (nd_id n0)))) as Hmac.
  destruct (network_key_mac _ _ _ _) as [rc mac]. cbn [snd] in Hmac.
  destruct (rc =? 0); cbn [negb]; [|apply wp_ret; split; [reflexivity|by apply sends_none]].
  destruct (data_frame_total BRAMBLE_MAX_PACKET_SIZE h (id_address (nd_id n0)) mac nonce ct tag)
    as (buf & Hbuf & _); [rewrite Hmac, Hn, Ht; unfold BRAMBLE_MAX_PACKET_SIZE; lia|].
  apply wp_bind. eapply wp_lift; [exact Hbuf|]. apply wp_bind. unfold mesh_tx at 1, wp at 1.
  apply wp_ret. split; [split; [quiet_step|done]|].
  right. cbn [nd_out set_out]. eauto.
Qed.

Lemma tx_channel_spec tg inner n :
  env_ok (nd_env n) → length inner = L_LOC_INNER → tg_kind tg = LOCATION_TARGET_CHANNEL →
  wp (location_tx_channel hmac (tg_id tg) inner) n (λ _ n', hushed n n' ∧
    sends (sealed_for (nd_channels n) (nd_table n) (id_address (nd_id n)) tg inner) n n').
Proof.
  intros Henv Hin Hk. unfold location_tx_channel. apply wp_bind, wp_get.
  assert (Hno : hushed n n ∧ sends (sealed_for (nd_channels n) (nd_table n) (id_address (nd_id n)) tg inner) n n)
    by (split; [reflexivity|by apply sends_none]).
  destruct ((tg_id tg <? 0) || _) eqn:Er; [by apply wp_ret|].
  destruct (location_channel_target_is_permitted _) eqn:Ep; cbn [negb]; [|by apply wp_ret].
  apply orb_false_iff in Er as [E1 E2].
  assert (Hr : 0 < tg_id tg < Z.of_nat (length (nd_channels n))).
  { unfold location_channel_target_is_permitted, LOCATION_PUBLIC_CHANNEL_INDEX in Ep. conds. lia. }
  apply wp_bind. eapply wp_mono; [apply packet_id_spec|]. intros pkt n1 [H1 O1]. cbv beta.
  apply wp_bind, wp_get. cbn zeta. apply wp_bind.
  eapply wp_lift; [apply build_aead_aad_spec; by rewrite ?length_replicate|].
  apply wp_bind. eapply wp_mono; [apply nonce_spec|]. intros nonce n2 [[H2 O2] Hn]. cbv beta.
  assert (H12 : hushed n n2) by (by transitivity n1).
  assert (O12 : nd_out n2 = nd_out n) by congruence.
  destruct nonce as [nonce|]; [|apply wp_ret; split; [done|by apply sends_none]].
  destruct (channel_msg_encrypt _ _ _ _ _ _ _) as [[ct tag]|] eqn:Ee;
    [|apply wp_ret; split; [done|by apply sends_none]].
  specialize (Hn (env_ok_quiet _ _ (proj1 H1) Henv) nonce eq_refl).
  destruct (channel_encrypt_length _ _ _ _ _ _ _ _ _ Ee) as [Hct Htag]. rewrite Hin in Hct.
  cbn [Z.eqb APP_TYPE_LOCATION APP_TYPE_CHAT Pos.eqb] in Hct.
  apply wp_bind. eapply wp_lift; [apply in_buf_fits; lia|].
  eapply wp_mono; [apply transmit_spec; [done|done|rewrite Hct; apply Nat.leb_le; reflexivity]|]. cbv beta. intros _ n3 [H3 Hs]. split; [by transitivity n2|].
  apply (sends_from _ _ n2); [done|]. eapply sends_mono; [|exact Hs]. intros frame [mac Hf].
  destruct H1 as [((Hid & _ & Hch & _) & Ht & _) _]. rewrite Hid, Hch in *.
  exists pkt, mac, nonce, ct, tag. rewrite Hk. cbn [Z.eqb LOCATION_TARGET_CHANNEL Pos.eqb]. split; [done|].
  split; [exact Hf|]. eexists. exact Ee.
Qed.

(** A step of a share: a session may have moved on, nothing else. *)
Definition shares_step (P : list Z → Prop) (n n' : node) : Prop :=
  talks n n' ∧ same_qm n n' ∧ sends P n n'.
Lemma hushed_step P n n' : hushed n n' → sends P n n' → shares_step P n n'.
Proof. intros [Hq Hs] Ho. split; [by apply quiet_talks|done]. Qed.
Lemma set_session_talks i s s' n :
  nd_table n !! i = Some s → same_session s s' →
  talks n (set_table n (<[i := s']> (nd_table n))).
Proof. intros Hi Hs. apply (used_talks i). unfold used_session, static_eq. fields. eauto. Qed.

Lemma tx_directed_spec tg inner n :
  env_ok (nd_env n) → length inner = L_LOC_INNER → tg_kind tg ≠ LOCATION_TARGET_CHANNEL →
  wp (location_tx_directed hmac (tg_id tg) inner) n (λ _ n',
    shares_step (sealed_for (nd_channels n) (nd_table n) (id_address (nd_id n)) tg inner) n n').
Proof.
  intros Henv Hin Hk. unfold location_tx_directed.
  apply wp_bind. eapply wp_mono; [apply packet_id_spec|]. intros pkt n1 [H1 O1]. cbv beta.
  apply wp_bind, wp_get. cbn zeta. set (P := sealed_for _ _ _ _ _).
  assert (Hid : nd_id n1 = nd_id n) by (destruct H1 as [[(-> & _) _] _]; done).
  assert (Ht : nd_table n1 = nd_table n) by (destruct H1 as [(_ & -> & _) _]; done).
  destruct (dm_lookup _ _) as [i|] eqn:El; [|by apply wp_ret, hushed_step, sends_none].
  destruct (dm_in_state _ _) eqn:Ea; cbn [negb]; [|by apply wp_ret, hushed_step, sends_none].
  apply wp_bind. eapply wp_mono; [apply nonce_spec|]. intros nonce n2 [[H2 O2] Hn]. cbv beta.
  assert (H12 : hushed n n2) by (by transitivity n1).
  assert (O12 : nd_out n2 = nd_out n) by congruence.
  assert (Ht2 : nd_table n2 = nd_table n) by (destruct H2 as [(_ & -> & _) _]; done).
  destruct nonce as [nonce|]; [|by apply wp_ret, hushed_step, sends_none].
  destruct (find_index_Some _ _ _ El) as (s & Hs & Hp & _).
  rewrite (list_lookup_total_correct _ _ _ Hs) in *.
  pose proof (ratchet_encrypt_same s (location_header FLAG_ENCRYPT (tg_id tg) pkt) (id_address (nd_id n1))
    (inner ++ replicate CHANNEL_MSG_OVERHEAD 0) nonce) as Hsame.
  destruct (dm_session_ratchet_encrypt _ _ _ _ _) as [[[ct tag]|] s'] eqn:Ee; cbn [snd] in Hsame.
  2: { apply wp_bind, wp_modify, wp_ret. split; [|split].
       - transitivity n2; [apply quiet_talks, H12|]. eapply set_session_talks; [|done]. by rewrite Ht2, <- Ht.
       - exact (proj2 H12).
       - by apply sends_none. }
  pose proof (ratchet_encrypt_length s (location_header FLAG_ENCRYPT (tg_id tg) pkt) (id_address (nd_id n1))
    (inner ++ replicate CHANNEL_MSG_OVERHEAD 0) nonce ct tag) as Hlen. rewrite Ee in Hlen.
  destruct (Hlen eq_refl) as [Hct Htag]. rewrite length_app, length_replicate, Hin in Hct.
  specialize (Hn (env_ok_quiet _ _ (proj1 H1) Henv) nonce eq_refl).
  apply wp_bind. eapply wp_lift; [apply in_buf_fits; unfold DM_RATCHET_HEADER_SIZE; lia|].
  apply wp_bind, wp_now. apply wp_bind, wp_modify.
  set (n3 := set_table n2 _).
  assert (H3 : talks n n3).
  { transitivity n2; [apply quiet_talks, H12|]. eapply set_session_talks; [by rewrite Ht2, <- Ht|].
    eapply same_session_trans; [exact Hsame|apply stamp_same]. }
  apply wp_bind. eapply wp_mono; [apply transmit_spec; [done|done|rewrite Hct; apply Nat.leb_le; reflexivity]|]. cbv beta. intros r n4 [H4 Hsd]. apply wp_ret.
  split; [transitivity n3; [done|apply quiet_talks, H4]|]. split.
  { destruct H12 as [_ [Q1 Q2]], H4 as [_ [Q3 Q4]]. unfold same_qm. rewrite Q3, Q4. done. }
  apply (sends_from _ _ n3); [done|]. eapply sends_mono; [|exact Hsd]. intros frame [mac Hf].
  rewrite Hid in *. exists pkt, mac, nonce, ct, tag. rewrite (proj2 (Z.eqb_neq _ _) Hk).
  split; [exact Hf|]. exists s, s. rewrite Ht in Hs. unfold slot_for_peer in Hp.
  apply andb_true_iff in Hp as [Hp1 Hp2].
  split; [by eapply list_elem_of_lookup_2|]. split; [apply same_session_refl|].
  rewrite Ee. conds. done.
Qed.

(** *** The loop over the targets *)

Lemma build_inner_total pos tier : ∃ r, location_build_inner pos tier = Some r ∧
  ∀ inner, r = Some inner → length inner = L_LOC_INNER.
Proof.
  unfold location_build_inner, location_serialize_for_tier.
  destruct (tier =? LOCATION_TIER_FULL); [|destruct (tier =? LOCATION_TIER_PRESENCE)];
    (eexists; split; [reflexivity|]; by intros inner [= <-]).
Qed.
Lemma sealed_for_before chs table table' me tg inner frame :
  same_table table table' → sealed_for chs table' me tg inner frame → sealed_for chs table me tg inner frame.
Proof.
  intros Ht (pkt & mac & nonce & ct & tag & H). exists pkt, mac, nonce, ct, tag.
  destruct (tg_kind tg =? LOCATION_TARGET_CHANNEL); [done|].
  destruct H as (Hf & s & sess & Hs & Hss & Hp & Ha & He). split; [done|].
  apply list_elem_of_lookup_1 in Hs as [i Hi].
  destruct (same_table_lookup _ _ _ _ Ht Hi) as (s0 & Hi0 & H0).
  exists s0, sess. split; [by eapply list_elem_of_lookup_2|].
  split; [by eapply same_session_trans|]. destruct H0 as (E1 & _ & _ & _ & _ & E2 & _).
  unfold dm_in_state in *. by rewrite <- E1, <- E2.
Qed.

(** Since [s0] the invariant held, and nobody changed identity, channels or the
    peers of the sessions. *)
Definition since (s0 s : mt) : Prop :=
  mt_inv s ∧ nd_id (mt_node s) = nd_id (mt_node s0) ∧ nd_channels (mt_node s) = nd_channels (mt_node s0) ∧
  same_table (nd_table (mt_node s0)) (nd_table (mt_node s)).
Lemma since_step P s0 s n' : since s0 s → shares_step P (mt_node s) n' → since s0 (mset_node s n').
Proof.
  intros ([Hn Hv] & Hi & Hc & Ht) (Hk & Hq & _). unfold since, mt_inv. cbn [mt_node mset_node].
  change (mt_node (mset_node s n')) with n'. pose proof Hk as ((E1 & _ & E2 & _) & E3 & _).
  split; [split; [by eapply talks_ok|by eapply same_qm_inv]|]. split; [congruence|]. split; [congruence|].
  by transitivity (nd_table (mt_node s)).
Qed.
Lemma since_node s0 s s' : mt_node s' = mt_node s → since s0 s → since s0 s'.
Proof. unfold since, mt_inv. by intros ->. Qed.
Lemma work_since w s0 s :
  since s0 s → work_ok w →
  swp (on_nd (work_send w)) s (λ _ s', since s0 s' ∧ nd_out (mt_node s') = nd_out (mt_node s) ∧
    lo_schedule (mt_loc s') = lo_schedule (mt_loc s)).
Proof.
  intros ([Hn Hv] & Hi & Hc & Ht) Hw. apply swp_nd.
  destruct (wp_elim _ _ _ (work_send_ok w _ Hn Hw)) as (x & n' & E & H1 & (E1 & _ & E2 & _) & E3).
  unfold wp. rewrite E. unfold since, mt_inv. change (mt_node (mset_node s n')) with n'.
  rewrite E1, E2, E3. unfold work_send in E.
  destruct (_ <? _)%nat; injection E as _ <-; done.
Qed.

(** [ev] is the share of [pos] for [tg]. *)
Definition share_event (s0 : mt) (pos : bramble_position_t) (tg : location_target_t) (ev : dm_event) : Prop :=
  ∃ frame ok inner, ev = DTx frame TX_KIND_DATA ok ∧ location_build_inner pos (tg_tier tg) = Some (Some inner) ∧
    sealed_for (nd_channels (mt_node s0)) (nd_table (mt_node s0)) (id_address (nd_id (mt_node s0))) tg inner frame.
Definition outs (s : mt) : list dm_event := nd_out (mt_node s).
Definition shared (s0 : mt) (pos : bramble_position_t) (tg : location_target_t) (s s' : mt) : Prop :=
  since s0 s' ∧ (outs s' = outs s ∨ ∃ ev, outs s' = outs s ++ [ev] ∧ share_event s0 pos tg ev).
Abbreviation sched_of s := (lo_schedule (mt_loc s)).
Lemma shared_step s0 pos tg inner s n' :
  since s0 s → location_build_inner pos (tg_tier tg) = Some (Some inner) →
  shares_step (sealed_for (nd_channels (mt_node s)) (nd_table (mt_node s)) (id_address (nd_id (mt_node s))) tg inner)
    (mt_node s) n' →
  shared s0 pos tg s (mset_node s n') ∧ sched_of (mset_node s n') = sched_of s.
Proof.
  intros Hs Hb Hst. split; [|done]. split; [by eapply since_step|]. unfold outs. change (mt_node (mset_node s n')) with n'.
  destruct Hst as (_ & _ & [E|(frame & ok & E & Hf)]); [by left|right].
  exists (DTx frame TX_KIND_DATA ok). split; [done|]. exists frame, ok, inner. split; [done|]. split; [done|].
  destruct Hs as (_ & Hi & Hc & Ht). rewrite Hi, Hc in Hf. by eapply sealed_for_before.
Qed.

(** Steps that transmit nothing. *)
Definition silent_since (s0 s s' : mt) : Prop := since s0 s' ∧ outs s' = outs s ∧ sched_of s' = sched_of s.
Lemma silent_loc {A} s0 s f (k : unit → T A) Q :
  since s0 s → lo_schedule (f (mt_loc s)) = sched_of s →
  (∀ s', silent_since s0 s s' → swp (k tt) s' Q) → swp (set_loc f ≫= k) s Q.
Proof. intros Hs Hf Hk. apply swp_bind, swp_modify, Hk. split; [by apply (since_node s0 s)|done]. Qed.
Lemma request_session_spec s0 s peer t :
  since s0 s → swp (location_request_dm_session peer t) s (λ _ s', silent_since s0 s s').
Proof.
  intros Hs. unfold location_request_dm_session. apply swp_bind, swp_get. cbn zeta.
  destruct (_ || _); [by apply swp_ret|]. destruct (match dm_lookup _ _ with Some _ => _ | None => _ end);
    [by apply swp_ret|].
  destruct (location_hs_should_attempt _ _ _ _ _) as [attempt table].
  eapply silent_loc; [done|done|]. intros s1 (H1 & E1 & L1). destruct attempt; cbn [negb]; [|by apply swp_ret].
  eapply swp_mono; [by apply (work_since _ s0)|]. cbv beta. intros _ s2 (H2 & E2 & L2). split; [done|].
  unfold outs in *. split; congruence.
Qed.

Lemma share_target_spec s0 s t pos tg acc :
  since s0 s → swp (share_target hmac t pos tg acc) s (λ _ s', shared s0 pos tg s s' ∧
    ∃ sent, sched_of s' = location_schedule_record (sched_of s) tg t sent).
Proof.
  intros Hs. unfold share_target. destruct acc as [sent_count handshake_started].
  destruct (build_inner_total pos (tg_tier tg)) as (inner & Hb & Hbl).
  apply swp_bind. eapply swp_lift; [exact Hb|]. apply swp_bind.
  apply (swp_mono _ _ (λ _ s', shared s0 pos tg s s' ∧ sched_of s' = sched_of s)).
  { destruct inner as [inner|]; [|apply swp_ret; split; [|done]; split; [done|by left]].
    specialize (Hbl inner eq_refl).
    assert (Henv : env_ok (nd_env (mt_node s))) by apply Hs.
    destruct (Z.eqb_spec (tg_kind tg) LOCATION_TARGET_CHANNEL) as [Hk|Hk].
    - apply swp_bind, swp_nd. eapply wp_mono; [by apply tx_channel_spec|]. cbv beta. intros pkt n' [Hh Ho].
      apply swp_ret. eapply shared_step; [done..|]. by apply hushed_step.
    - apply swp_nd. eapply wp_mono; [by apply tx_directed_spec|]. cbv beta. intros r n' Hst.
      by eapply shared_step. }
  intros [pkt needs_session] s1 [[H1 Ho1] L1]. cbv beta iota. cbn zeta.
  apply swp_bind. apply (swp_mono _ _ (λ _ s', silent_since s0 s1 s')).
  { destruct (tg_kind tg =? LOCATION_TARGET_CONTACT); [|by apply swp_ret]. destruct needs_session.
    - destruct handshake_started; cbn [negb]; [by apply swp_ret|by apply request_session_spec].
    - eapply silent_loc; [done|done|]. intros s2 H2. by apply swp_ret. }
  intros started s2 (H2 & E2 & L2). apply swp_bind, swp_modify, swp_ret.
  split; [split; [by apply (since_node s0 s2)|]|].
  - unfold outs in *. change (mt_node (mset_loc s2 _)) with (mt_node s2). by rewrite E2.
  - exists (negb (pkt =? 0)). change (sched_of (mset_loc s2 _)) with (location_schedule_record (sched_of s2) tg t (negb (pkt =? 0))).
    by rewrite L2, L1.
Qed.

(** The schedule has an attempt for [tg] at [t]. *)
Definition attempted (sched : location_schedule_t) (t : Z) (tg : location_target_t) : Prop :=
  ∃ s sent, s ∈ sched ∧ names tg s ∧ sl_last_attempt_ms s = t ∧ sl_wait_ms s = schedule_wait tg sent.
(** The shares of a sublist of the targets, in order, each at most once and each due in
    the schedule [sched0]; they are on record. *)
Definition shared_all (s0 : mt) (t : Z) (pos : bramble_position_t) (targets : list location_target_t) (s s' : mt) : Prop :=
  since s0 s' ∧ sched_ok (sched_of s') ∧
  (∀ tg, target_name tg ∉ target_name <$> targets → ∀ x, names tg x → x ∈ sched_of s' ↔ x ∈ sched_of s) ∧
  ∃ tgs evs, tgs `sublist_of` targets ∧ Forall2 (share_event s0 pos) tgs evs ∧
    outs s' = outs s ++ evs ∧ Forall (due (sched_of s) t) tgs ∧ Forall (attempted (sched_of s') t) tgs.
Lemma due_same sched sched' t tg :
  (∀ x, names tg x → x ∈ sched' ↔ x ∈ sched) → due sched' t tg → due sched t tg.
Proof. intros H Hd s Hs Hn. apply Hd; [by apply H|done]. Qed.
Lemma attempted_same sched sched' t tg :
  (∀ x, names tg x → x ∈ sched' ↔ x ∈ sched) → attempted sched t tg → attempted sched' t tg.
Proof. intros H (s & sent & Hs & Hn & E). exists s, sent. split; [by apply H|done]. Qed.
Lemma share_loop_spec s0 t pos all targets : ∀ s acc,
  since s0 s → sched_ok (sched_of s) → within all (sched_of s) → (length all <= LOCATION_MAX_TARGETS)%nat →
  targets ⊆ all → NoDup (target_name <$> targets) →
  swp (share_loop hmac t pos targets acc) s (λ _ s', shared_all s0 t pos targets s s').
Proof.
  induction targets as [|tg rest IH]; intros s acc Hs Hok Hw Hl Hsub Hnd; cbn [share_loop].
  { apply swp_ret. split; [done|]. split; [done|]. split; [done|]. exists [], []. split; [done|]. split; [constructor|].
    rewrite app_nil_r. split; [done|]. split; constructor. }
  assert (Htg : tg ∈ all) by (apply Hsub; left). assert (Hrest : rest ⊆ all) by (intros x Hx; apply Hsub; by right).
  cbn in Hnd. apply NoDup_cons in Hnd as [Hnot Hnd].
  apply swp_bind, swp_get. apply swp_bind.
  destruct (location_schedule_is_due (sched_of s) tg t) eqn:Ed; cbn [negb].
  2: { apply swp_ret. eapply swp_mono; [by apply IH|]. cbv beta.
    intros _ s2 (H2 & Hok2 & Hsame & tgs & evs & Hsl & Hf & E & Hdue & Hatt). split; [done|]. split; [done|]. split.
    - intros tg' Hn. apply Hsame. intros ?. apply Hn. cbn. by right.
    - exists tgs, evs. split; [by constructor|done]. }
  apply is_due_spec in Ed; [|done]. eapply swp_mono; [by apply share_target_spec|]. cbv beta.
  intros acc' s1 [[H1 Ho] [sent L1]].
  destruct (record_spec all (sched_of s) tg t sent Hok Hw Hl Htg) as (Hok1 & Hw1 & Hrec & Hother). rewrite <- L1 in *.
  eapply swp_mono; [by apply IH|]. cbv beta.
  intros _ s2 (H2 & Hok2 & Hsame & tgs & evs & Hsl & Hf & E & Hdue & Hatt). split; [done|]. split; [done|].
  assert (Hdue' : Forall (due (sched_of s) t) tgs).
  { apply list.Forall_forall. intros x Hx. rewrite list.Forall_forall in Hdue. eapply due_same; [|by apply Hdue].
    apply Hother. intros En. apply Hnot. rewrite <- En. apply list_elem_of_fmap. exists x. split; [done|]. by eapply elem_of_submseteq; [|by apply sublist_submseteq]. }
  split.
  { intros tg' Hn x Hx. rewrite Hsame; [|intros ?; apply Hn; cbn; by right|done].
    apply (Hother tg'); [|done]. intros En. apply Hn. rewrite En. cbn. left. }
  destruct Ho as [Ho|(ev & Ho & Hev)].
  - exists tgs, evs. split; [by constructor|]. split; [done|]. by rewrite E, Ho.
  - exists (tg :: tgs), (ev :: evs). split; [by constructor|]. split; [by constructor|].
    rewrite E, Ho, <- app_assoc. split; [done|]. split; [by constructor|]. constructor; [|done].
    destruct Hrec as (x & Hx & Hn & Ht & Hwt). exists x, sent. split; [|done]. by apply (Hsame tg Hnot).
Qed.

(** *** The tick *)

(** The fix of the receiver, else the position set by hand. *)
Definition own_position (l : loc_state) (p : bramble_position_t) : Prop :=
  po_valid p = true ∧
  (lo_gps l = Some p ∨ (∀ q, lo_gps l = Some q → po_valid q = false) ∧ manual_position (lo_flash l) = Some p).
Definition stamped (t : Z) (p : bramble_position_t) : bramble_position_t :=
  mk_pos (po_latitude_e7 p) (po_longitude_e7 p) (po_altitude_m p) (po_accuracy_m p) (po_speed_kmh p)
    (po_heading_deg2 p) (t / 1000) true.

Lemma manual_valid ns p : manual_position ns = Some p → po_valid p = true.
Proof.
  unfold manual_position. repeat (destruct (nvs_get_i32 _ _); [|done]).
  destruct (_ && _); [done|]. by intros [= <-].
Qed.
(** What the position and the targets are resolved from does not change under a tick. *)
Definition same_rules (s s' : mt) : Prop :=
  mt_node s' = mt_node s ∧ lo_gps (mt_loc s') = lo_gps (mt_loc s) ∧ lo_flash (mt_loc s') = lo_flash (mt_loc s) ∧
  sched_of s' = sched_of s.
Lemma draw_spec s : swp draw_nvs s (λ _ s', same_rules s s').
Proof. done. Qed.
Lemma resolve_spec s :
  swp mesh_resolve_self_position s (λ r s', same_rules s s' ∧ ∀ p, r = Some p → own_position (mt_loc s) p).
Proof.
  unfold mesh_resolve_self_position. apply swp_bind, swp_gets.
  assert (Hm : (∀ q, lo_gps (mt_loc s) = Some q → po_valid q = false) →
    swp (opened ← draw_nvs; ns ← loc lo_flash; mret (if (opened : bool) then manual_position ns else None) : T _) s
      (λ r s', same_rules s s' ∧ ∀ p, r = Some p → own_position (mt_loc s) p)).
  { intros Hq. apply swp_bind. eapply swp_mono; [apply draw_spec|]. cbv beta. intros opened s1 H1.
    apply swp_bind, swp_gets, swp_ret. split; [done|]. intros p Hp. destruct opened; [|done].
    destruct H1 as (_ & _ & E & _). rewrite E in Hp. split; [by eapply manual_valid|by right]. }
  destruct (lo_gps (mt_loc s)) as [q|] eqn:Eg; [|by apply Hm].
  destruct (po_valid q) eqn:Ev; [|apply Hm; by intros ? [= <-]].
  apply swp_ret. split; [done|]. intros p [= <-]. split; [done|by left].
Qed.
Lemma collect_spec s :
  swp location_collect_targets s (λ r s', mt_node s' = mt_node s ∧
    lo_schedule (mt_loc s') = lo_schedule (mt_loc s) ∧
    (r = [] ∨ r = targets_of (lo_flash (mt_loc s)))).
Proof.
  unfold location_collect_targets. apply swp_bind. eapply swp_mono; [apply draw_spec|]. cbv beta.
  intros opened s1 (En & _ & Ef & El). destruct opened; cbn [negb]; [|apply swp_ret; split; [done|]; split; [done|by left]].
  apply swp_bind, swp_gets. rewrite Ef. apply swp_bind.
  destruct (dead_keys _); [apply swp_ret, swp_ret; split; [done|]; split; [done|by right]|].
  apply swp_bind. eapply swp_mono; [apply draw_spec|]. cbv beta. intros writable s2 (E2 & _ & _ & L2).
  apply swp_modify, swp_ret. split; [change (mt_node s2 = mt_node s); congruence|].
  split; [change (sched_of s2 = sched_of s); congruence|by right].
Qed.

(** After a tick at [t]: nothing went out, or the enabled policy's shares of the own
    position for some of the targets, one per target and in their order, each due by the
    schedule the tick found and with this attempt in the schedule it left. *)
Definition tick_outcome (s : mt) (t : Z) (s' : mt) : Prop :=
  mt_inv s' ∧ sched_ok (sched_of s') ∧ ∃ evs, outs s' = outs s ++ evs ∧
    (evs = [] ∨ ∃ p tgs,
       lpo_enabled (location_policy_load_or_defaults (lo_flash (mt_loc s))) = true ∧
       LOCATION_POLICY_TICK_MS <= (t ⊖ lo_last_policy_tick_ms (mt_loc s)) ∧
       own_position (mt_loc s) p ∧ Forall (ruled (lo_flash (mt_loc s))) tgs ∧ NoDup (target_name <$> tgs) ∧
       Forall (due (sched_of s) t) tgs ∧ Forall (attempted (sched_of s') t) tgs ∧
       Forall2 (share_event s (stamped t p)) tgs evs).
Lemma sublist_ruled ns tgs :
  tgs `sublist_of` targets_of ns → Forall (ruled ns) tgs ∧ NoDup (target_name <$> tgs).
Proof.
  intros Hs. destruct (targets_of_ok ns) as [H1 H2]. split.
  { clear H2. induction Hs; inv_Forall; auto. }
  eapply sublist_NoDup; [exact H2|]. by apply fmap_sublist.
Qed.

(** The round of shares, from the schedule cut down to the targets. *)
Lemma updates_outcome s s3 t policy p targets :
  mt_inv s → sched_ok (sched_of s) → lpo_enabled (location_policy_load_or_defaults (lo_flash (mt_loc s))) = true →
  LOCATION_POLICY_TICK_MS <= (t ⊖ lo_last_policy_tick_ms (mt_loc s)) → own_position (mt_loc s) p →
  targets `sublist_of` targets_of (lo_flash (mt_loc s)) → mt_node s3 = mt_node s →
  sched_of s3 = location_schedule_retain (sched_of s) targets →
  swp (mesh_send_location_updates hmac t policy p targets) s3 (λ _ s', tick_outcome s t s').
Proof.
  intros Hs Hok Hen Htick Hown Hsub N3 L3.
  destruct (retain_spec (sched_of s) targets Hok) as (Hok3 & Hw3 & Hdue3). rewrite <- L3 in Hok3, Hw3, Hdue3.
  destruct (sublist_ruled _ _ Hsub) as [_ Hnd]. pose proof (sublist_length _ _ Hsub) as Hlen.
  pose proof (targets_of_length (lo_flash (mt_loc s))) as Hmax.
  unfold mesh_send_location_updates. cbn zeta. apply swp_bind.
  eapply swp_mono; [apply (share_loop_spec s t _ targets); [|done|done|lia|done|done]|].
  { apply (since_node s s); [done|split_and!; by try reflexivity]. }
  cbv beta. intros [sent_count hs] s4 (([I4a I4b] & _) & Hok4 & _ & tgs & evs & Hsl & Hf & E4 & Hd4 & Ha4).
  assert (Hdone : ∀ s' : mt, mt_node s' = mt_node s4 → sched_of s' = sched_of s4 → tick_outcome s t s').
  { intros s' E L. unfold tick_outcome, mt_inv, outs in *. rewrite E, L. split; [done|]. split; [done|]. exists evs.
    split; [by rewrite E4, N3|]. right. exists p, tgs. split; [done|]. split; [done|].
    destruct (sublist_ruled (lo_flash (mt_loc s)) tgs) as [Hr Hnd']; [by etransitivity|].
    split; [done|]. split_and!; [done..| |done|done].
    apply list.Forall_forall. intros tg Htg. rewrite list.Forall_forall in Hd4. apply Hdue3; [|by apply Hd4].
    by eapply elem_of_submseteq; [|by apply sublist_submseteq]. }
  apply swp_when; [intros _|by intros _; apply Hdone].
  apply swp_bind, swp_modify, swp_modify. by apply Hdone.
Qed.

(** C29. Positions go where the rules say and nowhere else.  From a well-formed state the
    tick returns, and the only frames it transmits are shares: with sharing enabled
    and the tick due, of the node's own position as it stands, at most one per target,
    each for a target that an enabled rule in flash names, at that rule's tier, whose last
    attempt in the schedule is at least its wait ago (or is missing), and sealed under the
    key of that very channel (never the public one) or in the active session with that
    very contact; the schedule then has the attempt at this time, with the rule's
    interval (or a channel's shorter retry) to wait, and is well formed again. *)
Theorem shares_follow_rules s t :
  mt_inv s → sched_ok (sched_of s) →
  swp (mesh_location_policy_tick hmac t) s (λ _ s', tick_outcome s t s').
Proof.
  intros Hs Hok. unfold mesh_location_policy_tick. apply swp_bind, swp_gets.
  assert (Hno : ∀ s' : mt, mt_node s' = mt_node s → sched_ok (sched_of s') →
    swp (mret tt : T unit) s' (λ _ s', tick_outcome s t s')).
  { intros s' E Hok'. apply swp_ret. unfold tick_outcome, mt_inv, outs. rewrite E. split; [done|]. split; [done|]. exists [].
    split; [by rewrite app_nil_r|by left]. }
  split_if; [by apply Hno|]. apply Z.ltb_ge in Heqb.
  apply swp_bind, swp_modify. apply swp_bind. eapply swp_mono; [apply draw_spec|]. cbv beta.
  intros opened s1 (N1 & G1 & F1 & L1). change (sched_of (mset_loc s _)) with (sched_of s) in L1.
  assert (Hok1 : sched_ok (sched_of s1)) by (by rewrite L1). destruct opened; cbn [negb]; [|by apply Hno].
  apply swp_bind, swp_gets. rewrite F1. cbn zeta.
  change (lo_flash (mt_loc (mset_loc s _))) with (lo_flash (mt_loc s)) in *.
  change (lo_gps (mt_loc (mset_loc s _))) with (lo_gps (mt_loc s)) in *.
  change (mt_node (mset_loc s _)) with (mt_node s) in *.
  destruct (lpo_enabled (location_policy_load_or_defaults _)) eqn:Een; cbn [negb]; [|by apply Hno].
  apply swp_bind. eapply swp_mono; [apply resolve_spec|]. cbv beta. intros source s2 [(N2 & G2 & F2 & L2) Hown].
  apply swp_bind. eapply swp_mono; [apply collect_spec|]. cbv beta. intros targets s3 (N3 & L3 & Ht).
  apply swp_bind, swp_modify.
  set (s3' := mset_loc s3 _). assert (N3' : mt_node s3' = mt_node s) by (change (mt_node s3 = mt_node s); congruence).
  assert (L3' : sched_of s3' = location_schedule_retain (sched_of s) targets).
  { change (location_schedule_retain (sched_of s3) targets = location_schedule_retain (sched_of s) targets). congruence. }
  destruct (location_share_round_enabled _ _ _) eqn:Er; cbn [negb].
  2: { apply Hno; [done|]. rewrite L3'. by apply retain_spec. }
  unfold location_share_round_enabled in Er. rewrite Een in Er. cbn [negb] in Er.
  apply andb_true_iff in Er as [Ep Er]. apply bool_decide_eq_true in Ep as [p ->]. cbn [default].
  specialize (Hown p eq_refl). apply updates_outcome; try done.
  - unfold own_position in *. by rewrite G1, F1 in Hown.
  - destruct Ht as [->| ->]; [apply sublist_nil_l|]. by rewrite F2, F1.
Qed.
End Shares.

(** ** Reception *)

Section Reception.
Context `{DC : DmCrypto} `{IC : IdCrypto} (hmac : list Z → list Z → list Z) `{HL : !HmacLaws hmac}.

(** The frame opens, under a channel key or in the session with its sender, to a
    position at a tier; [trusted]: its sender is more than a claim. *)
Definition opens (r : rx) (hdr : bramble_header_t) (src : Z) (nonce ct tag : list Z) (tier : Z)
    (pos : bramble_position_t) (trusted : bool) : Prop :=
  let n := rx_node r in
  if negb (Z.land (h_flags hdr) FLAG_CHANNEL =? 0) then
    ∃ e aad info, bramble_build_aead_aad hdr src (replicate (HEADER_SIZE + 4) 0) (HEADER_SIZE + 4) = Some (e, aad) ∧
      (channel_msg_decrypt nonce ct tag aad (nd_channels n) (rx_buckets r) (v_now (nd_env n))).1.1 = Some info ∧
      location_parse_inner (in_data info) (length (in_data info)) pos_zero = Some (Some (tier, pos)) ∧
      trusted = negb (in_channel_index info =? BRAMBLE_PUBLIC_CHANNEL_INDEX)%nat
  else
    ∃ i pt sess, dm_lookup (nd_table n) src = Some i ∧ dm_in_state DM_STATE_ACTIVE (nd_table n !!! i) = true ∧
      length ct = (DM_RATCHET_HEADER_SIZE + (L_LOC_INNER + CHANNEL_MSG_OVERHEAD))%nat ∧
      dm_session_ratchet_decrypt (nd_table n !!! i) hdr src nonce ct tag = (DM_DECRYPT_OK, Some pt, sess) ∧
      length pt = (L_LOC_INNER + CHANNEL_MSG_OVERHEAD)%nat ∧
      location_parse_inner pt (length pt) pos_zero = Some (Some (tier, pos)) ∧ trusted = true.
(** [data] is a share of [pos] at [tier] by [src], another node: the network key vouches
    for it, it opens, and it is no replay. *)
Definition accepted_share (s : mt) (data : list Z) (src tier : Z) (pos : bramble_position_t) : Prop :=
  let r := mt_rx s in
  let n := rx_node r in
  ∃ hdr mac nonce ct tag trusted,
    bramble_header_deserialize header_zero data (length data) = Some (ESP_OK, hdr) ∧
    get_le32 data BRAMBLE_DATA_SRC_ADDR_OFFSET = Some src ∧ src ≠ id_address (nd_id n) ∧
    rdn data BRAMBLE_DATA_AUTH_HMAC_OFFSET 8 = Some mac ∧ data_auth_verify hmac (nd_key n) hdr src mac = Some true ∧
    drop BRAMBLE_DATA_NONCE_OFFSET data = nonce ++ ct ++ tag ∧ length nonce = BRAMBLE_NONCE_SIZE ∧
    length tag = BRAMBLE_TAG_SIZE ∧ (0 < length ct ≤ BRAMBLE_MAX_PACKET_SIZE)%nat ∧
    opens r hdr src nonce ct tag tier pos trusted ∧
    (trusted = true →
     (replay_check_and_add (rx_replay r) src (nonce_counter_extract nonce) (v_now (nd_env n))).1 = REPLAY_ACCEPT).

Lemma parse_inner_total b q : ∃ o, location_parse_inner b (length b) q = Some o.
Proof.
  destruct b as [|tier body]; [by eexists|]. unfold location_parse_inner. cbn [length Nat.ltb Nat.leb].
  change (rd (tier :: body) LOCATION_INNER_TIER_OFFSET) with (Some tier).
  cbn [mbind option_bind drop]. replace (S (length body) - 1)%nat with (length body) by lia.
  unfold location_deserialize_for_tier.
  destruct (tier =? LOCATION_TIER_FULL); [|destruct (tier =? LOCATION_TIER_PRESENCE)].
  - unfold location_deserialize_full. destruct (_ <? _)%nat eqn:E; [by eexists|]. apply Nat.ltb_ge in E.
    unfold LOCATION_FULL_SIZE in E. do 17 (destruct body as [|? body]; [cbn in E; lia|]). by eexists.
  - destruct (_ <? _)%nat eqn:E; [by eexists|]. apply Nat.ltb_ge in E.
    destruct body; [cbn in E; unfold LOCATION_PRESENCE_SIZE in E; lia|by eexists].
  - unfold location_deserialize_coarse. destruct (_ <? _)%nat eqn:E; [by eexists|]. apply Nat.ltb_ge in E.
    unfold LOCATION_COARSE_SIZE in E. do 5 (destruct body as [|? body]; [cbn in E; lia|]). by eexists.
Qed.

(** Decoding returns what the frame opens to, and touches neither the clock nor the
    replay windows. *)
Definition decoded_spec (r : rx) (hdr : bramble_header_t) (src : Z) (nonce ct tag : list Z) (ch : bool)
    (o : option (Z * bramble_position_t * nat)) (r' : rx) : Prop :=
  v_now (nd_env (rx_node r')) = v_now (nd_env (rx_node r)) ∧ rx_replay r' = rx_replay r ∧
  match o with
  | Some (tier, pos, idx) => opens r hdr src nonce ct tag tier pos (channel_source_is_replay_trustworthy ch idx)
  | None => ∀ tier pos trusted, ¬ opens r hdr src nonce ct tag tier pos trusted
  end.
Lemma decode_channel_ok hdr src nonce ct tag e aad r :
  negb (Z.land (h_flags hdr) FLAG_CHANNEL =? 0) = true →
  bramble_build_aead_aad hdr src (replicate (HEADER_SIZE + 4) 0) (HEADER_SIZE + 4) = Some (e, aad) →
  rwp true (location_rx_decode_channel nonce ct tag aad) r (decoded_spec r hdr src nonce ct tag true).
Proof.
  intros Hch Ha. unfold location_rx_decode_channel, decrypt_channel.
  apply rwp_bind, rwp_bind, rwp_now, rwp_bind, rwp_get.
  assert (Hop : ∀ tier pos trusted, opens r hdr src nonce ct tag tier pos trusted → ∃ info,
    (channel_msg_decrypt nonce ct tag aad (nd_channels (rx_node r)) (rx_buckets r) (v_now (nd_env (rx_node r)))).1.1 =
      Some info ∧ location_parse_inner (in_data info) (length (in_data info)) pos_zero = Some (Some (tier, pos))).
  { intros tier pos trusted. unfold opens. rewrite Hch. intros (e' & aad' & info & Ha' & Hd & Hp & _).
    rewrite Ha in Ha'. injection Ha' as _ <-. eauto. }
  destruct (channel_msg_decrypt _ _ _ _ _ _ _) as [[o chs] bs] eqn:Ed. cbn [fst] in Hop.
  apply rwp_bind, rwp_modify, rwp_ret. destruct o as [info|].
  2: { apply rwp_ret. split; [done|]. split; [done|]. intros tier pos trusted (i & ? & _)%Hop. done. }
  destruct (parse_inner_total (in_data info) pos_zero) as [p Hp].
  apply rwp_bind, rwp_lift_total; [by rewrite Hp|]. intros ? E. rewrite Hp in E. injection E as <-.
  apply rwp_ret. split; [done|]. split; [done|]. destruct p as [[tier pos]|]; cbn [fmap option_fmap option_map].
  - unfold opens. rewrite Hch. exists e, aad, info. by rewrite Ed.
  - intros tier pos trusted (i & Hi & Hpi)%Hop. injection Hi as <-. congruence.
Qed.
Lemma decode_session_ok hdr src nonce ct tag r :
  negb (Z.land (h_flags hdr) FLAG_CHANNEL =? 0) = false →
  rwp true (location_rx_decode_session hdr src nonce ct tag) r (decoded_spec r hdr src nonce ct tag false).
Proof.
  intros Hch. unfold location_rx_decode_session. apply rwp_bind, rwp_now, rwp_bind, rwp_get. cbn zeta.
  set (n := rx_node r).
  assert (Hno : ∀ r', v_now (nd_env (rx_node r')) = v_now (nd_env n) → rx_replay r' = rx_replay r →
    (∀ i pt sess, dm_lookup (nd_table n) src = Some i → dm_in_state DM_STATE_ACTIVE (nd_table n !!! i) = true →
      length ct = (DM_RATCHET_HEADER_SIZE + (L_LOC_INNER + CHANNEL_MSG_OVERHEAD))%nat →
      dm_session_ratchet_decrypt (nd_table n !!! i) hdr src nonce ct tag = (DM_DECRYPT_OK, Some pt, sess) →
      length pt = (L_LOC_INNER + CHANNEL_MSG_OVERHEAD)%nat →
      ∀ tier pos, location_parse_inner pt (length pt) pos_zero ≠ Some (Some (tier, pos))) →
    decoded_spec r hdr src nonce ct tag false None r').
  { intros r' E1 E2 Hn. split; [done|]. split; [done|]. intros tier pos trusted. unfold opens. rewrite Hch.
    intros (i & pt & sess & H1 & H2 & H3 & H4 & H5 & H6 & _). by eapply Hn. }
  destruct (dm_lookup (nd_table n) src) as [i|] eqn:El; [|by apply rwp_ret, Hno].
  destruct (dm_in_state DM_STATE_ACTIVE _) eqn:Ea; cbn [negb];
    [|apply rwp_ret, Hno; try done; intros i' ? ? [= <-]; congruence].
  destruct (length ct =? _)%nat eqn:Ec; cbn [negb];
    [apply Nat.eqb_eq in Ec|apply Nat.eqb_neq in Ec; by apply rwp_ret, Hno].
  destruct (dm_session_ratchet_decrypt _ _ _ _ _ _) as [[drc pt] sess] eqn:Ed.
  destruct ((drc =? DM_DECRYPT_OK) && _) eqn:Eok.
  - apply andb_true_iff in Eok as [Eo Ep]. apply Z.eqb_eq in Eo as ->. apply Nat.eqb_eq in Ep.
    destruct pt as [pt|]; [|discriminate Ep]. cbn [default id] in *. rewrite <- Ep.
    destruct (parse_inner_total pt pos_zero) as [p Hp]. apply rwp_bind, rwp_node.
    change (set_session _ _ _) with (Some (tt, set_table n (<[i := stamp_active (v_now (nd_env n)) (ss_state sess) sess]> (nd_table n)))).
    apply rwp_bind, rwp_lift_total; [by rewrite Hp|]. intros ? E. rewrite Hp in E. injection E as <-.
    apply rwp_ret. destruct p as [[tier pos]|]; cbn [fmap option_fmap option_map].
    + split; [done|]. split; [done|]. unfold opens. rewrite Hch. by exists i, pt, sess.
    + apply Hno; [done..|]. intros i' pt' sess' [= <-] _ _ E. rewrite Ed in E. injection E as <- <-. congruence.
  - apply rwp_bind, rwp_node. apply rwp_ret, Hno; [done..|]. intros i' pt' sess' [= <-] _ _ E Hl.
    rewrite Ed in E. injection E as -> -> ->. cbn [default id] in Eok. rewrite Hl, Z.eqb_refl in Eok.
    by rewrite Nat.eqb_refl in Eok.
Qed.

(** What the handler leaves: the share in the cache and, when the flash takes it, on
    record; or everything about positions as it was. *)
Definition share_noted (s : mt) (data : list Z) (s' : mt) : Prop :=
  ((∀ src tier pos, ¬ accepted_share s data src tier pos) →
     lo_mgr (mt_loc s') = lo_mgr (mt_loc s) ∧ lo_flash (mt_loc s') = lo_flash (mt_loc s)) ∧
  ∀ src tier pos, accepted_share s data src tier pos →
    let now := v_now (nd_env (mt_node s)) in
    lo_mgr (mt_loc s') = location_cache_apply_share (lo_mgr (mt_loc s)) src tier pos now ∧
    (lo_flash (mt_loc s') = lo_flash (mt_loc s) ∨
     lo_flash (mt_loc s') =
       location_store_save_peer (lo_boot (mt_loc s)) (lo_flash (mt_loc s)) true true src pos tier now).
Lemma not_noted s data s' :
  mt_loc s' = mt_loc s → (∀ src tier pos, ¬ accepted_share s data src tier pos) → share_noted s data s'.
Proof. intros E H. split; [by rewrite E|]. intros src tier pos Ha. by apply H in Ha. Qed.

Lemma split_frame (d n1 c1 t1 n2 c2 t2 : list Z) :
  d = n1 ++ c1 ++ t1 → d = n2 ++ c2 ++ t2 → length n1 = length n2 → length t1 = length t2 →
  n1 = n2 ∧ c1 = c2 ∧ t1 = t2.
Proof.
  intros -> E Hn Ht. apply app_inj_1 in E as [-> E]; [|done]. by apply app_inj_2 in E as [-> ->].
Qed.
Ltac data_sizes := unfold BRAMBLE_DATA_ENVELOPE_PREFIX_SIZE, BRAMBLE_DATA_NONCE_OFFSET,
  BRAMBLE_DATA_AUTH_HMAC_OFFSET, BRAMBLE_DATA_SRC_ADDR_OFFSET, BRAMBLE_TAG_SIZE, BRAMBLE_NONCE_SIZE, HEADER_SIZE in *.

(** The fields the handler reads. *)
Definition data_fields (data : list Z) (hdr : bramble_header_t) (src : Z) (mac nonce ct tag : list Z) : Prop :=
  bramble_header_deserialize header_zero data (length data) = Some (ESP_OK, hdr) ∧
  get_le32 data BRAMBLE_DATA_SRC_ADDR_OFFSET = Some src ∧
  rdn data BRAMBLE_DATA_AUTH_HMAC_OFFSET 8 = Some mac ∧
  drop BRAMBLE_DATA_NONCE_OFFSET data = nonce ++ ct ++ tag ∧ length nonce = BRAMBLE_NONCE_SIZE ∧
  length tag = BRAMBLE_TAG_SIZE ∧ (0 < length ct)%nat.
Lemma data_fields_read data :
  (BRAMBLE_DATA_ENVELOPE_PREFIX_SIZE + BRAMBLE_NONCE_SIZE + BRAMBLE_TAG_SIZE + 1 ≤ length data)%nat →
  ∃ hdr src mac nonce ct tag, data_fields data hdr src mac nonce ct tag ∧
    let cl := (length data - BRAMBLE_DATA_ENVELOPE_PREFIX_SIZE - BRAMBLE_NONCE_SIZE - BRAMBLE_TAG_SIZE)%nat in
    length ct = cl ∧ rdn data BRAMBLE_DATA_NONCE_OFFSET BRAMBLE_NONCE_SIZE = Some nonce ∧
    rdn data (BRAMBLE_DATA_NONCE_OFFSET + BRAMBLE_NONCE_SIZE) cl = Some ct ∧
    rdn data (BRAMBLE_DATA_NONCE_OFFSET + BRAMBLE_NONCE_SIZE + cl) BRAMBLE_TAG_SIZE = Some tag.
Proof.
  intros Hl. cbn zeta. set (cl := (length data - _ - _ - _)%nat).
  assert (Hcl : (length data = 28 + 12 + cl + 16 ∧ 0 < cl)%nat) by (unfold cl; data_sizes; lia).
  destruct (header_deserialize_total header_zero data (length data)) as [hdr Eh]; [data_sizes; lia|done|].
  destruct (get_le32_is_Some data BRAMBLE_DATA_SRC_ADDR_OFFSET) as [src Esrc]; [data_sizes; lia|].
  destruct (rdn_is_Some data BRAMBLE_DATA_AUTH_HMAC_OFFSET 8) as [mac Emac]; [data_sizes; lia|].
  destruct (rdn_is_Some data BRAMBLE_DATA_NONCE_OFFSET BRAMBLE_NONCE_SIZE) as [nonce En]; [data_sizes; lia|].
  destruct (rdn_is_Some data (BRAMBLE_DATA_NONCE_OFFSET + BRAMBLE_NONCE_SIZE) cl) as [ct Ec]; [data_sizes; lia|].
  destruct (rdn_is_Some data (BRAMBLE_DATA_NONCE_OFFSET + BRAMBLE_NONCE_SIZE + cl) BRAMBLE_TAG_SIZE) as [tag Et];
    [data_sizes; lia|].
  exists hdr, src, mac, nonce, ct, tag.
  pose proof (rdn_inv _ _ _ _ En) as (_ & Ln & En'). pose proof (rdn_inv _ _ _ _ Ec) as (_ & Lc & Ec').
  pose proof (rdn_inv _ _ _ _ Et) as (_ & Lt & Et'). split; [|done].
  do 3 (split; [done|]). split; [|split; [done|split; [done|lia]]].
  rewrite En', Ec', Et'. data_sizes. change (12 + 16)%nat with 28%nat. set (d := drop 28 data).
  replace (drop (28 + 12) data) with (drop 12 d) by (unfold d; by rewrite drop_drop).
  replace (drop (28 + 12 + cl) data) with (drop cl (drop 12 d)) by (unfold d; by rewrite !drop_drop).
  rewrite (firstn_all2 (n := 16)) by (unfold d; rewrite !length_drop; lia).
  by rewrite !take_drop.
Qed.
(** What an accepted share of these fields looks like. *)
Lemma accepted_fields s data hdr src mac nonce ct tag src' tier pos :
  data_fields data hdr src mac nonce ct tag →
  accepted_share s data src' tier pos ↔
  src' = src ∧ src ≠ id_address (nd_id (mt_node s)) ∧ data_auth_verify hmac (nd_key (mt_node s)) hdr src mac = Some true ∧
  (length ct ≤ BRAMBLE_MAX_PACKET_SIZE)%nat ∧ ∃ tr, opens (mt_rx s) hdr src nonce ct tag tier pos tr ∧
    (tr = true → (replay_check_and_add (rx_replay (mt_rx s)) src (nonce_counter_extract nonce)
       (v_now (nd_env (mt_node s)))).1 = REPLAY_ACCEPT).
Proof.
  intros (F1 & F2 & F3 & F4 & F5 & F6 & F7). split.
  - intros (hdr' & mac' & nonce' & ct' & tag' & tr & H1 & H2 & H3 & H4 & H5 & H6 & L1 & L2 & [_ L3] & H7 & H8).
    rewrite F1 in H1. injection H1 as <-. rewrite F2 in H2. injection H2 as <-. rewrite F3 in H4. injection H4 as <-.
    destruct (split_frame _ _ _ _ _ _ _ F4 H6) as (-> & -> & ->); [congruence..|]. eauto 10.
  - intros (-> & H1 & H2 & H3 & tr & H4 & H5). exists hdr, mac, nonce, ct, tag, tr. split_and!; done.
Qed.

Lemma note_share_spec s nonce src tier pos trusted rssi snr :
  let now := v_now (nd_env (mt_node s)) in
  let fresh := (replay_check_and_add (rx_replay (mt_rx s)) src (nonce_counter_extract nonce) now).1 = REPLAY_ACCEPT in
  swp (note_share nonce src tier pos trusted rssi snr) s (λ _ s',
    (trusted = true ∧ ¬ fresh ∧ mt_loc s' = mt_loc s) ∨
    ((trusted = true → fresh) ∧
     lo_mgr (mt_loc s') = location_cache_apply_share (lo_mgr (mt_loc s)) src tier pos now ∧
     (lo_flash (mt_loc s') = lo_flash (mt_loc s) ∨
      lo_flash (mt_loc s') =
        location_store_save_peer (lo_boot (mt_loc s)) (lo_flash (mt_loc s)) true true src pos tier now))).
Proof.
  cbn zeta. unfold note_share. apply swp_bind, swp_gets, swp_bind, swp_get.
  destruct (replay_check_and_add _ _ _ _) as [rp table] eqn:Er. cbn [fst].
  apply swp_bind. apply (swp_mono _ _ (λ _ s1, mt_loc s1 = mt_loc s)).
  { apply swp_when; [|done]. intros _. by apply swp_zoom. }
  intros _ s1 E1. destruct (trusted && negb (rp =? REPLAY_ACCEPT)) eqn:Etr.
  { apply andb_true_iff in Etr as [-> Erp]. apply negb_true_iff, Z.eqb_neq in Erp. apply swp_ret. by left. }
  apply swp_bind, swp_modify. apply swp_bind. unfold draw_nvs at 1. apply swp_bind, swp_get. cbn zeta.
  apply swp_bind, swp_modify, swp_ret. apply swp_bind. set (opened := match bc_nvs _ with [] => _ | _ => _ end).
  apply (swp_mono _ _ (λ w s2, mt_loc s2 = lset_mgr (mt_loc s) (location_cache_apply_share (lo_mgr (mt_loc s)) src tier pos
    (v_now (nd_env (mt_node s)))))).
  { destruct opened; [|apply swp_ret; change (lset_mgr (mt_loc s1) (location_cache_apply_share (lo_mgr (mt_loc s1)) src tier pos
      (v_now (nd_env (mt_node s)))) = lset_mgr (mt_loc s) (location_cache_apply_share (lo_mgr (mt_loc s)) src tier pos
      (v_now (nd_env (mt_node s))))); by rewrite E1].
    unfold swp, draw_nvs. cbn. by rewrite E1. }
  intros written s2 E2. apply swp_bind, swp_modify, swp_bind, swp_modify, swp_modify. right. split.
  { intros ->. cbn [andb] in Etr. by apply negb_false_iff, Z.eqb_eq in Etr. }
  cbn. rewrite E2. cbn. split; [done|]. unfold location_store_save_peer.
  destruct opened; cbn [negb]; [|by left]. destruct written; [by right|by left].
Qed.

Lemma opens_inj r hdr src nonce ct tag tier pos tr tier' pos' tr' :
  opens r hdr src nonce ct tag tier pos tr → opens r hdr src nonce ct tag tier' pos' tr' →
  tier' = tier ∧ pos' = pos ∧ tr' = tr.
Proof.
  unfold opens. destruct (negb _).
  - intros (e & aad & info & A1 & A2 & A3 & ->) (e' & aad' & info' & B1 & B2 & B3 & ->).
    rewrite A1 in B1. injection B1 as <- <-. rewrite A2 in B2. injection B2 as <-.
    rewrite A3 in B3. by injection B3 as <- <-.
  - intros (i & pt & ss & A1 & _ & _ & A2 & _ & A3 & ->) (i' & pt' & ss' & B1 & _ & _ & B2 & _ & B3 & ->).
    rewrite A1 in B1. injection B1 as <-. rewrite A2 in B2. injection B2 as <- <-.
    rewrite A3 in B3. by injection B3 as <- <-.
Qed.
Lemma decode_ok hdr src nonce ct tag e aad r :
  bramble_build_aead_aad hdr src (replicate (HEADER_SIZE + 4) 0) (HEADER_SIZE + 4) = Some (e, aad) →
  let ch := negb (Z.land (h_flags hdr) FLAG_CHANNEL =? 0) in
  swp (if ch then location_rx_decode_channel nonce ct tag aad else location_rx_decode_session hdr src nonce ct tag)
    r (decoded_spec r hdr src nonce ct tag ch).
Proof.
  intros Ha. cbn zeta. destruct (negb _) eqn:Ech.
  - destruct (rwp_elim _ _ _ (decode_channel_ok hdr src nonce ct tag e aad r Ech Ha)) as (o & r' & E & H).
    unfold swp. by rewrite E.
  - destruct (rwp_elim _ _ _ (decode_session_ok hdr src nonce ct tag r Ech)) as (o & r' & E & H).
    unfold swp. by rewrite E.
Qed.
Lemma noted_spec s data hdr src mac nonce ct tag tier pos tr s' :
  data_fields data hdr src mac nonce ct tag → src ≠ id_address (nd_id (mt_node s)) →
  data_auth_verify hmac (nd_key (mt_node s)) hdr src mac = Some true →
  (length ct ≤ BRAMBLE_MAX_PACKET_SIZE)%nat → opens (mt_rx s) hdr src nonce ct tag tier pos tr →
  let now := v_now (nd_env (mt_node s)) in
  let fresh := (replay_check_and_add (rx_replay (mt_rx s)) src (nonce_counter_extract nonce) now).1 = REPLAY_ACCEPT in
  (tr = true ∧ ¬ fresh ∧ mt_loc s' = mt_loc s) ∨
  ((tr = true → fresh) ∧
   lo_mgr (mt_loc s') = location_cache_apply_share (lo_mgr (mt_loc s)) src tier pos now ∧
   (lo_flash (mt_loc s') = lo_flash (mt_loc s) ∨
    lo_flash (mt_loc s') =
      location_store_save_peer (lo_boot (mt_loc s)) (lo_flash (mt_loc s)) true true src pos tier now)) →
  share_noted s data s'.
Proof.
  intros Hf Hsrc Hv Hl Hop now fresh. pose proof (λ src' tier pos, accepted_fields s data _ _ _ _ _ _ src' tier pos Hf) as Hacc.
  intros [(-> & Hnf & E)|(Hfr & E)].
  - apply not_noted; [done|]. intros src' tier' pos' (-> & _ & _ & _ & tr' & Hop' & Hr)%Hacc.
    destruct (opens_inj _ _ _ _ _ _ _ _ _ _ _ _ Hop Hop') as (_ & _ & ->). by apply Hnf, Hr.
  - split; [|intros src' tier' pos' (-> & _ & _ & _ & tr' & Hop' & Hr)%Hacc].
    + intros Hno. destruct (Hno src tier pos). apply Hacc. eauto 10.
    + by destruct (opens_inj _ _ _ _ _ _ _ _ _ _ _ _ Hop Hop') as (-> & -> & _).
Qed.

(** C30. Positions come from authentic frames only.  On any frame the handler returns.
    If the frame is a share of another node that the network key vouches for, that
    opens under a channel key or in the session with that node, and that the replay
    window admits (a share on the public channel, whose sender is only a claim, is
    exempt), then the cache afterwards holds exactly that share and the flash has its
    record or is as it was; any other frame changes neither. *)
Theorem locations_authentic s data rssi snr :
  swp (handle_location hmac data (length data) rssi snr) s (λ _ s', share_noted s data s').
Proof.
  unfold handle_location. split_if; [apply Nat.ltb_lt in Heqb|apply Nat.ltb_ge in Heqb].
  { apply swp_ret, not_noted; [done|]. intros src tier pos (hdr & mac & nonce & ct & tag & tr & _ & _ & _ & _ & _ & E & H).
    apply (f_equal length) in E. rewrite length_drop, !length_app in E. data_sizes. lia. }
  destruct (data_fields_read data Heqb) as (hdr & src & mac & nonce & ct & tag & Hf & Lc & En & Ec & Et).
  pose proof (λ src' tier pos, proj1 (accepted_fields s data _ _ _ _ _ _ src' tier pos Hf)) as Hacc.
  pose proof Hf as (F1 & F2 & F3 & _).
  apply swp_bind. eapply swp_lift; [exact F2|]. apply swp_bind, swp_get. split_if.
  { apply Z.eqb_eq in Heqb0. apply swp_ret, not_noted; [done|]. by intros src' tier pos (_ & H & _)%Hacc. }
  apply Z.eqb_neq in Heqb0. apply swp_bind. eapply swp_lift; [exact F1|]. cbn beta iota.
  apply swp_bind. eapply swp_lift; [exact F3|].
  destruct (mac_verify_total hmac (nd_key (mt_node s)) data_label (data_build_auth_buf hdr src) mac) as [ok Eok].
  { by destruct (rdn_inv _ _ _ _ F3) as (_ & -> & _). }
  fold (data_auth_verify hmac (nd_key (mt_node s)) hdr src mac) in Eok.
  apply swp_bind. eapply swp_lift; [exact Eok|]. destruct ok; cbn [negb].
  2: { apply swp_ret, not_noted; [done|]. intros src' tier pos (_ & _ & H & _)%Hacc. congruence. }
  cbn zeta. apply swp_bind. eapply swp_lift; [exact En|]. apply swp_bind. eapply swp_lift; [exact Ec|].
  apply swp_bind. eapply swp_lift; [exact Et|]. rewrite <- Lc. split_if.
  { apply Nat.ltb_lt in Heqb1. apply swp_ret, not_noted; [done|]. intros src' tier pos (_ & _ & _ & H & _)%Hacc. lia. }
  apply Nat.ltb_ge in Heqb1.
  assert (∃ e aad, bramble_build_aead_aad hdr src (replicate (HEADER_SIZE + 4) 0) (HEADER_SIZE + 4) = Some (e, aad))
    as (e & aad & Haad) by (eexists _, _; apply build_aead_aad_spec; by rewrite ?length_replicate).
  apply swp_bind. eapply swp_lift; [exact Haad|]. cbn beta iota. apply swp_bind, swp_zoom.
  eapply swp_mono; [apply (decode_ok _ _ _ _ _ _ _ _ Haad)|]. set (ch := negb _).
  intros o r' (En' & Er & Ho). destruct o as [[[tier pos] idx]|].
  2: { apply swp_ret, not_noted; [done|]. by intros src' tier pos (_ & _ & _ & _ & tr & ?%Ho & _)%Hacc. }
  eapply swp_mono; [apply note_share_spec|].
  cbv beta zeta. change (mt_rx (mset_rx s r')) with r'. change (mt_node (mset_rx s r')) with (rx_node r').
  change (mt_loc (mset_rx s r')) with (mt_loc s). rewrite En', Er. intros _ s' H.
  by eapply noted_spec.
Qed.
End Reception.

(** ** An example

    Node 50, in a session with 60, which a rule names at the coarse tier. *)

#[local] Existing Instance toy_crypto.
#[local] Existing Instance toy_id_crypto.

Definition example_rules : nvs_ns :=
  [(str_bytes "enabled", NvU8 1);
   (default [] (location_contact_key LOCATION_TARGET_KEY_SIZE 60),
    NvStr (location_rule_format 32 (mk_lrule true LOCATION_TIER_COARSE 60)))].
Definition sharing : mt :=
  mset_loc (mset_beacon apart (bset_nvs demo_bc [true; true]))
    (mk_loc location_init location_schedule_init location_hs_reset 0 0 (mk_boot 1 true) example_rules (Some sydney)).
Lemma sharing_inv : mt_inv sharing.
Proof. exact apart_inv. Qed.
Definition shares_sent (s : mt) : nat :=
  match mesh_location_policy_tick toy_hmac 60000 s with Some (_, s') => length (outs s') | None => 0 end.
Lemma sharing_once : shares_sent sharing = 1%nat.
Proof. vm_compute. reflexivity. Qed.
Lemma schedule_init_ok : sched_ok location_schedule_init.
Proof. split; [done|]. intros i j a b [-> _]%lookup_replicate _. done. Qed.
Lemma shares_follow_rules_witness :
  shares_sent sharing = 1%nat ∧ swp (mesh_location_policy_tick toy_hmac 60000) sharing (λ _ s', tick_outcome sharing 60000 s').
Proof. split; [apply sharing_once|]. apply (shares_follow_rules toy_hmac sharing 60000 sharing_inv schedule_init_ok). Defined.

(** Node 60 hears it and places node 50. *)
Definition share_frame : list Z :=
  match mesh_location_policy_tick toy_hmac 60000 sharing with
  | Some (_, s') => match outs s' with [DTx f _ _] => f | _ => [] end
  | None => []
  end.
Definition listening : mt := demo_mt (demo_node 60 (paired false 50)).
Definition place_of (s : mt) (peer : Z) : option (Z * Z) :=
  match handle_location toy_hmac share_frame (length share_frame) (-60) 5 s with
  | Some (_, s') => (λ e, (po_latitude_e7 (lc_pos e), po_longitude_e7 (lc_pos e))) <$> location_cache_get (lo_mgr (mt_loc s')) peer
  | None => None
  end.
Lemma share_heard : place_of listening 50 = Some (-338580000, 1512120000).
Proof. vm_compute. reflexivity. Qed.
Lemma locations_authentic_witness :
  place_of listening 50 = Some (-338580000, 1512120000) ∧
  swp (handle_location toy_hmac share_frame (length share_frame) (-60) 5) listening (λ _ s',
    share_noted toy_hmac listening share_frame s').
Proof. split; [apply share_heard|]. apply (locations_authentic toy_hmac listening share_frame (-60) 5). Defined.
