(* ===== verification/ChannelStore.v ===== *)
(** * The channel table and its place in flash
      ([components/channel/channel_storage.c], [components/channel/public_channel.c],
      [main/mesh_channels.c], the restore in [mesh_init] of [main/mesh_task.c])

    The arrays of channels, names and PSK marks with their count, the namespace they
    are kept in, and the operations that change both.  Names are the C strings in
    their 20-byte arrays.  Flash accesses succeed unless a fault is listed. *)

From stdpp Require Import base strings numbers sets option decidable list.
From S2P Require Import Prelude Tables Packet NetworkKey DmCrypto Identity IdentityStore Channel Location MeshRx MeshState.

Definition CHANNEL_NAME_SIZE : nat := 20.
Definition BRAMBLE_PUBLIC_CHANNEL_PSK : list Z := str_bytes "bramble-default".

(** ** State *)

Record chan_state := mk_chan {
  cs_channels : list bramble_channel_t; cs_names : list (list Z); cs_has_psk : list bool; cs_num : nat;
  cs_default : Z; cs_buckets : list catchup_bucket_t; cs_flash : nvs_ns; cs_faults : list bool;
  cs_random : list (option (list Z)) }.
Section ChanSetters.
Context (s : chan_state).
Definition cset_channels x := mk_chan x (cs_names s) (cs_has_psk s) (cs_num s) (cs_default s) (cs_buckets s)
  (cs_flash s) (cs_faults s) (cs_random s).
Definition cset_names x := mk_chan (cs_channels s) x (cs_has_psk s) (cs_num s) (cs_default s) (cs_buckets s)
  (cs_flash s) (cs_faults s) (cs_random s).
Definition cset_has_psk x := mk_chan (cs_channels s) (cs_names s) x (cs_num s) (cs_default s) (cs_buckets s)
  (cs_flash s) (cs_faults s) (cs_random s).
Definition cset_num x := mk_chan (cs_channels s) (cs_names s) (cs_has_psk s) x (cs_default s) (cs_buckets s)
  (cs_flash s) (cs_faults s) (cs_random s).
Definition cset_default x := mk_chan (cs_channels s) (cs_names s) (cs_has_psk s) (cs_num s) x (cs_buckets s)
  (cs_flash s) (cs_faults s) (cs_random s).
Definition cset_buckets x := mk_chan (cs_channels s) (cs_names s) (cs_has_psk s) (cs_num s) (cs_default s) x
  (cs_flash s) (cs_faults s) (cs_random s).
Definition cset_flash x := mk_chan (cs_channels s) (cs_names s) (cs_has_psk s) (cs_num s) (cs_default s)
  (cs_buckets s) x (cs_faults s) (cs_random s).
Definition cset_faults x := mk_chan (cs_channels s) (cs_names s) (cs_has_psk s) (cs_num s) (cs_default s)
  (cs_buckets s) (cs_flash s) x (cs_random s).
Definition cset_random x := mk_chan (cs_channels s) (cs_names s) (cs_has_psk s) (cs_num s) (cs_default s)
  (cs_buckets s) (cs_flash s) (cs_faults s) x.
End ChanSetters.

Abbreviation C := (St chan_state).
Definition cget : C chan_state := sget.

(** Whether the next flash access succeeds. *)
Definition flash_ok : C bool :=
  s ← cget;
  smodify (λ s, cset_faults s (tail (cs_faults s))) ;;
  mret (match cs_faults s with [] => true | f :: _ => negb f end).
Definition flash_put (key : list Z) (v : nvs_value) : C bool :=
  ok ← flash_ok;
  swhen ok (smodify (λ s, cset_flash s (nvs_set (cs_flash s) key v))) ;;
  mret ok.
Definition flash_erase (key : list Z) : C unit :=
  ok ← flash_ok;
  swhen ok (smodify (λ s, cset_flash s (nvs_erase (cs_flash s) key))).

Definition ch_key (i : nat) : list Z := str_bytes "ch" ++ dec (Z.of_nat i).
Definition nm_key (i : nat) : list Z := str_bytes "nm" ++ dec (Z.of_nat i).
Definition psk_key (i : nat) : list Z := str_bytes "psk" ++ dec (Z.of_nat i).
Definition legacy_name_key (i : nat) : list Z := str_bytes "ch" ++ dec (Z.of_nat i) ++ str_bytes "_name".

(** [sizeof(bramble_channel_t)]: the key, the id, a byte of padding, the epoch. *)
Definition CHANNEL_SIZE : nat := 36.
Definition channel_bytes (ch : bramble_channel_t) : list Z :=
  chn_key ch ++ [chn_channel_id ch; 0] ++ le16_bytes (chn_epoch ch).
Definition channel_of (b : list Z) : bramble_channel_t :=
  mk_channel (take 32 b) (b !!! 32%nat) (le16_val (take 2 (drop 34 b))).
Definition with_id (ch : bramble_channel_t) (id : Z) : bramble_channel_t :=
  mk_channel (chn_key ch) id (chn_epoch ch).

(** ** [channel_storage.c] *)

Definition channel_storage_save (channels : list bramble_channel_t) (num : nat) (names : list (list Z))
    (default_idx : Z) : C Z :=
  if (MAX_CHANNELS <? num)%nat then mret (-1)
  else if (default_idx <? 0) || (default_idx >=? Z.of_nat MAX_CHANNELS) then mret (-1)
  else
    opened ← flash_ok;
    if negb opened then mret (-1) else
    counted ← flash_put (str_bytes "count") (NvU8 (Z.of_nat num));
    if negb counted then mret (-1) else
    flash_put (str_bytes "default") (NvU8 default_idx) ;;
    sfor (seq 0 num) (λ i, flash_put (ch_key i) (NvBlob (channel_bytes (channels !!! i))) ;; mret tt) ;;
    sfor (seq 0 num) (λ i,
      match names !!! i with
      | [] => mret tt
      | name => flash_put (nm_key i) (NvStr name) ;; mret tt
      end) ;;
    committed ← flash_ok;
    mret (if (committed : bool) then 0 else -1).

(** One blob read into its slot: whether it was whole, and what the slot then holds. *)
Definition load_blob (ns : nvs_ns) (slot : bramble_channel_t) (i : nat) : bool * bramble_channel_t :=
  match nvs_get_blob ns (ch_key i) CHANNEL_SIZE with
  | Some b => ((length b =? CHANNEL_SIZE)%nat, channel_of (filled b (channel_bytes slot)))
  | None => (false, slot)
  end.
(** [stack] is what the caller's uninitialised arrays hold. *)
Definition channel_storage_load (stack : list bramble_channel_t)
    : C (Z * list bramble_channel_t * nat * list (list Z) * Z) :=
  opened ← flash_ok;
  if negb opened then mret (-1, stack, 0%nat, [], 0) else
  s ← cget;
  let ns := cs_flash s in
  match nvs_get_u8 ns (str_bytes "count") with
  | None => mret (-1, stack, 0%nat, [], 0)
  | Some count =>
      if count >? Z.of_nat MAX_CHANNELS then mret (-1, stack, 0%nat, [], 0)
      else
        let default_idx := match nvs_get_u8 ns (str_bytes "default") with
                           | Some d => if d <? Z.of_nat MAX_CHANNELS then d else 0
                           | None => 0
                           end in
        let slots := imap (λ i slot, if (i <? Z.to_nat count)%nat then load_blob ns slot i else (false, slot)) stack in
        let loaded := length (filter (λ b, b = true) (slots.*1)) in
        let names := map (λ i, default [] (nvs_get_str ns (nm_key i) CHANNEL_NAME_SIZE)) (seq 0 loaded) in
        mret (if (0 <? loaded)%nat then 0 else -1, slots.*2, loaded, names, default_idx)
  end.
Definition channel_storage_clear : C unit :=
  opened ← flash_ok;
  swhen opened (smodify (λ s, cset_flash s [])).

(** ** [mesh_channels.c] *)

Definition mesh_persist_channel_psk_flags : C unit :=
  opened ← flash_ok;
  if negb opened then mret tt else
  s ← cget;
  sfor (seq 0 MAX_CHANNELS) (λ i,
    if (i <? cs_num s)%nat
    then flash_put (psk_key i) (NvU8 (if (cs_has_psk s !!! i : bool) then 1 else 0)) ;; mret tt
    else flash_erase (psk_key i)) ;;
  flash_ok ;;
  mret tt.
Definition mesh_load_channel_psk_flags : C unit :=
  opened ← flash_ok;
  if negb opened then mret tt else
  smodify (λ s, cset_has_psk s
    (imap (λ i old, if (i <? cs_num s)%nat
                    then negb (default 0 (nvs_get_u8 (cs_flash s) (psk_key i)) =? 0) else old) (cs_has_psk s))).

Definition set_slot (i : nat) (ch : bramble_channel_t) : C unit :=
  smodify (λ s, cset_channels s (<[i := ch]> (cs_channels s))).
Definition set_name (i : nat) (name : list Z) : C unit :=
  smodify (λ s, cset_names s (<[i := take (CHANNEL_NAME_SIZE - 1) name]> (cs_names s))).
Definition set_psk (i : nat) (b : bool) : C unit :=
  smodify (λ s, cset_has_psk s (<[i := b]> (cs_has_psk s))).
Definition save_channels : C Z :=
  s ← cget;
  channel_storage_save (cs_channels s) (cs_num s) (cs_names s) (cs_default s).

Section ChannelOps.
Context `{DC : DmCrypto} `{IC : IdCrypto}.

(** [None]: the entropy source is not ready. *)
Definition crypto_random_key : C (option (list Z)) :=
  s ← cget;
  smodify (λ s, cset_random s (tail (cs_random s))) ;;
  mret (match cs_random s with [] => None | k :: _ => k end).

(** The key of the next slot: derived from the PSK, or drawn. *)
Definition fill_slot (idx : nat) (psk : list Z) : C bool :=
  s ← cget;
  let ch := cs_channels s !!! idx in
  match psk with
  | [] =>
      key ← crypto_random_key;
      match key with
      | None => mret false
      | Some key => set_slot idx (mk_channel key (chn_channel_id ch) 0) ;; set_psk idx false ;; mret true
      end
  | _ =>
      set_slot idx (default ch (channel_derive_key (c_string (take 64 psk)))) ;; set_psk idx true ;; mret true
  end.
Definition mesh_add_channel (name psk : list Z) : C Z :=
  s ← cget;
  let idx := cs_num s in
  if (MAX_CHANNELS <=? idx)%nat then mret (-1) else
  keyed ← fill_slot idx psk;
  if negb keyed then mret (-1) else
  s ← cget;
  set_slot idx (with_id (cs_channels s !!! idx) (Z.of_nat idx)) ;;
  smodify (λ s, cset_num s (S idx)) ;;
  set_name idx (c_string name) ;;
  save_channels ;;
  mesh_persist_channel_psk_flags ;;
  smodify (λ s, cset_buckets s catchup_reset) ;;
  mret (Z.of_nat idx).

(** Slot [i] takes over from slot [i + 1]. *)
Definition shift_down (i : nat) : C unit :=
  s ← cget;
  set_slot i (with_id (cs_channels s !!! S i) (Z.of_nat i)) ;;
  set_name i (cs_names s !!! S i) ;;
  set_psk i (cs_has_psk s !!! S i).
Definition mesh_remove_channel (index : Z) : C Z :=
  s ← cget;
  let num := cs_num s in
  if (index <=? 0) || (index >=? Z.of_nat num) then mret (-1) else
  sfor (seq (Z.to_nat index) (num - 1 - Z.to_nat index)) shift_down ;;
  set_name (num - 1) [] ;;
  set_psk (num - 1) false ;;
  smodify (λ s, cset_num s (num - 1)) ;;
  smodify (λ s,
    let d := cs_default s in
    let d := if d =? index then 0 else if d >? index then d - 1 else d in
    cset_default s (if d >=? Z.of_nat (cs_num s) then 0 else d)) ;;
  save_channels ;;
  mesh_persist_channel_psk_flags ;;
  smodify (λ s, cset_buckets s catchup_reset) ;;
  mret 0.

Definition mesh_get_channel_count : C Z := sgets (λ s, Z.of_nat (cs_num s)).
(** [None]: no name. *)
Definition mesh_get_channel_name (index : Z) : C (option (list Z)) :=
  s ← cget;
  if (index <? 0) || (index >=? Z.of_nat (cs_num s)) then mret None else
  let i := Z.to_nat index in
  match cs_names s !!! i with
  | (_ :: _) as name => mret (Some name)
  | [] =>
      if index =? 0 then mret (Some (str_bytes "Broadcast")) else
      opened ← flash_ok;
      if negb opened then mret None else
      let stored key := nvs_get_str (cs_flash s) key CHANNEL_NAME_SIZE in
      match match stored (nm_key i) with
            | Some ((_ :: _) as name) => Some name
            | _ => stored (legacy_name_key i)
            end with
      | Some ((_ :: _) as name) => set_name i name ;; mret (Some (take (CHANNEL_NAME_SIZE - 1) name))
      | _ => mret None
      end
  end.
Definition mesh_get_channel_security (index : Z) : C (option (bool * Z)) :=
  s ← cget;
  if (index <? 0) || (index >=? Z.of_nat (cs_num s)) then mret None
  else mret (Some (cs_has_psk s !!! Z.to_nat index, chn_epoch (cs_channels s !!! Z.to_nat index))).
Definition mesh_set_default_channel (index : Z) : C Z :=
  s ← cget;
  if (index <? 0) || (index >=? Z.of_nat (cs_num s)) then mret (-1) else
  smodify (λ s, cset_default s index) ;;
  save_channels ;;
  mret 0.
Definition mesh_get_channel_info : C (Z * Z) := sgets (λ s, (Z.of_nat (cs_num s), cs_default s)).

(** ** The table at boot *)

Definition public_channel_init : C Z :=
  match channel_derive_key BRAMBLE_PUBLIC_CHANNEL_PSK with
  | None => mret (-1)
  | Some ch =>
      set_slot BRAMBLE_PUBLIC_CHANNEL_INDEX (with_id ch (Z.of_nat BRAMBLE_PUBLIC_CHANNEL_INDEX)) ;;
      smodify (λ s, if (cs_num s <? 1)%nat then cset_num s 1 else s) ;;
      mret 0
  end.

(** One stored channel joins the table, the stored public one only its name. *)
Definition merge_channel (i : nat) (ch : bramble_channel_t) (name : list Z) : C unit :=
  s ← cget;
  let n := cs_num s in
  if (MAX_CHANNELS <=? n)%nat then mret tt
  else if (chn_channel_id ch =? 0) && (i =? 0)%nat then
    match name with [] => mret tt | _ => set_name 0 name end
  else
    set_slot n (with_id ch (Z.of_nat n)) ;;
    (match name with [] => mret tt | _ => set_name n name end) ;;
    set_psk n false ;;
    smodify (λ s, cset_num s (S n)).
Definition restore_channels (stack : list bramble_channel_t) : C unit :=
  public_channel_init ;;
  smodify (λ s, cset_names s (replicate MAX_CHANNELS [])) ;;
  smodify (λ s, cset_has_psk s (replicate MAX_CHANNELS false)) ;;
  set_name 0 (str_bytes "Broadcast") ;;
  '(rc, channels, count, names, default_idx) ← channel_storage_load stack;
  if negb (rc =? 0) || (count =? 0)%nat then mret tt else
  sfor (seq 0 count) (λ i, merge_channel i (channels !!! i) (names !!! i)) ;;
  smodify (λ s, if default_idx <? Z.of_nat (cs_num s) then cset_default s default_idx else s) ;;
  mesh_load_channel_psk_flags.

(** The statics of a node that starts with this flash. *)
Definition chan_boot (ns : nvs_ns) : chan_state :=
  mk_chan (replicate MAX_CHANNELS (mk_channel (replicate 32 0) 0 0)) (replicate MAX_CHANNELS [])
    (replicate MAX_CHANNELS false) 0 0 catchup_reset ns [] [].
End ChannelOps.
