(* ===== verification/ChannelStoreSpec.v ===== *)
(** * What the channel table keeps

    The table after any history of changes is the one a reboot brings back; what a
    removal leaves behind. *)

From stdpp Require Import base strings numbers sets option decidable list.
From S2P Require Import ChannelFlood.
From S2P Require Import Prelude Tables Packet NetworkKey DmCrypto Identity IdentityStore Channel Location LocationSpec.
From S2P Require Import RoutingAuth LocationStoreSpec MeshDm MeshDmSpec MeshRx MeshState MeshSend MeshSendSpec MeshLocation MeshLocationSpec.
From S2P Require Import ChannelStore.

(** ** Keys *)

Inductive ckey := KCount | KDefault | KCh (i : nat) | KNm (i : nat) | KPsk (i : nat).
#[global] Instance ckey_eq_dec : EqDecision ckey.
Proof. solve_decision. Defined.
Definition key_of (k : ckey) : list Z :=
  match k with
  | KCount => str_bytes "count" | KDefault => str_bytes "default"
  | KCh i => ch_key i | KNm i => nm_key i | KPsk i => psk_key i
  end.
Definition key_ok (k : ckey) : Prop :=
  match k with KCount | KDefault => True | KCh i | KNm i | KPsk i => (i < MAX_CHANNELS)%nat end.

Lemma dec_small_inj i j :
  (i < MAX_CHANNELS)%nat → (j < MAX_CHANNELS)%nat → dec (Z.of_nat i) = dec (Z.of_nat j) → i = j.
Proof.
  assert (H : forallb (λ i, forallb (λ j, implb (bool_decide (dec (Z.of_nat i) = dec (Z.of_nat j))) (i =? j)%nat)
    (seq 0 MAX_CHANNELS)) (seq 0 MAX_CHANNELS) = true) by (vm_compute; reflexivity).
  intros Hi Hj E. assert (Ii : In i (seq 0 MAX_CHANNELS)) by (apply in_seq; lia).
  assert (Ij : In j (seq 0 MAX_CHANNELS)) by (apply in_seq; lia).
  pose proof (proj1 (forallb_forall _ _) H _ Ii) as H1. pose proof (proj1 (forallb_forall _ _) H1 _ Ij) as H2.
  cbv beta in H2. rename H into H0, H2 into H.
  rewrite bool_decide_eq_true_2 in H by done. by apply Nat.eqb_eq.
Qed.
Lemma key_of_inj a b : key_ok a → key_ok b → key_of a = key_of b → a = b.
Proof.
  destruct a, b; cbn [key_of key_ok]; unfold ch_key, nm_key, psk_key; intros Ha Hb; try (intros E; discriminate E);
    try done; intros E; f_equal; apply dec_small_inj; auto; by eapply app_inv_head.
Qed.

(** What flash holds under a key. *)
Definition view (ns : nvs_ns) (k : ckey) : option nvs_value := nvs_lookup ns (key_of k).
Lemma lookup_erase_ne ns k k' : k' ≠ k → nvs_lookup (nvs_erase ns k) k' = nvs_lookup ns k'.
Proof.
  intros Hk. unfold nvs_lookup, nvs_erase. induction ns as [|e ns IH]; [done|].
  rewrite list.filter_cons. cbn [find]. case_decide as Hd; cbn [find].
  - case_bool_decide; [done|exact IH].
  - rewrite bool_decide_eq_false_2 by congruence. exact IH.
Qed.
Lemma lookup_erase_eq ns k : nvs_lookup (nvs_erase ns k) k = None.
Proof.
  unfold nvs_lookup, nvs_erase. induction ns as [|e ns IH]; [done|].
  rewrite list.filter_cons. case_decide as Hd; [|exact IH]. cbn [find]. by rewrite bool_decide_eq_false_2.
Qed.
Lemma lookup_app ns ns' k :
  nvs_lookup (ns ++ ns') k = match nvs_lookup ns k with Some v => Some v | None => nvs_lookup ns' k end.
Proof.
  unfold nvs_lookup. induction ns as [|e ns IH]; [done|]. cbn [app find]. by case_bool_decide.
Qed.
Lemma view_set ns k v q : key_ok k → key_ok q →
  view (nvs_set ns (key_of k) v) q = if decide (q = k) then Some v else view ns q.
Proof.
  intros Hk Hq. unfold view, nvs_set. rewrite lookup_app. case_decide as E.
  - subst q. rewrite lookup_erase_eq. unfold nvs_lookup. cbn. by rewrite bool_decide_eq_true_2.
  - rewrite lookup_erase_ne by (intros Hc; by apply E, key_of_inj).
    destruct (nvs_lookup ns (key_of q)); [done|]. unfold nvs_lookup. cbn.
    by rewrite bool_decide_eq_false_2 by (intros Hc; by apply E, key_of_inj).
Qed.
Lemma view_erase ns k q : key_ok k → key_ok q →
  view (nvs_erase ns (key_of k)) q = if decide (q = k) then None else view ns q.
Proof.
  intros Hk Hq. unfold view. case_decide as E; [subst; apply lookup_erase_eq|].
  apply lookup_erase_ne. intros Hc. by apply E, key_of_inj.
Qed.

(** ** Writing *)

Abbreviation faultless s := (cs_faults s = []).
Lemma swp_flash_ok s (Q : bool → chan_state → Prop) : faultless s → Q true s → swp flash_ok s Q.
Proof. intros Hf HQ. unfold swp, flash_ok. cbn. destruct s; cbn in *. by rewrite Hf in *. Qed.
Lemma swp_flash_put s k v (Q : bool → chan_state → Prop) :
  faultless s → Q true (cset_flash s (nvs_set (cs_flash s) k v)) → swp (flash_put k v) s Q.
Proof. intros Hf HQ. unfold flash_put. apply swp_bind, swp_flash_ok; [done|]. by apply swp_bind, swp_modify, swp_ret. Qed.
Lemma swp_flash_erase s k (Q : unit → chan_state → Prop) :
  faultless s → Q tt (cset_flash s (nvs_erase (cs_flash s) k)) → swp (flash_erase k) s Q.
Proof. intros Hf HQ. unfold flash_erase. apply swp_bind, swp_flash_ok; [done|]. by apply swp_modify. Qed.

(** A step that writes under key [k] alone, as [P] says. *)
Definition writes (k : ckey) (P : option nvs_value → option nvs_value → Prop) (s s' : chan_state) : Prop :=
  ∃ ns, s' = cset_flash s ns ∧ P (view (cs_flash s) k) (view ns k) ∧
    ∀ q, key_ok q → q ≠ k → view ns q = view (cs_flash s) q.
Lemma writes_put s k v : key_ok k → writes k (λ _ o, o = Some v) s (cset_flash s (nvs_set (cs_flash s) (key_of k) v)).
Proof.
  intros Hk. eexists. split; [done|]. split; [by rewrite view_set, decide_True|].
  intros q Hq Hn. by rewrite view_set, decide_False.
Qed.
Lemma writes_erase s k : key_ok k → writes k (λ _ o, o = None) s (cset_flash s (nvs_erase (cs_flash s) (key_of k))).
Proof.
  intros Hk. eexists. split; [done|]. split; [by rewrite view_erase, decide_True|].
  intros q Hq Hn. by rewrite view_erase, decide_False.
Qed.
(** The writes of a loop. *)
Definition writes_all (l : list nat) (k : nat → ckey) (P : nat → option nvs_value → option nvs_value → Prop)
    (s s' : chan_state) : Prop :=
  ∃ ns, s' = cset_flash s ns ∧
    (∀ i, i ∈ l → P i (view (cs_flash s) (k i)) (view ns (k i))) ∧
    ∀ q, key_ok q → (∀ i, i ∈ l → q ≠ k i) → view ns q = view (cs_flash s) q.
Lemma sfor_writes k P (f : nat → C unit) :
  (∀ i j, k i = k j → i = j) → ∀ l, NoDup l → Forall (λ i, key_ok (k i)) l →
  (∀ i s, i ∈ l → faultless s → swp (f i) s (λ _ s', writes (k i) (P i) s s')) →
  ∀ s, faultless s → swp (sfor l f) s (λ _ s', writes_all l k P s s').
Proof.
  intros Hk. induction l as [|i l IH]; intros Hnd Hok Hf s Hs; cbn [sfor].
  { apply swp_ret. exists (cs_flash s). destruct s. split; [done|]. split; [by intros i ?%not_elem_of_nil|done]. }
  inversion_clear Hnd as [|? ? Hi Hnd']. inversion_clear Hok as [|? ? Hki Hok'].
  apply swp_bind. eapply swp_mono; [apply Hf; [by left|done]|]. cbv beta. intros _ s1 (ns & -> & HP & Hq).
  eapply swp_mono; [apply IH; [done|done| |done]|].
  { intros j s' Hj Hs'. apply Hf; [by right|done]. }
  cbv beta. intros _ s2 (ns2 & -> & HP2 & Hq2). exists ns2. split; [done|]. cbn [cs_flash cset_flash] in *. split.
  - intros j [->|Hj]%elem_of_cons.
    + rewrite Hq2; [done|done|]. intros j' Hj' E. apply Hk in E. by subst.
    + rewrite <- (Hq (k j)); [by apply HP2|exact (proj1 (list.Forall_forall _ _) Hok' j Hj)|]. intros E. apply Hk in E. by subst.
  - intros q Hok Hn. rewrite Hq2; [|done|intros j Hj; apply Hn; by right]. apply Hq; [done|]. apply Hn. by left.
Qed.

(** The table as flash should hold it. *)
Definition stored_table (s : chan_state) (ns : nvs_ns) : Prop :=
  view ns KCount = Some (NvU8 (Z.of_nat (cs_num s))) ∧ view ns KDefault = Some (NvU8 (cs_default s)) ∧
  (∀ i, (i < cs_num s)%nat → view ns (KCh i) = Some (NvBlob (channel_bytes (cs_channels s !!! i)))) ∧
  (∀ i, (i < cs_num s)%nat → cs_names s !!! i ≠ [] → view ns (KNm i) = Some (NvStr (cs_names s !!! i))).
Definition flag_of (o : option nvs_value) : bool :=
  match o with Some (NvU8 v) => negb (v =? 0) | _ => false end.
Definition stored_flags (s : chan_state) (ns : nvs_ns) : Prop :=
  ∀ i, (i < cs_num s)%nat → flag_of (view ns (KPsk i)) = cs_has_psk s !!! i.
(** The names under keys no named channel of [s] uses. *)
Definition other_names_kept (s : chan_state) (ns ns' : nvs_ns) : Prop :=
  ∀ i, (i < MAX_CHANNELS)%nat → ((i < cs_num s)%nat → cs_names s !!! i = []) → view ns' (KNm i) = view ns (KNm i).

Lemma save_spec s :
  faultless s → (cs_num s ≤ MAX_CHANNELS)%nat → 0 <= cs_default s < Z.of_nat MAX_CHANNELS →
  swp save_channels s (λ rc s', rc = 0 ∧ ∃ ns, s' = cset_flash s ns ∧ stored_table s ns ∧
    other_names_kept s (cs_flash s) ns ∧
    ∀ i, (i < MAX_CHANNELS)%nat → view ns (KPsk i) = view (cs_flash s) (KPsk i)).
Proof.
  intros Hf Hn Hd. unfold save_channels. apply swp_bind, swp_get. unfold channel_storage_save.
  rewrite (proj2 (Nat.ltb_ge _ _)) by done. destruct ((_ <? 0) || _) eqn:E; [exfalso; apply orb_true_iff in E; lia|].
  apply swp_bind, swp_flash_ok; [done|]. cbn [negb]. apply swp_bind, swp_flash_put; [done|]. cbn [negb].
  apply swp_bind, swp_flash_put; [done|]. set (s2 := cset_flash _ _).
  assert (Hrange : ∀ i, i ∈ seq 0 (cs_num s) ↔ (i < cs_num s)%nat) by (intros i; rewrite elem_of_seq; lia).
  apply swp_bind. eapply swp_mono; [apply (sfor_writes KCh (λ i _ o, o = Some (NvBlob (channel_bytes (cs_channels s !!! i)))))|].
  { by intros i j [=]. } { apply NoDup_seq. } { apply Forall_forall. intros i ?%Hrange. cbn. lia. }
  { intros i s' Hi%Hrange Hs'. apply swp_bind, swp_flash_put; [done|]. apply swp_ret, (writes_put s' (KCh i)). cbn. lia. }
  { done. }
  cbv beta. intros _ s3 (ns3 & -> & Hch & Hq3). apply swp_bind.
  eapply swp_mono; [apply (sfor_writes KNm (λ i o o', o' = match cs_names s !!! i with [] => o | nm => Some (NvStr nm) end))|].
  { by intros i j [=]. } { apply NoDup_seq. } { apply Forall_forall. intros i ?%Hrange. cbn. lia. }
  { intros i s' Hi%Hrange Hs'. destruct (cs_names s !!! i).
    - apply swp_ret. exists (cs_flash s'). by destruct s'.
    - apply swp_bind, swp_flash_put; [done|]. apply swp_ret, (writes_put s' (KNm i)). cbn. lia. }
  { done. }
  cbv beta. intros _ s4 (ns4 & -> & Hnm & Hq4). cbn [cs_flash cset_flash] in *.
  apply swp_bind, swp_flash_ok; [done|]. apply swp_ret. split; [done|]. exists ns4. split; [done|].
  assert (H2 : ∀ q, key_ok q → view (cs_flash s2) q = if decide (q = KDefault) then Some (NvU8 (cs_default s))
    else if decide (q = KCount) then Some (NvU8 (Z.of_nat (cs_num s))) else view (cs_flash s) q).
  { intros q Hq. unfold s2. cbn [cs_flash cset_flash]. change (str_bytes "default") with (key_of KDefault).
    rewrite view_set by done. case_decide; [done|]. change (str_bytes "count") with (key_of KCount).
    by rewrite view_set by done. }
  split; [split; [|split; [|split]]|split].
  - rewrite Hq4, Hq3, H2; try done; by intros.
  - rewrite Hq4, Hq3, H2; try done; by intros.
  - intros i Hi. rewrite Hq4; [by apply Hch, Hrange|cbn; lia|done].
  - intros i Hi Hne. rewrite (Hnm i) by (by apply Hrange). by destruct (cs_names s !!! i).
  - intros i Hi Hc. destruct (decide (i < cs_num s)%nat) as [Hlt|Hge].
    + rewrite (Hnm i) by (by apply Hrange). rewrite Hc by done. rewrite Hq3, H2; try done; by intros.
    + rewrite Hq4, Hq3, H2; try done. intros j Hj%Hrange [=]. subst. lia.
  - intros i Hi. rewrite Hq4, Hq3, H2; try done; by intros.
Qed.
Lemma persist_flags_spec s :
  faultless s → (cs_num s ≤ MAX_CHANNELS)%nat →
  swp mesh_persist_channel_psk_flags s (λ _ s', ∃ ns, s' = cset_flash s ns ∧ stored_flags s ns ∧
    ∀ q, key_ok q → (∀ i, q ≠ KPsk i) → view ns q = view (cs_flash s) q).
Proof.
  intros Hf Hn. unfold mesh_persist_channel_psk_flags. apply swp_bind, swp_flash_ok; [done|]. cbn [negb].
  apply swp_bind, swp_get. apply swp_bind.
  assert (Hrange : ∀ i, i ∈ seq 0 MAX_CHANNELS ↔ (i < MAX_CHANNELS)%nat) by (intros i; rewrite elem_of_seq; lia).
  eapply swp_mono; [apply (sfor_writes KPsk (λ i _ o, o = if (i <? cs_num s)%nat
    then Some (NvU8 (if (cs_has_psk s !!! i : bool) then 1 else 0)) else None))|].
  { by intros i j [=]. } { apply NoDup_seq. } { apply Forall_forall. by intros i ?%Hrange. }
  { intros i s' Hi%Hrange Hs'. destruct (i <? cs_num s)%nat.
    - apply swp_bind, swp_flash_put; [done|]. by apply swp_ret, (writes_put s' (KPsk i)).
    - apply swp_flash_erase; [done|]. by apply (writes_erase s' (KPsk i)). }
  { done. }
  cbv beta. intros _ s2 (ns & -> & H1 & H2). apply swp_bind, swp_flash_ok; [done|]. apply swp_ret.
  exists ns. split; [done|]. split.
  - intros i Hi. rewrite H1 by (apply Hrange; lia). rewrite (proj2 (Nat.ltb_lt _ _)) by done.
    by destruct (cs_has_psk s !!! i).
  - intros q Hq Hne. apply H2; [done|]. by intros.
Qed.

(** *** The invariant *)

Definition channel_wf (ch : bramble_channel_t) : Prop :=
  length (chn_key ch) = 32%nat ∧ 0 <= chn_epoch ch < 65536.
(** [pub] is the public channel; every channel has its index as id, every name fits. *)
Definition table_ok (pub : bramble_channel_t) (s : chan_state) : Prop :=
  faultless s ∧ Forall (λ o, ∀ k, o = Some k → length k = 32%nat) (cs_random s) ∧
  length (cs_channels s) = MAX_CHANNELS ∧ length (cs_names s) = MAX_CHANNELS ∧ length (cs_has_psk s) = MAX_CHANNELS ∧
  (1 ≤ cs_num s ≤ MAX_CHANNELS)%nat ∧ 0 <= cs_default s < Z.of_nat (cs_num s) ∧
  cs_channels s !!! 0%nat = pub ∧ cs_has_psk s !!! 0%nat = false ∧ cs_names s !!! 0%nat = str_bytes "Broadcast" ∧
  Forall channel_wf (cs_channels s) ∧ (∀ i, (i < cs_num s)%nat → chn_channel_id (cs_channels s !!! i) = Z.of_nat i) ∧
  Forall (λ nm, (length nm < CHANNEL_NAME_SIZE)%nat) (cs_names s).
(** Flash holds the table, or the table is the one a node starts with when it holds none. *)
Definition persisted (s : chan_state) : Prop :=
  stored_table s (cs_flash s) ∧ stored_flags s (cs_flash s) ∨
  view (cs_flash s) KCount = None ∧ flag_of (view (cs_flash s) (KPsk 0)) = false ∧ cs_num s = 1%nat ∧
    cs_default s = 0.

(** What of the state is in memory, flash and the catch-up buckets aside. *)
Definition ram (s : chan_state) :=
  (cs_channels s, cs_names s, cs_has_psk s, cs_num s, cs_default s, cs_faults s, cs_random s).
Lemma table_ok_ram pub s s' : ram s' = ram s → table_ok pub s → table_ok pub s'.
Proof. unfold ram, table_ok. by intros [= -> -> -> -> -> -> ->]. Qed.

Lemma commit_spec {A} pub s (x : A) :
  table_ok pub s →
  swp (save_channels ;; mesh_persist_channel_psk_flags ;; smodify (λ s, cset_buckets s catchup_reset) ;; mret x) s
    (λ y s', y = x ∧ ram s' = ram s ∧ table_ok pub s' ∧ persisted s' ∧
      other_names_kept s (cs_flash s) (cs_flash s')).
Proof.
  intros Hok. pose proof Hok as (Hf & _ & _ & _ & _ & Hn & Hd & _).
  apply swp_bind. eapply swp_mono; [apply save_spec; [done|lia|lia]|].
  cbv beta. intros _ s1 (_ & ns1 & -> & (T1 & T2 & T3 & T4) & Hnm & _).
  apply swp_bind. eapply swp_mono; [apply persist_flags_spec; [done|cbn; lia]|].
  cbv beta. intros _ s2 (ns2 & -> & Hfl & Hq). apply swp_bind, swp_modify, swp_ret.
  cbn [cs_flash cset_flash] in Hq. split; [done|]. split; [done|]. split; [by apply (table_ok_ram pub s)|].
  split; [left; split; [|exact Hfl]|].
  - split; [|split; [|split]]; cbn [cs_flash cset_flash cset_buckets cs_num cs_channels cs_names cs_default].
    + by rewrite Hq.
    + by rewrite Hq.
    + intros i Hi. rewrite Hq; [by apply T3|cbn; lia|done].
    + intros i Hi Hne. rewrite Hq; [by apply T4|cbn; lia|done].
  - intros i Hi Hc. cbn [cs_flash cset_flash cset_buckets]. rewrite Hq by done. by apply Hnm.
Qed.

Section Histories.
Context `{DC : DmCrypto} `{DL : !DmCryptoLaws} `{IC : IdCrypto}.

Lemma derive_wf psk ch : channel_derive_key psk = Some ch → channel_wf ch.
Proof.
  unfold channel_derive_key. destruct (crypto_hkdf_sha256 _ _ _ _) as [key|] eqn:E; [|done].
  intros [= <-]. apply hkdf_length in E as [E _]. split; [done|]. cbn. lia.
Qed.
Lemma Forall_insert_any {A} (P : A → Prop) l i x : Forall P l → P x → Forall P (<[i := x]> l).
Proof.
  intros Hl Hx. apply list.Forall_forall. intros y [j Hj]%list_elem_of_lookup.
  apply list_lookup_insert_Some in Hj as [(_ & <- & _)|[_ Hj]]; [done|]. by eapply Forall_lookup_1.
Qed.

(** The same table up to the unused slots. *)
Definition agrees (s s' : chan_state) : Prop :=
  cs_num s' = cs_num s ∧ cs_names s' = cs_names s ∧ cs_flash s' = cs_flash s ∧ cs_default s' = cs_default s ∧
  ∀ i, (i < cs_num s)%nat →
    cs_channels s' !!! i = cs_channels s !!! i ∧ cs_has_psk s' !!! i = cs_has_psk s !!! i.
Lemma persisted_agrees s s' : agrees s s' → persisted s → persisted s'.
Proof.
  intros (E1 & E2 & E3 & E4 & E5). unfold persisted, stored_table, stored_flags. rewrite E1, E2, E3, E4.
  intros [[(H1 & H2 & H3 & H4) H5]|H]; [left|by right]. split; [split_and!; try done|].
  - intros i Hi. destruct (E5 i Hi) as [-> _]. by apply H3.
  - intros i Hi. destruct (E5 i Hi) as [_ ->]. by apply H5.
Qed.
(** The invariant while slot [num] is being filled. *)
Lemma fill_slot_spec pub s psk :
  table_ok pub s → (cs_num s < MAX_CHANNELS)%nat →
  swp (fill_slot (cs_num s) psk) s (λ _ s', table_ok pub s' ∧ agrees s s').
Proof.
  intros Hok Hlt. pose proof Hok as (H1 & H2 & H3 & H4 & H5 & H6 & H7 & H8 & H9 & H10 & H11 & H12 & H13).
  unfold fill_slot. apply swp_bind, swp_get. cbn zeta.
  assert (Hslot : ∀ ch b rnd, channel_wf ch → Forall (λ o, ∀ k, o = Some k → length k = 32%nat) rnd →
    let s' := cset_has_psk (cset_channels (cset_random s rnd) (<[cs_num s := ch]> (cs_channels s)))
                (<[cs_num s := b]> (cs_has_psk s)) in
    table_ok pub s' ∧ agrees s s').
  { intros ch b rnd Hch Hrnd. cbn zeta. split; [|unfold agrees; fields].
    - unfold table_ok. cbn. rewrite !length_insert, !list_lookup_total_insert_ne by lia. fields; try lia.
      + by apply Forall_insert_any.
      + intros i Hi. rewrite list_lookup_total_insert_ne by lia. by apply H12.
    - intros i Hi. cbn. by rewrite !list_lookup_total_insert_ne by lia. }
  destruct psk as [|b psk].
  - unfold crypto_random_key. apply swp_bind, swp_bind, swp_get, swp_bind, swp_modify, swp_ret.
    assert (Ht : Forall (λ o, ∀ k, o = Some k → length k = 32%nat) (tail (cs_random s))) by (by apply Forall_tail).
    destruct (cs_random s) as [|[key|] rnd] eqn:Er.
    + apply swp_ret. split; [|done]. apply (table_ok_ram pub s); [by destruct s; cbn in *; subst|done].
    + apply swp_bind, swp_modify, swp_bind, swp_modify, swp_ret. apply (Hslot _ _ rnd); [|done].
      inversion_clear H2 as [|? ? Hk _]. split; [by apply Hk|]. cbn. lia.
    + apply swp_ret. split; [|done]. unfold table_ok. cbn. by rewrite ?Er in *.
  - apply swp_bind, swp_modify, swp_bind, swp_modify, swp_ret.
    destruct (Hslot (default (cs_channels s !!! cs_num s) (channel_derive_key (c_string (take 64 (b :: psk))))) true
      (cs_random s)) as (G1 & G2); [|done|].
    + destruct (channel_derive_key _) as [ch|] eqn:E; [by apply derive_wf in E|]. cbn.
      apply Forall_lookup_total_1; [done|]. lia.
    + destruct s. done.
Qed.

Lemma add_spec pub s name psk :
  table_ok pub s → persisted s →
  swp (mesh_add_channel name psk) s (λ _ s', table_ok pub s' ∧ persisted s').
Proof.
  intros Hok Hp. unfold mesh_add_channel. apply swp_bind, swp_get. cbn zeta. split_if; [by apply swp_ret|].
  apply Nat.leb_gt in Heqb. apply swp_bind. eapply swp_mono; [by apply (fill_slot_spec pub)|].
  cbv beta. intros keyed s1 [Hok1 Hag]. destruct keyed; cbn [negb];
    [|apply swp_ret; split; [done|by eapply persisted_agrees]].
  destruct Hag as (E1 & _). rewrite <- E1 in *.
  apply swp_bind, swp_get. do 3 apply swp_bind, swp_modify.
  eapply swp_mono; [apply (commit_spec pub)|cbv beta; intros x s' (_ & _ & H1 & H2 & _); done].
  destruct Hok1 as (H1 & H2 & H3 & H4 & H5 & H6 & H7 & H8 & H9 & H10 & H11 & H12 & H13).
  unfold table_ok. cbn. rewrite !length_insert, !list_lookup_total_insert_ne by lia. fields; try lia.
  - apply Forall_insert_any; [done|]. apply (Forall_lookup_total_1 _ _ (cs_num s1)) in H11; [done|lia].
  - intros i Hi. destruct (decide (i = cs_num s1)) as [->|Hne].
    + by rewrite list_lookup_total_insert_eq by lia.
    + rewrite list_lookup_total_insert_ne by done. apply H12. lia.
  - apply Forall_insert_any; [done|]. rewrite length_take. unfold CHANNEL_NAME_SIZE. lia.
Qed.
Lemma set_default_spec pub s index :
  table_ok pub s → persisted s →
  swp (mesh_set_default_channel index) s (λ _ s', table_ok pub s' ∧ persisted s').
Proof.
  intros Hok Hp. unfold mesh_set_default_channel. apply swp_bind, swp_get.
  destruct ((index <? 0) || _) eqn:E; [by apply swp_ret|]. apply orb_false_iff in E as [E1 E2].
  apply swp_bind, swp_modify.
  assert (Hok' : table_ok pub (cset_default s index)).
  { destruct Hok as (H1 & H2 & H3 & H4 & H5 & H6 & H7 & H). unfold table_ok. cbn. do 5 (split; [done|]).
    split; [done|]. split; [lia|done]. }
  pose proof Hok' as (Hf & _ & _ & _ & _ & Hn & Hd & _ & H9 & _). apply swp_bind.
  eapply swp_mono; [apply save_spec; [done|lia|lia]|].
  cbv beta. intros _ s1 (_ & ns1 & -> & Ht & _ & Hk). apply swp_ret. split; [by apply (table_ok_ram pub (cset_default s index))|].
  left. split; [exact Ht|]. intros i Hi. change (i < cs_num s)%nat in Hi. change (1 ≤ cs_num s ≤ MAX_CHANNELS)%nat in Hn.
  change (flag_of (view ns1 (KPsk i)) = cs_has_psk s !!! i). rewrite Hk by lia.
  change (cs_flash (cset_default s index)) with (cs_flash s).
  destruct Hp as [[_ Hfl]|(_ & Hfl & Hn1 & _)]; [by apply Hfl|].
  replace i with 0%nat by lia. rewrite Hfl. symmetry. exact H9.
Qed.

(** *** Removal *)

Definition shifted (index num : nat) (s s' : chan_state) : Prop :=
  cs_num s' = cs_num s ∧ cs_default s' = cs_default s ∧ cs_flash s' = cs_flash s ∧ cs_faults s' = cs_faults s ∧
  cs_random s' = cs_random s ∧ length (cs_channels s') = length (cs_channels s) ∧
  length (cs_names s') = length (cs_names s) ∧ length (cs_has_psk s') = length (cs_has_psk s) ∧
  (∀ i, (i < index ∨ num ≤ i)%nat → cs_channels s' !!! i = cs_channels s !!! i ∧
     cs_names s' !!! i = cs_names s !!! i ∧ cs_has_psk s' !!! i = cs_has_psk s !!! i) ∧
  (∀ i, (index ≤ i < num)%nat → cs_channels s' !!! i = with_id (cs_channels s !!! S i) (Z.of_nat i) ∧
     cs_names s' !!! i = take (CHANNEL_NAME_SIZE - 1) (cs_names s !!! S i) ∧
     cs_has_psk s' !!! i = cs_has_psk s !!! S i).
Lemma shift_spec n : ∀ index s,
  length (cs_channels s) = MAX_CHANNELS → length (cs_names s) = MAX_CHANNELS →
  length (cs_has_psk s) = MAX_CHANNELS → (index + n < MAX_CHANNELS)%nat →
  swp (sfor (seq index n) shift_down) s (λ _ s', shifted index (index + n) s s').
Proof.
  induction n as [|n IH]; intros index s L1 L2 L3 Hlt; cbn [seq sfor].
  { apply swp_ret. unfold shifted. fields. intros i Hi. lia. }
  apply swp_bind. unfold shift_down at 1. apply swp_bind, swp_get. apply swp_bind, swp_modify, swp_bind, swp_modify, swp_modify.
  eapply swp_mono; [apply IH; cbn; rewrite ?length_insert; lia|].
  cbv beta. intros _ s' (E1 & E2 & E3 & E4 & E5 & E6 & E7 & E8 & Eo & Ei). cbn in *. rewrite length_insert in *.
  unfold shifted. fields; try (congruence || (rewrite ?length_insert in *; congruence)).
  - intros i Hi. destruct (Eo i) as (-> & -> & ->); [lia|]. by rewrite !list_lookup_total_insert_ne by lia.
  - intros i Hi. destruct (decide (i = index)) as [->|Hne].
    + destruct (Eo index) as (-> & -> & ->); [lia|]. by rewrite !list_lookup_total_insert_eq by lia.
    + destruct (Ei i) as (-> & -> & ->); [lia|]. by rewrite !list_lookup_total_insert_ne by lia.
Qed.

(** What removing channel [index] leaves: the later channels one slot down under
    their new ids, with their names; a stored name under a key that no longer names a
    channel is not touched. *)
Definition removed (index : nat) (s s' : chan_state) : Prop :=
  cs_num s' = (cs_num s - 1)%nat ∧
  (∀ i, (i < index)%nat → cs_channels s' !!! i = cs_channels s !!! i ∧ cs_names s' !!! i = cs_names s !!! i) ∧
  (∀ i, (index ≤ i < cs_num s - 1)%nat → cs_channels s' !!! i = with_id (cs_channels s !!! S i) (Z.of_nat i) ∧
     cs_names s' !!! i = cs_names s !!! S i) ∧
  other_names_kept s' (cs_flash s) (cs_flash s').
Lemma take_name s i : Forall (λ nm, (length nm < CHANNEL_NAME_SIZE)%nat) (cs_names s) → (i < length (cs_names s))%nat →
  take (CHANNEL_NAME_SIZE - 1) (cs_names s !!! i) = cs_names s !!! i.
Proof.
  intros H Hi. apply take_ge. pose proof (Forall_lookup_total_1 _ _ i H Hi) as Hl. cbv beta in Hl.
  unfold CHANNEL_NAME_SIZE in *. lia.
Qed.
Lemma remove_valid pub s index :
  table_ok pub s → 0 < index < Z.of_nat (cs_num s) →
  swp (mesh_remove_channel index) s (λ rc s', rc = 0 ∧ table_ok pub s' ∧ persisted s' ∧ removed (Z.to_nat index) s s').
Proof.
  intros Hok Hr. pose proof Hok as (H1 & H2 & H3 & H4 & H5 & H6 & H7 & H8 & H9 & H10 & H11 & H12 & H13).
  unfold mesh_remove_channel. apply swp_bind, swp_get. cbn zeta.
  destruct ((index <=? 0) || _) eqn:E; [exfalso; apply orb_true_iff in E; lia|]. clear E.
  apply swp_bind. eapply swp_mono; [apply shift_spec; lia|]. cbv beta.
  intros _ s1 (E1 & E2 & E3 & E4 & E5 & E6 & E7 & E8 & Eo & Ei).
  replace (Z.to_nat index + (cs_num s - 1 - Z.to_nat index))%nat with (cs_num s - 1)%nat in * by lia.
  do 4 apply swp_bind, swp_modify. set (s2 := cset_default _ _).
  set (last := (cs_num s - 1)%nat) in *.
  assert (N2 : ∀ i, cs_names s2 !!! i = if decide (i = last) then [] else cs_names s1 !!! i).
  { intros i. cbn. case_decide as Hd; [subst i; by rewrite list_lookup_total_insert_eq by lia|].
    by rewrite list_lookup_total_insert_ne. }
  assert (Ok2 : table_ok pub s2).
  { unfold table_ok. cbn. rewrite !length_insert, !(list_lookup_total_insert_ne _ last) by lia.
    destruct (Eo 0%nat) as (-> & -> & ->); [lia|]. fields; try congruence; try lia.
    - repeat case_match; lia.
    - repeat case_match; lia.
    - apply list.Forall_forall. intros ch [i Hi]%list_elem_of_lookup. apply lookup_lt_Some in Hi as Hl.
      apply list_lookup_total_correct in Hi as <-. rewrite E6 in Hl.
      destruct (decide (Z.to_nat index ≤ i < last)%nat) as [Hin|Hout].
      + destruct (Ei i Hin) as (-> & _). apply (Forall_lookup_total_1 _ _ (S i)) in H11; [done|lia].
      + destruct (Eo i) as (-> & _); [lia|]. by apply (Forall_lookup_total_1 _ _ i) in H11.
    - intros i Hi. destruct (decide (Z.to_nat index ≤ i)%nat) as [Hin|Hout].
      + by destruct (Ei i) as (-> & _); [lia|].
      + destruct (Eo i) as (-> & _); [lia|]. apply H12. lia.
    - apply Forall_insert_any; [|cbn; unfold CHANNEL_NAME_SIZE; lia].
      apply list.Forall_forall. intros nm [i Hi]%list_elem_of_lookup. apply lookup_lt_Some in Hi as Hl.
      apply list_lookup_total_correct in Hi as <-. rewrite E7 in Hl.
      destruct (decide (Z.to_nat index ≤ i < last)%nat) as [Hin|Hout].
      + destruct (Ei i Hin) as (_ & -> & _). rewrite length_take. unfold CHANNEL_NAME_SIZE. lia.
      + destruct (Eo i) as (_ & -> & _); [lia|]. by apply (Forall_lookup_total_1 _ _ i) in H13. }
  eapply swp_mono; [by apply (commit_spec pub)|]. cbv beta.
  intros x s' (-> & Er & Hok' & Hp' & Hk). split; [done|]. split; [done|]. split; [done|].
  unfold ram in Er. injection Er as R1 R2 R3 R4 R5 R6 R7.
  split; [by rewrite R4|]. split; [|split].
  - intros i Hi. rewrite R1, R2, N2, decide_False by lia. by destruct (Eo i) as (? & ? & _); [lia|].
  - intros i Hi. rewrite R1, R2, N2, decide_False by (unfold last; lia).
    destruct (Ei i) as (? & -> & _); [unfold last; lia|]. split; [done|]. apply take_name; [done|lia].
  - intros i Hi Hc. rewrite R4, R2 in Hc. rewrite (Hk i Hi Hc). cbn. by rewrite E3.
Qed.

(** ** Reading back *)

Lemma channel_of_bytes ch b : channel_wf ch → channel_of (filled (channel_bytes ch) b) = ch.
Proof.
  intros [Hk He]. unfold channel_of, filled, channel_bytes. destruct ch as [key id epoch]. cbn [chn_key chn_channel_id chn_epoch] in *.
  rewrite <- !app_assoc. rewrite take_app_le, firstn_all2 by lia.
  rewrite lookup_total_app_r by lia. rewrite drop_app_ge by lia. rewrite Hk.
  change (32 - 32)%nat with 0%nat. change (34 - 32)%nat with 2%nat. cbn [app lookup_total list_lookup_total drop].
  f_equal. change (take 2 (le16_bytes epoch ++ ?l)) with (le16_bytes epoch). by apply le16_roundtrip.
Qed.
Lemma channel_bytes_length ch : channel_wf ch → length (channel_bytes ch) = CHANNEL_SIZE.
Proof. intros [Hk _]. unfold channel_bytes. rewrite !length_app, Hk. done. Qed.
(** The name flash has for slot [i]. *)
Definition stored_name (ns : nvs_ns) (i : nat) : list Z := default [] (nvs_get_str ns (nm_key i) CHANNEL_NAME_SIZE).
Lemma stored_name_short ns i : (length (stored_name ns i) < CHANNEL_NAME_SIZE)%nat.
Proof.
  unfold stored_name, nvs_get_str. repeat case_match; cbn; try (unfold CHANNEL_NAME_SIZE; lia).
  by apply Nat.ltb_lt.
Qed.
Lemma stored_name_named pub s i :
  table_ok pub s → stored_table s (cs_flash s) → (i < cs_num s)%nat → cs_names s !!! i ≠ [] →
  stored_name (cs_flash s) i = cs_names s !!! i.
Proof.
  intros (_ & _ & _ & L & _ & Hn & _ & _ & _ & _ & _ & _ & Hs) (_ & _ & _ & Hnm) Hi Hne.
  unfold stored_name, nvs_get_str. specialize (Hnm i Hi Hne). unfold view in Hnm. cbn [key_of] in Hnm.
  rewrite Hnm. rewrite (proj2 (Nat.ltb_lt _ _)); [done|]. apply (Forall_lookup_total_1 _ _ i Hs). lia.
Qed.

Lemma count_true a b : length (filter (λ x, x = true) (replicate a true ++ replicate b false)) = a.
Proof.
  rewrite filter_app, length_app.
  assert (E1 : filter (λ x, x = true) (replicate a true) = replicate a true).
  { induction a as [|a IH]; [done|]. cbn [replicate]. rewrite list.filter_cons_True by done. by rewrite IH. }
  assert (E2 : filter (λ x, x = true) (replicate b false) = []).
  { induction b as [|b IH]; [done|]. cbn [replicate]. by rewrite list.filter_cons_False. }
  rewrite E1, E2, length_replicate. cbn. lia.
Qed.
Lemma load_spec pub s x stack :
  table_ok pub s → stored_table s (cs_flash s) → faultless x → cs_flash x = cs_flash s →
  length stack = MAX_CHANNELS →
  swp (channel_storage_load stack) x (λ r x', x' = x ∧ ∃ slots,
    r = (0, slots, cs_num s, map (stored_name (cs_flash s)) (seq 0 (cs_num s)), cs_default s) ∧
    ∀ i, (i < cs_num s)%nat → slots !!! i = cs_channels s !!! i).
Proof.
  intros Hok (T1 & T2 & T3 & T4) Hf Hfl Hst. pose proof Hok as (_ & _ & L1 & _ & _ & Hn & Hd & _ & _ & _ & Hwf & _ & _).
  unfold channel_storage_load. apply swp_bind, swp_flash_ok; [done|]. cbn [negb]. apply swp_bind, swp_get. cbn zeta.
  rewrite Hfl. unfold nvs_get_u8 at 1. unfold view in T1, T2. cbn [key_of] in T1, T2. rewrite T1.
  destruct (_ >? _) eqn:E; [lia|]. unfold nvs_get_u8 at 1. rewrite T2.
  destruct (_ <? _) eqn:E2; [|lia]. rewrite Nat2Z.id. set (slots := imap _ stack).
  assert (Hs : ∀ i, (i < MAX_CHANNELS)%nat → ∃ slot, slots !! i =
    Some (if (i <? cs_num s)%nat then (true, cs_channels s !!! i) else (false, slot))).
  { intros i Hi. destruct (lookup_lt_is_Some_2 stack i) as [slot Hslot]; [lia|]. exists slot. unfold slots.
    rewrite list_lookup_imap, Hslot. cbn [fmap option_fmap option_map]. f_equal. destruct (i <? cs_num s)%nat eqn:Ei; [|done]. apply Nat.ltb_lt in Ei.
    assert (W : channel_wf (cs_channels s !!! i)) by (apply Forall_lookup_total_1; [done|lia]).
    unfold load_blob, nvs_get_blob. specialize (T3 i Ei). unfold view in T3. cbn [key_of] in T3. rewrite T3.
    rewrite (channel_bytes_length _ W), (proj2 (Nat.leb_le _ _)) by lia. cbn beta iota.
    rewrite (channel_bytes_length _ W), (channel_of_bytes _ _ W). done. }
  assert (Hl : length (filter (λ b, b = true) slots.*1) = cs_num s).
  { assert (E3 : slots.*1 = replicate (cs_num s) true ++ replicate (MAX_CHANNELS - cs_num s) false).
    { apply list_eq_same_length with MAX_CHANNELS; [rewrite length_app, !length_replicate; lia| |].
      { rewrite length_fmap. unfold slots. by rewrite length_imap. }
      intros i a b Hi Ha Hb. destruct (Hs i Hi) as [slot Hslot]. rewrite list_lookup_fmap, Hslot in Ha.
      destruct (i <? cs_num s)%nat eqn:Ei; injection Ha as <-.
      - apply Nat.ltb_lt in Ei. rewrite lookup_app_l in Hb by (by rewrite length_replicate).
        by apply lookup_replicate in Hb as [-> _].
      - apply Nat.ltb_ge in Ei. rewrite lookup_app_r in Hb by (by rewrite length_replicate).
        by apply lookup_replicate in Hb as [-> _]. }
    rewrite E3. apply count_true. }
  rewrite Hl. rewrite (proj2 (Nat.ltb_lt _ _)) by lia. apply swp_ret. split; [done|]. exists slots.*2. split; [done|].
  intros i Hi. destruct (Hs i) as [slot Hslot]; [lia|]. rewrite (proj2 (Nat.ltb_lt _ _)) in Hslot by done.
  apply list_lookup_total_correct. by rewrite list_lookup_fmap, Hslot.
Qed.

(** The first [i] channels are back. *)
Definition merged (s x : chan_state) (i : nat) : Prop :=
  faultless x ∧ cs_flash x = cs_flash s ∧ cs_num x = i ∧ cs_default x = 0 ∧
  length (cs_channels x) = MAX_CHANNELS ∧ length (cs_names x) = MAX_CHANNELS ∧ length (cs_has_psk x) = MAX_CHANNELS ∧
  ∀ j, (j < i)%nat → cs_channels x !!! j = cs_channels s !!! j ∧ cs_names x !!! j = stored_name (cs_flash s) j.
Lemma names_lookup ns n i : (i < n)%nat → map (stored_name ns) (seq 0 n) !!! i = stored_name ns i.
Proof.
  intros Hi. apply list_lookup_total_correct. change (map ?f ?l) with (f <$> l). rewrite list_lookup_fmap.
  by rewrite lookup_seq_lt.
Qed.
Lemma unnamed_take ns i : take (CHANNEL_NAME_SIZE - 1) (stored_name ns i) = stored_name ns i.
Proof. apply take_ge. pose proof (stored_name_short ns i). lia. Qed.
Lemma merge_rest pub s (slots : list bramble_channel_t) n : table_ok pub s → (∀ i, (i < cs_num s)%nat → slots !!! i = cs_channels s !!! i) →
  ∀ i x, (1 ≤ i)%nat → (i + n ≤ cs_num s)%nat → merged s x i → (∀ j, (i ≤ j)%nat → cs_names x !!! j = []) →
  swp (sfor (seq i n) (λ i, merge_channel i (slots !!! i) (map (stored_name (cs_flash s)) (seq 0 (cs_num s)) !!! i))) x
    (λ _ x', merged s x' (i + n)).
Proof.
  intros Hok Hsl. pose proof Hok as (_ & _ & _ & _ & _ & Hn & _ & _ & _ & _ & _ & Hid & _).
  induction n as [|n IH]; intros i x Hi Hin Hm He; cbn [seq sfor]; [apply swp_ret; by rewrite Nat.add_0_r|].
  destruct Hm as (M1 & M2 & M3 & M4 & M5 & M6 & M7 & M8).
  apply swp_bind. unfold merge_channel at 1. apply swp_bind, swp_get. cbn zeta. rewrite M3.
  rewrite (proj2 (Nat.leb_gt _ _)) by lia. rewrite (proj2 (Nat.eqb_neq i 0)) by lia. rewrite andb_false_r.
  rewrite names_lookup, Hsl by lia. apply swp_bind, swp_modify, swp_bind.
  assert (Hch : with_id (cs_channels s !!! i) (Z.of_nat i) = cs_channels s !!! i).
  { pose proof (Hid i ltac:(lia)) as E. destruct (cs_channels s !!! i). cbn in *. by rewrite E. }
  rewrite Hch. replace (i + S n)%nat with (S i + n)%nat by lia.
  set (x1 := cset_channels _ _).
  apply (swp_mono _ _ (λ _ x2, x2 = cset_names x1 (<[i := stored_name (cs_flash s) i]> (cs_names x)))).
  { destruct (stored_name (cs_flash s) i) as [|c nm] eqn:Es.
    - apply swp_ret. rewrite <- (He i) by lia. rewrite list_insert_id; [by destruct x|].
      by apply list_lookup_lookup_total_lt; lia.
    - apply swp_modify. rewrite <- Es, unnamed_take. done. }
  intros _ x2 ->. apply swp_bind, swp_modify, swp_modify. apply IH; [lia|lia| |].
  - unfold merged. cbn. rewrite !length_insert. fields; try done. intros j Hj.
    destruct (decide (j = i)) as [->|Hne].
    + rewrite !list_lookup_total_insert_eq by lia. done.
    + rewrite !list_lookup_total_insert_ne by done. apply M8. lia.
  - intros j Hj. cbn. rewrite list_lookup_total_insert_ne by lia. apply He. lia.
Qed.

(** The reboot of a stored table. *)
Definition restored (s x : chan_state) : Prop :=
  cs_num x = cs_num s ∧ cs_default x = cs_default s ∧
  ∀ i, (i < cs_num s)%nat → cs_channels x !!! i = cs_channels s !!! i ∧ cs_has_psk x !!! i = cs_has_psk s !!! i ∧
    cs_names x !!! i = match cs_names s !!! i with [] => stored_name (cs_flash s) i | nm => nm end.
Lemma restore_spec p0 s stack :
  channel_derive_key BRAMBLE_PUBLIC_CHANNEL_PSK = Some p0 → table_ok (with_id p0 0) s → persisted s →
  length stack = MAX_CHANNELS →
  swp (restore_channels stack) (chan_boot (cs_flash s)) (λ _ x, restored s x).
Proof.
  intros Hp Hok Hpers Hst. pose proof Hok as (_ & _ & L1 & L2 & L3 & Hn & Hd & H8 & H9 & H10 & Hwf & Hid & Hnm).
  unfold restore_channels, public_channel_init. rewrite Hp. do 3 apply swp_bind.
  apply swp_modify. apply swp_bind, swp_modify, swp_ret. do 3 apply swp_bind, swp_modify. set (x := cset_names _ _).
  destruct Hpers as [[Ht Hfl]|(Hc & _ & Hn1 & Hd0)].
  2: { apply swp_bind. unfold channel_storage_load. apply swp_bind, swp_flash_ok; [done|]. cbn [negb].
       apply swp_bind, swp_get. cbn zeta. unfold nvs_get_u8 at 1. unfold view in Hc. cbn [key_of] in Hc.
       change (cs_flash x) with (cs_flash s). rewrite Hc. apply swp_ret, swp_ret. unfold restored. rewrite Hn1, Hd0.
       fields. intros i Hi. replace i with 0%nat by lia. rewrite H8, H9, H10. done. }
  assert (Hs0 : stored_name (cs_flash s) 0 = str_bytes "Broadcast").
  { rewrite (stored_name_named _ s 0 Hok Ht) by (lia || by rewrite H10). done. }
  eapply swp_mono; [exact (load_spec _ s x stack Hok Ht eq_refl eq_refl Hst)|]. cbv beta. intros r x' (-> & slots & -> & Hsl).
  cbn beta iota. rewrite (proj2 (Nat.eqb_neq _ _)) by lia. cbn [negb orb Z.eqb].
  replace (seq 0 (cs_num s)) with (0%nat :: seq 1 (cs_num s - 1)) at 1
    by (replace (cs_num s) with (S (cs_num s - 1)) at 2 by lia; done).
  cbn [sfor]. apply swp_bind, swp_bind. unfold merge_channel at 1. apply swp_bind, swp_get. cbn zeta.
  change (cs_num x) with 1%nat. cbn [Nat.leb MAX_CHANNELS]. rewrite names_lookup, Hsl, Hs0 by lia.
  rewrite (Hid 0%nat) by lia. cbn [Z.of_nat Z.eqb Nat.eqb andb].
  change (str_bytes "Broadcast") with (66 :: tail (str_bytes "Broadcast")) at 1. cbn iota. apply swp_modify.
  set (x1 := cset_names x _).
  eapply swp_mono; [apply (merge_rest _ s slots _ Hok Hsl 1 x1)|]; try lia.
  { unfold merged. fields. intros j Hj. replace j with 0%nat by lia. rewrite H8, Hs0. done. }
  { intros j Hj. destruct j as [|j]; [lia|]. do 15 (destruct j as [|j]; [done|]). done. }
  cbv beta. intros _ x2 Hm. replace (1 + (cs_num s - 1))%nat with (cs_num s) in Hm by lia.
  destruct Hm as (M1 & M2 & M3 & M4 & M5 & M6 & M7 & M8). apply swp_bind, swp_modify.
  rewrite M3, (proj2 (Z.ltb_lt _ _)) by lia. unfold mesh_load_channel_psk_flags.
  apply swp_bind, swp_flash_ok; [done|]. cbn [negb]. apply swp_modify. unfold restored.
  cbn [cs_num cs_default cs_channels cs_has_psk cs_names cset_default cset_has_psk cs_flash].
  rewrite M3, M2. fields. intros i Hi. destruct (M8 i Hi) as [E1 E2]. split; [done|]. split.
  - destruct (lookup_lt_is_Some_2 (cs_has_psk x2) i) as [b Hb]; [lia|].
    apply list_lookup_total_correct. rewrite list_lookup_imap, Hb. cbn [fmap option_fmap option_map].
    rewrite (proj2 (Nat.ltb_lt _ _)) by done. f_equal. rewrite <- (Hfl i Hi). unfold nvs_get_u8, view, flag_of.
    cbn [key_of]. destruct (nvs_lookup _ _) as [[]|]; done.
  - rewrite E2. destruct (cs_names s !!! i) as [|c nm] eqn:En; [done|].
    rewrite <- En. apply (stored_name_named _ s i Hok Ht Hi). by rewrite En.
Qed.

(** ** Histories *)

Inductive ch_op := OpAdd (name psk : list Z) | OpRemove (index : Z) | OpDefault (index : Z).
Definition run_ch (op : ch_op) : C unit :=
  match op with
  | OpAdd name psk => mesh_add_channel name psk ;; mret tt
  | OpRemove index => mesh_remove_channel index ;; mret tt
  | OpDefault index => mesh_set_default_channel index ;; mret tt
  end.

Lemma remove_spec pub s index :
  table_ok pub s → persisted s → swp (mesh_remove_channel index) s (λ _ s', table_ok pub s' ∧ persisted s').
Proof.
  intros Hok Hp. destruct (decide (0 < index < Z.of_nat (cs_num s))) as [Hr|Hr].
  - eapply swp_mono; [by apply (remove_valid pub)|]. by intros x s' (_ & H1 & H2 & _).
  - unfold mesh_remove_channel. apply swp_bind, swp_get. cbn zeta.
    destruct ((index <=? 0) || _) eqn:E; [by apply swp_ret|]. apply orb_false_iff in E. lia.
Qed.
Lemma run_ch_spec pub op s :
  table_ok pub s ∧ persisted s → swp (run_ch op) s (λ _ s', table_ok pub s' ∧ persisted s').
Proof.
  intros [Hok Hp]. destruct op; cbn [run_ch]; apply swp_bind; (eapply swp_mono;
    [first [by apply (add_spec pub)|by apply (remove_spec pub)|by apply (set_default_spec pub)]|]);
    cbv beta; intros x s' H; by apply swp_ret.
Qed.
(** A node that starts with erased flash. *)
Definition factory (rnd : list (option (list Z))) : chan_state := cset_random (chan_boot []) rnd.
Lemma factory_boot p0 rnd stack :
  channel_derive_key BRAMBLE_PUBLIC_CHANNEL_PSK = Some p0 → Forall (λ o, ∀ k, o = Some k → length k = 32%nat) rnd →
  swp (restore_channels stack) (factory rnd) (λ _ s, table_ok (with_id p0 0) s ∧ persisted s).
Proof.
  intros Hp Hr. unfold restore_channels, public_channel_init. rewrite Hp.
  remember (factory rnd) as f eqn:Ef. do 3 apply swp_bind. apply swp_modify. apply swp_bind, swp_modify, swp_ret. do 3 apply swp_bind, swp_modify.
  apply swp_bind. unfold channel_storage_load. apply swp_bind, swp_flash_ok; [by subst f|]. cbn [negb].
  apply swp_bind, swp_get. cbn zeta. subst f. change (nvs_get_u8 _ _) with (@None Z). apply swp_ret, swp_ret.
  split; [|by right]. unfold table_ok. cbn -[channel_wf]. fields; try (unfold MAX_CHANNELS; lia).
  - constructor; [by apply derive_wf in Hp|]. repeat (constructor; [split; [done|cbn; lia]|]). constructor.
  - intros i Hi. by replace i with 0%nat by lia.
  - repeat (constructor; [cbn; unfold CHANNEL_NAME_SIZE; lia|]). constructor.
Qed.

(** C31. The channel table survives a reboot.  From a node with erased flash that does not
    fail, through any
    history of added and removed channels and changed defaults, every step returns,
    the public channel stays in slot 0, every channel has its index as id and the
    default is one of them; and when the node then reboots, whatever its stack held,
    it has the same channels with the same keys and epochs, the same default, PSK marks
    and names, except that a channel without a name takes the one flash holds for its
    slot. *)
Theorem channels_survive_reboot p0 rnd ops stack stack' :
  channel_derive_key BRAMBLE_PUBLIC_CHANNEL_PSK = Some p0 → Forall (λ o, ∀ k, o = Some k → length k = 32%nat) rnd →
  length stack' = MAX_CHANNELS →
  swp (restore_channels stack ;; sfor ops run_ch) (factory rnd) (λ _ s,
    table_ok (with_id p0 0) s ∧
    swp (restore_channels stack') (chan_boot (cs_flash s)) (λ _ s', restored s s')).
Proof.
  intros Hp Hr Hst. apply swp_bind. eapply swp_mono; [by apply (factory_boot p0)|]. cbv beta. intros _ s0 Hs0.
  eapply swp_mono; [apply (swp_for _ _ (λ s, table_ok (with_id p0 0) s ∧ persisted s) s0)|].
  { done. } { intros op s _ Hs. by apply run_ch_spec. }
  cbv beta. intros _ s [Hok Hpe]. split; [done|]. by apply (restore_spec p0).
Qed.

(** A removed channel leaves its name to the next one.  Removing a named channel that
    an unnamed one follows gives the unnamed channel its slot; flash keeps the removed
    channel's name under that slot, so asked for the name of the channel that is there
    now, the node answers with the name of the one that is gone. *)
Theorem removed_name_returns pub s index :
  table_ok pub s → persisted s → 0 < index → index + 1 < Z.of_nat (cs_num s) →
  cs_names s !!! Z.to_nat index ≠ [] → cs_names s !!! S (Z.to_nat index) = [] →
  swp (mesh_remove_channel index) s (λ _ s',
    chn_key (cs_channels s' !!! Z.to_nat index) = chn_key (cs_channels s !!! S (Z.to_nat index)) ∧
    swp (mesh_get_channel_name index) s' (λ r _, r = Some (cs_names s !!! Z.to_nat index))).
Proof.
  intros Hok Hp H0 H1 Hn1 Hn2. eapply swp_mono; [apply (remove_valid pub); [done|lia]|].
  cbv beta. intros _ s' (_ & Hok' & _ & R1 & _ & R3 & R4). destruct (R3 (Z.to_nat index)) as [Ec En]; [lia|].
  split; [by rewrite Ec|]. unfold mesh_get_channel_name. apply swp_bind, swp_get. rewrite R1.
  destruct ((index <? 0) || _) eqn:E.
  { exfalso. rewrite Z.geb_leb in E. apply orb_true_iff in E as [E|E]; [lia|]. apply Z.leb_le in E. lia. }
  cbn zeta. rewrite En, Hn2.
  rewrite (proj2 (Z.eqb_neq _ _)) by lia. apply swp_bind, swp_flash_ok; [apply Hok'|]. cbn [negb].
  destruct Hp as [[Ht _]|(_ & _ & Hc & _)]; [|lia].
  assert (Hv : view (cs_flash s') (KNm (Z.to_nat index)) = Some (NvStr (cs_names s !!! Z.to_nat index))).
  { rewrite (R4 (Z.to_nat index)); [apply Ht; [lia|done]| |by rewrite En, Hn2].
    destruct Hok as (_ & _ & _ & _ & _ & Hn & _). lia. }
  assert (Hl : (length (cs_names s !!! Z.to_nat index) < CHANNEL_NAME_SIZE)%nat).
  { destruct Hok as (_ & _ & _ & L & _ & Hn & _ & _ & _ & _ & _ & _ & Hs).
    apply (Forall_lookup_total_1 _ _ (Z.to_nat index) Hs). lia. }
  unfold nvs_get_str at 1. unfold view in Hv. cbn [key_of] in Hv. rewrite Hv, (proj2 (Nat.ltb_lt _ _)) by done.
  destruct (cs_names s !!! Z.to_nat index) as [|c nm]; [done|]. apply swp_bind, swp_modify, swp_ret.
  f_equal. apply take_ge. lia.
Qed.

(** A location rule outlives its channel.  Rules name a channel by its index; removing a
    channel moves the next one into the index and leaves the rules as they are, so what
    the node then sends for the rule of the removed channel is sealed under the key of
    the channel that followed it. *)
Theorem rules_pass_to_next_channel (hmac : list Z → list Z → list Z) `{!HmacLaws hmac} pub s index tg inner :
  table_ok pub s → 0 < index → index + 1 < Z.of_nat (cs_num s) →
  tg_kind tg = LOCATION_TARGET_CHANNEL → tg_id tg = index → length inner = L_LOC_INNER →
  swp (mesh_remove_channel index) s (λ _ s',
    ∀ n, env_ok (nd_env n) → nd_channels n = take (cs_num s') (cs_channels s') →
    wp (location_tx_channel hmac (tg_id tg) inner) n (λ _ n', sends (λ frame,
      ∃ pkt mac nonce ct tag aad ch,
        data_frame BRAMBLE_MAX_PACKET_SIZE (location_header (Z.lor FLAG_ENCRYPT FLAG_CHANNEL) UINT32_MAX pkt)
          (id_address (nd_id n)) mac nonce ct tag = Some frame ∧
        chn_key ch = chn_key (cs_channels s !!! S (Z.to_nat index)) ∧
        channel_msg_encrypt ch (id_address (nd_id n)) APP_TYPE_LOCATION 0 inner aad nonce = Some (ct, tag)) n n')).
Proof.
  intros Hok H0 H1 Hk Hid Hin. eapply swp_mono; [apply (remove_valid pub); [done|lia]|].
  cbv beta. intros _ s' (_ & Hok' & _ & R1 & _ & R3 & _). destruct (R3 (Z.to_nat index)) as [Ec _]; [lia|]. intros n Henv Hn.
  eapply wp_mono; [by apply tx_channel_spec|]. cbv beta. intros _ n' [_ Hs]. eapply sends_mono, Hs.
  intros frame (pkt & mac & nonce & ct & tag & H). rewrite Hk, Z.eqb_refl, Hid in H.
  destruct H as (_ & Hf & aad & He). eexists pkt, mac, nonce, ct, tag, aad, _. split; [exact Hf|]. split; [|exact He].
  rewrite Hn, lookup_total_take_lt by lia. by rewrite Ec.
Qed.
End Histories.

(** ** An example

    A node that was given the channel [ops], under a PSK, and one without a name. *)

#[local] Existing Instance toy_crypto.
#[local] Existing Instance toy_id_crypto.

Definition public0 : bramble_channel_t :=
  default (mk_channel [] 0 0) (channel_derive_key BRAMBLE_PUBLIC_CHANNEL_PSK).
Lemma public0_derived : channel_derive_key BRAMBLE_PUBLIC_CHANNEL_PSK = Some public0.
Proof. vm_compute. reflexivity. Qed.
Definition two_adds : list ch_op :=
  [OpAdd (str_bytes "ops") (str_bytes "s3cret"); OpAdd [] []].
Definition two_keys : list (option (list Z)) := [Some (replicate 32 7)].
Definition two_channels : chan_state :=
  match (restore_channels [] ;; sfor two_adds run_ch) (factory two_keys) with Some (_, s) => s | None => factory [] end.
Lemma two_keys_ok : Forall (λ o, ∀ k, o = Some k → length k = 32%nat) two_keys.
Proof. constructor; [|constructor]. by intros k [= <-]. Qed.
Lemma two_channels_shape :
  cs_num two_channels = 3%nat ∧ cs_names two_channels !!! 1%nat = str_bytes "ops" ∧ cs_names two_channels !!! 2%nat = [].
Proof. vm_compute. done. Qed.
Lemma swp_final {A} (m : C A) s d (P : chan_state → Prop) :
  swp m s (λ _ s', P s') → P (match m s with Some (_, s') => s' | None => d end).
Proof. unfold swp. by destruct (m s) as [[x s']|]. Qed.
Lemma two_channels_ok : table_ok (with_id public0 0) two_channels ∧ persisted two_channels.
Proof.
  assert (H : swp (restore_channels [] ;; sfor two_adds run_ch) (factory two_keys)
    (λ _ s, table_ok (with_id public0 0) s ∧ persisted s)).
  { apply swp_bind. eapply swp_mono; [apply (factory_boot public0); [exact public0_derived|exact two_keys_ok]|].
    cbv beta. intros _ s0 Hs0. apply (swp_for _ _ (λ s, table_ok (with_id public0 0) s ∧ persisted s) s0); [done|].
    intros op s _ Hs. by apply run_ch_spec. }
  exact (swp_final _ _ (factory []) (λ s, table_ok (with_id public0 0) s ∧ persisted s) H).
Qed.

Lemma channels_survive_reboot_witness :
  cs_num two_channels = 3%nat ∧
  swp (restore_channels [] ;; sfor two_adds run_ch) (factory two_keys) (λ _ s,
    table_ok (with_id public0 0) s ∧
    swp (restore_channels (replicate MAX_CHANNELS public0)) (chan_boot (cs_flash s)) (λ _ s', restored s s')).
Proof.
  split; [apply two_channels_shape|].
  apply (channels_survive_reboot public0 two_keys two_adds); [exact public0_derived|exact two_keys_ok|reflexivity].
Defined.
Lemma removed_name_returns_witness :
  swp (mesh_remove_channel 1) two_channels (λ _ s',
    chn_key (cs_channels s' !!! 1%nat) = chn_key (cs_channels two_channels !!! 2%nat) ∧
    swp (mesh_get_channel_name 1) s' (λ r _, r = Some (cs_names two_channels !!! 1%nat))).
Proof.
  destruct two_channels_shape as (E1 & E2 & E3).
  apply (removed_name_returns (with_id public0 0) two_channels 1);
    [apply two_channels_ok|apply two_channels_ok|lia|rewrite E1; lia|change (Z.to_nat 1) with 1%nat; by rewrite E2|exact E3].
Defined.
Definition rule_one : location_target_t := mk_target LOCATION_TARGET_CHANNEL 1 LOCATION_TIER_FULL 60.
Lemma rules_pass_to_next_channel_witness :
  tg_id rule_one = 1 ∧
  swp (mesh_remove_channel 1) two_channels (λ _ s',
    ∀ n, env_ok (nd_env n) → nd_channels n = take (cs_num s') (cs_channels s') →
    wp (location_tx_channel toy_hmac (tg_id rule_one) (replicate L_LOC_INNER 1)) n
      (λ _ n', sends (λ frame,
      ∃ pkt mac nonce ct tag aad ch,
        data_frame BRAMBLE_MAX_PACKET_SIZE (location_header (Z.lor FLAG_ENCRYPT FLAG_CHANNEL) UINT32_MAX pkt)
          (id_address (nd_id n)) mac nonce ct tag = Some frame ∧
        chn_key ch = chn_key (cs_channels two_channels !!! 2%nat) ∧
        channel_msg_encrypt ch (id_address (nd_id n)) APP_TYPE_LOCATION 0 (replicate L_LOC_INNER 1) aad nonce = Some (ct, tag)) n n')).
Proof.
  destruct two_channels_shape as (E1 & _ & _). split; [reflexivity|].
  apply (rules_pass_to_next_channel toy_hmac (with_id public0 0) two_channels 1 rule_one (replicate L_LOC_INNER 1));
    [apply two_channels_ok|lia|rewrite E1; lia|reflexivity|reflexivity|reflexivity].
Defined.
