(* ===== verification/MeshTick.v ===== *)
(** * The maintenance tick and the dispatch of the mesh task
      ([mesh_periodic_maintenance] and the packet switch of [main/mesh_task.c],
      [mailbox_expire] of [main/mesh_mailbox.c])

    What happens every ten milliseconds: beacons, attestations, the sweep of
    parked messages, the purges, expiry of queued messages, jittered forwards,
    discovery retries and acknowledgement retries.  The floor the transmission
    gate sets on the beacon interval and the jitter bytes are drawn. *)

From stdpp Require Import base strings numbers sets option decidable list.
From S2P Require Import Prelude Tables Packet Dedup Fragment Mailbox TxGate Reliability Routing NetworkKey.
From S2P Require Import RoutingAuth Discovery ChannelFlood Security MeshRouting DmCrypto DmTable Identity.
From S2P Require Import Channel MsgStore MeshDm Receipts MeshRx ParkedRetry Beacon Probe Rollcall MeshState.
From S2P Require Import MeshSend MeshBeacon MeshProbe MeshRollcall Location MeshLocation.

Definition NEIGHBOR_PURGE_INTERVAL : Z := 60000.
Definition DM_QUEUE_TTL_MS : Z := 150000.
Definition ROUTE_QUEUE_TTL_MS : Z := 60000.

Section SchedSetters.
Context (c : sched).
Definition scset_beacon last interval := mk_sched last interval (sc_last_purge_ms c)
  (sc_last_neighbor_count c) (sc_last_disc_check c) (sc_last_ack_tick c) (sc_flush_requested c).
Definition scset_purge x := mk_sched (sc_last_beacon_ms c) (sc_beacon_interval c) x
  (sc_last_neighbor_count c) (sc_last_disc_check c) (sc_last_ack_tick c) (sc_flush_requested c).
Definition scset_neighbors x := mk_sched (sc_last_beacon_ms c) (sc_beacon_interval c) (sc_last_purge_ms c)
  x (sc_last_disc_check c) (sc_last_ack_tick c) (sc_flush_requested c).
Definition scset_disc x := mk_sched (sc_last_beacon_ms c) (sc_beacon_interval c) (sc_last_purge_ms c)
  (sc_last_neighbor_count c) x (sc_last_ack_tick c) (sc_flush_requested c).
Definition scset_ack x := mk_sched (sc_last_beacon_ms c) (sc_beacon_interval c) (sc_last_purge_ms c)
  (sc_last_neighbor_count c) (sc_last_disc_check c) x (sc_flush_requested c).
Definition scset_flush x := mk_sched (sc_last_beacon_ms c) (sc_beacon_interval c) (sc_last_purge_ms c)
  (sc_last_neighbor_count c) (sc_last_disc_check c) (sc_last_ack_tick c) x.
End SchedSetters.
Definition set_sched (f : sched → sched) : T unit := smodify (λ s, mset_sched s (f (mt_sched s))).

Definition tx_kind_of (code : Z) : tx_kind_t :=
  match code with
  | 0 => TX_KIND_DATA | 1 => TX_KIND_DATA_BROADCAST | 2 => TX_KIND_DATA_RETRY | 3 => TX_KIND_FORWARD
  | 4 => TX_KIND_MAILBOX | 5 => TX_KIND_BEACON | 6 => TX_KIND_ROUTING | 7 => TX_KIND_ACK
  | 8 => TX_KIND_RECEIPT | 9 => TX_KIND_RECEIPT_FORWARD | 10 => TX_KIND_PROBE | _ => TX_KIND_PROBE_REPLY
  end.

Section Tick.
Context `{DC : DmCrypto} `{IC : IdCrypto} (hmac : list Z → list Z → list Z).
Context (crypto_ed25519_sign : list Z → list Z → option (list Z)).

(** ** Announcements *)

(** [budget_floor]: what [tx_gate_beacon_min_interval] answers; [rand16]: the jitter bytes. *)
Definition beacon_schedule (t budget_floor rand16 : Z) : T unit :=
  s ← sget;
  let current := u8 (Z.of_nat (neighbor_count (nd_neighbors (mt_node s)))) in
  swhen (negb (current =? sc_last_neighbor_count (mt_sched s)))
    (record_churn_event t current ;; set_sched (λ c, scset_neighbors c current)) ;;
  base_interval ← compute_adaptive_beacon_interval t current;
  let base_interval := if budget_floor >? base_interval then budget_floor else base_interval in
  s ← sget;
  swhen ((t ⊖ sc_last_beacon_ms (mt_sched s)) >=? sc_beacon_interval (mt_sched s))
    (send_beacon hmac ;;
     set_sched (λ c, scset_beacon c t (beacon_next_interval_ms base_interval rand16))).
Definition attestation_schedule (t : Z) : T unit :=
  s ← sget;
  let b := mt_beacon s in
  swhen (negb (bc_att_wait_ms b =? 0) && ((t ⊖ bc_att_last_ms b) >=? bc_att_wait_ms b))
    (attempt_identity_attestation hmac crypto_ed25519_sign t).

(** ** Purges *)

Definition mailbox_expire (t : Z) : T unit := on_mailbox (λ mb, Some (mailbox_purge_expired mb t)).
Definition queue_ttl (q : queued_msg_t) : Z :=
  if bool_decide (qm_reason q = QUEUE_REASON_SESSION) then DM_QUEUE_TTL_MS else ROUTE_QUEUE_TTL_MS.
Definition queue_expired (t : Z) (q : queued_msg_t) : bool :=
  qm_used q && ((t ⊖ qm_timestamp q) >? queue_ttl q).
Definition expire_queued (t : Z) : M unit :=
  for_each (seq 0 MAX_QUEUED_MSGS) (λ i,
    n ← get;
    let q := nd_queue n !!! i in
    if queue_expired t q then
      (if bool_decide (qm_reason q = QUEUE_REASON_SESSION)
       then emit (DAckFailed (qm_pkt_id q) "no_secure_session") else mret tt) ;;
      msgs_update_by_uid (qm_uid q) 0 MSG_STATUS_FAILED ;;
      queue_release i
    else mret tt).
Definition purge_tables (t : Z) (r : rx) : rx :=
  let r := rset_node r (set_neighbors (rx_node r) (neighbor_purge (nd_neighbors (rx_node r)) t)) in
  let r := rset_dedup r (dedup_purge (rx_dedup r) t) in
  let r := rset_flood_dedup r (dedup_purge (rx_flood_dedup r) t) in
  let r := rset_delivered r (dedup_purge (rx_delivered r) t) in
  let m := rx_mesh r in
  let r := rset_mesh r (set_reverse (set_routes m (route_maintenance (s_routes m) t))
                          (reverse_route_purge (s_reverse_routes m) t)) in
  rset_reasm r (reassembly_purge (rx_reasm r) t).
Definition purge_pass (t : Z) : T unit :=
  s ← sget;
  swhen ((t ⊖ sc_last_purge_ms (mt_sched s)) >=? NEIGHBOR_PURGE_INTERVAL)
    (on_rx (rmodify (purge_tables t)) ;;
     set_sched (λ c, scset_purge c t) ;;
     swhen (s_mailbox_enabled (rx_mesh (mt_rx s))) (mailbox_expire t) ;;
     on_nd (expire_queued t) ;;
     on_nd (maybe_schedule_dm_epoch_rekey t)).

(** ** Queues *)

Definition replay_flush : T unit :=
  s ← sget;
  let forced := sc_flush_requested (mt_sched s) in
  swhen forced (set_sched (λ c, scset_flush c false)) ;;
  notify (MReplaySave forced).
Definition forward_requests (t : Z) : T unit :=
  s ← sget;
  '(q, evs) ← slift (process_rreq_forward_queue (s_rreq_fwd_queue (rx_mesh (mt_rx s))) t);
  set_routing (λ m, set_fwd_queue m q) ;;
  on_nd (tx_events evs).
Definition forward_floods (t : Z) : T unit :=
  s ← sget;
  let '(frames, q) := process_flood_relay_queue (rx_floodq (mt_rx s)) t in
  on_rx (rmodify (λ r, rset_floodq r q)) ;;
  on_nd (for_each frames (λ '(f, kind), mesh_tx f (tx_kind_of kind) ;; mret tt)).

(** ** Discovery retries *)

Definition fail_queued_for (dest_addr : Z) : M unit :=
  for_each (seq 0 MAX_QUEUED_MSGS) (λ j,
    n ← get;
    let q := nd_queue n !!! j in
    if queued_for_route dest_addr q then
      msgs_update_by_uid (qm_uid q) 0 MSG_STATUS_FAILED ;; queue_release j
    else mret tt).
Definition retry_discovery (i : nat) (pd : pending_discovery_t) (t : Z) : T unit :=
  query_id ← on_nd next_packet_id;
  let pd := discovery_record_attempt pd query_id t in
  set_routing (λ m, set_pending_disc m (tset (s_pending_disc m) i pd)) ;;
  originate_rreq hmac (pd_dest_addr pd) query_id (discovery_hop_limit_for_attempt (pd_attempts pd)).
(** The pass over the table; an entry given up is removed and its index looked at
    again, so the table's size at the start is fuel enough. *)
Fixpoint discovery_loop (fuel i : nat) (t : Z) : T unit :=
  match fuel with
  | O => mret tt
  | S fuel =>
      s ← sget;
      let table := s_pending_disc (rx_mesh (mt_rx s)) in
      if (i <? count table)%nat then
        let pd := entries table !!! i in
        if discovery_should_retry pd t then
          if pd_attempts pd >=? Z.of_nat MAX_RREQ_ATTEMPTS then
            on_nd (fail_queued_for (pd_dest_addr pd)) ;;
            set_routing (λ m, set_pending_disc m (discovery_remove (s_pending_disc m) (pd_dest_addr pd))) ;;
            discovery_loop fuel i t
          else retry_discovery i pd t ;; discovery_loop fuel (S i) t
        else discovery_loop fuel (S i) t
      else mret tt
  end.
Definition discovery_retries (t : Z) : T unit :=
  s ← sget;
  swhen ((t ⊖ sc_last_disc_check (mt_sched s)) >=? 5000)
    (set_sched (λ c, scset_disc c t) ;;
     discovery_loop (count (s_pending_disc (rx_mesh (mt_rx s)))) 0 t).

(** ** Acknowledgement retries *)

Definition msgs_update_status (packet_id : Z) (status : msg_status_t) : M bool := λ n,
  let '(ok, st, ps) := msg_store_update_status (nd_msgs n) packet_id status in
  Some (ok, set_out (set_msgs n st) (nd_out n ++ [DPersist ps])).
(** A random word is drawn only for a retransmission with a delay to jitter. *)
Definition ack_retry (i : nat) (t : Z) : T unit :=
  s ← sget;
  let e := nd_acks (mt_node s) !!! i in
  match (ack_retry_entry t 0 e).1 with
  | RNone => mret tt
  | RGiveUp =>
      on_nd (msgs_update_status (pa_packet_id e) MSG_STATUS_FAILED) ;;
      on_nd (emit (DAckFailed (pa_packet_id e) "")) ;;
      on_nd (modify (λ n, MeshDm.set_acks n (<[i := set_active e false]> (nd_acks n))))
  | RRetransmit frame =>
      on_nd (mesh_tx frame TX_KIND_DATA_RETRY) ;;
      rand ← (if u32 (Z.shiftl (tier_base_delay_ms (pa_tier e)) (u8 (pa_attempt e + 1))) / 4 >? 0
              then on_rx esp_random else mret 0);
      on_nd (modify (λ n, MeshDm.set_acks n (<[i := (ack_retry_entry t rand e).2]> (nd_acks n))))
  end.
Definition ack_retries (t : Z) : T unit :=
  s ← sget;
  swhen ((t ⊖ sc_last_ack_tick (mt_sched s)) >=? 1000)
    (set_sched (λ c, scset_ack c t) ;; sfor (seq 0 MAX_PENDING_ACKS) (λ i, ack_retry i t)).

Definition mesh_periodic_maintenance (t budget_floor rand16 : Z) : T unit :=
  beacon_schedule t budget_floor rand16 ;;
  attestation_schedule t ;;
  sweep_parked_messages hmac t ;;
  purge_pass t ;;
  replay_flush ;;
  forward_requests t ;;
  forward_floods t ;;
  mesh_rollcall_tick hmac crypto_ed25519_sign t ;;
  discovery_retries t ;;
  ack_retries t ;;
  probe_tick t.

(** ** Routing frames

    A handler of [MeshRouting] on the node: a random word is offered to it, the
    sequence number (and, for a route error, the packet id) is drawn when it has a
    frame to number.  Then its effects: frames, queued messages whose route is
    there, messages given up. *)

Definition routing_effect (e : mesh_event) : T unit :=
  match e with
  | EvTx frame kind => on_nd (mesh_tx frame kind) ;; mret tt
  | EvFlush dest => flush_queued_messages hmac dest
  | EvAckFailed packet_id =>
      on_nd (msgs_update_status packet_id MSG_STATUS_FAILED) ;;
      on_nd (emit (DAckFailed packet_id "route_broken"))
  end.
Definition routing_frame (own_id : bool) (handler : mesh → call_env → option (mesh * list mesh_event))
    : T unit :=
  now ← tnow;
  rand ← on_rx esp_random;
  s ← sget;
  let m := view (mt_rx s) in
  numbered ← slift (handler m (mk_env now rand 0 (Some 0)));
  unnumbered ← slift (handler m (mk_env now rand 0 None));
  let draws := (length unnumbered.2 <? length numbered.2)%nat in
  packet_id ← (if draws && own_id then on_nd next_packet_id else mret 0);
  seq ← (if draws then on_rx control_seq_next else mret None);
  '(m, evs) ← slift (handler m (mk_env now rand packet_id seq));
  on_rx (rmodify (λ r, rset_mesh r m)) ;;
  on_nd (modify (λ n, MeshDm.set_acks n (s_pending_acks m))) ;;
  sfor evs routing_effect.

(** ** Dispatch

    The duplicate gate and the packet switch. *)

Definition mesh_process_packet (data : list Z) (rssi snr : Z) : T unit :=
  header ← on_rx (rx_gate hmac data rssi);
  match header with
  | None => mret tt
  | Some h =>
      s ← sget;
      let len := length data in
      if h_type h =? PKT_TYPE_BEACON then handle_beacon hmac crypto_ed25519_sign data len rssi snr
      else if h_type h =? PKT_TYPE_ACK then on_rx (handle_ack hmac data len rssi snr)
      else if h_type h =? PKT_TYPE_DELIVERY_RECEIPT then on_rx (handle_delivery_receipt hmac data len rssi)
      else if h_type h =? PKT_TYPE_RREQ then
        routing_frame false (λ m env, handle_rreq hmac m env data len rssi snr)
      else if h_type h =? PKT_TYPE_RREP then
        routing_frame false (λ m env, handle_rrep hmac m env data len rssi snr)
      else if h_type h =? PKT_TYPE_RERR then
        routing_frame true (λ m env, handle_rerr hmac m env data len)
      else if h_type h =? PKT_TYPE_DATA then on_rx (rx_data hmac h data rssi snr)
      else if h_type h =? PKT_TYPE_LOCATION then
        swhen ((h_dest_addr h =? id_address (nd_id (mt_node s))) || (h_dest_addr h =? UINT32_MAX))
          (handle_location hmac data len rssi snr)
      else if h_type h =? PKT_TYPE_PROBE then handle_probe data len
      else if h_type h =? PKT_TYPE_PROBE_ACK then handle_probe_ack data len rssi snr
      else if h_type h =? PKT_TYPE_IDENTITY_ATTESTATION then handle_identity_attestation hmac data len
      else mret tt
  end.

(** ** The loop *)

Inductive mesh_event_type_t := MESH_EVT_RECEIPT_TX | MESH_EVT_PROBE_REPLY_TX.
Definition mesh_process_event (e : mesh_event_type_t) : T unit :=
  match e with
  | MESH_EVT_RECEIPT_TX => on_rx mesh_process_receipt_tx_event
  | MESH_EVT_PROBE_REPLY_TX => mesh_process_probe_reply_tx_event
  end.
(** A sweep that was asked for starts here, one at a time. *)
Definition start_queued_probe : T unit :=
  s ← sget;
  let p := mt_probe s in
  let queued_pid := if ps_request_pending p && negb (ps_collecting p) then ps_request_id p else 0 in
  swhen (ps_request_pending p && negb (ps_collecting p))
    (set_probe (λ p, pset_request p false (ps_request_id p))) ;;
  swhen (negb (queued_pid =? 0)) (mesh_start_probe_sweep queued_pid).
(** One turn: the packets and events that were queued, then the periodic work. *)
Definition mesh_task_turn (t : Z) (packets : list (list Z * Z * Z)) (events : list mesh_event_type_t)
    (budget_floor rand16 : Z) : T unit :=
  sfor packets (λ '(data, rssi, snr), mesh_process_packet data rssi snr) ;;
  sfor events mesh_process_event ;;
  start_queued_probe ;;
  mesh_location_policy_tick hmac t ;;
  mesh_periodic_maintenance t budget_floor rand16.
End Tick.
