(* ===== verification/MeshTickSpec.v ===== *)
(** * The maintenance tick: what it gives up and what it never does

    A discovery that used up its attempts stays in the table for good: the branch
    that reports the failure is never taken, and no later message to that
    destination starts a discovery.  Waiting messages, on the other hand, are given
    up after their time to live: the purge fails exactly the overdue ones. *)

From stdpp Require Import base strings numbers sets option decidable list.
From S2P Require Import Prelude Tables Packet Dedup Fragment Mailbox TxGate Reliability Routing NetworkKey.
From S2P Require Import RoutingAuth Discovery ChannelFlood Security MeshRouting MeshRoutingSpec DmCrypto DmTable Identity.
From S2P Require Import Channel MsgStore MsgStoreSpec MeshDm MeshDmSpec Receipts MeshRx MeshRxSpec.
From S2P Require Import ParkedRetry Beacon MeshState MeshSend MeshSendSpec MeshBeacon MeshTick.

Create HintDb tick.

(** ** Discoveries that used up their attempts *)

Definition exhausted (pd : pending_discovery_t) : Prop := Z.of_nat MAX_RREQ_ATTEMPTS ≤ pd_attempts pd.
Definition pending (s : mt) (dest : Z) : option pending_discovery_t :=
  discovery_lookup (s_pending_disc (rx_mesh (mt_rx s))) dest.
(** An exhausted discovery for [dest] stays as it is. *)
Definition stuck (dest : Z) (s s' : mt) : Prop :=
  ∀ pd, exhausted pd → pending s dest = Some pd → pending s' dest = Some pd.
#[global] Instance stuck_po dest : PreOrder (stuck dest).
Proof. split; unfold stuck; [by intros s pd|]. intros a b c H1 H2 pd He Hp. auto. Qed.

Lemma exhausted_no_retry pd t : exhausted pd → discovery_should_retry pd t = false.
Proof. unfold exhausted, discovery_should_retry. intros H. by destruct (pd_attempts pd >=? _) eqn:E; [|conds; lia]. Qed.

Lemma live_grow {A} (t : ctable A) x : ∃ k, live (tpush t x) = live t ++ k.
Proof.
  exists (take 1 (drop (count t) (<[count t := x]> (entries t)))). unfold live. cbn [tpush entries count].
  rewrite <- (take_insert_ge (entries t) (count t) (count t) x) by lia.
  rewrite take_take_drop. f_equal. lia.
Qed.
Lemma lookup_Some t dest pd :
  discovery_lookup t dest = Some pd →
  ∃ i, find_index (λ e, pd_dest_addr e =? dest) (live t) = Some i ∧ (i < count t)%nat ∧ entries t !! i = Some pd.
Proof.
  unfold discovery_lookup. intros (i & Hi & ->)%fmap_Some. exists i. split; [done|].
  destruct (find_index_Some _ _ _ Hi) as (x & Hx & _). unfold live in Hx.
  apply lookup_take_Some in Hx as [Hx Hlt]. by rewrite (list_lookup_total_correct _ _ _ Hx).
Qed.
Lemma lookup_start t dest d q now pd :
  discovery_lookup t dest = Some pd → discovery_lookup (discovery_start t d q now).2 dest = Some pd.
Proof.
  intros H. destruct (lookup_Some _ _ _ H) as (i & Hi & Hc & He). unfold discovery_start.
  case_decide; [done|]. cbn [snd]. set (e := mk_disc _ _ _ _). destruct (live_grow t e) as [k Hk].
  unfold discovery_lookup. rewrite Hk, (find_index_app _ _ _ _ Hi). cbn [fmap option_fmap option_map].
  cbn [tpush entries]. f_equal. apply list_lookup_total_correct. by rewrite list_lookup_insert_ne by lia.
Qed.
(** Another attempt is recorded only on an entry that has some left. *)
Lemma lookup_attempt t dest i q now pd :
  (i < count t)%nat → ¬ exhausted (entries t !!! i) → exhausted pd →
  discovery_lookup t dest = Some pd →
  discovery_lookup (tset t i (discovery_record_attempt (entries t !!! i) q now)) dest = Some pd.
Proof.
  intros Hc Hne Hex H. destruct (entries t !! i) as [e|] eqn:He.
  - rewrite (list_lookup_total_correct _ _ _ He) in *. destruct (lookup_Some _ _ _ H) as (j & Hj & _ & Hp).
    assert (i ≠ j) by (intros ->; rewrite He in Hp; by injection Hp as ->).
    unfold discovery_lookup.
    rewrite live_tset, (find_index_insert _ _ _ _ e), Hj; [|by unfold live; rewrite lookup_take_lt|done].
    cbn [fmap option_fmap option_map tset entries]. f_equal. apply list_lookup_total_correct.
    by rewrite list_lookup_insert_ne.
  - unfold tset. rewrite list_insert_ge; [by destruct t|]. by apply lookup_ge_None_1.
Qed.

Section Tick.
Context `{DC : DmCrypto} `{DL : !DmCryptoLaws} `{IC : IdCrypto} (hmac : list Z → list Z → list Z)
  `{HL : !HmacLaws hmac}.

(** What leaves the routing state alone leaves discoveries alone. *)
Definition same_disc (s s' : mt) : Prop := s_pending_disc (rx_mesh (mt_rx s')) = s_pending_disc (rx_mesh (mt_rx s)).
#[local] Instance same_disc_po : PreOrder same_disc.
Proof. split; unfold same_disc; [done|]. intros a b c. congruence. Qed.
Lemma stuck_same dest {A} (m : T A) : moves same_disc m → moves (stuck dest) m.
Proof. apply moves_mono. unfold same_disc, stuck, pending. by intros s s' ->. Qed.
Lemma sd_nd {A} (m : M A) : moves same_disc (on_nd m).
Proof.
  apply (moves_zoom _ (λ _ _, True)); [by intros s n|]. by intros n x n' _.
Qed.
Lemma sd_rx {A} (m : Rx A) : (∀ r x r', m r = Some (x, r') → rx_mesh r' = rx_mesh r) → moves same_disc (on_rx m).
Proof.
  intros Hm. apply (moves_zoom _ (λ r r', rx_mesh r' = rx_mesh r)); [|intros r x r'; apply Hm].
  intros s r E. unfold same_disc. cbn [mset_rx mt_rx]. by rewrite E.
Qed.
Lemma sd_draw_check : moves same_disc (on_rx draw_check).
Proof. apply sd_rx. by intros r x r' [= <- <-]. Qed.
Lemma sd_malloc : moves same_disc (on_rx malloc_ok).
Proof. apply sd_rx. by intros r x r' [= <- <-]. Qed.
Lemma sd_record p : moves same_disc (on_rx (recent_broadcast_record p)).
Proof. apply sd_rx. intros r x r'. unfold recent_broadcast_record. destruct (p =? 0); by intros [= <- <-]. Qed.
#[local] Hint Resolve sd_nd sd_draw_check sd_malloc sd_record : tick.
#[local] Hint Extern 5 (moves (stuck _) _) => apply stuck_same : tick.
Ltac tmoves :=
  repeat first
    [ progress auto with tick
    | apply moves_ret; typeclasses eauto | apply moves_get; typeclasses eauto
    | apply moves_gets; typeclasses eauto | apply moves_lift; typeclasses eauto
    | apply moves_bind; [typeclasses eauto| |intros]
    | apply moves_when; [typeclasses eauto|]
    | apply moves_for; [typeclasses eauto|intros]
    | apply moves_modify; intros; reflexivity | apply stuck_same, moves_modify; intros; reflexivity
    | match goal with |- moves _ (if ?b then _ else _) => destruct b end
    | match goal with |- moves _ (match ?x with _ => _ end) => destruct x end
    | progress cbn zeta ].
Lemma sd_fragments idx dest frags : ∀ i first, moves same_disc (send_fragments hmac idx dest frags i first).
Proof.
  induction frags as [|f frags IH]; intros i first; cbn [send_fragments]; unfold note_broadcast, send_on_channel; tmoves.
Qed.
#[local] Hint Resolve sd_fragments : tick.
Lemma sd_channel idx dest data uid : moves same_disc (mesh_send_channel_uid hmac idx dest data uid).
Proof. unfold mesh_send_channel_uid, send_fragmented, note_broadcast, send_on_channel. tmoves. Qed.
Lemma sd_originate dest q h : moves same_disc (originate_rreq hmac dest q h).
Proof. unfold originate_rreq. tmoves. Qed.
#[local] Hint Resolve sd_channel sd_originate : tick.
Lemma stuck_initiate dest d : moves (stuck dest) (initiate_discovery hmac d).
Proof.
  unfold initiate_discovery, tnow. tmoves. apply moves_modify. intros s pd _. unfold pending, set_routing.
  cbn [mset_rx mt_rx rset_mesh rx_mesh set_pending_disc s_pending_disc]. apply lookup_start.
Qed.
#[local] Hint Resolve stuck_initiate : tick.
Lemma stuck_message dest d data uid : moves (stuck dest) (mesh_send_message_uid hmac d data uid).
Proof. unfold mesh_send_message_uid. tmoves. Qed.

Lemma safe_retry i pd t : safe (retry_discovery hmac i pd t).
Proof.
  unfold retry_discovery. apply safe_bind; [apply safe_nd; [apply nsafe_packet_id|apply moves_qm, qm_packet_id]|].
  intros q. cbn zeta. apply safe_bind; [apply safe_routing|]. intros _. by apply safe_originate.
Qed.
Lemma retry_stuck dest i t s :
  (i < count (s_pending_disc (rx_mesh (mt_rx s))))%nat →
  ¬ exhausted (entries (s_pending_disc (rx_mesh (mt_rx s))) !!! i) →
  ∀ x s', retry_discovery hmac i (entries (s_pending_disc (rx_mesh (mt_rx s))) !!! i) t s = Some (x, s') →
  stuck dest s s'.
Proof.
  intros Hi Hne x s' H. unfold retry_discovery, mbind, St_bind in H.
  destruct (on_nd next_packet_id s) as [[q s1]|] eqn:E; [|done]. apply sd_nd in E.
  cbn zeta in H. unfold set_routing, smodify in H. set (s2 := mset_rx s1 _) in H.
  apply sd_originate in H. transitivity s2.
  - intros pd Hex Hp. unfold pending, s2. cbn [mset_rx mt_rx rset_mesh rx_mesh set_pending_disc s_pending_disc].
    rewrite E. by apply lookup_attempt.
  - intros pd Hex Hp. unfold pending in *. by rewrite H.
Qed.
Lemma loop_stuck dest fuel : ∀ i t s, mt_inv s →
  swp (discovery_loop hmac fuel i t) s (λ _ s', mt_inv s' ∧ stuck dest s s').
Proof.
  induction fuel as [|fuel IH]; intros i t s Hs; cbn [discovery_loop]; [by apply swp_ret|].
  apply swp_bind, swp_get. cbn zeta. set (tb := s_pending_disc (rx_mesh (mt_rx s))).
  destruct (i <? count tb)%nat eqn:Ei; [|by apply swp_ret]. apply Nat.ltb_lt in Ei.
  destruct (discovery_should_retry (entries tb !!! i) t) eqn:Er; [|by apply IH].
  assert (Hne : ¬ exhausted (entries tb !!! i)) by (intros He; by rewrite exhausted_no_retry in Er).
  split_if; [unfold exhausted in Hne; conds; lia|].
  apply swp_bind. pose proof (safe_retry i (entries tb !!! i) t s Hs) as Hr. unfold swp in Hr |- *.
  destruct (retry_discovery _ _ _ _ s) as [[x s1]|] eqn:E; [|done].
  apply retry_stuck with (dest := dest) in E; [|done..].
  change (swp (discovery_loop hmac fuel (S i) t) s1 (λ _ s', mt_inv s' ∧ stuck dest s s')). eapply swp_mono; [by apply IH, Hr|]. intros y s2 [H2 S2]. split; [done|by transitivity s1].
Qed.
Lemma retries_stuck dest t s : mt_inv s →
  swp (discovery_retries hmac t) s (λ _ s', mt_inv s' ∧ stuck dest s s').
Proof.
  intros Hs. unfold discovery_retries. apply swp_bind, swp_get. apply swp_when; [|by intros].
  intros _. apply swp_bind, swp_modify. eapply swp_mono; [by apply (loop_stuck dest)|].
  intros x s' [H1 H2]. by split.
Qed.

(** ** What a node does meanwhile *)

Inductive wait_op :=
  | OpRetries (t : Z)
  | OpWrite (dest : Z) (data : list Z) (uid : Z)
  | OpClock (now uptime_s : Z).
Definition set_clock (n : node) (now uptime_s : Z) : node :=
  let v := nd_env n in
  set_env n (mk_dm_env now (v_tx v) (v_gen v) (v_nonce v) (v_rand v) (v_net_s v) uptime_s).
Definition run_wait (op : wait_op) : T unit :=
  match op with
  | OpRetries t => discovery_retries hmac t
  | OpWrite dest data uid => mesh_send_message_uid hmac dest data uid ;; mret tt
  | OpClock now uptime_s => on_nd (modify (λ n, set_clock n now uptime_s))
  end.
Definition wait_op_ok (op : wait_op) : Prop :=
  match op with OpWrite _ data _ => (length data ≤ BRAMBLE_MAX_PACKET_SIZE)%nat | _ => True end.
Lemma wait_stuck dest op s : mt_inv s → wait_op_ok op →
  swp (run_wait op) s (λ _ s', mt_inv s' ∧ stuck dest s s').
Proof.
  intros Hs Hop. destruct op as [t|d data uid|now up]; cbn [run_wait wait_op_ok] in *.
  - by apply retries_stuck.
  - apply swp_bind. eapply swp_mono.
    { apply (swp_moves (stuck dest)); [apply stuck_message|exact (safe_message hmac d data uid Hop s Hs)]. }
    cbv beta. intros x s' [[K _] S]. by apply swp_ret.
  - apply swp_nd, wp_modify. split; [|by intros pd]. destruct Hs as [Hn Hq]. split; [|done].
    destruct Hn as (? & ? & ? & ? & ? & ? & ? & ? & ?). unfold node_ok. fields.
Qed.

(** The frames handed to the radio. *)
Definition is_tx (e : dm_event) : bool := match e with DTx _ _ _ => true | _ => false end.
Definition txs (n : node) : list dm_event := filter (λ e, is_tx e = true) (nd_out n).
Definition silent (n n' : node) : Prop := txs n' = txs n.
#[local] Instance silent_po : PreOrder silent.
Proof. split; unfold silent; [done|]. intros a b c. congruence. Qed.
Lemma silent_out n e : is_tx e = false → filter (λ e, is_tx e = true) (nd_out n ++ [e]) = txs n.
Proof. intros He. rewrite filter_app, filter_singleton_False; [by rewrite app_nil_r|exact []|]. by rewrite He. Qed.
Lemma silent_update u p st : moves silent (msgs_update_by_uid u p st : St node _).
Proof.
  intros n x n'. unfold msgs_update_by_uid. destruct (msg_store_update_by_uid _ _ _ _) as [[? ?] ?].
  intros [= <- <-]. by apply silent_out.
Qed.
Lemma silent_add_dm p t i st u : moves silent (msgs_add_dm_uid p t i st u : St node _).
Proof.
  intros n x n'. unfold msgs_add_dm_uid. destruct (msg_store_add_dm_uid _ _ _ _ _ _ _ _ _) as [[? ?] ?].
  intros [= <- <-]. by apply silent_out.
Qed.
Lemma silent_next_uid : moves silent (msgs_next_uid : St node _).
Proof. by intros n x n' [= <- <-]. Qed.
Lemma silent_queue d data u : moves silent (queue_message d data u).
Proof.
  unfold queue_message, set_queued. nmoves. intros n' y n'' [= <- <-]. done.
Qed.
#[local] Hint Resolve silent_update silent_add_dm silent_next_uid silent_queue : tick.
Ltac pmoves :=
  repeat first
    [ progress auto with tick
    | apply moves_ret; typeclasses eauto | apply moves_bind; [typeclasses eauto| |intros]
    | apply moves_when; [typeclasses eauto|] | apply part_nd
    | match goal with |- moves _ (if ?b then _ else _) => destruct b end ].
Lemma message_silent dest data uid s pd :
  must_discover s dest = true → pending s dest = Some pd →
  ∀ x s', mesh_send_message_uid hmac dest data uid s = Some (x, s') → silent (mt_node s) (mt_node s').
Proof.
  intros Hd Hp x s' H. unfold mesh_send_message_uid in H. unfold mbind at 1, St_bind at 1, sget in H.
  rewrite Hd in H. unfold pending in Hp. rewrite Hp in H. revert H.
  match goal with |- ?m s = _ → _ => assert (Hm : moves (on_part silent) m) by pmoves end. apply Hm.
Qed.

(** A discovery that used up its three attempts never ends.  Whatever passes of
    the retry check, messages written to any destination and time follow, its entry
    stays exactly as it is: no further attempt is recorded for it, it is not removed,
    and the messages waiting for it are not failed by it.  And as long as it stays,
    a message written to that destination, with no route, transmits nothing: no
    discovery is ever started again. *)
Theorem exhausted_discovery_stuck (s : mt) (dest : Z) (pd : pending_discovery_t) (ops : list wait_op) :
  mt_inv s → pending s dest = Some pd → exhausted pd → Forall wait_op_ok ops →
  swp (sfor ops run_wait) s (λ _ s', pending s' dest = Some pd ∧
    ∀ data uid, must_discover s' dest = true → (length data ≤ BRAMBLE_MAX_PACKET_SIZE)%nat →
      swp (mesh_send_message_uid hmac dest data uid) s' (λ _ s'', txs (mt_node s'') = txs (mt_node s'))).
Proof.
  intros Hs Hp He Hops. rewrite list.Forall_forall in Hops.
  eapply swp_mono; [apply (swp_for ops run_wait (λ s', mt_inv s' ∧ pending s' dest = Some pd)); [done|]|].
  - intros op s1 Hop [H1 P1]. eapply swp_mono; [apply (wait_stuck dest); auto|]. cbv beta.
    intros x s2 [H2 S2]. auto.
  - cbv beta. intros [] s' [H' P']. split; [done|]. intros data uid Hd Hl.
    pose proof (safe_message hmac dest data uid Hl s' H') as Hm. unfold swp in Hm |- *.
    destruct (mesh_send_message_uid _ _ _ _ s') as [[x s2]|] eqn:E; [|done].
    exact (message_silent dest data uid s' pd Hd P' x s2 E).
Qed.
End Tick.

(** ** Messages that waited too long *)

Definition released (q : queued_msg_t) : queued_msg_t :=
  mk_queued (qm_dest_addr q) (qm_data q) (qm_timestamp q) false (qm_reason q) (qm_pkt_id q) (qm_uid q)
    (qm_channel_idx q).
Definition expire_entry (t : Z) (q : queued_msg_t) : queued_msg_t := if queue_expired t q then released q else q.
Definition overdue_of (t : Z) (l : list queued_msg_t) : list queued_msg_t := filter (λ q, queue_expired t q = true) l.
(** A row of one of the messages fails, unless it is parked. *)
Definition fail_row (uids : list Z) (m : stored_msg_t) : stored_msg_t :=
  if bool_decide (m_uid m ≠ 0 ∧ m_uid m ∈ uids) then (apply_status m MSG_STATUS_FAILED).2 else m.
Definition lapse (q : queued_msg_t) : list dm_event :=
  if bool_decide (qm_reason q = QUEUE_REASON_SESSION) then [DAckFailed (qm_pkt_id q) "no_secure_session"] else [].
Definition is_failure (e : dm_event) : bool := match e with DAckFailed _ _ => true | _ => false end.
Definition failures (n : node) : list dm_event := filter (λ e, is_failure e = true) (nd_out n).

Lemma status_uid m s : m_uid (apply_status m s).2 = m_uid m.
Proof. unfold apply_status. by destruct (sticky m s). Qed.
Lemma fail_idem m : (apply_status (apply_status m MSG_STATUS_FAILED).2 MSG_STATUS_FAILED).2 = (apply_status m MSG_STATUS_FAILED).2.
Proof.
  assert (Hs : ∀ m, sticky m MSG_STATUS_FAILED = bool_decide (m_status m = MSG_STATUS_QUEUED)).
  { intros m'. unfold sticky. by rewrite andb_comm. }
  unfold apply_status. cbn [snd]. rewrite !Hs. by destruct (bool_decide (m_status m = _)) eqn:E; [rewrite E|].
Qed.
Lemma fail_row_app us vs m : fail_row (us ++ vs) m = fail_row vs (fail_row us m).
Proof.
  assert (Hu : m_uid (fail_row us m) = m_uid m).
  { unfold fail_row. case_bool_decide; [apply status_uid|done]. }
  unfold fail_row at 1 2. rewrite Hu. unfold fail_row.
  repeat case_bool_decide; rewrite ?fail_idem; try done;
  set_solver.
Qed.
Lemma update_failed_log st uid :
  store_wf st → NoDup (m_uid <$> log st) →
  log (msg_store_update_by_uid st uid 0 MSG_STATUS_FAILED).1.2 = fail_row [uid] <$> log st.
Proof.
  intros Hwf Hnd. assert (Hid : ∀ l, Forall (λ m, (m_uid m =? uid) = false ∨ uid = 0) l → fail_row [uid] <$> l = l).
  { induction 1 as [|m l Hm _ IH]; [done|]. rewrite fmap_cons, IH. f_equal. unfold fail_row.
    case_bool_decide as E; [|done]. destruct E as [E0 E%list_elem_of_singleton]. destruct Hm; conds; lia. }
  unfold msg_store_update_by_uid. destruct (uid =? 0) eqn:E0; conds.
  { cbn [fst snd]. rewrite Hid; [done|]. apply list.Forall_forall. intros m _. right. lia. }
  pose proof (find_row (λ m, m_uid m =? uid) st) as Hf. cbv beta in Hf.
  destruct (find_down _ _) as [i|].
  - destruct Hf as (pre & m & post & Hlog & Hlen & Hi & Hrow & Hm & Hpost). rewrite Hrow.
    cbn [negb Z.eqb]. destruct (apply_status m MSG_STATUS_FAILED) as [ch m'] eqn:Es. cbn [fst snd].
    rewrite log_set_row by done. rewrite Hlog, fmap_app, fmap_cons.
    rewrite (Hid pre), (Hid post).
    + replace i with (length pre + 0)%nat by lia. rewrite insert_app_r. f_equal. cbn. f_equal.
      unfold fail_row. rewrite bool_decide_true; [by rewrite Es|]. conds. split; [lia|set_solver].
    + eapply Forall_impl; [exact Hpost|]. intros x Hx. by left.
    + apply list.Forall_forall. intros x Hx. left. destruct (m_uid x =? uid) eqn:Ex; [|done]. exfalso.
      rewrite Hlog, fmap_app, fmap_cons in Hnd. apply NoDup_app in Hnd as (_ & Hnd & _).
      apply (Hnd (m_uid x)); [by apply list_elem_of_fmap_2|]. conds. rewrite Ex, <- Hm. left.
  - cbn [fst snd]. rewrite Hid; [done|]. eapply Forall_impl; [exact Hf|]. intros m Hm. by left.
Qed.

(** The entry at [i], as a function. *)
Definition expire_at (t : Z) (n : node) (i : nat) : node :=
  let q := nd_queue n !!! i in
  if queue_expired t q then
    let n := set_out n (nd_out n ++ lapse q) in
    let '(_, st, ps) := msg_store_update_by_uid (nd_msgs n) (qm_uid q) 0 MSG_STATUS_FAILED in
    let n := set_out (set_msgs n st) (nd_out n ++ [DPersist ps]) in
    set_queue n (<[i := released q]> (nd_queue n))
  else n.
Lemma expire_runs t n : expire_queued t n = Some (tt, foldl (expire_at t) n (seq 0 MAX_QUEUED_MSGS)).
Proof.
  unfold expire_queued. generalize (seq 0 MAX_QUEUED_MSGS) as l. intros l. revert n.
  induction l as [|i l IH]; intros n; cbn [for_each foldl]; [done|].
  rewrite <- IH. set (loop := for_each l _). unfold mbind, M_bind, St_bind, get, expire_at.
  destruct (queue_expired t (nd_queue n !!! i)); [|done]. unfold lapse.
  destruct (bool_decide _); unfold emit, modify, msgs_update_by_uid; cbn [set_out nd_msgs nd_out mret M_ret St_ret].
  - destruct (msg_store_update_by_uid _ _ _ _) as [[ok st] ps]. done.
  - rewrite app_nil_r. destruct (msg_store_update_by_uid _ _ _ _) as [[ok st] ps]. by destruct n.
Qed.
Record expired_to (t : Z) (n : node) (k : nat) (n' : node) : Prop := {
  et_queue : nd_queue n' = (expire_entry t <$> take k (nd_queue n)) ++ drop k (nd_queue n);
  et_wf : store_wf (nd_msgs n');
  et_log : log (nd_msgs n') = fail_row (qm_uid <$> overdue_of t (take k (nd_queue n))) <$> log (nd_msgs n);
  et_failures : failures n' = failures n ++ (overdue_of t (take k (nd_queue n)) ≫= lapse);
  et_rest : n' = set_out (set_msgs (set_queue n (nd_queue n')) (nd_msgs n')) (nd_out n') }.
Lemma row_uids_fail us (l : list stored_msg_t) : m_uid <$> (fail_row us <$> l) = m_uid <$> l.
Proof.
  rewrite <- list_fmap_compose. apply list_fmap_ext. intros _ m _. cbn. unfold fail_row.
  case_bool_decide; [apply status_uid|done].
Qed.
Lemma fail_row_nil (l : list stored_msg_t) : fail_row [] <$> l = l.
Proof. rewrite <- (list_fmap_id l) at 2. apply list_fmap_ext. intros _ m _. unfold fail_row. case_bool_decide; [set_solver|done]. Qed.
Lemma store_wf_uid st u : store_wf st → store_wf (msg_store_update_by_uid st u 0 MSG_STATUS_FAILED).1.2.
Proof. intros H. pose proof (update_by_uid_step st u 0 MSG_STATUS_FAILED H) as Hs. destruct (msg_store_update_by_uid _ _ _ _) as [[? ?] ?]. apply Hs. Qed.
Lemma lapse_failures q : filter (λ e, is_failure e = true) (lapse q) = lapse q.
Proof. unfold lapse. by destruct (bool_decide _). Qed.
Lemma expire_fold t n k :
  (k ≤ length (nd_queue n))%nat → store_wf (nd_msgs n) → NoDup (row_uids n) →
  expired_to t n k (foldl (expire_at t) n (seq 0 k)).
Proof.
  intros Hk Hwf Hnd. induction k as [|k IH].
  { split; cbn [seq foldl take]; rewrite ?drop_0; [done..| | |by destruct n].
    - by rewrite fail_row_nil.
    - by rewrite app_nil_r. }
  destruct (IH ltac:(lia)) as [Hq Hw Hl Hf Hr]. rewrite seq_S, foldl_app. cbn [foldl Nat.add].
  set (n1 := foldl _ n (seq 0 k)) in *. clearbody n1.
  destruct (lookup_lt_is_Some_2 (nd_queue n) k ltac:(lia)) as [q Hqk].
  pose proof (take_S_r _ _ _ Hqk) as Ht. rewrite (drop_S _ _ _ Hqk) in Hq.
  assert (Hlk : length (expire_entry t <$> take k (nd_queue n)) = k) by (rewrite length_fmap, length_take; lia).
  assert (Hq1 : nd_queue n1 !!! k = q).
  { apply list_lookup_total_correct. rewrite Hq, lookup_app_r by lia. by rewrite Hlk, Nat.sub_diag. }
  unfold expire_at. rewrite Hq1. cbn zeta.
  destruct (queue_expired t q) eqn:Ex.
  - pose proof (store_wf_uid (nd_msgs n1) (qm_uid q) Hw) as Hw'.
    pose proof (update_failed_log (nd_msgs n1) (qm_uid q) Hw) as Hl'.
    cbn [set_out nd_msgs]. destruct (msg_store_update_by_uid _ _ _ _) as [[ok st] ps]. cbn [fst snd] in *.
    assert (Eo : overdue_of t (take k (nd_queue n) ++ [q]) = overdue_of t (take k (nd_queue n)) ++ [q]).
    { unfold overdue_of. rewrite filter_app, filter_singleton_True; [done|exact []|done]. }
    split; cbn [set_queue set_out set_msgs nd_queue nd_msgs nd_out]; rewrite ?Ht, ?Eo.
    + rewrite Hq, insert_app_r_alt, Hlk, Nat.sub_diag by lia. cbn [insert list_insert].
      rewrite fmap_app, <- (assoc_L (++)). f_equal. cbn. unfold expire_entry. by rewrite Ex.
    + done.
    + rewrite Hl', Hl; [|by rewrite Hl, row_uids_fail]. rewrite fmap_app, <- list_fmap_compose.
      apply list_fmap_ext. intros _ m _. by rewrite fail_row_app.
    + unfold failures in *. cbn [nd_out set_queue set_out set_msgs].
      rewrite !filter_app, Hf, bind_app, lapse_failures. cbn. by rewrite !app_nil_r, (assoc_L (++)).
    + rewrite Hr. done.
  - assert (Eo : overdue_of t (take k (nd_queue n) ++ [q]) = overdue_of t (take k (nd_queue n))).
    { unfold overdue_of. rewrite filter_app, filter_singleton_False; [by rewrite app_nil_r|exact []|]. by rewrite Ex. }
    split; rewrite ?Ht, ?Eo; [|done..]. rewrite Hq, fmap_app, <- (assoc_L (++)). f_equal. cbn. unfold expire_entry. by rewrite Ex.
Qed.

Definition same_qmo (n n' : node) : Prop := same_qm n n' ∧ nd_out n' = nd_out n.
#[global] Instance same_qmo_po : PreOrder same_qmo.
Proof.
  split; unfold same_qmo; [by intros n; split|]. intros a b c [H1 ?] [H2 ?].
  split; [by transitivity b|congruence].
Qed.
Lemma rekey_quiet t : moves same_qmo (maybe_schedule_dm_epoch_rekey t).
Proof.
  assert (Hr : ∀ p t, moves same_qmo (dm_rehandshake_rate_ok p t : St node _)).
  { intros p t' n x n'. unfold dm_rehandshake_rate_ok. destruct (dm_rehandshake_rate_ok_at _ _ _). by intros [= <- <-]. }
  assert (Hw : ∀ w, moves same_qmo (work_send w : St node _)).
  { intros w n x n'. unfold work_send. destruct (_ <? _)%nat; by intros [= <- <-]. }
  unfold maybe_schedule_dm_epoch_rekey. apply nm_for; [typeclasses eauto|]. intros i. nmoves.
Qed.

(** The expiry and the renewal of sessions, on the node. *)
Definition purged (t : Z) (n n' : node) : Prop :=
  nd_queue n' = expire_entry t <$> nd_queue n ∧
  log (nd_msgs n') = fail_row (qm_uid <$> overdue_of t (nd_queue n)) <$> log (nd_msgs n) ∧
  failures n' = failures n ++ (overdue_of t (nd_queue n) ≫= lapse).
Lemma expire_ok t n :
  node_ok n → store_wf (nd_msgs n) → NoDup (row_uids n) →
  wp (expire_queued t) n (λ _ n', node_ok n' ∧ purged t n n').
Proof.
  intros Hn Hwf Hnd. assert (Hlen : length (nd_queue n) = MAX_QUEUED_MSGS) by apply Hn.
  unfold wp. rewrite expire_runs. destruct (expire_fold t n MAX_QUEUED_MSGS) as [Hq Hw Hl Hf Hr]; [lia|done..|].
  revert Hq Hw Hl Hf Hr. generalize (foldl (expire_at t) n (seq 0 MAX_QUEUED_MSGS)) as n'. intros n' Hq Hw Hl Hf Hr.
  rewrite take_ge in Hq, Hl, Hf by lia. rewrite drop_ge, app_nil_r in Hq by lia. split; [|done].
  rewrite Hr. destruct Hn as (? & ? & ? & ? & ? & ? & ? & ? & ?). unfold node_ok. fields.
  cbn [set_out set_msgs set_queue nd_queue]. by rewrite Hq, length_fmap.
Qed.
Lemma expire_rekey_ok t n :
  node_ok n → store_wf (nd_msgs n) → NoDup (row_uids n) →
  wp (@mbind M M_bind _ _ (λ _, maybe_schedule_dm_epoch_rekey t) (expire_queued t)) n (λ _ n', purged t n n').
Proof.
  intros Hn Hwf Hnd. apply wp_bind. eapply wp_mono; [by apply expire_ok|]. intros [] n1 [Hn1 (Hq & Hl & Hf)].
  pose proof (rekey_schedule_ok t n1 Hn1) as Hk. unfold wp in Hk |- *.
  destruct (maybe_schedule_dm_epoch_rekey t n1) as [[[] n2]|] eqn:E; [|done].
  apply rekey_quiet in E as [[Eq Em] Eo]. unfold purged, failures in *. rewrite Eq, Em, Eo. done.
Qed.
Lemma swp_nd_seq {A B} (m : M A) (k : A → M B) s (Q : B → mt → Prop) :
  wp (@mbind M M_bind _ _ k m) (mt_node s) (λ x n, Q x (mset_node s n)) →
  swp (x ← on_nd m; on_nd (k x)) s Q.
Proof.
  unfold swp, wp, on_nd, zoom, mbind, M_bind, St_bind. destruct (m (mt_node s)) as [[x n]|]; [|done].
  change (mt_node (mset_node s n)) with n. by destruct (k x n) as [[y n']|].
Qed.

(** C27. Waiting messages do not wait forever.  With the uids of the log's rows distinct,
    a due purge returns and leaves in the
    queue exactly the messages whose time to live (150 s for a session, 60 s for a
    route) has not run out; of the log it changes exactly the rows of the messages it
    dropped, which fail unless they are parked for a retry (those stay as they are),
    and nothing else; and the
    user is told, in order and once each, of the ones that waited for a session. *)
Theorem queued_messages_expire (s : mt) (t : Z) :
  mt_inv s → NoDup (row_uids (mt_node s)) →
  NEIGHBOR_PURGE_INTERVAL ≤ (t ⊖ sc_last_purge_ms (mt_sched s)) →
  swp (purge_pass t) s (λ _ s',
    let overdue := overdue_of t (nd_queue (mt_node s)) in
    nd_queue (mt_node s') = expire_entry t <$> nd_queue (mt_node s) ∧
    Forall (λ q, queue_expired t q = false) (nd_queue (mt_node s')) ∧
    log (nd_msgs (mt_node s')) = fail_row (qm_uid <$> overdue) <$> log (nd_msgs (mt_node s)) ∧
    failures (mt_node s') = failures (mt_node s) ++ (overdue ≫= lapse)).
Proof.
  intros [Hn [_ [Hwf _]]] Hnd Hdue. unfold purge_pass. apply swp_bind, swp_get. apply swp_when; [|intros E; conds; lia].
  intros _. apply swp_bind, swp_zoom. cbv [rmodify swp]. apply swp_bind, swp_modify.
  set (s1 := mset_sched _ _). apply swp_bind.
  eapply (swp_mono _ _ (λ _ s2, mt_node s2 = mt_node s1)).
  { apply swp_when; [|done]. intros _. apply swp_bind, swp_get. apply swp_bind. by eapply swp_lift. }
  cbv beta. intros [] s2 E2.
  assert (Hn1 : node_ok (mt_node s1)).
  { destruct Hn as (? & ? & ? & ? & ? & ? & ? & ? & ?). unfold node_ok. fields. }
  pose proof (expire_rekey_ok t (mt_node s1) Hn1 Hwf Hnd) as H. rewrite <- E2 in H.
  apply (swp_nd_seq (expire_queued t) (λ _, maybe_schedule_dm_epoch_rekey t)). eapply wp_mono; [exact H|].
  rewrite E2. intros [] n' (Hq & Hl & Hf). cbn zeta. change (mt_node (mset_node s2 n')) with n'.
  change (nd_queue (mt_node s1)) with (nd_queue (mt_node s)) in *.
  split_and!; [exact Hq| |exact Hl|exact Hf].
  rewrite Hq. apply Forall_fmap, list.Forall_forall. intros q _. cbn. unfold expire_entry.
  by destruct (queue_expired t q) eqn:Ex.
Qed.

(** ** Examples *)

#[local] Existing Instance toy_crypto.
#[local] Existing Instance toy_id_crypto.

(** The discovery that [MeshSendSpec.waiting] started, after its two retries. *)
Definition given_up : mt := step (step waiting (discovery_retries toy_hmac 6000)) (discovery_retries toy_hmac 30000).
Definition given_up_disc : pending_discovery_t := mk_disc 60 [1000; 1001; 1002] 30000 3.
Lemma given_up_pending : pending given_up 60 = Some given_up_disc ∧ length (txs (mt_node given_up)) = 3%nat.
Proof. split; vm_compute; reflexivity. Qed.
Lemma step_retries s t : mt_inv s → mt_inv (step s (discovery_retries toy_hmac t)).
Proof.
  intros Hs. pose proof (retries_stuck toy_hmac 0 t s Hs) as H. unfold swp, step in *.
  destruct (discovery_retries toy_hmac t s) as [[x s']|]; [apply H|done].
Qed.
Lemma given_up_inv : mt_inv given_up.
Proof. apply step_retries, step_retries, waiting_inv. Qed.
(** An hour later the destination is written to again. *)
Lemma exhausted_discovery_stuck_witness :
  swp (sfor [OpRetries 100000; OpClock 3600000 3600; OpRetries 3600000; OpWrite 60 [104; 105] 0;
             OpRetries 3700000] (run_wait toy_hmac)) given_up
    (λ _ s', pending s' 60 = Some given_up_disc).
Proof.
  eapply swp_mono; [apply (exhausted_discovery_stuck toy_hmac given_up 60 given_up_disc)|].
  - exact given_up_inv.
  - exact (proj1 given_up_pending).
  - unfold exhausted, MAX_RREQ_ATTEMPTS. cbn. lia.
  - repeat apply List.Forall_cons; try exact I; [apply Nat.leb_le; reflexivity|apply List.Forall_nil].
  - intros [] s' [H _]. exact H.
Defined.

Lemma waiting_overdue : qm_uid <$> overdue_of 70000 (nd_queue (mt_node waiting)) = [1].
Proof. vm_compute. reflexivity. Qed.
Lemma queued_messages_expire_witness :
  swp (purge_pass 70000) waiting (λ _ s', Forall (λ q, queue_expired 70000 q = false) (nd_queue (mt_node s')) ∧
    log (nd_msgs (mt_node s')) = fail_row [1] <$> log (nd_msgs (mt_node waiting))).
Proof.
  eapply swp_mono; [apply (queued_messages_expire waiting 70000 waiting_inv)|].
  - rewrite (proj2 waiting_queue). repeat constructor. set_solver.
  - vm_compute. discriminate.
  - intros [] s' (_ & H1 & H2 & _). rewrite waiting_overdue in H2. exact (conj H1 H2).
Defined.
