(* ===== verification/CString.v ===== *)
(** * C strings

    The functions of [<ctype.h>] and [<string.h>] that the text-handling components
    use, on strings as the lists of their bytes without the terminator. *)

From stdpp Require Import base numbers option decidable list.
From S2P Require Import Prelude.

Definition isdigit (c : Z) : bool := (48 <=? c) && (c <=? 57).
Definition isalnum (c : Z) : bool :=
  isdigit c || ((65 <=? c) && (c <=? 90)) || ((97 <=? c) && (c <=? 122)).
Definition DOT : Z := 46.
Definition SLASH : Z := 47.
Definition DASH : Z := 45.
Definition PLUS : Z := 43.

(** The sign of [memcmp] over the bytes both have. *)
Fixpoint memcmp (a b : list Z) : Z :=
  match a, b with
  | x :: a', y :: b' => if x =? y then memcmp a' b' else if x <? y then -1 else 1
  | _, _ => 0
  end.
Definition cmp_len (a b : list Z) : Z :=
  if (length a =? length b)%nat then 0 else if (length a <? length b)%nat then -1 else 1.
(** [strchr(s, sep)]: what comes before the separator, and what after it if there is one. *)
Fixpoint field (sep : Z) (s : list Z) : list Z * option (list Z) :=
  match s with
  | [] => ([], None)
  | c :: s' => if c =? sep then ([], Some s') else let '(f, rest) := field sep s' in (c :: f, rest)
  end.
Definition tolower (c : Z) : Z := if (65 <=? c) && (c <=? 90) then c + 32 else c.
Fixpoint has_prefix_nocase (s prefix : list Z) {struct prefix} : bool :=
  match prefix with
  | [] => true
  | q :: prefix' =>
      match s with
      | [] => false
      | c :: s' => (tolower c =? tolower q) && has_prefix_nocase s' prefix'
      end
  end.
(** [strncmp(s, prefix, strlen(prefix)) == 0]. *)
Definition has_prefix (s prefix : list Z) : bool := bool_decide (take (length prefix) s = prefix).
(** [strstr(s, pat)]: the string from the first place where [pat] starts. *)
Fixpoint strstr (pat s : list Z) : option (list Z) :=
  if has_prefix s pat then Some s else match s with [] => None | _ :: s' => strstr pat s' end.
(** The characters up to the first one that satisfies [stop], and the rest. *)
Fixpoint span (stop : Z → bool) (s : list Z) : list Z * list Z :=
  match s with
  | [] => ([], [])
  | c :: s' => if stop c then ([], s) else let '(f, rest) := span stop s' in (c :: f, rest)
  end.
(** A loop that steps over leading characters, and one that drops trailing ones. *)
Fixpoint skip (over : Z → bool) (s : list Z) : list Z :=
  match s with c :: s' => if over c then skip over s' else s | [] => [] end.
Fixpoint trim (over : Z → bool) (s : list Z) : list Z :=
  match s with
  | [] => []
  | c :: s' => match trim over s' with [] => if over c then [] else [c] | t => c :: t end
  end.

(** ** Fields *)

(** The fields between separators. *)
Fixpoint split (sep : Z) (s : list Z) : list (list Z) :=
  match s with
  | [] => [[]]
  | c :: s' =>
      if c =? sep then [] :: split sep s'
      else match split sep s' with f :: fs => (c :: f) :: fs | [] => [[c]] end
  end.
Lemma split_field sep s :
  split sep s = match field sep s with (f, None) => [f] | (f, Some r) => f :: split sep r end.
Proof.
  induction s as [|c s IH]; [done|]. cbn. destruct (c =? sep); [done|]. rewrite IH.
  by destruct (field sep s) as [f [r|]].
Qed.
Lemma field_eq sep s f o : field sep s = (f, o) →
  s = f ++ match o with Some r => sep :: r | None => [] end ∧ Forall (λ c, c ≠ sep) f.
Proof.
  revert f o. induction s as [|c s IH]; intros f o; cbn.
  - by intros [= <- <-].
  - destruct (Z.eqb_spec c sep) as [->|Hc]; [by intros [= <- <-]|].
    destruct (field sep s) as [f' o'] eqn:E. intros [= <- <-]. destruct (IH _ _ eq_refl) as [-> Hf].
    split; [done|]. by constructor.
Qed.
Lemma split_snoc sep s : split sep (s ++ [sep]) = split sep s ++ [[]].
Proof.
  induction s as [|c s IH]; cbn; [by rewrite Z.eqb_refl|]. destruct (c =? sep); [by rewrite IH|].
  rewrite IH. destruct (split sep s) eqn:E; [|done]. exfalso. rewrite split_field in E.
  by destruct (field sep s) as [? [?|]].
Qed.
Lemma field_stop sep r t : (field sep (r ++ sep :: t)).1 = (field sep r).1.
Proof.
  induction r as [|c r IH]; cbn; [by rewrite Z.eqb_refl|]. destruct (c =? sep); [done|].
  destruct (field sep (r ++ sep :: t)), (field sep r). cbn in *. by rewrite IH.
Qed.

(** ** Prefixes *)

Lemma prefix_app s t p : (length p <= length s)%nat → has_prefix_nocase (s ++ t) p = has_prefix_nocase s p.
Proof.
  revert s. induction p as [|q p IH]; intros [|c s] Hl; try done; [cbn in Hl; lia|]. cbn in *. rewrite IH by lia. done.
Qed.
Lemma prefix_length s p : has_prefix_nocase s p = true → (length p <= length s)%nat.
Proof.
  revert s. induction p as [|q p IH]; intros [|c s]; cbn; try done; [lia|].
  intros [_ H]%andb_true_iff. apply IH in H. lia.
Qed.
Lemma plain_prefix_app s t p : (length p <= length s)%nat → has_prefix (s ++ t) p = has_prefix s p.
Proof. intros Hl. unfold has_prefix. by rewrite take_app_le. Qed.

Lemma span_eq stop s f r : span stop s = (f, r) →
  s = f ++ r ∧ Forall (λ c, stop c = false) f ∧ (∀ c, head r = Some c → stop c = true).
Proof.
  revert f r. induction s as [|c s IH]; intros f r; cbn [span].
  - by intros [= <- <-].
  - destruct (stop c) eqn:Ec; [intros [= <- <-]; split; [done|]; split; [done|]; by intros ? [= <-]|].
    destruct (span stop s) as [f' r']. intros [= <- <-]. destruct (IH _ _ eq_refl) as (-> & Hf & Hr).
    split; [done|]. split; [by constructor|done].
Qed.
Lemma skip_length over s : (length (skip over s) <= length s)%nat.
Proof. induction s as [|c s IH]; cbn; [lia|]. destruct (over c); cbn; lia. Qed.
