(* ===== verification/Ota.v ===== *)
(** * Firmware updates ([components/ota])

    Versions ([ota_version.c]), the anti-rollback floor ([ota_rollback_policy.c],
    [ota_rollback.c]), where an image may come from ([ota_url.c], [ota_origin.c]),
    progress ([ota_progress.c]) and the update itself ([ota.c]).

    C strings are the lists of their bytes.  The namespace of the component is an
    association list whose accesses succeed unless a fault is listed; what the
    platform's HTTP and image functions return during an update is a record. *)

From stdpp Require Import base strings numbers sets option decidable list.
From S2P Require Import Prelude NetworkKey CString ParkedRetry Location MeshState.

(** ** Versions *)

Definition OTA_VERSION_PRERELEASE_MAX : nat := 48.
Record ota_semver_t := mk_semver {
  sv_major : Z; sv_minor : Z; sv_patch : Z; sv_prerelease : list Z }.

Fixpoint uint_loop (v : Z) (s : list Z) : option (Z * list Z) :=
  match s with
  | [] => Some (v, [])
  | c :: s' =>
      if isdigit c
      then let v := v * 10 + (c - 48) in if v >? 1000000 then None else uint_loop v s'
      else Some (v, s)
  end.
Definition parse_uint (s : list Z) : option (Z * list Z) :=
  match s with
  | [] => None
  | c :: _ => if negb (isdigit c) then None else uint_loop 0 s
  end.
Definition prerelease_char_ok (c : Z) : bool := isalnum c || (c =? DOT) || (c =? DASH).
(** The prerelease text, up to the end or a plus sign, and what follows it. *)
Fixpoint prerelease_loop (s : list Z) : option (list Z * list Z) :=
  match s with
  | [] => Some ([], [])
  | c :: s' =>
      if c =? PLUS then Some ([], s)
      else if negb (prerelease_char_ok c) then None
      else '(p, rest) ← prerelease_loop s'; Some (c :: p, rest)
  end.
(** [strstr(s, "..") != NULL]. *)
Fixpoint has_dotdot (s : list Z) : bool :=
  match s with
  | c :: s' => match s' with d :: _ => (c =? DOT) && (d =? DOT) | [] => false end || has_dotdot s'
  | [] => false
  end.
Definition skip_dot (s : list Z) : option (list Z) :=
  match s with c :: s' => if c =? DOT then Some s' else None | [] => None end.
Definition parse_prerelease (s : list Z) : option (list Z * list Z) :=
  match s with
  | c :: start =>
      if negb (c =? DASH) then Some ([], s) else
      '(p, rest) ← prerelease_loop start;
      if (length p =? 0)%nat || (OTA_VERSION_PRERELEASE_MAX <=? length p)%nat then None
      else if (hd 0 start =? DOT) || (start !!! (length p - 1)%nat =? DOT) || has_dotdot start then None
      else Some (p, rest)
  | [] => Some ([], s)
  end.
Definition skip_v (s : list Z) : list Z :=
  match s with c :: s' => if (c =? 118) || (c =? 86) then s' else s | [] => s end.
(** [None]: malformed. *)
Definition ota_version_parse (s : list Z) : option ota_semver_t :=
  '(major, s) ← parse_uint (skip_v s);
  s ← skip_dot s;
  '(minor, s) ← parse_uint s;
  s ← skip_dot s;
  '(patch, s) ← parse_uint s;
  '(pre, s) ← parse_prerelease s;
  match s with
  | [] => Some (mk_semver major minor patch pre)
  | c :: _ => if c =? PLUS then Some (mk_semver major minor patch pre) else None
  end.

Definition cmp_identifier (a b : list Z) : Z :=
  let a_num := forallb isdigit a in
  let b_num := forallb isdigit b in
  if a_num && b_num then if cmp_len a b =? 0 then memcmp a b else cmp_len a b
  else if negb (eqb a_num b_num) then (if a_num then -1 else 1)
  else if negb (memcmp a b =? 0) then memcmp a b
  else cmp_len a b.
Fixpoint prerelease_cmp_loop (fuel : nat) (a b : list Z) : option Z :=
  match fuel with
  | O => None
  | S fuel =>
      match a, b with
      | [], [] => Some 0
      | [], _ => Some (-1)
      | _, [] => Some 1
      | _, _ =>
          let '(ia, a') := field DOT a in
          let '(ib, b') := field DOT b in
          let c := cmp_identifier ia ib in
          if negb (c =? 0) then Some c else prerelease_cmp_loop fuel (default [] a') (default [] b')
      end
  end.
(** Every turn uses up a byte of [a]. *)
Definition cmp_prerelease (a b : list Z) : option Z := prerelease_cmp_loop (S (length a)) a b.
Definition ota_version_cmp (a b : ota_semver_t) : option Z :=
  if negb (sv_major a =? sv_major b) then Some (if sv_major a <? sv_major b then -1 else 1)
  else if negb (sv_minor a =? sv_minor b) then Some (if sv_minor a <? sv_minor b then -1 else 1)
  else if negb (sv_patch a =? sv_patch b) then Some (if sv_patch a <? sv_patch b then -1 else 1)
  else match sv_prerelease a, sv_prerelease b with
       | [], [] => Some 0
       | _ :: _, [] => Some (-1)
       | [], _ :: _ => Some 1
       | p, q => cmp_prerelease p q
       end.
Definition ota_version_cmp_str (a b : list Z) : option Z :=
  va ← ota_version_parse a;
  vb ← ota_version_parse b;
  ota_version_cmp va vb.

(** ** The rollback policy *)

Inductive ota_rollback_decision_t :=
  | OTA_ROLLBACK_ACCEPT | OTA_ROLLBACK_ACCEPT_UNPARSEABLE | OTA_ROLLBACK_ACCEPT_LOWER_FLOOR
  | OTA_ROLLBACK_REJECT_UNPARSEABLE | OTA_ROLLBACK_REJECT_BELOW_FLOOR.
#[global] Instance decision_eq_dec : EqDecision ota_rollback_decision_t.
Proof. solve_decision. Defined.

Definition parsed (s : option (list Z)) : option ota_semver_t := s ≫= ota_version_parse.
(** A version that is [None] is a null pointer. *)
Definition ota_rollback_decide (new_version floor_version : option (list Z)) (allow_downgrade : bool)
    : option ota_rollback_decision_t :=
  match parsed new_version with
  | None => Some (if allow_downgrade then OTA_ROLLBACK_ACCEPT_UNPARSEABLE else OTA_ROLLBACK_REJECT_UNPARSEABLE)
  | Some candidate =>
      match parsed floor_version with
      | None => Some OTA_ROLLBACK_ACCEPT
      | Some floor =>
          c ← ota_version_cmp candidate floor;
          Some (if c >=? 0 then OTA_ROLLBACK_ACCEPT
                else if allow_downgrade then OTA_ROLLBACK_ACCEPT_LOWER_FLOOR
                else OTA_ROLLBACK_REJECT_BELOW_FLOOR)
      end
  end.
Definition ota_rollback_secure_floor_blocks (secure_enforced candidate_clears_secure_floor : bool) : bool :=
  secure_enforced && negb candidate_clears_secure_floor.
Definition ota_rollback_should_raise_floor (running_version floor_version : option (list Z)) : option bool :=
  match parsed running_version with
  | None => Some false
  | Some running =>
      match parsed floor_version with
      | None => Some true
      | Some floor => c ← ota_version_cmp running floor; Some (c >? 0)
      end
  end.

(** ** Where images come from *)

Definition OTA_URL_MAX : nat := 256.
Definition OTA_URL_OK : Z := 0.
Definition OTA_URL_ERR_ORIGIN : Z := -1.
Definition OTA_URL_ERR_PATH : Z := -2.
Definition OTA_URL_ERR_TOOLONG : Z := -3.
Definition OTA_DEFAULT_ORIGIN : list Z := str_bytes "https://bramblemesh.org/ota/".

Definition origin_char_ok (c : Z) : bool :=
  isalnum c || (c =? DOT) || (c =? DASH) || (c =? 95) || (c =? 126) || (c =? 58) || (c =? SLASH).
Definition origin_rest (origin : list Z) (allow_http : bool) : option (list Z) :=
  if has_prefix_nocase origin (str_bytes "https://") then Some (drop 8 origin)
  else if allow_http && has_prefix_nocase origin (str_bytes "http://") then Some (drop 7 origin)
  else None.
Definition ota_url_origin_valid (origin : list Z) (allow_http : bool) : bool :=
  if (length origin =? 0)%nat || (OTA_URL_MAX <=? length origin)%nat then false else
  match origin_rest origin allow_http with
  | None | Some [] => false
  | Some ((c :: _) as rest) => if (c =? SLASH) || (c =? 58) then false else forallb origin_char_ok rest
  end.
Definition path_char_ok (c : Z) : bool :=
  isalnum c || (c =? DOT) || (c =? 95) || (c =? PLUS) || (c =? DASH) || (c =? SLASH).
Definition segment_ok (seg : list Z) : bool :=
  negb ((length seg =? 0)%nat || bool_decide (seg = [DOT]) || bool_decide (seg = [DOT; DOT])).
Fixpoint segments_loop (fuel : nat) (seg : list Z) : bool :=
  match fuel with
  | O => false
  | S fuel =>
      let '(s, rest) := field SLASH seg in
      if negb (segment_ok s) then false else
      match rest with None => true | Some seg' => segments_loop fuel seg' end
  end.
Definition ota_url_path_valid (path : list Z) : bool :=
  match path with
  | [] => false
  | c :: _ =>
      if (OTA_URL_MAX <=? length path)%nat then false
      else if (c =? SLASH) || (path !!! (length path - 1)%nat =? SLASH) then false
      else if negb (forallb path_char_ok path) then false
      else segments_loop (S (length path)) path
  end.
(** The code and the string left in [out]. *)
Definition ota_url_resolve (origin path : list Z) (allow_http : bool) (out_len : nat) : Z * list Z :=
  if (out_len =? 0)%nat then (OTA_URL_ERR_TOOLONG, [])
  else if negb (ota_url_origin_valid origin allow_http) then (OTA_URL_ERR_ORIGIN, [])
  else if negb (ota_url_path_valid path) then (OTA_URL_ERR_PATH, [])
  else
    let need_slash := negb (origin !!! (length origin - 1)%nat =? SLASH) in
    let url := origin ++ (if need_slash then [SLASH] else []) ++ path in
    if (out_len <=? length url)%nat || (OTA_URL_MAX <=? length url)%nat then (OTA_URL_ERR_TOOLONG, [])
    else (OTA_URL_OK, url).

(** ** State *)

Inductive ota_prog_state_t :=
  | OTA_PROG_IDLE | OTA_PROG_DOWNLOADING | OTA_PROG_VERIFYING | OTA_PROG_REBOOTING | OTA_PROG_FAILED.
#[global] Instance prog_eq_dec : EqDecision ota_prog_state_t.
Proof. solve_decision. Defined.
Record ota_progress_snapshot_t := mk_snap { pg_state : ota_prog_state_t; pg_bytes : Z; pg_total : Z }.

(** The messages of [s_last_error]; what the platform's error is called is left out. *)
Inductive ota_error :=
  | ErrNoUrl | ErrScheme | ErrHttpDisabled | ErrBegin | ErrDesc | ErrFloor (version : list Z) | ErrDownload
  | ErrIncomplete | ErrSignature | ErrFinish | ErrClient | ErrOpen | ErrStatus (status : Z) | ErrPartition
  | ErrWrite | ErrRead (len : Z) | ErrEmpty | ErrBootPartition.

(** The namespace, the faults of its next accesses, the progress with its callback
    (whether one is set, and what it was called with), the last error, and the version
    of the running image. *)
Record ota_t := mk_ota {
  ot_flash : nvs_ns; ot_faults : list bool; ot_snap : ota_progress_snapshot_t; ot_cb : bool;
  ot_last_fired : Z; ot_fired : list ota_progress_snapshot_t; ot_error : option ota_error }.
Section OtaSetters.
Context (s : ota_t).
Definition oset_flash x := mk_ota x (ot_faults s) (ot_snap s) (ot_cb s) (ot_last_fired s) (ot_fired s) (ot_error s).
Definition oset_faults x := mk_ota (ot_flash s) x (ot_snap s) (ot_cb s) (ot_last_fired s) (ot_fired s) (ot_error s).
Definition oset_snap x := mk_ota (ot_flash s) (ot_faults s) x (ot_cb s) (ot_last_fired s) (ot_fired s) (ot_error s).
Definition oset_cb x last := mk_ota (ot_flash s) (ot_faults s) (ot_snap s) x last (ot_fired s) (ot_error s).
Definition oset_fired last x := mk_ota (ot_flash s) (ot_faults s) (ot_snap s) (ot_cb s) last x (ot_error s).
Definition oset_error x := mk_ota (ot_flash s) (ot_faults s) (ot_snap s) (ot_cb s) (ot_last_fired s) (ot_fired s) x.
End OtaSetters.

Abbreviation U := (St ota_t).
Definition oget : U ota_t := sget.
(** Whether the next access to flash succeeds. *)
Definition nvs_ok : U bool :=
  s ← oget;
  smodify (λ s, oset_faults s (tail (ot_faults s))) ;;
  mret (match ot_faults s with [] => true | f :: _ => negb f end).
(** [nvs_open], [nvs_get_str]: the string, if it can be read, fits and is not empty. *)
Definition read_str (key : list Z) (cap : nat) : U (option (list Z)) :=
  opened ← nvs_ok;
  if negb opened then mret None else
  s ← oget;
  mret (match nvs_get_str (ot_flash s) key cap with Some (_ :: _) as r => r | _ => None end).
(** [nvs_open], [nvs_set_str], [nvs_commit]: whether all three succeed. *)
Definition write_str (key v : list Z) : U bool :=
  opened ← nvs_ok;
  if negb opened then mret false else
  written ← nvs_ok;
  if negb written then mret false else
  smodify (λ s, oset_flash s (nvs_set (ot_flash s) key (NvStr v))) ;;
  nvs_ok.

(** ** [ota_rollback.c] *)

Definition OTA_FLOOR_MAX : nat := 48.
Definition NVS_KEY_OTA_VER_FLOOR : list Z := str_bytes "ver_floor".
Definition NVS_KEY_OTA_ORIGIN : list Z := str_bytes "origin".

Definition read_floor : U (option (list Z)) := read_str NVS_KEY_OTA_VER_FLOOR OTA_FLOOR_MAX.
Definition write_floor (version : list Z) : U bool := write_str NVS_KEY_OTA_VER_FLOOR version.
(** [running] is the version of the running image's descriptor, if there is one. *)
Definition ota_rollback_note_boot (running : option (list Z)) : U unit :=
  match running with
  | None => mret tt
  | Some version =>
      match ota_version_parse version with
      | None => mret tt
      | Some _ =>
          floor ← read_floor;
          raise ← slift (ota_rollback_should_raise_floor running floor);
          if negb raise then mret tt else write_floor version ;; mret tt
      end
  end.
Definition ota_rollback_get_floor (out_len : nat) : U (option (list Z)) :=
  if (out_len =? 0)%nat then mret None else read_str NVS_KEY_OTA_VER_FLOOR out_len.

(** The build options, and [esp_efuse_check_secure_version]. *)
Class OtaPlatform := {
  anti_rollback : bool; (* CONFIG_BOOTLOADER_APP_ANTI_ROLLBACK *)
  allow_http : bool; (* CONFIG_BRAMBLE_OTA_ALLOW_HTTP *)
  efuse_check : Z → bool }.

Section Updates.
Context `{OP : OtaPlatform}.

Definition ota_rollback_gate (new_version : option (list Z)) (candidate_secure_version : Z)
    (allow_downgrade : bool) : U Z :=
  if ota_rollback_secure_floor_blocks anti_rollback (efuse_check candidate_secure_version) then mret (-1) else
  floor ← read_floor;
  decision ← slift (ota_rollback_decide new_version floor allow_downgrade);
  match decision with
  | OTA_ROLLBACK_ACCEPT | OTA_ROLLBACK_ACCEPT_UNPARSEABLE => mret 0
  | OTA_ROLLBACK_REJECT_UNPARSEABLE | OTA_ROLLBACK_REJECT_BELOW_FLOOR => mret (-1)
  | OTA_ROLLBACK_ACCEPT_LOWER_FLOOR => write_floor (default [] new_version) ;; mret 0
  end.

(** ** [ota_origin.c] *)

Definition read_stored_origin : U (option (list Z)) := read_str NVS_KEY_OTA_ORIGIN OTA_URL_MAX.
(** [strlcpy] into a buffer of [out_len] bytes. *)
Definition ota_origin_get (out_len : nat) : U (list Z) :=
  stored ← read_stored_origin;
  mret (take (out_len - 1)
    (match stored with
     | Some origin => if ota_url_origin_valid origin allow_http then origin else OTA_DEFAULT_ORIGIN
     | None => OTA_DEFAULT_ORIGIN
     end)).
Definition ota_origin_set (origin : list Z) : U Z :=
  if negb (ota_url_origin_valid origin allow_http) then mret (-1) else
  ok ← write_str NVS_KEY_OTA_ORIGIN origin;
  mret (if (ok : bool) then 0 else -2).
Definition ota_origin_reset : U Z :=
  opened ← nvs_ok;
  if negb opened then mret (-2) else
  erased ← nvs_ok;
  if negb erased then mret (-2) else
  smodify (λ s, oset_flash s (nvs_erase (ot_flash s) NVS_KEY_OTA_ORIGIN)) ;;
  committed ← nvs_ok;
  mret (if (committed : bool) then 0 else -2).
Definition ota_origin_is_overridden : U bool :=
  stored ← read_stored_origin; mret (bool_decide (is_Some stored)).
Definition ota_resolve_artifact (rel_path : list Z) (out_len : nat) : U (Z * list Z) :=
  origin ← ota_origin_get OTA_URL_MAX;
  mret (ota_url_resolve origin rel_path allow_http out_len).

(** ** [ota_progress.c] *)

Definition ota_progress_percent (snap : ota_progress_snapshot_t) : Z :=
  if pg_total snap <=? 0 then 0 else i32 (Z.quot (pg_bytes snap * 100) (pg_total snap)).
Definition ota_progress_report (state : ota_prog_state_t) (bytes total : Z) : U unit :=
  s ← oget;
  let state_changed := bool_decide (state ≠ pg_state (ot_snap s)) in
  let snap := mk_snap state bytes total in
  smodify (λ s, oset_snap s snap) ;;
  if negb (ot_cb s) then mret tt else
  let pct := ota_progress_percent snap in
  swhen (state_changed || (bool_decide (state = OTA_PROG_DOWNLOADING) && (pct - ot_last_fired s >=? 5)))
    (smodify (λ s, oset_fired s pct (ot_fired s ++ [snap]))).
Definition ota_progress_set_state (state : ota_prog_state_t) : U unit :=
  s ← oget; ota_progress_report state (pg_bytes (ot_snap s)) (pg_total (ot_snap s)).
Definition ota_progress_get : U ota_progress_snapshot_t := sgets ot_snap.
Definition ota_progress_set_callback (cb : bool) : U unit := smodify (λ s, oset_cb s cb (-1)).

(** ** [ota.c] *)

Definition set_last_error (e : ota_error) : U unit := smodify (λ s, oset_error s (Some e)).
Definition fail (e : ota_error) : U Z := set_last_error e ;; mret (-1).

Inductive finish_t := FIN_OK | FIN_VALIDATE_FAILED | FIN_ERROR.
(** What the HTTPS update functions return, call by call; the descriptor is the image's
    version and secure version, [hs_steps] how much was read after each turn of
    [esp_https_ota_perform] that asks for another. *)
Record https_run := mk_https {
  hs_begin : bool; hs_desc : option (list Z * Z); hs_size : Z; hs_steps : list Z; hs_performed : bool;
  hs_complete : bool; hs_finish : finish_t }.
Definition finish_update (f : finish_t) (other : ota_error) : U Z :=
  match f with FIN_OK => mret 0 | FIN_VALIDATE_FAILED => fail ErrSignature | FIN_ERROR => fail other end.
Definition ota_https_start (h : https_run) (allow_downgrade : bool) : U Z :=
  if negb (hs_begin h) then fail ErrBegin else
  match hs_desc h with
  | None => fail ErrDesc
  | Some (version, secure) =>
      gate ← ota_rollback_gate (Some version) secure allow_downgrade;
      if negb (gate =? 0) then fail (ErrFloor version) else
      ota_progress_report OTA_PROG_DOWNLOADING 0 (hs_size h) ;;
      sfor (hs_steps h) (λ len, ota_progress_report OTA_PROG_DOWNLOADING len (hs_size h)) ;;
      if negb (hs_performed h) then fail ErrDownload
      else if negb (hs_complete h) then fail ErrIncomplete
      else
        ota_progress_set_state OTA_PROG_VERIFYING ;;
        finish_update (hs_finish h) ErrFinish
  end.

(** One turn of the HTTP download: what was read, whether it could be written, whether
    the client then has all. *)
Record http_read := mk_read { hr_len : Z; hr_written : bool; hr_complete : bool }.
Record http_run := mk_http {
  ht_client : bool; ht_open : bool; ht_content_len : Z; ht_status : Z; ht_partition : bool; ht_begin : bool;
  ht_reads : list http_read; ht_desc : option (list Z * Z); ht_end : finish_t; ht_boot : bool }.
(** The total that was downloaded; [None] is a download that goes on. *)
Fixpoint http_loop (content_len : Z) (reads : list http_read) (total : Z) : U (Z + ota_error) :=
  match reads with
  | [] => slift None
  | r :: reads' =>
      if hr_len r >? 0 then
        if negb (hr_written r) then mret (inr ErrWrite) else
        let total := total + hr_len r in
        ota_progress_report OTA_PROG_DOWNLOADING total content_len ;;
        if (content_len >? 0) && (total >=? content_len) then mret (inl total)
        else http_loop content_len reads' total
      else if hr_len r =? 0 then
        if hr_complete r then mret (inl total) else http_loop content_len reads' total
      else mret (inr (ErrRead (hr_len r)))
  end.
Definition ota_http_start (h : http_run) (allow_downgrade : bool) : U Z :=
  if negb allow_http then fail ErrHttpDisabled
  else if negb (ht_client h) then fail ErrClient
  else if negb (ht_open h) then fail ErrOpen
  else if negb (ht_status h =? 200) then fail (ErrStatus (ht_status h))
  else if negb (ht_partition h) then fail ErrPartition
  else if negb (ht_begin h) then fail ErrBegin
  else
    ota_progress_report OTA_PROG_DOWNLOADING 0 (ht_content_len h) ;;
    r ← http_loop (ht_content_len h) (ht_reads h) 0;
    match r with
    | inr e => fail e
    | inl total =>
        if total <=? 0 then fail ErrEmpty else
        match ht_desc h with
        | None => fail ErrDesc
        | Some (version, secure) =>
            gate ← ota_rollback_gate (Some version) secure allow_downgrade;
            if negb (gate =? 0) then fail (ErrFloor version) else
            ota_progress_report OTA_PROG_VERIFYING total (ht_content_len h) ;;
            rc ← finish_update (ht_end h) ErrFinish;
            if negb (rc =? 0) then mret (-1)
            else if negb (ht_boot h) then fail ErrBootPartition
            else mret 0
        end
    end.
Definition ota_wifi_start (url : list Z) (hs : https_run) (ht : http_run) (allow_downgrade : bool) : U Z :=
  if (length url =? 0)%nat then fail ErrNoUrl else
  smodify (λ s, oset_error s None) ;;
  if negb (has_prefix url (str_bytes "https://") || has_prefix url (str_bytes "http://")) then fail ErrScheme else
  rc ← (if has_prefix url (str_bytes "https://") then ota_https_start hs allow_downgrade
        else ota_http_start ht allow_downgrade);
  if negb (rc =? 0) then ota_progress_set_state OTA_PROG_FAILED ;; mret (-1)
  else mret 0.
End Updates.
