(* ===== verification/OtaSpec.v ===== *)
(** * What the update component guarantees

    The version order is the one of semantic versioning, versions survive printing
    and parsing, the anti-rollback floor holds through any history of boots and
    update attempts, resolved URLs stay under the configured origin, and an update
    succeeds only past every gate. *)

From stdpp Require Import base strings numbers sets option decidable list.
From S2P Require Import Prelude NetworkKey CString ParkedRetry Location LocationStoreSpec MeshState MeshSend MeshSendSpec Ota.

(** ** Lexicographic order *)

Fixpoint lexc (a b : list Z) : Z :=
  match a, b with
  | [], [] => 0
  | [], _ => -1
  | _, [] => 1
  | x :: a', y :: b' => if x =? y then lexc a' b' else if x <? y then -1 else 1
  end.
Lemma lexc_range a b : -1 <= lexc a b <= 1.
Proof. revert b. induction a as [|x a IH]; intros [|y b]; cbn; try lia. repeat case_match; try lia. apply IH. Qed.
Lemma lexc_flip a b : lexc b a = - lexc a b.
Proof.
  revert b. induction a as [|x a IH]; intros [|y b]; cbn; try lia. rewrite (Z.eqb_sym y x).
  destruct (Z.eqb_spec x y); [apply IH|]. destruct (Z.ltb_spec y x), (Z.ltb_spec x y); lia.
Qed.
Lemma lexc_refl a : lexc a a = 0.
Proof. induction a as [|x a IH]; [done|]. cbn. by rewrite Z.eqb_refl. Qed.
Lemma lexc_trans a b c : lexc a b <= 0 → lexc b c <= 0 → lexc a c <= 0.
Proof.
  revert b c. induction a as [|x a IH]; intros [|y b] [|z c]; cbn; try lia.
  destruct (Z.eqb_spec x y) as [->|], (Z.eqb_spec y z) as [->|].
  - apply IH.
  - lia.
  - destruct (Z.eqb_spec x z); [done|]. lia.
  - destruct (Z.ltb_spec x y), (Z.ltb_spec y z); try lia.
    destruct (Z.eqb_spec x z); [lia|]. destruct (Z.ltb_spec x z); lia.
Qed.
Lemma lexc_memcmp a b : lexc a b = if memcmp a b =? 0 then cmp_len a b else memcmp a b.
Proof.
  revert b. induction a as [|x a IH]; intros [|y b]; cbn -[Z.eqb Z.ltb]; try done.
  unfold cmp_len in *. cbn [length]. destruct (Z.eqb_spec x y); [|by destruct (x <? y)].
  rewrite IH. destruct (memcmp a b =? 0); [|done].
  rewrite !(Nat.eqb_compare (S _)), Nat.eqb_compare. cbn. repeat case_match; try done.
Qed.
(** Words of positive letters, each closed by a zero. *)
Lemma lexc_words k1 k2 r1 r2 : Forall (Z.lt 0) k1 → Forall (Z.lt 0) k2 →
  lexc (k1 ++ 0 :: r1) (k2 ++ 0 :: r2) = if lexc k1 k2 =? 0 then lexc r1 r2 else lexc k1 k2.
Proof.
  intros H1. revert k2. induction H1 as [|x k1 Hx H1 IH]; intros k2 H2; destruct H2 as [|y k2 Hy H2];
    cbn -[Z.eqb Z.ltb].
  - done.
  - rewrite (proj2 (Z.eqb_neq 0 y)), (proj2 (Z.ltb_lt 0 y)) by lia. done.
  - rewrite (proj2 (Z.eqb_neq x 0)), (proj2 (Z.ltb_ge x 0)) by lia. done.
  - destruct (x =? y); [by apply IH|]. by destruct (x <? y).
Qed.

(** ** The version order *)

Definition ident_key (i : list Z) : list Z :=
  if forallb isdigit i then 1 :: Z.of_nat (S (length i)) :: i else 2 :: i.
Lemma cmp_identifier_key a b : cmp_identifier a b = lexc (ident_key a) (ident_key b).
Proof.
  unfold cmp_identifier, ident_key. destruct (forallb isdigit a), (forallb isdigit b); cbn -[Z.of_nat Z.eqb Z.ltb].
  - unfold cmp_len. change (1 =? 1) with true. cbv iota.
    destruct (Nat.eqb_spec (length a) (length b)) as [E|E].
    + rewrite E, !Z.eqb_refl. rewrite lexc_memcmp. unfold cmp_len. rewrite E, Nat.eqb_refl.
      destruct (Z.eqb_spec (memcmp a b) 0); [done|done].
    + rewrite (proj2 (Z.eqb_neq (Z.of_nat (S (length a))) _)) by lia. destruct (Nat.ltb_spec (length a) (length b)); cbn -[Z.of_nat].
      * by rewrite (proj2 (Z.ltb_lt _ _)) by lia.
      * by rewrite (proj2 (Z.ltb_ge _ _)) by lia.
  - done.
  - done.
  - rewrite lexc_memcmp. by destruct (memcmp a b =? 0).
Qed.
Definition pre_key (s : list Z) : list Z :=
  match s with [] => [] | _ => concat (map (λ i, ident_key i ++ [0]) (split DOT s)) end.
(** A prerelease as it is stored: no zero byte, no final dot. *)
Definition clean (s : list Z) : Prop := Forall (Z.lt 0) s ∧ last s ≠ Some DOT.
Lemma ident_key_pos i : Forall (Z.lt 0) i → Forall (Z.lt 0) (ident_key i).
Proof. intros H. unfold ident_key. case_match; repeat (constructor; [lia|]); done. Qed.
Lemma clean_field s f o : clean s → s ≠ [] → field DOT s = (f, o) →
  clean f ∧ clean (default [] o) ∧ pre_key s = ident_key f ++ 0 :: pre_key (default [] o) ∧
  (length (default [] o) < length s)%nat.
Proof.
  intros [Hp Hl] Hne E. pose proof (field_eq _ _ _ _ E) as [Es Hf].
  assert (Hcf : clean f).
  { split; [rewrite Es in Hp; by apply Forall_app in Hp as [? _]|]. intros Hd.
    apply last_Some_elem_of in Hd. by apply (proj1 (list.Forall_forall _ _) Hf) in Hd. }
  unfold pre_key at 1. destruct s as [|c s0]; [done|]. rewrite split_field, E.
  destruct o as [r|]; cbn [default map concat].
  - assert (Hr : r ≠ []).
    { intros ->. apply Hl. rewrite Es. by rewrite last_snoc. }
    rewrite Es in Hp, Hl. apply Forall_app in Hp as [_ Hp]. apply Forall_cons in Hp as [_ Hp].
    split; [done|]. split; [split; [done|]|].
    + intros Hd. apply Hl. rewrite last_app, last_cons. unfold id in Hd. by rewrite Hd.
    + split; [|rewrite Es, length_app; cbn; lia]. rewrite <- app_assoc. cbn [app]. unfold pre_key. by destruct r.
  - split; [done|]. split; [split; [constructor|done]|]. split; [by rewrite app_nil_r|cbn; lia].
Qed.
Lemma prerelease_cmp_key fuel a b : clean a → clean b → (length a < fuel)%nat →
  prerelease_cmp_loop fuel a b = Some (lexc (pre_key a) (pre_key b)).
Proof.
  revert a b. induction fuel as [|fuel IH]; intros a b Ha Hb Hf; [lia|]. cbn [prerelease_cmp_loop].
  assert (Hk : ∀ s, clean s → s ≠ [] → pre_key s ≠ []).
  { intros s Hs Hn. destruct (field DOT s) as [f o] eqn:E. destruct (clean_field s f o Hs Hn E) as (_ & _ & -> & _).
    by destruct (ident_key f). }
  destruct a as [|x a0] eqn:Ea, b as [|y b0] eqn:Eb.
  - done.
  - specialize (Hk _ Hb). destruct (pre_key (y :: b0)) eqn:E; [by destruct Hk|]. done.
  - specialize (Hk _ Ha). destruct (pre_key (x :: a0)) eqn:E; [by destruct Hk|]. done.
  - rewrite <- Ea, <- Eb in *. destruct (field DOT a) as [ia ra] eqn:Fa, (field DOT b) as [ib rb] eqn:Fb.
    destruct (clean_field a ia ra) as (Ca & Ra & -> & La); [done|by rewrite Ea|done|].
    destruct (clean_field b ib rb) as (Cb & Rb & -> & _); [done|by rewrite Eb|done|].
    rewrite lexc_words by (apply ident_key_pos; (apply Ca || apply Cb)). rewrite <- cmp_identifier_key.
    destruct (cmp_identifier ia ib =? 0); cbn [negb]; [|done]. apply IH; [done|done|lia].
Qed.
(** One list of integers that orders versions. *)
Definition vkey (v : ota_semver_t) : list Z :=
  [sv_major v; sv_minor v; sv_patch v] ++
  match sv_prerelease v with [] => [1] | p => 0 :: pre_key p end.
Lemma version_cmp_key v w : clean (sv_prerelease v) → clean (sv_prerelease w) →
  ota_version_cmp v w = Some (lexc (vkey v) (vkey w)).
Proof.
  intros Hv Hw. unfold ota_version_cmp, vkey. cbn [app lexc].
  destruct (sv_major v =? sv_major w); cbn [negb]; [|done].
  destruct (sv_minor v =? sv_minor w); cbn [negb]; [|done].
  destruct (sv_patch v =? sv_patch w); cbn [negb]; [|done].
  destruct (sv_prerelease v) as [|c p], (sv_prerelease w) as [|d q]; try done.
  unfold cmp_prerelease. rewrite prerelease_cmp_key by (done || lia). done.
Qed.

(** *** What parsing guarantees *)

Lemma char_pos c : prerelease_char_ok c = true → 0 < c.
Proof. unfold prerelease_char_ok, isalnum, isdigit, DOT, DASH. intros. lia. Qed.
Lemma prerelease_loop_spec s p rest : prerelease_loop s = Some (p, rest) →
  s = p ++ rest ∧ Forall (λ c, prerelease_char_ok c = true ∧ c ≠ PLUS) p ∧ (rest = [] ∨ ∃ r, rest = PLUS :: r).
Proof.
  revert p rest. induction s as [|c s IH]; intros p rest; cbn [prerelease_loop].
  - intros [= <- <-]. eauto.
  - destruct (Z.eqb_spec c PLUS) as [->|Hc]; [intros [= <- <-]; eauto|].
    destruct (prerelease_char_ok c) eqn:Ec; [|done]. cbn [negb].
    destruct (prerelease_loop s) as [[p' r']|]; [|done]. intros [= <- <-].
    destruct (IH _ _ eq_refl) as (-> & Hp & Hr). split; [done|]. split; [by constructor|done].
Qed.
Lemma parse_prerelease_spec s p rest : parse_prerelease s = Some (p, rest) →
  clean p ∧ (length p < OTA_VERSION_PRERELEASE_MAX)%nat.
Proof.
  unfold parse_prerelease. destruct s as [|c start].
  { intros [= <- <-]. split; [split; [constructor|done]|cbn; unfold OTA_VERSION_PRERELEASE_MAX; lia]. }
  destruct (c =? DASH); cbn [negb].
  2: { intros [= <- <-]. split; [split; [constructor|done]|cbn; unfold OTA_VERSION_PRERELEASE_MAX; lia]. }
  destruct (prerelease_loop start) as [[p' r']|] eqn:E; [|done]. cbn [mbind option_bind].
  destruct (prerelease_loop_spec _ _ _ E) as (-> & Hp & _).
  destruct ((length p' =? 0)%nat || _) eqn:E1; [done|]. destruct (_ || has_dotdot _) eqn:E2; [done|].
  intros [= -> ->]. apply orb_false_iff in E1 as [E1 E3]. apply Nat.eqb_neq in E1. apply Nat.leb_gt in E3.
  apply orb_false_iff in E2 as [[_ E2]%orb_false_iff _]. split; [|done]. split.
  - eapply Forall_impl; [exact Hp|]. intros x [Hx _]. by apply char_pos.
  - intros Hl. rewrite last_lookup in Hl. rewrite <- Nat.sub_1_r in Hl. apply Z.eqb_neq in E2. apply E2.
    apply list_lookup_total_correct. by apply lookup_app_l_Some.
Qed.
Definition in_core (n : Z) : Prop := 0 <= n <= 1000000.
Lemma uint_loop_range s : ∀ v n rest, in_core v → uint_loop v s = Some (n, rest) → in_core n.
Proof.
  induction s as [|c s IH]; intros v n rest Hv; cbn [uint_loop]; [by intros [= <- <-]|].
  destruct (isdigit c) eqn:Ec; [|by intros [= <- <-]]. cbn zeta. destruct (_ >? _) eqn:E; [done|].
  apply IH. unfold in_core, isdigit in *. lia.
Qed.
Lemma parse_uint_range s n rest : parse_uint s = Some (n, rest) → in_core n.
Proof.
  unfold parse_uint. destruct s as [|c s]; [done|]. destruct (isdigit c); [|done]. cbn [negb].
  apply uint_loop_range. unfold in_core. lia.
Qed.
Definition version_wf (v : ota_semver_t) : Prop :=
  in_core (sv_major v) ∧ in_core (sv_minor v) ∧ in_core (sv_patch v) ∧
  clean (sv_prerelease v) ∧ (length (sv_prerelease v) < OTA_VERSION_PRERELEASE_MAX)%nat.
Lemma parse_wf s v : ota_version_parse s = Some v → version_wf v.
Proof.
  unfold ota_version_parse. destruct (parse_uint _) as [[major s1]|] eqn:E1; [|done]. cbn [mbind option_bind].
  destruct (skip_dot s1) as [s2|]; [|done]. cbn [mbind option_bind].
  destruct (parse_uint s2) as [[minor s3]|] eqn:E2; [|done]. cbn [mbind option_bind].
  destruct (skip_dot s3) as [s4|]; [|done]. cbn [mbind option_bind].
  destruct (parse_uint s4) as [[patch s5]|] eqn:E3; [|done]. cbn [mbind option_bind].
  destruct (parse_prerelease s5) as [[pre s6]|] eqn:E4; [|done]. cbn [mbind option_bind].
  intros Hv. assert (v = mk_semver major minor patch pre) as ->.
  { destruct s6 as [|c s7]; [by injection Hv|]. destruct (c =? PLUS); [by injection Hv|done]. }
  apply parse_uint_range in E1, E2, E3. apply parse_prerelease_spec in E4 as [H1 H2].
  unfold version_wf. cbn. auto.
Qed.
#[local] Hint Resolve parse_wf : core.
Lemma wf_clean v : version_wf v → clean (sv_prerelease v).
Proof. by intros (_ & _ & _ & H & _). Qed.

(** *** The order of semantic versioning *)

Fixpoint lex_by {A} (cmp : A → A → comparison) (l k : list A) : comparison :=
  match l, k with
  | [], [] => Eq
  | [], _ => Lt
  | _, [] => Gt
  | x :: l', y :: k' => match cmp x y with Eq => lex_by cmp l' k' | c => c end
  end.
Definition dec_value (i : list Z) : Z := foldl (λ v c, v * 10 + (c - 48)) 0 i.
(** Numeric identifiers compare as numbers and are below the others, which compare as text. *)
Definition ident_compare (i j : list Z) : comparison :=
  match forallb isdigit i, forallb isdigit j with
  | true, true => dec_value i ?= dec_value j
  | true, false => Lt
  | false, true => Gt
  | false, false => lex_by Z.compare i j
  end.
Definition semver_compare (v w : ota_semver_t) : comparison :=
  match lex_by Z.compare [sv_major v; sv_minor v; sv_patch v] [sv_major w; sv_minor w; sv_patch w] with
  | Eq =>
      match sv_prerelease v, sv_prerelease w with
      | [], [] => Eq
      | [], _ => Gt
      | _, [] => Lt
      | p, q => lex_by ident_compare (split DOT p) (split DOT q)
      end
  | c => c
  end.
Definition sgn (c : comparison) : Z := match c with Lt => -1 | Eq => 0 | Gt => 1 end.
(** No numeric identifier is empty or has a leading zero. *)
Definition canonical (i : list Z) : Prop := forallb isdigit i = true → i = [48] ∨ hd 48 i ≠ 48.
Definition canonical_pre (p : list Z) : Prop := p = [] ∨ Forall canonical (split DOT p).

Lemma lexc_compare a b : lexc a b = sgn (lex_by Z.compare a b).
Proof.
  revert b. induction a as [|x a IH]; intros [|y b]; try done. cbn -[Z.eqb Z.ltb].
  destruct (Z.compare_spec x y) as [->|H|H].
  - by rewrite Z.eqb_refl.
  - by rewrite (proj2 (Z.eqb_neq _ _)), (proj2 (Z.ltb_lt _ _)) by lia.
  - by rewrite (proj2 (Z.eqb_neq _ _)), (proj2 (Z.ltb_ge _ _)) by lia.
Qed.
Lemma dec_bounds a : ∀ v, forallb isdigit a = true →
  v * 10 ^ Z.of_nat (length a) <= foldl (λ v c, v * 10 + (c - 48)) v a < (v + 1) * 10 ^ Z.of_nat (length a).
Proof.
  induction a as [|c a IH]; intros v Hd; [cbn; lia|]. cbn [foldl forallb] in *. apply andb_true_iff in Hd as [Hc Hd].
  specialize (IH (v * 10 + (c - 48)) Hd). cbn [length]. rewrite Nat2Z.inj_succ, Z.pow_succ_r by lia.
  unfold isdigit in Hc. assert (0 < 10 ^ Z.of_nat (length a)) by (apply Z.pow_pos_nonneg; lia). nia.
Qed.
Lemma dec_compare a : ∀ b v, length a = length b → forallb isdigit a = true → forallb isdigit b = true →
  sgn (foldl (λ v c, v * 10 + (c - 48)) v a ?= foldl (λ v c, v * 10 + (c - 48)) v b) = lexc a b.
Proof.
  induction a as [|x a IH]; intros [|y b] v Hl Ha Hb; try discriminate Hl.
  { cbn. by rewrite Z.compare_refl. }
  cbn [foldl forallb lexc] in *. apply andb_true_iff in Ha as [Hx Ha]. apply andb_true_iff in Hb as [Hy Hb].
  injection Hl as Hl. destruct (Z.eqb_spec x y) as [->|Hn]; [by apply IH|].
  pose proof (dec_bounds a (v * 10 + (x - 48)) Ha) as Ba. pose proof (dec_bounds b (v * 10 + (y - 48)) Hb) as Bb.
  rewrite <- Hl in Bb. assert (0 < 10 ^ Z.of_nat (length a)) by (apply Z.pow_pos_nonneg; lia).
  destruct (Z.ltb_spec x y).
  - rewrite (proj2 (Z.compare_lt_iff _ _)); [done|]. nia.
  - rewrite (proj2 (Z.compare_gt_iff _ _)); [done|]. nia.
Qed.
Lemma dec_shorter a b : canonical a → canonical b → forallb isdigit a = true → forallb isdigit b = true →
  (length a < length b)%nat → dec_value a < dec_value b.
Proof.
  intros Ca Cb Ha Hb Hl. destruct b as [|c b]; [cbn in Hl; lia|]. destruct a as [|x a]; [by destruct (Ca eq_refl)|].
  destruct (Cb Hb) as [E|E]; [injection E as -> ->; cbn in Hl; lia|]. cbn in E.
  unfold dec_value. pose proof (dec_bounds (x :: a) 0 Ha) as Ba. cbn [forallb] in Hb. apply andb_true_iff in Hb as [Hc Hb].
  cbn [foldl] in *. pose proof (dec_bounds b (0 * 10 + (c - 48)) Hb) as Bb. unfold isdigit in Hc.
  assert (10 ^ Z.of_nat (length (x :: a)) <= 10 ^ Z.of_nat (length b)) by (apply Z.pow_le_mono_r; cbn in *; lia).
  assert (0 < 10 ^ Z.of_nat (length b)) by (apply Z.pow_pos_nonneg; lia). nia.
Qed.
Lemma ident_compare_key i j : canonical i → canonical j → lexc (ident_key i) (ident_key j) = sgn (ident_compare i j).
Proof.
  intros Ci Cj. rewrite <- cmp_identifier_key. unfold cmp_identifier, ident_compare.
  destruct (forallb isdigit i) eqn:Ei, (forallb isdigit j) eqn:Ej; cbn [andb negb eqb]; try done.
  - unfold cmp_len. destruct (Nat.eqb_spec (length i) (length j)) as [E|E].
    + change (0 =? 0) with true. cbv iota. unfold dec_value. rewrite dec_compare by done. rewrite lexc_memcmp.
      unfold cmp_len. rewrite E, Nat.eqb_refl. destruct (Z.eqb_spec (memcmp i j) 0); [done|done].
    + destruct (Nat.ltb_spec (length i) (length j)).
      * rewrite (proj2 (Z.compare_lt_iff _ _)); [done|]. by apply dec_shorter.
      * rewrite (proj2 (Z.compare_gt_iff _ _)); [done|]. apply dec_shorter; try done. lia.
  - rewrite <- lexc_compare, lexc_memcmp. by destruct (memcmp i j =? 0).
Qed.
Lemma idents_compare_key l k : Forall canonical l → Forall canonical k →
  Forall (Forall (Z.lt 0)) l → Forall (Forall (Z.lt 0)) k →
  lexc (concat (map (λ i, ident_key i ++ [0]) l)) (concat (map (λ i, ident_key i ++ [0]) k)) =
  sgn (lex_by ident_compare l k).
Proof.
  intros Cl. revert k. induction Cl as [|x l Cx Cl IH]; intros k Ck Pl Pk; destruct Ck as [|y k Cy Ck]; cbn [map concat lex_by].
  - done.
  - rewrite <- app_assoc. by destruct (ident_key y).
  - rewrite <- app_assoc. by destruct (ident_key x).
  - apply Forall_cons in Pl as [Px Pl]. apply Forall_cons in Pk as [Py Pk]. rewrite <- !app_assoc. cbn [app].
    rewrite lexc_words by by apply ident_key_pos. rewrite ident_compare_key by done.
    destruct (ident_compare x y); cbn; [|done|done]. by apply IH.
Qed.
Lemma split_pos sep s : Forall (Z.lt 0) s → Forall (Forall (Z.lt 0)) (split sep s).
Proof.
  induction 1 as [|c s Hc Hs IH]; cbn; [by repeat constructor|]. destruct (c =? sep); [by constructor|].
  destruct IH as [|f fs Hf Hfs]; repeat constructor; done.
Qed.

(** C32. Versions are ordered as semantic versioning says.  For any two strings that parse
    and whose numeric prerelease identifiers have no leading zeros, the comparison ends
    and its sign is the precedence of the two versions: major, minor and patch
    numerically, a prerelease below its release, and prereleases identifier by
    identifier, numbers as numbers and below text. *)
Theorem version_order_semver s t v w :
  ota_version_parse s = Some v → ota_version_parse t = Some w →
  canonical_pre (sv_prerelease v) → canonical_pre (sv_prerelease w) →
  ota_version_cmp_str s t = Some (sgn (semver_compare v w)).
Proof.
  intros Hs Ht Hv Hw. unfold ota_version_cmp_str. rewrite Hs, Ht. cbn [mbind option_bind].
  apply parse_wf, wf_clean in Hs, Ht. rewrite version_cmp_key by done. f_equal.
  unfold semver_compare, vkey. rewrite !(lexc_compare (_ ++ _)). cbn [app lex_by].
  destruct (sv_major v ?= sv_major w); try done. destruct (sv_minor v ?= sv_minor w); try done.
  destruct (sv_patch v ?= sv_patch w); try done. rewrite <- lexc_compare.
  destruct (sv_prerelease v) as [|c p] eqn:Ep, (sv_prerelease w) as [|d q] eqn:Eq; try done.
  cbn [lexc]. change (0 =? 0) with true. cbv iota. unfold pre_key. destruct Hv as [|Hv], Hw as [|Hw]; try done.
  apply idents_compare_key; try done; apply split_pos; (apply Hs || apply Ht).
Qed.

(** ** The floor *)

Definition reliable (s : ota_t) : Prop := ot_faults s = [].
Lemma swp_nvs_ok s (Q : bool → ota_t → Prop) : reliable s → Q true s → swp nvs_ok s Q.
Proof. intros Hf HQ. unfold swp, nvs_ok. cbn. destruct s; unfold reliable in Hf; cbn in *. by rewrite Hf in *. Qed.
(** What reading a string gives. *)
Definition kept (s : ota_t) (key : list Z) (cap : nat) : option (list Z) :=
  match nvs_get_str (ot_flash s) key cap with Some (_ :: _) as r => r | _ => None end.
Lemma swp_read_str key cap s (Q : option (list Z) → ota_t → Prop) :
  reliable s → Q (kept s key cap) s → swp (read_str key cap) s Q.
Proof.
  intros Hf HQ. unfold read_str. apply swp_bind, swp_nvs_ok; [done|]. cbn [negb]. by apply swp_bind, swp_get, swp_ret.
Qed.
Lemma swp_write_str key v s (Q : bool → ota_t → Prop) :
  reliable s → Q true (oset_flash s (nvs_set (ot_flash s) key (NvStr v))) → swp (write_str key v) s Q.
Proof.
  intros Hf HQ. unfold write_str. apply swp_bind, swp_nvs_ok; [done|]. cbn [negb].
  apply swp_bind, swp_nvs_ok; [done|]. cbn [negb]. apply swp_bind, swp_modify. by apply swp_nvs_ok.
Qed.
Definition floor_of (s : ota_t) : option ota_semver_t := parsed (kept s NVS_KEY_OTA_VER_FLOOR OTA_FLOOR_MAX).
Lemma floor_written s v ver : ota_version_parse v = Some ver → (length v < OTA_FLOOR_MAX)%nat →
  floor_of (oset_flash s (nvs_set (ot_flash s) NVS_KEY_OTA_VER_FLOOR (NvStr v))) = Some ver.
Proof.
  intros Hv Hl. unfold floor_of, kept, nvs_get_str. cbn [ot_flash oset_flash]. rewrite nvs_lookup_set.
  rewrite (proj2 (Nat.ltb_lt _ _)) by done. destruct v; [done|]. exact Hv.
Qed.
(** [v] is not above [w]. *)
Definition not_above (v w : ota_semver_t) : Prop := ∃ r, ota_version_cmp w v = Some r ∧ 0 <= r.
Lemma not_above_key v w : version_wf v → version_wf w → not_above v w ↔ lexc (vkey v) (vkey w) <= 0.
Proof.
  intros Hv Hw. unfold not_above. rewrite version_cmp_key by (by apply wf_clean). rewrite (lexc_flip (vkey v)).
  split; [intros (r & E & Hr); apply (inj Some) in E; lia|]. intros H. eexists. split; [done|lia].
Qed.
Lemma not_above_trans u v w : version_wf u → version_wf v → version_wf w →
  not_above u v → not_above v w → not_above u w.
Proof. intros Hu Hv Hw. rewrite !not_above_key by done. apply lexc_trans. Qed.
Lemma parsed_wf o v : parsed o = Some v → version_wf v.
Proof. destruct o as [s|]; [apply parse_wf|done]. Qed.
Lemma cmp_total v w : version_wf v → version_wf w → ∃ r, ota_version_cmp v w = Some r ∧ (r <= 0 → not_above v w) ∧
  (0 <= r → not_above w v).
Proof.
  intros Hv Hw. exists (lexc (vkey v) (vkey w)). split; [apply version_cmp_key; by apply wf_clean|].
  pose proof (lexc_flip (vkey v) (vkey w)). split; intros Hr; apply not_above_key; auto; lia.
Qed.

(** A boot leaves a floor the running version is not above, and never lowers one. *)
Lemma note_boot_spec s v ver :
  reliable s → ota_version_parse v = Some ver → (length v < OTA_FLOOR_MAX)%nat →
  swp (ota_rollback_note_boot (Some v)) s (λ _ s', reliable s' ∧ ∃ fl, floor_of s' = Some fl ∧ not_above ver fl ∧
    ∀ old, floor_of s = Some old → not_above old fl).
Proof.
  intros Hr Hv Hl. pose proof (parse_wf _ _ Hv) as Wv.
  assert (Hself : ∀ u, version_wf u → not_above u u).
  { intros u Hu. rewrite not_above_key by done. by rewrite lexc_refl. }
  unfold ota_rollback_note_boot. rewrite Hv. apply swp_bind, swp_read_str; [done|]. fold (floor_of s).
  unfold ota_rollback_should_raise_floor. cbn [parsed mbind option_bind]. rewrite Hv. fold (floor_of s).
  destruct (floor_of s) as [fl|] eqn:Ef.
  2: { apply swp_bind. eapply swp_lift; [done|]. cbn [negb]. apply swp_bind, swp_write_str; [done|].
       apply swp_ret. split; [done|]. exists ver. split; [by apply floor_written|]. split; [by apply Hself|done]. }
  pose proof (parsed_wf _ _ Ef) as Wf. destruct (cmp_total ver fl Wv Wf) as (r & -> & H1 & H2).
  cbn [mbind option_bind]. apply swp_bind. eapply swp_lift; [done|]. destruct (r >? 0) eqn:E; cbn [negb].
  - apply swp_bind, swp_write_str; [done|]. apply swp_ret. split; [done|]. exists ver.
    split; [by apply floor_written|]. split; [by apply Hself|]. intros old [= <-]. apply H2. lia.
  - apply swp_ret. split; [done|]. exists fl. split; [done|]. split; [apply H1; lia|].
    intros old [= <-]. by apply Hself.
Qed.

Section Gate.
Context `{OP : OtaPlatform}.

Definition clears (s : ota_t) (cand : option (list Z)) (secure : Z) : Prop :=
  (anti_rollback = true → efuse_check secure = true) ∧
  ∃ c, parsed cand = Some c ∧ ∀ fl, floor_of s = Some fl → not_above fl c.
Lemma gate_spec s cand secure : reliable s →
  swp (ota_rollback_gate cand secure false) s (λ rc s', s' = s ∧ (rc = 0 ↔ clears s cand secure)).
Proof.
  intros Hr. unfold ota_rollback_gate, ota_rollback_secure_floor_blocks, clears.
  destruct (anti_rollback && negb (efuse_check secure)) eqn:Es.
  { apply swp_ret. split; [done|]. split; [done|]. intros [H _]. apply andb_true_iff in Es as [E1 E2].
    rewrite H in E2 by done. done. }
  assert (Hs : anti_rollback = true → efuse_check secure = true).
  { intros E. rewrite E in Es. by destruct (efuse_check secure). }
  apply swp_bind, swp_read_str; [done|]. unfold ota_rollback_decide. fold (floor_of s).
  destruct (parsed cand) as [c|] eqn:Ec.
  2: { apply swp_bind. eapply swp_lift; [done|]. apply swp_ret. split; [done|]. split; [done|]. by intros (_ & c & ? & _). }
  destruct (floor_of s) as [fl|] eqn:Ef.
  2: { apply swp_bind. eapply swp_lift; [done|]. apply swp_ret. split; [done|]. split; [|done]. intros _.
       split; [done|]. by exists c. }
  pose proof (parsed_wf _ _ Ec) as Wc. pose proof (parsed_wf _ _ Ef) as Wf.
  pose proof (version_cmp_key c fl (wf_clean _ Wc) (wf_clean _ Wf)) as Hcmp. rewrite Hcmp. cbn [mbind option_bind].
  apply swp_bind. eapply swp_lift; [done|].
  destruct (_ >=? 0) eqn:E; (apply swp_ret; split; [done|]).
  - split; [|done]. intros _. split; [done|]. exists c. split; [done|]. intros ? [= <-].
    eexists. split; [exact Hcmp|lia].
  - split; [done|]. intros (_ & c' & [= <-] & H). destruct (H fl eq_refl) as (r & Er & Hr').
    rewrite Hcmp in Er. apply (inj Some) in Er. lia.
Qed.

Inductive fw_op := FwBoot (running : option (list Z)) | FwGate (candidate : option (list Z)) (secure : Z) (allow : bool).
Definition run_fw (op : fw_op) : U unit :=
  match op with
  | FwBoot running => ota_rollback_note_boot running
  | FwGate candidate secure allow => ota_rollback_gate candidate secure allow ;; mret tt
  end.
(** No downgrade is authorised, and a version that boots fits the buffer of the floor. *)
Definition ordinary (op : fw_op) : Prop :=
  match op with
  | FwBoot running => ∀ v, running = Some v → (length v < OTA_FLOOR_MAX)%nat
  | FwGate _ _ allow => allow = false
  end.
Definition floor_at_least (ver : ota_semver_t) (s : ota_t) : Prop :=
  reliable s ∧ ∃ fl, floor_of s = Some fl ∧ not_above ver fl.
Lemma ordinary_keeps ver op s : version_wf ver → ordinary op → floor_at_least ver s →
  swp (run_fw op) s (λ _ s', floor_at_least ver s').
Proof.
  intros Wv Ho Hfl. pose proof Hfl as (Hr & fl & Hf & Hn). destruct op as [[v|]|cand secure allow]; cbn [run_fw].
  - destruct (ota_version_parse v) as [w|] eqn:Ew.
    2: { unfold ota_rollback_note_boot. rewrite Ew. by apply swp_ret. }
    eapply swp_mono; [apply (note_boot_spec s v w Hr Ew); by apply Ho|]. cbv beta.
    intros _ s' (Hr' & fl' & Hf' & _ & Hold). split; [done|]. exists fl'. split; [done|].
    apply (not_above_trans ver fl fl'); eauto using parsed_wf.
  - by apply swp_ret.
  - cbn in Ho. subst allow. apply swp_bind. eapply swp_mono; [by apply gate_spec|]. cbv beta.
    intros rc s' [-> _]. by apply swp_ret.
Qed.

(** C33. No update rolls the firmware back.  Whatever flash held, as long as its reads and
    writes never fail ([reliable]), once a node has booted a version, then through any history of further boots and update attempts, as long as
    no attempt is an authorised downgrade, the gate returns for every candidate, and it
    passes one only if it parses, is not below the version that booted and, where the
    hardware floor is enforced, clears that too. *)
Theorem updates_never_roll_back s v ver ops cand secure :
  reliable s → ota_version_parse v = Some ver → (length v < OTA_FLOOR_MAX)%nat → Forall ordinary ops →
  swp (ota_rollback_note_boot (Some v) ;; sfor ops run_fw) s (λ _ s',
    swp (ota_rollback_gate cand secure false) s' (λ rc _,
      rc = 0 → (anti_rollback = true → efuse_check secure = true) ∧ ∃ c, parsed cand = Some c ∧ not_above ver c)).
Proof.
  intros Hr Hv Hl Hops. pose proof (parse_wf _ _ Hv) as Wv. apply swp_bind.
  eapply swp_mono; [by apply (note_boot_spec s v ver)|]. cbv beta. intros _ s1 (Hr1 & fl & Hf & Hn & _).
  eapply swp_mono; [apply (swp_for _ _ (floor_at_least ver))|].
  { split; [done|]. by exists fl. } { intros op s' Hop Hs'. apply ordinary_keeps; [done| |done].
    by apply (proj1 (list.Forall_forall _ _) Hops). }
  cbv beta. intros _ s2 (Hr2 & fl2 & Hf2 & Hn2). eapply swp_mono; [by apply gate_spec|]. cbv beta.
  intros rc _ [_ Hrc] Hz. apply Hrc in Hz as (Hsec & c & Hc & Hge). split; [done|]. exists c. split; [done|].
  apply (not_above_trans ver fl2 c); eauto using parsed_wf.
Qed.
End Gate.

(** ** Where an image comes from *)

(** A path that stays below where it starts. *)
Definition good_segment (seg : list Z) : Prop := seg ≠ [] ∧ seg ≠ [DOT] ∧ seg ≠ [DOT; DOT].
Definition path_ok (p : list Z) : Prop :=
  (length p < OTA_URL_MAX)%nat ∧ Forall (λ c, path_char_ok c = true) p ∧ Forall good_segment (split SLASH p).

Lemma segment_ok_spec seg : segment_ok seg = true ↔ good_segment seg.
Proof.
  unfold segment_ok, good_segment. rewrite negb_true_iff, !orb_false_iff, !bool_decide_eq_false, Nat.eqb_neq.
  destruct seg; [cbn; intuition|]. cbn [length]. intuition (done || lia).
Qed.
Lemma segments_loop_spec fuel s : (length s < fuel)%nat →
  segments_loop fuel s = true ↔ Forall good_segment (split SLASH s).
Proof.
  revert s. induction fuel as [|fuel IH]; intros s Hl; [lia|]. cbn [segments_loop]. rewrite split_field.
  destruct (field SLASH s) as [f o] eqn:E. pose proof (field_eq _ _ _ _ E) as [Es _].
  destruct (segment_ok f) eqn:Ef; cbn [negb].
  - apply segment_ok_spec in Ef. destruct o as [r|].
    + rewrite Forall_cons, IH; [tauto|]. rewrite Es, length_app in Hl. cbn in Hl. lia.
    + split; [|done]. intros _. by constructor.
  - assert (Hn : ¬ good_segment f) by (by rewrite <- segment_ok_spec, Ef).
    split; [done|]. destruct o; rewrite Forall_cons; tauto.
Qed.
Lemma path_valid_spec p : ota_url_path_valid p = true ↔ path_ok p.
Proof.
  unfold ota_url_path_valid, path_ok. destruct p as [|c p0] eqn:Ep.
  { split; [done|]. intros (_ & _ & H). apply Forall_cons in H as [(H & _) _]. done. }
  rewrite <- Ep. destruct (Nat.leb_spec OTA_URL_MAX (length p)) as [Hm|Hm]; [split; [done|lia]|].
  destruct ((c =? SLASH) || _) eqn:Es.
  { split; [done|]. intros (_ & _ & Hseg). exfalso. apply orb_true_iff in Es as [E|E]; apply Z.eqb_eq in E.
    - subst. cbn [split] in Hseg. rewrite Z.eqb_refl in Hseg. apply Forall_cons in Hseg as [(? & _) _]. done.
    - destruct (exists_last (l := p)) as (q & x & Eq); [by rewrite Ep|]. rewrite Eq in E, Hseg.
      rewrite length_app, Nat.add_sub, lookup_total_app_r, Nat.sub_diag in E by done. cbn in E. subst x.
      rewrite split_snoc, Forall_app, Forall_singleton in Hseg. by destruct Hseg as [_ (? & _)]. }
  destruct (forallb path_char_ok p) eqn:Ec; cbn [negb].
  - rewrite segments_loop_spec by lia.
    assert (Forall (λ c, path_char_ok c = true) p); [|tauto].
    apply list.Forall_forall. intros x Hx. apply (proj1 (forallb_forall _ _) Ec). by apply list_elem_of_In.
  - split; [done|]. intros (_ & H & _). exfalso. apply not_true_iff_false in Ec. apply Ec. apply forallb_forall.
    intros x Hx%list_elem_of_In. by apply (proj1 (list.Forall_forall _ _) H).
Qed.

(** The part of a URL between its scheme and the next slash. *)
Definition scheme_len (u : list Z) : nat := if has_prefix_nocase u (str_bytes "https://") then 8 else 7.
Definition authority (u : list Z) : list Z := (field SLASH (drop (scheme_len u) u)).1.
Lemma origin_long o h : ota_url_origin_valid o h = true →
  (8 <= length o < OTA_URL_MAX)%nat ∧ (scheme_len o < length o)%nat ∧ (h = false → has_prefix_nocase o (str_bytes "https://") = true).
Proof.
  unfold ota_url_origin_valid. destruct ((length o =? 0)%nat || _) eqn:E; [done|].
  apply orb_false_iff in E as [_ E]. apply Nat.leb_gt in E. unfold origin_rest.
  unfold scheme_len. destruct (has_prefix_nocase o (str_bytes "https://")) eqn:Ep.
  - destruct (drop 8 o) as [|c rest] eqn:Ed; [done|]. intros _.
    assert (L : length (drop 8 o) = S (length rest)) by (by rewrite Ed). rewrite length_drop in L.
    split; [lia|]. split; [lia|done].
  - destruct (h && _) eqn:E2; [|done]. apply andb_true_iff in E2 as [-> E2].
    destruct (drop 7 o) as [|c rest] eqn:Ed; [done|]. intros _.
    assert (L : length (drop 7 o) = S (length rest)) by (by rewrite Ed). rewrite length_drop in L.
    split; [lia|]. split; [lia|done].
Qed.
(** The origin, a slash unless it ends in one, the path. *)
Definition under (o p : list Z) : list Z :=
  o ++ (if negb (o !!! (length o - 1)%nat =? SLASH) then [SLASH] else []) ++ p.
Lemma under_authority o p : (8 <= length o)%nat → (scheme_len o < length o)%nat →
  authority (under o p) = authority o ∧
  has_prefix_nocase (under o p) (str_bytes "https://") = has_prefix_nocase o (str_bytes "https://").
Proof.
  intros Hl Hsl. assert (Hp : has_prefix_nocase (under o p) (str_bytes "https://") = has_prefix_nocase o (str_bytes "https://")).
  { unfold under. by apply prefix_app. }
  split; [|done]. unfold authority, scheme_len. rewrite Hp.
  set (k := if has_prefix_nocase o _ then 8%nat else 7%nat).
  change (scheme_len o) with k in Hsl. unfold under. rewrite drop_app_le by lia.
  destruct (Z.eqb_spec (o !!! (length o - 1)%nat) SLASH) as [E|E]; cbn [negb app].
  - destruct (exists_last (l := o)) as (q & x & Eq); [by destruct o|]. rewrite Eq in E, Hsl |- *.
    rewrite length_app, Nat.add_sub, lookup_total_app_r, Nat.sub_diag in E by done. cbn in E. subst x.
    rewrite length_app in Hsl. cbn in Hsl.
    rewrite drop_app_le by lia. rewrite <- app_assoc. cbn [app]. by rewrite !field_stop.
  - by rewrite field_stop.
Qed.

Section Origins.
Context `{OP : OtaPlatform}.

(** A read changes nothing in flash and gives what is stored, or nothing. *)
Lemma read_any key cap s :
  swp (read_str key cap) s (λ r s', ot_flash s' = ot_flash s ∧ (r = None ∨ r = kept s key cap)).
Proof.
  unfold read_str, nvs_ok. apply swp_bind, swp_bind, swp_get. apply swp_bind, swp_modify, swp_ret.
  destruct (match ot_faults s with [] => _ | _ => _ end); cbn [negb].
  - apply swp_bind, swp_get, swp_ret. auto.
  - apply swp_ret. auto.
Qed.
(** The origins the node may use: the stored one if it passes the policy, and the default. *)
Definition effective (s : ota_t) (o : list Z) : Prop :=
  ota_url_origin_valid o allow_http = true ∧ (o = OTA_DEFAULT_ORIGIN ∨ kept s NVS_KEY_OTA_ORIGIN OTA_URL_MAX = Some o).
Lemma default_valid h : ota_url_origin_valid OTA_DEFAULT_ORIGIN h = true.
Proof. by destruct h; vm_compute. Qed.
Lemma origin_get_spec s : swp (ota_origin_get OTA_URL_MAX) s (λ o s', ot_flash s' = ot_flash s ∧ effective s o).
Proof.
  unfold ota_origin_get. apply swp_bind. eapply swp_mono; [apply read_any|]. cbv beta. intros r s' [Hf Hr].
  apply swp_ret. split; [done|].
  assert (He : ∀ o, effective s o → effective s (take (OTA_URL_MAX - 1) o)).
  { intros o Ho. rewrite take_ge; [done|]. destruct (origin_long o allow_http) as [? _]; [apply Ho|]. lia. }
  apply He. unfold effective. destruct r as [o|]; [|split; [apply default_valid|by left]].
  destruct (ota_url_origin_valid o allow_http) eqn:E; [|split; [apply default_valid|by left]].
  split; [done|]. destruct Hr as [|<-]; [done|]. by right.
Qed.

(** Images come from below the configured origin.  Whatever flash holds and whichever
    of its accesses fail, resolving any path returns without changing flash; it
    succeeds exactly for a path of allowed characters and real segments, none of them a
    dot or two, that fits the buffers, and the URL is then the origin, a slash and the
    path: its host and port are those of the stored origin that passed the policy or of
    the default one, over HTTPS unless the build allows HTTP.  A refusal leaves the
    empty string. *)
Theorem artifacts_confined s path out_len :
  swp (ota_resolve_artifact path out_len) s (λ r s', ot_flash s' = ot_flash s ∧
    ∃ o, effective s o ∧
      (r.1 = OTA_URL_OK ↔ path_ok path ∧ (length (under o path) < out_len `min` OTA_URL_MAX)%nat) ∧
      (r.1 = OTA_URL_OK → r.2 = under o path ∧ authority r.2 = authority o ∧
         (allow_http = false → has_prefix_nocase r.2 (str_bytes "https://") = true)) ∧
      (r.1 ≠ OTA_URL_OK → r.2 = [])).
Proof.
  unfold ota_resolve_artifact. apply swp_bind. eapply swp_mono; [apply origin_get_spec|]. cbv beta.
  intros o s' [Hf Ho]. apply swp_ret. split; [done|]. exists o. split; [done|].
  destruct Ho as [Hv _]. destruct (origin_long o allow_http Hv) as (Hl & Hsl & Hh).
  destruct (under_authority o path) as [Ha Hp]; [lia|done|].
  unfold ota_url_resolve. fold (under o path). rewrite Hv. cbn [negb].
  destruct (Nat.eqb_spec out_len 0) as [->|Hz]; [cbn; split; [|done]; split; [done|lia]|].
  pose proof (path_valid_spec path) as Hok. destruct (ota_url_path_valid path); cbn [negb].
  2: { cbn. split; [|done]. split; [done|]. intros [?%Hok _]. done. }
  destruct ((out_len <=? _)%nat || _) eqn:E; cbn [fst snd].
  - split; [|done]. split; [done|]. intros [_ H]. exfalso. apply orb_true_iff in E as [E|E]; apply Nat.leb_le in E; lia.
  - apply orb_false_iff in E as [E1 E2]. apply Nat.leb_gt in E1, E2.
    split; [split; [|done]; intros _; split; [by apply Hok|lia]|]. split; [|done]. intros _.
    split; [done|]. split; [done|]. intros Hn. rewrite Hp. by apply Hh.
Qed.

(** ** The update *)

Definition gated (s : ota_t) (url : list Z) (h : https_run) : Prop :=
  has_prefix url (str_bytes "https://") = true ∧ hs_begin h = true ∧
  (∃ version secure, hs_desc h = Some (version, secure) ∧ clears s (Some version) secure) ∧
  hs_performed h = true ∧ hs_complete h = true ∧ hs_finish h = FIN_OK.
(** A step of the download: flash, its faults and the error stay. *)
Definition downloads (s s' : ota_t) : Prop :=
  ot_flash s' = ot_flash s ∧ ot_faults s' = ot_faults s ∧ ot_error s' = ot_error s.
Lemma report_spec state bytes total s : swp (ota_progress_report state bytes total) s (λ _ s',
  downloads s s' ∧ ot_snap s' = mk_snap state bytes total).
Proof.
  unfold ota_progress_report. apply swp_bind, swp_get. cbn zeta. apply swp_bind, swp_modify.
  destruct (ot_cb s); cbn [negb]; [|by apply swp_ret]. apply swp_when; intros _; [by apply swp_modify|done].
Qed.
Lemma fail_spec e s : swp (fail e) s (λ rc s', rc = -1 ∧ s' = oset_error s (Some e)).
Proof. unfold fail, set_last_error. by apply swp_bind, swp_modify, swp_ret. Qed.
Definition outcome (P : Prop) (s : ota_t) (rc : Z) (s' : ota_t) : Prop :=
  ot_flash s' = ot_flash s ∧ (rc = 0 ∧ P ∨ rc = -1 ∧ ¬ P ∧ is_Some (ot_error s')).
Lemma fail_outcome (P : Prop) e s s1 : ¬ P → ot_flash s1 = ot_flash s → swp (fail e) s1 (outcome P s).
Proof.
  intros HP Hf. eapply swp_mono; [apply fail_spec|]. cbv beta. intros rc s' [-> ->].
  split; [done|]. right. split; [done|]. split; [done|]. by eexists.
Qed.
Lemma https_spec s h : reliable s →
  swp (ota_https_start h false) s (outcome (hs_begin h = true ∧
    (∃ version secure, hs_desc h = Some (version, secure) ∧ clears s (Some version) secure) ∧
    hs_performed h = true ∧ hs_complete h = true ∧ hs_finish h = FIN_OK) s).
Proof.
  intros Hr. unfold ota_https_start. destruct (hs_begin h); cbn [negb]; [|apply fail_outcome; [by intros []|done]].
  destruct (hs_desc h) as [[version secure]|] eqn:Ed.
  2: { apply fail_outcome; [by intros (_ & (? & ? & ? & _) & _)|done]. }
  apply swp_bind. eapply swp_mono; [by apply gate_spec|]. cbv beta. intros gate s1 [-> Hg].
  destruct (Z.eqb_spec gate 0) as [Hz|Hz]; cbn [negb].
  2: { apply fail_outcome; [|done]. intros (_ & (v & sec & [= <- <-] & Hc) & _). by apply Hz, Hg. }
  apply Hg in Hz. apply swp_bind. eapply swp_mono; [apply report_spec|]. cbv beta. intros _ s1 [(F1 & _ & _) _].
  apply swp_bind. eapply swp_mono; [apply (swp_for _ _ (λ x, ot_flash x = ot_flash s))|]; [done| |].
  { intros len x _ Hx. eapply swp_mono; [apply report_spec|]. intros _ x' [(Fx & _) _]. by rewrite Fx. }
  cbv beta. intros _ s2 F2. destruct (hs_performed h); cbn [negb]; [|apply fail_outcome; [by intros (_ & _ & ? & _)|done]].
  destruct (hs_complete h); cbn [negb]; [|apply fail_outcome; [by intros (_ & _ & _ & ? & _)|done]].
  apply swp_bind. unfold ota_progress_set_state. apply swp_bind, swp_get.
  eapply swp_mono; [apply report_spec|]. cbv beta. intros _ s3 [(F3 & _) _].
  assert (Hf : ot_flash s3 = ot_flash s) by congruence.
  destruct (hs_finish h); cbn [finish_update];
    [|apply fail_outcome; [by intros (_ & _ & _ & _ & ?)|done]..].
  apply swp_ret. split; [done|]. left. split; [done|]. split_and!; try done. by exists version, secure.
Qed.

(** An update passes every gate or fails.  In a build without HTTP, for any URL and
    whatever the platform returns, an update without an authorised downgrade ends; it
    succeeds exactly when the URL is an HTTPS one, the image's version clears the
    rollback floors, all of it arrived and the platform verified its signature; and
    when it fails, the stored floor and origin are as before and an error is recorded. *)
Theorem updates_gated s url hs ht :
  reliable s → allow_http = false →
  swp (ota_wifi_start url hs ht false) s (outcome (gated s url hs) s).
Proof.
  intros Hr Hh. unfold ota_wifi_start, gated.
  destruct (Nat.eqb_spec (length url) 0) as [Hz|_].
  { apply fail_outcome; [|done]. intros [H _]. destruct url; done. }
  apply swp_bind, swp_modify. destruct (has_prefix url (str_bytes "https://")) eqn:Es; cbn [orb negb].
  - apply swp_bind. eapply swp_mono; [by apply https_spec|]. cbv beta.
    intros rc s1 (F1 & [[-> H]|(-> & Hn & He)]); cbn [Z.eqb negb].
    + apply swp_ret. split; [done|]. left. split; [done|]. split; [done|]. exact H.
    + apply swp_bind. unfold ota_progress_set_state. apply swp_bind, swp_get.
      eapply swp_mono; [apply report_spec|]. cbv beta. intros _ s2 [(F2 & _ & E2) _]. apply swp_ret.
      split; [by rewrite F2|]. right. split; [done|]. split; [|by rewrite E2].
      intros [_ H]. by apply Hn.
  - destruct (has_prefix url (str_bytes "http://")); cbn [negb].
    2: { apply fail_outcome; [by intros []|done]. }
    apply swp_bind. unfold ota_http_start. rewrite Hh. cbn [negb].
    eapply swp_mono; [apply fail_spec|]. cbv beta. intros rc s1 [-> ->]. cbn [Z.eqb negb].
    apply swp_bind. unfold ota_progress_set_state. apply swp_bind, swp_get.
    eapply swp_mono; [apply report_spec|]. cbv beta. intros _ s2 [(F2 & _ & E2) _]. apply swp_ret.
    split; [by rewrite F2|]. right. split; [done|]. split; [by intros []|]. rewrite E2. by eexists.
Qed.

(** An origin written with capitals stops updates.  The policy takes the scheme in any
    case, the update does not: an origin such as [HTTPS://host/] is accepted and stored,
    artifacts resolve below it, and every update from such a URL then fails, whatever the
    server answers. *)
Theorem capital_scheme_stops_updates s o path hs ht allow :
  reliable s → ota_url_origin_valid o allow_http = true →
  has_prefix o (str_bytes "https://") = false → has_prefix o (str_bytes "http://") = false →
  swp (ota_origin_set o) s (λ rc s1, rc = 0 ∧
    swp (ota_resolve_artifact path OTA_URL_MAX) s1 (λ r s2, r.1 = OTA_URL_OK →
      swp (ota_wifi_start r.2 hs ht allow) s2 (λ rc _, rc = -1))).
Proof.
  intros Hr Hv H1 H2. destruct (origin_long o allow_http Hv) as (Hl & Hsl & _).
  unfold ota_origin_set. rewrite Hv. cbn [negb]. apply swp_bind, swp_write_str; [done|]. apply swp_ret.
  split; [done|]. unfold ota_resolve_artifact, ota_origin_get. apply swp_bind, swp_bind, swp_read_str; [done|].
  unfold kept, nvs_get_str. cbn [ot_flash oset_flash]. rewrite nvs_lookup_set, (proj2 (Nat.ltb_lt _ _)) by lia.
  destruct o as [|c o0] eqn:Eo; [cbn in Hl; lia|]. rewrite <- Eo in *. rewrite Hv. apply swp_ret.
  rewrite take_ge by lia. apply swp_ret. unfold ota_url_resolve. rewrite Hv. cbn [negb]. fold (under o path).
  destruct (OTA_URL_MAX =? 0)%nat; [done|]. destruct (ota_url_path_valid path); cbn [negb]; [|done].
  destruct (_ || _); [done|]. intros _. cbn [snd]. unfold ota_wifi_start.
  destruct (Nat.eqb_spec (length (under o path)) 0); [by apply (swp_mono _ _ _ _ (fail_spec _ _)); intros ? ? [-> _]|].
  apply swp_bind, swp_modify. unfold under. rewrite !plain_prefix_app by (cbn; lia). rewrite H1, H2. cbn [orb negb].
  eapply swp_mono; [apply fail_spec|]. by intros ? ? [-> _].
Qed.
End Origins.

(** ** Examples *)

Definition release_build : OtaPlatform :=
  {| anti_rollback := true; allow_http := false; efuse_check := λ v, 2 <=? v |}.
#[local] Existing Instance release_build.

Definition fresh_ota : ota_t := mk_ota [] [] (mk_snap OTA_PROG_IDLE 0 0) true (-1) [] None.
Definition v140 : ota_semver_t := mk_semver 1 4 0 [].
Lemma v140_parses : ota_version_parse (str_bytes "v1.4.0") = Some v140.
Proof. vm_compute. reflexivity. Qed.
Lemma dev_parses : ota_version_parse (str_bytes "1.4.6-dev.3.gabc123") = Some (mk_semver 1 4 6 (str_bytes "dev.3.gabc123")).
Proof. vm_compute. reflexivity. Qed.
Lemma dev12_parses : ota_version_parse (str_bytes "1.4.6-dev.12+x") = Some (mk_semver 1 4 6 (str_bytes "dev.12")).
Proof. vm_compute. reflexivity. Qed.
Lemma version_order_semver_witness :
  ota_version_cmp_str (str_bytes "1.4.6-dev.3.gabc123") (str_bytes "1.4.6-dev.12+x") = Some (-1).
Proof.
  apply (version_order_semver _ _ _ _ dev_parses dev12_parses); right;
    repeat (constructor; [intros H; vm_compute in H |- *; try discriminate H; right; discriminate|]); constructor.
Defined.

Definition some_history : list fw_op :=
  [FwGate (Some (str_bytes "1.3.9")) 2 false; FwBoot (Some (str_bytes "1.4.2")); FwBoot None].
Lemma updates_never_roll_back_witness :
  swp (ota_rollback_note_boot (Some (str_bytes "v1.4.0")) ;; sfor some_history run_fw) fresh_ota (λ _ s',
    swp (ota_rollback_gate (Some (str_bytes "1.5.0")) 2 false) s' (λ rc _,
      rc = 0 → (anti_rollback = true → efuse_check 2 = true) ∧
        ∃ c, parsed (Some (str_bytes "1.5.0")) = Some c ∧ not_above v140 c)).
Proof.
  apply (updates_never_roll_back fresh_ota (str_bytes "v1.4.0") v140 some_history);
    [reflexivity|exact v140_parses|vm_compute; lia|].
  constructor; [reflexivity|]. constructor; [intros v [= <-]; vm_compute; lia|]. constructor; [discriminate|constructor].
Defined.
(** The gate passes 1.5.0 after that history and refuses 1.4.1. *)
Example gate_after_history :
  (λ v, fst <$> (ota_rollback_note_boot (Some (str_bytes "v1.4.0")) ;; sfor some_history run_fw ;;
     ota_rollback_gate (Some (str_bytes v)) 2 false) fresh_ota) <$> ["1.5.0"; "1.4.1"] = [Some 0; Some (-1)].
Proof. vm_compute. reflexivity. Qed.

Definition good_run : https_run := mk_https true (Some (str_bytes "1.5.0", 2)) 1000 [500; 1000] true true FIN_OK.
Definition no_http : http_run := mk_http false false 0 0 false false [] None FIN_ERROR false.
Definition good_url : list Z := str_bytes "https://bramblemesh.org/ota/stable/bramble.bin".
Lemma updates_gated_witness :
  fst <$> ota_wifi_start good_url good_run no_http false fresh_ota = Some 0 ∧
  swp (ota_wifi_start good_url good_run no_http false) fresh_ota (outcome (gated fresh_ota good_url good_run) fresh_ota).
Proof. split; [vm_compute; reflexivity|]. apply (updates_gated fresh_ota good_url good_run no_http); reflexivity. Defined.
Lemma capital_scheme_stops_updates_witness :
  swp (ota_origin_set (str_bytes "HTTPS://my.host/")) fresh_ota (λ rc s1, rc = 0 ∧
    swp (ota_resolve_artifact (str_bytes "a/b.bin") OTA_URL_MAX) s1 (λ r s2, r.1 = OTA_URL_OK →
      swp (ota_wifi_start r.2 good_run no_http true) s2 (λ rc _, rc = -1))).
Proof.
  apply (capital_scheme_stops_updates fresh_ota (str_bytes "HTTPS://my.host/") (str_bytes "a/b.bin") good_run no_http true);
    vm_compute; reflexivity.
Defined.
