(* ===== verification/WsServer.v ===== *)
(** * Remote procedure calls and who may make them
      ([components/rpc], [components/security/include/ct_strcmp.h],
      [main/rpc_token.c], [main/ws_origin.c], [main/ws_auth_credential.c],
      [main/ws_server.c], [identity_ensure_ws_auth_token])

    The origin policy, the extraction of a token from the headers, the device token,
    the dispatcher with its allowlist, and the WebSocket server: handshakes, frames,
    notifications and the setup form.

    C strings are the lists of their bytes; a header or pointer that may be absent is
    an option.  JSON is a parameter: what [cJSON] parses, reads and prints.  The
    handlers of the methods are programs on a state of their own. *)

From stdpp Require Import base strings numbers sets option decidable list.
From S2P Require Import Prelude Packet NetworkKey CString DmCrypto Identity IdentityStore Location MeshState.

(** ** [ws_origin.c] *)

Definition COLON : Z := 58.
Definition AT : Z := 64.
Definition BRACKET_OPEN : Z := 91.
Definition BRACKET_CLOSE : Z := 93.
Definition COMMA : Z := 44.
Definition SPACE : Z := 32.
Definition TAB : Z := 9.

Definition ieq_n (a b : list Z) : bool := bool_decide (map tolower a = map tolower b).
(** The text of the host; [None] a null pointer. *)
Definition host_part (s : option (list Z)) : option (list Z) :=
  match s with
  | None | Some [] => None
  | Some s =>
      let host := match strstr (str_bytes "://") s with Some p => drop 3 p | None => s end in
      raw ← (if hd 0 host =? BRACKET_OPEN
             then match field BRACKET_CLOSE host with
                  | (_, None) => None
                  | (f, Some _) => Some (f ++ [BRACKET_CLOSE])
                  end
             else let '(f, rest) := span (λ c, (c =? COLON) || (c =? SLASH) || (c =? AT)) host in
                  if hd 0 rest =? AT then None else Some f);
      let host := if (1 <? length raw)%nat && (raw !!! (length raw - 1)%nat =? DOT)
                  then take (length raw - 1) raw else raw in
      if (length host =? 0)%nat then None else Some host
  end.
Definition strip_slash (s : list Z) : list Z :=
  if (0 <? length s)%nat && (s !!! (length s - 1)%nat =? SLASH) then take (length s - 1) s else s.
Definition origin_entry_matches (origin entry : list Z) : bool :=
  let o := strip_slash origin in
  let e := strip_slash entry in
  (length o =? length e)%nat && (0 <? length o)%nat && ieq_n o e.
Definition same_origin_host (url host_hdr : option (list Z)) : bool :=
  match host_part url, host_part host_hdr with
  | Some u, Some h => (length u =? length h)%nat && ieq_n u h
  | _, _ => false
  end.
Fixpoint extras_loop (fuel : nat) (origin p : list Z) : bool :=
  match fuel with
  | O => false
  | S fuel =>
      match p with
      | [] => false
      | _ =>
          let sep c := (c =? COMMA) || (c =? SPACE) in
          let '(entry, rest) := span sep (skip sep p) in
          if (0 <? length entry)%nat && origin_entry_matches origin entry then true
          else extras_loop fuel origin rest
      end
  end.
Definition ws_origin_allowed (origin host_hdr extra_origins : option (list Z)) : bool :=
  match origin with
  | None | Some [] => true
  | Some o =>
      if bool_decide (is_Some (strstr (str_bytes "://") o)) && same_origin_host origin host_hdr then true
      else match extra_origins with
           | Some extra => extras_loop (S (length extra)) o extra
           | None => false
           end
  end.
Definition ws_config_post_allowed (origin referer host_hdr extra_origins : option (list Z)) : bool :=
  match origin with
  | Some (_ :: _) => ws_origin_allowed origin host_hdr extra_origins
  | _ =>
      match referer with
      | Some ((_ :: _) as r) =>
          if bool_decide (strstr (str_bytes "://") r = None) then false else same_origin_host referer host_hdr
      | _ => true
      end
  end.

(** ** [ws_auth_credential.c] *)

Definition blank (c : Z) : bool := (c =? SPACE) || (c =? TAB).
Definition copy_token (tok : list Z) (out_len : nat) : option (list Z) :=
  if (length tok =? 0)%nat || (out_len <? length tok + 1)%nat then None else Some tok.
Definition SUBPROTO_AUTH_PREFIX : list Z := str_bytes "bramble.v1.auth.".
Fixpoint subprotocol_loop (fuel : nat) (p : list Z) (out_len : nat) : option (list Z) :=
  match fuel with
  | O => None
  | S fuel =>
      match p with
      | [] => None
      | _ =>
          let '(raw, rest) := span (λ c, c =? COMMA) (skip (λ c, blank c || (c =? COMMA)) p) in
          let entry := trim blank raw in
          if (length SUBPROTO_AUTH_PREFIX <? length entry)%nat && has_prefix entry SUBPROTO_AUTH_PREFIX
          then copy_token (drop (length SUBPROTO_AUTH_PREFIX) entry) out_len
          else subprotocol_loop fuel rest out_len
      end
  end.
Definition ws_auth_extract_token (authorization subprotocols : option (list Z)) (out_len : nat)
    : option (list Z) :=
  if (out_len =? 0)%nat then None else
  let bearer := match authorization with Some a => has_prefix a (str_bytes "Bearer ") | None => false end in
  if bearer then copy_token (trim blank (skip blank (drop 7 (default [] authorization)))) out_len
  else match subprotocols with
       | Some p => subprotocol_loop (S (length p)) p out_len
       | None => None
       end.

(** ** [ct_strcmp.h] *)

Definition CT_STRCMP_BOUND : nat := 128.
(** The byte at [i] of a string of length [len], zero past its end. *)
Definition ct_byte (s : list Z) (len i : nat) : Z := if (i <? len)%nat then s !!! i else 0.
Definition ct_strcmp (a b : list Z) : Z :=
  let len_a := (length a `min` CT_STRCMP_BOUND)%nat in
  let len_b := (length b `min` CT_STRCMP_BOUND)%nat in
  foldl (λ diff i, u8 (Z.lor diff (u8 (Z.lxor (ct_byte a len_a i) (ct_byte b len_b i)))))
    (u8 (Z.lxor (Z.of_nat len_a) (Z.of_nat len_b))) (seq 0 CT_STRCMP_BOUND).

(** ** [rpc_auth.c] *)

Definition RPC_AUTH_TOKEN_MIN_LEN : nat := 16.
Definition k_unauth_allowlist : list (list Z) := [str_bytes "bramble.ping"; str_bytes "bramble.getVersion"].
Definition rpc_auth_token_len_ok (len : nat) : bool := (len =? 0)%nat || (RPC_AUTH_TOKEN_MIN_LEN <=? len)%nat.
Definition rpc_auth_notify_allowed (conn_authenticated auth_disabled : bool) : bool :=
  conn_authenticated || auth_disabled.
Fixpoint rpc_auth_notify_filter (clients : list (Z * bool)) (auth_disabled : bool) (max_out : nat) : list Z :=
  match clients, max_out with
  | (fd, authed) :: clients', S max' =>
      if rpc_auth_notify_allowed authed auth_disabled
      then fd :: rpc_auth_notify_filter clients' auth_disabled max'
      else rpc_auth_notify_filter clients' auth_disabled max_out
  | _, _ => []
  end.
Definition rpc_auth_method_allowed (method : option (list Z)) (authenticated : bool) : bool :=
  match method with
  | None => false
  | Some m => authenticated || bool_decide (m ∈ k_unauth_allowlist)
  end.

(** ** [rpc_dispatcher.c] *)

Definition RPC_ERR_PARSE : Z := -32700.
Definition RPC_ERR_INVALID_REQ : Z := -32600.
Definition RPC_ERR_NOT_FOUND : Z := -32601.
Definition RPC_ERR_INVALID_PARAMS : Z := -32602.
Definition RPC_ERR_INTERNAL : Z := -32603.
Definition RPC_ERR_RADIO : Z := -1001.
Definition RPC_ERR_CHANNEL : Z := -1002.
Definition RPC_ERR_RATE_LIMIT : Z := -1003.
Definition RPC_ERR_NOT_SUPPORTED : Z := -1004.
Definition RPC_ERR_UNAUTHORIZED : Z := -1005.
Definition error_message_for_code (code : Z) : list Z :=
  if code =? RPC_ERR_PARSE then str_bytes "Parse error"
  else if code =? RPC_ERR_INVALID_REQ then str_bytes "Invalid Request"
  else if code =? RPC_ERR_NOT_FOUND then str_bytes "Method not found"
  else if code =? RPC_ERR_INVALID_PARAMS then str_bytes "Invalid params"
  else if code =? RPC_ERR_INTERNAL then str_bytes "Internal error"
  else if code =? RPC_ERR_RADIO then str_bytes "Radio error"
  else if code =? RPC_ERR_CHANNEL then str_bytes "Channel error"
  else if code =? RPC_ERR_RATE_LIMIT then str_bytes "Rate limited"
  else if code =? RPC_ERR_NOT_SUPPORTED then str_bytes "Not supported"
  else if code =? RPC_ERR_UNAUTHORIZED then str_bytes "Unauthorized"
  else str_bytes "Error".

Inductive rpc_response (J : Type) :=
  | RpcError (id : option J) (code : Z) (message details : list Z)
  | RpcResult (id : option J) (result : J).
Arguments RpcError {J}.
Arguments RpcResult {J}.
(** [cJSON_Parse], [cJSON_GetObjectItem], the text of a string item,
    [cJSON_CreateObject], and [cJSON_PrintUnformatted] of a response. *)
Class Json := {
  json : Type;
  js_parse : list Z → option json;
  js_item : json → list Z → option json;
  js_string : json → option (list Z);
  js_object : json;
  js_print : rpc_response json → option (list Z) }.

Section Rpc.
Context `{JS : Json} {App : Type}.

(** A handler gets the parameters and fills the result. *)
Definition handler : Type := json → App → Z * json * App.
Definition rpc_register (max : nat) (methods : list (list Z * handler)) (method : list Z) (h : handler)
    : Z * list (list Z * handler) :=
  if (max <=? length methods)%nat then (-1, methods) else (0, methods ++ [(method, h)]).

(** The length returned, and the text written. *)
Definition put_response (r : rpc_response json) (out_len : nat) : Z * list Z :=
  match js_print r with
  | None => (-1, [])
  | Some out => if (out_len <=? length out)%nat then (-1, []) else (Z.of_nat (length out), out)
  end.
Definition format_error (id : option json) (code : Z) (message : list Z) (out_len : nat) : Z * list Z :=
  put_response (RpcError id code message []) out_len.
Definition too_large (id : option json) (len out_len : nat) : Z * list Z :=
  put_response (RpcError id RPC_ERR_INTERNAL (str_bytes "response too large")
    (take 79 (str_bytes "response needs " ++ dec (Z.of_nat len) ++ str_bytes " bytes, buffer is " ++
              dec (Z.of_nat out_len)))) out_len.
(** The response, what the handlers' state is then, and the method that was called. *)
Definition rpc_dispatch_authed (methods : list (list Z * handler)) (json_in : list Z) (out_len : nat)
    (authenticated : bool) (app : App) : (Z * list Z) * App * option (list Z) :=
  match js_parse json_in with
  | None => (format_error None RPC_ERR_PARSE (str_bytes "Parse error") out_len, app, None)
  | Some req =>
      let id := js_item req (str_bytes "id") in
      let invalid := (format_error id RPC_ERR_INVALID_REQ (str_bytes "Invalid Request") out_len, app, None) in
      if negb (bool_decide (js_item req (str_bytes "jsonrpc") ≫= js_string = Some (str_bytes "2.0"))) then invalid
      else match js_item req (str_bytes "method") ≫= js_string with
      | None => invalid
      | Some method =>
          if negb (rpc_auth_method_allowed (Some method) authenticated)
          then (format_error id RPC_ERR_UNAUTHORIZED (str_bytes "Unauthorized") out_len, app, None)
          else
            let params := default js_object (js_item req (str_bytes "params")) in
            match find (λ e, bool_decide (e.1 = method)) methods with
            | None => (format_error id RPC_ERR_NOT_FOUND (str_bytes "Method not found") out_len, app, None)
            | Some (_, h) =>
                let '(rc, result, app) := h params app in
                let response :=
                  if rc =? 0 then
                    match js_print (RpcResult id result) with
                    | None => (-1, [])
                    | Some out =>
                        if (out_len <=? length out)%nat then too_large id (length out) out_len
                        else (Z.of_nat (length out), out)
                    end
                  else format_error id rc (error_message_for_code rc) out_len in
                (response, app, Some method)
            end
      end
  end.
Definition rpc_dispatch (methods : list (list Z * handler)) (json_in : list Z) (out_len : nat) (app : App) :=
  rpc_dispatch_authed methods json_in out_len true app.

(** ** State of the server *)

Definition MAX_WS_CLIENTS : nat := 4.
Definition WS_BUF_SIZE : nat := 2048.
Definition WS_AUTH_TOKEN_MAX : nat := 128.
Definition WS_ORIGINS_MAX : nat := 256.
Definition NVS_KEY_AUTH_TOKEN : list Z := str_bytes "auth_token".
Definition NVS_KEY_AUTH_OFF : list Z := str_bytes "auth_off".
Definition NVS_KEY_WS_ORIGINS : list Z := str_bytes "ws_origins".

Record token_state := mk_tok { tk_token : list Z; tk_unavailable : bool; tk_pending : bool }.
Record notify_state := mk_nt { nt_burst : Z; nt_last_send_us : Z; nt_drops : Z; nt_last_log_us : Z }.
(** What the server does: a close frame, a call, a reply, a notification, an answer to
    a form, credentials saved. *)
Inductive ws_event :=
  | WsReject (fd : Z) (reason : string)
  | WsRan (fd : Z) (method : list Z)
  | WsReply (fd : Z) (text : list Z)
  | WsPong (fd : Z) (payload : list Z)
  | WsNotified (fd : Z) (text : list Z)
  | WsHttp (status : Z)
  | WsSaved (ssid pass : list Z).
(** The entropy gate is open when [ws_ready], and gives the bytes of [ws_source]. *)
Record ws_t := mk_ws {
  ws_up : bool; ws_clients : list (Z * bool); ws_tok : token_state; ws_extra : list Z; ws_flash : nvs_ns;
  ws_faults : list bool; ws_ready : bool; ws_source : nat → Z; ws_nt : notify_state; ws_app : App;
  ws_log : list ws_event }.
Definition wset_clients s x := mk_ws (ws_up s) x (ws_tok s) (ws_extra s) (ws_flash s) (ws_faults s) (ws_ready s)
  (ws_source s) (ws_nt s) (ws_app s) (ws_log s).
Definition wset_tok s x := mk_ws (ws_up s) (ws_clients s) x (ws_extra s) (ws_flash s) (ws_faults s) (ws_ready s)
  (ws_source s) (ws_nt s) (ws_app s) (ws_log s).
Definition wset_extra s x := mk_ws (ws_up s) (ws_clients s) (ws_tok s) x (ws_flash s) (ws_faults s) (ws_ready s)
  (ws_source s) (ws_nt s) (ws_app s) (ws_log s).
Definition wset_flash s x := mk_ws (ws_up s) (ws_clients s) (ws_tok s) (ws_extra s) x (ws_faults s) (ws_ready s)
  (ws_source s) (ws_nt s) (ws_app s) (ws_log s).
Definition wset_faults s x := mk_ws (ws_up s) (ws_clients s) (ws_tok s) (ws_extra s) (ws_flash s) x (ws_ready s)
  (ws_source s) (ws_nt s) (ws_app s) (ws_log s).
Definition wset_nt s x := mk_ws (ws_up s) (ws_clients s) (ws_tok s) (ws_extra s) (ws_flash s) (ws_faults s)
  (ws_ready s) (ws_source s) x (ws_app s) (ws_log s).
Definition wset_app s x := mk_ws (ws_up s) (ws_clients s) (ws_tok s) (ws_extra s) (ws_flash s) (ws_faults s)
  (ws_ready s) (ws_source s) (ws_nt s) x (ws_log s).
Definition wset_log s x := mk_ws (ws_up s) (ws_clients s) (ws_tok s) (ws_extra s) (ws_flash s) (ws_faults s)
  (ws_ready s) (ws_source s) (ws_nt s) (ws_app s) x.
Definition wset_up s x clients := mk_ws x clients (ws_tok s) (ws_extra s) (ws_flash s) (ws_faults s) (ws_ready s)
  (ws_source s) (ws_nt s) (ws_app s) (ws_log s).
Definition W := St ws_t.
Definition wget : W ws_t := sget.
Definition emit (e : ws_event) : W unit := smodify (λ s, wset_log s (ws_log s ++ [e])).
Definition access_ok : W bool :=
  s ← wget;
  smodify (λ s, wset_faults s (tail (ws_faults s))) ;;
  mret (match ws_faults s with [] => true | f :: _ => negb f end).

(** ** The token *)

Definition identity_ensure_ws_auth_token (token_out_len : nat) : W (Z * list Z) :=
  s ← wget;
  let old := tk_token (ws_tok s) in
  if (token_out_len <? 33)%nat then mret (IDENTITY_TOKEN_ERR_STORE, old) else
  opened ← access_ok;
  if negb opened then mret (IDENTITY_TOKEN_ERR_STORE, old)
  else if negb (default 0 (nvs_get_u8 (ws_flash s) NVS_KEY_AUTH_OFF) =? 0) then mret (0, [])
  else match nvs_get_str (ws_flash s) NVS_KEY_AUTH_TOKEN token_out_len with
  | Some ((_ :: _) as token) => mret (0, token)
  | _ =>
      match identity_mint_ws_auth_token (Some old) token_out_len (ws_ready s) (ws_source s) with
      | (rc, minted) =>
          if negb (rc =? 0) then mret (IDENTITY_TOKEN_ERR_ENTROPY, []) else
          let token := default [] minted in
          written ← access_ok;
          if negb written then mret (IDENTITY_TOKEN_ERR_STORE, []) else
          smodify (λ s, wset_flash s (nvs_set (ws_flash s) NVS_KEY_AUTH_TOKEN (NvStr token))) ;;
          committed ← access_ok;
          mret (if (committed : bool) then (1, token) else (IDENTITY_TOKEN_ERR_STORE, []))
      end
  end.
Definition ws_server_load_token : W unit :=
  '(rc, token) ← identity_ensure_ws_auth_token WS_AUTH_TOKEN_MAX;
  smodify (λ s, wset_tok s
    (if rc =? IDENTITY_TOKEN_ERR_ENTROPY then mk_tok [] true true
     else if rc <? 0 then mk_tok [] true false
     else mk_tok token false false)).
Definition auth_disabled (t : token_state) : bool := negb (tk_unavailable t) && (length (tk_token t) =? 0)%nat.
Definition ws_server_auth_disabled : W bool := sgets (λ s, auth_disabled (ws_tok s)).
Definition token_matches (t : token_state) (candidate : list Z) : bool :=
  negb (tk_unavailable t) && (ct_strcmp candidate (tk_token t) =? 0).
Definition ws_token_matches (candidate : list Z) : W bool := sgets (λ s, token_matches (ws_tok s) candidate).
Definition commit_token (ok : bool) : W Z :=
  committed ← (if ok then access_ok else mret false);
  if negb committed then mret RPC_ERR_INTERNAL
  else ws_server_load_token ;; mret 0.
(** [val] is the text of the parameter [token]. *)
Definition rpc_set_auth_token (val : option (list Z)) : W Z :=
  match val with
  | None => mret RPC_ERR_INVALID_PARAMS
  | Some val =>
      if (128 <=? length val)%nat then mret RPC_ERR_INVALID_PARAMS
      else if negb (rpc_auth_token_len_ok (length val)) then mret RPC_ERR_INVALID_PARAMS
      else
        opened ← access_ok;
        if negb opened then mret RPC_ERR_INTERNAL else
        flag ← access_ok;
        if negb flag then commit_token false else
        smodify (λ s, wset_flash s (nvs_set (ws_flash s) NVS_KEY_AUTH_OFF
          (NvU8 (if (length val =? 0)%nat then 1 else 0)))) ;;
        stored ← access_ok;
        if negb stored then commit_token false else
        smodify (λ s, wset_flash s (match val with
          | [] => nvs_erase (ws_flash s) NVS_KEY_AUTH_TOKEN
          | _ => nvs_set (ws_flash s) NVS_KEY_AUTH_TOKEN (NvStr val)
          end)) ;;
        commit_token true
  end.

(** ** Clients *)

Fixpoint client_index (clients : list (Z * bool)) (fd : Z) (i : nat) : option nat :=
  match clients with
  | [] => None
  | c :: clients' => if c.1 =? fd then Some i else client_index clients' fd (S i)
  end.
(** A socket that is known gets the new verdict; a full table takes no other. *)
Definition with_client (clients : list (Z * bool)) (fd : Z) (authed : bool) : list (Z * bool) :=
  match client_index clients fd 0 with
  | Some i => <[i := (fd, authed)]> clients
  | None => if (length clients <? MAX_WS_CLIENTS)%nat then clients ++ [(fd, authed)] else clients
  end.
Definition client_add (fd : Z) (authed : bool) : W unit :=
  smodify (λ s, wset_clients s (with_client (ws_clients s) fd authed)).
Definition client_is_authed (clients : list (Z * bool)) (fd : Z) : bool :=
  match client_index clients fd 0 with Some i => (clients !!! i).2 | None => false end.
(** The last entry takes the place of the one that goes. *)
Definition without_client (clients : list (Z * bool)) (fd : Z) : list (Z * bool) :=
  match client_index clients fd 0 with
  | Some i => let n := (length clients - 1)%nat in take n (<[i := clients !!! n]> clients)
  | None => clients
  end.
Definition client_remove (fd : Z) : W unit := smodify (λ s, wset_clients s (without_client (ws_clients s) fd)).

(** ** The handshake *)

(** The headers of a request, and its socket. *)
Record ws_req := mk_req {
  rq_fd : Z; rq_authorization : option (list Z); rq_subprotocol : option (list Z); rq_origin : option (list Z);
  rq_host : option (list Z); rq_referer : option (list Z) }.
(** [httpd_req_get_hdr_value_str] into a zeroed buffer: whether the value was cut, and
    the string in the buffer. *)
Definition get_hdr (v : option (list Z)) (size : nat) : bool * list Z :=
  match v with
  | None => (false, [])
  | Some v => ((size <=? length v)%nat, take (size - 1) v)
  end.
Definition non_empty (s : list Z) : option (list Z) := match s with [] => None | _ => Some s end.

Inductive ws_auth_result_t := WS_AUTH_OK | WS_AUTH_NO_CREDS | WS_AUTH_BAD.
#[global] Instance auth_result_eq_dec : EqDecision ws_auth_result_t.
Proof. solve_decision. Defined.
Definition presented (rq : ws_req) : option (list Z) :=
  let authz := (get_hdr (rq_authorization rq) (WS_AUTH_TOKEN_MAX + 16)).2 in
  let subproto := (get_hdr (rq_subprotocol rq) (WS_AUTH_TOKEN_MAX + 32)).2 in
  ws_auth_extract_token (non_empty authz) (non_empty subproto) WS_AUTH_TOKEN_MAX.
Definition auth_eval (rq : ws_req) : W ws_auth_result_t :=
  s ← wget;
  swhen (tk_pending (ws_tok s)) ws_server_load_token ;;
  disabled ← ws_server_auth_disabled;
  if (disabled : bool) then mret WS_AUTH_OK else
  match presented rq with
  | None => mret WS_AUTH_NO_CREDS
  | Some token =>
      matches ← ws_token_matches token;
      mret (if (matches : bool) then WS_AUTH_OK else WS_AUTH_BAD)
  end.
(** [ESP_FAIL] is [false]. *)
Definition send_ws_policy_reject (fd : Z) (reason : string) : W bool :=
  emit (WsReject fd reason) ;; client_remove fd ;; mret false.
Definition ws_open (rq : ws_req) : W bool :=
  ar ← auth_eval rq;
  if bool_decide (ar = WS_AUTH_BAD) then send_ws_policy_reject (rq_fd rq) "unauthorized" else
  disabled ← ws_server_auth_disabled;
  let token_proven := bool_decide (ar = WS_AUTH_OK) && negb disabled in
  s ← wget;
  let '(cut, origin) := get_hdr (rq_origin rq) WS_ORIGINS_MAX in
  let host := (get_hdr (rq_host rq) 96).2 in
  if negb token_proven && (cut || negb (ws_origin_allowed (Some origin) (Some host) (Some (ws_extra s))))
  then send_ws_policy_reject (rq_fd rq) "origin not allowed"
  else client_add (rq_fd rq) (bool_decide (ar = WS_AUTH_OK)) ;; mret true.

(** ** Frames *)

Inductive ws_type := WS_TEXT | WS_BINARY | WS_CLOSE | WS_PING | WS_PONG.
#[global] Instance ws_type_eq_dec : EqDecision ws_type.
Proof. solve_decision. Defined.
(** A frame, and how the calls around it end: the two receptions, the two allocations
    and the transmission. *)
Record ws_frame := mk_frame {
  fr_type : ws_type; fr_payload : list Z; fr_probed : bool; fr_received : bool; fr_buf : bool; fr_resp_buf : bool;
  fr_sent : bool }.
Definition ws_receive (methods : list (list Z * handler)) (fd : Z) (f : ws_frame) : W bool :=
  let len := length (fr_payload f) in
  if negb (fr_probed f) then mret false
  else if (len =? 0)%nat && bool_decide (fr_type f = WS_TEXT) then mret true
  else if (WS_BUF_SIZE - 1 <? len)%nat then mret false
  else if negb (fr_buf f) then mret false
  else if negb (fr_received f) then mret false
  else match fr_type f with
  | WS_CLOSE => client_remove fd ;; mret true
  | WS_PING => emit (WsPong fd (fr_payload f)) ;; mret (fr_sent f)
  | WS_PONG | WS_BINARY => mret true
  | WS_TEXT =>
      if negb (fr_resp_buf f) then mret false else
      s ← wget;
      let '(resp_len, resp, app, ran) :=
        rpc_dispatch_authed methods (c_string (fr_payload f)) WS_BUF_SIZE (client_is_authed (ws_clients s) fd)
          (ws_app s) in
      smodify (λ s, wset_app s app) ;;
      (match ran with Some m => emit (WsRan fd m) | None => mret tt end) ;;
      swhen (resp_len >? 0)
        (emit (WsReply fd resp) ;; swhen (negb (fr_sent f)) (client_remove fd)) ;;
      mret true
  end.
Definition ws_close_fn (fd : Z) : W unit := client_remove fd.

(** ** Notifications *)

Definition WS_NOTIFY_BURST_MAX : Z := 8.
Definition WS_NOTIFY_MIN_INTERVAL_MS : Z := 50.
Definition WS_NOTIFY_DROP_LOG_INTERVAL_MS : Z := 10000.
(** [sent fd]: whether the frame could be queued for that client. *)
Definition ws_notify_cb (text : list Z) (now_us : Z) (sent : Z → bool) : W unit :=
  s ← wget;
  if negb (ws_up s) || (length (ws_clients s) =? 0)%nat then mret tt else
  let fds := rpc_auth_notify_filter (ws_clients s) (auth_disabled (ws_tok s)) MAX_WS_CLIENTS in
  if (length fds =? 0)%nat then mret tt else
  let n := ws_nt s in
  let burst := if u64 (now_us - nt_last_send_us n) >=? WS_NOTIFY_MIN_INTERVAL_MS * 1000 then 0 else nt_burst n in
  if burst >=? WS_NOTIFY_BURST_MAX then
    let log := u64 (now_us - nt_last_log_us n) >=? WS_NOTIFY_DROP_LOG_INTERVAL_MS * 1000 in
    smodify (λ s, wset_nt s (mk_nt burst (nt_last_send_us n) (if log then 0 else u32 (nt_drops n + 1))
      (if log then now_us else nt_last_log_us n)))
  else
    smodify (λ s, wset_nt s (mk_nt (u32 (burst + 1)) now_us (nt_drops n) (nt_last_log_us n))) ;;
    sfor (rev fds) (λ fd, if sent fd then emit (WsNotified fd text) else client_remove fd).

(** ** The setup form *)

Fixpoint url_decode (src : list Z) : list Z :=
  match src with
  | [] => []
  | c :: src' =>
      if c =? PLUS then SPACE :: url_decode src'
      else match src' with
           | a :: b :: src'' => if c =? 37 then u8 (strtoul16 [a; b]).1 :: url_decode src'' else c :: url_decode src'
           | _ => c :: url_decode src'
           end
  end.
(** The value after [name], cut at [max] bytes before it is decoded; [None] if the form
    has no such field. *)
Definition form_field (body name : list Z) (max : nat) : option (list Z) :=
  p ← strstr name body;
  Some (c_string (url_decode (take max (field 38 (drop (length name) p)).1))).
(** [body] is what was received, [saved] whether the credentials could be stored. *)
Definition config_post_handler (rq : ws_req) (body : list Z) (saved : bool) : W bool :=
  let reply status ok := emit (WsHttp status) ;; mret ok in
  if (length body =? 0)%nat then reply 400 false else
  let body := c_string (take 511 body) in
  let form_token := default [] (form_field body (str_bytes "token=") (WS_AUTH_TOKEN_MAX - 1)) in
  open_access ← ws_server_auth_disabled;
  ar ← (if (open_access : bool) then mret WS_AUTH_BAD else auth_eval rq);
  s ← wget;
  let token_proven := bool_decide (ar = WS_AUTH_OK) ||
    (negb (length form_token =? 0)%nat && token_matches (ws_tok s) form_token) in
  let '(cut_origin, origin) := get_hdr (rq_origin rq) WS_ORIGINS_MAX in
  let '(cut_referer, referer) := get_hdr (rq_referer rq) WS_ORIGINS_MAX in
  let host := (get_hdr (rq_host rq) 96).2 in
  if negb token_proven &&
     (cut_origin || cut_referer ||
      negb (ws_config_post_allowed (Some origin) (Some referer) (Some host) (Some (ws_extra s))))
  then reply 403 false
  else if negb token_proven && negb open_access then reply 401 false
  else
    let ssid := default [] (form_field body (str_bytes "ssid=") 32) in
    let pass := default [] (form_field body (str_bytes "pass=") 64) in
    if (length ssid =? 0)%nat then reply 400 false
    else if negb saved then reply 500 false
    else emit (WsSaved ssid pass) ;; reply 200 true.

(** ** The server *)

Definition ws_server_load_origins : W unit :=
  opened ← access_ok;
  smodify (λ s, wset_extra s
    (if (opened : bool) then default [] (nvs_get_str (ws_flash s) NVS_KEY_WS_ORIGINS WS_ORIGINS_MAX) else [])).
(** [started]: whether [httpd_start] succeeds. *)
Definition ws_server_start (started : bool) : W Z :=
  ws_server_load_token ;;
  ws_server_load_origins ;;
  s ← wget;
  if ws_up s then mret 0
  else if negb started then mret (-1)
  else smodify (λ s, wset_up s true (ws_clients s)) ;; mret 0.
Definition ws_server_stop : W unit := smodify (λ s, if ws_up s then wset_up s false [] else s).
End Rpc.
Arguments ws_t : clear implicits.
