(* ===== verification/WsServerSpec.v ===== *)
(** * Who gets to call

    Token comparison, the origin policy, and the histories of the WebSocket server:
    methods outside the allowlist run, and notifications go, only on connections
    that proved the device token. *)

From stdpp Require Import base strings numbers sets option decidable list.
From S2P Require Import Prelude Packet NetworkKey CString DmCrypto Identity IdentityStore Location MeshState MeshSend MeshSendSpec.
From S2P Require Import WsServer.

(** ** Comparing secrets *)

(** Equality of the bytes two strings are made of. *)
Definition bytes_eq (a b : list Z) : Prop := u8 <$> a = u8 <$> b.

Lemma u8_lxor a b : u8 (Z.lxor a b) = 0 ↔ u8 a = u8 b.
Proof.
  unfold u8. change 256 with (2 ^ 8). rewrite <- !Z.land_ones by lia.
  split.
  - intros H. apply Z.lxor_eq. rewrite <- H. apply Z.bits_inj'. intros n Hn.
    rewrite Z.lxor_spec, !Z.land_spec, Z.lxor_spec. by destruct (Z.testbit a n), (Z.testbit b n), (Z.testbit _ n).
  - intros H. apply Z.bits_inj'. intros n Hn. rewrite Z.land_spec, Z.lxor_spec, Z.bits_0.
    assert (E : Z.testbit (Z.land a (Z.ones 8)) n = Z.testbit (Z.land b (Z.ones 8)) n) by (by rewrite H).
    rewrite !Z.land_spec in E. by destruct (Z.testbit a n), (Z.testbit b n), (Z.testbit _ n).
Qed.
Lemma u8_lor a b : u8 (Z.lor (u8 a) (u8 b)) = 0 ↔ u8 a = 0 ∧ u8 b = 0.
Proof.
  assert (E : u8 (Z.lor (u8 a) (u8 b)) = Z.lor (u8 a) (u8 b)).
  { unfold u8. change 256 with (2 ^ 8). rewrite <- !Z.land_ones by lia. apply Z.bits_inj'. intros n Hn.
    rewrite !Z.land_spec, Z.lor_spec, !Z.land_spec. by destruct (Z.testbit a n), (Z.testbit b n), (Z.testbit _ n). }
  rewrite E. apply Z.lor_eq_0_iff.
Qed.
Lemma fold_diff (f : nat → Z) l d :
  foldl (λ diff i, u8 (Z.lor diff (u8 (f i)))) (u8 d) l = 0 ↔ u8 d = 0 ∧ Forall (λ i, u8 (f i) = 0) l.
Proof.
  revert d. induction l as [|i l IH]; intros d; cbn [foldl]; [by split; [|by intros [? _]]|].
  rewrite IH, u8_lor, Forall_cons. tauto.
Qed.
Lemma ct_strcmp_spec a b : (length a < CT_STRCMP_BOUND)%nat → ct_strcmp a b = 0 ↔ bytes_eq a b.
Proof.
  intros Ha. unfold ct_strcmp, bytes_eq. rewrite fold_diff.
  set (la := (length a `min` CT_STRCMP_BOUND)%nat). set (lb := (length b `min` CT_STRCMP_BOUND)%nat).
  assert (Hla : la = length a) by lia. assert (Hlb : (lb <= CT_STRCMP_BOUND)%nat) by lia.
  assert (Hb : ∀ n : nat, (n <= CT_STRCMP_BOUND)%nat → u8 (Z.of_nat n) = Z.of_nat n).
  { intros n Hn. unfold u8. apply Z.mod_small. unfold CT_STRCMP_BOUND in Hn. lia. }
  rewrite u8_lxor, !Hb by lia. split.
  - intros [Hl Hf]. assert (E : length a = length b) by lia.
    apply list_eq_same_length with (length a); [by rewrite length_fmap|by rewrite length_fmap|].
    intros i x y Hi. rewrite !list_lookup_fmap. intros (x0 & Hx & ->)%fmap_Some (y0 & Hy & ->)%fmap_Some.
    assert (Hin : i ∈ seq 0 CT_STRCMP_BOUND) by (apply elem_of_seq; lia).
    pose proof (proj1 (list.Forall_forall _ _) Hf i Hin) as H. cbv beta in H. apply u8_lxor in H.
    unfold ct_byte in H. rewrite !(proj2 (Nat.ltb_lt _ _)) in H by lia.
    apply list_lookup_total_correct in Hx, Hy. by rewrite Hx, Hy in H.
  - intros E. assert (El : length a = length b) by (rewrite <- (length_fmap u8 a), E; by rewrite length_fmap).
    split; [lia|]. apply list.Forall_forall. intros i _. apply u8_lxor. unfold ct_byte. replace lb with la by lia.
    destruct (Nat.ltb_spec i la); [|done].
    destruct (lookup_lt_is_Some_2 a i) as [x Hx]; [lia|]. destruct (lookup_lt_is_Some_2 b i) as [y Hy]; [lia|].
    rewrite (list_lookup_total_correct _ _ _ Hx), (list_lookup_total_correct _ _ _ Hy).
    assert (Em : (u8 <$> a) !! i = (u8 <$> b) !! i) by (by rewrite E). rewrite !list_lookup_fmap, Hx, Hy in Em. by injection Em.
Qed.

(** A presented token is short enough for the comparison. *)
Lemma copy_token_short tok n t : copy_token tok n = Some t → t = tok ∧ (length t < n)%nat.
Proof.
  unfold copy_token. destruct ((length tok =? 0)%nat || _) eqn:E; [done|]. intros [= ->]. split; [done|].
  apply orb_false_iff in E as [_ E]. apply Nat.ltb_ge in E. lia.
Qed.
Lemma subprotocol_short fuel p n t : subprotocol_loop fuel p n = Some t → (length t < n)%nat.
Proof.
  revert p. induction fuel as [|fuel IH]; intros p; [done|]. cbn [subprotocol_loop]. destruct p as [|c p]; [done|].
  destruct (span _ _) as [raw rest]. case_match; [by intros [_ ?]%copy_token_short|apply IH].
Qed.
Lemma extract_short a p n t : ws_auth_extract_token a p n = Some t → (length t < n)%nat.
Proof.
  unfold ws_auth_extract_token. destruct (n =? 0)%nat; [done|].
  destruct (match a with Some _ => _ | None => _ end); [by intros [_ ?]%copy_token_short|].
  destruct p; [apply subprotocol_short|done].
Qed.

(** ** Clients *)

Lemma client_index_spec l fd k i : client_index l fd k = Some i → (k <= i)%nat ∧ ∃ b, l !! (i - k)%nat = Some (fd, b).
Proof.
  revert k. induction l as [|[f b] l IH]; intros k; cbn [client_index]; [done|]. cbn [fst].
  destruct (Z.eqb_spec f fd) as [->|]; [intros [= <-]; split; [done|]; rewrite Nat.sub_diag; by exists b|].
  intros [H1 [b' H2]]%IH. split; [lia|]. exists b'. replace (i - k)%nat with (S (i - S k))%nat by lia. done.
Qed.
Lemma client_is_authed_in l fd : client_is_authed l fd = true → (fd, true) ∈ l.
Proof.
  unfold client_is_authed. destruct (client_index l fd 0) as [i|] eqn:E; [|done].
  apply client_index_spec in E as (_ & b & Hb). rewrite Nat.sub_0_r in Hb.
  rewrite (list_lookup_total_correct _ _ _ Hb). cbn. intros ->. by eapply list_elem_of_lookup_2.
Qed.
Lemma without_client_in l fd c : c ∈ without_client l fd → c ∈ l.
Proof.
  unfold without_client. destruct (client_index l fd 0) as [i|] eqn:E; [|done].
  apply client_index_spec in E as (_ & b & Hb). rewrite Nat.sub_0_r in Hb. apply lookup_lt_Some in Hb as Hl.
  intros [j Hj]%list_elem_of_lookup. apply lookup_take_Some in Hj as [Hj _].
  apply list_lookup_insert_Some in Hj as [(_ & <- & _)|[_ Hj]]; [|by eapply list_elem_of_lookup_2].
  apply list_elem_of_lookup_2 with (length l - 1)%nat.
  destruct (lookup_lt_is_Some_2 l (length l - 1)) as [x Hx]; [lia|]. by rewrite (list_lookup_total_correct _ _ _ Hx).
Qed.
Lemma client_index_None l fd k : client_index l fd k = None → fd ∉ l.*1.
Proof.
  revert k. induction l as [|[f b] l IH]; intros k; cbn [client_index fst]; [by intros _ ?%elem_of_nil|].
  destruct (Z.eqb_spec f fd) as [->|Hn]; [done|]. intros H%IH. cbn. rewrite list.elem_of_cons. by intros [->|?].
Qed.
(** The last entry moves into the gap, so only the entry goes. *)
Lemma without_client_perm l fd i : client_index l fd 0 = Some i →
  ∃ b, (fd, b) :: without_client l fd ≡ₚ l.
Proof.
  intros E. unfold without_client. rewrite E. apply client_index_spec in E as (_ & b & Hb). rewrite Nat.sub_0_r in Hb.
  exists b. destruct (list_elem_of_split_length l i (fd, b) Hb) as (l1 & l2 & -> & ->). cbn zeta.
  rewrite length_app, insert_app_r_alt, Nat.sub_diag by done. cbn [length].
  destruct l2 as [|y l2 _] using rev_ind.
  - cbn [length]. rewrite Nat.add_1_r. cbn [Nat.sub]. rewrite Nat.sub_0_r, take_app_length.
    by rewrite Permutation_app_comm.
  - assert (El : (l1 ++ (fd, b) :: l2 ++ [y]) !!! (length l1 + S (length (l2 ++ [y])) - 1)%nat = y).
    { apply list_lookup_total_correct. rewrite length_app. cbn [length]. rewrite lookup_app_r by lia.
      replace (_ - _)%nat with (S (length l2)) by lia. cbn [lookup list_lookup].
      apply lookup_snoc_Some. by right. }
    rewrite El. cbn [insert list_insert]. rewrite length_app. cbn [length].
    replace (length l1 + S (length l2 + 1) - 1)%nat with (length l1 + S (length l2))%nat by lia.
    rewrite take_app_add. cbn [take]. rewrite take_app_length.
    rewrite Permutation_middle. apply Permutation_app_head. by rewrite perm_swap, Permutation_cons_append.
Qed.
Lemma without_client_unique l fd : NoDup l.*1 → NoDup (without_client l fd).*1 ∧ fd ∉ (without_client l fd).*1.
Proof.
  intros Hn. destruct (client_index l fd 0) as [i|] eqn:E.
  - destruct (without_client_perm l fd i E) as [b Hp]. rewrite <- Hp in Hn. apply NoDup_cons in Hn as [H1 H2]. done.
  - unfold without_client. rewrite E. split; [done|by eapply client_index_None].
Qed.
Lemma fmap_insert_same (l : list (Z * bool)) i fd b : (∃ c, l !! i = Some (fd, c)) → (<[i := (fd, b)]> l).*1 = l.*1.
Proof. intros [c Hc]. rewrite list_fmap_insert. apply list_insert_id. by rewrite list_lookup_fmap, Hc. Qed.
Lemma with_client_spec l fd b : NoDup l.*1 → NoDup (with_client l fd b).*1 ∧
  ∀ c, (fd, c) ∈ with_client l fd b → c = b.
Proof.
  intros Hn. unfold with_client. destruct (client_index l fd 0) as [i|] eqn:E.
  - apply client_index_spec in E as (_ & c0 & Hc). rewrite Nat.sub_0_r in Hc.
    rewrite fmap_insert_same by eauto. split; [done|]. intros c [j Hj]%list_elem_of_lookup.
    apply list_lookup_insert_Some in Hj as [(_ & [= ->] & _)|[Hne Hj]]; [done|]. destruct Hne.
    eapply (NoDup_lookup l.*1); [done| |]; rewrite list_lookup_fmap; [by rewrite Hc|by rewrite Hj].
  - apply client_index_None in E. destruct (_ <? _)%nat.
    + rewrite fmap_app. split.
      * apply NoDup_app. split_and!; [done| |apply NoDup_singleton]. intros x Hx ->%list_elem_of_singleton. done.
      * intros c. rewrite elem_of_app, list_elem_of_singleton. intros [Hc|[= ->]]; [|done].
        destruct E. apply list_elem_of_fmap. by exists (fd, c).
    + split; [done|]. intros c Hc. destruct E. apply list_elem_of_fmap. by exists (fd, c).
Qed.
Lemma with_client_in l fd b c : c ∈ with_client l fd b → c = (fd, b) ∨ c ∈ l.
Proof.
  unfold with_client. destruct (client_index l fd 0) as [i|].
  - intros [j [(_ & -> & _)|[_ Hj]]%list_lookup_insert_Some]%list_elem_of_lookup; [by left|right; by eapply list_elem_of_lookup_2].
  - destruct (_ <? _)%nat; [|by right]. rewrite elem_of_app, list_elem_of_singleton. tauto.
Qed.
Lemma authed_fd l fd (b : bool) : (fd, b) ∈ l → fd ∈ (l : list (Z * bool)).*1.
Proof. intros H. apply list_elem_of_fmap. by exists (fd, b). Qed.
Lemma notify_filter_in l dis max fd : fd ∈ rpc_auth_notify_filter l dis max → dis = true ∨ (fd, true) ∈ l.
Proof.
  revert max. induction l as [|[f b] l IH]; intros [|max]; cbn; try by intros ?%elem_of_nil.
  unfold rpc_auth_notify_allowed. destruct b; cbn [orb].
  - rewrite elem_of_cons. intros [->|[?|?]%IH]; [right; left|by left|right; by right].
  - destruct dis; [by left|]. intros [?|?]%IH; [by left|right; by right].
Qed.

(** ** Histories *)

Section Server.
Context `{JS : Json} {App : Type} (methods : list (list Z * @handler JS App)).
Implicit Types s : ws_t App.

(** What the server is put through: handshakes, frames, closed sockets, notifications,
    forms, a new token, reloads, and whatever else changes flash, its faults or the
    entropy gate. *)
Inductive ws_op :=
  | OpOpen (rq : ws_req) | OpFrame (fd : Z) (f : ws_frame) | OpClosed (fd : Z)
  | OpNotify (text : list Z) (now_us : Z) (sent : Z → bool) | OpForm (rq : ws_req) (body : list Z) (saved : bool)
  | OpSetToken (val : option (list Z)) | OpStart (started : bool) | OpStop
  | OpEnv (flash : nvs_ns) (faults : list bool) (ready : bool) (source : nat → Z).
Definition set_env flash faults ready source s : ws_t App :=
  mk_ws (ws_up s) (ws_clients s) (ws_tok s) (ws_extra s) flash faults ready source (ws_nt s) (ws_app s) (ws_log s).
Definition run_ws (op : ws_op) : St (ws_t App) unit :=
  match op with
  | OpOpen rq => ws_open rq ;; mret tt
  | OpFrame fd f => ws_receive methods fd f ;; mret tt
  | OpClosed fd => ws_close_fn fd
  | OpNotify text now_us sent => ws_notify_cb text now_us sent
  | OpForm rq body saved => config_post_handler rq body saved ;; mret tt
  | OpSetToken val => rpc_set_auth_token val ;; mret tt
  | OpStart started => ws_server_start started ;; mret tt
  | OpStop => ws_server_stop
  | OpEnv flash faults ready source => smodify (set_env flash faults ready source)
  end.

(** The clients and the log stay. *)
Definition same_ct s s' : Prop := ws_clients s' = ws_clients s ∧ ws_log s' = ws_log s ∧ ws_app s' = ws_app s.
Definition stays {A} (m : St (ws_t App) A) : Prop := ∀ s, swp m s (λ _ s', same_ct s s').
Lemma stays_ret {A} (x : A) : stays (mret x).
Proof. intros s. by apply swp_ret. Qed.
Lemma stays_bind {A B} (m : St (ws_t App) A) (k : A → St (ws_t App) B) :
  stays m → (∀ x, stays (k x)) → stays (m ≫= k).
Proof.
  intros Hm Hk s. apply swp_bind. eapply swp_mono; [apply Hm|]. cbv beta. intros x s1 (C1 & L1 & A1).
  eapply swp_mono; [apply Hk|]. cbv beta. intros y s2 (C2 & L2 & A2). unfold same_ct. by rewrite C2, L2, A2.
Qed.
Lemma stays_get : stays (@sget (ws_t App)).
Proof. intros s. by apply swp_get. Qed.
Lemma stays_modify f : (∀ s, same_ct s (f s)) → stays (smodify f).
Proof. intros Hf s. by apply swp_modify. Qed.
Ltac stay := repeat first
  [ apply stays_ret | apply stays_get | apply stays_bind; [|intros ?]
  | apply stays_modify; intros ?; by repeat split
  | match goal with |- stays (if ?b then _ else _) => destruct b end
  | match goal with |- stays (match ?o with _ => _ end) => destruct o end ].
Lemma stays_ok : stays access_ok.
Proof. unfold access_ok, wget. stay. Qed.
Lemma stays_load : stays ws_server_load_token.
Proof.
  unfold ws_server_load_token. apply stays_bind; [|intros [rc token]; stay].
  unfold identity_ensure_ws_auth_token, wget.
  apply stays_bind; [stay|]. intros s0. cbn zeta.
  destruct (_ <? _)%nat; [stay|]. apply stays_bind; [apply stays_ok|]. intros opened.
  destruct (negb opened); [stay|]. destruct (negb _); [stay|].
  assert (Hm : stays (match identity_mint_ws_auth_token (Some (tk_token (ws_tok s0))) WS_AUTH_TOKEN_MAX
      (ws_ready s0) (ws_source s0) with (rc, minted) =>
        if negb (rc =? 0) then mret (IDENTITY_TOKEN_ERR_ENTROPY, []) else
        let token := default [] minted in
        written ← access_ok;
        if negb written then mret (IDENTITY_TOKEN_ERR_STORE, []) else
        smodify (λ s, wset_flash s (nvs_set (ws_flash s) NVS_KEY_AUTH_TOKEN (NvStr token))) ;;
        committed ← access_ok;
        mret (if (committed : bool) then (1, token) else (IDENTITY_TOKEN_ERR_STORE, [])) end)).
  { destruct (identity_mint_ws_auth_token _ _ _ _) as [rc minted]. destruct (negb (rc =? 0)); [stay|]. cbn zeta.
    apply stays_bind; [apply stays_ok|]. intros written. destruct (negb written); [stay|].
    apply stays_bind; [stay|]. intros _. apply stays_bind; [apply stays_ok|]. intros c. stay. }
  destruct (nvs_get_str _ _ _) as [[|c token]|]; [exact Hm|stay|exact Hm].
Qed.
Lemma stays_set_token v : stays (rpc_set_auth_token v).
Proof.
  assert (Hc : ∀ ok, stays (commit_token ok)).
  { intros ok. unfold commit_token. apply stays_bind; [destruct ok; [apply stays_ok|stay]|]. intros c.
    destruct (negb c); [stay|]. apply stays_bind; [apply stays_load|]. intros _. stay. }
  unfold rpc_set_auth_token. destruct v as [v|]; [|stay]. destruct (_ <=? _)%nat; [stay|]. destruct (negb _); [stay|].
  apply stays_bind; [apply stays_ok|]. intros o. destruct (negb o); [stay|].
  apply stays_bind; [apply stays_ok|]. intros f. destruct (negb f); [apply Hc|].
  apply stays_bind; [stay|]. intros _. apply stays_bind; [apply stays_ok|]. intros st. destruct (negb st); [apply Hc|].
  apply stays_bind; [stay|]. intros _. apply Hc.
Qed.
Lemma stays_origins : stays ws_server_load_origins.
Proof. unfold ws_server_load_origins. apply stays_bind; [apply stays_ok|]. intros o. stay. Qed.

(** *** Authentication *)

(** The token state a request is judged by: a token that waits for entropy is minted first. *)
Definition judged s : ws_t App :=
  if tk_pending (ws_tok s) then match ws_server_load_token s with Some (_, s') => s' | None => s end else s.
(** The request presents the token in force, or none is required. *)
Definition proves (t : token_state) (token : list Z) : Prop :=
  tk_unavailable t = false ∧ bytes_eq token (tk_token t).
Definition admits s (rq : ws_req) : Prop :=
  let t := ws_tok (judged s) in
  auth_disabled t = true ∨ ∃ token, presented rq = Some token ∧ proves t token.
Lemma matches_proves t token : (length token < CT_STRCMP_BOUND)%nat → token_matches t token = true ↔ proves t token.
Proof.
  intros Hl. unfold token_matches, proves. rewrite andb_true_iff, negb_true_iff, Z.eqb_eq, ct_strcmp_spec by done. done.
Qed.
Lemma auth_eval_spec rq s : swp (auth_eval rq) s (λ r s', s' = judged s ∧ same_ct s s' ∧ (r = WS_AUTH_OK ↔ admits s rq) ∧
  (r = WS_AUTH_NO_CREDS → presented rq = None)).
Proof.
  unfold auth_eval, wget. apply swp_bind, swp_get. apply swp_bind.
  apply (swp_mono _ _ (λ _ s', s' = judged s ∧ same_ct s s')).
  { pose proof (stays_load s) as H. unfold swp, swhen, judged in *. destruct (tk_pending (ws_tok s)); [|done].
    destruct (ws_server_load_token s) as [[? s']|]; [done|done]. }
  cbv beta. intros _ s' [-> Hs]. apply swp_bind, swp_gets. unfold admits.
  destruct (auth_disabled (ws_tok (judged s))) eqn:Ed.
  { apply swp_ret. split; [done|]. split; [done|]. split; [|done]. split; [by left|done]. }
  destruct (presented rq) as [token|] eqn:Et.
  2: { apply swp_ret. split; [done|]. split; [done|]. split; [|done]. split; [done|]. by intros [?|(? & ? & _)]. }
  apply swp_bind, swp_gets, swp_ret. split; [done|]. split; [done|].
  assert (Hl : (length token < CT_STRCMP_BOUND)%nat) by (by apply extract_short in Et).
  pose proof (matches_proves (ws_tok (judged s)) token Hl) as Hm.
  destruct (token_matches _ token); (split; [|done]); split; try done.
  - intros _. right. exists token. split; [done|]. by apply Hm.
  - intros [?|(t & [= <-] & H)]; [done|]. by apply Hm in H.
Qed.

(** *** One step *)

(** Every socket has one entry. *)
Definition unique s : Prop := NoDup (ws_clients s).*1.
(** Since [s0], connections were admitted only as [G] says, and every event satisfies [J]. *)
Definition grows (J : ws_event → Prop) (G : Z → Prop) s0 s : Prop :=
  (∀ fd, (fd, true) ∈ ws_clients s → (fd, true) ∈ ws_clients s0 ∨ G fd) ∧
  (unique s0 → unique s) ∧
  ∃ new, ws_log s = ws_log s0 ++ new ∧ Forall J new.
Lemma grows_refl J G s : grows J G s s.
Proof. split; [by left|]. split; [done|]. exists []. by rewrite app_nil_r. Qed.
Lemma grows_same J G s0 s s' : grows J G s0 s → same_ct s s' → grows J G s0 s'.
Proof. intros (H1 & Hu & H2) (C & L & _). unfold grows, unique in *. by rewrite C, L. Qed.
Lemma grows_emit J G s0 s e : grows J G s0 s → J e → swp (emit e) s (λ _ s', grows J G s0 s').
Proof.
  intros (H1 & Hu & new & E & H2) He. apply swp_modify. split; [done|]. split; [done|]. exists (new ++ [e]). cbn. rewrite E, <- app_assoc.
  split; [done|]. apply Forall_app. split; [done|]. by constructor.
Qed.
Lemma grows_remove J G s0 s fd : grows J G s0 s → swp (client_remove fd) s (λ _ s', grows J G s0 s').
Proof.
  intros (H1 & Hu & H2). apply swp_modify. split; [intros f Hf%without_client_in; by apply H1|]. split; [|done].
  intros H0%Hu. by apply without_client_unique.
Qed.
Lemma grows_stays {A} J G s0 s (m : St (ws_t App) A) (Q : A → ws_t App → Prop) :
  stays m → grows J G s0 s → (∀ x s', grows J G s0 s' → Q x s') → swp m s Q.
Proof.
  intros Hm Hg HQ. eapply swp_mono; [apply Hm|]. cbv beta. intros x s' Hs. apply HQ. by eapply grows_same.
Qed.
Ltac emitting := eapply swp_mono; [by apply grows_emit|]; cbv beta; intros ? ? ?.

(** A form is accepted for the token, in a header or a field; on an open node for where it
    comes from. *)
Definition form_proves s (rq : ws_req) (body : list Z) : Prop :=
  auth_disabled (ws_tok s) = true ∧ ws_config_post_allowed (Some (get_hdr (rq_origin rq) WS_ORIGINS_MAX).2)
    (Some (get_hdr (rq_referer rq) WS_ORIGINS_MAX).2) (Some (get_hdr (rq_host rq) 96).2) (Some (ws_extra s)) = true ∨
  admits s rq ∨
  ∃ t token, (t = ws_tok s ∨ t = ws_tok (judged s)) ∧
    form_field (c_string (take 511 body)) (str_bytes "token=") (WS_AUTH_TOKEN_MAX - 1) = Some token ∧ token ≠ [] ∧
    proves t token.
Definition gains (op : ws_op) s (fd : Z) : Prop :=
  match op with OpOpen rq => fd = rq_fd rq ∧ admits s rq | _ => False end.
Definition allowed (op : ws_op) s (e : ws_event) : Prop :=
  match e with
  | WsRan fd m => (∃ f, op = OpFrame fd f) ∧ (m ∈ k_unauth_allowlist ∨ (fd, true) ∈ ws_clients s)
  | WsNotified fd text => (∃ now_us sent, op = OpNotify text now_us sent) ∧
      (auth_disabled (ws_tok s) = true ∨ (fd, true) ∈ ws_clients s)
  | WsSaved _ _ => ∃ rq body saved, op = OpForm rq body saved ∧ form_proves s rq body
  | _ => True
  end.

(** The connection on [fd] is over, or another one begins there. *)
Definition ends (op : ws_op) (fd : Z) s : Prop :=
  match op with
  | OpOpen rq => rq_fd rq = fd
  | OpClosed fd' => fd' = fd
  | OpFrame fd' f => fd' = fd ∧ fr_type f = WS_CLOSE ∧ fr_probed f = true ∧ fr_received f = true ∧ fr_buf f = true ∧
      (length (fr_payload f) < WS_BUF_SIZE)%nat
  | OpStop => ws_up s = true
  | _ => False
  end.
#[local] Instance ends_dec op fd s : Decision (ends op fd s).
Proof. destruct op; cbn; apply _. Defined.
Lemma remove_ends s fd s0 J G : grows J G s0 s → swp (client_remove fd) s (λ _ s',
  grows J G s0 s' ∧ (unique s0 → (fd, true) ∉ ws_clients s')).
Proof.
  intros Hg. pose proof (grows_remove J G s0 s fd Hg) as Hr. unfold swp, client_remove, smodify in *. split; [done|].
  intros Hq%Hg Hin. apply authed_fd in Hin. by apply (without_client_unique _ fd) in Hq as [_ ?].
Qed.
Lemma open_step rq s : swp (ws_open rq) s (λ _ s', grows (allowed (OpOpen rq) s) (gains (OpOpen rq) s) s s' ∧
  (unique s → (rq_fd rq, true) ∈ ws_clients s' → gains (OpOpen rq) s (rq_fd rq))).
Proof.
  unfold ws_open. apply swp_bind. eapply swp_mono; [apply auth_eval_spec|]. cbv beta.
  intros ar s1 (_ & Hs & Hok & _). pose proof (grows_same (allowed (OpOpen rq) s) (gains (OpOpen rq) s) s s s1 (grows_refl _ _ _) Hs) as Hg.
  assert (Hrej : ∀ reason, swp (send_ws_policy_reject (rq_fd rq) reason) s1 (λ _ s',
    grows (allowed (OpOpen rq) s) (gains (OpOpen rq) s) s s' ∧
    (unique s → (rq_fd rq, true) ∈ ws_clients s' → gains (OpOpen rq) s (rq_fd rq)))).
  { intros reason. unfold send_ws_policy_reject. apply swp_bind. emitting. apply swp_bind.
    eapply swp_mono; [by apply remove_ends|]. cbv beta. intros _ s3 [H3 Hno]. apply swp_ret. split; [done|].
    intros Hq Hin. by destruct (Hno Hq). }
  case_bool_decide as Eb; [apply Hrej|]. apply swp_bind, swp_gets. cbn zeta. apply swp_bind, swp_get.
  destruct (get_hdr (rq_origin rq) WS_ORIGINS_MAX) as [cut origin]. destruct (_ && (_ || _)); [apply Hrej|].
  apply swp_bind, swp_modify, swp_ret. destruct Hg as (H1 & Hu & H2).
  assert (Hnew : ∀ fd, (fd, true) = (rq_fd rq, bool_decide (ar = WS_AUTH_OK)) → gains (OpOpen rq) s fd).
  { intros fd [= -> E]. symmetry in E. apply bool_decide_eq_true in E. split; [done|]. by apply Hok. }
  destruct Hs as (C & _). pose proof (with_client_spec (ws_clients s) (rq_fd rq) (bool_decide (ar = WS_AUTH_OK))) as Hw.
  unfold grows. split_and!; cbn [ws_clients wset_clients].
  - intros fd [E|Hin]%with_client_in; [right; by apply Hnew|by apply H1].
  - unfold unique. cbn [ws_clients wset_clients]. rewrite C. intros Hq. by apply Hw.
  - exact H2.
  - intros Hq Hin. rewrite C in Hin. apply Hw in Hin as E; [|exact Hq]. apply Hnew. by rewrite <- E.
Qed.
Lemma dispatch_ran json_in out_len authed app resp app' ran :
  rpc_dispatch_authed methods json_in out_len authed app = (resp, app', ran) →
  (∀ m, ran = Some m → authed = true ∨ m ∈ k_unauth_allowlist) ∧ (ran = None → app' = app).
Proof.
  unfold rpc_dispatch_authed. destruct (js_parse json_in) as [req|]; [|by intros [= <- <- <-]]. cbn zeta.
  destruct (negb (bool_decide _)); [by intros [= <- <- <-]|]. destruct (_ ≫= js_string) as [method|]; [|by intros [= <- <- <-]].
  unfold rpc_auth_method_allowed. destruct (authed || _) eqn:Ea; cbn [negb]; [|by intros [= <- <- <-]].
  destruct (find _ methods) as [[k h]|]; [|by intros [= <- <- <-]].
  destruct (h _ app) as [[rc result] a']. intros [= <- <- <-]. split; [|done]. intros m [= <-].
  apply orb_true_iff in Ea as [Ea|Ea]; [by left|right]. by apply bool_decide_eq_true in Ea.
Qed.
Lemma frame_step fd f s : swp (ws_receive methods fd f) s (λ _ s',
  grows (allowed (OpFrame fd f) s) (gains (OpFrame fd f) s) s s' ∧
  (unique s → ends (OpFrame fd f) fd s → (fd, true) ∉ ws_clients s')).
Proof.
  set (J := allowed (OpFrame fd f) s). set (G := gains (OpFrame fd f) s). pose proof (grows_refl J G s) as Hg.
  set (Post := λ s' : ws_t App, grows J G s s' ∧ (unique s → ends (OpFrame fd f) fd s → (fd, true) ∉ ws_clients s')).
  assert (Hopen : ∀ s', (¬ ends (OpFrame fd f) fd s) → grows J G s s' → Post s') by (intros s' Hne ?; split; [done|]; by intros _ ?).
  unfold ws_receive. cbn zeta. cbn [ends] in Hopen.
  destruct (fr_probed f); cbn [negb]; [|apply swp_ret, Hopen; [naive_solver|done]].
  destruct (_ && bool_decide _) eqn:Et; [apply swp_ret, Hopen; [|done]|].
  { apply andb_true_iff in Et as [_ Et]. apply bool_decide_eq_true in Et. rewrite Et. by intros (_ & ? & _). }
  destruct (Nat.ltb_spec (WS_BUF_SIZE - 1) (length (fr_payload f))) as [Hlen|Hlen]; [apply swp_ret, Hopen; [|done]|].
  { intros (_ & _ & _ & _ & _ & ?). lia. }
  destruct (fr_buf f); cbn [negb]; [|apply swp_ret, Hopen; [naive_solver|done]].
  destruct (fr_received f); cbn [negb]; [|apply swp_ret, Hopen; [naive_solver|done]].
  destruct (fr_type f) eqn:Ety; try (apply swp_ret, Hopen; [naive_solver|done]).
  2: { apply swp_bind. eapply swp_mono; [by apply remove_ends|]. cbv beta. intros _ s1 [H1 Hno]. apply swp_ret. split; [done|auto]. }
  2: { apply swp_bind. emitting. apply swp_ret, Hopen; [naive_solver|done]. }
  eapply swp_mono; [|intros x s' Hs'; apply Hopen; [naive_solver|exact Hs']].
  destruct (negb (fr_resp_buf f)); [by apply swp_ret|]. apply swp_bind, swp_get.
  destruct (rpc_dispatch_authed _ _ _ _ _) as [[[resp_len resp] app] ran] eqn:E. apply dispatch_ran in E as [Hran _].
  apply swp_bind, swp_modify. set (s1 := wset_app s app). assert (H1 : grows J G s s1) by exact Hg.
  apply swp_bind. apply (swp_mono _ _ (λ _ s', grows J G s s')).
  { destruct ran as [m|]; [|by apply swp_ret]. apply grows_emit; [done|]. cbn.
    split; [by exists f|]. destruct (Hran m eq_refl) as [Ha|Hm]; [|by left]. right. by apply client_is_authed_in. }
  intros _ s2 H2. apply swp_bind. apply (swp_mono _ _ (λ _ s', grows J G s s')); [|intros _ s3 H3; by apply swp_ret].
  apply swp_when; [|done]. intros _. apply swp_bind. emitting. apply swp_when; [|done]. intros _. by apply grows_remove.
Qed.
Lemma notify_step text now_us sent s : swp (ws_notify_cb text now_us sent) s (λ _ s',
  grows (allowed (OpNotify text now_us sent) s) (gains (OpNotify text now_us sent) s) s s').
Proof.
  set (J := allowed _ s). set (G := gains _ s). pose proof (grows_refl J G s) as Hg.
  unfold ws_notify_cb. apply swp_bind, swp_get. destruct (_ || _); [by apply swp_ret|]. cbn zeta.
  destruct (length _ =? 0)%nat; [by apply swp_ret|]. destruct (_ >=? WS_NOTIFY_BURST_MAX); [by apply swp_modify|].
  apply swp_bind, swp_modify. apply (swp_for _ _ (λ s', grows J G s s')); [done|].
  intros fd s' Hfd Hs'.
  destruct (sent fd); [|by apply grows_remove]. apply grows_emit; [done|]. cbn. split; [by exists now_us, sent|].
  apply (notify_filter_in _ _ MAX_WS_CLIENTS). apply list_elem_of_In, in_rev. by apply list_elem_of_In.
Qed.
Lemma url_decode_length_fuel n : ∀ l, (length l <= n)%nat → (length (url_decode l) <= length l)%nat.
Proof.
  induction n as [|n IH]; intros [|c l] Hl; cbn in Hl; try (cbn; lia). cbn [url_decode].
  destruct (c =? PLUS); [cbn; specialize (IH l); lia|]. pose proof (IH l ltac:(lia)) as Hc.
  destruct l as [|a [|b l]]; [cbn; lia|cbn in *; lia|].
  destruct (c =? 37); [|cbn [length] in *; lia]. cbn [length] in *. specialize (IH l). lia.
Qed.
Lemma c_string_length l : (length (c_string l) <= length l)%nat.
Proof. induction l as [|c l IH]; cbn; [lia|]. destruct (c =? 0); cbn; lia. Qed.
Lemma form_field_short body name max v : form_field body name max = Some v → (length v <= max)%nat.
Proof.
  unfold form_field. destruct (strstr name body) as [p|]; [|done]. cbn [mbind option_bind]. intros [= <-].
  etransitivity; [apply c_string_length|]. etransitivity; [by eapply url_decode_length_fuel|]. rewrite length_take. lia.
Qed.
Lemma form_step rq body saved s : swp (config_post_handler rq body saved) s (λ _ s',
  grows (allowed (OpForm rq body saved) s) (gains (OpForm rq body saved) s) s s').
Proof.
  set (J := allowed _ s). set (G := gains _ s). pose proof (grows_refl J G s) as Hg.
  assert (Hreply : ∀ status (ok : bool) s', grows J G s s' →
    swp (emit (WsHttp status) ;; mret ok) s' (λ _ s'', grows J G s s'')).
  { intros status ok s' Hs'. apply swp_bind. emitting. by apply swp_ret. }
  unfold config_post_handler. cbn zeta. destruct (length body =? 0)%nat; [by apply Hreply|].
  set (form := form_field (c_string (take 511 body)) (str_bytes "token=") (WS_AUTH_TOKEN_MAX - 1)).
  apply swp_bind, swp_gets. apply swp_bind.
  apply (swp_mono _ _ (λ ar s', grows J G s s' ∧
    (if auth_disabled (ws_tok s) then ar = WS_AUTH_BAD ∧ s' = s else (ar = WS_AUTH_OK → admits s rq) ∧ s' = judged s))).
  { destruct (auth_disabled (ws_tok s)); [by apply swp_ret|]. eapply swp_mono; [apply auth_eval_spec|]. cbv beta.
    intros ar s' (-> & Hs & Hok & _). split; [by eapply grows_same|]. split; [apply Hok|done]. }
  intros ar s1 [Hg1 Har]. apply swp_bind, swp_get.
  assert (Hform : negb (length (default [] form) =? 0)%nat && token_matches (ws_tok s1) (default [] form) = true →
    ∃ token, form = Some token ∧ token ≠ [] ∧ proves (ws_tok s1) token).
  { intros [H1 H2]%andb_true_iff. destruct form as [token|] eqn:Ef; [|done]. exists token. split; [done|]. cbn in *.
    split; [by destruct token|]. apply matches_proves in H2; [done|]. apply form_field_short in Ef.
    unfold WS_AUTH_TOKEN_MAX, CT_STRCMP_BOUND in *. lia. }
  destruct (get_hdr (rq_origin rq) WS_ORIGINS_MAX) as [cut_o origin] eqn:Eo.
  destruct (get_hdr (rq_referer rq) WS_ORIGINS_MAX) as [cut_r referer] eqn:Er.
  set (proven := bool_decide (ar = WS_AUTH_OK) || _).
  destruct (negb proven && (cut_o || cut_r || _)) eqn:E1; [by apply Hreply|].
  destruct (negb proven && negb (auth_disabled (ws_tok s))) eqn:E2; [by apply Hreply|].
  destruct (length (default [] (form_field _ (str_bytes "ssid=") _)) =? 0)%nat; [by apply Hreply|].
  destruct (negb saved); [by apply Hreply|].
  apply swp_bind. eapply swp_mono; [apply grows_emit; [done|]|].
  2: { cbv beta. intros _ s2 H2. by apply Hreply. }
  cbn [allowed J]. exists rq, body, saved. split; [done|]. unfold form_proves. rewrite Eo, Er. cbn [snd].
  destruct proven eqn:Ep; cbn [negb andb] in *.
  - apply orb_true_iff in Ep as [Ep|Ep].
    + apply bool_decide_eq_true in Ep. destruct (auth_disabled (ws_tok s)) eqn:Ed; [by destruct Har as [-> _]|].
      right; left. by apply Har.
    + right; right. exists (ws_tok s1). destruct (Hform Ep) as (token & Hf & Hn & Hp). exists token.
      split; [|done]. destruct (auth_disabled (ws_tok s)); destruct Har as [_ ->]; auto.
  - apply negb_false_iff in E2. rewrite E2 in Har |- *. destruct Har as [_ ->]. left. split; [done|].
    apply orb_false_iff in E1 as [_ E1]. by apply negb_false_iff in E1.
Qed.
(** One step: what it may do, and that a connection it ends is not left authenticated. *)
Definition stepped (op : ws_op) s s' : Prop :=
  grows (allowed op s) (gains op s) s s' ∧
  ∀ fd, unique s → ends op fd s → (fd, true) ∈ ws_clients s' → gains op s fd.
Lemma ws_step op s : swp (run_ws op) s (λ _ s', stepped op s s').
Proof.
  assert (Hst : ∀ A (m : St (ws_t App) A), (∀ fd, ¬ ends op fd s) → stays m →
    swp (m ;; mret tt) s (λ _ s', stepped op s s')).
  { intros A m Hne Hm. apply swp_bind. eapply grows_stays; [done|apply grows_refl|]. intros x s' H. apply swp_ret.
    split; [exact H|]. intros fd _ Hend. by destruct (Hne fd). }
  destruct op; cbn [run_ws].
  - apply swp_bind. eapply swp_mono; [apply open_step|]. cbv beta. intros _ s' [H Hno]. apply swp_ret. split; [done|].
    intros fd Hq <- Hin. by apply Hno.
  - apply swp_bind. eapply swp_mono; [apply frame_step|]. cbv beta. intros _ s' [H Hno]. apply swp_ret. split; [done|].
    intros fd' Hq Hend Hin. pose proof Hend as [<- _]. by destruct (Hno Hq Hend).
  - eapply swp_mono; [apply remove_ends, grows_refl|]. cbv beta. intros _ s' [H Hno]. split; [done|].
    intros fd' Hq <- Hin. by destruct (Hno Hq).
  - eapply swp_mono; [apply notify_step|]. cbv beta. intros _ s' H. split; [done|]. by intros ? _ [].
  - apply swp_bind. eapply swp_mono; [apply form_step|]. cbv beta. intros _ s' H. apply swp_ret. split; [done|]. by intros ? _ [].
  - apply Hst; [by intros ? []|]. apply stays_set_token.
  - apply Hst; [by intros ? []|]. unfold ws_server_start. apply stays_bind; [apply stays_load|]. intros _.
    apply stays_bind; [apply stays_origins|]. intros _. unfold wget. stay.
  - apply swp_modify. unfold stepped. cbn [ends]. destruct (ws_up s); [|split; [apply grows_refl|done]].
    split; [|by intros fd _ _ ?%elem_of_nil]. split; [by intros fd ?%elem_of_nil|]. split; [intros _; constructor|].
    exists []. by rewrite app_nil_r.
  - apply swp_modify. split; [eapply grows_same; [apply grows_refl|done]|]. by intros ? _ [].
Qed.

(** *** All of them *)

Definition after (ops : list ws_op) s : ws_t App :=
  match sfor ops run_ws s with Some (_, s') => s' | None => s end.
Lemma after_snoc ops op s : swp (run_ws op) (after ops s) (λ _ s', s' = after (ops ++ [op]) s) ∧
  is_Some (sfor ops run_ws s).
Proof.
  assert (Hrun : ∀ l s, is_Some (sfor l run_ws s)).
  { intros l. induction l as [|o l IH]; intros s0; [by eexists|]. cbn [sfor]. unfold mbind, St_bind.
    pose proof (ws_step o s0) as H. unfold swp in H. destruct (run_ws o s0) as [[[] s1]|]; [apply IH|done]. }
  split; [|apply Hrun]. unfold after.
  assert (E : ∀ l s0 s1, sfor l run_ws s0 = Some (tt, s1) → sfor (l ++ [op]) run_ws s0 =
    match run_ws op s1 with Some (_, s2) => Some (tt, s2) | None => None end).
  { intros l. induction l as [|o l IH]; intros s0 s1; cbn [sfor app].
    - intros [= <-]. unfold mbind, St_bind. destruct (run_ws op s0) as [[[] s2]|]; done.
    - unfold mbind, St_bind. destruct (run_ws o s0) as [[[] s2]|]; [|done]. apply IH. }
  destruct (Hrun ops s) as [[[] s1] Es]. rewrite Es, (E ops s s1 Es). pose proof (ws_step op s1) as H. unfold swp in *.
  by destruct (run_ws op s1) as [[[] s2]|].
Qed.
(** The connection now on [fd] was opened with a request that was admitted: after that
    handshake the history neither ends it nor opens another one on the same number. *)
Definition granted (ops : list ws_op) s (fd : Z) : Prop :=
  ∃ pre rq post, ops = pre ++ OpOpen rq :: post ∧ rq_fd rq = fd ∧ admits (after pre s) rq ∧
    ∀ post1 op post2, post = post1 ++ op :: post2 → ¬ ends op fd (after (pre ++ OpOpen rq :: post1) s).
(** An event comes from an operation of the history that, at its time, was entitled to it. *)
Definition justified (ops : list ws_op) s (e : ws_event) : Prop :=
  match e with
  | WsRan fd m => ∃ pre f post, ops = pre ++ OpFrame fd f :: post ∧ (m ∈ k_unauth_allowlist ∨ granted pre s fd)
  | WsNotified fd text => ∃ pre now_us sent post, ops = pre ++ OpNotify text now_us sent :: post ∧
      (auth_disabled (ws_tok (after pre s)) = true ∨ granted pre s fd)
  | WsSaved _ _ => ∃ pre rq body saved post, ops = pre ++ OpForm rq body saved :: post ∧ form_proves (after pre s) rq body
  | _ => True
  end.
Lemma granted_more ops op s fd : granted ops s fd → ¬ ends op fd (after ops s) → granted (ops ++ [op]) s fd.
Proof.
  intros (pre & rq & post & -> & Hfd & Ha & Hp) Hne. exists pre, rq, (post ++ [op]). split; [by rewrite <- app_assoc|].
  split; [done|]. split; [done|]. intros post1 op' post2 E. destruct post2 as [|o post2 _] using rev_ind.
  - apply app_inj_tail in E as [-> ->]. exact Hne.
  - rewrite app_comm_cons, app_assoc in E. apply app_inj_tail in E as [-> _]. by eapply Hp.
Qed.
Lemma justified_more ops op s e : justified ops s e → justified (ops ++ [op]) s e.
Proof.
  destruct e; cbn; try done.
  - intros (pre & f & post & -> & H). exists pre, f, (post ++ [op]). by rewrite <- app_assoc.
  - intros (pre & now_us & sent & post & -> & H). exists pre, now_us, sent, (post ++ [op]). by rewrite <- app_assoc.
  - intros (pre & rq & body & saved & post & -> & H). exists pre, rq, body, saved, (post ++ [op]). by rewrite <- app_assoc.
Qed.


(** The method table is hidden.  Without authentication a call outside the allowlist is
    answered the same, and changes nothing, whatever methods are registered. *)
Theorem methods_not_enumerable (other : list (list Z * @handler JS App)) json_in out_len app req method :
  js_parse json_in = Some req → js_item req (str_bytes "method") ≫= js_string = Some method →
  method ∉ k_unauth_allowlist →
  rpc_dispatch_authed methods json_in out_len false app = rpc_dispatch_authed other json_in out_len false app ∧
  (rpc_dispatch_authed methods json_in out_len false app).1.2 = app.
Proof.
  intros Hp Hm Hn. unfold rpc_dispatch_authed. rewrite Hp. cbn zeta. rewrite Hm. cbn [rpc_auth_method_allowed orb].
  rewrite (bool_decide_eq_false_2 (method ∈ _)) by done. cbn [negb]. by destruct (negb _).
Qed.
End Server.

(** ** The origin policy *)

(** The runs of characters between those that satisfy [sep]. *)
Fixpoint split_by (sep : Z → bool) (s : list Z) : list (list Z) :=
  match s with
  | [] => [[]]
  | c :: s' =>
      if sep c then [] :: split_by sep s'
      else match split_by sep s' with f :: fs => (c :: f) :: fs | [] => [[c]] end
  end.
Definition entry_sep (c : Z) : bool := (c =? COMMA) || (c =? SPACE).
(** The configured origins. *)
Definition entries (extra : list Z) : list (list Z) := filter (λ e, e ≠ []) (split_by entry_sep extra).

Lemma entries_skip s : entries (skip entry_sep s) = entries s.
Proof.
  induction s as [|c s IH]; [done|]. cbn [skip]. destruct (entry_sep c) eqn:E; [|done]. rewrite IH.
  unfold entries at 2. cbn [split_by]. rewrite E. by rewrite list.filter_cons_False by tauto.
Qed.
Lemma split_by_span s f r : span entry_sep s = (f, r) →
  split_by entry_sep s = f :: match r with [] => [] | _ :: r' => split_by entry_sep r' end.
Proof.
  revert f r. induction s as [|c s IH]; intros f r; cbn [span split_by]; [by intros [= <- <-]|].
  destruct (entry_sep c); [by intros [= <- <-]|]. destruct (span entry_sep s) as [f' r']. intros [= <- <-].
  by rewrite (IH _ _ eq_refl).
Qed.
Lemma entries_span s f r : span entry_sep s = (f, r) →
  entries s = (if decide (f = []) then [] else [f]) ++ entries r.
Proof.
  intros E. unfold entries at 1. rewrite (split_by_span _ _ _ E). rewrite list.filter_cons.
  destruct (span_eq _ _ _ _ E) as (_ & _ & Hr).
  assert (Er : filter (λ e : list Z, e ≠ []) match r with [] => [] | _ :: r' => split_by entry_sep r' end = entries r).
  { destruct r as [|c r']; [done|]. unfold entries. cbn [split_by]. rewrite (Hr c eq_refl).
    by rewrite list.filter_cons_False by tauto. }
  rewrite Er. by repeat case_decide.
Qed.
Lemma extras_loop_spec fuel o p : (length p < fuel)%nat →
  extras_loop fuel o p = existsb (origin_entry_matches o) (entries p).
Proof.
  revert p. induction fuel as [|fuel IH]; intros p Hl; [lia|]. cbn [extras_loop].
  destruct p as [|c p0] eqn:Ep; [done|]. rewrite <- Ep in *.
  change (λ c0, (c0 =? COMMA) || (c0 =? SPACE)) with entry_sep. rewrite <- entries_skip.
  destruct (span entry_sep (skip entry_sep p)) as [f r] eqn:Es. rewrite (entries_span _ _ _ Es).
  destruct (span_eq _ _ _ _ Es) as (Eq & _ & _).
  pose proof (skip_length entry_sep p) as Hs. rewrite Eq, length_app in Hs.
  case_decide as Hf.
  - subst f. cbn [length Nat.ltb Nat.leb andb app] in *.
    assert (Hr : (length r < length p)%nat).
    { destruct r as [|d r']; [rewrite Ep; cbn; lia|]. exfalso.
      assert (Hd : ∀ l, head (skip entry_sep l) = Some d → entry_sep d = false).
      { intros l. induction l as [|e l IHl]; [done|]. cbn [skip]. destruct (entry_sep e) eqn:Ee; [done|]. by intros [= <-]. }
      destruct (span_eq _ _ _ _ Es) as (E1 & _ & H2). specialize (Hd p). rewrite E1 in Hd.
      rewrite (H2 d eq_refl) in Hd. by specialize (Hd eq_refl). }
    apply IH. lia.
  - destruct f as [|x f]; [done|]. cbn [length app existsb] in *. change (0 <? S (length f))%nat with true. cbn [andb].
    destruct (origin_entry_matches o (x :: f)); [done|]. cbn [orb]. apply IH. lia.
Qed.

(** A host name: not empty, no bracket at its start, none of the characters that end
    one, and no final dot. *)
Definition host_ok (h : list Z) : Prop :=
  h ≠ [] ∧ hd 0 h ≠ BRACKET_OPEN ∧ Forall (λ c, c ≠ COLON ∧ c ≠ SLASH ∧ c ≠ AT) h ∧ last h ≠ Some DOT.
(** What may follow it: nothing, a port or a path. *)
Definition host_tail (t : list Z) : Prop := t = [] ∨ ∃ c t', t = c :: t' ∧ (c = COLON ∨ c = SLASH).
Lemma span_stop stop f r : Forall (λ c, stop c = false) f → (∀ c, head r = Some c → stop c = true) → span stop (f ++ r) = (f, r).
Proof.
  intros Hf Hr. induction Hf as [|c f Hc Hf IH]; cbn [app span].
  - destruct r as [|c r]; [done|]. cbn [span]. by rewrite (Hr c eq_refl).
  - rewrite Hc. by rewrite IH.
Qed.
Lemma strstr_scheme scheme rest : Forall (λ c, c ≠ COLON) scheme →
  strstr (str_bytes "://") (scheme ++ str_bytes "://" ++ rest) = Some (str_bytes "://" ++ rest).
Proof.
  intros H. induction H as [|c s Hc Hs IH]; [done|]. cbn [app strstr].
  assert (E : has_prefix (c :: s ++ str_bytes "://" ++ rest) (str_bytes "://") = false).
  { unfold has_prefix. apply bool_decide_eq_false_2. intros E. by injection E as E _. }
  change (String.append "" "://") with "://"%string. by rewrite E.
Qed.
Lemma host_part_ok s h t :
  match strstr (str_bytes "://") s with Some p => drop 3 p | None => s end = h ++ t → s ≠ [] →
  host_ok h → host_tail t → host_part (Some s) = Some h.
Proof.
  intros Es Hs (Hn & Hb & Hc & Hd) Ht. unfold host_part. destruct s as [|c0 s0] eqn:E0; [done|]. rewrite <- E0 in *. cbn zeta.
  rewrite Es. assert (Eh : hd 0 (h ++ t) = hd 0 h) by (by destruct h). rewrite Eh.
  rewrite (proj2 (Z.eqb_neq _ _)) by done.
  rewrite (span_stop _ h t).
  - assert (Et : (hd 0 t =? AT) = false).
    { apply Z.eqb_neq. destruct Ht as [->|(c & t' & -> & [-> | ->])]; done. }
    rewrite Et. cbn [mbind option_bind].
    assert (El : (1 <? length h)%nat && (h !!! (length h - 1)%nat =? DOT) = false).
    { apply andb_false_iff. right. apply Z.eqb_neq. intros E. apply Hd. rewrite last_lookup, <- Nat.sub_1_r, <- E.
      apply list_lookup_lookup_total_lt. destruct h; [done|cbn; lia]. }
    rewrite El. by destruct h.
  - eapply Forall_impl; [exact Hc|]. intros c (H1 & H2 & H3). cbn beta.
    by rewrite !(proj2 (Z.eqb_neq _ _)) by done.
  - intros c. destruct Ht as [->|(d & t' & -> & Hd')]; [done|]. intros [= <-].
    destruct Hd' as [-> | ->]; reflexivity.
Qed.

(** Browsers are let in by origin.  For an origin with a scheme, a host name and
    whatever follows it, and a [Host] header with a host name, a connection or form
    without the token passes exactly when the two host names agree, case aside, or one
    of the configured origins is the origin, case and a final slash aside. *)
Theorem origins_checked scheme host tail h htail extra :
  Forall (λ c, c ≠ COLON) scheme → host_ok host → host_tail tail → host_ok h → host_tail htail →
  strstr (str_bytes "://") (h ++ htail) = None →
  let origin := scheme ++ str_bytes "://" ++ host ++ tail in
  ws_origin_allowed (Some origin) (Some (h ++ htail)) (Some extra) = true ↔
  tolower <$> host = tolower <$> h ∨ ∃ entry, entry ∈ entries extra ∧ origin_entry_matches origin entry = true.
Proof.
  intros Hs Hh Ht Hh' Ht' Hno origin. pose proof (strstr_scheme scheme (host ++ tail) Hs) as Estr. fold origin in Estr.
  assert (Hne : origin ≠ []) by (unfold origin; by destruct scheme).
  assert (Eo : host_part (Some origin) = Some host).
  { apply (host_part_ok origin host tail); try done. by rewrite Estr. }
  assert (Eh : host_part (Some (h ++ htail)) = Some h).
  { apply (host_part_ok _ h htail); try done; [by rewrite Hno|]. destruct Hh' as [? _]. by destruct h. }
  unfold ws_origin_allowed. destruct origin as [|c o] eqn:Eq; [done|]. rewrite <- Eq in *.
  rewrite Estr, bool_decide_eq_true_2 by (by eexists). unfold same_origin_host. rewrite Eo, Eh. cbn [andb].
  rewrite extras_loop_spec by lia.
  assert (Hex : existsb (origin_entry_matches origin) (entries extra) = true ↔
    ∃ entry, entry ∈ entries extra ∧ origin_entry_matches origin entry = true).
  { rewrite existsb_exists. split; intros (e & He & Hm); exists e; (split; [|done]); by apply list_elem_of_In. }
  assert (Hi : (length host =? length h)%nat && ieq_n host h = true ↔ tolower <$> host = tolower <$> h).
  { unfold ieq_n. rewrite andb_true_iff, bool_decide_eq_true, Nat.eqb_eq. split; [by intros [_ ?]|]. intros E.
    split; [|exact E]. rewrite <- (length_fmap tolower host), E. by rewrite length_fmap. }
  destruct ((length host =? length h)%nat && ieq_n host h).
  - split; [|done]. intros _. left. by apply Hi.
  - rewrite Hex. split; [by right|]. intros [?%Hi|?]; done.
Qed.

(** ** Examples *)

(** Requests are the bare text of a method, objects lists of fields. *)
Definition toy_json : Json := {|
  json := list (list Z * list Z);
  js_parse := λ s, Some [(str_bytes "jsonrpc", str_bytes "2.0"); (str_bytes "method", s)];
  js_item := λ o k, match find (λ e, bool_decide (e.1 = k)) o with Some e => Some [e] | None => None end;
  js_string := λ o, match o with [e] => Some e.2 | _ => None end;
  js_object := [];
  js_print := λ r, Some (match r with RpcError _ _ m _ => m | RpcResult _ _ => str_bytes "ok" end) |}.
#[local] Existing Instance toy_json.

(** Calls of [bramble.reboot] are counted. *)
Definition toy_methods : list (list Z * @handler toy_json nat) :=
  [(str_bytes "bramble.ping", λ p n, (0, p, n)); (str_bytes "bramble.reboot", λ p n, (0, p, S n))].
Definition idle_server : ws_t nat :=
  mk_ws false [] (mk_tok [] true false) [] [(NVS_KEY_AUTH_TOKEN, NvStr (str_bytes "0123456789ABCDEF"))] [] true
    (λ _, 0) (mk_nt 0 0 0 0) 0%nat [].
Definition text_frame (m : string) : ws_frame := mk_frame WS_TEXT (str_bytes m) true true true true true.
Definition day : list ws_op :=
  [OpStart true;
   OpOpen (mk_req 7 (Some (str_bytes "Bearer 0123456789ABCDEF")) None (Some (str_bytes "https://far.example")) None None);
   OpOpen (mk_req 8 None None None None None);
   OpFrame 7 (text_frame "bramble.reboot"); OpFrame 8 (text_frame "bramble.reboot"); OpFrame 8 (text_frame "bramble.ping");
   OpNotify (str_bytes "hello") 100000 (λ _, true)].
Lemma day_log :
  ws_log (after toy_methods day idle_server) =
  [WsRan 7 (str_bytes "bramble.reboot"); WsReply 7 (str_bytes "ok"); WsReply 8 (str_bytes "Unauthorized");
   WsRan 8 (str_bytes "bramble.ping"); WsReply 8 (str_bytes "ok"); WsNotified 7 (str_bytes "hello")].
Proof. vm_compute. reflexivity. Qed.

Definition toy_request : list (list Z * list Z) :=
  [(str_bytes "jsonrpc", str_bytes "2.0"); (str_bytes "method", str_bytes "bramble.reboot")].
Lemma methods_not_enumerable_witness :
  rpc_dispatch_authed toy_methods (str_bytes "bramble.reboot") 2048 false 0%nat =
    rpc_dispatch_authed [] (str_bytes "bramble.reboot") 2048 false 0%nat ∧
  (rpc_dispatch_authed toy_methods (str_bytes "bramble.reboot") 2048 false 0%nat).1.2 = 0%nat.
Proof.
  apply (methods_not_enumerable toy_methods [] (str_bytes "bramble.reboot") 2048 0%nat toy_request
    (str_bytes "bramble.reboot")); [reflexivity|reflexivity|].
  apply (bool_decide_eq_false_1 (str_bytes "bramble.reboot" ∈ k_unauth_allowlist)). vm_compute. reflexivity.
Defined.

(** A page on the node's own host; a user name before a port passes as the host. *)
Lemma origins_checked_witness :
  let origin := str_bytes "http" ++ str_bytes "://" ++ str_bytes "Node.local" ++ str_bytes ":80@evil.example" in
  ws_origin_allowed (Some origin) (Some (str_bytes "node.local" ++ str_bytes ":80")) (Some []) = true ↔
  tolower <$> str_bytes "Node.local" = tolower <$> str_bytes "node.local" ∨
  ∃ entry, entry ∈ entries [] ∧ origin_entry_matches origin entry = true.
Proof.
  apply (origins_checked (str_bytes "http") (str_bytes "Node.local") (str_bytes ":80@evil.example")
    (str_bytes "node.local") (str_bytes ":80") []).
  - repeat (constructor; [discriminate|]). constructor.
  - split; [discriminate|]. split; [discriminate|]. split; [|discriminate].
    repeat (constructor; [split; [discriminate|split; discriminate]|]). constructor.
  - right. eexists _, _. split; [reflexivity|]. by left.
  - split; [discriminate|]. split; [discriminate|]. split; [|discriminate].
    repeat (constructor; [split; [discriminate|split; discriminate]|]). constructor.
  - right. eexists _, _. split; [reflexivity|]. by left.
  - reflexivity.
Defined.
Example user_name_passes_for_host :
  ws_origin_allowed (Some (str_bytes "http://node.local:80@evil.example")) (Some (str_bytes "node.local")) (Some []) = true.
Proof. vm_compute. reflexivity. Qed.
