(* ===== verification/Timezone.v ===== *)
(** * Local time ([components/timezone/bramble_tz.c], [tz_store.c])

    Civil dates as day numbers, the POSIX zone specification and its parser, the
    instants its transition rules name, the conversion of a UTC clock, and the stored
    specification.  Signed quotients round towards zero, unsigned arithmetic wraps;
    the signed sums of the parser, whose overflow C leaves undefined, wrap too. *)

From stdpp Require Import base strings numbers sets option decidable list.
From S2P Require Import Prelude NetworkKey CString ParkedRetry Location.

(** ** Civil dates *)

(** Days from 1970-01-01. *)
Definition days_from_civil (y m d : Z) : Z :=
  let y := if m <=? 2 then y - 1 else y in
  let era := Z.quot (if y >=? 0 then y else y - 399) 400 in
  let yoe := u32 (y - era * 400) in
  let doy := u32 (u32 (153 * u32 (m + (if m >? 2 then u32 (-3) else 9)) + 2) / 5 + d - 1) in
  let doe := u32 (yoe * 365 + yoe / 4 - yoe / 100 + doy) in
  era * 146097 + doe - 719468.
(** Year, month and day. *)
Definition civil_from_days (z : Z) : Z * Z * Z :=
  let z := z + 719468 in
  let era := Z.quot (if z >=? 0 then z else z - 146096) 146097 in
  let doe := u32 (z - era * 146097) in
  let yoe := u32 (doe - doe / 1460 + doe / 36524 - doe / 146096) / 365 in
  let yy := yoe + era * 400 in
  let doy := u32 (doe - u32 (365 * yoe + yoe / 4 - yoe / 100)) in
  let mp := u32 (5 * doy + 2) / 153 in
  let dd := u32 (doy - u32 (153 * mp + 2) / 5 + 1) in
  let mm := u32 (mp + (if mp <? 10 then 3 else u32 (-9))) in
  (i32 (yy + (if mm <=? 2 then 1 else 0)), mm, dd).
Definition is_leap (y : Z) : bool :=
  ((Z.rem y 4 =? 0) && negb (Z.rem y 100 =? 0)) || (Z.rem y 400 =? 0).
Definition days_in_month (y m : Z) : Z :=
  if (m <? 1) || (m >? 12) then 0
  else if (m =? 2) && is_leap y then 29
  else [31; 28; 31; 30; 31; 30; 31; 31; 30; 31; 30; 31] !!! Z.to_nat (m - 1).
(** 0 is Sunday. *)
Definition weekday_from_days (days : Z) : Z :=
  let w := Z.rem (days + 4) 7 in if w <? 0 then w + 7 else w.

(** ** The specification *)

Definition BRAMBLE_TZ_SPEC_MAX : nat := 64.
Definition BRAMBLE_TZ_ABBREV_MAX : nat := 8.
Definition BRAMBLE_TZ_DEFAULT_SPEC : list Z := str_bytes "UTC0".

Inductive rule_kind_t := RULE_NONE | RULE_MWD | RULE_J | RULE_N.
#[global] Instance rule_kind_eq_dec : EqDecision rule_kind_t.
Proof. solve_decision. Defined.
Record tz_rule_t := mk_rule {
  ru_kind : rule_kind_t; ru_month : Z; ru_week : Z; ru_dow : Z; ru_doy : Z; ru_time_s : Z }.
Definition no_rule : tz_rule_t := mk_rule RULE_NONE 0 0 0 0 0.
Record tz_spec_t := mk_spec {
  tz_std_abbr : list Z; tz_dst_abbr : list Z; tz_std_off_s : Z; tz_dst_off_s : Z; tz_has_dst : bool;
  tz_start : tz_rule_t; tz_end : tz_rule_t }.

Definition is_alpha (c : Z) : bool := ((65 <=? c) && (c <=? 90)) || ((97 <=? c) && (c <=? 122)).
Definition is_digit (c : Z) : bool := (48 <=? c) && (c <=? 57).
(** A parser gives what it read and the rest of the string. *)
Definition parse_abbr (s : list Z) : option (list Z * list Z) :=
  '(name, rest) ←
    (if hd 0 s =? 60 then
       let '(f, r) := span (λ c, c =? 62) (drop 1 s) in
       if forallb (λ c, is_alpha c || is_digit c || (c =? PLUS) || (c =? DASH)) f && (hd 0 r =? 62)
       then Some (f, drop 1 r) else None
     else Some (span (λ c, negb (is_alpha c)) s));
  if (length name <? 3)%nat || (BRAMBLE_TZ_ABBREV_MAX - 1 <? length name)%nat then None
  else Some (name, rest).
Fixpoint hours_loop (digits : nat) (s : list Z) (hh : Z) : Z * list Z :=
  match digits, s with
  | S digits, c :: s' => if is_digit c then hours_loop digits s' (hh * 10 + (c - 48)) else (hh, s)
  | _, _ => (hh, s)
  end.
(** A colon and two digits below sixty, if there is a colon. *)
Definition parse_sixty (s : list Z) : option (Z * list Z) :=
  match s with
  | c :: s' =>
      if negb (c =? 58) then Some (0, s) else
      match s' with
      | a :: b :: rest =>
          if is_digit a && is_digit b
          then let v := (a - 48) * 10 + (b - 48) in if v >? 59 then None else Some (v, rest)
          else None
      | _ => None
      end
  | [] => Some (0, [])
  end.
Definition parse_hms (s : list Z) (hh_max : Z) : option (Z * list Z) :=
  let sign := if hd 0 s =? DASH then -1 else 1 in
  let s := if (hd 0 s =? PLUS) || (hd 0 s =? DASH) then drop 1 s else s in
  if negb (is_digit (hd 0 s)) then None else
  let '(hh, s) := hours_loop 3 s 0 in
  if hh >? hh_max then None else
  '(mm, ss, rest) ←
    (if hd 0 s =? 58
     then '(mm, s) ← parse_sixty s; '(ss, s) ← parse_sixty s; Some (mm, ss, s)
     else Some (0, 0, s));
  Some (sign * (hh * 3600 + mm * 60 + ss), rest).
Fixpoint number_loop (s : list Z) (v : Z) : Z * list Z :=
  match s with
  | c :: s' => if is_digit c then number_loop s' (i32 (v * 10 + (c - 48))) else (v, s)
  | [] => (v, [])
  end.
Definition parse_number (s : list Z) : option (Z * list Z) :=
  if negb (is_digit (hd 0 s)) then None else Some (number_loop s 0).
Definition skip_char (c : Z) (s : list Z) : option (list Z) :=
  match s with x :: s' => if x =? c then Some s' else None | [] => None end.
Definition parse_date (s : list Z) : option (tz_rule_t * list Z) :=
  if hd 0 s =? 77 then
    '(m, s) ← parse_number (drop 1 s);
    s ← skip_char DOT s;
    '(w, s) ← parse_number s;
    s ← skip_char DOT s;
    '(d, s) ← parse_number s;
    if (m <? 1) || (m >? 12) || (w <? 1) || (w >? 5) || (d <? 0) || (d >? 6) then None
    else Some (mk_rule RULE_MWD m w d 0 0, s)
  else if hd 0 s =? 74 then
    '(n, s) ← parse_number (drop 1 s);
    if (n <? 1) || (n >? 365) then None else Some (mk_rule RULE_J 0 0 0 n 0, s)
  else if is_digit (hd 0 s) then
    '(n, s) ← parse_number s;
    if n >? 365 then None else Some (mk_rule RULE_N 0 0 0 (n mod 65536) 0, s)
  else None.
Definition with_time (r : tz_rule_t) (t : Z) : tz_rule_t :=
  mk_rule (ru_kind r) (ru_month r) (ru_week r) (ru_dow r) (ru_doy r) t.
Definition parse_rule (s : list Z) : option (tz_rule_t * list Z) :=
  '(r, s) ← parse_date s;
  if hd 0 s =? SLASH
  then '(t, s) ← parse_hms (drop 1 s) 167; Some (with_time r t, s)
  else Some (with_time r (2 * 3600), s).
Definition parse_spec (spec : list Z) : option tz_spec_t :=
  if (length spec =? 0)%nat || (BRAMBLE_TZ_SPEC_MAX <=? length spec)%nat then None else
  '(std, p) ← parse_abbr spec;
  '(std_off, p) ← parse_hms p 24;
  match p with
  | [] => Some (mk_spec std [] std_off 0 false no_rule no_rule)
  | _ =>
      '(dst, p) ← parse_abbr p;
      '(dst_off, p) ← (if negb (hd 0 p =? 44) && negb (length p =? 0)%nat then parse_hms p 24
                       else Some (std_off - 3600, p));
      p ← skip_char 44 p;
      '(start, p) ← parse_rule p;
      p ← skip_char 44 p;
      '(end_, p) ← parse_rule p;
      match p with
      | [] => Some (mk_spec std dst std_off dst_off true start end_)
      | _ => None
      end
  end.

(** ** Transitions *)

Fixpoint fit_month (fuel : nat) (dom dim : Z) : Z :=
  match fuel with
  | O => dom
  | S fuel => if dom >? dim then fit_month fuel (dom - 7) dim else dom
  end.
(** A month has at least 28 days, so the loop turns at most once for the months and weeks the parser lets through. *)
Definition rule_days (r : tz_rule_t) (year : Z) : Z :=
  match ru_kind r with
  | RULE_MWD =>
      let first := days_from_civil year (ru_month r) 1 in
      let first_dow := weekday_from_days first in
      let dom := 1 + (u32 (ru_dow r + 7 - first_dow) mod 7) + 7 * (ru_week r - 1) in
      let dom := fit_month 6 dom (days_in_month year (ru_month r)) in
      days_from_civil year (ru_month r) dom
  | RULE_J =>
      let base := days_from_civil 1970 1 1 + ru_doy r - 1 in
      let '(_, bm, bd) := civil_from_days base in
      days_from_civil year bm bd
  | _ => days_from_civil year 1 1 + ru_doy r
  end.
Definition rule_instant_utc (r : tz_rule_t) (year off_s : Z) : Z :=
  rule_days r year * 86400 + ru_time_s r + off_s.

(** ** Conversion *)

Record bramble_tz_time_t := mk_time {
  ti_year : Z; ti_month : Z; ti_day : Z; ti_hour : Z; ti_minute : Z }.
Inductive bramble_tz_status_t := BRAMBLE_TZ_STD | BRAMBLE_TZ_DST | BRAMBLE_TZ_BAD_SPEC | BRAMBLE_TZ_BAD_TIME.

Definition bramble_tz_spec_valid (spec : list Z) : bool := bool_decide (is_Some (parse_spec spec)).
Definition valid_time (utc : bramble_tz_time_t) : bool :=
  negb ((ti_month utc <? 1) || (ti_month utc >? 12) || (ti_day utc <? 1) ||
    (ti_day utc >? days_in_month (ti_year utc) (ti_month utc)) || (ti_hour utc >? 23) || (ti_minute utc >? 59)).
Definition utc_seconds (utc : bramble_tz_time_t) : Z :=
  days_from_civil (ti_year utc) (ti_month utc) (ti_day utc) * 86400 + ti_hour utc * 3600 + ti_minute utc * 60.
Definition in_dst (tz : tz_spec_t) (year t : Z) : bool :=
  tz_has_dst tz &&
  let start := rule_instant_utc (tz_start tz) year (tz_std_off_s tz) in
  let end_ := rule_instant_utc (tz_end tz) year (tz_dst_off_s tz) in
  if start <=? end_ then (t >=? start) && (t <? end_) else (t >=? start) || (t <? end_).
Definition local_clock (local : Z) : bramble_tz_time_t :=
  let days := Z.quot local 86400 in
  let rem := Z.rem local 86400 in
  let '(days, rem) := if rem <? 0 then (days - 1, rem + 86400) else (days, rem) in
  let '(y, m, d) := civil_from_days days in
  mk_time y (u8 m) (u8 d) (u8 (Z.quot rem 3600)) (u8 (Z.quot (Z.rem rem 3600) 60)).
(** The status, and the local clock and the abbreviation if they were written. *)
Definition bramble_tz_localtime (spec : list Z) (utc : option bramble_tz_time_t) (abbrev_len : nat)
    : bramble_tz_status_t * option (bramble_tz_time_t * list Z) :=
  match parse_spec spec with
  | None => (BRAMBLE_TZ_BAD_SPEC, None)
  | Some tz =>
      match utc with
      | None => (BRAMBLE_TZ_BAD_TIME, None)
      | Some utc =>
          if negb (valid_time utc) then (BRAMBLE_TZ_BAD_TIME, None) else
          let t := utc_seconds utc in
          let dst := in_dst tz (ti_year utc) t in
          let off := if dst then tz_dst_off_s tz else tz_std_off_s tz in
          (if dst then BRAMBLE_TZ_DST else BRAMBLE_TZ_STD,
           Some (local_clock (t - off), take (abbrev_len - 1) (if dst then tz_dst_abbr tz else tz_std_abbr tz)))
      end
  end.

Definition k_presets : list (string * list Z) :=
  [("UTC", str_bytes "UTC0"); ("US Pacific", str_bytes "PST8PDT,M3.2.0,M11.1.0");
   ("US Mountain", str_bytes "MST7MDT,M3.2.0,M11.1.0"); ("US Arizona", str_bytes "MST7");
   ("US Central", str_bytes "CST6CDT,M3.2.0,M11.1.0"); ("US Eastern", str_bytes "EST5EDT,M3.2.0,M11.1.0");
   ("US Alaska", str_bytes "AKST9AKDT,M3.2.0,M11.1.0"); ("US Hawaii", str_bytes "HST10");
   ("UK", str_bytes "GMT0BST,M3.5.0/1,M10.5.0/2"); ("Central Europe", str_bytes "CET-1CEST,M3.5.0,M10.5.0/3");
   ("Eastern Europe", str_bytes "EET-2EEST,M3.5.0/3,M10.5.0/4"); ("India", str_bytes "IST-5:30");
   ("China", str_bytes "CST-8"); ("Japan", str_bytes "JST-9");
   ("Australia Eastern", str_bytes "AEST-10AEDT,M10.1.0,M4.1.0/3");
   ("New Zealand", str_bytes "NZST-12NZDT,M9.5.0,M4.1.0/3")].
Definition bramble_tz_preset (index : nat) : option (string * list Z) := k_presets !! index.

(** ** [tz_store.c] *)

Definition NVS_KEY_TZ : list Z := str_bytes "tz".
(** [opened] and [written]: whether the accesses to flash succeed. *)
Definition read_stored_spec (ns : nvs_ns) (opened : bool) : option (list Z) :=
  if negb opened then None
  else match nvs_get_str ns NVS_KEY_TZ BRAMBLE_TZ_SPEC_MAX with Some (_ :: _) as r => r | _ => None end.
Definition tz_store_get (ns : nvs_ns) (opened : bool) (out_len : nat) : list Z :=
  take (out_len - 1)
    (match read_stored_spec ns opened with
     | Some spec => if bramble_tz_spec_valid spec then spec else BRAMBLE_TZ_DEFAULT_SPEC
     | None => BRAMBLE_TZ_DEFAULT_SPEC
     end).
Definition tz_store_set (ns : nvs_ns) (opened written committed : bool) (spec : list Z) : Z * nvs_ns :=
  if negb (bramble_tz_spec_valid spec) then (-1, ns)
  else if negb opened then (-2, ns)
  else if negb written then (-2, ns)
  else (if committed then 0 else -2, nvs_set ns NVS_KEY_TZ (NvStr spec)).
Definition tz_store_is_configured (ns : nvs_ns) (opened : bool) : bool :=
  match read_stored_spec ns opened with Some spec => bramble_tz_spec_valid spec | None => false end.
