(* ===== verification/TimezoneSpec.v ===== *)
(** * Calendars and clocks

    The day numbers are the Gregorian calendar's, the transition rules name the days
    they say, the parser reads the POSIX grammar and nothing else, and the local clock is
    the UTC clock moved by the offset in force. *)

From stdpp Require Import base strings numbers sets option decidable list.
From S2P Require Import Prelude NetworkKey CString ParkedRetry Location LocationStoreSpec Timezone.

#[local] Ltac Zify.zify_post_hook ::= Z.to_euclidean_division_equations.

(** ** The calendar *)

Definition valid_date (y m d : Z) : Prop := 1 <= m <= 12 ∧ 1 <= d <= days_in_month y m.
Definition next_date (y m d : Z) : Z * Z * Z :=
  if d <? days_in_month y m then (y, m, d + 1) else if m <? 12 then (y, m + 1, 1) else (y + 1, 1, 1).
(** Years whose arithmetic stays within 32 bits. *)
Definition year_ok (y : Z) : Prop := -2000000000 <= y <= 2000000000.

Definition day_number (y m d : Z) : Z := days_from_civil y m d.
Definition date_number (p : Z * Z * Z) : Z := days_from_civil p.1.1 p.1.2 p.2.

(** The year that starts in March, and the month in it. *)
Definition march_year (y m : Z) : Z := if m <=? 2 then y - 1 else y.
Definition march_month (m : Z) : Z := if m >? 2 then m - 3 else m + 9.

Lemma quot_floor y : Z.quot (if y >=? 0 then y else y - 399) 400 = y / 400.
Proof. rewrite Z.geb_leb. destruct (Z.leb_spec 0 y); [by rewrite Z.quot_div_nonneg by lia|].
  assert (E : y - 399 = - (399 - y)) by lia. rewrite E, Z.quot_opp_l, Z.quot_div_nonneg by lia. lia. Qed.
Lemma quot_floor_days z : Z.quot (if z >=? 0 then z else z - 146096) 146097 = z / 146097.
Proof. rewrite Z.geb_leb. destruct (Z.leb_spec 0 z); [by rewrite Z.quot_div_nonneg by lia|].
  assert (E : z - 146096 = - (146096 - z)) by lia. rewrite E, Z.quot_opp_l, Z.quot_div_nonneg by lia. lia. Qed.
Lemma month_cases m : 1 <= m <= 12 → m = 1 ∨ m = 2 ∨ m = 3 ∨ m = 4 ∨ m = 5 ∨ m = 6 ∨ m = 7 ∨ m = 8 ∨ m = 9 ∨
  m = 10 ∨ m = 11 ∨ m = 12.
Proof. lia. Qed.
Ltac by_month H := apply month_cases in H;
  destruct H as [->|[->|[->|[->|[->|[->|[->|[->|[->|[->|[->| ->]]]]]]]]]]].
Lemma rem_mod_zero y n : 0 < n → Z.rem y n = 0 ↔ y mod n = 0.
Proof. intros Hn. rewrite Z.rem_divide, Z.mod_divide by lia. done. Qed.
Lemma leap_mod y : is_leap y = true ↔ (y mod 4 = 0 ∧ y mod 100 ≠ 0) ∨ y mod 400 = 0.
Proof. unfold is_leap. rewrite orb_true_iff, andb_true_iff, negb_true_iff, !Z.eqb_eq, Z.eqb_neq,
  (rem_mod_zero y 4), (rem_mod_zero y 100), (rem_mod_zero y 400) by lia. done. Qed.
Lemma dim_feb y : days_in_month y 2 = if is_leap y then 29 else 28.
Proof. unfold days_in_month. cbn. by destruct (is_leap y). Qed.
Lemma dim_range y m : 1 <= m <= 12 → 28 <= days_in_month y m <= 31.
Proof.
  intros H. by_month H; rewrite ?dim_feb; try (destruct (is_leap y); lia); split; vm_compute; discriminate.
Qed.

(** The day number without wrapping. *)
Lemma days_closed y m d : year_ok y → 1 <= m <= 12 → 1 <= d <= 31 →
  days_from_civil y m d =
  let Y := march_year y m in
  365 * Y + Y / 4 - Y / 100 + Y / 400 + (153 * march_month m + 2) / 5 + d - 1 - 719468.
Proof.
  intros Hy Hm Hd. unfold days_from_civil. fold (march_year y m). cbn zeta.
  assert (Hm' : u32 (m + (if m >? 2 then u32 (-3) else 9)) = march_month m).
  { unfold march_month. by_month Hm; reflexivity. }
  rewrite Hm', quot_floor. set (Y := march_year y m). assert (HM : 0 <= march_month m <= 11).
  { unfold march_month. destruct (m >? 2) eqn:E; lia. }
  set (M := march_month m) in *. unfold u32.
  rewrite (Z.mod_small (Y - _)) by lia. rewrite (Z.mod_small (153 * M + 2)) by lia.
  rewrite (Z.mod_small (_ / 5 + d - 1)) by lia. rewrite Z.mod_small by lia. lia.
Qed.
Ltac side := first [done | unfold year_ok in *; lia | cbn in *; lia].
Lemma dim_march y m : 1 <= m <= 12 → m ≠ 2 →
  days_in_month y m = (153 * (march_month m + 1) + 2) / 5 - (153 * march_month m + 2) / 5.
Proof. intros H Hn. by_month H; try done. Qed.
(** The days of the year that ends with February of year [y]. *)
Lemma year_step y : let Y := y - 1 in
  365 * (Y + 1) + (Y + 1) / 4 - (Y + 1) / 100 + (Y + 1) / 400 =
  365 * Y + Y / 4 - Y / 100 + Y / 400 + 337 + days_in_month y 2.
Proof.
  cbn zeta. rewrite dim_feb. pose proof (leap_mod y) as HL.
  destruct (is_leap y).
  - assert (y mod 4 = 0 ∧ y mod 100 ≠ 0 ∨ y mod 400 = 0) by tauto. lia.
  - assert (¬ (y mod 4 = 0 ∧ y mod 100 ≠ 0 ∨ y mod 400 = 0)) by (intros Hc; apply HL in Hc; done). lia.
Qed.
Lemma next_day y m d : year_ok y → year_ok (y + 1) → valid_date y m d →
  date_number (next_date y m d) = days_from_civil y m d + 1.
Proof.
  intros Hy Hy1 [Hm Hd]. pose proof (dim_range y m Hm) as Hr. unfold next_date, date_number.
  destruct (Z.ltb_spec d (days_in_month y m)) as [E|E]; cbn [fst snd].
  { rewrite !days_closed by side. cbn zeta. lia. }
  assert (d = days_in_month y m) as -> by lia. clear E Hd.
  destruct (Z.ltb_spec m 12) as [E12|E12]; cbn [fst snd].
  - rewrite !days_closed by side. cbn zeta. destruct (Z.eq_dec m 2) as [->|H2].
    + pose proof (year_step y) as Hs. cbn zeta in Hs. change (march_year y (2 + 1)) with y. change (march_year y 2) with (y - 1).
      change ((153 * march_month (2 + 1) + 2) / 5) with 0. change ((153 * march_month 2 + 2) / 5) with 337.
      replace (y - 1 + 1) with y in Hs by lia. lia.
    + rewrite (dim_march y m) by done.
      assert (march_year y (m + 1) = march_year y m) as -> by (unfold march_year; repeat case_match; lia).
      assert (march_month (m + 1) = march_month m + 1) as -> by (unfold march_month; repeat case_match; lia). lia.
  - assert (m = 12) as -> by lia. rewrite !days_closed by side. cbn zeta. rewrite (dim_march y 12) by done.
    change (march_year (y + 1) 1) with (y + 1 - 1). change (march_year y 12) with y.
    replace (y + 1 - 1) with y by lia. change (march_month 1) with 10. change (march_month 12) with 9. lia.
Qed.

(** *** From day numbers to dates *)

(** The year of the era from the day of the era. *)
Lemma year_of_era q doy : 0 <= q <= 399 → 0 <= doy <= 364 + (if is_leap (q + 1) then 1 else 0) →
  let doe := 365 * q + q / 4 - q / 100 + doy in
  (doe - doe / 1460 + doe / 36524 - doe / 146096) / 365 = q.
Proof.
  intros Hq Hd. pose proof (leap_mod (q + 1)) as HL. cbn zeta. set (doe := 365 * q + q / 4 - q / 100 + doy).
  assert (Hlim : doy <= 364 ∨ doy = 365 ∧ (q + 1) mod 4 = 0 ∧ ((q + 1) mod 100 ≠ 0 ∨ q = 399)).
  { destruct (is_leap (q + 1)); [|lia]. destruct (proj1 HL eq_refl); lia. }
  assert (Hdoy : 0 <= doy) by lia. clear HL Hd.
  assert (Hc : q / 100 = 0 ∨ q / 100 = 1 ∨ q / 100 = 2 ∨ q / 100 = 3) by lia.
  symmetry. apply Z.div_unique with (doe - doe / 1460 + doe / 36524 - doe / 146096 - 365 * q); [|lia]. left.
  unfold doe. destruct Hc as [E|[E|[E|E]]]; rewrite E; lia.
Qed.
Definition doy_of (m d : Z) : Z := (153 * march_month m + 2) / 5 + d - 1.
Lemma month_range m : 1 <= m <= 12 → 0 <= march_month m <= 11.
Proof. intros H. unfold march_month. destruct (Z.gtb_spec m 2); lia. Qed.
Lemma doy_range y m d : valid_date y m d →
  0 <= doy_of m d <= 364 + (if is_leap (march_year y m mod 400 + 1) then 1 else 0).
Proof.
  intros [Hm Hd]. unfold doy_of. pose proof (month_range m Hm) as HM. destruct (Z.eq_dec m 2) as [->|H2].
  - rewrite dim_feb in Hd. change ((153 * march_month 2 + 2) / 5) with 337. change (march_year y 2) with (y - 1).
    pose proof (leap_mod y) as L1. pose proof (leap_mod ((y - 1) mod 400 + 1)) as L2.
    destruct (is_leap y) eqn:E1, (is_leap ((y - 1) mod 400 + 1)) eqn:E2; lia.
  - rewrite (dim_march y m Hm H2) in Hd. assert (march_month m ≠ 11).
    { unfold march_month. destruct (Z.gtb_spec m 2); lia. }
    destruct (is_leap _); lia.
Qed.
Lemma month_of_doy y m d : valid_date y m d →
  let doy := doy_of m d in
  (5 * doy + 2) / 153 = march_month m ∧ doy - (153 * march_month m + 2) / 5 + 1 = d.
Proof.
  intros [Hm Hd]. unfold doy_of. cbn zeta. split; [|lia]. pose proof (dim_range y m Hm) as Hr.
  destruct (Z.eq_dec m 2) as [->|H2].
  - rewrite dim_feb in Hd. change (march_month 2) with 11. destruct (is_leap y); lia.
  - rewrite (dim_march y m Hm H2) in Hd. pose proof (month_range m Hm). lia.
Qed.
Lemma civil_of_days y m d : year_ok y → valid_date y m d → civil_from_days (days_from_civil y m d) = (y, m, d).
Proof.
  intros Hy Hv. pose proof Hv as [Hm Hd]. pose proof (dim_range y m Hm) as Hr.
  pose proof (doy_range y m d Hv) as Hdoy. pose proof (month_of_doy y m d Hv) as [Emp Edd]. cbn zeta in *.
  rewrite days_closed by side. cbn zeta. set (Y := march_year y m) in *. set (M := march_month m) in *.
  assert (HY : -2000000001 <= Y <= 2000000000).
  { unfold Y, march_year. unfold year_ok in Hy. destruct (m <=? 2); lia. }
  set (doy := doy_of m d) in *. set (q := Y mod 400) in *.
  assert (Hq : 0 <= q <= 399) by (unfold q; lia).
  set (doe := 365 * q + q / 4 - q / 100 + doy).
  assert (Hdoe : 0 <= doe <= 146096).
  { pose proof (leap_mod (q + 1)) as HL. unfold doe. destruct (is_leap (q + 1)); [|lia].
    destruct (proj1 HL eq_refl); lia. }
  assert (Ez : 365 * Y + Y / 4 - Y / 100 + Y / 400 + (153 * M + 2) / 5 + d - 1 - 719468 + 719468 = 146097 * (Y / 400) + doe).
  { unfold doe, doy, doy_of. fold M. unfold q. lia. }
  unfold civil_from_days. rewrite Ez, quot_floor_days.
  assert (Eera : (146097 * (Y / 400) + doe) / 146097 = Y / 400) by lia. rewrite Eera.
  replace (146097 * (Y / 400) + doe - Y / 400 * 146097) with doe by lia.
  pose proof (year_of_era q doy Hq Hdoy) as Eq. cbn zeta in Eq. fold doe in Eq.
  unfold u32. cbn zeta. rewrite (Z.mod_small doe) by lia. rewrite (Z.mod_small (doe - _ + _ - _)) by lia. rewrite Eq.
  assert (Hdoy' : 0 <= doy <= 365) by (destruct (is_leap (q + 1)); lia).
  rewrite (Z.mod_small (365 * q + _ - _)) by lia.
  replace (doe - (365 * q + q / 4 - q / 100)) with doy by (unfold doe; lia). rewrite (Z.mod_small doy) by lia.
  rewrite (Z.mod_small (5 * doy + 2)) by lia. rewrite Emp. pose proof (month_range m Hm) as HM. fold M in HM.
  rewrite (Z.mod_small (153 * M + 2)) by lia. rewrite Edd, (Z.mod_small d) by lia.
  assert (Emm : (M + (if M <? 10 then 3 else (-9) mod 4294967296)) mod 4294967296 = m).
  { unfold M, march_month. destruct (Z.gtb_spec m 2); destruct (Z.ltb_spec (m - 3) 10), (Z.ltb_spec (m + 9) 10); lia. }
  rewrite Emm. do 2 f_equal.
  assert (Ey : q + Y / 400 * 400 + (if m <=? 2 then 1 else 0) = y).
  { assert (q + Y / 400 * 400 = Y) by (unfold q; lia). unfold Y, march_year in *. destruct (m <=? 2); lia. }
  rewrite Ey. unfold i32, year_ok in *. lia.
Qed.
Lemma next_valid y m d : valid_date y m d →
  let '(y', m', d') := next_date y m d in valid_date y' m' d' ∧ y <= y' <= y + 1.
Proof.
  intros [Hm Hd]. pose proof (dim_range y m Hm) as Hr. unfold next_date.
  destruct (Z.ltb_spec d (days_in_month y m)); [unfold valid_date; lia|].
  destruct (Z.ltb_spec m 12); unfold valid_date.
  - pose proof (dim_range y (m + 1)). lia.
  - pose proof (dim_range (y + 1) 1). lia.
Qed.
Definition prev_date (y m d : Z) : Z * Z * Z :=
  if 1 <? d then (y, m, d - 1) else if 1 <? m then (y, m - 1, days_in_month y (m - 1)) else (y - 1, 12, 31).
Lemma prev_valid y m d : valid_date y m d →
  let '(y', m', d') := prev_date y m d in
  valid_date y' m' d' ∧ y - 1 <= y' <= y ∧ next_date y' m' d' = (y, m, d).
Proof.
  intros [Hm Hd]. unfold prev_date, next_date, valid_date.
  destruct (Z.ltb_spec 1 d).
  - destruct (Z.ltb_spec (d - 1) (days_in_month y m)); [|lia].
    split; [lia|]. split; [lia|]. by replace (d - 1 + 1) with d by lia.
  - assert (d = 1) as -> by lia. destruct (Z.ltb_spec 1 m).
    + pose proof (dim_range y (m - 1)). rewrite Z.ltb_irrefl. destruct (Z.ltb_spec (m - 1) 12); [|lia].
      split; [lia|]. split; [lia|]. by replace (m - 1 + 1) with m by lia.
    + assert (m = 1) as -> by lia. change (days_in_month (y - 1) 12) with 31. cbn [Z.ltb Z.compare Pos.compare Pos.compare_cont].
      split; [lia|]. split; [lia|]. by replace (y - 1 + 1) with y by lia.
Qed.
Lemma date_exists z : -1000000000 <= z <= 1000000000 →
  ∃ y m d, valid_date y m d ∧ days_from_civil y m d = z ∧ -1000000001 <= y - 1970 <= 1000000001.
Proof.
  assert (Hup : ∀ n, 0 <= n → n <= 1000000000 →
    ∃ y m d, valid_date y m d ∧ days_from_civil y m d = n ∧ 0 <= y - 1970 <= n).
  { intros n Hn. pattern n. apply natlike_ind; [| |done].
    - intros _. exists 1970, 1, 1. split; [split; vm_compute; split; discriminate|]. split; [reflexivity|lia].
    - intros x Hx IH Hle. destruct IH as (y & m & d & Hv & Hd & Hy); [lia|].
      pose proof (next_valid y m d Hv) as Hnv. pose proof (next_day y m d) as Hnd.
      destruct (next_date y m d) as [[y' m'] d']. destruct Hnv as [Hv' Hy']. exists y', m', d'. split; [done|].
      unfold date_number in Hnd. cbn [fst snd] in Hnd. rewrite Hnd; [|unfold year_ok; lia..|done]. split; [lia|]. lia. }
  assert (Hdown : ∀ n, 0 <= n → n <= 1000000000 →
    ∃ y m d, valid_date y m d ∧ days_from_civil y m d = - n ∧ - n <= y - 1970 <= 0).
  { intros n Hn. pattern n. apply natlike_ind; [| |done].
    - intros _. exists 1970, 1, 1. split; [split; vm_compute; split; discriminate|]. split; [reflexivity|lia].
    - intros x Hx IH Hle. destruct IH as (y & m & d & Hv & Hd & Hy); [lia|].
      pose proof (prev_valid y m d Hv) as Hpv. destruct (prev_date y m d) as [[y' m'] d'].
      destruct Hpv as (Hv' & Hy' & Hn'). exists y', m', d'. split; [done|]. pose proof (next_day y' m' d') as Hnd.
      rewrite Hn' in Hnd. unfold date_number in Hnd. cbn [fst snd] in Hnd. rewrite Hd in Hnd.
      specialize (Hnd ltac:(unfold year_ok; lia) ltac:(unfold year_ok; lia) Hv'). split; [lia|]. lia. }
  intros Hz. destruct (Z.le_gt_cases 0 z).
  - destruct (Hup z) as (y & m & d & Hv & Hd & Hy); [lia|lia|]. exists y, m, d. split; [done|]. split; [done|lia].
  - destruct (Hdown (- z)) as (y & m & d & Hv & Hd & Hy); [lia|lia|]. exists y, m, d. split; [done|]. split; [lia|lia].
Qed.
Lemma civil_spec z : -1000000000 <= z <= 1000000000 →
  ∃ y m d, civil_from_days z = (y, m, d) ∧ valid_date y m d ∧ days_from_civil y m d = z ∧ -1000000001 <= y - 1970 <= 1000000001.
Proof.
  intros Hz. destruct (date_exists z Hz) as (y & m & d & Hv & Hd & Hy). exists y, m, d. split; [|done].
  rewrite <- Hd. apply civil_of_days; [unfold year_ok; lia|done].
Qed.

(** Dates and day numbers are the Gregorian calendar.  The first of January 1970 is day
    0; the day after any date, leap years and month lengths as the calendar has them, has
    the next number; the date of a date's number is that date, within 2,000,000,000 years
    of year 0; and the date of any day number within 1,000,000,000 days of 1970 exists
    in the calendar and has that number. *)
Theorem civil_dates_exact :
  days_from_civil 1970 1 1 = 0 ∧
  (∀ y m d, year_ok y → year_ok (y + 1) → valid_date y m d →
     date_number (next_date y m d) = days_from_civil y m d + 1 ∧ civil_from_days (days_from_civil y m d) = (y, m, d)) ∧
  (∀ z, -1000000000 <= z <= 1000000000 → ∃ y m d, civil_from_days z = (y, m, d) ∧ valid_date y m d ∧
     days_from_civil y m d = z).
Proof.
  split; [reflexivity|]. split.
  - intros y m d Hy Hy1 Hv. split; [by apply next_day|by apply civil_of_days].
  - intros z Hz. destruct (civil_spec z Hz) as (y & m & d & H1 & H2 & H3 & _). eauto 6.
Qed.

(** ** Transition rules *)

Lemma weekday_mod days : weekday_from_days days = (days + 4) mod 7.
Proof. unfold weekday_from_days. destruct (Z.ltb_spec (Z.rem (days + 4) 7) 0); lia. Qed.
Lemma same_month y m d d' : year_ok y → 1 <= m <= 12 → 1 <= d <= 31 → 1 <= d' <= 31 →
  days_from_civil y m d' = days_from_civil y m d + (d' - d).
Proof. intros Hy Hm Hd Hd'. rewrite !days_closed by side. cbn zeta. lia. Qed.
(** The rules the parser lets through. *)
Definition rule_ok (r : tz_rule_t) : Prop :=
  match ru_kind r with
  | RULE_NONE => False
  | RULE_MWD => 1 <= ru_month r <= 12 ∧ 1 <= ru_week r <= 5 ∧ 0 <= ru_dow r <= 6
  | RULE_J => 1 <= ru_doy r <= 365
  | RULE_N => 0 <= ru_doy r < 65536
  end.
(** The day a rule means in a year: of its month the weekday, in the week it says or else
    the last one; the day of the month that it counts in a year without February 29; so
    many days after January 1. *)
Definition rule_date (r : tz_rule_t) (year day : Z) : Prop :=
  match ru_kind r with
  | RULE_NONE => False
  | RULE_MWD => ∃ dom, day = days_from_civil year (ru_month r) dom ∧ valid_date year (ru_month r) dom ∧
      weekday_from_days day = ru_dow r ∧
      ((dom - 1) / 7 + 1 = ru_week r ∨ (dom - 1) / 7 + 1 < ru_week r ∧ days_in_month year (ru_month r) < dom + 7)
  | RULE_J => ∃ m d, day = days_from_civil year m d ∧ valid_date 1970 m d ∧ days_from_civil 1970 m d = ru_doy r - 1
  | RULE_N => day = days_from_civil year 1 1 + ru_doy r
  end.

Lemma rule_days_spec r year : year_ok year → rule_ok r → rule_date r year (rule_days r year).
Proof.
  intros Hy Hr. unfold rule_days, rule_date, rule_ok in *. destruct (ru_kind r); [done| | |done].
  - destruct Hr as (Hm & Hw & Hd). cbn zeta. set (first := days_from_civil year (ru_month r) 1).
    rewrite weekday_mod. set (k := u32 (ru_dow r + 7 - (first + 4) mod 7) mod 7).
    assert (Hk : 0 <= k <= 6 ∧ (first + 4 + k) mod 7 = ru_dow r) by (unfold k, u32; lia).
    pose proof (dim_range year (ru_month r) Hm) as Hdim. set (dim := days_in_month year (ru_month r)) in *.
    set (dom0 := 1 + k + 7 * (ru_week r - 1)).
    assert (Hfit : fit_month 6 dom0 dim = dom0 ∧ dom0 <= dim ∨ fit_month 6 dom0 dim = dom0 - 7 ∧ dim < dom0).
    { cbn [fit_month]. rewrite !Z.gtb_ltb. destruct (Z.ltb_spec dim dom0); [right|left; lia].
      destruct (Z.ltb_spec dim (dom0 - 7)); [unfold dom0 in *; lia|lia]. }
    set (dom := fit_month 6 dom0 dim) in *.
    assert (Hdom : 1 <= dom <= dim) by (unfold dom0 in *; lia).
    exists dom. split; [done|]. split; [done|]. rewrite weekday_mod.
    rewrite (same_month year (ru_month r) 1 dom) by (done || lia). fold first. unfold dom0 in *. split; lia.
  - destruct (civil_spec (days_from_civil 1970 1 1 + ru_doy r - 1)) as (y & m & d & -> & Hv & Hdn & Hyy).
    { change (days_from_civil 1970 1 1) with 0. lia. }
    change (days_from_civil 1970 1 1) with 0 in Hdn. exists m, d. split; [done|].
    assert (y = 1970) as ->; [|split; [done|lia]].
    destruct Hv as [Hm Hd]. pose proof (dim_range y m Hm) as Hr31. rewrite days_closed in Hdn by (done || unfold year_ok; lia).
    cbn zeta in Hdn. unfold march_year in Hdn. pose proof (month_range m Hm) as HM.
    unfold march_month in *. destruct (Z.leb_spec m 2), (Z.gtb_spec m 2); lia.
Qed.
Lemma rule_date_unique r year a b : year_ok year → rule_ok r → rule_date r year a → rule_date r year b → a = b.
Proof.
  intros Hy Hr. unfold rule_date, rule_ok in *. destruct (ru_kind r); [done| | |congruence].
  - destruct Hr as (Hm & Hw & _). pose proof (dim_range year _ Hm) as Hdim. intros (d1 & -> & [_ V1] & W1 & K1) (d2 & -> & [_ V2] & W2 & K2).
    rewrite weekday_mod in W1, W2. rewrite (same_month year (ru_month r) 1 d1) in * by (done || lia).
    rewrite (same_month year (ru_month r) 1 d2) in * by (done || lia). lia.
  - intros (m1 & d1 & -> & V1 & E1) (m2 & d2 & -> & V2 & E2).
    assert (Hc : civil_from_days (days_from_civil 1970 m1 d1) = civil_from_days (days_from_civil 1970 m2 d2)) by (by rewrite E1, E2).
    rewrite !civil_of_days in Hc by (done || unfold year_ok; lia). by injection Hc as -> ->.
Qed.

(** Rules name the days they say.  In every year a rule the parser accepts selects the
    day it means: for a month rule the weekday in that month of the given week, or the
    last one if the month has none such; for a Julian rule the same month and day in
    every year; otherwise the day that many after January 1.  There is no other such day. *)
Theorem transition_rules_exact r year : year_ok year → rule_ok r →
  rule_date r year (rule_days r year) ∧ ∀ day, rule_date r year day → day = rule_days r year.
Proof.
  intros Hy Hr. split; [by apply rule_days_spec|]. intros day Hd.
  apply (rule_date_unique r year); [done|done|done|]. by apply rule_days_spec.
Qed.

(** ** The text of a specification

    The POSIX grammar, as relations between texts and what they mean, apart from the
    parser.  Offsets count westwards: a clock under "PST8" is eight hours behind UTC. *)

Definition all_digits (ds : list Z) : Prop := Forall (λ c, is_digit c = true) ds.
Definition digit_step (v c : Z) : Z := v * 10 + (c - 48).
Definition numeral (ds : list Z) (v : Z) : Prop := ds ≠ [] ∧ all_digits ds ∧ v = fold_left digit_step ds 0.

(** Three to seven letters, or as many letters, digits and signs in angle brackets. *)
Inductive name_text : list Z → list Z → Prop :=
| name_plain n : Forall (λ c, is_alpha c = true) n → (3 ≤ length n ≤ 7)%nat → name_text n n
| name_quoted n : Forall (λ c, is_alpha c || is_digit c || (c =? PLUS) || (c =? DASH) = true) n →
    (3 ≤ length n ≤ 7)%nat → name_text (60 :: n ++ [62]) n.
(** Two digits below sixty after a colon. *)
Definition sixty_text (t : list Z) (v : Z) : Prop :=
  ∃ a b, t = [58; a; b] ∧ is_digit a = true ∧ is_digit b = true ∧ v = (a - 48) * 10 + (b - 48) ∧ v <= 59.
Inductive sign_text : list Z → Z → Prop :=
| sign_none : sign_text [] 1
| sign_plus : sign_text [PLUS] 1
| sign_minus : sign_text [DASH] (-1).
(** hh, hh:mm or hh:mm:ss, in seconds. *)
Inductive clock_text (hh_max : Z) : list Z → Z → Prop :=
| clock_h h hh : numeral h hh → (length h ≤ 3)%nat → hh <= hh_max → clock_text hh_max h (hh * 3600)
| clock_hm h hh m mm : numeral h hh → (length h ≤ 3)%nat → hh <= hh_max → sixty_text m mm →
    clock_text hh_max (h ++ m) (hh * 3600 + mm * 60)
| clock_hms h hh m mm s ss : numeral h hh → (length h ≤ 3)%nat → hh <= hh_max → sixty_text m mm →
    sixty_text s ss → clock_text hh_max (h ++ m ++ s) (hh * 3600 + mm * 60 + ss).
Inductive hms_text (hh_max : Z) : list Z → Z → Prop :=
| hms_signed sg k t v : sign_text sg k → clock_text hh_max t v → hms_text hh_max (sg ++ t) (k * v).
Inductive date_text : list Z → tz_rule_t → Prop :=
| date_month tm m tw w td d : numeral tm m → numeral tw w → numeral td d →
    1 <= m <= 12 → 1 <= w <= 5 → 0 <= d <= 6 →
    date_text (77 :: tm ++ DOT :: tw ++ DOT :: td) (mk_rule RULE_MWD m w d 0 0)
| date_julian tn n : numeral tn n → 1 <= n <= 365 → date_text (74 :: tn) (mk_rule RULE_J 0 0 0 n 0)
| date_day tn n : numeral tn n → 0 <= n <= 365 → date_text tn (mk_rule RULE_N 0 0 0 n 0).
(** The time of day is two in the morning if none is given. *)
Inductive rule_text : list Z → tz_rule_t → Prop :=
| rule_plain t r : date_text t r → rule_text t (with_time r 7200)
| rule_timed t r tt v : date_text t r → hms_text 167 tt v → rule_text (t ++ SLASH :: tt) (with_time r v).
(** Summer time is an hour ahead if its offset is not given. *)
Inductive dst_off_text (std_off : Z) : list Z → Z → Prop :=
| dst_default : dst_off_text std_off [] (std_off - 3600)
| dst_given t v : hms_text 24 t v → dst_off_text std_off t v.
Inductive zone_body : list Z → tz_spec_t → Prop :=
| zone_std tn n to off : name_text tn n → hms_text 24 to off →
    zone_body (tn ++ to) (mk_spec n [] off 0 false no_rule no_rule)
| zone_dst tn n to off tn2 n2 to2 off2 ts s te e : name_text tn n → hms_text 24 to off →
    name_text tn2 n2 → dst_off_text off to2 off2 → rule_text ts s → rule_text te e →
    zone_body (tn ++ to ++ tn2 ++ to2 ++ 44 :: ts ++ 44 :: te) (mk_spec n n2 off off2 true s e).
(** With the length the node stores. *)
Definition zone_text (t : list Z) (tz : tz_spec_t) : Prop := zone_body t tz ∧ (length t < BRAMBLE_TZ_SPEC_MAX)%nat.
(** No number of ten digits or more, which could overflow the parser's 32 bits. *)
Definition short_numbers (s : list Z) : Prop :=
  ∀ a ds b, s = a ++ ds ++ b → all_digits ds → (length ds ≤ 9)%nat.

(** *** The parser reads every text of the grammar *)

Definition stops (p : Z → bool) (s : list Z) : Prop := match s with [] => True | c :: _ => p c = false end.
Definition hms_class (c : Z) : bool := is_digit c || (c =? 58).

Lemma digit_steps_ge ds : ∀ v, all_digits ds → 0 <= v → v <= fold_left digit_step ds v.
Proof.
  induction ds as [|c ds IH]; intros v Hd Hv; cbn [fold_left]; [lia|]. inversion_clear Hd as [|? ? Hc Hds].
  unfold is_digit in Hc. specialize (IH (digit_step v c) Hds). unfold digit_step in *. lia.
Qed.
Lemma digit_steps_lt ds : ∀ v, all_digits ds → 0 <= v → fold_left digit_step ds v < (v + 1) * 10 ^ Z.of_nat (length ds).
Proof.
  induction ds as [|c ds IH]; intros v Hd Hv; cbn [fold_left length]; [change (10 ^ Z.of_nat 0) with 1; lia|].
  inversion_clear Hd as [|? ? Hc Hds]. unfold is_digit in Hc. specialize (IH (digit_step v c) Hds).
  rewrite Nat2Z.inj_succ, Z.pow_succ_r by lia. unfold digit_step in *.
  pose proof (Z.pow_pos_nonneg 10 (Z.of_nat (length ds))). nia.
Qed.
Lemma hours_read n ds : ∀ rest v, all_digits ds → (length ds ≤ n)%nat → stops is_digit rest →
  hours_loop n (ds ++ rest) v = (fold_left digit_step ds v, rest).
Proof.
  revert ds. induction n as [|n IH]; intros [|c ds] rest v Hd Hl Hs; cbn [hours_loop app fold_left]; try done.
  - cbn in Hl. lia.
  - destruct rest as [|x rest]; [done|]. cbn in Hs. by rewrite Hs.
  - inversion_clear Hd as [|? ? Hc Hds]. rewrite Hc. apply IH; [done|cbn in Hl; lia|done].
Qed.
Lemma number_read ds : ∀ rest v, all_digits ds → 0 <= v → fold_left digit_step ds v < 2 ^ 31 → stops is_digit rest →
  number_loop (ds ++ rest) v = (fold_left digit_step ds v, rest).
Proof.
  induction ds as [|c ds IH]; intros rest v Hd Hv Hb Hs; cbn [number_loop app fold_left].
  { destruct rest as [|x rest]; [done|]. cbn [number_loop]. cbn in Hs. by rewrite Hs. }
  inversion_clear Hd as [|? ? Hc Hds]. rewrite Hc. cbn [fold_left] in Hb. unfold is_digit in Hc.
  assert (0 <= digit_step v c) by (unfold digit_step; lia). pose proof (digit_steps_ge ds (digit_step v c) Hds) as Hge.
  assert (Hi : i32 (v * 10 + (c - 48)) = digit_step v c) by (unfold i32, digit_step in *; lia).
  rewrite Hi. by apply IH.
Qed.
Lemma numeral_head ds v : numeral ds v → ∃ c ds', ds = c :: ds' ∧ is_digit c = true.
Proof. intros (Hn & Hd & _). destruct ds as [|c ds]; [done|]. inversion_clear Hd. eauto. Qed.
Lemma parse_number_read ds v rest : numeral ds v → v < 2 ^ 31 → stops is_digit rest → parse_number (ds ++ rest) = Some (v, rest).
Proof.
  intros Hn Hb Hs. destruct (numeral_head _ _ Hn) as (c & ds' & -> & Hc). destruct Hn as (_ & Hd & ->).
  unfold parse_number. cbn [app hd]. rewrite Hc. cbn [negb]. f_equal. apply (number_read (c :: ds')); [done|lia|done|done].
Qed.
Lemma span_read p ds rest : Forall (λ c, p c = true) ds → stops p rest →
  span (λ c, negb (p c)) (ds ++ rest) = (ds, rest).
Proof.
  intros Hd Hs. induction Hd as [|c ds Hc Hd IH]; cbn [span app].
  - destruct rest as [|x rest]; [done|]. cbn in Hs. cbn [span]. by rewrite Hs.
  - rewrite Hc. cbn [negb]. by rewrite IH.
Qed.
Lemma span_to p ds x rest : Forall (λ c, p c = false) ds → p x = true → span p (ds ++ x :: rest) = (ds, x :: rest).
Proof. intros Hd Hx. induction Hd as [|c ds Hc Hd IH]; cbn [span app]; [by rewrite Hx|]. by rewrite Hc, IH. Qed.
Lemma alpha_not_digit c : is_alpha c = true → is_digit c = false.
Proof. unfold is_alpha, is_digit. lia. Qed.
Lemma parse_abbr_read t n rest : name_text t n → stops is_alpha rest → parse_abbr (t ++ rest) = Some (n, rest).
Proof.
  intros [m Hm Hl|m Hm Hl] Hs; unfold parse_abbr.
  - destruct m as [|c m]; [cbn in Hl; lia|]. assert (Hc : (c =? 60) = false).
    { inversion_clear Hm. unfold is_alpha in *. lia. }
    change (hd 0 ((c :: m) ++ rest)) with c. rewrite Hc, span_read by done. cbn [mbind option_bind].
    destruct (Nat.ltb_spec (length (c :: m)) 3), (Nat.ltb_spec (BRAMBLE_TZ_ABBREV_MAX - 1) (length (c :: m)));
      unfold BRAMBLE_TZ_ABBREV_MAX in *; try done; lia.
  - cbn [app hd drop]. change (60 =? 60) with true. cbn iota. rewrite <- app_assoc. cbn [app]. rewrite drop_0.
    rewrite span_to; [|eapply Forall_impl; [exact Hm|]; intros c Hc; unfold is_alpha, is_digit, PLUS, DASH in *; lia|done].
    cbn [hd]. change (62 =? 62) with true. rewrite andb_true_r. change (drop 1 (62 :: rest)) with rest.
    rewrite (proj2 (forallb_forall _ _)); [|by apply List.Forall_forall]. cbn [mbind option_bind].
    destruct (Nat.ltb_spec (length m) 3), (Nat.ltb_spec (BRAMBLE_TZ_ABBREV_MAX - 1) (length m));
      unfold BRAMBLE_TZ_ABBREV_MAX in *; try done; lia.
Qed.
Lemma sixty_read t v rest : sixty_text t v → parse_sixty (t ++ rest) = Some (v, rest).
Proof.
  intros (a & b & -> & Ha & Hb & -> & Hv). cbn [app parse_sixty]. change (negb (58 =? 58)) with false. cbn iota.
  rewrite Ha, Hb. cbn [andb]. by rewrite Z.gtb_ltb, (proj2 (Z.ltb_ge _ _)).
Qed.
Lemma sixty_none rest : stops (λ c, c =? 58) rest → parse_sixty rest = Some (0, rest).
Proof. destruct rest as [|c rest]; [done|]. cbn. by intros ->. Qed.
Lemma clock_head hh_max t v : clock_text hh_max t v → ∃ c t', t = c :: t' ∧ is_digit c = true.
Proof. intros H. inversion H as [h hh Hn|h hh m mm Hn|h hh m mm s ss Hn]; destruct (numeral_head _ _ Hn) as (c & h' & -> & Hc);
  eexists c, _; (split; [reflexivity|done]). Qed.
Lemma stops_weaken (p q : Z → bool) s : (∀ c, q c = true → p c = true) → stops p s → stops q s.
Proof. intros H. destruct s as [|c s]; [done|]. cbn. specialize (H c). destruct (q c); [rewrite H by done; done|done]. Qed.
Lemma sixty_stops t v rest : sixty_text t v → stops is_digit (t ++ rest) ∧ hd 0 (t ++ rest) = 58.
Proof. intros (a & b & -> & _). done. Qed.
(** What follows the sign. *)
Definition hms_unsigned (k : Z) (s : list Z) (hh_max : Z) : option (Z * list Z) :=
  if negb (is_digit (hd 0 s)) then None else
  let '(hh, s) := hours_loop 3 s 0 in
  if hh >? hh_max then None else
  '(mm, ss, rest) ←
    (if hd 0 s =? 58
     then '(mm, s) ← parse_sixty s; '(ss, s) ← parse_sixty s; Some (mm, ss, s)
     else Some (0, 0, s));
  Some (k * (hh * 3600 + mm * 60 + ss), rest).
Lemma clock_read hh_max k t v rest : clock_text hh_max t v → stops hms_class rest →
  hms_unsigned k (t ++ rest) hh_max = Some (k * v, rest).
Proof.
  intros Hc Hs. destruct (clock_head _ _ _ Hc) as (c & t' & E & Ed). unfold hms_unsigned.
  assert (Eh : hd 0 (t ++ rest) = c) by (by rewrite E). rewrite Eh, Ed. cbn [negb]. clear E Eh Ed t' c.
  assert (Hd : stops is_digit rest).
  { eapply stops_weaken; [|exact Hs]. unfold hms_class. intros c ->. done. }
  assert (H58 : stops (λ c, c =? 58) rest).
  { eapply stops_weaken; [|exact Hs]. unfold hms_class. intros c ->. apply orb_true_r. }
  destruct Hc as [h hh (Hn & Hh & ->) Hl Hm|h hh m mm (Hn & Hh & ->) Hl Hm Hmm|h hh m mm s ss (Hn & Hh & ->) Hl Hm Hmm Hss].
  - rewrite hours_read by done. rewrite Z.gtb_ltb, (proj2 (Z.ltb_ge _ _)) by done.
    assert (E : (hd 0 rest =? 58) = false) by (destruct rest as [|c rest]; [done|exact H58]).
    rewrite E. cbn [mbind option_bind]. do 2 f_equal. lia.
  - destruct (sixty_stops m mm rest Hmm) as [Hds Hhd]. rewrite <- app_assoc, hours_read by done.
    rewrite Z.gtb_ltb, (proj2 (Z.ltb_ge _ _)) by done. rewrite Hhd. cbn [Z.eqb Pos.eqb].
    rewrite (sixty_read m mm) by done. cbn [mbind option_bind]. rewrite sixty_none by done. cbn [mbind option_bind].
    do 2 f_equal. lia.
  - destruct (sixty_stops m mm (s ++ rest) Hmm) as [Hds Hhd]. rewrite <- !app_assoc, hours_read by done.
    rewrite Z.gtb_ltb, (proj2 (Z.ltb_ge _ _)) by done. rewrite Hhd. cbn [Z.eqb Pos.eqb].
    rewrite (sixty_read m mm) by done. cbn [mbind option_bind]. rewrite (sixty_read s ss) by done. done.
Qed.
Lemma parse_hms_sign s hh_max : parse_hms s hh_max =
  hms_unsigned (if hd 0 s =? DASH then -1 else 1) (if (hd 0 s =? PLUS) || (hd 0 s =? DASH) then drop 1 s else s) hh_max.
Proof. done. Qed.
Lemma hms_read hh_max t v rest : hms_text hh_max t v → stops hms_class rest → parse_hms (t ++ rest) hh_max = Some (v, rest).
Proof.
  intros [sg k t' v' Hsg Hc] Hs. rewrite parse_hms_sign. destruct (clock_head _ _ _ Hc) as (c & u & E & Ed).
  destruct Hsg; [|by apply clock_read..]. cbn [app].
  assert (Hhd : hd 0 (t' ++ rest) = c) by (by rewrite E). rewrite Hhd.
  assert (H1 : (c =? DASH) = false) by (unfold is_digit, DASH in *; lia).
  assert (H2 : (c =? PLUS) = false) by (unfold is_digit, PLUS in *; lia).
  rewrite H1, H2. by apply clock_read.
Qed.
Lemma date_read t r rest : date_text t r → stops is_digit rest → parse_date (t ++ rest) = Some (r, rest).
Proof.
  intros [tm m tw w td d Hm Hw Hd Bm Bw Bd|tn n Hn Bn|tn n Hn Bn] Hs; unfold parse_date.
  - cbn [app hd drop]. change (77 =? 77) with true. cbn iota. rewrite drop_0, <- !app_assoc. cbn [app].
    rewrite (parse_number_read tm m) by (done || lia). cbn [mbind option_bind skip_char]. change (DOT =? DOT) with true. cbn iota.
    cbn [mbind option_bind]. rewrite <- !app_assoc. cbn [app]. rewrite (parse_number_read tw w) by (done || lia). cbn [mbind option_bind skip_char].
    change (DOT =? DOT) with true. cbn iota. cbn [mbind option_bind]. rewrite (parse_number_read td d) by (done || lia).
    cbn [mbind option_bind]. rewrite !Z.gtb_ltb, !(proj2 (Z.ltb_ge _ _)) by lia. done.
  - cbn [app hd drop]. change (74 =? 77) with false. change (74 =? 74) with true. cbn iota. rewrite drop_0.
    rewrite (parse_number_read tn n) by (done || lia). cbn [mbind option_bind].
    rewrite !Z.gtb_ltb, !(proj2 (Z.ltb_ge _ _)) by lia. done.
  - destruct (numeral_head _ _ Hn) as (c & u & E & Ed). assert (Hhd : hd 0 (tn ++ rest) = c) by (by rewrite E).
    rewrite Hhd. assert (H1 : (c =? 77) = false ∧ (c =? 74) = false) by (unfold is_digit in *; lia).
    destruct H1 as [-> ->]. rewrite Ed, (parse_number_read tn n) by (done || lia). cbn [mbind option_bind].
    rewrite Z.gtb_ltb, (proj2 (Z.ltb_ge _ _)) by lia. by rewrite Z.mod_small by lia.
Qed.
Definition rule_class (c : Z) : bool := hms_class c || (c =? SLASH).
Lemma rule_read t r rest : rule_text t r → stops rule_class rest → parse_rule (t ++ rest) = Some (r, rest).
Proof.
  intros Hr Hs. assert (Hh : stops hms_class rest).
  { eapply stops_weaken; [|exact Hs]. unfold rule_class. by intros c ->. }
  assert (Hd : stops is_digit rest).
  { eapply stops_weaken; [|exact Hh]. unfold hms_class. by intros c ->. }
  destruct Hr as [t r Ht|t r tt v Ht Hv]; unfold parse_rule.
  - rewrite (date_read t r) by done. cbn [mbind option_bind].
    assert (E : (hd 0 rest =? SLASH) = false).
    { destruct rest as [|c rest]; [done|]. cbn in Hs |- *. unfold rule_class in Hs. by apply orb_false_iff in Hs as [_ ->]. }
    by rewrite E.
  - rewrite <- app_assoc. cbn [app]. rewrite (date_read t r) by done. cbn [mbind option_bind hd drop].
    change (SLASH =? SLASH) with true. cbn iota. rewrite drop_0. by rewrite (hms_read _ tt v).
Qed.
Lemma name_head t n : name_text t n → ∃ c t', t = c :: t' ∧ (is_alpha c = true ∨ c = 60).
Proof.
  intros [m Hm Hl|m Hm Hl]; [|eauto 6]. destruct m as [|c m]; [cbn in Hl; lia|]. inversion_clear Hm. eauto 6.
Qed.
Lemma hms_head hh_max t v : hms_text hh_max t v → ∃ c t', t = c :: t' ∧ (is_digit c = true ∨ c = PLUS ∨ c = DASH).
Proof.
  intros [sg k t' v' Hsg Hc]. destruct (clock_head _ _ _ Hc) as (c & u & -> & Ed).
  destruct Hsg; cbn [app]; eexists _, _; (split; [reflexivity|]); tauto.
Qed.
Lemma hms_not_alpha hh_max t v rest : hms_text hh_max t v → stops is_alpha (t ++ rest) ∧ (hd 0 (t ++ rest) =? 44) = false ∧
  (length (t ++ rest) =? 0)%nat = false.
Proof.
  intros H. destruct (hms_head _ _ _ H) as (c & u & -> & Hc). cbn.
  unfold is_alpha, is_digit, PLUS, DASH in *. split_and!; [|lia|done]. lia.
Qed.
Lemma name_not_hms t n rest : name_text t n → stops hms_class (t ++ rest) ∧ t ++ rest ≠ [].
Proof.
  intros H. destruct (name_head _ _ H) as (c & u & -> & Hc). cbn. split; [|done].
  unfold hms_class, is_alpha, is_digit in *. lia.
Qed.
Lemma zone_read t tz : zone_text t tz → parse_spec t = Some tz.
Proof.
  intros [Hz Hl]. unfold parse_spec.
  destruct (Nat.leb_spec BRAMBLE_TZ_SPEC_MAX (length t)); [lia|]. rewrite orb_false_r.
  destruct Hz as [tn n to off Hn Ho|tn n to off tn2 n2 to2 off2 ts s te e Hn Ho Hn2 Ho2 Hs He].
  - destruct (hms_not_alpha _ _ _ [] Ho) as (Ha & _ & Hne). rewrite app_nil_r in *.
    destruct (Nat.eqb_spec (length (tn ++ to)) 0) as [E|E].
    { rewrite length_app in E. destruct (Nat.eqb_spec (length to) 0); [done|lia]. }
    rewrite (parse_abbr_read tn n) by done. cbn [mbind option_bind].
    pose proof (hms_read _ to off [] Ho I) as E'. rewrite app_nil_r in E'. by rewrite E'.
  - set (rest := 44 :: ts ++ 44 :: te) in *. destruct (name_not_hms _ _ (to2 ++ rest) Hn2) as [Hcl Hne].
    destruct (hms_not_alpha _ _ _ (tn2 ++ to2 ++ rest) Ho) as (Ha & _ & Hne').
    destruct (Nat.eqb_spec (length (tn ++ to ++ tn2 ++ to2 ++ rest)) 0) as [E|E].
    { rewrite length_app in E. destruct (Nat.eqb_spec (length (to ++ tn2 ++ to2 ++ rest)) 0); [done|lia]. }
    rewrite (parse_abbr_read tn n) by done. cbn [mbind option_bind].
    rewrite (hms_read _ to off) by done. cbn [mbind option_bind].
    clear Hl H E Hcl Hne' Ha. destruct (tn2 ++ to2 ++ rest) as [|x p] eqn:Ep; [done|]. rewrite <- Ep. clear x p Ep Hne.
    assert (Hrules : skip_char 44 rest = Some (ts ++ 44 :: te)) by done.
    assert (Hend : parse_rule te = Some (e, [])) by (pose proof (rule_read te e [] He I) as E'; by rewrite app_nil_r in E').
    destruct Ho2 as [|to2 v Hv].
    + cbn [app]. rewrite (parse_abbr_read tn2 n2) by done. cbn [mbind option_bind].
      change (hd 0 rest =? 44) with true. cbn [negb andb]. cbn [mbind option_bind]. rewrite Hrules. cbn [mbind option_bind].
      rewrite (rule_read ts s) by done. cbn [mbind option_bind skip_char]. change (44 =? 44) with true. cbn iota.
      cbn [mbind option_bind]. by rewrite Hend.
    + destruct (hms_not_alpha _ _ _ rest Hv) as (Ha2 & H44 & H0).
      rewrite (parse_abbr_read tn2 n2) by done. cbn [mbind option_bind]. rewrite H44, H0. cbn [negb andb].
      rewrite (hms_read _ to2 v) by done. cbn [mbind option_bind]. rewrite Hrules. cbn [mbind option_bind].
      rewrite (rule_read ts s) by done. cbn [mbind option_bind skip_char]. change (44 =? 44) with true. cbn iota.
      cbn [mbind option_bind]. by rewrite Hend.
Qed.

(** *** The parser reads nothing else *)

Lemma hours_inv n : ∀ s v v' rest, hours_loop n s v = (v', rest) →
  ∃ ds, s = ds ++ rest ∧ all_digits ds ∧ (length ds ≤ n)%nat ∧ v' = fold_left digit_step ds v.
Proof.
  induction n as [|n IH]; intros s v v' rest; cbn [hours_loop].
  { intros [= <- <-]. exists []. split_and!; [done|constructor|done|done]. }
  destruct s as [|c s]; [intros [= <- <-]; exists []; split_and!; [done|constructor|cbn; lia|done]|].
  destruct (is_digit c) eqn:Ec; [|intros [= <- <-]; exists []; split_and!; [done|constructor|cbn; lia|done]].
  intros (ds & -> & Hd & Hl & ->)%IH. exists (c :: ds). split_and!; [done|by constructor|cbn; lia|done].
Qed.
Lemma number_inv s : ∀ v v' rest, number_loop s v = (v', rest) →
  ∃ ds, s = ds ++ rest ∧ all_digits ds ∧ stops is_digit rest.
Proof.
  induction s as [|c s IH]; intros v v' rest; cbn [number_loop].
  { intros [= <- <-]. exists []. split_and!; [done|constructor|done]. }
  destruct (is_digit c) eqn:Ec; [|intros [= <- <-]; exists []; split_and!; [done|constructor|done]].
  intros (ds & -> & Hd & Hs)%IH. exists (c :: ds). split_and!; [done|by constructor|done].
Qed.
Lemma short_suffix a b : short_numbers (a ++ b) → short_numbers b.
Proof. intros H p ds q ->. apply (H (a ++ p) ds q). by rewrite app_assoc. Qed.
Lemma hd_not_nil (s : list Z) (p : Z → bool) : p 0 = false → p (hd 0 s) = true → ∃ c s', s = c :: s' ∧ p c = true.
Proof. destruct s as [|c s]; cbn; [congruence|eauto]. Qed.
Lemma parse_number_inv s v rest : short_numbers s → parse_number s = Some (v, rest) → ∃ t, s = t ++ rest ∧ numeral t v ∧ 0 <= v.
Proof.
  intros Hs. unfold parse_number. destruct (is_digit (hd 0 s)) eqn:Eh; [|done]. cbn [negb].
  destruct (hd_not_nil s is_digit eq_refl Eh) as (c & s' & -> & Hc). intros E. apply (inj Some) in E.
  destruct (number_inv _ _ _ _ E) as (ds & Es & Hd & Hst). rewrite Es in E, Hs.
  assert (Hl : (length ds ≤ 9)%nat) by (by apply (Hs [] ds rest)).
  assert (Hlt : fold_left digit_step ds 0 < 2 ^ 31).
  { pose proof (digit_steps_lt ds 0 Hd) as H. assert (10 ^ Z.of_nat (length ds) <= 10 ^ 9) by (apply Z.pow_le_mono_r; lia). lia. }
  rewrite number_read in E by (done || lia). injection E as E. exists ds. split; [done|].
  pose proof (digit_steps_ge ds 0 Hd). split; [|lia]. split; [|by split].
  intros ->. cbn in Es. rewrite <- Es in Hst. cbn in Hst. congruence.
Qed.
Lemma span_class p s f r : span (λ c, negb (p c)) s = (f, r) → s = f ++ r ∧ Forall (λ c, p c = true) f.
Proof.
  intros (-> & Hf & _)%span_eq. split; [done|]. eapply Forall_impl; [exact Hf|]. intros c Hc. cbn in Hc. by destruct (p c).
Qed.
Lemma parse_abbr_inv s n rest : parse_abbr s = Some (n, rest) → ∃ t, s = t ++ rest ∧ name_text t n.
Proof.
  unfold parse_abbr. destruct (hd 0 s =? 60) eqn:E60.
  - destruct (hd_not_nil s (λ c, c =? 60) eq_refl E60) as (c & s' & -> & Hc). cbn [drop]. rewrite drop_0.
    destruct (span (λ c, c =? 62) s') as [f r] eqn:Es. destruct (forallb _ f && (hd 0 r =? 62)) eqn:Ef; [|done].
    cbn [mbind option_bind]. destruct (_ || _)%bool eqn:El; [done|]. intros [= -> <-].
    apply andb_true_iff in Ef as [Ef Er]. destruct (hd_not_nil r (λ c, c =? 62) eq_refl Er) as (d & r' & -> & Hd).
    apply span_eq in Es as (-> & _ & _). apply Z.eqb_eq in Hc, Hd. subst c d. exists (60 :: n ++ [62]).
    cbn [drop]. rewrite drop_0. cbn [app]. rewrite <- app_assoc. split; [done|]. apply orb_false_iff in El as [E1 E2].
    apply Nat.ltb_ge in E1, E2. unfold BRAMBLE_TZ_ABBREV_MAX in E2. constructor; [|lia].
    apply List.Forall_forall. by apply forallb_forall.
  - destruct (span _ s) as [f r] eqn:Es. cbn [mbind option_bind]. destruct (_ || _)%bool eqn:El; [done|]. intros [= -> ->].
    apply span_class in Es as [-> Hf]. exists n. split; [done|]. apply orb_false_iff in El as [E1 E2].
    apply Nat.ltb_ge in E1, E2. unfold BRAMBLE_TZ_ABBREV_MAX in E2. constructor; [done|lia].
Qed.
Lemma sixty_inv s v rest : parse_sixty s = Some (v, rest) →
  (∃ t, s = t ++ rest ∧ sixty_text t v) ∨ s = rest ∧ v = 0 ∧ (hd 0 s =? 58) = false.
Proof.
  unfold parse_sixty. destruct s as [|c s]; [intros [= <- <-]; by right|].
  destruct (c =? 58) eqn:Ec; cbn [negb]; [|intros [= <- <-]; by right].
  destruct s as [|a [|b s]]; [done|done|]. destruct (is_digit a && is_digit b) eqn:E; [|done]. cbn zeta.
  rewrite Z.gtb_ltb. destruct (Z.ltb_spec 59 ((a - 48) * 10 + (b - 48))); [done|]. intros [= <- <-]. left.
  apply andb_true_iff in E as [Ea Eb]. apply Z.eqb_eq in Ec as ->. exists [58; a; b]. split; [done|]. by exists a, b.
Qed.
Lemma clock_inv hh_max k s v rest : hms_unsigned k s hh_max = Some (v, rest) →
  ∃ t w, s = t ++ rest ∧ clock_text hh_max t w ∧ v = k * w.
Proof.
  unfold hms_unsigned. destruct (is_digit (hd 0 s)) eqn:Eh; [|done]. cbn [negb].
  destruct (hours_loop 3 s 0) as [hh s1] eqn:El.
  assert (Hn : ∃ ds, s = ds ++ s1 ∧ numeral ds hh ∧ (length ds ≤ 3)%nat).
  { destruct (hd_not_nil s is_digit eq_refl Eh) as (c & s' & E & Hc). destruct (hours_inv _ _ _ _ _ El) as (ds & Es & Hd & Hl & ->).
    exists ds. split_and!; [done| |done]. split; [|by split]. intros ->. rewrite E in El, Es. cbn in Es. subst s1.
    change (hours_loop 3 (c :: s') 0) with (if is_digit c then hours_loop 2 s' (0 * 10 + (c - 48)) else (0, c :: s')) in El.
    rewrite Hc in El. apply hours_inv in El as (ds & E' & _). apply (f_equal length) in E'.
    rewrite length_app in E'. cbn in E'. lia. }
  destruct Hn as (ds & -> & Hn & Hl). rewrite Z.gtb_ltb. destruct (Z.ltb_spec hh_max hh) as [|Hm]; [done|].
  destruct (hd 0 s1 =? 58) eqn:E58.
  - destruct (parse_sixty s1) as [[mm s2]|] eqn:Em; [|done]. cbn [mbind option_bind].
    destruct (parse_sixty s2) as [[ss s3]|] eqn:Ess; [|done]. cbn [mbind option_bind]. intros [= <- <-].
    apply sixty_inv in Em as [(t1 & -> & H1)|(_ & _ & ?)]; [|congruence].
    apply sixty_inv in Ess as [(t2 & -> & H2)|(-> & -> & _)].
    + exists (ds ++ t1 ++ t2), (hh * 3600 + mm * 60 + ss). rewrite <- !app_assoc. split; [done|]. split; [by constructor|done].
    + exists (ds ++ t1), (hh * 3600 + mm * 60). rewrite <- !app_assoc. split; [done|]. split; [by constructor|lia].
  - cbn [mbind option_bind]. intros [= <- <-]. exists ds, (hh * 3600). split; [done|]. split; [by constructor|lia].
Qed.
Lemma hms_inv hh_max s v rest : parse_hms s hh_max = Some (v, rest) → ∃ t, s = t ++ rest ∧ hms_text hh_max t v.
Proof.
  rewrite parse_hms_sign. destruct (hd 0 s =? DASH) eqn:Ed.
  - destruct (hd_not_nil s (λ c, c =? DASH) eq_refl Ed) as (c & s' & -> & Hc). rewrite orb_true_r. cbn [drop]. rewrite drop_0.
    intros (t & w & -> & Ht & ->)%clock_inv. apply Z.eqb_eq in Hc as ->. exists ([DASH] ++ t). split; [done|]. by repeat constructor.
  - rewrite orb_false_r. destruct (hd 0 s =? PLUS) eqn:Ep.
    + destruct (hd_not_nil s (λ c, c =? PLUS) eq_refl Ep) as (c & s' & -> & Hc). cbn [drop]. rewrite drop_0.
      intros (t & w & -> & Ht & ->)%clock_inv. apply Z.eqb_eq in Hc as ->. exists ([PLUS] ++ t). split; [done|]. by repeat constructor.
    + intros (t & w & -> & Ht & ->)%clock_inv. exists ([] ++ t). split; [done|]. by repeat constructor.
Qed.
Lemma skip_char_inv c s s' : skip_char c s = Some s' → s = c :: s'.
Proof. unfold skip_char. destruct s as [|x s]; [done|]. destruct (Z.eqb_spec x c) as [->|]; [|done]. by intros [= <-]. Qed.
Ltac shorter := match goal with H : short_numbers (?a ++ ?b) |- short_numbers ?b => exact (short_suffix a b H)
  | H : short_numbers (?a :: ?b) |- short_numbers ?b => exact (short_suffix [a] b H) end.
Lemma date_inv s r rest : short_numbers s → parse_date s = Some (r, rest) → ∃ t, s = t ++ rest ∧ date_text t r.
Proof.
  intros Hs. unfold parse_date. destruct (hd 0 s =? 77) eqn:E77.
  { destruct (hd_not_nil s (λ c, c =? 77) eq_refl E77) as (c & s0 & -> & Hc). apply Z.eqb_eq in Hc as ->. cbn [drop]. rewrite drop_0.
    assert (H0 : short_numbers s0) by shorter.
    destruct (parse_number s0) as [[m s1]|] eqn:E1; [|done]. cbn [mbind option_bind].
    apply parse_number_inv in E1 as (tm & -> & Hm & _); [|done]. assert (H1 : short_numbers s1) by shorter.
    destruct (skip_char DOT s1) as [s2|] eqn:E2; [|done]. apply skip_char_inv in E2 as ->. cbn [mbind option_bind].
    assert (H2 : short_numbers s2) by shorter. destruct (parse_number s2) as [[w s3]|] eqn:E3; [|done]. cbn [mbind option_bind].
    apply parse_number_inv in E3 as (tw & -> & Hw & _); [|done]. assert (H3 : short_numbers s3) by shorter.
    destruct (skip_char DOT s3) as [s4|] eqn:E4; [|done]. apply skip_char_inv in E4 as ->. cbn [mbind option_bind].
    assert (H4 : short_numbers s4) by shorter. destruct (parse_number s4) as [[d s5]|] eqn:E5; [|done]. cbn [mbind option_bind].
    apply parse_number_inv in E5 as (td & -> & Hd & _); [|done].
    destruct (_ || _) eqn:E; [done|]. intros [= <- <-]. rewrite !orb_false_iff, !Z.gtb_ltb, !Z.ltb_ge in E.
    exists (77 :: tm ++ DOT :: tw ++ DOT :: td). cbn [app]. rewrite <- !app_assoc. cbn [app]. rewrite <- !app_assoc.
    split; [done|]. constructor; (done || lia). }
  destruct (hd 0 s =? 74) eqn:E74.
  { destruct (hd_not_nil s (λ c, c =? 74) eq_refl E74) as (c & s0 & -> & Hc). apply Z.eqb_eq in Hc as ->. cbn [drop]. rewrite drop_0.
    assert (H0 : short_numbers s0) by shorter. destruct (parse_number s0) as [[n s1]|] eqn:E1; [|done]. cbn [mbind option_bind].
    apply parse_number_inv in E1 as (tn & -> & Hn & _); [|done]. destruct (_ || _) eqn:E; [done|].
    intros [= <- <-]. rewrite orb_false_iff, Z.gtb_ltb, !Z.ltb_ge in E. exists (74 :: tn). split; [done|]. constructor; (done || lia). }
  destruct (is_digit _); [|done]. destruct (parse_number s) as [[n s1]|] eqn:E1; [|done]. cbn [mbind option_bind].
  apply parse_number_inv in E1 as (tn & -> & Hn & H0); [|done]. rewrite Z.gtb_ltb. destruct (Z.ltb_spec 365 n); [done|].
  intros [= <- <-]. rewrite Z.mod_small by lia. exists tn. split; [done|]. constructor; (done || lia).
Qed.
Lemma rule_inv s r rest : short_numbers s → parse_rule s = Some (r, rest) → ∃ t, s = t ++ rest ∧ rule_text t r.
Proof.
  intros Hs. unfold parse_rule. destruct (parse_date s) as [[r0 s1]|] eqn:E; [|done]. cbn [mbind option_bind].
  apply date_inv in E as (t & -> & Ht); [|done]. destruct (hd 0 s1 =? SLASH) eqn:Es; [|intros [= <- <-]; exists t; split; [done|by constructor]].
  destruct (hd_not_nil s1 (λ c, c =? SLASH) eq_refl Es) as (c & s2 & -> & Hc). apply Z.eqb_eq in Hc as ->. cbn [drop]. rewrite drop_0.
  destruct (parse_hms s2 167) as [[v s3]|] eqn:Ev; [|done]. cbn [mbind option_bind]. intros [= <- <-].
  apply hms_inv in Ev as (tt & -> & Hv). exists (t ++ SLASH :: tt). rewrite <- app_assoc. split; [done|]. by constructor.
Qed.
Lemma dst_off_inv off p off2 rest :
  (if negb (hd 0 p =? 44) && negb (length p =? 0)%nat then parse_hms p 24 else Some (off - 3600, p)) = Some (off2, rest) →
  ∃ t, p = t ++ rest ∧ dst_off_text off t off2.
Proof.
  destruct (negb _ && negb _).
  - intros (t & -> & Ht)%hms_inv. exists t. split; [done|by constructor].
  - intros [= <- <-]. exists []. split; [done|constructor].
Qed.
Lemma zone_inv s tz : short_numbers s → parse_spec s = Some tz → zone_text s tz.
Proof.
  intros Hs. unfold parse_spec. destruct (_ || _) eqn:Elen; [done|]. apply orb_false_iff in Elen as [_ Elen]. apply Nat.leb_gt in Elen.
  destruct (parse_abbr s) as [[std p]|] eqn:E1; [|done]. cbn [mbind option_bind]. apply parse_abbr_inv in E1 as (tn & -> & Hn).
  assert (H1 : short_numbers p) by shorter. destruct (parse_hms p 24) as [[off p1]|] eqn:E2; [|done]. cbn [mbind option_bind].
  apply hms_inv in E2 as (to & -> & Ho). assert (H2 : short_numbers p1) by shorter.
  destruct p1 as [|c p1]; [intros [= <-]; rewrite app_nil_r in *; split; [by constructor|done]|].
  destruct (parse_abbr (c :: p1)) as [[dst p2]|] eqn:E3; [|done]. cbn [mbind option_bind]. apply parse_abbr_inv in E3 as (tn2 & E3 & Hn2).
  rewrite E3 in *. clear E3. assert (H3 : short_numbers p2) by shorter. destruct (if negb _ && negb _ then _ else _) as [[off2 p3]|] eqn:E4; [|done].
  cbn [mbind option_bind]. apply dst_off_inv in E4 as (to2 & -> & Ho2). assert (H4 : short_numbers p3) by shorter.
  destruct (skip_char 44 p3) as [p4|] eqn:E5; [|done]. cbn [mbind option_bind]. apply skip_char_inv in E5 as ->.
  assert (H5 : short_numbers p4) by shorter. destruct (parse_rule p4) as [[r1 p5]|] eqn:E6; [|done]. cbn [mbind option_bind].
  apply rule_inv in E6 as (ts & -> & Hts); [|done]. assert (H6 : short_numbers p5) by shorter.
  destruct (skip_char 44 p5) as [p6|] eqn:E7; [|done]. cbn [mbind option_bind]. apply skip_char_inv in E7 as ->.
  assert (H7 : short_numbers p6) by shorter. destruct (parse_rule p6) as [[r2 [|x p7]]|] eqn:E8; [|done..]. cbn [mbind option_bind].
  apply rule_inv in E8 as (te & -> & Hte); [|done]. intros [= <-]. rewrite app_nil_r in *. split; [by constructor|done].
Qed.

(** ** The local clock *)

Lemma hours_bound n : ∀ s hh v rest, 0 <= hh → hours_loop n s hh = (v, rest) → 0 <= v.
Proof.
  induction n as [|n IH]; intros s hh v rest Hh; cbn [hours_loop]; [by intros [= <- <-]|].
  destruct s as [|c s]; [by intros [= <- <-]|]. destruct (is_digit c) eqn:E; [|by intros [= <- <-]].
  apply IH. unfold is_digit in E. lia.
Qed.
Lemma sixty_bound s v rest : parse_sixty s = Some (v, rest) → 0 <= v <= 59.
Proof.
  unfold parse_sixty. destruct s as [|c s]; [by intros [= <- <-]|]. destruct (negb (c =? 58)); [by intros [= <- <-]|].
  destruct s as [|a [|b s]]; [done|done|]. destruct (is_digit a && is_digit b) eqn:E; [|done]. cbn zeta.
  rewrite Z.gtb_ltb. destruct (Z.ltb_spec 59 ((a - 48) * 10 + (b - 48))); [done|]. intros [= <- <-].
  apply andb_true_iff in E as [Ea Eb]. unfold is_digit in *. lia.
Qed.
Lemma hms_bound s hh_max v rest : 0 <= hh_max → parse_hms s hh_max = Some (v, rest) →
  - (hh_max * 3600 + 3599) <= v <= hh_max * 3600 + 3599.
Proof.
  intros Hmax. unfold parse_hms. cbn zeta. destruct (negb (is_digit _)); [done|].
  destruct (hours_loop 3 _ 0) as [hh s1] eqn:Eh. apply hours_bound in Eh; [|lia].
  rewrite Z.gtb_ltb. destruct (Z.ltb_spec hh_max hh); [done|].
  destruct (hd 0 s1 =? 58).
  - destruct (parse_sixty s1) as [[mm s2]|] eqn:Em; [|done]. cbn [mbind option_bind].
    destruct (parse_sixty s2) as [[ss s3]|] eqn:Es; [|done]. cbn [mbind option_bind].
    apply sixty_bound in Em, Es. intros [= <- <-]. destruct (hd 0 s =? DASH); lia.
  - cbn [mbind option_bind]. intros [= <- <-]. destruct (hd 0 s =? DASH); lia.
Qed.
Definition offset_ok (off : Z) : Prop := -100000 <= off <= 100000.
Lemma parse_spec_offsets spec tz : parse_spec spec = Some tz → offset_ok (tz_std_off_s tz) ∧ offset_ok (tz_dst_off_s tz).
Proof.
  unfold parse_spec, offset_ok. destruct (_ || _); [done|]. destruct (parse_abbr spec) as [[std p]|]; [|done]. cbn [mbind option_bind].
  destruct (parse_hms p 24) as [[off p1]|] eqn:E1; [|done]. cbn [mbind option_bind]. apply hms_bound in E1; [|lia].
  destruct p1 as [|c p1]; [intros [= <-]; cbn; lia|]. destruct (parse_abbr (c :: p1)) as [[dst p2]|]; [|done]. cbn [mbind option_bind].
  destruct (negb _ && negb _).
  - destruct (parse_hms p2 24) as [[off2 p3]|] eqn:E2; [|done]. cbn [mbind option_bind]. apply hms_bound in E2; [|lia].
    destruct (skip_char 44 p3) as [p4|]; [|done]. cbn [mbind option_bind]. destruct (parse_rule p4) as [[r1 p5]|]; [|done].
    cbn [mbind option_bind]. destruct (skip_char 44 p5) as [p6|]; [|done]. cbn [mbind option_bind].
    destruct (parse_rule p6) as [[r2 [|x p7]]|]; [|done..]. cbn [mbind option_bind]. intros [= <-]. cbn. lia.
  - cbn [mbind option_bind]. destruct (skip_char 44 p2) as [p4|]; [|done]. cbn [mbind option_bind].
    destruct (parse_rule p4) as [[r1 p5]|]; [|done].
    cbn [mbind option_bind]. destruct (skip_char 44 p5) as [p6|]; [|done]. cbn [mbind option_bind].
    destruct (parse_rule p6) as [[r2 [|x p7]]|]; [|done..]. cbn [mbind option_bind]. intros [= <-]. cbn. lia.
Qed.
Lemma local_clock_spec local : -80000000000000 <= local <= 80000000000000 →
  let c := local_clock local in
  valid_time c = true ∧ 0 <= ti_hour c ∧ 0 <= ti_minute c ∧ utc_seconds c = local - local mod 60.
Proof.
  intros Hl. unfold local_clock.
  assert (Ed : (if Z.rem local 86400 <? 0 then (Z.quot local 86400 - 1, Z.rem local 86400 + 86400)
    else (Z.quot local 86400, Z.rem local 86400)) = (local / 86400, local mod 86400)).
  { destruct (Z.ltb_spec (Z.rem local 86400) 0); f_equal; lia. }
  rewrite Ed. destruct (civil_spec (local / 86400)) as (y & m & d & -> & [Hm Hd] & Hn & _); [lia|]. cbn zeta.
  pose proof (dim_range y m Hm) as Hdim. set (r := local mod 86400). assert (Hr : 0 <= r < 86400) by (unfold r; lia).
  rewrite (Z.quot_div_nonneg r), (Z.rem_mod_nonneg r), (Z.quot_div_nonneg (r mod 3600)) by lia.
  unfold u8. rewrite !(Z.mod_small _ 256) by lia. unfold valid_time, utc_seconds. cbn [ti_year ti_month ti_day ti_hour ti_minute].
  rewrite Hn. split; [|unfold r; lia]. rewrite !Z.gtb_ltb. apply negb_true_iff. rewrite !orb_false_iff. 
  repeat split; apply Z.ltb_ge; lia.
Qed.
Lemma parse_date_ok s r rest : parse_date s = Some (r, rest) → rule_ok r.
Proof.
  unfold parse_date, rule_ok. destruct (hd 0 s =? 77).
  { destruct (parse_number _) as [[m s1]|]; [|done]. cbn [mbind option_bind]. destruct (skip_char DOT s1) as [s2|]; [|done].
    cbn [mbind option_bind]. destruct (parse_number s2) as [[w s3]|]; [|done]. cbn [mbind option_bind].
    destruct (skip_char DOT s3) as [s4|]; [|done]. cbn [mbind option_bind]. destruct (parse_number s4) as [[d s5]|]; [|done].
    cbn [mbind option_bind]. destruct (_ || _) eqn:E; [done|]. intros [= <- <-]. cbn.
    rewrite !orb_false_iff, !Z.gtb_ltb, !Z.ltb_ge in E. lia. }
  destruct (hd 0 s =? 74).
  { destruct (parse_number _) as [[n s1]|]; [|done]. cbn [mbind option_bind]. destruct (_ || _) eqn:E; [done|].
    intros [= <- <-]. cbn. rewrite orb_false_iff, Z.gtb_ltb, !Z.ltb_ge in E. lia. }
  destruct (is_digit _); [|done]. destruct (parse_number _) as [[n s1]|]; [|done]. cbn [mbind option_bind].
  destruct (n >? 365); [done|]. intros [= <- <-]. cbn. lia.
Qed.
Lemma parse_rule_ok s r rest : parse_rule s = Some (r, rest) → rule_ok r.
Proof.
  unfold parse_rule. destruct (parse_date s) as [[r0 s1]|] eqn:E; [|done]. cbn [mbind option_bind].
  apply parse_date_ok in E. assert (Hw : ∀ t, rule_ok (with_time r0 t)) by (intros t; exact E).
  destruct (hd 0 s1 =? SLASH); [|by intros [= <- <-]].
  destruct (parse_hms _ 167) as [[t s2]|]; [|done]. cbn [mbind option_bind]. by intros [= <- <-].
Qed.
Lemma parse_spec_rules spec tz : parse_spec spec = Some tz → tz_has_dst tz = true → rule_ok (tz_start tz) ∧ rule_ok (tz_end tz).
Proof.
  unfold parse_spec. destruct (_ || _); [done|]. destruct (parse_abbr spec) as [[std p]|]; [|done]. cbn [mbind option_bind].
  destruct (parse_hms p 24) as [[off p1]|]; [|done]. cbn [mbind option_bind].
  destruct p1 as [|c p1]; [by intros [= <-]|]. destruct (parse_abbr (c :: p1)) as [[dst p2]|]; [|done]. cbn [mbind option_bind].
  destruct (if negb _ && negb _ then _ else _) as [[off2 p3]|]; [|done]. cbn [mbind option_bind].
  destruct (skip_char 44 p3) as [p4|]; [|done]. cbn [mbind option_bind]. destruct (parse_rule p4) as [[r1 p5]|] eqn:E1; [|done].
  cbn [mbind option_bind]. destruct (skip_char 44 p5) as [p6|]; [|done]. cbn [mbind option_bind].
  destruct (parse_rule p6) as [[r2 [|x p7]]|] eqn:E2; [|done..]. cbn [mbind option_bind]. intros [= <-] _. cbn.
  apply parse_rule_ok in E1, E2. done.
Qed.

(** Daylight saving is in force at [t], seconds of UTC: from the start rule's day at its
    time of standard time to the end rule's at its time of summer time, across the turn of
    the year where the start comes after the end. *)
Definition summer (tz : tz_spec_t) (year t : Z) : Prop :=
  tz_has_dst tz = true ∧ ∃ ds de, rule_date (tz_start tz) year ds ∧ rule_date (tz_end tz) year de ∧
    let start := ds * 86400 + ru_time_s (tz_start tz) + tz_std_off_s tz in
    let end_ := de * 86400 + ru_time_s (tz_end tz) + tz_dst_off_s tz in
    if decide (start <= end_) then start <= t < end_ else t < end_ ∨ start <= t.
Lemma in_dst_summer spec tz year t : parse_spec spec = Some tz → year_ok year →
  in_dst tz year t = true ↔ summer tz year t.
Proof.
  intros Hp Hy. unfold in_dst, summer. destruct (tz_has_dst tz) eqn:Ed; cbn [andb]; [|by split; [|intros [? _]]].
  destruct (parse_spec_rules _ _ Hp Ed) as [R1 R2].
  pose proof (rule_days_spec _ _ Hy R1) as D1. pose proof (rule_days_spec _ _ Hy R2) as D2.
  assert (H : ∀ a b : Z, (if a <=? b then (t >=? a) && (t <? b) else (t >=? a) || (t <? b)) = true ↔
    if decide (a <= b) then a <= t < b else t < b ∨ a <= t).
  { intros a b. rewrite !Z.geb_leb. destruct (Z.leb_spec a b), (decide (a <= b)); lia. }
  unfold rule_instant_utc. cbn zeta. rewrite H. split.
  - intros Hin. split; [done|]. eauto.
  - intros (_ & ds & de & H1 & H2 & Hin).
    rewrite (rule_date_unique _ _ _ _ Hy R1 H1 D1), (rule_date_unique _ _ _ _ Hy R2 H2 D2) in Hin. done.
Qed.

(** What the conversion does with what the parser read. *)
Lemma local_time_parsed spec utc n :
  -1000000 <= ti_year utc <= 1000000 → 0 <= ti_hour utc → 0 <= ti_minute utc →
  match parse_spec spec with
  | None => bramble_tz_localtime spec (Some utc) n = (BRAMBLE_TZ_BAD_SPEC, None)
  | Some tz =>
      if valid_time utc then
        ∃ dst local, (dst = true ↔ summer tz (ti_year utc) (utc_seconds utc)) ∧
          bramble_tz_localtime spec (Some utc) n =
            (if dst then BRAMBLE_TZ_DST else BRAMBLE_TZ_STD,
             Some (local, take (n - 1) (if dst then tz_dst_abbr tz else tz_std_abbr tz))) ∧
          valid_time local = true ∧
          let moved := utc_seconds utc - (if dst then tz_dst_off_s tz else tz_std_off_s tz) in
          utc_seconds local = moved - moved mod 60
      else bramble_tz_localtime spec (Some utc) n = (BRAMBLE_TZ_BAD_TIME, None)
  end.
Proof.
  intros Hy Hh Hmi. unfold bramble_tz_localtime. destruct (parse_spec spec) as [tz|] eqn:Ep; [|done].
  destruct (valid_time utc) eqn:Ev; cbn [negb]; [|done].
  set (dst := in_dst tz (ti_year utc) (utc_seconds utc)).
  set (off := if dst then tz_dst_off_s tz else tz_std_off_s tz).
  exists dst, (local_clock (utc_seconds utc - off)).
  assert (Hoff : offset_ok off) by (unfold off; destruct dst; by apply (parse_spec_offsets spec)).
  assert (Ht : -40000000000000 <= utc_seconds utc <= 40000000000000).
  { unfold valid_time in Ev. rewrite negb_true_iff, !orb_false_iff, !Z.gtb_ltb, !Z.ltb_ge in Ev.
    destruct Ev as (((((E1 & E2) & E3) & E4) & E5) & E6). assert (Hm : 1 <= ti_month utc <= 12) by lia.
    pose proof (dim_range (ti_year utc) _ Hm) as Hdim. unfold utc_seconds. rewrite days_closed by (unfold year_ok; lia).
    cbn zeta. pose proof (month_range _ Hm) as HM. unfold march_year. destruct (ti_month utc <=? 2); lia. }
  destruct (local_clock_spec (utc_seconds utc - off)) as (Hv & _ & _ & Hs); [unfold offset_ok in Hoff; lia|].
  split; [apply (in_dst_summer spec); [done|unfold year_ok; lia]|]. split; [done|]. split; [done|]. exact Hs.
Qed.

(** A date of the calendar and a minute of the day. *)
Definition valid_clock (c : bramble_tz_time_t) : Prop :=
  valid_date (ti_year c) (ti_month c) (ti_day c) ∧ ti_hour c <= 23 ∧ ti_minute c <= 59.
Lemma valid_time_clock c : valid_time c = true ↔ valid_clock c.
Proof.
  unfold valid_time, valid_clock, valid_date. rewrite negb_true_iff, !orb_false_iff, !Z.gtb_ltb, !Z.ltb_ge. lia.
Qed.


(** Every zone of the picker is valid. *)
Example presets_valid : forallb (λ p, bramble_tz_spec_valid p.2) k_presets = true.
Proof. vm_compute. reflexivity. Qed.
(** US Pacific on the first day of daylight saving of 2026, a minute before and at the change. *)
Definition pacific : list Z := str_bytes "PST8PDT,M3.2.0,M11.1.0".
Example pacific_change :
  bramble_tz_localtime pacific (Some (mk_time 2026 3 8 9 59)) 8 =
    (BRAMBLE_TZ_STD, Some (mk_time 2026 3 8 1 59, str_bytes "PST")) ∧
  bramble_tz_localtime pacific (Some (mk_time 2026 3 8 10 0)) 8 =
    (BRAMBLE_TZ_DST, Some (mk_time 2026 3 8 3 0, str_bytes "PDT")).
Proof. vm_compute. done. Qed.
(** A month that overflows 32 bits is read as another one. *)
Example overflowing_month : parse_rule (str_bytes "M4294967299.2.0") = parse_rule (str_bytes "M3.2.0").
Proof. vm_compute. reflexivity. Qed.

(** The US Pacific zone, read by the grammar. *)
Definition pacific_zone : tz_spec_t :=
  mk_spec (str_bytes "PST") (str_bytes "PDT") 28800 25200 true
    (mk_rule RULE_MWD 3 2 0 0 7200) (mk_rule RULE_MWD 11 1 0 0 7200).
Lemma pacific_text : zone_text pacific pacific_zone.
Proof.
  apply zone_inv; [|vm_compute; reflexivity]. intros a ds b E Hd.
  destruct (Nat.le_gt_cases (length ds) 9) as [|Hl]; [done|]. exfalso.
  assert (Hw : ∃ i, (i + 10 ≤ length pacific)%nat ∧ forallb is_digit (take 10 (drop i pacific)) = true).
  { exists (length a). rewrite E, !length_app. split; [lia|]. rewrite drop_app_length, take_app_le by lia.
    apply forallb_forall. apply List.Forall_forall. by apply Forall_take. }
  destruct Hw as (i & Hi & Hf). change (length pacific) with 22%nat in Hi.
  do 13 (destruct i as [|i]; [discriminate Hf|]). lia.
Qed.
Lemma transition_rules_exact_witness :
  let r := mk_rule RULE_MWD 3 5 0 0 7200 in
  rule_days r 2026 = days_from_civil 2026 3 29 ∧
  rule_date r 2026 (rule_days r 2026) ∧ ∀ day, rule_date r 2026 day → day = rule_days r 2026.
Proof.
  split; [reflexivity|]. apply (transition_rules_exact (mk_rule RULE_MWD 3 5 0 0 7200) 2026).
  - unfold year_ok. lia.
  - cbn. lia.
Defined.
