(* ===== verification/Nmea.v ===== *)
(** * NMEA sentences ([components/gps/nmea_parser.c])

    First the numbers of the C library it uses: [atoi], [strtol] and [atof] of a target
    whose [long] has 32 bits, and [float] arithmetic as IEEE 754 with round to nearest
    even, on the standard library's executable specification.  A [double] is rounded
    once from the exact decimal value.  Converting a float that does not fit an integer
    type is undefined in C: the class [FloatCast] is what the machine then produces.

    Then the splitter and the parsers of RMC, GGA and GSV sentences, the antenna warning
    and the receiver's own "no fix".  A sentence is the list of its bytes; a parser
    returns its verdict beside the position it updates. *)

From stdpp Require Import base strings numbers option decidable list.
From Stdlib Require Import SpecFloat.
From S2P Require Import Prelude CString NetworkKey.

Definition isspace (c : Z) : bool := (c =? 32) || ((9 <=? c) && (c <=? 13)).
Definition isalpha (c : Z) : bool := ((65 <=? c) && (c <=? 90)) || ((97 <=? c) && (c <=? 122)).
Definition isxdigit (c : Z) : bool :=
  isdigit c || ((65 <=? c) && (c <=? 70)) || ((97 <=? c) && (c <=? 102)).
(** The value of a character that is a digit in some base. *)
Definition digit_value (c : Z) : Z :=
  if isdigit c then c - 48 else if (97 <=? c) && (c <=? 122) then c - 87 else c - 55.

(** [s[i]], where the terminator is 0. *)
Definition chr (s : list Z) (i : nat) : Z := default 0 (s !! i).

(** The sign that may precede a number: whether it is a minus, and the rest. *)
Definition signed (s : list Z) : bool * list Z :=
  match s with
  | c :: s' => if c =? DASH then (true, s') else if c =? PLUS then (false, s') else (false, s)
  | [] => (false, [])
  end.
Definition digits_value (base : Z) (ds : list Z) : Z :=
  fold_left (λ v c, v * base + digit_value c) ds 0.

(** ** Integers *)

Definition LONG_MAX : Z := 2147483647.
Definition LONG_MIN : Z := -2147483648.
Definition saturate (v : Z) : Z := Z.min LONG_MAX (Z.max LONG_MIN v).
Definition strtol10 (s : list Z) : Z :=
  let '(neg, s) := signed (skip isspace s) in
  let '(ds, _) := span (λ c, negb (isdigit c)) s in
  let v := digits_value 10 ds in
  saturate (if neg then - v else v).
(** The optional [0x] counts as a prefix only when a hexadecimal digit follows. *)
Definition skip_0x (s : list Z) : list Z :=
  match s with
  | z :: x :: c :: s' => if (z =? 48) && (tolower x =? 120) && isxdigit c then c :: s' else s
  | _ => s
  end.
Definition strtol16 (s : list Z) : Z :=
  let '(neg, s) := signed (skip isspace s) in
  let '(ds, _) := span (λ c, negb (isxdigit c)) (skip_0x s) in
  let v := digits_value 16 ds in
  saturate (if neg then - v else v).
Definition c_atoi (s : list Z) : Z := strtol10 s.

(** ** Floating point *)

(** [double] and [float]. *)
Definition b64_ratio (p q : Z) : spec_float :=
  match p, q with
  | Zpos p, Zpos q => SFdiv 53 1024 (S754_finite false p 0) (S754_finite false q 0)
  | _, _ => S754_zero false
  end.
Definition b64_scale (m e : Z) : spec_float := binary_normalize 53 1024 m e false.
Definition b32_of_b64 (f : spec_float) : spec_float :=
  match f with
  | S754_finite s m e => binary_normalize 24 128 (if s then Zneg m else Zpos m) e s
  | f => f
  end.
Definition b32_of_Z (z : Z) : spec_float := binary_normalize 24 128 z 0 false.
(** A literal [p.qf]: the rational rounded to [float]. *)
Definition b32_ratio (p q : positive) : spec_float :=
  SFdiv 24 128 (S754_finite false p 0) (S754_finite false q 0).
Definition b32_add : spec_float → spec_float → spec_float := SFadd 24 128.
Definition b32_sub : spec_float → spec_float → spec_float := SFsub 24 128.
Definition b32_mul : spec_float → spec_float → spec_float := SFmul 24 128.
Definition b32_div : spec_float → spec_float → spec_float := SFdiv 24 128.
Definition b32_ltb (a b : spec_float) : bool := SFltb a b.
Definition b32_leb (a b : spec_float) : bool := SFleb a b.

(** An optional exponent: its letter, a sign and digits, or nothing is consumed. *)
Definition exponent (letter : Z) (s : list Z) : Z :=
  match s with
  | c :: s' =>
      if tolower c =? letter then
        let '(neg, s') := signed s' in
        let '(ds, _) := span (λ c, negb (isdigit c)) s' in
        if neg then - digits_value 10 ds else digits_value 10 ds
      else 0
  | [] => 0
  end.
(** Digits with an optional point: the digits, the number after the point, the rest. *)
Definition mantissa (digit : Z → bool) (s : list Z) : list Z * Z * list Z :=
  let '(ip, s1) := span (λ c, negb (digit c)) s in
  match s1 with
  | c :: s2 =>
      if c =? DOT then
        let '(fp, s3) := span (λ c, negb (digit c)) s2 in (ip ++ fp, Z.of_nat (length fp), s3)
      else (ip, 0, s1)
  | [] => (ip, 0, [])
  end.
Definition decimal (s : list Z) : spec_float :=
  let '(ds, places, rest) := mantissa isdigit s in
  match ds with
  | [] => S754_zero false
  | _ =>
      let v := digits_value 10 ds in
      let e := exponent 101 rest - places in
      if v =? 0 then S754_zero false
      else if 0 <=? e then b64_scale (v * 10 ^ e) 0 else b64_ratio v (10 ^ (- e))
  end.
Definition hexadecimal (s : list Z) : spec_float :=
  let '(ds, places, rest) := mantissa isxdigit s in
  b64_scale (digits_value 16 ds) (exponent 112 rest - 4 * places).
Definition starts_hex (s : list Z) : bool :=
  has_prefix_nocase s (str_bytes "0x") &&
  (isxdigit (chr s 2) || ((chr s 2 =? DOT) && isxdigit (chr s 3))).
Definition atof (s : list Z) : spec_float :=
  let '(neg, s) := signed (skip isspace s) in
  let v := if has_prefix_nocase s (str_bytes "inf") then S754_infinity false
           else if has_prefix_nocase s (str_bytes "nan") then S754_nan
           else if starts_hex s then hexadecimal (drop 2 s)
           else decimal s in
  if neg then SFopp v else v.
(** [float x = atof(s)]. *)
Definition atof32 (s : list Z) : spec_float := b32_of_b64 (atof s).

(** The value towards zero of a finite float. *)
Definition truncate (f : spec_float) : option Z :=
  match f with
  | S754_zero _ => Some 0
  | S754_finite s m e =>
      let a := if 0 <=? e then Zpos m * 2 ^ e else Zpos m / 2 ^ (- e) in Some (if s then - a else a)
  | _ => None
  end.
(** What a conversion to the type of the range [lo..hi] yields outside it. *)
Class FloatCast := out_of_range : Z → Z → spec_float → Z.
Definition float_to `{FloatCast} (lo hi : Z) (f : spec_float) : Z :=
  match truncate f with
  | Some z => if (lo <=? z) && (z <=? hi) then z else out_of_range lo hi f
  | None => out_of_range lo hi f
  end.
Definition float_to_int `{FloatCast} : spec_float → Z := float_to (-2147483648) 2147483647.
Definition float_to_i16 `{FloatCast} : spec_float → Z := float_to (-32768) 32767.
Definition float_to_u8 `{FloatCast} : spec_float → Z := float_to 0 255.
(** A result that fits the type, as every processor gives. *)
Class FloatCastLaws `{FloatCast} :=
  out_of_range_fits lo hi f : lo <= hi → lo <= out_of_range lo hi f <= hi.

(** The conversions of the processors the firmware runs on: the nearest value. *)
Definition saturating_cast : FloatCast := λ lo hi f,
  match f with
  | S754_nan => lo
  | S754_infinity s | S754_finite s _ _ => if s then lo else hi
  | S754_zero _ => lo
  end.
Lemma saturating_cast_laws : @FloatCastLaws saturating_cast.
Proof. intros lo hi f H. unfold out_of_range, saturating_cast. destruct f as [|[]| |[] ??]; lia. Qed.

Lemma float_to_range `{FloatCastLaws} lo hi f : lo <= hi → lo <= float_to lo hi f <= hi.
Proof.
  intros Hl. unfold float_to. destruct (truncate f) as [z|]; [|by apply out_of_range_fits].
  destruct ((lo <=? z) && (z <=? hi)) eqn:E; [conds; lia|by apply out_of_range_fits].
Qed.

(** ** Sentences *)

Definition DOLLAR : Z := 36.
Definition STAR : Z := 42.
Definition FIELD_SEP : Z := 44.
Definition CH_0 : Z := 48.
Definition CH_8 : Z := 56.
Definition CH_A : Z := 65.
Definition CH_E : Z := 69.
Definition CH_N : Z := 78.
Definition CH_S : Z := 83.
Definition CH_V : Z := 86.
Definition CH_W : Z := 87.

Record nmea_position_t := mk_nmea {
  np_latitude_e7 : Z; np_longitude_e7 : Z; np_altitude_m : Z; np_accuracy_m : Z; np_speed_kmh : Z;
  np_heading_deg2 : Z; np_timestamp : Z; np_valid : bool; np_sats_used : Z; np_fix_quality : Z;
  np_utc_hour : Z; np_utc_min : Z; np_utc_valid : bool;
  np_utc_year : Z; np_utc_month : Z; np_utc_day : Z; np_utc_date_valid : bool }.
Definition nmea_zero : nmea_position_t := mk_nmea 0 0 0 0 0 0 0 false 0 0 0 0 false 0 0 0 false.

(** Assignments to the fields. *)
Definition np_set_valid (v : bool) (p : nmea_position_t) : nmea_position_t :=
  let '(mk_nmea la lo al ac sp hd ts _ su fq hh mm uv yy mo dd dv) := p in
  mk_nmea la lo al ac sp hd ts v su fq hh mm uv yy mo dd dv.
Definition np_set_coords (la lo : Z) (p : nmea_position_t) : nmea_position_t :=
  let '(mk_nmea _ _ al ac sp hd ts v su fq hh mm uv yy mo dd dv) := p in
  mk_nmea la lo al ac sp hd ts v su fq hh mm uv yy mo dd dv.
Definition np_set_altitude (al : Z) (p : nmea_position_t) : nmea_position_t :=
  let '(mk_nmea la lo _ ac sp hd ts v su fq hh mm uv yy mo dd dv) := p in
  mk_nmea la lo al ac sp hd ts v su fq hh mm uv yy mo dd dv.
Definition np_set_accuracy (ac : Z) (p : nmea_position_t) : nmea_position_t :=
  let '(mk_nmea la lo al _ sp hd ts v su fq hh mm uv yy mo dd dv) := p in
  mk_nmea la lo al ac sp hd ts v su fq hh mm uv yy mo dd dv.
Definition np_set_speed (sp : Z) (p : nmea_position_t) : nmea_position_t :=
  let '(mk_nmea la lo al ac _ hd ts v su fq hh mm uv yy mo dd dv) := p in
  mk_nmea la lo al ac sp hd ts v su fq hh mm uv yy mo dd dv.
Definition np_set_heading (hd : Z) (p : nmea_position_t) : nmea_position_t :=
  let '(mk_nmea la lo al ac sp _ ts v su fq hh mm uv yy mo dd dv) := p in
  mk_nmea la lo al ac sp hd ts v su fq hh mm uv yy mo dd dv.
Definition np_set_sats (su : Z) (p : nmea_position_t) : nmea_position_t :=
  let '(mk_nmea la lo al ac sp hd ts v _ fq hh mm uv yy mo dd dv) := p in
  mk_nmea la lo al ac sp hd ts v su fq hh mm uv yy mo dd dv.
Definition np_set_quality (fq : Z) (p : nmea_position_t) : nmea_position_t :=
  let '(mk_nmea la lo al ac sp hd ts v su _ hh mm uv yy mo dd dv) := p in
  mk_nmea la lo al ac sp hd ts v su fq hh mm uv yy mo dd dv.
Definition np_set_time (hh mm : Z) (uv : bool) (p : nmea_position_t) : nmea_position_t :=
  let '(mk_nmea la lo al ac sp hd ts v su fq _ _ _ yy mo dd dv) := p in
  mk_nmea la lo al ac sp hd ts v su fq hh mm uv yy mo dd dv.
Definition np_set_date (yy mo dd : Z) (p : nmea_position_t) : nmea_position_t :=
  let '(mk_nmea la lo al ac sp hd ts v su fq hh mm uv _ _ _ _) := p in
  mk_nmea la lo al ac sp hd ts v su fq hh mm uv yy mo dd true.

(** ** Fields *)

Definition field_empty (f : list Z) : bool := match f with [] => true | _ => false end.
Definition field_is_numeric (f : list Z) : bool :=
  if field_empty f then false else forallb (λ c, negb ((c <? 48) || (c >? 57))) f.
(** The fields stored, at most [max_fields]; the terminators written over the
    separators end each one. *)
Fixpoint nmea_split_loop (s : list Z) : list (list Z) :=
  match s with
  | [] => [[]]
  | c :: s' =>
      if c =? STAR then [[]]
      else if c =? FIELD_SEP then [] :: nmea_split_loop s'
      else match nmea_split_loop s' with f :: fs => (c :: f) :: fs | [] => [[c]] end
  end.
Definition nmea_split (sentence : list Z) (max_fields : nat) : list (list Z) :=
  take max_fields (nmea_split_loop sentence).
(** [fields[i]]. *)
Definition fld (fs : list (list Z)) (i : nat) : list Z := default [] (fs !! i).

Definition valid_hemisphere (dir : Z) (latitude : bool) : bool :=
  if latitude then (dir =? CH_N) || (dir =? CH_S) else (dir =? CH_E) || (dir =? CH_W).

Section Parser.
Context `{FloatCast}.

(** Degrees and minutes of a [DDMM.MMMM] field. *)
Definition degrees_minutes (field : list Z) : Z * spec_float :=
  let raw := atof32 field in
  let degrees := float_to_int (b32_div raw (b32_of_Z 100)) in
  (degrees, b32_sub raw (b32_mul (b32_of_Z degrees) (b32_of_Z 100))).
Definition validate_coord_field (f : list Z) (latitude : bool) : bool :=
  if field_empty f then false
  else
    let min_digits_before_dot := (if latitude then 4 else 5)%nat in
    match field DOT f with
    | (_, None) => false
    | (before, Some _) =>
        if (length before <? min_digits_before_dot)%nat then false
        else if negb (forallb (λ c, (c =? DOT) || isdigit c) f) then false
        else
          let '(degrees, minutes) := degrees_minutes f in
          if b32_ltb minutes (b32_of_Z 0) || b32_leb (b32_of_Z 60) minutes then false
          else if latitude && (degrees >? 90) then false
          else if negb latitude && (degrees >? 180) then false
          else true
    end.
Definition nmea_dm_to_degrees (field : list Z) (dir : Z) : spec_float :=
  if field_empty field then b32_of_Z 0
  else
    let '(degrees, minutes) := degrees_minutes field in
    let decimal := b32_add (b32_of_Z degrees) (b32_div minutes (b32_of_Z 60)) in
    if (dir =? CH_S) || (dir =? CH_W) then SFopp decimal else decimal.
Definition coord_e7 (field : list Z) (dir : Z) : Z :=
  float_to_int (b32_mul (nmea_dm_to_degrees field dir) (b32_of_Z 10000000)).

Definition two_digits (f : list Z) (i : nat) : Z := (chr f i - CH_0) * 10 + (chr f (S i) - CH_0).
Definition parse_speed (f : list Z) (pos : nmea_position_t) : nmea_position_t :=
  let speed_kmh := b32_mul (atof32 f) (b32_ratio 1852 1000) in
  np_set_speed (if b32_ltb (b32_of_Z 255) speed_kmh then 255 else float_to_u8 speed_kmh) pos.
Definition parse_heading (f : list Z) (pos : nmea_position_t) : nmea_position_t :=
  let h := float_to_u8 (b32_div (atof32 f) (b32_of_Z 2)) in
  np_set_heading (if h >? 179 then 179 else h) pos.
Definition parse_utc_date (f : list Z) (pos : nmea_position_t) : nmea_position_t :=
  if forallb isdigit (take 6 f) then
    let dd := two_digits f 0 in
    let mo := two_digits f 2 in
    let yy := two_digits f 4 in
    if (dd >=? 1) && (dd <=? 31) && (mo >=? 1) && (mo <=? 12)
    then np_set_date (u16 (2000 + yy)) (u8 mo) (u8 dd) pos else pos
  else pos.

Definition nmea_parse_rmc (sentence : list Z) (pos : nmea_position_t) : bool * nmea_position_t :=
  let fs := nmea_split sentence 13 in
  let n := length fs in
  if (n <? 7)%nat then (false, pos)
  else if negb (bool_decide (fld fs 0 = str_bytes "$GPRMC")) && negb (bool_decide (fld fs 0 = str_bytes "$GNRMC"))
  then (false, pos)
  else if (n <? 3)%nat || negb (chr (fld fs 2) 0 =? CH_A) then (false, np_set_valid false pos)
  else if negb (valid_hemisphere (chr (fld fs 4) 0) true) || negb (valid_hemisphere (chr (fld fs 6) 0) false)
  then (false, np_set_valid false pos)
  else if negb (validate_coord_field (fld fs 3) true) || negb (validate_coord_field (fld fs 5) false)
  then (false, np_set_valid false pos)
  else
    let pos := np_set_coords (coord_e7 (fld fs 3) (chr (fld fs 4) 0)) (coord_e7 (fld fs 5) (chr (fld fs 6) 0)) pos in
    let pos := if (7 <? n)%nat && negb (field_empty (fld fs 7)) then parse_speed (fld fs 7) pos else pos in
    let pos := if (8 <? n)%nat && negb (field_empty (fld fs 8)) then parse_heading (fld fs 8) pos else pos in
    let pos := if (9 <? n)%nat && negb (field_empty (fld fs 9)) && (6 <=? length (fld fs 9))%nat
               then parse_utc_date (fld fs 9) pos else pos in
    (true, np_set_valid true pos).

Definition parse_utc_time (f : list Z) (pos : nmea_position_t) : nmea_position_t :=
  let pos := np_set_time (np_utc_hour pos) (np_utc_min pos) false pos in
  if negb (field_empty f) && isdigit (chr f 0) && isdigit (chr f 1) && isdigit (chr f 2) && isdigit (chr f 3) then
    let hh := two_digits f 0 in
    let mm := two_digits f 2 in
    if (hh <? 24) && (mm <? 60) then np_set_time (u8 hh) (u8 mm) true pos else pos
  else pos.
(** A count between 0 and 99. *)
Definition clamp_99 (v : Z) : Z := if v <? 0 then 0 else if v >? 99 then 99 else v.
Definition gga_quality (f : list Z) : Z :=
  if negb (field_empty f) && isdigit (chr f 0) && (chr f 0 <=? CH_8) then u8 (chr f 0 - CH_0) else 0.
Definition parse_accuracy (f : list Z) (pos : nmea_position_t) : nmea_position_t :=
  let acc := b32_mul (atof32 f) (b32_of_Z 5) in
  np_set_accuracy (if b32_ltb (b32_of_Z 255) acc then 255 else float_to_u8 acc) pos.

Definition nmea_parse_gga (sentence : list Z) (pos : nmea_position_t) : bool * nmea_position_t :=
  let fs := nmea_split sentence 15 in
  let n := length fs in
  if (n <? 7)%nat then (false, pos)
  else if negb (bool_decide (fld fs 0 = str_bytes "$GPGGA")) && negb (bool_decide (fld fs 0 = str_bytes "$GNGGA"))
  then (false, pos)
  else
    let pos := parse_utc_time (fld fs 1) pos in
    let pos := np_set_sats (if (7 <? n)%nat && negb (field_empty (fld fs 7))
                            then u8 (clamp_99 (c_atoi (fld fs 7))) else 0) pos in
    let pos := np_set_quality (gga_quality (fld fs 6)) pos in
    if np_fix_quality pos =? 0 then (false, np_set_valid false pos)
    else if negb (valid_hemisphere (chr (fld fs 3) 0) true) || negb (valid_hemisphere (chr (fld fs 5) 0) false)
    then (false, np_set_valid false pos)
    else if negb (validate_coord_field (fld fs 2) true) || negb (validate_coord_field (fld fs 4) false)
    then (false, np_set_valid false pos)
    else
      let pos := np_set_coords (coord_e7 (fld fs 2) (chr (fld fs 3) 0)) (coord_e7 (fld fs 4) (chr (fld fs 5) 0)) pos in
      let pos := if (9 <? n)%nat && negb (field_empty (fld fs 9))
                 then np_set_altitude (float_to_i16 (atof32 (fld fs 9))) pos else pos in
      let pos := if (8 <? n)%nat && negb (field_empty (fld fs 8)) then parse_accuracy (fld fs 8) pos else pos in
      (true, np_set_valid true pos).

End Parser.

(** ** Satellites in view *)

Record nmea_gsv_t := mk_gsv {
  gv_talker : list Z; gv_total_msgs : Z; gv_msg_num : Z; gv_sats_in_view : Z; gv_tracked : Z;
  gv_snr_max : Z; gv_signal_id : Z }.
Definition gsv_zero : nmea_gsv_t := mk_gsv [] 0 0 0 0 0 0.

(** A number of messages, 0 unless it is a digit. *)
Definition gsv_number (f : list Z) : Z :=
  let v := if field_empty f then 0 else c_atoi f in
  u8 (if (v <? 0) || (v >? 9) then 0 else v).
Definition gsv_signal (fs : list (list Z)) : Z :=
  let n := length fs in
  if (4 <? n)%nat && ((n - 4) mod 4 =? 1)%nat then
    let sig := fld fs (n - 1) in
    if negb (field_empty sig) && isxdigit (chr sig 0) then
      let v := strtol16 sig in u8 (if (v <? 0) || (v >? 15) then 0 else v)
    else 0
  else 0.
(** One satellite group: the counts so far, its identifier and its C/N0. *)
Definition gsv_group (tracked snr_max : Z) (prn snr : list Z) : Z * Z :=
  if field_empty prn then (tracked, snr_max)
  else if field_empty snr then (tracked, snr_max)
  else
    let v := c_atoi snr in
    if v <=? 0 then (tracked, snr_max)
    else
      let v := if v >? 99 then 99 else v in
      (if tracked <? 99 then u8 (tracked + 1) else tracked, if u8 v >? snr_max then u8 v else snr_max).
Fixpoint gsv_groups (groups : list (list Z)) (acc : Z * Z) : Z * Z :=
  match groups with
  | prn :: _ :: _ :: snr :: rest => gsv_groups rest (gsv_group acc.1 acc.2 prn snr)
  | _ => acc
  end.
Definition nmea_parse_gsv (sentence : list Z) : bool * nmea_gsv_t :=
  let fs := nmea_split sentence 21 in
  let n := length fs in
  let f0 := fld fs 0 in
  if (n <? 4)%nat then (false, gsv_zero)
  else if negb (length f0 =? 6)%nat || negb (chr f0 0 =? DOLLAR) || negb (isalpha (chr f0 1))
          || negb (isalpha (chr f0 2)) || negb (bool_decide (drop 3 f0 = str_bytes "GSV"))
  then (false, gsv_zero)
  else
    let talker := [chr f0 1; chr f0 2] in
    if field_empty (fld fs 3) then (false, mk_gsv talker 0 0 0 0 0 0)
    else
      let total_msgs := gsv_number (fld fs 1) in
      if negb (field_empty (fld fs 2)) && negb (field_is_numeric (fld fs 2))
      then (false, mk_gsv talker total_msgs 0 0 0 0 0)
      else
        let '(tracked, snr_max) := gsv_groups (drop 4 fs) (0, 0) in
        (true, mk_gsv talker total_msgs (gsv_number (fld fs 2)) (u8 (clamp_99 (c_atoi (fld fs 3))))
                 tracked snr_max (gsv_signal fs)).

(** ** Verdicts on the raw line *)

Definition nmea_is_antenna_open (sentence : list Z) : bool :=
  if negb (has_prefix sentence (str_bytes "$GPTXT")) && negb (has_prefix sentence (str_bytes "$GNTXT"))
  then false
  else match strstr (str_bytes "ANTENNA OPEN") sentence with Some _ => true | None => false end.
(** The rest of the sentence from field [index] on. *)
Fixpoint nmea_peek_field (sentence : list Z) (index : nat) : option (list Z) :=
  match index with
  | O => Some sentence
  | S index' =>
      match (span (λ c, (c =? FIELD_SEP) || (c =? STAR)) sentence).2 with
      | c :: rest => if negb (c =? FIELD_SEP) then None else nmea_peek_field rest index'
      | [] => None
      end
  end.
Definition nmea_reports_no_fix (sentence : list Z) : bool :=
  if negb (chr sentence 0 =? DOLLAR) || (length sentence <? 6)%nat then false
  else if has_prefix (drop 3 sentence) (str_bytes "RMC") then
    match nmea_peek_field sentence 2 with Some status => chr status 0 =? CH_V | None => false end
  else if has_prefix (drop 3 sentence) (str_bytes "GGA") then
    match nmea_peek_field sentence 6 with
    | Some quality =>
        (chr quality 0 =? CH_0) || (chr quality 0 =? FIELD_SEP) || (chr quality 0 =? 0) || (chr quality 0 =? STAR)
    | None => false
    end
  else false.
