(* ===== verification/GpsFeed.v ===== *)
(** * The receiver's feed ([components/gps/gps_feed.c], [gps_duty.c], [gps_pref.c])

    Assembly of lines from the byte stream, what each line changes, the expiry of what
    the receiver said, satellite statistics, and the decision to power the receiver.
    The first [line_pos] bytes of [line_buf] are the list [gf_line]; the positions
    handed to the fix callback are an output.  Times are [uint64_t] milliseconds. *)

From stdpp Require Import base strings numbers option decidable list.
From S2P Require Import Prelude Tables CString NetworkKey Nmea IdentityStore ParkedRetry Location.

Definition GPS_FEED_MAX_LINE : nat := 128.
Definition GPS_FEED_ANTENNA_TTL_MS : Z := 60000.
Definition GPS_FEED_GSV_TTL_MS : Z := 30000.
Definition GPS_FEED_SILENCE_TTL_MS : Z := 30000.
Definition GPS_FEED_MAX_GNSS : nat := 12.
Definition GPS_STATS_NMEA_NEVER : Z := UINT32_MAX.

Record gps_gsv_slot_t := mk_gslot {
  gs_talker : list Z; gs_signal_id : Z; gs_in_view : Z; gs_tracked : Z; gs_snr_max : Z;
  gs_acc_tracked : Z; gs_acc_snr_max : Z; gs_until_ms : Z }.
Definition gslot_zero : gps_gsv_slot_t := mk_gslot [] 0 0 0 0 0 0 0.
#[global] Instance gslot_inhabited : Inhabited gps_gsv_slot_t := populate gslot_zero.

Record gps_feed_t := mk_feed {
  gf_line : list Z; gf_acc : nmea_position_t; gf_pos : bramble_position_t; gf_has_fix : bool;
  gf_sats_used : Z; gf_fix_quality : Z; gf_gsv : list gps_gsv_slot_t;
  gf_first_line_ms : Z; gf_last_line_ms : Z; gf_any_line : bool; gf_antenna_until_ms : Z;
  gf_utc_hour : Z; gf_utc_min : Z; gf_utc_valid : bool;
  gf_utc_year : Z; gf_utc_month : Z; gf_utc_day : Z; gf_utc_date_valid : bool;
  gf_rx_bytes_total : Z; gf_rx_lines_total : Z; gf_chip_banner : list Z; gf_cb : bool }.

Definition gps_feed_init (cb : bool) : gps_feed_t :=
  mk_feed [] nmea_zero pos_zero false 0 0 (replicate GPS_FEED_MAX_GNSS gslot_zero) 0 0 false 0
    0 0 false 0 0 0 false 0 0 [] cb.
Definition gps_feed_reset (f : gps_feed_t) : gps_feed_t := gps_feed_init (gf_cb f).

(** Assignments to groups of fields. *)
Definition set_line (l : list Z) (f : gps_feed_t) : gps_feed_t :=
  let '(mk_feed _ ac po hf su fq gs fl ll an au hh mm uv yy mo dd dv rb rl cb k) := f in
  mk_feed l ac po hf su fq gs fl ll an au hh mm uv yy mo dd dv rb rl cb k.
Definition set_acc (ac : nmea_position_t) (f : gps_feed_t) : gps_feed_t :=
  let '(mk_feed l _ po hf su fq gs fl ll an au hh mm uv yy mo dd dv rb rl cb k) := f in
  mk_feed l ac po hf su fq gs fl ll an au hh mm uv yy mo dd dv rb rl cb k.
Definition set_fix (po : bramble_position_t) (f : gps_feed_t) : gps_feed_t :=
  let '(mk_feed l ac _ _ su fq gs fl ll an au hh mm uv yy mo dd dv rb rl cb k) := f in
  mk_feed l ac po true su fq gs fl ll an au hh mm uv yy mo dd dv rb rl cb k.
Definition gps_feed_clear_fix (f : gps_feed_t) : gps_feed_t :=
  let '(mk_feed l ac po _ su fq gs fl ll an au hh mm _ yy mo dd _ rb rl cb k) := f in
  mk_feed l ac po false su fq gs fl ll an au hh mm false yy mo dd false rb rl cb k.
Definition set_counts (su fq : Z) (f : gps_feed_t) : gps_feed_t :=
  let '(mk_feed l ac po hf _ _ gs fl ll an au hh mm uv yy mo dd dv rb rl cb k) := f in
  mk_feed l ac po hf su fq gs fl ll an au hh mm uv yy mo dd dv rb rl cb k.
Definition set_gsv (gs : list gps_gsv_slot_t) (f : gps_feed_t) : gps_feed_t :=
  let '(mk_feed l ac po hf su fq _ fl ll an au hh mm uv yy mo dd dv rb rl cb k) := f in
  mk_feed l ac po hf su fq gs fl ll an au hh mm uv yy mo dd dv rb rl cb k.
Definition note_line (now_ms : Z) (f : gps_feed_t) : gps_feed_t :=
  let '(mk_feed l ac po hf su fq gs fl _ an au hh mm uv yy mo dd dv rb rl cb k) := f in
  mk_feed l ac po hf su fq gs (if an then fl else now_ms) now_ms true au hh mm uv yy mo dd dv rb rl cb k.
Definition set_antenna (au : Z) (f : gps_feed_t) : gps_feed_t :=
  let '(mk_feed l ac po hf su fq gs fl ll an _ hh mm uv yy mo dd dv rb rl cb k) := f in
  mk_feed l ac po hf su fq gs fl ll an au hh mm uv yy mo dd dv rb rl cb k.
Definition set_utc (hh mm : Z) (f : gps_feed_t) : gps_feed_t :=
  let '(mk_feed l ac po hf su fq gs fl ll an au _ _ _ yy mo dd dv rb rl cb k) := f in
  mk_feed l ac po hf su fq gs fl ll an au hh mm true yy mo dd dv rb rl cb k.
Definition set_utc_date (yy mo dd : Z) (f : gps_feed_t) : gps_feed_t :=
  let '(mk_feed l ac po hf su fq gs fl ll an au hh mm uv _ _ _ _ rb rl cb k) := f in
  mk_feed l ac po hf su fq gs fl ll an au hh mm uv yy mo dd true rb rl cb k.
Definition set_rx (rb rl : Z) (f : gps_feed_t) : gps_feed_t :=
  let '(mk_feed l ac po hf su fq gs fl ll an au hh mm uv yy mo dd dv _ _ cb k) := f in
  mk_feed l ac po hf su fq gs fl ll an au hh mm uv yy mo dd dv rb rl cb k.
Definition set_banner (b : list Z) (f : gps_feed_t) : gps_feed_t :=
  let '(mk_feed l ac po hf su fq gs fl ll an au hh mm uv yy mo dd dv rb rl _ k) := f in
  mk_feed l ac po hf su fq gs fl ll an au hh mm uv yy mo dd dv rb rl b k.

(** ** Satellite cycles *)

Definition gsv_free (s : gps_gsv_slot_t) : bool := bool_decide (gs_talker s = []).
Definition gsv_is (talker : list Z) (signal_id : Z) (s : gps_gsv_slot_t) : bool :=
  negb (gsv_free s) && (gs_signal_id s =? signal_id) && bool_decide (gs_talker s = talker).
(** The index of the earliest expiry, the first of several. *)
Definition oldest_slot (slots : list gps_gsv_slot_t) : nat :=
  best_index (λ s t, gs_until_ms s <? gs_until_ms t) slots.
Definition gsv_claimed (talker : list Z) (signal_id : Z) : gps_gsv_slot_t :=
  mk_gslot (take 2 talker) signal_id 0 0 0 0 0 0.
(** The slot's index and the table in which it has been claimed. *)
Definition gsv_slot_for (gsv : list gps_gsv_slot_t) (talker : list Z) (signal_id : Z)
    : option nat * list gps_gsv_slot_t :=
  match talker with
  | [] => (None, gsv)
  | _ =>
      match find_index (gsv_is talker signal_id) gsv with
      | Some i => (Some i, gsv)
      | None =>
          match find_index gsv_free gsv with
          | Some i => (Some i, <[i := gsv_claimed talker signal_id]> gsv)
          | None => (Some (oldest_slot gsv), <[oldest_slot gsv := gsv_claimed talker signal_id]> gsv)
          end
      end
  end.
Definition gsv_update (g : nmea_gsv_t) (now_ms : Z) (s : gps_gsv_slot_t) : gps_gsv_slot_t :=
  let acc_tracked := if gv_msg_num g <=? 1 then 0 else gs_acc_tracked s in
  let acc_snr_max := if gv_msg_num g <=? 1 then 0 else gs_acc_snr_max s in
  let acc_tracked := u8 (if acc_tracked + gv_tracked g >? 99 then 99 else acc_tracked + gv_tracked g) in
  let acc_snr_max := if gv_snr_max g >? acc_snr_max then gv_snr_max g else acc_snr_max in
  let complete := (gv_total_msgs g =? 0) || (gv_msg_num g >=? gv_total_msgs g) in
  mk_gslot (gs_talker s) (gs_signal_id s) (gv_sats_in_view g)
    (if complete then acc_tracked else gs_tracked s) (if complete then acc_snr_max else gs_snr_max s)
    acc_tracked acc_snr_max (u64 (now_ms + GPS_FEED_GSV_TTL_MS)).
Definition feed_gsv (gsv : list gps_gsv_slot_t) (g : nmea_gsv_t) (now_ms : Z) : list gps_gsv_slot_t :=
  match gsv_slot_for gsv (gv_talker g) (gv_signal_id g) with
  | (Some i, gsv) => alter (gsv_update g now_ms) i gsv
  | (None, gsv) => gsv
  end.

(** ** One line *)

Definition feed_live (f : gps_feed_t) (now_ms : Z) : bool :=
  gf_any_line f && (now_ms <? u64 (gf_last_line_ms f + GPS_FEED_SILENCE_TTL_MS)).
(** [strncpy] into a buffer of a line. *)
Definition line_copy (line : list Z) : list Z := take (GPS_FEED_MAX_LINE - 1) line.
Definition is_rmc (line : list Z) : bool :=
  has_prefix line (str_bytes "$GPRMC") || has_prefix line (str_bytes "$GNRMC").
Definition is_gga (line : list Z) : bool :=
  has_prefix line (str_bytes "$GPGGA") || has_prefix line (str_bytes "$GNGGA").
Definition is_gsv (line : list Z) : bool :=
  (chr line 0 =? DOLLAR) && isalpha (chr line 1) && isalpha (chr line 2) && has_prefix (drop 3 line) (str_bytes "GSV").
Definition fix_position (acc : nmea_position_t) (now_ms : Z) : bramble_position_t :=
  mk_pos (np_latitude_e7 acc) (np_longitude_e7 acc) (np_altitude_m acc) (np_accuracy_m acc)
    (np_speed_kmh acc) (np_heading_deg2 acc) (u32 (now_ms / 1000)) true.

Section Feed.
Context `{FloatCast}.

Definition feed_rmc (line : list Z) (f : gps_feed_t) : bool * gps_feed_t :=
  let '(parsed, acc) := nmea_parse_rmc (line_copy line) (gf_acc f) in
  let f := set_acc acc f in
  (parsed, if negb parsed && nmea_reports_no_fix line then gps_feed_clear_fix f else f).
Definition feed_gga (line : list Z) (f : gps_feed_t) : bool * gps_feed_t :=
  let '(parsed, acc) := nmea_parse_gga (line_copy line) (gf_acc f) in
  let f := set_counts (np_sats_used acc) (np_fix_quality acc) (set_acc acc f) in
  (parsed, if negb parsed && nmea_reports_no_fix line then gps_feed_clear_fix f else f).
Definition feed_sentence (line : list Z) (now_ms : Z) (f : gps_feed_t) : bool * gps_feed_t :=
  if is_rmc line then feed_rmc line f
  else if is_gga line then feed_gga line f
  else if is_gsv line then
    match nmea_parse_gsv (line_copy line) with
    | (true, g) => (false, set_gsv (feed_gsv (gf_gsv f) g now_ms) f)
    | (false, _) => (false, f)
    end
  else if nmea_is_antenna_open line then (false, set_antenna (u64 (now_ms + GPS_FEED_ANTENNA_TTL_MS)) f)
  else if has_prefix line (str_bytes "$PAIR021") && bool_decide (gf_chip_banner f = [])
  then (false, set_banner (line_copy line) f)
  else (false, f).
(** What a parsed position publishes. *)
Definition publish (now_ms : Z) (f : gps_feed_t) : gps_feed_t * list bramble_position_t :=
  let acc := gf_acc f in
  let pos := fix_position acc now_ms in
  let f := set_fix pos f in
  let f := if np_utc_valid acc then set_utc (np_utc_hour acc) (np_utc_min acc) f else f in
  let f := if np_utc_date_valid acc
           then set_utc_date (np_utc_year acc) (np_utc_month acc) (np_utc_day acc) f else f in
  (f, if gf_cb f then [pos] else []).
Definition gps_feed_line (f : gps_feed_t) (line : list Z) (now_ms : Z)
    : gps_feed_t * list bramble_position_t :=
  let '(parsed, f) := feed_sentence line now_ms (note_line now_ms f) in
  if parsed && np_valid (gf_acc f) then publish now_ms f else (f, []).

(** ** The byte stream *)

Definition LF : Z := 10.
Definition CR : Z := 13.
Definition gps_feed_byte (now_ms : Z) (f : gps_feed_t) (c : Z) : gps_feed_t * list bramble_position_t :=
  if c =? DOLLAR then (set_line [c] f, [])
  else if (c =? LF) || (c =? CR) then
    if (0 <? length (gf_line f))%nat then
      let f := set_rx (gf_rx_bytes_total f) (u32 (gf_rx_lines_total f + 1)) f in
      let '(f, out) := gps_feed_line f (c_string (gf_line f)) now_ms in
      (set_line [] f, out)
    else (f, [])
  else if (length (gf_line f) <? GPS_FEED_MAX_LINE - 1)%nat then (set_line (gf_line f ++ [c]) f, [])
  else (f, []).
Fixpoint bytes_loop (now_ms : Z) (f : gps_feed_t) (data : list Z) : gps_feed_t * list bramble_position_t :=
  match data with
  | [] => (f, [])
  | c :: data' =>
      let '(f, o1) := gps_feed_byte now_ms f c in
      let '(f, o2) := bytes_loop now_ms f data' in (f, o1 ++ o2)
  end.
Definition gps_feed_bytes (f : gps_feed_t) (data : list Z) (now_ms : Z)
    : gps_feed_t * list bramble_position_t :=
  bytes_loop now_ms
    (set_rx (u32 (gf_rx_bytes_total f + Z.of_nat (length data))) (gf_rx_lines_total f) f) data.
End Feed.

(** ** Readers *)

Definition gps_feed_has_fix (f : gps_feed_t) (now_ms : Z) : bool := gf_has_fix f && feed_live f now_ms.
Definition gps_feed_get_position (f : gps_feed_t) (now_ms : Z) : option bramble_position_t :=
  if negb (gps_feed_has_fix f now_ms) then None else Some (gf_pos f).
Definition gps_feed_get_utc_hm (f : gps_feed_t) (now_ms : Z) : option (Z * Z) :=
  if negb (gf_utc_valid f) || negb (feed_live f now_ms) then None else Some (gf_utc_hour f, gf_utc_min f).
Definition gps_feed_get_utc_date (f : gps_feed_t) (now_ms : Z) : option (Z * Z * Z) :=
  if negb (gf_utc_date_valid f) || negb (feed_live f now_ms) then None
  else Some (gf_utc_year f, gf_utc_month f, gf_utc_day f).

Record gps_stats_t := mk_gstats {
  st_sats_used : Z; st_sats_in_view : Z; st_sats_tracked : Z; st_snr_max_dbhz : Z; st_fix_quality : Z;
  st_nmea_age_s : Z; st_antenna_warning : bool }.

Definition slot_live (now_ms : Z) (s : gps_gsv_slot_t) : bool :=
  negb (gsv_free s || (now_ms >=? gs_until_ms s)).
Definition live_talker (now_ms : Z) (talker : list Z) (s : gps_gsv_slot_t) : bool :=
  slot_live now_ms s && bool_decide (gs_talker s = talker).
(** The maxima over the bands of one talker: satellites in view, tracked, best C/N0. *)
Fixpoint fold_bands (now_ms : Z) (talker : list Z) (slots : list gps_gsv_slot_t) (acc : Z * Z * Z) : Z * Z * Z :=
  match slots with
  | [] => acc
  | b :: slots' =>
      fold_bands now_ms talker slots'
        (if negb (live_talker now_ms talker b) then acc
         else let '(v, t, n) := acc in
              (if gs_in_view b >? v then gs_in_view b else v,
               if gs_tracked b >? t then gs_tracked b else t,
               if gs_snr_max b >? n then gs_snr_max b else n))
  end.
(** The totals: of a combined cycle, if one is live, and over the constellations. *)
Fixpoint fold_talkers (now_ms : Z) (before slots : list gps_gsv_slot_t) (gn : option (Z * Z * Z)) (acc : Z * Z * Z)
    : option (Z * Z * Z) * (Z * Z * Z) :=
  match slots with
  | [] => (gn, acc)
  | s :: slots' =>
      let continue := fold_talkers now_ms (before ++ [s]) slots' in
      if negb (slot_live now_ms s) then continue gn acc
      else if existsb (live_talker now_ms (gs_talker s)) before then continue gn acc
      else
        let '(v, t, n) := fold_bands now_ms (gs_talker s) slots (0, 0, 0) in
        if bool_decide (gs_talker s = str_bytes "GN") then continue (Some (v, t, n)) acc
        else let '(v', t', n') := acc in continue gn (u32 (v' + v), u32 (t' + t), if n >? n' then n else n')
  end.
Definition gps_feed_get_stats (f : gps_feed_t) (now_ms : Z) : gps_stats_t :=
  let '(gn, sum) := fold_talkers now_ms [] (gf_gsv f) None (0, 0, 0) in
  let '(v, t, n) := default sum gn in
  let cap x := u8 (if x >? 99 then 99 else x) in
  mk_gstats (if feed_live f now_ms then gf_sats_used f else 0) (cap v) (cap t) (cap n)
    (if feed_live f now_ms then gf_fix_quality f else 0)
    (if gf_any_line f then u32 (u64 (now_ms - gf_first_line_ms f) / 1000) else GPS_STATS_NMEA_NEVER)
    (negb (gf_antenna_until_ms f =? 0) && (now_ms <? gf_antenna_until_ms f)).

(** ** Power *)

Definition GPS_DUTY_WARM_MARGIN_S : Z := 60.
Definition GPS_DUTY_MIN_INTERVAL_S : Z := 120.
Record gps_duty_inputs_t := mk_duty {
  du_user_enabled : bool; du_sharing_active : bool; du_interval_s : Z; du_now_ms : Z; du_last_send_ms : Z }.
Definition gps_duty_should_power (d : gps_duty_inputs_t) : bool :=
  if negb (du_user_enabled d) then false
  else if negb (du_sharing_active d) then true
  else if du_interval_s d <? GPS_DUTY_MIN_INTERVAL_S then true
  else if du_last_send_ms d =? 0 then true
  else
    let next_send_ms := u32 (du_last_send_ms d + u32 (du_interval_s d * 1000)) in
    let due_in_ms := i32 (u32 (next_send_ms - du_now_ms d)) in
    due_in_ms <=? GPS_DUTY_WARM_MARGIN_S * 1000.
(** [stored]: the byte under [gps_en], if the store opened and has one. *)
Definition gps_pref_get (stored : option Z) : bool := negb (default 1 stored =? 0).
Definition gps_pref_set (opened enabled : bool) (stored : option Z) : option Z :=
  if opened then Some (if enabled then 1 else 0) else stored.
