(* ===== verification/GpsSpec.v ===== *)
(** * What the receiver's feed promises

    How bytes become lines, when a fix is held and which position it is, the ranges of
    what is published, the satellite counts and the power decision. *)

From stdpp Require Import base strings numbers sets gmap option decidable list.
From S2P Require Import Prelude Tables CString NetworkKey Nmea IdentityStore ParkedRetry Location GpsFeed.

(** ** The parsers *)

Section Parsers.
Context `{FloatCast}.

(** Verdict and coordinates do not depend on the position that is updated, and a
    position that was parsed is marked valid. *)
Definition coords (p : nmea_position_t) : Z * Z := (np_latitude_e7 p, np_longitude_e7 p).
Lemma coords_speed f p : coords (parse_speed f p) = coords p. Proof. by destruct p. Qed.
Lemma coords_heading f p : coords (parse_heading f p) = coords p. Proof. by destruct p. Qed.
Lemma coords_date f p : coords (parse_utc_date f p) = coords p.
Proof. unfold parse_utc_date. repeat case_match; by destruct p. Qed.
Lemma coords_altitude a p : coords (np_set_altitude a p) = coords p. Proof. by destruct p. Qed.
Lemma coords_accuracy f p : coords (parse_accuracy f p) = coords p. Proof. by destruct p. Qed.
Lemma coords_valid v p : coords (np_set_valid v p) = coords p. Proof. by destruct p. Qed.
Lemma coords_set la lo p : coords (np_set_coords la lo p) = (la, lo). Proof. by destruct p. Qed.
Lemma valid_set v p : np_valid (np_set_valid v p) = v. Proof. by destruct p. Qed.
Lemma coords_if (b : bool) p q : coords q = coords p → coords (if b then q else p) = coords p.
Proof. by destruct b. Qed.
Lemma quality_set q p : np_fix_quality (np_set_quality q p) = q. Proof. by destruct p. Qed.
Ltac solve_coords :=
  rewrite ?coords_valid;
  repeat rewrite coords_if by
    first [apply coords_date | apply coords_heading | apply coords_speed | apply coords_accuracy | apply coords_altitude];
  by rewrite !coords_set.

Lemma rmc_parse s p :
  (nmea_parse_rmc s p).1 = (nmea_parse_rmc s nmea_zero).1 ∧
  ((nmea_parse_rmc s p).1 = true →
   np_valid (nmea_parse_rmc s p).2 = true ∧
   coords (nmea_parse_rmc s p).2 = coords (nmea_parse_rmc s nmea_zero).2).
Proof.
  unfold nmea_parse_rmc. repeat (case_match; [done|]). split; [done|]. intros _. cbn [snd]. rewrite valid_set.
  split; [done|]. solve_coords.
Qed.
Lemma coords_time f p : coords (parse_utc_time f p) = coords p.
Proof. unfold parse_utc_time. repeat case_match; by destruct p. Qed.
Lemma gga_parse s p :
  (nmea_parse_gga s p).1 = (nmea_parse_gga s nmea_zero).1 ∧
  ((nmea_parse_gga s p).1 = true →
   np_valid (nmea_parse_gga s p).2 = true ∧
   coords (nmea_parse_gga s p).2 = coords (nmea_parse_gga s nmea_zero).2).
Proof.
  unfold nmea_parse_gga. rewrite !quality_set. repeat (case_match; [done|]). split; [done|]. intros _. cbn [snd].
  rewrite valid_set. split; [done|]. solve_coords.
Qed.
End Parsers.

(** ** When a fix is held *)

Section Fix.
Context `{FloatCast}.

(** What a line says about the fix: coordinates, that there is none, or nothing. *)
Definition reading (parsed : bool * nmea_position_t) (line : list Z) : option (option (Z * Z)) :=
  let '(ok, p) := parsed in
  if ok then Some (Some (coords p)) else if nmea_reports_no_fix line then Some None else None.
Definition reads (line : list Z) : option (option (Z * Z)) :=
  if is_rmc line then reading (nmea_parse_rmc (line_copy line) nmea_zero) line
  else if is_gga line then reading (nmea_parse_gga (line_copy line) nmea_zero) line
  else None.

(** Latitude, longitude and time of a published position. *)
Definition place (p : bramble_position_t) : Z * Z * Z := (po_latitude_e7 p, po_longitude_e7 p, po_timestamp p).

Lemma publish_spec now f f' out : publish now f = (f', out) →
  gf_any_line f' = gf_any_line f ∧ gf_last_line_ms f' = gf_last_line_ms f ∧ gf_cb f' = gf_cb f ∧
  gf_has_fix f' = true ∧ place (gf_pos f') = (coords (gf_acc f), u32 (now / 1000)) ∧
  out = (if gf_cb f then [gf_pos f'] else []).
Proof.
  unfold publish. intros [= <- <-]. destruct f. cbn.
  repeat case_match; cbn in *; split_and!; try done; by simplify_eq.
Qed.

(** The latches of a feed, and what a line does to them. *)
Definition same_fix (f f' : gps_feed_t) : Prop := gf_has_fix f' = gf_has_fix f ∧ gf_pos f' = gf_pos f.
Definition heard (t : Z) (f f' : gps_feed_t) : Prop :=
  gf_any_line f' = true ∧ gf_last_line_ms f' = t ∧ gf_cb f' = gf_cb f.
Lemma sentence_spec l t f ok f' : feed_sentence l t (note_line t f) = (ok, f') →
  heard t f f' ∧
  match reads l with
  | None => ok = false ∧ same_fix f f'
  | Some None => ok = false ∧ gf_has_fix f' = false
  | Some (Some c) => ok = true ∧ np_valid (gf_acc f') = true ∧ coords (gf_acc f') = c
  end.
Proof.
  unfold feed_sentence, reads, feed_rmc, feed_gga, reading.
  assert (Ha : gf_acc (note_line t f) = gf_acc f) by by destruct f. rewrite Ha.
  destruct (is_rmc l); [|destruct (is_gga l)].
  - destruct (rmc_parse (line_copy l) (gf_acc f)) as [E1 E2].
    destruct (nmea_parse_rmc (line_copy l) (gf_acc f)) as [ok1 a1], (nmea_parse_rmc (line_copy l) nmea_zero) as [ok0 a0].
    cbn in E1, E2. subst ok0. intros [= <- <-]. destruct f, ok1, (nmea_reports_no_fix l); cbn in *;
      try destruct (E2 eq_refl) as [? ?]; done.
  - destruct (gga_parse (line_copy l) (gf_acc f)) as [E1 E2].
    destruct (nmea_parse_gga (line_copy l) (gf_acc f)) as [ok1 a1], (nmea_parse_gga (line_copy l) nmea_zero) as [ok0 a0].
    cbn in E1, E2. subst ok0. intros [= <- <-]. destruct f, ok1, (nmea_reports_no_fix l); cbn in *;
      try destruct (E2 eq_refl) as [? ?]; done.
  - intros E. repeat case_match; simplify_eq; destruct f; done.
Qed.
Lemma line_spec f l t f' out : gps_feed_line f l t = (f', out) →
  heard t f f' ∧
  match reads l with
  | None => same_fix f f' ∧ out = []
  | Some None => gf_has_fix f' = false ∧ out = []
  | Some (Some c) => gf_has_fix f' = true ∧ place (gf_pos f') = (c, u32 (t / 1000)) ∧
                     out = (if gf_cb f then [gf_pos f'] else [])
  end.
Proof.
  unfold gps_feed_line. destruct (feed_sentence l t (note_line t f)) as [ok f1] eqn:E.
  apply sentence_spec in E as [(Hany & Hlast & Hcb) Hr]. destruct (reads l) as [[c|]|].
  - destruct Hr as (-> & -> & <-). cbn [andb]. intros (H1 & H2 & H3 & H4 & H5 & H6)%publish_spec.
    unfold heard. rewrite H1, H2, H3, <- Hcb. done.
  - destruct Hr as (-> & Hr). intros [= <- <-]. done.
  - destruct Hr as (-> & Hr). intros [= <- <-]. done.
Qed.

(** Lines in the order they arrive, each with its time; the positions reported. *)
Fixpoint run_lines (f : gps_feed_t) (h : list (list Z * Z)) : gps_feed_t * list bramble_position_t :=
  match h with
  | [] => (f, [])
  | (l, t) :: h' =>
      let '(f, o1) := gps_feed_line f l t in
      let '(f, o2) := run_lines f h' in (f, o1 ++ o2)
  end.
Lemma run_lines_app f h1 h2 :
  run_lines f (h1 ++ h2) =
  let '(f1, o1) := run_lines f h1 in let '(f2, o2) := run_lines f1 h2 in (f2, o1 ++ o2).
Proof.
  revert f. induction h1 as [|[l t] h1 IH]; intros f; cbn; [by destruct (run_lines f h2)|].
  destruct (gps_feed_line f l t) as [f1 o1]. rewrite IH. destruct (run_lines f1 h1) as [f2 o2].
  destruct (run_lines f2 h2) as [f3 o3]. by rewrite (assoc_L (++)).
Qed.

(** The lines that say something about the fix, in order. *)
Definition readings (h : list (list Z * Z)) : list (option (Z * Z) * Z) :=
  omap (λ '(l, t), (λ r, (r, t)) <$> reads l) h.
Definition fixes (h : list (list Z * Z)) : list (Z * Z * Z) :=
  omap (λ '(r, t), (λ c, (c, u32 (t / 1000))) <$> r) (readings h).
Lemma readings_snoc h l t :
  readings (h ++ [(l, t)]) = readings h ++ match reads l with Some r => [(r, t)] | None => [] end.
Proof. unfold readings. rewrite omap_app. cbn. by destruct (reads l). Qed.
Lemma fixes_snoc h l t :
  fixes (h ++ [(l, t)]) =
  fixes h ++ match reads l with Some (Some c) => [(c, u32 (t / 1000))] | _ => [] end.
Proof. unfold fixes. rewrite readings_snoc, omap_app. f_equal. by destruct (reads l) as [[c|]|]. Qed.

Definition latched (h : list (list Z * Z)) : option (Z * Z * Z) :=
  match last (readings h) with Some (Some c, t) => Some (c, u32 (t / 1000)) | _ => None end.
Lemma run_spec cb h f out : run_lines (gps_feed_init cb) h = (f, out) →
  gf_cb f = cb ∧ gf_any_line f = bool_decide (h ≠ []) ∧
  (∀ l t, last h = Some (l, t) → gf_last_line_ms f = t) ∧
  (if gf_has_fix f then Some (place (gf_pos f)) else None) = latched h ∧
  place <$> out = (if cb then fixes h else []).
Proof.
  revert f out. induction h as [|[l t] h IH] using rev_ind; intros f out.
  - intros [= <- <-]. split_and!; try done. by destruct cb.
  - rewrite run_lines_app. destruct (run_lines (gps_feed_init cb) h) as [f1 o1] eqn:E1. cbn [run_lines].
    destruct (gps_feed_line f1 l t) as [f2 o2] eqn:E2. intros [= <- <-].
    destruct (IH _ _ eq_refl) as (Hcb & _ & _ & Hfix & Hout). apply line_spec in E2 as [(Ha & Hl & Hc) Hr].
    split; [by rewrite Hc|]. split; [rewrite Ha; symmetry; apply bool_decide_eq_true; by destruct h|].
    split; [intros l' t'; rewrite last_snoc; by intros [= _ <-]|].
    rewrite app_nil_r, fmap_app, Hout, fixes_snoc. unfold latched. rewrite readings_snoc.
    destruct (reads l) as [[c|]|]; rewrite ?last_snoc.
    + destruct Hr as (-> & Hp & ->). rewrite Hp, Hcb. split; [done|]. destruct cb; [|done].
      cbn [fmap list_fmap]. by rewrite Hp.
    + destruct Hr as (-> & ->). split; [done|]. rewrite !app_nil_r. by destruct cb.
    + destruct Hr as ([-> ->] & ->). rewrite !app_nil_r. split; [done|]. by destruct cb.
Qed.

(** The clock is published with a fix and cleared with it. *)
Definition clock_latched (f : gps_feed_t) : Prop :=
  (gf_utc_valid f = true → gf_has_fix f = true) ∧ (gf_utc_date_valid f = true → gf_has_fix f = true).
Lemma clock_sentence l t f : clock_latched f → clock_latched (feed_sentence l t (note_line t f)).2.
Proof.
  unfold feed_sentence, feed_rmc, feed_gga, clock_latched. destruct f. intros [H1 H2].
  repeat case_match; simplify_eq; cbn in *; try done; by repeat case_match.
Qed.
Lemma clock_publish now f : clock_latched (publish now f).1.
Proof. unfold publish, clock_latched. destruct f. cbn. repeat case_match; done. Qed.
Lemma clock_line f l t : clock_latched f → clock_latched (gps_feed_line f l t).1.
Proof.
  intros Hf. unfold gps_feed_line. pose proof (clock_sentence l t f Hf) as Hs.
  destruct (feed_sentence l t (note_line t f)) as [ok f1]. destruct (ok && np_valid (gf_acc f1)); [apply clock_publish|done].
Qed.
Lemma clock_run f h : clock_latched f → clock_latched (run_lines f h).1.
Proof.
  revert f. induction h as [|[l t] h IH]; intros f Hf; cbn; [done|].
  pose proof (clock_line f l t Hf) as H1. destruct (gps_feed_line f l t) as [f1 o1]. cbn in H1.
  specialize (IH _ H1). by destruct (run_lines f1 h).
Qed.

(** C36. The receiver holds a fix exactly when the last line that spoke about one gave
    coordinates and it has not been silent for thirty seconds; the position is then
    that line's, and every line with coordinates was reported to the callback.  The
    clock is known only while a fix is held. *)
Theorem fix_follows_receiver cb h now f out :
  Forall (λ '(_, t), 0 <= t < 18446744073709521616) h →
  run_lines (gps_feed_init cb) h = (f, out) →
  place <$> gps_feed_get_position f now =
    match last h with
    | Some (_, t_last) => if now <? t_last + 30000 then latched h else None
    | None => None
    end ∧
  gps_feed_has_fix f now = bool_decide (is_Some (gps_feed_get_position f now)) ∧
  place <$> out = (if cb then fixes h else []) ∧
  (is_Some (gps_feed_get_utc_hm f now) ∨ is_Some (gps_feed_get_utc_date f now) → gps_feed_has_fix f now = true).
Proof.
  intros Hh Hrun. pose proof (clock_run (gps_feed_init cb) h ltac:(done)) as Hclock. rewrite Hrun in Hclock.
  destruct (run_spec _ _ _ _ Hrun) as (_ & Hany & Hlast & Hfix & Hout).
  assert (Hget : gps_feed_has_fix f now = bool_decide (is_Some (gps_feed_get_position f now))).
  { unfold gps_feed_get_position. by destruct (gps_feed_has_fix f now). }
  split; [|split; [done|split; [done|]]].
  - unfold gps_feed_get_position, gps_feed_has_fix, feed_live.
    destruct (last h) as [[l t]|] eqn:El.
    + rewrite (Hlast _ _ eq_refl), Hany, bool_decide_true by (by intros ->). cbn [andb].
      assert (Ht : 0 <= t < 18446744073709521616).
      { rewrite list.Forall_forall in Hh. apply (Hh (l, t)). apply last_Some_elem_of. done. }
      replace (u64 (t + GPS_FEED_SILENCE_TTL_MS)) with (t + 30000) by (unfold GPS_FEED_SILENCE_TTL_MS; cint).
      rewrite <- Hfix. destruct (gf_has_fix f), (now <? t + 30000); done.
    + apply last_None in El. subst h. rewrite Hany, bool_decide_false by by intros []. by rewrite andb_false_r.
  - unfold gps_feed_get_utc_hm, gps_feed_get_utc_date, gps_feed_has_fix. destruct Hclock as [H1 H2].
    cbn [fst] in *. destruct (gf_utc_valid f), (gf_utc_date_valid f), (feed_live f now), (gf_has_fix f);
      cbn; intros [[? ?]|[? ?]]; naive_solver.
Qed.
End Fix.

(** ** From bytes to lines *)

Section Stream.
Context `{FloatCast}.

(** The piece from its last dollar sign on, or all of it. *)
Definition from_dollar (piece : list Z) : list Z :=
  foldl (λ acc c, if c =? DOLLAR then [c] else acc ++ [c]) [] piece.
(** The text a piece between line ends stands for. *)
Definition framed (piece : list Z) : list Z := take 127 (from_dollar piece).
Lemma framed_snoc piece c :
  framed (piece ++ [c]) =
  if c =? DOLLAR then [c]
  else if (length (framed piece) <? 127)%nat then framed piece ++ [c] else framed piece.
Proof.
  unfold framed, from_dollar. rewrite foldl_app. cbn [foldl]. destruct (c =? DOLLAR); [done|].
  set (l := foldl _ _ _). rewrite length_take. destruct (Nat.ltb_spec (127 `min` length l) 127).
  - rewrite (take_ge l), take_ge by (rewrite ?length_app; cbn; lia). done.
  - rewrite take_app_le by lia. done.
Qed.

(** Bytes with the time of their arrival: the lines they complete, each with the time
    of its line end, and the piece begun after the last line end. *)
Fixpoint timed_lines (piece : list Z) (s : list (Z * Z)) : list (list Z * Z) * list Z :=
  match s with
  | [] => ([], piece)
  | (c, t) :: s' =>
      if (c =? LF) || (c =? CR) then
        let '(ls, rest) := timed_lines [] s' in
        (if field_empty (framed piece) then ls else (c_string (framed piece), t) :: ls, rest)
      else timed_lines (piece ++ [c]) s'
  end.
Definition stamped (chunks : list (list Z * Z)) : list (Z * Z) :=
  mjoin ((λ '(data, t), (λ c, (c, t)) <$> data) <$> chunks).
Fixpoint run_chunks (f : gps_feed_t) (chunks : list (list Z * Z)) : gps_feed_t * list bramble_position_t :=
  match chunks with
  | [] => (f, [])
  | (data, t) :: chunks' =>
      let '(f, o1) := gps_feed_bytes f data t in
      let '(f, o2) := run_chunks f chunks' in (f, o1 ++ o2)
  end.

(** The fields of the byte path, which the handling of a line neither reads nor writes. *)
Definition set_io (l : list Z) (rb rl : Z) (f : gps_feed_t) : gps_feed_t := set_line l (set_rx rb rl f).
Lemma sentence_io line t l rb rl f :
  feed_sentence line t (note_line t (set_io l rb rl f)) =
  let '(ok, f') := feed_sentence line t (note_line t f) in (ok, set_io l rb rl f').
Proof.
  unfold feed_sentence, feed_rmc, feed_gga. destruct f. cbn -[nmea_parse_rmc nmea_parse_gga nmea_parse_gsv has_prefix nmea_is_antenna_open nmea_reports_no_fix is_rmc is_gga is_gsv u64 line_copy feed_gsv].
  repeat case_match; simplify_eq; done.
Qed.
Lemma publish_io t l rb rl f :
  publish t (set_io l rb rl f) = let '(f', out) := publish t f in (set_io l rb rl f', out).
Proof.
  unfold publish. destruct f as [? acc]. cbn [set_io set_line set_rx gf_acc].
  destruct (np_utc_valid acc), (np_utc_date_valid acc); done.
Qed.
Lemma line_io f line t l rb rl :
  gps_feed_line (set_io l rb rl f) line t =
  let '(f', out) := gps_feed_line f line t in (set_io l rb rl f', out).
Proof.
  unfold gps_feed_line. rewrite sentence_io. destruct (feed_sentence line t (note_line t f)) as [ok f1].
  replace (gf_acc (set_io l rb rl f1)) with (gf_acc f1) by by destruct f1.
  destruct (ok && np_valid (gf_acc f1)); [apply publish_io|done].
Qed.
Lemma io_io l rb rl l' rb' rl' f : set_io l rb rl (set_io l' rb' rl' f) = set_io l rb rl f.
Proof. by destruct f. Qed.
Lemma io_id f : set_io (gf_line f) (gf_rx_bytes_total f) (gf_rx_lines_total f) f = f.
Proof. by destruct f. Qed.
Lemma framed_le piece : (length (framed piece) <= 127)%nat.
Proof. unfold framed. rewrite length_take. lia. Qed.

(** The feed whose buffer stands for a piece of the stream, at given counts. *)
Lemma byte_spec t piece rb rl f c :
  gps_feed_byte t (set_io (framed piece) rb rl f) c =
  if (c =? LF) || (c =? CR) then
    if field_empty (framed piece) then (set_io (framed []) rb rl f, [])
    else let '(f', out) := gps_feed_line f (c_string (framed piece)) t in
         (set_io (framed []) rb (u32 (rl + 1)) f', out)
  else (set_io (framed (piece ++ [c])) rb rl f, []).
Proof.
  unfold gps_feed_byte. rewrite framed_snoc.
  replace (gf_line (set_io (framed piece) rb rl f)) with (framed piece) by by destruct f.
  replace (gf_rx_bytes_total (set_io (framed piece) rb rl f)) with rb by by destruct f.
  replace (gf_rx_lines_total (set_io (framed piece) rb rl f)) with rl by by destruct f.
  destruct (Z.eqb_spec c DOLLAR) as [->|Hc]; [by destruct f|].
  destruct ((c =? LF) || (c =? CR)).
  - destruct (framed piece) as [|x xs] eqn:E; [done|]. cbn [length field_empty]. rewrite (proj2 (Nat.ltb_lt 0 _)) by lia.
    replace (set_rx rb (u32 (rl + 1)) (set_io (x :: xs) rb rl f)) with (set_io (x :: xs) rb (u32 (rl + 1)) f) by by destruct f.
    replace (gf_line (set_io (x :: xs) rb (u32 (rl + 1)) f)) with (x :: xs) by by destruct f.
    rewrite line_io. destruct (gps_feed_line f (c_string (x :: xs)) t) as [f' out]. by destruct f'.
  - change (GPS_FEED_MAX_LINE - 1)%nat with 127%nat. destruct (length (framed piece) <? 127)%nat; by destruct f.
Qed.
Lemma bytes_loop_app t f a b :
  bytes_loop t f (a ++ b) =
  let '(f1, o1) := bytes_loop t f a in let '(f2, o2) := bytes_loop t f1 b in (f2, o1 ++ o2).
Proof.
  revert f. induction a as [|c a IH]; intros f; cbn; [by destruct (bytes_loop t f b)|].
  destruct (gps_feed_byte t f c) as [f1 o1]. rewrite IH. destruct (bytes_loop t f1 a) as [f2 o2].
  destruct (bytes_loop t f2 b). by rewrite (assoc_L (++)).
Qed.

(** Reading stamped bytes one after the other. *)
Fixpoint run_stamped (f : gps_feed_t) (s : list (Z * Z)) : gps_feed_t * list bramble_position_t :=
  match s with
  | [] => (f, [])
  | (c, t) :: s' =>
      let '(f, o1) := gps_feed_byte t f c in
      let '(f, o2) := run_stamped f s' in (f, o1 ++ o2)
  end.
Lemma run_stamped_spec s piece rb rl f : 0 <= rl →
  run_stamped (set_io (framed piece) rb (u32 rl) f) s =
  let '(ls, rest) := timed_lines piece s in
  let '(f', out) := run_lines f ls in
  (set_io (framed rest) rb (u32 (rl + Z.of_nat (length ls))) f', out).
Proof.
  revert piece rl f. induction s as [|[c t] s IH]; intros piece rl f Hrl; cbn [run_stamped timed_lines].
  - cbn. by rewrite Z.add_0_r.
  - rewrite byte_spec. destruct ((c =? LF) || (c =? CR)).
    + destruct (framed piece) as [|x xs] eqn:E; cbn [field_empty].
      * rewrite IH by done. destruct (timed_lines [] s) as [ls rest]. by destruct (run_lines f ls).
      * destruct (gps_feed_line f (c_string (x :: xs)) t) as [f1 o1] eqn:E1.
        replace (u32 (u32 rl + 1)) with (u32 (rl + 1)) by (unfold u32; by rewrite Zplus_mod_idemp_l).
        rewrite IH by lia. destruct (timed_lines [] s) as [ls rest]. cbn [run_lines]. rewrite E1.
        destruct (run_lines f1 ls) as [f2 o2]. do 3 f_equal. cbn [length]. lia.
    + rewrite IH by done. by destruct (timed_lines (piece ++ [c]) s), (run_lines f _).
Qed.
Lemma bytes_loop_stamped t f data : bytes_loop t f data = run_stamped f ((λ c, (c, t)) <$> data).
Proof. revert f. induction data as [|c d IH]; intros f; cbn; [done|]. destruct (gps_feed_byte t f c). by rewrite IH. Qed.
Lemma timed_lines_app piece s1 s2 :
  timed_lines piece (s1 ++ s2) =
  let '(l1, r1) := timed_lines piece s1 in let '(l2, r2) := timed_lines r1 s2 in (l1 ++ l2, r2).
Proof.
  revert piece. induction s1 as [|[c t] s1 IH]; intros piece; cbn; [by destruct (timed_lines piece s2)|].
  destruct ((c =? LF) || (c =? CR)); [|apply IH]. rewrite IH. destruct (timed_lines [] s1) as [l1 r1].
  destruct (timed_lines r1 s2). by destruct (field_empty (framed piece)).
Qed.
Lemma run_chunks_spec chunks piece rb rl f : 0 <= rb → 0 <= rl →
  run_chunks (set_io (framed piece) (u32 rb) (u32 rl) f) chunks =
  let '(ls, rest) := timed_lines piece (stamped chunks) in
  let '(f', out) := run_lines f ls in
  (set_io (framed rest) (u32 (rb + Z.of_nat (length (stamped chunks)))) (u32 (rl + Z.of_nat (length ls))) f', out).
Proof.
  revert piece rb rl f. induction chunks as [|[data t] chunks IH]; intros piece rb rl f Hb Hl.
  - cbn. by rewrite !Z.add_0_r.
  - cbn [run_chunks]. change (stamped ((data, t) :: chunks)) with (((λ c, (c, t)) <$> data) ++ stamped chunks).
    rewrite timed_lines_app, length_app, length_fmap. unfold gps_feed_bytes. rewrite bytes_loop_stamped.
    replace (set_rx _ _ _) with (set_io (framed piece) (u32 (rb + Z.of_nat (length data))) (u32 rl) f)
      by (destruct f; cbn; unfold u32; by rewrite Zplus_mod_idemp_l).
    rewrite run_stamped_spec by done. destruct (timed_lines piece _) as [l1 r1]. 
    destruct (timed_lines r1 (stamped chunks)) as [l2 r2] eqn:E2. rewrite run_lines_app.
    destruct (run_lines f l1) as [f1 o1]. rewrite IH, E2 by lia.
    destruct (run_lines f1 l2) as [f2 o2]. rewrite length_app. do 3 f_equal; lia.
Qed.

(** However the byte stream is cut into reads, the feed acts as on its lines: the
    pieces between line ends, each from its last dollar sign on and at most 127
    characters, empty ones skipped, at the time their line end was read; the buffer
    holds the text of the piece under way and the counters count bytes and lines. *)
Theorem stream_framed cb chunks :
  run_chunks (gps_feed_init cb) chunks =
    (let '(ls, rest) := timed_lines [] (stamped chunks) in
     let '(f, out) := run_lines (gps_feed_init cb) ls in
     (set_line (framed rest)
        (set_rx (u32 (Z.of_nat (length (stamped chunks)))) (u32 (Z.of_nat (length ls))) f), out)) ∧
  (length (gf_line (run_chunks (gps_feed_init cb) chunks).1) < GPS_FEED_MAX_LINE)%nat.
Proof.
  pose proof (run_chunks_spec chunks [] 0 0 (gps_feed_init cb) ltac:(done) ltac:(done)) as E.
  change (set_io (framed []) (u32 0) (u32 0) (gps_feed_init cb)) with (gps_feed_init cb) in E. rewrite E.
  destruct (timed_lines [] (stamped chunks)) as [ls rest], (run_lines (gps_feed_init cb) ls) as [f out].
  split; [done|]. pose proof (framed_le rest). destruct f. cbn -[framed]. unfold GPS_FEED_MAX_LINE. lia.
Qed.
End Stream.

(** ** Satellites *)

Section Satellites.
Context (now : Z).

(** The largest value over the live bands of a talker. *)
Definition band_max (value : gps_gsv_slot_t → Z) (talker : list Z) (slots : list gps_gsv_slot_t) : Z :=
  foldr Z.max 0 (value <$> filter (λ s, live_talker now talker s = true) slots).
Definition talkers (slots : list gps_gsv_slot_t) : gset (list Z) :=
  list_to_set (gs_talker <$> filter (λ s, slot_live now s = true) slots).
Definition sumZ : list Z → Z := foldr Z.add 0.
(** A combined cycle stands for all constellations, else they add up; the bands of
    one constellation show the same satellites and do not. *)
Definition satellites (value : gps_gsv_slot_t → Z) (slots : list gps_gsv_slot_t) : Z :=
  if decide (str_bytes "GN" ∈ talkers slots) then band_max value (str_bytes "GN") slots
  else sumZ ((λ t, band_max value t slots) <$> elements (talkers slots)).
Definition strongest (slots : list gps_gsv_slot_t) : Z :=
  if decide (str_bytes "GN" ∈ talkers slots) then band_max gs_snr_max (str_bytes "GN") slots
  else foldr Z.max 0 ((λ t, band_max gs_snr_max t slots) <$> elements (talkers slots)).

Definition count_ok (v : Z) : Prop := 0 <= v <= 99.
Definition gslot_ok (s : gps_gsv_slot_t) : Prop :=
  count_ok (gs_in_view s) ∧ count_ok (gs_tracked s) ∧ count_ok (gs_snr_max s) ∧
  count_ok (gs_acc_tracked s) ∧ count_ok (gs_acc_snr_max s).

Lemma foldr_max_le (l : list Z) b : 0 <= b → Forall (λ v, v <= b) l → 0 <= foldr Z.max 0 l <= b.
Proof. intros Hb. induction 1; cbn; lia. Qed.
Lemma band_max_ok value talker slots : Forall (λ s, count_ok (value s)) slots → count_ok (band_max value talker slots).
Proof.
  intros Hs. apply foldr_max_le; [lia|]. apply list.Forall_fmap, list.Forall_forall.
  intros s [_ Hin]%list_elem_of_filter. rewrite list.Forall_forall in Hs. cbn. apply Hs in Hin as [? ?]. lia.
Qed.
Lemma band_max_cons value talker s slots :
  band_max value talker (s :: slots) =
  if live_talker now talker s then Z.max (value s) (band_max value talker slots) else band_max value talker slots.
Proof. unfold band_max. rewrite filter_cons. by destruct (live_talker now talker s). Qed.
Lemma band_max_app value talker a b : existsb (live_talker now talker) a = false →
  band_max value talker (a ++ b) = band_max value talker b.
Proof.
  induction a as [|s a IH]; [done|]. cbn [existsb]. intros [E1 E2]%orb_false_iff. cbn [app].
  rewrite band_max_cons, E1. by apply IH.
Qed.
Lemma fold_bands_spec talker slots v t n : 0 <= v → 0 <= t → 0 <= n →
  fold_bands now talker slots (v, t, n) =
  (Z.max v (band_max gs_in_view talker slots), Z.max t (band_max gs_tracked talker slots),
   Z.max n (band_max gs_snr_max talker slots)).
Proof.
  revert v t n. induction slots as [|b slots IH]; intros v t n H1 H2 H3; cbn [fold_bands].
  - unfold band_max. cbn. repeat f_equal; lia.
  - rewrite !band_max_cons. destruct (live_talker now talker b); cbn [negb]; [|by apply IH].
    rewrite !Z.gtb_ltb. destruct (Z.ltb_spec v (gs_in_view b)), (Z.ltb_spec t (gs_tracked b)), (Z.ltb_spec n (gs_snr_max b));
      rewrite IH by lia; (apply (f_equal2 pair); [apply (f_equal2 pair)|]; lia).
Qed.

(** The talkers in the order of their first live slot. *)
Fixpoint firsts (before slots : list gps_gsv_slot_t) : list (list Z) :=
  match slots with
  | [] => []
  | s :: slots' =>
      let rest := firsts (before ++ [s]) slots' in
      if slot_live now s && negb (existsb (live_talker now (gs_talker s)) before) then gs_talker s :: rest else rest
  end.
Lemma existsb_live talker slots :
  existsb (live_talker now talker) slots = true ↔ talker ∈ talkers slots.
Proof.
  unfold talkers. rewrite existsb_exists, elem_of_list_to_set, list_elem_of_fmap. unfold live_talker. split.
  - intros (s & Hs & [Hl <-%bool_decide_eq_true]%andb_true_iff). exists s. split; [done|].
    apply list_elem_of_filter. split; [done|]. by apply list_elem_of_In.
  - intros (s & -> & [Hl Hs]%list_elem_of_filter). exists s. split; [by apply list_elem_of_In|].
    rewrite Hl. by apply bool_decide_eq_true.
Qed.
Lemma talkers_app a b : talkers (a ++ b) = talkers a ∪ talkers b.
Proof. unfold talkers. by rewrite filter_app, fmap_app, list_to_set_app_L. Qed.
Lemma talkers_one s : talkers [s] = if slot_live now s then {[gs_talker s]} else ∅.
Proof. unfold talkers. rewrite filter_cons. destruct (slot_live now s); cbn; set_solver. Qed.
Lemma firsts_elem before slots t :
  t ∈ firsts before slots ↔ t ∈ talkers slots ∧ t ∉ talkers before.
Proof.
  revert before. induction slots as [|s slots IH]; intros before; cbn [firsts]; [unfold talkers; set_solver|].
  specialize (IH (before ++ [s])). rewrite talkers_app, talkers_one in IH.
  change (s :: slots) with ([s] ++ slots). rewrite talkers_app, talkers_one.
  pose proof (existsb_live (gs_talker s) before) as He.
  destruct (slot_live now s), (existsb (live_talker now (gs_talker s)) before); cbn [andb negb];
    rewrite ?list.elem_of_cons, IH; clear IH; destruct (decide (t = gs_talker s)) as [->|]; set_solver.
Qed.
Lemma firsts_NoDup before slots : NoDup (firsts before slots).
Proof.
  revert before. induction slots as [|s slots IH]; intros before; cbn [firsts]; [constructor|].
  destruct (slot_live now s && _) eqn:E; [|apply IH]. constructor; [|apply IH].
  intros [_ Hn]%firsts_elem. apply Hn. rewrite talkers_app, talkers_one. conds.
  match goal with H : slot_live now s = true |- _ => rewrite H end. set_solver.
Qed.

Definition not_combined (ts : list (list Z)) : list (list Z) := filter (λ t, t ≠ str_bytes "GN") ts.
Lemma fold_talkers_spec all before slots gn v t n :
  all = before ++ slots → Forall gslot_ok all → 0 <= v → 0 <= t → 0 <= n →
  v + 99 * Z.of_nat (length slots) < 4294967296 → t + 99 * Z.of_nat (length slots) < 4294967296 →
  fold_talkers now before slots gn (v, t, n) =
  (if decide (str_bytes "GN" ∈ firsts before slots)
   then Some (band_max gs_in_view (str_bytes "GN") all, band_max gs_tracked (str_bytes "GN") all,
              band_max gs_snr_max (str_bytes "GN") all) else gn,
   (v + sumZ ((λ k, band_max gs_in_view k all) <$> not_combined (firsts before slots)),
    t + sumZ ((λ k, band_max gs_tracked k all) <$> not_combined (firsts before slots)),
    Z.max n (foldr Z.max 0 ((λ k, band_max gs_snr_max k all) <$> not_combined (firsts before slots))))).
Proof.
  intros Hall Hok. revert before gn v t n Hall.
  induction slots as [|s slots IH]; intros before gn v t n Hall Hv Ht Hn Bv Bt; cbn [fold_talkers firsts].
  { cbn. rewrite !Z.add_0_r. repeat f_equal. lia. }
  assert (Hall' : all = (before ++ [s]) ++ slots) by by rewrite <- (assoc_L (++)).
  cbn [length] in Bv, Bt. destruct (slot_live now s) eqn:El; cbn [negb andb]; [|apply IH; lia || done].
  destruct (existsb (live_talker now (gs_talker s)) before) eqn:Eb; cbn [negb]; [apply IH; lia || done|].
  rewrite fold_bands_spec by lia. rewrite <- !(band_max_app _ _ before (s :: slots) Eb), <- Hall.
  assert (Hb : ∀ value, (∀ s, gslot_ok s → count_ok (value s)) → count_ok (band_max value (gs_talker s) all)).
  { intros value Hvalue. apply band_max_ok. by eapply Forall_impl. }
  assert (Hiv := Hb gs_in_view ltac:(by intros ? (?&?&?&?&?))). assert (Htr := Hb gs_tracked ltac:(by intros ? (?&?&?&?&?))).
  assert (Hsn := Hb gs_snr_max ltac:(by intros ? (?&?&?&?&?))). clear Hb.
  unfold count_ok in *. rewrite !Z.max_r by lia.
  assert (Hnew : gs_talker s ∉ firsts (before ++ [s]) slots).
  { intros [_ Hn']%firsts_elem. apply Hn'. rewrite talkers_app, talkers_one, El. set_solver. }
  unfold not_combined. rewrite filter_cons. destruct (decide (gs_talker s = str_bytes "GN")) as [Eg|Eg].
  - rewrite bool_decide_true by done. rewrite IH by (done || lia). unfold not_combined. rewrite <- Eg.
    rewrite (decide_False (P := gs_talker s ∈ _)) by done. rewrite (decide_False (P := gs_talker s ≠ _)) by (intros X; by apply X).
    rewrite (decide_True (P := gs_talker s ∈ _ :: _)) by set_solver. done.
  - rewrite bool_decide_false by done. rewrite Z.gtb_ltb. rewrite !u32_id by (unfold is_u32; lia).
    replace (if n <? band_max gs_snr_max (gs_talker s) all then band_max gs_snr_max (gs_talker s) all else n)
      with (Z.max n (band_max gs_snr_max (gs_talker s) all)) by (destruct (Z.ltb_spec n (band_max gs_snr_max (gs_talker s) all)); lia).
    rewrite IH by (done || lia). rewrite (decide_True (P := gs_talker s ≠ _)) by done.
    cbn [fmap list_fmap sumZ foldr]. rewrite !Z.add_assoc, !Z.max_assoc. f_equal.
    destruct (decide (str_bytes "GN" ∈ firsts (before ++ [s]) slots)); [rewrite decide_True by set_solver|rewrite decide_False by set_solver]; done.
Qed.
End Satellites.

Lemma clamp_ok v : count_ok (u8 (clamp_99 v)).
Proof. unfold count_ok, clamp_99. destruct (Z.ltb_spec v 0); [done|]. rewrite Z.gtb_ltb. destruct (Z.ltb_spec 99 v); [done|]. rewrite u8_id; unfold is_u8; lia. Qed.
Lemma group_ok a b prn snr : count_ok a → count_ok b →
  count_ok (gsv_group a b prn snr).1 ∧ count_ok (gsv_group a b prn snr).2.
Proof.
  intros Ha Hb. unfold gsv_group. repeat (case_match; [done|]). unfold count_ok in *. cbn [fst snd].
  conds. rewrite !Z.gtb_ltb. split.
  - destruct (Z.ltb_spec a 99); [rewrite u8_id; unfold is_u8|]; lia.
  - rewrite u8_id by (unfold is_u8; destruct (Z.ltb_spec 99 (c_atoi snr)); lia).
    destruct (Z.ltb_spec 99 (c_atoi snr)), (b <? _); lia.
Qed.
Lemma groups_ok groups acc : count_ok acc.1 → count_ok acc.2 →
  count_ok (gsv_groups groups acc).1 ∧ count_ok (gsv_groups groups acc).2.
Proof.
  revert groups acc. fix IH 1. intros [|prn [|? [|? [|snr rest]]]] acc Ha Hb; cbn [gsv_groups]; [done..|].
  destruct (group_ok acc.1 acc.2 prn snr Ha Hb). by apply IH.
Qed.
(** The counts of a message lie in their ranges. *)
Definition message_ok (g : nmea_gsv_t) : Prop :=
  count_ok (gv_sats_in_view g) ∧ count_ok (gv_tracked g) ∧ count_ok (gv_snr_max g).
Lemma gsv_parse_ok s g : nmea_parse_gsv s = (true, g) → message_ok g.
Proof.
  unfold nmea_parse_gsv. repeat (case_match; [done|]).
  destruct (groups_ok (drop 4 (nmea_split s 21)) (0, 0) ltac:(done) ltac:(done)) as [H1' H2'].
  destruct (gsv_groups _ _) as [a b]. intros [= <-]. split_and!; [apply clamp_ok|done..].
Qed.
Lemma gsv_update_ok g now s : message_ok g → gslot_ok s → gslot_ok (gsv_update g now s).
Proof.
  intros (Hv & Ht & Hs) (H1 & H2 & H3 & H4 & H5). unfold gsv_update, gslot_ok. cbn [gs_in_view gs_tracked gs_snr_max gs_acc_tracked gs_acc_snr_max].
  set (at' := if gv_msg_num g <=? 1 then 0 else gs_acc_tracked s). set (as' := if gv_msg_num g <=? 1 then 0 else gs_acc_snr_max s).
  assert (Hat : count_ok at') by (unfold at', count_ok in *; case_match; lia).
  assert (Has : count_ok as') by (unfold as', count_ok in *; case_match; lia).
  assert (Hat2 : count_ok (u8 (if at' + gv_tracked g >? 99 then 99 else at' + gv_tracked g))).
  { unfold count_ok in *. rewrite Z.gtb_ltb. destruct (Z.ltb_spec 99 (at' + gv_tracked g)); [done|]. rewrite u8_id; unfold is_u8; lia. }
  assert (Has2 : count_ok (if gv_snr_max g >? as' then gv_snr_max g else as')) by by destruct (gv_snr_max g >? as').
  split_and!; try done; by destruct ((gv_total_msgs g =? 0) || _).
Qed.

(** One slot for a talker and signal. *)
Definition keys_unique (slots : list gps_gsv_slot_t) : Prop :=
  ∀ i j s t, slots !! i = Some s → slots !! j = Some t → gs_talker s ≠ [] →
    gs_talker s = gs_talker t → gs_signal_id s = gs_signal_id t → i = j.
Definition gsv_ok (slots : list gps_gsv_slot_t) : Prop :=
  length slots = GPS_FEED_MAX_GNSS ∧ Forall gslot_ok slots ∧ keys_unique slots.

Lemma gsv_is_true talker sid s :
  gsv_is talker sid s = true ↔ gs_talker s ≠ [] ∧ gs_signal_id s = sid ∧ gs_talker s = talker.
Proof.
  unfold gsv_is, gsv_free. rewrite !andb_true_iff, negb_true_iff, bool_decide_eq_false, bool_decide_eq_true, Z.eqb_eq. tauto.
Qed.
Lemma claim_ok slots i talker sid : gsv_ok slots → (length talker <= 2)%nat →
  find_index (gsv_is talker sid) slots = None → gsv_ok (<[i := gsv_claimed talker sid]> slots).
Proof.
  intros (Hl & Hok & Hu) Ht Hf. apply find_index_None in Hf. unfold gsv_claimed. rewrite take_ge by done. split_and!.
  - by rewrite length_insert.
  - by apply Forall_insert.
  - intros a b s t Ha Hb Hs E1 E2. rewrite list_lookup_insert_Some in Ha, Hb. rewrite list.Forall_forall in Hf.
    assert (Hno : ∀ x k, slots !! k = Some x → gs_talker x ≠ [] → gs_talker x = talker → gs_signal_id x = sid → False).
    { intros x k Hk Hx1 Hx2 Hx3. assert (gsv_is talker sid x = false) by (apply Hf; by eapply list_elem_of_lookup_2).
      rewrite (proj2 (gsv_is_true talker sid x)) in *; done. }
    destruct Ha as [(-> & <- & _)|[Ha1 Ha]], Hb as [(-> & <- & _)|[Hb1 Hb]]; cbn in *; try done; [|  |by eapply Hu].
    + exfalso. eapply (Hno t); [done| |done|done]. congruence.
    + exfalso. by eapply (Hno s).
Qed.
Lemma alter_ok slots i (u : gps_gsv_slot_t → gps_gsv_slot_t) :
  (∀ s, gslot_ok s → gslot_ok (u s)) → (∀ s, gs_talker (u s) = gs_talker s ∧ gs_signal_id (u s) = gs_signal_id s) →
  gsv_ok slots → gsv_ok (alter u i slots).
Proof.
  intros Hu Hk (Hl & Hok & Hq). split_and!.
  - by rewrite length_alter.
  - apply Forall_alter; [done|]. intros s Hs ?. by apply Hu.
  - assert (Hback : ∀ k s, alter u i slots !! k = Some s → ∃ s', slots !! k = Some s' ∧ gs_talker s = gs_talker s' ∧ gs_signal_id s = gs_signal_id s').
    { intros k s. destruct (decide (i = k)) as [->|]; [|rewrite list_lookup_alter_ne by done; eauto].
      rewrite list_lookup_alter_eq. intros (s' & Hs' & ->)%fmap_Some. exists s'. split; [done|]. apply Hk. }
    intros a b s t (s' & Ha & E1 & E2)%Hback (t' & Hb & E3 & E4)%Hback Hs E5 E6. eapply Hq; [done|done|congruence..].
Qed.
Lemma feed_gsv_ok slots g now : gsv_ok slots → message_ok g → (length (gv_talker g) <= 2)%nat → gsv_ok (feed_gsv slots g now).
Proof.
  intros Hs Hg Ht. unfold feed_gsv, gsv_slot_for.
  assert (Ha : ∀ i l, gsv_ok l → gsv_ok (alter (gsv_update g now) i l)).
  { intros. apply alter_ok; [by intros; apply gsv_update_ok|done|done]. }
  destruct (gv_talker g) as [|c l] eqn:E; [done|]. rewrite <- E in *.
  destruct (find_index (gsv_is _ _) slots) eqn:Ef; [by apply Ha|].
  destruct (find_index gsv_free slots); apply Ha; by apply claim_ok.
Qed.
Lemma gsv_talker_2 s g : nmea_parse_gsv s = (true, g) → (length (gv_talker g) <= 2)%nat.
Proof. unfold nmea_parse_gsv. repeat (case_match; [done|]). destruct (gsv_groups _ _). intros [= <-]. done. Qed.

Section Stats.
Context `{FloatCast}.

Lemma sentence_gsv l t f : gsv_ok (gf_gsv f) → gsv_ok (gf_gsv (feed_sentence l t (note_line t f)).2).
Proof.
  intros Hf. unfold feed_sentence, feed_rmc, feed_gga. destruct f. cbn in Hf |- *.
  repeat case_match; simplify_eq; cbn;
    first [done | (apply feed_gsv_ok; [done|by eapply gsv_parse_ok|by eapply gsv_talker_2]) | by case_match].
Qed.
Lemma publish_gsv t f : gf_gsv (publish t f).1 = gf_gsv f.
Proof. unfold publish. destruct f as [? acc]. cbn [set_fix gf_acc]. by destruct (np_utc_valid acc), (np_utc_date_valid acc). Qed.
Lemma line_gsv f l t : gsv_ok (gf_gsv f) → gsv_ok (gf_gsv (gps_feed_line f l t).1).
Proof.
  intros Hf. pose proof (sentence_gsv l t f Hf) as Hs. unfold gps_feed_line.
  destruct (feed_sentence l t (note_line t f)) as [ok f1]. destruct (ok && _); [by rewrite publish_gsv|done].
Qed.
Lemma run_gsv f h : gsv_ok (gf_gsv f) → gsv_ok (gf_gsv (run_lines f h).1).
Proof.
  revert f. induction h as [|[l t] h IH]; intros f Hf; cbn; [done|].
  pose proof (line_gsv f l t Hf) as H1. destruct (gps_feed_line f l t) as [f1 o1]. cbn [fst] in H1.
  specialize (IH _ H1). by destruct (run_lines f1 h).
Qed.
Lemma init_gsv cb : gsv_ok (gf_gsv (gps_feed_init cb)).
Proof.
  unfold gsv_ok. split_and!; [done| |]. { cbn [gps_feed_init gf_gsv]. apply Forall_replicate. by repeat split. }
  intros i j s t Hs _ Ht. exfalso. apply Ht. cbn [gps_feed_init gf_gsv] in Hs. apply lookup_replicate in Hs as [-> _]. done.
Qed.

Lemma sumZ_perm l k : l ≡ₚ k → sumZ l = sumZ k.
Proof. induction 1; cbn; lia. Qed.
Lemma maxZ_perm (l k : list Z) : l ≡ₚ k → foldr Z.max 0 l = foldr Z.max 0 k.
Proof. induction 1; cbn; lia. Qed.
Lemma sumZ_nonneg l : Forall (λ v, 0 <= v) l → 0 <= sumZ l.
Proof. induction 1; cbn; lia. Qed.

Lemma bands_nonneg {A} (value : A → Z) ts : (∀ t, count_ok (value t)) → 0 <= sumZ (value <$> ts).
Proof. intros Hv. apply sumZ_nonneg, list.Forall_fmap, list.Forall_forall. intros t _. apply Hv. Qed.

Lemma firsts_talkers now slots : firsts now [] slots ≡ₚ elements (talkers now slots).
Proof.
  apply NoDup_Permutation; [apply firsts_NoDup|apply NoDup_elements|]. intros t.
  rewrite firsts_elem, elem_of_elements. unfold talkers at 2. set_solver.
Qed.
Lemma not_combined_id ts : str_bytes "GN" ∉ ts → not_combined ts = ts.
Proof.
  intros Hn. unfold not_combined. induction ts as [|t ts IH]; [done|]. rewrite filter_cons.
  rewrite decide_True by set_solver. f_equal. apply IH. set_solver.
Qed.

(** The satellite counts of a feed fold the bands of a constellation by maximum and add
    the constellations, unless a combined cycle is live, which is then the count; no
    talker and signal has two slots, and what is reported lies between 0 and 99. *)
Theorem satellites_counted_once cb h now :
  let f := (run_lines (gps_feed_init cb) h).1 in
  let st := gps_feed_get_stats f now in
  st_sats_in_view st = Z.min 99 (satellites now gs_in_view (gf_gsv f)) ∧
  st_sats_tracked st = Z.min 99 (satellites now gs_tracked (gf_gsv f)) ∧
  st_snr_max_dbhz st = strongest now (gf_gsv f) ∧
  0 <= st_sats_in_view st <= 99 ∧ 0 <= st_sats_tracked st <= 99 ∧ 0 <= st_snr_max_dbhz st <= 99 ∧
  length (gf_gsv f) = GPS_FEED_MAX_GNSS ∧ keys_unique (gf_gsv f).
Proof.
  intros f. destruct (run_gsv (gps_feed_init cb) h (init_gsv cb)) as (Hl & Hok & Hu).
  fold f in Hl, Hok, Hu. clearbody f. intros st.
  assert (Hb : ∀ value t, (∀ s, gslot_ok s → count_ok (value s)) → count_ok (band_max now value t (gf_gsv f))).
  { intros value t Hv. apply band_max_ok. by eapply Forall_impl. }
  assert (Hiv := λ t, Hb gs_in_view t ltac:(by intros ? (?&?&?&?&?))). assert (Htr := λ t, Hb gs_tracked t ltac:(by intros ? (?&?&?&?&?))).
  assert (Hsn := λ t, Hb gs_snr_max t ltac:(by intros ? (?&?&?&?&?))).
  assert (Hcap : ∀ x, 0 <= x → u8 (if x >? 99 then 99 else x) = Z.min 99 x).
  { intros x Hx. rewrite Z.gtb_ltb. destruct (Z.ltb_spec 99 x); [change (u8 99) with 99; lia|]. rewrite u8_id by (unfold is_u8; lia). lia. }
  assert (Hstats : (st_sats_in_view st, st_sats_tracked st, st_snr_max_dbhz st) =
    (Z.min 99 (satellites now gs_in_view (gf_gsv f)), Z.min 99 (satellites now gs_tracked (gf_gsv f)),
     Z.min 99 (strongest now (gf_gsv f))) ∧
    0 <= satellites now gs_in_view (gf_gsv f) ∧ 0 <= satellites now gs_tracked (gf_gsv f) ∧ count_ok (strongest now (gf_gsv f))).
  { unfold st, gps_feed_get_stats.
    rewrite (fold_talkers_spec now (gf_gsv f)) by (rewrite ?Hl; done).
    unfold satellites, strongest. pose proof (firsts_talkers now (gf_gsv f)) as HP.
    destruct (decide (str_bytes "GN" ∈ talkers now (gf_gsv f))) as [Hg|Hg].
    - rewrite decide_True by (by rewrite HP, elem_of_elements). cbn [default from_option id st_sats_in_view st_sats_tracked st_snr_max_dbhz].
      rewrite !Hcap by apply Hiv || apply Htr || apply Hsn. split; [done|].
      split_and!; try apply Hiv; try apply Htr; apply Hsn.
    - rewrite decide_False by (by rewrite HP, elem_of_elements). rewrite not_combined_id by (by rewrite HP, elem_of_elements).
      cbn [default from_option id st_sats_in_view st_sats_tracked st_snr_max_dbhz]. rewrite !Z.add_0_l.
      rewrite !(sumZ_perm _ _ (fmap_Permutation _ _ _ HP)), (maxZ_perm _ _ (fmap_Permutation _ _ _ HP)).
      set (ts := elements _). assert (Hv := bands_nonneg _ ts Hiv). assert (Ht := bands_nonneg _ ts Htr).
      assert (Hs := foldr_max_le ((λ t, band_max now gs_snr_max t (gf_gsv f)) <$> ts) 99 ltac:(lia)
                      ltac:(apply list.Forall_fmap, list.Forall_forall; intros ? _; apply Hsn)).
      rewrite Z.max_r by lia. rewrite !Hcap by lia. done. }
  destruct Hstats as ([= -> -> ->] & H1 & H2 & H3). unfold count_ok in *. split_and!; try done; lia.
Qed.
End Stats.

(** ** Ranges *)

Definition clock_ok (hh mm : Z) : Prop := 0 <= hh < 24 ∧ 0 <= mm < 60.
(** [v]: a date is there. *)
Definition date_ok (v : bool) (yy mo dd : Z) : Prop :=
  0 <= yy <= 2099 ∧ 0 <= mo <= 12 ∧ 0 <= dd <= 31 ∧ (v = true → 2000 <= yy ∧ 1 <= mo ∧ 1 <= dd).
Definition motion_ok (la lo al ac sp hd : Z) : Prop :=
  -2147483648 <= la <= 2147483647 ∧ -2147483648 <= lo <= 2147483647 ∧ -32768 <= al <= 32767 ∧
  0 <= ac <= 255 ∧ 0 <= sp <= 255 ∧ 0 <= hd <= 179.
Definition nmea_typed (p : nmea_position_t) : Prop :=
  motion_ok (np_latitude_e7 p) (np_longitude_e7 p) (np_altitude_m p) (np_accuracy_m p) (np_speed_kmh p) (np_heading_deg2 p) ∧
  is_u32 (np_timestamp p) ∧ count_ok (np_sats_used p) ∧ 0 <= np_fix_quality p <= 8 ∧
  clock_ok (np_utc_hour p) (np_utc_min p) ∧
  date_ok (np_utc_date_valid p) (np_utc_year p) (np_utc_month p) (np_utc_day p).
(** A slot's talker is two characters and its terminator, its signal a hexadecimal
    digit, its expiry a time. *)
Definition gslot_typed (s : gps_gsv_slot_t) : Prop :=
  (length (gs_talker s) <= 2)%nat ∧ 0 <= gs_signal_id s <= 15 ∧ is_u64 (gs_until_ms s).
(** A string in a buffer of a line, with its terminator. *)
Definition line_ok (l : list Z) : Prop := (length l < GPS_FEED_MAX_LINE)%nat ∧ Forall is_u8 l.
Definition totals_ok (f : gps_feed_t) : Prop :=
  is_u32 (gf_rx_bytes_total f) ∧ is_u32 (gf_rx_lines_total f) ∧
  is_u64 (gf_first_line_ms f) ∧ is_u64 (gf_last_line_ms f) ∧ is_u64 (gf_antenna_until_ms f).
Definition feed_typed (f : gps_feed_t) : Prop :=
  line_ok (gf_line f) ∧ line_ok (gf_chip_banner f) ∧ totals_ok f ∧
  nmea_typed (gf_acc f) ∧ gsv_ok (gf_gsv f) ∧ Forall gslot_typed (gf_gsv f) ∧
  (let p := gf_pos f in
   motion_ok (po_latitude_e7 p) (po_longitude_e7 p) (po_altitude_m p) (po_accuracy_m p) (po_speed_kmh p) (po_heading_deg2 p) ∧
   is_u32 (po_timestamp p) ∧ (gf_has_fix f = true → po_valid p = true)) ∧
  count_ok (gf_sats_used f) ∧ 0 <= gf_fix_quality f <= 8 ∧ clock_latched f ∧
  clock_ok (gf_utc_hour f) (gf_utc_min f) ∧
  date_ok (gf_utc_date_valid f) (gf_utc_year f) (gf_utc_month f) (gf_utc_day f).

Lemma gsv_signal_range fs : 0 <= gsv_signal fs <= 15.
Proof.
  unfold gsv_signal. cbn zeta. destruct (_ && _); [|lia]. destruct (_ && _); [|lia].
  destruct (_ || _) eqn:E; [done|]. conds. rewrite u8_id by (unfold is_u8; lia). lia.
Qed.
Lemma feed_gsv_typed slots g now : Forall gslot_typed slots → (length (gv_talker g) <= 2)%nat → 0 <= gv_signal_id g <= 15 →
  Forall gslot_typed (feed_gsv slots g now).
Proof.
  intros Hs Ht Hsig. unfold feed_gsv, gsv_slot_for.
  assert (Ha : ∀ i l, Forall gslot_typed l → Forall gslot_typed (alter (gsv_update g now) i l)).
  { intros i l Hl. apply Forall_alter; [done|]. intros x _ (H1 & H2 & _). split; [exact H1|]. split; [exact H2|apply u64_range]. }
  assert (Hc : gslot_typed (gsv_claimed (gv_talker g) (gv_signal_id g))).
  { unfold gsv_claimed, gslot_typed. cbn [gs_talker gs_signal_id gs_until_ms]. rewrite length_take.
    split; [lia|]. split; [exact Hsig|done]. }
  destruct (gv_talker g) as [|c l] eqn:E; [done|]. rewrite <- E in *.
  destruct (find_index (gsv_is _ _) slots); [by apply Ha|].
  destruct (find_index gsv_free slots); apply Ha; by apply Forall_insert.
Qed.
Lemma gsv_parse_signal s g : nmea_parse_gsv s = (true, g) → 0 <= gv_signal_id g <= 15.
Proof. unfold nmea_parse_gsv. repeat (case_match; [done|]). destruct (gsv_groups _ _). intros [= <-]. apply gsv_signal_range. Qed.

Section Typed.
Context `{FloatCastLaws}.

Ltac typed := intros; destruct_and?; destruct select nmea_position_t; unfold nmea_typed, motion_ok, clock_ok, date_ok in *; cbn in *; destruct_and?; split_and!; (done || lia || naive_solver lia).
Lemma typed_valid v p : nmea_typed p → nmea_typed (np_set_valid v p). Proof. typed. Qed.
Lemma coord_range f d : -2147483648 <= coord_e7 f d <= 2147483647. Proof. by apply float_to_range. Qed.
Lemma typed_coords f d f' d' p : nmea_typed p → nmea_typed (np_set_coords (coord_e7 f d) (coord_e7 f' d') p).
Proof. pose proof (coord_range f d). pose proof (coord_range f' d'). set (coord_e7 f d) in *. set (coord_e7 f' d') in *. typed. Qed.
Lemma u8_cast_range f : 0 <= float_to_u8 f <= 255. Proof. by apply float_to_range. Qed.
Lemma typed_altitude s p : nmea_typed p → nmea_typed (np_set_altitude (float_to_i16 s) p).
Proof. assert (Hr : -32768 <= float_to_i16 s <= 32767) by by apply float_to_range. set (float_to_i16 s) in *. typed. Qed.
Lemma set_speed_typed v p : 0 <= v <= 255 → nmea_typed p → nmea_typed (np_set_speed v p). Proof. typed. Qed.
Lemma set_accuracy_typed v p : 0 <= v <= 255 → nmea_typed p → nmea_typed (np_set_accuracy v p). Proof. typed. Qed.
Lemma set_heading_typed v p : 0 <= v <= 179 → nmea_typed p → nmea_typed (np_set_heading v p). Proof. typed. Qed.
Lemma typed_speed s p : nmea_typed p → nmea_typed (parse_speed s p).
Proof. apply set_speed_typed. case_match; [lia|apply u8_cast_range]. Qed.
Lemma typed_accuracy s p : nmea_typed p → nmea_typed (parse_accuracy s p).
Proof. apply set_accuracy_typed. case_match; [lia|apply u8_cast_range]. Qed.
Lemma typed_heading s p : nmea_typed p → nmea_typed (parse_heading s p).
Proof.
  apply set_heading_typed. pose proof (u8_cast_range (b32_div (atof32 s) (b32_of_Z 2))) as Hc. case_match; conds; lia.
Qed.
Lemma typed_sats v p : count_ok v → nmea_typed p → nmea_typed (np_set_sats v p). Proof. typed. Qed.
Lemma typed_quality f p : nmea_typed p → nmea_typed (np_set_quality (gga_quality f) p).
Proof.
  assert (Hr : 0 <= gga_quality f <= 8).
  { unfold gga_quality. destruct (_ && _) eqn:E; [|lia]. unfold isdigit, CH_8, CH_0 in *. conds. rewrite u8_id; unfold is_u8; lia. }
  set (gga_quality f) in *. typed.
Qed.

Lemma digit_range f i : isdigit (chr f i) = true → 0 <= chr f i - CH_0 <= 9.
Proof. unfold isdigit, CH_0. intros ?. conds. lia. Qed.
Lemma two_digits_range f i : isdigit (chr f i) = true → isdigit (chr f (S i)) = true → 0 <= two_digits f i <= 99.
Proof. intros H1%digit_range H2%digit_range. unfold two_digits. lia. Qed.
Lemma set_time_typed hh mm v p : clock_ok hh mm → nmea_typed p → nmea_typed (np_set_time hh mm v p). Proof. typed. Qed.
Lemma set_date_typed yy mo dd p : date_ok true yy mo dd → nmea_typed p → nmea_typed (np_set_date yy mo dd p). Proof. typed. Qed.
Lemma typed_time s p : nmea_typed p → nmea_typed (parse_utc_time s p).
Proof.
  intros Hp. unfold parse_utc_time. set (q := np_set_time _ _ false p). assert (Hq : nmea_typed q) by (apply set_time_typed; [apply Hp|done]).
  destruct (negb (field_empty s) && _ && _ && _ && _) eqn:E; [|done]. conds.
  pose proof (two_digits_range s 0 ltac:(done) ltac:(done)). pose proof (two_digits_range s 2 ltac:(done) ltac:(done)).
  destruct ((two_digits s 0 <? 24) && _) eqn:E2; [|done]. conds. apply set_time_typed; [|done]. unfold clock_ok.
  rewrite !u8_id by (unfold is_u8; lia). lia.
Qed.
Lemma digits6 s : (6 <= length s)%nat → forallb isdigit (take 6 s) = true → ∀ i, (i < 6)%nat → isdigit (chr s i) = true.
Proof.
  intros Hl Hf i Hi. rewrite forallb_forall in Hf. apply Hf, list_elem_of_In, (list_elem_of_lookup_2 _ i).
  rewrite lookup_take_lt by done. unfold chr. destruct (lookup_lt_is_Some_2 s i) as [x Hx]; [lia|]. by rewrite Hx.
Qed.
Lemma typed_date s p : (6 <= length s)%nat → nmea_typed p → nmea_typed (parse_utc_date s p).
Proof.
  intros Hl Hp. unfold parse_utc_date. destruct (forallb isdigit (take 6 s)) eqn:E; [|done].
  pose proof (digits6 s Hl E) as Hd. pose proof (two_digits_range s 4 (Hd 4%nat ltac:(lia)) (Hd 5%nat ltac:(lia))).
  destruct (_ && _) eqn:E2; [|done]. conds. apply set_date_typed; [|done]. unfold date_ok.
  rewrite u16_id, !u8_id by (unfold is_u8, is_u16; lia). lia.
Qed.
Lemma rmc_typed s p : nmea_typed p → nmea_typed (nmea_parse_rmc s p).2.
Proof.
  intros Hp. unfold nmea_parse_rmc. repeat (case_match; [first [done | by apply typed_valid]|]). cbn [snd]. apply typed_valid.
  set (p1 := np_set_coords _ _ p). assert (H1' : nmea_typed p1) by by apply typed_coords. clearbody p1.
  set (p2 := if (_ : bool) then parse_speed _ p1 else p1). assert (H2' : nmea_typed p2) by (unfold p2; case_match; [by apply typed_speed|done]). clearbody p2.
  set (p3 := if (_ : bool) then parse_heading _ p2 else p2). assert (H3' : nmea_typed p3) by (unfold p3; case_match; [by apply typed_heading|done]). clearbody p3.
  destruct (_ && (6 <=? _)%nat) eqn:E; [|done]. conds. apply typed_date; [|done]. by apply Nat.leb_le.
Qed.
Lemma gga_typed s p : nmea_typed p → nmea_typed (nmea_parse_gga s p).2.
Proof.
  intros Hp. unfold nmea_parse_gga. rewrite quality_set. set (q := np_set_quality _ _).
  assert (Hq : nmea_typed q).
  { apply typed_quality, typed_sats; [|by apply typed_time]. case_match; [apply clamp_ok|done]. }
  clearbody q. repeat (case_match; [first [done | by apply typed_valid]|]). cbn [snd]. apply typed_valid.
  set (p1 := np_set_coords _ _ q). assert (H1' : nmea_typed p1) by by apply typed_coords. clearbody p1.
  set (p2 := if (_ : bool) then np_set_altitude _ p1 else p1).
  assert (H2' : nmea_typed p2) by (unfold p2; case_match; [by apply typed_altitude|done]). clearbody p2.
  case_match; [by apply typed_accuracy|done].
Qed.

Ltac ftyped := destruct select gps_feed_t; unfold feed_typed, totals_ok, clock_latched, clock_ok, date_ok; cbn -[is_u32 is_u64 line_ok gsv_ok gslot_typed];
  intros; destruct_and?; split_and!; (done || case_match; done || naive_solver).
Lemma keep_clear f : feed_typed f → feed_typed (gps_feed_clear_fix f). Proof. ftyped. Qed.
Lemma keep_note t f : is_u64 t → feed_typed f → feed_typed (note_line t f). Proof. ftyped. Qed.
Lemma keep_acc a f : nmea_typed a → feed_typed f → feed_typed (set_acc a f). Proof. ftyped. Qed.
Lemma keep_counts a f : nmea_typed a → feed_typed f → feed_typed (set_counts (np_sats_used a) (np_fix_quality a) f).
Proof. unfold nmea_typed. ftyped. Qed.
Lemma keep_gsv gs f : gsv_ok gs → Forall gslot_typed gs → feed_typed f → feed_typed (set_gsv gs f). Proof. ftyped. Qed.
Lemma keep_antenna u f : is_u64 u → feed_typed f → feed_typed (set_antenna u f). Proof. ftyped. Qed.
Lemma keep_banner b f : line_ok b → feed_typed f → feed_typed (set_banner b f). Proof. ftyped. Qed.
Lemma keep_line l f : line_ok l → feed_typed f → feed_typed (set_line l f). Proof. ftyped. Qed.
Lemma keep_rx rb rl f : is_u32 rb → is_u32 rl → feed_typed f → feed_typed (set_rx rb rl f). Proof. ftyped. Qed.
Lemma keep_fix a t f : nmea_typed a → feed_typed f → feed_typed (set_fix (fix_position a t) f).
Proof. unfold nmea_typed. pose proof (u32_range (t / 1000)). ftyped. Qed.
Lemma keep_utc hh mm f : gf_has_fix f = true → clock_ok hh mm → feed_typed f → feed_typed (set_utc hh mm f). Proof. ftyped. Qed.
Lemma keep_utc_date yy mo dd f : gf_has_fix f = true → date_ok true yy mo dd → feed_typed f → feed_typed (set_utc_date yy mo dd f).
Proof. ftyped. Qed.

Lemma line_copy_ok l : Forall is_u8 l → line_ok (line_copy l).
Proof. intros Hl. unfold line_copy. split; [rewrite length_take; unfold GPS_FEED_MAX_LINE; lia|by apply Forall_take]. Qed.
Lemma sentence_typed l t f : Forall is_u8 l → feed_typed f → feed_typed (feed_sentence l t f).2.
Proof.
  intros Hl Hf. assert (Ha : nmea_typed (gf_acc f)) by apply Hf. assert (Hg : gsv_ok (gf_gsv f)) by apply Hf.
  unfold feed_sentence, feed_rmc, feed_gga. destruct (is_rmc l); [|destruct (is_gga l); [|destruct (is_gsv l)]].
  - pose proof (rmc_typed (line_copy l) _ Ha) as Hp. destruct (nmea_parse_rmc (line_copy l) (gf_acc f)) as [ok a]. cbn [snd] in *.
    case_match; [apply keep_clear|]; by apply keep_acc.
  - pose proof (gga_typed (line_copy l) _ Ha) as Hp. destruct (nmea_parse_gga (line_copy l) (gf_acc f)) as [ok a]. cbn [snd] in *.
    case_match; [apply keep_clear|]; (apply keep_counts; [done|]); by apply keep_acc.
  - destruct (nmea_parse_gsv (line_copy l)) as [[] g] eqn:E; [|done]. apply keep_gsv; [| |done].
    + apply feed_gsv_ok; [done|by eapply gsv_parse_ok|by eapply gsv_talker_2].
    + apply feed_gsv_typed; [apply Hf|by eapply gsv_talker_2|by eapply gsv_parse_signal].
  - repeat case_match; [apply keep_antenna; [apply u64_range|done]|by apply keep_banner; [apply line_copy_ok|]|done].
Qed.
Lemma publish_typed t f : feed_typed f → feed_typed (publish t f).1.
Proof.
  intros Hf. assert (Ha : nmea_typed (gf_acc f)) by apply Hf. unfold publish. cbn [fst].
  set (f1 := set_fix _ f). assert (H1' : feed_typed f1) by by apply keep_fix.
  assert (E1 : gf_has_fix f1 = true) by by destruct f. clearbody f1. destruct Ha as (_ & _ & _ & _ & Hc & Hd).
  set (f2 := if (_ : bool) then set_utc _ _ f1 else f1).
  assert (H2' : feed_typed f2 ∧ gf_has_fix f2 = true).
  { unfold f2. case_match; [|done]. split; [by apply keep_utc|by destruct f1]. }
  clearbody f2. destruct H2' as [H2' E2]. case_match; [by apply keep_utc_date|done].
Qed.
Lemma line_typed f l t : Forall is_u8 l → is_u64 t → feed_typed f → feed_typed (gps_feed_line f l t).1.
Proof.
  intros Hl Ht Hf. pose proof (sentence_typed l t _ Hl (keep_note t f Ht Hf)) as Hs. unfold gps_feed_line.
  destruct (feed_sentence l t (note_line t f)) as [ok f1]. destruct (ok && _); [by apply publish_typed|done].
Qed.
Lemma c_string_u8 l : Forall is_u8 l → Forall is_u8 (c_string l).
Proof. induction 1 as [|b l Hb Hl IH]; cbn [c_string]; [done|]. case_match; by constructor. Qed.
Lemma byte_typed t f c : is_u64 t → is_u8 c → feed_typed f → feed_typed (gps_feed_byte t f c).1.
Proof.
  intros Ht Hc Hf. pose proof Hf as ([Hl Hu] & _ & (Hb & Hn & _) & _). unfold gps_feed_byte.
  destruct (c =? DOLLAR); [apply keep_line; [split; [cbn; unfold GPS_FEED_MAX_LINE; lia|by constructor; [|constructor]]|done]|].
  destruct ((c =? LF) || (c =? CR)).
  - destruct (0 <? length (gf_line f))%nat; [|done].
    match goal with |- context [gps_feed_line ?g ?l t] => pose proof (line_typed g l t) as HL;
      assert (Hg : feed_typed g) by (apply keep_rx; [done|apply u32_range|done]);
      assert (Hs : Forall is_u8 l) by (apply c_string_u8; by destruct f); specialize (HL Hs Ht Hg); destruct (gps_feed_line g l t) end.
    apply keep_line; [split; [cbn; unfold GPS_FEED_MAX_LINE; lia|constructor]|done].
  - destruct (length (gf_line f) <? GPS_FEED_MAX_LINE - 1)%nat eqn:E; [|done]. apply keep_line; [|done].
    apply Nat.ltb_lt in E. split; [rewrite length_app; cbn; lia|]. apply Forall_app. split; [done|by constructor; [|constructor]].
Qed.
Lemma bytes_typed t f data : is_u64 t → Forall is_u8 data → feed_typed f → feed_typed (gps_feed_bytes f data t).1.
Proof.
  unfold gps_feed_bytes. intros Ht Hd Hf.
  assert (Hr := keep_rx (u32 (gf_rx_bytes_total f + Z.of_nat (length data))) (gf_rx_lines_total f) f (u32_range _)
                  ltac:(apply Hf) Hf).
  revert Hr. generalize (set_rx (u32 (gf_rx_bytes_total f + Z.of_nat (length data))) (gf_rx_lines_total f) f). clear Hf f.
  induction Hd as [|c d Hc Hd IH]; intros f Hf; cbn [bytes_loop]; [done|].
  pose proof (byte_typed t f c Ht Hc Hf) as Hb. destruct (gps_feed_byte t f c) as [f1 o1]. cbn [fst] in Hb.
  specialize (IH _ Hb). by destruct (bytes_loop t f1 d).
Qed.
Lemma init_typed cb : feed_typed (gps_feed_init cb).
Proof.
  unfold feed_typed, line_ok, totals_ok.
  split_and!; try done; try (cbn; unfold GPS_FEED_MAX_LINE; lia); try apply init_gsv; try by constructor.
  apply Forall_replicate. unfold gslot_typed. cbn. split_and!; (done || lia).
Qed.

(** The feeds the driver can hold: the stream is bytes and the clock 64 bits. *)
Inductive feed_reach : gps_feed_t → Prop :=
  | reach_init cb : feed_reach (gps_feed_init cb)
  | reach_line f l t : Forall is_u8 l → is_u64 t → feed_reach f → feed_reach (gps_feed_line f l t).1
  | reach_bytes f data t : Forall is_u8 data → is_u64 t → feed_reach f → feed_reach (gps_feed_bytes f data t).1
  | reach_clear f : feed_reach f → feed_reach (gps_feed_clear_fix f)
  | reach_reset f : feed_reach f → feed_reach (gps_feed_reset f).

(** C37. Whatever the receiver sends, every field keeps its range: the line buffer and the
    chip banner hold terminated lines of 128 bytes, the twelve slots are distinct, their
    talkers two characters, their signals hexadecimal digits and their counts below 100,
    the totals fit 32 bits and every time 64, positions fit their types, and a clock or
    date that is handed out is one and belongs to a fix. *)
Theorem feed_stays_typed f now : feed_reach f →
  feed_typed f ∧
  (∀ p, gps_feed_get_position f now = Some p → po_valid p = true) ∧
  (∀ hh mm, gps_feed_get_utc_hm f now = Some (hh, mm) → 0 <= hh < 24 ∧ 0 <= mm < 60 ∧ gps_feed_has_fix f now = true) ∧
  (∀ yy mo dd, gps_feed_get_utc_date f now = Some (yy, mo, dd) →
     2000 <= yy <= 2099 ∧ 1 <= mo <= 12 ∧ 1 <= dd <= 31 ∧ gps_feed_has_fix f now = true).
Proof.
  intros Hr. assert (Hf : feed_typed f).
  { induction Hr; [apply init_typed|by apply line_typed|by apply bytes_typed|by apply keep_clear|apply init_typed]. }
  split; [done|]. destruct Hf as (_ & _ & _ & _ & _ & _ & (_ & _ & Hv) & _ & _ & [Hc1 Hc2] & Ht & Hd). split_and!.
  - intros p. unfold gps_feed_get_position, gps_feed_has_fix. destruct (gf_has_fix f); [|done].
    destruct (feed_live f now); [|done]. intros [= <-]. by apply Hv.
  - intros hh mm. unfold gps_feed_get_utc_hm, gps_feed_has_fix. destruct (gf_utc_valid f); [|done].
    destruct (feed_live f now); [|done]. intros [= <- <-]. destruct Ht. by rewrite (Hc1 eq_refl).
  - intros yy mo dd. unfold gps_feed_get_utc_date, gps_feed_has_fix. destruct (gf_utc_date_valid f); [|done].
    destruct (feed_live f now); [|done]. intros [= <- <- <-]. destruct Hd as (? & ? & ? & Hd). specialize (Hd eq_refl). rewrite (Hc2 eq_refl). split_and!; (done || lia).
Qed.
End Typed.

(** ** The date outlives the fix it came with *)

Section StaleDate.
Context `{FloatCast}.

Definition date_of (p : nmea_position_t) : Z * Z * Z * bool :=
  (np_utc_year p, np_utc_month p, np_utc_day p, np_utc_date_valid p).
Lemma date_valid v p : date_of (np_set_valid v p) = date_of p. Proof. by destruct p. Qed.
Lemma date_time f p : date_of (parse_utc_time f p) = date_of p.
Proof. unfold parse_utc_time. repeat case_match; by destruct p. Qed.
Lemma date_sats a p : date_of (np_set_sats a p) = date_of p. Proof. by destruct p. Qed.
Lemma date_quality a p : date_of (np_set_quality a p) = date_of p. Proof. by destruct p. Qed.
Lemma date_coords a b p : date_of (np_set_coords a b p) = date_of p. Proof. by destruct p. Qed.
Lemma date_altitude a p : date_of (np_set_altitude a p) = date_of p. Proof. by destruct p. Qed.
Lemma date_accuracy f p : date_of (parse_accuracy f p) = date_of p. Proof. by destruct p. Qed.
Lemma date_if (b : bool) p q : date_of q = date_of p → date_of (if b then q else p) = date_of p.
Proof. by destruct b. Qed.
Lemma gga_date s p : date_of (nmea_parse_gga s p).2 = date_of p.
Proof.
  unfold nmea_parse_gga. rewrite quality_set. set (q := np_set_quality _ _).
  assert (Hq : date_of q = date_of p) by (unfold q; by rewrite date_quality, date_sats, date_time). clearbody q.
  repeat (case_match; [by cbn [snd]; rewrite ?date_valid|]). cbn [snd]. rewrite date_valid.
  repeat rewrite date_if by first [apply date_accuracy | apply date_altitude]. by rewrite date_coords.
Qed.
Lemma rmc_date s p : (nmea_parse_rmc s p).1 = false → date_of (nmea_parse_rmc s p).2 = date_of p.
Proof. unfold nmea_parse_rmc. by repeat (case_match; [cbn [snd]; rewrite ?date_valid|]). Qed.

Lemma lost_fix_date f l t : reads l = Some None →
  date_of (gf_acc (gps_feed_line f l t).1) = date_of (gf_acc f) ∧
  gf_utc_date_valid (gps_feed_line f l t).1 = false.
Proof.
  intros Hr. unfold gps_feed_line. destruct (feed_sentence l t (note_line t f)) as [ok f1] eqn:E.
  pose proof (sentence_spec l t f ok f1 E) as [_ Hs]. rewrite Hr in Hs. destruct Hs as [-> _]. cbn [andb fst].
  assert (Ha : gf_acc (note_line t f) = gf_acc f) by by destruct f.
  unfold reads, reading, feed_sentence, feed_rmc, feed_gga in *. rewrite Ha in E. destruct (is_rmc l); [|destruct (is_gga l); [|done]].
  - pose proof (rmc_date (line_copy l) (gf_acc f)) as Hd. destruct (nmea_parse_rmc (line_copy l) (gf_acc f)) as [ok a].
    destruct (nmea_parse_rmc (line_copy l) nmea_zero) as [[] ?]; [done|]. destruct (nmea_reports_no_fix l); [|done].
    injection E as -> <-. cbn [negb andb fst snd] in *. destruct f. cbn in *. by rewrite Hd.
  - pose proof (gga_date (line_copy l) (gf_acc f)) as Hd. destruct (nmea_parse_gga (line_copy l) (gf_acc f)) as [ok a].
    destruct (nmea_parse_gga (line_copy l) nmea_zero) as [[] ?]; [done|]. destruct (nmea_reports_no_fix l); [|done].
    injection E as -> <-. cbn [negb andb fst snd] in *. destruct f. cbn in *. by rewrite Hd.
Qed.
Lemma gga_publishes f l t c : is_rmc l = false → is_gga l = true → reads l = Some (Some c) →
  np_utc_date_valid (gf_acc f) = true →
  let f' := (gps_feed_line f l t).1 in
  (gf_utc_year f', gf_utc_month f', gf_utc_day f', gf_utc_date_valid f') = date_of (gf_acc f).
Proof.
  intros Hn Hg Hr Hv f'. unfold f', gps_feed_line. destruct (feed_sentence l t (note_line t f)) as [ok f1] eqn:E.
  pose proof (sentence_spec l t f ok f1 E) as [_ Hs]. rewrite Hr in Hs. destruct Hs as (-> & Hval & _). rewrite Hval. cbn [andb].
  assert (Hd : date_of (gf_acc f1) = date_of (gf_acc f)).
  { unfold feed_sentence, feed_gga in E. rewrite Hn, Hg in E.
    pose proof (gga_date (line_copy l) (gf_acc f)) as Hd. replace (gf_acc (note_line t f)) with (gf_acc f) in E by by destruct f.
    destruct (nmea_parse_gga (line_copy l) (gf_acc f)) as [ok a]. injection E as -> <-. cbn in *. by destruct f. }
  clear E. unfold publish. rewrite <- Hd. assert (Hv1 : np_utc_date_valid (gf_acc f1) = true).
  { unfold date_of in Hd. congruence. }
  rewrite Hv1. destruct f1. cbn in *. unfold date_of. rewrite Hv1. by destruct (np_utc_valid _).
Qed.

(** When the receiver loses its fix the date is withdrawn, but the first GGA sentence
    of the next fix, which carries no date, publishes the old one again, however long
    the fix was lost. *)
Theorem stale_date_returns f l1 t1 l2 t2 c now :
  np_utc_date_valid (gf_acc f) = true →
  reads l1 = Some None → is_rmc l2 = false → is_gga l2 = true → reads l2 = Some (Some c) →
  now < u64 (t2 + GPS_FEED_SILENCE_TTL_MS) →
  let f1 := (gps_feed_line f l1 t1).1 in
  let f2 := (gps_feed_line f1 l2 t2).1 in
  (∀ u, gps_feed_get_utc_date f1 u = None) ∧
  gps_feed_get_utc_date f2 now =
    Some (np_utc_year (gf_acc f), np_utc_month (gf_acc f), np_utc_day (gf_acc f)).
Proof.
  intros Hv Hr1 Hn Hg Hr2 Hnow f1 f2. destruct (lost_fix_date f l1 t1 Hr1) as [Hd Hoff]. fold f1 in Hd, Hoff.
  split; [intros u; unfold gps_feed_get_utc_date; by rewrite Hoff|].
  assert (Hp := gga_publishes f1 l2 t2 c Hn Hg Hr2). fold f2 in Hp. rewrite Hd in Hp.
  specialize (Hp ltac:(unfold date_of in Hd; congruence)). unfold date_of in Hp. injection Hp as E1 E2 E3 E.
  unfold gps_feed_get_utc_date. rewrite E, E1, E2, E3, Hv. destruct (line_spec f1 l2 t2 f2 _ ltac:(unfold f2; apply surjective_pairing)) as [(H1 & H2 & _) _].
  unfold feed_live. rewrite H1, H2, (proj2 (Z.ltb_lt _ _) Hnow). done.
Qed.
End StaleDate.

(** ** Power *)

(** The receiver is on from a minute before each share is due, at every reading of the
    wrapping clock: off exactly when the user has switched it off, or sharing runs at
    intervals of two minutes or more, a share has been sent and the next is more than
    a minute away. *)
Theorem receiver_awake_for_share en sharing interval last now :
  0 <= interval < 65536 → 0 <= last → last <= now < last + 2000000000 →
  gps_duty_should_power (mk_duty en sharing interval (u32 now) (u32 last)) =
  en && (negb sharing || (interval <? 120) || (u32 last =? 0) || (last + interval * 1000 - 60000 <=? now)).
Proof.
  intros Hi Hl Hn. unfold gps_duty_should_power. cbn [du_user_enabled du_sharing_active du_interval_s du_now_ms du_last_send_ms].
  destruct en, sharing; cbn [negb andb orb]; try done. unfold GPS_DUTY_MIN_INTERVAL_S, GPS_DUTY_WARM_MARGIN_S.
  destruct (interval <? 120); [done|]. destruct (u32 last =? 0); [done|]. cbn [orb].
  replace (i32 (u32 (u32 (u32 last + u32 (interval * 1000)) - u32 now))) with (last + interval * 1000 - now) by (unfold i32; cint).
  apply eq_bool_prop_intro. rewrite !Is_true_true, !Z.leb_le. lia.
Qed.

(** ** Witnesses *)

Definition a_rmc : list Z := str_bytes "$GPRMC,123519,A,4807.038,N,01131.000,E,022.4,084.4,230326,003.1,W*6A".
Definition lost_rmc : list Z := str_bytes "$GPRMC,123520,V,,,,,,,230326,,*00".
Definition a_gga : list Z := str_bytes "$GPGGA,043519,3725.123,S,12215.456,W,1,08,0.9,545.4,M,46.9,M,,*47".
Definition a_history : list (list Z * Z) := [(a_rmc, 1000); (lost_rmc, 2000); (a_gga, 90000000)].
Definition a_feed : gps_feed_t := (run_lines (H := saturating_cast) (gps_feed_init true) a_history).1.

Lemma fix_follows_receiver_witness :
  Forall (λ '(_, t), 0 <= t < 18446744073709521616) a_history ∧
  place <$> gps_feed_get_position a_feed 90029999 = Some (-374187168, -1222576000, 90000).
Proof.
  assert (Hh : Forall (λ '(_, t), 0 <= t < 18446744073709521616) a_history) by (repeat constructor; lia).
  assert (Hr : run_lines (H := saturating_cast) (gps_feed_init true) a_history = (a_feed, (run_lines (H := saturating_cast) (gps_feed_init true) a_history).2))
    by apply surjective_pairing.
  split; [exact Hh|].
  destruct (@fix_follows_receiver saturating_cast true a_history 90029999 a_feed _ Hh Hr) as [-> _]. vm_compute. reflexivity.
Defined.

Lemma feed_stays_typed_witness :
  feed_reach (H := saturating_cast) (gps_feed_line (H := saturating_cast) (gps_feed_init true) a_rmc 1000).1 ∧
  feed_typed (gps_feed_line (H := saturating_cast) (gps_feed_init true) a_rmc 1000).1.
Proof.
  assert (Hr : feed_reach (H := saturating_cast) (gps_feed_line (H := saturating_cast) (gps_feed_init true) a_rmc 1000).1)
    by (apply reach_line; [vm_compute; repeat constructor; discriminate|done|apply reach_init]).
  split; [exact Hr|]. exact (proj1 (@feed_stays_typed saturating_cast saturating_cast_laws _ 1500 Hr)).
Defined.

(** A fix on 23 March 2026 is lost; the fix of the next day opens with the date of the
    day before. *)
Lemma stale_date_returns_witness :
  gps_feed_get_utc_date a_feed 90000001 = Some (2026, 3, 23).
Proof.
  pose (f := (gps_feed_line (H := saturating_cast) (gps_feed_init true) a_rmc 1000).1).
  destruct (@stale_date_returns saturating_cast f lost_rmc 2000 a_gga 90000000 (-374187168, -1222576000) 90000001) as [_ E];
    [vm_compute; reflexivity..|].
  vm_compute in E |- *. exact E.
Defined.

Lemma receiver_awake_for_share_witness :
  gps_duty_should_power (mk_duty true true 600 (u32 4294967290) (u32 4294960000)) = false ∧
  gps_duty_should_power (mk_duty true true 600 (u32 4295500000) (u32 4294960000)) = true.
Proof.
  split.
  - rewrite (receiver_awake_for_share true true 600 4294960000 4294967290) by lia. reflexivity.
  - rewrite (receiver_awake_for_share true true 600 4294960000 4295500000) by lia. reflexivity.
Defined.
