(* ===== verification/MsgFlash.v ===== *)
(** * The persisted message file ([components/msg_store/msg_store_lfs.c])

    The file system is a parameter: a class of calls and the documented effect of each
    on what is open and on what a loss of power leaves ([documented]).  An operation of
    the back end is a program of such calls, so that power can fail between any two.
    Records are written as they lie in memory. *)

From stdpp Require Import base numbers option decidable list.
From S2P Require Import Prelude Tables MsgStore Location.

(** ** littlefs *)

Inductive lpath := MSG_FILE_PATH | MSG_TMP_PATH.
Inductive lhandle := S_FILE | OUT_FILE.
Inductive lcall :=
| LOpen (h : lhandle) (p : lpath) (create_trunc : bool)
| LSeek (h : lhandle) (off : Z)
| LSeekEnd (h : lhandle)
| LRead (h : lhandle) (n : nat)
| LWrite (h : lhandle) (bs : list Z)
| LSync (h : lhandle)
| LSize (h : lhandle)
| LTruncate (h : lhandle) (n : Z)
| LClose (h : lhandle)
| LRemove (p : lpath)
| LRename (p q : lpath).
(** A negative result, success (of a write: all bytes), the bytes read, a size. *)
Inductive lres := LErr | LOk | LData (bs : list Z) | LLen (n : nat).

Record lfile := mk_lfile { lf_path : lpath; lf_data : list Z; lf_pos : nat }.
(** What is on flash under each name, and what each handle has open. *)
Record lview := mk_lview { v_msg : option (list Z); v_tmp : option (list Z); v_file : option lfile; v_out : option lfile }.
Definition disk (v : lview) (p : lpath) : option (list Z) :=
  match p with MSG_FILE_PATH => v_msg v | MSG_TMP_PATH => v_tmp v end.
Definition set_disk (p : lpath) (d : option (list Z)) (v : lview) : lview :=
  match p with
  | MSG_FILE_PATH => mk_lview d (v_tmp v) (v_file v) (v_out v)
  | MSG_TMP_PATH => mk_lview (v_msg v) d (v_file v) (v_out v)
  end.
Definition opened (v : lview) (h : lhandle) : option lfile :=
  match h with S_FILE => v_file v | OUT_FILE => v_out v end.
Definition set_opened (h : lhandle) (f : option lfile) (v : lview) : lview :=
  match h with
  | S_FILE => mk_lview (v_msg v) (v_tmp v) f (v_out v)
  | OUT_FILE => mk_lview (v_msg v) (v_tmp v) (v_file v) f
  end.
Definition splice (pos : nat) (bs data : list Z) : list Z :=
  take pos data ++ bs ++ drop (pos + length bs) data.

(** What littlefs documents of a call on an open file [f]: reads and writes act on
    the open file, a sync or close puts it on flash as a whole, and a call that fails
    leaves flash as it was. *)
Definition file_call (c : lcall) (h : lhandle) (f : lfile) (v : lview) (r : lres) (v' : lview) : Prop :=
  let moved data pos := set_opened h (Some (mk_lfile (lf_path f) data pos)) v in
  match c with
  | LSeek _ off => r = LOk ∧ 0 <= off ∧ v' = moved (lf_data f) (Z.to_nat off) ∨ r = LErr ∧ v' = v
  | LSeekEnd _ => r = LOk ∧ v' = moved (lf_data f) (length (lf_data f)) ∨ r = LErr ∧ v' = v
  | LRead _ n =>
      let bs := take n (drop (lf_pos f) (lf_data f)) in
      r = LData bs ∧ v' = moved (lf_data f) (lf_pos f + length bs)%nat ∨
      r = LErr ∧ ∃ pos, v' = moved (lf_data f) pos
  | LWrite _ bs =>
      r = LOk ∧ v' = moved (splice (lf_pos f) bs (lf_data f)) (lf_pos f + length bs)%nat ∨
      r = LErr ∧ ∃ data pos, v' = moved data pos
  | LSync _ => r = LOk ∧ v' = set_disk (lf_path f) (Some (lf_data f)) v ∨ r = LErr ∧ v' = v
  | LSize _ => r = LLen (length (lf_data f)) ∧ v' = v ∨ r = LErr ∧ v' = v
  | LTruncate _ n => r = LOk ∧ 0 <= n ∧ v' = moved (take (Z.to_nat n) (lf_data f)) (lf_pos f) ∨ r = LErr ∧ v' = v
  | LClose _ =>
      r = LOk ∧ v' = set_opened h None (set_disk (lf_path f) (Some (lf_data f)) v) ∨ r = LErr ∧ v' = set_opened h None v
  | _ => True
  end.
(** A call on a handle that is not open promises nothing. *)
Definition on_file (c : lcall) (h : lhandle) (v : lview) (r : lres) (v' : lview) : Prop :=
  match opened v h with Some f => file_call c h f v r v' | None => True end.
Definition documented (c : lcall) (v : lview) (r : lres) (v' : lview) : Prop :=
  match c with
  | LOpen h p false =>
      (∃ d, disk v p = Some d ∧ r = LOk ∧ v' = set_opened h (Some (mk_lfile p d 0)) v) ∨ r = LErr ∧ v' = v
  | LOpen h p true =>
      ∃ d, (d = disk v p ∨ disk v p = None ∧ d = Some []) ∧
        (r = LOk ∧ v' = set_opened h (Some (mk_lfile p [] 0)) (set_disk p d v) ∨ r = LErr ∧ v' = set_disk p d v)
  | LSeek h _ | LSeekEnd h | LRead h _ | LWrite h _ | LSync h | LSize h | LTruncate h _ | LClose h => on_file c h v r v'
  | LRemove p => r = LOk ∧ v' = set_disk p None v ∨ r = LErr ∧ v' = v
  | LRename p q => r = LOk ∧ v' = set_disk p None (set_disk q (disk v p) v) ∨ r = LErr ∧ v' = v
  end.

Class Lfs := {
  lfs : Type;
  lfs_call : lcall → lfs → lres * lfs;
  lfs_reboot : lfs → lfs;
  lfs_view : lfs → lview;
}.
Class LfsLaws `{Lfs} := {
  lfs_documented c s r s' : lfs_call c s = (r, s') → documented c (lfs_view s) r (lfs_view s');
  lfs_reboot_view s : lfs_view (lfs_reboot s) = mk_lview (v_msg (lfs_view s)) (v_tmp (lfs_view s)) None None;
}.

(** ** Records *)

(** A [stored_msg_t] in memory on this target: little endian, enumerations of one byte,
    fields at multiples of their size, 712 bytes with the padding, which is zero since
    rows are cleared before they are filled. *)
Definition image_size : nat := 712.
Definition dir_code (d : msg_direction_t) : Z :=
  match d with MSG_DIR_INCOMING => 0 | MSG_DIR_OUTGOING => 1 | MSG_DIR_BROADCAST_IN => 2 | MSG_DIR_BROADCAST_OUT => 3 end.
Definition dir_of (c : Z) : msg_direction_t :=
  if c =? 0 then MSG_DIR_INCOMING else if c =? 1 then MSG_DIR_OUTGOING else if c =? 2 then MSG_DIR_BROADCAST_IN else MSG_DIR_BROADCAST_OUT.
Definition status_code (s : msg_status_t) : Z :=
  match s with
  | MSG_STATUS_NONE => 0 | MSG_STATUS_SENT => 1 | MSG_STATUS_DELIVERED => 2 | MSG_STATUS_FAILED => 3 | MSG_STATUS_QUEUED => 4
  end.
Definition status_of (c : Z) : msg_status_t :=
  if c =? 0 then MSG_STATUS_NONE else if c =? 1 then MSG_STATUS_SENT else if c =? 2 then MSG_STATUS_DELIVERED
  else if c =? 3 then MSG_STATUS_FAILED else MSG_STATUS_QUEUED.
Definition image (m : stored_msg_t) : list Z :=
  le32_bytes (m_peer_addr m) ++ le32_bytes (m_uid m) ++ [dir_code (m_direction m); status_code (m_status m); 0; 0] ++
  le32_bytes (m_packet_id m) ++ le32_bytes (m_timestamp_s m) ++ [u8 (m_rssi m); u8 (m_snr m)] ++
  le16_bytes (m_channel_index m) ++ [u8 (m_route_hop_count m); 0; 0; 0] ++
  mjoin (le32_bytes <$> resize MSG_ROUTE_MAX_HOPS 0 (m_route_hops m)) ++
  le16_bytes (Z.of_nat (length (m_text m))) ++ resize MSG_TEXT_MAX 0 (m_text m) ++ [0; 0].
Definition of_image (bs : list Z) : stored_msg_t :=
  let at32 o := le32_val (take 4 (drop o bs)) in
  let at16 o := le16_val (take 2 (drop o bs)) in
  mk_stored (at32 0%nat) (at32 4%nat) (dir_of (bs !!! 8%nat)) (status_of (bs !!! 9%nat)) (at32 12%nat) (at32 16%nat)
    (i8 (bs !!! 20%nat)) (i8 (bs !!! 21%nat)) (i16 (at16 22%nat)) (bs !!! 24%nat)
    (at32 <$> [28; 32; 36; 40; 44; 48; 52; 56; 60; 64]%nat) (take (Z.to_nat (at16 68%nat)) (drop 70 bs)).

(** ** Programs of calls *)

Inductive prog (A : Type) := Ret (a : A) | Do (c : lcall) (k : lres → prog A).
Arguments Ret {A} a.
Arguments Do {A} c k.
Fixpoint pbind {A B} (p : prog A) (k : A → prog B) : prog B :=
  match p with Ret a => k a | Do c k' => Do c (λ r, pbind (k' r) k) end.
Notation "x '<-!' c ; p" := (Do c (λ x, p)) (at level 20, c at level 100, p at level 200).
Notation "x '<~' p ; q" := (pbind p (λ x, q)) (at level 20, p at level 100, q at level 200).
Notation "' x '<~' p ; q" := (pbind p (λ x, q)) (at level 20, x pattern, p at level 100, q at level 200).

Definition failed (r : lres) : bool := match r with LErr => true | _ => false end.
(** [lfs_file_read(..., n) == n]. *)
Definition read_all (r : lres) (n : nat) : option (list Z) :=
  match r with LData bs => if (length bs =? n)%nat then Some bs else None | _ => None end.

(** ** The header *)

Definition MSG_FILE_MAGIC : Z := 1112686925.
Definition MSG_FILE_VERSION : Z := 1.
Record msg_file_header_t := mk_fhdr {
  fh_magic : Z; fh_version : Z; fh_record_size : Z; fh_record_count : Z; fh_next_id : Z }.
Definition HEADER_BYTES : nat := 16.
Definition header_image (h : msg_file_header_t) : list Z :=
  le32_bytes (fh_magic h) ++ le16_bytes (fh_version h) ++ le16_bytes (fh_record_size h) ++
  le32_bytes (fh_record_count h) ++ le32_bytes (fh_next_id h).
Definition header_of (bs : list Z) : msg_file_header_t :=
  mk_fhdr (le32_val (take 4 bs)) (le16_val (take 2 (drop 4 bs))) (le16_val (take 2 (drop 6 bs)))
    (le32_val (take 4 (drop 8 bs))) (le32_val (take 4 (drop 12 bs))).
Definition with_count (h : msg_file_header_t) (n : Z) : msg_file_header_t :=
  mk_fhdr (fh_magic h) (fh_version h) (fh_record_size h) n (fh_next_id h).

(** The statics [s_header] and [s_initialized]. *)
Record flash_ram := mk_fram { fr_header : msg_file_header_t; fr_initialized : bool }.
Definition flash_ram_zero : flash_ram := mk_fram (mk_fhdr 0 0 0 0 0) false.

Definition record_bytes : Z := Z.of_nat image_size.
Definition fresh_header : msg_file_header_t :=
  mk_fhdr MSG_FILE_MAGIC MSG_FILE_VERSION (u16 record_bytes) 0 1.
Definition header_ok (h : msg_file_header_t) : bool :=
  (fh_magic h =? MSG_FILE_MAGIC) && (fh_version h =? MSG_FILE_VERSION) && (fh_record_size h =? record_bytes).

Definition write_header (h : msg_file_header_t) : prog Z :=
  r <-! LSeek S_FILE 0;
  if failed r then Ret (-1) else
  r <-! LWrite S_FILE (header_image h);
  if failed r then Ret (-1) else
  r <-! LSync S_FILE;
  Ret (if failed r then -1 else 0).

Definition create_file (ram : flash_ram) : prog (Z * flash_ram) :=
  r <-! LOpen S_FILE MSG_FILE_PATH true;
  if failed r then Ret (-1, ram) else
  rc <~ write_header fresh_header;
  if negb (rc =? 0)
  then _r <-! LClose S_FILE; Ret (-1, mk_fram fresh_header (fr_initialized ram))
  else Ret (0, mk_fram fresh_header true).
(** An open file with a good header: its records by the file's size. *)
Definition adopt_file (h : msg_file_header_t) : prog (Z * flash_ram) :=
  r <-! LSize S_FILE;
  let size := match r with LLen n => Z.of_nat n | _ => -1 end in
  let payload := if size >? 16 then size - 16 else 0 in
  let actual := u32 (payload / record_bytes) in
  let aligned := 16 + actual * record_bytes in
  let h := if negb (actual =? fh_record_count h) then with_count h actual else h in
  if negb (size =? aligned)
  then _r <-! LTruncate S_FILE aligned; Ret (0, mk_fram h true)
  else Ret (0, mk_fram h true).
Definition init_unlocked (mounted : bool) (ram : flash_ram) : prog (Z * flash_ram) :=
  if negb mounted then Ret (-1, ram) else
  r <-! LOpen S_FILE MSG_FILE_PATH false;
  if failed r then create_file ram else
  r <-! LRead S_FILE HEADER_BYTES;
  match read_all r HEADER_BYTES with
  | Some bs =>
      if header_ok (header_of bs) then adopt_file (header_of bs)
      else _r <-! LClose S_FILE; _r <-! LRemove MSG_FILE_PATH; create_file (mk_fram (header_of bs) (fr_initialized ram))
  | None => _r <-! LClose S_FILE; _r <-! LRemove MSG_FILE_PATH; create_file ram
  end.

Definition save_unlocked (m : stored_msg_t) (ram : flash_ram) : prog (Z * flash_ram) :=
  if negb (fr_initialized ram) then Ret (-1, ram) else
  r <-! LSeekEnd S_FILE;
  if failed r then Ret (-1, ram) else
  r <-! LWrite S_FILE (image m);
  if failed r then Ret (-1, ram) else
  r <-! LSync S_FILE;
  if failed r then Ret (-1, ram) else
  let h := fr_header ram in
  let h := mk_fhdr (fh_magic h) (fh_version h) (fh_record_size h) (fh_record_count h ⊕ 1) (fh_next_id h ⊕ 1) in
  rc <~ write_header h;
  Ret (rc, mk_fram h (fr_initialized ram)).

Definition record_offset (index : Z) : Z := 16 + index * record_bytes.
Definition update_unlocked (from_end : Z) (m : stored_msg_t) (ram : flash_ram) : prog (Z * flash_ram) :=
  if negb (fr_initialized ram) then Ret (-1, ram) else
  if (from_end <? 0) || (u32 from_end >=? fh_record_count (fr_header ram)) then Ret (-1, ram) else
  let offset := record_offset (fh_record_count (fr_header ram) - 1 - from_end) in
  r <-! LSeek S_FILE offset;
  if failed r then Ret (-1, ram) else
  r <-! LRead S_FILE image_size;
  match read_all r image_size with
  | None => Ret (-1, ram)
  | Some bs =>
      let scratch := of_image bs in
      if negb (msg_store_record_matches scratch m) then Ret (-1, ram) else
      let scratch := with_timestamp m (m_timestamp_s scratch) in
      r <-! LSeek S_FILE offset;
      if failed r then Ret (-1, ram) else
      r <-! LWrite S_FILE (image scratch);
      if failed r then Ret (-1, ram) else
      r <-! LSync S_FILE;
      Ret (if failed r then -1 else 0, ram)
  end.

Definition msg_store_spiffs_get_count (ram : flash_ram) : Z :=
  if fr_initialized ram then fh_record_count (fr_header ram) else 0.

(** The whole records in a stretch of bytes. *)
Fixpoint records_of (n : nat) (bs : list Z) : list stored_msg_t :=
  match n with
  | O => []
  | S n => of_image (take image_size bs) :: records_of n (drop image_size bs)
  end.
Definition load_recent_unlocked (max_count : Z) (ram : flash_ram) : prog (list stored_msg_t) :=
  if negb (fr_initialized ram) || (max_count <=? 0) then Ret [] else
  let total := fh_record_count (fr_header ram) in
  let to_load := if total <? max_count then total else max_count in
  if to_load =? 0 then Ret [] else
  r <-! LSeek S_FILE (record_offset (total - to_load));
  if failed r then Ret [] else
  r <-! LRead S_FILE (Z.to_nat to_load * image_size)%nat;
  Ret (match r with LData bs => records_of (length bs / image_size) bs | _ => [] end).

(** The copy of [n] records from index [i] on; whether all went well, and how many. *)
Fixpoint rollover_copy (n : nat) (i : Z) (count : Z) : prog (bool * Z) :=
  match n with
  | O => Ret (true, count)
  | S n =>
      r <-! LSeek S_FILE (record_offset i);
      if failed r then Ret (false, count) else
      r <-! LRead S_FILE image_size;
      match read_all r image_size with
      | None => Ret (false, count)
      | Some bs =>
          r <-! LWrite OUT_FILE bs;
          if failed r then Ret (false, count ⊕ 1) else rollover_copy n (i + 1) (count ⊕ 1)
      end
  end.
Definition rollover_finish (new_header : msg_file_header_t) : prog bool :=
  r <-! LSeek OUT_FILE 0;
  if failed r then Ret false else
  r <-! LWrite OUT_FILE (header_image new_header);
  if failed r then Ret false else
  r <-! LSync OUT_FILE;
  Ret (negb (failed r)).
Definition rollover_swap (new_header : msg_file_header_t) (ram : flash_ram) : prog flash_ram :=
  _r <-! LClose S_FILE;
  _r <-! LRemove MSG_FILE_PATH;
  r <-! LRename MSG_TMP_PATH MSG_FILE_PATH;
  if failed r then Ret (mk_fram (fr_header ram) false) else
  r <-! LOpen S_FILE MSG_FILE_PATH false;
  if failed r then Ret (mk_fram (fr_header ram) false) else Ret (mk_fram new_header (fr_initialized ram)).
Definition rollover_unlocked (max_messages keep_pct : Z) (ram : flash_ram) : prog flash_ram :=
  if negb (fr_initialized ram) || (fh_record_count (fr_header ram) <=? max_messages) then Ret ram else
  let keep_pct := if (keep_pct <? 50) || (keep_pct >? 90) then 75 else keep_pct in
  let keep_count := Z.quot (max_messages * keep_pct) 100 in
  let skip_count := fh_record_count (fr_header ram) - keep_count in
  r <-! LOpen OUT_FILE MSG_TMP_PATH true;
  if failed r then Ret ram else
  let new_header := with_count (fr_header ram) 0 in
  r <-! LWrite OUT_FILE (header_image new_header);
  '(ok, count) <~ (if failed r then Ret (false, 0) else rollover_copy (Z.to_nat keep_count) skip_count 0);
  ok <~ (if (ok : bool) then rollover_finish (with_count new_header count) else Ret false);
  _r <-! LClose OUT_FILE;
  if negb ok then _r <-! LRemove MSG_TMP_PATH; Ret ram
  else rollover_swap (with_count new_header count) ram.

Definition clear_unlocked (mounted : bool) (ram : flash_ram) : prog flash_ram :=
  if fr_initialized ram
  then _r <-! LClose S_FILE;
       if mounted then _r <-! LRemove MSG_FILE_PATH; Ret (mk_fram (fr_header ram) false)
       else Ret (mk_fram (fr_header ram) false)
  else if mounted then _r <-! LRemove MSG_FILE_PATH; Ret ram else Ret ram.

(** ** The store's side *)

Definition CONFIG_BRAMBLE_MSG_PERSIST_MAX : Z := 200.
Definition CONFIG_BRAMBLE_MSG_PERSIST_ROLLOVER_KEEP_PCT : Z := 75.
(** What [msg_store_add_full] and [persist_row_update] do with the back end. *)
Definition persist_write (w : persist) (ram : flash_ram) : prog (Z * flash_ram) :=
  match w with
  | PSave m =>
      '(rc, ram) <~ save_unlocked m ram;
      if (rc =? 0) && (msg_store_spiffs_get_count ram >=? CONFIG_BRAMBLE_MSG_PERSIST_MAX)
      then ram <~ rollover_unlocked CONFIG_BRAMBLE_MSG_PERSIST_MAX CONFIG_BRAMBLE_MSG_PERSIST_ROLLOVER_KEEP_PCT ram;
           Ret (rc, ram)
      else Ret (rc, ram)
  | PUpdate from_end m => update_unlocked (Z.of_nat from_end) m ram
  end.
(** [msg_store_init_with_persistence]. *)
Definition persist_boot (mounted : bool) : prog (flash_ram * msg_store) :=
  '(rc, ram) <~ init_unlocked mounted flash_ram_zero;
  if rc =? 0
  then rows <~ load_recent_unlocked (Z.of_nat MSG_STORE_MAX) ram;
       Ret (ram, msg_store_init_with_persistence (Some rows))
  else Ret (ram, msg_store_init_with_persistence None).
(** ** Running a program *)

Section Run.
Context `{Lfs}.
Fixpoint prun {A} (p : prog A) (s : lfs) : A * lfs :=
  match p with
  | Ret a => (a, s)
  | Do c k => let '(r, s) := lfs_call c s in prun (k r) s
  end.
(** The file system if power fails after [n] calls. *)
Fixpoint pcut {A} (n : nat) (p : prog A) (s : lfs) : lfs :=
  match n, p with
  | S n, Do c k => let '(r, s) := lfs_call c s in pcut n (k r) s
  | _, _ => s
  end.
End Run.
