(* ===== verification/MsgFlashSpec.v ===== *)
(** * What the message file promises

    A calculus of programs of file-system calls with a condition that holds whenever
    power may fail; the records on flash after each operation of the back end; and what
    a reboot restores. *)

From stdpp Require Import base numbers sets option decidable list.
From S2P Require Import Prelude Tables MsgStore MsgStoreSpec Location MsgFlash.

(** ** Programs under loss of power *)

(** [safe adm p v J Q]: as long as results are admitted by [adm], [p] started in [v]
    keeps [J] of what is on flash at every call and ends in [Q]. *)
Fixpoint safe {A} (adm : lcall → lview → lres → Prop) (p : prog A) (v : lview)
    (J : option (list Z) → Prop) (Q : A → lview → Prop) : Prop :=
  J (v_msg v) ∧
  match p with
  | Ret a => Q a v
  | Do c k => ∀ r v', documented c v r v' → adm c v r → safe adm (k r) v' J Q
  end.
(** Any result; only failures that must be. *)
Definition anything (c : lcall) (v : lview) (r : lres) : Prop := True.
Definition faultless (c : lcall) (v : lview) (r : lres) : Prop :=
  r = LErr → ∃ h p, c = LOpen h p false ∧ disk v p = None.

(** Runs in which nothing fails that need not. *)
Definition strict (adm : lcall → lview → lres → Prop) : Prop := ∀ c v r, adm c v r → faultless c v r.
Lemma no_fault c v : (∀ h p, c ≠ LOpen h p false) → ¬ faultless c v LErr.
Proof. intros Hc Hf. destruct (Hf eq_refl) as (h & p & -> & _). by eapply Hc. Qed.
Lemma strict_ok adm c v : strict adm → adm c v LErr → (∀ h p, c ≠ LOpen h p false) → False.
Proof. intros Hs Ha Hc. eapply no_fault; [done|]. by apply Hs. Qed.

(** A call that failed: impossible in a strict run. *)
Ltac fault := intros; exfalso; eapply strict_ok; [eassumption..|done].

Lemma safe_now {A} adm (p : prog A) v J Q : safe adm p v J Q → J (v_msg v).
Proof. by destruct p; intros [? _]. Qed.
Lemma safe_mono {A} adm (p : prog A) v (J J' : option (list Z) → Prop) (Q Q' : A → lview → Prop) :
  safe adm p v J Q → (∀ d, J d → J' d) → (∀ a v', J (v_msg v') → Q a v' → Q' a v') → safe adm p v J' Q'.
Proof.
  intros Hs HJ HQ. revert v Hs. induction p as [a|c k IH]; intros v [H1 H2]; (split; [by apply HJ|]).
  - by apply HQ.
  - intros r v' Hd Ha. apply IH. by apply H2.
Qed.
Lemma safe_seq {A B} adm (p : prog A) (k : A → prog B) v J Q :
  safe adm p v J (λ a v', safe adm (k a) v' J Q) → safe adm (pbind p k) v J Q.
Proof.
  revert v. induction p as [a|c k' IH]; intros v Hs.
  - apply Hs.
  - split; [apply Hs|]. intros r v' Hd Ha. apply IH. by apply Hs.
Qed.

(** [reaches p v P]: in every faultless run, [P] holds of what is on flash at some call. *)
Fixpoint reaches {A} (p : prog A) (v : lview) (P : option (list Z) → Prop) : Prop :=
  P (v_msg v) ∨
  match p with
  | Ret _ => False
  | Do c k => ∀ r v', documented c v r v' → faultless c v r → reaches (k r) v' P
  end.
Lemma reaches_bind {A B} (p : prog A) (k : A → prog B) v J Q P :
  safe faultless p v J Q → (∀ a v', Q a v' → reaches (k a) v' P) → reaches (pbind p k) v P.
Proof.
  intros Hs Hk. revert v Hs. induction p as [a|c k' IH]; intros v [_ Hs]; [by apply Hk|].
  right. intros r v' Hd Hf. apply IH. by apply Hs.
Qed.
Lemma reaches_prefix {A B} (p : prog A) (k : A → prog B) v P : reaches p v P → reaches (pbind p k) v P.
Proof.
  revert v. induction p as [a|c k' IH]; intros v [Hp|Hr]; try done.
  - cbn [pbind]. by destruct (k a); left.
  - by left.
  - right. intros r v' Hd Hf. apply IH. by apply Hr.
Qed.

Section Sound.
Context `{LfsLaws}.
(** The results a run sees. *)
Fixpoint admitted {A} (adm : lcall → lview → lres → Prop) (p : prog A) (s : lfs) : Prop :=
  match p with
  | Ret _ => True
  | Do c k => let '(r, s') := lfs_call c s in adm c (lfs_view s) r ∧ admitted adm (k r) s'
  end.
Lemma admitted_anything {A} (p : prog A) s : admitted anything p s.
Proof. revert s. induction p as [a|c k IH]; intros s; cbn; [done|]. destruct (lfs_call c s). by split. Qed.
Lemma safe_run {A} adm (p : prog A) s J Q : safe adm p (lfs_view s) J Q → admitted adm p s →
  Q (prun p s).1 (lfs_view (prun p s).2).
Proof.
  revert s. induction p as [a|c k IH]; intros s Hs Ha; cbn; [apply Hs|]. cbn in Ha.
  destruct (lfs_call c s) as [r s'] eqn:E. destruct Ha as [Ha Ha']. apply IH; [|done].
  destruct Hs as [_ Hs]. apply Hs; [by apply lfs_documented|done].
Qed.
Lemma safe_cut {A} adm (p : prog A) s J Q n : safe adm p (lfs_view s) J Q → admitted adm p s →
  J (v_msg (lfs_view (pcut n p s))).
Proof.
  revert p s. induction n as [|n IH]; intros p s Hs Ha; [by eapply safe_now|].
  destruct p as [a|c k]; cbn; [by eapply safe_now|]. cbn in Ha.
  destruct (lfs_call c s) as [r s'] eqn:E. destruct Ha as [Ha Ha']. apply IH; [|done].
  destruct Hs as [_ Hs]. apply Hs; [by apply lfs_documented|done].
Qed.
Lemma reaches_cut {A} (p : prog A) s P : reaches p (lfs_view s) P → admitted faultless p s →
  ∃ n, P (v_msg (lfs_view (pcut n p s))).
Proof.
  revert s. induction p as [a|c k IH]; intros s [Hp|Hr] Ha; try (by exists 0%nat); try done. cbn in Ha.
  destruct (lfs_call c s) as [r s'] eqn:E. destruct Ha as [Ha Ha'].
  destruct (IH r s' (Hr r (lfs_view s') ltac:(by apply lfs_documented) Ha) Ha') as [n Hn]. exists (S n). cbn. by rewrite E.
Qed.
End Sound.

(** ** Records *)

Lemma le16_again v : is_u16 v → le16_val (le16_bytes v) = v.
Proof.
  intros Hv. unfold le16_val, le16_bytes. rewrite shiftl_mul, shiftr_div by lia.
  rewrite Z.lor_comm, (lor_disjoint _ _ 8); [cint|lia|cint|cint].
Qed.
Lemma le16_any v : le16_val (le16_bytes v) = u16 v.
Proof.
  unfold le16_val, le16_bytes. rewrite shiftl_mul, shiftr_div by lia.
  rewrite Z.lor_comm, (lor_disjoint _ _ 8); [cint|lia|cint|cint].
Qed.
Lemma image_length m : length (image m) = image_size.
Proof.
  unfold image. rewrite !length_app, length_resize.
  assert (E : ∀ l, length (mjoin (le32_bytes <$> l)) = (4 * length l)%nat).
  { induction l as [|x l IH]; [done|]. rewrite fmap_cons.
    change (mjoin (le32_bytes x :: (le32_bytes <$> l))) with (le32_bytes x ++ mjoin (le32_bytes <$> l)). rewrite length_app, IH. cbn. lia. }
  rewrite E, length_resize. done.
Qed.
(** The values the struct can hold. *)
Definition fits (m : stored_msg_t) : Prop :=
  is_u32 (m_peer_addr m) ∧ is_u32 (m_uid m) ∧ is_u32 (m_packet_id m) ∧ is_u32 (m_timestamp_s m) ∧
  is_i8 (m_rssi m) ∧ is_i8 (m_snr m) ∧ -32768 <= m_channel_index m < 32768 ∧ is_u8 (m_route_hop_count m) ∧
  length (m_route_hops m) = MSG_ROUTE_MAX_HOPS ∧ Forall is_u32 (m_route_hops m) ∧ (length (m_text m) < MSG_TEXT_MAX)%nat.
Lemma of_image_image m : fits m → of_image (image m) = m.
Proof.
  destruct m as [pa ui di st pi ts rs sn ch hc hops text]. unfold fits.
  cbn [m_peer_addr m_uid m_direction m_status m_packet_id m_timestamp_s m_rssi m_snr m_channel_index m_route_hop_count m_route_hops m_text].
  intros (H1 & H2 & H3 & H4 & H5 & H6 & H7 & H8 & Hl & Hh & Ht).
  do 11 (destruct hops as [|? hops]; try discriminate Hl). clear Hl. inv_Forall.
  unfold of_image, image.
  cbn [m_peer_addr m_uid m_direction m_status m_packet_id m_timestamp_s m_rssi m_snr m_channel_index m_route_hop_count m_route_hops m_text].
  assert (Htx : ∀ rest, take (length text) (resize MSG_TEXT_MAX 0 text ++ rest) = text).
  { intros rest. rewrite resize_ge by lia. by rewrite <- (assoc_L (++)), take_app_length. }
  assert (Hn : Z.of_nat (length text) < 65536) by (unfold MSG_TEXT_MAX in Ht; lia).
  generalize dependent (resize MSG_TEXT_MAX 0 text). intros tx Htx.
  cbn -[u8 le32_val le16_val i8 i16 dir_of status_of dir_code status_code Z.of_nat Z.to_nat Z.shiftr length].
  assert (E32 : ∀ x, is_u32 x → le32_val [u8 x; u8 (x >> 8); u8 (x >> 16); u8 (x >> 24)] = x) by exact le32_roundtrip.
  rewrite !E32, take_0, drop_0 by done. change [u8 ch; u8 (ch >> 8)] with (le16_bytes ch).
  change [u8 (Z.of_nat (length text)); u8 (Z.of_nat (length text) >> 8)] with (le16_bytes (Z.of_nat (length text))).
  rewrite le16_any, le16_again, Nat2Z.id, Htx, !i8_of_u8, u8_id by (done || unfold is_u16; lia).
  f_equal; [by destruct di|by destruct st|unfold i16; cint].
Qed.

(** ** What is on flash *)

Lemma image_size_range : 0 < Z.of_nat image_size < 65536. Proof. done. Qed.
#[local] Opaque image_size.

Section Layout.
Context (adm : lcall → lview → lres → Prop).

Definition hdr_valid (h : msg_file_header_t) : Prop :=
  header_ok h = true ∧ is_u32 (fh_record_count h) ∧ is_u32 (fh_next_id h).
Definition layout (h : msg_file_header_t) (rs : list stored_msg_t) : list Z := header_image h ++ mjoin (image <$> rs).
(** The file holds the records [rs], and a torn one at most. *)
Definition stores (rs : list stored_msg_t) (d : option (list Z)) : Prop :=
  ∃ h torn, hdr_valid h ∧ d = Some (layout h rs ++ torn) ∧ (length torn < image_size)%nat.
(** Statics and open file agree on the records [rs]. *)
Definition ready (rs : list stored_msg_t) (ram : flash_ram) (v : lview) : Prop :=
  fr_initialized ram = true ∧ hdr_valid (fr_header ram) ∧ fh_record_count (fr_header ram) = Z.of_nat (length rs) ∧
  stores rs (v_msg v) ∧ ∃ h pos, hdr_valid h ∧ v_file v = Some (mk_lfile MSG_FILE_PATH (layout h rs) pos).

Lemma length_header h : length (header_image h) = 16%nat. Proof. done. Qed.
Lemma records_length rs : length (mjoin (image <$> rs)) = (length rs * image_size)%nat.
Proof. induction rs as [|m rs IH]; [done|]. rewrite fmap_cons.
  change (mjoin (image m :: (image <$> rs))) with (image m ++ mjoin (image <$> rs)). rewrite length_app, IH, image_length. cbn. lia. Qed.
Lemma length_layout h rs : length (layout h rs) = (16 + length rs * image_size)%nat.
Proof. unfold layout. by rewrite length_app, length_header, records_length. Qed.
Lemma layout_snoc h rs m : layout h (rs ++ [m]) = layout h rs ++ image m.
Proof. unfold layout. rewrite fmap_app, join_app. change (mjoin (image <$> [m])) with (image m ++ []). by rewrite app_nil_r, (assoc_L (++)). Qed.

Lemma header_of_image h rest : hdr_valid h → header_of (take 16 (header_image h ++ rest)) = h.
Proof.
  intros (Hok & Hc & Hn). unfold header_ok, MSG_FILE_MAGIC, MSG_FILE_VERSION in Hok. conds.
  destruct h as [mg ve sz ct ni]. cbn [fh_magic fh_version fh_record_size fh_record_count fh_next_id] in *.
  pose proof image_size_range. unfold record_bytes in *.
  rewrite take_app_le by (by rewrite length_header). rewrite take_ge by (by rewrite length_header).
  change (header_of (header_image (mk_fhdr mg ve sz ct ni))) with
    (mk_fhdr (le32_val (le32_bytes mg)) (le16_val (le16_bytes ve)) (le16_val (le16_bytes sz))
       (le32_val (le32_bytes ct)) (le32_val (le32_bytes ni))).
  rewrite !le32_roundtrip, !le16_again by cint. done.
Qed.

Lemma new_header h h' rs : header_image h' ++ drop 16 (layout h rs) = layout h' rs.
Proof. done. Qed.
Lemma splice_end (a b : list Z) : splice (length a) b a = a ++ b.
Proof. unfold splice. rewrite take_ge, drop_ge, app_nil_r by (rewrite ?length_app; lia). done. Qed.
Lemma write_header_safe h d d0 pos t o J : J d0 → J (Some (header_image h ++ drop 16 d)) →
  safe adm (write_header h) (mk_lview d0 t (Some (mk_lfile MSG_FILE_PATH d pos)) o) J
    (λ rc v', (strict adm → rc = 0) ∧ (rc = 0 →
       v' = mk_lview (Some (header_image h ++ drop 16 d)) t
              (Some (mk_lfile MSG_FILE_PATH (header_image h ++ drop 16 d) 16)) o)).
Proof.
  intros HJ HJ'. split; [done|]. intros r v' [(-> & _ & ->)|[-> ->]] Ha; [|split; [done|]; split; [fault|done]].
  split; [done|]. intros r v' [[-> ->]|(-> & d' & pos' & ->)] Ha'; [|split; [done|]; split; [fault|done]].
  split; [done|]. intros r v' [[-> ->]|[-> ->]] Ha''; [by split|split; [done|]; split; [fault|done]].
Qed.

Definition bumped (h : msg_file_header_t) : msg_file_header_t :=
  mk_fhdr (fh_magic h) (fh_version h) (fh_record_size h) (fh_record_count h ⊕ 1) (fh_next_id h ⊕ 1).
Lemma bumped_valid h : hdr_valid h → hdr_valid (bumped h).
Proof. intros (H1 & H2 & H3). split; [done|]. split; apply u32_range. Qed.
Lemma stores_layout h rs : hdr_valid h → stores rs (Some (layout h rs)).
Proof.
  intros Hh. exists h, []. rewrite app_nil_r. split_and!; [done..|]. pose proof image_size_range. cbn. lia.
Qed.
Lemma ready_stores rs ram v : ready rs ram v → stores rs (v_msg v).
Proof. by intros (_ & _ & _ & Hs & _). Qed.

Lemma header_layout h rs torn : hdr_valid h → header_of (take HEADER_BYTES (layout h rs ++ torn)) = h.
Proof. unfold layout. rewrite <- (assoc_L (++)). apply header_of_image. Qed.
Lemma drop_layout h rs k : (k <= length rs)%nat → drop (16 + k * image_size) (layout h rs) = mjoin (image <$> drop k rs).
Proof.
  intros Hk. unfold layout. rewrite drop_app_ge by (rewrite length_header; lia). rewrite length_header.
  replace (16 + k * image_size - 16)%nat with (k * image_size)%nat by lia.
  rewrite <- (take_drop k rs) at 1. rewrite fmap_app, join_app, drop_app_ge by (rewrite records_length, length_take_le by done; done).
  rewrite records_length, length_take_le, Nat.sub_diag by done. done.
Qed.
Lemma splice_layout h rs i x : (i < length rs)%nat →
  splice (16 + i * image_size) (image x) (layout h rs) = layout h (<[i := x]> rs).
Proof.
  intros Hi. unfold splice. rewrite image_length.
  replace (16 + i * image_size + image_size)%nat with (16 + S i * image_size)%nat by lia. rewrite drop_layout by lia.
  rewrite insert_take_drop by done. unfold layout.
  replace (take (16 + i * image_size) (header_image h ++ mjoin (image <$> rs))) with (header_image h ++ mjoin (image <$> take i rs)).
  - rewrite fmap_app, join_app, fmap_cons. change (mjoin (image x :: (image <$> drop (S i) rs))) with (image x ++ mjoin (image <$> drop (S i) rs)).
    by rewrite <- !(assoc_L (++)).
  - rewrite <- (take_drop i rs) at 2. rewrite fmap_app, join_app, (assoc_L (++)), take_app_length'; [done|].
    rewrite length_app, length_header, records_length, length_take_le by lia. done.
Qed.
#[local] Opaque layout.

(** Saving a message: the file holds the old records or the new ones at every moment,
    and the new ones when it returns 0. *)
Lemma save_safe m rs ram v : ready rs ram v → Z.of_nat (length rs) + 1 < 4294967296 →
  safe adm (save_unlocked m ram) v (λ d, stores rs d ∨ stores (rs ++ [m]) d)
    (λ '(rc, ram') v', (strict adm → rc = 0) ∧ (rc = 0 → ready (rs ++ [m]) ram' v')).
Proof.
  intros (Hi & Hh & Hc & Hm & h & pos & Hh' & Hf) Hl. destruct v as [msg t fl o]. cbn in Hm, Hf. subst fl.
  assert (Hold : stores rs msg ∨ stores (rs ++ [m]) msg) by by left.
  unfold save_unlocked. rewrite Hi. cbn [negb].
  split; [done|]. intros r v' [[-> ->]|[-> ->]] Ha; [|split; [done|]; split; [fault|done]].
  split; [done|]. intros r v' [[-> ->]|(-> & d' & pos' & ->)] Ha'; [|split; [done|]; split; [fault|done]].
  cbn [set_opened lf_data lf_pos lf_path v_msg v_tmp v_out failed]. rewrite splice_end, <- layout_snoc.
  split; [done|]. intros r v' [[-> ->]|[-> ->]] Ha''; [|split; [done|]; split; [fault|done]].
  cbn [failed set_disk lf_path lf_data v_tmp v_file v_out].
  apply safe_seq. eapply (safe_mono _ _ _ (λ d, stores rs d ∨ stores (rs ++ [m]) d)); [|done|].
  - apply (write_header_safe (bumped (fr_header ram)) (layout h (rs ++ [m]))
      (Some (layout h (rs ++ [m]))) _ _ _ (λ d, stores rs d ∨ stores (rs ++ [m]) d)); right; [by apply stores_layout|].
    rewrite new_header. apply stores_layout. by apply bumped_valid.
  - intros rc v' HJ [HQ0 HQ]. split; [done|]. split; [done|]. intros ->. rewrite (HQ eq_refl), new_header. split; [done|].
    split; [by apply bumped_valid|]. split; [cbn [fr_header bumped fh_record_count]; rewrite Hc, length_app; cbn; cint|].
    split; [apply stores_layout; by apply bumped_valid|]. exists (bumped (fr_header ram)), 16%nat. split; [by apply bumped_valid|done].
Qed.
End Layout.
#[local] Opaque layout.

(** ** Starting *)

Section Boot.

Lemma whole_records n t : (t < image_size)%nat → 0 <= Z.of_nat n < 4294967296 →
  u32 (Z.of_nat (n * image_size + t) / record_bytes) = Z.of_nat n.
Proof.
  intros Ht Hn. pose proof image_size_range. unfold record_bytes.
  replace (Z.of_nat (n * image_size + t) / Z.of_nat image_size) with (Z.of_nat n).
  - by apply u32_id.
  - apply Z.div_unique with (Z.of_nat t); [lia|]. lia.
Qed.
(** Starting on a file: its records, whatever the header says of their number, and
    without the torn one. *)
Lemma adopt_safe h0 h torn rs t o pos : hdr_valid h0 → hdr_valid h → (length torn < image_size)%nat → Z.of_nat (length rs) < 4294967296 →
  safe faultless (adopt_file h0) (mk_lview (Some (layout h rs ++ torn)) t (Some (mk_lfile MSG_FILE_PATH (layout h rs ++ torn) pos)) o)
    (stores rs) (λ '(rc, ram') v', rc = 0 ∧ ready rs ram' v').
Proof.
  intros Hh0 Hh Ht Hl. assert (Hs : stores rs (Some (layout h rs ++ torn))) by by exists h, torn.
  split; [done|]. intros r v' [[-> ->]|[-> _]] Hf; [|exfalso; revert Hf; by apply no_fault].
  cbv zeta. cbn [lf_data]. rewrite length_app, length_layout.
  set (size := Z.of_nat _). assert (Esize : size = 16 + Z.of_nat (length rs * image_size + length torn)) by (unfold size; lia).
  replace (if size >? 16 then size - 16 else 0) with (Z.of_nat (length rs * image_size + length torn))
    by (rewrite Z.gtb_ltb; destruct (Z.ltb_spec 16 size); lia).
  rewrite whole_records by (done || lia).
  set (h1 := if negb (Z.of_nat (length rs) =? fh_record_count h0) then with_count h0 (Z.of_nat (length rs)) else h0).
  assert (Hh1 : hdr_valid h1 ∧ fh_record_count h1 = Z.of_nat (length rs)).
  { unfold h1. destruct (Z.eqb_spec (Z.of_nat (length rs)) (fh_record_count h0)); cbn [negb]; [done|].
    split; [|done]. destruct Hh0 as (? & ? & ?). split; [done|]. split; [|done]. cbn. unfold is_u32. lia. }
  destruct Hh1 as [Hh1 Hc1]. clearbody h1.
  destruct (Z.eqb_spec size (16 + Z.of_nat (length rs) * record_bytes)) as [E|E]; cbn [negb].
  - assert (torn = []) as -> by (destruct torn; [done|]; unfold record_bytes in E; cbn [length] in *; lia).
    rewrite app_nil_r in *. split; [done|]. split; [done|]. split; [done|]. split; [done|]. split; [done|]. split; [done|]. by exists h, pos.
  - split; [done|]. intros r v' [(-> & _ & ->)|[-> _]] Hf'; [|exfalso; revert Hf'; by apply no_fault].
    split; [done|]. split; [done|]. split; [done|]. split; [done|]. split; [done|]. split; [done|].
    exists h, pos. split; [done|]. cbn. do 2 f_equal. rewrite take_app_le, take_ge; [done| |]; rewrite length_layout; unfold record_bytes; lia.
Qed.
Lemma init_safe ram rs v : stores rs (v_msg v) → Z.of_nat (length rs) < 4294967296 →
  safe faultless (init_unlocked true ram) v (stores rs) (λ '(rc, ram') v', rc = 0 ∧ ready rs ram' v').
Proof.
  intros Hs Hl. split; [done|]. destruct v as [msg t fl o]. cbn [v_msg] in Hs. pose proof Hs as (h & torn & Hh & -> & Ht).
  intros r v' [(d & [= <-] & -> & ->)|[-> ->]] Hf; [|exfalso; destruct (Hf eq_refl) as (? & ? & [= _ <-] & ?); done].
  split; [done|]. intros r v' [[-> ->]|(-> & _)] Hf'; [|exfalso; revert Hf'; by apply no_fault].
  cbn [lf_data lf_pos drop set_opened v_msg v_tmp v_out lf_path]. change (drop 0 (layout h rs ++ torn)) with (layout h rs ++ torn).
  assert (Hlen : length (take HEADER_BYTES (layout h rs ++ torn)) = 16%nat)
    by (rewrite length_take, length_app, length_layout; unfold HEADER_BYTES; lia).
  unfold read_all. rewrite Hlen, Nat.eqb_refl.
  assert (Ehd : header_of (take HEADER_BYTES (layout h rs ++ torn)) = h).
  { by apply header_layout. }
  rewrite Ehd, (proj1 Hh). by apply adopt_safe.
Qed.

Lemma fresh_valid : hdr_valid fresh_header.
Proof.
  pose proof image_size_range. split; [|by split]. unfold header_ok, fresh_header. cbn [fh_magic fh_version fh_record_size].
  rewrite u16_id by (unfold is_u16, record_bytes; lia). by rewrite !Z.eqb_refl.
Qed.
Lemma layout_nil h : layout h [] = header_image h. Proof. Transparent layout. unfold layout. by rewrite app_nil_r. Qed.
#[local] Opaque layout.

(** Starting without a file, or with one that was only created. *)
Definition blank (d : option (list Z)) : Prop := d = None ∨ d = Some [] ∨ stores [] d.
Lemma strict_faultless : strict faultless. Proof. by intros ? ? ?. Qed.
Lemma create_safe ram v : v_msg v = None ∨ v_msg v = Some [] →
  safe faultless (create_file ram) v blank (λ '(rc, ram') v', rc = 0 ∧ ready [] ram' v').
Proof.
  intros Hv. assert (Hb : blank (v_msg v)) by (unfold blank; tauto). destruct v as [msg t fl o]. cbn [v_msg] in *.
  split; [done|]. intros r v' (d & Hd & [[-> ->]|[-> _]]) Ha; [|exfalso; by destruct (Ha eq_refl) as (? & ? & [=] & _)].
  assert (Hbd : blank d) by (cbn [disk v_msg] in Hd; destruct Hd as [->|[_ ->]]; unfold blank; tauto). clear Hd Hb Ha.
  apply safe_seq. cbn [failed set_disk set_opened v_msg v_tmp v_out].
  assert (Hnew : blank (Some (header_image fresh_header ++ drop 16 []))).
  { right; right. change (drop 16 []) with (@nil Z). rewrite app_nil_r, <- layout_nil. apply stores_layout, fresh_valid. }
  eapply safe_mono; [by apply (write_header_safe faultless fresh_header [] d 0 t o blank)|done|].
  intros rc v' HJ [-> Hv']; [|apply strict_faultless]. rewrite (Hv' eq_refl) in *. cbn [Z.eqb negb].
  split; [done|]. split; [done|]. split; [done|]. split; [apply fresh_valid|]. split; [done|].
  change (drop 16 []) with (@nil Z) in *. rewrite app_nil_r, <- layout_nil in *.
  split; [apply stores_layout, fresh_valid|]. exists fresh_header, 16%nat. split; [apply fresh_valid|done].
Qed.
Lemma init_blank ram v : v_msg v = None ∨ v_msg v = Some [] →
  safe faultless (init_unlocked true ram) v blank (λ '(rc, ram') v', rc = 0 ∧ ready [] ram' v').
Proof.
  intros Hv. assert (Hb : blank (v_msg v)) by (unfold blank; tauto). destruct v as [msg t fl o]. cbn [v_msg] in *.
  split; [done|]. intros r v' [(d & Hd & -> & ->)|[-> ->]] _; [|by apply create_safe].
  cbn [disk v_msg] in Hd. destruct Hv as [->| ->]; [done|]. injection Hd as <-.
  split; [done|]. intros r v' [[-> ->]|(-> & _)] Ha; [|exfalso; revert Ha; by apply no_fault]. cbn [read_all length take drop lf_data lf_pos Nat.eqb HEADER_BYTES].
  split; [done|]. intros r v' [[-> ->]|[-> ->]] Ha'; [|exfalso; revert Ha'; by apply no_fault].
  split; [done|]. intros r v' [[-> ->]|[-> ->]] Ha''; [|exfalso; revert Ha''; by apply no_fault].
  apply create_safe. by left.
Qed.

(** Loading the newest records. *)
Lemma records_of_images l rest : Forall fits l → records_of (length l) (mjoin (image <$> l) ++ rest) = l.
Proof.
  induction 1 as [|m l Hm Hl IH]; [done|]. rewrite fmap_cons. cbn [length records_of].
  change (mjoin (image m :: (image <$> l))) with (image m ++ mjoin (image <$> l)). rewrite <- (assoc_L (++)).
  rewrite take_app_length', drop_app_length' by (by rewrite image_length). by rewrite of_image_image, IH.
Qed.
Lemma load_safe n ram rs v : ready rs ram v → Forall fits rs → 0 < n →
  safe faultless (load_recent_unlocked n ram) v (stores rs)
    (λ rows v', rows = drop (length rs - Z.to_nat n) rs ∧ ready rs ram v').
Proof.
  intros Hr Hfit Hn. pose proof Hr as (Hi & Hh & Hc & Hm & h & pos & Hh' & Hf). unfold load_recent_unlocked. rewrite Hi.
  rewrite (proj2 (Z.leb_gt n 0)) by lia. cbn [negb orb]. cbv zeta. rewrite Hc.
  set (k := if Z.of_nat (length rs) <? n then _ else n).
  assert (Hk : 0 <= k <= Z.of_nat (length rs) ∧ (length rs - Z.to_nat n = length rs - Z.to_nat k)%nat)
    by (unfold k; destruct (Z.ltb_spec (Z.of_nat (length rs)) n); lia). clearbody k. destruct Hk as [Hk ->].
  destruct (Z.eqb_spec k 0) as [->|Hk0].
  { split; [done|]. split; [|done]. by rewrite drop_ge by lia. }
  destruct v as [msg t fl o]. cbn in Hm, Hf. subst fl.
  split; [done|]. intros r v' [(-> & _ & ->)|[-> _]] Ha; [|exfalso; revert Ha; by apply no_fault].
  split; [done|]. intros r v' [[-> ->]|(-> & _)] Ha'; [|exfalso; revert Ha'; by apply no_fault].
  split; [done|]. cbn [lf_data lf_pos set_opened v_msg v_tmp v_out lf_path].
  unfold record_offset, record_bytes. pose proof image_size_range.
  replace (Z.to_nat (16 + (Z.of_nat (length rs) - k) * Z.of_nat image_size)) with (16 + (length rs - Z.to_nat k) * image_size)%nat by nia.
  rewrite drop_layout by lia. set (l := drop (length rs - Z.to_nat k) rs).
  assert (El : length l = Z.to_nat k) by (unfold l; rewrite length_drop; lia).
  rewrite take_ge by (rewrite records_length, El; lia). split.
  - rewrite records_length, Nat.div_mul by lia. rewrite <- (app_nil_r (mjoin _)). apply records_of_images. by apply Forall_drop.
  - split; [done|]. split; [done|]. split; [done|]. split; [done|]. by eexists h, _.
Qed.
End Boot.

(** ** Updates and rollover *)

Section Writes.
Context (adm : lcall → lview → lres → Prop).

Lemma take_record h rs i r : rs !! i = Some r → take image_size (drop (16 + i * image_size) (layout h rs)) = image r.
Proof.
  intros Hr. rewrite drop_layout by (apply lookup_lt_Some in Hr; lia). rewrite (drop_S _ _ _ Hr), fmap_cons.
  change (mjoin (image r :: (image <$> drop (S i) rs))) with (image r ++ mjoin (image <$> drop (S i) rs)).
  rewrite take_app_length' by (by rewrite image_length). done.
Qed.
Lemma offset_nat i : 0 <= i → Z.to_nat (record_offset i) = (16 + Z.to_nat i * image_size)%nat.
Proof. intros. unfold record_offset, record_bytes. pose proof image_size_range. nia. Qed.
Lemma offset_nonneg i : 0 <= i → 0 <= record_offset i.
Proof. intros. unfold record_offset, record_bytes. pose proof image_size_range. nia. Qed.

(** An update replaces the record it means or changes nothing, at every moment. *)
Lemma update_safe fe m rs ram v : ready rs ram v → Forall fits rs → Z.of_nat fe < 2147483648 →
  safe adm (update_unlocked (Z.of_nat fe) m ram) v
    (λ d, stores rs d ∨ stores (file_apply rs (PUpdate fe m)) d)
    (λ '(rc, ram') v', ram' = ram ∧ (strict adm ∨ rc = 0 → ready (file_apply rs (PUpdate fe m)) ram v')).
Proof.
  intros Hr Hfit Hfe. pose proof Hr as (Hi & Hh & Hc & Hm & h & pos & Hh' & Hf).
  assert (HJ : stores rs (v_msg v) ∨ stores (file_apply rs (PUpdate fe m)) (v_msg v)) by by left.
  unfold update_unlocked. rewrite Hi, Hc. cbn [negb]. rewrite (proj2 (Z.ltb_ge _ 0)) by lia. cbn [orb].
  rewrite u32_id by (unfold is_u32; lia). rewrite Z.geb_leb. cbn [file_apply] in *. cbv zeta in *.
  destruct (Z.leb_spec (Z.of_nat (length rs)) (Z.of_nat fe)) as [Hge|Hlt].
  { rewrite (proj2 (Nat.ltb_ge fe (length rs))) in * by lia. cbn [andb] in *. split; [done|]. by split. }
  rewrite (proj2 (Nat.ltb_lt fe (length rs))) in * by lia. cbn [andb] in *.
  set (i := (length rs - 1 - fe)%nat) in *. destruct (lookup_lt_is_Some_2 rs i) as [old Hold]; [lia|].
  rewrite (list_lookup_total_correct _ _ _ Hold) in *.
  replace (Z.of_nat (length rs) - 1 - Z.of_nat fe) with (Z.of_nat i) by lia.
  assert (Ei : (i < length rs)%nat) by lia. clearbody i. destruct v as [msg t fl o]. cbn [v_msg v_file] in *. subst fl.
  assert (Hsame : ∀ p, ready rs ram (mk_lview msg t (Some (mk_lfile MSG_FILE_PATH (layout h rs) p)) o)).
  { intros p. split_and!; [done..|]. by exists h, p. }
  split; [done|]. intros r v' [(-> & _ & ->)|[-> ->]] Ha; [|split; [done|]; split; [done|]; intros [|]; [fault|done]].
  split; [done|]. intros r v' [[-> ->]|(-> & pos' & ->)] Ha'; [|split; [done|]; split; [done|]; intros [|]; [fault|done]].
  cbn [lf_data lf_pos set_opened v_msg v_tmp v_out lf_path]. rewrite offset_nat, Nat2Z.id, (take_record _ _ _ _ Hold) by lia.
  unfold read_all. rewrite image_length, Nat.eqb_refl, of_image_image by (by eapply Forall_lookup_1).
  destruct (msg_store_record_matches old m); cbn [negb]; [|split; [done|]; split; [done|]; intros _; apply Hsame].
  split; [done|]. intros r v' [(-> & _ & ->)|[-> ->]] Ha2; [|split; [done|]; split; [done|]; intros [|]; [fault|done]].
  split; [done|]. intros r v' [[-> ->]|(-> & d' & pos' & ->)] Ha3; [|split; [done|]; split; [done|]; intros [|]; [fault|done]].
  cbn [lf_data lf_pos set_opened v_msg v_tmp v_out lf_path]. rewrite offset_nat, Nat2Z.id, splice_layout by lia.
  split; [done|]. intros r v' [[-> ->]|[-> ->]] Ha4; [|split; [done|]; split; [done|]; intros [|]; [fault|done]].
  assert (Hst := stores_layout h (<[i := with_timestamp m (m_timestamp_s old)]> rs) Hh').
  split; [by right|]. split; [done|]. intros _. split; [done|]. split; [done|]. split; [by rewrite length_insert|].
  split; [done|]. by eexists h, _.
Qed.

Definition kept (keep : nat) (rs : list stored_msg_t) : list stored_msg_t := drop (length rs - keep) rs.
(** The copy of records into the new file. *)
Lemma copy_safe (J : option (list Z) → Prop) h rs msg t n i c od p : J msg → (i + n <= length rs)%nat → 0 <= c →
  safe adm (rollover_copy n (Z.of_nat i) (u32 c))
    (mk_lview msg t (Some (mk_lfile MSG_FILE_PATH (layout h rs) p)) (Some (mk_lfile MSG_TMP_PATH od (length od)))) J
    (λ '(ok, count) v', ∃ p' od' q, v' = mk_lview msg t (Some (mk_lfile MSG_FILE_PATH (layout h rs) p')) (Some (mk_lfile MSG_TMP_PATH od' q)) ∧
       (strict adm → ok = true) ∧
       (ok = true → count = u32 (c + Z.of_nat n) ∧ od' = od ++ mjoin (image <$> take n (drop i rs)) ∧ q = length od')).
Proof.
  intros HJ. revert i c od p. induction n as [|n IH]; intros i c od p Hi Hc; cbn [rollover_copy].
  { split; [done|]. exists p, od, (length od). split; [done|]. split; [done|]. intros _. rewrite Z.add_0_r. by rewrite app_nil_r. }
  destruct (lookup_lt_is_Some_2 rs i) as [r Hr]; [lia|].
  split; [done|]. intros r0 v' [(-> & _ & ->)|[-> ->]] Ha; [|split; [done|]; eexists _, _, _; split; [done|]; split; [fault|done]].
  split; [done|]. intros r0 v' [[-> ->]|(-> & pos' & ->)] Ha'; [|split; [done|]; eexists _, _, _; split; [done|]; split; [fault|done]].
  cbn [lf_data lf_pos set_opened v_msg v_tmp v_out lf_path]. rewrite offset_nat, Nat2Z.id, (take_record _ _ _ _ Hr) by lia.
  unfold read_all. rewrite image_length, Nat.eqb_refl.
  split; [done|]. intros r0 v' [[-> ->]|(-> & d' & pos' & ->)] Ha2; [|split; [done|]; eexists _, _, _; split; [done|]; split; [fault|done]].
  cbn [failed set_opened v_msg v_tmp v_file lf_data lf_pos lf_path]. rewrite splice_end, <- length_app.
  replace (u32 (u32 c + 1)) with (u32 (c + 1)) by (unfold u32; by rewrite Zplus_mod_idemp_l).
  replace (Z.of_nat i + 1) with (Z.of_nat (S i)) by lia.
  eapply safe_mono; [apply (IH (S i) (c + 1) (od ++ image r)); lia|done|].
  intros [ok count] v' _ (p' & od' & q & -> & Hs & Hk). eexists _, _, _. split; [done|]. split; [done|]. intros Hok.
  destruct (Hk Hok) as (-> & -> & ->). split; [f_equal; lia|]. split; [|done].
  rewrite (drop_S _ _ _ Hr). cbn [take]. rewrite fmap_cons.
  change (mjoin (image r :: (image <$> take n (drop (S i) rs)))) with (image r ++ mjoin (image <$> take n (drop (S i) rs))).
  by rewrite (assoc_L (++)).
Qed.

Lemma finish_safe (J : option (list Z) → Prop) nh msg t fl od q : J msg →
  safe adm (rollover_finish nh) (mk_lview msg t fl (Some (mk_lfile MSG_TMP_PATH od q))) J
    (λ ok v', ∃ t' od' q', v' = mk_lview msg t' fl (Some (mk_lfile MSG_TMP_PATH od' q')) ∧
       (strict adm → ok = true) ∧ (ok = true → od' = header_image nh ++ drop 16 od ∧ t' = Some od')).
Proof.
  intros HJ. unfold rollover_finish.
  split; [done|]. intros r v' [(-> & _ & ->)|[-> ->]] Ha; [|split; [done|]; eexists _, _, _; split; [done|]; split; [fault|done]].
  split; [done|]. intros r v' [[-> ->]|(-> & d' & pos' & ->)] Ha'; [|split; [done|]; eexists _, _, _; split; [done|]; split; [fault|done]].
  split; [done|]. intros r v' [[-> ->]|[-> ->]] Ha2; [|split; [done|]; eexists _, _, _; split; [done|]; split; [fault|done]].
  split; [done|]. eexists _, _, _. split; [done|]. by split.
Qed.
Lemma swap_safe (J : option (list Z) → Prop) nh rs h msg p o ks ram :
  hdr_valid nh → fr_initialized ram = true → fh_record_count nh = Z.of_nat (length ks) →
  J msg → J (Some (layout h rs)) → J None → J (Some (layout nh ks)) →
  safe adm (rollover_swap nh ram) (mk_lview msg (Some (layout nh ks)) (Some (mk_lfile MSG_FILE_PATH (layout h rs) p)) o) J
    (λ ram' v', strict adm → ready ks ram' v').
Proof.
  intros Hnh Hi Hc J1 J2 J3 J4. unfold rollover_swap.
  split; [done|]. intros r v' [[-> ->]|[-> ->]] Ha.
  2:{ split; [done|]. intros r v' [[-> ->]|[-> ->]] _.
      all: split; [done|]; intros r v' [[-> ->]|[-> ->]] _; [|split; [done|]; fault].
      all: split; [done|]; intros r v' [(d & Hd & -> & ->)|[-> ->]] _; (split; [done|]; fault). }
  split; [done|]. intros r v' [[-> ->]|[-> ->]] Ha2.
  2:{ split; [done|]; intros r v' [[-> ->]|[-> ->]] _; [|split; [done|]; fault].
      split; [done|]; intros r v' [(d & Hd & -> & ->)|[-> ->]] _; (split; [done|]; fault). }
  split; [done|]. intros r v' [[-> ->]|[-> ->]] Ha3; [|split; [done|]; fault].
  split; [done|]. intros r v' [(d & Hd & -> & ->)|[-> ->]] Ha4.
  - cbn [set_disk set_opened disk v_msg v_tmp v_file v_out] in *. injection Hd as <-. split; [done|]. intros _.
    split; [done|]. split; [done|]. split; [done|]. split; [by apply stores_layout|]. by exists nh, 0%nat.
  - split; [done|]. intros Hs. exfalso. destruct (Hs _ _ _ Ha4 eq_refl) as (? & ? & [= <- <-] & Hn). done.
Qed.
Definition keep_count (max pct : Z) : nat := Z.to_nat (max * pct / 100).
Definition rolled (max pct : Z) (rs : list stored_msg_t) : list stored_msg_t :=
  if Z.of_nat (length rs) <=? max then rs else kept (keep_count max pct) rs.

(** Rolling over: the file holds all records or the newest, except between the removal
    of the old file and the renaming of the new one, when there is none. *)
Lemma rollover_safe max pct rs ram v : ready rs ram v → 0 <= max → 50 <= pct <= 90 →
  safe adm (rollover_unlocked max pct ram) v
    (λ d, stores rs d ∨ stores (rolled max pct rs) d ∨ d = None)
    (λ ram' v', strict adm → ready (rolled max pct rs) ram' v').
Proof.
  intros Hr Hmax Hpct. pose proof Hr as (Hi & Hh & Hc & Hm & h & pos & Hh' & Hf).
  unfold rollover_unlocked, rolled. rewrite Hi, Hc. cbn [negb orb].
  destruct (Z.leb_spec (Z.of_nat (length rs)) max) as [Hle|Hgt]; [split; [by left|done]|].
  rewrite (proj2 (Z.ltb_ge pct 50)), Z.gtb_ltb, (proj2 (Z.ltb_ge 90 pct)) by lia. cbn [orb]. cbv zeta.
  rewrite Z.quot_div_nonneg by lia.
  assert (Hkeep : max * pct / 100 = Z.of_nat (keep_count max pct) ∧ Z.of_nat (keep_count max pct) <= max)
    by (unfold keep_count; rewrite Z2Nat.id by (apply Z.div_pos; lia); split; [done|]; apply Z.div_le_upper_bound; nia).
  destruct Hkeep as [-> Hk]. set (keep := keep_count max pct) in *. rewrite Nat2Z.id.
  set (J := λ d, stores rs d ∨ stores (kept keep rs) d ∨ d = None).
  assert (HJ : J (v_msg v)) by by left. destruct v as [msg t fl o]. cbn [v_msg v_file] in *. subst fl.
  split; [done|]. intros r v' (d & _ & [[-> ->]|[-> ->]]) Ha.
  2:{ split; [done|]. intros Hs. exfalso. destruct (Hs _ _ _ Ha eq_refl) as (? & ? & [=] & _). }
  cbn [failed set_disk set_opened v_msg v_tmp v_file v_out].
  set (nh := with_count (fr_header ram) 0).
  replace (Z.of_nat (length rs) - Z.of_nat keep) with (Z.of_nat (length rs - keep)) by lia.
  split; [done|]. intros r v' Hd Ha2.
  assert (Hout : ∃ od q, v' = mk_lview msg d (Some (mk_lfile MSG_FILE_PATH (layout h rs) pos)) (Some (mk_lfile MSG_TMP_PATH od q)) ∧
    (strict adm → failed r = false) ∧ (failed r = false → od = header_image nh ∧ q = length od)).
  { destruct Hd as [[-> ->]|(-> & od & q & ->)].
    - eexists _, _. split; [done|]. by split.
    - eexists _, _. split; [done|]. split; [fault|done]. }
  clear Hd Ha2. destruct Hout as (od & q & -> & Hs0 & Hod).
  apply safe_seq. apply (safe_mono _ _ _ J _ (λ '(ok, count) v', ∃ p' od' q',
    v' = mk_lview msg d (Some (mk_lfile MSG_FILE_PATH (layout h rs) p')) (Some (mk_lfile MSG_TMP_PATH od' q')) ∧
    (strict adm → ok = true) ∧
    (ok = true → count = Z.of_nat keep ∧ od' = header_image nh ++ mjoin (image <$> kept keep rs)))); [|done|].
  { destruct (failed r) eqn:Er.
    - split; [done|]. exists pos, od, q. split; [done|]. split; [intros Hs; by specialize (Hs0 Hs)|done].
    - destruct (Hod eq_refl) as [-> ->].
      eapply safe_mono; [apply (copy_safe J h rs msg d keep (length rs - keep) 0); [done|lia|done]|done|].
      intros [ok count] v' _ (p' & od' & q' & -> & Hs & Hk2). exists p', od', q'. split; [done|]. split; [done|]. intros Hok.
      destruct (Hk2 Hok) as (-> & -> & _). rewrite Z.add_0_l. split; [apply u32_id; destruct Hh as (_ & Hu & _); unfold is_u32 in *; lia|].
      unfold kept. rewrite take_ge; [done|]. rewrite length_drop. lia. }
  intros [ok count] v' _ (p' & od' & q' & -> & Hs & Hok). apply safe_seq.
  set (nh' := with_count nh count).
  apply (safe_mono _ _ _ J _ (λ ok' v', ∃ t' od'' q'', v' = mk_lview msg t' (Some (mk_lfile MSG_FILE_PATH (layout h rs) p')) (Some (mk_lfile MSG_TMP_PATH od'' q'')) ∧
    (strict adm → ok' = true) ∧ (ok' = true → ok = true ∧ od'' = header_image nh' ++ drop 16 od' ∧ t' = Some od''))); [|done|].
  { destruct ok.
    - eapply safe_mono; [by apply (finish_safe J)|done|]. intros ok' v' _ (t' & od'' & q'' & -> & H1 & H2).
      eexists _, _, _. split; [done|]. split; [done|]. intros E. by split; [|apply H2].
    - split; [done|]. eexists _, _, _. split; [done|]. by split. }
  intros ok' v' _ (t' & od'' & q'' & -> & Hs' & Hok').
  split; [done|]. intros r2 v' Hclose Ha3.
  assert (Hv : ∃ t2, v' = mk_lview msg t2 (Some (mk_lfile MSG_FILE_PATH (layout h rs) p')) None ∧ (ok' = true → t2 = Some od'')).
  { destruct Hclose as [[-> ->]|[-> ->]]; eexists; (split; [done|]); intros E; by destruct (Hok' E) as (_ & _ & ?). }
  destruct Hv as (t2 & -> & Ht2). destruct ok'; cbn [negb].
  - destruct (Hok' eq_refl) as (-> & -> & _). destruct (Hok eq_refl) as [-> ->]. rewrite (Ht2 eq_refl).
    change (drop 16 (header_image nh ++ mjoin (image <$> kept keep rs))) with (mjoin (image <$> kept keep rs)).
    change (header_image nh' ++ mjoin (image <$> kept keep rs)) with (layout nh' (kept keep rs)).
    assert (Hnh : hdr_valid nh').
    { destruct Hh as (? & Hu & ?). split; [done|]. split; [|done]. cbn. unfold is_u32 in *. lia. }
    apply (swap_safe J); try done.
    + cbn. unfold kept. rewrite length_drop. lia.
    + left. by apply stores_layout.
    + by right; right.
    + right; left. by apply stores_layout.
  - split; [done|]. intros r3 v' [[-> ->]|[-> ->]] _; (split; [done|]; intros Hst; by specialize (Hs' Hst)).
Qed.
End Writes.

(** ** The log and its file *)

Definition flash_apply (rs : list stored_msg_t) (w : persist) : list stored_msg_t :=
  match w with
  | PSave m => rolled CONFIG_BRAMBLE_MSG_PERSIST_MAX CONFIG_BRAMBLE_MSG_PERSIST_ROLLOVER_KEEP_PCT (rs ++ [m])
  | PUpdate _ _ => file_apply rs w
  end.
(** The log is the newest records, as far as message and status go. *)
Definition tail_mirrors (rs : list stored_msg_t) (st : msg_store) : Prop :=
  id_status <$> kept MSG_STORE_MAX rs = id_status <$> log st.

Lemma tail_mirrors_alt rs st : store_wf st →
  tail_mirrors rs st ↔ file_mirrors rs st ∧ s_count st = Nat.min MSG_STORE_MAX (length rs).
Proof.
  intros (_ & _ & Hc). unfold tail_mirrors, kept. split.
  - intros E. split.
    + exists (take (length rs - MSG_STORE_MAX) rs), (drop (length rs - MSG_STORE_MAX) rs). by rewrite take_drop.
    + apply (f_equal length) in E. rewrite !length_fmap, length_drop, length_log in E. lia.
  - intros [(old & recs & -> & E) Hn]. pose proof E as El. apply (f_equal length) in El. rewrite !length_fmap, length_log in El.
    rewrite length_app in *. rewrite drop_app_length'; [done|]. lia.
Qed.

(** What an operation other than an append writes. *)
Definition small_update (w : persist) : Prop :=
  match w with PUpdate fe _ => (fe < MSG_STORE_MAX)%nat | PSave _ => False end.
Definition is_add (o : ms_op) : bool := match o with MAdd _ _ _ _ _ _ _ _ _ _ => true | _ => false end.
Lemma row_update_small st i : store_wf st → (0 < s_count st)%nat → Forall small_update (persist_row_update st i).
Proof. intros (_ & _ & Hc) Hp. constructor; [|constructor]. cbn. unfold MSG_STORE_MAX in *. lia. Qed.
Lemma find_down_lt f n i : find_down f n = Some i → (i < n)%nat.
Proof. induction n as [|n IH]; cbn; [done|]. destruct (f n); [intros [= <-]; lia|]. intros ?%IH. lia. Qed.
Lemma expire_small fuel st now n n' st' ws : store_wf st → expire_loop fuel st now n = Some (n', st', ws) → Forall small_update ws.
Proof.
  revert st n n' st' ws. induction fuel as [|fuel IH]; intros st n n' st' ws Hwf; cbn [expire_loop]; [done|].
  destruct (expire_pass st now) as [[st1 w]|] eqn:E; [|by intros [= _ _ <-]].
  unfold expire_pass in E. apply bind_Some in E as (i & Hi & [= <- <-]).
  intros ([[n2 st2] ws2] & E2 & [= _ _ <-])%bind_Some. apply find_index_lt in Hi. rewrite length_seq in Hi. constructor.
  - destruct Hwf as (_ & _ & Hc). cbn. unfold MSG_STORE_MAX in *. lia.
  - eapply IH; [by apply set_row_wf|done].
Qed.
Lemma updates_small st o : store_wf st → is_add o = false → Forall small_update (ms_step st o).2.
Proof.
  intros Hwf Ho. destruct o as [|uid pid status|pid status n route|uid|now|]; try done; cbn [ms_step].
  - unfold msg_store_update_by_uid. destruct (uid =? 0); [constructor|]. destruct (find_down _ _) as [i|] eqn:E; [|constructor].
    apply find_down_lt in E. destruct (apply_status _ _) as [[] m]; [|constructor].
    apply row_update_small; [by apply set_row_wf|cbn; lia].
  - unfold msg_store_update_status_with_route. destruct (pid =? 0); [constructor|]. destruct (find_down _ _) as [i|] eqn:E; [|constructor].
    apply find_down_lt in E. destruct (apply_status _ _) as [c m]. destruct (apply_route c m n route) as [[] m']; [|constructor].
    apply row_update_small; [by apply set_row_wf|cbn; lia].
  - unfold msg_store_unpark. destruct (uid =? 0); [constructor|]. destruct (find_down _ _) as [i|] eqn:E; [|constructor].
    apply find_down_lt in E. destruct (bool_decide _); [|constructor]. apply row_update_small; [by apply set_row_wf|cbn; lia].
  - destruct (msg_store_expire_parked st now) as [[[n st'] ws]|] eqn:E; [|constructor]. by eapply expire_small.
Qed.
Lemma updates_length rs ws : Forall small_update ws → length (foldl file_apply rs ws) = length rs.
Proof.
  intros Hw. revert rs. induction Hw as [|w ws Hs _ IH]; intros rs; [done|]. cbn [foldl]. rewrite IH.
  destruct w as [|fe m]; [done|]. cbn [file_apply]. case_match; [by rewrite length_insert|done].
Qed.
Lemma updates_flash rs ws : Forall small_update ws → foldl flash_apply rs ws = foldl file_apply rs ws.
Proof. intros Hw. revert rs. induction Hw as [|w ws Hs _ IH]; intros rs; [done|]. cbn [foldl]. rewrite IH. by destruct w. Qed.

(** Every operation keeps the newest records equal to the log. *)
Lemma step_mirrors rs st o : store_wf st → tail_mirrors rs st →
  let '(st', ws) := ms_step st o in store_wf st' ∧ tail_mirrors (foldl flash_apply rs ws) st'.
Proof.
  intros Hwf Ht. pose proof (ms_step_spec st o Hwf) as Hs. pose proof Ht as Ht0.
  apply tail_mirrors_alt in Ht0 as [Hm Hc]; [|done].
  destruct (is_add o) eqn:Eo.
  - destruct o as [p d t r s pid status ch uid up| | | | |]; try done. cbn [ms_step] in *.
    pose proof (add_step st p d t r s pid status ch uid up Hwf) as Ha.
    destruct (msg_store_add_full _ _ _ _ _ _ _ _ _ _ _) as [st' ws]. destruct Ha as (Hwf' & Hlog & ->). split; [done|].
    set (m := added _ _ _ _ _ _ _ _ _ _ _) in *. cbn [foldl flash_apply]. unfold tail_mirrors. rewrite Hlog.
    assert (Hk : kept MSG_STORE_MAX (rolled CONFIG_BRAMBLE_MSG_PERSIST_MAX CONFIG_BRAMBLE_MSG_PERSIST_ROLLOVER_KEEP_PCT (rs ++ [m])) =
                 kept MSG_STORE_MAX (rs ++ [m])).
    { unfold rolled. case_match; [done|]. unfold kept. rewrite length_drop, drop_drop. f_equal.
      change (keep_count CONFIG_BRAMBLE_MSG_PERSIST_MAX CONFIG_BRAMBLE_MSG_PERSIST_ROLLOVER_KEEP_PCT) with 150%nat. unfold MSG_STORE_MAX.
      unfold CONFIG_BRAMBLE_MSG_PERSIST_MAX in *. conds. lia. }
    rewrite Hk. unfold last_rows, kept. rewrite !fmap_drop, !fmap_app. unfold tail_mirrors, kept in Ht. rewrite <- Ht.
    rewrite !length_app, length_log, Hc, fmap_drop. cbn [length].
    destruct (decide (length rs <= MSG_STORE_MAX)%nat) as [Hle|Hgt].
    + rewrite (proj2 (Nat.sub_0_le (length rs) MSG_STORE_MAX)), drop_0, Nat.min_r by lia. done.
    + rewrite Nat.min_l by lia. unfold MSG_STORE_MAX in *. rewrite !drop_app_le by (rewrite ?length_drop, ?length_fmap; lia).
      rewrite drop_drop. do 2 f_equal. lia.
  - pose proof (updates_small st o Hwf Eo) as Hu.
    destruct (ms_step st o) as [st' ws]. cbn [fst snd] in *. destruct Hs as (Hwf' & Hl & Hf). split; [done|].
    assert (Hn : s_count st' = s_count st) by (destruct o; try done; apply Forall2_length in Hl; by rewrite !length_log in Hl).
    rewrite updates_flash by done. apply tail_mirrors_alt; [done|]. split; [by apply Hf|]. rewrite updates_length, Hn by done. done.
Qed.

(** Arguments of the types the functions declare. *)
Definition op_typed (o : ms_op) : Prop :=
  match o with
  | MAdd p d t r s pid status ch uid up =>
      is_u32 p ∧ is_i8 r ∧ is_i8 s ∧ is_u32 pid ∧ -32768 <= ch < 32768 ∧ is_u32 uid ∧ is_u32 up
  | MUid uid pid status => is_u32 pid
  | MStatus pid status n route =>
      ∀ hops, route = Some hops → Forall is_u32 hops ∧ (Z.to_nat (Z.min n (Z.of_nat MSG_ROUTE_MAX_HOPS)) <= length hops)%nat
  | _ => True
  end.
Definition store_fits (st : msg_store) : Prop := Forall fits (s_msgs st) ∧ is_u32 (s_next_uid st).
Definition persisted (w : persist) : stored_msg_t := match w with PSave m | PUpdate _ m => m end.

Lemma fits_row st i : store_wf st → store_fits st → fits (row_at st i).
Proof.
  intros (Hl & _) [Hf _]. unfold row_at. apply (Forall_lookup_total_1 _ _ _ Hf). rewrite Hl. apply ring_index_lt.
Qed.
Lemma fits_set_row st i m : store_fits st → fits m → store_fits (set_row st i m).
Proof. intros [Hf Hu] Hm. split; [|done]. by apply Forall_insert. Qed.
Lemma fits_status m s : fits m → fits (with_status m s). Proof. done. Qed.
Lemma fits_packet_id m p : fits m → is_u32 p → fits (with_packet_id m p). Proof. unfold fits. cbn. tauto. Qed.
Lemma fits_timestamp m t : fits m → is_u32 t → fits (with_timestamp m t). Proof. unfold fits. cbn. tauto. Qed.
Lemma fits_apply_status m s : fits m → fits (apply_status m s).2.
Proof. intros Hm. unfold apply_status. cbn [snd]. by case_match. Qed.
Lemma fits_apply_route c m n route : fits m →
  (∀ hops, route = Some hops → Forall is_u32 hops ∧ (Z.to_nat (Z.min n (Z.of_nat MSG_ROUTE_MAX_HOPS)) <= length hops)%nat) →
  fits (apply_route c m n route).2.
Proof.
  intros Hm Hr. unfold apply_route. destruct route as [hops|]; [|done]. destruct (Hr _ eq_refl) as [Hh Hl].
  rewrite !Z.gtb_ltb. destruct (Z.ltb_spec 0 n); [|done]. cbn [snd].
  replace (if Z.of_nat MSG_ROUTE_MAX_HOPS <? n then Z.of_nat MSG_ROUTE_MAX_HOPS else n) with (Z.min n (Z.of_nat MSG_ROUTE_MAX_HOPS))
    by (destruct (Z.ltb_spec (Z.of_nat MSG_ROUTE_MAX_HOPS) n); lia).
  destruct Hm as (? & ? & ? & ? & ? & ? & ? & ? & Hn & Hf & ?). unfold fits, with_route. cbn.
  split_and!; try done; try (unfold is_u8, MSG_ROUTE_MAX_HOPS; lia).
  - rewrite length_app, length_take, length_drop. unfold MSG_ROUTE_MAX_HOPS in *. lia.
  - apply Forall_app. split; [by apply Forall_take|by apply Forall_drop].
Qed.
Lemma fits_persist st i : store_wf st → store_fits st → Forall (λ w, fits (persisted w)) (persist_row_update st i).
Proof. intros. constructor; [by apply fits_row|constructor]. Qed.
Lemma fits_expire fuel st now n n' st' ws : store_wf st → store_fits st →
  expire_loop fuel st now n = Some (n', st', ws) → store_fits st' ∧ Forall (λ w, fits (persisted w)) ws.
Proof.
  revert st n n' st' ws. induction fuel as [|fuel IH]; intros st n n' st' ws Hwf Hf; cbn [expire_loop]; [done|].
  destruct (expire_pass st now) as [[st1 w]|] eqn:E; [|by intros [= _ <- <-]].
  unfold expire_pass in E. apply bind_Some in E as (i & Hi & E). injection E as <- <-.
  intros ([[n2 st2] ws2] & E2 & E3)%bind_Some. injection E3 as _ <- <-.
  assert (H1 : store_wf (set_row st i (with_status (row_at st i) MSG_STATUS_FAILED))) by by apply set_row_wf.
  assert (H2 : store_fits (set_row st i (with_status (row_at st i) MSG_STATUS_FAILED)))
    by (apply fits_set_row; [done|]; apply fits_status; by apply fits_row).
  destruct (IH _ _ _ _ _ H1 H2 E2) as [H3 H4]. split; [done|]. constructor; [by apply fits_row|done].
Qed.
Lemma step_fits st o : store_wf st → store_fits st → op_typed o →
  store_fits (ms_step st o).1 ∧ Forall (λ w, fits (persisted w)) (ms_step st o).2.
Proof.
  intros Hwf Hf Ho. destruct o as [p d t r s pid status ch uid up|uid pid status|pid status n route|uid|now|]; cbn [ms_step op_typed] in *.
  - pose proof (add_step st p d t r s pid status ch uid up Hwf) as Ha.
    assert (Hm : fits (added st p d t r s pid status ch uid up)).
    { destruct Ho as (? & ? & ? & ? & ? & ? & ?). destruct Hf as [_ Hu]. unfold fits, added. cbn -[MSG_TEXT_MAX].
      split_and!; try done; try lia; [by destruct (uid =? 0)|by repeat constructor|]. rewrite length_take. unfold MSG_TEXT_MAX. lia. }
    assert (Hst : store_fits (msg_store_add_full st p d t r s pid status ch uid up).1).
    { revert Hm. unfold msg_store_add_full, added. rewrite text_cut. destruct Hf as [Hf Hu].
      destruct (uid =? 0); cbn [msg_store_next_uid fst]; intros Hm; (split; [by apply Forall_insert|]); cbn; [|done].
      pose proof (u32_range (s_next_uid st + 1)). by destruct (_ =? 0). }
    destruct (msg_store_add_full _ _ _ _ _ _ _ _ _ _ _) as [st' ws]. destruct Ha as (_ & _ & ->). split; [done|]. constructor; [done|constructor].
  - unfold msg_store_update_by_uid. destruct (uid =? 0); [done|]. destruct (find_down _ _) as [i|]; [|done].
    set (m := if negb (pid =? 0) then _ else _). assert (Hm : fits m) by (unfold m; case_match; [apply fits_packet_id; [by apply fits_row|done]|by apply fits_row]).
    pose proof (fits_apply_status m status Hm) as Hm'. destruct (apply_status m status) as [c m']. cbn [fst snd] in *.
    assert (Hs := fits_set_row st i m' Hf Hm'). split; [done|]. destruct c; [|constructor]. apply fits_persist; [by apply set_row_wf|done].
  - unfold msg_store_update_status_with_route. destruct (pid =? 0); [done|]. destruct (find_down _ _) as [i|]; [|done].
    pose proof (fits_apply_status (row_at st i) status (fits_row _ _ Hwf Hf)) as Hm. destruct (apply_status _ _) as [c m]. cbn [snd] in Hm.
    pose proof (fits_apply_route c m n route Hm Ho) as Hm'. destruct (apply_route c m n route) as [c' m']. cbn [fst snd] in *.
    assert (Hs := fits_set_row st i m' Hf Hm'). split; [done|]. destruct c'; [|constructor]. apply fits_persist; [by apply set_row_wf|done].
  - unfold msg_store_unpark. destruct (uid =? 0); [done|]. destruct (find_down _ _) as [i|]; [|done]. destruct (bool_decide _); [|done].
    assert (Hs : store_fits (set_row st i (with_status (row_at st i) MSG_STATUS_FAILED)))
      by (apply fits_set_row; [done|]; apply fits_status; by apply fits_row).
    split; [done|]. apply fits_persist; [by apply set_row_wf|done].
  - destruct (msg_store_expire_parked st now) as [[[n st'] ws]|] eqn:E; [|done]. by eapply fits_expire.
  - split; [|constructor]. destruct Hf as [Hf Hu]. split; [done|]. cbn. pose proof (u32_range (s_next_uid st + 1)). by destruct (_ =? 0).
Qed.

(** ** Power cycles *)

Lemma restored_log rows : (length rows <= MSG_STORE_MAX)%nat →
  let st := msg_store_init_with_persistence (Some rows) in
  store_wf st ∧ log st = flip with_timestamp 0 <$> rows ∧ (Forall fits rows → store_fits st).
Proof.
  intros Hl. unfold msg_store_init_with_persistence. rewrite take_ge by done. cbv zeta.
  set (msgs := _ ++ drop (length rows) _).
  assert (Hm : length msgs = MSG_STORE_MAX) by (unfold msgs; rewrite length_app, length_fmap, length_drop, length_replicate; lia).
  split; [|split].
  - unfold store_wf. cbn [s_msgs s_head s_count]. split; [done|]. unfold MSG_STORE_MAX in *. split; [apply Nat.mod_upper_bound; lia|done].
  - unfold log. cbn [s_count]. apply list_eq. intros i. rewrite list_lookup_fmap.
    destruct (decide (i < length rows)%nat) as [Hi|Hi].
    + rewrite lookup_seq_lt by done. cbn [fmap option_fmap option_map]. unfold row_at, ring_index. cbn [s_msgs s_head s_count].
      replace (((length rows mod MSG_STORE_MAX + MSG_STORE_MAX - length rows) mod MSG_STORE_MAX + (0 + i)) mod MSG_STORE_MAX)%nat with i.
      * symmetry. rewrite <- (lookup_app_l _ (drop (length rows) (replicate MSG_STORE_MAX stored_zero))) by (by rewrite length_fmap).
        apply list_lookup_lookup_total_lt. rewrite Hm. lia.
      * unfold MSG_STORE_MAX in *. destruct (decide (length rows = 20)%nat) as [->|].
        -- change (20 mod 20)%nat with 0%nat. change ((0 + 20 - 20) mod 20)%nat with 0%nat. symmetry. apply Nat.mod_small. lia.
        -- rewrite (Nat.mod_small (length rows)) by lia. replace (length rows + 20 - length rows)%nat with 20%nat by lia.
           change (20 mod 20)%nat with 0%nat. symmetry. apply Nat.mod_small. lia.
    + rewrite (lookup_ge_None_2 (seq _ _)) by (rewrite length_seq; lia). cbn. symmetry. apply lookup_ge_None_2. rewrite length_fmap. lia.
  - intros Hf. split; cbn [s_msgs s_next_uid].
    + apply Forall_app. split; [|apply Forall_drop, Forall_replicate; unfold fits; cbn; split_and!; try done; by repeat constructor].
      apply list.Forall_fmap. eapply Forall_impl; [done|]. intros m Hm'. by apply fits_timestamp.
    + clear Hm msgs Hl. assert (H1 : is_u32 1) by done. revert H1. generalize 1 as u. induction Hf as [|m l Hm _ IH]; intros u Hu; [done|].
      cbn [foldl]. apply IH. unfold restore_uid. case_match; [|done]. pose proof (u32_range (m_uid m + 1)). by case_match.
Qed.

Lemma persist_safe w ram rs v : ready rs ram v → Forall fits rs → (length rs <= 200)%nat →
  (∀ fe m, w = PUpdate fe m → (fe < MSG_STORE_MAX)%nat) →
  safe faultless (persist_write w ram) v (λ _, True) (λ '(_, ram') v', ready (flash_apply rs w) ram' v').
Proof.
  intros Hr Hf Hl Hw. destruct w as [m|fe m]; cbn [persist_write flash_apply].
  - apply safe_seq. eapply safe_mono; [apply (save_safe faultless m rs ram v Hr); lia|done|].
    intros [rc ram'] v' _ [Hrc Hrd]. specialize (Hrc strict_faultless). subst rc. specialize (Hrd eq_refl). cbn [Z.eqb andb].
    unfold msg_store_spiffs_get_count. pose proof Hrd as (Hi & _ & Hc & _). rewrite Hi, Hc, Z.geb_leb.
    destruct (Z.leb_spec CONFIG_BRAMBLE_MSG_PERSIST_MAX (Z.of_nat (length (rs ++ [m])))).
    + apply safe_seq. eapply safe_mono; [by apply (rollover_safe faultless CONFIG_BRAMBLE_MSG_PERSIST_MAX CONFIG_BRAMBLE_MSG_PERSIST_ROLLOVER_KEEP_PCT _ _ _ Hrd)|done|].
      intros ram2 v2 _ Hq. split; [done|]. by apply Hq, strict_faultless.
    + split; [done|]. unfold rolled. by rewrite (proj2 (Z.leb_le _ _)) by lia.
  - eapply safe_mono; [apply (update_safe faultless fe m rs ram v Hr Hf); specialize (Hw _ _ eq_refl); unfold MSG_STORE_MAX in Hw; lia|done|].
    intros [rc ram'] v' _ [-> Hq]. apply Hq. left. apply strict_faultless.
Qed.
Lemma persist_cut w ram rs v : ready rs ram v → Forall fits rs → (length rs < 200)%nat →
  (∀ fe m, w = PUpdate fe m → (fe < MSG_STORE_MAX)%nat) →
  safe anything (persist_write w ram) v (λ d, stores rs d ∨ stores (flash_apply rs w) d) (λ _ _, True).
Proof.
  intros Hr Hf Hl Hw. destruct w as [m|fe m]; cbn [persist_write flash_apply].
  - assert (Hnr : rolled CONFIG_BRAMBLE_MSG_PERSIST_MAX CONFIG_BRAMBLE_MSG_PERSIST_ROLLOVER_KEEP_PCT (rs ++ [m]) = rs ++ [m]).
    { unfold rolled, CONFIG_BRAMBLE_MSG_PERSIST_MAX. rewrite length_app. cbn [length]. by rewrite (proj2 (Z.leb_le _ _)) by lia. }
    rewrite Hnr. apply safe_seq. eapply safe_mono; [apply (save_safe anything m rs ram v Hr); lia|done|].
    intros [rc ram'] v' HJ [_ Hrd]. case_match eqn:E; [|by split]. apply andb_true_iff in E as [->%Z.eqb_eq _]. specialize (Hrd eq_refl).
    apply safe_seq. unfold rollover_unlocked. pose proof Hrd as (Hi & _ & Hc & _). rewrite Hi, Hc, length_app. cbn [length negb orb].
    rewrite (proj2 (Z.leb_le _ CONFIG_BRAMBLE_MSG_PERSIST_MAX)) by (unfold CONFIG_BRAMBLE_MSG_PERSIST_MAX; lia). by split.
  - eapply safe_mono; [apply (update_safe anything fe m rs ram v Hr Hf); specialize (Hw _ _ eq_refl); unfold MSG_STORE_MAX in Hw; lia|done|done].
Qed.
Lemma flash_fits rs w : Forall fits rs → fits (persisted w) → Forall fits (flash_apply rs w).
Proof.
  intros Hf Hw. destruct w as [m|fe m]; cbn [flash_apply persisted] in *.
  - assert (Hn : Forall fits (rs ++ [m])) by (apply Forall_app; split; [done|]; constructor; [done|constructor]).
    unfold rolled. case_match; [done|]. by apply Forall_drop.
  - cbn [file_apply]. case_match eqn:E; [|done]. apply Forall_insert; [done|]. apply fits_timestamp; [done|].
    apply andb_true_iff in E as [E%Nat.ltb_lt _].
    assert (Ho : fits (rs !!! (length rs - 1 - fe)%nat)) by (apply (Forall_lookup_total_1 _ _ _ Hf); lia). by destruct Ho as (_ & _ & _ & ? & _).
Qed.
Lemma flash_length rs w : (length rs <= 200)%nat → (length (flash_apply rs w) <= 200)%nat.
Proof.
  intros Hl. destruct w as [m|fe m]; cbn [flash_apply file_apply].
  - unfold rolled. destruct (Z.leb_spec (Z.of_nat (length (rs ++ [m]))) CONFIG_BRAMBLE_MSG_PERSIST_MAX) as [H|H]; unfold CONFIG_BRAMBLE_MSG_PERSIST_MAX in *; [lia|].
    unfold kept. rewrite length_drop. change (keep_count 200 CONFIG_BRAMBLE_MSG_PERSIST_ROLLOVER_KEEP_PCT) with 150%nat. rewrite length_app. cbn. lia.
  - case_match; [by rewrite length_insert|done].
Qed.

Section System.
Context `{LfsLaws}.

Fixpoint run_writes (ws : list persist) (ram : flash_ram) (s : lfs) : flash_ram * lfs :=
  match ws with
  | [] => (ram, s)
  | w :: ws => let '((_, ram), s) := prun (persist_write w ram) s in run_writes ws ram s
  end.
Fixpoint writes_faultless (ws : list persist) (ram : flash_ram) (s : lfs) : Prop :=
  match ws with
  | [] => True
  | w :: ws =>
      admitted faultless (persist_write w ram) s ∧
      let '((_, ram), s) := prun (persist_write w ram) s in writes_faultless ws ram s
  end.
(** Starting the node on a file system: the message store's part of it. *)
Definition boots (s : lfs) (ram : flash_ram) (st : msg_store) (s' : lfs) : Prop :=
  admitted faultless (persist_boot true) s ∧ prun (persist_boot true) s = ((ram, st), s').

(** Lives of a node: it is started new, operations on the log write to flash, and power
    fails between two operations or inside the write of one. *)
Inductive running : flash_ram → msg_store → lfs → Prop :=
| running_new s ram st s' :
    v_msg (lfs_view s) = None → boots (lfs_reboot s) ram st s' → running ram st s'
| running_op ram st s o :
    running ram st s → op_typed o → writes_faultless (ms_step st o).2 ram s →
    running (run_writes (ms_step st o).2 ram s).1 (ms_step st o).1 (run_writes (ms_step st o).2 ram s).2
| running_cycle ram st s ram' st' s' :
    running ram st s → boots (lfs_reboot s) ram' st' s' → running ram' st' s'
| running_cut ram st s o w n ram' st' s' :
    running ram st s → op_typed o → (ms_step st o).2 = [w] → fh_record_count (fr_header ram) < 200 →
    boots (lfs_reboot (pcut n (persist_write w ram) s)) ram' st' s' → running ram' st' s'.

Definition consistent (rs : list stored_msg_t) (ram : flash_ram) (st : msg_store) (s : lfs) : Prop :=
  ready rs ram (lfs_view s) ∧ Forall fits rs ∧ (length rs <= 200)%nat ∧ store_wf st ∧ store_fits st ∧ tail_mirrors rs st.
(** The log after a restart: the same messages and statuses, without times. *)
Definition restored (st st' : msg_store) : Prop :=
  id_status <$> log st' = id_status <$> log st ∧ Forall (λ m, m_timestamp_s m = 0) (log st').

Lemma reboot_msg s : v_msg (lfs_view (lfs_reboot s)) = v_msg (lfs_view s).
Proof. by rewrite lfs_reboot_view. Qed.
Lemma id_timestamp (l : list stored_msg_t) : id_status <$> (flip with_timestamp 0 <$> l) = id_status <$> l.
Proof. rewrite <- list_fmap_compose. done. Qed.
Lemma kept_length rs : (length (kept MSG_STORE_MAX rs) <= MSG_STORE_MAX)%nat.
Proof. unfold kept. rewrite length_drop. lia. Qed.
Lemma load_boot rs v : stores rs (v_msg v) ∨ rs = [] ∧ v_msg v = None → Forall fits rs → (length rs <= 200)%nat →
  safe faultless (persist_boot true) v (λ _, True)
    (λ '(ram, st) v', ready rs ram v' ∧ st = msg_store_init_with_persistence (Some (kept MSG_STORE_MAX rs))).
Proof.
  intros Hs Hf Hl. apply safe_seq.
  apply (safe_mono _ _ _ (λ _, True) _ (λ '(rc, ram') v', rc = 0 ∧ ready rs ram' v')); [|done|].
  - destruct Hs as [Hs|[-> Hs]].
    + eapply safe_mono; [apply (init_safe flash_ram_zero rs v Hs); lia|done|done].
    + eapply safe_mono; [apply (init_blank flash_ram_zero v); by left|done|done].
  - intros [rc ram] v' _ [-> Hr]. cbn [Z.eqb]. apply safe_seq.
    eapply safe_mono; [by apply (load_safe (Z.of_nat MSG_STORE_MAX) ram rs v' Hr Hf)|done|].
    intros rows v2 _ [-> Hr2]. split; [done|]. split; [done|]. unfold kept. by rewrite Nat2Z.id.
Qed.
Lemma boot_consistent rs s ram st s' :
  stores rs (v_msg (lfs_view s)) ∨ rs = [] ∧ v_msg (lfs_view s) = None → Forall fits rs → (length rs <= 200)%nat →
  boots s ram st s' → consistent rs ram st s' ∧ log st = flip with_timestamp 0 <$> kept MSG_STORE_MAX rs.
Proof.
  intros Hs Hf Hl [Ha E]. pose proof (load_boot rs (lfs_view s) Hs Hf Hl) as Hb.
  apply (safe_run faultless _ s) in Hb; [|done]. rewrite E in Hb. cbn [fst snd] in Hb. destruct Hb as [Hr ->].
  destruct (restored_log (kept MSG_STORE_MAX rs) (kept_length rs)) as (Hwf & Hlog & Hfit). split; [|done].
  split_and!; [done..| |]; [by apply Hfit, Forall_drop|]. unfold tail_mirrors. by rewrite Hlog, id_timestamp.
Qed.
Lemma restart_restored rs st s ram' st' s' : stores rs (v_msg (lfs_view s)) → Forall fits rs → (length rs <= 200)%nat → tail_mirrors rs st →
  boots (lfs_reboot s) ram' st' s' → consistent rs ram' st' s' ∧ restored st st'.
Proof.
  intros Hs Hf Hl Ht Hb. destruct (boot_consistent rs _ _ _ _ ltac:(left; by rewrite reboot_msg) Hf Hl Hb) as [Hc Hlog].
  split; [done|]. split; [by rewrite Hlog, id_timestamp, Ht|]. rewrite Hlog. by apply list.Forall_fmap, list.Forall_true.
Qed.
Lemma writes_consistent ws : ∀ rs ram s, ready rs ram (lfs_view s) → Forall fits rs → (length rs <= 200)%nat →
  Forall (λ w, fits (persisted w)) ws → (∀ fe m, PUpdate fe m ∈ ws → (fe < MSG_STORE_MAX)%nat) → writes_faultless ws ram s →
  let '(ram', s') := run_writes ws ram s in
  ready (foldl flash_apply rs ws) ram' (lfs_view s') ∧ Forall fits (foldl flash_apply rs ws) ∧ (length (foldl flash_apply rs ws) <= 200)%nat.
Proof.
  induction ws as [|w ws IH]; intros rs ram s Hr Hf Hl Hw Hu Hok; cbn [run_writes foldl]; [done|].
  destruct Hok as [Ha Hok]. inv_Forall.
  assert (Hp := persist_safe w ram rs (lfs_view s) Hr Hf Hl ltac:(intros fe m Ew; apply (Hu fe m); rewrite Ew; left)).
  apply (safe_run faultless _ s) in Hp; [|done]. destruct (prun (persist_write w ram) s) as [[rc ram1] s1]. cbn [fst snd] in Hp.
  apply IH; try done; [by apply flash_fits|by apply flash_length|]. intros fe m Hin. apply (Hu fe m). by right.
Qed.
Lemma small_writes st o fe m : store_wf st → PUpdate fe m ∈ (ms_step st o).2 → (fe < MSG_STORE_MAX)%nat.
Proof.
  intros Hwf Hin. destruct (is_add o) eqn:Eo.
  - destruct o; try done. cbn [ms_step] in Hin. 
    match type of Hin with _ ∈ (msg_store_add_full ?a ?b ?c ?d ?e ?f ?g ?h ?i ?j ?k).2 =>
      pose proof (add_step a b c d e f g h i j k Hwf) as Ha; destruct (msg_store_add_full a b c d e f g h i j k) as [st' ws] end.
    destruct Ha as (_ & _ & ->). cbn in Hin. apply list_elem_of_singleton in Hin. done.
  - pose proof (updates_small st o Hwf Eo) as Hu. rewrite list.Forall_forall in Hu. by apply (Hu _ Hin).
Qed.
Lemma running_consistent ram st s : running ram st s → ∃ rs, consistent rs ram st s.
Proof.
  induction 1 as [s ram st s' Hn Hb|ram st s o Hrun IH Ho Hok|ram st s ram' st' s' Hrun IH Hb|ram st s o w n ram' st' s' Hrun IH Ho Ew Hc Hb].
  - exists []. eapply boot_consistent; [|constructor|cbn; lia|done]. right. split; [done|]. by rewrite reboot_msg.
  - destruct IH as (rs & Hr & Hf & Hl & Hwf & Hsf & Ht). exists (foldl flash_apply rs (ms_step st o).2).
    destruct (step_fits st o Hwf Hsf Ho) as [Hsf' Hw]. pose proof (step_mirrors rs st o Hwf Ht) as Hm.
    pose proof (writes_consistent (ms_step st o).2 rs ram s Hr Hf Hl Hw ltac:(intros; by eapply small_writes) Hok) as Hcw.
    destruct (ms_step st o) as [st' ws]. cbn [fst snd] in *. destruct (run_writes ws ram s) as [ram' s']. destruct Hm, Hcw as (? & ? & ?).
    by split_and!.
  - destruct IH as (rs & Hr & Hf & Hl & Hwf & Hsf & Ht). exists rs.
    eapply restart_restored; [by eapply ready_stores|done..].
  - destruct IH as (rs & Hr & Hf & Hl & Hwf & Hsf & Ht). pose proof Hr as (_ & _ & Hcount & _).
    assert (Hsm : ∀ fe m, w = PUpdate fe m → (fe < MSG_STORE_MAX)%nat).
    { intros fe m ->. apply (small_writes st o fe m Hwf). rewrite Ew. left. }
    assert (Hcut := persist_cut w ram rs (lfs_view s) Hr Hf ltac:(lia) Hsm).
    apply (safe_cut anything _ s _ _ n) in Hcut; [|apply admitted_anything].
    destruct (step_fits st o Hwf Hsf Ho) as [_ Hw]. rewrite Ew in Hw. inv_Forall. destruct Hcut as [Hcut|Hcut].
    + exists rs. eapply (boot_consistent rs); [left; by rewrite reboot_msg|done..].
    + exists (flash_apply rs w). eapply (boot_consistent (flash_apply rs w)); [left; by rewrite reboot_msg|by apply flash_fits|by apply flash_length|done].
Qed.

(** C38. Over any life of a node, on a file system that fails only by losing power: after a
    loss of power between operations the log holds the same messages with the same
    statuses (times, which counted from the last start, are cleared); after one inside
    the write of an operation that makes a single one, while the file has fewer than 200
    records, so that no rollover is due, it is the log before or after that operation. *)
Theorem log_survives_power_loss ram st s : running ram st s →
  (∀ ram' st' s', boots (lfs_reboot s) ram' st' s' → restored st st') ∧
  (∀ o w n ram' st' s', op_typed o → (ms_step st o).2 = [w] → fh_record_count (fr_header ram) < 200 →
     boots (lfs_reboot (pcut n (persist_write w ram) s)) ram' st' s' →
     restored st st' ∨ restored (ms_step st o).1 st').
Proof.
  intros Hrun. destruct (running_consistent _ _ _ Hrun) as (rs & Hr & Hf & Hl & Hwf & Hsf & Ht). split.
  - intros ram' st' s' Hb. eapply restart_restored; [by eapply ready_stores|done..].
  - intros o w n ram' st' s' Ho Ew Hc Hb. pose proof Hr as (_ & _ & Hcount & _).
    assert (Hsm : ∀ fe m, w = PUpdate fe m → (fe < MSG_STORE_MAX)%nat).
    { intros fe m ->. apply (small_writes st o fe m Hwf). rewrite Ew. left. }
    assert (Hcut := persist_cut w ram rs (lfs_view s) Hr Hf ltac:(lia) Hsm).
    apply (safe_cut anything _ s _ _ n) in Hcut; [|apply admitted_anything].
    destruct (step_fits st o Hwf Hsf Ho) as [_ Hw]. pose proof (step_mirrors rs st o Hwf Ht) as Hm.
    destruct (ms_step st o) as [st1 ws]. cbn [fst snd] in *. subst ws. inv_Forall. destruct Hm as [_ Hm]. cbn [foldl] in Hm.
    destruct Hcut as [Hcut|Hcut]; [left|right]; eapply restart_restored; try done; [by apply flash_fits|by apply flash_length].
Qed.
End System.

(** ** Power lost while old records are dropped *)

Lemma rollover_reaches max pct rs ram v : ready rs ram v → 0 <= max < Z.of_nat (length rs) → 50 <= pct <= 90 →
  reaches (rollover_unlocked max pct ram) v (λ d, d = None).
Proof.
  intros (Hi & Hh & Hc & Hm & h & pos & Hh' & Hf) Hmax Hpct.
  unfold rollover_unlocked. rewrite Hi, Hc. cbn [negb orb]. rewrite (proj2 (Z.leb_gt (Z.of_nat (length rs)) max)) by lia.
  rewrite (proj2 (Z.ltb_ge pct 50)), Z.gtb_ltb, (proj2 (Z.ltb_ge 90 pct)) by lia. cbn [orb]. cbv zeta.
  rewrite Z.quot_div_nonneg by lia.
  assert (Hk : max * pct / 100 = Z.of_nat (keep_count max pct) ∧ Z.of_nat (keep_count max pct) <= max)
    by (unfold keep_count; rewrite Z2Nat.id by (apply Z.div_pos; lia); split; [done|]; apply Z.div_le_upper_bound; nia).
  destruct Hk as [-> Hk]. set (keep := keep_count max pct) in *. rewrite Nat2Z.id.
  destruct v as [msg t fl o]. cbn [v_msg v_file] in *. subst fl.
  right. intros r v' (d & _ & [[-> ->]|[-> ->]]) Ha; [|by apply no_fault in Ha].
  right. intros r v' [[-> ->]|(-> & od & q & ->)] Ha2; [|by apply no_fault in Ha2].
  cbn [failed set_disk set_opened v_msg v_tmp v_file v_out lf_data lf_pos lf_path]. set (nh := with_count (fr_header ram) 0).
  replace (Z.of_nat (length rs) - Z.of_nat keep) with (Z.of_nat (length rs - keep)) by lia.
  eapply reaches_bind.
  { apply (copy_safe faultless (λ _, True) h rs msg d keep (length rs - keep) 0 (header_image nh) pos); [done|lia|done]. }
  intros [ok count] v' (p' & od' & q' & -> & Hs & _). rewrite (Hs strict_faultless). clear Hs.
  eapply reaches_bind; [by apply (finish_safe faultless (λ _, True))|].
  intros ok' v' (t' & od2 & q2 & -> & Hs & _). rewrite (Hs strict_faultless). clear Hs. cbn [negb].
  right. intros r2 v2 Hd2 _.
  assert (Hv : v_file v2 = Some (mk_lfile MSG_FILE_PATH (layout h rs) p')) by (destruct Hd2 as [[-> ->]|[-> ->]]; done).
  right. intros r3 v3 _ _. right. intros r4 v4 Hd4 Ha4. destruct Hd4 as [[-> ->]|[-> ->]]; [|by apply no_fault in Ha4].
  by left.
Qed.

Section Torn.
Context `{LfsLaws}.
(** Dropping old records removes the file and then renames its copy into place: power
    lost between the two leaves no file under the name the next start opens, and the
    log, full before, comes back empty. *)
Theorem rollover_cut_loses_log ram st s o m : running ram st s → op_typed o → (ms_step st o).2 = [PSave m] →
  fh_record_count (fr_header ram) = 200 → admitted faultless (persist_write (PSave m) ram) s →
  length (log st) = MSG_STORE_MAX ∧
  ∃ n, ∀ ram' st' s', boots (lfs_reboot (pcut n (persist_write (PSave m) ram) s)) ram' st' s' → log st' = [].
Proof.
  intros Hrun Ho Ew Hc Ha. destruct (running_consistent _ _ _ Hrun) as (rs & Hr & Hf & Hl & Hwf & Hsf & Ht).
  pose proof Hr as (_ & _ & Hcount & _). split.
  { apply (f_equal length) in Ht. rewrite !length_fmap in Ht. rewrite <- Ht. unfold kept. rewrite length_drop. unfold MSG_STORE_MAX. lia. }
  assert (Hreach : reaches (persist_write (PSave m) ram) (lfs_view s) (λ d, d = None)).
  { cbn [persist_write]. eapply reaches_bind; [apply (save_safe faultless m rs ram _ Hr); lia|].
    intros [rc ram'] v' [Hrc Hrd]. specialize (Hrc strict_faultless). subst rc. specialize (Hrd eq_refl). cbn [Z.eqb andb].
    unfold msg_store_spiffs_get_count. pose proof Hrd as (Hi & _ & Hc' & _). rewrite Hi, Hc', Z.geb_leb, length_app. cbn [length].
    rewrite (proj2 (Z.leb_le _ _)) by (unfold CONFIG_BRAMBLE_MSG_PERSIST_MAX; lia).
    apply reaches_prefix. apply (rollover_reaches _ _ _ _ _ Hrd); [|done]. rewrite length_app. cbn [length]. unfold CONFIG_BRAMBLE_MSG_PERSIST_MAX. lia. }
  destruct (reaches_cut _ s _ Hreach Ha) as [n Hn]. exists n. intros ram' st' s' Hb.
  assert (Hnone : v_msg (lfs_view (lfs_reboot (pcut n (persist_write (PSave m) ram) s))) = None) by by rewrite reboot_msg.
  destruct (boot_consistent [] _ ram' st' s' (or_intror (conj eq_refl Hnone)) ltac:(constructor) ltac:(cbn; lia) Hb) as [_ ->]. done.
Qed.
End Torn.

(** ** A file system in memory *)

Definition ram_file_call (c : lcall) (h : lhandle) (f : lfile) (v : lview) : lres * lview :=
  let moved data pos := set_opened h (Some (mk_lfile (lf_path f) data pos)) v in
  match c with
  | LSeek _ off => if 0 <=? off then (LOk, moved (lf_data f) (Z.to_nat off)) else (LErr, v)
  | LSeekEnd _ => (LOk, moved (lf_data f) (length (lf_data f)))
  | LRead _ n => let bs := take n (drop (lf_pos f) (lf_data f)) in (LData bs, moved (lf_data f) (lf_pos f + length bs)%nat)
  | LWrite _ bs => (LOk, moved (splice (lf_pos f) bs (lf_data f)) (lf_pos f + length bs)%nat)
  | LSync _ => (LOk, set_disk (lf_path f) (Some (lf_data f)) v)
  | LSize _ => (LLen (length (lf_data f)), v)
  | LTruncate _ n => if 0 <=? n then (LOk, moved (take (Z.to_nat n) (lf_data f)) (lf_pos f)) else (LErr, v)
  | LClose _ => (LOk, set_opened h None (set_disk (lf_path f) (Some (lf_data f)) v))
  | _ => (LErr, v)
  end.
Definition ram_call (c : lcall) (v : lview) : lres * lview :=
  match c with
  | LOpen h p false =>
      match disk v p with Some d => (LOk, set_opened h (Some (mk_lfile p d 0)) v) | None => (LErr, v) end
  | LOpen h p true =>
      (LOk, set_opened h (Some (mk_lfile p [] 0)) (set_disk p (Some (default [] (disk v p))) v))
  | LSeek h _ | LSeekEnd h | LRead h _ | LWrite h _ | LSync h | LSize h | LTruncate h _ | LClose h =>
      match opened v h with Some f => ram_file_call c h f v | None => (LErr, v) end
  | LRemove p => (LOk, set_disk p None v)
  | LRename p q => (LOk, set_disk p None (set_disk q (disk v p) v))
  end.
#[export] Instance ram_lfs : Lfs :=
  {| lfs := lview; lfs_call := ram_call; lfs_reboot := λ v, mk_lview (v_msg v) (v_tmp v) None None; lfs_view := λ v, v |}.
#[export] Instance ram_lfs_laws : LfsLaws.
Proof.
  split; [|done]. intros c v r v' E. cbn [lfs_call lfs_view ram_lfs] in *.
  destruct c as [h p []|h off|h|h n|h bs|h|h|h n|h|p|p q]; cbn [ram_call documented] in *; unfold on_file;
    try (destruct (opened v h) as [f|]; [|done]; cbn [ram_file_call file_call] in *);
    repeat case_match; simplify_eq/=; try (left; by eauto); try (right; by eauto);
    try (left; split_and!; [done|lia|done]).
  exists (Some (default [] (disk v p))). split; [|by left]. destruct (disk v p); [by left|by right].
Qed.
(** The results this file system gives, decided. *)
Definition faultlessb (c : lcall) (v : lview) (r : lres) : bool :=
  match r, c with
  | LErr, LOpen _ p false => match disk v p with None => true | Some _ => false end
  | LErr, _ => false
  | _, _ => true
  end.
Lemma faultlessb_sound c v r : faultlessb c v r = true → faultless c v r.
Proof. intros H ->. destruct c as [h p []| | | | | | | | | |]; try done. cbn in H. exists h, p. by destruct (disk v p). Qed.
Fixpoint admittedb {A} (p : prog A) (s : lview) : bool :=
  match p with
  | Ret _ => true
  | Do c k => let '(r, s') := ram_call c s in faultlessb c s r && admittedb (k r) s'
  end.
Lemma admittedb_sound {A} (p : prog A) s : admittedb p s = true → admitted faultless p s.
Proof.
  revert s. induction p as [a|c k IH]; intros s; cbn; [done|]. destruct (ram_call c s) as [r s'].
  intros [H1 H2]%andb_true_iff. split; [by apply faultlessb_sound|by apply IH].
Qed.

(** A node started on blank flash, sent one message, then started again. *)
Definition blank_flash : lview := mk_lview None None None None.
Definition ram_boot (v : lview) : flash_ram * msg_store * lview := prun (persist_boot true) (lfs_reboot v).
Definition hello : ms_op := MAdd 7 MSG_DIR_OUTGOING [104; 105] (-80) 5 99 MSG_STATUS_SENT 0 0 12.
Definition first_boot : flash_ram * msg_store * lview := Eval vm_compute in ram_boot blank_flash.
Lemma first_running : running first_boot.1.1 first_boot.1.2 (first_boot.2 : @lfs ram_lfs).
Proof. apply (running_new (blank_flash : @lfs ram_lfs)); [done|]. split; [by apply admittedb_sound|by vm_compute]. Qed.
(** Power fails after the record is written and before it is synced. *)
Definition hello_row : stored_msg_t := hd stored_zero (log (ms_step first_boot.1.2 hello).1).
Definition torn_flash : lview := pcut 2 (persist_write (PSave hello_row) first_boot.1.1) (first_boot.2 : @lfs ram_lfs).
Lemma log_survives_power_loss_witness :
  restored first_boot.1.2 (ram_boot torn_flash).1.2 ∨ restored (ms_step first_boot.1.2 hello).1 (ram_boot torn_flash).1.2.
Proof.
  apply (proj2 (log_survives_power_loss _ _ _ first_running) hello (PSave hello_row) 2%nat (ram_boot torn_flash).1.1 _ (ram_boot torn_flash).2).
  - vm_compute. repeat split; congruence.
  - by vm_compute.
  - by vm_compute.
  - split; [apply admittedb_sound; by vm_compute|by vm_compute].
Defined.
