(* ===== verification/BleServer.v ===== *)
(** * Remote calls over Bluetooth ([components/ble])

    The pairing policy and its stored code, the serial service over which lines of
    JSON arrive and leave, the task that answers them, and the handler of the events
    of a connection.

    Several tasks share the state.  The host task runs the callbacks (events, writes and
    the advertising timer), each one step.  The RPC task answers the lines of a queue,
    and any task may push a notification; these run in small steps, from one access to
    the shared state to the next ([rpc_pc], [notify_pc]), so that a callback can come
    between the test of the authentication and the call, between the test of the link
    and a piece of the reply, or between two pieces.  What the stack reports is an
    argument of the step: which links are encrypted, the results of its calls, random
    words.

    The theorems: who gets to call over Bluetooth and where text goes, what a client
    leaves to the next one (a queued token, the rest of a reply), how replies are cut,
    pairing codes, and that the node keeps advertising. *)

From stdpp Require Import base strings numbers sets option decidable list.
From S2P Require Import Prelude Packet PacketSpec NetworkKey CString DmCrypto Identity IdentityStore Location MeshState.
From S2P Require Import WsServer WsServerSpec.

(** ** [ble_pairing_policy.c] *)

Inductive ble_pairing_mode_t := BLE_PAIRING_JUST_WORKS | BLE_PAIRING_STATIC_PASSKEY | BLE_PAIRING_DISPLAY_PASSKEY.
#[global] Instance pairing_mode_eq_dec : EqDecision ble_pairing_mode_t.
Proof. solve_decision. Defined.
Definition ble_pairing_mode_resolve (display_cb_registered static_passkey_set : bool) : ble_pairing_mode_t :=
  if display_cb_registered then BLE_PAIRING_DISPLAY_PASSKEY
  else if static_passkey_set then BLE_PAIRING_STATIC_PASSKEY
  else BLE_PAIRING_JUST_WORKS.
(** The [for] loop over six characters, [n] of them left. *)
Fixpoint passkey_loop (n : nat) (s : list Z) (v : Z) : option (Z * list Z) :=
  match n with
  | O => Some (v, s)
  | S n =>
      match s with
      | c :: s => if (c <? 48) || (c >? 57) then None else passkey_loop n s (u32 (u32 (v * 10) + (c - 48)))
      | [] => None
      end
  end.
Definition ble_pairing_passkey_parse (s : list Z) : option Z :=
  '(v, rest) ← passkey_loop 6 s 0;
  match rest with [] => Some v | _ => None end.
Definition ble_pairing_backoff_ms (consecutive_failures : Z) : Z :=
  if consecutive_failures =? 0 then 0
  else if consecutive_failures >? 6 then 60000
  else u32 (Z.shiftl 1000 (consecutive_failures - 1)).
Definition ble_pairing_mode_name (m : ble_pairing_mode_t) : list Z :=
  match m with
  | BLE_PAIRING_STATIC_PASSKEY => str_bytes "static-passkey"
  | BLE_PAIRING_DISPLAY_PASSKEY => str_bytes "passkey-display"
  | BLE_PAIRING_JUST_WORKS => str_bytes "just-works"
  end.
Definition BLE_PAIRING_PENDING_VALID_BIT : Z := Z.shiftl 1 31.
Definition BLE_PAIRING_PENDING_SHOW_BIT : Z := Z.shiftl 1 30.
Definition BLE_PAIRING_PENDING_CODE_MASK : Z := 1048575.
Definition ble_pairing_pending_pack (passkey : Z) (show : bool) : Z :=
  let word := Z.lor BLE_PAIRING_PENDING_VALID_BIT (Z.land passkey BLE_PAIRING_PENDING_CODE_MASK) in
  if show then Z.lor word BLE_PAIRING_PENDING_SHOW_BIT else word.
Definition ble_pairing_pending_unpack (word : Z) : option (Z * bool) :=
  if Z.land word BLE_PAIRING_PENDING_VALID_BIT =? 0 then None
  else Some (Z.land word BLE_PAIRING_PENDING_CODE_MASK, negb (Z.land word BLE_PAIRING_PENDING_SHOW_BIT =? 0)).
(** [%03u]. *)
Definition dec03 (v : Z) : list Z := let d := dec v in replicate (3 - length d) 48 ++ d.
Definition ble_pairing_format_code (code : Z) (out_len : nat) : list Z :=
  take (out_len - 1) (dec03 (code / 1000) ++ [32] ++ dec03 (code mod 1000)).

(** ** [ble_pairing_store.c]: the stored code; [ok] whether storage works *)

Definition ble_pairing_store_set (ok : bool) (passkey : Z) (stored : option Z) : Z * option Z :=
  if ok then (0, Some passkey) else (-1, stored).
Definition ble_pairing_store_clear (ok : bool) (stored : option Z) : Z * option Z :=
  if ok then (0, None) else (-1, stored).
Definition ble_pairing_store_get (ok : bool) (stored : option Z) : option Z := if ok then stored else None.

(** ** State *)

Definition BLE_RPC_BUF_SIZE : nat := 2048.
Definition BLE_MTU_DEFAULT : Z := 20.
Definition BLE_ADV_NAME_MAX : nat := 23.
Definition BLE_AUTH_MAX_FAILS : Z := 5.
Definition BLE_ADV_RETRY_MS : Z := 1000.
Definition RPC_QUEUE_LEN : nat := 4.
Definition BLE_HS_EALREADY : Z := 2.
Definition BLE_HS_ENOMEM : Z := 6.
Definition BLE_ATT_ERR_INSUFFICIENT_AUTHEN : Z := 5.
Definition BLE_ATT_ERR_UNLIKELY : Z := 14.
(** A C string literal of JSON, with single quotes for its double ones. *)
Definition json_text (s : string) : list Z := (λ c, if c =? 39 then 34 else c) <$> str_bytes s.
Definition unauthorized_text : list Z :=
  json_text "{'jsonrpc':'2.0','error':{'code':-32603,'message':'unauthorized: first BLE write must be auth token'},'id':null}".
Definition ok_text : list Z := json_text "{'jsonrpc':'2.0','result':{'ok':true},'id':null}".

(** What the server does: a notification with a piece of a line, whether pushed by the
    node; a call; a disconnection asked for; a code shown or hidden; advertising. *)
Inductive ble_event :=
  | BleSent (conn : option Z) (pushed : bool) (chunk : list Z)
  | BleRan (conn : option Z) (method : list Z)
  | BleTerminate (conn : Z)
  | BleShow (code : Z) (show : bool)
  | BleInject (conn : Z) (code : Z)
  | BleAdvertise (name : list Z) (complete : bool).

(** The connection: the statics of [ble_server.c] that a disconnection resets. *)
Record ble_link := mk_link {
  bl_conn : option Z; bl_notify : bool; bl_authed : bool; bl_fails : Z; bl_mtu : Z; bl_line : list Z }.
Definition link_none : ble_link := mk_link None false false 0 (BLE_MTU_DEFAULT + 3) [].
(** The rest: the queue, consecutive pairing failures, whether a display callback is
    registered, the device name, the retry timer (created or not, and its period when
    it runs), what the security manager is told, bonds, the stored code and the token. *)
Record ble_t (App : Type) := mk_ble {
  bt_link : ble_link; bt_queue : list (list Z); bt_pair_fails : Z; bt_display : bool; bt_name : list Z;
  bt_timer : option (option Z); bt_adv : bool; bt_mitm : bool; bt_bonds : list Z; bt_static : option Z;
  bt_tok : token_state; bt_app : App; bt_log : list ble_event }.
Arguments mk_ble {App}.
Arguments bt_link {App}. Arguments bt_queue {App}. Arguments bt_pair_fails {App}. Arguments bt_display {App}.
Arguments bt_name {App}. Arguments bt_timer {App}. Arguments bt_adv {App}. Arguments bt_mitm {App}.
Arguments bt_bonds {App}. Arguments bt_static {App}. Arguments bt_tok {App}. Arguments bt_app {App}. Arguments bt_log {App}.

Section Ble.
Context `{JS : Json} {App : Type}.

Definition on_link (f : ble_link → ble_link) (s : ble_t App) : ble_t App :=
  let '(mk_ble l q p d n t a m b st k ap lg) := s in mk_ble (f l) q p d n t a m b st k ap lg.
Definition set_lines (q : list (list Z)) (s : ble_t App) : ble_t App :=
  let '(mk_ble l _ p d n t a m b st k ap lg) := s in mk_ble l q p d n t a m b st k ap lg.
Definition set_pair_fails (p : Z) (s : ble_t App) : ble_t App :=
  let '(mk_ble l q _ d n t a m b st k ap lg) := s in mk_ble l q p d n t a m b st k ap lg.
Definition set_timer (t : option (option Z)) (s : ble_t App) : ble_t App :=
  let '(mk_ble l q p d n _ a m b st k ap lg) := s in mk_ble l q p d n t a m b st k ap lg.
Definition set_adv (a : bool) (s : ble_t App) : ble_t App :=
  let '(mk_ble l q p d n t _ m b st k ap lg) := s in mk_ble l q p d n t a m b st k ap lg.
Definition set_mitm (m : bool) (s : ble_t App) : ble_t App :=
  let '(mk_ble l q p d n t a _ b st k ap lg) := s in mk_ble l q p d n t a m b st k ap lg.
Definition set_bonds (b : list Z) (s : ble_t App) : ble_t App :=
  let '(mk_ble l q p d n t a m _ st k ap lg) := s in mk_ble l q p d n t a m b st k ap lg.
Definition set_static (st : option Z) (s : ble_t App) : ble_t App :=
  let '(mk_ble l q p d n t a m b _ k ap lg) := s in mk_ble l q p d n t a m b st k ap lg.
Definition set_tok (k : token_state) (s : ble_t App) : ble_t App :=
  let '(mk_ble l q p d n t a m b st _ ap lg) := s in mk_ble l q p d n t a m b st k ap lg.
Definition set_app (ap : App) (s : ble_t App) : ble_t App :=
  let '(mk_ble l q p d n t a m b st k _ lg) := s in mk_ble l q p d n t a m b st k ap lg.
Definition log_event (e : ble_event) (s : ble_t App) : ble_t App :=
  let '(mk_ble l q p d n t a m b st k ap lg) := s in mk_ble l q p d n t a m b st k ap (lg ++ [e]).
Definition set_authed (v : bool) : ble_t App → ble_t App :=
  on_link (λ l, mk_link (bl_conn l) (bl_notify l) v (bl_fails l) (bl_mtu l) (bl_line l)).
Definition set_fails (v : Z) : ble_t App → ble_t App :=
  on_link (λ l, mk_link (bl_conn l) (bl_notify l) (bl_authed l) v (bl_mtu l) (bl_line l)).
Definition set_ble_line (v : list Z) : ble_t App → ble_t App :=
  on_link (λ l, mk_link (bl_conn l) (bl_notify l) (bl_authed l) (bl_fails l) (bl_mtu l) v).

(** ** Sending *)

Definition ble_link_payload_permitted (link_encrypted : bool) : bool := link_encrypted.
(** [enc]: what the stack says of a link; the handle of no connection is not found. *)
Definition conn_is_encrypted (enc : Z → bool) (conn : option Z) : bool :=
  match conn with Some conn => enc conn | None => false end.
(** One attempt at a piece: the allocation failed, or the send's result. *)
Inductive ble_try := TryNoBuffer | TrySend (rc : Z).
(** The [n] bytes at [off] of the text and its newline. *)
Definition chunk_at (text : list Z) (off n : nat) : list Z :=
  let len := length text in
  if (off + n <=? len)%nat then take n (drop off text)
  else if (off <? len)%nat then take (len - off) (drop off text) ++ [10]
  else [10].
Definition max_chunk (mtu : Z) : nat := Z.to_nat (if mtu >? 3 then mtu - 3 else 20).
(** Where a call of [ble_notify_cb] stands: before the test of the connection and the
    subscription, before the test of the link, before the size of the pieces is read,
    or before an attempt at the piece at [off]. *)
Inductive notify_pc := NtConn | NtLink | NtSize | NtSend (max_chunk off attempt : nat).
Record notify_t := mk_notify { nt_pushed : bool; nt_text : list Z; nt_pc : notify_pc }.
Definition notify_call (pushed : bool) (text : list Z) : notify_t := mk_notify pushed text NtConn.
(** One step of the call, [None] when it returns.  Each step reads the connection anew. *)
Definition ble_notify_cb (enc : Z → bool) (t : ble_try) (c : notify_t) (s : ble_t App)
    : option notify_t * ble_t App :=
  let go pc := Some (mk_notify (nt_pushed c) (nt_text c) pc) in
  match nt_pc c with
  | NtConn =>
      (match bl_conn (bt_link s) with
       | Some _ => if bl_notify (bt_link s) then go NtLink else None
       | None => None
       end, s)
  | NtLink => (if ble_link_payload_permitted (conn_is_encrypted enc (bl_conn (bt_link s))) then go NtSize else None, s)
  | NtSize => (go (NtSend (max_chunk (bl_mtu (bt_link s))) 0 0), s)
  | NtSend mc off attempt =>
      let total := S (length (nt_text c)) in
      let n := ((total - off) `min` mc)%nat in
      let again := if (attempt + 1 <? 25)%nat then go (NtSend mc off (attempt + 1)) else None in
      match t with
      | TryNoBuffer => (again, s)
      | TrySend rc =>
          if rc =? BLE_HS_ENOMEM then (again, s)
          else if negb (rc =? 0) then (None, s)
          else (if (off + n <? total)%nat then go (NtSend mc (off + n) 0) else None,
                log_event (BleSent (bl_conn (bt_link s)) (nt_pushed c) (chunk_at (nt_text c) off n)) s)
      end
  end.

(** ** The RPC task *)

(** Whether the line is accepted; the assignment of the flag is the step after. *)
Definition ble_authenticate_first_write (line : list Z) (s : ble_t App) : bool :=
  if auth_disabled (bt_tok s) then true
  else
    let expected := tk_token (bt_tok s) in
    if (length expected =? 0)%nat then false
    else ct_strcmp line expected =? 0.
(** Where the task stands: waiting for a line; before the test of the flag; before the
    dispatch, with what the test said; before the comparison with the token; before the
    flag, or the failure count, is written; inside a notification, that of a refusal or
    not; after the throttling delay; before the disconnection; before the count is reset. *)
Inductive rpc_pc :=
  | RpcWait
  | RpcTest (line : list Z)
  | RpcCall (line : list Z) (authed : bool)
  | RpcToken (line : list Z)
  | RpcAccept | RpcAccepted | RpcRefused
  | RpcReply (c : notify_t) (refused : bool)
  | RpcThrottle | RpcTerminate | RpcReset.
Definition run_method (methods : list (list Z * @handler JS App)) (line : list Z) (authed : bool) (s : ble_t App)
    : rpc_pc * ble_t App :=
  let '(rc, resp, app, ran) := rpc_dispatch_authed methods line BLE_RPC_BUF_SIZE authed (bt_app s) in
  let s := set_app app s in
  let s := match ran with Some m => log_event (BleRan (bl_conn (bt_link s)) m) s | None => s end in
  (if rc >? 0 then RpcReply (notify_call false resp) false else RpcWait, s).
(** One step of the task. *)
Definition ble_rpc_task (methods : list (list Z * @handler JS App)) (enc : Z → bool) (t : ble_try) (pc : rpc_pc)
    (s : ble_t App) : rpc_pc * ble_t App :=
  match pc with
  | RpcWait => match bt_queue s with [] => (RpcWait, s) | msg :: q => (RpcTest (c_string msg), set_lines q s) end
  | RpcTest line =>
      (if negb (bl_authed (bt_link s)) then if hd 0 line =? 123 then RpcCall line false else RpcToken line
       else RpcCall line true, s)
  | RpcCall line authed => run_method methods line authed s
  | RpcToken line => (if negb (ble_authenticate_first_write line s) then RpcRefused else RpcAccept, s)
  | RpcAccept => (RpcAccepted, set_authed true s)
  | RpcAccepted => (RpcReply (notify_call false ok_text) false, set_fails 0 s)
  | RpcRefused => (RpcReply (notify_call false unauthorized_text) true, set_fails (u8 (bl_fails (bt_link s) + 1)) s)
  | RpcReply c refused =>
      let '(c, s) := ble_notify_cb enc t c s in
      (match c with Some c => RpcReply c refused | None => if refused then RpcThrottle else RpcWait end, s)
  | RpcThrottle => (if bl_fails (bt_link s) >=? BLE_AUTH_MAX_FAILS then RpcTerminate else RpcWait, s)
  | RpcTerminate =>
      (RpcReset, match bl_conn (bt_link s) with Some conn => log_event (BleTerminate conn) s | None => s end)
  | RpcReset => (RpcWait, set_fails 0 s)
  end.

(** ** Writes *)

Definition process_ble_byte (s : ble_t App) (c : Z) : ble_t App :=
  let line := bl_line (bt_link s) in
  if (c =? 10) || (c =? 13) then
    if (0 <? length line)%nat then
      let s := if (length line <? BLE_RPC_BUF_SIZE)%nat && (length (bt_queue s) <? RPC_QUEUE_LEN)%nat
               then set_lines (bt_queue s ++ [line]) s else s in
      set_ble_line [] s
    else s
  else if (length line <? BLE_RPC_BUF_SIZE - 1)%nat then set_ble_line (line ++ [c]) s
  else s.
Definition process_ble_data (data : list Z) (s : ble_t App) : ble_t App := foldl process_ble_byte s data.
(** [is_write]: the operation is a write; [flat]: the buffer could be copied out. *)
Definition nus_tx_access (enc : Z → bool) (conn_handle : Z) (is_write flat : bool) (data : list Z) (s : ble_t App) : Z * ble_t App :=
  if negb (ble_link_payload_permitted (enc conn_handle)) then (BLE_ATT_ERR_INSUFFICIENT_AUTHEN, s)
  else if is_write then
    (0, if (0 <? length data)%nat && (length data <? BLE_RPC_BUF_SIZE)%nat && flat then process_ble_data data s else s)
  else (BLE_ATT_ERR_UNLIKELY, s).

(** ** Pairing codes and advertising *)

(** Words of the random source, [None] a failure; at most 16 are tried. *)
Fixpoint random_passkey_loop (n : nat) (words : list (option Z)) : option Z :=
  match n, words with
  | S n, Some r :: words => if r <? 4294000000 then Some (r mod 1000000) else random_passkey_loop n words
  | _, _ => None
  end.
Definition random_passkey (words : list (option Z)) : option Z := random_passkey_loop 16 words.

Definition schedule_adv_retry (s : ble_t App) : ble_t App :=
  match bt_timer s with Some _ => set_timer (Some (Some BLE_ADV_RETRY_MS)) s | None => s end.
(** The results of the three calls that set the fields, the response and start. *)
Definition start_advertising (rcs : Z * Z * Z) (s : ble_t App) : option (ble_t App) :=
  let '(rc_fields, rc_rsp, rc_start) := rcs in
  let name_len := length (bt_name s) in
  adv_name_len ← bramble_utf8_trunc_len (Some (bt_name s)) name_len BLE_ADV_NAME_MAX;
  Some (if negb (rc_fields =? 0) then schedule_adv_retry s
        else if negb (rc_rsp =? 0) then schedule_adv_retry s
        else if negb (rc_start =? 0) && negb (rc_start =? BLE_HS_EALREADY) then schedule_adv_retry s
        else set_adv true (log_event (BleAdvertise (take adv_name_len (bt_name s)) (adv_name_len =? name_len)%nat) s)).
(** The timer fires: it stops, and its callback runs. *)
Definition adv_retry_cb (rcs : Z * Z * Z) (s : ble_t App) : option (ble_t App) :=
  match bt_timer s with
  | Some (Some _) =>
      let s := set_timer (Some None) s in
      match bl_conn (bt_link s) with
      | None => if bt_adv s then Some s else start_advertising rcs s
      | Some _ => Some s
      end
  | _ => Some s
  end.

(** ** Events of a connection *)

Definition hide_code (s : ble_t App) : ble_t App := if bt_display s then log_event (BleShow 0 false) s else s.
Inductive gap_event :=
  | GapConnect (status conn : Z)
  | GapDisconnect
  | GapSubscribe (is_rx cur_notify : bool)
  | GapEncChange (conn status : Z)
  | GapRepeatPairing (peer : option Z)
  | GapPasskey (conn : Z) (display : bool) (words : list (option Z)) (store_ok : bool)
  | GapMtu (value : Z).
Definition gap_event_handler (rcs : Z * Z * Z) (e : gap_event) (s : ble_t App) : option (ble_t App) :=
  match e with
  | GapConnect status conn =>
      let s := set_adv false s in
      if status =? 0
      then Some (on_link (λ l, mk_link (Some conn) (bl_notify l) (auth_disabled (bt_tok s)) (bl_fails l) (bl_mtu l) (bl_line l)) s)
      else start_advertising rcs s
  | GapDisconnect =>
      let s := hide_code (on_link (λ _, link_none) s) in
      let backoff := ble_pairing_backoff_ms (bt_pair_fails s) in
      if backoff =? 0 then start_advertising rcs s
      else match bt_timer s with
           | Some _ => Some (set_timer (Some (Some backoff)) s)
           | None => start_advertising rcs s
           end
  | GapSubscribe is_rx cur_notify =>
      Some (if is_rx then on_link (λ l, mk_link (bl_conn l) cur_notify (bl_authed l) (bl_fails l) (bl_mtu l) (bl_line l)) s else s)
  | GapEncChange conn status =>
      let s := hide_code s in
      Some (if status =? 0 then set_pair_fails 0 s
            else log_event (BleTerminate conn) (set_pair_fails (u32 (bt_pair_fails s + 1)) s))
  | GapRepeatPairing peer =>
      Some (match peer with Some p => set_bonds (filter (λ b, b ≠ p) (bt_bonds s)) s | None => s end)
  | GapPasskey conn display words store_ok =>
      Some (if negb display then log_event (BleTerminate conn) s
            else if bt_display s then
              match random_passkey words with
              | None => log_event (BleTerminate conn) s
              | Some code => log_event (BleInject conn code) (log_event (BleShow code true) s)
              end
            else match ble_pairing_store_get store_ok (bt_static s) with
                 | None => log_event (BleTerminate conn) s
                 | Some code => log_event (BleInject conn code) s
                 end)
  | GapMtu value => Some (on_link (λ l, mk_link (bl_conn l) (bl_notify l) (bl_authed l) (bl_fails l) value (bl_line l)) s)
  end.
(** [ensured]: the address could be set up. *)
Definition on_sync (ensured : bool) (rcs : Z * Z * Z) (s : ble_t App) : option (ble_t App) :=
  if negb ensured then Some s else start_advertising rcs s.

(** ** Configuration *)

Definition apply_pairing_policy (store_ok : bool) (s : ble_t App) : ble_t App :=
  let mode := ble_pairing_mode_resolve (bt_display s)
                (match ble_pairing_store_get store_ok (bt_static s) with Some _ => true | None => false end) in
  set_mitm (match mode with BLE_PAIRING_JUST_WORKS => false | _ => true end) s.
Definition ble_server_wipe_bonds (rc : Z) (s : ble_t App) : Z * ble_t App :=
  if negb (rc =? 0) then (-1, s) else (0, set_bonds [] s).
(** The parameter [passkey]: absent, null, a string, something else. *)
Inductive passkey_param := PkAbsent | PkNull | PkString (v : list Z) | PkOther.
(** Whether the method answered [ok]; [set_ok], [get_ok] whether storage works. *)
Definition handle_set_ble_passkey (pk : passkey_param) (wipe_rc : Z) (set_ok get_ok : bool) (s : ble_t App) : bool * ble_t App :=
  if bt_display s then (false, s) else
  match pk with
  | PkAbsent => (false, s)
  | _ =>
      let clearing := match pk with PkNull | PkString [] => true | _ => false end in
      let value := match pk with PkString v => ble_pairing_passkey_parse v | _ => None end in
      if negb clearing && match value with None => true | Some _ => false end then (false, s) else
      let '(rc, s) := ble_server_wipe_bonds wipe_rc s in
      if negb (rc =? 0) then (false, s) else
      let '(rc, stored) := if clearing then ble_pairing_store_clear set_ok (bt_static s)
                           else ble_pairing_store_set set_ok (default 0 value) (bt_static s) in
      let s := set_static stored s in
      if negb (rc =? 0) then (false, s) else (true, apply_pairing_policy get_ok s)
  end.
(** The name from flash, or [Bramble-] with the low half of the address. *)
Definition hex_upper (v : Z) : Z := if v <? 10 then 48 + v else 55 + v.
Definition set_default_device_name (addr : option Z) : list Z :=
  match addr with
  | Some a => take 31 (str_bytes "Bramble-" ++
      [hex_upper (a / 4096 mod 16); hex_upper (a / 256 mod 16); hex_upper (a / 16 mod 16); hex_upper (a mod 16)])
  | None => str_bytes "Bramble"
  end.
Definition ble_server_init (stored_name : option (list Z)) (addr : option Z) (timer display store_ok : bool)
    (bonds : list Z) (stored : option Z) (tok : token_state) (app : App) : ble_t App :=
  let name := match stored_name with Some ((_ :: _) as n) => n | _ => set_default_device_name addr end in
  apply_pairing_policy store_ok
    (mk_ble link_none [] 0 display name (if timer then Some None else None) false false bonds stored tok app []).
End Ble.

(** ** Steps *)

(** The state the tasks share, where the RPC task stands, and the notifications that
    other tasks are pushing. *)
Record ble_sys (App : Type) := mk_sys { sy_ble : ble_t App; sy_task : rpc_pc; sy_pushes : list notify_t }.
Arguments mk_sys {App}. Arguments sy_ble {App}. Arguments sy_task {App}. Arguments sy_pushes {App}.
Abbreviation conn_of s := (bl_conn (bt_link (sy_ble s))).
Abbreviation authed_of s := (bl_authed (bt_link (sy_ble s))).
Abbreviation tok_of s := (bt_tok (sy_ble s)).
Abbreviation log_of s := (bt_log (sy_ble s)).

Section Steps.
Context `{JS : Json} {App : Type} (methods : list (list Z * @handler JS App)).
Implicit Types (b : ble_t App) (s : ble_sys App).

(** The call up to [ble_notify_cb], which goes on in the task that pushes. *)
Definition ble_notify_transport_cb (text : list Z) s : ble_sys App :=
  if negb (rpc_auth_notify_allowed (authed_of s) (auth_disabled (tok_of s))) then s
  else mk_sys (sy_ble s) (sy_task s) (sy_pushes s ++ [notify_call true text]).
(** A step of the [i]th notification being pushed. *)
Definition push_step (i : nat) (enc : Z → bool) (t : ble_try) s : ble_sys App :=
  match sy_pushes s !! i with
  | None => s
  | Some c =>
      let '(c, b) := ble_notify_cb enc t c (sy_ble s) in
      mk_sys b (sy_task s) (match c with Some c => <[i := c]> (sy_pushes s) | None => delete i (sy_pushes s) end)
  end.

(** A callback of the host, a step of the RPC task or of a task that pushes, with what
    the stack reports; a new token; a pairing code. *)
Inductive ble_op :=
  | BGap (rcs : Z * Z * Z) (e : gap_event)
  | BWrite (enc : Z → bool) (conn : Z) (is_write flat : bool) (data : list Z)
  | BTask (enc : Z → bool) (t : ble_try)
  | BNotify (text : list Z)
  | BPush (i : nat) (enc : Z → bool) (t : ble_try)
  | BTimer (rcs : Z * Z * Z)
  | BSync (ensured : bool) (rcs : Z * Z * Z)
  | BToken (tok : token_state)
  | BPasskey (pk : passkey_param) (wipe_rc : Z) (set_ok get_ok : bool).
(** The steps that leave the RPC task and the notifications where they are. *)
Definition host_run (op : ble_op) b : option (ble_t App) :=
  match op with
  | BGap rcs e => gap_event_handler rcs e b
  | BWrite enc conn is_write flat data => Some (nus_tx_access enc conn is_write flat data b).2
  | BTimer rcs => adv_retry_cb rcs b
  | BSync ensured rcs => on_sync ensured rcs (set_adv false b)
  | BToken tok => Some (set_tok tok b)
  | BPasskey pk wipe_rc set_ok get_ok => Some (handle_set_ble_passkey pk wipe_rc set_ok get_ok b).2
  | BTask _ _ | BNotify _ | BPush _ _ _ => Some b
  end.
(** The host starts anew without advertising. *)
Definition run_ble (op : ble_op) s : option (ble_sys App) :=
  match op with
  | BTask enc t => let '(pc, b) := ble_rpc_task methods enc t (sy_task s) (sy_ble s) in Some (mk_sys b pc (sy_pushes s))
  | BNotify text => Some (ble_notify_transport_cb text s)
  | BPush i enc t => Some (push_step i enc t s)
  | _ => b ← host_run op (sy_ble s); Some (mk_sys b (sy_task s) (sy_pushes s))
  end.
Definition run_all (ops : list ble_op) s : option (ble_sys App) := foldl (λ o op, o ≫= run_ble op) (Some s) ops.
Lemma run_all_snoc ops op s : run_all (ops ++ [op]) s = run_all ops s ≫= run_ble op.
Proof. unfold run_all. by rewrite foldl_app. Qed.

(** Tokens fit their buffer. *)
Definition tok_fits (t : token_state) : Prop := (length (tk_token t) < CT_STRCMP_BOUND)%nat.
Definition op_fits (op : ble_op) : Prop := match op with BToken t => tok_fits t | _ => True end.
(** The step opens or closes a connection. *)
Definition new_link (op : ble_op) : bool :=
  match op with BGap _ (GapConnect 0 _) | BGap _ GapDisconnect => true | _ => false end.
Definition is_task (op : ble_op) : bool := match op with BTask _ _ => true | _ => false end.

(** *** The host *)

(** A connection opens while authentication is off. *)
Definition opens_free (op : ble_op) (tok : token_state) : Prop :=
  match op with BGap _ (GapConnect 0 _) => auth_disabled tok = true | _ => False end.
(** An event that is neither text nor a call. *)
Definition quiet_event (e : ble_event) : Prop := match e with BleSent _ _ _ | BleRan _ _ => False | _ => True end.
(** What a callback does to the connection, the flag, the token and the log. *)
Definition host_step (op : ble_op) b b' : Prop :=
  (bl_authed (bt_link b') = true → opens_free op (bt_tok b) ∨ bl_authed (bt_link b) = true ∧ new_link op = false) ∧
  (new_link op = false → bl_conn (bt_link b') = bl_conn (bt_link b)) ∧
  (tok_fits (bt_tok b) → op_fits op → tok_fits (bt_tok b')) ∧
  ∃ new, bt_log b' = bt_log b ++ new ∧ Forall quiet_event new.

Lemma advertising_total rcs b : ∃ b', start_advertising rcs b = Some b' ∧ bt_link b' = bt_link b ∧ bt_tok b' = bt_tok b ∧
  ∃ new, bt_log b' = bt_log b ++ new ∧ Forall quiet_event new.
Proof.
  destruct rcs as [[r1 r2] r3]. unfold start_advertising.
  destruct (utf8_trunc_len_spec (bt_name b) (length (bt_name b)) BLE_ADV_NAME_MAX) as (r & Hr & _); [lia|]. rewrite Hr. cbn [mbind option_bind].
  eexists. split; [done|]. unfold schedule_adv_retry. destruct b as [l q p d n t a m bo st k ap lg]; cbn [bt_timer bt_name].
  destruct (negb (r1 =? 0)), (negb (r2 =? 0)), (negb (r3 =? 0) && negb (r3 =? BLE_HS_EALREADY)), t; cbn;
    (split; [done|]; split; [done|]);
    first [by (exists []; rewrite app_nil_r; split; [done|constructor])|eexists [_]; split; [done|]; by repeat constructor].
Qed.
(** A step that keeps the log, the token, the connection and the flag. *)
Lemma host_same op b b' : bl_authed (bt_link b') = bl_authed (bt_link b) → bl_conn (bt_link b') = bl_conn (bt_link b) →
  bt_tok b' = bt_tok b → bt_log b' = bt_log b → new_link op = false → host_step op b b'.
Proof.
  intros Ea Ec Et Eg Hn. split_and!; [rewrite Ea; by right|done|by rewrite Et|]. exists []. rewrite Eg, app_nil_r. by split; [|constructor].
Qed.
(** [b0] is [b] before advertising starts. *)
Definition before_adv op b b0 : Prop :=
  (bl_authed (bt_link b0) = true → bl_authed (bt_link b) = true ∧ new_link op = false) ∧
  (new_link op = false → bl_conn (bt_link b0) = bl_conn (bt_link b)) ∧
  bt_tok b0 = bt_tok b ∧ ∃ new, bt_log b0 = bt_log b ++ new ∧ Forall quiet_event new.
Lemma before_steps op b b0 : before_adv op b b0 → host_step op b b0.
Proof. intros (Ha & Hc & Ht & Hn). split_and!; [intros ?; right; by apply Ha|done|by rewrite Ht|done]. Qed.
Lemma advertising_steps op rcs b b0 : before_adv op b b0 → ∃ b', start_advertising rcs b0 = Some b' ∧ host_step op b b'.
Proof.
  intros (Ha & Hc & Ht & new & El & Hf). destruct (advertising_total rcs b0) as (b' & E & L1 & T1 & new' & E1 & F1).
  exists b'. split; [done|]. split_and!; [rewrite L1; intros ?; right; by apply Ha|by rewrite L1|by rewrite T1, Ht|].
  exists (new ++ new'). rewrite E1, El, app_assoc. split; [done|]. by apply Forall_app.
Qed.
Lemma before_events op b b0 new : bt_link b0 = bt_link b → new_link op = false → bt_tok b0 = bt_tok b → bt_log b0 = bt_log b ++ new →
  Forall quiet_event new → before_adv op b b0.
Proof. intros El Hn Et Eg Hf. split_and!; [by rewrite El|by rewrite El|done|by exists new]. Qed.
Ltac quiet_log := first [done|by repeat constructor|cbn; by rewrite ?app_nil_r, <- ?app_assoc].
Lemma gap_steps rcs e b : ∃ b', gap_event_handler rcs e b = Some b' ∧ host_step (BGap rcs e) b b'.
Proof.
  destruct e as [status conn| |rx cur|conn status|peer|conn disp words ok|value]; cbn [gap_event_handler].
  - destruct (Z.eqb_spec status 0) as [->|Hs].
    + eexists. split; [done|]. destruct b. split_and!; cbn; [by left|done|done|]. exists []. rewrite app_nil_r. by split; [|constructor].
    + apply advertising_steps. assert (Hn : new_link (BGap rcs (GapConnect status conn)) = false) by by destruct status.
      apply (before_events _ _ _ []); destruct b; try done; cbn; by rewrite ?app_nil_r.
  - set (b0 := hide_code (on_link (λ _, link_none) b)).
    assert (Hb : before_adv (BGap rcs GapDisconnect) b b0).
    { unfold b0, hide_code. destruct b as [l q p d n t a m bo st k ap lg]. cbn. destruct d; split_and!; cbn; try done; [by eexists; repeat constructor|].
      exists []. rewrite app_nil_r. by split; [|constructor]. }
    destruct (_ =? 0); [by apply advertising_steps|]. destruct (bt_timer b0); [|by apply advertising_steps].
    eexists. split; [done|]. apply before_steps. by destruct b0.
  - eexists. split; [done|]. apply host_same; destruct rx, b; done.
  - eexists. split; [done|]. apply before_steps. destruct b as [l q p d n t a m bo st k ap lg]. unfold hide_code. cbn.
    destruct d, (status =? 0); cbn;
      [apply (before_events _ _ _ [BleShow 0 false])|apply (before_events _ _ _ [BleShow 0 false; BleTerminate conn])
      |apply (before_events _ _ _ [])|apply (before_events _ _ _ [BleTerminate conn])]; quiet_log.
  - eexists. split; [done|]. apply host_same; destruct peer, b; done.
  - eexists. split; [done|]. apply before_steps. destruct b as [l q p d n t a m bo st k ap lg]. cbn -[random_passkey].
    destruct disp; cbn -[random_passkey]; [|apply (before_events _ _ _ [BleTerminate conn]); quiet_log].
    destruct d; cbn -[random_passkey]; [destruct (random_passkey words) as [code|]|destruct (ble_pairing_store_get ok st) as [code|]]; cbn;
      [apply (before_events _ _ _ [BleShow code true; BleInject conn code])|apply (before_events _ _ _ [BleTerminate conn])
      |apply (before_events _ _ _ [BleInject conn code])|apply (before_events _ _ _ [BleTerminate conn])]; quiet_log.
  - eexists. split; [done|]. by apply host_same; destruct b.
Qed.
Lemma byte_same b c : let b' := process_ble_byte b c in
  bl_authed (bt_link b') = bl_authed (bt_link b) ∧ bl_conn (bt_link b') = bl_conn (bt_link b) ∧
  bt_tok b' = bt_tok b ∧ bt_log b' = bt_log b.
Proof. unfold process_ble_byte. destruct b. repeat case_match; done. Qed.
Lemma data_same data b : let b' := process_ble_data data b in
  bl_authed (bt_link b') = bl_authed (bt_link b) ∧ bl_conn (bt_link b') = bl_conn (bt_link b) ∧
  bt_tok b' = bt_tok b ∧ bt_log b' = bt_log b.
Proof.
  unfold process_ble_data. cbv zeta. revert b. induction data as [|c data IH]; intros b; cbn [foldl]; [done|].
  destruct (IH (process_ble_byte b c)) as (-> & -> & -> & ->). apply byte_same.
Qed.
Lemma host_run_spec op b : ∃ b', host_run op b = Some b' ∧ host_step op b b'.
Proof.
  destruct op as [rcs e|enc conn w fl data|enc t|text|i enc t|rcs|ens rcs|tok|pk wipe so go]; cbn [host_run];
    try (by eexists; split; [|apply host_same]).
  - apply gap_steps.
  - eexists. split; [done|]. unfold nus_tx_access. repeat case_match; cbn [snd]; try (by apply host_same).
    destruct (data_same data b) as (? & ? & ? & ?). by apply host_same.
  - unfold adv_retry_cb. destruct (bt_timer b) as [[p|]|]; [|by eexists; split; [|apply host_same]..].
    set (b0 := set_timer (Some None) b). assert (Hb : before_adv (BTimer rcs) b b0).
    { apply (before_events _ _ _ []); destruct b; try done; cbn; by rewrite ?app_nil_r. }
    destruct (bl_conn (bt_link b0)); [by eexists; split; [|apply before_steps]|].
    destruct (bt_adv b0); [by eexists; split; [|apply before_steps]|]. by apply advertising_steps.
  - unfold on_sync. set (b0 := set_adv false b). assert (Hb : before_adv (BSync ens rcs) b b0).
    { apply (before_events _ _ _ []); destruct b; try done; cbn; by rewrite ?app_nil_r. }
    destruct (negb ens); [by eexists; split; [|apply before_steps]|]. by apply advertising_steps.
  - eexists. split; [done|]. destruct b. split_and!; cbn; [by right|done|done|]. exists []. rewrite app_nil_r. by split; [|constructor].
  - eexists. split; [done|]. unfold handle_set_ble_passkey, ble_server_wipe_bonds, apply_pairing_policy. destruct b.
    apply host_same; try done; cbn; repeat (case_match; simplify_eq/=); done.
Qed.

(** *** Notifications and the RPC task *)

(** The line is the token, byte for byte. *)
Definition is_token (t : token_state) (line : list Z) : Prop := tk_token t ≠ [] ∧ bytes_eq line (tk_token t).
Lemma ct_strcmp_sym x y : ct_strcmp x y = ct_strcmp y x.
Proof.
  unfold ct_strcmp. rewrite (Z.lxor_comm (Z.of_nat _)).
  generalize (u8 (Z.lxor (Z.of_nat (length y `min` CT_STRCMP_BOUND)) (Z.of_nat (length x `min` CT_STRCMP_BOUND)))) as d.
  induction (seq 0 CT_STRCMP_BOUND) as [|i l IH]; intros d; cbn [foldl]; [done|]. rewrite IH. do 4 f_equal. apply Z.lxor_comm.
Qed.
Lemma first_write_spec line b : tok_fits (bt_tok b) →
  ble_authenticate_first_write line b = true ↔ auth_disabled (bt_tok b) = true ∨ is_token (bt_tok b) line.
Proof.
  intros Ht. unfold ble_authenticate_first_write, is_token. destruct (auth_disabled (bt_tok b)); [by split; [left|]|].
  destruct (Nat.eqb_spec (length (tk_token (bt_tok b))) 0) as [E|E].
  - apply nil_length_inv in E. rewrite E. naive_solver.
  - assert (tk_token (bt_tok b) ≠ []) by (by intros E0; rewrite E0 in E).
    rewrite ct_strcmp_sym, Z.eqb_eq, ct_strcmp_spec by done. split; [intros ?; right; by split|intros [?|[_ ?]]; [done|by symmetry]].
Qed.

(** The test of the link is behind the call. *)
Definition past_check (c : notify_t) : bool := match nt_pc c with NtSize | NtSend _ _ _ => true | _ => false end.
(** [b'] differs from [b] in its log, by events that are [J]. *)
Definition logs (J : ble_event → Prop) b b' : Prop :=
  bt_link b' = bt_link b ∧ bt_tok b' = bt_tok b ∧ ∃ new, bt_log b' = bt_log b ++ new ∧ Forall J new.
Lemma logs_refl J b : logs J b b.
Proof. split_and!; try done. exists []. rewrite app_nil_r. by split; [|constructor]. Qed.
Lemma logs_event (J : ble_event → Prop) e b : J e → logs J b (log_event e b).
Proof. intros He. destruct b. split_and!; try done. exists [e]. by repeat constructor. Qed.
(** A piece of the call's text, sent to the client connected. *)
Definition piece_of (c : notify_t) (conn : option Z) (e : ble_event) : Prop :=
  ∃ off n, e = BleSent conn (nt_pushed c) (chunk_at (nt_text c) off n).
Definition call_next (enc : Z → bool) (conn : option Z) (c c' : notify_t) : Prop :=
  nt_pushed c' = nt_pushed c ∧ nt_text c' = nt_text c ∧
  (past_check c' = true → past_check c = true ∨ nt_pc c = NtLink ∧ ∃ peer, conn = Some peer ∧ enc peer = true).
Lemma notify_cb_step enc t c b : let '(c', b') := ble_notify_cb enc t c b in
  logs (λ e, past_check c = true ∧ piece_of c (bl_conn (bt_link b)) e) b b' ∧
  (∀ c1, c' = Some c1 → call_next enc (bl_conn (bt_link b)) c c1).
Proof.
  destruct c as [pu text pc]. unfold ble_notify_cb, call_next. cbn [nt_pc nt_pushed nt_text].
  destruct pc as [| | |mc off at0].
  - split; [apply logs_refl|]. intros c1. repeat case_match; try done. by intros [= <-].
  - split; [apply logs_refl|]. intros c1. unfold conn_is_encrypted, ble_link_payload_permitted.
    destruct (bl_conn (bt_link b)) as [peer|] eqn:Ec; [|done]. destruct (enc peer) eqn:Ee; [|done]. intros [= <-].
    split_and!; try done. intros _. right. split; [done|]. by exists peer.
  - split; [apply logs_refl|]. intros c1 [= <-]. split_and!; try done. by left.
  - assert (Hgo : ∀ x c1 (k : bool), (if k then Some (mk_notify pu text (NtSend mc x.1 x.2)) else None) = Some c1 →
      nt_pushed c1 = pu ∧ nt_text c1 = text ∧ (past_check c1 = true → past_check (mk_notify pu text (NtSend mc off at0)) = true ∨ False)).
    { intros x c1 [] [= <-]. split_and!; try done. by left. }
    assert (Hnext : ∀ x c1 (k : bool), (if k then Some (mk_notify pu text (NtSend mc x.1 x.2)) else None) = Some c1 →
      nt_pushed c1 = pu ∧ nt_text c1 = text ∧ (past_check c1 = true → past_check (mk_notify pu text (NtSend mc off at0)) = true ∨
        NtSend mc off at0 = NtLink ∧ ∃ peer, bl_conn (bt_link b) = Some peer ∧ enc peer = true)).
    { intros x c1 k E. apply Hgo in E as (? & ? & E). split_and!; try done. intros ?. left. by destruct E. }
    destruct t as [|rc]; [split; [apply logs_refl|]; intros c1; apply (Hnext (off, (at0 + 1)%nat))|].
    destruct (rc =? BLE_HS_ENOMEM); [split; [apply logs_refl|]; intros c1; apply (Hnext (off, (at0 + 1)%nat))|].
    destruct (negb (rc =? 0)); [by split; [apply logs_refl|]|].
    split; [apply logs_event; split; [done|]; by eexists _, _|]. intros c1. apply (Hnext ((off + (S (length text) - off) `min` mc)%nat, 0%nat)).
Qed.

(** The call [op] runs a step of. *)
Definition runs (op : ble_op) s (c : notify_t) : Prop :=
  match op with
  | BTask _ _ => ∃ refused, sy_task s = RpcReply c refused
  | BPush i _ _ => sy_pushes s !! i = Some c
  | _ => False
  end.
Definition op_enc (op : ble_op) : Z → bool :=
  match op with BWrite enc _ _ _ _ | BTask enc _ | BPush _ enc _ => enc | _ => λ _, false end.

(** *** Histories *)

Section Histories.
Variable s0 : ble_sys App.

(** In the history [ops] the step [op], taken in the state [s] after [pre] and before
    [post], was [P]. *)
Definition earlier (ops : list ble_op) (P : list ble_op → ble_op → ble_sys App → list ble_op → Prop) : Prop :=
  ∃ pre op post s, ops = pre ++ op :: post ∧ run_all pre s0 = Some s ∧ P pre op s post.
Lemma earlier_now ops op s (P : _ → _ → _ → _ → Prop) : run_all ops s0 = Some s → P ops op s [] → earlier (ops ++ [op]) P.
Proof. intros Hr HP. by exists ops, op, [], s. Qed.
Lemma earlier_more ops op (P P' : _ → _ → _ → _ → Prop) : earlier ops P →
  (∀ pre o s post, P pre o s post → P' pre o s (post ++ [op])) → earlier (ops ++ [op]) P'.
Proof.
  intros (pre & o & post & s & -> & Hr & HP) Hp. exists pre, o, (post ++ [op]), s. rewrite <- app_assoc. split_and!; try done. by apply Hp.
Qed.

(** The task's last step found its line to be the token in force, or authentication off. *)
Definition accepted (ops : list ble_op) : Prop := earlier ops (λ _ op s post,
  is_task op = true ∧ Forall (λ o, is_task o = false) post ∧
  ∃ line, sy_task s = RpcToken line ∧ (auth_disabled (tok_of s) = true ∨ is_token (tok_of s) line)).
(** Since a connection last opened or closed, the flag was set for an accepted line; or
    authentication was off when it opened. *)
Definition admitted_since (ops : list ble_op) : Prop := earlier ops (λ pre op s post,
  Forall (λ o, new_link o = false) post ∧
  (opens_free op (tok_of s) ∨ is_task op = true ∧ sy_task s = RpcAccept ∧ accepted pre)).
(** The task's last step tested the flag for this line, and the client then connected
    was admitted. *)
Definition tested (ops : list ble_op) (line : list Z) : Prop := earlier ops (λ pre op s post,
  is_task op = true ∧ Forall (λ o, is_task o = false) post ∧ sy_task s = RpcTest line ∧ admitted_since pre).
(** The call found the link of the client then connected encrypted, and [conn] is that
    client, or a connection opened or closed since. *)
Definition link_checked (ops : list ble_op) (c : notify_t) (conn : option Z) : Prop := earlier ops (λ _ op s post,
  ∃ peer, runs op s (mk_notify (nt_pushed c) (nt_text c) NtLink) ∧ conn_of s = Some peer ∧ op_enc op peer = true ∧
    (conn = Some peer ∨ Exists (λ o, new_link o = true) post)).
(** When the text was pushed the client connected was admitted, or authentication off. *)
Definition push_permitted (ops : list ble_op) (text : list Z) : Prop := earlier ops (λ pre op s _,
  op = BNotify text ∧ (admitted_since pre ∨ auth_disabled (tok_of s) = true)).

Lemma Forall_snoc_2 {A} (P : A → Prop) l x : Forall P l → P x → Forall P (l ++ [x]).
Proof. intros ? ?. apply Forall_app. split; [done|]. by constructor. Qed.
Lemma accepted_more ops op : accepted ops → is_task op = false → accepted (ops ++ [op]).
Proof. intros H Hn. eapply earlier_more; [exact H|]. cbv beta. intros pre o s post (? & ? & ?). split_and!; try done. by apply Forall_snoc_2. Qed.
Lemma admitted_more ops op : admitted_since ops → new_link op = false → admitted_since (ops ++ [op]).
Proof. intros H Hn. eapply earlier_more; [exact H|]. cbv beta. intros pre o s post (? & ?). split; [|done]. by apply Forall_snoc_2. Qed.
Lemma tested_more ops op line : tested ops line → is_task op = false → tested (ops ++ [op]) line.
Proof. intros H Hn. eapply earlier_more; [exact H|]. cbv beta. intros pre o s post (? & ? & ? & ?). split_and!; try done. by apply Forall_snoc_2. Qed.
Lemma permitted_more ops op text : push_permitted ops text → push_permitted (ops ++ [op]) text.
Proof. intros H. eapply earlier_more; [exact H|]. by cbv beta. Qed.
Lemma checked_more ops op c conn conn' : link_checked ops c conn → (new_link op = false → conn' = conn) →
  link_checked (ops ++ [op]) c conn'.
Proof.
  intros H Hc. eapply earlier_more; [exact H|]. cbv beta. intros pre o s post (peer & ? & ? & ? & Hp). exists peer. split_and!; try done.
  destruct Hp as [Hp|Hp]; [|right; apply Exists_app; by left]. destruct (new_link op) eqn:En; [right; apply Exists_app; right; by constructor|left].
  by rewrite Hc.
Qed.

(** What is known of a call under way, and of where the task stands. *)
Definition call_ok (ops : list ble_op) (conn : option Z) (c : notify_t) : Prop :=
  (nt_pushed c = true → push_permitted ops (nt_text c)) ∧ (past_check c = true → link_checked ops c conn).
Definition task_ok (ops : list ble_op) (conn : option Z) (pc : rpc_pc) : Prop :=
  match pc with
  | RpcAccept => accepted ops
  | RpcCall line true => tested ops line
  | RpcReply c _ => nt_pushed c = false ∧ call_ok ops conn c
  | _ => True
  end.
Definition good (ops : list ble_op) s : Prop :=
  tok_fits (tok_of s) ∧ (authed_of s = true → admitted_since ops) ∧ task_ok ops (conn_of s) (sy_task s) ∧
  Forall (call_ok ops (conn_of s)) (sy_pushes s).
(** What an event at the step [op] in the state [s] after the history [ops] shows. *)
Definition ble_justified (ops : list ble_op) (op : ble_op) s (e : ble_event) : Prop :=
  match e with
  | BleSent conn pushed chunk =>
      conn = conn_of s ∧ ∃ c, runs op s c ∧ nt_pushed c = pushed ∧ piece_of c conn e ∧ link_checked ops c conn ∧
        (pushed = true → push_permitted ops (nt_text c))
  | BleRan conn m => conn = conn_of s ∧ (m ∈ k_unauth_allowlist ∨ ∃ line, sy_task s = RpcCall line true ∧ tested ops line)
  | _ => True
  end.

Lemma call_ok_more ops op conn conn' c : call_ok ops conn c → (new_link op = false → conn' = conn) → call_ok (ops ++ [op]) conn' c.
Proof. intros [Hp Hl] Hc. split; [intros ?; by apply permitted_more, Hp|intros ?; by eapply checked_more; [apply Hl|]]. Qed.
Lemma task_ok_more ops op conn conn' pc : task_ok ops conn pc → is_task op = false → (new_link op = false → conn' = conn) →
  task_ok (ops ++ [op]) conn' pc.
Proof.
  intros H Ht Hc. destruct pc as [|l|l []|l| | | |c r| | |]; cbn in *; try done.
  - by apply tested_more.
  - by apply accepted_more.
  - destruct H. split; [done|]. by eapply call_ok_more.
Qed.
Lemma pushes_more ops op conn conn' l : Forall (call_ok ops conn) l → (new_link op = false → conn' = conn) →
  Forall (call_ok (ops ++ [op]) conn') l.
Proof. intros H Hc. eapply Forall_impl; [exact H|]. intros c ?. by eapply call_ok_more. Qed.
Lemma call_ok_next ops op s c c' : run_all ops s0 = Some s → runs op s c → new_link op = false → call_ok ops (conn_of s) c →
  call_next (op_enc op) (conn_of s) c c' → call_ok (ops ++ [op]) (conn_of s) c'.
Proof.
  intros Hr Hc Hn [Hp Hl] (Ep & Et & Hk). split; [rewrite Ep, Et; intros ?; by apply permitted_more, Hp|].
  intros Hpast. destruct (Hk Hpast) as [Hold|(Hpc & peer & Hpeer & He)].
  - unfold link_checked in *. rewrite Ep, Et. by eapply checked_more; [apply Hl|].
  - eapply earlier_now; [exact Hr|]. cbv beta. exists peer. rewrite Ep, Et. split_and!; try done; [|by left].
    destruct c as [pu tx pc]. cbn in *. by subst.
Qed.
(** The pieces a call sends in a step are justified. *)
Lemma pieces_justified ops op s c b' : runs op s c → call_ok ops (conn_of s) c →
  logs (λ e, past_check c = true ∧ piece_of c (conn_of s) e) (sy_ble s) b' →
  ∃ new, bt_log b' = log_of s ++ new ∧ Forall (ble_justified ops op s) new.
Proof.
  intros Hc [Hp Hl] (_ & _ & new & E & Hf). exists new. split; [done|]. eapply Forall_impl; [exact Hf|].
  intros e [Hpast Hpc]. pose proof Hpc as (off & n & ->). cbn. split; [done|]. exists c. split_and!; try done; [by apply Hl].
Qed.

(** The step keeps what is known, and its events are justified. *)
Definition step_ok (ops : list ble_op) (op : ble_op) s s' : Prop :=
  good (ops ++ [op]) s' ∧ ∃ new, log_of s' = log_of s ++ new ∧ Forall (ble_justified ops op s) new.
Lemma task_moves ops enc t s b pc (op := BTask enc t) : good ops s →
  bl_authed (bt_link b) = authed_of s → bl_conn (bt_link b) = conn_of s → bt_tok b = tok_of s →
  (∃ new, bt_log b = log_of s ++ new ∧ Forall (ble_justified ops op s) new) → task_ok (ops ++ [op]) (conn_of s) pc →
  step_ok ops op s (mk_sys b pc (sy_pushes s)).
Proof.
  intros (Ht & Ha & _ & Hp) Ea Ec Et Hl Hpc. split; [|exact Hl]. unfold good. cbn [sy_ble sy_task sy_pushes]. rewrite Ea, Ec, Et.
  split_and!; try done; [intros ?; by apply admitted_more, eq_refl; apply Ha|by eapply pushes_more].
Qed.
Lemma log_same ops op s b : bt_log b = log_of s → ∃ new, bt_log b = log_of s ++ new ∧ Forall (ble_justified ops op s) new.
Proof. intros ->. exists []. rewrite app_nil_r. by split; [|constructor]. Qed.
Lemma log_one ops op s e : ble_justified ops op s e → ∃ new, bt_log (log_event e (sy_ble s)) = log_of s ++ new ∧ Forall (ble_justified ops op s) new.
Proof. intros He. exists [e]. split; [by destruct (sy_ble s)|by repeat constructor]. Qed.
Lemma call_ok_new ops conn text : call_ok ops conn (notify_call false text).
Proof. by split. Qed.

(** The dispatch. *)
Lemma call_step ops enc t s line authed (op := BTask enc t) : good ops s → sy_task s = RpcCall line authed →
  let '(pc, b) := run_method methods line authed (sy_ble s) in step_ok ops op s (mk_sys b pc (sy_pushes s)).
Proof.
  intros Hg Hpc. unfold run_method.
  destruct (rpc_dispatch_authed methods line BLE_RPC_BUF_SIZE authed (bt_app (sy_ble s))) as [[[rc resp] app] ran] eqn:E.
  apply dispatch_ran in E as [Hran _]. pose proof Hg as (_ & _ & Hk & _). rewrite Hpc in Hk.
  assert (Hlog : ∀ m, ran = Some m → ble_justified ops op s (BleRan (conn_of s) m)).
  { intros m ->. split; [done|]. destruct (Hran m eq_refl) as [->|Hm]; [right; by exists line|by left]. }
  assert (Htask : task_ok (ops ++ [op]) (conn_of s) (if rc >? 0 then RpcReply (notify_call false resp) false else RpcWait)).
  { destruct (rc >? 0); [|done]. split; [done|apply call_ok_new]. }
  apply task_moves; [done| | | | |exact Htask]; destruct (sy_ble s) eqn:Es; destruct ran as [m|]; try done; cbn.
  - exists [BleRan (bl_conn bt_link0) m]. split; [done|]. constructor; [|constructor]. exact (Hlog m eq_refl).
  - exists []. by rewrite app_nil_r.
Qed.
Ltac task_quiet s := apply task_moves; [done|by destruct (sy_ble s)|by destruct (sy_ble s)|by destruct (sy_ble s)|apply log_same; by destruct (sy_ble s)|].
Lemma task_step ops enc t s (op := BTask enc t) : run_all ops s0 = Some s → good ops s →
  let '(pc, b) := ble_rpc_task methods enc t (sy_task s) (sy_ble s) in step_ok ops op s (mk_sys b pc (sy_pushes s)).
Proof.
  intros Hr Hg. pose proof Hg as (Htok & Ha & Hk & _). destruct (sy_task s) as [|line|line au|line| | | |c refused| | |] eqn:Epc; cbn [ble_rpc_task].
  - destruct (bt_queue (sy_ble s)) as [|msg q]; by task_quiet s.
  - apply task_moves; try done; [by apply log_same|]. destruct (authed_of s) eqn:Eau; cbn [negb]; [|by case_match].
    eapply earlier_now; [exact Hr|]. cbv beta. split_and!; try done. by apply Ha.
  - by apply call_step.
  - apply task_moves; try done; [by apply log_same|]. destruct (ble_authenticate_first_write line (sy_ble s)) eqn:Ew; cbn [negb]; [|done].
    apply first_write_spec in Ew; [|done]. eapply earlier_now; [exact Hr|]. cbv beta. split_and!; try done. by exists line.
  - assert (Hadm : admitted_since (ops ++ [op])).
    { eapply earlier_now; [exact Hr|]. cbv beta. split; [done|]. by right. }
    destruct Hg as (_ & _ & _ & Hp). split; [|apply log_same; by destruct (sy_ble s)]. destruct s as [b pc l]. cbn in *.
    unfold good. cbn. split_and!; try done; [by destruct b|]. eapply pushes_more; [exact Hp|]. intros _. by destruct b.
  - task_quiet s. split; [done|apply call_ok_new].
  - task_quiet s. split; [done|apply call_ok_new].
  - destruct Hk as [Hpu Hc]. assert (Hrun : runs op s c) by by exists refused.
    pose proof (notify_cb_step enc t c (sy_ble s)) as Hs. destruct (ble_notify_cb enc t c (sy_ble s)) as [c' b']. destruct Hs as [Hlog Hnext].
    pose proof (pieces_justified ops op s c b' Hrun Hc Hlog) as Hj. destruct Hlog as (El & Et & _).
    apply task_moves; [done|by rewrite El|by rewrite El|done|done|]. destruct c' as [c'|]; [|by destruct refused].
    specialize (Hnext c' eq_refl). split; [by rewrite (proj1 Hnext)|]. by eapply call_ok_next.
  - apply task_moves; try done; [by apply log_same|]. by case_match.
  - destruct (conn_of s) as [conn|] eqn:Ec; [|apply task_moves; try done; by apply log_same].
    apply task_moves; [done|by destruct (sy_ble s)|by destruct (sy_ble s)|by destruct (sy_ble s)|by apply log_one|done].
  - by task_quiet s.
Qed.
Lemma ble_step ops op s : run_all ops s0 = Some s → good ops s → op_fits op → ∃ s', run_ble op s = Some s' ∧ step_ok ops op s s'.
Proof.
  intros Hr Hg Ho. pose proof Hg as (Htok & Ha & Hk & Hp).
  assert (Hhost : is_task op = false → ∃ b, host_run op (sy_ble s) = Some b ∧ step_ok ops op s (mk_sys b (sy_task s) (sy_pushes s))).
  { intros Hn. destruct (host_run_spec op (sy_ble s)) as (b & E & H1 & H2 & H3 & new & El & Hf). exists b. split; [done|].
    split; [|exists new; split; [done|]; eapply Forall_impl; [exact Hf|]; by intros []].
    split_and!; cbn [sy_ble sy_task sy_pushes]; [by apply H3| |by eapply task_ok_more|by eapply pushes_more].
    intros [Hop|[Hau Hnl]]%H1; [|by apply admitted_more; [apply Ha|]]. eapply earlier_now; [exact Hr|]. cbv beta. split; [done|by left]. }
  destruct op as [rcs e|enc conn w fl data|enc t|text|i enc t|rcs|ens rcs|tok|pk wipe so go]; cbn [run_ble];
    try (destruct Hhost as (b & -> & Hs); [done|]; by eexists).
  - pose proof (task_step ops enc t s Hr Hg) as Hs. destruct (ble_rpc_task methods enc t (sy_task s) (sy_ble s)) as [pc b]. by eexists.
  - eexists. split; [done|]. destruct Hhost as (b & [= <-] & Hs); [done|]. unfold ble_notify_transport_cb.
    destruct (rpc_auth_notify_allowed (authed_of s) (auth_disabled (tok_of s))) eqn:Eok; cbn [negb]; [|by destruct s].
    destruct Hs as [(H1 & H2 & H3 & H4) Hlog]. split; [|done]. split_and!; try done. cbn [sy_pushes]. apply Forall_snoc_2; [done|].
    split; [|done]. intros _. eapply earlier_now; [exact Hr|]. cbv beta. split; [done|].
    unfold rpc_auth_notify_allowed in Eok. apply orb_true_iff in Eok as [Eok|Eok]; [left; by apply Ha|by right].
  - eexists. split; [done|]. destruct Hhost as (b & [= <-] & Hs); [done|]. unfold push_step.
    destruct (sy_pushes s !! i) as [c|] eqn:Ei; [|by destruct s]. set (op := BPush i enc t) in *.
    assert (Hrun : runs op s c) by done. pose proof (Forall_lookup_1 _ _ _ _ Hp Ei) as Hc.
    pose proof (notify_cb_step enc t c (sy_ble s)) as Hn. destruct (ble_notify_cb enc t c (sy_ble s)) as [c' b']. destruct Hn as [Hlog Hnext].
    pose proof (pieces_justified ops op s c b' Hrun Hc Hlog) as Hj. destruct Hlog as (El & Et & _), Hs as [(H1 & H2 & H3 & H4) _].
    split; [|exact Hj]. unfold good. cbn [sy_ble sy_task sy_pushes]. rewrite El, Et. split_and!; try done.
    destruct c' as [c'|]; [|by apply Forall_delete]. apply Forall_insert; [done|]. by eapply call_ok_next; [..|apply Hnext].
Qed.
Lemma history_ok ops : bt_link (sy_ble s0) = link_none → tok_fits (tok_of s0) → sy_task s0 = RpcWait → sy_pushes s0 = [] →
  Forall op_fits ops → ∃ s, run_all ops s0 = Some s ∧ good ops s.
Proof.
  intros Hl Ht Hk Hp Hf. induction ops as [|op ops IH] using rev_ind.
  { exists s0. split; [done|]. unfold good. rewrite Hl, Hk, Hp. by split_and!. }
  apply Forall_app in Hf as [Hf Ho]. inv_Forall. destruct (IH Hf) as (s & Hr & Hg).
  destruct (ble_step ops op s Hr Hg) as (s' & Hs & Hok & _); [done|]. exists s'. by rewrite run_all_snoc, Hr.
Qed.

(** C39. Access over Bluetooth is proven access.  From a start without a client, through any
    order of the host's callbacks (each taken whole), the steps of the RPC task, those of
    the tasks that push notifications, and new tokens and pairing codes, every step
    returns, and:
    a method outside the allowlist runs only if the client connected when the task
    tested the flag for its line was admitted, that is, since it connected the task set
    the flag after finding a queued line to be the token then in force, byte for byte,
    or authentication was off;
    a piece of text goes to the client connected when it is sent, belongs to a call that
    found the link of the client then connected encrypted, and goes to that client
    unless a connection opened or closed in between;
    the text of a notification was pushed while the client then connected was admitted,
    or authentication was off. *)
Theorem bluetooth_access_proven ops op :
  bt_link (sy_ble s0) = link_none → tok_fits (tok_of s0) → sy_task s0 = RpcWait → sy_pushes s0 = [] →
  Forall op_fits ops → op_fits op →
  ∃ s s' new, run_all ops s0 = Some s ∧ run_ble op s = Some s' ∧ log_of s' = log_of s ++ new ∧
    Forall (ble_justified ops op s) new.
Proof.
  intros Hl Ht Hk Hp Hf Ho. destruct (history_ok ops Hl Ht Hk Hp Hf) as (s & Hr & Hg).
  destruct (ble_step ops op s Hr Hg Ho) as (s' & Hs & _ & new & El & Hnew). by exists s, s', new.
Qed.
End Histories.

(** ** What outlives a connection *)

Lemma line_accumulates data b : Forall (λ c, c ≠ 10 ∧ c ≠ 13) data → (length (bl_line (bt_link b)) + length data < BLE_RPC_BUF_SIZE)%nat →
  process_ble_data data b = set_ble_line (bl_line (bt_link b) ++ data) b.
Proof.
  intros Hd. revert b. induction Hd as [|c data [Hn Hr] _ IH]; intros b Hl; [destruct b as [[co no au fa mt li] q p d n t a m bo st k ap lg]; cbn; by rewrite app_nil_r|].
  cbn [process_ble_data foldl]. cbn [length] in Hl. unfold process_ble_byte at 2.
  rewrite (proj2 (Z.eqb_neq c 10) Hn), (proj2 (Z.eqb_neq c 13) Hr). cbn [orb]. rewrite (proj2 (Nat.ltb_lt _ _)) by lia.
  change (foldl process_ble_byte ?b data) with (process_ble_data data b). destruct b as [[co no au fa mt li] q p d n t a m bo st k ap lg]. cbn [set_ble_line on_link bt_link bl_line] in *.
  rewrite IH; cbn [bt_link bl_line]; rewrite <- ?app_assoc; [done|]. rewrite length_app. cbn [length]. lia.
Qed.
Lemma c_string_plain l : Forall (λ c, c ≠ 0) l → c_string l = l.
Proof. induction 1 as [|c l Hc _ IH]; cbn; [done|]. rewrite (proj2 (Z.eqb_neq c 0) Hc). by rewrite IH. Qed.
Lemma advertising_queue rcs b : ∃ b', start_advertising rcs b = Some b' ∧ bt_queue b' = bt_queue b ∧ bt_tok b' = bt_tok b.
Proof.
  destruct rcs as [[r1 r2] r3]. unfold start_advertising.
  destruct (utf8_trunc_len_spec (bt_name b) (length (bt_name b)) BLE_ADV_NAME_MAX) as (r & Hr & _); [lia|]. rewrite Hr. cbn [mbind option_bind].
  eexists. split; [done|]. unfold schedule_adv_retry. destruct b. repeat case_match; done.
Qed.
Lemma disconnect_keeps_queue rcs b : ∃ b', gap_event_handler rcs GapDisconnect b = Some b' ∧
  bt_queue b' = bt_queue b ∧ bt_tok b' = bt_tok b.
Proof.
  cbn [gap_event_handler]. set (b1 := hide_code _). assert (H1 : bt_queue b1 = bt_queue b ∧ bt_tok b1 = bt_tok b).
  { unfold b1, hide_code. destruct b. cbn. by case_match. }
  destruct H1 as [H1 H2]. destruct (advertising_queue rcs b1) as (b2 & E2 & Hq & Ht).
  destruct (_ =? 0); [exists b2; split; [done|]; by rewrite Hq, Ht|]. destruct (bt_timer b1); [|exists b2; split; [done|]; by rewrite Hq, Ht].
  eexists. split; [done|]. by destruct b1.
Qed.
(** After a client leaves and another arrives. *)
Lemma reconnect_spec rcs rcs' next s : ∃ b, 
  run_all [BGap rcs GapDisconnect; BGap rcs' (GapConnect 0 next)] s = Some (mk_sys b (sy_task s) (sy_pushes s)) ∧
  bt_queue b = bt_queue (sy_ble s) ∧ bt_tok b = tok_of s ∧ bl_conn (bt_link b) = Some next ∧
  bl_authed (bt_link b) = auth_disabled (tok_of s).
Proof.
  destruct (disconnect_keeps_queue rcs (sy_ble s)) as (b2 & E & Hq & Ht). unfold run_all. cbn [foldl mbind option_bind run_ble host_run].
  rewrite E. cbn [mbind option_bind sy_ble sy_task sy_pushes run_ble host_run gap_event_handler Z.eqb]. eexists. split; [done|].
  rewrite <- Hq, <- Ht. by destruct b2.
Qed.
Lemma run_all_app ops ops' s : run_all (ops ++ ops') s = run_all ops s ≫= run_all ops'.
Proof.
  unfold run_all. rewrite foldl_app. destruct (foldl _ (Some s) ops) as [s'|]; [done|]. cbn [mbind option_bind].
  induction ops' as [|op ops' IH]; [done|exact IH].
Qed.
Lemma run_all_cons op ops s : run_all (op :: ops) s = run_ble op s ≫= run_all ops.
Proof. exact (run_all_app [op] ops s). Qed.
(** Steps of the task leave the connection, and do not take the flag back. *)
Lemma task_keeps enc t s : ∃ s', run_ble (BTask enc t) s = Some s' ∧ conn_of s' = conn_of s ∧ (authed_of s = true → authed_of s' = true).
Proof.
  destruct s as [b pc l]. cbn [run_ble sy_task sy_ble sy_pushes].
  assert (Hk : let '(pc', b') := ble_rpc_task methods enc t pc b in
    bl_conn (bt_link b') = bl_conn (bt_link b) ∧ (bl_authed (bt_link b) = true → bl_authed (bt_link b') = true)).
  { destruct pc as [|line|line au|line| | | |c refused| | |]; cbn [ble_rpc_task]; try done; try (by destruct b).
    - destruct (bt_queue b); [done|by destruct b].
    - unfold run_method. destruct (rpc_dispatch_authed _ _ _ _ _) as [[[rc resp] app] [m|]]; by destruct b.
    - pose proof (notify_cb_step enc t c b) as Hs. destruct (ble_notify_cb enc t c b) as [c' b']. destruct Hs as [(-> & _) _]. done.
    - assert (Hb : ∀ e, bt_link (log_event e b) = bt_link b) by by destruct b.
      destruct (bl_conn (bt_link b)) eqn:E; by rewrite ?Hb, ?E. }
  destruct (ble_rpc_task methods enc t pc b) as [pc' b']. by eexists.
Qed.
Lemma tasks_keep enc t k s : ∃ s', run_all (replicate k (BTask enc t)) s = Some s' ∧ conn_of s' = conn_of s ∧
  (authed_of s = true → authed_of s' = true).
Proof.
  revert s. induction k as [|k IH]; intros s; [by exists s|]. destruct (task_keeps enc t s) as (s1 & E1 & C1 & A1).
  destruct (IH s1) as (s2 & E2 & C2 & A2). exists s2. split_and!; [|congruence|auto].
  cbn [replicate]. rewrite run_all_cons, E1. done.
Qed.
(** A character a token is made of. *)
Definition token_char (c : Z) : Prop := 32 < c < 123.
(** The steps of the task from waiting to the flag. *)
Lemma token_line_accepted enc t line b l : bt_queue b = [line] → bl_authed (bt_link b) = false → tok_fits (bt_tok b) →
  Forall token_char line → is_token (bt_tok b) line →
  run_all (replicate 4 (BTask enc t)) (mk_sys b RpcWait l) = Some (mk_sys (set_authed true (set_lines [] b)) RpcAccepted l).
Proof.
  intros Hq Ha Hfit Hchars Htok. unfold run_all. cbn [replicate foldl mbind option_bind run_ble sy_task sy_ble sy_pushes ble_rpc_task].
  rewrite Hq. cbn [mbind option_bind run_ble sy_task sy_ble sy_pushes ble_rpc_task].
  rewrite c_string_plain by (eapply Forall_impl; [exact Hchars|]; unfold token_char; intros; lia).
  assert (Ha' : bl_authed (bt_link (set_lines [] b)) = false) by by destruct b. rewrite Ha'. cbn [negb].
  assert (Hh : (hd 0 line =? 123) = false).
  { apply Z.eqb_neq. destruct Hchars as [|c cs Hch _]; [done|]. unfold token_char in Hch. cbn. lia. }
  rewrite Hh. cbn [mbind option_bind run_ble sy_task sy_ble sy_pushes ble_rpc_task].
  rewrite (proj2 (first_write_spec line (set_lines [] b) ltac:(by destruct b)) ltac:(right; by destruct b)). done.
Qed.

(** C40. A client sends the token and drops its connection; the next client, having sent
    nothing, is authenticated when the task gets to the line, and stays so: the queue is
    not emptied when a connection closes. *)
Theorem queued_token_admits_next_client rcs enc t first next k s :
  conn_of s = Some first → bl_line (bt_link (sy_ble s)) = [] → bt_queue (sy_ble s) = [] → sy_task s = RpcWait → enc first = true →
  auth_disabled (tok_of s) = false → tk_token (tok_of s) ≠ [] → tok_fits (tok_of s) → Forall token_char (tk_token (tok_of s)) →
  ∃ s', run_all ([BWrite enc first true true (tk_token (tok_of s) ++ [10]); BGap rcs GapDisconnect; BGap rcs (GapConnect 0 next)] ++
                 replicate (4 + k) (BTask enc t)) s = Some s' ∧
    conn_of s' = Some next ∧ authed_of s' = true.
Proof.
  intros Hc Hline Hq Hw He Hd Hne Hfit Hchars. destruct s as [b pc l]. cbn [sy_ble sy_task sy_pushes] in *. subst pc.
  set (tok := tk_token (bt_tok b)) in *.
  assert (Hwr : (nus_tx_access enc first true true (tok ++ [10]) b).2 = set_lines [tok] b).
  { unfold nus_tx_access. rewrite He. cbn [ble_link_payload_permitted negb snd]. rewrite length_app. cbn [length].
    unfold tok_fits, CT_STRCMP_BOUND in Hfit. fold tok in Hfit. rewrite !(proj2 (Nat.ltb_lt _ _)) by (unfold BLE_RPC_BUF_SIZE; lia). cbn [andb].
    unfold process_ble_data. rewrite foldl_app. change (foldl process_ble_byte b tok) with (process_ble_data tok b).
    rewrite line_accumulates, Hline.
    - cbn [foldl app]. unfold process_ble_byte. clearbody tok. destruct b as [[co no au fa mt li] q p d n t0 a m bo st k0 ap lg].
      cbn [set_ble_line on_link bt_link bl_line bt_queue] in *. subst li q. cbn [Z.eqb Pos.eqb orb].
      rewrite (proj2 (Nat.ltb_lt 0 _)), (proj2 (Nat.ltb_lt (length tok) _)); [done|..]; unfold BLE_RPC_BUF_SIZE; [lia|]. destruct tok; [done|cbn; lia].
    - eapply Forall_impl; [exact Hchars|]. unfold token_char. intros c ?. lia.
    - rewrite Hline. cbn [length]. unfold BLE_RPC_BUF_SIZE. lia. }
  change ([?a; ?x; ?y] ++ ?z) with (a :: [x; y] ++ z). rewrite run_all_cons. cbn [mbind option_bind run_ble host_run sy_ble sy_task sy_pushes].
  rewrite Hwr. cbn [mbind option_bind]. destruct (reconnect_spec rcs rcs next (mk_sys (set_lines [tok] b) RpcWait l)) as (b2 & E2 & Q2 & T2 & C2 & A2).
  rewrite run_all_app, E2. cbn [mbind option_bind sy_ble sy_task sy_pushes] in *.
  assert (Ht2 : bt_tok b2 = bt_tok b) by by rewrite T2; destruct b. rewrite replicate_add, run_all_app.
  rewrite (token_line_accepted enc t tok b2 l); [|by rewrite Q2; destruct b|rewrite A2; by destruct b|by rewrite Ht2|done|rewrite Ht2; by split].
  cbn [mbind option_bind]. destruct (tasks_keep enc t k (mk_sys (set_authed true (set_lines [] b2)) RpcAccepted l)) as (s' & E & C & A).
  exists s'. split_and!; [done| |apply A; by destruct b2]. rewrite C. by destruct b2.
Qed.

(** A reply cut short by a disconnection goes on to the next client: the link is tested
    once, before the first piece, and the connection read again for each; the next piece
    goes out whatever the stack says of the new link. *)
Theorem reply_continues_to_next_client rcs rcs' enc next text mc off attempt refused s :
  sy_task s = RpcReply (mk_notify false text (NtSend mc off attempt)) refused →
  ∃ s' before, run_all [BGap rcs GapDisconnect; BGap rcs' (GapConnect 0 next); BTask enc (TrySend 0)] s = Some s' ∧
    log_of s' = before ++ [BleSent (Some next) false (chunk_at text off ((S (length text) - off) `min` mc)%nat)].
Proof.
  intros Hk. change [?a; ?x; ?y] with ([a; x] ++ [y]). destruct (reconnect_spec rcs rcs' next s) as (b & E & _ & _ & C & _).
  rewrite run_all_app, E. cbn [mbind option_bind]. unfold run_all. cbn [foldl mbind option_bind run_ble sy_ble sy_task sy_pushes].
  rewrite Hk. cbn [ble_rpc_task ble_notify_cb nt_pc nt_text nt_pushed Z.eqb BLE_HS_ENOMEM negb]. rewrite C. eexists _, (bt_log b). split; [done|].
  by destruct b.
Qed.
End Steps.

(** ** Replies in pieces *)

Lemma chunk_at_spec text off n : (0 < n)%nat → (off + n <= S (length text))%nat → chunk_at text off n = take n (drop off (text ++ [10])).
Proof.
  intros Hp Hn. unfold chunk_at. destruct (Nat.leb_spec (off + n) (length text)).
  { rewrite drop_app_le, take_app_le by (rewrite ?length_drop; lia). done. }
  destruct (Nat.ltb_spec off (length text)).
  - rewrite drop_app_le by lia. rewrite !take_ge; [done|rewrite length_app, length_drop; cbn; lia|rewrite length_drop; lia].
  - destruct n as [|n]; [lia|]. replace off with (length text) by lia. rewrite drop_app_length. by destruct n.
Qed.
(** The attempts of one call, with nothing else in between. *)
Fixpoint notify_run {App} (enc : Z → bool) (tries : list ble_try) (c : notify_t) (b : ble_t App) : option notify_t * ble_t App :=
  match tries with
  | [] => (Some c, b)
  | t :: tries =>
      match ble_notify_cb enc t c b with
      | (Some c, b) => notify_run enc tries c b
      | (None, b) => (None, b)
      end
  end.
Lemma log_event_link {App} e (b : ble_t App) : bt_link (log_event e b) = bt_link b ∧ bt_log (log_event e b) = bt_log b ++ [e].
Proof. by destruct b. Qed.
(** From [off] on the call sent pieces of its text, and all of it if [all]. *)
Definition pieces_sent {App} (pushed : bool) (text : list Z) (mc off : nat) (all : Prop) (b : ble_t App)
    (r : option notify_t * ble_t App) : Prop :=
  ∃ chunks rest, bt_log r.2 = bt_log b ++ map (BleSent (bl_conn (bt_link b)) pushed) chunks ∧
    drop off (text ++ [10]) = mjoin chunks ++ rest ∧ Forall (λ p, 0 < length p <= mc)%nat chunks ∧
    (all → rest = [] ∧ r.1 = None).
(** The stack takes every piece. *)
Definition takes_all (tries : list ble_try) (n : nat) : Prop := Forall (λ t, t = TrySend 0) tries ∧ (n <= length tries)%nat.
Lemma pieces_none {App} pushed text mc off (all : Prop) (b : ble_t App) c : (all → False) → pieces_sent pushed text mc off all b (c, b).
Proof. intros Hn. exists [], (drop off (text ++ [10])). cbn [map fst snd]. rewrite app_nil_r. by split_and!. Qed.
Lemma pieces_all {App} pushed text mc off (all all' : Prop) (b : ble_t App) r : (all' → all) → pieces_sent pushed text mc off all b r →
  pieces_sent pushed text mc off all' b r.
Proof. intros Ha (chunks & rest & ? & ? & ? & Hr). exists chunks, rest. split_and!; try done. intros ?. by apply Hr, Ha. Qed.
Lemma notify_run_spec {App} enc tries pushed text mc off attempt (b : ble_t App) : (0 < mc)%nat → (off <= length text)%nat →
  pieces_sent pushed text mc off (takes_all tries (S (length text) - off)) b
    (notify_run enc tries (mk_notify pushed text (NtSend mc off attempt)) b).
Proof.
  intros Hm. revert off attempt b. induction tries as [|t tries IH]; intros off attempt b Ho; cbn [notify_run].
  { apply pieces_none. intros [_ Hl]. cbn in Hl. lia. }
  assert (Hagain : t ≠ TrySend 0 → pieces_sent pushed text mc off (takes_all (t :: tries) (S (length text) - off)) b
    match (if (attempt + 1 <? 25)%nat then Some (mk_notify pushed text (NtSend mc off (attempt + 1))) else None, b) with
    | (Some c, b) => notify_run enc tries c b | (None, b) => (None, b) end).
  { intros Ht. assert (Hn : takes_all (t :: tries) (S (length text) - off) → False) by (intros [Hf _]; by inversion Hf).
    destruct (attempt + 1 <? 25)%nat; [|by apply pieces_none]. eapply pieces_all; [|by apply IH]. by intros ?%Hn. }
  unfold ble_notify_cb. cbn [nt_pc nt_pushed nt_text]. destruct t as [|rc]; [by apply Hagain|].
  destruct (Z.eqb_spec rc BLE_HS_ENOMEM) as [->|_]; [by apply Hagain|].
  destruct (Z.eqb_spec rc 0) as [->|Hrc]; cbn [negb]; [|apply pieces_none; intros [Hf _]; inversion Hf; by simplify_eq].
  clear Hagain. set (n := ((S (length text) - off) `min` mc)%nat). set (e := BleSent _ _ _). destruct (log_event_link e b) as [El Eg].
  assert (Hchunk : chunk_at text off n = take n (drop off (text ++ [10]))) by (apply chunk_at_spec; lia).
  assert (Hlen : (0 < length (chunk_at text off n) <= mc)%nat) by (rewrite Hchunk, length_take, length_drop, length_app; cbn [length]; lia).
  destruct (Nat.ltb_spec (off + n) (S (length text))) as [Hlt|Hge].
  - destruct (IH (off + n)%nat 0%nat (log_event e b) ltac:(lia)) as (chunks & rest & E1 & E2 & E3 & E4).
    exists (chunk_at text off n :: chunks), rest. rewrite El, Eg, <- app_assoc in E1. split_and!; [exact E1| |by constructor|].
    + change (mjoin (?x :: ?l)) with (x ++ mjoin l). by rewrite <- app_assoc, <- E2, Hchunk, <- drop_drop, take_drop.
    + intros [Hf Hl]. inversion Hf; simplify_eq. apply E4. split; [done|]. cbn [length] in Hl. lia.
  - exists [chunk_at text off n], []. cbn [map fst snd]. change (mjoin [?x]) with (x ++ []). rewrite Eg, !app_nil_r.
    split_and!; try done; [|by constructor]. rewrite Hchunk. symmetry. apply take_ge. rewrite length_drop, length_app. cbn [length]. lia.
Qed.
(** A reply goes out as pieces the negotiated size allows, none empty, whose
    concatenation is a beginning of the text and its newline, and all of it, the call
    having returned, when the stack takes every piece. *)
Theorem replies_reassemble {App} enc tries pushed text mtu (b : ble_t App) :
  let '(c, b') := notify_run enc tries (mk_notify pushed text (NtSend (max_chunk mtu) 0 0)) b in
  ∃ chunks, bt_log b' = bt_log b ++ map (BleSent (bl_conn (bt_link b)) pushed) chunks ∧
    Forall (λ p, 0 < length p <= max_chunk mtu)%nat chunks ∧ mjoin chunks `prefix_of` text ++ [10] ∧
    (Forall (λ t, t = TrySend 0) tries → (length text < length tries)%nat → c = None ∧ mjoin chunks = text ++ [10]).
Proof.
  assert (Hm : (0 < max_chunk mtu)%nat) by (unfold max_chunk; rewrite Z.gtb_ltb; destruct (Z.ltb_spec 3 mtu); lia).
  destruct (notify_run_spec enc tries pushed text (max_chunk mtu) 0 0 b Hm) as (chunks & rest & E1 & E2 & E3 & E4); [lia|].
  destruct (notify_run enc tries _ b) as [c b']. cbn [fst snd] in *. rewrite drop_0 in E2. exists chunks.
  split_and!; try done; [by exists rest|]. intros Hf Hl. destruct E4 as [-> ->]; [split; [done|lia]|]. by rewrite E2, app_nil_r.
Qed.

(** ** Pairing codes *)

(** A random code is one of a million, and as many words of the source give each. *)
Theorem pairing_codes_uniform code : 0 <= code < 1000000 → ∀ r, is_u32 r →
  random_passkey [Some r] = Some code ↔ ∃ k, 0 <= k < 4294 ∧ r = k * 1000000 + code.
Proof.
  intros Hc r Hr. unfold random_passkey, is_u32 in *. cbn [random_passkey_loop]. destruct (Z.ltb_spec r 4294000000) as [Hlt|Hge].
  - split.
    + intros [= <-]. exists (r / 1000000). pose proof (Z.div_mod r 1000000). split; [|lia].
      split; [apply Z.div_pos; lia|apply Z.div_lt_upper_bound; lia].
    + intros (k & Hk & ->). f_equal. rewrite Z.add_comm, Z.mod_add by lia. by apply Z.mod_small.
  - split; [done|]. intros (k & Hk & ->). lia.
Qed.
Lemma passkey_loop_range n s v v' rest m : passkey_loop n s v = Some (v', rest) → 0 <= v < 10 ^ Z.of_nat m → (m + n <= 6)%nat →
  0 <= v' < 10 ^ Z.of_nat (m + n).
Proof.
  revert s v m. induction n as [|n IH]; intros s v m; cbn [passkey_loop]; [intros [= <- <-]; by rewrite Nat.add_0_r|].
  destruct s as [|c s]; [done|]. destruct ((c <? 48) || (c >? 57)) eqn:E; [done|]. intros Hp Hv Hm.
  apply orb_false_iff in E as [E1%Z.ltb_ge E2]. rewrite Z.gtb_ltb in E2. apply Z.ltb_ge in E2.
  assert (Hp10 : 10 ^ Z.of_nat (S m) = 10 * 10 ^ Z.of_nat m) by (rewrite Nat2Z.inj_succ, Z.pow_succ_r by lia; done).
  assert (Hb : 10 ^ Z.of_nat (S m) <= 10 ^ 6) by (apply Z.pow_le_mono_r; lia).
  replace (m + S n)%nat with (S m + n)%nat by lia. apply (IH _ _ _ Hp); [|lia].
  unfold u32. rewrite !Z.mod_small by lia. lia.
Qed.
(** The mode a client must pair in, and the code it must enter, follow the policy: with
    a display or a stored code no pairing goes without a code, and a code that is set
    invalidates every earlier pairing. *)
Theorem passkey_change_unpairs {App} (s : ble_t App) v wipe_rc set_ok :
  bt_display s = false →
  let '(ok, s') := handle_set_ble_passkey (PkString v) wipe_rc set_ok true s in
  if ok then bt_bonds s' = [] ∧
    match ble_pairing_passkey_parse v with
    | Some code => bt_static s' = Some code ∧ 0 <= code < 1000000 ∧ bt_mitm s' = true
    | None => v = [] ∧ bt_static s' = None ∧ bt_mitm s' = false
    end
  else bt_static s' = bt_static s ∧ bt_mitm s' = bt_mitm s.
Proof.
  intros Hd. unfold handle_set_ble_passkey. rewrite Hd. destruct (ble_pairing_passkey_parse v) as [code|] eqn:Ep.
  - assert (Hc : v ≠ [] ∧ 0 <= code < 1000000).
    { unfold ble_pairing_passkey_parse in Ep. apply bind_Some in Ep as ([c rest] & E & Er). split; [by intros ->|].
      destruct rest; [|done]. injection Er as <-. by apply (passkey_loop_range 6 v 0 c [] 0 E). }
    destruct Hc as [Hv Hr]. destruct v as [|x v]; [done|]. cbn [negb andb].
    unfold ble_server_wipe_bonds. destruct s. cbn in *. subst. destruct (wipe_rc =? 0); cbn; [|done]. by destruct set_ok.
  - destruct v as [|x v]; cbn [negb andb]; [|done]. unfold ble_server_wipe_bonds. destruct s. cbn in *. subst.
    destruct (wipe_rc =? 0); cbn; [|done]. by destruct set_ok.
Qed.

(** ** The node stays reachable *)

Section Reachable.
Context `{JS : Json} {App : Type} (methods : list (list Z * @handler JS App)).
Implicit Types (b : ble_t App) (s : ble_sys App).

(** Without a client the node advertises, or a timer runs that will try again. *)
Definition reachable b : Prop :=
  is_Some (bt_timer b) ∧ (bl_conn (bt_link b) = None → bt_adv b = true ∨ ∃ p, bt_timer b = Some (Some p)).
(** The part of the state that says so. *)
Definition adv_view b : option Z * bool * option (option Z) := (bl_conn (bt_link b), bt_adv b, bt_timer b).
Lemma reachable_view b b' : adv_view b' = adv_view b → reachable b → reachable b'.
Proof. unfold adv_view, reachable. intros [= -> -> ->]. done. Qed.
Lemma advertising_reachable rcs b b' : is_Some (bt_timer b) → start_advertising rcs b = Some b' → reachable b'.
Proof.
  intros [t Ht] E. destruct rcs as [[r1 r2] r3]. unfold start_advertising in E. apply bind_Some in E as (n & _ & [= <-]).
  unfold schedule_adv_retry. destruct b. cbn in *. subst.
  repeat case_match; split; cbn; try done; intros _; solve [by left|right; by eexists].
Qed.
Lemma log_view e b : adv_view (log_event e b) = adv_view b. Proof. by destruct b. Qed.
Lemma notify_view enc t c b : adv_view (ble_notify_cb enc t c b).2 = adv_view b.
Proof. unfold ble_notify_cb. repeat case_match; cbn [snd]; rewrite ?log_view; done. Qed.
Lemma method_view line authed b : adv_view (run_method methods line authed b).2 = adv_view b.
Proof. unfold run_method. destruct (rpc_dispatch_authed _ _ _ _ _) as [[[rc resp] app] [m|]]; cbn [snd]; rewrite ?log_view; by destruct b. Qed.
Lemma task_view enc t pc b : adv_view (ble_rpc_task methods enc t pc b).2 = adv_view b.
Proof.
  destruct pc as [|line|line au|line| | | |c refused| | |]; cbn [ble_rpc_task snd]; try done; try (by destruct b).
  - destruct (bt_queue b); [done|by destruct b].
  - apply method_view.
  - pose proof (notify_view enc t c b) as Hv. by destruct (ble_notify_cb enc t c b).
  - destruct (bl_conn (bt_link b)); [apply log_view|done].
Qed.
Lemma data_view data b : adv_view (process_ble_data data b) = adv_view b.
Proof.
  unfold process_ble_data. revert b. induction data as [|c data IH]; intros b; cbn [foldl]; [done|]. rewrite IH.
  unfold process_ble_byte. destruct b. repeat case_match; done.
Qed.
Lemma passkey_view pk wipe so go b : adv_view (handle_set_ble_passkey pk wipe so go b).2 = adv_view b.
Proof.
  unfold handle_set_ble_passkey, ble_server_wipe_bonds, apply_pairing_policy. destruct b. cbn. repeat (case_match; simplify_eq/=); done.
Qed.
(** The address can always be set up. *)
Definition op_ensured (op : ble_op) : Prop := match op with BSync ens _ => ens = true | _ => True end.
Lemma gap_reachable rcs e b b' : reachable b → gap_event_handler rcs e b = Some b' → reachable b'.
Proof.
  intros [Ht Hr]. destruct e as [status conn| |rx cur|conn status|peer|conn disp words ok|value]; cbn [gap_event_handler].
  - destruct (status =? 0); [|apply advertising_reachable; by destruct b]. intros [= <-]. by destruct b.
  - set (b1 := hide_code _). assert (H1 : is_Some (bt_timer b1)) by (unfold b1, hide_code; destruct b; cbn in *; by case_match).
    destruct (_ =? 0); [by apply advertising_reachable|]. destruct (bt_timer b1) as [t|]; [|by destruct H1].
    intros [= <-]. clearbody b1. destruct b1. split; cbn; [done|]. intros _. right. by eexists.
  - intros [= <-]. eapply (reachable_view b); [|done]. by destruct rx, b.
  - intros [= <-]. eapply (reachable_view b); [|done]. unfold hide_code. destruct b. repeat case_match; done.
  - intros [= <-]. eapply (reachable_view b); [|done]. by destruct peer, b.
  - intros [= <-]. eapply (reachable_view b); [|done]. repeat case_match; rewrite ?log_view; done.
  - intros [= <-]. eapply (reachable_view b); [|done]. by destruct b.
Qed.
Lemma host_reachable op b b' : op_ensured op → reachable b → host_run op b = Some b' → reachable b'.
Proof.
  intros Ho Hr. destruct op as [rcs e|enc conn w fl data|enc t|text|i enc t|rcs|ens rcs|tok|pk wipe so go]; cbn [host_run op_ensured] in *;
    try (by intros [= <-]).
  - by apply gap_reachable.
  - intros [= <-]. eapply reachable_view; [|exact Hr]. unfold nus_tx_access. repeat case_match; cbn [snd]; rewrite ?data_view; done.
  - unfold adv_retry_cb. destruct (bt_timer b) as [[p|]|] eqn:Et; [|by intros [= <-]..].
    destruct (bl_conn (bt_link (set_timer (Some None) b))) as [c|] eqn:Ec.
    { intros [= <-]. split; [by destruct b|]. by rewrite Ec. }
    destruct (bt_adv (set_timer (Some None) b)) eqn:Ea; [|apply advertising_reachable; by destruct b].
    intros [= <-]. split; [by destruct b|]. by left.
  - subst. unfold on_sync. cbn [negb]. destruct Hr as [Ht _]. apply advertising_reachable. by destruct b.
  - intros [= <-]. eapply (reachable_view b); [|done]. by destruct b.
  - intros [= <-]. eapply reachable_view; [apply passkey_view|done].
Qed.
Lemma step_reachable op s s' : op_ensured op → reachable (sy_ble s) → run_ble methods op s = Some s' → reachable (sy_ble s').
Proof.
  intros Ho Hr E. assert (Hh : ∀ b', host_run op (sy_ble s) = Some b' → reachable b') by (intros b'; by apply host_reachable).
  destruct op; cbn [run_ble] in E; try (apply bind_Some in E as (b' & E & [= <-]); by apply Hh).
  - pose proof (task_view enc t (sy_task s) (sy_ble s)) as Hv. destruct (ble_rpc_task _ _ _ _ _) as [pc b]. injection E as <-.
    by eapply reachable_view.
  - injection E as <-. unfold ble_notify_transport_cb. by case_match.
  - injection E as <-. unfold push_step. destruct (sy_pushes s !! i) as [c|]; [|done]. pose proof (notify_view enc t c (sy_ble s)) as Hv.
    destruct (ble_notify_cb enc t c (sy_ble s)) as [c' b]. by eapply reachable_view.
Qed.
(** A node without a client never goes silent: from its first start on, whatever the
    stack answers, it advertises or has a timer running that will try again. *)
Theorem keeps_advertising rcs ops s0 s :
  is_Some (bt_timer (sy_ble s0)) → Forall op_ensured ops → run_all methods (BSync true rcs :: ops) s0 = Some s → reachable (sy_ble s).
Proof.
  intros Ht. revert s. induction ops as [|op ops IH] using rev_ind; intros s Ho.
  - unfold run_all. cbn [foldl mbind option_bind run_ble host_run]. intros (b & E & [= <-])%bind_Some. revert E. apply advertising_reachable.
    by destruct (sy_ble s0).
  - rewrite app_comm_cons, run_all_snoc. intros (s1 & E1 & E2)%bind_Some. apply Forall_app in Ho as [Ho1 Ho2]. inv_Forall.
    eapply step_reachable; [done|by apply IH|done].
Qed.
End Reachable.

(** ** Examples *)

#[local] Existing Instance toy_json.
Definition idle_ble : ble_sys nat :=
  mk_sys (ble_server_init None (Some 48879) true false true [] None (mk_tok (str_bytes "0123456789ABCDEF") false false) 0%nat) RpcWait [].
Definition secure : Z → bool := λ _, true.
Definition fine : Z * Z * Z := (0, 0, 0).
Definition sent : ble_op := BTask secure (TrySend 0).
(** A client proves the token, is answered, and sends a line. *)
Definition ble_day : list ble_op :=
  [BSync true fine; BGap fine (GapConnect 0 1); BGap fine (GapSubscribe true true);
   BWrite secure 1 true true (str_bytes "0123456789ABCDEF" ++ [10])] ++ replicate 11 sent ++
  [BWrite secure 1 true true (str_bytes "bramble.reboot" ++ [10]); sent; sent].
Example ble_day_runs :
  ∃ s line, run_all toy_methods ble_day idle_ble = Some s ∧ sy_task s = RpcCall line true ∧ conn_of s = Some 1 ∧ length (log_of s) = 4%nat.
Proof. eexists _, _. split; [vm_compute; reflexivity|]. by split. Qed.
Lemma bluetooth_access_proven_witness :
  ∃ s s' new, run_all toy_methods ble_day idle_ble = Some s ∧ run_ble toy_methods sent s = Some s' ∧
    log_of s' = log_of s ++ new ∧ Forall (ble_justified toy_methods idle_ble ble_day sent s) new.
Proof.
  apply (bluetooth_access_proven toy_methods idle_ble ble_day sent); [reflexivity|vm_compute; lia|reflexivity|reflexivity| |exact I].
  repeat constructor.
Defined.
Definition first_client : ble_sys nat :=
  match run_all toy_methods [BSync true fine; BGap fine (GapConnect 0 1)] idle_ble with Some s => s | None => idle_ble end.
Lemma queued_token_admits_next_client_witness :
  ∃ s', run_all toy_methods ([BWrite secure 1 true true (str_bytes "0123456789ABCDEF" ++ [10]); BGap fine GapDisconnect;
                              BGap fine (GapConnect 0 2)] ++ replicate (4 + 10) sent) first_client = Some s' ∧
    conn_of s' = Some 2 ∧ authed_of s' = true.
Proof.
  apply (queued_token_admits_next_client toy_methods fine secure (TrySend 0) 1 2 10 first_client); try reflexivity; try done.
  - vm_compute. lia.
  - repeat (constructor; [unfold token_char; vm_compute; split; reflexivity|]). constructor.
Defined.
(** The task stopped between two pieces of its answer to the token. *)
Definition mid_reply : ble_sys nat :=
  match run_all toy_methods (take 4 ble_day ++ replicate 10 sent) idle_ble with Some s => s | None => idle_ble end.
Lemma reply_continues_to_next_client_witness :
  ∃ s' before, run_all toy_methods [BGap fine GapDisconnect; BGap fine (GapConnect 0 2); BTask (λ _, false) (TrySend 0)] mid_reply = Some s' ∧
    log_of s' = before ++ [BleSent (Some 2) false (chunk_at ok_text 40 ((S (length ok_text) - 40) `min` 20)%nat)].
Proof.
  apply (reply_continues_to_next_client toy_methods fine fine (λ _, false) 2 ok_text 20 40 0 false mid_reply). vm_compute. reflexivity.
Defined.
Lemma keeps_advertising_witness :
  reachable (sy_ble (match run_all toy_methods (BSync true (6, 0, 0) :: [BTimer fine]) idle_ble with Some s => s | None => idle_ble end)).
Proof. apply (keeps_advertising toy_methods (6, 0, 0) [BTimer fine] idle_ble); [by eexists|by repeat constructor|reflexivity]. Defined.
